(* ===== verification/_CoqProject ===== *)
-Q . S2P
Prelude.v
OrdMap.v
ChainDeps.v
Walks.v
LoopCheck.v
Levels.v
Breaks.v
Chain.v
Lane.v
Text.v
Regex.v
ParamFile.v
InstFile.v
Util.v
RubyConfig.v
Histogram.v
BoostGraph.v
Address.v
Replacement.v
PrioHeap.v
EventQueue.v
MessageBuffer.v
MessageFifo.v
HashMap.v
TimerTable.v
TBETable.v
Sequencer.v
CacheMemory.v
NodeSet.v
NetDest.v
ComponentMapping.v
DirectoryMemory.v
Topology.v
SwitchTree.v
TopologyKinds.v
TopologyRoutes.v
NetworkFile.v
NetStore.v
PerfectSwitch.v
SwitchWakeup.v
Throttle.v
ThrottleWakeup.v
Switch.v
SimpleNetwork.v
NetworkStep.v
NetworkBuild.v
NetworkDelivery.v
MemoryControl.v
MemoryCycle.v
MemoryRun.v
MemoryTiming.v
MemoryOrder.v
BloomTable.v
Bloom.v
BloomSpec.v
BloomHash.v
BloomGeneric.v
DataBlock.v
StoreCache.v
StoreBuffer.v
Tso.v
TsoRefine.v
PersistentTable.v
PersistentSpec.v
PersistentArbiter.v
Graph.v
GraphRead.v
GraphChains.v
LiveLimit.v
GraphInit.v
Memory.v
RubySystem.v
Core.v
CoreSched.v
CoreCycle.v
CoreStart.v
CoreLive.v
ChainSaw.v
