(* ===== verification/Prelude.v ===== *)
(** * ChainSaw-Sim: a verification development

    ChainSaw-Sim is a cycle-level simulator of the ChainSaw accelerator: a data
    flow graph is cut into chains, the chains run on lanes, and loads and stores
    go through a small front end to the Ruby memory system of the GEMS library.
    This library models the simulator and the parts of Ruby under it as
    executable functions and proves that they do what they are meant to do.

    ** How the program is put together

    - [src/src/newGraph.cpp] reads the graph of a program (boost, dot files),
      numbers its chains, checks the chain graph for loops, breaks chains until
      it has none and merges chains that can follow each other, and computes the
      levels of the chains;
    - [src/src/Core.cpp], [Lane.cpp], [Memory.cpp], [Chain.cpp] run the chains:
      a scheduler puts ready chains on lanes, lanes fetch, execute and commit
      instructions, memory instructions go through the MSHR;
    - [src/src/ChainSaw.cpp] ([main]) alternates between sending the requests of
      a host trace to Ruby and running the accelerator on a chunk;
    - [src/gems-lib/ruby_clean] is Ruby: an event queue wakes consumers,
      sequencers issue requests to caches, message buffers carry messages through
      a network of switches and throttles whose routing comes from the topology;
    - [src/gems-lib/common] holds the heap under the event queue and the buffers.

    ** Files

    General: [Prelude] (faults, the error monad, machine integers, loop rules,
    sums), [OrdMap] (ordered maps of the C++ library as sorted lists), [HashMap]
    (the hash map of GEMS), [Text] and [Util] (the string and number functions of
    the parsers), [Regex] (regular expressions of the C++ library), [ParamFile],
    [InstFile] ([Parameter.cpp] and [Instruction.cpp]), [Histogram] (counting
    maps).

    Graph and chains: [BoostGraph] (adjacency lists as the program uses them),
    [ChainDeps] (dependencies between chains, [newGraph.cpp] 20-129), [Walks],
    [LoopCheck] (the loop check), [Levels] (longest-path levels), [Breaks]
    (breaking and merging), [GraphRead] (reading the graph), [GraphChains] (chain
    numbers, blocks, chain graph, ILP graph), [LiveLimit] (the two passes that
    limit live values, whose calls are commented out), [Graph] (exports the
    first of these), [GraphInit] ([newGraph::initialize], the composition).

    Accelerator: [Chain] ([Chain.cpp]), [Lane] ([Lane.cpp]), [Memory]
    ([Memory.cpp], with the classes [RubyPort] and [RubyLaws] that state what the front end
    needs of Ruby), [Core] (the state and operations of [Core.cpp]), [CoreSched]
    (the schedulers), [CoreCycle] (a cycle), [CoreStart] (start-up and a whole
    run with a memory of fixed latency), [CoreLive] (a whole run with Ruby),
    [ChainSaw] (the loop of [main]).

    Ruby, configuration: [RubyConfig] ([RubyConfig::init]), [ComponentMapping]
    (addresses to banks and directories, machines to chips).

    Ruby, processors and caches: [Address], [Sequencer], [RubySystem] (driver,
    sequencer and event queue behind the interface of [Memory]), [Replacement]
    (replacement policies behind one interface), [CacheMemory], [DataBlock],
    [StoreCache], [StoreBuffer] (the store buffer), [Tso], [TsoRefine] (total
    store order and its refinement), [TimerTable], [TBETable], [DirectoryMemory],
    [PersistentTable], [PersistentSpec] (persistent requests, over an interface of
    containers), [PersistentArbiter], [BloomTable], [Bloom], [BloomHash],
    [BloomGeneric] (the signatures), [BloomSpec] (what they promise).

    Ruby, events and network: [PrioHeap], [EventQueue], [MessageBuffer],
    [MessageFifo] (a strict buffer is a list queue), [NodeSet], [NetDest] (bit
    vectors as sets), [Topology], [SwitchTree] (links, shortest paths, routing
    entries, the hierarchical switch), [TopologyKinds] (the other topologies),
    [TopologyRoutes], [NetworkFile] (their theorems), [NetStore] (the objects
    network components share), [PerfectSwitch], [SwitchWakeup] (the switch),
    [Throttle], [ThrottleWakeup] (a link with limited bandwidth), [Switch],
    [SimpleNetwork] (switches with their links, the network), [NetworkBuild] (its
    construction), [NetworkStep], [NetworkDelivery] (its steps and what they
    deliver).

    Ruby, memory: [MemoryControl] (the controller), [MemoryCycle] (its invariant),
    [MemoryRun], [MemoryTiming], [MemoryOrder] (runs, timing and order).

    ** How the code is modelled

    A function that can fail returns [outcome]: a failing [assert], an index out
    of range, a dereferenced end iterator, an escaping exception, a shift out of
    range and a division by zero are different values ([fault]), so that theorems
    say which of them cannot happen; a call that ends the program with an error
    message counts as a failing assertion.  An entry of a queue that the code
    reads through a reference after popping it ([Core.v]) has the value it had.
    State is passed explicitly; objects
    reached through more than
    one pointer (instructions and chains of a [Core], messages, buffers,
    consumers) live in stores indexed by [nat] or [Z].  [uint32_t] and [int]
    arithmetic wraps explicitly ([u32], [i32], [u64]) wherever the program relies
    on it or could leave the range; [Time] is [Z].  [std::map] is a sorted
    association list, [std::set] a sorted list, [Vector] a list, the hash map of
    GEMS a [gmap] with the order of its keys a parameter.  Loops are folds
    or recursion on fuel; where fuel is used a theorem gives an amount that is
    enough: the number of vertices for the levels, the total length of the chains
    for breaking and merging, the size of the heap for sifting, one more than the
    pending events for a cycle of the event queue, the number of waiting messages
    for the loops of switch and throttle, [path_fuel] (the sum of all distances)
    for the shortest paths, the number of nodes for the levels of the switch
    tree, 64 halvings for a logarithm, and an explicit measure of the work left
    ([CoreLive.measure], [ChainSaw.chunk_fuel], [ChainSaw.host_fuel]) for whole
    runs.

    Outside code is a parameter: the program options, the boost readers and
    [std::sort] (a permutation), [random()] (a stream), the caches and protocol
    behind the sequencer (a responder with a bounded delay), what a driver writes
    into the block it is handed (a function that keeps its place and size), the
    fields and entries protocols add to messages, caches, directories and
    transaction buffers.

    ** What the theorems show

    - Files: for parameter and instruction files, what the expressions of the
      source find in any text, and what the reader makes of the usual lines
      (including where comments are mistaken); the labels of vertices likewise;
      the map of the addresses fails exactly on a malformed line.
    - Graph: the loop check answers true exactly when a loop is reachable; the
      levels are the longest paths; breaking ends, keeps every vertex once and
      leaves no edge into or out of the middle of a chain; merging keeps the
      dependencies acyclic; the chain graph and the ILP graph have the right
      edges; [initialize] as a whole returns them or fails in one of four ways,
      each in the case stated (the check for loops, and three iterators).
    - Accelerator: start-up builds a consistent core; every cycle keeps the
      invariant and faults nowhere; lanes run their chain in order and drain; the
      schedulers start only chains whose dependencies are met; a run ends within
      a given number of cycles, with a memory of fixed latency or with Ruby; the
      loop of [main] ends and answers every request.
    - Events and buffers: the heap is a priority queue; the event queue wakes each
      consumer in the cycle it was scheduled for, once; a strict message buffer
      refines a list queue.
    - Processors and caches: the sequencer with its driver implements the
      interface the front end was proved against; the cache array refines a map;
      the store buffer refines the machine of total store order, and its own
      processor cannot see it, but for loads tried against it inside a line,
      whose wrong answers are stated; the tables of persistent requests refine a map and
      let nobody overtake, the arbiter is fair; timers, transaction buffers and
      the directory are the maps they look like; Bloom filters have no false
      negatives and answer exactly by the marks of their addresses, as long as
      an address fits and counting has not cleared them.
    - Configuration: [init] accepts exactly the parameters its checks and the size
      of the memory allow, and computes consistent numbers from them; addresses
      and places in the memories correspond one to one, and every chip has one
      bank for an address.
    - Network: node sets and network destinations refine finite sets; all five
      topologies connect the network, which network files are accepted and what
      links they give; a wakeup of a switch or a throttle never fails, loses or duplicates no
      delivery and never forgets to wake up again; the network delivers each
      message to each of its destinations exactly once.
    - Memory controller: the timing rules of the banks hold between any commands,
      requests of a bank are served in order, and a request is scheduled within a
      bounded time.

    ** Not modelled

    Reading dot files and program options (boost), the text of statistics and
    csv files beyond the numbers in them; of Ruby the SLICC protocols and their generator, the
    garnet networks and the power model, transactional memory, prefetchers, the
    DRAMsim glue, profilers, testers, recorders and Simics glue: generated code,
    other programs' interfaces, or code the simulator is not built with. *)

From stdpp Require Export base tactics list strings sets.
From Stdlib Require Export ZArith Lia.

(** ** Faults and the error monad

    A C++ function of the program either returns, or stops at an [assert], or
    runs into undefined behaviour (an index past the end of a vector, a
    dereferenced end iterator), or lets an exception escape.  A model that
    recurses on fuel has one more way to stop, [NoFuel]; for every such
    function a theorem gives the fuel that is enough. *)

Inductive fault :=
  | AssertFailed      (** an [assert] of the source does not hold *)
  | OutOfBounds       (** a vector or array indexed past its end *)
  | BadDeref          (** an end iterator (or a null pointer) dereferenced *)
  | Uncaught          (** an exception leaves the function *)
  | DivByZero         (** an integer division by zero *)
  | BadShift          (** a shift by a negative count or past the width *)
  | NoFuel.           (** artefact of the model: the fuel was too small *)

Inductive outcome (A : Type) :=
  | Ret (a : A)
  | Raise (e : fault).
Arguments Ret {A} _.
Arguments Raise {A} _.

#[export] Instance fault_eq_dec : EqDecision fault.
Proof. solve_decision. Defined.

#[export] Instance outcome_ret : MRet outcome := @Ret.

#[export] Instance outcome_bind : MBind outcome := λ A B f m,
  match m with Ret a => f a | Raise e => Raise e end.

Declare Scope csim_scope.
Delimit Scope csim_scope with csim.
Open Scope csim_scope.

(** [assert(b)] of the source. *)
Definition assertb (b : bool) : outcome unit :=
  if b then Ret tt else Raise AssertFailed.

(** [v[i]] of the source, with the bounds the language leaves undefined. *)
Definition at_idx {A} (l : list A) (i : nat) : outcome A :=
  match l !! i with Some x => Ret x | None => Raise OutOfBounds end.
Notation "l .[ i ]!" := (at_idx l i) (at level 1, left associativity) : csim_scope.

(** [v[i]] and [v[i] = x] with an [int] index. *)
Definition at_int {A} (l : list A) (i : Z) : outcome A :=
  if (i <? 0)%Z then Raise OutOfBounds else at_idx l (Z.to_nat i).

Definition set_int {A} (l : list A) (i : Z) (x : A) : outcome (list A) :=
  _ ← at_int l i; Ret (<[Z.to_nat i := x]> l).

(** Dereference of an iterator: [None] is the end iterator. *)
Definition deref {A} (o : option A) : outcome A :=
  match o with Some x => Ret x | None => Raise BadDeref end.

(** A range-for loop whose body may fault. *)
Fixpoint foldM {A B} (f : B → A → outcome B) (b : B) (l : list A) : outcome B :=
  match l with
  | [] => Ret b
  | x :: l' => b' ← f b x; foldM f b' l'
  end.

Definition is_ret {A} (m : outcome A) : bool :=
  match m with Ret _ => true | Raise _ => false end.

(** ** Machine integers: the unsigned types wrap, written out. *)

Definition u32 (z : Z) : Z := z `mod` 2 ^ 32.
Definition u64 (z : Z) : Z := z `mod` 2 ^ 64.
(** Conversion of a value to [int32_t] (two's complement). *)
Definition i32 (z : Z) : Z := (z + 2 ^ 31) `mod` 2 ^ 32 - 2 ^ 31.

(** [std::find] as an index, the end iterator being [None]. *)
Definition find_index {A} (p : A → bool) (l : list A) : option nat :=
  fst <$> list_find (λ x, Is_true (p x)) l.

Arguments find_index : simpl never.
Arguments u32 : simpl never.
Arguments u64 : simpl never.
Arguments i32 : simpl never.

(** Sum of the lengths of the chains of a decomposition. *)
Definition total_len {A} (ls : list (list A)) : nat := length (concat ls).

(** Sum of an integer measure over a list. *)
Definition zsum {A} (f : A → Z) (l : list A) : Z := foldr (λ x s, f x + s)%Z 0%Z l.

(** ** Tactics *)

(** Split the binds of a hypothesis that says a computation returned. *)
Ltac unbind H :=
  repeat match type of H with
  | mbind _ ?m = Ret _ =>
      let E := fresh "E" in
      destruct m eqn:E; cbn [mbind outcome_bind] in H; [| discriminate H]
  end.

(** Case split on the scrutinee of the first [match] or [if] of the goal. *)
Ltac case_goal :=
  match goal with
  | |- context [match ?x with _ => _ end] => destruct x eqn:?
  end.

(** Case split on the membership of a concrete list. *)
Ltac elem_cases H :=
  cbn in H; apply list_elem_of_In in H; cbn in H;
  repeat match type of H with
  | _ ∨ _ => destruct H as [H|H]; [try discriminate H; simplify_eq|]
  | False => destruct H
  end.

(** [NoDup] of a concrete list of naturals. *)
Ltac solve_NoDup :=
  cbn; repeat (apply NoDup_cons_2; [let H := fresh in intros H; elem_cases H; lia|]);
  apply NoDup_nil_2.

Create HintDb csim.

(** ** Generic lemmas *)

Lemma bind_ret_inv {A B} (f : A → outcome B) (m : outcome A) (b : B) :
  mbind f m = Ret b → ∃ a, m = Ret a ∧ f a = Ret b.
Proof. destruct m as [a | e]; cbn; [eauto | discriminate]. Qed.

Lemma assertb_ret (b : bool) (u : unit) : assertb b = Ret u ↔ b = true.
Proof. destruct b, u; cbn; split; congruence. Qed.

Lemma at_idx_ret {A} (l : list A) i x : at_idx l i = Ret x ↔ l !! i = Some x.
Proof. unfold at_idx. destruct (l !! i); split; congruence. Qed.

Lemma at_idx_Some {A} (l : list A) i x : l !! i = Some x → at_idx l i = Ret x.
Proof. intros Hi. by apply at_idx_ret. Qed.

Lemma at_idx_lt {A} (l : list A) i : i < length l → ∃ x, at_idx l i = Ret x.
Proof.
  intros [x Hx]%lookup_lt_is_Some. exists x. by apply at_idx_ret.
Qed.

Lemma foldM_app {A B} (f : B → A → outcome B) b l1 l2 :
  foldM f b (l1 ++ l2) = (b' ← foldM f b l1; foldM f b' l2).
Proof.
  revert b; induction l1 as [|x l1 IH]; intros b; cbn; [done|].
  destruct (f b x); cbn; [apply IH | done].
Qed.

(** Loop rule: an invariant of the body is an invariant of the loop. *)
Lemma foldM_inv {A B} (P : B → Prop) (f : B → A → outcome B) l :
  (∀ b x b', x ∈ l → P b → f b x = Ret b' → P b') →
  ∀ b b', P b → foldM f b l = Ret b' → P b'.
Proof.
  induction l as [|x l IH]; intros Hstep b b' Hb; cbn; [by intros [= <-]|].
  intros (b1 & H1 & H2)%bind_ret_inv.
  eapply IH; [| |exact H2]; [|eapply Hstep; [|exact Hb|exact H1]; set_solver].
  intros b2 y b3 Hy. apply Hstep. set_solver.
Qed.

(** Loop rule for progress: under an invariant, no iteration faults. *)
Lemma foldM_total {A B} (P : B → Prop) (f : B → A → outcome B) l :
  (∀ b x, x ∈ l → P b → ∃ b', f b x = Ret b' ∧ P b') →
  ∀ b, P b → ∃ b', foldM f b l = Ret b' ∧ P b'.
Proof.
  induction l as [|x l IH]; intros Hstep b Hb; cbn; [eauto|].
  destruct (Hstep b x ltac:(set_solver) Hb) as (b1 & -> & H1). cbn.
  apply IH; [|done]. intros b2 y Hy. apply Hstep. set_solver.
Qed.

(** Loop rule for a counted loop: the invariant speaks of the next index. *)
Lemma foldM_seq {B} (P : nat → B → Prop) (f : B → nat → outcome B) n b :
  P 0 b → (∀ i b, i < n → P i b → ∃ b', f b i = Ret b' ∧ P (S i) b') →
  ∃ b', foldM f b (seq 0 n) = Ret b' ∧ P n b'.
Proof.
  intros Hb Hstep.
  assert (Hgen : ∀ k i b, i + k = n → P i b → ∃ b', foldM f b (seq i k) = Ret b' ∧ P n b').
  { induction k as [|k IH]; intros i c Hi Hc; cbn.
    - exists c. split; [done|]. by replace n with i by lia.
    - destruct (Hstep i c) as (c' & -> & Hc'); [lia|done|]. cbn. apply (IH (S i)); [lia|done]. }
  by apply (Hgen n 0 b).
Qed.

(** Loop rule for a loop over a list: the invariant speaks of the position. *)
Lemma foldM_list {A B} (P : nat → B → Prop) (f : B → A → outcome B) l b :
  P 0 b → (∀ i x b, l !! i = Some x → P i b → ∃ b', f b x = Ret b' ∧ P (S i) b') →
  ∃ b', foldM f b l = Ret b' ∧ P (length l) b'.
Proof.
  revert P b. induction l as [|x l IH]; intros P b Hb Hstep; [by exists b|].
  destruct (Hstep 0 x b eq_refl Hb) as (b1 & E & H1). cbn. rewrite E. cbn.
  apply (IH (λ i, P (S i))); [done|]. intros i y c Hy. by apply (Hstep (S i)).
Qed.

Lemma foldM_ret {A B} (f : B → A → B) b l :
  foldM (λ b x, Ret (f b x)) b l = Ret (foldl f b l).
Proof. revert b; induction l as [|x l IH]; intros b; cbn; [done|apply IH]. Qed.

(** A loop whose body only appends. *)
Lemma foldM_append {A B} (f : list B → A → outcome (list B)) (g : A → list B) l :
  (∀ b x, x ∈ l → f b x = Ret (b ++ g x)) →
  ∀ b, foldM f b l = Ret (b ++ (l ≫= g)).
Proof.
  induction l as [|x l IH]; intros Hf b; cbn; [by rewrite app_nil_r|].
  rewrite Hf by set_solver. cbn. rewrite IH by (intros; apply Hf; set_solver).
  by rewrite <- app_assoc.
Qed.

(** A nested loop over pairs is a loop over the flattened list of pairs. *)
Lemma foldl_flatten {A B C} (f : C → A → B → C) l (b : C) :
  foldl (λ b '(x, ys), foldl (λ b y, f b x y) b ys) b l =
  foldl (λ b '(x, y), f b x y) b (l ≫= λ '(x, ys), pair x <$> ys).
Proof.
  revert b. induction l as [|[x ys] l IH]; intros b; cbn; [done|].
  rewrite foldl_app, IH. f_equal. clear IH.
  revert b. induction ys as [|y ys IH]; intros b; cbn; [done|apply IH].
Qed.

Lemma u32_id z : (0 ≤ z < 2 ^ 32)%Z → u32 z = z.
Proof. apply Z.mod_small. Qed.

Lemma i32_id z : (- 2 ^ 31 ≤ z < 2 ^ 31)%Z → i32 z = z.
Proof. intros Hz. unfold i32. rewrite Z.mod_small; lia. Qed.

Lemma u32_range z : (0 ≤ u32 z < 2 ^ 32)%Z.
Proof. unfold u32. apply Z.mod_pos_bound. lia. Qed.

Lemma find_index_Some {A} (p : A → bool) l i :
  find_index p l = Some i ↔
  ∃ x, l !! i = Some x ∧ p x = true ∧ ∀ j y, l !! j = Some y → j < i → p y = false.
Proof.
  unfold find_index. split.
  - intros ([j x] & E & [= <-])%fmap_Some.
    apply list_find_Some in E as (H1 & H2 & H3). cbn in *.
    exists x. split_and!; [done|by apply Is_true_true|].
    intros k y Hk Hlt. destruct (p y) eqn:Ep; [|done].
    exfalso. eapply H3; eauto.
  - intros (x & H1 & H2 & H3). apply fmap_Some. exists (i, x). split; [|done].
    apply list_find_Some. split_and!; [done|cbn; by rewrite H2|].
    intros k y Hk Hlt; cbn; rewrite (H3 k y Hk Hlt); cbn; tauto.
Qed.

Lemma find_index_None {A} (p : A → bool) l :
  find_index p l = None ↔ ∀ x, x ∈ l → p x = false.
Proof.
  unfold find_index. rewrite fmap_None, list_find_None, Forall_forall.
  split; intros H x Hx; specialize (H x Hx); cbn in *;
    destruct (p x); cbn in *; try done; try congruence; tauto.
Qed.

Lemma find_index_lt {A} (p : A → bool) l i : find_index p l = Some i → i < length l.
Proof.
  rewrite find_index_Some. intros (x & H & _). by apply lookup_lt_Some in H.
Qed.

Lemma NoDup_map_inj {A B} (f : A → B) l x y :
  NoDup (map f l) → x ∈ l → y ∈ l → f x = f y → x = y.
Proof.
  intros Hnd [i Hi]%list_elem_of_lookup [j Hj]%list_elem_of_lookup Hf.
  assert (i = j) as ->; [|congruence].
  eapply (NoDup_lookup (f <$> l)); [exact Hnd|rewrite list_lookup_fmap, Hi; done|].
  rewrite list_lookup_fmap, Hj. cbn. by rewrite Hf.
Qed.

Lemma NoDup_submseteq_inv {A} (l k : list A) : l ⊆+ k → NoDup k → NoDup l.
Proof.
  intros (z & Hk)%submseteq_Permutation Hnd. rewrite Hk in Hnd. by apply NoDup_app in Hnd as [? _].
Qed.

(** ** Arrays indexed by an [int] *)

Lemma at_int_ok {A} (l : list A) i n :
  length l = Z.to_nat n → (0 ≤ i < n)%Z → ∃ x, at_int l i = Ret x ∧ l !! Z.to_nat i = Some x.
Proof.
  intros Hl Hi. unfold at_int. rewrite (proj2 (Z.ltb_ge _ _)) by lia.
  destruct (at_idx_lt l (Z.to_nat i)) as [x Hx]; [lia|]. exists x. split; [done|by apply at_idx_ret].
Qed.

Lemma set_int_ok {A} (l : list A) i n x :
  length l = Z.to_nat n → (0 ≤ i < n)%Z → set_int l i x = Ret (<[Z.to_nat i := x]> l).
Proof. intros Hl Hi. unfold set_int. by destruct (at_int_ok l i n Hl Hi) as (y & -> & _). Qed.

Lemma lookup_at {A} `{Inhabited A} (l : list A) i n :
  length l = Z.to_nat n → (0 ≤ i < n)%Z → at_int l i = Ret (l !!! Z.to_nat i).
Proof.
  intros Hl Hi. destruct (at_int_ok l i n Hl Hi) as (x & -> & Hx). by rewrite (list_lookup_total_correct _ _ _ Hx).
Qed.

Lemma alter_insert {A} (f : A → A) (l : list A) i x : l !! i = Some x → <[i := f x]> l = alter f i l.
Proof. intros Hx. apply list_eq. intros j. destruct (decide (i = j)) as [->|Hj].
  - rewrite list_lookup_insert_eq by (by eapply lookup_lt_Some). by rewrite list_lookup_alter_eq, Hx.
  - by rewrite list_lookup_insert_ne, list_lookup_alter_ne by done.
Qed.

(** ** Sums *)

Lemma zsum_app {A} (f : A → Z) l1 l2 : zsum f (l1 ++ l2) = (zsum f l1 + zsum f l2)%Z.
Proof. induction l1 as [|x l1 IH]; cbn in *; [done|]. unfold zsum in *. lia. Qed.

Lemma zsum_cons {A} (f : A → Z) x l : zsum f (x :: l) = (f x + zsum f l)%Z.
Proof. done. Qed.

Lemma zsum_perm {A} (f : A → Z) l k : l ≡ₚ k → zsum f l = zsum f k.
Proof. unfold zsum. induction 1; cbn; lia. Qed.

Lemma zsum_concat {A B} (f : B → Z) (g : A → list B) l :
  zsum f (concat (g <$> l)) = zsum (λ x, zsum f (g x)) l.
Proof.
  induction l as [|x l IH]; [done|]. rewrite fmap_cons. cbn [concat].
  by rewrite zsum_app, IH, zsum_cons.
Qed.

Lemma zsum_nonneg {A} (f : A → Z) l : (∀ x, x ∈ l → (0 ≤ f x)%Z) → (0 ≤ zsum f l)%Z.
Proof.
  induction l as [|x l IH]; intros Hf; cbn; [done|].
  apply Z.add_nonneg_nonneg; [apply Hf; left|apply IH; intros y Hy; apply Hf; by right].
Qed.

Lemma zsum_elem {A} (f : A → Z) l x :
  (∀ x, x ∈ l → (0 ≤ f x)%Z) → x ∈ l → (f x ≤ zsum f l)%Z.
Proof.
  induction l as [|y l IH]; intros Hf Hx; [by apply not_elem_of_nil in Hx|]. cbn.
  assert (0 ≤ f y)%Z by (apply Hf; left).
  assert (0 ≤ zsum f l)%Z by (apply zsum_nonneg; intros z Hz; apply Hf; by right).
  apply elem_of_cons in Hx as [->|Hx]; [unfold zsum in *; lia|].
  specialize (IH (λ z Hz, Hf z (list_elem_of_further _ _ _ Hz)) Hx). unfold zsum in *. lia.
Qed.

Lemma zsum_le {A} (f g : A → Z) l : (∀ x, x ∈ l → (f x ≤ g x)%Z) → (zsum f l ≤ zsum g l)%Z.
Proof.
  induction l as [|x l IH]; intros H; [done|]. rewrite !zsum_cons.
  apply Z.add_le_mono; [apply H; left|]. apply IH. intros y Hy. apply H. by right.
Qed.

Lemma zsum_lt {A} (f g : A → Z) l x :
  (∀ y, y ∈ l → (f y ≤ g y)%Z) → x ∈ l → (f x < g x)%Z → (zsum f l < zsum g l)%Z.
Proof.
  induction l as [|y l IH]; intros H Hx Hlt; [by apply not_elem_of_nil in Hx|]. rewrite !zsum_cons.
  pose proof (H y (list_elem_of_here _ _)). assert (zsum f l ≤ zsum g l)%Z by (apply zsum_le; intros z Hz; apply H; by right).
  apply elem_of_cons in Hx as [->|Hx]; [lia|]. specialize (IH (λ z Hz, H z (list_elem_of_further _ _ _ Hz)) Hx Hlt). lia.
Qed.

(** A [uint32_t] accumulator that does not wrap holds the sum. *)
Lemma u32_sum {A} (f : A → Z) l s :
  (∀ x, x ∈ l → 0 ≤ f x)%Z → (0 ≤ s)%Z → (s + zsum f l < 2 ^ 32)%Z →
  foldl (λ s x, u32 (s + f x)%Z) s l = (s + zsum f l)%Z.
Proof.
  revert s. induction l as [|x l IH]; intros s Hpos Hs Hlt; [cbn; lia|].
  rewrite zsum_cons in *. cbn [foldl].
  assert (0 ≤ f x)%Z by (apply Hpos; left).
  assert (0 ≤ zsum f l)%Z by (apply zsum_nonneg; intros y Hy; apply Hpos; by right).
  rewrite u32_id by lia. rewrite IH; [lia| |lia|lia]. intros y Hy. apply Hpos. by right.
Qed.

Lemma zsum_ext {A} (f g : A → Z) l : (∀ x, x ∈ l → f x = g x) → zsum f l = zsum g l.
Proof.
  induction l as [|x l IH]; intros Hf; cbn; [done|]. rewrite (Hf x) by left.
  f_equal. apply IH. intros y Hy. apply Hf. by right.
Qed.

(** ** Concatenations: the vertices of a list of chains *)

Lemma elem_of_concat {A} (x : A) ls : x ∈ concat ls ↔ ∃ l, l ∈ ls ∧ x ∈ l.
Proof. rewrite list_elem_of_In, in_concat. by setoid_rewrite list_elem_of_In. Qed.

Lemma elem_of_concat_lookup {A} (x : A) ls :
  x ∈ concat ls ↔ ∃ i l, ls !! i = Some l ∧ x ∈ l.
Proof.
  rewrite elem_of_concat. setoid_rewrite list_elem_of_lookup at 1. naive_solver.
Qed.

Lemma concat_delete {A} (ls : list (list A)) i l :
  ls !! i = Some l → concat ls ≡ₚ l ++ concat (delete i ls).
Proof.
  revert i; induction ls as [|c ls IH]; intros [|i] Hi; cbn in *; [done..| |].
  - by simplify_eq.
  - rewrite (IH i Hi) at 1. rewrite !app_assoc.
    apply Permutation_app; [apply Permutation_app_comm|done].
Qed.

Lemma concat_insert {A} (ls : list (list A)) i l l' :
  ls !! i = Some l → concat (<[i:=l']> ls) ++ l ≡ₚ concat ls ++ l'.
Proof.
  revert i; induction ls as [|c ls IH]; intros [|i] Hi; cbn in *; [done..| |].
  - simplify_eq. rewrite (Permutation_app_comm (l' ++ _)), <- app_assoc.
    apply Permutation_app_head, Permutation_app_comm.
  - rewrite <- !app_assoc. by rewrite (IH i Hi).
Qed.

(** Splitting one chain in two keeps the vertices. *)
Lemma concat_split {A} (ls : list (list A)) i l a b :
  ls !! i = Some l → l = a ++ b → concat (<[i:=a]> ls ++ [b]) ≡ₚ concat ls.
Proof.
  intros Hi ->. rewrite concat_app; cbn. rewrite app_nil_r.
  revert i Hi; induction ls as [|c ls IH]; intros [|i] Hi; cbn in *; [done..| |].
  - simplify_eq. rewrite <- !app_assoc. apply Permutation_app_head, Permutation_app_comm.
  - rewrite <- app_assoc. by rewrite (IH i Hi).
Qed.

Lemma NoDup_concat_lookup {A} (ls : list (list A)) i l :
  NoDup (concat ls) → ls !! i = Some l → NoDup l.
Proof.
  intros Hnd Hi. rewrite (concat_delete ls i l Hi) in Hnd.
  by apply NoDup_app in Hnd as [? _].
Qed.

(** A vertex is in one chain only. *)
Lemma NoDup_concat_unique {A} (ls : list (list A)) i j a b x :
  NoDup (concat ls) → ls !! i = Some a → ls !! j = Some b → x ∈ a → x ∈ b → i = j.
Proof.
  revert i j. induction ls as [|c ls IH]; intros i j Hnd Hi Hj Ha Hb; [done|].
  cbn in Hnd. apply NoDup_app in Hnd as (_ & Hdisj & Hnd).
  destruct i as [|i], j as [|j]; cbn in *; [done| | |f_equal; by eapply IH].
  - simplify_eq. destruct (Hdisj x); [done|]. apply elem_of_concat_lookup. eauto.
  - simplify_eq. destruct (Hdisj x); [done|]. apply elem_of_concat_lookup. eauto.
Qed.

#[export] Hint Resolve u32_range find_index_lt : csim.

(** Run the first counted loop of the goal with an invariant: leaves the
    invariant at 0, one step, and the goal after the loop. *)
Ltac seq_loop P :=
  match goal with
  | |- context [foldM ?f ?b (seq 0 ?n)] =>
      let b' := fresh "b" in
      let Heq := fresh in
      let Hinv := fresh "Hinv" in
      destruct (foldM_seq P f n b) as (b' & Heq & Hinv);
      [ | | rewrite Heq; clear Heq; cbn [mbind outcome_bind]]
  end.
