(* ===== verification/OrdMap.v ===== *)
(** * Ordered maps and sets

    [std::map] and [std::set] iterate in increasing key order, and the
    program's results depend on that order (chain numbering, scheduling
    order, the order in which chains are split).  A map is therefore a list of
    bindings kept in key order, not an unordered finite map.  The interface
    [KeyOrder] is what the containers ask of a key type ([std::less]). *)

From S2P Require Import Prelude.
From Stdlib Require String OrderedTypeEx.
From Stdlib Require Import Sorted.
Module String_as_OT := OrderedTypeEx.String_as_OT.

(** ** The key interface *)

Class KeyOrder (K : Type) := {
  kcmp : K → K → comparison;
  kcmp_eq : ∀ a b, kcmp a b = Eq ↔ a = b;
  kcmp_flip : ∀ a b, kcmp b a = CompOpp (kcmp a b);
  kcmp_trans : ∀ a b c, kcmp a b = Lt → kcmp b c = Lt → kcmp a c = Lt
}.

#[export] Program Instance nat_key : KeyOrder nat := {| kcmp := Nat.compare |}.
Next Obligation. apply Nat.compare_eq_iff. Qed.
Next Obligation. intros a b. apply Nat.compare_antisym. Qed.
Next Obligation. intros a b c; rewrite !Nat.compare_lt_iff; lia. Qed.

#[export] Program Instance Z_key : KeyOrder Z := {| kcmp := Z.compare |}.
Next Obligation. apply Z.compare_eq_iff. Qed.
Next Obligation. intros a b. apply Z.compare_antisym. Qed.
Next Obligation. intros a b c; rewrite !Z.compare_lt_iff; lia. Qed.

#[export] Program Instance string_key : KeyOrder string := {| kcmp := String.compare |}.
Next Obligation. intros a b; split; [apply String.compare_eq_iff|intros ->; apply String_as_OT.cmp_eq; done]. Qed.
Next Obligation. intros a b. apply String.compare_antisym. Qed.
Next Obligation.
  intros a b c Hab Hbc. apply String_as_OT.cmp_lt.
  apply String_as_OT.cmp_lt in Hab, Hbc. by eapply String_as_OT.lt_trans.
Qed.

Section keys.
Context `{KeyOrder K}.

Lemma kcmp_refl (a : K) : kcmp a a = Eq.
Proof. by apply kcmp_eq. Qed.

#[export] Instance key_eq_dec : EqDecision K.
Proof.
  intros a b. destruct (kcmp a b) eqn:E.
  - left. by apply kcmp_eq.
  - right. intros ->. by rewrite kcmp_refl in E.
  - right. intros ->. by rewrite kcmp_refl in E.
Defined.

Definition klt (a b : K) : Prop := kcmp a b = Lt.

Lemma klt_trans a b c : klt a b → klt b c → klt a c.
Proof. apply kcmp_trans. Qed.

Lemma klt_irrefl a : ¬ klt a a.
Proof. unfold klt. by rewrite kcmp_refl. Qed.

Lemma kcmp_gt a b : kcmp a b = Gt ↔ klt b a.
Proof. unfold klt. rewrite (kcmp_flip a b). destruct (kcmp a b); cbn; split; done. Qed.
End keys.

(** ** Maps *)

Abbreviation ordmap K V := (list (K * V)).

Section maps.
Context `{KeyOrder K} {V : Type}.
Implicit Types (m : ordmap K V) (k j : K) (v : V).

(** [m.find(k)], the end iterator being [None]. *)
Fixpoint mfind k m : option V :=
  match m with
  | [] => None
  | (j, v) :: m' => match kcmp k j with Eq => Some v | _ => mfind k m' end
  end.

(** Overwrite the binding of a key that is present. *)
Fixpoint mreplace k v m : ordmap K V :=
  match m with
  | [] => []
  | (j, w) :: m' =>
      match kcmp k j with Eq => (j, v) :: m' | _ => (j, w) :: mreplace k v m' end
  end.

(** Insert the binding of an absent key at its place in the order. *)
Fixpoint minsert k v m : ordmap K V :=
  match m with
  | [] => [(k, v)]
  | (j, w) :: m' =>
      match kcmp k j with Lt => (k, v) :: (j, w) :: m' | _ => (j, w) :: minsert k v m' end
  end.

(** [m[k] = f(m[k])], with [f None] the value for an absent key. *)
Definition malter (f : option V → V) k m : ordmap K V :=
  match mfind k m with
  | Some v => mreplace k (f (Some v)) m
  | None => minsert k (f None) m
  end.

(** [m[k] = v] *)
Definition mset k v m : ordmap K V := malter (λ _, v) k m.
(** [m.emplace(k, v)]: no effect when the key is present *)
Definition memplace k v m : ordmap K V := malter (from_option id v) k m.
(** [m.size()] *)
Definition msize m : nat := length m.
Definition mkeys m : list K := m.*1.

Definition key_sorted m : Prop := Sorted.StronglySorted klt (mkeys m).

Lemma mfind_replace k j v m :
  mfind j (mreplace k v m) =
  match kcmp j k with
  | Eq => match mfind k m with Some _ => Some v | None => None end
  | _ => mfind j m
  end.
Proof.
  induction m as [|[i w] m IH]; cbn; [by destruct (kcmp j k)|].
  destruct (kcmp k i) eqn:E1; cbn.
  - apply kcmp_eq in E1 as ->. by destruct (kcmp j i).
  - rewrite IH. destruct (kcmp j i) eqn:E2; [|done..].
    apply kcmp_eq in E2 as ->. by rewrite kcmp_flip, E1.
  - rewrite IH. destruct (kcmp j i) eqn:E2; [|done..].
    apply kcmp_eq in E2 as ->. by rewrite kcmp_flip, E1.
Qed.

Lemma mfind_insert k j v m :
  mfind k m = None →
  mfind j (minsert k v m) =
  match kcmp j k with Eq => Some v | _ => mfind j m end.
Proof.
  induction m as [|[i w] m IH]; cbn; [done|].
  destruct (kcmp k i) eqn:E1; cbn; intros Hk; [done| |].
  - done.
  - rewrite IH by done. destruct (kcmp j i) eqn:E2; [|done..].
    apply kcmp_eq in E2 as ->. by rewrite kcmp_flip, E1.
Qed.

(** The one lookup law all the map operations share. *)
Lemma mfind_alter f k j m :
  mfind j (malter f k m) =
  match kcmp j k with Eq => Some (f (mfind k m)) | _ => mfind j m end.
Proof.
  unfold malter. destruct (mfind k m) eqn:E.
  - rewrite mfind_replace, E. done.
  - by rewrite mfind_insert.
Qed.

Lemma mfind_set k j v m :
  mfind j (mset k v m) = match kcmp j k with Eq => Some v | _ => mfind j m end.
Proof. apply mfind_alter. Qed.

Lemma mfind_emplace k j v m :
  mfind j (memplace k v m) =
  match kcmp j k with Eq => Some (from_option id v (mfind k m)) | _ => mfind j m end.
Proof. apply mfind_alter. Qed.

Lemma mfind_set_eq k v m : mfind k (mset k v m) = Some v.
Proof. by rewrite mfind_set, kcmp_refl. Qed.

Lemma mfind_set_ne k j v m : j ≠ k → mfind j (mset k v m) = mfind j m.
Proof.
  intros Hne. rewrite mfind_set. destruct (kcmp j k) eqn:E; [|done..].
  by apply kcmp_eq in E.
Qed.

Lemma mfind_elem k v m : mfind k m = Some v → (k, v) ∈ m.
Proof.
  induction m as [|[j w] m IH]; cbn; [done|].
  destruct (kcmp k j) eqn:E; [|set_solver..].
  intros [= ->]. apply kcmp_eq in E as ->. set_solver.
Qed.

Lemma mfind_None k m : mfind k m = None ↔ k ∉ mkeys m.
Proof.
  induction m as [|[j w] m IH]; cbn; [set_solver|].
  destruct (kcmp k j) eqn:E.
  - apply kcmp_eq in E as ->. set_solver.
  - rewrite IH, not_elem_of_cons. split; [|tauto]. intros ?; split; [|done].
    intros ->. by rewrite kcmp_refl in E.
  - rewrite IH, not_elem_of_cons. split; [|tauto]. intros ?; split; [|done].
    intros ->. by rewrite kcmp_refl in E.
Qed.

Lemma mkeys_replace k v m : mkeys (mreplace k v m) = mkeys m.
Proof.
  unfold mkeys. induction m as [|[j w] m IH]; cbn; [done|].
  destruct (kcmp k j); cbn; by rewrite ?IH.
Qed.

Lemma mkeys_insert_elem k v m j : j ∈ mkeys (minsert k v m) ↔ j = k ∨ j ∈ mkeys m.
Proof.
  unfold mkeys. induction m as [|[i w] m IH]; cbn; [set_solver|].
  destruct (kcmp k i); cbn; set_solver.
Qed.

Lemma key_sorted_insert k v m :
  mfind k m = None → key_sorted m → key_sorted (minsert k v m).
Proof.
  unfold key_sorted. induction m as [|[i w] m IH]; cbn; intros Hk Hs.
  { repeat constructor. }
  inversion_clear Hs as [|? ? Hs' Hall].
  destruct (kcmp k i) eqn:E; [done| |].
  - constructor; [by constructor|]. constructor; [done|].
    eapply Forall_impl; [exact Hall|]. intros j Hj. by eapply klt_trans.
  - constructor; [by apply IH|]. apply Forall_forall. intros j Hj.
    apply mkeys_insert_elem in Hj as [->|Hj]; [by apply kcmp_gt|].
    rewrite Forall_forall in Hall. by apply Hall.
Qed.

Lemma mreplace_split k v w m :
  mfind k m = Some v →
  ∃ m1 m2, m = m1 ++ (k, v) :: m2 ∧ mreplace k w m = m1 ++ (k, w) :: m2.
Proof.
  induction m as [|[j u] m IH]; cbn; [done|].
  destruct (kcmp k j) eqn:E.
  - intros [= ->]. apply kcmp_eq in E as ->. by exists [], m.
  - intros (m1 & m2 & -> & ->)%IH. by exists ((j, u) :: m1), m2.
  - intros (m1 & m2 & -> & ->)%IH. by exists ((j, u) :: m1), m2.
Qed.

Lemma minsert_perm k v m : minsert k v m ≡ₚ (k, v) :: m.
Proof.
  induction m as [|[j u] m IH]; cbn; [done|].
  destruct (kcmp k j); [|done|]; rewrite IH; apply perm_swap.
Qed.

(** The containers stay ordered. *)
Lemma key_sorted_alter f k m : key_sorted m → key_sorted (malter f k m).
Proof.
  intros Hs. unfold malter. destruct (mfind k m) eqn:E.
  - unfold key_sorted. by rewrite mkeys_replace.
  - by apply key_sorted_insert.
Qed.

Lemma key_sorted_NoDup m : key_sorted m → NoDup (mkeys m).
Proof.
  unfold key_sorted. generalize (mkeys m) as l. intros l.
  induction 1 as [|k l Hs IH Hall]; constructor; [|done].
  rewrite Forall_forall in Hall. intros Hin. by apply (klt_irrefl k), Hall.
Qed.

Lemma mfind_Some k v m : key_sorted m → mfind k m = Some v ↔ (k, v) ∈ m.
Proof.
  intros Hs%key_sorted_NoDup. split; [apply mfind_elem|].
  induction m as [|[j w] m IH]; cbn in *; [set_solver|].
  inversion_clear Hs as [|? ? Hj Hs'].
  rewrite elem_of_cons. intros [[= -> ->]|Hin]; [by rewrite kcmp_refl|].
  destruct (kcmp k j) eqn:E; [|by apply IH..].
  apply kcmp_eq in E as ->. destruct Hj. apply list_elem_of_fmap. by exists (j, v).
Qed.
End maps.

(** ** Sets *)

Section sets.
Context `{KeyOrder K}.

(** [s.emplace(k)] *)
Fixpoint sinsert (k : K) (s : list K) : list K :=
  match s with
  | [] => [k]
  | j :: s' =>
      match kcmp k j with
      | Lt => k :: s
      | Eq => s
      | Gt => j :: sinsert k s'
      end
  end.

Lemma elem_of_sinsert (j k : K) s : j ∈ sinsert k s ↔ j = k ∨ j ∈ s.
Proof.
  induction s as [|i s IH]; cbn; [set_solver|].
  destruct (kcmp k i) eqn:E; [|set_solver..].
  apply kcmp_eq in E as ->. set_solver.
Qed.

Lemma sinsert_sorted (k : K) s :
  Sorted.StronglySorted klt s → Sorted.StronglySorted klt (sinsert k s).
Proof.
  induction s as [|i s IH]; cbn; intros Hs; [repeat constructor|].
  inversion_clear Hs as [|? ? Hs' Hall].
  destruct (kcmp k i) eqn:E; [by constructor| |].
  - constructor; [by constructor|]. constructor; [done|].
    eapply Forall_impl; [exact Hall|]. intros j Hj. by eapply klt_trans.
  - constructor; [by apply IH|]. apply Forall_forall. intros j Hj.
    apply elem_of_sinsert in Hj as [->|Hj]; [by apply kcmp_gt|].
    rewrite Forall_forall in Hall. by apply Hall.
Qed.

Lemma ssorted_NoDup (s : list K) : Sorted.StronglySorted klt s → NoDup s.
Proof.
  induction 1 as [|k l Hs IH Hall]; constructor; [|done].
  rewrite Forall_forall in Hall. intros Hin. by apply (klt_irrefl k), Hall.
Qed.
End sets.

(** Pushing on the vector of a key: [m[k].push_back(x)]. *)
Lemma malter_concat `{KeyOrder K} {A} k (xs : list A) (m : ordmap K (list A)) :
  concat (malter (λ o, default [] o ++ xs) k m).*2 ≡ₚ concat m.*2 ++ xs.
Proof.
  unfold malter. destruct (mfind k m) as [v|] eqn:E; cbn.
  - destruct (mreplace_split k v (v ++ xs) m E) as (m1 & m2 & -> & ->).
    rewrite !fmap_app, !concat_app. cbn. rewrite <- !app_assoc.
    do 2 apply Permutation_app_head. apply Permutation_app_comm.
  - rewrite minsert_perm. cbn. apply Permutation_app_comm.
Qed.

(** Concatenating the vectors of a map in key order. *)
Lemma StronglySorted_app {A} (R : A → A → Prop) l1 l2 :
  Sorted.StronglySorted R l1 → Sorted.StronglySorted R l2 →
  (∀ a b, a ∈ l1 → b ∈ l2 → R a b) → Sorted.StronglySorted R (l1 ++ l2).
Proof.
  induction l1 as [|x l1 IH]; intros H1 H2 H12; cbn; [done|].
  apply Sorted.StronglySorted_inv in H1 as [H1 Hx]. constructor.
  - apply IH; [done..|]. intros a b Ha. apply H12. by right.
  - apply Forall_app. split; [done|]. apply Forall_forall. intros b Hb. apply H12; [left|done].
Qed.

Lemma StronglySorted_all {A} (R : A → A → Prop) l :
  (∀ a b, a ∈ l → b ∈ l → R a b) → Sorted.StronglySorted R l.
Proof.
  induction l as [|x l IH]; intros HR; constructor.
  - apply IH. intros a b Ha Hb. apply HR; by right.
  - apply Forall_forall. intros b Hb. apply HR; [left|by right].
Qed.

Lemma concat_key_sorted `{KeyOrder K} {A} (R : A → A → Prop) (m : ordmap K (list A)) :
  key_sorted m →
  (∀ k ids a b, (k, ids) ∈ m → a ∈ ids → b ∈ ids → R a b) →
  (∀ k1 k2 ids1 ids2 a b, klt k1 k2 → (k1, ids1) ∈ m → (k2, ids2) ∈ m →
     a ∈ ids1 → b ∈ ids2 → R a b) →
  Sorted.StronglySorted R (concat m.*2).
Proof.
  intros Hs Hsame Hlt. induction m as [|[k ids] m IH]; cbn; [constructor|].
  apply Sorted.StronglySorted_inv in Hs as [Hs Hall]. apply StronglySorted_app.
  - apply StronglySorted_all. intros a b. by eapply Hsame; left.
  - apply IH; [done|intros k' ids' a b Hin; eapply Hsame; by right|].
    intros k1 k2 ids1 ids2 a b Hk H1 H2. eapply Hlt; [exact Hk|by right..].
  - intros a b Ha Hb. apply elem_of_concat in Hb as (ids2 & Hin & Hb).
    apply list_elem_of_fmap in Hin as ([k2 ?] & -> & Hin). cbn in Hb.
    rewrite Forall_forall in Hall.
    eapply (Hlt k k2); [|left|by right|done|done].
    apply Hall, list_elem_of_fmap. by eexists (_, _).
Qed.

#[export] Hint Resolve key_sorted_alter key_sorted_NoDup sinsert_sorted
  ssorted_NoDup mfind_elem mfind_set_eq : csim.
#[export] Hint Rewrite @mfind_set_eq @kcmp_refl : csim.

(** ** Grouping: pushing each element on the vector of its key *)

Section grouping.
Context `{KeyOrder K} {A B : Type}.
Variables (key : A → K) (val : A → B).

Definition group_push (m : ordmap K (list B)) (x : A) : ordmap K (list B) :=
  malter (λ o, default [] o ++ [val x]) (key x) m.

Lemma malter_append_nonempty k (v : B) (m : ordmap K (list B)) :
  [] ∉ m.*2 → [] ∉ (malter (λ o, default [] o ++ [v]) k m).*2.
Proof.
  intros Hm Hin. apply list_elem_of_fmap in Hin as ([j l] & Hl & Hin). cbn in Hl. subst l.
  unfold malter in Hin. destruct (mfind k m) as [l|] eqn:E.
  - destruct (mreplace_split k l (default [] (Some l) ++ [v]) m E) as (m1 & m2 & Hm1 & Hm2).
    rewrite Hm2 in Hin. apply Hm. rewrite Hm1.
    apply elem_of_app in Hin as [Hin|[[= _ Habs]|Hin]%elem_of_cons].
    + rewrite fmap_app. apply elem_of_app. left. by apply (list_elem_of_fmap_2 snd) in Hin.
    + by destruct l.
    + rewrite fmap_app. apply elem_of_app. right. right. by apply (list_elem_of_fmap_2 snd) in Hin.
  - rewrite (minsert_perm k (default [] None ++ [v]) m) in Hin.
    apply elem_of_cons in Hin as [[=]|Hin]. apply Hm. by apply (list_elem_of_fmap_2 snd) in Hin.
Qed.

Lemma group_push_spec (l : list A) (m : ordmap K (list B)) :
  key_sorted m → [] ∉ m.*2 →
  key_sorted (foldl group_push m l) ∧ [] ∉ (foldl group_push m l).*2 ∧
  concat (foldl group_push m l).*2 ≡ₚ concat m.*2 ++ (val <$> l) ∧
  ∀ k `{∀ x, Decision (key x = k)}, default [] (mfind k (foldl group_push m l)) =
       default [] (mfind k m) ++ (val <$> filter (λ x, key x = k) l).
Proof.
  revert m. induction l as [|x l IH]; intros m Hs Hne; cbn [foldl fmap list_fmap].
  { split_and!; [done|done|by rewrite app_nil_r|]. intros k ?. cbn. by rewrite app_nil_r. }
  destruct (IH (group_push m x)) as (H1 & H2 & H3 & H4).
  { by apply key_sorted_alter. }
  { by apply malter_append_nonempty. }
  split_and!; [done|done| |].
  - rewrite H3. unfold group_push. rewrite malter_concat, <- app_assoc. done.
  - intros k ?. rewrite (H4 k _). unfold group_push. rewrite mfind_alter, filter_cons.
    destruct (kcmp k (key x)) eqn:E.
    + apply kcmp_eq in E as ->. rewrite decide_True by done.
      cbn [from_option id fmap list_fmap]. by rewrite <- app_assoc.
    + rewrite decide_False; [done|]. intros Ek. by rewrite Ek, kcmp_refl in E.
    + rewrite decide_False; [done|]. intros Ek. by rewrite Ek, kcmp_refl in E.
Qed.
End grouping.
