(* ===== verification/ChainDeps.v ===== *)
(** * Chain dependencies

    The dependency maps of [src/src/newGraph.cpp]: which chain each vertex is
    in, the edges that cross chains, and their histogram, set and transpose. *)

From S2P Require Import Prelude OrdMap.
From Stdlib Require Import Sorted.

(** A decomposition: each chain is the list of its vertices, in order. *)
Abbreviation chains := (list (list nat)).

(** [struct chainDependency] *)
Record chainDependency := ChainDep { source : nat; target : nat }.

#[export] Instance chainDependency_eq_dec : EqDecision chainDependency.
Proof. solve_decision. Defined.

(** ** Operations *)

Definition vertexToChainMap (cs : chains) : ordmap nat nat :=
  foldl (λ vertexToChunk '(i, c),
      foldl (λ vertexToChunk v, memplace v i vertexToChunk) vertexToChunk c)
    [] (imap pair cs).

Definition uniqueDependency (histodependency : ordmap nat (list nat))
  : ordmap nat (list nat) :=
  foldl (λ un_depen '(c, ds),
      foldl (λ un_depen d, malter (λ o, sinsert d (default [] o)) c un_depen) un_depen ds)
    [] histodependency.

(** [newGraph::reverseMapping] on sets: fan-out to fan-in *)
Definition reverseMapping (uniquedependency : ordmap nat (list nat))
  : ordmap nat (list nat) :=
  foldl (λ reverse_depen '(c, rs),
      foldl (λ reverse_depen r, malter (λ o, sinsert c (default [] o)) r reverse_depen)
        reverse_depen rs)
    [] uniquedependency.

(** [newGraph::reverseMapping] on vectors: live-out to live-in *)
Definition reverseMappingVec (dependency : ordmap nat (list nat))
  : ordmap nat (list nat) :=
  foldl (λ reverse_depen '(c, rs),
      foldl (λ reverse_depen r, malter (λ o, default [] o ++ [c]) r reverse_depen)
        reverse_depen rs)
    [] dependency.

Definition histoDependency (dependencies : list chainDependency)
  : ordmap nat (list nat) :=
  foldl (λ map_dependency dep,
      malter (λ o, default [] o ++ [target dep]) (source dep) map_dependency)
    [] dependencies.

Section graph.
(** Targets of [boost::out_edges(v, G)], in iteration order. *)
Variable out_edges : nat → list nat.

Definition dependenciesGenerate (cs : chains) (chainsMap : ordmap nat nat)
  : outcome (list chainDependency) :=
  foldM (λ dependencies c,
    foldM (λ dependencies v,
      foldM (λ dependencies T,
        if bool_decide (T ∈ c) then Ret dependencies
        else
          s ← deref (mfind v chainsMap);
          t ← deref (mfind T chainsMap);
          assertb (negb (s =? t)) ;;
          Ret (dependencies ++ [ChainDep s t]))
        dependencies (out_edges v))
      dependencies c)
    [] cs.
End graph.

Section limits.
(** [graph_parameter.param_set] *)
Variable param_set : ordmap string Z.

Fixpoint checkLiveOutHelper (m_live_out : ordmap nat (list nat)) : outcome bool :=
  match m_live_out with
  | [] => Ret false
  | (ch, outs) :: rest =>
      limit ← deref (mfind "MAX_LIVE_OUT"%string param_set);
      if (limit <? Z.of_nat (length outs))%Z && negb (ch =? 0) then Ret true
      else checkLiveOutHelper rest
  end.

Fixpoint checkLiveInHelper (m_live_in : ordmap nat (list nat)) : outcome bool :=
  match m_live_in with
  | [] => Ret false
  | (_, ins) :: rest =>
      limit ← deref (mfind "MAX_LIVE_IN"%string param_set);
      if (limit <? Z.of_nat (length ins))%Z then Ret true
      else checkLiveInHelper rest
  end.
End limits.

(** ** Well-formed decompositions *)

(** Every vertex is in one chain only, and every chain has a vertex. *)
Definition partition (cs : chains) : Prop := NoDup (concat cs) ∧ [] ∉ cs.

(** The chain of a vertex: the first one that contains it. *)
Definition chain_of (cs : chains) (v : nat) : option nat :=
  find_index (λ c, bool_decide (v ∈ c)) cs.

Arguments chain_of : simpl never.

(** ** Lemmas on nested insertion loops *)

Lemma mfind_emplace_all i c m v :
  mfind v (foldl (λ (m : ordmap nat nat) v, memplace v i m) m c) =
  match mfind v m with
  | Some j => Some j
  | None => if bool_decide (v ∈ c) then Some i else None
  end.
Proof.
  revert m. induction c as [|w c IH]; intros m; cbn.
  { by destruct (mfind v m). }
  rewrite IH, mfind_emplace.
  destruct (kcmp v w) eqn:E.
  - apply kcmp_eq in E as ->. rewrite bool_decide_true by set_solver.
    by destruct (mfind w m).
  - assert (v ≠ w) by (intros ->; by rewrite kcmp_refl in E).
    destruct (mfind v m); [done|]. case_bool_decide; case_bool_decide; set_solver.
  - assert (v ≠ w) by (intros ->; by rewrite kcmp_refl in E).
    destruct (mfind v m); [done|]. case_bool_decide; case_bool_decide; set_solver.
Qed.

Lemma find_index_cons {A} (p : A → bool) x l :
  find_index p (x :: l) = if p x then Some 0 else S <$> find_index p l.
Proof.
  unfold find_index. cbn.
  destruct (decide (Is_true (p x))) as [Hp|Hp].
  - apply Is_true_true in Hp. by rewrite Hp.
  - destruct (p x); [done|]. by destruct (list_find _ l) as [[??]|].
Qed.

Lemma chain_of_cons c cs v :
  chain_of (c :: cs) v = if bool_decide (v ∈ c) then Some 0 else S <$> chain_of cs v.
Proof. exact (find_index_cons (λ c, bool_decide (v ∈ c)) c cs). Qed.

Lemma vertexToChainMap_from cs m k v :
  mfind v (foldl (λ m '(i, c), foldl (λ m v, memplace v i m) m c) m
             (imap (λ i c, (k + i, c)) cs)) =
  match mfind v m with
  | Some j => Some j
  | None => (λ i, k + i) <$> chain_of cs v
  end.
Proof.
  revert m k. induction cs as [|c cs IH]; intros m k; cbn.
  { by destruct (mfind v m). }
  rewrite (imap_ext _ (λ i c0, (S k + i, c0))) by (intros; cbn; f_equal; lia).
  rewrite IH, mfind_emplace_all, chain_of_cons.
  destruct (mfind v m); [done|]. rewrite Nat.add_0_r.
  case_bool_decide; cbn; [by rewrite Nat.add_0_r|].
  destruct (chain_of cs v); cbn; [|done]. f_equal; lia.
Qed.

(** [vertexToChainMap] maps a vertex to the chain that contains it. *)
Lemma vertexToChainMap_find cs v : mfind v (vertexToChainMap cs) = chain_of cs v.
Proof.
  unfold vertexToChainMap.
  rewrite (imap_ext _ (λ i c, (0 + i, c))) by done.
  rewrite vertexToChainMap_from. cbn. by destruct (chain_of cs v).
Qed.

Lemma chain_of_Some cs v i :
  chain_of cs v = Some i → ∃ c, cs !! i = Some c ∧ v ∈ c.
Proof.
  unfold chain_of. rewrite find_index_Some. intros (c & Hc & Hv & _).
  apply bool_decide_eq_true in Hv. eauto.
Qed.

Lemma chain_of_None cs v : chain_of cs v = None ↔ v ∉ concat cs.
Proof.
  unfold chain_of. rewrite find_index_None. split.
  - intros H (c & Hc & Hv)%elem_of_concat.
    specialize (H c Hc). by apply bool_decide_eq_false in H.
  - intros H c Hc. apply bool_decide_eq_false. intros Hv.
    apply H, elem_of_concat. eauto.
Qed.

Lemma chain_of_lookup cs v i c :
  NoDup (concat cs) → cs !! i = Some c → v ∈ c → chain_of cs v = Some i.
Proof.
  intros Hnd Hc Hv. destruct (chain_of cs v) as [j|] eqn:E.
  - apply chain_of_Some in E as (c' & Hc' & Hv').
    f_equal. by eapply NoDup_concat_unique.
  - apply chain_of_None in E. destruct E. apply elem_of_concat_lookup. eauto.
Qed.

(** In a partition, being in a chain is being mapped to its index. *)
Lemma elem_of_chain cs v i c :
  NoDup (concat cs) → cs !! i = Some c → v ∈ c ↔ chain_of cs v = Some i.
Proof.
  intros Hnd Hc. split; [by apply chain_of_lookup|].
  intros (c' & Hc' & Hv)%chain_of_Some. by simplify_eq.
Qed.

(** ** The dependencies are the edges that cross chains *)

Definition dep_of (cs : chains) (u v : nat) : list chainDependency :=
  match chain_of cs u, chain_of cs v with
  | Some s, Some t => if s =? t then [] else [ChainDep s t]
  | _, _ => []
  end.

Definition cross_edges (out_edges : nat → list nat) (cs : chains) : list chainDependency :=
  concat cs ≫= λ u, out_edges u ≫= dep_of cs u.

(** Every edge of a vertex of the decomposition leads to a vertex of it. *)
Definition edges_inside (out_edges : nat → list nat) (cs : chains) : Prop :=
  ∀ u v, u ∈ concat cs → v ∈ out_edges u → v ∈ concat cs.

Lemma bind_concat {A B} (f : A → list B) (ls : list (list A)) :
  concat ls ≫= f = ls ≫= λ l, l ≫= f.
Proof. induction ls as [|l ls IH]; cbn; [done|]. by rewrite bind_app, IH. Qed.

Lemma dependenciesGenerate_edges out cs :
  NoDup (concat cs) → edges_inside out cs →
  dependenciesGenerate out cs (vertexToChainMap cs) = Ret (cross_edges out cs).
Proof.
  intros Hnd Hin. unfold dependenciesGenerate, cross_edges. rewrite bind_concat.
  etrans; [apply (foldM_append _ (λ c, c ≫= λ u, out u ≫= dep_of cs u) cs)|done].
  intros b c Hc.
  apply (foldM_append _ (λ u, out u ≫= dep_of cs u) c); intros b' u Hu.
  apply (foldM_append _ (dep_of cs u) (out u)); intros b'' v Hv.
  apply list_elem_of_lookup in Hc as (i & Hi).
  assert (Hu' : chain_of cs u = Some i) by by eapply chain_of_lookup.
  assert (Hv' : v ∈ concat cs)
    by (eapply Hin, Hv; apply elem_of_concat_lookup; eauto).
  destruct (chain_of cs v) as [j|] eqn:Ej; [|by apply chain_of_None in Ej].
  unfold dep_of. rewrite Hu', Ej, !vertexToChainMap_find, Hu', Ej. cbn.
  rewrite (bool_decide_ext _ (chain_of cs v = Some i)) by by apply elem_of_chain.
  rewrite Ej. case_bool_decide as E; simplify_eq.
  - by rewrite Nat.eqb_refl, app_nil_r.
  - destruct (Nat.eqb_spec i j); cbn; [congruence|done].
Qed.

Lemma elem_of_cross_edges out cs s t :
  ChainDep s t ∈ cross_edges out cs ↔
  s ≠ t ∧ ∃ u v, chain_of cs u = Some s ∧ chain_of cs v = Some t ∧ v ∈ out u.
Proof.
  unfold cross_edges, dep_of. rewrite list_elem_of_bind. split.
  - intros (u & (v & Hd & Hv)%list_elem_of_bind & Hu).
    destruct (chain_of cs u) as [s'|] eqn:Eu, (chain_of cs v) as [t'|] eqn:Ev; try set_solver.
    destruct (Nat.eqb_spec s' t'); [set_solver|].
    apply list_elem_of_singleton in Hd as [= -> ->]. eauto 10.
  - intros (Hne & u & v & Hu & Hv & He). exists u. split.
    + apply list_elem_of_bind. exists v. split; [|done]. rewrite Hu, Hv.
      destruct (Nat.eqb_spec s t); [done|]. set_solver.
    + apply chain_of_Some in Hu as (c & ? & ?). apply elem_of_concat_lookup. eauto.
Qed.

(** ** Multimaps as relations *)

Definition related (m : ordmap nat (list nat)) (k x : nat) : Prop :=
  ∃ xs, mfind k m = Some xs ∧ x ∈ xs.

Definition pairs_of (m : ordmap nat (list nat)) : list (nat * nat) :=
  m ≫= λ '(k, xs), pair k <$> xs.

Lemma elem_of_pairs m k x : key_sorted m → (k, x) ∈ pairs_of m ↔ related m k x.
Proof.
  intros Hs. unfold pairs_of, related. rewrite list_elem_of_bind. split.
  - intros ([j xs] & Hin & Hm).
    apply list_elem_of_fmap in Hin as (y & [= <- <-] & Hy).
    exists xs. split; [|done]. by apply mfind_Some.
  - intros (xs & Hm & Hx). exists (k, xs).
    split; [by apply list_elem_of_fmap_2|by apply mfind_elem].
Qed.

(** Maps of sets: keys in order, sets in order and never empty. *)
Definition wf_setmap (m : ordmap nat (list nat)) : Prop :=
  key_sorted m ∧ ∀ k s, mfind k m = Some s → s ≠ [] ∧ StronglySorted klt s.

Definition add_all (ps : list (nat * nat)) (m : ordmap nat (list nat)) :=
  foldl (λ m '(k, x), malter (λ o, sinsert x (default [] o)) k m) m ps.
Definition push_all (ps : list (nat * nat)) (m : ordmap nat (list nat)) :=
  foldl (λ m '(k, x), malter (λ o, default [] o ++ [x]) k m) m ps.

Lemma add_all_wf ps m : wf_setmap m → wf_setmap (add_all ps m).
Proof.
  revert m. induction ps as [|[k x] ps IH]; intros m [Hk Hm]; cbn; [done|].
  apply IH. split; [by apply key_sorted_alter|].
  intros j s. rewrite mfind_alter. destruct (kcmp j k) eqn:E; [|by apply Hm..].
  intros [= <-]. split.
  - destruct (mfind k m) as [[|y l]|]; cbn; try done. by destruct (x ?= y).
  - apply sinsert_sorted. destruct (mfind k m) eqn:Em; cbn; [|constructor].
    by eapply Hm.
Qed.

Lemma related_add_all ps m k x :
  related (add_all ps m) k x ↔ related m k x ∨ (k, x) ∈ ps.
Proof.
  revert m. induction ps as [|[j y] ps IH]; intros m; cbn.
  { set_solver. }
  unfold add_all in IH. rewrite IH, elem_of_cons. unfold related. setoid_rewrite mfind_alter.
  destruct (kcmp k j) eqn:E.
  - apply kcmp_eq in E as ->. split.
    + intros [(xs & [= <-] & Hx)|?]; [|tauto].
      apply elem_of_sinsert in Hx as [->|Hx]; [tauto|].
      destruct (mfind j m); cbn in Hx; [left; eauto|set_solver].
    + intros [(xs & Hm & Hx)|[[= ->]|?]]; [| |tauto].
      * left. eexists. split; [done|]. rewrite Hm. apply elem_of_sinsert. tauto.
      * left. eexists. split; [done|]. apply elem_of_sinsert. tauto.
  - split; [tauto|]. intros [?|[[= -> ->]|?]]; [tauto| |tauto].
    by rewrite kcmp_refl in E.
  - split; [tauto|]. intros [?|[[= -> ->]|?]]; [tauto| |tauto].
    by rewrite kcmp_refl in E.
Qed.

Lemma related_push_all ps m k x :
  related (push_all ps m) k x ↔ related m k x ∨ (k, x) ∈ ps.
Proof.
  revert m. induction ps as [|[j y] ps IH]; intros m; cbn.
  { set_solver. }
  unfold push_all in IH. rewrite IH, elem_of_cons. unfold related. setoid_rewrite mfind_alter.
  destruct (kcmp k j) eqn:E.
  - apply kcmp_eq in E as ->. split.
    + intros [(xs & [= <-] & Hx)|?]; [|tauto].
      apply elem_of_app in Hx as [Hx|Hx]; [|set_solver].
      destruct (mfind j m); cbn in Hx; [left; eauto|set_solver].
    + intros [(xs & Hm & Hx)|[[= ->]|?]]; [| |tauto].
      * left. eexists. split; [done|]. rewrite Hm. cbn. set_solver.
      * left. eexists. split; [done|]. set_solver.
  - split; [tauto|]. intros [?|[[= -> ->]|?]]; [tauto| |tauto].
    by rewrite kcmp_refl in E.
  - split; [tauto|]. intros [?|[[= -> ->]|?]]; [tauto| |tauto].
    by rewrite kcmp_refl in E.
Qed.

Lemma push_all_sorted ps m : key_sorted m → key_sorted (push_all ps m).
Proof.
  revert m. induction ps as [|[j y] ps IH]; intros m Hm; cbn; [done|].
  apply IH. by apply key_sorted_alter.
Qed.

(** The vector under a key lists the pushed values in push order. *)
Lemma push_all_values ps m k :
  default [] (mfind k (push_all ps m)) =
  default [] (mfind k m) ++ (filter (λ p, p.1 = k) ps).*2.
Proof.
  revert m. induction ps as [|[j y] ps IH]; intros m; cbn; [by rewrite app_nil_r|].
  unfold push_all in IH. rewrite IH, mfind_alter.
  destruct (kcmp k j) eqn:E; cbn -[kcmp].
  - apply kcmp_eq in E as ->. rewrite decide_True by done. cbn. by rewrite <- app_assoc.
  - rewrite decide_False; [done|]. intros ->. by rewrite kcmp_refl in E.
  - rewrite decide_False; [done|]. intros ->. by rewrite kcmp_refl in E.
Qed.

Lemma wf_nil : wf_setmap [].
Proof. split; [constructor|done]. Qed.

Lemma key_sorted_nil : key_sorted ([] : ordmap nat (list nat)).
Proof. constructor. Qed.

Lemma uniqueDependency_add m : uniqueDependency m = add_all (pairs_of m) [].
Proof. apply (foldl_flatten (λ m k x, malter (λ o, sinsert x (default [] o)) k m)). Qed.

Lemma foldl_swap {C} (f : C → nat → nat → C) ps b :
  foldl (λ b '(x, y), f b y x) b ps = foldl (λ b '(x, y), f b x y) b (prod_swap <$> ps).
Proof. revert b. induction ps as [|[x y] ps IH]; intros b; cbn; [done|apply IH]. Qed.

Lemma reverseMapping_add m : reverseMapping m = add_all (prod_swap <$> pairs_of m) [].
Proof.
  unfold add_all. rewrite <- (foldl_swap (λ m k x, malter (λ o, sinsert x (default [] o)) k m)).
  apply (foldl_flatten (λ m k x, malter (λ o, sinsert k (default [] o)) x m)).
Qed.

Lemma reverseMappingVec_push m : reverseMappingVec m = push_all (prod_swap <$> pairs_of m) [].
Proof.
  unfold push_all. rewrite <- (foldl_swap (λ m k x, malter (λ o, default [] o ++ [x]) k m)).
  apply (foldl_flatten (λ m k x, malter (λ o, default [] o ++ [k]) x m)).
Qed.

Definition dep_pairs (deps : list chainDependency) : list (nat * nat) :=
  (λ d, (source d, target d)) <$> deps.

Lemma histoDependency_push deps : histoDependency deps = push_all (dep_pairs deps) [].
Proof.
  unfold histoDependency, push_all. generalize (@nil (nat * list nat)) as m.
  induction deps as [|d deps IH]; intros m; cbn; [done|apply IH].
Qed.

Lemma related_nil k x : ¬ related [] k x.
Proof. intros (? & ? & _). done. Qed.

Lemma elem_of_swap (ps : list (nat * nat)) a b : (a, b) ∈ prod_swap <$> ps ↔ (b, a) ∈ ps.
Proof.
  rewrite list_elem_of_fmap. split.
  - by intros ([x y] & [= -> ->] & H).
  - intros H. by exists (b, a).
Qed.

Lemma elem_of_dep_pairs deps s t : (s, t) ∈ dep_pairs deps ↔ ChainDep s t ∈ deps.
Proof.
  unfold dep_pairs. rewrite list_elem_of_fmap. split.
  - by intros ([x y] & [= -> ->] & H).
  - intros H. by exists (ChainDep s t).
Qed.

Lemma reverseMapping_wf m : wf_setmap (reverseMapping m).
Proof. rewrite reverseMapping_add. apply add_all_wf, wf_nil. Qed.

Lemma uniqueDependency_wf m : wf_setmap (uniqueDependency m).
Proof. rewrite uniqueDependency_add. apply add_all_wf, wf_nil. Qed.

Lemma histoDependency_sorted deps : key_sorted (histoDependency deps).
Proof. rewrite histoDependency_push. apply push_all_sorted, key_sorted_nil. Qed.

Lemma related_histo deps s t : related (histoDependency deps) s t ↔ ChainDep s t ∈ deps.
Proof.
  rewrite histoDependency_push, related_push_all, elem_of_dep_pairs.
  pose proof (related_nil s t). tauto.
Qed.

Lemma related_unique m k x : key_sorted m → related (uniqueDependency m) k x ↔ related m k x.
Proof.
  intros Hs. rewrite uniqueDependency_add, related_add_all, elem_of_pairs by done.
  pose proof (related_nil k x). tauto.
Qed.

Lemma related_reverse m k x : key_sorted m → related (reverseMapping m) k x ↔ related m x k.
Proof.
  intros Hs. rewrite reverseMapping_add, related_add_all, elem_of_swap, elem_of_pairs by done.
  pose proof (related_nil k x). tauto.
Qed.

(** Two strictly sorted lists with the same elements are equal. *)
Lemma ssorted_ext (l1 l2 : list nat) :
  StronglySorted klt l1 → StronglySorted klt l2 → (∀ x, x ∈ l1 ↔ x ∈ l2) → l1 = l2.
Proof.
  intros H1; revert l2. induction H1 as [|x l1 H1 IH A1]; intros l2 H2 Heq.
  { destruct l2 as [|y l2]; [done|]. exfalso. apply (not_elem_of_nil y), Heq. left. }
  inversion H2 as [|y l2' H2' A2]; subst.
  { exfalso. apply (not_elem_of_nil x), Heq. left. }
  rewrite Forall_forall in A1, A2.
  assert (x = y) as ->.
  { assert (Hx : x ∈ y :: l2') by (apply Heq; left).
    assert (Hy : y ∈ x :: l1) by (apply Heq; left).
    apply elem_of_cons in Hx as [?|Hx]; [done|]. apply elem_of_cons in Hy as [?|Hy]; [done|].
    destruct (klt_irrefl x). by apply (klt_trans x y x); [apply A1|apply A2]. }
  f_equal. apply IH; [done|]. intros z. split; intros Hz.
  - assert (Hz' : z ∈ y :: l2') by (apply Heq; by right).
    apply elem_of_cons in Hz' as [->|?]; [|done]. by destruct (klt_irrefl y); apply A1.
  - assert (Hz' : z ∈ y :: l1) by (apply Heq; by right).
    apply elem_of_cons in Hz' as [->|?]; [|done]. by destruct (klt_irrefl y); apply A2.
Qed.

Lemma wf_setmap_ext m1 m2 :
  wf_setmap m1 → wf_setmap m2 → (∀ k x, related m1 k x ↔ related m2 k x) →
  ∀ k, mfind k m1 = mfind k m2.
Proof.
  intros [_ H1] [_ H2] Heq k. unfold related in Heq.
  destruct (mfind k m1) as [s1|] eqn:E1, (mfind k m2) as [s2|] eqn:E2; [| | |done].
  - f_equal. apply ssorted_ext; [by eapply H1|by eapply H2|].
    intros x. specialize (Heq k x). rewrite E1, E2 in Heq. naive_solver.
  - destruct (H1 k s1 E1) as [Hne _]. destruct s1 as [|x s1]; [done|].
    destruct (proj1 (Heq k x)) as (? & ? & _); [|congruence]. eexists; split; [done|left].
  - destruct (H2 k s2 E2) as [Hne _]. destruct s2 as [|x s2]; [done|].
    destruct (proj2 (Heq k x)) as (? & ? & _); [|congruence]. eexists; split; [done|left].
Qed.

#[export] Hint Resolve reverseMapping_wf uniqueDependency_wf histoDependency_sorted : csim.

(** ** Properties *)

(** [dependenciesGenerate] on a decomposition in which no vertex occurs
    twice and no edge leaves the vertices never faults (neither the end
    iterators of [chainsMap.find] nor the self-loop assert are reached), and
    the dependencies it lists are exactly the pairs of distinct chains that an
    edge of the graph connects. *)
Theorem dependenciesGenerate_correct (out : nat → list nat) (cs : chains)
  (Hnd : NoDup (concat cs)) (Hin : edges_inside out cs) :
  ∃ deps, dependenciesGenerate out cs (vertexToChainMap cs) = Ret deps ∧
    ∀ s t, ChainDep s t ∈ deps ↔
      s ≠ t ∧ ∃ u v cu cv, cs !! s = Some cu ∧ cs !! t = Some cv ∧
                           u ∈ cu ∧ v ∈ cv ∧ v ∈ out u.
Proof.
  exists (cross_edges out cs). split; [by apply dependenciesGenerate_edges|].
  intros s t. rewrite elem_of_cross_edges. f_equiv. split.
  - intros (u & v & (cu & ? & ?)%chain_of_Some & (cv & ? & ?)%chain_of_Some & ?).
    by exists u, v, cu, cv.
  - intros (u & v & cu & cv & ? & ? & ? & ? & ?).
    exists u, v. by split_and!; [by eapply chain_of_lookup..|].
Qed.

(** The fan-in map is the transpose of the fan-out map and transposing
    twice gives the fan-out map back: [reverseMapping] is an involution on the
    maps [uniqueDependency] builds. *)
Theorem reverseMapping_involutive (m : ordmap nat (list nat)) (Hm : wf_setmap m) :
  (∀ k x, related (reverseMapping m) k x ↔ related m x k) ∧
  ∀ k, mfind k (reverseMapping (reverseMapping m)) = mfind k m.
Proof.
  split; [intros; by apply related_reverse, Hm|].
  apply wf_setmap_ext; [apply reverseMapping_wf|done|].
  intros k x. rewrite !related_reverse; [done|apply Hm|apply reverseMapping_wf].
Qed.

(** The vector of a chain in [histoDependency] lists the targets of the
    chain's dependencies with their multiplicity and in their order, so its
    size is the chain's number of live-out edges. *)
Theorem histoDependency_values (deps : list chainDependency) (s : nat) :
  default [] (mfind s (histoDependency deps)) =
  target <$> filter (λ d, source d = s) deps.
Proof.
  rewrite histoDependency_push, push_all_values.
  change (default [] (mfind s []) ++ ?x) with x.
  induction deps as [|[a b] deps IH]; [done|].
  unfold dep_pairs in *; cbn. case_decide; [cbn; f_equal|]; exact IH.
Qed.

Definition example_out (v : nat) : list nat :=
  match v with 0 => [1; 2] | 1 => [3] | 2 => [3] | _ => [] end.

Lemma dependenciesGenerate_correct_witness :
  ∃ deps, dependenciesGenerate example_out [[0; 1]; [2; 3]]
            (vertexToChainMap [[0; 1]; [2; 3]]) = Ret deps ∧
    ∀ s t, ChainDep s t ∈ deps ↔
      s ≠ t ∧ ∃ u v cu cv, [[0; 1]; [2; 3]] !! s = Some cu ∧ [[0; 1]; [2; 3]] !! t = Some cv ∧
                           u ∈ cu ∧ v ∈ cv ∧ v ∈ example_out u.
Proof.
  apply (dependenciesGenerate_correct example_out [[0; 1]; [2; 3]]).
  - vm_compute. repeat constructor; set_solver.
  - intros u v Hu Hv. vm_compute in Hu |- *.
    destruct u as [|[|[|[|]]]]; cbn in Hv; set_solver.
Defined.

Lemma reverseMapping_involutive_witness :
  (∀ k x, related (reverseMapping [(0, [1; 2]); (1, [2])]) k x ↔
          related [(0, [1; 2]); (1, [2])] x k) ∧
  ∀ k, mfind k (reverseMapping (reverseMapping [(0, [1; 2]); (1, [2])])) =
       mfind k [(0, [1; 2]); (1, [2])].
Proof.
  apply (reverseMapping_involutive [(0, [1; 2]); (1, [2])]).
  replace [(0, [1; 2]); (1, [2])]
    with (uniqueDependency [(0, [1; 2]); (1, [2])]) by reflexivity.
  apply uniqueDependency_wf.
Defined.
