(* ===== verification/Walks.v ===== *)
(** * Walks of a graph

    Walks, reachability and loops, for an edge relation on naturals: shared by
    the loop check and by the two level computations. *)

From S2P Require Import Prelude.


Section walks.
Variable edge : nat → nat → Prop.

(** [walk x p]: [p] lists the chains visited after [x]. *)
Fixpoint walk (x : nat) (p : list nat) : Prop :=
  match p with [] => True | y :: p' => edge x y ∧ walk y p' end.

Definition reach (x y : nat) : Prop := ∃ p, walk x p ∧ last (x :: p) = Some y.

Definition has_loop (x : nat) : Prop :=
  ∃ y p, reach x y ∧ walk y p ∧ p ≠ [] ∧ last p = Some y.

Lemma walk_app x p q :
  walk x (p ++ q) ↔ walk x p ∧ ∀ y, last (x :: p) = Some y → walk y q.
Proof.
  revert x. induction p as [|y p IH]; intros x; cbn [walk app].
  - cbn. naive_solver.
  - rewrite IH. cbn [last]. destruct p; naive_solver.
Qed.

(** A repeated chain on a walk is a loop, and a loop gives a repetition. *)
Lemma repeat_loop x p : walk x p → ¬ NoDup (x :: p) → has_loop x.
Proof.
  revert x. induction p as [|y p IH]; intros x Hw Hnd.
  { destruct Hnd. apply NoDup_singleton. }
  destruct Hw as [Hxy Hp].
  rewrite NoDup_cons in Hnd.
  destruct (decide (x ∈ y :: p)) as [Hx|Hx].
  - apply list_elem_of_split in Hx as (l1 & l2 & Heq).
    exists x, (l1 ++ [x]). split_and!.
    + exists []. done.
    + assert (Hw' : walk x ((l1 ++ [x]) ++ l2)) by (rewrite <- app_assoc; cbn [app]; rewrite <- Heq; done).
      by apply walk_app in Hw' as [? _].
    + by destruct l1.
    + by rewrite last_snoc.
  - destruct (IH y Hp) as (z & q & (r & Hr & Hl) & Hq); [tauto|].
    exists z, q. split; [|done]. exists (y :: r). split; [done|]. cbn in *. by destruct r.
Qed.

Lemma loop_repeat x : has_loop x → ∃ p, walk x p ∧ ¬ NoDup (x :: p).
Proof.
  intros (y & p & (q & Hq & Hl) & Hp & Hne & Hlp).
  exists (q ++ p). split.
  - apply walk_app. split; [done|]. intros z. rewrite Hl. by intros [= <-].
  - intros Hnd. change (x :: q ++ p) with ((x :: q) ++ p) in Hnd.
    apply NoDup_app in Hnd as (_ & Hdis & _).
    apply last_Some in Hl as (l & Hl). apply last_Some in Hlp as (l' & ->).
    apply (Hdis y); [rewrite Hl|]; set_solver.
Qed.
End walks.

Section equivalent.
Variables edge1 edge2 : nat → nat → Prop.
Hypothesis same_edges : ∀ x y, edge1 x y ↔ edge2 x y.

Lemma walk_iff x p : walk edge1 x p ↔ walk edge2 x p.
Proof. revert x. induction p as [|y p IH]; intros x; cbn; [done|]. by rewrite same_edges, IH. Qed.

Lemma reach_iff x y : reach edge1 x y ↔ reach edge2 x y.
Proof. unfold reach. by setoid_rewrite walk_iff. Qed.

Lemma has_loop_iff x : has_loop edge1 x ↔ has_loop edge2 x.
Proof. unfold has_loop. setoid_rewrite reach_iff. by setoid_rewrite walk_iff. Qed.
End equivalent.

(** Projecting a graph along [f]: an edge either goes along an edge of the
    image or stays in the class of its source and climbs.  A loop cannot climb
    only, so it gives a loop of the image. *)
Section projection.
Variables (E F : nat → nat → Prop) (f : nat → nat).
Hypothesis step : ∀ u v, E u v → F (f u) (f v) ∨ (f u = f v ∧ u < v).

Lemma project_walk x p y : walk E x p → last (x :: p) = Some y →
  ∃ q, walk F (f x) q ∧ last (f x :: q) = Some (f y) ∧ (q = [] → p = [] ∨ x < y).
Proof.
  revert x. induction p as [|z p IH]; intros x Hw Hl.
  { exists []. injection Hl as <-. split_and!; [done..|]. by left. }
  destruct Hw as [Hxz Hw]. destruct (IH z Hw) as (q & Hq & Hlq & Hne); [by destruct p|].
  destruct (step x z Hxz) as [HF|[Heq Hlt]].
  - exists (f z :: q). split_and!; [done| |done]. by destruct q.
  - exists q. rewrite Heq. split_and!; [done..|]. intros ->. right.
    destruct Hne as [->|?]; [done| |lia]. cbn in Hl. injection Hl as <-. done.
Qed.

Lemma project_loop x : has_loop E x → has_loop F (f x).
Proof.
  intros (y & p & (q & Hq & Hlq) & Hp & Hne & Hlp).
  destruct (project_walk x q y Hq Hlq) as (q' & Hq' & Hlq' & _).
  destruct (project_walk y p y Hp) as (p' & Hp' & Hlp' & Hne').
  { destruct p; [done|exact Hlp]. }
  assert (p' ≠ []) by (intros ->; destruct Hne' as [?|?]; [done|done|lia]).
  exists (f y), p'. split_and!; [by exists q'|done|done|]. by destruct p'.
Qed.
End projection.
