(* ===== verification/LoopCheck.v ===== *)
(** * The loop check of the chain graph

    [checkLoopComplete] of [src/src/newGraph.cpp]: a depth-first search along
    the fan-out sets whose stack is the current path. *)

From S2P Require Import Prelude OrdMap ChainDeps Walks.

(** [stack.pop_back()]: undefined on an empty list *)
Definition pop_back {A} (l : list A) : outcome (list A) :=
  match l with [] => Raise BadDeref | _ => Ret (removelast l) end.

Fixpoint checkLoopComplete (fuel : nat) (id : nat)
  (dependencies : ordmap nat (list nat)) (stack : list nat) : outcome (bool * list nat) :=
  match fuel with
  | 0 => Raise NoFuel
  | S fuel =>
      match mfind id dependencies with
      | None => stack ← pop_back stack; Ret (false, stack)
      | Some children =>
          (fix loop (chs : list nat) (stack : list nat) :=
             match chs with
             | [] => stack ← pop_back stack; Ret (false, stack)
             | ch :: chs =>
                 if bool_decide (ch ∈ stack) then Ret (true, stack)
                 else
                   '(found, stack) ← checkLoopComplete fuel ch dependencies (stack ++ [ch]);
                   if (found : bool) then Ret (true, stack) else loop chs stack
             end) children stack
      end
  end.

(** The call [newGraph::initialize] and [newGraph::mergeChain] make: the stack
    holds the root.  The search goes at most once around every chain, so the
    number of chains that occur in the map, plus the root, is enough fuel. *)
Definition map_nodes (m : ordmap nat (list nat)) : list nat := mkeys m ++ concat (m.*2).
Definition loop_fuel (m : ordmap nat (list nat)) : nat := S (S (length (map_nodes m))).
Definition checkLoop (dependencies : ordmap nat (list nat)) : outcome bool :=
  '(b, _) ← checkLoopComplete (loop_fuel dependencies) 0 dependencies [0]; Ret b.

Arguments checkLoop : simpl never.

(** ** The search *)

(** The loop over the fan-out of a chain, named. *)
Definition check_loop (rec : nat → list nat → outcome (bool * list nat)) :=
  fix loop (chs : list nat) (stack : list nat) : outcome (bool * list nat) :=
    match chs with
    | [] => stack ← pop_back stack; Ret (false, stack)
    | ch :: chs =>
        if bool_decide (ch ∈ stack) then Ret (true, stack)
        else
          '(found, stack) ← rec ch (stack ++ [ch]);
          if (found : bool) then Ret (true, stack) else loop chs stack
    end.

Lemma checkLoopComplete_S fuel id deps stack :
  checkLoopComplete (S fuel) id deps stack =
  match mfind id deps with
  | None => stack ← pop_back stack; Ret (false, stack)
  | Some children => check_loop (λ ch, checkLoopComplete fuel ch deps) children stack
  end.
Proof. done. Qed.

Lemma pop_back_snoc {A} (l : list A) x : pop_back (l ++ [x]) = Ret l.
Proof.
  unfold pop_back. destruct (l ++ [x]) eqn:E; [by destruct l|].
  rewrite <- E. by rewrite removelast_last.
Qed.

Section search.
Variable dependencies : ordmap nat (list nat).
Notation walk := (walk (related dependencies)).

(** What a call on the path [st ++ [id]] promises: [false] when no walk from
    [id] meets the path or itself, [true] when some walk does. *)
Definition search_spec (id : nat) (st : list nat) (r : bool * list nat) : Prop :=
  if r.1 then ∃ p, walk id p ∧ ¬ NoDup (st ++ id :: p)
  else r.2 = st ∧ ∀ p, walk id p → NoDup (st ++ [id]) → NoDup (st ++ id :: p).

Lemma check_loop_spec rec id st chs r :
  (∀ ch st r, rec ch (st ++ [ch]) = Ret r → search_spec ch st r) →
  (∀ ch, ch ∈ chs → related dependencies id ch) →
  check_loop rec chs (st ++ [id]) = Ret r →
  if r.1 then ∃ p, walk id p ∧ ¬ NoDup (st ++ id :: p)
  else r.2 = st ∧ ∀ ch p, ch ∈ chs → walk ch p → NoDup (st ++ [id]) →
                          NoDup (st ++ id :: ch :: p).
Proof.
  intros Hrec. induction chs as [|ch chs IH]; cbn; intros Hedge.
  { rewrite pop_back_snoc. cbn. intros [= <-]. set_solver. }
  case_bool_decide as Hst.
  { intros [= <-]. cbn. exists [ch]. split.
    - split; [apply Hedge; left|done].
    - intros Hnd. change (st ++ [id; ch]) with (st ++ [id] ++ [ch]) in Hnd.
      rewrite app_assoc in Hnd. apply NoDup_app in Hnd as (_ & Hdis & _).
      apply (Hdis ch); set_solver. }
  intros ([found st1] & Hcall & Hrest)%bind_ret_inv.
  apply Hrec in Hcall. unfold search_spec in Hcall. cbn in *. destruct found.
  - injection Hrest as <-. cbn. destruct Hcall as (p & Hw & Hnd).
    exists (ch :: p). split; [split; [apply Hedge; left|done]|].
    by rewrite <- app_assoc in Hnd.
  - destruct Hcall as [-> Hno].
    apply IH in Hrest; [|intros c Hc; apply Hedge; by right].
    destruct (r.1); [done|]. destruct Hrest as [-> Hno'].
    split; [done|]. intros c p [->|Hc]%elem_of_cons Hw Hnd; [|by apply Hno'].
    specialize (Hno p Hw). rewrite <- !app_assoc in Hno. apply Hno.
    rewrite app_assoc. apply NoDup_app. split; [done|].
    split; [set_solver|apply NoDup_singleton].
Qed.

Lemma checkLoopComplete_spec fuel id st r :
  checkLoopComplete fuel id dependencies (st ++ [id]) = Ret r → search_spec id st r.
Proof.
  revert id st r. induction fuel as [|fuel IH]; intros id st r; [done|].
  rewrite checkLoopComplete_S. destruct (mfind id dependencies) as [children|] eqn:Em.
  - intros Hloop. eapply check_loop_spec in Hloop; [|done|]; cycle 1.
    { intros ch Hch. by exists children. }
    unfold search_spec. destruct (r.1); [done|]. destruct Hloop as [-> Hno].
    split; [done|]. intros [|ch p] Hw Hnd; [done|]. destruct Hw as [He Hw].
    destruct He as (cs & Hcs & Hch). simplify_eq. by apply Hno.
  - rewrite pop_back_snoc. cbn. intros [= <-]. split; [done|].
    intros [|ch p] Hw Hnd; [done|]. destruct Hw as [(cs & Hcs & _) _]. congruence.
Qed.

(** Fuel: the path never repeats a chain. *)
Lemma checkLoopComplete_total nodes fuel id st :
  (∀ x y, related dependencies x y → y ∈ nodes) →
  NoDup (st ++ [id]) → st ++ [id] ⊆ nodes → length nodes < fuel + length (st ++ [id]) →
  ∃ r, checkLoopComplete fuel id dependencies (st ++ [id]) = Ret r.
Proof.
  intros Hclosed. revert id st. induction fuel as [|fuel IH]; intros id st Hnd Hin Hlen.
  { apply NoDup_submseteq in Hin; [|done]. apply submseteq_length in Hin. lia. }
  rewrite checkLoopComplete_S. destruct (mfind id dependencies) as [children|] eqn:Em;
    [|rewrite pop_back_snoc; cbn; eauto].
  assert (Hch : ∀ ch, ch ∈ children → ch ∈ nodes)
    by (intros ch ?; apply (Hclosed id); by exists children).
  clear Em. induction children as [|ch children IHc]; cbn.
  { rewrite pop_back_snoc. cbn. eauto. }
  case_bool_decide as Hst; [eauto|].
  destruct (IH ch (st ++ [id])) as ([found st1] & Hr).
  - apply NoDup_app. split; [done|]. split; [set_solver|apply NoDup_singleton].
  - set_solver.
  - rewrite !length_app in *. cbn in *. lia.
  - rewrite Hr. cbn. destruct found; [eauto|].
    apply checkLoopComplete_spec in Hr as [Hst1 _]. cbn in Hst1. subst st1.
    apply IHc. intros c Hc. apply Hch. by right.
Qed.
End search.

Lemma related_nodes m x y : related m x y → y ∈ map_nodes m.
Proof.
  intros (ys & Hm & Hy). apply elem_of_app. right. apply elem_of_concat.
  exists ys. split; [|done]. apply mfind_elem in Hm.
  apply list_elem_of_fmap. by exists (x, ys).
Qed.

(** ** Properties *)

Lemma checkLoop_ok (dependencies : ordmap nat (list nat)) :
  ∃ b, checkLoop dependencies = Ret b ∧
    (b = true ↔ has_loop (related dependencies) 0) ∧
    (b = false → checkLoopComplete (loop_fuel dependencies) 0 dependencies [0]
                 = Ret (false, [])).
Proof.
  destruct (checkLoopComplete_total dependencies (0 :: map_nodes dependencies)
              (loop_fuel dependencies) 0 []) as ([b st] & Hr).
  - intros x y H%related_nodes. by right.
  - apply NoDup_singleton.
  - set_solver.
  - unfold loop_fuel. cbn. lia.
  - unfold checkLoop. cbn [app] in Hr. rewrite Hr. cbn. exists b.
    apply checkLoopComplete_spec with (st := []) in Hr.
    destruct b; cbn in Hr; split_and!; try done.
    + split; [|done]. intros _. destruct Hr as (p & Hw & Hnd). by eapply repeat_loop.
    + split; [done|]. intros (p & Hw & Hnd)%loop_repeat.
      destruct Hnd. apply Hr; [done|]. apply NoDup_singleton.
    + intros _. by destruct Hr as [-> _].
Qed.

(** [C19] The loop check always returns (the fuel [loop_fuel] is enough for
    every map), its answer is [true] exactly when a loop of the chain graph can
    be reached from chain 0, and on [false] the stack is back to what the
    caller pushed minus the root. *)
Theorem checkLoop_correct (dependencies : ordmap nat (list nat)) :
  ∃ b, checkLoop dependencies = Ret b ∧
    (b = true ↔ has_loop (related dependencies) 0) ∧
    (b = false → checkLoopComplete (loop_fuel dependencies) 0 dependencies [0]
                 = Ret (false, [])).
Proof. by apply checkLoop_ok. Qed.
