(* ===== verification/Levels.v ===== *)
(** * Levels: longest paths from the root

    [findChainsLevel] (levels of chains) and [newGraph::findGrahpLevel]
    (levels of operations) of [src/src/newGraph.cpp].  Both are the same
    relaxation: raise the level of a node and push the next level to its
    successors.  [visit] is that relaxation over an abstract successor
    function; the two functions of the source are shown to be instances. *)

From S2P Require Import Prelude OrdMap ChainDeps Walks.

Open Scope Z_scope.

(** ** The operations of the source *)

(** [struct chainGraph] *)
Record chainGraph := ChainGraph {
  chainId : nat; blockID : nat; size : nat; live_in : nat; live_out : nat;
  fan_in : nat; fan_out : nat; ld_ins : nat; st_ins : nat; alloca_ins : nat;
  other : nat; level : Z; is_mem : bool; nodes : list nat
}.

Definition new_chainGraph : chainGraph :=
  ChainGraph 0 0 0 0 0 0 0 0 0 0 0 (-1) false [].

Definition set_level (c : chainGraph) (l : Z) : chainGraph :=
  ChainGraph (chainId c) (blockID c) (size c) (live_in c) (live_out c) (fan_in c)
    (fan_out c) (ld_ins c) (st_ins c) (alloca_ins c) (other c) l (is_mem c) (nodes c).

(** [std::find_if] on the chain id, as an index *)
Definition find_chain (id : nat) (ch_graph : list chainGraph) : option nat :=
  find_index (λ m, chainId m =? id)%nat ch_graph.

Fixpoint findChainsLevel (fuel : nat) (m_level : Z) (id : nat)
  (dependencies : ordmap nat (list nat)) (ch_graph : list chainGraph)
  : outcome (list chainGraph) :=
  match fuel with
  | O => Raise NoFuel
  | S fuel =>
      i ← deref (find_chain id ch_graph);
      m ← ch_graph.[i]!;
      if level m <? m_level then
        let ch_graph := <[i := set_level m m_level]> ch_graph in
        match mfind id dependencies with
        | None => Ret ch_graph
        | Some deps =>
            foldM (λ ch_graph dep,
                findChainsLevel fuel (m_level + 1) dep dependencies ch_graph)
              ch_graph deps
        end
      else Ret ch_graph
  end.

Section graph.
(** Targets of [boost::out_edges] and sources of [boost::in_edges]. *)
Variables out_edges in_edges : nat → list nat.

Fixpoint findGrahpLevel (fuel : nat) (id : nat) (m_level : list Z) (current_level : Z)
  : outcome (list Z) :=
  match fuel with
  | O => Raise NoFuel
  | S fuel =>
      l ← m_level.[id]!;
      if l <? current_level then
        if (id =? 0)%nat then
          let m_level := <[id := current_level]> m_level in
          if (length (out_edges id) =? 0)%nat then Ret m_level
          else
            foldM (λ m_level target,
                if (length (in_edges target) =? 1)%nat
                then findGrahpLevel fuel target m_level (current_level + 1)
                else Ret m_level)
              m_level (out_edges id)
        else
          let m_level := <[id := current_level]> m_level in
          if (length (out_edges id) =? 0)%nat then Ret m_level
          else
            foldM (λ m_level target, findGrahpLevel fuel target m_level (current_level + 1))
              m_level (out_edges id)
      else Ret m_level
  end.
End graph.

(** ** The relaxation *)

Definition lv (L : list Z) (x : nat) : Z := default 0 (L !! x).

(** The length of the longest walk from the root to a node. *)
Definition longest (edge : nat → nat → Prop) (root x : nat) (n : Z) : Prop :=
  (∃ p, walk edge root p ∧ last (root :: p) = Some x ∧ n = Z.of_nat (length p)) ∧
  ∀ p, walk edge root p → last (root :: p) = Some x → Z.of_nat (length p) ≤ n.

Lemma longest_iff e1 e2 root x n :
  (∀ x y, e1 x y ↔ e2 x y) → longest e1 root x n ↔ longest e2 root x n.
Proof. intros H. unfold longest. by setoid_rewrite (walk_iff _ _ H). Qed.

Section visit.
Variable succ : nat → list nat.

Fixpoint visit (fuel : nat) (m : Z) (id : nat) (L : list Z) : outcome (list Z) :=
  match fuel with
  | O => Raise NoFuel
  | S fuel =>
      l ← L.[id]!;
      if l <? m then foldM (λ L t, visit fuel (m + 1) t L) (<[id := m]> L) (succ id)
      else Ret L
  end.

Definition succ_edge (x y : nat) : Prop := y ∈ succ x.
Notation walk := (walk succ_edge).

Lemma lv_insert L x y m :
  (x < length L)%nat → lv (<[x := m]> L) y = if decide (x = y) then m else lv L y.
Proof.
  intros Hx. unfold lv. rewrite list_lookup_insert. repeat case_decide; naive_solver.
Qed.

(** What raising the nodes of [ids] to [m] does to the levels. *)
Record raised (m : Z) (ids : list nat) (L L' : list Z) : Prop := {
  raised_length : length L' = length L;
  raised_mono x : lv L x ≤ lv L' x;
  raised_sound x : lv L x < lv L' x →
    ∃ id p, id ∈ ids ∧ walk id p ∧ last (id :: p) = Some x ∧ lv L' x = m + Z.of_nat (length p);
  raised_closed x y : lv L x < lv L' x → y ∈ succ x → lv L' x + 1 ≤ lv L' y;
  raised_own id : id ∈ ids → m ≤ lv L' id
}.

Lemma raised_nil m L : raised m [] L L.
Proof. split; intros; try lia; set_solver. Qed.

Lemma raised_cons m id ids L L1 L2 :
  raised m [id] L L1 → raised m ids L1 L2 → raised m (id :: ids) L L2.
Proof.
  intros H1 H2. split.
  - rewrite (raised_length _ _ _ _ H2). apply H1.
  - intros x. pose proof (raised_mono _ _ _ _ H1 x). pose proof (raised_mono _ _ _ _ H2 x). lia.
  - intros x Hx. destruct (decide (lv L1 x < lv L2 x)) as [H|H].
    + destruct (raised_sound _ _ _ _ H2 x H) as (i & p & ? & ? & ? & ?).
      exists i, p. split_and!; try done. by right.
    + pose proof (raised_mono _ _ _ _ H2 x).
      destruct (raised_sound _ _ _ _ H1 x ltac:(lia)) as (i & p & ? & ? & ? & ?).
      exists i, p. split_and!; try done; [set_solver|lia].
  - intros x y Hx Hy. destruct (decide (lv L1 x < lv L2 x)) as [H|H].
    + by apply (raised_closed _ _ _ _ H2).
    + pose proof (raised_mono _ _ _ _ H2 x). pose proof (raised_mono _ _ _ _ H2 y).
      pose proof (raised_closed _ _ _ _ H1 x y ltac:(lia) Hy). lia.
  - intros i [->|Hi]%elem_of_cons; [|by apply H2].
    pose proof (raised_mono _ _ _ _ H2 id). pose proof (raised_own _ _ _ _ H1 id ltac:(set_solver)). lia.
Qed.

Lemma raised_fold (f : list Z → nat → outcome (list Z)) m ids L L' :
  (∀ id L L', f L id = Ret L' → raised m [id] L L') →
  foldM f L ids = Ret L' → raised m ids L L'.
Proof.
  intros Hf. revert L. induction ids as [|id ids IH]; intros L; cbn.
  { intros [= <-]. apply raised_nil. }
  intros (L1 & H1 & H2)%bind_ret_inv. eapply raised_cons; [by apply Hf|by apply IH].
Qed.

Lemma visit_raised fuel m id L L' :
  visit fuel m id L = Ret L' → raised m [id] L L'.
Proof.
  revert m id L L'. induction fuel as [|fuel IH]; intros m id L L'; cbn; [done|].
  intros (l & Hl%at_idx_ret & Hrun)%bind_ret_inv.
  assert (Hlv : lv L id = l) by (unfold lv; by rewrite Hl).
  apply lookup_lt_Some in Hl as Hlen.
  destruct (Z.ltb_spec l m) as [Hlt|Hge]; cycle 1.
  { injection Hrun as <-. split; intros; try lia.
    match goal with H : _ ∈ [_] |- _ => apply list_elem_of_singleton in H as -> end. lia. }
  apply (raised_fold _ (m + 1)) in Hrun; [|intros; by apply IH].
  set (L0 := <[id := m]> L) in *.
  assert (H0 : ∀ y, lv L0 y = if decide (id = y) then m else lv L y)
    by (intros; by apply lv_insert).
  split.
  - rewrite (raised_length _ _ _ _ Hrun). apply length_insert.
  - intros x. pose proof (raised_mono _ _ _ _ Hrun x) as H. rewrite H0 in H.
    case_decide; subst; lia.
  - intros x Hx. destruct (decide (lv L0 x < lv L' x)) as [H|H].
    + destruct (raised_sound _ _ _ _ Hrun x H) as (c & p & Hc & Hw & Hl' & Hlen').
      exists id, (c :: p). split_and!; [set_solver|done|by cbn in *; destruct p|cbn; lia].
    + pose proof (raised_mono _ _ _ _ Hrun x). rewrite H0 in *. case_decide; [|lia].
      subst x. exists id, []. split_and!; [set_solver|done|done|cbn; lia].
  - intros x y Hx Hy. destruct (decide (lv L0 x < lv L' x)) as [H|H].
    + by apply (raised_closed _ _ _ _ Hrun).
    + pose proof (raised_mono _ _ _ _ Hrun x). rewrite H0 in *. case_decide; [|lia].
      subst x. pose proof (raised_own _ _ _ _ Hrun y Hy). lia.
  - intros i ->%list_elem_of_singleton. pose proof (raised_mono _ _ _ _ Hrun id) as H.
    rewrite H0, decide_True in H by done. lia.
Qed.

(** Fuel: the recursion follows a walk. *)
Lemma visit_total n fuel m id L :
  (∀ x y, (x < n)%nat → y ∈ succ x → (y < n)%nat) →
  (∀ p, walk id p → (length p < fuel)%nat) → (id < n)%nat → length L = n →
  ∃ L', visit fuel m id L = Ret L'.
Proof.
  intros Hrange. revert m id L. induction fuel as [|fuel IH]; intros m id L Hw Hid Hlen.
  { specialize (Hw [] I). lia. }
  cbn. destruct (at_idx_lt L id) as [l ->]; [lia|]. cbn. case_match; [|eauto].
  destruct (foldM_total (λ L, length L = n) (λ L t, visit fuel (m + 1) t L) (succ id))
    with (b := <[id := m]> L) as (L' & -> & _); [|by rewrite length_insert|eauto].
  intros L1 t Ht HL1. destruct (IH (m + 1) t L1) as [L2 HL2]; [| |done|].
  - intros p Hp. specialize (Hw (t :: p)). cbn in Hw. assert (S (length p) < S fuel)%nat; [|lia].
    by apply Hw.
  - by eapply Hrange.
  - exists L2. split; [done|]. apply visit_raised in HL2.
    by rewrite (raised_length _ _ _ _ HL2).
Qed.

Lemma walk_range n id p :
  (∀ x y, (x < n)%nat → y ∈ succ x → (y < n)%nat) →
  (id < n)%nat → walk id p → Forall (λ y, (y < n)%nat) (id :: p).
Proof.
  intros Hr. revert id. induction p as [|y p IH]; intros id Hid Hw; [by repeat constructor|].
  destruct Hw as [He Hw]. constructor; [done|]. apply IH; [by eapply Hr|done].
Qed.

Lemma acyclic_bound n id p :
  (∀ x y, (x < n)%nat → y ∈ succ x → (y < n)%nat) →
  (id < n)%nat → ¬ has_loop succ_edge id → walk id p → (length p < n)%nat.
Proof.
  intros Hr Hid Hloop Hw. pose proof (walk_range n id p Hr Hid Hw) as Hall.
  assert (Hnd : NoDup (id :: p)).
  { destruct (decide (NoDup (id :: p))) as [?|Hnd]; [done|].
    by apply (repeat_loop _ _ _ Hw) in Hnd. }
  assert (Hsub : id :: p ⊆ seq 0 n).
  { intros y Hy. rewrite Forall_forall in Hall. apply elem_of_seq.
    pose proof (Hall y Hy). lia. }
  apply NoDup_submseteq in Hsub; [|done]. apply submseteq_length in Hsub.
  rewrite length_seq in Hsub. cbn in Hsub. lia.
Qed.

(** The relaxation from an initial vector of [-1] computes longest walks. *)
Lemma visit_longest n :
  (0 < n)%nat → (∀ x y, (x < n)%nat → y ∈ succ x → (y < n)%nat) → ¬ has_loop succ_edge 0 →
  ∃ L, visit n 0 0 (replicate n (-1)) = Ret L ∧ length L = n ∧
    ∀ x, (x < n)%nat →
      (lv L x = -1 ∧ ¬ reach succ_edge 0 x) ∨ longest succ_edge 0 x (lv L x).
Proof.
  intros Hn Hr Hloop.
  destruct (visit_total n n 0 0 (replicate n (-1))) as [L HL]; [done| |done|by rewrite length_replicate|].
  { intros p Hw. by eapply acyclic_bound. }
  exists L. split; [done|]. apply visit_raised in HL.
  split; [rewrite (raised_length _ _ _ _ HL); apply length_replicate|].
  assert (Hinit : ∀ x, (x < n)%nat → lv (replicate n (-1)) x = -1).
  { intros x Hx. unfold lv. by rewrite lookup_replicate_2 by done. }
  assert (Hup : ∀ p x, walk 0 p → last (0%nat :: p) = Some x → Z.of_nat (length p) ≤ lv L x).
  { induction p as [|y p IH] using rev_ind; intros x Hw Hl.
    - cbn in Hl. simplify_eq. apply (raised_own _ _ _ _ HL). set_solver.
    - apply walk_app in Hw as [Hw He].
      assert (Hz : is_Some (last (0%nat :: p))) by (by apply last_is_Some).
      destruct Hz as [z Hz]. specialize (He z Hz). destruct He as [He _].
      specialize (IH z Hw Hz). rewrite app_comm_cons, last_snoc in Hl. injection Hl as <-.
      assert (Hzn : (z < n)%nat).
      { pose proof (walk_range n 0 p Hr Hn Hw) as Hall. rewrite Forall_forall in Hall.
        apply Hall. apply last_Some in Hz as [l ->]. set_solver. }
      pose proof (raised_closed _ _ _ _ HL z y) as Hc. rewrite Hinit in Hc by done.
      rewrite length_app. cbn. specialize (Hc ltac:(lia) He). lia. }
  intros x Hx. destruct (decide (lv L x = -1)) as [Hm|Hm].
  - left. split; [done|]. intros (p & Hw & Hl). specialize (Hup p x Hw Hl). lia.
  - right. split; [|intros p Hw Hl; by apply (Hup p x)].
    pose proof (raised_mono _ _ _ _ HL x) as Hmono. pose proof (raised_sound _ _ _ _ HL x) as Hs.
    rewrite Hinit in Hmono, Hs by done.
    destruct (Hs ltac:(lia)) as (id & p & ->%list_elem_of_singleton & Hw & Hl & Heq).
    exists p. split_and!; [done..|lia].
Qed.
End visit.

(** ** The two functions of the source are instances *)

Lemma foldM_ext_ret {A B} (f g : B → A → outcome B) l b b' :
  (∀ b x b', x ∈ l → f b x = Ret b' → g b x = Ret b') →
  foldM f b l = Ret b' → foldM g b l = Ret b'.
Proof.
  revert b. induction l as [|x l IH]; intros b Hfg; cbn; [done|].
  intros (b1 & H1 & H2)%bind_ret_inv. rewrite (Hfg b x b1) by (done || set_solver). cbn.
  apply IH; [|done]. intros b2 y b3 Hy. apply Hfg. set_solver.
Qed.

Lemma foldM_filter {A B} (f : B → A → outcome B) (c : A → bool) l b :
  foldM (λ b x, if c x then f b x else Ret b) b l = foldM f b (filter (λ x, c x = true) l).
Proof.
  revert b. induction l as [|x l IH]; intros b; cbn; [done|].
  destruct (c x) eqn:Hc.
  - rewrite decide_True by done. cbn. destruct (f b x); cbn; [apply IH|done].
  - rewrite decide_False by congruence. apply IH.
Qed.

(** The successors [findGrahpLevel] follows: from the root only the vertices
    with no other in-edge. *)
Definition level_succ (out_edges in_edges : nat → list nat) (id : nat) : list nat :=
  if (id =? 0)%nat
  then filter (λ t, (length (in_edges t) =? 1)%nat = true) (out_edges id)
  else out_edges id.

Lemma findGrahpLevel_visit out ins fuel id L m L' :
  visit (level_succ out ins) fuel m id L = Ret L' →
  findGrahpLevel out ins fuel id L m = Ret L'.
Proof.
  revert id L m L'. induction fuel as [|fuel IH]; intros id L m L'; cbn; [done|].
  intros (l & -> & Hrun)%bind_ret_inv. cbn. destruct (l <? m); [|done].
  unfold level_succ in Hrun at 2. destruct (id =? 0)%nat.
  - rewrite (foldM_filter (λ L t, findGrahpLevel out ins fuel t L (m + 1))).
    destruct (length (out id) =? 0)%nat eqn:E.
    + apply Nat.eqb_eq, length_zero_iff_nil in E. by rewrite E in Hrun.
    + eapply foldM_ext_ret; [|exact Hrun]. intros; by apply IH.
  - destruct (length (out id) =? 0)%nat eqn:E.
    + apply Nat.eqb_eq, length_zero_iff_nil in E. by rewrite E in Hrun.
    + eapply foldM_ext_ret; [|exact Hrun]. intros; by apply IH.
Qed.

(** The chains of a decomposition are numbered by their position. *)
Definition numbered (g : list chainGraph) : Prop := ∀ i c, g !! i = Some c → chainId c = i.

Definition with_levels (g : list chainGraph) (L : list Z) : list chainGraph :=
  zip_with set_level g L.

Definition chain_succ (dependencies : ordmap nat (list nat)) (id : nat) : list nat :=
  default [] (mfind id dependencies).

Lemma find_chain_numbered g i c : numbered g → g !! i = Some c → find_chain i g = Some i.
Proof.
  intros Hg Hi. apply find_index_Some. exists c. split_and!; [done|..].
  - apply Nat.eqb_eq. by eapply Hg.
  - intros j d Hd Hlt. apply Nat.eqb_neq. rewrite (Hg j d Hd). lia.
Qed.

Lemma with_levels_lookup g L i c :
  with_levels g L !! i = Some c ↔ ∃ d l, g !! i = Some d ∧ L !! i = Some l ∧ c = set_level d l.
Proof. unfold with_levels. rewrite lookup_zip_with_Some. naive_solver. Qed.

Lemma with_levels_numbered g L : numbered g → numbered (with_levels g L).
Proof. intros Hg i c (d & l & Hd & _ & ->)%with_levels_lookup. exact (Hg i d Hd). Qed.

Lemma with_levels_insert g L i c m :
  with_levels g L !! i = Some c →
  <[i := set_level c m]> (with_levels g L) = with_levels g (<[i := m]> L).
Proof.
  intros Hc. apply list_eq. intros j. apply with_levels_lookup in Hc as (d & l & Hd & Hl & ->).
  destruct (decide (i = j)) as [->|Hne].
  - rewrite list_lookup_insert_eq.
    + symmetry. apply with_levels_lookup. exists d, m.
      split_and!; [done| |done].
      apply list_lookup_insert_eq. by eapply lookup_lt_Some.
    + unfold with_levels. rewrite length_zip_with.
      apply lookup_lt_Some in Hd, Hl. lia.
  - rewrite list_lookup_insert_ne by done. unfold with_levels.
    rewrite !lookup_zip_with. by rewrite (list_lookup_insert_ne L).
Qed.

Lemma findChainsLevel_visit deps g fuel m id L L' :
  numbered g → length L = length g →
  visit (chain_succ deps) fuel m id L = Ret L' →
  findChainsLevel fuel m id deps (with_levels g L) = Ret (with_levels g L').
Proof.
  intros Hg. revert m id L L'. induction fuel as [|fuel IH]; intros m id L L' Hlen; cbn; [done|].
  intros (l & Hl%at_idx_ret & Hrun)%bind_ret_inv.
  destruct (g !! id) as [c|] eqn:Hc;
    [|apply lookup_ge_None in Hc; apply lookup_lt_Some in Hl; lia].
  assert (Hc' : with_levels g L !! id = Some (set_level c l))
    by (apply with_levels_lookup; eauto).
  rewrite (find_chain_numbered _ id (set_level c l)) by (done || by apply with_levels_numbered).
  cbn. rewrite (proj2 (at_idx_ret _ _ _) Hc'). cbn. destruct (l <? m); [|by injection Hrun as ->].
  pose proof (with_levels_insert g L id _ m Hc') as ->.
  unfold chain_succ in Hrun at 2. destruct (mfind id deps) as [ds|]; cbn in *;
    [|by injection Hrun as <-].
  assert (Hlen' : length (<[id:=m]> L) = length g) by by rewrite length_insert.
  revert Hlen' Hrun. generalize (<[id:=m]> L) as L0. clear -IH Hg.
  induction ds as [|d ds IHd]; intros L0 Hlen; cbn; [by intros [= ->]|].
  intros (L1 & H1 & H2)%bind_ret_inv.
  rewrite (IH (m + 1) d L0 L1 Hlen H1). cbn. apply IHd; [|done].
  apply visit_raised in H1. by rewrite (raised_length _ _ _ _ _ H1).
Qed.

Lemma chain_succ_related deps x y : succ_edge (chain_succ deps) x y ↔ related deps x y.
Proof.
  unfold succ_edge, chain_succ, related. destruct (mfind x deps); cbn; [naive_solver|].
  split; [set_solver|naive_solver].
Qed.

(** ** Properties *)

Lemma findChainsLevel_ok (g : list chainGraph) (deps : ordmap nat (list nat))
  (Hne : g ≠ []) (Hnum : numbered g) (Hinit : ∀ i c, g !! i = Some c → level c = -1)
  (Hin : ∀ x y, related deps x y → (y < length g)%nat)
  (Hloop : ¬ has_loop (related deps) 0) :
  ∃ L, findChainsLevel (length g) 0 0 deps g = Ret (with_levels g L) ∧
    length L = length g ∧
    ∀ x, (x < length g)%nat →
      (lv L x = -1 ∧ ¬ reach (related deps) 0 x) ∨ longest (related deps) 0 x (lv L x).
Proof.
  destruct (visit_longest (chain_succ deps) (length g)) as (L & HL & Hlen & Hspec).
  - destruct g; cbn; [done|lia].
  - intros x y _ Hy. apply (Hin x). by apply chain_succ_related.
  - by rewrite (has_loop_iff _ _ (chain_succ_related deps)).
  - exists L. split_and!; [|done|].
    + replace g with (with_levels g (replicate (length g) (-1))) at 2.
      * apply findChainsLevel_visit; [done|by rewrite length_replicate|done].
      * apply list_eq. intros i. unfold with_levels. rewrite lookup_zip_with.
        destruct (g !! i) as [c|] eqn:Hc; cbn; [|done].
        rewrite lookup_replicate_2 by by eapply lookup_lt_Some. cbn.
        rewrite <- (Hinit i c Hc). by destruct c.
    + intros x Hx. rewrite <- (longest_iff _ _ _ _ _ (chain_succ_related deps)).
      rewrite <- (reach_iff _ _ (chain_succ_related deps)). by apply Hspec.
Qed.

(** [C20] On a chain graph without a loop behind chain 0, [findChainsLevel]
    called as [buildChainGraph] calls it returns (the number of chains is
    enough fuel and no chain is missing), changes nothing but the levels, and
    gives each chain the length of the longest path from chain 0 to it; a chain
    that chain 0 does not reach keeps level -1. *)
Theorem findChainsLevel_longest (g : list chainGraph) (deps : ordmap nat (list nat))
  (Hne : g ≠ []) (Hnum : numbered g) (Hinit : ∀ i c, g !! i = Some c → level c = -1)
  (Hin : ∀ x y, related deps x y → (y < length g)%nat)
  (Hloop : ¬ has_loop (related deps) 0) :
  ∃ L, findChainsLevel (length g) 0 0 deps g = Ret (with_levels g L) ∧
    length L = length g ∧
    ∀ x, (x < length g)%nat →
      (lv L x = -1 ∧ ¬ reach (related deps) 0 x) ∨ longest (related deps) 0 x (lv L x).
Proof. by apply findChainsLevel_ok. Qed.

Lemma findGrahpLevel_ok (out ins : nat → list nat) (n : nat)
  (Hn : (0 < n)%nat) (Hin : ∀ x y, (x < n)%nat → y ∈ out x → (y < n)%nat)
  (Hloop : ¬ has_loop (succ_edge (level_succ out ins)) 0) :
  ∃ L, findGrahpLevel out ins n 0 (replicate n (-1)) 0 = Ret L ∧ length L = n ∧
    ∀ x, (x < n)%nat →
      (lv L x = -1 ∧ ¬ reach (succ_edge (level_succ out ins)) 0 x) ∨
      longest (succ_edge (level_succ out ins)) 0 x (lv L x).
Proof.
  destruct (visit_longest (level_succ out ins) n) as (L & HL & Hlen & Hspec); [done| |done|].
  - intros x y Hx. unfold level_succ. case_match; [|by apply Hin].
    intros [_ Hy]%list_elem_of_filter. by eapply Hin.
  - exists L. split_and!; [by apply findGrahpLevel_visit|done..].
Qed.

(** [findGrahpLevel], called as [completeReadGraphHelper] calls it on a
    graph of [n] vertices whose operations have no cyclic dependence, returns
    and gives each operation the length of the longest dependence path from
    vertex 0, where the first step of a path must lead to a vertex with a
    single in-edge; a vertex with no such path keeps level -1. *)
Theorem findGrahpLevel_longest (out ins : nat → list nat) (n : nat)
  (Hn : (0 < n)%nat) (Hin : ∀ x y, (x < n)%nat → y ∈ out x → (y < n)%nat)
  (Hloop : ¬ has_loop (succ_edge (level_succ out ins)) 0) :
  ∃ L, findGrahpLevel out ins n 0 (replicate n (-1)) 0 = Ret L ∧ length L = n ∧
    ∀ x, (x < n)%nat →
      (lv L x = -1 ∧ ¬ reach (succ_edge (level_succ out ins)) 0 x) ∨
      longest (succ_edge (level_succ out ins)) 0 x (lv L x).
Proof. by apply findGrahpLevel_ok. Qed.

(** The diamond 0 -> 1 -> 2 -> 3, 1 -> 3 of chains. *)
Definition example_graph : list chainGraph :=
  (λ i, ChainGraph i 0 0 0 0 0 0 0 0 0 0 (-1) false []) <$> seq 0 4.
Definition example_deps : ordmap nat (list nat) := [(0, [1]); (1, [2; 3]); (2, [3])]%nat.

(** Walks that go up cannot loop. *)
Lemma rising_no_loop edge x : (∀ x y, edge x y → (x < y)%nat) → ¬ has_loop edge x.
Proof.
  intros Hup (y & p & _ & Hw & Hne & Hl).
  assert (H : ∀ p z, walk edge z p → Forall (λ w, (z < w)%nat) p).
  { clear -Hup. induction p as [|w p IH]; intros z Hw; [done|]. destruct Hw as [He Hw].
    apply Hup in He. constructor; [done|]. eapply Forall_impl; [by apply (IH w)|]. cbn; lia. }
  specialize (H p y Hw). apply last_Some in Hl as [l ->].
  rewrite Forall_app, Forall_singleton in H. lia.
Qed.

Lemma related_elem deps x y : related deps x y → (x, y) ∈ pairs_of deps.
Proof.
  intros (ys & Hm%mfind_elem & Hy). apply list_elem_of_bind. exists (x, ys).
  split; [|done]. by apply list_elem_of_fmap_2.
Qed.

Lemma findChainsLevel_longest_witness :
  ∃ L, findChainsLevel (length example_graph) 0 0 example_deps example_graph
       = Ret (with_levels example_graph L) ∧ length L = length example_graph ∧
    ∀ x, (x < length example_graph)%nat →
      (lv L x = -1 ∧ ¬ reach (related example_deps) 0 x) ∨
      longest (related example_deps) 0 x (lv L x).
Proof.
  apply (findChainsLevel_longest example_graph example_deps).
  - done.
  - intros [|[|[|[|i]]]] c Hc; try discriminate Hc; injection Hc as <-; reflexivity.
  - intros [|[|[|[|i]]]] c Hc; try discriminate Hc; injection Hc as <-; reflexivity.
  - intros x y H%related_elem. elem_cases H; simplify_eq; cbn; lia.
  - apply rising_no_loop. intros x y H%related_elem. elem_cases H; simplify_eq; lia.
Defined.

Lemma findGrahpLevel_longest_witness :
  ∃ L, findGrahpLevel example_out (λ v, if (v =? 0)%nat then [] else [0%nat]) 4 0
         (replicate 4 (-1)) 0 = Ret L ∧ length L = 4%nat ∧
    ∀ x, (x < 4)%nat →
      (lv L x = -1 ∧ ¬ reach (succ_edge (level_succ example_out
                        (λ v, if (v =? 0)%nat then [] else [0%nat]))) 0 x) ∨
      longest (succ_edge (level_succ example_out
                 (λ v, if (v =? 0)%nat then [] else [0%nat]))) 0 x (lv L x).
Proof.
  apply (findGrahpLevel_longest example_out (λ v, if (v =? 0)%nat then [] else [0%nat]) 4).
  - lia.
  - intros [|[|[|[|x]]]] y Hx Hy; elem_cases Hy; lia.
  - apply rising_no_loop. intros [|[|[|x]]] y Hy; vm_compute in Hy; elem_cases Hy; lia.
Defined.

(** Two parallel edges from the root (two operands of the same operation): the
    in-degree of the target is 2 and its level stays -1. *)
Example parallel_edges_keep_minus_one :
  findGrahpLevel (λ v, if (v =? 0)%nat then [1; 1]%nat else [])
    (λ v, if (v =? 1)%nat then [0; 0]%nat else []) 2 0 (replicate 2 (-1)) 0 = Ret [0; -1].
Proof. reflexivity. Qed.
