(* ===== verification/Breaks.v ===== *)
(** * Breaking and merging chains

    The passes of [src/src/newGraph.cpp] that rewrite the decomposition:
    [breakOutHelper] and [breakInHelper] split one chain, the [breakEvery*]
    loops run them until nothing is left to split, [breakingStartNode] cuts the
    chain of the root, [mergeChain] appends one chain to another. *)

From S2P Require Import Prelude OrdMap ChainDeps Walks LoopCheck.

(** [std::find] of a vertex in a chain *)
Definition find_vertex (v : nat) (c : list nat) : option nat := find_index (Nat.eqb v) c.

(** [a_ch.back()]; only evaluated on chains that have a vertex *)
Definition is_back (v : nat) (c : list nat) : bool :=
  match last c with Some w => v =? w | None => false end.

(** Cut a chain at a position: the chain keeps the prefix, the suffix is pushed
    at the end of the decomposition. *)
Definition cut (m_chain : chains) (i pos : nat) (c : list nat) : chains :=
  <[i := take pos c]> m_chain ++ [drop pos c].

Section graph.
(** Targets of [boost::out_edges(v, G)], in iteration order. *)
Variable out_edges : nat → list nat.

(** ** Operations *)

Fixpoint breakOutHelper (m_chain : chains) (m_depen : list chainDependency)
  : outcome (bool * chains) :=
  match m_depen with
  | [] => Ret (false, m_chain)
  | dep :: m_depen =>
      a_ch ← m_chain.[source dep]!;
      b_ch ← m_chain.[target dep]!;
      match find_index (λ node,
              negb (is_back node a_ch) &&
              existsb (λ t, bool_decide (t ∈ b_ch)) (out_edges node)) a_ch with
      | Some k =>
          node ← a_ch.[k]!;
          pos ← deref (find_vertex node a_ch);
          Ret (true, cut m_chain (source dep) (S pos) a_ch)
      | None => breakOutHelper m_chain m_depen
      end
  end.

(** The position at which one in-edge of [b_ch] splits it, if it does.
    [*temp_it] is read before [temp_it] is compared with [end()]: a target that
    is not in [b_ch] makes the read go past the end. *)
Definition in_split (b_ch : list nat) (target : nat) : outcome (option nat) :=
  temp_it ← deref (find_vertex target b_ch);
  pointee ← b_ch.[temp_it]!;
  front ← deref (head b_ch);
  Ret (if pointee =? front then None (* continue *) else Some temp_it).

Fixpoint first_split (b_ch : list nat) (targets : list nat) : outcome (option nat) :=
  match targets with
  | [] => Ret None
  | t :: targets =>
      split ← in_split b_ch t;
      match split with Some p => Ret (Some p) | None => first_split b_ch targets end
  end.

Fixpoint breakInHelper (m_chain : chains) (m_depen : list chainDependency)
  : outcome (bool * chains) :=
  match m_depen with
  | [] => Ret (false, m_chain)
  | dep :: m_depen =>
      a_ch ← m_chain.[source dep]!;
      b_ch ← m_chain.[target dep]!;
      split ← first_split b_ch (a_ch ≫= out_edges);
      match split with
      | Some pos => Ret (true, cut m_chain (target dep) pos b_ch)
      | None => breakInHelper m_chain m_depen
      end
  end.

Fixpoint breakEveryLiveOut (fuel : nat) (Chains : chains) : outcome chains :=
  match fuel with
  | 0 => Raise NoFuel
  | S fuel =>
      dependencies ← dependenciesGenerate out_edges Chains (vertexToChainMap Chains);
      '(out_flag, Chains) ← breakOutHelper Chains dependencies;
      if (out_flag : bool) then breakEveryLiveOut fuel Chains else Ret Chains
  end.

Fixpoint breakEveryLiveIn (fuel : nat) (Chains : chains) : outcome chains :=
  match fuel with
  | 0 => Raise NoFuel
  | S fuel =>
      dependencies ← dependenciesGenerate out_edges Chains (vertexToChainMap Chains);
      '(in_flag, Chains) ← breakInHelper Chains dependencies;
      if (in_flag : bool) then breakEveryLiveIn fuel Chains else Ret Chains
  end.

(** The vertex mapped to chain 0 and chosen as start node. *)
Definition breakingStartNode (first_node_id : nat) (Chains : chains) : outcome chains :=
  ch_first ← Chains.[0]!;
  match find_vertex first_node_id ch_first with
  | Some pos =>
      if 1 <? length ch_first then Ret (cut Chains 0 (S pos) ch_first) else Ret Chains
  | None => Ret Chains
  end.

(** Append chain [j] to chain [i] and erase chain [j]. *)
Definition join (m_chain : chains) (i j : nat) : outcome chains :=
  a ← m_chain.[i]!;
  b ← m_chain.[j]!;
  Ret (delete j (<[i := a ++ b]> m_chain)).

(** The loop over the out-edges of the last vertex of chain [i]. *)
Fixpoint merge_edges (m_chain : chains) (vertex_to_chunk : ordmap nat nat) (i : nat)
  (targets : list nat) : outcome (option chains) :=
  match targets with
  | [] => Ret None
  | target :: targets =>
      t ← deref (mfind target vertex_to_chunk);
      starts ← (if negb (t =? i)
                then t_ch ← m_chain.[t]!; front ← deref (head t_ch); Ret (front =? target)
                else Ret false);
      if (starts : bool) then
        temp_chain ← join m_chain i t;
        dependencies ← dependenciesGenerate out_edges temp_chain (vertexToChainMap temp_chain);
        has_loop ← checkLoop (uniqueDependency (histoDependency dependencies));
        if (has_loop : bool) then merge_edges m_chain vertex_to_chunk i targets
        else merged ← join m_chain i t; Ret (Some merged)
      else merge_edges m_chain vertex_to_chunk i targets
  end.

Fixpoint merge_from (m_chain : chains) (vertex_to_chunk : ordmap nat nat) (idxs : list nat)
  : outcome (bool * chains) :=
  match idxs with
  | [] => Ret (false, m_chain)
  | i :: idxs =>
      ch ← m_chain.[i]!;
      node ← deref (last ch);
      r ← merge_edges m_chain vertex_to_chunk i (out_edges node);
      match r with
      | Some merged => Ret (true, merged)
      | None => merge_from m_chain vertex_to_chunk idxs
      end
  end.

Definition mergeChain (m_chain : chains) : outcome (bool * chains) :=
  merge_from m_chain (vertexToChainMap m_chain) (seq 1 (length m_chain - 1)).

(** [while(mergeChain(Chains, clean_graph));] *)
Fixpoint mergeLoop (fuel : nat) (Chains : chains) : outcome chains :=
  match fuel with
  | 0 => Raise NoFuel
  | S fuel =>
      '(merged, Chains) ← mergeChain Chains;
      if (merged : bool) then mergeLoop fuel Chains else Ret Chains
  end.
End graph.

(** ** Cuts *)

Lemma cut_concat cs i pos c : cs !! i = Some c → concat (cut cs i pos c) ≡ₚ concat cs.
Proof. intros Hi. eapply concat_split; [done|]. by rewrite take_drop. Qed.

Lemma cut_length cs i pos c : length (cut cs i pos c) = S (length cs).
Proof. unfold cut. rewrite length_app, length_insert. cbn. lia. Qed.

(** A cut strictly inside a chain leaves no chain empty. *)
Lemma cut_partition cs i pos c :
  partition cs → cs !! i = Some c → 0 < pos < length c → partition (cut cs i pos c).
Proof.
  intros [Hnd Hne] Hi Hpos. split; [by rewrite cut_concat|].
  unfold cut. rewrite elem_of_app, list_elem_of_singleton. intros [H|H].
  - apply list_elem_of_lookup in H as (j & Hj).
    apply list_lookup_insert_Some in Hj as [(-> & H & _)|(_ & H)].
    + destruct c; cbn in *; [lia|]. destruct pos; [lia|done].
    + apply Hne. apply list_elem_of_lookup. eauto.
  - assert (Hl : length (drop pos c) = 0) by by rewrite <- H. rewrite length_drop in Hl. lia.
Qed.

Lemma edges_inside_perm out cs cs' :
  concat cs' ≡ₚ concat cs → edges_inside out cs → edges_inside out cs'.
Proof. intros Hp H u v. rewrite Hp. apply H. Qed.

(** No empty chain: at most one chain per vertex. *)
Lemma partition_length cs : partition cs → length cs ≤ length (concat cs).
Proof.
  intros [_ Hne]. induction cs as [|c cs IH]; cbn; [done|].
  rewrite length_app. destruct c as [|v c]; [set_solver|].
  assert (length cs ≤ length (concat cs)) by (apply IH; set_solver). cbn. lia.
Qed.

Lemma find_vertex_Some v c p :
  find_vertex v c = Some p → c !! p = Some v ∧ ∀ j, c !! j = Some v → p ≤ j.
Proof.
  unfold find_vertex. rewrite find_index_Some. intros (w & Hw & <-%Nat.eqb_eq & Hmin).
  split; [done|]. intros j Hj. destruct (le_lt_dec p j) as [?|Hlt]; [done|].
  specialize (Hmin j v Hj Hlt). by rewrite Nat.eqb_refl in Hmin.
Qed.

Lemma find_vertex_NoDup v c p : NoDup c → c !! p = Some v → find_vertex v c = Some p.
Proof.
  intros Hnd Hp. apply find_index_Some. exists v. split_and!; [done|apply Nat.eqb_refl|].
  intros j y Hj Hlt. apply Nat.eqb_neq. intros <-.
  pose proof (NoDup_lookup c p j v Hnd Hp Hj). lia.
Qed.

Lemma find_vertex_None v c : find_vertex v c = None ↔ v ∉ c.
Proof.
  unfold find_vertex. rewrite find_index_None. split.
  - intros H Hv. specialize (H v Hv). by rewrite Nat.eqb_refl in H.
  - intros H w Hw. apply Nat.eqb_neq. by intros ->.
Qed.

(** ** One step of [breakOutHelper] *)

(** What a helper leaves when it finds nothing to split. *)
Definition no_split (P : list nat → list nat → Prop) (cs : chains)
  (deps : list chainDependency) : Prop :=
  ∀ d a b, d ∈ deps → cs !! source d = Some a → cs !! target d = Some b → P a b.

Definition only_last_out (out : nat → list nat) (a b : list nat) : Prop :=
  ∀ u v, u ∈ a → v ∈ b → v ∈ out u → last a = Some u.

Definition only_first_in (out : nat → list nat) (a b : list nat) : Prop :=
  ∀ u v, u ∈ a → v ∈ b → v ∈ out u → head b = Some v.

Definition in_bounds (cs : chains) (deps : list chainDependency) : Prop :=
  ∀ d, d ∈ deps → source d < length cs ∧ target d < length cs.

Lemma breakOutHelper_spec out cs deps :
  partition cs → in_bounds cs deps →
  (∃ i pos c, cs !! i = Some c ∧ 0 < pos < length c ∧
     breakOutHelper out cs deps = Ret (true, cut cs i pos c)) ∨
  (breakOutHelper out cs deps = Ret (false, cs) ∧ no_split (only_last_out out) cs deps).
Proof.
  intros [Hnd Hne]. induction deps as [|d deps IH]; intros Hb; cbn.
  { right. split; [done|]. intros d. set_solver. }
  destruct (Hb d ltac:(left)) as [Hs Ht].
  destruct (at_idx_lt cs _ Hs) as (a & Ha), (at_idx_lt cs _ Ht) as (b & Hb').
  rewrite Ha, Hb'. cbn. apply at_idx_ret in Ha, Hb'.
  assert (Hnda : NoDup a) by by eapply NoDup_concat_lookup.
  destruct (find_index _ a) as [k|] eqn:Ek.
  - apply find_index_Some in Ek as (node & Hk & Hc & _).
    apply andb_true_iff in Hc as [Hback%negb_true_iff _].
    rewrite (proj2 (at_idx_ret _ _ _) Hk). cbn. rewrite (find_vertex_NoDup node a k) by done. cbn.
    left. exists (source d), (S k), a.
    apply lookup_lt_Some in Hk as Hlt. split_and!; [done|lia| |done].
    destruct (decide (S k = length a)) as [Hlast|]; [|lia].
    unfold is_back in Hback. rewrite last_lookup, <- Hlast in Hback. cbn in Hback.
    by rewrite Hk, Nat.eqb_refl in Hback.
  - rewrite find_index_None in Ek. destruct IH as [?|[IH1 IH2]]; [|by left|].
    { intros d' Hd'. apply Hb. by right. }
    right. split; [done|]. intros d' a' b' [->|Hd']%elem_of_cons Ha' Hb''; [|by eapply IH2].
    simplify_eq. intros u v Hu Hv He. specialize (Ek u Hu). apply andb_false_iff in Ek as [E|E].
    + apply negb_false_iff in E. unfold is_back in E. destruct (last a) eqn:El; [|done].
      by apply Nat.eqb_eq in E as ->.
    + exfalso. rewrite <- not_true_iff_false in E. apply E, existsb_exists.
      exists v. split; [by apply list_elem_of_In|]. by apply bool_decide_eq_true.
Qed.

(** ** One step of [breakInHelper] *)

Lemma in_split_spec b t :
  in_split b t =
  match find_vertex t b with
  | None => Raise BadDeref
  | Some p => Ret (if bool_decide (head b = Some t) then None else Some p)
  end.
Proof.
  unfold in_split. destruct (find_vertex t b) as [p|] eqn:E; [|done]. cbn [deref mbind outcome_bind].
  apply find_vertex_Some in E as [Hp _]. rewrite (at_idx_Some _ _ _ Hp). cbn [mbind outcome_bind].
  destruct b as [|f b]; [done|]. cbn. do 2 f_equal. destruct (Nat.eqb_spec t f) as [->|Hne]; [by rewrite bool_decide_eq_true_2|].
  rewrite bool_decide_eq_false_2; [done|congruence].
Qed.

(** Where the loop over the targets ends: past the end of the chain, at a split
    behind its front, or with every target at its front. *)
Lemma first_split_spec b ts :
  (first_split b ts = Raise BadDeref ∧ ∃ t, t ∈ ts ∧ t ∉ b) ∨
  (∃ p, first_split b ts = Ret (Some p) ∧ 0 < p < length b) ∨
  (first_split b ts = Ret None ∧ ∀ t, t ∈ ts → head b = Some t).
Proof.
  induction ts as [|t ts IH]; cbn [first_split].
  { right. right. split; [done|]. by intros t Ht%not_elem_of_nil. }
  rewrite in_split_spec. destruct (find_vertex t b) as [p|] eqn:E; cbn [mbind outcome_bind].
  2: { left. split; [done|]. exists t. split; [left|by apply find_vertex_None]. }
  apply find_vertex_Some in E as [Hp _]. case_bool_decide as Hh.
  - destruct IH as [[-> (u & Hu & Hb)]|[(q & -> & Hq)|[-> Hall]]].
    + left. split; [done|]. exists u. split; [by right|done].
    + right. left. by exists q.
    + right. right. split; [done|]. by intros u [->|Hu]%elem_of_cons; [|apply Hall].
  - right. left. exists p. split; [done|]. split; [|by eapply lookup_lt_Some].
    destruct p; [|lia]. by destruct b.
Qed.

(** The edge at which [breakInHelper] reads past the end of a chain. *)
Definition reads_past_end (out : nat → list nat) (cs : chains) (deps : list chainDependency) : Prop :=
  ∃ d a b u v, d ∈ deps ∧ cs !! source d = Some a ∧ cs !! target d = Some b ∧ u ∈ a ∧ v ∈ out u ∧ v ∉ b.

Lemma breakInHelper_spec out cs deps :
  partition cs → in_bounds cs deps →
  (reads_past_end out cs deps ∧ breakInHelper out cs deps = Raise BadDeref) ∨
  (∃ i pos c, cs !! i = Some c ∧ 0 < pos < length c ∧
     breakInHelper out cs deps = Ret (true, cut cs i pos c)) ∨
  (breakInHelper out cs deps = Ret (false, cs) ∧ no_split (only_first_in out) cs deps).
Proof.
  intros [Hnd Hne]. induction deps as [|d deps IH]; intros Hb; cbn.
  { right. right. split; [done|]. intros d. set_solver. }
  destruct (Hb d ltac:(left)) as [Hs Ht].
  destruct (at_idx_lt cs _ Hs) as (a & Ha), (at_idx_lt cs _ Ht) as (b & Hb').
  rewrite Ha, Hb'. cbn. apply at_idx_ret in Ha, Hb'.
  destruct (first_split_spec b (a ≫= out)) as [[-> (v & (u & Hv & Hu)%list_elem_of_bind & Hvb)]|[(p & -> & Hp)|[-> Hall]]].
  - left. split; [|done]. exists d, a, b, u, v. split_and!; [left|done..].
  - right. left. by exists (target d), p, b.
  - cbn [mbind outcome_bind]. destruct IH as [[(d' & a' & b' & u & v & Hd & Hr) ?]|[?|[IH1 IH2]]].
    { intros d' Hd'. apply Hb. by right. }
    + left. split; [|done]. exists d', a', b', u, v. split; [by right|done].
    + by right; left.
    + right. right. split; [done|]. intros d' a' b' [->|Hd']%elem_of_cons Ha' Hb''; [|by eapply IH2].
      simplify_eq. intros u v Hu Hv He. apply Hall. apply list_elem_of_bind. eauto.
Qed.

(** The first vertex of chain 0. *)
Definition first_vertex (cs : chains) : option nat := cs !! 0 ≫= head.

Lemma cut_first cs i pos c :
  cs !! i = Some c → 0 < pos < length c → first_vertex (cut cs i pos c) = first_vertex cs.
Proof.
  intros Hi Hp. unfold first_vertex, cut. pose proof (lookup_lt_Some _ _ _ Hi) as Hl.
  rewrite lookup_app_l by (rewrite length_insert; lia). destruct (decide (i = 0)) as [->|Hne].
  - rewrite list_lookup_insert_eq, Hi by lia. cbn. destruct c, pos; cbn in *; [lia..|done].
  - by rewrite list_lookup_insert_ne.
Qed.

(** ** The loops *)

(** Every chain of [cs'] is a contiguous piece of a chain of [cs]. *)
Definition pieces_of (cs' cs : chains) : Prop :=
  ∀ c', c' ∈ cs' → ∃ c l r, c ∈ cs ∧ c = l ++ c' ++ r.

Lemma pieces_refl cs : pieces_of cs cs.
Proof. intros c Hc. exists c, [], []. split; [done|]. by rewrite app_nil_r. Qed.

Lemma pieces_trans cs1 cs2 cs3 : pieces_of cs1 cs2 → pieces_of cs2 cs3 → pieces_of cs1 cs3.
Proof.
  intros H12 H23 c Hc. destruct (H12 c Hc) as (d & l & r & Hd & ->).
  destruct (H23 _ Hd) as (e & l' & r' & He & ->).
  exists (l' ++ (l ++ c ++ r) ++ r'), (l' ++ l), (r ++ r').
  split; [done|]. by rewrite <- !app_assoc.
Qed.

Lemma cut_pieces cs i pos c : cs !! i = Some c → pieces_of (cut cs i pos c) cs.
Proof.
  intros Hi c' [Hc|Hc%list_elem_of_singleton]%elem_of_app.
  - apply list_elem_of_lookup in Hc as (j & Hj).
    apply list_lookup_insert_Some in Hj as [(-> & <- & _)|(_ & H)].
    + exists c, [], (drop pos c). split; [by eapply list_elem_of_lookup_2|].
      cbn. by rewrite take_drop.
    + exists c', [], []. split; [by eapply list_elem_of_lookup_2|]. by rewrite app_nil_r.
  - subst c'. exists c, (take pos c), []. split; [by eapply list_elem_of_lookup_2|].
    by rewrite app_nil_r, take_drop.
Qed.

Section break_loop.
Variable step : chains → outcome (bool * chains).
Variable out : nat → list nat.
Variable done_with : chains → Prop.
Variable fault : Prop.

Fixpoint break_loop (fuel : nat) (cs : chains) : outcome chains :=
  match fuel with
  | 0 => Raise NoFuel
  | S fuel =>
      '(flag, cs) ← step cs;
      if (flag : bool) then break_loop fuel cs else Ret cs
  end.

Hypothesis step_spec : ∀ cs, partition cs → edges_inside out cs →
  (fault ∧ step cs = Raise BadDeref) ∨
  (∃ i pos c, cs !! i = Some c ∧ 0 < pos < length c ∧ step cs = Ret (true, cut cs i pos c)) ∨
  (step cs = Ret (false, cs) ∧ done_with cs).

(** Each cut adds a chain, and there are no more chains than vertices. *)
Lemma break_loop_spec fuel cs :
  partition cs → edges_inside out cs → length (concat cs) < fuel + length cs →
  (fault ∧ break_loop fuel cs = Raise BadDeref) ∨
  ∃ cs', break_loop fuel cs = Ret cs' ∧ partition cs' ∧ edges_inside out cs' ∧
    concat cs' ≡ₚ concat cs ∧ pieces_of cs' cs ∧ first_vertex cs' = first_vertex cs ∧ done_with cs'.
Proof.
  revert cs. induction fuel as [|fuel IH]; intros cs Hp He Hlen.
  { apply partition_length in Hp. lia. }
  cbn. destruct (step_spec cs Hp He) as [[? ->]|[(i & pos & c & Hi & Hpos & ->)|[-> Hq]]]; cbn; [by left|..].
  - pose proof (cut_concat cs i pos c Hi) as Hc.
    destruct (IH (cut cs i pos c)) as [?|(cs' & ? & ? & ? & Hc' & Hpc & Hf & ?)].
    + by apply cut_partition.
    + by eapply edges_inside_perm.
    + rewrite Hc, cut_length. lia.
    + by left.
    + right. exists cs'. split_and!; try done; [by rewrite Hc'| |by rewrite Hf, cut_first].
      eapply pieces_trans; [done|by apply cut_pieces].
  - right. exists cs. split_and!; try done. apply pieces_refl.
Qed.
End break_loop.

Lemma breakEveryLiveOut_loop out fuel cs :
  breakEveryLiveOut out fuel cs =
  break_loop (λ cs, deps ← dependenciesGenerate out cs (vertexToChainMap cs);
                    breakOutHelper out cs deps) fuel cs.
Proof.
  revert cs. induction fuel as [|fuel IH]; intros cs; cbn; [done|].
  destruct (dependenciesGenerate _ _ _) as [deps|e]; cbn; [|done].
  destruct (breakOutHelper _ _ _) as [[[] cs']|]; cbn; [apply IH|done..].
Qed.

Lemma breakEveryLiveIn_loop out fuel cs :
  breakEveryLiveIn out fuel cs =
  break_loop (λ cs, deps ← dependenciesGenerate out cs (vertexToChainMap cs);
                    breakInHelper out cs deps) fuel cs.
Proof.
  revert cs. induction fuel as [|fuel IH]; intros cs; cbn; [done|].
  destruct (dependenciesGenerate _ _ _) as [deps|e]; cbn; [|done].
  destruct (breakInHelper _ _ _) as [[[] cs']|]; cbn; [apply IH|done..].
Qed.

Lemma cross_edges_in_bounds out cs : in_bounds cs (cross_edges out cs).
Proof.
  intros [s t] (Hne & u & v & Hu & Hv & _)%elem_of_cross_edges. cbn.
  apply chain_of_Some in Hu as (? & Hu & _), Hv as (? & Hv & _).
  by split; eapply lookup_lt_Some.
Qed.

(** No edge leaves a chain except from (to) a vertex that [P] allows. *)
Definition crossing (out : nat → list nat) (P : list nat → list nat → nat → nat → Prop)
  (cs : chains) : Prop :=
  ∀ i j a b u v, i ≠ j → cs !! i = Some a → cs !! j = Some b →
    u ∈ a → v ∈ b → v ∈ out u → P a b u v.

Lemma no_split_crossing out (P : list nat → list nat → Prop) Q cs :
  NoDup (concat cs) →
  (∀ a b, P a b → ∀ u v, u ∈ a → v ∈ b → v ∈ out u → Q a b u v) →
  no_split P cs (cross_edges out cs) → crossing out Q cs.
Proof.
  intros Hnd HPQ Hns i j a b u v Hne Ha Hb Hu Hv He.
  apply (HPQ a b); try done. apply (Hns (ChainDep i j)); [|done..].
  apply elem_of_cross_edges. split; [done|].
  exists u, v. split_and!; [by eapply chain_of_lookup..|done].
Qed.

Definition out_is_last (a b : list nat) (u v : nat) : Prop := last a = Some u.
Definition in_is_first (a b : list nat) (u v : nat) : Prop := head b = Some v.

(** ** Merging *)

Lemma join_perm cs i j cs' :
  i ≠ j → join cs i j = Ret cs' → concat cs' ≡ₚ concat cs.
Proof.
  intros Hne. unfold join. intros (a & Ha%at_idx_ret & H)%bind_ret_inv.
  apply bind_ret_inv in H as (b & Hb%at_idx_ret & [= <-]).
  assert (Hj : <[i:=a ++ b]> cs !! j = Some b) by by rewrite list_lookup_insert_ne.
  pose proof (concat_delete _ _ _ Hj) as Hd.
  pose proof (concat_insert cs i a (a ++ b) Ha) as Hi.
  apply (Permutation_app_inv_l (a ++ b)). rewrite <- app_assoc, <- Hd.
  rewrite (Permutation_app_comm a), Hi. apply Permutation_app_comm.
Qed.

Lemma join_ok cs i j :
  i ≠ j → i < length cs → j < length cs →
  ∃ cs', join cs i j = Ret cs' ∧ S (length cs') = length cs.
Proof.
  intros Hne Hi Hj. unfold join.
  destruct (at_idx_lt cs _ Hi) as (a & ->), (at_idx_lt cs _ Hj) as (b & ->). cbn.
  eexists. split; [done|]. rewrite length_delete.
  - rewrite length_insert. lia.
  - apply lookup_lt_is_Some. by rewrite length_insert.
Qed.

Lemma join_partition cs i j cs' :
  i ≠ j → partition cs → join cs i j = Ret cs' → partition cs'.
Proof.
  intros Hne [Hnd Hemp] Hj. split; [by rewrite (join_perm _ _ _ _ Hne Hj)|].
  unfold join in Hj. apply bind_ret_inv in Hj as (a & Ha%at_idx_ret & H).
  apply bind_ret_inv in H as (b & Hb%at_idx_ret & [= <-]).
  intros Hin. apply list_elem_of_lookup in Hin as (k & Hk).
  assert (Hin : [] ∈ <[i:=a ++ b]> cs).
  { rewrite list_lookup_delete in Hk. case_decide; eapply list_elem_of_lookup_2; done. }
  apply list_elem_of_lookup in Hin as (k' & Hk').
  apply list_lookup_insert_Some in Hk' as [(_ & H & _)|(_ & H)].
  - apply Hemp. apply list_elem_of_lookup. exists j. rewrite Hb. f_equal. by destruct a.
  - apply Hemp. apply list_elem_of_lookup. eauto.
Qed.

(** The chain graph of a decomposition, as [mergeChain] builds it. *)
Definition chain_graph_of (out : nat → list nat) (cs : chains) : ordmap nat (list nat) :=
  uniqueDependency (histoDependency (cross_edges out cs)).

Lemma chain_graph_related out cs s t :
  related (chain_graph_of out cs) s t ↔ ChainDep s t ∈ cross_edges out cs.
Proof.
  unfold chain_graph_of. rewrite related_unique by apply histoDependency_sorted.
  apply related_histo.
Qed.

(** A merge: chain [j] starts with the target of an edge from the last vertex
    of chain [i], is appended to it, and the result has no loop behind 0. *)
Definition merge_of (out : nat → list nat) (cs cs' : chains) : Prop :=
  ∃ i j a b u v, i ≠ j ∧ 1 ≤ i ∧ cs !! i = Some a ∧ cs !! j = Some b ∧
    last a = Some u ∧ head b = Some v ∧ v ∈ out u ∧
    join cs i j = Ret cs' ∧ ¬ has_loop (related (chain_graph_of out cs')) 0.

Lemma checkLoop_false deps : checkLoop deps = Ret false → ¬ has_loop (related deps) 0.
Proof.
  unfold checkLoop. intros ([b st] & Hr & [= ->])%bind_ret_inv.
  apply checkLoopComplete_spec with (st := []) in Hr as [_ Hr].
  intros (p & Hw & Hnd)%loop_repeat. apply Hnd, Hr; [done|]. apply NoDup_singleton.
Qed.

Lemma checkLoop_ret deps : ∃ b, checkLoop deps = Ret b.
Proof.
  destruct (checkLoopComplete_total deps (0 :: map_nodes deps)
              (loop_fuel deps) 0 []) as ([b st] & Hr).
  - intros x y H%related_nodes. by right.
  - apply NoDup_singleton.
  - set_solver.
  - unfold loop_fuel. cbn. lia.
  - unfold checkLoop. cbn [app] in Hr. rewrite Hr. cbn. eauto.
Qed.

Lemma merge_edges_spec out cs i u ts a :
  partition cs → edges_inside out cs → 1 ≤ i → cs !! i = Some a → last a = Some u →
  (∀ t, t ∈ ts → t ∈ out u) →
  ∃ r, merge_edges out cs (vertexToChainMap cs) i ts = Ret r ∧
    match r with Some cs' => merge_of out cs cs' | None => True end.
Proof.
  intros Hp He Hi Ha Hu. induction ts as [|t ts IH]; intros Hts; cbn; [by exists None|].
  assert (Ht : t ∈ out u) by (apply Hts; left).
  destruct IH as (r & Hr & Hspec); [intros; apply Hts; by right|].
  assert (Hua : u ∈ a) by (apply last_Some in Hu as [l ->]; set_solver).
  assert (Htc : t ∈ concat cs).
  { eapply He; [|done]. apply elem_of_concat_lookup. eauto. }
  destruct (chain_of cs t) as [j|] eqn:Ej; [|by apply chain_of_None in Ej].
  rewrite vertexToChainMap_find, Ej. cbn.
  destruct (Nat.eqb_spec j i) as [->|Hne]; cbn; [eauto|].
  apply chain_of_Some in Ej as (b & Hb & Htb).
  rewrite (proj2 (at_idx_ret _ _ _) Hb). cbn.
  destruct b as [|v b]; [by apply not_elem_of_nil in Htb|]. cbn.
  destruct (Nat.eqb_spec v t) as [->|_]; [|eauto].
  destruct (join_ok cs i j) as (cs' & Hj & _); [done|by eapply lookup_lt_Some..|].
  rewrite Hj. cbn.
  rewrite (dependenciesGenerate_edges out cs'); cycle 1.
  { by apply (join_partition _ _ _ _ (not_eq_sym Hne) Hp Hj). }
  { eapply edges_inside_perm; [|done]. exact (join_perm _ _ _ _ (not_eq_sym Hne) Hj). }
  cbn. destruct (checkLoop_ret (chain_graph_of out cs')) as [bl Hbl].
  unfold chain_graph_of in Hbl. rewrite Hbl. cbn. destruct bl; [eauto|].
  eexists. split; [done|]. apply checkLoop_false in Hbl.
  exists i, j, a, (t :: b), u, t. by split_and!.
Qed.

Lemma merge_from_spec out cs idxs :
  partition cs → edges_inside out cs → (∀ i, i ∈ idxs → 1 ≤ i < length cs) →
  ∃ r, merge_from out cs (vertexToChainMap cs) idxs = Ret r ∧
    (r = (false, cs) ∨ ∃ cs', r = (true, cs') ∧ merge_of out cs cs').
Proof.
  intros Hp He. induction idxs as [|i idxs IH]; intros Hi; cbn; [eauto|].
  destruct (Hi i ltac:(left)) as [Hi1 Hi2].
  destruct IH as (r & Hr & Hspec); [intros k Hk; apply Hi; by right|].
  destruct (at_idx_lt cs i Hi2) as (a & Ha). rewrite Ha. cbn. apply at_idx_ret in Ha.
  destruct (last a) as [u|] eqn:Hu.
  - cbn. destruct (merge_edges_spec out cs i u (out u) a) as (m & -> & Hm); try done.
    cbn. destruct m; [|eauto]. eexists. split; [done|]. right. eauto.
  - apply last_None in Hu as ->. destruct Hp as [_ []]. by eapply list_elem_of_lookup_2.
Qed.

Lemma mergeChain_spec out cs :
  partition cs → edges_inside out cs →
  ∃ r, mergeChain out cs = Ret r ∧
    (r = (false, cs) ∨ ∃ cs', r = (true, cs') ∧ merge_of out cs cs').
Proof.
  intros Hp He. unfold mergeChain. apply merge_from_spec; [exact Hp|exact He|].
  intros i Hi. apply elem_of_seq in Hi. lia.
Qed.

(** A merge leaves the first vertex of chain 0 where it is, when no edge enters
    it. *)
Lemma merge_of_first out cs cs' v :
  merge_of out cs cs' → first_vertex cs = Some v → (∀ u, v ∉ out u) → first_vertex cs' = Some v.
Proof.
  intros (i & j & a & b & u & w & Hne & Hi & Ha & Hb & _ & Hh & Hw & Hj & _) Hf Hno. unfold first_vertex in *.
  assert (Hj0 : j ≠ 0).
  { intros ->. rewrite Hb in Hf. cbn in Hf. assert (w = v) as -> by congruence. by apply (Hno u). }
  unfold join in Hj. rewrite (at_idx_Some _ _ _ Ha), (at_idx_Some _ _ _ Hb) in Hj. injection Hj as <-.
  rewrite list_lookup_delete, decide_True, list_lookup_insert_ne by lia. done.
Qed.

Lemma merge_of_keeps out cs cs' :
  merge_of out cs cs' → partition cs → edges_inside out cs →
  partition cs' ∧ edges_inside out cs' ∧ concat cs' ≡ₚ concat cs ∧ S (length cs') = length cs.
Proof.
  intros (i & j & a & b & u & v & Hne & _ & Ha & Hb & _ & _ & _ & Hj & _) Hp He.
  pose proof (join_perm _ _ _ _ Hne Hj) as Hperm. split_and!.
  - by eapply join_partition.
  - by eapply edges_inside_perm.
  - done.
  - destruct (join_ok cs i j) as (cs2 & Hj2 & Hlen); [done|by eapply lookup_lt_Some..|].
    congruence.
Qed.

(** ** Properties *)

Lemma breakEveryLiveOut_ok (out : nat → list nat) (cs : chains)
  (Hp : partition cs) (He : edges_inside out cs) :
  ∃ cs', breakEveryLiveOut out (S (length (concat cs))) cs = Ret cs' ∧
    partition cs' ∧ concat cs' ≡ₚ concat cs ∧ pieces_of cs' cs ∧
    crossing out out_is_last cs' ∧ first_vertex cs' = first_vertex cs.
Proof.
  rewrite breakEveryLiveOut_loop.
  destruct (break_loop_spec
    (λ cs, deps ← dependenciesGenerate out cs (vertexToChainMap cs); breakOutHelper out cs deps)
    out (crossing out out_is_last) False) with (fuel := S (length (concat cs))) (cs := cs)
    as [[[] _]|(cs' & ? & ? & ? & ? & ? & ? & ?)]; [|done|done|lia|by exists cs'].
  intros c Hc Hec. right. rewrite dependenciesGenerate_edges by (apply Hc || done). cbn.
  destruct (breakOutHelper_spec out c _ Hc (cross_edges_in_bounds out c)) as [?|[? H]]; [by left|].
  right. split; [done|]. eapply no_split_crossing; [apply Hc| |exact H].
  intros a b Hab u v Hu Hv Huv. by eapply Hab.
Qed.

(** [C21] [breakEveryLiveOut] terminates without a fault on every decomposition
    whose chains have no vertex in common and are not empty (one round more
    than there are vertices is enough).  The result has the same vertices, its
    chains are contiguous pieces of the old ones, and every edge that crosses
    chains starts at the last vertex of its chain: a chain's live-outs are all
    available at its end. *)
Theorem breakEveryLiveOut_correct (out : nat → list nat) (cs : chains)
  (Hp : partition cs) (He : edges_inside out cs) :
  ∃ cs', breakEveryLiveOut out (S (length (concat cs))) cs = Ret cs' ∧
    partition cs' ∧ concat cs' ≡ₚ concat cs ∧ pieces_of cs' cs ∧
    crossing out out_is_last cs'.
Proof. destruct (breakEveryLiveOut_ok out cs Hp He) as (cs' & ? & ? & ? & ? & ? & _). by exists cs'. Qed.

Lemma breakEveryLiveIn_ok (out : nat → list nat) (cs : chains) (Hp : partition cs) (He : edges_inside out cs) :
  breakEveryLiveIn out (S (length (concat cs))) cs = Raise BadDeref ∨
  ∃ cs', breakEveryLiveIn out (S (length (concat cs))) cs = Ret cs' ∧
    partition cs' ∧ concat cs' ≡ₚ concat cs ∧ pieces_of cs' cs ∧
    crossing out in_is_first cs' ∧ first_vertex cs' = first_vertex cs.
Proof.
  rewrite breakEveryLiveIn_loop.
  destruct (break_loop_spec
    (λ cs, deps ← dependenciesGenerate out cs (vertexToChainMap cs);
           breakInHelper out cs deps)
    out (crossing out in_is_first) True) with (fuel := S (length (concat cs))) (cs := cs)
    as [[_ ?]|(cs' & ? & ? & ? & ? & ? & ? & ?)]; [|done|done|lia|by left|by right; exists cs'].
  intros c Hc Hec. rewrite dependenciesGenerate_edges by (apply Hc || done). cbn.
  destruct (breakInHelper_spec out c _ Hc (cross_edges_in_bounds out c)) as [[? ?]|[?|[? H]]].
  - by left.
  - by right; left.
  - right. right. split; [done|]. eapply no_split_crossing; [apply Hc| |exact H].
    intros a b Hab u v Hu Hv Huv. by eapply Hab.
Qed.

(** [breakEveryLiveIn] on the same decompositions: either a round reads past the
    end of a chain, or it ends with the same vertices in contiguous pieces of the
    old chains, and every edge that crosses chains leads to the first vertex of
    its chain. *)
Theorem breakEveryLiveIn_correct (out : nat → list nat)
  (cs : chains) (Hp : partition cs) (He : edges_inside out cs) :
  breakEveryLiveIn out (S (length (concat cs))) cs = Raise BadDeref ∨
  ∃ cs', breakEveryLiveIn out (S (length (concat cs))) cs = Ret cs' ∧
    partition cs' ∧ concat cs' ≡ₚ concat cs ∧ pieces_of cs' cs ∧
    crossing out in_is_first cs'.
Proof.
  destruct (breakEveryLiveIn_ok out cs Hp He) as [?|(cs' & ? & ? & ? & ? & ? & _)]; [by left|right; by exists cs'].
Qed.

Lemma mergeLoop_ok (out : nat → list nat) (cs : chains)
  (Hp : partition cs) (He : edges_inside out cs) :
  ∃ cs', mergeLoop out (S (length cs)) cs = Ret cs' ∧
    partition cs' ∧ concat cs' ≡ₚ concat cs ∧ length cs' ≤ length cs ∧
    mergeChain out cs' = Ret (false, cs') ∧
    (¬ has_loop (related (chain_graph_of out cs)) 0 →
     ¬ has_loop (related (chain_graph_of out cs')) 0) ∧
    (∀ v, first_vertex cs = Some v → (∀ u, v ∉ out u) → first_vertex cs' = Some v).
Proof.
  assert (Hfuel : length cs < S (length cs)) by lia.
  revert Hfuel. generalize (S (length cs)) as fuel. intros fuel.
  revert cs Hp He. induction fuel as [|fuel IH]; intros cs Hp He Hfuel; [lia|].
  cbn. destruct (mergeChain_spec out cs Hp He) as (r & Hr & [->|(cs1 & -> & Hm)]).
  { rewrite Hr. cbn. exists cs. by split_and!. }
  rewrite Hr. cbn. destruct (merge_of_keeps _ _ _ Hm Hp He) as (Hp1 & He1 & Hc1 & Hl1).
  destruct (IH cs1 Hp1 He1) as (cs' & ? & ? & Hc' & ? & ? & Hloop & Hf); [lia|].
  exists cs'. split_and!; try done; [by rewrite Hc'|lia| |].
  - intros _. apply Hloop. by destruct Hm as (?&?&?&?&?&?&?&?&?&?&?&?&?&?&?).
  - intros v Hv Hno. apply Hf; [|done]. by eapply merge_of_first.
Qed.

(** The merge loop terminates without a fault (each merge removes a
    chain), keeps the vertices and the partition, and never introduces a loop:
    if the chain graph had no loop behind chain 0, the merged one has none. *)
Theorem mergeLoop_correct (out : nat → list nat) (cs : chains)
  (Hp : partition cs) (He : edges_inside out cs) :
  ∃ cs', mergeLoop out (S (length cs)) cs = Ret cs' ∧
    partition cs' ∧ concat cs' ≡ₚ concat cs ∧ length cs' ≤ length cs ∧
    mergeChain out cs' = Ret (false, cs') ∧
    (¬ has_loop (related (chain_graph_of out cs)) 0 →
     ¬ has_loop (related (chain_graph_of out cs')) 0).
Proof. destruct (mergeLoop_ok out cs Hp He) as (cs' & ? & ? & ? & ? & ? & ? & _). by exists cs'. Qed.

Lemma example_partition : partition [[0]; [1; 2]; [3]].
Proof.
  split; [solve_NoDup|set_solver].
Defined.

Lemma example_inside : edges_inside example_out [[0]; [1; 2]; [3]].
Proof. intros u v Hu Hv. elem_cases Hu; elem_cases Hv; subst; cbn; set_solver. Qed.

Lemma breakEveryLiveOut_correct_witness :
  ∃ cs', breakEveryLiveOut example_out 5 [[0]; [1; 2]; [3]] = Ret cs' ∧
    partition cs' ∧ concat cs' ≡ₚ [0; 1; 2; 3] ∧ pieces_of cs' [[0]; [1; 2]; [3]] ∧
    crossing example_out out_is_last cs'.
Proof.
  exact (breakEveryLiveOut_correct example_out [[0]; [1; 2]; [3]] example_partition example_inside).
Defined.

(** A chain whose last vertex feeds the middle of the next one is handled; an
    edge inside the first chain is looked for in the second and read past its end. *)
Example breakEveryLiveIn_runs :
  breakEveryLiveIn (λ v, if v =? 0 then [2] else []) 4 [[0]; [1; 2]] = Ret [[0]; [1]; [2]] ∧
  breakEveryLiveIn example_out 5 [[0]; [1; 2]; [3]] = Raise BadDeref.
Proof. done. Qed.

Lemma mergeLoop_correct_witness :
  ∃ cs', mergeLoop example_out 4 [[0]; [1; 2]; [3]] = Ret cs' ∧
    partition cs' ∧ concat cs' ≡ₚ [0; 1; 2; 3] ∧ length cs' ≤ 3 ∧
    mergeChain example_out cs' = Ret (false, cs') ∧
    (¬ has_loop (related (chain_graph_of example_out [[0]; [1; 2]; [3]])) 0 →
     ¬ has_loop (related (chain_graph_of example_out cs')) 0).
Proof.
  exact (mergeLoop_correct example_out [[0]; [1; 2]; [3]] example_partition example_inside).
Defined.
