(* ===== verification/Chain.v ===== *)
(** * Chains and their instructions

    [Chain.hpp], [Chain.cpp]: the instruction record [chainNode] (alias
    [Node]) and the class [Chain], the unit the core schedules.  32-bit
    counters are [Z] values kept in range by [u32]; a chain number is a
    [nat]. *)

From S2P Require Import Prelude OrdMap.
Open Scope Z_scope.

Record Node := mkNode {
  c_id : nat;
  old_id : Z;
  new_id : Z;
  name : Z;
  type : string;
  latency : Z
}.

#[export] Instance node_eq_dec : EqDecision Node.
Proof. solve_decision. Defined.

Record Chain := mkChain {
  chain_id : nat;
  num_dependencies : Z;
  live_in : list nat;
  live_out : list nat;
  instruction_list : list Node;
  ch_mem : bool
}.

(** The constructor takes a number and does not store it: [id] (here [chain_id]) is 0 until the
    first instruction is added. *)
Definition new_Chain (n : Z) : Chain := mkChain 0 0 [] [] [] false.

Definition is_free (c : Chain) : bool := num_dependencies c =? 0.

Definition with_dependencies (d : Z) (c : Chain) : Chain :=
  mkChain (chain_id c) d (live_in c) (live_out c) (instruction_list c) (ch_mem c).

Definition depen_increase (c : Chain) : Chain :=
  with_dependencies (u32 (num_dependencies c + 1)) c.

Definition depen_decrease (c : Chain) : Chain :=
  with_dependencies (u32 (num_dependencies c - 1)) c.

Definition push_ins (n : Node) (c : Chain) : Chain :=
  mkChain (chain_id c) (num_dependencies c) (live_in c) (live_out c)
    (instruction_list c ++ [n]) (ch_mem c).

(** The counter is incremented also when the chain is already in the set. *)
Definition push_liveIn (t : nat) (c : Chain) : Chain :=
  mkChain (chain_id c) (u32 (num_dependencies c + 1)) (sinsert t (live_in c)) (live_out c)
    (instruction_list c) (ch_mem c).

Definition push_liveOut (t : nat) (c : Chain) : Chain :=
  mkChain (chain_id c) (num_dependencies c) (live_in c) (sinsert t (live_out c))
    (instruction_list c) (ch_mem c).

Definition return_id (c : Chain) : nat := chain_id c.
Definition return_instruction (c : Chain) : list Node := instruction_list c.

(** [operator<]: by the number of instructions. *)
Definition chain_lt (a b : Chain) : bool :=
  (length (instruction_list a) <? length (instruction_list b))%nat.

(** ** Laws *)

Lemma depen_roundtrip c :
  0 ≤ num_dependencies c < 2 ^ 32 → depen_decrease (depen_increase c) = c.
Proof.
  destruct c as [i d li lo il m]. unfold depen_decrease, depen_increase; cbn. intros Hd.
  unfold with_dependencies; cbn. f_equal. unfold u32.
  rewrite Zminus_mod_idemp_l. replace (d + 1 - 1) with d by lia.
  by apply Z.mod_small.
Qed.

(** A chain whose live-ins are pushed one by one, each once, counts them. *)
Lemma push_liveIns_count ts c :
  Z.of_nat (length ts) < 2 ^ 32 → num_dependencies c = 0 →
  num_dependencies (foldl (λ c t, push_liveIn t c) c ts) = Z.of_nat (length ts).
Proof.
  intros Hlt Hc.
  assert (∀ ts c, 0 ≤ num_dependencies c →
    num_dependencies c + Z.of_nat (length ts) < 2 ^ 32 →
    num_dependencies (foldl (λ c t, push_liveIn t c) c ts)
    = num_dependencies c + Z.of_nat (length ts)) as Hgen.
  { clear. induction ts as [|t ts IH]; intros c H0 Hlt.
    - cbn [foldl length]. lia.
    - cbn [foldl length] in *. rewrite IH; cbn [push_liveIn num_dependencies];
        rewrite u32_id; lia. }
  rewrite Hgen; lia.
Qed.
