(* ===== verification/Lane.v ===== *)
(** * Lanes

    [Lane.hpp], [Lane.cpp]: an in-order lane with an instruction queue, a
    fetch stage, an (unused) decode stage and an execute stage, each with a
    down-counter.  The two [static] queues of the class, shared by all lanes,
    are the record [globals], threaded through the operations.  The parameter
    table read from [def/Lane.def] is the field [lane_param]. *)

From S2P Require Import Prelude OrdMap Chain.
Open Scope Z_scope.

Record Lane := mkLane {
  laneID : nat;
  m_memory_mode : Z;
  lane_size : Z;
  fetch_cnt : Z;
  decode_cnt : Z;
  exe_cnt : Z;
  m_memory_stall : Z;
  m_stall : Z;
  m_current_ch : Z;
  m_current_op : string;
  instruction_queue : list Node;
  fetch_stack : list Node;
  decode_stack : list Node;
  exe_stack : list Node;
  lane_param : ordmap string Z;
  schChainsList : list nat
}.

(** The [static] members. *)
Record globals := mkGlobals {
  finished_chains : list Z;
  mem_req_queue : list (nat * Z)
}.

Definition new_globals : globals := mkGlobals [] [].

(** The constructor, given the table that [readParam] filled. *)
Definition new_Lane (ID : nat) (m_mode size : Z) (param : ordmap string Z) : Lane :=
  mkLane ID m_mode size 0 0 0 0 0 (-1) "" [] [] [] [] param [].

(** Assignments to single fields. *)
Definition with_fetch (q f : list Node) (cnt : Z) (l : Lane) : Lane :=
  mkLane (laneID l) (m_memory_mode l) (lane_size l) cnt (decode_cnt l) (exe_cnt l)
    (m_memory_stall l) (m_stall l) (m_current_ch l) (m_current_op l)
    q f (decode_stack l) (exe_stack l) (lane_param l) (schChainsList l).
Definition with_decode (f d : list Node) (cnt : Z) (l : Lane) : Lane :=
  mkLane (laneID l) (m_memory_mode l) (lane_size l) (fetch_cnt l) cnt (exe_cnt l)
    (m_memory_stall l) (m_stall l) (m_current_ch l) (m_current_op l)
    (instruction_queue l) f d (exe_stack l) (lane_param l) (schChainsList l).
Definition with_exe (f e : list Node) (op : string) (cnt : Z) (l : Lane) : Lane :=
  mkLane (laneID l) (m_memory_mode l) (lane_size l) (fetch_cnt l) (decode_cnt l) cnt
    (m_memory_stall l) (m_stall l) (m_current_ch l) op
    (instruction_queue l) f (decode_stack l) e (lane_param l) (schChainsList l).
Definition with_stall (n : Z) (l : Lane) : Lane :=
  mkLane (laneID l) (m_memory_mode l) (lane_size l) (fetch_cnt l) (decode_cnt l) (exe_cnt l)
    (m_memory_stall l) n (m_current_ch l) (m_current_op l)
    (instruction_queue l) (fetch_stack l) (decode_stack l) (exe_stack l) (lane_param l)
    (schChainsList l).

Definition setFCounter (delay : Z) (l : Lane) : Lane :=
  with_fetch (instruction_queue l) (fetch_stack l) delay l.
Definition setDCounter (delay : Z) (l : Lane) : Lane :=
  with_decode (fetch_stack l) (decode_stack l) delay l.
(** The argument is an [int32_t]. *)
Definition setExeCounter (delay : Z) (l : Lane) : Lane :=
  with_exe (fetch_stack l) (exe_stack l) (m_current_op l) (i32 delay) l.

(** [assert(find(key) != end())] followed by [find(key)->second]. *)
Definition param (l : Lane) (key : string) : outcome Z :=
  match mfind key (lane_param l) with Some v => Ret v | None => Raise AssertFailed end.

(** The chain is appended to the queue; the returned number of free slots is a
    64-bit difference converted to [int]. *)
Definition LoadInstructionQueue (input_chain : list Node) (ch_id : nat) (l : Lane)
    : outcome (Lane * Z) :=
  d ← param l "DECODE_DELAY";
  let q := instruction_queue l ++ input_chain in
  let l' := mkLane (laneID l) (m_memory_mode l) (lane_size l) (fetch_cnt l) d (exe_cnt l)
              (m_memory_stall l) (m_stall l) (i32 (Z.of_nat ch_id)) (m_current_op l)
              q (fetch_stack l) (decode_stack l) (exe_stack l) (lane_param l)
              (schChainsList l ++ [ch_id]) in
  Ret (l', i32 (u64 (lane_size l - Z.of_nat (length q)))).

(** The fetch delay is the constant 4; the parameter is only checked. *)
Definition fetch (l : Lane) : outcome Lane :=
  if 0 <? fetch_cnt l then Ret l
  else match instruction_queue l with
       | [] => Ret l
       | ins_head :: q =>
           _ ← param l "FETCH_DELAY";
           Ret (with_fetch q (fetch_stack l ++ [ins_head]) 4 l)
       end.

Definition decode (l : Lane) : outcome Lane :=
  if 0 <? decode_cnt l then Ret l
  else match fetch_stack l with
       | [] => Ret l
       | ins_head :: f =>
           d ← param l "DECODE_DELAY";
           Ret (with_decode f (decode_stack l ++ [ins_head]) d l)
       end.

Definition is_mem_op (n : Node) : bool :=
  bool_decide (type n = "Load"%string) || bool_decide (type n = "Store"%string).

(** The execute counter of an instruction that starts, and the request it
    puts in the global queue.  A memory mode above 3 sets no counter. *)
Definition start_exe (l : Lane) (n : Node) : outcome (Z * list (nat * Z)) :=
  if is_mem_op n then
    if m_memory_mode l =? 0 then v ← param l "L1_MISS_LATENCY"; Ret (i32 v, [])
    else if m_memory_mode l =? 1 then v ← param l "L2_MISS_LATENCY"; Ret (i32 v, [])
    else if m_memory_mode l =? 2 then v ← param l "L3_MISS_LATENCY"; Ret (i32 v, [])
    else if m_memory_mode l =? 3 then Ret (-1, [(laneID l, old_id n)])
    else Ret (exe_cnt l, [])
  else
    let cnt := if bool_decide (type n = "Nop"%string) then 2 else exe_cnt l in
    let cnt := i32 (latency n) in
    Ret (cnt, []).

Definition execute (l : Lane) (g : globals) : outcome (Lane * globals) :=
  if (exe_cnt l =? 0) && negb (bool_decide (exe_stack l = [])) then
    match exe_stack l with
    | temp_it :: e =>
        Ret (with_exe (fetch_stack l) e "" (exe_cnt l) l,
             mkGlobals (finished_chains g ++ [i32 (Z.of_nat (c_id temp_it))]) (mem_req_queue g))
    | [] => Ret (l, g)
    end
  else if 0 <? exe_cnt l then
    temp_ins ← deref (head (exe_stack l));
    Ret (with_exe (fetch_stack l) (exe_stack l) (type temp_ins) (exe_cnt l) l, g)
  else if exe_cnt l <? 0 then Ret (l, g)
  else match fetch_stack l with
       | [] => Ret (l, g)
       | temp_ins :: f =>
           if fetch_cnt l =? 0 then
             '(cnt, reqs) ← start_exe l temp_ins;
             Ret (with_exe f (exe_stack l ++ [temp_ins]) (type temp_ins) cnt l,
                  mkGlobals (finished_chains g) (mem_req_queue g ++ reqs))
           else Ret (l, g)
       end.

Definition updateCounter (l : Lane) : Lane :=
  let f := if 0 <? fetch_cnt l then fetch_cnt l - 1 else fetch_cnt l in
  let '(e, s) :=
    if 0 <? exe_cnt l then (exe_cnt l - 1, m_memory_stall l)
    else if exe_cnt l =? -1 then (exe_cnt l, u32 (m_memory_stall l + 1))
    else (exe_cnt l, m_memory_stall l) in
  mkLane (laneID l) (m_memory_mode l) (lane_size l) f (decode_cnt l) e
    s (m_stall l) (m_current_ch l) (m_current_op l)
    (instruction_queue l) (fetch_stack l) (decode_stack l) (exe_stack l) (lane_param l)
    (schChainsList l).

(** One cycle: the decode stage is disabled in the source. *)
Definition run (l : Lane) (g : globals) : outcome (Lane * globals) :=
  let l := updateCounter l in
  '(l, g) ← execute l g;
  l ← fetch l;
  Ret (l, g).

Definition is_exe_full (l : Lane) : bool := negb (bool_decide (exe_stack l = [])).

Definition available_size (l : Lane) : Z :=
  i32 (u64 (lane_size l - Z.of_nat (length (instruction_queue l)))).

Definition freeSlots (l : Lane) : Z :=
  u32 (u64 (lane_size l - Z.of_nat (length (instruction_queue l)))).

Definition lane_lt (a b : Lane) : bool := freeSlots a <? freeSlots b.

(** The fetch stage is not consulted. *)
Definition is_free (l : Lane) : bool :=
  (fetch_cnt l =? 0) && (exe_cnt l =? 0) &&
  bool_decide (instruction_queue l = []) && bool_decide (exe_stack l = []).

(** Runs of several cycles. *)
Fixpoint run_n (n : nat) (l : Lane) (g : globals) : outcome (Lane * globals) :=
  match n with
  | O => Ret (l, g)
  | S n => '(l, g) ← run l g; run_n n l g
  end.

(** ** The lane invariant and the instructions in flight *)

(** The table holds the parameters the lane asks for. *)
Definition params_loaded (p : ordmap string Z) : Prop :=
  ∀ k, k ∈ ["L1_MISS_LATENCY"; "L2_MISS_LATENCY"; "L3_MISS_LATENCY";
            "FETCH_DELAY"; "DECODE_DELAY"]%string → ∃ v, mfind k p = Some v.

(** At most one instruction executes, and a counter that is not zero belongs
    to one. *)
Record lane_ok (l : Lane) : Prop := {
  ok_params : params_loaded (lane_param l);
  ok_fetch : 0 ≤ fetch_cnt l ≤ 4;
  ok_exe : exe_stack l = [] ∧ exe_cnt l = 0 ∨ ∃ n, exe_stack l = [n]
}.

(** The instructions loaded and not yet retired, oldest first. *)
Definition pending (l : Lane) : list Node :=
  exe_stack l ++ fetch_stack l ++ instruction_queue l.

(** What a retired instruction pushes on [finished_chains]. *)
Definition retired (n : Node) : Z := i32 (Z.of_nat (c_id n)).

Lemma new_Lane_ok ID m size p : params_loaded p → lane_ok (new_Lane ID m size p).
Proof. intros Hp. split; cbn; [done|lia|by left]. Qed.

Lemma param_ret l k v : param l k = Ret v ↔ mfind k (lane_param l) = Some v.
Proof. unfold param. destruct (mfind k _); split; congruence. Qed.

Lemma param_loaded l k :
  params_loaded (lane_param l) →
  k ∈ ["L1_MISS_LATENCY"; "L2_MISS_LATENCY"; "L3_MISS_LATENCY";
       "FETCH_DELAY"; "DECODE_DELAY"]%string →
  ∃ v, param l k = Ret v.
Proof. intros Hp Hk. destruct (Hp k Hk) as [v Hv]. exists v. by apply param_ret. Qed.

Lemma start_exe_ret l n :
  params_loaded (lane_param l) →
  ∃ cnt reqs, start_exe l n = Ret (cnt, reqs) ∧
    (reqs = [] ∨ m_memory_mode l = 3 ∧ is_mem_op n = true ∧ cnt = -1
                 ∧ reqs = [(laneID l, old_id n)]).
Proof.
  intros Hp. unfold start_exe.
  destruct (param_loaded l "L1_MISS_LATENCY" Hp ltac:(left)) as [v1 ->].
  destruct (param_loaded l "L2_MISS_LATENCY" Hp ltac:(right; left)) as [v2 ->].
  destruct (param_loaded l "L3_MISS_LATENCY" Hp ltac:(right; right; left)) as [v3 ->].
  cbn. repeat case_goal; eauto 10.
  do 2 eexists; split; [done|]. right. by rewrite <- Z.eqb_eq.
Qed.

Lemma updateCounter_ok l : lane_ok l → lane_ok (updateCounter l).
Proof.
  intros [Hp Hf He]. unfold updateCounter.
  destruct (0 <? exe_cnt l) eqn:E1; [|destruct (exe_cnt l =? -1)];
    split; cbn; try done; try (repeat case_goal; lia).
  destruct He as [[He Hc]|?]; [lia|by right].
Qed.

Lemma updateCounter_pending l : pending (updateCounter l) = pending l.
Proof. unfold updateCounter. repeat case_goal; by cbn. Qed.

(** A cycle's effect on a lane and the shared queues: at most one instruction
    retires, from the head of the program order. *)
Definition cycle_effect (l : Lane) (g : globals) (l' : Lane) (g' : globals) : Prop :=
  ∃ ds reqs, pending l = ds ++ pending l' ∧ (length ds ≤ 1)%nat ∧
    finished_chains g' = finished_chains g ++ map retired ds ∧
    mem_req_queue g' = mem_req_queue g ++ reqs ∧
    (reqs = [] ∨ ∃ n, exe_stack l' = [n] ∧ exe_cnt l' = -1 ∧ is_mem_op n = true
       ∧ m_memory_mode l = 3 ∧ reqs = [(laneID l, old_id n)]).

Lemma execute_ret l g :
  lane_ok l → ∃ l' g', execute l g = Ret (l', g') ∧ lane_ok l' ∧ cycle_effect l g l' g'.
Proof.
  intros [Hp Hf He]. unfold execute, cycle_effect.
  destruct He as [[He Hc]|[n He]]; rewrite He; cbn.
  - rewrite Hc; cbn. destruct (fetch_stack l) as [|n f] eqn:Ef.
    { exists l, g. split_and!; [done| |].
      - split; [done|done|by left; rewrite ?He].
      - exists [], []. cbn. rewrite !app_nil_r. split_and!; eauto with lia. }
    destruct (fetch_cnt l =? 0).
    2: { exists l, g. split_and!; [done| |].
      - split; [done|done|by left; rewrite ?He].
      - exists [], []. cbn. rewrite !app_nil_r. split_and!; eauto with lia. }
    destruct (start_exe_ret l n Hp) as (cnt & reqs & -> & Hr). cbn.
    do 2 eexists. split_and!; [done|..].
    + split; cbn; [done|done|]. right. eauto.
    + exists [], reqs. cbn. rewrite app_nil_r. unfold pending; cbn. rewrite He, Ef; cbn.
      split_and!; [done|lia|done|done|].
      destruct Hr as [->|(? & ? & -> & ->)]; [by left|right; eauto 10].
  - destruct (exe_cnt l =? 0) eqn:E0; cbn.
    { do 2 eexists. split_and!; [done|..].
      - split; cbn; [done|done|]. left. split; [done|lia].
      - exists [n], []. unfold pending; cbn. rewrite He, app_nil_r; cbn. split_and!; eauto with lia. }
    destruct (0 <? exe_cnt l) eqn:E1; cbn.
    { do 2 eexists. split_and!; [done|..].
      - split; cbn; [done|done|]. right; eauto.
      - exists [], []. unfold pending; cbn. rewrite !app_nil_r, He. split_and!; eauto with lia. }
    assert ((exe_cnt l <? 0) = true) as -> by lia. cbn.
    exists l, g. split_and!; [done| |].
    + split; [done|done|]. right; eauto.
    + exists [], []. cbn. rewrite !app_nil_r. split_and!; eauto with lia.
Qed.

Lemma fetch_ret l :
  lane_ok l → ∃ l', fetch l = Ret l' ∧ lane_ok l' ∧ pending l' = pending l
    ∧ exe_stack l' = exe_stack l ∧ exe_cnt l' = exe_cnt l.
Proof.
  intros [Hp Hf He]. unfold fetch.
  destruct (0 <? fetch_cnt l); [by exists l|].
  destruct (instruction_queue l) as [|n q] eqn:Eq; [by exists l|].
  destruct (param_loaded l "FETCH_DELAY" Hp ltac:(do 3 right; left)) as [v ->].
  cbn. eexists; split_and!; [done| |..]; [split; cbn; [done|lia|done]| |done|done].
  unfold pending; cbn. by rewrite Eq, <- app_assoc.
Qed.

Lemma run_in_order_aux l g :
  lane_ok l → ∃ l' g', run l g = Ret (l', g') ∧ lane_ok l' ∧ cycle_effect l g l' g'.
Proof.
  intros Hok. unfold run.
  destruct (execute_ret (updateCounter l) g (updateCounter_ok l Hok))
    as (l1 & g1 & -> & Hok1 & ds & reqs & Hpend & Hlen & Hfin & Hreq & Hr). cbn.
  destruct (fetch_ret l1 Hok1) as (l2 & -> & Hok2 & Hp2 & He2 & Hc2). cbn.
  exists l2, g1. split_and!; [done..|]. exists ds, reqs.
  rewrite Hp2, He2, Hc2, <- Hpend, updateCounter_pending.
  assert (m_memory_mode (updateCounter l) = m_memory_mode l
          ∧ laneID (updateCounter l) = laneID l) as [Hm Hi].
  { unfold updateCounter. repeat case_goal; by cbn. }
  rewrite Hm, Hi in Hr. by split_and!.
Qed.

(** A cycle of a lane never faults, keeps the lane invariant, retires at
    most one instruction and only the oldest one, pushing its chain number,
    and sends at most one memory request, for the instruction that then waits
    in the execute stage with counter -1. *)
Theorem run_in_order l g :
  lane_ok l → ∃ l' g', run l g = Ret (l', g') ∧ lane_ok l' ∧ cycle_effect l g l' g'.
Proof. apply run_in_order_aux. Qed.

(** ** Draining *)

(** A cycle changes none of the lane's constants. *)
Definition same_config (l l' : Lane) : Prop :=
  laneID l' = laneID l ∧ m_memory_mode l' = m_memory_mode l ∧
  lane_size l' = lane_size l ∧ lane_param l' = lane_param l.

Lemma run_config l g l' g' : run l g = Ret (l', g') → same_config l l'.
Proof.
  unfold run. intros H. apply bind_ret_inv in H as ([l1 g1] & H1 & H2). cbn in H2.
  apply bind_ret_inv in H2 as (l2 & H2 & [= -> ->]).
  assert (same_config l (updateCounter l)) as H0.
  { unfold updateCounter, same_config. repeat case_goal; by cbn. }
  assert (same_config (updateCounter l) l1) as H3.
  { revert H1. unfold execute, same_config.
    repeat case_goal; cbn; try (intros [= <- <-]; by cbn).
    - intros (x & _ & [= <- <-])%bind_ret_inv; by cbn.
    - intros ([x y] & _ & [= <- <-])%bind_ret_inv; by cbn. }
  assert (same_config l1 l') as H4.
  { revert H2. unfold fetch, same_config. repeat case_goal; try (intros [= <-]; by cbn).
    intros (x & _ & [= <-])%bind_ret_inv; by cbn. }
  unfold same_config in *. naive_solver congruence.
Qed.

(** The cycles an instruction spends in the execute stage, for the memory
    modes with a fixed latency. *)
Definition exe_time (l : Lane) (n : Node) : Z :=
  match start_exe l n with Ret (c, []) => c | _ => -1 end.

Lemma exe_time_config l l' n :
  same_config l l' → 0 ≤ m_memory_mode l ≤ 2 → exe_time l' n = exe_time l n.
Proof.
  intros (_ & Hm & _ & Hp) Hr. unfold exe_time, start_exe, param. rewrite Hm, Hp.
  destruct (is_mem_op n); [|done].
  destruct (Z.eqb_spec (m_memory_mode l) 0); [done|].
  destruct (Z.eqb_spec (m_memory_mode l) 1); [done|].
  by assert ((m_memory_mode l =? 2) = true) as -> by lia.
Qed.

Lemma start_exe_time l n :
  params_loaded (lane_param l) → 0 ≤ m_memory_mode l ≤ 2 →
  start_exe l n = Ret (exe_time l n, []).
Proof.
  intros Hp Hm. unfold exe_time.
  destruct (start_exe_ret l n Hp) as (c & reqs & -> & [->|(? & _)]); [done|lia].
Qed.

(** Bound on the cycles the loaded instructions still need, [t] being the
    execution time of an instruction: fetching takes at most 5 cycles,
    starting and retiring one each. *)
Definition drain_sum (t : Node → Z) (l : Lane) : Z :=
  fetch_cnt l + (if bool_decide (exe_stack l = []) then 0 else exe_cnt l + 1)
  + zsum (λ n, t n + 2) (fetch_stack l) + zsum (λ n, t n + 7) (instruction_queue l).

Definition drain_bound (l : Lane) : Z := drain_sum (exe_time l) l.

(** Fixed-latency memory, non-negative latencies. *)
Record drains (l : Lane) : Prop := {
  dr_ok : lane_ok l;
  dr_mode : 0 ≤ m_memory_mode l ≤ 2;
  dr_cnt : 0 ≤ exe_cnt l;
  dr_time : ∀ n, n ∈ pending l → 0 ≤ exe_time l n
}.

(** Each instruction counts with a positive weight. *)
Lemma drain_weight l c xs :
  drains l → 0 < c → xs ⊆ pending l →
  0 ≤ zsum (λ n, exe_time l n + c) xs ∧ (zsum (λ n, exe_time l n + c) xs = 0 → xs = []).
Proof.
  intros [_ _ _ Ht] Hc Hsub.
  assert (∀ n, n ∈ xs → 0 < exe_time l n + c) as Hpos.
  { intros n Hn. specialize (Ht n (Hsub n Hn)). lia. }
  split; [apply zsum_nonneg; intros n Hn; specialize (Hpos n Hn); lia|].
  destruct xs as [|n xs]; [done|]. intros Hz.
  pose proof (Hpos n ltac:(left)).
  assert (exe_time l n + c ≤ zsum (λ n, exe_time l n + c) (n :: xs)); [|lia].
  apply (zsum_elem (λ n, exe_time l n + c)); [|left].
  intros k Hk. specialize (Hpos k Hk). lia.
Qed.

Lemma drain_bound_spec l :
  drains l → 0 ≤ drain_bound l ∧ (drain_bound l = 0 → pending l = [] ∧ is_free l = true).
Proof.
  intros Hd. unfold drain_bound, drain_sum.
  destruct (drain_weight l 2 (fetch_stack l) Hd ltac:(lia)) as [Hf1 Hf2].
  { intros n Hn. unfold pending. rewrite !elem_of_app. tauto. }
  destruct (drain_weight l 7 (instruction_queue l) Hd ltac:(lia)) as [Hq1 Hq2].
  { intros n Hn. unfold pending. rewrite !elem_of_app. tauto. }
  destruct Hd as [[_ Hf Hx] _ He _].
  destruct Hx as [[Hx Hc]|[n Hx]]; unfold pending, is_free; rewrite Hx; cbn -[zsum]; [|lia].
  split; [lia|]. intros Hz. rewrite Hf2, Hq2, Hc by lia.
  by assert (fetch_cnt l = 0) as -> by lia.
Qed.

Lemma updateCounter_drain t l :
  lane_ok l → 0 ≤ exe_cnt l →
  0 ≤ exe_cnt (updateCounter l) ∧ drain_sum t (updateCounter l) ≤ drain_sum t l ∧
  (drain_sum t (updateCounter l) = drain_sum t l → fetch_cnt l = 0 ∧ exe_cnt l = 0).
Proof.
  intros [_ Hf Hx] He. unfold updateCounter, drain_sum.
  destruct (0 <? exe_cnt l) eqn:E1; [|destruct (exe_cnt l =? -1) eqn:E2; [lia|]];
  destruct (0 <? fetch_cnt l) eqn:E3; cbn -[zsum];
  case_bool_decide as Hs; destruct Hx as [[Hx Hc]|[n Hx]]; try congruence; lia.
Qed.

Lemma execute_drain t l g l' g' :
  lane_ok l → 0 ≤ exe_cnt l → (∀ n, start_exe l n = Ret (t n, [])) →
  (∀ n, n ∈ pending l → 0 ≤ t n) →
  execute l g = Ret (l', g') →
  0 ≤ exe_cnt l' ∧ drain_sum t l' ≤ drain_sum t l ∧
  (drain_sum t l' = drain_sum t l → exe_cnt l = 0 → fetch_cnt l = 0 →
   exe_stack l = [] ∧ fetch_stack l = [] ∧ l' = l).
Proof.
  intros [_ Hf Hx] He Ht Hpos. unfold execute.
  destruct Hx as [[Hx Hc]|[n Hx]]; unfold pending in Hpos; rewrite Hx in *; cbn -[zsum].
  - rewrite Hc; cbn -[zsum].
    destruct (fetch_stack l) as [|n f] eqn:Ef; [intros [= <- <-]; split_and!; auto; lia|].
    destruct (fetch_cnt l =? 0) eqn:E; [|intros [= <- <-]; split_and!; auto; lia].
    rewrite Ht; cbn -[zsum]. intros [= <- <-]. cbn -[zsum].
    assert (0 ≤ t n) by (apply Hpos; left).
    unfold drain_sum; cbn -[zsum]. rewrite Hx, Ef; cbn -[zsum].
    change (zsum (λ n, t n + 2) (n :: f)) with (t n + 2 + zsum (λ n, t n + 2) f). lia.
  - destruct (exe_cnt l =? 0) eqn:E; cbn -[zsum].
    { intros [= <- <-]. unfold drain_sum; cbn -[zsum]. rewrite Hx; cbn -[zsum]. lia. }
    assert ((0 <? exe_cnt l) = true) as -> by lia. cbn -[zsum].
    intros [= <- <-]. unfold drain_sum; cbn -[zsum]. rewrite Hx; cbn -[zsum]. lia.
Qed.

Lemma fetch_drain t l l' :
  lane_ok l → fetch l = Ret l' →
  exe_cnt l' = exe_cnt l ∧ drain_sum t l' ≤ drain_sum t l ∧
  (drain_sum t l' = drain_sum t l → fetch_cnt l = 0 → instruction_queue l = []).
Proof.
  intros [_ Hf _]. unfold fetch. destruct (0 <? fetch_cnt l) eqn:E; [intros [= <-]; lia|].
  destruct (instruction_queue l) as [|n q] eqn:Eq; [intros [= <-]; split_and!; auto; lia|].
  intros (v & _ & [= <-])%bind_ret_inv. unfold drain_sum; cbn -[zsum]. rewrite Eq.
  rewrite zsum_app. cbn. unfold zsum in *. lia.
Qed.

(** A cycle of a lane that is not empty brings it nearer to the end. *)
Lemma run_decreases l g :
  drains l → 0 < drain_bound l →
  ∃ l' g', run l g = Ret (l', g') ∧ drains l' ∧ drain_bound l' < drain_bound l.
Proof.
  intros [Hok Hm He Ht] Hb.
  destruct (run_in_order_aux l g Hok) as (l' & g' & Hrun & Hok' & ds & reqs & Hp & _).
  exists l', g'. pose proof (run_config _ _ _ _ Hrun) as Hcfg.
  assert (∀ n, exe_time l' n = exe_time l n) as Hte by (intros; by apply exe_time_config).
  assert (drain_bound l' = drain_sum (exe_time l) l') as ->.
  { unfold drain_bound, drain_sum. f_equal; [f_equal|];
      apply zsum_ext; intros n _; by rewrite Hte. }
  assert (same_config l (updateCounter l)) as Hc0.
  { unfold updateCounter, same_config. repeat case_goal; by cbn. }
  destruct (updateCounter_drain (exe_time l) l Hok He) as (He1 & Hd1 & Hs1).
  pose proof Hrun as Hr. unfold run in Hr. apply bind_ret_inv in Hr as ([l1 g1] & Hrun1 & Hrun2). cbn in Hrun2.
  apply bind_ret_inv in Hrun2 as (l2 & Hrun2 & [= -> ->]).
  pose proof (updateCounter_ok l Hok) as Hok0.
  destruct (execute_drain (exe_time l) (updateCounter l) g l1 g' Hok0 He1) as (He2 & Hd2 & Hs2);
    [..|done|].
  { intros n. rewrite <- (exe_time_config l _ n Hc0 Hm). destruct Hc0 as (_ & Hm0 & _).
    apply start_exe_time; [apply Hok0|lia]. }
  { intros n. rewrite updateCounter_pending. apply Ht. }
  destruct (execute_ret (updateCounter l) g Hok0) as (l1' & ? & E & Hok1 & _).
  rewrite Hrun1 in E. injection E as <- <-.
  destruct (fetch_drain (exe_time l) l1 l' Hok1 Hrun2) as (He3 & Hd3 & Hs3).
  split_and!; [done|split; [done| |lia|]|].
  - destruct Hcfg as (_ & -> & _). lia.
  - intros n Hn. rewrite Hte. apply Ht. rewrite Hp, elem_of_app. by right.
  - unfold drain_bound in *.
    destruct (Z.eq_dec (drain_sum (exe_time l) l') (drain_sum (exe_time l) l)); [|lia].
    exfalso. destruct Hs1 as [Hf0 He0]; [lia|].
    assert (fetch_cnt (updateCounter l) = 0 ∧ exe_cnt (updateCounter l) = 0
      ∧ exe_stack (updateCounter l) = exe_stack l ∧ fetch_stack (updateCounter l) = fetch_stack l
      ∧ instruction_queue (updateCounter l) = instruction_queue l) as (U1 & U2 & U3 & U4 & U5).
    { unfold updateCounter. rewrite Hf0, He0. by cbn. }
    destruct Hs2 as (Hx & Hfs & ->); [lia|done|done|].
    assert (instruction_queue (updateCounter l) = []) as Hq by (apply Hs3; lia).
    revert Hb. unfold drain_sum. rewrite <- U3, <- U4, <- U5, Hx, Hfs, Hq, Hf0. cbn. lia.
Qed.

(** An empty lane with no counter running stays so. *)
Lemma run_idle l g :
  drains l → drain_bound l = 0 →
  ∃ l', run l g = Ret (l', g) ∧ drains l' ∧ drain_bound l' = 0.
Proof.
  intros Hd Hb. destruct (drain_bound_spec l Hd) as [_ Hz]. destruct (Hz Hb) as [Hp Hfree].
  exists l. unfold pending in Hp. apply app_eq_nil in Hp as [Hx Hp].
  apply app_eq_nil in Hp as [Hf Hq].
  unfold is_free in Hfree. rewrite Hq, Hx in Hfree. cbn in Hfree.
  rewrite !andb_true_r, andb_true_iff, !Z.eqb_eq in Hfree. destruct Hfree as [Hcf Hce].
  split_and!; [|done..]. unfold run, updateCounter, execute, fetch. destruct l; cbn in *; by subst.
Qed.

Lemma run_n_drains n l g :
  drains l → drain_bound l ≤ Z.of_nat n →
  ∃ l' g', run_n n l g = Ret (l', g') ∧ drains l' ∧ drain_bound l' = 0.
Proof.
  revert l g. induction n as [|n IH]; intros l g Hd Hn; cbn.
  { exists l, g. destruct (drain_bound_spec l Hd). split_and!; [done..|lia]. }
  destruct (Z.eq_dec (drain_bound l) 0) as [Hz|Hz].
  - destruct (run_idle l g Hd Hz) as (l1 & -> & Hd1 & Hz1). cbn. apply IH; [done|lia].
  - destruct (drain_bound_spec l Hd) as [H0 _].
    destruct (run_decreases l g Hd ltac:(lia)) as (l1 & g1 & -> & Hd1 & Hlt). cbn.
    apply IH; [done|lia].
Qed.

Lemma run_n_in_order n l g l' g' :
  lane_ok l → run_n n l g = Ret (l', g') →
  lane_ok l' ∧ ∃ ds, pending l = ds ++ pending l' ∧ (length ds ≤ n)%nat ∧
  finished_chains g' = finished_chains g ++ map retired ds.
Proof.
  revert l g. induction n as [|n IH]; intros l g Hok; cbn.
  { intros [= -> ->]. split; [done|]. exists []. rewrite app_nil_r. split_and!; [done|cbn; lia|done]. }
  destruct (run_in_order_aux l g Hok) as (l1 & g1 & -> & Hok1 & ds & reqs & Hp & Hlen & Hfin & _).
  cbn. intros Hrun. destruct (IH _ _ Hok1 Hrun) as (Hok' & ds' & Hp' & Hlen' & Hfin').
  split; [done|]. exists (ds ++ ds'). rewrite Hp, Hp', Hfin', Hfin, map_app, !app_assoc.
  split_and!; [done|rewrite length_app; lia|done].
Qed.

(** [C18] Under a fixed-latency memory a loaded lane finishes: within
    [drain_bound] cycles every instruction has retired, each pushing its chain
    number, in program order, and the lane is free. *)
Theorem lane_drains l g :
  drains l →
  ∃ l' g', run_n (Z.to_nat (drain_bound l)) l g = Ret (l', g') ∧
    pending l' = [] ∧ is_free l' = true ∧
    finished_chains g' = finished_chains g ++ map retired (pending l).
Proof.
  intros Hd. destruct (drain_bound_spec l Hd) as [H0 _].
  destruct (run_n_drains (Z.to_nat (drain_bound l)) l g Hd ltac:(lia)) as (l' & g' & Hrun & Hd' & Hz).
  exists l', g'. destruct (drain_bound_spec l' Hd') as [_ Hspec]. destruct (Hspec Hz) as [Hp Hfree].
  destruct (run_n_in_order _ _ _ _ _ (dr_ok l Hd) Hrun) as (_ & ds & Hpend & _ & Hfin).
  split_and!; [done..|]. rewrite Hp, app_nil_r in Hpend. by subst ds.
Qed.

Lemma run_n_add a b l g :
  run_n (a + b) l g = ('(l', g') ← run_n a l g; run_n b l' g').
Proof.
  revert l g. induction a as [|a IH]; intros l g; cbn; [done|].
  destruct (run l g) as [[l1 g1]|e]; cbn; [apply IH|done].
Qed.

(** ** Loading a chain *)

(** Loading appends the chain to the program order and records its number. *)
Lemma LoadInstructionQueue_spec input ch l :
  lane_ok l → ∃ l' free, LoadInstructionQueue input ch l = Ret (l', free) ∧ lane_ok l' ∧
    pending l' = pending l ++ input ∧ same_config l l' ∧
    schChainsList l' = schChainsList l ++ [ch] ∧
    exe_cnt l' = exe_cnt l ∧ exe_stack l' = exe_stack l ∧ fetch_cnt l' = fetch_cnt l ∧
    fetch_stack l' = fetch_stack l ∧ instruction_queue l' = instruction_queue l ++ input.
Proof.
  intros [Hp Hf He]. unfold LoadInstructionQueue.
  destruct (param_loaded l "DECODE_DELAY" Hp ltac:(do 4 right; left)) as [v ->].
  cbn. do 2 eexists. split_and!; try done.
  unfold pending; cbn. by rewrite !app_assoc.
Qed.

(** ** A lane that is reported free too early

    [is_free] looks at the queue and the execute stage but not at the fetch
    stage.  While a long instruction executes, the fetch counter runs down;
    when the instruction retires, the successor it left in the fetch stage is
    invisible to [is_free] for one cycle. *)

(** While an instruction executes and the queue is empty, a cycle only counts
    down. *)
Lemma run_busy k f l g n :
  exe_stack l = [n] → instruction_queue l = [] →
  exe_cnt l = Z.of_nat k + 1 → fetch_cnt l = f → 0 ≤ f →
  ∃ l', run_n k l g = Ret (l', g) ∧ exe_stack l' = [n] ∧ fetch_stack l' = fetch_stack l ∧
    instruction_queue l' = [] ∧ exe_cnt l' = 1 ∧ fetch_cnt l' = Z.max 0 (f - Z.of_nat k).
Proof.
  revert l f. induction k as [|k IH]; intros l f Hx Hq He Hf H0.
  { exists l. cbn. split_and!; [done|done|done|done|lia|lia]. }
  cbn [run_n].
  assert (∃ l1, run l g = Ret (l1, g) ∧ exe_stack l1 = [n] ∧ fetch_stack l1 = fetch_stack l ∧
    instruction_queue l1 = [] ∧ exe_cnt l1 = Z.of_nat k + 1 ∧
    fetch_cnt l1 = Z.max 0 (f - 1)) as (l1 & -> & Hx1 & Hs1 & Hq1 & He1 & Hf1).
  { unfold run, updateCounter.
    assert ((0 <? exe_cnt l) = true) as -> by lia.
    unfold execute; cbn [exe_cnt exe_stack].
    assert ((exe_cnt l - 1 =? 0) = false) as -> by lia.
    assert ((0 <? exe_cnt l - 1) = true) as -> by lia. cbn [andb]. rewrite Hx. cbn.
    unfold fetch; cbn. rewrite Hq.
    destruct (0 <? fetch_cnt l) eqn:E; [destruct (0 <? fetch_cnt l - 1)|rewrite E];
      eexists; split_and!; try done; cbn; lia. }
  cbn [mbind outcome_bind].
  destruct (IH l1 _ Hx1 Hq1 He1 Hf1 ltac:(lia)) as (l' & -> & H1 & H2 & H3 & H4 & H5).
  exists l'. split_and!; [done|done|congruence|done|done|lia].
Qed.

(** A lane loaded with two instructions, the first not a memory
    operation and of latency at least 4, is reported free in the cycle the
    first one retires, with the second one still to execute. *)
Theorem free_with_pending ID size p a b ch :
  params_loaded p → is_mem_op a = false → 4 ≤ latency a < 2 ^ 31 →
  ∃ l0 n l' g', LoadInstructionQueue [a; b] ch (new_Lane ID 3 size p) = Ret (l0, n) ∧
    run_n (5 + Z.to_nat (latency a)) l0 new_globals = Ret (l', g') ∧
    is_free l' = true ∧ pending l' = [b] ∧ finished_chains g' = [retired a].
Proof.
  intros Hp Ha Hlat.
  destruct (Hp "FETCH_DELAY"%string ltac:(do 3 right; left)) as [vf Hvf].
  destruct (Hp "DECODE_DELAY"%string ltac:(do 4 right; left)) as [vd Hvd].
  assert (i32 (latency a) = latency a) as Hi.
  { unfold i32. rewrite Z.mod_small by lia. lia. }
  unfold LoadInstructionQueue, param. cbn [lane_param new_Lane]. rewrite Hvd. cbn [mbind outcome_bind].
  set (l0 := mkLane _ _ _ _ _ _ _ _ _ _ _ _ _ _ _ _).
  do 2 eexists.
  assert (∃ l5, run_n 5 l0 new_globals = Ret (l5, new_globals) ∧ exe_stack l5 = [a] ∧
    instruction_queue l5 = [] ∧ exe_cnt l5 = Z.of_nat (Z.to_nat (latency a) - 1) + 1 ∧
    fetch_cnt l5 = 4 ∧ fetch_stack l5 = [b]) as (l5 & H5 & Hx & Hq & He & Hf & Hs).
  { cbn [run_n]. unfold run, execute, fetch, updateCounter, param, start_exe. cbn. rewrite Hvf. cbn.
    change (4 - 1) with 3. cbn. change (3 - 1) with 2. cbn.
    change (2 - 1) with 1. cbn. change (1 - 1) with 0. cbn. rewrite Ha, Hi. cbn.
    rewrite Hvf. cbn. eexists; split_and!; try done. cbn. lia. }
  destruct (run_busy (Z.to_nat (latency a) - 1) 4 l5 new_globals a Hx Hq He Hf ltac:(lia))
    as (l6 & H6 & Hx6 & Hs6 & Hq6 & He6 & Hf6).
  rewrite Hs in Hs6.
  assert (fetch_cnt l6 = 0 ∨ fetch_cnt l6 = 1) as Hf6' by lia.
  assert (∃ l', run l6 new_globals = Ret (l', mkGlobals [retired a] []) ∧ is_free l' = true ∧
    pending l' = [b]) as (l' & H7 & Hfree & Hpend).
  { unfold run, updateCounter. rewrite He6. cbn. unfold execute; cbn. rewrite Hx6; cbn.
    unfold fetch; cbn. rewrite Hq6, Hs6.
    destruct Hf6' as [-> | ->]; cbn; eexists; split_and!; try done; by rewrite Hq6. }
  exists l', (mkGlobals [retired a] []). split_and!; [done| |done|done|done].
  replace (5 + Z.to_nat (latency a))%nat with (5 + ((Z.to_nat (latency a) - 1) + 1))%nat by lia.
  rewrite run_n_add, H5. cbn [mbind outcome_bind]. rewrite run_n_add, H6. cbn [mbind outcome_bind run_n].
  rewrite H7. done.
Qed.

(** ** Witnesses: the table of [def/Lane.def] *)

Definition lane_def : ordmap string Z :=
  [("DECODE_DELAY", 2); ("FETCH_DELAY", 2); ("L1_MISS_LATENCY", 1);
   ("L2_MISS_LATENCY", 25); ("L3_MISS_LATENCY", 100)]%string.

Lemma lane_def_loaded : params_loaded lane_def.
Proof. intros k Hk. elem_cases Hk; subst; cbn; eauto. Defined.

Definition example_nodes : list Node :=
  [mkNode 7 10 10 10 "Load" 2; mkNode 7 11 11 11 "FAdd" 5; mkNode 7 12 12 12 "Nop" 2].

Definition example_lane (mode : Z) : Lane :=
  mkLane 1 mode 300 0 2 0 0 0 7 "" example_nodes [] [] [] lane_def [7%nat].

Lemma example_lane_drains : drains (example_lane 1).
Proof.
  split; [split; [apply lane_def_loaded|cbn; lia|by left]|cbn; lia|cbn; lia|].
  intros n Hn. elem_cases Hn; subst; vm_compute; discriminate.
Defined.

Lemma run_in_order_witness :
  lane_ok (example_lane 3) ∧
  ∃ l' g', run (example_lane 3) new_globals = Ret (l', g') ∧ lane_ok l'
    ∧ cycle_effect (example_lane 3) new_globals l' g'.
Proof.
  assert (lane_ok (example_lane 3)) as H.
  { split; [apply lane_def_loaded|cbn; lia|by left]. }
  split; [exact H|]. exact (run_in_order (example_lane 3) new_globals H).
Defined.

Lemma lane_drains_witness :
  drains (example_lane 1) ∧ drain_bound (example_lane 1) = 53 ∧
  ∃ l' g', run_n (Z.to_nat (drain_bound (example_lane 1))) (example_lane 1) new_globals
    = Ret (l', g') ∧ pending l' = [] ∧ is_free l' = true ∧
    finished_chains g' = [] ++ map retired example_nodes.
Proof.
  split; [apply example_lane_drains|]. split; [reflexivity|].
  exact (lane_drains (example_lane 1) new_globals example_lane_drains).
Defined.

Lemma free_with_pending_witness :
  let a := mkNode 7 11 11 11 "FAdd" 5 in let b := mkNode 7 12 12 12 "Store" 2 in
  params_loaded lane_def ∧ is_mem_op a = false ∧ 4 ≤ latency a < 2 ^ 31 ∧
  ∃ l0 n l' g', LoadInstructionQueue [a; b] 7 (new_Lane 0 3 300 lane_def) = Ret (l0, n) ∧
    run_n (5 + Z.to_nat (latency a)) l0 new_globals = Ret (l', g') ∧
    is_free l' = true ∧ pending l' = [b] ∧ finished_chains g' = [retired a].
Proof.
  cbv zeta. split; [apply lane_def_loaded|]. split; [reflexivity|].
  split; [vm_compute; split; [discriminate|reflexivity]|].
  apply (free_with_pending 0 300 lane_def); [apply lane_def_loaded|reflexivity|].
  vm_compute; split; [discriminate|reflexivity].
Defined.

#[export] Hint Resolve new_Lane_ok updateCounter_ok lane_def_loaded : csim.
