(* ===== verification/Text.v ===== *)
(** * Text

    The part of the C++ string library the readers use: [std::stoi] and the
    two regular expressions that [newGraph::completeReadGraphHelper] runs on
    the label of a vertex; [Regex] proves the latter to be what a search for
    those expressions captures. *)

From S2P Require Import Prelude.
From Stdlib Require Import Ascii.
Open Scope Z_scope.

Definition is_digit (c : ascii) : bool :=
  (48 <=? Z.of_nat (nat_of_ascii c)) && (Z.of_nat (nat_of_ascii c) <=? 57).

Definition digit_val (c : ascii) : Z := Z.of_nat (nat_of_ascii c) - 48.

(** [isspace] in the default locale *)
Definition is_space (c : ascii) : bool :=
  let n := Z.of_nat (nat_of_ascii c) in (n =? 32) || ((9 <=? n) && (n <=? 13)).

(** [.] of an ECMAScript regular expression *)
Definition is_any (c : ascii) : bool :=
  let n := Z.of_nat (nat_of_ascii c) in negb (n =? 10) && negb (n =? 13).

Fixpoint skip_space (s : string) : string :=
  match s with String c s' => if is_space c then skip_space s' else s | EmptyString => s end.

(** The longest run of digits: the number it denotes and how many there are. *)
Fixpoint digits (acc : Z) (n : nat) (s : string) : Z * nat :=
  match s with
  | String c s' => if is_digit c then digits (acc * 10 + digit_val c) (S n) s' else (acc, n)
  | EmptyString => (acc, n)
  end.

(** [std::stoi] and its kin, for a result of [w] bits: they throw when there is
    no number or it does not fit. *)
Definition parse_int (w : Z) (s : string) : outcome Z :=
  let '(sign, s) := match skip_space s with
    | String "-" s' => (-1, s')
    | String "+" s' => (1, s')
    | s' => (1, s')
    end in
  let '(v, n) := digits 0 0 s in
  if (n =? 0)%nat then Raise Uncaught
  else if (- 2 ^ (w - 1) <=? sign * v) && (sign * v <? 2 ^ (w - 1)) then Ret (sign * v)
  else Raise Uncaught.

Definition stoi : string → outcome Z := parse_int 32.
Definition stol : string → outcome Z := parse_int 64.
Definition stoll : string → outcome Z := parse_int 64.

(** [match[1]] of a search for ["^(.*?)\("]; empty when there is no match *)
Fixpoint before_paren (s : string) : option string :=
  match s with
  | String "(" _ => Some EmptyString
  | String c s' => if is_any c then String c <$> before_paren s' else None
  | EmptyString => None
  end.

Definition label_type (label : string) : string := default EmptyString (before_paren label).

(** The digits up to a closing parenthesis. *)
Fixpoint digits_paren (s : string) : option string :=
  match s with
  | String ")" _ => Some EmptyString
  | String c s' => if is_digit c then String c <$> digits_paren s' else None
  | EmptyString => None
  end.

(** [match[1]] of a search for ["^.*?\((\d+)\)"] *)
Fixpoint paren_id (s : string) : option string :=
  match s with
  | EmptyString => None
  | String c s' =>
      let rest := if is_any c then paren_id s' else None in
      if Ascii.eqb c "(" then
        match digits_paren s' with Some (String d ds) => Some (String d ds) | _ => rest end
      else rest
  end.

Definition label_id (label : string) : string := default EmptyString (paren_id label).

Example label_type_1 : label_type "Load(17)" = "Load"%string. Proof. reflexivity. Qed.
Example label_id_1 : label_id "Load(17)" = "17"%string. Proof. reflexivity. Qed.
Example label_id_2 : label_id "f(x)(3)" = "3"%string. Proof. reflexivity. Qed.
Example stoi_1 : stoi " -12x" = Ret (-12). Proof. reflexivity. Qed.
Example stoi_2 : stoi "4294967296" = Raise Uncaught. Proof. reflexivity. Qed.
Example stoll_1 : stoll "4294967296" = Ret 4294967296. Proof. reflexivity. Qed.
