(* ===== verification/Regex.v ===== *)
(** * Regular expressions

    The part of the regular expressions of the C++ library (ECMAScript grammar)
    that the readers use, with the order in which its backtracking search tries
    the alternatives: it decides what the groups capture.  [matches] is the
    language of an expression; the search is sound for it. *)

From stdpp Require Import list strings.
From S2P Require Import Prelude Text.
From Stdlib Require Import Ascii.
Local Open Scope nat_scope.

Notation text := (list ascii).

Inductive regex :=
  | Eps
  | Chr (f : ascii → bool)
  | Cat (a b : regex)
  | Alt (a b : regex)
  | Star (greedy : bool) (a : regex)
  | Bol
  | Eol
  | Group (n : nat) (a : regex).

(** How far the search is: characters consumed, the rest, the groups captured. *)
Record place := mkPlace { pos : nat; rest : text; caps : list (nat * text) }.

Definition eat (n : nat) (p : place) : place := mkPlace (pos p + n) (drop n (rest p)) (caps p).

Definition capture (n : nat) (from to : place) : place :=
  mkPlace (pos to) (rest to) ((n, take (length (rest from) - length (rest to)) (rest from)) :: caps to).

(** Iterations of a star, more of them first when it is greedy; each consumes
    something. *)
Fixpoint star (body : (place → option place) → place → option place) (greedy : bool) (k : place → option place)
    (fuel : nat) (p : place) : option place :=
  match fuel with
  | O => k p
  | S fuel =>
      let more := λ _ : unit, body (λ q, if length (rest q) <? length (rest p) then star body greedy k fuel q else None) p in
      if greedy then match more () with Some x => Some x | None => k p end
      else match k p with Some x => Some x | None => more () end
  end.

(** The search from [p], to be continued by [k]. *)
Fixpoint run (r : regex) (k : place → option place) (p : place) : option place :=
  match r with
  | Eps => k p
  | Chr f => match rest p with c :: _ => if f c then k (eat 1 p) else None | [] => None end
  | Cat a b => run a (run b k) p
  | Alt a b => match run a k p with Some x => Some x | None => run b k p end
  | Star greedy a => star (run a) greedy k (length (rest p)) p
  | Bol => if pos p =? 0 then k p else None
  | Eol => match rest p with [] => k p | _ => None end
  | Group n a => run a (λ q, k (capture n p q)) p
  end.

Definition at_end (p : place) : option place := match rest p with [] => Some p | _ => None end.

Definition regex_match (r : regex) (s : text) : bool :=
  match run r at_end (mkPlace 0 s []) with Some _ => true | None => false end.

Fixpoint search_from (r : regex) (i : nat) (s : text) : option place :=
  match run r Some (mkPlace i s []) with
  | Some p => Some p
  | None => match s with [] => None | _ :: s' => search_from r (S i) s' end
  end.

Definition regex_search (r : regex) (s : text) : option place := search_from r 0 s.

(** [match[n]]: empty when the group or the whole expression did not match. *)
Fixpoint group (n : nat) (l : list (nat * text)) : text :=
  match l with [] => [] | (m, t) :: l => if n =? m then t else group n l end.

Definition sub_match (n : nat) (m : option place) : text := match m with Some p => group n (caps p) | None => [] end.

(** ** Notation *)

Definition Plus (a : regex) : regex := Cat a (Star true a).
Definition Char (c : ascii) : regex := Chr (Ascii.eqb c).
Definition Any : regex := Chr is_any.
Definition White : regex := Chr is_space.
Definition NonSpace : regex := Chr (λ c, negb (is_space c)).
Definition Digit : regex := Chr is_digit.
Definition Lit (s : string) : regex := foldr (λ c r, Cat (Char c) r) Eps (String.list_ascii_of_string s).

Infix "·" := Cat (at level 40, left associativity).

(** ** The language *)

Inductive matches : regex → text → Prop :=
  | m_eps : matches Eps []
  | m_chr f c : f c = true → matches (Chr f) [c]
  | m_cat a b s t : matches a s → matches b t → matches (Cat a b) (s ++ t)
  | m_alt_l a b s : matches a s → matches (Alt a b) s
  | m_alt_r a b s : matches b s → matches (Alt a b) s
  | m_star_nil g a : matches (Star g a) []
  | m_star_app g a s t : matches a s → matches (Star g a) t → matches (Star g a) (s ++ t)
  | m_bol : matches Bol []
  | m_eol : matches Eol []
  | m_group n a s : matches a s → matches (Group n a) s.

(** Without groups a search captures nothing. *)
Fixpoint groupless (r : regex) : bool :=
  match r with
  | Cat a b | Alt a b => groupless a && groupless b
  | Star _ a => groupless a
  | Group _ _ => false
  | _ => true
  end.

(** [q] is [p] after the text [s] of the language of [r]. *)
Definition reaches (r : regex) (p q : place) : Prop :=
  ∃ s, matches r s ∧ rest p = s ++ rest q ∧ (groupless r = true → caps q = caps p).

Lemma reaches_nil r p : matches r [] → reaches r p p.
Proof. by exists []. Qed.

Lemma reaches_trans r a b p q q' :
  reaches a p q → reaches b q q' → (∀ s t, matches a s → matches b t → matches r (s ++ t)) →
  (groupless r = true → groupless a = true ∧ groupless b = true) → reaches r p q'.
Proof.
  intros (s & Hs & Ep & Hcp) (t & Ht & Eq & Hcq) Hr Hg. exists (s ++ t). split; [by apply Hr|]. split; [by rewrite Ep, Eq, app_assoc|].
  intros [H1 H2]%Hg. by rewrite Hcq, Hcp.
Qed.

Lemma run_sound r : ∀ k p x, run r k p = Some x → ∃ q, reaches r p q ∧ k q = Some x.
Proof.
  induction r as [|f|a IHa b IHb|a IHa b IHb|g a IH| | |n a IH]; intros k p x; cbn [run].
  - intros Hk. exists p. split; [|done]. apply reaches_nil. constructor.
  - destruct (rest p) as [|c cs] eqn:Ep; [done|]. destruct (f c) eqn:Ef; [|done]. intros Hk. eexists. split; [|exact Hk].
    exists [c]. split; [by constructor|]. split; [cbn; by rewrite Ep|done].
  - intros (q & Hq & Hk)%IHa. apply IHb in Hk as (q' & Hq' & Hk). exists q'. split; [|done].
    eapply reaches_trans; [done..| |cbn; intros ?%andb_prop; tauto]. by constructor.
  - destruct (run a k p) as [y|] eqn:Ea.
    + intros [= ->]. apply IHa in Ea as (q & (s & Hs & Ep & Hc) & Hq). exists q. split; [|done].
      exists s. split; [by constructor|]. split; [done|]. cbn. intros ?%andb_prop. tauto.
    + intros (q & (s & Hs & Ep & Hc) & Hq)%IHb. exists q. split; [|done].
      exists s. split; [by apply m_alt_r|]. split; [done|]. cbn. intros ?%andb_prop. tauto.
  - generalize (length (rest p)). intros fuel. revert p x. induction fuel as [|fuel IHf]; intros p x; cbn [star].
    { intros Hk. exists p. split; [|done]. apply reaches_nil. constructor. }
    assert (Hmore : ∀ y, run a (λ q, if length (rest q) <? length (rest p) then star (run a) g k fuel q else None) p = Some y →
      ∃ q, reaches (Star g a) p q ∧ k q = Some y).
    { intros y (q & Hq & Hk)%IH. destruct (_ <? _); [|done]. apply IHf in Hk as (q' & Hq' & Hk).
      exists q'. split; [|done]. eapply reaches_trans; [done..| |done]. by constructor. }
    assert (Hstop : ∀ y, k p = Some y → ∃ q, reaches (Star g a) p q ∧ k q = Some y).
    { intros y Hk. exists p. split; [|done]. apply reaches_nil. constructor. }
    destruct g.
    + destruct (run a _ p) as [y|] eqn:Ey; [intros [= ->]; by apply Hmore|by apply Hstop].
    + destruct (k p) as [y|] eqn:Ey; [intros [= ->]; by apply Hstop|by apply Hmore].
  - destruct (pos p =? 0); [|done]. intros Hk. exists p. split; [|done]. apply reaches_nil. constructor.
  - destruct (rest p) eqn:Ep; [|done]. intros Hk. exists p. split; [|done]. apply reaches_nil. constructor.
  - intros (q & (s & Hs & Ep & _) & Hk)%IH. eexists. split; [|exact Hk]. exists s. split; [by constructor|done].
Qed.

(** Without anchors the search is complete: it finds some way. *)
Fixpoint plain (r : regex) : bool :=
  match r with
  | Cat a b | Alt a b => plain a && plain b
  | Star _ a | Group _ a => plain a
  | Bol | Eol => false
  | _ => true
  end.

Lemma run_ext r : ∀ k k' p, (∀ q, k q = k' q) → run r k p = run r k' p.
Proof.
  induction r as [|f|a IHa b IHb|a IHa b IHb|g a IH| | |n a IH]; intros k k' p Hk; cbn [run].
  - apply Hk.
  - destruct (rest p); [done|]. by rewrite Hk.
  - apply IHa. intros q. by apply IHb.
  - by rewrite (IHa k k'), (IHb k k').
  - generalize (length (rest p)). intros fuel. revert p. induction fuel as [|fuel IHf]; intros p; cbn [star]; [apply Hk|].
    rewrite Hk. rewrite (IH _ (λ q, if length (rest q) <? length (rest p) then star (run a) g k' fuel q else None)); [done|].
    intros q. by rewrite IHf.
  - by rewrite Hk.
  - by rewrite Hk.
  - apply IH. intros q. apply Hk.
Qed.

(** Any fuel does that is at least the length of the rest. *)
Lemma star_fuel a g k : ∀ n m p, (length (rest p) ≤ n)%nat → (length (rest p) ≤ m)%nat →
  star (run a) g k n p = star (run a) g k m p.
Proof.
  assert (H0 : ∀ m p, length (rest p) = 0 → star (run a) g k m p = k p).
  { intros [|m] p Hp; [done|]. cbn [star].
    rewrite (run_ext a _ (λ _, None)); [|intros q; by rewrite Hp].
    assert (E : run a (λ _, None) p = None).
    { destruct (run a _ p) as [x|] eqn:Ex; [|done]. by apply run_sound in Ex as (q & _ & Hq). }
    rewrite E. destruct g, (k p); done. }
  induction n as [|n IH]; intros m p Hn Hm; [rewrite !H0 by lia; done|].
  destruct m as [|m]; [rewrite !H0 by lia; done|]. cbn [star].
  rewrite (run_ext a _ (λ q, if length (rest q) <? length (rest p) then star (run a) g k m q else None)); [done|].
  intros q. destruct (Nat.ltb_spec (length (rest q)) (length (rest p))); [|done]. apply IH; lia.
Qed.

Lemma star_complete a g k : ∀ fuel p,
  (length (rest p) ≤ fuel)%nat →
  (is_Some (run a (λ q, if length (rest q) <? length (rest p) then star (run a) g k (pred fuel) q else None) p) ∧ rest p ≠ [] ∨ is_Some (k p)) →
  is_Some (star (run a) g k fuel p).
Proof.
  intros [|fuel] p Hl [[H Hp]|H]; cbn [star].
  - destruct (rest p); [done|cbn in Hl; lia].
  - done.
  - cbn [pred] in H. destruct H as [x Hx]. rewrite Hx. destruct g; [by eexists|]. destruct (k p); by eexists.
  - destruct H as [x ->]. destruct g; [|by eexists]. destruct (run a _ p); by eexists.
Qed.

Lemma run_complete r s : matches r s → plain r = true → ∀ k p u,
  rest p = s ++ u → (∀ q, rest q = u → is_Some (k q)) → is_Some (run r k p).
Proof.
  induction 1 as [|f c Hc|a b s t Hs IHs Ht IHt|a b s Hs IH|a b s Hs IH|g a|g a s t Hs IHs Ht IHt| | |n a s Hs IH];
    cbn [plain]; intros Hr k p u Ep Hk; try (apply andb_prop in Hr as [Hr1 Hr2]); try done; cbn [run].
  - by apply Hk.
  - rewrite Ep. cbn [app]. rewrite Hc. apply Hk. cbn. by rewrite Ep.
  - apply (IHs Hr1 _ _ (t ++ u)); [by rewrite Ep, app_assoc|]. intros q Eq. by apply (IHt Hr2 _ _ u).
  - destruct (IH Hr1 k p u Ep Hk) as [x ->]. by eexists.
  - destruct (run a k p); [by eexists|]. by apply (IH Hr2 k p u).
  - apply star_complete; [done|]. right. by apply Hk.
  - destruct s as [|c s]; [by apply (IHt Hr k p u)|]. cbn [app] in *.
    assert (H : ∀ fuel p, (length (rest p) ≤ fuel)%nat → rest p = t ++ u → is_Some (star (run a) g k fuel p)).
    { intros fuel q Hl Eq. specialize (IHt Hr k q u Eq Hk). cbn [run] in IHt. by rewrite (star_fuel _ _ _ _ (length (rest q))). }
    apply star_complete; [done|]. left. split; [|by rewrite Ep].
    apply (IHs Hr _ _ (t ++ u)); [by rewrite Ep, <- app_assoc|]. intros q Eq.
    rewrite Eq, Ep. cbn [length]. rewrite (proj2 (Nat.ltb_lt _ _)) by (rewrite !length_app; lia).
    apply H; [|done]. rewrite Eq, !length_app. lia.
  - apply (IH Hr _ _ u); [done|]. intros q Eq. by apply Hk.
Qed.

Lemma regex_match_sound r s : regex_match r s = true → matches r s.
Proof.
  unfold regex_match. destruct (run _ _ _) as [x|] eqn:E; [|done]. intros _.
  apply run_sound in E as (q & (t & Ht & Ep & _) & Hq). unfold at_end in Hq. destruct (rest q); [|done].
  cbn in Ep. by rewrite Ep, app_nil_r.
Qed.

(** Matching a whole text is membership in the language, with or without anchors
    around the expression. *)
Lemma regex_match_plain r s : plain r = true → regex_match r s = true ↔ matches r s.
Proof.
  intros Hr. split; [apply regex_match_sound|]. intros Hs. unfold regex_match.
  destruct (run_complete r s Hs Hr at_end (mkPlace 0 s []) []) as [x ->]; [by rewrite app_nil_r| |done].
  intros q Eq. unfold at_end. rewrite Eq. by eexists.
Qed.

Lemma regex_match_line r s : plain r = true → regex_match (Bol · r · Eol) s = true ↔ matches r s.
Proof.
  intros Hr. unfold regex_match. change (run (Bol · r · Eol) at_end (mkPlace 0 s [])) with (run r (run Eol at_end) (mkPlace 0 s [])).
  split.
  - destruct (run _ _ _) as [x|] eqn:E; [|done]. intros _. apply run_sound in E as (q & (t & Ht & Ep & _) & Hq). cbn in Hq.
    destruct (rest q); [|done]. cbn in Ep. by rewrite Ep, app_nil_r.
  - intros Hs. destruct (run_complete r s Hs Hr (run Eol at_end) (mkPlace 0 s []) []) as [x ->]; [by rewrite app_nil_r| |done].
    intros q Eq. cbn. unfold at_end. rewrite Eq. by eexists.
Qed.

(** What the expressions of a line mean. *)
Lemma matches_cat a b s : matches (a · b) s ↔ ∃ t u, s = t ++ u ∧ matches a t ∧ matches b u.
Proof.
  split; [inversion 1; subst; eauto 6|]. intros (t & u & -> & Ht & Hu). by constructor.
Qed.

Lemma matches_star g f s : matches (Star g (Chr f)) s ↔ Forall (λ c, f c = true) s.
Proof.
  split.
  - remember (Star g (Chr f)) as r eqn:Er. induction 1; try discriminate Er; [constructor|].
    injection Er as -> ->. apply Forall_app. split; [|auto]. by inversion H; subst; repeat constructor.
  - induction 1 as [|c s Hc _ IH]; [constructor|]. apply (m_star_app _ _ [c]); [by constructor|done].
Qed.

Lemma matches_char c s : matches (Char c) s ↔ s = [c].
Proof.
  split.
  - inversion 1 as [|f d Hd| | | | | | | |]; subst. by apply Ascii.eqb_eq in Hd as ->.
  - intros ->. constructor. by apply Ascii.eqb_eq.
Qed.

Lemma matches_lit l s : matches (Lit l) s ↔ s = String.list_ascii_of_string l.
Proof.
  unfold Lit. revert s. induction (String.list_ascii_of_string l) as [|c t IH]; intros s; cbn [foldr].
  - split; [by inversion 1|]. intros ->. constructor.
  - rewrite matches_cat. setoid_rewrite matches_char. setoid_rewrite IH. naive_solver.
Qed.

Lemma matches_group n a s : matches (Group n a) s ↔ matches a s.
Proof. split; [by inversion 1|]. by constructor. Qed.

Lemma matches_plus f s : matches (Plus (Chr f)) s ↔ s ≠ [] ∧ Forall (λ c, f c = true) s.
Proof.
  unfold Plus. rewrite matches_cat. setoid_rewrite matches_star. split.
  - intros (t & u & -> & Ht & Hu). inversion Ht; subst. split; [done|by constructor].
  - intros [Hs Hf]. destruct Hf as [|c s Hc Hf]; [done|]. exists [c], s. repeat split; [by constructor|done].
Qed.

(** ** Stars of a class of characters *)

(** Consecutive characters of the class. *)
Fixpoint span (f : ascii → bool) (s : text) : nat :=
  match s with c :: s' => if f c then S (span f s') else 0 | [] => 0 end.

(** The last, and the first, of the places up to [n] from which [k] succeeds. *)
Fixpoint last_ok (k : place → option place) (p : place) (n : nat) : option place :=
  match k (eat n p) with
  | Some x => Some x
  | None => match n with O => None | S n => last_ok k p n end
  end.

Lemma eat_0 p : eat 0 p = p.
Proof. destruct p. unfold eat. cbn. by rewrite Nat.add_0_r. Qed.

Lemma eat_eat n m p : eat n (eat m p) = eat (m + n) p.
Proof. unfold eat. cbn. rewrite drop_drop. f_equal. lia. Qed.

Lemma rest_eat_1 p c cs : rest p = c :: cs → rest (eat 1 p) = cs.
Proof. intros Ep. cbn. by rewrite Ep, skipn_cons, drop_0. Qed.

Lemma last_ok_S k p n :
  last_ok k p (S n) = match last_ok k (eat 1 p) n with Some x => Some x | None => k p end.
Proof.
  induction n as [|n IH].
  - cbn [last_ok]. rewrite eat_eat, eat_0. cbn. by destruct (k (eat 1 p)), (k p).
  - cbn [last_ok] in IH |- *. rewrite !eat_eat in *. cbn [Nat.add] in *. destruct (k (eat (S (S n)) p)); [done|]. exact IH.
Qed.

Lemma star_greedy f k : ∀ fuel p, (length (rest p) ≤ fuel)%nat →
  star (run (Chr f)) true k fuel p = last_ok k p (span f (rest p)).
Proof.
  induction fuel as [|fuel IH]; intros p Hl; cbn [star].
  - destruct (rest p) eqn:Ep; [|cbn in Hl; lia]. cbn. rewrite eat_0. by destruct (k p).
  - cbn [run]. destruct (rest p) as [|c cs] eqn:Ep; cbn [span].
    + cbn. rewrite eat_0. by destruct (k p).
    + destruct (f c); [|cbn; rewrite eat_0; by destruct (k p)].
      rewrite last_ok_S, (rest_eat_1 _ _ _ Ep). cbn [length]. rewrite (proj2 (Nat.ltb_lt _ _)) by lia.
      rewrite IH; rewrite (rest_eat_1 _ _ _ Ep); [done|cbn in Hl; lia].
Qed.

(** The equations of the search, one level at a time. *)
Lemma run_cat a b k p : run (Cat a b) k p = run a (run b k) p.
Proof. done. Qed.

Lemma run_bol k s l : run Bol k (mkPlace 0 s l) = k (mkPlace 0 s l).
Proof. done. Qed.

Lemma run_group n a k p : run (Group n a) k p = run a (λ q, k (capture n p q)) p.
Proof. done. Qed.

Lemma run_greedy f k p : run (Star true (Chr f)) k p = last_ok k p (span f (rest p)).
Proof. by apply star_greedy. Qed.

(** The choice of a greedy star: the longest prefix from which [k] goes on. *)
Lemma last_ok_Some k p n m x :
  (n ≤ m)%nat → k (eat n p) = Some x → (∀ i, (n < i ≤ m)%nat → k (eat i p) = None) → last_ok k p m = Some x.
Proof.
  intros Hn Hk. induction Hn as [|m Hn IH]; intros Hi.
  - destruct n; cbn [last_ok]; by rewrite Hk.
  - cbn [last_ok]. rewrite Hi by lia. apply IH. intros i Hm. apply Hi. lia.
Qed.

Lemma last_ok_None k p m : (∀ i, (i ≤ m)%nat → k (eat i p) = None) → last_ok k p m = None.
Proof.
  induction m as [|m IH]; intros Hi; cbn [last_ok]; rewrite Hi by lia; [done|]. apply IH. intros i Hm. apply Hi. lia.
Qed.

(** The choice of a lazy star: the shortest one. *)
Lemma run_lazy_Some f k n : ∀ p x,
  (n ≤ span f (rest p))%nat → k (eat n p) = Some x → (∀ i, (i < n)%nat → k (eat i p) = None) →
  run (Star false (Chr f)) k p = Some x.
Proof.
  assert (H : ∀ fuel n p x, (length (rest p) ≤ fuel)%nat → (n ≤ span f (rest p))%nat → k (eat n p) = Some x →
    (∀ i, (i < n)%nat → k (eat i p) = None) → star (run (Chr f)) false k fuel p = Some x).
  { clear. induction fuel as [|fuel IH]; intros n p x Hl Hn Hk Hi; cbn [star].
    - destruct (rest p) eqn:Ep; [|cbn in Hl; lia]. cbn in Hn. replace n with 0%nat in * by lia. by rewrite eat_0 in Hk.
    - destruct n as [|n]; [rewrite eat_0 in Hk; by rewrite Hk|].
      pose proof (Hi 0%nat ltac:(lia)) as E0. rewrite eat_0 in E0. rewrite E0. cbn [run].
      destruct (rest p) as [|c cs] eqn:Ep; cbn [span] in Hn; [lia|]. destruct (f c); [|lia].
      rewrite (rest_eat_1 _ _ _ Ep). cbn [length]. rewrite (proj2 (Nat.ltb_lt _ _)) by lia.
      apply (IH n).
      + rewrite (rest_eat_1 _ _ _ Ep). cbn in Hl. lia.
      + rewrite (rest_eat_1 _ _ _ Ep). lia.
      + rewrite eat_eat. exact Hk.
      + intros i Hin. rewrite eat_eat. apply Hi. lia. }
  intros p x. cbn [run]. by apply H.
Qed.

Lemma run_lazy_None f k p :
  (∀ i, (i ≤ span f (rest p))%nat → k (eat i p) = None) → run (Star false (Chr f)) k p = None.
Proof.
  cbn [run]. assert (H : ∀ fuel p, (length (rest p) ≤ fuel)%nat →
    (∀ i, (i ≤ span f (rest p))%nat → k (eat i p) = None) → star (run (Chr f)) false k fuel p = None); [|by apply H].
  clear. induction fuel as [|fuel IH]; intros p Hl Hi; cbn [star]; pose proof (Hi 0%nat ltac:(lia)) as E0; rewrite eat_0 in E0.
  { done. }
  rewrite E0. cbn [run]. destruct (rest p) as [|c cs] eqn:Ep; [done|]. cbn [span] in Hi. destruct (f c); [|done].
  rewrite (rest_eat_1 _ _ _ Ep). cbn [length]. rewrite (proj2 (Nat.ltb_lt _ _)) by lia.
  apply IH; rewrite (rest_eat_1 _ _ _ Ep); [cbn in Hl; lia|]. intros i Hin. rewrite eat_eat. apply Hi. lia.
Qed.

Lemma span_le f s : (span f s ≤ length s)%nat.
Proof. induction s as [|c s IH]; cbn; [lia|]. destruct (f c); lia. Qed.

Lemma span_app f s t : Forall (λ c, f c = true) s → span f (s ++ t) = (length s + span f t)%nat.
Proof. induction 1 as [|c s Hc _ IH]; cbn; [done|]. by rewrite Hc, IH. Qed.

Lemma span_stop f s c t : Forall (λ c, f c = true) s → f c = false → span f (s ++ c :: t) = length s.
Proof. intros Hs Hc. rewrite span_app by done. cbn. rewrite Hc. lia. Qed.

Lemma span_all f s : Forall (λ c, f c = true) s → span f s = length s.
Proof. intros Hs. rewrite <- (app_nil_r s) at 1. rewrite span_app by done. cbn. lia. Qed.

(** The characters before the end of a run are in the class, the next is not. *)
Lemma span_spec f s : ∃ t u, s = t ++ u ∧ length t = span f s ∧ Forall (λ c, f c = true) t ∧
  match u with c :: _ => f c = false | [] => True end.
Proof.
  induction s as [|c s (t & u & -> & Hl & Ht & Hu)]; [by exists [], []|]. cbn. destruct (f c) eqn:Ec.
  - exists (c :: t), u. rewrite <- Hl. cbn. auto.
  - exists [], (c :: t ++ u). auto.
Qed.

Lemma eat_app n p s t : rest p = s ++ t → length s = n → eat n p = mkPlace (pos p + n) t (caps p).
Proof. intros Ep <-. unfold eat. by rewrite Ep, drop_app_length. Qed.

Lemma capture_app n p q s : rest p = s ++ rest q → capture n p q = mkPlace (pos q) (rest q) ((n, s) :: caps q).
Proof.
  intros Ep. unfold capture. rewrite Ep, length_app. replace (length s + length (rest q) - length (rest q)) with (length s) by lia.
  by rewrite take_app_length.
Qed.

(** An expression anchored at the start is tried there only. *)
Definition anchored (r : regex) : Prop := ∀ k p, pos p ≠ 0 → run r k p = None.

Lemma anchored_bol : anchored Bol.
Proof. intros k p Hp. cbn. by rewrite (proj2 (Nat.eqb_neq _ _)). Qed.

Lemma anchored_cat a b : anchored a → anchored (a · b).
Proof. intros Ha k p Hp. cbn. by apply Ha. Qed.

#[export] Hint Resolve anchored_bol anchored_cat : core.

Lemma search_anchored r s : anchored r → regex_search r s = run r Some (mkPlace 0 s []).
Proof.
  intros Hr. assert (H : ∀ s i, i ≠ 0 → search_from r i s = None).
  { clear s. induction s as [|c s IH]; intros i Hi; cbn; rewrite Hr by done; [done|]. by apply IH. }
  unfold regex_search. destruct s as [|c s]; cbn; destruct (run r Some _); try done. by apply H.
Qed.

(** ** The label of a vertex *)

Definition reg_type : regex := Bol · Group 1 (Star false Any) · Char "(".
Definition reg_id : regex := Bol · Star false Any · Char "(" · Group 1 (Plus Digit) · Char ")".

Notation to_text := String.list_ascii_of_string.
Notation of_text := String.string_of_list_ascii.

(** The functions of [Text] are the searches of [completeReadGraphHelper]. *)
Lemma before_paren_Some s t :
  before_paren s = Some t → ∃ u, to_text s = to_text t ++ "("%char :: u ∧
    Forall (λ c, is_any c = true) (to_text t) ∧ "("%char ∉ to_text t.
Proof.
  revert t. induction s as [|c s IH]; intros t; [done|]. cbn [before_paren].
  destruct (Ascii.eqb_spec c "(") as [->|Hc].
  - intros [= <-]. exists (to_text s). split; [done|]. split; [constructor|]. cbn. set_solver.
  - intros Hb. assert (E : (if is_any c then String c <$> before_paren s else None) = Some t).
    { rewrite <- Hb. destruct c as [[] [] [] [] [] [] [] []]; done. }
    destruct (is_any c) eqn:Ea; [|done]. destruct (before_paren s) as [t'|]; [|done]. injection E as <-.
    destruct (IH t' eq_refl) as (u & Es & Ht & Hn). exists u. cbn. rewrite Es. split; [done|]. split; [by constructor|].
    set_solver.
Qed.

(** Searching one character, and what it takes to fail. *)
Lemma run_char_Some c k p cs : rest p = c :: cs → run (Char c) k p = k (eat 1 p).
Proof. intros Ep. cbn. by rewrite Ep, Ascii.eqb_refl. Qed.

Lemma run_char_None c k p : head (rest p) ≠ Some c → run (Char c) k p = None.
Proof.
  intros Hc. cbn. destruct (rest p) as [|d cs]; [done|]. destruct (Ascii.eqb_spec c d) as [->|]; [|done]. by destruct Hc.
Qed.

Lemma run_char_inv c k p x : run (Char c) k p = Some x → ∃ u, rest p = c :: u.
Proof.
  intros H. destruct (rest p) as [|d u] eqn:Ep; [cbn in H; by rewrite Ep in H|].
  destruct (decide (d = c)) as [->|Hd]; [by exists u|]. rewrite run_char_None in H; [done|]. rewrite Ep. cbn. congruence.
Qed.

Lemma before_paren_None s :
  before_paren s = None → ∀ i, (i ≤ span is_any (to_text s))%nat → head (drop i (to_text s)) ≠ Some "("%char.
Proof.
  induction s as [|c s IH]; intros Hb i Hi; [cbn; by rewrite drop_nil|].
  destruct (Ascii.eqb_spec c "(") as [->|Hc]; [done|].
  assert (E : (if is_any c then String c <$> before_paren s else None) = None).
  { rewrite <- Hb. destruct c as [[] [] [] [] [] [] [] []]; done. }
  destruct i as [|i]; [cbn; congruence|]. cbn [String.list_ascii_of_string span] in Hi |- *. rewrite skipn_cons.
  destruct (is_any c); [|lia]. apply IH; [|lia]. by destruct (before_paren s).
Qed.

Lemma not_elem_head (c : ascii) (t u : text) i :
  c ∉ t → (i < length t)%nat → head (drop i (t ++ u)) ≠ Some c.
Proof.
  intros Hn Hi. rewrite drop_app_le by lia. destruct (drop i t) as [|d ds] eqn:E; [apply (f_equal length) in E; rewrite length_drop in E; cbn in E; lia|].
  cbn. intros [= ->]. apply Hn. rewrite <- (take_drop i t), E. set_solver.
Qed.

(** The type of a label is group 1 of ["^(.*?)\("]. *)
Lemma label_type_search s : to_text (label_type s) = sub_match 1 (regex_search reg_type (to_text s)).
Proof.
  rewrite search_anchored by (unfold reg_type; auto). unfold reg_type, label_type.
  rewrite !run_cat, run_bol, run_group. set (p := mkPlace 0 (to_text s) []).
  destruct (before_paren s) as [t|] eqn:Eb; cbn [default].
  - destruct (before_paren_Some s t Eb) as (u & Es & Ht & Hn).
    assert (Ee : eat (length (to_text t)) p = mkPlace (length (to_text t)) ("("%char :: u) []) by (by apply (eat_app _ p (to_text t))).
    rewrite (run_lazy_Some is_any _ (length (to_text t)) p (mkPlace (length (to_text t) + 1) u [(1, to_text t)])); [done|..].
    + cbn [p rest]. rewrite Es, span_app by done. lia.
    + rewrite Ee. rewrite (capture_app 1 p _ (to_text t)) by done.
      rewrite (run_char_Some "(" _ _ u) by done.
      by rewrite (eat_app 1 _ ["("%char] u).
    + intros i Hi. rewrite run_char_None; [done|]. cbn. rewrite Es. by apply not_elem_head.
  - rewrite (run_lazy_None is_any); [done|]. intros i Hi. rewrite run_char_None; [done|]. cbn. by apply before_paren_None.
Qed.

(** The end of the search for ["\((\d+)\)"] after the parenthesis. *)
Definition number_paren : place → option place := run (Group 1 (Plus Digit)) (run (Char ")") Some).

Lemma digits_paren_spec s t :
  digits_paren s = Some t ↔ ∃ u, to_text s = to_text t ++ ")"%char :: u ∧ Forall (λ c, is_digit c = true) (to_text t).
Proof.
  revert t. induction s as [|c s IH]; intros t.
  - split; [done|]. intros (u & E & _). by destruct (to_text t).
  - destruct (Ascii.eqb_spec c ")") as [->|Hc].
    + split.
      * intros [= <-]. exists (to_text s). split; [done|constructor].
      * intros (u & E & Ht). destruct t as [|d t]; [done|]. cbn in E, Ht. injection E as <- _. by inversion Ht.
    + assert (E : digits_paren (String c s) = if is_digit c then String c <$> digits_paren s else None).
      { destruct c as [[] [] [] [] [] [] [] []]; done. }
      rewrite E. clear E. split.
      * destruct (is_digit c) eqn:Ec; [|done]. destruct (digits_paren s) as [t'|]; [|done]. intros [= <-].
        destruct (proj1 (IH t') eq_refl) as (u & Es & Ht). exists u. cbn. rewrite Es. split; [done|by constructor].
      * intros (u & E & Ht). destruct t as [|d t]; cbn in E, Ht; [by injection E as -> _|]. injection E as <- E.
        inversion Ht as [|?? Hd Ht']; subst. rewrite Hd. by rewrite (proj2 (IH t)) by eauto.
Qed.

Lemma number_paren_run q s :
  rest q = to_text s →
  match digits_paren s with
  | Some (String d ds) => ∃ x, number_paren q = Some x ∧ sub_match 1 (Some x) = to_text (String d ds)
  | _ => number_paren q = None
  end.
Proof.
  intros Eq.
  assert (Hnone : (∀ d ds, digits_paren s ≠ Some (String d ds)) → number_paren q = None).
  { intros Hn. destruct (number_paren q) as [x|] eqn:Ex; [|done]. exfalso.
    apply run_sound in Ex as (q' & (t & Ht & E & _) & Hq). inversion Ht as [| | | | | | | | |n a t0 Hp]; subst. apply matches_plus in Hp as [Hne Hd].
    destruct t as [|c t']; [done|].
    apply (Hn c (of_text t')), digits_paren_spec. apply run_char_inv in Hq as [u Eu]. exists u. rewrite <- Eq, E, Eu.
    cbn [String.list_ascii_of_string]. by rewrite String.list_ascii_of_string_of_list_ascii. }
  destruct (digits_paren s) as [[|d ds]|] eqn:Ed; [by apply Hnone| |by apply Hnone].
  apply digits_paren_spec in Ed as (u & Es & Hd). cbn in Es, Hd. inversion Hd as [|?? Hd1 Hd2]; subst.
  unfold number_paren, Plus. rewrite run_group, run_cat. unfold Digit at 1. cbn [run]. rewrite Eq, Es, Hd1.
  assert (E1 : eat 1 q = mkPlace (pos q + 1) (to_text ds ++ ")"%char :: u) (caps q)) by (by apply (eat_app _ _ [d]); rewrite ?Eq).
  eexists. split.
  - change (star _ true) with (star (run (Chr is_digit)) true). rewrite star_greedy by done. rewrite E1. cbn [rest].
    rewrite span_stop by done.
    apply (last_ok_Some _ _ (length (to_text ds))); [done| |lia].
    rewrite (eat_app _ _ (to_text ds) (")"%char :: u)) by done. rewrite (capture_app 1 q _ (d :: to_text ds)) by (by rewrite Eq, Es).
    by rewrite (run_char_Some ")" _ _ u).
  - reflexivity.
Qed.

Lemma run_lazy f k p :
  run (Star false (Chr f)) k p =
  match k p with
  | Some x => Some x
  | None => match rest p with
            | c :: _ => if f c then run (Star false (Chr f)) k (eat 1 p) else None
            | [] => None
            end
  end.
Proof.
  cbn [run]. destruct (rest p) as [|c cs] eqn:Ep; cbn [length star]; [by destruct (k p)|]. cbn [run].
  rewrite Ep, (rest_eat_1 _ _ _ Ep). cbn [length]. by rewrite (proj2 (Nat.ltb_lt _ _)) by lia.
Qed.

Lemma paren_id_run s : ∀ p,
  rest p = to_text s →
  match paren_id s with
  | Some t => ∃ x, run (Star false Any) (run (Char "(") number_paren) p = Some x ∧ sub_match 1 (Some x) = to_text t
  | None => run (Star false Any) (run (Char "(") number_paren) p = None
  end.
Proof.
  induction s as [|c s IH]; intros p Ep; unfold Any; rewrite run_lazy.
  { rewrite run_char_None by (by rewrite Ep). by rewrite Ep. }
  specialize (IH (eat 1 p) (rest_eat_1 _ _ _ Ep)). cbn [paren_id]. rewrite Ep. unfold Any in IH.
  destruct (Ascii.eqb_spec c "(") as [->|Hc].
  - rewrite (run_char_Some _ _ _ _ Ep). pose proof (number_paren_run (eat 1 p) s (rest_eat_1 _ _ _ Ep)) as Hn.
    destruct (digits_paren s) as [[|d ds]|].
    + rewrite Hn. change (is_any "(") with true. exact IH.
    + destruct Hn as (x & -> & Hx). by exists x.
    + rewrite Hn. change (is_any "(") with true. exact IH.
  - rewrite run_char_None by (rewrite Ep; cbn; congruence). cbn [String.list_ascii_of_string]. by destruct (is_any c).
Qed.

(** The number of a label is group 1 of ["^.*?\((\d+)\)"]. *)
Lemma label_id_search s : to_text (label_id s) = sub_match 1 (regex_search reg_id (to_text s)).
Proof.
  rewrite search_anchored by (unfold reg_id; auto 8). unfold reg_id, label_id. rewrite !run_cat, run_bol.
  pose proof (paren_id_run s (mkPlace 0 (to_text s) []) eq_refl) as H. unfold number_paren in H.
  destruct (paren_id s) as [t|]; cbn [default].
  - destruct H as (x & Hx & Ht). etransitivity; [symmetry; exact Ht|]. f_equal. symmetry. exact Hx.
  - by rewrite H.
Qed.
