(* ===== verification/ParamFile.v ===== *)
(** * Parameter files

    [Parameter.cpp]: a file of lines [param<NAME, VALUE>] with comments between
    them is read into a map.  The collected comment text, which nothing uses, is
    left out; the file is its content, and opening it is left out.  The
    expressions are replaced by functions on the characters of a line, for every
    file; and what the reader then makes of comments and parameters is stated. *)

From stdpp Require Import list strings.
From S2P Require Import Prelude OrdMap Text Regex.
From Stdlib Require Import Ascii.
Local Open Scope nat_scope.

(** ** Lines *)

Definition newline : ascii := "010".

(** The lines [getline] returns. *)
Fixpoint getlines (s : text) : list text :=
  match s with
  | [] => []
  | c :: s' =>
      if Ascii.eqb c newline then [] :: getlines s'
      else match getlines s' with [] => [[c]] | l :: ls => (c :: l) :: ls end
  end.

Definition print_lines (l : list text) : text := l ≫= λ t, t ++ [newline].

(** ** [readParam] *)

Definition reg_start_comment : regex := Bol · (Lit "/*" · Star true Any) · Eol.
Definition reg_end_comment : regex := Bol · (Star true Any · Lit "*/") · Eol.
Definition reg_whole_comment : regex :=
  Lit "/*" · Star false (Alt Any (Chr (λ c, Ascii.eqb c newline || Ascii.eqb c "013"))) · Lit "*/".
Definition reg_single_comment : regex := Bol · (Lit "//" · Star true Any) · Eol.
Definition reg_param_start : regex := Bol · (Lit "param" · Star true Any) · Eol.
Definition reg_empty_line : regex := Bol · Star true White · Eol.
Definition reg_capture_param : regex := Bol · Star false Any · Char "<" · Group 1 (Star true Any) · Char ",".
Definition reg_capture_value : regex :=
  Bol · Star false Any · Char "<" · Star true Any · Char "," · Star true White · Group 1 (Star true Any) · Char ">".

Definition param_line '(read_comment, param_set) (line : text) : outcome (bool * ordmap string Z) :=
  if regex_match reg_whole_comment line then Ret (read_comment, param_set)
  else if regex_match reg_single_comment line then Ret (read_comment, param_set)
  else if regex_match reg_end_comment line then Ret (false, param_set)
  else if regex_match reg_start_comment line then Ret (true, param_set)
  else if (read_comment : bool) then Ret (read_comment, param_set)
  else if regex_match reg_empty_line line then Ret (read_comment, param_set)
  else
    assertb (regex_match reg_param_start line) ;;
    let name := sub_match 1 (regex_search reg_capture_param line) in
    let value := sub_match 1 (regex_search reg_capture_value line) in
    v ← stoi (of_text value);
    Ret (read_comment, mset (of_text name) (u32 v) param_set).

Definition readParam (content : text) (param_set : ordmap string Z) : outcome (ordmap string Z) :=
  '(_, param_set) ← foldM param_line (false, param_set) (getlines content);
  Ret param_set.

(** ** The same without expressions *)

Fixpoint starts (p l : text) : bool :=
  match p, l with
  | [], _ => true
  | c :: p, d :: l => Ascii.eqb c d && starts p l
  | _, [] => false
  end.

Definition ends (p l : text) : bool := bool_decide (p `suffix_of` l).

(** The text after the first [c], and the texts around the last one. *)
Fixpoint after_first (c : ascii) (l : text) : option text :=
  match l with [] => None | d :: l => if Ascii.eqb d c then Some l else after_first c l end.

Fixpoint around_last (c : ascii) (l : text) : option (text * text) :=
  match l with
  | [] => None
  | d :: l =>
      match around_last c l with
      | Some (a, b) => Some (d :: a, b)
      | None => if Ascii.eqb d c then Some ([], l) else None
      end
  end.

Fixpoint skip_white (l : text) : text :=
  match l with c :: l' => if is_space c then skip_white l' else l | [] => [] end.

(** The name is what lies between the first [<] and the last comma after it; the
    value what lies between the last comma that a [>] follows and the last [>],
    without the spaces before it.  Either is empty when there is no such place. *)
Definition param_name (l : text) : text :=
  match after_first "<" l with
  | Some t => match around_last "," t with Some (name, _) => name | None => [] end
  | None => []
  end.

Definition param_value (l : text) : text :=
  match after_first "<" l with
  | Some t =>
      match around_last ">" t with
      | Some (u, _) => match around_last "," u with Some (_, w) => skip_white w | None => [] end
      | None => []
      end
  | None => []
  end.

(** A period matches no carriage return. *)
Definition no_return (l : text) : bool := forallb is_any l.

Definition is_whole (l : text) : bool := starts (to_text "/*") l && ends (to_text "*/") l && (4 <=? length l).
Definition is_single (l : text) : bool := starts (to_text "//") l && no_return l.
Definition is_closing (l : text) : bool := ends (to_text "*/") l && no_return l.
Definition is_opening (l : text) : bool := starts (to_text "/*") l && no_return l.
Definition is_blank (l : text) : bool := forallb is_space l.
Definition is_param (l : text) : bool := starts (to_text "param") l && no_return l.

(** A line, inside a block of comment or not. *)
Definition text_line '(inside, m) (l : text) : outcome (bool * ordmap string Z) :=
  if is_whole l || is_single l then Ret (inside, m)
  else if is_closing l then Ret (false, m)
  else if is_opening l then Ret (true, m)
  else if inside || is_blank l then Ret (inside, m)
  else if is_param l then
    v ← stoi (of_text (param_value l)); Ret (false, mset (of_text (param_name l)) (u32 v) m)
  else Raise AssertFailed.

Definition read_text (content : text) (m : ordmap string Z) : outcome (ordmap string Z) :=
  '(_, m) ← foldM text_line (false, m) (getlines content); Ret m.

(** ** What a file says *)

(** A parameter is [param<name,value>] and what follows it; [pad] are the spaces
    before the value.  A block of comment has a first line, lines between and a
    last line.  [Lost] is a line that ends a comment when none is open: a
    parameter with a comment after it is one.  [Unset] is a line that starts as a
    parameter and has no value. *)
Inductive item :=
  | Blank (s : text)
  | LineComment (s : text)
  | WholeComment (s : text)
  | BlockComment (first : text) (middle : list text) (last : text)
  | Param (name pad value trail : text)
  | Lost (s : text)
  | Unset (s : text)
  | Junk (s : text).

Definition param_text (name pad value trail : text) : text :=
  to_text "param<" ++ name ++ to_text "," ++ pad ++ value ++ to_text ">" ++ trail.

Definition item_lines (i : item) : list text :=
  match i with
  | Blank s => [s]
  | LineComment s => [to_text "//" ++ s]
  | WholeComment s => [to_text "/*" ++ s ++ to_text "*/"]
  | BlockComment first middle last => (to_text "/*" ++ first) :: middle ++ [last ++ to_text "*/"]
  | Param name pad value trail => [param_text name pad value trail]
  | Lost s => [s ++ to_text "*/"]
  | Unset s => [to_text "param" ++ s]
  | Junk s => [s]
  end.

Definition print_items (file : list item) : text := print_lines (file ≫= item_lines).

Definition all_any (s : text) : Prop := Forall (λ c, is_any c = true) s.
Definition all_space (s : text) : Prop := Forall (λ c, is_space c = true) s.
Definition one_line (s : text) : Prop := newline ∉ s.

(** The items that are what they look like.  The last line of a block must not
    look like a comment of its own. *)
Definition item_ok (i : item) : Prop :=
  match i with
  | Blank s => one_line s ∧ is_blank s = true
  | LineComment s => all_any s
  | WholeComment s => one_line s
  | BlockComment first middle last =>
      all_any first ∧ ends (to_text "*/") (to_text "/*" ++ first) = false ∧
      Forall (λ s, one_line s ∧ ends (to_text "*/") s = false) middle ∧
      all_any last ∧ starts (to_text "/*") last = false ∧ starts (to_text "//") last = false
  | Param name pad value trail =>
      all_any name ∧ all_any pad ∧ all_space pad ∧ all_any value ∧ ","%char ∉ value ∧
      match value with c :: _ => is_space c = false | [] => True end ∧
      all_any trail ∧ ","%char ∉ trail ∧ ">"%char ∉ trail ∧ ends (to_text "*/") trail = false
  | Lost s => all_any s ∧ starts (to_text "/*") s = false ∧ starts (to_text "//") s = false
  | Unset s => all_any s ∧ ends (to_text "*/") (to_text "param" ++ s) = false ∧ param_value (to_text "param" ++ s) = []
  | Junk s =>
      one_line s ∧ is_whole s = false ∧ is_single s = false ∧ is_closing s = false ∧ is_opening s = false ∧
      is_blank s = false ∧ is_param s = false
  end.

Definition item_effect (m : ordmap string Z) (i : item) : outcome (ordmap string Z) :=
  match i with
  | Param name _ value _ => v ← stoi (of_text value); Ret (mset (of_text name) (u32 v) m)
  | Unset _ => Raise Uncaught
  | Junk _ => Raise AssertFailed
  | _ => Ret m
  end.

(** ** Lines of a printed file *)

Lemma getlines_app s t : one_line s → getlines (s ++ newline :: t) = s :: getlines t.
Proof.
  intros Hs. induction s as [|c s IH]; [done|]. unfold one_line in *. apply not_elem_of_cons in Hs as [Hc Hs].
  cbn [app getlines]. rewrite (proj2 (Ascii.eqb_neq c newline)) by congruence. by rewrite IH.
Qed.

Lemma getlines_print l : Forall one_line l → getlines (print_lines l) = l.
Proof.
  induction 1 as [|s l Hs _ IH]; [done|]. unfold print_lines in *. cbn [mbind list_bind]. rewrite <- app_assoc. cbn [app].
  rewrite getlines_app by done. by rewrite IH.
Qed.

Lemma any_one_line s : all_any s → one_line s.
Proof. intros Hs Hn. unfold all_any in Hs. rewrite Forall_forall in Hs. by apply Hs in Hn. Qed.

Lemma one_line_app s t : one_line s → one_line t → one_line (s ++ t).
Proof. unfold one_line. set_solver. Qed.

(** ** What the expressions recognise *)

Lemma lit_any_iff x l : regex_match (Bol · (Lit x · Star true Any) · Eol) l = true ↔ ∃ t, l = to_text x ++ t ∧ all_any t.
Proof.
  rewrite regex_match_line, matches_cat by (cbn; unfold Lit; by induction (to_text x)). split.
  - intros (t & u & -> & ->%matches_lit & Hu%matches_star). by exists u.
  - intros (t & -> & Ht). exists (to_text x), t. split_and!; [done|by apply matches_lit|by apply matches_star].
Qed.

Lemma single_iff l : regex_match reg_single_comment l = true ↔ ∃ t, l = to_text "//" ++ t ∧ all_any t.
Proof. apply lit_any_iff. Qed.

Lemma start_iff l : regex_match reg_start_comment l = true ↔ ∃ t, l = to_text "/*" ++ t ∧ all_any t.
Proof. apply lit_any_iff. Qed.

Lemma param_iff l : regex_match reg_param_start l = true ↔ ∃ t, l = to_text "param" ++ t ∧ all_any t.
Proof. apply lit_any_iff. Qed.

Lemma end_iff l : regex_match reg_end_comment l = true ↔ ∃ t, l = t ++ to_text "*/" ∧ all_any t.
Proof.
  unfold reg_end_comment. rewrite regex_match_line, matches_cat by done. split.
  - intros (t & u & -> & Ht%matches_star & ->%matches_lit). by exists t.
  - intros (t & -> & Ht). exists t, (to_text "*/"). split_and!; [done|by apply matches_star|by apply matches_lit].
Qed.

Lemma empty_iff l : regex_match reg_empty_line l = true ↔ all_space l.
Proof. unfold reg_empty_line. rewrite regex_match_line by done. apply matches_star. Qed.

Lemma any_or_newline c : is_any c = false → Ascii.eqb c newline || Ascii.eqb c "013" = true.
Proof. destruct c as [[] [] [] [] [] [] [] []]; done. Qed.

Lemma whole_iff l : regex_match reg_whole_comment l = true ↔ ∃ t, l = to_text "/*" ++ t ++ to_text "*/".
Proof.
  unfold reg_whole_comment. rewrite regex_match_plain, !matches_cat by done. split.
  - intros (t & u & -> & (a & b & -> & ->%matches_lit & _)%matches_cat & ->%matches_lit). exists b. by rewrite <- app_assoc.
  - intros (t & ->). exists (to_text "/*" ++ t), (to_text "*/"). split; [by rewrite <- app_assoc|]. split; [|by apply matches_lit].
    apply matches_cat. exists (to_text "/*"), t. split; [done|]. split; [by apply matches_lit|].
    induction t as [|c t IH]; [constructor|]. apply (m_star_app _ _ [c]); [|done].
    destruct (is_any c) eqn:Ec; [by apply m_alt_l; constructor|]. apply m_alt_r. constructor. by apply any_or_newline.
Qed.

(** ** The functions recognise the same lines *)

Lemma no_return_iff l : no_return l = true ↔ all_any l.
Proof. unfold no_return, all_any. rewrite forallb_forall, Forall_forall. by setoid_rewrite list_elem_of_In. Qed.

Lemma starts_iff p l : starts p l = true ↔ ∃ t, l = p ++ t.
Proof.
  revert l. induction p as [|c p IH]; intros l; cbn [starts app]; [naive_solver|].
  destruct l as [|d l]; [naive_solver|]. rewrite andb_true_iff, Ascii.eqb_eq, IH. naive_solver.
Qed.

Lemma ends_iff p l : ends p l = true ↔ ∃ t, l = t ++ p.
Proof. unfold ends. by rewrite bool_decide_eq_true. Qed.

Lemma ends_false p l : ends p l = false ↔ ¬ ∃ t, l = t ++ p.
Proof. by rewrite <- not_true_iff_false, ends_iff. Qed.

Lemma starts_any x l : no_return (to_text x) = true →
  starts (to_text x) l && no_return l = true ↔ ∃ t, l = to_text x ++ t ∧ all_any t.
Proof.
  intros Hx%no_return_iff. rewrite andb_true_iff, starts_iff, no_return_iff. unfold all_any in *. split.
  - intros [(t & ->) [_ Ht]%Forall_app]. by exists t.
  - intros (t & -> & Ht). split; [by exists t|]. by apply Forall_app.
Qed.

Lemma whole_same l : regex_match reg_whole_comment l = is_whole l.
Proof.
  apply eq_true_iff_eq. rewrite whole_iff. unfold is_whole. rewrite !andb_true_iff, starts_iff, ends_iff, Nat.leb_le. split.
  - intros (t & ->). split_and!; [by eexists|exists (to_text "/*" ++ t); by rewrite app_assoc|rewrite !length_app; cbn; lia].
  - intros [[(t & ->) (u & E)] Hl]. assert (E2 := f_equal reverse E). rewrite !reverse_app in E2. cbn in E2.
    destruct t as [|d t _] using rev_ind; [cbn in Hl; lia|]. rewrite reverse_app in E2. cbn in E2. injection E2 as -> E2.
    destruct t as [|d t _] using rev_ind; [cbn in Hl; lia|]. rewrite reverse_app in E2. cbn in E2. injection E2 as -> _.
    exists t. by rewrite <- app_assoc.
Qed.

Lemma single_same l : regex_match reg_single_comment l = is_single l.
Proof. apply eq_true_iff_eq. by rewrite single_iff, <- starts_any. Qed.

Lemma opening_same l : regex_match reg_start_comment l = is_opening l.
Proof. apply eq_true_iff_eq. by rewrite start_iff, <- starts_any. Qed.

Lemma param_same l : regex_match reg_param_start l = is_param l.
Proof. apply eq_true_iff_eq. by rewrite param_iff, <- starts_any. Qed.

Lemma closing_same l : regex_match reg_end_comment l = is_closing l.
Proof.
  apply eq_true_iff_eq. rewrite end_iff. unfold is_closing. rewrite andb_true_iff, ends_iff, no_return_iff. unfold all_any. split.
  - intros (t & -> & Ht). split; [by exists t|]. apply Forall_app. split; [done|]. by repeat constructor.
  - intros [(t & ->) [Ht _]%Forall_app]. by exists t.
Qed.

Lemma blank_iff l : is_blank l = true ↔ all_space l.
Proof. unfold is_blank, all_space. rewrite forallb_forall, Forall_forall. by setoid_rewrite list_elem_of_In. Qed.

Lemma blank_same l : regex_match reg_empty_line l = is_blank l.
Proof. apply eq_true_iff_eq. by rewrite empty_iff, blank_iff. Qed.

(** ** Captures *)

(** A greedy star goes to the last place from which the search goes on. *)
Lemma greedy_to k f p t u x :
  rest p = t ++ u → Forall (λ c, f c = true) t →
  (∀ q a, u = a ++ rest q → a ≠ [] → k q = None) → k (mkPlace (pos p + length t) u (caps p)) = Some x →
  run (Star true (Chr f)) k p = Some x.
Proof.
  intros Ep Ht Hk Hx. rewrite run_greedy. apply (last_ok_Some _ _ (length t)).
  - rewrite Ep, span_app by done. lia.
  - by rewrite (eat_app _ _ t u).
  - intros i Hi. rewrite Ep, span_app in Hi by done. apply (Hk _ (take (i - length t) u)).
    + cbn. rewrite Ep, drop_app_ge by lia. by rewrite take_drop.
    + pose proof (span_le f u). intros E%(f_equal length). rewrite length_take in E. cbn in E. lia.
Qed.

(** To the last place where the next character can follow. *)
Lemma greedy_to_last f c k p t u x :
  rest p = t ++ c :: u → Forall (λ c, f c = true) t → c ∉ u →
  (∀ q, head (rest q) ≠ Some c → k q = None) → k (mkPlace (pos p + length t) (c :: u) (caps p)) = Some x →
  run (Star true (Chr f)) k p = Some x.
Proof.
  intros Ep Ht Hc Hk Hx. eapply greedy_to; [done|done| |done]. intros q a Ea Hne. apply Hk. intros Hh.
  destruct a as [|d a]; [done|]. injection Ea as -> ->. destruct (rest q) as [|e r]; [done|]. injection Hh as ->. set_solver.
Qed.

(** A lazy star goes to the first one. *)
Lemma lazy_to_first f c k p t u x :
  rest p = t ++ c :: u → Forall (λ c, f c = true) t → c ∉ t →
  (∀ q, head (rest q) ≠ Some c → k q = None) → k (mkPlace (pos p + length t) (c :: u) (caps p)) = Some x →
  run (Star false (Chr f)) k p = Some x.
Proof.
  intros Ep Ht Hc Hk Hx. apply (run_lazy_Some f _ (length t)).
  - rewrite Ep, span_app by done. lia.
  - by rewrite (eat_app _ _ t (c :: u)).
  - intros i Hi. apply Hk. cbn. rewrite Ep. by apply not_elem_head.
Qed.

(** A greedy star over a class the rest does not go on with. *)
Lemma greedy_stop f k p t u x :
  rest p = t ++ u → Forall (λ c, f c = true) t → match u with c :: _ => f c = false | [] => True end →
  k (mkPlace (pos p + length t) u (caps p)) = Some x → run (Star true (Chr f)) k p = Some x.
Proof.
  intros Ep Ht Hu Hx. rewrite run_greedy. apply (last_ok_Some _ _ (length t)).
  - rewrite Ep, span_app by done. lia.
  - by rewrite (eat_app _ _ t u).
  - intros i Hi. exfalso. rewrite Ep, span_app in Hi by done. destruct u; cbn in Hi; [lia|]. rewrite Hu in Hi. lia.
Qed.

Lemma char_step c k n u l : run (Char c) k (mkPlace n (c :: u) l) = k (mkPlace (n + 1) u l).
Proof. rewrite (run_char_Some c _ _ u) by done. by rewrite (eat_app 1 _ [c] u). Qed.

Lemma not_elem_text c (s t : text) : c ∉ s → c ∉ t → c ∉ s ++ t.
Proof. set_solver. Qed.

(** ** Where the captures are *)

Lemma after_first_Some c l t : after_first c l = Some t ↔ ∃ a, l = a ++ c :: t ∧ c ∉ a.
Proof.
  induction l as [|d l IH]; cbn [after_first]; [split; [done|by intros ([] & ? & _)]|].
  destruct (Ascii.eqb_spec d c) as [->|Hne].
  - split; [intros [= ->]; exists []; split; [done|apply not_elem_of_nil]|]. intros ([|e a] & E & Hc); [by injection E as ->|].
    injection E as -> _. set_solver.
  - rewrite IH. split.
    + intros (a & -> & Hc). exists (d :: a). split; [done|set_solver].
    + intros ([|e a] & E & Hc); injection E as -> E; [done|]. exists a. split; [done|set_solver].
Qed.

Lemma after_first_None c l : after_first c l = None → c ∉ l.
Proof.
  induction l as [|d l IH]; cbn [after_first]; [intros _; apply not_elem_of_nil|].
  destruct (Ascii.eqb_spec d c); [done|]. intros ?%IH. set_solver.
Qed.

Lemma around_last_None c l : around_last c l = None → c ∉ l.
Proof.
  induction l as [|d l IH]; cbn [around_last]; [intros _; apply not_elem_of_nil|].
  destruct (around_last c l) as [[a b]|]; [done|]. destruct (Ascii.eqb_spec d c); [done|]. intros _. specialize (IH eq_refl). set_solver.
Qed.

Lemma around_last_Some c l a b : around_last c l = Some (a, b) → l = a ++ c :: b ∧ c ∉ b.
Proof.
  revert a. induction l as [|d l IH]; intros a; cbn [around_last]; [done|].
  destruct (around_last c l) as [[a' b']|] eqn:E.
  - intros [= <- <-]. destruct (IH a' eq_refl) as [-> ?]. done.
  - destruct (Ascii.eqb_spec d c) as [->|]; [|done]. intros [= <- <-]. split; [done|by apply around_last_None].
Qed.

Lemma around_last_app c a b : c ∉ b → around_last c (a ++ c :: b) = Some (a, b).
Proof.
  intros Hb. induction a as [|d a IH]; cbn [app around_last]; [|by rewrite IH].
  destruct (around_last c b) as [[x y]|] eqn:E; [|by rewrite Ascii.eqb_refl].
  apply around_last_Some in E as [-> _]. set_solver.
Qed.

Lemma skip_white_spec l : ∃ sp, l = sp ++ skip_white l ∧ all_space sp ∧
  match skip_white l with c :: _ => is_space c = false | [] => True end.
Proof.
  induction l as [|c l (sp & E & Hs & Hn)]; cbn [skip_white].
  { exists []. split; [done|]. split; [constructor|done]. }
  destruct (is_space c) eqn:Ec.
  - exists (c :: sp). split; [by rewrite E at 1|]. split; [by constructor|done].
  - exists []. split; [done|]. split; [constructor|done].
Qed.

Lemma skip_white_app sp l :
  all_space sp → match l with c :: _ => is_space c = false | [] => True end → skip_white (sp ++ l) = l.
Proof.
  intros Hs Hl. induction Hs as [|c sp Hc _ IH]; cbn [app skip_white]; [|by rewrite Hc].
  destruct l as [|c l]; cbn; [done|]. by rewrite Hl.
Qed.

(** A [c] that a [d] follows comes before the last [d]. *)
Lemma before_last (c d : ascii) (u b x y : text) : u ++ d :: b = x ++ c :: y → d ∉ b → d ∈ y → c ∈ u.
Proof.
  revert x. induction u as [|e u IH]; intros [|e' x] E Hb Hy.
  - injection E as _ ->. done.
  - injection E as _ ->. set_solver.
  - injection E as -> _. left.
  - injection E as _ E. right. by eapply IH.
Qed.

Lemma first_suffix (c : ascii) (a t x z : text) : a ++ c :: t = x ++ c :: z → c ∉ a → ∃ w, t = w ++ z.
Proof.
  revert x. induction a as [|e a IH]; intros [|e' x] E Ha.
  - injection E as ->. by exists [].
  - injection E as _ ->. exists (x ++ [c]). by rewrite <- app_assoc.
  - injection E as -> _. set_solver.
  - injection E as _ E. apply (IH x); [done|set_solver].
Qed.

(** What a successful search says of the line. *)
Lemma name_found l x : run reg_capture_param Some (mkPlace 0 l []) = Some x →
  ∃ a b r, l = a ++ "<"%char :: b ++ ","%char :: r.
Proof.
  intros (q & (s & Hs & E & _) & _)%run_sound. cbn [rest] in E. unfold reg_capture_param in Hs.
  apply matches_cat in Hs as (s1 & s2 & -> & Hs & ->%matches_char).
  apply matches_cat in Hs as (s3 & b & -> & Hs & _).
  apply matches_cat in Hs as (a & s4 & -> & _ & ->%matches_char).
  exists a, b, (rest q). rewrite E. by rewrite <- !app_assoc.
Qed.

Lemma value_tail_found k q x :
  run (Char ",") (run (Star true White) (run (Group 1 (Star true Any)) (run (Char ">") k))) q = Some x →
  ∃ r, rest q = ","%char :: r ∧ ">"%char ∈ r.
Proof.
  intros H. destruct (run_char_inv _ _ _ _ H) as [r Er]. exists r. split; [done|].
  rewrite (run_char_Some _ _ _ _ Er) in H. apply run_sound in H as (q1 & (t1 & _ & E1 & _) & H).
  apply run_sound in H as (q2 & (t2 & _ & E2 & _) & H). destruct (run_char_inv _ _ _ _ H) as [r' Er'].
  rewrite (rest_eat_1 _ _ _ Er), E2, Er' in E1. rewrite E1. set_solver.
Qed.

Lemma value_found l x : run reg_capture_value Some (mkPlace 0 l []) = Some x →
  ∃ a b r, l = a ++ "<"%char :: b ++ ","%char :: r ∧ ">"%char ∈ r.
Proof.
  unfold reg_capture_value. rewrite !run_cat, run_bol. intros (q1 & (a & _ & E1 & _) & H)%run_sound.
  destruct (run_char_inv _ _ _ _ H) as [r Er]. rewrite (run_char_Some _ _ _ _ Er) in H.
  apply run_sound in H as (q2 & (b & _ & E2 & _) & H). apply value_tail_found in H as (r' & Er' & Hr').
  rewrite (rest_eat_1 _ _ _ Er), Er' in E2. exists a, b, r'. split; [|done]. cbn [rest] in E1. by rewrite E1, Er, E2.
Qed.

Lemma capture_name l : all_any l → sub_match 1 (regex_search reg_capture_param l) = param_name l.
Proof.
  intros Hl. rewrite search_anchored by (unfold reg_capture_param; auto 8). unfold param_name.
  destruct (after_first "<" l) as [t|] eqn:Ef.
  2: { apply after_first_None in Ef. destruct (run _ _ _) as [x|] eqn:Ex; [|done].
       apply name_found in Ex as (a & b & r & ->). set_solver. }
  apply after_first_Some in Ef as (a & -> & Ha). destruct (around_last "," t) as [[name b]|] eqn:El.
  2: { apply around_last_None in El. destruct (run _ _ _) as [x|] eqn:Ex; [|done].
       apply name_found in Ex as (a' & b & r & E). apply first_suffix in E as (w & ->); [set_solver|done]. }
  apply around_last_Some in El as [-> Hb]. apply Forall_app in Hl as [Hla [_ [Hln _]%Forall_app]%Forall_cons].
  assert (∃ x, run reg_capture_param Some (mkPlace 0 (a ++ "<"%char :: name ++ ","%char :: b) []) = Some x ∧
    caps x = [(1, name)]) as (x & -> & Hx); [|cbn; by rewrite Hx].
  unfold reg_capture_param. rewrite !run_cat, run_bol. eexists. split.
  - apply (lazy_to_first is_any "<" _ _ a (name ++ ","%char :: b)); [done..| |].
    { intros q Hq. by apply run_char_None. }
    cbn [pos caps]. rewrite char_step, run_group.
    apply (greedy_to_last is_any "," _ _ name b); [done..| |].
    { intros q Hq. by apply run_char_None. }
    cbn [pos caps]. rewrite (capture_app 1 _ _ name) by done. cbn [pos rest caps]. by rewrite char_step.
  - done.
Qed.

(** The place of the value, once there is one. *)
Lemma capture_value_at a b sp v c :
  all_any a → all_any b → all_any v → "<"%char ∉ a → ","%char ∉ sp ++ v → all_space sp → ">"%char ∉ c →
  match v with d :: _ => is_space d = false | [] => True end →
  ∃ x, run reg_capture_value Some (mkPlace 0 (a ++ "<"%char :: b ++ ","%char :: sp ++ v ++ ">"%char :: c) []) = Some x ∧
    caps x = [(1, v)].
Proof.
  intros Hla Hlb Hlv Ha Hc Hs Hgt Hv. unfold reg_capture_value. rewrite !run_cat, run_bol. eexists. split.
  - apply (lazy_to_first is_any "<" _ _ a (b ++ ","%char :: sp ++ v ++ ">"%char :: c)); [done..| |].
    { intros q Hq. by apply run_char_None. }
    cbn [pos caps]. rewrite char_step.
    apply (greedy_to _ is_any _ b (","%char :: sp ++ v ++ ">"%char :: c)); [done|done| |].
    { intros q w Ew Hw. destruct (run _ _ q) as [y|] eqn:Ey; [exfalso|done].
      apply value_tail_found in Ey as (r & Er & Hr). rewrite Er in Ew. destruct w as [|d w]; [done|].
      injection Ew as _ Ew. rewrite app_assoc in Ew. apply Hc. exact (before_last _ _ _ _ _ _ Ew Hgt Hr). }
    cbn [pos caps]. rewrite char_step.
    apply (greedy_stop is_space _ _ sp (v ++ ">"%char :: c)); [done|done|by destruct v|].
    cbn [pos caps]. rewrite run_group.
    apply (greedy_to_last is_any ">" _ _ v c); [done..| |].
    { intros q Hq. by apply run_char_None. }
    cbn [pos caps]. rewrite (capture_app 1 _ _ v) by done. cbn [pos rest caps]. by rewrite char_step.
  - done.
Qed.

Lemma capture_value l : all_any l → sub_match 1 (regex_search reg_capture_value l) = param_value l.
Proof.
  intros Hl. rewrite search_anchored by (unfold reg_capture_value; auto 12). unfold param_value.
  destruct (after_first "<" l) as [t|] eqn:Ef.
  2: { apply after_first_None in Ef. destruct (run _ _ _) as [x|] eqn:Ex; [|done].
       apply value_found in Ex as (a & b & r & -> & _). set_solver. }
  apply after_first_Some in Ef as (a & -> & Ha). destruct (around_last ">" t) as [[u c]|] eqn:El.
  2: { apply around_last_None in El. destruct (run _ _ _) as [x|] eqn:Ex; [|done].
       apply value_found in Ex as (a' & b & r & E & Hr). apply first_suffix in E as (w & ->); [set_solver|done]. }
  apply around_last_Some in El as [-> Hc]. destruct (around_last "," u) as [[b w]|] eqn:El.
  2: { apply around_last_None in El. destruct (run _ _ _) as [x|] eqn:Ex; [|done].
       apply value_found in Ex as (a' & b & r & E & Hr). apply first_suffix in E as (w & E); [|done].
       rewrite app_assoc in E. destruct (El (before_last _ _ _ _ _ _ E Hc Hr)). }
  apply around_last_Some in El as [-> Hw]. destruct (skip_white_spec w) as (sp & Ew & Hs & Hv).
  set (v := skip_white w) in *. clearbody v. subst w.
  apply Forall_app in Hl as [Hla [_ [[Hlb [_ [_ Hlv]%Forall_app]%Forall_cons]%Forall_app _]%Forall_app]%Forall_cons].
  destruct (capture_value_at a b sp v c) as (x & Ex & Hx); [done..|].
  rewrite <- !app_assoc. cbn [app]. rewrite <- !app_assoc. rewrite Ex. cbn. by rewrite Hx.
Qed.

Lemma line_same st l : param_line st l = text_line st l.
Proof.
  destruct st as [inside m]. unfold param_line, text_line.
  rewrite whole_same, single_same, closing_same, opening_same, blank_same, param_same.
  destruct (is_whole l), (is_single l), (is_closing l), (is_opening l), inside, (is_blank l); try done; cbn [orb].
  destruct (is_param l) eqn:Ep; [|done]. cbn [assertb mbind outcome_bind].
  apply andb_true_iff in Ep as [_ Hl%no_return_iff]. by rewrite capture_name, capture_value.
Qed.

Lemma readParam_same content m : readParam content m = read_text content m.
Proof.
  unfold readParam, read_text. f_equal. generalize (getlines content) as ls. intros ls. generalize false as b. revert m.
  induction ls as [|l ls IH]; intros m b; [done|]. cbn [foldM]. rewrite line_same.
  destruct (text_line (b, m) l) as [[b' m']|e]; [apply IH|done].
Qed.

(** ** A whole file *)

(** A line that ends a comment, whatever came before. *)
Lemma closing_line s st :
  all_any s → starts (to_text "/*") s = false → starts (to_text "//") s = false →
  text_line st (s ++ to_text "*/") = Ret (false, st.2).
Proof.
  intros Hs H1 H2. assert (Hc : is_closing (s ++ to_text "*/") = true) by (rewrite <- closing_same; apply end_iff; by exists s).
  assert (Hw : is_whole (s ++ to_text "*/") || is_single (s ++ to_text "*/") = false).
  { destruct s as [|c [|d s]]; [done|unfold is_whole, is_single; cbn; by rewrite !andb_false_r|]. cbn in H1, H2. unfold is_whole, is_single.
    cbn. by rewrite H1, H2. }
  destruct st as [inside m]. unfold text_line. by rewrite Hw, Hc.
Qed.

(** A line inside a block of comment. *)
Lemma inside_line m l : ends (to_text "*/") l = false → text_line (true, m) l = Ret (true, m).
Proof.
  intros Hl. unfold text_line, is_whole, is_closing. rewrite Hl, andb_false_r. cbn [andb orb].
  by destruct (is_single l), (is_opening l).
Qed.

Lemma block_read m first middle last :
  item_ok (BlockComment first middle last) →
  foldM text_line (false, m) (item_lines (BlockComment first middle last)) = Ret (false, m).
Proof.
  intros (Hf & Hcf & Hm & Hl & H1 & H2). cbn [item_lines foldM].
  assert (E : text_line (false, m) (to_text "/*" ++ first) = Ret (true, m)).
  { assert (Ho : is_opening (to_text "/*" ++ first) = true) by (rewrite <- opening_same; apply start_iff; by exists first).
    unfold text_line. rewrite Ho. unfold is_whole, is_closing, is_single. by rewrite Hcf, andb_false_r. }
  rewrite E. cbn [mbind outcome_bind]. rewrite foldM_app.
  assert (Em : foldM text_line (true, m) middle = Ret (true, m)).
  { clear -Hm. induction Hm as [|s l [_ Hs] _ IH]; [done|]. cbn [foldM]. by rewrite inside_line. }
  rewrite Em. cbn [mbind outcome_bind foldM]. by rewrite closing_line.
Qed.

(** A line that starts as a parameter. *)
Lemma set_line m s : all_any s → ends (to_text "*/") (to_text "param" ++ s) = false →
  text_line (false, m) (to_text "param" ++ s) =
    (v ← stoi (of_text (param_value (to_text "param" ++ s)));
     Ret (false, mset (of_text (param_name (to_text "param" ++ s))) (u32 v) m)).
Proof.
  intros Hs He. assert (Hp : is_param (to_text "param" ++ s) = true) by (rewrite <- param_same; apply param_iff; by exists s).
  unfold text_line, is_whole, is_closing. by rewrite He, Hp.
Qed.

Lemma param_text_captures name pad value trail :
  item_ok (Param name pad value trail) →
  param_name (param_text name pad value trail) = name ∧ param_value (param_text name pad value trail) = value.
Proof.
  intros (_ & _ & Hs & _ & Hc & Hv & _ & Hc' & Hg & _).
  assert (Hsc : ","%char ∉ pad) by (intros Hin; unfold all_space in Hs; rewrite Forall_forall in Hs; by apply Hs in Hin).
  unfold param_name, param_value.
  replace (after_first "<" (param_text name pad value trail)) with (Some (name ++ ","%char :: pad ++ value ++ ">"%char :: trail)) by done.
  rewrite around_last_app by (repeat apply not_elem_text; [done..|set_solver]). split; [done|].
  replace (name ++ ","%char :: pad ++ value ++ ">"%char :: trail) with ((name ++ ","%char :: pad ++ value) ++ ">"%char :: trail)
    by (rewrite <- !app_assoc; cbn [app]; by rewrite <- !app_assoc).
  rewrite around_last_app by done. rewrite around_last_app by (by apply not_elem_text). by apply skip_white_app.
Qed.

Lemma ends_after c a trail : c ≠ "*"%char → c ≠ "/"%char → ends (to_text "*/") trail = false →
  ends (to_text "*/") (a ++ c :: trail) = false.
Proof.
  intros Hc1 Hc2. rewrite !ends_false. intros Hn (t & E). apply Hn. revert E.
  change (to_text "*/") with (["*"%char] ++ ["/"%char]). rewrite !app_assoc.
  destruct trail as [|d s _] using rev_ind; [intros [_ E]%app_inj_tail; destruct (Hc2 E)|].
  rewrite app_comm_cons, app_assoc. intros [E ->]%app_inj_tail.
  destruct s as [|e s _] using rev_ind; [apply app_inj_tail in E as [_ E]; destruct (Hc1 E)|].
  revert E. rewrite app_comm_cons, app_assoc. intros [_ ->]%app_inj_tail. exists s. by rewrite <- app_assoc.
Qed.

Lemma space_ends s : all_space s → ends (to_text "*/") s = false.
Proof. rewrite ends_false. intros Hs (t & ->). apply Forall_app in Hs as [_ Hs]. by inversion Hs. Qed.

Lemma starts_head c p l : head l ≠ Some c → starts (c :: p) l = false.
Proof. destruct l as [|d l]; [done|]. cbn. intros Hd. by destruct (Ascii.eqb_spec c d) as [->|]. Qed.

Lemma item_read m i : item_ok i →
  foldM text_line (false, m) (item_lines i) = (m' ← item_effect m i; Ret (false, m')).
Proof.
  destruct i as [s|s|s|first middle last|name pad value trail|s|s|s]; intros Hi; [| | |by rewrite block_read| | | |];
    cbn [item_lines foldM item_effect mbind outcome_bind].
  - destruct Hi as [_ Hs]. unfold text_line, is_whole, is_closing. rewrite Hs.
    rewrite (space_ends s (proj1 (blank_iff s) Hs)), andb_false_r. cbn [andb orb].
    destruct (is_single s); [done|]. unfold is_opening. change (to_text "/*") with ("/"%char :: ["*"%char]). rewrite starts_head; [done|].
    apply blank_iff in Hs as [|c t Hc _]; [done|]. intros [= ->]. done.
  - assert (Hs : is_single (to_text "//" ++ s) = true) by (rewrite <- single_same; apply single_iff; by exists s).
    unfold text_line. by rewrite Hs, orb_true_r.
  - assert (Hs : is_whole (to_text "/*" ++ s ++ to_text "*/") = true) by (rewrite <- whole_same; apply whole_iff; by exists s).
    unfold text_line. by rewrite Hs.
  - destruct (param_text_captures _ _ _ _ Hi) as [En Ev]. destruct Hi as (H1 & H2 & _ & H4 & _ & _ & H7 & _ & _ & H10).
    set (s := to_text "<" ++ name ++ to_text "," ++ pad ++ value ++ to_text ">" ++ trail).
    change (param_text name pad value trail) with (to_text "param" ++ s) in *.
    rewrite set_line, En, Ev; [by destruct (stoi _)| |].
    + unfold all_any, s in *. repeat (apply Forall_app; split; try done); by repeat constructor.
    + replace (to_text "param" ++ s) with ((to_text "param<" ++ name ++ to_text "," ++ pad ++ value) ++ ">"%char :: trail)
        by (unfold s; cbn; rewrite <- !app_assoc; cbn; by rewrite <- !app_assoc).
      by apply ends_after.
  - destruct Hi as (H1 & H2 & H3). by rewrite closing_line.
  - destruct Hi as (H1 & H2 & H3). rewrite set_line by done. by rewrite H3.
  - destruct Hi as (_ & H1 & H2 & H3 & H4 & H5 & H6). unfold text_line. by rewrite H1, H2, H3, H4, H5, H6.
Qed.

Lemma item_one_line i : item_ok i → Forall one_line (item_lines i).
Proof.
  destruct i as [s|s|s|first middle last|name pad value trail|s|s|s]; cbn [item_lines item_ok]; intros Hi.
  - apply Forall_singleton. by destruct Hi.
  - apply Forall_singleton. apply one_line_app; [unfold one_line; set_solver|by apply any_one_line].
  - apply Forall_singleton. repeat apply one_line_app; [unfold one_line; set_solver|done|unfold one_line; set_solver].
  - destruct Hi as (H1 & _ & H2 & H3 & _). constructor; [apply one_line_app; [unfold one_line; set_solver|by apply any_one_line]|].
    apply Forall_app. split; [eapply Forall_impl; [exact H2|naive_solver]|].
    apply Forall_singleton. apply one_line_app; [by apply any_one_line|unfold one_line; set_solver].
  - destruct Hi as (H1 & H2 & _ & H3 & _ & _ & H4 & _). apply Forall_singleton. unfold param_text.
    repeat apply one_line_app; try (by apply any_one_line); unfold one_line; set_solver.
  - destruct Hi as (H1 & _). apply Forall_singleton. apply one_line_app; [by apply any_one_line|unfold one_line; set_solver].
  - destruct Hi as (H1 & _). apply Forall_singleton. apply one_line_app; [unfold one_line; set_solver|by apply any_one_line].
  - apply Forall_singleton. by destruct Hi.
Qed.

Lemma params_read file : ∀ m, Forall item_ok file →
  foldM text_line (false, m) (file ≫= item_lines) = (m' ← foldM item_effect m file; Ret (false, m')).
Proof.
  induction file as [|i file IH]; intros m Hf; [done|]. apply Forall_cons in Hf as [Hi Hf].
  cbn [mbind list_bind foldM]. rewrite foldM_app, item_read by done.
  destruct (item_effect m i) as [m'|e]; cbn [mbind outcome_bind]; [|done]. by apply IH.
Qed.

(** [C39] Any text is read as the functions on its characters say, failures
    included.  And a file of items is read as what it says: blank lines, comments
    of a line, and blocks whose last line does not itself look like a comment are
    skipped; each parameter is set to the number in its value, later ones
    replacing earlier ones; the first value that is not an [int], or is missing,
    ends the reading with an exception, and the first line of no form with a
    failing assertion.  A line that ends with [*/] without being a comment is
    skipped too, so a parameter with a comment after it is lost. *)
Theorem param_file_read content file m :
  readParam content m = read_text content m ∧
  (Forall item_ok file → readParam (print_items file) m = foldM item_effect m file).
Proof.
  split; [apply readParam_same|]. intros Hf. rewrite readParam_same. unfold read_text, print_items. rewrite getlines_print.
  - rewrite params_read by done. by destruct (foldM item_effect m file).
  - apply Forall_bind. eapply Forall_impl; [exact Hf|]. apply item_one_line.
Qed.

(** ** Concrete files *)

Definition example_items : list item :=
  [BlockComment (to_text " parameters") [to_text " of the graph"] []; Blank [];
   Param (to_text "MERGE") (to_text "   ") (to_text "0") (to_text " "); LineComment (to_text "two lines");
   Lost (to_text "param<FUSE, 1> /* on "); Param (to_text "MERGE") [] (to_text "-1") []].

Definition unset_items : list item := example_items ++ [Unset (to_text " FUSE 1")].
Definition junk_items : list item := example_items ++ [Junk (to_text "FUSE = 1")].

Ltac items_ok :=
  unfold unset_items, junk_items, example_items; cbn [app]; rewrite !Forall_cons, Forall_nil; cbn [item_ok];
  split_and?; try done; unfold all_any, all_space, one_line;
  first [by repeat constructor|set_solver|apply Forall_singleton; split; [set_solver|done]].

(** The second value replaces the first and wraps around as [uint32_t]; the line
    with a comment after the parameter sets nothing. *)
Lemma param_file_read_witness :
  Forall item_ok example_items ∧ Forall item_ok unset_items ∧ Forall item_ok junk_items ∧
  readParam (print_items example_items) [] = Ret [("MERGE"%string, 4294967295%Z)] ∧
  readParam (print_items unset_items) [] = Raise Uncaught ∧ readParam (print_items junk_items) [] = Raise AssertFailed.
Proof.
  assert (H1 : Forall item_ok example_items) by items_ok. assert (H2 : Forall item_ok unset_items) by items_ok.
  assert (H3 : Forall item_ok junk_items) by items_ok. split_and!; [done..| | |].
  - rewrite (proj2 (param_file_read [] example_items []) H1). reflexivity.
  - rewrite (proj2 (param_file_read [] unset_items []) H2). reflexivity.
  - rewrite (proj2 (param_file_read [] junk_items []) H3). reflexivity.
Defined.

Local Open Scope string_scope.

(** The files of the directory [def]. *)
Definition Graph_def : string := "/* Graph decomposition parameters 
 This is amirali test to see
 */

param<BREAK_LIVE_IN,    0>
param<BREAK_LIVE_OUT,   0>
param<MERGE,            0>
param<LIVE_IN_LIMIT,    2>
param<FUSE,             0>
param<MAX_NUM_CHAIN,    700>
param<MAX_LIVE_OUT,     2>
param<MAX_LIVE_IN,      2>
param<BLOCK_LIMIT,      3>
".

Definition Lane_def : string := "/* CORE PARAMETERS */

//Defining memory modes:
// 1) Simple memory mode:       1
// 2) Ruby memory mode:         2

param<L1_MISS_LATENCY,      1>
param<L2_MISS_LATENCY,      25>
param<L3_MISS_LATENCY,      100>
param<FETCH_DELAY,        2>
param<DECODE_DELAY,       2>
".

Definition Core_def : string := "/* CORE PARAMETERS */

//Defining memory modes:
// MEMORY MODES:
// 0:   L1 miss latency
// 1:   L2 miss latency
// 2:   L3 miss latency
// 3:   RUBY

// SCHEDULER MODES:
// 0:   LEVEL SCHEDULING
// 1:   BLOCK SCHEDULING

param<MEMORY_MODE,          3>  
param<LANE_SIZE,            100>
param<DECODE_DELAY,         2>
param<FETCH_DELAY,          2>
param<SCHEDULER,            0>      
".

Example Graph_def_params :
  readParam (to_text Graph_def) [] = Ret
    [("BLOCK_LIMIT", 3); ("BREAK_LIVE_IN", 0); ("BREAK_LIVE_OUT", 0); ("FUSE", 0); ("LIVE_IN_LIMIT", 2);
     ("MAX_LIVE_IN", 2); ("MAX_LIVE_OUT", 2); ("MAX_NUM_CHAIN", 700); ("MERGE", 0)]%Z.
Proof. vm_compute. reflexivity. Qed.

Example Lane_def_params :
  readParam (to_text Lane_def) [] = Ret
    [("DECODE_DELAY", 2); ("FETCH_DELAY", 2); ("L1_MISS_LATENCY", 1); ("L2_MISS_LATENCY", 25);
     ("L3_MISS_LATENCY", 100)]%Z.
Proof. vm_compute. reflexivity. Qed.

Example Core_def_params :
  readParam (to_text Core_def) [] = Ret
    [("DECODE_DELAY", 2); ("FETCH_DELAY", 2); ("LANE_SIZE", 100); ("MEMORY_MODE", 3); ("SCHEDULER", 0)]%Z.
Proof. vm_compute. reflexivity. Qed.

(** A comment after a parameter makes the line the end of a comment. *)
Example parameter_lost : readParam (to_text "param<MERGE, 1> /* on */") [] = Ret [].
Proof. reflexivity. Qed.

(** A block of comment whose last line is a comment of its own does not end. *)
Example comment_never_ends :
  readParam (print_lines (to_text <$> ["/* one"; "/* two */"; "param<MERGE, 1>"])) [] = Ret [].
Proof. reflexivity. Qed.
