(* ===== verification/InstFile.v ===== *)
(** * Instruction files

    [Instruction.cpp]: the lines of the file of LLVM instructions that look like
    [HANDLE_INST(NUMBER, NAME, CLASS, LATENCY)] are read into a map from names to
    latencies; all others are skipped.  The four expressions for comments are
    declared and not used, so that a line that is commented out is read like any
    other.  The expression is replaced by functions on the characters of a line,
    for every text without carriage returns; and what the reader then makes of
    the lines of an instruction file is stated. *)

From stdpp Require Import list strings.
From S2P Require Import Prelude OrdMap Text Regex ParamFile.
From Stdlib Require Import Ascii.
Local Open Scope nat_scope.

(** ** [readInst] *)

Definition reg_start_line : regex :=
  Bol · Star true White · Star true Any · Star true White · Char "(" · Star true White · Plus Digit · Char "," ·
  Star true White · Group 1 (Plus NonSpace) · Star true White · Char "," · Star true White · Star true Any · Char "," ·
  Star true White · Group 2 (Plus NonSpace) · Star true White · Star true Any · Char ")" · Star true Any · Eol.

Definition inst_line (instruction_llvm : ordmap string Z) (line : text) : outcome (ordmap string Z) :=
  match regex_search reg_start_line line with
  | Some x =>
      v ← stoi (of_text (sub_match 2 (Some x)));
      Ret (mset (of_text (sub_match 1 (Some x))) (u32 v) instruction_llvm)
  | None => Ret instruction_llvm
  end.

Definition readInst (content : text) (instruction_llvm : ordmap string Z) : outcome (ordmap string Z) :=
  foldM inst_line instruction_llvm (getlines content).

(** ** The same without expressions *)

Section longest.
Context {X : Type}.

(** After the last [c] from where [g] goes on. *)
Fixpoint last_after (c : ascii) (g : text → option X) (t : text) : option X :=
  match t with
  | [] => None
  | d :: t =>
      match last_after c g t with Some x => Some x | None => if Ascii.eqb c d then g t else None end
  end.

(** [w] and the longest text without spaces after it from where [g] goes on. *)
Fixpoint longest_from (g : text → text → option X) (w t : text) : option X :=
  match t with
  | [] => g w []
  | c :: t' =>
      if is_space c then g w t
      else match longest_from g (w ++ [c]) t' with Some x => Some x | None => g w t end
  end.

Definition longest_word (g : text → text → option X) (t : text) : option X :=
  match t with c :: t' => if is_space c then None else longest_from g [c] t' | [] => None end.

Definition after_char (c : ascii) (g : text → option X) (t : text) : option X :=
  match t with d :: t' => if Ascii.eqb c d then g t' else None | [] => None end.

Definition after_number (g : text → option X) (t : text) : option X :=
  match span is_digit t with O => None | n => g (drop n t) end.
End longest.

(** The latency is the longest word after which there is a closing parenthesis;
    the name the longest word that a comma follows, and after the last comma
    possible a latency; the parenthesis before the number is the last one
    possible. *)
Definition latency_at (t : text) : option text :=
  longest_word (λ w r, if decide (")"%char ∈ r) then Some w else None) (skip_white t).

Definition name_at (t : text) : option (text * text) :=
  longest_word (λ w r, after_char "," (λ r, (λ v, (w, v)) <$> last_after "," latency_at r) (skip_white r)) (skip_white t).

Definition line_entry (l : text) : option (text * text) :=
  last_after "(" (λ t, after_number (after_char "," name_at) (skip_white t)) l.

Definition set_entry (m : ordmap string Z) (e : option (text * text)) : outcome (ordmap string Z) :=
  match e with
  | Some (name, latency) => v ← stoi (of_text latency); Ret (mset (of_text name) (u32 v) m)
  | None => Ret m
  end.

(** ** The search finds the same *)

Lemma run_greedy_step f k p :
  run (Star true (Chr f)) k p =
  match rest p with
  | c :: _ => if f c then match run (Star true (Chr f)) k (eat 1 p) with Some x => Some x | None => k p end else k p
  | [] => k p
  end.
Proof.
  rewrite !run_greedy. destruct (rest p) as [|c cs] eqn:Ep; cbn [span].
  { cbn. rewrite eat_0. by destruct (k p). }
  destruct (f c); [|cbn; rewrite eat_0; by destruct (k p)]. by rewrite last_ok_S, (rest_eat_1 _ _ _ Ep).
Qed.

(** [k] succeeds where [g] does, and adds its groups. *)
Definition yields (k : place → option place) (g : text → option (list (nat * text))) : Prop :=
  ∀ p, all_any (rest p) → caps <$> k p = (λ c, c ++ caps p) <$> g (rest p).

Lemma yields_ext k g g' : (∀ t, all_any t → g t = g' t) → yields k g → yields k g'.
Proof. intros E Hk p Hp. by rewrite <- E, Hk. Qed.

Lemma fmap_case {A B} (f : A → B) (o o' : option A) :
  f <$> match o with Some x => Some x | None => o' end = match f <$> o with Some y => Some y | None => f <$> o' end.
Proof. by destruct o. Qed.

Lemma eat_1 p c t : rest p = c :: t → eat 1 p = mkPlace (pos p + 1) t (caps p).
Proof. intros E. by apply (eat_app 1 p [c] t). Qed.

Lemma yields_char c k g : yields k g →
  yields (run (Char c) k) (after_char c g).
Proof.
  intros Hk p Hp. cbn [run Char]. unfold Char. cbn [run]. destruct (rest p) as [|d t] eqn:Ep; [done|].
  cbn [after_char]. destruct (Ascii.eqb c d); [|done]. rewrite (eat_1 _ _ _ Ep). apply Forall_cons in Hp as [_ Hp]. by apply (Hk (mkPlace (pos p + 1) t (caps p))).
Qed.

(** A star of spaces before something that starts with none of them. *)
Lemma yields_white k g : yields k g → (∀ c t, is_space c = true → g (c :: t) = None) →
  yields (run (Star true White) k) (λ t, g (skip_white t)).
Proof.
  intros Hk Hg [n t l] Hp. cbn [rest caps] in *. revert n. induction t as [|c t IH]; intros n; unfold White; rewrite run_greedy_step;
    cbn [rest skip_white]; [by apply (Hk (mkPlace n [] l))|].
  apply Forall_cons in Hp as [Hc Hp]. destruct (is_space c) eqn:Ec.
  - rewrite fmap_case, (eat_1 _ c t) by done. cbn [pos caps]. unfold White in IH. rewrite IH by done.
    destruct (g (skip_white t)); [done|]. rewrite Hk by (by constructor). cbn [rest caps]. by rewrite Hg.
  - apply (Hk (mkPlace n (c :: t) l)). by constructor.
Qed.

(** A star of spaces before something that skips them anyway. *)
Lemma yields_white_skipped k g : yields k g → (∀ c t, is_space c = true → g (c :: t) = g t) →
  yields (run (Star true White) k) g.
Proof.
  intros Hk Hg [n t l] Hp. cbn [rest caps] in *. revert n. induction t as [|c t IH]; intros n; unfold White; rewrite run_greedy_step;
    cbn [rest]; [by apply (Hk (mkPlace n [] l))|].
  apply Forall_cons in Hp as [Hc Hp]. destruct (is_space c) eqn:Ec.
  - rewrite fmap_case, (eat_1 _ c t) by done. cbn [pos caps]. unfold White in IH. rewrite IH by done.
    rewrite Hk by (by constructor). cbn [rest caps]. rewrite Hg by done. by destruct (g t).
  - apply (Hk (mkPlace n (c :: t) l)). by constructor.
Qed.

(** A star of anything goes to the last place possible. *)
Lemma yields_last c k g : yields k (after_char c g) →
  yields (run (Star true Any) k) (last_after c g).
Proof.
  intros Hk [n t l] Hp. cbn [rest caps] in *. revert n. induction t as [|d t IH]; intros n; unfold Any; rewrite run_greedy_step;
    cbn [rest last_after]; [by apply (Hk (mkPlace n [] l))|].
  pose proof Hp as [Hd Ht]%Forall_cons. rewrite Hd, fmap_case, (eat_1 _ d t) by done. cbn [pos caps]. unfold Any in IH.
  rewrite IH by done. rewrite Hk by done. cbn [rest caps]. by destruct (last_after c g t).
Qed.

Lemma last_after_skip c g t : is_space c = false →
  last_after c g t = None → after_char c g (skip_white t) = @None (list (nat * text)).
Proof.
  intros Hc. induction t as [|d t IH]; [done|]. cbn [last_after skip_white]. destruct (last_after c g t); [done|].
  destruct (is_space d); [auto|done].
Qed.

(** With spaces before it, as they match a period too. *)
Lemma yields_last_white c k g : is_space c = false →
  yields k (after_char c g) →
  yields (run (Star true Any) (run (Star true White) k)) (last_after c g).
Proof.
  intros Hc Hk. assert (Hw : yields (run (Star true White) k)
    (λ t, after_char c g (skip_white t))).
  { apply (yields_white _ (after_char c g)); [done|]. intros d t Hd. cbn. destruct (Ascii.eqb_spec c d); [congruence|done]. }
  intros [n t l] Hp. cbn [rest caps] in *. revert n. induction t as [|d t IH]; intros n; unfold Any; rewrite run_greedy_step;
    cbn [rest last_after]; [by apply (Hw (mkPlace n [] l))|].
  pose proof Hp as [Hd Ht]%Forall_cons. rewrite Hd, fmap_case, (eat_1 _ d t) by done. cbn [pos caps]. unfold Any in IH.
  rewrite IH by done. destruct (last_after c g t) eqn:El; [done|]. rewrite Hw by done. cbn [rest caps skip_white fmap option_fmap].
  destruct (is_space d) eqn:Ed; [|done]. rewrite last_after_skip by done. cbn. destruct (Ascii.eqb_spec c d); [congruence|done].
Qed.

Lemma last_after_space c g d t : is_space c = false → is_space d = true →
  last_after c g (d :: t) = @last_after (list (nat * text)) c g t.
Proof. intros Hc Hd. cbn. destruct (last_after c g t); [done|]. destruct (Ascii.eqb_spec c d); [congruence|done]. Qed.

Lemma span_skip f c t : f c = true → span f (c :: t) = S (span f t).
Proof. intros Hc. cbn. by rewrite Hc. Qed.

(** A star, and a plus, of digits before something that starts with none. *)
Lemma yields_digits k g : yields k g → (∀ c t, is_digit c = true → g (c :: t) = None) →
  yields (run (Star true Digit) k) (λ t, g (drop (span is_digit t) t)).
Proof.
  intros Hk Hg [n t l] Hp. cbn [rest caps] in *. revert n. induction t as [|c t IH]; intros n; unfold Digit; rewrite run_greedy_step;
    cbn [rest span drop]; [by apply (Hk (mkPlace n [] l))|].
  apply Forall_cons in Hp as [Hc Hp]. destruct (is_digit c) eqn:Ec.
  - rewrite fmap_case, (eat_1 _ c t) by done. cbn [pos caps]. unfold Digit in IH. rewrite IH by done. rewrite skipn_cons.
    destruct (g (drop (span is_digit t) t)); [done|]. rewrite Hk by (by constructor). cbn [rest caps]. by rewrite Hg.
  - apply (Hk (mkPlace n (c :: t) l)). by constructor.
Qed.

Lemma yields_number k g : yields k g → (∀ c t, is_digit c = true → g (c :: t) = None) →
  yields (run (Plus Digit) k) (after_number g).
Proof.
  intros Hk Hg [n t l] Hp. unfold Plus. rewrite run_cat. unfold Digit at 1. cbn [run rest caps]. unfold after_number.
  destruct t as [|c t]; [done|]. cbn [span]. destruct (is_digit c) eqn:Ec; [|done]. rewrite (eat_1 _ c t) by done. rewrite skipn_cons.
  apply Forall_cons in Hp as [_ Hp]. by apply (yields_digits k g Hk Hg (mkPlace _ t l)).
Qed.

(** A word that is captured. *)
Lemma yields_longest i k g : yields k g → ∀ t n m u w l,
  all_any t →
  caps <$> run (Star true NonSpace) (λ q, k (capture i (mkPlace n (w ++ t) u) q)) (mkPlace m t l) =
    (λ c, c ++ l) <$> longest_from (λ w r, (λ c, c ++ [(i, w)]) <$> g r) w t.
Proof.
  intros Hk t n. assert (Hg : ∀ m u w t l, all_any t →
    caps <$> k (capture i (mkPlace n (w ++ t) u) (mkPlace m t l)) = (λ c, c ++ l) <$> ((λ c, c ++ [(i, w)]) <$> g t)).
  { clear t. intros m u w t l Ht. rewrite (capture_app i _ _ w) by done. rewrite Hk by done. cbn [rest caps].
    destruct (g t); [|done]. cbn. by rewrite <- app_assoc. }
  induction t as [|c t IH]; intros m u w l Ht; unfold NonSpace; rewrite run_greedy_step; cbn [rest longest_from]; [by apply Hg|].
  destruct (is_space c) eqn:Ec; cbn [negb]; [by apply Hg|]. rewrite fmap_case, (eat_1 _ c t) by done. cbn [pos caps].
  apply Forall_cons in Ht as Ht'. destruct Ht' as [_ Ht']. specialize (IH (m + 1) u (w ++ [c]) l Ht'). rewrite <- app_assoc in IH.
  cbn [app] in IH. unfold NonSpace in IH. rewrite IH. destruct (longest_from _ (w ++ [c]) t); [done|]. by apply Hg.
Qed.

Lemma yields_word i k g : yields k g →
  yields (run (Group i (Plus NonSpace)) k) (longest_word (λ w r, (λ c, c ++ [(i, w)]) <$> g r)).
Proof.
  intros Hk [n t l] Hp. rewrite run_group. unfold Plus. rewrite run_cat. unfold NonSpace at 1. cbn [run rest caps longest_word].
  destruct t as [|c t]; [done|]. cbn [longest_word]. destruct (is_space c) eqn:Ec; cbn [negb]; [done|]. rewrite (eat_1 _ c t) by done.
  apply Forall_cons in Hp as [_ Hp]. by apply (yields_longest i k g Hk t n (n + 1) l [c] l).
Qed.

(** The two functions that return words and the groups of the search. *)
Lemma longest_from_fmap {X Y} (f : X → Y) g g' t : (∀ w r, f <$> g w r = g' w r) → ∀ w,
  f <$> longest_from g w t = longest_from g' w t.
Proof.
  intros E. induction t as [|c t IH]; intros w; cbn [longest_from]; [apply E|]. destruct (is_space c); [apply E|].
  by rewrite fmap_case, IH, E.
Qed.

Lemma longest_word_fmap {X Y} (f : X → Y) g g' t : (∀ w r, f <$> g w r = g' w r) →
  f <$> longest_word g t = longest_word g' t.
Proof. intros E. destruct t as [|c t]; [done|]. cbn. destruct (is_space c); [done|]. by apply longest_from_fmap. Qed.

Lemma last_after_fmap {X Y} c (f : X → Y) g g' t : (∀ t, f <$> g t = g' t) → f <$> last_after c g t = last_after c g' t.
Proof.
  intros E. induction t as [|d t IH]; [done|]. cbn [last_after]. rewrite fmap_case, IH. destruct (Ascii.eqb c d); [by rewrite E|done].
Qed.

Lemma after_char_fmap {X Y} c (f : X → Y) g g' t : (∀ t, f <$> g t = g' t) → f <$> after_char c g t = after_char c g' t.
Proof. intros E. destruct t as [|d t]; [done|]. cbn. by destruct (Ascii.eqb c d). Qed.

Lemma after_number_fmap {X Y} (f : X → Y) g g' t : (∀ t, f <$> g t = g' t) → f <$> after_number g t = after_number g' t.
Proof. intros E. unfold after_number. by destruct (span is_digit t). Qed.

Lemma paren_last t : last_after ")" (λ _, Some []) t = if decide (")"%char ∈ t) then Some (@nil (nat * text)) else None.
Proof.
  induction t as [|d t IH]; [done|]. cbn [last_after]. rewrite IH. destruct (Ascii.eqb_spec ")" d) as [<-|Hd].
  - rewrite (decide_True _ _ (list_elem_of_here _ _)). by case_decide.
  - destruct (decide (_ ∈ t)); [by rewrite decide_True by (by right)|]. by rewrite decide_False by set_solver.
Qed.

Lemma yields_end : yields (run (Star true Any) (run Eol Some)) (λ _, Some []).
Proof.
  intros p Hp. destruct (run_complete (Star true Any) (rest p)) with (k := run Eol Some) (p := p) (u := @nil ascii) as [x Hx].
  - by apply matches_star.
  - done.
  - by rewrite app_nil_r.
  - intros q Eq. cbn. rewrite Eq. by eexists.
  - rewrite Hx. change (run (Star true Any · Eol) Some p = Some x) in Hx. apply run_sound in Hx as (q & (s & _ & _ & Hc) & [= <-]).
    cbn. by rewrite Hc.
Qed.

Lemma yields_latency :
  yields (run (Star true White) (run (Group 2 (Plus NonSpace)) (run (Star true White) (run (Star true Any) (run (Char ")")
    (run (Star true Any) (run Eol Some))))))) (λ t, (λ v, [(2, v)]) <$> latency_at t).
Proof.
  eapply yields_ext; [|apply yields_white; [apply yields_word, yields_white_skipped; [apply yields_last, yields_char, yields_end|]|]].
  - intros t _. cbn beta. symmetry. apply longest_word_fmap. intros w r. rewrite paren_last. by case_decide.
  - intros c t. by apply last_after_space.
  - intros c t Hc. cbn. by rewrite Hc.
Qed.

Lemma yields_name k :
  yields k (λ t, (λ v, [(2, v)]) <$> latency_at t) →
  yields (run (Star true White) (run (Group 1 (Plus NonSpace)) (run (Star true White) (run (Char ",") (run (Star true White)
    (run (Star true Any) (run (Char ",") k))))))) (λ t, (λ e, [(2, e.2); (1, e.1)]) <$> name_at t).
Proof.
  intros Hk. eapply yields_ext; [|apply yields_white; [apply yields_word, yields_white; [apply yields_char, yields_white_skipped;
    [apply yields_last, yields_char, Hk|]|]|]].
  - intros t _. cbn beta. symmetry. apply longest_word_fmap. intros w r. rewrite (after_char_fmap _ _ _
      (λ r, (λ v, [(2, v); (1, w)]) <$> last_after "," latency_at r)) by (intros u; by destruct (last_after _ _ u)).
    symmetry. apply after_char_fmap. intros u. rewrite <- (last_after_fmap "," (λ v, [(2, v)]) latency_at) by done.
    by destruct (last_after _ _ u).
  - intros c t. by apply last_after_space.
  - intros c t Hc. unfold after_char. destruct (Ascii.eqb_spec "," c) as [<-|]; [discriminate Hc|done].
  - intros c t Hc. cbn. by rewrite Hc.
Qed.

Lemma search_entry l : all_any l →
  caps <$> regex_search reg_start_line l = (λ e, [(2, e.2); (1, e.1)]) <$> line_entry l.
Proof.
  intros Hl. rewrite search_anchored by (unfold reg_start_line; auto 30). unfold reg_start_line. rewrite !run_cat, run_bol.
  assert (H := yields_name _ yields_latency). apply (yields_char ",") in H. eapply yields_number in H.
  2: { intros c t Hc. unfold after_char. destruct (Ascii.eqb_spec "," c) as [<-|]; [discriminate Hc|done]. }
  eapply yields_white in H.
  2: { intros c t Hc. unfold after_number. cbn. assert (is_digit c = false) as -> by (revert Hc; by destruct c as [[] [] [] [] [] [] [] []]). done. }
  apply (yields_char "("), (yields_last_white "("), yields_white_skipped in H; [|intros c t; by apply last_after_space|done].
  specialize (H (mkPlace 0 l []) Hl). cbn [caps rest] in H. rewrite H. unfold line_entry.
  rewrite <- (last_after_fmap "(" (λ e : text * text, [(2, e.2); (1, e.1)]) (λ t, after_number (after_char "," name_at) (skip_white t))).
  - by destruct (last_after "(" _ l : option (text * text)).
  - intros t. apply after_number_fmap. intros u. by apply after_char_fmap.
Qed.

Lemma inst_line_entry m l : all_any l → inst_line m l = set_entry m (line_entry l).
Proof.
  intros H%search_entry. unfold inst_line, sub_match. destruct (regex_search _ l) as [x|], (line_entry l) as [[n v]|]; try done.
  injection H as ->. done.
Qed.

(** ** What a file says *)

(** [before(s1 number,s2 name s3,class,s5 latency s6)after]; or any other line. *)
Inductive inst_item :=
  | Entry (before s1 number s2 name s3 class s5 latency s6 after : text)
  | Skip (s : text).

Definition inst_text (before s1 number s2 name s3 class s5 latency s6 after : text) : text :=
  before ++ "("%char :: s1 ++ number ++ ","%char :: s2 ++ name ++ s3 ++ ","%char :: class ++ ","%char ::
  s5 ++ latency ++ s6 ++ ")"%char :: after.

Definition inst_item_line (i : inst_item) : text :=
  match i with
  | Entry before s1 number s2 name s3 class s5 latency s6 after =>
      inst_text before s1 number s2 name s3 class s5 latency s6 after
  | Skip s => s
  end.

Definition print_insts (file : list inst_item) : text := print_lines (inst_item_line <$> file).

Definition all_digit (s : text) : Prop := Forall (λ c, is_digit c = true) s.
Definition all_nonspace (s : text) : Prop := Forall (λ c, negb (is_space c) = true) s.
Definition commas (s : text) : nat := length (filter (λ c, c = ","%char) s).
Definition white (s : text) : Prop := all_any s ∧ all_space s.

(** Anything may precede the parenthesis, a comment sign too; what follows the
    closing one has no comma.  The latency is any word. *)
Definition inst_item_ok (i : inst_item) : Prop :=
  match i with
  | Entry before s1 number s2 name s3 class s5 latency s6 after =>
      all_any before ∧ white s1 ∧ all_digit number ∧ number ≠ [] ∧ white s2 ∧
      all_nonspace name ∧ name ≠ [] ∧ ","%char ∉ name ∧ white s3 ∧ all_any class ∧ ","%char ∉ class ∧ white s5 ∧
      all_nonspace latency ∧ latency ≠ [] ∧ ","%char ∉ latency ∧ white s6 ∧ all_any after ∧ ","%char ∉ after
  | Skip s => all_any s ∧ ("("%char ∉ s ∨ commas s < 3)
  end.

Definition inst_effect (m : ordmap string Z) (i : inst_item) : outcome (ordmap string Z) :=
  match i with
  | Entry _ _ _ _ name _ _ _ latency _ _ => v ← stoi (of_text latency); Ret (mset (of_text name) (u32 v) m)
  | Skip _ => Ret m
  end.

(** ** Counting commas *)

Lemma commas_app s t : commas (s ++ t) = commas s + commas t.
Proof. unfold commas. by rewrite filter_app, length_app. Qed.

Lemma commas_cons c s : commas (c :: s) = (if decide (c = ","%char) then 1 else 0) + commas s.
Proof. unfold commas. rewrite filter_cons. by case_decide. Qed.

Lemma commas_none s : ","%char ∉ s → commas s = 0.
Proof.
  intros Hs. induction s as [|c s IH]; [done|]. apply not_elem_of_cons in Hs as [Hc Hs].
  rewrite commas_cons, IH by done. by rewrite decide_False.
Qed.

Lemma commas_suffix a b : commas b ≤ commas (a ++ b).
Proof. rewrite commas_app. lia. Qed.

Lemma commas_white t : commas (skip_white t) ≤ commas t.
Proof. destruct (skip_white_spec t) as (sp & E & _). rewrite E at 2. apply commas_suffix. Qed.

(** What the functions find, and where. *)
Lemma after_char_inv {X} c (g : text → option X) t x : after_char c g t = Some x → ∃ u, t = c :: u ∧ g u = Some x.
Proof. destruct t as [|d u]; [done|]. cbn. destruct (Ascii.eqb_spec c d) as [<-|]; [|done]. by exists u. Qed.

Lemma last_after_inv {X} c (g : text → option X) t x :
  last_after c g t = Some x → ∃ a u, t = a ++ c :: u ∧ g u = Some x.
Proof.
  induction t as [|d t IH]; [done|]. cbn [last_after]. destruct (last_after c g t) as [y|].
  - intros [= ->]. destruct (IH eq_refl) as (a & u & -> & Hu). by exists (d :: a), u.
  - destruct (Ascii.eqb_spec c d) as [<-|]; [|done]. intros Ht. by exists [], t.
Qed.

Lemma last_after_here {X} c (g : text → option X) a t x :
  g t = Some x → last_after c g t = None → last_after c g (a ++ c :: t) = Some x.
Proof.
  intros Hg Hn. induction a as [|d a IH]; cbn [app last_after]; [by rewrite Hn, Ascii.eqb_refl|]. by rewrite IH.
Qed.

Lemma longest_from_inv {X} (g : text → text → option X) t : ∀ w x,
  longest_from g w t = Some x → ∃ a b, t = a ++ b ∧ all_nonspace a ∧ g (w ++ a) b = Some x.
Proof.
  induction t as [|c t IH]; intros w x; cbn [longest_from].
  { intros Hx. exists [], []. rewrite (app_nil_r w). split; [done|]. by split; [apply Forall_nil_2|]. }
  assert (H0 : g w (c :: t) = Some x → ∃ a b, c :: t = a ++ b ∧ all_nonspace a ∧ g (w ++ a) b = Some x).
  { intros Hx. exists [], (c :: t). rewrite (app_nil_r w). split; [done|]. by split; [apply Forall_nil_2|]. }
  destruct (is_space c) eqn:Ec; [done|]. destruct (longest_from g (w ++ [c]) t) as [y|] eqn:E; [|done].
  intros [= <-]. apply IH in E as (a & b & -> & Ha & Hb). exists (c :: a), b. rewrite <- app_assoc in Hb.
  split; [done|]. split; [|done]. constructor; [by rewrite Ec|done].
Qed.

Lemma longest_word_inv {X} (g : text → text → option X) t x :
  longest_word g t = Some x → ∃ w b, t = w ++ b ∧ g w b = Some x.
Proof.
  destruct t as [|c t]; [done|]. cbn. destruct (is_space c); [done|]. intros (a & b & -> & _ & Hb)%longest_from_inv. by exists (c :: a), b.
Qed.

Lemma longest_from_some {X} (g : text → text → option X) u r : ∀ v,
  all_nonspace u → is_Some (g (v ++ u) r) → is_Some (longest_from g v (u ++ r)).
Proof.
  induction u as [|d u IH]; intros v Hu Hg; cbn [app longest_from].
  - rewrite app_nil_r in Hg. destruct r as [|c r]; [done|]. cbn [longest_from]. destruct (is_space c); [done|].
    by destruct (longest_from g (v ++ [c]) r).
  - apply Forall_cons in Hu as [Hd%negb_true_iff Hu]. rewrite Hd. destruct (IH (v ++ [d]) Hu) as [x ->]; [by rewrite <- app_assoc|].
    by eexists.
Qed.

(** A word is found, maybe a longer one. *)
Lemma longest_word_some {X} (g : text → text → option X) w r :
  all_nonspace w → w ≠ [] → is_Some (g w r) →
  ∃ a b x, r = a ++ b ∧ all_nonspace a ∧ g (w ++ a) b = Some x ∧ longest_word g (w ++ r) = Some x.
Proof.
  destruct w as [|c u]; [done|]. intros [Hc%negb_true_iff Hu]%Forall_cons _ Hg. cbn [app longest_word]. rewrite Hc.
  enough (∃ a b x, r = a ++ b ∧ all_nonspace a ∧ g ((c :: u) ++ a) b = Some x ∧ longest_from g [c] (u ++ r) = Some x) by done.
  revert Hu Hg. change (c :: u) with ([c] ++ u). generalize [c] as v. clear Hc c. induction u as [|d u IH]; intros v Hu Hg.
  - rewrite app_nil_r in *. destruct (longest_from_some g [] r v) as [x Hx]; [constructor|by rewrite app_nil_r|]. cbn [app] in *.
    destruct (longest_from_inv _ _ _ _ Hx) as (a & b & ? & ? & ?). by exists a, b, x.
  - pose proof Hu as [Hd%negb_true_iff Hu']%Forall_cons. cbn [app longest_from]. rewrite Hd.
    destruct (IH (v ++ [d]) Hu') as (a & b & x & Er & Ha & Hx & ->); [by rewrite <- app_assoc|].
    exists a, b, x. rewrite <- app_assoc in *. by rewrite <- app_assoc in Hx.
Qed.

Lemma name_commas t x : name_at t = Some x → 2 ≤ commas t.
Proof.
  intros (w & b & E & (u & Eu & Hu)%after_char_inv)%longest_word_inv. destruct (last_after _ _ u) as [v|] eqn:El; [|done].
  apply last_after_inv in El as (a & u' & -> & _). pose proof (commas_white t). pose proof (commas_white b) as Hb.
  rewrite E in *. rewrite Eu in Hb. rewrite !commas_app, !commas_cons, !commas_app, !commas_cons, !(decide_True _ _ eq_refl) in *. lia.
Qed.

Lemma number_commas t x : after_number (after_char "," name_at) (skip_white t) = Some x → 3 ≤ commas t.
Proof.
  pose proof (commas_white t) as Ht. unfold after_number. destruct (span _ _) as [|n]; [done|].
  intros (u & E & Hu%name_commas)%after_char_inv. rewrite <- (take_drop (S n) (skip_white t)), E, commas_app, commas_cons,
    (decide_True _ _ eq_refl) in Ht. lia.
Qed.

(** [stoi] stops at a closing parenthesis. *)
Lemma digits_stop t e : e = [] ∨ head e = Some ")"%char → ∀ acc n,
  digits acc n (of_text (t ++ e)) = digits acc n (of_text t).
Proof.
  intros He. induction t as [|c t IH]; intros acc n; cbn.
  - destruct He as [->|He]; [done|]. destruct e as [|d e]; [done|]. by injection He as ->.
  - destruct (is_digit c); [apply IH|done].
Qed.

Definition sign_of (s : string) : Z * string :=
  match s with String "-" s' => ((-1)%Z, s') | String "+" s' => (1%Z, s') | s' => (1%Z, s') end.

Lemma sign_stop c t e : ∃ sg t', sign_of (of_text (c :: t)) = (sg, of_text t') ∧
  sign_of (of_text ((c :: t) ++ e)) = (sg, of_text (t' ++ e)).
Proof.
  destruct (decide (c = "-"%char)) as [->|H1]; [by exists (-1)%Z, t|].
  destruct (decide (c = "+"%char)) as [->|H2]; [by exists 1%Z, t|]. exists 1%Z, (c :: t).
  cbn. destruct c as [[] [] [] [] [] [] [] []]; done.
Qed.

Lemma stoi_stop t e : all_nonspace t → t ≠ [] → e = [] ∨ head e = Some ")"%char →
  stoi (of_text (t ++ e)) = stoi (of_text t).
Proof.
  intros Ht Hne He. destruct Ht as [|c t Hc%negb_true_iff Ht]; [done|].
  assert (Hp : ∀ u, stoi (of_text (c :: u)) = let '(sign, s) := sign_of (of_text (c :: u)) in
    let '(v, n) := digits 0 0 s in
    if n =? 0 then Raise Uncaught
    else if ((- 2 ^ 31 <=? sign * v) && (sign * v <? 2 ^ 31))%Z then Ret (sign * v)%Z else Raise Uncaught).
  { intros u. unfold stoi, parse_int. cbn [String.string_of_list_ascii skip_space]. rewrite Hc. by destruct c as [[] [] [] [] [] [] [] []]. }
  cbn [app]. rewrite !Hp. destruct (sign_stop c t e) as (sg & t' & -> & E2). cbn [app] in E2. rewrite E2. by rewrite digits_stop.
Qed.

(** ** A line *)

(** Only two commas follow a later parenthesis. *)
Lemma paren_commas a0 w a b :
  "("%char ∉ a0 → a0 ++ ","%char :: w = a ++ "("%char :: b → commas b ≤ commas w.
Proof.
  revert a. induction a0 as [|c a0 IH]; intros a Hn E.
  - destruct a as [|d a]; [discriminate E|]. injection E as _ ->. rewrite commas_app, commas_cons. lia.
  - apply not_elem_of_cons in Hn as [Hc Hn]. destruct a as [|d a]; [by injection E as -> _|].
    injection E as _ E. by apply (IH a).
Qed.

Lemma digit_white c : is_digit c = true → is_space c = false ∧ c ≠ "("%char ∧ is_any c = true.
Proof. by destruct c as [[] [] [] [] [] [] [] []]. Qed.

Lemma nonspace_any s : all_nonspace s → all_any s.
Proof. intros H. eapply Forall_impl; [exact H|]. intros c. by destruct c as [[] [] [] [] [] [] [] []]. Qed.

Lemma digit_any s : all_digit s → all_any s.
Proof. intros H. eapply Forall_impl; [exact H|]. intros c Hc. by apply digit_white. Qed.

Lemma not_in_class f (c : ascii) (s : text) : Forall (λ c, f c = true) s → f c = false → c ∉ s.
Proof. intros Hs Hc Hin. rewrite Forall_forall in Hs. apply Hs in Hin. congruence. Qed.

Lemma word_start w r : all_nonspace w → w ≠ [] → match w ++ r with c :: _ => is_space c = false | [] => True end.
Proof. intros [|c u Hc _]; [done|]. by apply negb_true_iff in Hc. Qed.

(** What extends a word before spaces. *)
Lemma extension s t a b : all_space s → s ++ t = a ++ b → all_nonspace a → a ≠ [] → s = [] ∧ t = a ++ b.
Proof.
  intros Hs E Ha Hne. destruct Ha as [|c a Hc _]; [done|]. destruct Hs as [|d s Hd _]; [done|]. injection E as -> _. by rewrite Hd in Hc.
Qed.

Section entry.
Variables (before s1 number s2 name s3 class s5 latency s6 after : text).
Hypothesis Hok : inst_item_ok (Entry before s1 number s2 name s3 class s5 latency s6 after).

(** After each comma. *)
Let w3 : text := s5 ++ latency ++ s6 ++ ")"%char :: after.
Let w1 : text := s2 ++ name ++ s3 ++ ","%char :: class ++ ","%char :: w3.

Lemma w3_commas : ","%char ∉ w3.
Proof.
  destruct Hok as (_ & _ & _ & _ & _ & _ & _ & _ & _ & _ & _ & [_ H5] & _ & _ & H6 & [_ H7] & _ & H8). unfold w3.
  repeat apply not_elem_text; [by eapply not_in_class|done|by eapply not_in_class|set_solver].
Qed.

Lemma w1_commas : commas w1 = 2.
Proof.
  pose proof w3_commas as H3. destruct Hok as (_ & _ & _ & _ & [_ H1] & _ & _ & H2 & [_ H4] & _ & H5 & _).
  unfold w1. rewrite !commas_app, commas_cons, commas_app, commas_cons, !(decide_True _ _ eq_refl).
  rewrite (commas_none s2), (commas_none name), (commas_none s3), (commas_none class), (commas_none w3); try done;
    by eapply not_in_class.
Qed.

Lemma last_after_none {X} (g : text → option X) t : ","%char ∉ t → last_after "," g t = None.
Proof. intros Ht. destruct (last_after _ _ _) as [x|] eqn:E; [|done]. apply last_after_inv in E as (a & u & -> & _). set_solver. Qed.

Lemma entry_latency : ∃ e, latency_at w3 = Some (latency ++ e) ∧ (e = [] ∨ head e = Some ")"%char).
Proof.
  destruct Hok as (_ & _ & _ & _ & _ & _ & _ & _ & _ & _ & _ & [_ H5] & Hl & Hl0 & _ & [_ H6] & _). unfold latency_at, w3.
  rewrite skip_white_app by (done || by apply word_start).
  destruct (longest_word_some (λ w r, if decide (")"%char ∈ r) then Some w else None) latency (s6 ++ ")"%char :: after))
    as (a & b & x & E & Ha & Hx & ->); [done..|rewrite decide_True by set_solver; by eexists|].
  case_decide; [|done]. injection Hx as <-. exists a. split; [done|]. destruct a as [|c a]; [by left|]. right.
  destruct (extension _ _ _ _ H6 E Ha) as [_ [= -> _]]; done.
Qed.

Lemma entry_name : ∃ e, name_at w1 = Some (name, latency ++ e) ∧ (e = [] ∨ head e = Some ")"%char).
Proof.
  pose proof w1_commas as Hw1. pose proof w3_commas as Hw3. destruct entry_latency as (e & Hlat & He). exists e. split; [|done].
  destruct Hok as (_ & _ & _ & _ & [_ H2] & Hn & Hn0 & Hnc & [_ H3] & _ & Hc & _). unfold name_at, w1 in *.
  rewrite skip_white_app by (done || by apply word_start).
  set (g := λ w r, after_char "," (λ r, (λ v, (w, v)) <$> last_after "," latency_at r) (skip_white r)).
  set (r := s3 ++ ","%char :: class ++ ","%char :: w3) in *.
  assert (Hg : g name r = Some (name, latency ++ e)).
  { unfold g, r. rewrite skip_white_app by done. cbn. by rewrite (last_after_here "," latency_at class w3 _ Hlat) by by apply last_after_none. }
  destruct (longest_word_some g name r) as (a & b & x & E & Ha & Hx & ->); [done..|by eexists|].
  destruct (decide (a = [])) as [->|Hne]; [cbn [app] in E; subst b; rewrite app_nil_r in Hx; congruence|exfalso].
  destruct (extension _ _ _ _ H3 E Ha Hne) as [-> E']. destruct a as [|c a]; [done|]. injection E' as <- E'.
  unfold g in Hx. apply after_char_inv in Hx as (u & Eu & Hu). destruct (last_after _ _ u) as [v|] eqn:El; [|done].
  apply last_after_inv in El as (a' & u' & -> & _). pose proof (commas_white b) as Hb. rewrite Eu in Hb.
  apply (f_equal commas) in E'. rewrite commas_cons, !commas_app, !commas_cons, (decide_True _ _ eq_refl), (commas_none class), (commas_none w3) in * by done.
  lia.
Qed.

Lemma entry_line : ∃ e,
  line_entry (inst_text before s1 number s2 name s3 class s5 latency s6 after) = Some (name, latency ++ e) ∧
  (e = [] ∨ head e = Some ")"%char).
Proof.
  destruct entry_name as (e & Hname & He). exists e. split; [|done].
  destruct Hok as (_ & [_ H1] & Hnum & Hnum0 & _). unfold line_entry.
  change (inst_text before s1 number s2 name s3 class s5 latency s6 after) with (before ++ "("%char :: s1 ++ number ++ ","%char :: w1).
  apply last_after_here.
  - rewrite skip_white_app; [|done|].
    2: { destruct Hnum as [|d t Hd _]; [done|]. by apply digit_white. }
    unfold after_number. rewrite span_app by done. cbn [span]. rewrite Nat.add_0_r.
    destruct (length number) as [|n] eqn:El; [by destruct number|]. rewrite <- El, drop_app_length. exact Hname.
  - destruct (last_after _ _ _) as [x|] eqn:El; [exfalso|done]. apply last_after_inv in El as (a & u & E & Hu%number_commas).
    rewrite app_assoc in E. apply paren_commas in E; [rewrite w1_commas in E; lia|].
    apply not_elem_text; by eapply not_in_class.
Qed.
End entry.

Lemma item_any i : inst_item_ok i → all_any (inst_item_line i).
Proof.
  destruct i as [before s1 number s2 name s3 class s5 latency s6 after|s]; [|by intros []].
  intros (H1 & [H2 _] & H3 & _ & [H4 _] & H5 & _ & _ & [H6 _] & H7 & _ & [H8 _] & H9 & _ & _ & [H10 _] & H11 & _).
  cbn [inst_item_line]. unfold inst_text, all_any in *.
  repeat first [apply Forall_app; split | apply Forall_cons; split]; try done; first [by apply digit_any | by apply nonspace_any].
Qed.

Lemma inst_item_read m i : inst_item_ok i → inst_line m (inst_item_line i) = inst_effect m i.
Proof.
  intros Hi. rewrite inst_line_entry by by apply item_any.
  destruct i as [before s1 number s2 name s3 class s5 latency s6 after|s]; cbn [inst_item_line inst_effect].
  - destruct (entry_line _ _ _ _ _ _ _ _ _ _ _ Hi) as (e & -> & He). cbn [set_entry].
    destruct Hi as (_ & _ & _ & _ & _ & _ & _ & _ & _ & _ & _ & _ & Hlat & Hlat0 & _). by rewrite stoi_stop.
  - destruct (line_entry s) as [x|] eqn:E; [exfalso|done]. apply last_after_inv in E as (a & u & -> & Hu%number_commas).
    destruct Hi as [_ [Hn|Hn]]; [set_solver|]. rewrite commas_app, commas_cons in Hn. lia.
Qed.

(** Lines of a text without carriage returns. *)
Lemma getlines_any s : "013"%char ∉ s → Forall all_any (getlines s).
Proof.
  induction s as [|c s IH]; intros Hs; [constructor|]. apply not_elem_of_cons in Hs as [Hc Hs]. specialize (IH Hs).
  cbn [getlines]. destruct (Ascii.eqb_spec c newline) as [->|Hn]; [constructor; [apply Forall_nil_2|done]|].
  assert (is_any c = true) by (revert Hc Hn; destruct c as [[] [] [] [] [] [] [] []]; done).
  destruct IH as [|l ls Hl Hls]; (constructor; [|done]); by constructor.
Qed.

(** [C40] Of any text without carriage returns, each line sets the latency of a
    name if it has the form of an instruction, and the functions on its characters
    say which; the others change nothing; and a latency that is not an [int] ends
    the reading with an exception.  In particular an instruction file is read as
    what it says: every line in the usual form of an instruction sets the latency
    of its name, whatever precedes the parenthesis, a comment sign too, and
    whatever comment without a comma follows; lines without a parenthesis or with
    fewer than three commas change nothing. *)
Theorem inst_file_read content file m :
  ("013"%char ∉ content → readInst content m = foldM set_entry m (line_entry <$> getlines content)) ∧
  (Forall inst_item_ok file → readInst (print_insts file) m = foldM inst_effect m file).
Proof.
  split.
  - intros H%getlines_any. unfold readInst. revert m. induction H as [|l ls Hl _ IH]; intros m; [done|].
    cbn [fmap list_fmap foldM]. rewrite inst_line_entry by done. destruct (set_entry m _); cbn; [apply IH|done].
  - intros Hf. unfold readInst, print_insts. rewrite getlines_print.
    + revert m. induction Hf as [|i file Hi _ IH]; intros m; [done|]. cbn [fmap list_fmap foldM]. rewrite inst_item_read by done.
      destruct (inst_effect m i); cbn; [apply IH|done].
    + apply Forall_fmap. eapply Forall_impl; [exact Hf|]. intros i Hi. by apply any_one_line, item_any.
Qed.

(** ** Concrete files *)

Definition example_insts : list inst_item :=
  [Skip (to_text " FIRST_TERM_INST  ( 1)");
   Entry (to_text "HANDLE_TERM_INST  ") (to_text " ") (to_text "1") (to_text " ") (to_text "Ret") (to_text "   ")
     (to_text " ReturnInst ") (to_text "  ") (to_text "2") [] [];
   Entry (to_text "// HANDLE_INST") [] (to_text "23") (to_text " ") (to_text "Shl") [] (to_text " BinaryOperator")
     (to_text " ") (to_text "5") [] (to_text " // Shift left (logical)")].

Definition bad_latency : list inst_item :=
  example_insts ++ [Entry (to_text "HANDLE_INST") [] (to_text "3") [] (to_text "Br") [] [] [] (to_text "x") [] []].

(** A line of more commas is read too. *)
Definition odd_lines : text := print_lines (to_text <$> ["(1, Ret, A, B, 9)"%string; "f(x), (2, Br,Sw, B, 7x) // (y)"%string]).

Lemma inst_file_read_witness :
  Forall inst_item_ok example_insts ∧ Forall inst_item_ok bad_latency ∧
  readInst odd_lines [] = Ret [("Br,Sw"%string, 7%Z); ("Ret"%string, 9%Z)] ∧
  readInst (print_insts example_insts) [] = Ret [("Ret"%string, 2%Z); ("Shl"%string, 5%Z)] ∧
  readInst (print_insts bad_latency) [] = Raise Uncaught.
Proof.
  assert (H : Forall inst_item_ok bad_latency).
  { unfold bad_latency, example_insts. cbn [app]. rewrite !Forall_cons, Forall_nil. cbn [inst_item_ok]. unfold white.
    split_and!; try done; unfold all_any, all_space, all_digit, all_nonspace;
      first [by repeat constructor | set_solver | right; vm_compute; lia]. }
  assert (H0 : Forall inst_item_ok example_insts) by (by apply Forall_app in H as [H _]).
  split_and!; [done..| | |].
  - rewrite (proj1 (inst_file_read odd_lines [] [])) by (vm_compute; set_solver). reflexivity.
  - rewrite (proj2 (inst_file_read [] example_insts []) H0). reflexivity.
  - rewrite (proj2 (inst_file_read [] bad_latency []) H). reflexivity.
Defined.

Local Open Scope string_scope.

(** [def/Instruction.def] *)
Definition Instruction_def : string := "//File that describe LLVM instructions

// Terminator Instructions - These instructions are used to terminate a basic
// block of the program.   Every basic block must end with one of these
// instructions for it to be a well formed basic block.
//


 FIRST_TERM_INST  ( 1)
HANDLE_TERM_INST  ( 1, Ret           , ReturnInst       ,   2)
HANDLE_TERM_INST  ( 2, Br            , BranchInst       ,   2)
HANDLE_TERM_INST  ( 3, Switch        , SwitchInst       ,   2)
HANDLE_TERM_INST  ( 4, IndirectBr    , IndirectBrInst   ,   2)
HANDLE_TERM_INST  ( 5, Invoke        , InvokeInst       ,   2)
HANDLE_TERM_INST  ( 6, Resume        , ResumeInst       ,   2)
HANDLE_TERM_INST  ( 7, Unreachable   , UnreachableInst  ,   2)
HANDLE_TERM_INST  ( 8, CleanupRet    , CleanupReturnInst,   2)
HANDLE_TERM_INST  ( 9, CatchRet      , CatchReturnInst  ,   2)
HANDLE_TERM_INST  (10, CatchSwitch   , CatchSwitchInst  ,   2)
  LAST_TERM_INST  (10)

// Standard binary operators...
 FIRST_BINARY_INST(11)
HANDLE_BINARY_INST(11, Add  , BinaryOperator    ,    2)
HANDLE_BINARY_INST(12, FAdd , BinaryOperator    ,    2)
HANDLE_BINARY_INST(13, Sub  , BinaryOperator    ,    2)
HANDLE_BINARY_INST(14, FSub , BinaryOperator    ,    5)
HANDLE_BINARY_INST(15, Mul  , BinaryOperator    ,    2)
HANDLE_BINARY_INST(16, FMul , BinaryOperator    ,    5)
HANDLE_BINARY_INST(17, UDiv , BinaryOperator    ,    2)
HANDLE_BINARY_INST(18, SDiv , BinaryOperator    ,    2)
HANDLE_BINARY_INST(19, FDiv , BinaryOperator    ,    5)
HANDLE_BINARY_INST(20, URem , BinaryOperator    ,    2)
HANDLE_BINARY_INST(21, SRem , BinaryOperator    ,    2)
HANDLE_BINARY_INST(22, FRem , BinaryOperator    ,    5)

// Logical operators (integer operands)
HANDLE_BINARY_INST(23, Shl  , BinaryOperator    ,   2) // Shift left  (logical)
HANDLE_BINARY_INST(24, LShr , BinaryOperator    ,   2) // Shift right (logical)
HANDLE_BINARY_INST(25, AShr , BinaryOperator    ,   2) // Shift right (arithmetic)
HANDLE_BINARY_INST(26, And  , BinaryOperator    ,   2)
HANDLE_BINARY_INST(27, Or   , BinaryOperator    ,   2)
HANDLE_BINARY_INST(28, Xor  , BinaryOperator    ,   2)
  LAST_BINARY_INST(28)

// Memory operators...
 FIRST_MEMORY_INST(29)
HANDLE_MEMORY_INST(29, Alloca, AllocaInst       ,   2)  // Stack management
HANDLE_MEMORY_INST(30, Load  , LoadInst         ,   2)  // Memory manipulation instrs
HANDLE_MEMORY_INST(31, Store , StoreInst        ,   2)
HANDLE_MEMORY_INST(32, GetElementPtr, GetElementPtrInst ,   2)
HANDLE_MEMORY_INST(33, Fence , FenceInst        ,   2)
HANDLE_MEMORY_INST(34, AtomicCmpXchg , AtomicCmpXchgInst ,  2)
HANDLE_MEMORY_INST(35, AtomicRMW , AtomicRMWInst ,          2)
  LAST_MEMORY_INST(35)

// Cast operators ...
// NOTE: The order matters here because CastInst::isEliminableCastPair
// NOTE: (see Instructions.cpp) encodes a table based on this ordering.
 FIRST_CAST_INST(36)
HANDLE_CAST_INST(36, Trunc   , TruncInst    ,   2)  // Truncate integers
HANDLE_CAST_INST(37, ZExt    , ZExtInst     ,   2)  // Zero extend integers
HANDLE_CAST_INST(38, SExt    , SExtInst     ,   2)  // Sign extend integers
HANDLE_CAST_INST(39, FPToUI  , FPToUIInst   ,   2)  // floating point -> UInt
HANDLE_CAST_INST(40, FPToSI  , FPToSIInst   ,   2)  // floating point -> SInt
HANDLE_CAST_INST(41, UIToFP  , UIToFPInst   ,   2)  // UInt -> floating point
HANDLE_CAST_INST(42, SIToFP  , SIToFPInst   ,   2)  // SInt -> floating point
HANDLE_CAST_INST(43, FPTrunc , FPTruncInst  ,   2)  // Truncate floating point
HANDLE_CAST_INST(44, FPExt   , FPExtInst    ,   2)  // Extend floating point
HANDLE_CAST_INST(45, PtrToInt, PtrToIntInst ,   2)  // Pointer -> Integer
HANDLE_CAST_INST(46, IntToPtr, IntToPtrInst ,   2)  // Integer -> Pointer
HANDLE_CAST_INST(47, BitCast , BitCastInst  ,   2)  // Type cast
HANDLE_CAST_INST(48, AddrSpaceCast, AddrSpaceCastInst , 2)  // addrspace cast
  LAST_CAST_INST(48)

 FIRST_FUNCLETPAD_INST(49)
HANDLE_FUNCLETPAD_INST(49, CleanupPad, CleanupPadInst ,     2)
HANDLE_FUNCLETPAD_INST(50, CatchPad  , CatchPadInst ,       2)
  LAST_FUNCLETPAD_INST(50)

// Other operators...
 FIRST_OTHER_INST(51)
HANDLE_OTHER_INST(51, ICmp   , ICmpInst    ,    2)  // Integer comparison instruction
HANDLE_OTHER_INST(52, FCmp   , FCmpInst    ,    5)  // Floating point comparison instr.
HANDLE_OTHER_INST(53, PHI    , PHINode     ,    2)  // PHI node instruction
HANDLE_OTHER_INST(54, Call   , CallInst    ,    2)  // Call a function
HANDLE_OTHER_INST(55, Select , SelectInst  ,    2)  // select instruction
HANDLE_OTHER_INST(56, UserOp1, Instruction ,    2)  // May be used internally in a pass
HANDLE_OTHER_INST(57, UserOp2, Instruction ,    2)  // Internal to passes only
HANDLE_OTHER_INST(58, VAArg  , VAArgInst   ,    2)  // vaarg instruction
HANDLE_OTHER_INST(59, ExtractElement, ExtractElementInst ,      2)// extract from vector
HANDLE_OTHER_INST(60, InsertElement, InsertElementInst ,        2)  // insert into vector
HANDLE_OTHER_INST(61, ShuffleVector, ShuffleVectorInst ,        2)  // shuffle two vectors.
HANDLE_OTHER_INST(62, ExtractValue, ExtractValueInst   ,        2)// extract from aggregate
HANDLE_OTHER_INST(63, InsertValue, InsertValueInst ,            2)  // insert into aggregate
HANDLE_OTHER_INST(64, LandingPad, LandingPadInst ,              2)  // Landing pad instruction.
  LAST_OTHER_INST(64)

//Custom instructions
HANDLE_OTHER_INST(65, BB, BBInst ,      2)  // Start node
HANDLE_OTHER_INST(66, G, GInst ,        2)  // Gaurd function
HANDLE_OTHER_INST(67, FAKEIN, FAKEINInst ,      2)  // FAKE IN function
HANDLE_OTHER_INST(68, FAKEOUT, FAKEOUTInst ,    2)  // FAKE OUT function
HANDLE_OTHER_INST(69, END    , ENDInst,         2)  // END NODE
HANDLE_OTHER_INST(70, Nop    , NopInst,         2)  // Nop NODE

".

(** Every instruction has its latency: 5 for floating-point operations, but for
    addition and conversions, and 2 for the rest. *)
Example Instruction_def_latencies :
  (m ← readInst (to_text Instruction_def) [];
   Ret (length m, (λ k, mfind k m) <$> ["Ret"; "FMul"; "Shl"; "Load"; "FCmp"; "Nop"],
        (filter (λ e : string * Z, e.2 ≠ 2%Z) m).*1)) =
  Ret (70, [Some 2; Some 5; Some 2; Some 2; Some 5; Some 2]%Z,
       ["FCmp"; "FDiv"; "FMul"; "FRem"; "FSub"]).
Proof. vm_compute. reflexivity. Qed.

(** An instruction that is commented out is read all the same. *)
Example commented_instruction : readInst (to_text "// HANDLE_INST(1, Ret, ReturnInst, 9)") [] = Ret [("Ret", 9%Z)].
Proof. reflexivity. Qed.
