(* ===== verification/Util.v ===== *)
(** * Utilities of the library

    The functions of [util.C] ([gems-lib/common]) that Ruby's configuration and
    constructors use: splitting a string, logarithms and powers of two; and
    [atoi]. *)

From Stdlib Require Import Ascii.
From stdpp Require Import numbers strings.
From S2P Require Import Prelude Text.
Local Open Scope Z_scope.

(** Head and tail at the first split character. *)
Fixpoint string_split (str : string) (split_character : ascii) : string * string :=
  match str with
  | EmptyString => (EmptyString, EmptyString)
  | String c rest =>
      if Ascii.eqb c split_character then (EmptyString, rest)
      else let '(head, tail) := string_split rest split_character in (String c head, tail)
  end.

(** [atoi]: no digits count as 0, and the value of [strtol] is cut to an [int]. *)
Definition atoi (s : string) : Z :=
  let '(sign, s) := match skip_space s with
    | String "-" s' => (-1, s')
    | String "+" s' => (1, s')
    | s' => (1, s')
    end in
  i32 (Z.max (- 2 ^ 63) (Z.min (sign * (digits 0 0 s).1) (2 ^ 63 - 1))).

Fixpoint log_loop (fuel : nat) (n counter : Z) : outcome Z :=
  match fuel with
  | 0%nat => Raise NoFuel
  | S fuel => if 2 <=? n then log_loop fuel (Z.shiftr n 1) (counter + 1) else Ret counter
  end.

(** A [long long] has 63 bits to lose. *)
Definition log_int (n : Z) : outcome Z := assertb (0 <? n) ;; log_loop 64 n 0.

(** [n == (long long)(1) << log_int(n)]; the logarithm asserts that [n] is
    positive. *)
Definition is_power_of_2 (n : Z) : outcome bool :=
  r ← log_int n; Ret (n =? Z.shiftl 1 r).

(** ** What they compute *)

Lemma log_loop_log2 fuel : ∀ n c,
  0 < n < 2 ^ Z.of_nat fuel → log_loop fuel n c = Ret (c + Z.log2 n).
Proof.
  induction fuel as [|fuel IH]; intros n c Hn; [cbn in Hn; lia|]. cbn [log_loop].
  rewrite Nat2Z.inj_succ, Z.pow_succ_r in Hn by lia.
  destruct (Z.leb_spec 2 n).
  - assert (Hd : n / 2 ^ 1 < 2 ^ Z.of_nat fuel) by (apply Z.div_lt_upper_bound; lia).
    assert (1 ≤ n / 2 ^ 1) by (apply Z.div_le_lower_bound; lia).
    rewrite Z.shiftr_div_pow2 by lia. rewrite IH by lia. f_equal.
    rewrite <- (Z.shiftr_div_pow2 n 1), Z.log2_shiftr by lia.
    assert (0 < Z.log2 n) by (apply Z.log2_pos; lia). lia.
  - replace n with 1 by lia. cbn. f_equal. lia.
Qed.

Lemma log_int_ok n r : log_int n = Ret r → n < 2 ^ 63 → r = Z.log2 n ∧ 0 < n ∧ 2 ^ r ≤ n.
Proof.
  unfold log_int. destruct (Z.ltb_spec 0 n); [|done]. cbn [assertb mbind outcome_bind]. intros E Hn.
  assert (n < 2 ^ Z.of_nat 64) by (change (Z.of_nat 64) with 64; lia).
  rewrite log_loop_log2 in E by lia. injection E as <-. split; [done|]. split; [done|].
  apply (Z.log2_spec n). lia.
Qed.

Lemma log_int_log2 n : 0 < n < 2 ^ 63 → log_int n = Ret (Z.log2 n).
Proof.
  intros Hn. unfold log_int. rewrite (proj2 (Z.ltb_lt _ _)) by lia. cbn [assertb mbind outcome_bind].
  rewrite log_loop_log2; [done|]. change (Z.of_nat 64) with 64. lia.
Qed.

Lemma log_int_pow2 k : 0 ≤ k < 63 → log_int (2 ^ k) = Ret k.
Proof.
  intros Hk. rewrite log_int_log2, Z.log2_pow2 by (try split; try apply Z.pow_pos_nonneg; try apply Z.pow_lt_mono_r; lia).
  done.
Qed.

Lemma is_power_of_2_ok n :
  n < 2 ^ 63 →
  is_power_of_2 n = if 0 <? n then Ret (bool_decide (n = 2 ^ Z.log2 n)) else Raise AssertFailed.
Proof.
  intros Hn. unfold is_power_of_2. destruct (Z.ltb_spec 0 n).
  - rewrite log_int_log2 by lia. cbn. f_equal. rewrite Z.shiftl_1_l.
    destruct (Z.eqb_spec n (2 ^ Z.log2 n)); symmetry; [by apply bool_decide_eq_true|by apply bool_decide_eq_false].
  - unfold log_int. by rewrite (proj2 (Z.ltb_ge _ _)) by lia.
Qed.
