(* ===== verification/RubyConfig.v ===== *)
(** * The configuration of the memory system

    [RubyConfig.C] of [gems-lib/ruby_clean/config]: [init] checks the parameters
    the user sets and computes the others from them.  The parameters it does not
    touch, the seeding of [random] and printing are left out. *)

From stdpp Require Import numbers.
From S2P Require Import Prelude Text Util.
Local Open Scope Z_scope.

(** The parameters of [config.include] that [init] reads or writes. *)
Record globals := mkGlobals {
  MEM_BUS_CYCLE_MULTIPLIER : Z; BANKS_PER_RANK : Z; RANKS_PER_DIMM : Z; DIMMS_PER_CHANNEL : Z;
  BANK_QUEUE_SIZE : Z; BANK_BUSY_TIME : Z; MEM_CTL_LATENCY : Z; REFRESH_PERIOD : Z; BASIC_BUS_BUSY_TIME : Z;
  g_MEMORY_SIZE_BYTES : Z; g_DATA_BLOCK_BYTES : Z; g_PAGE_SIZE_BYTES : Z;
  g_NUM_PROCESSORS : Z; g_PROCS_PER_CHIP : Z; g_NUM_SMT_THREADS : Z; g_NUM_L2_BANKS : Z; g_NUM_MEMORIES : Z;
  L2_CACHE_NUM_SETS_BITS : Z;
  g_NUM_CHIPS : Z; g_NUM_CHIP_BITS : Z; g_MEMORY_SIZE_BITS : Z; g_DATA_BLOCK_BITS : Z; g_PAGE_SIZE_BITS : Z;
  g_NUM_PROCESSORS_BITS : Z; g_PROCS_PER_CHIP_BITS : Z; g_NUM_L2_BANKS_BITS : Z; g_NUM_L2_BANKS_PER_CHIP : Z;
  g_NUM_L2_BANKS_PER_CHIP_BITS : Z; g_NUM_MEMORIES_BITS : Z; g_NUM_MEMORIES_PER_CHIP : Z;
  g_MEMORY_MODULE_BITS : Z; g_MEMORY_MODULE_BLOCKS : Z
}.

(** [ERROR_MSG] ends the program, as a failing assertion does. *)
Definition CHECK_NON_ZERO (n : Z) : outcome unit := assertb (negb (n =? 0)).
Definition CHECK_ZERO (n : Z) : outcome unit := assertb (n =? 0).
Definition CHECK_POWER_OF_2 (n : Z) : outcome unit := b ← is_power_of_2 n; assertb b.

Definition check_all (check : Z → outcome unit) (l : list Z) : outcome unit := foldM (λ _ n, check n) tt l.

(** A parameter left at zero takes its default. *)
Definition or_default (n default : Z) : Z := if n =? 0 then default else n.

(** [int64(1) << bits] *)
Definition shift_one (bits : Z) : outcome Z :=
  if (bits <? 0) || (64 <=? bits) then Raise BadShift else Ret (Z.shiftl 1 bits).

Definition init (m_CMP : bool) (g : globals) : outcome globals :=
  check_all CHECK_NON_ZERO
    [MEM_BUS_CYCLE_MULTIPLIER g; BANKS_PER_RANK g; RANKS_PER_DIMM g; DIMMS_PER_CHANNEL g; BANK_QUEUE_SIZE g;
     BANK_BUSY_TIME g; MEM_CTL_LATENCY g; REFRESH_PERIOD g; BASIC_BUS_BUSY_TIME g] ;;
  check_all CHECK_POWER_OF_2 [BANKS_PER_RANK g; RANKS_PER_DIMM g; DIMMS_PER_CHANNEL g] ;;
  check_all CHECK_NON_ZERO
    [g_MEMORY_SIZE_BYTES g; g_DATA_BLOCK_BYTES g; g_PAGE_SIZE_BYTES g; g_NUM_PROCESSORS g; g_PROCS_PER_CHIP g] ;;
  let smt_threads := or_default (g_NUM_SMT_THREADS g) 1 in
  let l2_banks := or_default (g_NUM_L2_BANKS g) (g_NUM_PROCESSORS g) in
  let memories := or_default (g_NUM_MEMORIES g) (g_NUM_PROCESSORS g) in
  check_all CHECK_ZERO
    [g_MEMORY_SIZE_BITS g; g_DATA_BLOCK_BITS g; g_PAGE_SIZE_BITS g; g_NUM_PROCESSORS_BITS g; g_NUM_CHIP_BITS g;
     g_NUM_L2_BANKS_BITS g; g_NUM_MEMORIES_BITS g; g_PROCS_PER_CHIP_BITS g; g_NUM_L2_BANKS_PER_CHIP g;
     g_NUM_L2_BANKS_PER_CHIP_BITS g; g_NUM_MEMORIES_BITS g; g_MEMORY_MODULE_BLOCKS g; g_MEMORY_MODULE_BITS g;
     g_NUM_MEMORIES_PER_CHIP g] ;;
  check_all CHECK_POWER_OF_2
    [g_MEMORY_SIZE_BYTES g; g_DATA_BLOCK_BYTES g; g_NUM_PROCESSORS g; l2_banks; memories; g_PROCS_PER_CHIP g] ;;
  assertb (g_PROCS_PER_CHIP g <=? g_NUM_PROCESSORS g) ;;
  let chips := Z.quot (g_NUM_PROCESSORS g) (g_PROCS_PER_CHIP g) in
  assertb (chips <=? l2_banks) ;;
  let banks_per_chip := Z.quot l2_banks chips in
  banks_per_chip_bits ← log_int banks_per_chip;
  assertb (banks_per_chip_bits <? L2_CACHE_NUM_SETS_BITS g) ;;
  let sets_bits := L2_CACHE_NUM_SETS_BITS g - banks_per_chip_bits in
  let memories_per_chip := if memories <? chips then 1 else Z.quot memories chips in
  chip_bits ← log_int chips;
  memory_bits ← log_int (g_MEMORY_SIZE_BYTES g);
  block_bits ← log_int (g_DATA_BLOCK_BYTES g);
  page_bits ← log_int (g_PAGE_SIZE_BYTES g);
  processors_bits ← log_int (g_NUM_PROCESSORS g);
  banks_bits ← log_int l2_banks;
  memories_bits ← log_int memories;
  procs_per_chip_bits ← log_int (g_PROCS_PER_CHIP g);
  let module_bits := memory_bits - block_bits - memories_bits in
  module_blocks ← shift_one module_bits;
  assertb (negb (negb m_CMP && (1 <? g_PROCS_PER_CHIP g))) ;;
  Ret (mkGlobals (MEM_BUS_CYCLE_MULTIPLIER g) (BANKS_PER_RANK g) (RANKS_PER_DIMM g) (DIMMS_PER_CHANNEL g)
    (BANK_QUEUE_SIZE g) (BANK_BUSY_TIME g) (MEM_CTL_LATENCY g) (REFRESH_PERIOD g) (BASIC_BUS_BUSY_TIME g)
    (g_MEMORY_SIZE_BYTES g) (g_DATA_BLOCK_BYTES g) (g_PAGE_SIZE_BYTES g)
    (g_NUM_PROCESSORS g) (g_PROCS_PER_CHIP g) smt_threads l2_banks memories sets_bits
    chips chip_bits memory_bits block_bits page_bits processors_bits procs_per_chip_bits banks_bits banks_per_chip
    banks_per_chip_bits memories_bits memories_per_chip module_bits module_blocks).

Definition L1CacheNumToL2Base (g : globals) (L1CacheNum : Z) : Z := Z.quot L1CacheNum (g_PROCS_PER_CHIP g).

(** ** What a configuration promises *)

Definition power_of_2 (n : Z) : Prop := ∃ k, 0 ≤ k ∧ n = 2 ^ k.

(** The parameters as powers of two that fit together. *)
Record config_ok (g : globals) : Prop := {
  co_block : g_DATA_BLOCK_BYTES g = 2 ^ g_DATA_BLOCK_BITS g ∧ 0 ≤ g_DATA_BLOCK_BITS g;
  co_memory : g_MEMORY_SIZE_BYTES g = 2 ^ g_MEMORY_SIZE_BITS g ∧ g_MEMORY_SIZE_BITS g < 63;
  co_processors : g_NUM_PROCESSORS g = 2 ^ g_NUM_PROCESSORS_BITS g ∧ 0 ≤ g_NUM_PROCESSORS_BITS g;
  co_procs : g_PROCS_PER_CHIP g = 2 ^ g_PROCS_PER_CHIP_BITS g ∧ 0 ≤ g_PROCS_PER_CHIP_BITS g;
  co_chips : g_NUM_CHIPS g = 2 ^ g_NUM_CHIP_BITS g ∧ 0 ≤ g_NUM_CHIP_BITS g;
  co_banks : g_NUM_L2_BANKS g = 2 ^ g_NUM_L2_BANKS_BITS g ∧ 0 ≤ g_NUM_L2_BANKS_BITS g;
  co_banks_chip : g_NUM_L2_BANKS_PER_CHIP g = 2 ^ g_NUM_L2_BANKS_PER_CHIP_BITS g ∧ 0 ≤ g_NUM_L2_BANKS_PER_CHIP_BITS g;
  co_memories : g_NUM_MEMORIES g = 2 ^ g_NUM_MEMORIES_BITS g ∧ 0 ≤ g_NUM_MEMORIES_BITS g;
  co_module : g_MEMORY_MODULE_BLOCKS g = 2 ^ g_MEMORY_MODULE_BITS g ∧ 0 ≤ g_MEMORY_MODULE_BITS g;
  co_sum_processors : g_NUM_PROCESSORS_BITS g = g_NUM_CHIP_BITS g + g_PROCS_PER_CHIP_BITS g;
  co_sum_banks : g_NUM_L2_BANKS_BITS g = g_NUM_CHIP_BITS g + g_NUM_L2_BANKS_PER_CHIP_BITS g;
  co_sum_memory : g_MEMORY_SIZE_BITS g = g_DATA_BLOCK_BITS g + g_NUM_MEMORIES_BITS g + g_MEMORY_MODULE_BITS g;
  co_sets : 0 < L2_CACHE_NUM_SETS_BITS g;
  co_memories_chip : g_NUM_MEMORIES_PER_CHIP g * g_NUM_CHIPS g = Z.max (g_NUM_MEMORIES g) (g_NUM_CHIPS g);
  co_threads : g_NUM_SMT_THREADS g ≠ 0;
  co_int : g_DATA_BLOCK_BITS g < 31 ∧ g_NUM_PROCESSORS_BITS g < 31 ∧ g_NUM_L2_BANKS_BITS g < 31 ∧ g_NUM_MEMORIES_BITS g < 31
}.

(** The parameters fit their types, [int] except for the size of the memory,
    which is unsigned and stays below 2^63, where [long long] holds it. *)
Definition fits (n : Z) : Prop := - 2 ^ 63 ≤ n < 2 ^ 63.
Definition fits_int (n : Z) : Prop := - 2 ^ 31 ≤ n < 2 ^ 31.

Record typed (g : globals) : Prop := {
  ty_memory : fits (g_MEMORY_SIZE_BYTES g);
  ty_int : Forall fits_int
    [g_DATA_BLOCK_BYTES g; g_PAGE_SIZE_BYTES g; g_NUM_PROCESSORS g; g_PROCS_PER_CHIP g; g_NUM_L2_BANKS g;
     g_NUM_MEMORIES g; BANKS_PER_RANK g; RANKS_PER_DIMM g; DIMMS_PER_CHANNEL g]
}.

(** What [init] asks of the user. *)
Record accepted (m_CMP : bool) (g : globals) : Prop := {
  ac_non_zero : Forall (λ n, n ≠ 0)
    [MEM_BUS_CYCLE_MULTIPLIER g; BANK_QUEUE_SIZE g; BANK_BUSY_TIME g; MEM_CTL_LATENCY g; REFRESH_PERIOD g;
     BASIC_BUS_BUSY_TIME g];
  ac_page : 0 < g_PAGE_SIZE_BYTES g;
  ac_power : Forall power_of_2
    [BANKS_PER_RANK g; RANKS_PER_DIMM g; DIMMS_PER_CHANNEL g; g_MEMORY_SIZE_BYTES g; g_DATA_BLOCK_BYTES g;
     g_NUM_PROCESSORS g; or_default (g_NUM_L2_BANKS g) (g_NUM_PROCESSORS g);
     or_default (g_NUM_MEMORIES g) (g_NUM_PROCESSORS g); g_PROCS_PER_CHIP g];
  ac_zero : Forall (λ n, n = 0)
    [g_MEMORY_SIZE_BITS g; g_DATA_BLOCK_BITS g; g_PAGE_SIZE_BITS g; g_NUM_PROCESSORS_BITS g; g_NUM_CHIP_BITS g;
     g_NUM_L2_BANKS_BITS g; g_NUM_MEMORIES_BITS g; g_PROCS_PER_CHIP_BITS g; g_NUM_L2_BANKS_PER_CHIP g;
     g_NUM_L2_BANKS_PER_CHIP_BITS g; g_NUM_MEMORIES_PER_CHIP g; g_MEMORY_MODULE_BLOCKS g; g_MEMORY_MODULE_BITS g];
  ac_chip : g_PROCS_PER_CHIP g ≤ g_NUM_PROCESSORS g;
  ac_bank : g_NUM_PROCESSORS g ≤ or_default (g_NUM_L2_BANKS g) (g_NUM_PROCESSORS g) * g_PROCS_PER_CHIP g;
  ac_sets : or_default (g_NUM_L2_BANKS g) (g_NUM_PROCESSORS g) * g_PROCS_PER_CHIP g <
    g_NUM_PROCESSORS g * 2 ^ L2_CACHE_NUM_SETS_BITS g;
  ac_cmp : m_CMP = true ∨ g_PROCS_PER_CHIP g = 1
}.

(** The memory has a line for each of its modules. *)
Definition memory_fits (g : globals) : Prop :=
  g_DATA_BLOCK_BYTES g * or_default (g_NUM_MEMORIES g) (g_NUM_PROCESSORS g) ≤ g_MEMORY_SIZE_BYTES g.

(** ** Checks as conditions *)

Lemma check_all_assert check (p : Z → bool) l :
  (∀ n, n ∈ l → check n = assertb (p n)) → check_all check l = assertb (forallb p l).
Proof.
  unfold check_all. induction l as [|n l IH]; intros Hc; [done|]. cbn. rewrite Hc by set_solver.
  destruct (p n); [|done]. cbn. apply IH. set_solver.
Qed.

Lemma non_zero_all l : check_all CHECK_NON_ZERO l = assertb (forallb (λ n, negb (n =? 0)) l).
Proof. by apply check_all_assert. Qed.

Lemma zero_all l : check_all CHECK_ZERO l = assertb (forallb (λ n, n =? 0) l).
Proof. by apply check_all_assert. Qed.

Definition pow2b (n : Z) : bool := (0 <? n) && bool_decide (n = 2 ^ Z.log2 n).

Lemma pow2b_spec n : pow2b n = true ↔ power_of_2 n.
Proof.
  unfold pow2b. rewrite andb_true_iff, Z.ltb_lt, bool_decide_eq_true. split.
  - intros [H1 H2]. exists (Z.log2 n). split; [apply Z.log2_nonneg|done].
  - intros (k & Hk & ->). rewrite Z.log2_pow2 by done. split; [by apply Z.pow_pos_nonneg|done].
Qed.

Lemma power_all l : Forall fits l → check_all CHECK_POWER_OF_2 l = assertb (forallb pow2b l).
Proof.
  intros Hl. apply check_all_assert. intros n Hn. rewrite Forall_forall in Hl. specialize (Hl n Hn).
  unfold CHECK_POWER_OF_2, pow2b, fits in *. rewrite is_power_of_2_ok by lia. by destruct (0 <? n).
Qed.

Lemma forallb_Forall {A} (p : A → bool) (P : A → Prop) l :
  (∀ x, p x = true ↔ P x) → forallb p l = true ↔ Forall P l.
Proof.
  intros Hp. rewrite forallb_forall, Forall_forall. setoid_rewrite <- list_elem_of_In. by setoid_rewrite Hp.
Qed.

Lemma non_zero_spec l : forallb (λ n, negb (n =? 0)) l = true ↔ Forall (λ n, n ≠ 0) l.
Proof. apply forallb_Forall. intros n. by rewrite negb_true_iff, Z.eqb_neq. Qed.

Lemma zero_spec l : forallb (λ n, n =? 0) l = true ↔ Forall (λ n, n = 0) l.
Proof. apply forallb_Forall. intros n. apply Z.eqb_eq. Qed.

Lemma power_spec l : forallb pow2b l = true ↔ Forall power_of_2 l.
Proof. apply forallb_Forall, pow2b_spec. Qed.

Lemma power_fits k : 0 ≤ k → fits (2 ^ k) → 0 ≤ k < 63.
Proof. intros Hk [_ H]. split; [done|]. by apply (Z.pow_lt_mono_r_iff 2) in H. Qed.

Lemma power_fits_int k : 0 ≤ k → fits_int (2 ^ k) → 0 ≤ k < 31.
Proof. intros Hk [_ H]. split; [done|]. by apply (Z.pow_lt_mono_r_iff 2) in H. Qed.

Lemma fits_int_fits n : fits_int n → fits n.
Proof. unfold fits_int, fits. lia. Qed.

Lemma fits_default n d : fits_int n → fits_int d → fits_int (or_default n d).
Proof. intros. unfold or_default. by destruct (n =? 0). Qed.

Lemma quot_pow2 a b : 0 ≤ b ≤ a → Z.quot (2 ^ a) (2 ^ b) = 2 ^ (a - b).
Proof.
  intros H. rewrite Z.quot_div_nonneg by (try apply Z.pow_pos_nonneg; try apply Z.pow_nonneg; lia).
  symmetry. apply Z.pow_sub_r; lia.
Qed.

(** The exponents of an accepted configuration. *)
Record exponents (m_CMP : bool) (g : globals) (m b p l n c : Z) : Prop := {
  ex_memory : g_MEMORY_SIZE_BYTES g = 2 ^ m ∧ 0 ≤ m < 63;
  ex_block : g_DATA_BLOCK_BYTES g = 2 ^ b ∧ 0 ≤ b < 31;
  ex_processors : g_NUM_PROCESSORS g = 2 ^ p ∧ 0 ≤ p < 31;
  ex_banks : or_default (g_NUM_L2_BANKS g) (g_NUM_PROCESSORS g) = 2 ^ l ∧ 0 ≤ l < 31;
  ex_memories : or_default (g_NUM_MEMORIES g) (g_NUM_PROCESSORS g) = 2 ^ n ∧ 0 ≤ n < 31;
  ex_procs : g_PROCS_PER_CHIP g = 2 ^ c ∧ 0 ≤ c < 31;
  ex_chips : c ≤ p ∧ p ≤ l + c;
  ex_sets : l - (p - c) < L2_CACHE_NUM_SETS_BITS g
}.

Lemma typed_ints a b c d e f h i j :
  Forall fits_int [a; b; c; d; e; f; h; i; j] →
  fits_int a ∧ fits_int b ∧ fits_int c ∧ fits_int d ∧ fits_int e ∧ fits_int f ∧ fits_int h ∧ fits_int i ∧ fits_int j.
Proof. intros H. repeat (apply Forall_cons in H as [? H]). done. Qed.

Lemma accepted_exponents m_CMP g :
  typed g → accepted m_CMP g → ∃ m b p l n c, exponents m_CMP g m b p l n c.
Proof.
  intros [T1 (T2 & T3 & T4 & T5 & T6 & T7 & _)%typed_ints] [A1 A2 A3 A4 A5 A6 A7 A8].
  repeat (apply Forall_cons in A3 as [? A3]). 
  pose proof (fits_default _ _ T6 T4) as T6'. pose proof (fits_default _ _ T7 T4) as T7'.
  repeat match goal with H : power_of_2 _ |- _ => destruct H as (? & ? & ?) end.
  repeat match goal with E : ?x = 2 ^ _, T : fits_int ?x |- _ => rewrite E in T; apply power_fits_int in T; [|done]
  | E : ?x = 2 ^ _, T : fits ?x |- _ => rewrite E in T; apply power_fits in T; [|done] end.
  match goal with Em : g_MEMORY_SIZE_BYTES g = 2 ^ ?m, Eb : g_DATA_BLOCK_BYTES g = 2 ^ ?b, Ep : g_NUM_PROCESSORS g = 2 ^ ?p,
    El : or_default (g_NUM_L2_BANKS g) _ = 2 ^ ?l, En : or_default (g_NUM_MEMORIES g) _ = 2 ^ ?n,
    Ec : g_PROCS_PER_CHIP g = 2 ^ ?c |- _ => exists m, b, p, l, n, c; rewrite El, Ec in A6, A7; rewrite Ep in A6, A7; rewrite Ep, Ec in A5 end.
  rewrite <- Z.pow_add_r in A6, A7 by lia.
  split; try (split; done).
  - split; [by apply (Z.pow_le_mono_r_iff 2) in A5|by apply (Z.pow_le_mono_r_iff 2) in A6; lia].
  - destruct (Z.leb_spec 0 (L2_CACHE_NUM_SETS_BITS g)) as [Hs|Hs].
    + rewrite <- Z.pow_add_r in A7 by lia. apply (Z.pow_lt_mono_r_iff 2) in A7; lia.
    + rewrite (Z.pow_neg_r 2 (L2_CACHE_NUM_SETS_BITS g)), Z.mul_0_r in A7 by lia.
      match type of A7 with ?x < _ => assert (0 ≤ x) by (apply Z.pow_nonneg; lia) end. lia.
Qed.

Ltac solve_all tac := repeat (apply Forall_cons; split; [tac|]); by apply Forall_nil.
Ltac check_step := cbn [assertb mbind outcome_bind negb andb].

(** What [init] computes from the exponents. *)
Definition computed (g : globals) (m b p l n c : Z) : globals :=
  mkGlobals (MEM_BUS_CYCLE_MULTIPLIER g) (BANKS_PER_RANK g) (RANKS_PER_DIMM g) (DIMMS_PER_CHANNEL g)
    (BANK_QUEUE_SIZE g) (BANK_BUSY_TIME g) (MEM_CTL_LATENCY g) (REFRESH_PERIOD g) (BASIC_BUS_BUSY_TIME g)
    (2 ^ m) (2 ^ b) (g_PAGE_SIZE_BYTES g) (2 ^ p) (2 ^ c) (or_default (g_NUM_SMT_THREADS g) 1) (2 ^ l) (2 ^ n)
    (L2_CACHE_NUM_SETS_BITS g - (l - (p - c)))
    (2 ^ (p - c)) (p - c) m b (Z.log2 (g_PAGE_SIZE_BYTES g)) p c l (2 ^ (l - (p - c))) (l - (p - c)) n
    (if 2 ^ n <? 2 ^ (p - c) then 1 else Z.quot (2 ^ n) (2 ^ (p - c))) (m - b - n) (2 ^ (m - b - n)).

Lemma computed_ok m_CMP g m b p l n c :
  exponents m_CMP g m b p l n c → 0 ≤ m - b - n → config_ok (computed g m b p l n c).
Proof.
  intros [[_ Hm] [_ Hb] [_ Hp] [_ Hl] [_ Hn] [_ Hc] Hch Hs] Hmod.
  split; cbn; try (split; (done || lia)); try lia; [|unfold or_default; destruct (Z.eqb_spec (g_NUM_SMT_THREADS g) 0); lia].
  destruct (Z.ltb_spec (2 ^ n) (2 ^ (p - c))) as [H|H]; [lia|].
  apply (Z.pow_le_mono_r_iff 2) in H as H'; [|lia..]. rewrite quot_pow2, <- Z.pow_add_r by lia.
  replace (n - (p - c) + (p - c)) with n by lia. lia.
Qed.

Lemma init_exponents m_CMP g m b p l n c :
  typed g → accepted m_CMP g → exponents m_CMP g m b p l n c →
  init m_CMP g = if 0 <=? m - b - n then Ret (computed g m b p l n c) else Raise BadShift.
Proof.
  intros HT HA [[Em Hm] [Eb Hb] [Ep Hp] [El Hl] [En Hn] [Ec Hc] Hch Hs].
  destruct HT as [T1 (T2 & T3 & T4 & T5 & T6 & T7 & T8 & T9 & T10)%typed_ints]. destruct HA as [A1 A2 A3 A4 A5 A6 A7 A8].
  pose proof (fits_default _ _ T6 T4) as T6'. pose proof (fits_default _ _ T7 T4) as T7'.
  assert (Hnz : ∀ x, power_of_2 x → x ≠ 0).
  { intros x (k & Hk & ->). pose proof (Z.pow_pos_nonneg 2 k). lia. }
  pose proof A3 as P. repeat (apply Forall_cons in P as [? P]).
  repeat (apply Forall_cons in A1 as [? A1]). repeat (apply Forall_cons in A4 as [? A4]).
  unfold init. rewrite !non_zero_all, zero_all, !power_all by (solve_all ltac:(first [done|by apply fits_int_fits])).
  rewrite (proj2 (non_zero_spec _)) by (solve_all ltac:(first [by auto|lia])). check_step.
  rewrite (proj2 (power_spec _)) by (solve_all ltac:(first [by auto|lia])). check_step.
  rewrite (proj2 (non_zero_spec _)) by (solve_all ltac:(first [by auto|lia])). check_step.
  rewrite (proj2 (zero_spec _)) by (solve_all ltac:(first [by auto|lia])). check_step.
  rewrite (proj2 (power_spec _)) by (solve_all ltac:(first [by auto|lia])). check_step.
  rewrite (proj2 (Z.leb_le _ _) A5). check_step.
  rewrite El, En, Em, Eb, Ep, Ec. rewrite (quot_pow2 p c) by lia.
  rewrite (proj2 (Z.leb_le (2 ^ (p - c)) (2 ^ l))) by (apply Z.pow_le_mono_r; lia). check_step.
  rewrite (quot_pow2 l (p - c)), (log_int_pow2 (l - (p - c))) by lia. check_step.
  rewrite (proj2 (Z.ltb_lt (l - (p - c)) (L2_CACHE_NUM_SETS_BITS g))) by lia. check_step.
  rewrite !log_int_pow2 by lia. check_step. rewrite log_int_log2 by (unfold fits_int in T3; lia). check_step.
  unfold shift_one. destruct (Z.leb_spec 0 (m - b - n)).
  - rewrite (proj2 (Z.ltb_ge (m - b - n) 0)), (proj2 (Z.leb_gt 64 (m - b - n))) by lia. cbn [orb]. check_step.
    assert (negb m_CMP && (1 <? 2 ^ c) = false) as ->.
    { destruct A8 as [-> | A8]; [done|]. rewrite Ec in A8. by rewrite A8, andb_false_r. }
    check_step. by rewrite Z.shiftl_1_l.
  - by rewrite (proj2 (Z.ltb_lt (m - b - n) 0)) by lia.
Qed.

Lemma fits_exponents m_CMP g m b p l n c :
  exponents m_CMP g m b p l n c → memory_fits g ↔ 0 ≤ m - b - n.
Proof.
  intros [[Em Hm] [Eb Hb] _ _ [En Hn] _ _ _]. unfold memory_fits. rewrite Em, Eb, En, <- Z.pow_add_r by lia.
  rewrite <- Z.pow_le_mono_r_iff by lia. lia.
Qed.

(** The banks of a chip, when [init] has checked them. *)
Lemma banks_checked P L C s r :
  power_of_2 P → power_of_2 L → power_of_2 C → fits L → C ≤ P →
  Z.quot P C ≤ L → log_int (Z.quot L (Z.quot P C)) = Ret r → r < s →
  P ≤ L * C ∧ L * C < P * 2 ^ s.
Proof.
  intros (p & Hp & ->) (l & Hl & ->) (c & Hc & ->) HL Hcp Hq Hr Hs.
  apply power_fits in HL; [|done]. apply (Z.pow_le_mono_r_iff 2) in Hcp; [|lia..].
  rewrite (quot_pow2 p c) in Hq, Hr by lia. apply (Z.pow_le_mono_r_iff 2) in Hq; [|lia..].
  rewrite (quot_pow2 l (p - c)), log_int_pow2 in Hr by lia. injection Hr as <-.
  rewrite <- !Z.pow_add_r by lia. split; [apply Z.pow_le_mono_r; lia|apply Z.pow_lt_mono_r; lia].
Qed.

Lemma log_int_positive n r : log_int n = Ret r → 0 < n.
Proof. unfold log_int. destruct (Z.ltb_spec 0 n); [done|]. discriminate. Qed.

(** Whatever [init] lets through was accepted. *)
Lemma init_returns m_CMP g g' : typed g → init m_CMP g = Ret g' → accepted m_CMP g.
Proof.
  intros [T1 (T2 & T3 & T4 & T5 & T6 & T7 & T8 & T9 & T10)%typed_ints] E.
  pose proof (fits_default _ _ T6 T4) as T6'. pose proof (fits_default _ _ T7 T4) as T7'.
  unfold init in E. rewrite !non_zero_all, zero_all, !power_all in E by (solve_all ltac:(first [done|by apply fits_int_fits])).
  unbind E. repeat match goal with H : assertb _ = Ret _ |- _ => apply assertb_ret in H end.
  match goal with H : negb (_ && _) = true |- _ => rename H into Hc end.
  repeat match goal with
  | H : forallb _ _ = true |- _ => first [apply non_zero_spec in H|apply zero_spec in H|apply power_spec in H]
  end.
  repeat match goal with H : Forall _ (_ :: _) |- _ => apply Forall_cons in H as [? H] end.
  rewrite Z.leb_le in *. rewrite Z.ltb_lt in *.
  assert (Hb : g_NUM_PROCESSORS g ≤ or_default (g_NUM_L2_BANKS g) (g_NUM_PROCESSORS g) * g_PROCS_PER_CHIP g ∧
    or_default (g_NUM_L2_BANKS g) (g_NUM_PROCESSORS g) * g_PROCS_PER_CHIP g <
    g_NUM_PROCESSORS g * 2 ^ L2_CACHE_NUM_SETS_BITS g) by (eapply banks_checked; first [eassumption|by apply fits_int_fits]).
  destruct Hb.
  match goal with H : log_int (g_PAGE_SIZE_BYTES g) = _ |- _ => apply log_int_positive in H end.
  split; try (solve_all ltac:(eassumption)); try assumption.
  destruct m_CMP; [by left|right]. cbn in Hc. apply negb_true_iff, Z.ltb_ge in Hc.
  assert (0 < g_PROCS_PER_CHIP g); [|lia]. by eapply log_int_positive.
Qed.

(** The parameters [init] may not change, and the defaults it fills in. *)
Record keeps (g g' : globals) : Prop := {
  ke_memory : g_MEMORY_SIZE_BYTES g' = g_MEMORY_SIZE_BYTES g;
  ke_block : g_DATA_BLOCK_BYTES g' = g_DATA_BLOCK_BYTES g;
  ke_page : g_PAGE_SIZE_BYTES g' = g_PAGE_SIZE_BYTES g;
  ke_processors : g_NUM_PROCESSORS g' = g_NUM_PROCESSORS g;
  ke_procs : g_PROCS_PER_CHIP g' = g_PROCS_PER_CHIP g;
  ke_banks : g_NUM_L2_BANKS g' = or_default (g_NUM_L2_BANKS g) (g_NUM_PROCESSORS g);
  ke_memories : g_NUM_MEMORIES g' = or_default (g_NUM_MEMORIES g) (g_NUM_PROCESSORS g)
}.

Lemma computed_keeps m_CMP g m b p l n c : exponents m_CMP g m b p l n c → keeps g (computed g m b p l n c).
Proof. intros []. by split; cbn; intuition. Qed.

(** [C33] A configuration [init] accepts is one where every size is the power of
    two of the width computed for it, the processors are spread evenly over the
    chips, the cache banks evenly over the chips, the memory evenly over its
    modules, and each bank keeps a set; it accepts exactly the parameters that
    satisfy its checks and whose memory has a line for each module.  Memory too
    small for its modules passes every check and shifts by a negative count. *)
Theorem config_init m_CMP g :
  typed g →
  (accepted m_CMP g ∧ memory_fits g → ∃ g', init m_CMP g = Ret g' ∧ config_ok g' ∧ keeps g g') ∧
  (∀ g', init m_CMP g = Ret g' → accepted m_CMP g ∧ memory_fits g) ∧
  (accepted m_CMP g ∧ ¬ memory_fits g → init m_CMP g = Raise BadShift).
Proof.
  intros HT. split; [|split].
  - intros [HA HF]. destruct (accepted_exponents _ _ HT HA) as (m & b & p & l & n & c & Hex).
    apply (fits_exponents _ _ _ _ _ _ _ _ Hex) in HF. exists (computed g m b p l n c).
    rewrite (init_exponents _ _ _ _ _ _ _ _ HT HA Hex), (proj2 (Z.leb_le _ _) HF).
    split; [done|]. split; [by eapply computed_ok|by eapply computed_keeps].
  - intros g' E. pose proof (init_returns _ _ _ HT E) as HA. split; [done|].
    destruct (accepted_exponents _ _ HT HA) as (m & b & p & l & n & c & Hex).
    rewrite (init_exponents _ _ _ _ _ _ _ _ HT HA Hex) in E. rewrite (fits_exponents _ _ _ _ _ _ _ _ Hex).
    by destruct (Z.leb_spec 0 (m - b - n)).
  - intros [HA HF]. destruct (accepted_exponents _ _ HT HA) as (m & b & p & l & n & c & Hex).
    rewrite (fits_exponents _ _ _ _ _ _ _ _ Hex) in HF. rewrite (init_exponents _ _ _ _ _ _ _ _ HT HA Hex).
    by destruct (Z.leb_spec 0 (m - b - n)).
Qed.

(** Sixteen processors on four chips, four banks and two memories a chip. *)
Definition example_config (memory : Z) : globals :=
  mkGlobals 10 8 2 2 12 11 10 10 2 memory 64 4096 16 4 0 0 8 16 0 0 0 0 0 0 0 0 0 0 0 0 0 0.

Lemma example_typed memory : fits memory → typed (example_config memory).
Proof. intros H. split; [exact H|]. cbn. solve_all ltac:(unfold fits_int; lia). Qed.

Lemma config_init_witness :
  typed (example_config (2 ^ 32)) ∧
  ∃ g', init true (example_config (2 ^ 32)) = Ret g' ∧ config_ok g' ∧ keeps (example_config (2 ^ 32)) g' ∧
        g_MEMORY_MODULE_BITS g' = 23.
Proof.
  assert (HT : typed (example_config (2 ^ 32))) by (apply example_typed; unfold fits; lia).
  split; [exact HT|].
  assert (E : ∃ g', init true (example_config (2 ^ 32)) = Ret g' ∧ g_MEMORY_MODULE_BITS g' = 23)
    by (eexists; split; vm_compute; reflexivity).
  destruct E as (g1 & E1 & Hbits).
  destruct (config_init true (example_config (2 ^ 32)) HT) as (H1 & H2 & _).
  destruct (H1 (H2 g1 E1)) as (g' & E & Hok & Hk). exists g'. split; [exact E|]. split; [exact Hok|]. split; [exact Hk|].
  rewrite E1 in E. injection E as <-. exact Hbits.
Defined.

(** 256 bytes of memory in 64-byte lines do not fill eight modules. *)
Example config_shift : init true (example_config 256) = Raise BadShift.
Proof. vm_compute. reflexivity. Qed.
