(* ===== verification/Histogram.v ===== *)
(** * Histograms

    The counting loops of [src/src/newGraph.cpp]: find the key, start it at one
    or increment its counter.  Counters are [uint32_t]; they do not wrap as
    long as fewer than 2^32 keys are counted. *)

From S2P Require Import Prelude OrdMap.
Open Scope Z_scope.

Section histo.
Context `{KeyOrder K}.

(** One step of a counting loop. *)
Definition count_key (h : ordmap K Z) (k : K) : ordmap K Z :=
  malter (λ o, match o with None => 1 | Some n => u32 (n + 1) end) k h.

(** The same step with a [uint64_t] counter. *)
Definition count_key64 (h : ordmap K Z) (k : K) : ordmap K Z :=
  malter (λ o, match o with None => 1 | Some n => u64 (n + 1) end) k h.

Definition histogram (ks : list K) : ordmap K Z := foldl count_key [] ks.

(** Largest value of a counting map, at least [m]. *)
Definition max_value (m : Z) (h : ordmap K Z) : Z :=
  foldl (λ m e, if m <? e.2 then e.2 else m) m h.

(** Sum of the values, as a [uint32_t]. *)
Definition sum_values (h : ordmap K Z) : Z := foldl (λ s e, u32 (s + e.2)) 0 h.

(** How often a key occurs. *)
Definition occurs (k : K) (ks : list K) : Z := Z.of_nat (length (filter (λ j, j = k) ks)).

Lemma occurs_nonneg k ks : 0 ≤ occurs k ks.
Proof. unfold occurs. lia. Qed.

Lemma occurs_cons k j ks : occurs k (j :: ks) = (if decide (j = k) then 1 else 0) + occurs k ks.
Proof. unfold occurs. rewrite filter_cons. case_decide; cbn [length]; lia. Qed.

Lemma occurs_zero k ks : occurs k ks = 0 ↔ k ∉ ks.
Proof.
  unfold occurs. induction ks as [|j ks IH]; [set_solver|].
  rewrite filter_cons. case_decide as Hj.
  - subst. cbn [length]. split; [lia|set_solver].
  - rewrite IH. set_solver.
Qed.

(** No counter wraps while [n] more keys are counted. *)
Definition room (n : nat) (h : ordmap K Z) : Prop :=
  ∀ j v, mfind j h = Some v → 1 ≤ v ∧ v + Z.of_nat n < 2 ^ 32.

Lemma count_key_find h j k n : room (S n) h →
  default 0 (mfind k (count_key h j)) = default 0 (mfind k h) + if decide (j = k) then 1 else 0.
Proof.
  intros Hh. unfold count_key. rewrite mfind_alter.
  destruct (kcmp k j) eqn:E.
  1: apply kcmp_eq in E as ->; rewrite (decide_True (P := j = j)) by done.
  1: destruct (mfind j h) as [m|] eqn:Ej; cbn; [|done].
  1: destruct (Hh j m Ej); rewrite u32_id by lia; done.
  all: rewrite (decide_False (P := j = k)); [lia|]; intros ->; by rewrite kcmp_refl in E.
Qed.

Lemma count_key_room h j n : room (S n) h → Z.of_nat (S n) < 2 ^ 32 → room n (count_key h j).
Proof.
  intros Hh Hn i m Hi. pose proof (count_key_find h j i n Hh) as Hd. rewrite Hi in Hd. cbn in Hd.
  assert (Hold : 0 ≤ default 0 (mfind i h) ∧ default 0 (mfind i h) + Z.of_nat (S n) < 2 ^ 32).
  { destruct (mfind i h) as [v|] eqn:Ev; cbn; [destruct (Hh i v Ev)|]; lia. }
  split; [|case_decide; lia]. case_decide as Hj; [lia|].
  destruct (mfind i h) as [v|] eqn:Ev; cbn in *; [destruct (Hh i v Ev); lia|].
  unfold count_key in Hi. rewrite mfind_alter in Hi.
  destruct (kcmp i j) eqn:E; [|congruence..]. apply kcmp_eq in E. congruence.
Qed.

Lemma count_keys_find ks h k : room (length ks) h → Z.of_nat (length ks) < 2 ^ 32 →
  default 0 (mfind k (foldl count_key h ks)) = default 0 (mfind k h) + occurs k ks ∧
  room 0 (foldl count_key h ks).
Proof.
  revert h. induction ks as [|j ks IH]; intros h Hh Hlen; cbn [length foldl] in *.
  - split; [unfold occurs; cbn; lia|done].
  - destruct (IH (count_key h j)) as [IH1 IH2]; [by apply count_key_room|lia|].
    split; [|done]. rewrite IH1, occurs_cons, (count_key_find _ _ _ _ Hh). lia.
Qed.

(** Without overflow the two widths count alike. *)
Lemma count_key64_eq h k n : room (S n) h → count_key64 h k = count_key h k.
Proof.
  intros Hh. unfold count_key64, count_key, malter. destruct (mfind k h) as [v|] eqn:E; [|done].
  destruct (Hh k v E). f_equal. unfold u64, u32. by rewrite !Z.mod_small by lia.
Qed.

Lemma room_nil n : room n [].
Proof. done. Qed.

Lemma histogram_find ks k : Z.of_nat (length ks) < 2 ^ 32 →
  mfind k (histogram ks) = if decide (occurs k ks = 0) then None else Some (occurs k ks).
Proof.
  intros Hlen. unfold histogram.
  destruct (count_keys_find ks [] k (room_nil _) Hlen) as [Hd Hr]. cbn in Hd.
  destruct (mfind k _) as [v|] eqn:E; cbn in Hd; [destruct (Hr k v E)|]; case_decide; try done; lia || by f_equal.
Qed.

Lemma count_keys_sorted ks h : key_sorted h → key_sorted (foldl count_key h ks).
Proof. revert h. induction ks; intros h ?; cbn; [done|]. by apply IHks, key_sorted_alter. Qed.

Lemma histogram_sorted ks : key_sorted (histogram ks).
Proof. apply count_keys_sorted. constructor. Qed.

Lemma occurs_length k ks : occurs k ks ≤ Z.of_nat (length ks).
Proof. unfold occurs. pose proof (length_filter (λ j, j = k) ks). lia. Qed.

Lemma histogram_room ks n : Z.of_nat (length ks) + Z.of_nat n < 2 ^ 32 → room n (histogram ks).
Proof.
  intros Hlen j v Hj. rewrite histogram_find in Hj by lia. pose proof (occurs_length j ks).
  pose proof (occurs_nonneg j ks). case_decide; simplify_eq. lia.
Qed.

(** ** The total: every key is counted once *)

Lemma malter_values (f : option Z → Z) k (h : ordmap K Z) :
  zsum snd (malter f k h) = zsum snd h - default 0 (mfind k h) + f (mfind k h).
Proof.
  unfold malter. destruct (mfind k h) as [v|] eqn:E.
  - destruct (mreplace_split k v (f (Some v)) h E) as (h1 & h2 & -> & ->).
    rewrite !zsum_app, !zsum_cons. cbn. lia.
  - rewrite (zsum_perm _ _ _ (minsert_perm k (f None) h)), zsum_cons. cbn. lia.
Qed.

Lemma count_keys_total ks h : room (length ks) h → Z.of_nat (length ks) < 2 ^ 32 →
  zsum snd (foldl count_key h ks) = zsum snd h + Z.of_nat (length ks).
Proof.
  revert h. induction ks as [|j ks IH]; intros h Hh Hlen; [cbn [foldl length]; lia|].
  cbn [length foldl] in *. rewrite IH; [|by apply count_key_room|lia].
  unfold count_key. rewrite malter_values.
  destruct (mfind j h) as [m|] eqn:Ej; cbn [from_option id]; [|lia].
  destruct (Hh j m Ej). rewrite u32_id by lia. lia.
Qed.

Lemma histogram_total ks : Z.of_nat (length ks) < 2 ^ 32 →
  zsum snd (histogram ks) = Z.of_nat (length ks).
Proof. intros Hlen. unfold histogram. rewrite count_keys_total; [done| |done]. done. Qed.

Lemma histogram_elem ks k n : Z.of_nat (length ks) < 2 ^ 32 →
  (k, n) ∈ histogram ks ↔ k ∈ ks ∧ n = occurs k ks.
Proof.
  intros Hlen. rewrite <- mfind_Some by apply histogram_sorted.
  rewrite histogram_find by done. pose proof (occurs_zero k ks) as Hz.
  case_decide; split; intros Hs; [done|tauto|split; [|congruence]|destruct Hs; congruence].
  destruct (decide (k ∈ ks)); tauto.
Qed.

Lemma histogram_entries `{D : EqDecision K} ks : Z.of_nat (length ks) < 2 ^ 32 →
  histogram ks ≡ₚ (λ k, (k, occurs k ks)) <$> remove_dups ks.
Proof.
  intros Hlen. apply NoDup_Permutation.
  - apply (NoDup_fmap_1 fst), key_sorted_NoDup, histogram_sorted.
  - apply NoDup_fmap; [by intros x y [= ->]|apply NoDup_remove_dups].
  - intros [k n]. rewrite histogram_elem, list_elem_of_fmap by done. split.
    + intros [Hk ->]. exists k. split; [done|]. by apply elem_of_remove_dups.
    + intros (j & [= -> ->] & Hj). split; [|done]. by apply elem_of_remove_dups.
Qed.

Lemma max_value_spec m (h : ordmap K Z) :
  m ≤ max_value m h ∧ (∀ k n, (k, n) ∈ h → n ≤ max_value m h) ∧
  (max_value m h = m ∨ ∃ k, (k, max_value m h) ∈ h).
Proof.
  unfold max_value. revert m. induction h as [|[j v] h IH]; intros m; cbn [foldl snd].
  { split_and!; [done| |by left]. by intros ?? ?%not_elem_of_nil. }
  destruct (Z.ltb_spec m v) as [Hv|Hv].
  - destruct (IH v) as (Hle & Hall & Hex). split_and!; [lia| |].
    + intros k n [[= -> ->]|Hin]%elem_of_cons; [done|eauto].
    + right. destruct Hex as [->|[k Hk]]; [exists j|exists k]; set_solver.
  - destruct (IH m) as (Hle & Hall & Hex). split_and!; [done| |].
    + intros k n [[= -> ->]|Hin]%elem_of_cons; [lia|eauto].
    + destruct Hex as [->|[k Hk]]; [by left|right; exists k; set_solver].
Qed.

Lemma sum_values_total (h : ordmap K Z) :
  (∀ k n, (k, n) ∈ h → 0 ≤ n) → zsum snd h < 2 ^ 32 → sum_values h = zsum snd h.
Proof.
  intros Hpos Hlt. apply (u32_sum snd h 0); [|done|done].
  intros [k n] Hin. by eapply Hpos.
Qed.
End histo.
