(* ===== verification/BoostGraph.v ===== *)
(** * The graph library

    The program keeps its graphs in [boost::adjacency_list<listS, vecS,
    bidirectionalS, ...>].  [BoostGraph] lists the operations it calls and
    [BoostLaws] what their documentation says of them: [vecS] numbers the
    vertices from 0, [listS] keeps the out-edges of a vertex in insertion
    order.  [adjacency] is a small implementation of the interface, on which
    examples are evaluated. *)

From S2P Require Import Prelude.

Class BoostGraph (G : Type → Type) := {
  empty_graph : ∀ {vp}, G vp;
  num_vertices : ∀ {vp}, G vp → nat;
  (** [G[v]]: [None] out of range *)
  vprop : ∀ {vp}, G vp → nat → option vp;
  (** [v = boost::add_vertex(G); G[v] = p]: the new vertex is the old [num_vertices] *)
  add_vertex : ∀ {vp}, vp → G vp → G vp;
  set_vprop : ∀ {vp}, nat → vp → G vp → G vp;
  add_edge : ∀ {vp}, nat → nat → G vp → G vp;
  (** targets of [boost::out_edges(v, G)], sources of [boost::in_edges(v, G)] *)
  out_edges : ∀ {vp}, G vp → nat → list nat;
  in_edges : ∀ {vp}, G vp → nat → list nat
}.

#[export] Hint Mode BoostGraph ! : typeclass_instances.

(** [boost::vertices(G)] *)
Definition vertices `{BoostGraph G} {vp} (g : G vp) : list nat := seq 0 (num_vertices g).

(** The edges, by source and then by insertion. *)
Definition edge_list `{BoostGraph G} {vp} (g : G vp) : list (nat * nat) :=
  u ← vertices g; (λ v, (u, v)) <$> out_edges g u.

Class BoostLaws (G : Type → Type) `{!BoostGraph G} := {
  empty_vertices : ∀ vp, num_vertices (empty_graph : G vp) = 0;
  out_edges_outside : ∀ vp (g : G vp) v, num_vertices g ≤ v → out_edges g v = [];
  vprop_inside : ∀ vp (g : G vp) v, is_Some (vprop g v) ↔ v < num_vertices g;
  out_edges_target : ∀ vp (g : G vp) u v, v ∈ out_edges g u → v < num_vertices g;
  in_edges_spec : ∀ vp (g : G vp) v,
    in_edges g v ≡ₚ (filter (λ e, e.2 = v) (edge_list g)).*1;
  add_vertex_num : ∀ vp p (g : G vp), num_vertices (add_vertex p g) = S (num_vertices g);
  add_vertex_prop : ∀ vp p (g : G vp) v,
    vprop (add_vertex p g) v = if decide (v = num_vertices g) then Some p else vprop g v;
  add_vertex_out : ∀ vp p (g : G vp) v, out_edges (add_vertex p g) v = out_edges g v;
  set_vprop_num : ∀ vp i p (g : G vp), num_vertices (set_vprop i p g) = num_vertices g;
  set_vprop_prop : ∀ vp i p (g : G vp) v, i < num_vertices g →
    vprop (set_vprop i p g) v = if decide (v = i) then Some p else vprop g v;
  set_vprop_out : ∀ vp i p (g : G vp) v, out_edges (set_vprop i p g) v = out_edges g v;
  add_edge_num : ∀ vp u v (g : G vp), u < num_vertices g → v < num_vertices g →
    num_vertices (add_edge u v g) = num_vertices g;
  add_edge_prop : ∀ vp u v (g : G vp) w, u < num_vertices g → v < num_vertices g →
    vprop (add_edge u v g) w = vprop g w;
  add_edge_out : ∀ vp u v (g : G vp) w, u < num_vertices g → v < num_vertices g →
    out_edges (add_edge u v g) w = out_edges g w ++ if decide (w = u) then [v] else []
}.

#[export] Hint Rewrite @empty_vertices @add_vertex_num @add_vertex_out @set_vprop_num
  @set_vprop_out using typeclasses eauto : csim.

(** ** Copies: same vertices, same out-edges in the same order *)

Section laws.
Context `{BoostLaws G}.

Definition same_edges {vp wp} (g : G vp) (h : G wp) : Prop :=
  num_vertices g = num_vertices h ∧ ∀ v, out_edges g v = out_edges h v.

Lemma same_edges_list {vp wp} (g : G vp) (h : G wp) :
  same_edges g h → edge_list g = edge_list h.
Proof.
  intros [Hn Ho]. unfold edge_list, vertices. rewrite Hn.
  apply list_bind_ext; [|done]. intros u. by rewrite Ho.
Qed.

Lemma same_edges_in {vp wp} (g : G vp) (h : G wp) v :
  same_edges g h → in_edges g v ≡ₚ in_edges h v.
Proof. intros He. rewrite !in_edges_spec. by rewrite (same_edges_list _ _ He). Qed.

Lemma same_edges_trans {vp wp xp} (g : G vp) (h : G wp) (k : G xp) :
  same_edges g h → same_edges h k → same_edges g k.
Proof. intros [? Ho] [? Ho']. split; [congruence|]. intros v. by rewrite Ho, Ho'. Qed.

Lemma same_edges_sym {vp wp} (g : G vp) (h : G wp) : same_edges g h → same_edges h g.
Proof. intros [? Ho]. split; congruence. Qed.

Lemma elem_of_edge_list {vp} (g : G vp) u v : (u, v) ∈ edge_list g ↔ v ∈ out_edges g u.
Proof.
  unfold edge_list, vertices. rewrite list_elem_of_bind. split.
  - intros (w & Hw & _). apply list_elem_of_fmap in Hw as (x & [= <- <-] & ?). done.
  - intros Hv. exists u. split; [apply list_elem_of_fmap; eauto|].
    apply elem_of_seq. destruct (decide (u < num_vertices g)); [lia|].
    rewrite out_edges_outside in Hv by lia. by apply not_elem_of_nil in Hv.
Qed.

(** The out-edges of a vertex are the edges of the list that start there. *)
Lemma filter_edges_at {vp} (g : G vp) w us :
  (filter (λ e : nat * nat, e.1 = w) (us ≫= λ u, (λ v, (u, v)) <$> out_edges g u)).*2 =
  concat ((λ _, out_edges g w) <$> filter (λ u, u = w) us).
Proof.
  induction us as [|u us IH]; [done|].
  cbn [mbind list_bind]. rewrite filter_app, fmap_app, IH, filter_cons.
  destruct (decide (u = w)) as [->|Hne].
  - cbn [fmap list_fmap concat]. f_equal. clear IH.
    induction (out_edges g w) as [|v vs IHv]; [done|].
    cbn [fmap list_fmap]. rewrite filter_cons_True by done. cbn [fmap list_fmap]. by f_equal.
  - assert (filter (λ e : nat * nat, e.1 = w) ((λ v, (u, v)) <$> out_edges g u) = []) as ->; [|done].
    induction (out_edges g u) as [|v vs IHv]; [done|].
    cbn [fmap list_fmap]. by rewrite filter_cons_False.
Qed.

Lemma filter_seq_eq n w : w < n → filter (λ u, u = w) (seq 0 n) = [w].
Proof.
  intros Hw. replace n with (w + S (n - S w)) by lia.
  rewrite seq_app, filter_app. change (seq (0 + w) (S (n - S w))) with (w :: seq (S w) (n - S w)).
  rewrite (filter_cons_True (λ u, u = w)) by done.
  assert (Hnone : ∀ a l, w ∉ seq a l → filter (λ u, u = w) (seq a l) = []).
  { intros a l. revert a. induction l as [|l IH]; intros a Ha; [done|].
    cbn [seq] in *. apply not_elem_of_cons in Ha as [Ha ?].
    rewrite filter_cons_False by congruence. by apply IH. }
  rewrite !Hnone; [done|rewrite elem_of_seq; lia..].
Qed.

Lemma edge_list_at {vp} (g : G vp) w :
  (filter (λ e : nat * nat, e.1 = w) (edge_list g)).*2 = out_edges g w.
Proof.
  unfold edge_list, vertices. rewrite filter_edges_at.
  destruct (decide (w < num_vertices g)) as [Hw|Hw].
  - rewrite filter_seq_eq by done. cbn. by rewrite app_nil_r.
  - rewrite out_edges_outside by lia. induction (filter _ _); cbn; auto.
Qed.

(** Adding a list of edges. *)
Definition add_edges {vp} (es : list (nat * nat)) (g : G vp) : G vp :=
  foldl (λ g e, add_edge e.1 e.2 g) g es.

Definition edges_fit {vp} (es : list (nat * nat)) (g : G vp) : Prop :=
  ∀ u v, (u, v) ∈ es → u < num_vertices g ∧ v < num_vertices g.

Lemma add_edges_spec {vp} (es : list (nat * nat)) (g : G vp) :
  edges_fit es g →
  num_vertices (add_edges es g) = num_vertices g ∧
  (∀ w, vprop (add_edges es g) w = vprop g w) ∧
  ∀ w, out_edges (add_edges es g) w =
       out_edges g w ++ (filter (λ e : nat * nat, e.1 = w) es).*2.
Proof.
  revert g. induction es as [|[u v] es IH]; intros g Hfit.
  { split_and!; [done..|]. intros w. cbn. by rewrite app_nil_r. }
  destruct (Hfit u v) as [Hu Hv]; [set_solver|].
  destruct (IH (add_edge u v g)) as (Hn & Hp & Ho).
  { intros x y Hxy. rewrite add_edge_num by done. apply Hfit. set_solver. }
  unfold add_edges in *. cbn [foldl fst snd]. split_and!.
  - by rewrite Hn, add_edge_num.
  - intros w. by rewrite Hp, add_edge_prop.
  - intros w. rewrite Ho, add_edge_out, filter_cons by done. cbn [fst].
    destruct (decide (w = u)), (decide (u = w)); try congruence; cbn; by rewrite <- app_assoc.
Qed.

Lemma edges_fit_list {vp wp} (g : G vp) (h : G wp) :
  num_vertices g = num_vertices h → edges_fit (edge_list g) h.
Proof.
  intros Hn u v Huv%elem_of_edge_list. rewrite <- Hn. split.
  - destruct (decide (u < num_vertices g)); [done|].
    rewrite out_edges_outside in Huv by lia. by apply not_elem_of_nil in Huv.
  - by eapply out_edges_target.
Qed.

(** Copying the edges of [g] onto the vertices of [h]. *)
Lemma copy_edges {vp wp} (g : G vp) (h : G wp) :
  num_vertices g = num_vertices h → (∀ v, out_edges h v = []) →
  same_edges (add_edges (edge_list g) h) g ∧
  ∀ w, vprop (add_edges (edge_list g) h) w = vprop h w.
Proof.
  intros Hn Hno. destruct (add_edges_spec (edge_list g) h) as (Hn' & Hp & Ho).
  { by apply edges_fit_list. }
  split; [|done]. split; [congruence|]. intros w. by rewrite Ho, Hno, edge_list_at.
Qed.

(** A loop over the vertices that only appends vertices. *)
Definition add_vertices {vp} (ps : list vp) (g : G vp) : G vp := foldl (λ g p, add_vertex p g) g ps.

Lemma add_vertices_spec {vp} (ps : list vp) (g : G vp) :
  num_vertices (add_vertices ps g) = num_vertices g + length ps ∧
  (∀ v, out_edges (add_vertices ps g) v = out_edges g v) ∧
  (∀ i p, ps !! i = Some p → vprop (add_vertices ps g) (num_vertices g + i) = Some p) ∧
  ∀ v, v < num_vertices g → vprop (add_vertices ps g) v = vprop g v.
Proof.
  revert g. induction ps as [|p ps IH]; intros g.
  { split_and!; [cbn; lia|done..]. }
  destruct (IH (add_vertex p g)) as (Hn & Ho & Hnew & Hold). rewrite add_vertex_num in *.
  unfold add_vertices in *. cbn [foldl length]. split_and!.
  - rewrite Hn. lia.
  - intros v. by rewrite Ho, add_vertex_out.
  - intros [|i] q Hq; cbn in Hq.
    + simplify_eq. rewrite Nat.add_0_r, Hold, add_vertex_prop by lia. by rewrite decide_True.
    + rewrite <- (Hnew i q Hq). f_equal. lia.
  - intros v Hv. rewrite Hold, add_vertex_prop by lia. rewrite decide_False by lia. done.
Qed.

Lemma empty_graph_out {vp} v : out_edges (empty_graph : G vp) v = [].
Proof. apply out_edges_outside. rewrite empty_vertices. lia. Qed.
End laws.

(** ** An implementation: the properties of the vertices and the list of edges *)

Definition edges_in_range (n : nat) (es : list (nat * nat)) : bool :=
  forallb (λ e, (e.1 <? n) && (e.2 <? n)) es.

Record adjacency (vp : Type) := mkAdj {
  adj_props : list vp;
  adj_edges : list (nat * nat);
  adj_ok : Is_true (edges_in_range (length adj_props) adj_edges)
}.
Arguments mkAdj {vp}.
Arguments adj_props {vp}.
Arguments adj_edges {vp}.
Arguments adj_ok {vp}.

Lemma in_range_elem n es u v : Is_true (edges_in_range n es) → (u, v) ∈ es → u < n ∧ v < n.
Proof.
  unfold edges_in_range. intros Hr Hin. apply Is_true_true, forallb_forall with (x := (u, v)) in Hr.
  - cbn in Hr. apply andb_prop in Hr as [?%Nat.ltb_lt ?%Nat.ltb_lt]. done.
  - by apply list_elem_of_In.
Qed.

Lemma in_range_all n es :
  (∀ u v, (u, v) ∈ es → u < n ∧ v < n) → Is_true (edges_in_range n es).
Proof.
  intros Hall. apply Is_true_true, forallb_forall. intros [u v] Hin%list_elem_of_In.
  destruct (Hall u v Hin). cbn. by apply andb_true_intro; split; apply Nat.ltb_lt.
Qed.

Lemma in_range_grow n m es : n ≤ m → Is_true (edges_in_range n es) → Is_true (edges_in_range m es).
Proof. intros Hnm Hr. apply in_range_all. intros u v Huv. destruct (in_range_elem _ _ _ _ Hr Huv). lia. Qed.

Lemma adj_add_ok {vp} p (g : adjacency vp) :
  Is_true (edges_in_range (length (adj_props g ++ [p])) (adj_edges g)).
Proof. eapply in_range_grow; [|apply (adj_ok g)]. rewrite length_app. lia. Qed.

Lemma adj_set_ok {vp} i p (g : adjacency vp) :
  Is_true (edges_in_range (length (<[i := p]> (adj_props g))) (adj_edges g)).
Proof. rewrite length_insert. apply (adj_ok g). Qed.

Definition edge_fits {vp} u v (g : adjacency vp) : bool :=
  (u <? length (adj_props g)) && (v <? length (adj_props g)).

Lemma adj_edge_ok {vp} u v (g : adjacency vp) :
  Is_true (edges_in_range (length (adj_props g))
    (adj_edges g ++ if edge_fits u v g then [(u, v)] else [])).
Proof.
  apply in_range_all. intros x y [Hin|Hin]%elem_of_app.
  - eapply in_range_elem; [apply (adj_ok g)|done].
  - destruct (edge_fits u v g) eqn:E; [|by apply not_elem_of_nil in Hin].
    apply list_elem_of_singleton in Hin as [= -> ->].
    apply andb_prop in E as [?%Nat.ltb_lt ?%Nat.ltb_lt]. done.
Qed.

#[export] Instance adjacency_graph : BoostGraph adjacency := {|
  empty_graph vp := mkAdj [] [] I;
  num_vertices vp g := length (adj_props g);
  vprop vp g v := adj_props g !! v;
  add_vertex vp p g := mkAdj (adj_props g ++ [p]) (adj_edges g) (adj_add_ok p g);
  set_vprop vp i p g := mkAdj (<[i := p]> (adj_props g)) (adj_edges g) (adj_set_ok i p g);
  add_edge vp u v g := mkAdj (adj_props g) _ (adj_edge_ok u v g);
  out_edges vp g v := (filter (λ e : nat * nat, e.1 = v) (adj_edges g)).*2;
  in_edges vp g v := (filter (λ e : nat * nat, e.2 = v) (adj_edges g)).*1
|}.

(** Grouping the edges by source keeps every edge. *)
Lemma group_edges (es : list (nat * nat)) n :
  (∀ u v, (u, v) ∈ es → u < n) →
  (u ← seq 0 n; (λ v, (u, v)) <$> (filter (λ e : nat * nat, e.1 = u) es).*2) ≡ₚ es.
Proof.
  intros Hes. induction es as [|[x y] es IH].
  { cbn. generalize 0. induction n as [|n IHn]; intros a; cbn; [done|]. apply IHn. set_solver. }
  assert (Hx : x < n) by (apply (Hes x y); set_solver).
  transitivity ((x, y) :: (u ← seq 0 n; (λ v, (u, v)) <$> (filter (λ e : nat * nat, e.1 = u) es).*2));
    [|constructor; apply IH; set_solver].
  replace n with (x + S (n - S x)) by lia. rewrite seq_app.
  cbn [Nat.add seq]. rewrite !bind_app. cbn [mbind list_bind].
  rewrite filter_cons_True by done. cbn [fmap list_fmap fst snd app].
  assert (Hskip : ∀ us, x ∉ us →
    (us ≫= λ u, (λ v, (u, v)) <$> (filter (λ e : nat * nat, e.1 = u) ((x, y) :: es)).*2) =
    (us ≫= λ u, (λ v, (u, v)) <$> (filter (λ e : nat * nat, e.1 = u) es).*2)).
  { induction us as [|u us IHu]; intros Hu; cbn [mbind list_bind]; [done|].
    rewrite filter_cons_False by (cbn; set_solver). f_equal. apply IHu. set_solver. }
  rewrite !Hskip by (rewrite elem_of_seq; lia).
  by rewrite <- Permutation_middle.
Qed.

#[export] Instance adjacency_laws : BoostLaws adjacency.
Proof.
  assert (Htgt : ∀ vp (g : adjacency vp) u v,
    v ∈ out_edges g u → u < num_vertices g ∧ v < num_vertices g).
  { intros vp g u v Hv. apply list_elem_of_fmap in Hv as ([x y] & -> & Hin).
    apply list_elem_of_filter in Hin as [Hx Hin]. cbn in Hx. subst x.
    eapply in_range_elem; [apply (adj_ok g)|done]. }
  split; intros; cbn in *.
  - done.
  - destruct (filter _ _).*2 as [|w ws] eqn:E; [done|].
    destruct (Htgt _ g v w); [cbn; rewrite E; by left|cbn in *; lia].
  - apply lookup_lt_is_Some.
  - by eapply Htgt.
  - apply fmap_Permutation, filter_Permutation. symmetry. apply group_edges.
    intros x y Hxy. by destruct (in_range_elem _ _ _ _ (adj_ok g) Hxy).
  - rewrite length_app. cbn. lia.
  - case_decide as Hv; subst; [by rewrite list_lookup_middle|].
    destruct (decide (v < length (adj_props g))); [by rewrite lookup_app_l|].
    rewrite !lookup_ge_None_2; [done|lia|rewrite length_app; cbn; lia].
  - done.
  - by rewrite length_insert.
  - case_decide as Hv; subst; [by apply list_lookup_insert_eq|by apply list_lookup_insert_ne].
  - done.
  - done.
  - done.
  - rewrite filter_app, fmap_app. f_equal. unfold edge_fits.
    rewrite !(proj2 (Nat.ltb_lt _ _)) by done. cbn.
    repeat case_decide; naive_solver.
Qed.
