(* ===== verification/Address.v ===== *)
(** * Physical addresses of the memory system

    [Address.h] of [gems-lib/ruby_clean/common]: 64-bit addresses, ranges of
    their bits and the line an address is in.  [bits] is
    [RubyConfig::dataBlockBits()], the logarithm of the line size. *)

From S2P Require Import Prelude.
Local Open Scope Z_scope.

Definition ADDRESS_WIDTH : Z := 64.

(** [(physical_address_t)~0] *)
Definition all_ones : Z := u64 (Z.lnot 0).

(** [bitSelect(small, big)], both bounds inclusive. *)
Definition bitSelect (small big a : Z) : outcome Z :=
  assertb (small <=? big) ;;
  if ADDRESS_WIDTH - 1 <=? big then Ret (Z.shiftr a small)
  else
    let mask := u64 (Z.lnot (u64 (Z.shiftl all_ones (big + 1)))) in
    Ret (Z.shiftr (Z.land a mask) small).

Definition maskLowOrderBits (number a : Z) : Z :=
  let mask := if ADDRESS_WIDTH - 1 <=? number then u64 (Z.lnot 0)
              else u64 (Z.shiftl all_ones number) in
  Z.land a mask.

Definition maskHighOrderBits (number a : Z) : Z :=
  let mask := if ADDRESS_WIDTH - 1 <=? number then u64 (Z.lnot 0)
              else Z.shiftr all_ones number in
  Z.land a mask.

Definition shiftLowOrderBits (number a : Z) : Z := Z.shiftr a number.

Section line.
Variable bits : Z.

Definition getLineAddress (a : Z) : outcome Z := bitSelect bits ADDRESS_WIDTH a.
Definition getOffset (a : Z) : outcome Z := bitSelect 0 (bits - 1) a.

(** [makeLineAddress], and [line_address] on a copy. *)
Definition line_address (a : Z) : Z := maskLowOrderBits bits a.

Definition makeNextStrideAddress (stride a : Z) : Z :=
  u64 (maskLowOrderBits bits a + 2 ^ bits * stride).

Definition setOffset (offset a : Z) : Z := Z.lor (line_address a) (u64 offset).
End line.

(** ** Masks as arithmetic *)

Lemma all_ones_ones : all_ones = Z.ones 64.
Proof. reflexivity. Qed.

Lemma u64_land z : u64 z = Z.land z (Z.ones 64).
Proof. unfold u64. by rewrite Z.land_ones. Qed.

(** The mask of the bits from [n] on. *)
Lemma high_mask_spec n i :
  0 ≤ n → 0 ≤ i → Z.testbit (u64 (Z.shiftl all_ones n)) i = (n <=? i) && (i <? 64).
Proof.
  intros Hn Hi. rewrite u64_land, Z.land_spec, Z.shiftl_spec, all_ones_ones by done.
  destruct (Z.leb_spec n i).
  - rewrite !Z.testbit_ones_nonneg by lia. destruct (Z.ltb_spec i 64), (Z.ltb_spec (i - n) 64); try done; lia.
  - by rewrite Z.testbit_neg_r by lia.
Qed.

Lemma address_bits a i : 0 ≤ a < 2 ^ 64 → 64 ≤ i → Z.testbit a i = false.
Proof.
  intros Ha Hi. rewrite <- (Z.mod_small a (2 ^ 64)) by done. by apply Z.mod_pow2_bits_high; lia.
Qed.

Lemma maskLow_div n a : 0 ≤ n < 63 → 0 ≤ a < 2 ^ 64 → maskLowOrderBits n a = 2 ^ n * (a / 2 ^ n).
Proof.
  intros Hn Ha. unfold maskLowOrderBits, ADDRESS_WIDTH.
  rewrite (proj2 (Z.leb_gt _ _)) by lia.
  rewrite <- Z.shiftr_div_pow2, Z.mul_comm, <- Z.shiftl_mul_pow2 by lia.
  apply Z.bits_inj'. intros i Hi. rewrite Z.land_spec, high_mask_spec by lia.
  rewrite Z.shiftl_spec by done. destruct (Z.leb_spec n i).
  - rewrite Z.shiftr_spec by lia. replace (i - n + n) with i by lia.
    destruct (Z.ltb_spec i 64); [by rewrite andb_true_r|]. by rewrite (address_bits a i Ha ltac:(lia)).
  - rewrite (Z.testbit_neg_r _ (i - n)) by lia. by rewrite andb_false_l, andb_false_r.
Qed.

Lemma bitSelect_low big a :
  0 ≤ big < 63 → 0 ≤ a < 2 ^ 64 → bitSelect 0 big a = Ret (a `mod` 2 ^ (big + 1)).
Proof.
  intros Hb Ha. unfold bitSelect, ADDRESS_WIDTH. rewrite (proj2 (Z.leb_le 0 big)) by lia.
  cbn [assertb mbind outcome_bind]. rewrite (proj2 (Z.leb_gt _ _)) by lia. f_equal.
  rewrite Z.shiftr_0_r. apply Z.bits_inj'. intros i Hi.
  rewrite Z.land_spec, u64_land, Z.land_spec, Z.lnot_spec, high_mask_spec by lia.
  rewrite Z.testbit_ones_nonneg by lia. destruct (Z.ltb_spec i (big + 1)).
  - rewrite Z.mod_pow2_bits_low by lia. rewrite (proj2 (Z.leb_gt (big + 1) i)) by lia.
    rewrite (proj2 (Z.ltb_lt i 64)) by lia. cbn. by rewrite andb_true_r.
  - rewrite Z.mod_pow2_bits_high by lia. rewrite (proj2 (Z.leb_le (big + 1) i)) by lia.
    destruct (i <? 64); cbn; by rewrite andb_false_r.
Qed.

(** [bitSelect] in general: the quotient, cut to the number of bits asked for. *)
Lemma bitSelect_spec small big a :
  0 ≤ small ≤ big → big < 63 → 0 ≤ a < 2 ^ 64 →
  bitSelect small big a = Ret ((a / 2 ^ small) `mod` 2 ^ (big - small + 1)).
Proof.
  intros Hs Hb Ha. pose proof (bitSelect_low big a ltac:(lia) Ha) as E.
  unfold bitSelect, ADDRESS_WIDTH in *. rewrite (proj2 (Z.leb_le 0 big)) in E by lia.
  rewrite (proj2 (Z.leb_le small big)) by lia. rewrite (proj2 (Z.leb_gt _ _)) in E |- * by lia.
  cbn [assertb mbind outcome_bind] in *. injection E as E. rewrite Z.shiftr_0_r in E. rewrite E. f_equal.
  rewrite Z.shiftr_div_pow2 by lia. replace (big + 1) with (small + (big - small + 1)) by lia.
  rewrite Z.pow_add_r by lia. rewrite Z.rem_mul_r by (apply Z.pow_nonzero || apply Z.pow_pos_nonneg; lia).
  rewrite Z.add_comm, Z.mul_comm, Z.div_add_l by (apply Z.pow_nonzero; lia).
  rewrite (Z.div_small (a `mod` 2 ^ small)); [lia|]. apply Z.mod_pos_bound, Z.pow_pos_nonneg; lia.
Qed.

(** ** Lines and offsets *)

Lemma getLineAddress_div bits a :
  0 ≤ bits ≤ 62 → getLineAddress bits a = Ret (a / 2 ^ bits).
Proof.
  intros Hb. unfold getLineAddress, bitSelect, ADDRESS_WIDTH.
  rewrite !(proj2 (Z.leb_le _ _)) by lia. cbn. by rewrite Z.shiftr_div_pow2 by lia.
Qed.

Lemma line_address_div bits a :
  0 ≤ bits ≤ 62 → 0 ≤ a < 2 ^ 64 → line_address bits a = 2 ^ bits * (a / 2 ^ bits).
Proof. intros. apply maskLow_div; [lia|done]. Qed.

Lemma line_address_range bits a :
  0 ≤ bits ≤ 62 → 0 ≤ a < 2 ^ 64 → 0 ≤ line_address bits a ≤ a.
Proof.
  intros Hb Ha. rewrite line_address_div by done.
  assert (0 < 2 ^ bits) by (apply Z.pow_pos_nonneg; lia).
  pose proof (Z.div_pos a (2 ^ bits) ltac:(lia) ltac:(done)). pose proof (Z.mul_div_le a (2 ^ bits) ltac:(done)).
  split; [apply Z.mul_nonneg_nonneg; lia|lia].
Qed.

Lemma line_address_idem bits a :
  0 ≤ bits ≤ 62 → 0 ≤ a < 2 ^ 64 → line_address bits (line_address bits a) = line_address bits a.
Proof.
  intros Hb Ha. pose proof (line_address_range bits a Hb Ha).
  rewrite (line_address_div bits (line_address bits a)), line_address_div by (done || lia).
  rewrite (Z.mul_comm (2 ^ bits) (a / 2 ^ bits)), Z.div_mul; [lia|]. apply Z.pow_nonzero; lia.
Qed.

(** A multiple of the line size and an offset do not carry. *)
Lemma lor_offset q off n : 0 ≤ n → 0 ≤ off < 2 ^ n → Z.lor (2 ^ n * q) off = 2 ^ n * q + off.
Proof.
  intros Hn Hoff. assert (E : Z.land (2 ^ n * q) off = 0).
  { rewrite Z.mul_comm, <- Z.shiftl_mul_pow2 by done. apply Z.bits_inj'. intros i Hi.
    rewrite Z.land_spec, Z.shiftl_spec, Z.bits_0 by done. destruct (Z.ltb_spec i n).
    - by rewrite (Z.testbit_neg_r _ (i - n)) by lia.
    - rewrite <- (Z.mod_small off (2 ^ n)) by done. by rewrite Z.mod_pow2_bits_high, andb_false_r by lia. }
  rewrite <- Z.lxor_lor by done. symmetry. by apply Z.add_nocarry_lxor.
Qed.

Lemma setOffset_add bits off a :
  0 ≤ bits ≤ 62 → 0 ≤ a < 2 ^ 64 → 0 ≤ off < 2 ^ bits →
  setOffset bits off a = line_address bits a + off.
Proof.
  intros Hb Ha Ho. assert (2 ^ bits ≤ 2 ^ 62) by (apply Z.pow_le_mono_r; lia).
  unfold setOffset. replace (u64 off) with off by (unfold u64; rewrite Z.mod_small; lia).
  rewrite line_address_div by done. by apply lor_offset; [lia|].
Qed.

(** An address is a line and an offset: [getLineAddress] and [getOffset]
    are its quotient and remainder by the line size, [setOffset] puts them back
    together, and [line_address] is the first address of the line, the same for
    exactly the addresses of the line. *)
Theorem address_split bits a :
  1 ≤ bits ≤ 62 → 0 ≤ a < 2 ^ 64 →
  getLineAddress bits a = Ret (a / 2 ^ bits) ∧
  (∃ off, getOffset bits a = Ret off ∧ 0 ≤ off < 2 ^ bits ∧ a = line_address bits a + off ∧
    ∀ b, 0 ≤ b < 2 ^ 64 → line_address bits b = line_address bits a → setOffset bits off b = a) ∧
  line_address bits (line_address bits a) = line_address bits a ∧
  ∀ b, 0 ≤ b < 2 ^ 64 → line_address bits b = line_address bits a ↔ getLineAddress bits b = getLineAddress bits a.
Proof.
  intros Hb Ha. assert (Hp : 0 < 2 ^ bits) by (apply Z.pow_pos_nonneg; lia).
  assert (Hsplit : a = line_address bits a + a `mod` 2 ^ bits)
    by (rewrite line_address_div by (done || lia); apply Z.div_mod; lia).
  pose proof (Z.mod_pos_bound a (2 ^ bits) Hp) as Hoff.
  split; [apply getLineAddress_div; lia|]. split; [|split; [apply line_address_idem; (done || lia)|]].
  - exists (a `mod` 2 ^ bits). split; [|split; [done|split; [done|]]].
    + unfold getOffset. rewrite bitSelect_low by (done || lia). by replace (bits - 1 + 1) with bits by lia.
    + intros b Hb' E. rewrite setOffset_add, E by (done || lia). lia.
  - intros b Hb'. rewrite !line_address_div, !getLineAddress_div by (done || lia). split.
    + intros E. f_equal. apply (Z.mul_reg_l _ _ (2 ^ bits)); [lia|done].
    + intros [= E]. by rewrite E.
Qed.

Lemma address_split_witness :
  getOffset 6 4711 = Ret 39 ∧ line_address 6 4711 = 4672 ∧ setOffset 6 39 4672 = 4711 ∧
  getLineAddress 6 4711 = Ret (4711 / 2 ^ 6) ∧
  (∃ off, getOffset 6 4711 = Ret off ∧ 0 ≤ off < 2 ^ 6 ∧ 4711 = line_address 6 4711 + off ∧
    ∀ b, 0 ≤ b < 2 ^ 64 → line_address 6 b = line_address 6 4711 → setOffset 6 off b = 4711) ∧
  line_address 6 (line_address 6 4711) = line_address 6 4711 ∧
  ∀ b, 0 ≤ b < 2 ^ 64 → line_address 6 b = line_address 6 4711 ↔ getLineAddress 6 b = getLineAddress 6 4711.
Proof.
  split; [reflexivity|]. split; [reflexivity|]. split; [reflexivity|].
  apply (address_split 6 4711); split; (reflexivity || discriminate).
Defined.

(** [maskLowOrderBits(63)] and more masks nothing: the guard of the shift is
    off by one and its branch is the wrong way round. *)
Lemma maskLow_63 a : 0 ≤ a < 2 ^ 64 → maskLowOrderBits 63 a = a.
Proof.
  intros Ha. change (Z.land a (Z.ones 64) = a). rewrite Z.land_ones by lia. by apply Z.mod_small.
Qed.

(** Masking the high bits is the remainder. *)
Lemma maskHigh_mod n a : 0 ≤ n < 63 → 0 ≤ a < 2 ^ 64 → maskHighOrderBits n a = a `mod` 2 ^ (64 - n).
Proof.
  intros Hn Ha. unfold maskHighOrderBits, ADDRESS_WIDTH. rewrite (proj2 (Z.leb_gt _ _)) by lia.
  rewrite all_ones_ones, Z.shiftr_div_pow2, Z.ones_div_pow2, Z.land_ones by lia. done.
Qed.
