(* ===== verification/Replacement.v ===== *)
(** * Replacement policies of the caches

    [AbstractReplacementPolicy.h], [LRUPolicy.h], [PseudoLRUPolicy.h]: the
    virtual interface is a class with its laws, the two policies are its
    instances.  Sets, ways and times are signed 64-bit integers. *)

From S2P Require Import Prelude.
Local Open Scope Z_scope.

(** ** The interface *)

Class ReplacementPolicy (T : Type) := {
  touch : Z → Z → Z → T → outcome T;
  getVictim : Z → T → outcome Z;
  last_ref : T → list (list Z)
}.

Definition getLastAccess `{ReplacementPolicy T} (set way : Z) (t : T) : outcome Z :=
  row ← (last_ref t).[Z.to_nat set]!; row.[Z.to_nat way]!.

(** What a cache of [sets] times [assoc] lines relies on. *)
Class PolicyLaws (T : Type) `{ReplacementPolicy T} (sets assoc : nat) := {
  policy_ok : T → Prop;
  touch_ok set way time p : policy_ok p → 0 ≤ set < Z.of_nat sets → 0 ≤ way < Z.of_nat assoc →
    ∃ p', touch set way time p = Ret p' ∧ policy_ok p' ∧
      last_ref p' = alter (λ row, <[Z.to_nat way := time]> row) (Z.to_nat set) (last_ref p);
  touch_absent set time p : touch set (-1) time p = Raise AssertFailed;
  victim_ok set p : policy_ok p → 0 ≤ set < Z.of_nat sets →
    ∃ v, getVictim set p = Ret v ∧ 0 ≤ v < Z.of_nat assoc
}.

Definition shaped (sets assoc : nat) (rows : list (list Z)) : Prop :=
  length rows = sets ∧ ∀ row, row ∈ rows → length row = assoc.

Lemma shaped_new sets assoc : shaped sets assoc (replicate sets (replicate assoc 0)).
Proof.
  split; [apply length_replicate|]. intros row (i & Hi)%list_elem_of_lookup.
  apply lookup_replicate in Hi as [-> _]. apply length_replicate.
Qed.

Lemma shaped_row sets assoc rows (set : Z) :
  shaped sets assoc rows → 0 ≤ set < Z.of_nat sets →
  ∃ row, rows !! Z.to_nat set = Some row ∧ length row = assoc.
Proof.
  intros [Hl Hr] Hs. destruct (lookup_lt_is_Some_2 rows (Z.to_nat set)) as [row E]; [lia|].
  exists row. split; [done|]. by eapply Hr, list_elem_of_lookup_2.
Qed.

Lemma shaped_alter sets assoc rows i way x :
  shaped sets assoc rows → shaped sets assoc (alter (λ row, <[way := x]> row) i rows).
Proof.
  intros [Hl Hr]. split; [by rewrite length_alter|]. intros row (j & Hj)%list_elem_of_lookup.
  rewrite list_lookup_alter in Hj. destruct (decide (i = j)) as [->|].
  - destruct (rows !! j) as [r|] eqn:E; [|done]. injection Hj as <-. rewrite length_insert.
    by eapply Hr, list_elem_of_lookup_2.
  - by eapply Hr, list_elem_of_lookup_2.
Qed.

(** The assertions on set and way that open every [touch]. *)
Definition in_range (sets assoc : nat) (set way : Z) : bool :=
  (0 <=? way) && (way <? Z.of_nat assoc) && ((0 <=? set) && (set <? Z.of_nat sets)).

Lemma in_range_true sets assoc set way :
  0 ≤ set < Z.of_nat sets → 0 ≤ way < Z.of_nat assoc → in_range sets assoc set way = true.
Proof. intros Hs Hw. unfold in_range. rewrite !andb_true_iff. lia. Qed.

(** ** Least recently used *)

Record LRUPolicy := mkLRU { lru_num_sets : nat; lru_assoc : nat; lru_last_ref : list (list Z) }.

Definition new_LRUPolicy (num_sets assoc : nat) : LRUPolicy :=
  mkLRU num_sets assoc (replicate num_sets (replicate assoc 0)).

Definition lru_touch (set way time : Z) (p : LRUPolicy) : outcome LRUPolicy :=
  assertb (in_range (lru_num_sets p) (lru_assoc p) set way) ;;
  Ret (mkLRU (lru_num_sets p) (lru_assoc p)
         (alter (λ row, <[Z.to_nat way := time]> row) (Z.to_nat set) (lru_last_ref p))).

Definition lru_getVictim (set : Z) (p : LRUPolicy) : outcome Z :=
  row ← (lru_last_ref p).[Z.to_nat set]!;
  t0 ← row.[0%nat]!;
  '(index, _) ← foldM (λ '(index, smallest) i,
      time ← row.[i]!;
      Ret (if time <? smallest then (Z.of_nat i, time) else (index, smallest)))
    (0, t0) (seq 0 (lru_assoc p));
  Ret index.

#[export] Instance lru_policy : ReplacementPolicy LRUPolicy := {|
  touch := lru_touch;
  getVictim := lru_getVictim;
  last_ref := lru_last_ref
|}.

Definition lru_ok (sets assoc : nat) (p : LRUPolicy) : Prop :=
  lru_num_sets p = sets ∧ lru_assoc p = assoc ∧ shaped sets assoc (lru_last_ref p).

(** The scan finds the first of the least times. *)
Lemma lru_scan row t0 n :
  head row = Some t0 → (n ≤ length row)%nat →
  ∃ i t, foldM (λ '(index, smallest) i,
      time ← row.[i]!;
      Ret (if time <? smallest then (Z.of_nat i, time) else (index, smallest)))
    (0, t0) (seq 0 n) = Ret (Z.of_nat i, t) ∧ row !! i = Some t ∧ (i < n ∨ i = 0)%nat ∧
    (∀ j x, (j < n)%nat → row !! j = Some x → t ≤ x) ∧ (∀ j x, (j < i)%nat → row !! j = Some x → t < x).
Proof.
  intros Hh. induction n as [|n IH]; intros Hn.
  { exists 0%nat, t0. split; [done|]. split; [by destruct row|]. split; [by right|]. split; intros; lia. }
  destruct IH as (i & t & E & Hi & Hin & Hmin & Hfirst); [lia|].
  rewrite seq_S, foldM_app, E. cbn [mbind outcome_bind foldM Nat.add].
  destruct (lookup_lt_is_Some_2 row n) as [x Hx]; [lia|].
  unfold at_idx. rewrite Hx. cbn [mbind outcome_bind]. destruct (x <? t) eqn:Hlt.
  - exists n, x. split; [done|]. split; [done|]. split; [left; lia|]. split.
    + intros j y Hj Hy. destruct (decide (j = n)) as [->|]; [by simplify_eq|].
      specialize (Hmin j y ltac:(lia) Hy). lia.
    + intros j y Hj Hy. specialize (Hmin j y ltac:(lia) Hy). lia.
  - exists i, t. split; [done|]. split; [done|]. split; [lia|]. split; [|done].
    intros j y Hj Hy. destruct (decide (j = n)) as [->|]; [simplify_eq; lia|]. apply (Hmin j y); [lia|done].
Qed.

Lemma lru_victim_spec sets assoc set p row :
  lru_ok sets assoc p → (0 < assoc)%nat → lru_last_ref p !! Z.to_nat set = Some row → length row = assoc →
  ∃ i t, lru_getVictim set p = Ret (Z.of_nat i) ∧ (i < assoc)%nat ∧ row !! i = Some t ∧
    (∀ j x, row !! j = Some x → t ≤ x) ∧ (∀ j x, (j < i)%nat → row !! j = Some x → t < x).
Proof.
  intros (_ & Ha & _) Hpos Hrow Hlen. destruct row as [|t0 row]; [cbn in Hlen; lia|].
  destruct (lru_scan (t0 :: row) t0 assoc eq_refl) as (i & t & E & Hi & Hin & Hmin & Hfirst); [lia|].
  exists i, t. unfold lru_getVictim. rewrite (at_idx_Some _ _ _ Hrow). cbn [mbind outcome_bind].
  change ((t0 :: row).[0%nat]!) with (Ret t0). cbn [mbind outcome_bind]. rewrite Ha, E. split; [done|].
  split; [lia|]. split; [done|]. split; [|done].
  intros j x Hj. apply (Hmin j x); [|done]. apply lookup_lt_Some in Hj. lia.
Qed.

#[export] Program Instance lru_laws (sets assoc : nat) (Hpos : (0 < assoc)%nat) : PolicyLaws LRUPolicy sets assoc := {|
  policy_ok := lru_ok sets assoc
|}.
Next Obligation.
  intros sets assoc _ set way time p (H1 & H2 & H3) Hs Hw. cbn. unfold lru_touch.
  rewrite H1, H2, in_range_true by done. eexists. split; [done|]. split; [|done].
  split; [done|]. split; [done|]. by apply shaped_alter.
Qed.
Next Obligation. done. Qed.
Next Obligation.
  intros sets assoc Hpos set p Hok Hs. destruct Hok as (H1 & H2 & H3).
  destruct (shaped_row _ _ _ _ H3 Hs) as (row & Hrow & Hlen).
  destruct (lru_victim_spec sets assoc set p row) as (i & t & E & Hi & _); [by split|done..|].
  exists (Z.of_nat i). split; [done|lia].
Qed.

(** Least recently used: a touched way gets the time of the touch, and the
    victim of a set is the first of the ways with the least time; so a way
    touched later than another one is not the victim. *)
Theorem lru_correct sets assoc p set way time :
  lru_ok sets assoc p → 0 ≤ set < Z.of_nat sets → 0 ≤ way < Z.of_nat assoc →
  ∃ p' v t, lru_touch set way time p = Ret p' ∧ lru_ok sets assoc p' ∧
    getLastAccess set way p' = Ret time ∧
    (∀ w, 0 ≤ w → w ≠ way → getLastAccess set w p' = getLastAccess set w p) ∧
    lru_getVictim set p' = Ret v ∧ 0 ≤ v < Z.of_nat assoc ∧ getLastAccess set v p' = Ret t ∧
    (∀ w x, 0 ≤ w → getLastAccess set w p' = Ret x → t ≤ x ∧ (w < v → t < x)) ∧
    ((∃ w x, 0 ≤ w ∧ getLastAccess set w p' = Ret x ∧ x < time) → v ≠ way).
Proof.
  intros Hok Hs Hw. pose proof Hok as (H1 & H2 & H3). unfold lru_touch. rewrite H1, H2, in_range_true by done.
  destruct (shaped_row _ _ _ _ H3 Hs) as (row & Hrow & Hlen).
  set (p' := mkLRU _ _ _). set (row' := <[Z.to_nat way := time]> row).
  assert (Hrow' : lru_last_ref p' !! Z.to_nat set = Some row').
  { cbn. rewrite list_lookup_alter_eq, Hrow. done. }
  assert (Hlen' : length row' = assoc) by (unfold row'; by rewrite length_insert).
  assert (Hok' : lru_ok sets assoc p') by (split; [done|split; [done|by apply shaped_alter]]).
  assert (Hget : ∀ q r w, lru_last_ref q !! Z.to_nat set = Some r → getLastAccess set w q = r.[Z.to_nat w]!).
  { intros q r w E. unfold getLastAccess. cbn [last_ref lru_policy]. by rewrite (at_idx_Some _ _ _ E). }
  destruct (lru_victim_spec sets assoc set p' row' Hok' ltac:(lia) Hrow' Hlen') as (i & t & Ev & Hi & Hti & Hmin & Hfirst).
  exists p', (Z.of_nat i), t. split; [done|]. split; [done|].
  assert (Hway : getLastAccess set way p' = Ret time).
  { rewrite (Hget p' row') by done. apply at_idx_Some. unfold row'. apply list_lookup_insert_eq. lia. }
  assert (Hvic : getLastAccess set (Z.of_nat i) p' = Ret t).
  { rewrite (Hget p' row') by done. apply at_idx_Some. by rewrite Nat2Z.id. }
  assert (Hall : ∀ w x, 0 ≤ w → getLastAccess set w p' = Ret x → t ≤ x ∧ (w < Z.of_nat i → t < x)).
  { intros w x Hw0 Hx. rewrite (Hget p' row') in Hx by done. apply at_idx_ret in Hx.
    split; [by eapply Hmin|]. intros Hlt. eapply Hfirst; [|exact Hx]. lia. }
  split; [done|]. split; [|split; [done|split; [lia|split; [done|split; [done|]]]]].
  - intros w Hw0 Hne. rewrite (Hget p' row'), (Hget p row) by done. unfold at_idx, row'.
    by rewrite list_lookup_insert_ne by lia.
  - intros (w & x & Hw0 & Hx & Hlt) Heq. destruct (Hall w x Hw0 Hx) as [Hle _].
    rewrite Heq, Hway in Hvic. injection Hvic as ->. lia.
Qed.

Lemma lru_correct_witness :
  lru_ok 2 4 (new_LRUPolicy 2 4) ∧
  ∃ p' v t, lru_touch 1 0 5 (new_LRUPolicy 2 4) = Ret p' ∧ lru_ok 2 4 p' ∧
    getLastAccess 1 0 p' = Ret 5 ∧
    (∀ w, 0 ≤ w → w ≠ 0 → getLastAccess 1 w p' = getLastAccess 1 w (new_LRUPolicy 2 4)) ∧
    lru_getVictim 1 p' = Ret v ∧ 0 ≤ v < 4 ∧ getLastAccess 1 v p' = Ret t ∧
    (∀ w x, 0 ≤ w → getLastAccess 1 w p' = Ret x → t ≤ x ∧ (w < v → t < x)) ∧
    ((∃ w x, 0 ≤ w ∧ getLastAccess 1 w p' = Ret x ∧ x < 5) → v ≠ 0).
Proof.
  assert (H : lru_ok 2 4 (new_LRUPolicy 2 4)) by (split; [done|split; [done|apply shaped_new]]).
  split; [exact H|]. apply (lru_correct 2 4 (new_LRUPolicy 2 4) 1 0 5 H); lia.
Defined.

(** ** Tree-based pseudo-LRU *)

Record PseudoLRUPolicy := mkPLRU {
  plru_num_sets : nat;
  plru_assoc : nat;
  plru_last_ref : list (list Z);
  m_effective_assoc : Z;
  m_num_levels : nat;
  m_trees : list Z
}.

Fixpoint effective_assoc (fuel : nat) (eff assoc : Z) : outcome Z :=
  if eff <? assoc then
    match fuel with O => Raise NoFuel | S fuel => effective_assoc fuel (u32 (Z.shiftl eff 1)) assoc end
  else Ret eff.

Fixpoint num_levels (fuel : nat) (assoc : Z) (levels : nat) : outcome nat :=
  match fuel with
  | O => Raise NoFuel
  | S fuel => let assoc := assoc / 2 in if assoc =? 0 then Ret levels else num_levels fuel assoc (S levels)
  end.

(** [sizeof(uint64)*4] bounds the associativity, so the two loops run at most
    6 times. *)
Definition new_PseudoLRUPolicy (num_sets assoc : nat) : outcome PseudoLRUPolicy :=
  assertb ((0 <? Z.of_nat num_sets) && (1 <? Z.of_nat assoc) && (Z.of_nat assoc <=? 32)) ;;
  eff ← effective_assoc 6 1 (Z.of_nat assoc);
  levels ← num_levels 7 eff 0;
  assertb (Z.of_nat levels <? 16) ;;
  Ret (mkPLRU num_sets assoc (replicate num_sets (replicate assoc 0)) eff levels (replicate num_sets 0)).

(** The path of a way, from the root: each node remembers the direction. *)
Fixpoint touch_path (levels : nat) (index tree tree_index : Z) : Z :=
  match levels with
  | O => tree
  | S i =>
      let node_val := Z.land (Z.shiftr index (Z.of_nat i)) 1 in
      let tree :=
        if node_val =? 0 then Z.land tree (u64 (Z.lnot (i32 (Z.shiftl 1 tree_index))))
        else Z.lor tree (u64 (i32 (Z.shiftl node_val tree_index))) in
      touch_path i index tree (if node_val =? 0 then tree_index * 2 + 1 else tree_index * 2 + 2)
  end.

Definition plru_touch (set index time : Z) (p : PseudoLRUPolicy) : outcome PseudoLRUPolicy :=
  assertb (in_range (plru_num_sets p) (plru_assoc p) set index) ;;
  tree ← (m_trees p).[Z.to_nat set]!;
  Ret (mkPLRU (plru_num_sets p) (plru_assoc p)
         (alter (λ row, <[Z.to_nat index := time]> row) (Z.to_nat set) (plru_last_ref p))
         (m_effective_assoc p) (m_num_levels p)
         (<[Z.to_nat set := touch_path (m_num_levels p) index tree 0]> (m_trees p))).

(** Against the direction of each node; [i] levels remain of [levels]. *)
Fixpoint victim_path (i : nat) (levels : nat) (eff tree tree_index index : Z) : Z :=
  match i with
  | O => index
  | S i =>
      let node_val := Z.land (Z.shiftr tree tree_index) 1 in
      victim_path i levels eff tree
        (if node_val =? 0 then tree_index * 2 + 2 else tree_index * 2 + 1)
        (index + if node_val =? 0 then Z.shiftr eff (Z.of_nat (levels - i)) else 0)
  end.

Definition plru_getVictim (set : Z) (p : PseudoLRUPolicy) : outcome Z :=
  tree ← (m_trees p).[Z.to_nat set]!;
  let index := victim_path (m_num_levels p) (m_num_levels p) (m_effective_assoc p) tree 0 0 in
  assertb ((0 <=? index) && (index <? m_effective_assoc p)) ;;
  Ret (if Z.of_nat (plru_assoc p) - 1 <? index then Z.of_nat (plru_assoc p) - 1 else index).

#[export] Instance plru_policy : ReplacementPolicy PseudoLRUPolicy := {|
  touch := plru_touch;
  getVictim := plru_getVictim;
  last_ref := plru_last_ref
|}.

Record plru_ok (sets assoc : nat) (p : PseudoLRUPolicy) : Prop := {
  po_sets : plru_num_sets p = sets;
  po_assoc : plru_assoc p = assoc;
  po_rows : shaped sets assoc (plru_last_ref p);
  po_levels : (1 ≤ m_num_levels p ≤ 5)%nat;
  po_eff : m_effective_assoc p = 2 ^ Z.of_nat (m_num_levels p);
  po_range : 2 ^ (Z.of_nat (m_num_levels p) - 1) < Z.of_nat assoc ≤ 2 ^ Z.of_nat (m_num_levels p);
  po_trees : length (m_trees p) = sets
}.

(** The levels from [i] on choose among the [2^i] ways that start at [index]. *)
Lemma victim_path_range i levels tree : ∀ tree_index index,
  (i ≤ levels)%nat →
  index ≤ victim_path i levels (2 ^ Z.of_nat levels) tree tree_index index < index + 2 ^ Z.of_nat i.
Proof.
  induction i as [|i IH]; intros ti index Hi; [cbn; lia|]. cbn [victim_path].
  replace (Z.of_nat (S i)) with (Z.of_nat i + 1) by lia. rewrite Z.pow_add_r, Z.pow_1_r by lia.
  assert (Hsh : Z.shiftr (2 ^ Z.of_nat levels) (Z.of_nat (levels - i)) = 2 ^ Z.of_nat i).
  { rewrite Z.shiftr_div_pow2 by lia. rewrite <- Z.pow_sub_r by lia. f_equal. lia. }
  assert (0 < 2 ^ Z.of_nat i) by (apply Z.pow_pos_nonneg; lia).
  destruct (Z.land (Z.shiftr tree ti) 1 =? 0).
  - rewrite Hsh. specialize (IH (ti * 2 + 2) (index + 2 ^ Z.of_nat i) ltac:(lia)). lia.
  - specialize (IH (ti * 2 + 1) (index + 0) ltac:(lia)). lia.
Qed.

(** *** The direction remembered at the root *)

Lemma odd_u64 z : Z.odd (u64 z) = Z.odd z.
Proof. unfold u64. rewrite <- !Z.bit0_odd. by apply Z.mod_pow2_bits_low. Qed.

Lemma odd_i32 z : Z.odd (i32 z) = Z.odd z.
Proof.
  unfold i32. rewrite Z.odd_sub, <- (Z.bit0_odd (_ `mod` _)), Z.mod_pow2_bits_low, Z.bit0_odd, Z.odd_add by lia.
  by destruct (Z.odd z).
Qed.

Lemma odd_shiftl v n : 0 < n → Z.odd (Z.shiftl v n) = false.
Proof. intros Hn. rewrite <- Z.bit0_odd. by apply Z.shiftl_spec_low. Qed.

Lemma odd_lor a b : Z.odd (Z.lor a b) = Z.odd a || Z.odd b.
Proof. by rewrite <- !Z.bit0_odd, Z.lor_spec. Qed.

Lemma odd_land a b : Z.odd (Z.land a b) = Z.odd a && Z.odd b.
Proof. by rewrite <- !Z.bit0_odd, Z.land_spec. Qed.

Lemma odd_lnot a : Z.odd (Z.lnot a) = negb (Z.odd a).
Proof. rewrite <- !Z.bit0_odd. by apply Z.lnot_spec. Qed.

Lemma land_one z : Z.land z 1 = if Z.odd z then 1 else 0.
Proof. change 1 with (Z.ones 1) at 1. rewrite Z.land_ones by lia. by rewrite Zmod_odd. Qed.

(** Below the root the path leaves the bit of the root alone. *)
Lemma touch_path_below n index : ∀ tree ti, 0 < ti → Z.odd (touch_path n index tree ti) = Z.odd tree.
Proof.
  induction n as [|n IH]; intros tree ti Hti; [done|]. cbn [touch_path]. rewrite IH by (case_match; lia).
  case_match.
  - by rewrite odd_land, odd_u64, odd_lnot, odd_i32, odd_shiftl, andb_true_r.
  - by rewrite odd_lor, odd_u64, odd_i32, odd_shiftl, orb_false_r.
Qed.

(** The root remembers the half of the way touched. *)
Lemma touch_path_root n index tree :
  Z.odd (touch_path (S n) index tree 0) = Z.odd (Z.shiftr index (Z.of_nat n)).
Proof.
  cbn [touch_path]. rewrite land_one. destruct (Z.odd (Z.shiftr index (Z.of_nat n))) eqn:E; cbn [Z.eqb].
  - rewrite touch_path_below by lia. rewrite odd_lor, odd_u64, odd_i32. by destruct (Z.odd tree).
  - rewrite touch_path_below by lia. rewrite odd_land, odd_u64, odd_lnot, odd_i32. by destruct (Z.odd tree).
Qed.

Lemma half_of_way n way :
  0 ≤ way < 2 ^ (Z.of_nat n + 1) →
  Z.odd (Z.shiftr way (Z.of_nat n)) = (2 ^ Z.of_nat n <=? way).
Proof.
  intros Hw. rewrite Z.pow_add_r, Z.pow_1_r in Hw by lia. rewrite Z.shiftr_div_pow2 by lia.
  assert (Hp : 0 < 2 ^ Z.of_nat n) by (apply Z.pow_pos_nonneg; lia).
  pose proof (Z.div_mod way (2 ^ Z.of_nat n) ltac:(lia)). pose proof (Z.mod_pos_bound way (2 ^ Z.of_nat n) Hp).
  destruct (Z.leb_spec (2 ^ Z.of_nat n) way).
  - assert (way / 2 ^ Z.of_nat n = 1) as ->; [nia|done].
  - rewrite Z.div_small by lia. done.
Qed.

(** The victim lies in the half the root does not point to. *)
Lemma victim_half n tree :
  let v := victim_path (S n) (S n) (2 ^ Z.of_nat (S n)) tree 0 0 in
  if Z.odd tree then 0 ≤ v < 2 ^ Z.of_nat n else 2 ^ Z.of_nat n ≤ v < 2 ^ Z.of_nat (S n).
Proof.
  cbn [victim_path]. rewrite Z.shiftr_0_r, land_one. replace (S n - n)%nat with 1%nat by lia.
  assert (Hpow : 2 ^ Z.of_nat (S n) = 2 * 2 ^ Z.of_nat n).
  { replace (Z.of_nat (S n)) with (Z.of_nat n + 1) by lia. rewrite Z.pow_add_r, Z.pow_1_r by lia. lia. }
  assert (Hsh : Z.shiftr (2 ^ Z.of_nat (S n)) (Z.of_nat 1) = 2 ^ Z.of_nat n).
  { rewrite Z.shiftr_div_pow2 by lia. rewrite Hpow, Z.mul_comm. by apply Z.div_mul. }
  destruct (Z.odd tree); cbn [Z.eqb].
  - pose proof (victim_path_range n (S n) tree (0 * 2 + 1) (0 + 0) ltac:(lia)). lia.
  - rewrite Hsh. pose proof (victim_path_range n (S n) tree (0 * 2 + 2) (0 + 2 ^ Z.of_nat n) ltac:(lia)). lia.
Qed.

(** The victim of a tree, cut to the associativity. *)
Lemma plru_victim_spec sets assoc set p tree :
  plru_ok sets assoc p → m_trees p !! Z.to_nat set = Some tree →
  ∃ v, plru_getVictim set p = Ret v ∧ 0 ≤ v < Z.of_nat assoc ∧
    (Z.odd tree = true ↔ v < 2 ^ (Z.of_nat (m_num_levels p) - 1)).
Proof.
  intros [_ Ha _ Hl He Hr _] Ht. unfold plru_getVictim. rewrite (at_idx_Some _ _ _ Ht). cbn [mbind outcome_bind].
  destruct (m_num_levels p) as [|n]; [lia|]. rewrite He, Ha.
  replace (Z.of_nat (S n) - 1) with (Z.of_nat n) in * by lia.
  pose proof (victim_half n tree) as Hv. cbv zeta in Hv.
  set (v := victim_path (S n) (S n) (2 ^ Z.of_nat (S n)) tree 0 0) in *.
  assert (Hpow : 2 ^ Z.of_nat (S n) = 2 * 2 ^ Z.of_nat n).
  { replace (Z.of_nat (S n)) with (Z.of_nat n + 1) by lia. rewrite Z.pow_add_r, Z.pow_1_r by lia. lia. }
  assert (Hp : 0 < 2 ^ Z.of_nat n) by (apply Z.pow_pos_nonneg; lia).
  destruct (Z.odd tree).
  - rewrite (proj2 (Z.leb_le 0 v)), (proj2 (Z.ltb_lt v (2 ^ Z.of_nat (S n)))) by lia. cbn [andb assertb mbind outcome_bind].
    rewrite (proj2 (Z.ltb_ge _ v)) by lia. exists v. split; [done|]. split; [lia|]. split; [lia|done].
  - rewrite (proj2 (Z.leb_le 0 v)), (proj2 (Z.ltb_lt v (2 ^ Z.of_nat (S n)))) by lia. cbn [andb assertb mbind outcome_bind].
    eexists. split; [done|]. destruct (Z.ltb_spec (Z.of_nat assoc - 1) v); split; try lia; split; (done || lia).
Qed.

Lemma plru_touch_spec sets assoc set way time p :
  plru_ok sets assoc p → 0 ≤ set < Z.of_nat sets → 0 ≤ way < Z.of_nat assoc →
  ∃ p' tree, plru_touch set way time p = Ret p' ∧ plru_ok sets assoc p' ∧
    plru_last_ref p' = alter (λ row, <[Z.to_nat way := time]> row) (Z.to_nat set) (plru_last_ref p) ∧
    m_num_levels p' = m_num_levels p ∧ m_trees p' !! Z.to_nat set = Some tree ∧
    (Z.odd tree = true ↔ 2 ^ (Z.of_nat (m_num_levels p) - 1) ≤ way).
Proof.
  intros [Hs0 Ha Hrows Hl He Hr Ht] Hs Hw. unfold plru_touch. rewrite Hs0, Ha, in_range_true by done.
  destruct (lookup_lt_is_Some_2 (m_trees p) (Z.to_nat set)) as [tree Htree]; [lia|].
  rewrite (at_idx_Some _ _ _ Htree). cbn [assertb mbind outcome_bind].
  eexists _, (touch_path (m_num_levels p) way tree 0). split; [done|].
  split; [|split; [done|split; [done|split]]].
  - split; cbn; try done; [by apply shaped_alter|by rewrite length_insert].
  - cbn. apply list_lookup_insert_eq. lia.
  - destruct (m_num_levels p) as [|n]; [lia|]. rewrite touch_path_root.
    replace (Z.of_nat (S n) - 1) with (Z.of_nat n) by lia.
    rewrite half_of_way; [by rewrite Z.leb_le|]. replace (Z.of_nat n + 1) with (Z.of_nat (S n)) by lia. lia.
Qed.

#[export] Program Instance plru_laws (sets assoc : nat) : PolicyLaws PseudoLRUPolicy sets assoc := {|
  policy_ok := plru_ok sets assoc
|}.
Next Obligation.
  intros sets assoc set way time p Hok Hs Hw.
  destruct (plru_touch_spec sets assoc set way time p Hok Hs Hw) as (p' & tree & E & Hok' & Hlast & _).
  by exists p'.
Qed.
Next Obligation. done. Qed.
Next Obligation.
  intros sets assoc set p Hok Hs.
  destruct (lookup_lt_is_Some_2 (m_trees p) (Z.to_nat set)) as [tree Ht]; [rewrite (po_trees _ _ _ Hok); lia|].
  destruct (plru_victim_spec sets assoc set p tree Hok Ht) as (v & E & Hv & _). by exists v.
Qed.

(** The construction: for every associativity the assertion admits. *)
Lemma new_PseudoLRUPolicy_ok sets assoc :
  (0 < sets)%nat → (1 < assoc ≤ 32)%nat →
  ∃ p, new_PseudoLRUPolicy sets assoc = Ret p ∧ plru_ok sets assoc p.
Proof.
  intros Hs Ha. unfold new_PseudoLRUPolicy.
  rewrite (proj2 (Z.ltb_lt 0 _)), (proj2 (Z.ltb_lt 1 _)), (proj2 (Z.leb_le _ 32)) by lia.
  cbn [andb assertb mbind outcome_bind].
  assert (Hn : ∃ n, (n < 31)%nat ∧ assoc = (n + 2)%nat) by (exists (assoc - 2)%nat; lia).
  destruct Hn as (n & Hn & ->).
  assert (∃ eff levels, effective_assoc 6 1 (Z.of_nat (n + 2)) = Ret eff ∧ num_levels 7 eff 0 = Ret levels ∧
    (1 ≤ levels ≤ 5)%nat ∧ eff = 2 ^ Z.of_nat levels ∧
    2 ^ (Z.of_nat levels - 1) < Z.of_nat (n + 2) ≤ 2 ^ Z.of_nat levels) as (eff & levels & -> & Elev & Hl & He & Hr).
  { do 31 (destruct n as [|n];
      [eexists _, _; split; [vm_compute; reflexivity|]; split; [vm_compute; reflexivity|];
       split; [lia|]; split; [reflexivity|vm_compute; split; [reflexivity|discriminate]]|]). lia. }
  cbn [mbind outcome_bind]. rewrite Elev. cbn [mbind outcome_bind].
  rewrite (proj2 (Z.ltb_lt _ 16)) by lia. cbn [assertb mbind outcome_bind].
  eexists. split; [done|]. split; cbn; try done; [apply shaped_new|apply length_replicate].
Qed.

(** Tree-based pseudo-LRU: for 2 to 32 ways, powers of two or not (every
    policy the constructor makes, see [new_PseudoLRUPolicy_ok]), the
    construction succeeds and touching a way and asking for a victim never
    fail an assertion; the victim is one of the ways and never the way touched
    last. *)
Theorem pseudo_lru_correct sets assoc p set way time :
  plru_ok sets assoc p → 0 ≤ set < Z.of_nat sets → 0 ≤ way < Z.of_nat assoc →
  ∃ p' v, plru_touch set way time p = Ret p' ∧ plru_ok sets assoc p' ∧
    plru_getVictim set p' = Ret v ∧ 0 ≤ v < Z.of_nat assoc ∧ v ≠ way.
Proof.
  intros Hok Hs Hw. destruct (plru_touch_spec sets assoc set way time p Hok Hs Hw)
    as (p' & tree & E & Hok' & _ & Hlev & Htree & Hdir).
  destruct (plru_victim_spec sets assoc set p' tree Hok' Htree) as (v & Ev & Hv & Hhalf).
  exists p', v. split; [done|]. split; [done|]. split; [done|]. split; [done|].
  rewrite Hlev in Hhalf. intros ->. destruct (Z.odd tree).
  - pose proof (proj1 Hdir eq_refl). pose proof (proj1 Hhalf eq_refl). lia.
  - assert (way < 2 ^ (Z.of_nat (m_num_levels p) - 1)) as Hlt.
    { apply Z.nle_gt. intros Hge. by apply Hdir in Hge. }
    by apply Hhalf in Hlt.
Qed.

Definition ex_plru : PseudoLRUPolicy :=
  match new_PseudoLRUPolicy 2 3 with Ret p => p | Raise _ => mkPLRU 0 0 [] 0 0 [] end.

Lemma pseudo_lru_correct_witness :
  plru_ok 2 3 ex_plru ∧
  ∃ p' v, plru_touch 1 2 7 ex_plru = Ret p' ∧ plru_ok 2 3 p' ∧ plru_getVictim 1 p' = Ret v ∧ 0 ≤ v < 3 ∧ v ≠ 2.
Proof.
  assert (H : plru_ok 2 3 ex_plru).
  { destruct (new_PseudoLRUPolicy_ok 2 3 ltac:(lia) ltac:(lia)) as (p & E & Hp).
    unfold ex_plru. by rewrite E. }
  split; [exact H|]. apply (pseudo_lru_correct 2 3 ex_plru 1 2 7 H); lia.
Defined.

(** The comment of the class promises up to 128 ways; 33 are refused. *)
Lemma plru_33_ways : new_PseudoLRUPolicy 1 33 = Raise AssertFailed ∧ new_PseudoLRUPolicy 1 1 = Raise AssertFailed.
Proof. split; reflexivity. Qed.
