(* ===== verification/PrioHeap.v ===== *)
(** * The priority heap of the event queue

    [PrioHeap.h] of [gems-lib/common]: a binary heap in a vector whose first
    element is at index 1.  The element type supplies [node_less_then_eq], an
    interface here; [HeapOrder] is what the heap needs of it. *)

From S2P Require Import Prelude.
Local Open Scope nat_scope.

(** The comparison of the element type; it may contain an assertion. *)
Class HeapNode (T : Type) := {
  node_less_then_eq : T → T → outcome bool;
  node_default : T                                  (** the default constructor *)
}.

Definition get_parent (i : nat) : nat := Nat.div2 i.
Definition get_right (i : nat) : nat := S (Nat.double i).
Definition get_left (i : nat) : nat := Nat.double i.

Record PrioHeap (T : Type) := mkPrioHeap { m_heap : list T; m_current_size : nat }.
Arguments mkPrioHeap {T}.
Arguments m_heap {T}.
Arguments m_current_size {T}.

Section heap.
Context `{HeapNode T}.

Definition heap_init : PrioHeap T := mkPrioHeap [] 0.

Definition heap_set (i : nat) (x : T) (h : list T) : outcome (list T) :=
  if i <? length h then Ret (<[i := x]> h) else Raise OutOfBounds.

(** The loop of [insert]: the hole moves up while the key is not larger. *)
Fixpoint sift_up (fuel : nat) (key : T) (h : list T) (i : nat) : outcome (list T * nat) :=
  match fuel with
  | 0 => Raise NoFuel
  | S fuel =>
      up ← (if 1 <? i then p ← h.[get_parent i]!; node_less_then_eq key p else Ret false);
      if (up : bool) then
        p ← h.[get_parent i]!;
        h ← heap_set i p h;
        sift_up fuel key h (get_parent i)
      else Ret (h, i)
  end.

Definition insert (key : T) (q : PrioHeap T) : outcome (PrioHeap T) :=
  let n := S (m_current_size q) in
  let h := resize (S n) node_default (m_heap q) in
  h ← (if n =? 1 then heap_set 0 key h else Ret h);
  '(h, i) ← sift_up n key h n;
  h ← heap_set i key h;
  Ret (mkPrioHeap h n).

Definition peekMin (q : PrioHeap T) : outcome T :=
  assertb (0 <? m_current_size q) ;; (m_heap q).[1]!.

Definition peekElement (index : nat) (q : PrioHeap T) : outcome T :=
  assertb (0 <? m_current_size q) ;; (m_heap q).[index]!.

Definition prio_heap_swap (i j : nat) (h : list T) : outcome (list T) :=
  temp ← h.[i]!;
  y ← h.[j]!;
  h ← heap_set i y h;
  heap_set j temp h.

(** [child <= m_current_size && node_less_then_eq(m_heap[child], m_heap[smallest])] *)
Definition smaller (h : list T) (size child smallest : nat) : outcome bool :=
  if child <=? size then x ← h.[child]!; y ← h.[smallest]!; node_less_then_eq x y else Ret false.

Fixpoint heapify (fuel : nat) (h : list T) (size current_node : nat) : outcome (list T) :=
  match fuel with
  | 0 => Raise NoFuel
  | S fuel =>
      let left := get_left current_node in
      let right := get_right current_node in
      l ← smaller h size left current_node;
      let smallest := if l : bool then left else current_node in
      r ← smaller h size right smallest;
      let smallest := if r : bool then right else smallest in
      if smallest =? current_node then Ret h
      else h ← prio_heap_swap current_node smallest h; heapify fuel h size smallest
  end.

(** Each round at least doubles the node, so the size plus one is enough fuel. *)
Definition extractMin (q : PrioHeap T) : outcome (T * PrioHeap T) :=
  assertb (0 <? m_current_size q) ;;
  temp ← (m_heap q).[1]!;
  x ← (m_heap q).[m_current_size q]!;
  h ← heap_set 1 x (m_heap q);
  let size := m_current_size q - 1 in
  h ← heapify (S size) h size 1;
  Ret (temp, mkPrioHeap h size).

(** [verifyHeap(index)], the check the assertions in comments would make. *)
Fixpoint verifyHeap (fuel : nat) (q : PrioHeap T) (index : nat) : outcome bool :=
  match fuel with
  | 0 => Raise NoFuel
  | S fuel =>
      if m_current_size q <? index then Ret true
      else
        ok ← (if index =? 1 then Ret true
              else p ← (m_heap q).[get_parent index]!; x ← (m_heap q).[index]!;
                   node_less_then_eq p x);
        if ok : bool then
          r ← verifyHeap fuel q (get_right index);
          if r : bool then verifyHeap fuel q (get_left index) else Ret false
        else Ret false
  end.

(** The elements of the heap, in vector order. *)
Definition body (n : nat) (h : list T) : list T := take n (drop 1 h).
Definition elements (q : PrioHeap T) : list T := body (m_current_size q) (m_heap q).
End heap.

(** ** What the heap needs of the comparison

    A total preorder; where the comparison may assert, it answers for two
    entries of the heap at least. *)

Class HeapOrder (T : Type) `{HeapNode T} := {
  node_leb : T → T → bool;
  node_leb_trans : ∀ a b c, node_leb a b = true → node_leb b c = true → node_leb a c = true;
  node_leb_total : ∀ a b, node_leb a b = false → node_leb b a = true
}.

Definition comparable `{HeapOrder T} (l : list T) : Prop :=
  ∀ a b r, l ≡ₚ a :: b :: r → node_less_then_eq a b = Ret (node_leb a b).

(** The heap property of the first [n] elements. *)
Definition edge_ok `{HeapOrder T} (h : list T) (j : nat) : Prop :=
  ∃ p x, h !! get_parent j = Some p ∧ h !! j = Some x ∧ node_leb p x = true.

Definition ordered `{HeapOrder T} (n : nat) (h : list T) : Prop :=
  ∀ j, 2 ≤ j ≤ n → edge_ok h j.

Definition heap_ok `{HeapOrder T} (q : PrioHeap T) : Prop :=
  (m_current_size q = 0 ∨ m_current_size q < length (m_heap q)) ∧
  ordered (m_current_size q) (m_heap q).

(** ** Index arithmetic *)

Lemma parent_left i : get_parent (get_left i) = i.
Proof. unfold get_parent, get_left. rewrite Nat.double_twice. apply Nat.div2_double. Qed.

Lemma parent_right i : get_parent (get_right i) = i.
Proof. unfold get_parent, get_right. rewrite Nat.double_twice. apply Nat.div2_succ_double. Qed.

Lemma parent_bounds j : 2 ≤ j → 1 ≤ get_parent j < j.
Proof. unfold get_parent. rewrite Nat.div2_div. intros. split; [by apply Nat.div_le_lower_bound; lia|apply Nat.div_lt; lia]. Qed.

Lemma child_cases j : j = get_left (get_parent j) ∨ j = get_right (get_parent j).
Proof.
  unfold get_left, get_right, get_parent, Nat.double.
  pose proof (Nat.div2_odd j) as E. destruct (Nat.odd j); cbn in E; lia.
Qed.

(** ** Lists updated at two positions *)

Lemma swap_perm {A} (l : list A) i j a b :
  l !! i = Some a → l !! j = Some b → <[i:=b]> (<[j:=a]> l) ≡ₚ l.
Proof.
  intros Hi Hj. destruct (decide (i = j)) as [->|Hne].
  { simplify_eq. by rewrite list_insert_insert_eq, list_insert_id. }
  apply Permutation_inj. split; [by rewrite !length_insert|].
  exists (λ k, if decide (k = i) then j else if decide (k = j) then i else k). split.
  - intros x y. repeat case_decide; congruence.
  - intros k. apply lookup_lt_Some in Hi as Li, Hj as Lj. repeat case_decide; subst.
    + by rewrite list_lookup_insert_eq by (by rewrite length_insert).
    + by rewrite list_lookup_insert_ne, list_lookup_insert_eq.
    + by rewrite !list_lookup_insert_ne.
Qed.

Lemma two_entries {A} (l : list A) i j a b :
  i ≠ j → l !! i = Some a → l !! j = Some b → ∃ r, l ≡ₚ a :: b :: r.
Proof.
  intros Hne Hi Hj. pose proof (delete_Permutation _ _ _ Hi) as E.
  assert (Hb : b ∈ delete i l).
  { apply list_elem_of_lookup. destruct (decide (i < j)).
    - exists (j - 1). rewrite list_lookup_delete_ge by lia. by replace (S (j - 1)) with j by lia.
    - exists j. rewrite list_lookup_delete_lt by lia. done. }
  apply elem_of_Permutation in Hb as [r Hr]. exists r. by rewrite E, Hr.
Qed.

Lemma body_lookup {A} (n : nat) (h : list A) i :
  1 ≤ i ≤ n → body n h !! (i - 1) = h !! i.
Proof. intros Hi. unfold body. rewrite lookup_take_lt, lookup_drop by lia. f_equal. lia. Qed.

Lemma body_insert {A} (n : nat) (h : list A) i x :
  1 ≤ i ≤ n → body n (<[i:=x]> h) = <[i - 1:=x]> (body n h).
Proof.
  intros Hi. unfold body. destruct h as [|y h]; [by destruct n|].
  destruct i as [|i]; [lia|]. cbn. rewrite drop_0, Nat.sub_0_r. apply take_insert_lt. lia.
Qed.

Lemma body_ext {A} (n : nat) (h h' : list A) :
  (∀ j, 1 ≤ j ≤ n → h !! j = h' !! j) → body n h = body n h'.
Proof.
  intros E. apply list_eq. intros i. unfold body. destruct (decide (i < n)).
  - rewrite !lookup_take_lt, !lookup_drop by done. apply E. lia.
  - by rewrite !lookup_take_ge by lia.
Qed.

Lemma body_snoc {A} (n : nat) (h : list A) x :
  S n < length h → body (S n) (<[S n:=x]> h) = body n h ++ [x].
Proof.
  intros Hlen. unfold body. rewrite (take_S_r _ _ x).
  - f_equal. apply body_ext. intros j Hj. by rewrite list_lookup_insert_ne by lia.
  - by rewrite lookup_drop, list_lookup_insert_eq by done.
Qed.

Lemma body_swap {A} (n : nat) (h : list A) i j a b :
  1 ≤ i ≤ n → 1 ≤ j ≤ n → h !! i = Some a → h !! j = Some b →
  body n (<[i:=b]> (<[j:=a]> h)) ≡ₚ body n h.
Proof.
  intros Hi Hj Ha Hb. rewrite !body_insert by lia.
  apply swap_perm; by rewrite body_lookup.
Qed.

(** ** The loops *)

Section proofs.
Context `{HeapOrder T}.
Implicit Types (h l : list T) (q : PrioHeap T).

Lemma comparable_perm l l' : l ≡ₚ l' → comparable l → comparable l'.
Proof. intros E Hl a b r Hr. apply (Hl a b r). by rewrite E. Qed.

#[export] Instance comparable_proper : Proper ((≡ₚ) ==> iff) comparable.
Proof. intros l l' E. split; by apply comparable_perm. Qed.

Lemma leb_refl (a : T) : node_leb a a = true.
Proof. destruct (node_leb a a) eqn:E; [done|]. by rewrite (node_leb_total a a E) in E. Qed.

(** Two different positions of the heap can be compared. *)
Lemma compare_at n h i j a b :
  comparable (body n h) → 1 ≤ i ≤ n → 1 ≤ j ≤ n → i ≠ j → h !! i = Some a → h !! j = Some b →
  node_less_then_eq a b = Ret (node_leb a b).
Proof.
  intros Hc Hi Hj Hne Ha Hb.
  destruct (two_entries (body n h) (i - 1) (j - 1) a b) as [r Hr]; [lia|by rewrite body_lookup..|].
  by apply (Hc a b r).
Qed.

Lemma edge_intro h j p x :
  h !! get_parent j = Some p → h !! j = Some x → node_leb p x = true → edge_ok h j.
Proof. by exists p, x. Qed.

Lemma edge_inv h j p x :
  edge_ok h j → h !! get_parent j = Some p → h !! j = Some x → node_leb p x = true.
Proof. intros (? & ? & ? & ? & ?) ? ?. by simplify_eq. Qed.

(** An update away from an edge keeps the edge. *)
Lemma edge_insert h i j x :
  i ≠ j → i ≠ get_parent j → edge_ok (<[i:=x]> h) j ↔ edge_ok h j.
Proof. intros. unfold edge_ok. by rewrite !list_lookup_insert_ne. Qed.

(** The hole of [insert] is at [i]: with the key in it only the edge into the
    hole may be wrong, and the parent of the hole is below its children. *)
Record hole (n : nat) (key : T) h (i : nat) : Prop := {
  hole_bound : 1 ≤ i ≤ n;
  hole_len : n < length h;
  hole_edges : ∀ j, 2 ≤ j ≤ n → j ≠ i → edge_ok (<[i:=key]> h) j;
  hole_skip : ∀ j p x, 2 ≤ i → 2 ≤ j ≤ n → get_parent j = i →
    h !! get_parent i = Some p → h !! j = Some x → node_leb p x = true
}.

Lemma hole_up n key h i p :
  hole n key h i → 2 ≤ i → h !! get_parent i = Some p → node_leb key p = true →
  hole n key (<[i:=p]> h) (get_parent i).
Proof.
  intros [Hi Hlen Hedge Hskip] H2 Hp Hkey. pose proof (parent_bounds i H2) as Hb.
  assert (Hfix : <[get_parent i:=key]> (<[i:=p]> h) !! i = Some p)
    by (rewrite list_lookup_insert_ne, list_lookup_insert_eq; [done|lia..]).
  assert (Hroot : <[get_parent i:=key]> (<[i:=p]> h) !! get_parent i = Some key)
    by (rewrite list_lookup_insert_eq; [done|rewrite length_insert; lia]).
  split; [lia|by rewrite length_insert| |].
  - intros j Hj Hne. pose proof (parent_bounds j ltac:(lia)) as Hbj.
    destruct (decide (j = i)) as [->|Hji]; [by eapply edge_intro|].
    destruct (lookup_lt_is_Some_2 h j ltac:(lia)) as [x Hx].
    assert (Hxj : <[get_parent i:=key]> (<[i:=p]> h) !! j = Some x)
      by (by rewrite !list_lookup_insert_ne).
    destruct (decide (get_parent j = i)) as [Eji|Hpj].
    + eapply edge_intro; [rewrite Eji; exact Hfix|exact Hxj|]. by apply (Hskip j).
    + specialize (Hedge j Hj Hji).
      destruct (decide (get_parent j = get_parent i)) as [Esib|Hsib].
      * eapply edge_intro; [rewrite Esib; exact Hroot|exact Hxj|].
        eapply node_leb_trans; [exact Hkey|].
        eapply (edge_inv _ _ _ _ Hedge); rewrite list_lookup_insert_ne; [by rewrite Esib|lia|done|lia].
      * rewrite !edge_insert by lia. by rewrite edge_insert in Hedge by lia.
  - intros j q x H2i Hj Epar Hq Hx. pose proof (parent_bounds (get_parent i) H2i) as Hbp.
    rewrite list_lookup_insert_ne in Hq by lia.
    assert (Hqp : node_leb q p = true).
    { eapply (edge_inv (<[i:=key]> h) (get_parent i)); [apply Hedge; lia| |];
        by rewrite list_lookup_insert_ne by lia. }
    destruct (decide (j = i)) as [->|Hji].
    + rewrite list_lookup_insert_eq in Hx by lia. by simplify_eq.
    + rewrite list_lookup_insert_ne in Hx by lia. eapply node_leb_trans; [exact Hqp|].
      eapply (edge_inv (<[i:=key]> h) j); [apply Hedge; lia| |];
        rewrite list_lookup_insert_ne by lia; [by rewrite Epar|done].
Qed.

Lemma hole_done n key h i :
  hole n key h i → (2 ≤ i → ∃ p, h !! get_parent i = Some p ∧ node_leb p key = true) →
  ordered n (<[i:=key]> h).
Proof.
  intros [Hi Hlen Hedge _] Hpar j Hj. destruct (decide (j = i)) as [->|Hne]; [|by apply Hedge].
  destruct (Hpar ltac:(lia)) as (p & Hp & Hle). pose proof (parent_bounds i ltac:(lia)).
  eapply edge_intro; [rewrite list_lookup_insert_ne by lia; exact Hp| |exact Hle].
  by apply list_lookup_insert_eq; lia.
Qed.

Lemma sift_up_ok n key fuel : ∀ h i,
  hole n key h i → comparable (body n (<[i:=key]> h)) → i ≤ fuel →
  ∃ h' i', sift_up fuel key h i = Ret (h', i') ∧ 1 ≤ i' ≤ n ∧ length h' = length h ∧
    ordered n (<[i':=key]> h') ∧ body n (<[i':=key]> h') ≡ₚ body n (<[i:=key]> h).
Proof.
  induction fuel as [|fuel IH]; intros h i Hh Hc Hf;
    [pose proof (hole_bound _ _ _ _ Hh); lia|]. cbn [sift_up].
  pose proof (hole_bound _ _ _ _ Hh) as Hi. pose proof (hole_len _ _ _ _ Hh) as Hlen.
  destruct (Nat.ltb_spec 1 i) as [H1|H1]; cbn [mbind outcome_bind].
  2: { exists h, i. split_and!; [done|lia..| |done]. apply hole_done; [done|lia]. }
  pose proof (parent_bounds i H1) as Hb.
  destruct (lookup_lt_is_Some_2 h (get_parent i) ltac:(lia)) as [p Hp].
  rewrite (proj2 (at_idx_ret _ _ _) Hp). cbn [mbind outcome_bind].
  rewrite (compare_at n (<[i:=key]> h) i (get_parent i) key p); try done; try lia;
    [|by apply list_lookup_insert_eq; lia|by rewrite list_lookup_insert_ne by lia].
  destruct (node_leb key p) eqn:Ek; cbn [mbind outcome_bind].
  - unfold heap_set. rewrite (proj2 (Nat.ltb_lt i (length h))) by lia. cbn [mbind outcome_bind].
    assert (Eperm : body n (<[get_parent i:=key]> (<[i:=p]> h)) ≡ₚ body n (<[i:=key]> h)).
    { rewrite <- (list_insert_insert_eq h i p key).
      apply body_swap; [lia..| |];
        [by rewrite list_lookup_insert_ne by lia|by apply list_lookup_insert_eq; lia]. }
    destruct (IH (<[i:=p]> h) (get_parent i)) as (h' & i' & -> & Hi' & Hl' & Ho & Hper);
      [by apply hole_up|by rewrite Eperm|lia|].
    exists h', i'. split_and!; [done|lia..|by rewrite Hl', length_insert|done|by rewrite Hper].
  - exists h, i. split_and!; [done|lia..| |done]. apply hole_done; [done|].
    intros _. exists p. split; [done|by apply node_leb_total].
Qed.

(** [heapify] at [c]: only the edges out of [c] may be wrong, and the parent of
    [c] is below its children. *)
Record sink (n : nat) h (c : nat) : Prop := {
  sink_bound : 1 ≤ c;
  sink_len : n < length h;
  sink_edges : ∀ j, 2 ≤ j ≤ n → get_parent j ≠ c → edge_ok h j;
  sink_skip : ∀ j p x, 2 ≤ c → 2 ≤ j ≤ n → get_parent j = c →
    h !! get_parent c = Some p → h !! j = Some x → node_leb p x = true
}.

Lemma smaller_spec n h i j b :
  comparable (body n h) → n < length h → 1 ≤ i → 1 ≤ j ≤ n → i ≠ j → h !! j = Some b →
  (n < i ∧ smaller h n i j = Ret false) ∨
  (i ≤ n ∧ ∃ a, h !! i = Some a ∧ smaller h n i j = Ret (node_leb a b)).
Proof.
  intros Hc Hlen Hi Hj Hne Hb. unfold smaller. destruct (Nat.leb_spec i n) as [H1|H1]; [right|by left].
  split; [done|]. destruct (lookup_lt_is_Some_2 h i ltac:(lia)) as [a Ha]. exists a. split; [done|].
  rewrite (proj2 (at_idx_ret _ _ _) Ha), (proj2 (at_idx_ret _ _ _) Hb). cbn [mbind outcome_bind].
  by eapply (compare_at n h i j); eauto with lia.
Qed.

(** The node chosen by one round is a least one of the node and its children. *)
Lemma pick_smallest n h c :
  comparable (body n h) → n < length h → 1 ≤ c ≤ n →
  ∃ l r : bool, smaller h n (get_left c) c = Ret l ∧
    smaller h n (get_right c) (if l then get_left c else c) = Ret r ∧
    let s := if r then get_right c else if l then get_left c else c in
    1 ≤ s ≤ n ∧ (s = c ∨ c < s ∧ get_parent s = c) ∧ ∃ v, h !! s = Some v ∧
    (∀ x, h !! c = Some x → node_leb v x = true) ∧
    ∀ j x, 2 ≤ j ≤ n → get_parent j = c → h !! j = Some x → node_leb v x = true.
Proof.
  intros Hc Hlen Hbc. pose proof (parent_left c) as El. pose proof (parent_right c) as Er.
  assert (Hl : get_left c = 2 * c) by (unfold get_left, Nat.double; lia).
  assert (Hr : get_right c = S (2 * c)) by (unfold get_right, Nat.double; lia).
  destruct (lookup_lt_is_Some_2 h c ltac:(lia)) as [v Hv].
  assert (Hchild : ∀ j, get_parent j = c → j = get_left c ∨ j = get_right c)
    by (intros j <-; apply child_cases).
  pose proof node_leb_trans as Htr. pose proof node_leb_total as Htot. pose proof leb_refl as Hrefl.
  destruct (smaller_spec n h (get_left c) c v) as [[Hgt ->]|(Hle & a & Ha & ->)]; try done; try lia.
  - exists false, false. split; [done|]. split; [unfold smaller; by rewrite (proj2 (Nat.leb_gt _ _)) by lia|].
    split; [lia|]. split; [by left|]. exists v. split; [done|]. split; [naive_solver|].
    intros j x Hj [-> | ->]%Hchild; lia.
  - exists (node_leb a v). set (m := if node_leb a v then get_left c else c).
    assert (Hm : ∃ w, h !! m = Some w ∧ 1 ≤ m ≤ n ∧ m ≠ get_right c ∧
        (m = c ∨ c < m ∧ get_parent m = c) ∧ node_leb w v = true ∧ node_leb w a = true).
    { unfold m. destruct (node_leb a v) eqn:E; [exists a|exists v]; split_and!; auto; try lia; right; lia. }
    destruct Hm as (w & Hw & Hbm & Hnm & Hcm & Hwv & Hwa).
    destruct (smaller_spec n h (get_right c) m w) as [[Hgt ->]|(Hle' & b & Hb & ->)]; try done; try lia.
    + exists false. split; [done|]. split; [done|]. cbn. split; [done|]. split; [done|].
      exists w. split; [done|]. split; [naive_solver|].
      intros j x Hj [-> | ->]%Hchild ?; [naive_solver|lia].
    + exists (node_leb b w). split; [done|]. split; [done|]. cbn. destruct (node_leb b w) eqn:Eb.
      * split; [lia|]. split; [right; split; [lia|done]|]. exists b. split; [done|].
        split; [intros; simplify_eq; eauto|]. intros j x Hj [-> | ->]%Hchild ?; simplify_eq; eauto.
      * split; [done|]. split; [done|]. exists w. split; [done|]. split; [naive_solver|].
        intros j x Hj [-> | ->]%Hchild ?; simplify_eq; eauto.
Qed.

Lemma sink_down n h c s v w :
  sink n h c → c < s ≤ n → get_parent s = c → h !! c = Some w → h !! s = Some v →
  node_leb v w = true →
  (∀ j x, 2 ≤ j ≤ n → get_parent j = c → h !! j = Some x → node_leb v x = true) →
  sink n (<[s:=w]> (<[c:=v]> h)) s.
Proof.
  intros [Hc Hlen Hedge Hskip] Hs Epar Hw Hv Hvw Hleast.
  set (h1 := <[s:=w]> (<[c:=v]> h)).
  assert (H1c : h1 !! c = Some v)
    by (unfold h1; rewrite list_lookup_insert_ne, list_lookup_insert_eq; [done|lia..]).
  assert (H1s : h1 !! s = Some w)
    by (unfold h1; rewrite list_lookup_insert_eq; [done|rewrite length_insert; lia]).
  assert (H1 : ∀ j, j ≠ c → j ≠ s → h1 !! j = h !! j)
    by (intros; unfold h1; by rewrite !list_lookup_insert_ne).
  split; [lia|unfold h1; by rewrite !length_insert| |].
  - intros j Hj Hne. pose proof (parent_bounds j ltac:(lia)) as Hb.
    destruct (lookup_lt_is_Some_2 h j ltac:(lia)) as [x Hx].
    destruct (decide (j = s)) as [->|Hjs]; [eapply edge_intro; [by rewrite Epar|done..]|].
    destruct (decide (j = c)) as [->|Hjc].
    + destruct (lookup_lt_is_Some_2 h (get_parent c) ltac:(lia)) as [p Hp].
      eapply edge_intro; [rewrite H1 by lia; exact Hp|exact H1c|].
      apply (Hskip s p v); try done; lia.
    + destruct (decide (get_parent j = c)) as [Ejc|Hpc].
      * eapply edge_intro; [by rewrite Ejc|rewrite H1 by lia; exact Hx|by eapply Hleast].
      * unfold h1. rewrite !edge_insert by lia. by apply Hedge.
  - intros j p x _ Hj Ejs. rewrite Epar, H1c. intros [= <-] Hx. pose proof (parent_bounds j ltac:(lia)).
    rewrite H1 in Hx by lia. eapply (edge_inv h j); [apply Hedge; lia|by rewrite Ejs|done].
Qed.

Lemma heapify_ok n fuel : ∀ h c,
  sink n h c → comparable (body n h) → 1 ≤ c ≤ n → n < c + fuel →
  ∃ h', heapify fuel h n c = Ret h' ∧ length h' = length h ∧ ordered n h' ∧ body n h' ≡ₚ body n h.
Proof.
  induction fuel as [|fuel IH]; intros h c Hs Hc Hbc Hf; [lia|]. cbn [heapify].
  pose proof (sink_len _ _ _ Hs) as Hlen.
  destruct (pick_smallest n h c) as (l & r & -> & Er & Hb & Hcs & v & Hv & Hvc & Hleast); [done..|].
  cbn [mbind outcome_bind]. rewrite Er. cbn [mbind outcome_bind]. clear Er.
  set (s := if r then get_right c else if l then get_left c else c) in *. clearbody s. clear l r.
  destruct (lookup_lt_is_Some_2 h c ltac:(lia)) as [w Hw].
  destruct (Nat.eqb_spec s c) as [->|Hne].
  - exists h. split_and!; [done..| |done]. intros j Hj.
    destruct (decide (get_parent j = c)) as [E|E]; [|by apply (sink_edges _ _ _ Hs)].
    destruct (lookup_lt_is_Some_2 h j ltac:(lia)) as [x Hx].
    assert (w = v) as <- by congruence. eapply edge_intro; [by rewrite E|done|by eapply Hleast].
  - destruct Hcs as [|[Hlt Epar]]; [done|]. unfold prio_heap_swap.
    rewrite (proj2 (at_idx_ret _ _ _) Hw), (proj2 (at_idx_ret _ _ _) Hv). cbn [mbind outcome_bind].
    unfold heap_set. rewrite (proj2 (Nat.ltb_lt c _)) by lia. cbn [mbind outcome_bind].
    rewrite length_insert, (proj2 (Nat.ltb_lt s _)) by lia. cbn [mbind outcome_bind].
    assert (E : body n (<[s:=w]> (<[c:=v]> h)) ≡ₚ body n h) by (apply body_swap; [lia..|done|done]).
    destruct (IH (<[s:=w]> (<[c:=v]> h)) s) as (h' & -> & Hl' & Ho & Hper);
      [eapply (sink_down n h c s); eauto with lia|by rewrite E|lia|lia|].
    exists h'. split_and!; [done|by rewrite Hl', !length_insert|done|by rewrite Hper].
Qed.

(** ** The operations *)

Lemma heap_init_ok : heap_ok (heap_init : PrioHeap T) ∧ elements (heap_init : PrioHeap T) = [].
Proof. split; [|done]. split; [by left|]. intros j Hj. cbn in Hj. lia. Qed.

Lemma length_elements q : heap_ok q → length (elements q) = m_current_size q.
Proof. intros [[E|Hlt] _]; unfold elements, body; rewrite length_take, length_drop; lia. Qed.

(** [insert] adds the key and keeps the heap; it never faults. *)
Lemma heap_insert_ok key q :
  heap_ok q → comparable (key :: elements q) →
  ∃ q', insert key q = Ret q' ∧ heap_ok q' ∧ elements q' ≡ₚ key :: elements q ∧
    m_current_size q' = S (m_current_size q).
Proof.
  intros [Hsz Hord] Hc. unfold insert. set (n := S (m_current_size q)) in *.
  set (h := resize (S n) node_default (m_heap q)).
  assert (Hlen : length h = S n) by apply length_resize.
  assert (Hh : ∀ j, 1 ≤ j ≤ m_current_size q → h !! j = m_heap q !! j)
    by (intros j Hj; destruct Hsz; [lia|]; unfold h; by rewrite lookup_resize by lia).
  set (h0 := if n =? 1 then <[0:=key]> h else h).
  assert (E0 : (if n =? 1 then heap_set 0 key h else Ret h) = Ret h0).
  { unfold h0, heap_set. rewrite Hlen. by destruct (n =? 1). }
  assert (Hlen0 : length h0 = S n) by (unfold h0; destruct (n =? 1); by rewrite ?length_insert).
  assert (Hh0 : ∀ j, 1 ≤ j ≤ m_current_size q → h0 !! j = m_heap q !! j).
  { intros j Hj. unfold h0. destruct (n =? 1); rewrite ?list_lookup_insert_ne by lia; by apply Hh. }
  rewrite E0. cbn [mbind outcome_bind].
  assert (Hbody : body n (<[n:=key]> h0) = elements q ++ [key]).
  { unfold n. rewrite body_snoc by lia. f_equal. by apply body_ext. }
  destruct (sift_up_ok n key n h0 n) as (h' & i' & E & Hi' & Hl' & Ho & Hp).
  - split; [lia|lia| |].
    + intros j Hj Hne. pose proof (parent_bounds j ltac:(lia)). rewrite edge_insert by lia.
      destruct (Hord j ltac:(lia)) as (a & b & Ha & Hb & Hle).
      eapply edge_intro; [rewrite Hh0 by lia|rewrite Hh0 by lia|]; done.
    + intros j p x _ Hj Epar. pose proof (parent_bounds j ltac:(lia)). lia.
  - rewrite Hbody. by rewrite Permutation_app_comm.
  - lia.
  - rewrite E. cbn [mbind outcome_bind]. unfold heap_set.
    rewrite (proj2 (Nat.ltb_lt i' (length h'))) by lia. cbn [mbind outcome_bind].
    eexists. split; [done|]. split; [split; [right; cbn; rewrite length_insert; lia|done]|].
    split; [|done]. trans (body n (<[n:=key]> h0)); [exact Hp|]. by rewrite Hbody, Permutation_app_comm.
Qed.

(** The root is a least element. *)
Lemma root_least n h j v x :
  ordered n h → 1 ≤ j ≤ n → h !! 1 = Some v → h !! j = Some x → node_leb v x = true.
Proof.
  intros Ho. revert x. induction (lt_wf j) as [j _ IH]. intros x Hj Hv Hx.
  destruct (decide (j = 1)) as [->|Hne]; [simplify_eq; apply leb_refl|].
  destruct (Ho j ltac:(lia)) as (p & y & Hp & Hy & Hle). pose proof (parent_bounds j ltac:(lia)).
  simplify_eq. eapply node_leb_trans; [|exact Hle]. apply (IH (get_parent j)); [lia..|done|done].
Qed.

Lemma elements_elem q x :
  heap_ok q → x ∈ elements q ↔ ∃ j, 1 ≤ j ≤ m_current_size q ∧ m_heap q !! j = Some x.
Proof.
  intros Hq. rewrite list_elem_of_lookup. unfold elements. split.
  - intros [i Hi]. pose proof (lookup_lt_Some _ _ _ Hi) as Hlt.
    change (body (m_current_size q) (m_heap q)) with (elements q) in Hlt.
    rewrite length_elements in Hlt by done. exists (S i). split; [lia|].
    replace i with (S i - 1) in Hi by lia. by rewrite body_lookup in Hi by lia.
  - intros (j & Hj & Hx). exists (j - 1). by rewrite body_lookup.
Qed.

Lemma heap_peek_ok q :
  heap_ok q → elements q ≠ [] →
  ∃ x, peekMin q = Ret x ∧ x ∈ elements q ∧ ∀ y, y ∈ elements q → node_leb x y = true.
Proof.
  intros Hq Hne. pose proof (length_elements q Hq) as Hl. destruct Hq as [Hsz Ho] eqn:EHq. clear EHq.
  assert (0 < m_current_size q) by (destruct (elements q); [done|cbn in Hl; lia]).
  destruct (lookup_lt_is_Some_2 (m_heap q) 1) as [x Hx]; [destruct Hsz; lia|].
  exists x. unfold peekMin. rewrite (proj2 (Nat.ltb_lt _ _)) by done.
  split; [by apply at_idx_ret|]. split; [apply elements_elem; [done|exists 1; split; [lia|done]]|].
  intros y (j & Hj & Hy)%elements_elem; [|done]. by eapply root_least.
Qed.

(** [extractMin] removes the element [peekMin] shows, keeps the heap, and
    never faults on a heap that is not empty. *)
Lemma heap_extract_ok q x :
  heap_ok q → comparable (elements q) → peekMin q = Ret x →
  ∃ q', extractMin q = Ret (x, q') ∧ heap_ok q' ∧ elements q ≡ₚ x :: elements q' ∧
    m_current_size q' = m_current_size q - 1.
Proof.
  intros [Hsz Ho] Hc. unfold peekMin, extractMin. set (n := m_current_size q) in *.
  destruct (Nat.ltb_spec 0 n) as [Hn|]; [|done]. cbn [assertb mbind outcome_bind].
  intros Hx%at_idx_ret. rewrite (proj2 (at_idx_ret _ _ _) Hx). cbn [mbind outcome_bind].
  destruct (lookup_lt_is_Some_2 (m_heap q) n) as [z Hz]; [lia|].
  rewrite (proj2 (at_idx_ret _ _ _) Hz). cbn [mbind outcome_bind].
  unfold heap_set. rewrite (proj2 (Nat.ltb_lt 1 _)) by lia. cbn [mbind outcome_bind].
  set (h := <[1:=z]> (m_heap q)).
  assert (Hperm : elements q ≡ₚ x :: body (n - 1) h).
  { unfold elements. fold n. destruct (decide (n = 1)) as [E1|E1].
    - rewrite E1. unfold body. destruct (m_heap q) as [|a [|b t]]; cbn in *; [done..|]. by simplify_eq.
    - assert (Hswap : body n (<[1:=z]> (<[n:=x]> (m_heap q))) ≡ₚ body n (m_heap q))
        by (apply body_swap; [lia..|done|done]).
      rewrite <- Hswap, list_insert_insert_ne, body_insert by lia. fold h.
      assert (Hl : length (body n h) = n)
        by (unfold body, h; rewrite length_take, length_drop, length_insert; lia).
      rewrite insert_take_drop, (drop_ge _ (S (n - 1))) by lia.
      replace (take (n - 1) (body n h)) with (body (n - 1) h)
        by (unfold body; rewrite take_take; f_equal; lia).
      by rewrite Permutation_app_comm. }
  assert (Hc' : comparable (body (n - 1) h)).
  { intros a b r Hr. apply (Hc a b (x :: r)). rewrite Hperm, Hr. etrans; [apply perm_swap|apply perm_skip, perm_swap]. }
  destruct (decide (n = 1)) as [E1|E1].
  { rewrite E1 in *. cbn. eexists. split; [done|]. split; [split; [by left|intros j Hj; cbn in Hj; lia]|].
    by split. }
  destruct (heapify_ok (n - 1) (S (n - 1)) h 1) as (h' & -> & Hl' & Ho' & Hp').
  - split; [lia|unfold h; rewrite length_insert; lia| |].
    + intros j Hj Hne. pose proof (parent_bounds j ltac:(lia)). unfold h. rewrite edge_insert by lia.
      apply Ho. lia.
    + intros j p y Hlt. lia.
  - done.
  - lia.
  - lia.
  - cbn [mbind outcome_bind]. eexists. split; [done|]. split; [split; [right; cbn|done]|split; [|done]].
    + rewrite Hl'. unfold h. rewrite length_insert. lia.
    + unfold elements in *. cbn. by rewrite Hp'.
Qed.

(** ** [verifyHeap] decides the heap property *)

(** [below i j]: node [j] is in the subtree of [i]. *)
Inductive below (i : nat) : nat → Prop :=
  | below_here : below i i
  | below_child j : below i (get_parent j) → 2 ≤ j → below i j.

Lemma below_root j : 1 ≤ j → below 1 j.
Proof.
  induction (lt_wf j) as [j _ IH]. intros Hj.
  destruct (decide (j = 1)) as [->|Hne]; [constructor|].
  pose proof (parent_bounds j ltac:(lia)). apply below_child; [apply IH; lia|lia].
Qed.

Lemma below_ge i j : below i j → i ≤ j.
Proof. induction 1 as [|j _ IH Hj]; [done|]. pose proof (parent_bounds j Hj). lia. Qed.

Lemma below_split i j :
  1 ≤ i → below i j ↔ j = i ∨ below (get_left i) j ∨ below (get_right i) j.
Proof.
  intros Hi. split.
  - induction 1 as [|j Hb IH Hj]; [by left|]. destruct IH as [E|[IH|IH]].
    + right. destruct (child_cases j) as [Ej|Ej]; rewrite E in Ej; [left|right]; rewrite Ej; constructor.
    + right. left. by constructor.
    + right. right. by constructor.
  - intros [->|Hb]; [constructor|].
    assert (E : below i (get_left i) ∧ below i (get_right i)).
    { split; (apply below_child; [rewrite ?parent_left, ?parent_right; constructor|]);
        unfold get_left, get_right, Nat.double; lia. }
    destruct Hb as [Hb|Hb]; induction Hb; [apply E|by constructor|apply E|by constructor].
Qed.

Lemma verifyHeap_spec q fuel : ∀ i,
  m_current_size q < length (m_heap q) → comparable (elements q) → 1 ≤ i →
  m_current_size q + 1 < i + fuel → 0 < fuel →
  ∃ b, verifyHeap fuel q i = Ret b ∧
    (b = true ↔ ∀ j, below i j → 2 ≤ j ≤ m_current_size q → edge_ok (m_heap q) j).
Proof.
  induction fuel as [|fuel IH]; intros i Hlen Hc Hi Hf Hpos; [lia|]. cbn [verifyHeap].
  destruct (Nat.ltb_spec (m_current_size q) i) as [Hgt|Hle].
  { exists true. split; [done|]. split; [|done]. intros _ j Hb%below_ge Hj. lia. }
  assert (Hhere : ∃ b : bool, (if i =? 1 then Ret true
              else p ← (m_heap q).[get_parent i]!; x ← (m_heap q).[i]!;
                   node_less_then_eq p x) = Ret b ∧
            (b = true ↔ (2 ≤ i → edge_ok (m_heap q) i))).
  { destruct (Nat.eqb_spec i 1) as [->|Hne]; [exists true; split; [done|]; split; [lia|done]|].
    pose proof (parent_bounds i ltac:(lia)).
    destruct (lookup_lt_is_Some_2 (m_heap q) i ltac:(lia)) as [x Hx].
    destruct (lookup_lt_is_Some_2 (m_heap q) (get_parent i) ltac:(lia)) as [p Hp].
    exists (node_leb p x). rewrite (proj2 (at_idx_ret _ _ _) Hx), (proj2 (at_idx_ret _ _ _) Hp).
    cbn [mbind outcome_bind]. split; [eapply (compare_at _ _ (get_parent i) i); eauto with lia|].
    split; [intros; by eapply edge_intro|]. intros He. eapply edge_inv; eauto with lia. }
  destruct Hhere as (b & -> & Hb). cbn [mbind outcome_bind].
  assert (Hl : i < get_left i ∧ i < get_right i) by (unfold get_left, get_right, Nat.double; lia).
  destruct fuel as [|fuel'] eqn:Ef; [lia|]. rewrite <- Ef in *.
  destruct (IH (get_right i)) as (r & Er & Hr); [done|done|lia..|].
  destruct (IH (get_left i)) as (l & El & Hl'); [done|done|lia..|].
  exists (b && r && l). split.
  { destruct b; [|done]. rewrite Er. cbn [mbind outcome_bind]. destruct r; [by rewrite El|done]. }
  rewrite !andb_true_iff, Hb, Hr, Hl'. split.
  - intros [[H1 H2] H3] j Hbj Hj. apply below_split in Hbj as [->|[Hbj|Hbj]]; [apply H1; lia|eauto..|done].
  - intros Hall. split_and!; [intros; apply Hall; [constructor|lia]|..];
      intros j Hbj Hj; (apply Hall; [apply below_split; auto|done]).
Qed.
End proofs.

(** ** The claims *)

(** [C25] The heap is a priority queue: [insert] adds one element and faults on
    no heap; [peekMin] and [extractMin] agree on an element no other element is
    below, [extractMin] removes exactly that one, and both stop at their
    assertion when the heap is empty; each operation keeps the heap property. *)
Theorem prio_heap_correct `{HeapOrder T} (q : PrioHeap T) :
  heap_ok q →
  (∀ key, comparable (key :: elements q) →
    ∃ q', insert key q = Ret q' ∧ heap_ok q' ∧ elements q' ≡ₚ key :: elements q) ∧
  (comparable (elements q) → elements q ≠ [] →
    ∃ x q', peekMin q = Ret x ∧ extractMin q = Ret (x, q') ∧ heap_ok q' ∧
      elements q ≡ₚ x :: elements q' ∧ ∀ y, y ∈ elements q → node_leb x y = true) ∧
  (elements q = [] → peekMin q = Raise AssertFailed ∧ extractMin q = Raise AssertFailed).
Proof.
  intros Hq. split_and!.
  - intros key Hc. destruct (heap_insert_ok key q Hq Hc) as (q' & ? & ? & ? & _). eauto.
  - intros Hc Hne. destruct (heap_peek_ok q Hq Hne) as (x & Hx & _ & Hmin).
    destruct (heap_extract_ok q x Hq Hc Hx) as (q' & ? & ? & ? & _). eauto 10.
  - intros Hnil. pose proof (length_elements q Hq) as Hl. rewrite Hnil in Hl. cbn in Hl.
    unfold peekMin, extractMin. by rewrite <- Hl.
Qed.

(** [verifyHeap] answers on every heap whose elements can be compared, and
    its answer is the heap property. *)
Theorem verifyHeap_decides `{HeapOrder T} (q : PrioHeap T) :
  m_current_size q < length (m_heap q) → comparable (elements q) →
  ∃ b, verifyHeap (S (m_current_size q)) q 1 = Ret b ∧
    (b = true ↔ ordered (m_current_size q) (m_heap q)).
Proof.
  intros Hlen Hc. destruct (verifyHeap_spec q (S (m_current_size q)) 1) as (b & E & Hb); [done|done|lia..|].
  exists b. split; [done|]. rewrite Hb. unfold ordered. split; [|naive_solver].
  intros Hall j Hj. apply Hall; [apply below_root; lia|done].
Qed.

(** The heap of integers, to evaluate the operations. *)
#[local] Instance nat_node : HeapNode nat := {| node_less_then_eq a b := Ret (a <=? b); node_default := 0 |}.
#[local] Instance nat_order : HeapOrder nat.
Proof.
  refine {| node_leb := Nat.leb |}; intros *; rewrite ?Nat.leb_le, ?Nat.leb_gt; lia.
Defined.

Lemma nat_comparable (l : list nat) : comparable l.
Proof. by intros a b r _. Qed.

Definition ex_heap : PrioHeap nat := mkPrioHeap [9; 2; 3; 7; 5] 4.

Lemma ex_heap_ok : heap_ok ex_heap.
Proof.
  split; [right; cbn; lia|]. intros j Hj. cbn in Hj.
  assert (j = 2 ∨ j = 3 ∨ j = 4) as [->|[->| ->]] by lia; repeat eexists.
Qed.

Lemma prio_heap_correct_witness :
  heap_ok ex_heap ∧ extractMin ex_heap = Ret (2, mkPrioHeap [9; 3; 5; 7; 5] 3) ∧
  ∃ q', insert 1 ex_heap = Ret q' ∧ heap_ok q' ∧ elements q' ≡ₚ 1 :: elements ex_heap.
Proof.
  split; [exact ex_heap_ok|]. split; [reflexivity|].
  exact (proj1 (prio_heap_correct ex_heap ex_heap_ok) 1 (nat_comparable _)).
Defined.

Lemma verifyHeap_decides_witness :
  verifyHeap 5 (mkPrioHeap [9; 2; 3; 7; 1] 4) 1 = Ret false ∧
  ∃ b, verifyHeap 5 ex_heap 1 = Ret b ∧ (b = true ↔ ordered 4 (m_heap ex_heap)).
Proof.
  split; [reflexivity|]. apply (verifyHeap_decides ex_heap); [cbn; lia|apply nat_comparable].
Defined.
