(* ===== verification/EventQueue.v ===== *)
(** * The event queue of the memory system

    [EventQueue.C], [EventQueue.h], [EventQueueNode.h] and [Consumer.h] of
    [gems-lib/ruby_clean]: consumers ask to be woken at a cycle, the queue keeps
    the requests in a [PrioHeap] and [triggerEvents] wakes the consumers that
    are due.  The virtual [wakeup] of a consumer is a parameter: it acts on a
    state of its own and schedules further wakeups. *)

From S2P Require Import Prelude PrioHeap.
Local Open Scope Z_scope.

(** ** Nodes and consumers *)

Record EventQueueNode := mkNode { m_time : Z; m_consumer_ptr : option nat }.

#[export] Instance EventQueueNode_heap : HeapNode EventQueueNode := {|
  node_less_then_eq n1 n2 := Ret (m_time n1 <=? m_time n2);
  node_default := mkNode 0 None
|}.

#[export] Instance EventQueueNode_order : HeapOrder EventQueueNode.
Proof.
  refine {| node_leb n1 n2 := m_time n1 <=? m_time n2 |}; intros *;
    rewrite ?Z.leb_le, ?Z.leb_gt; lia.
Defined.

Lemma EventQueueNode_comparable (l : list EventQueueNode) : comparable l.
Proof. by intros a b r _. Qed.

#[export] Hint Resolve EventQueueNode_comparable : csim.

(** The two times a [Consumer] keeps for the event queue. *)
Record Consumer := mkConsumer { m_last_scheduled_wakeup : Z; m_last_wakeup : Z }.
Definition new_consumer : Consumer := mkConsumer 0 0.

Record EventQueue := mkEventQueue {
  m_prio_heap : PrioHeap EventQueueNode;
  m_globalTime : Z;
  m_timeOfLastRecovery : Z
}.

Definition event_queue_init : EventQueue := mkEventQueue heap_init 1 1.

(** The consumers are objects of the store; a pointer to one is a [nat]. *)
Record world (W : Type) := mkWorld {
  queue : EventQueue;
  consumers : nat → Consumer;
  rest : W                     (** what the [wakeup] methods act on *)
}.
Arguments mkWorld {W}.
Arguments queue {W}.
Arguments consumers {W}.
Arguments rest {W}.

Definition set_consumer (c : nat) (x : Consumer) (cs : nat → Consumer) : nat → Consumer :=
  λ c', if decide (c' = c) then x else cs c'.

Section eventqueue.
Context {W : Type}.
(** [wakeup c]: the state after, and the [scheduleEventAbsolute] calls made. *)
Variable wakeup : W → nat → Z → W * list (nat * Z).
Implicit Types s : world W.

Definition getTime s : Z := m_globalTime (queue s).
Definition isEmpty s : bool := (m_current_size (m_prio_heap (queue s)) =? 0)%nat.

Definition set_time (t : Z) s : world W :=
  mkWorld (mkEventQueue (m_prio_heap (queue s)) t (m_timeOfLastRecovery (queue s)))
    (consumers s) (rest s).

Definition set_heap (h : PrioHeap EventQueueNode) s : world W :=
  mkWorld (mkEventQueue h (m_globalTime (queue s)) (m_timeOfLastRecovery (queue s)))
    (consumers s) (rest s).

Definition setLastScheduledWakeup (c : nat) (t : Z) s : world W :=
  mkWorld (queue s) (set_consumer c (mkConsumer t (m_last_wakeup (consumers s c))) (consumers s)) (rest s).

Definition scheduleEventAbsolute (consumer : option nat) (timeAbs : Z) s : outcome (world W) :=
  match consumer with
  | None => Raise AssertFailed
  | Some c =>
      if m_last_scheduled_wakeup (consumers s c) =? timeAbs then Ret s
      else
        assertb (getTime s <? timeAbs) ;;
        h ← insert (mkNode timeAbs consumer) (m_prio_heap (queue s));
        Ret (setLastScheduledWakeup c timeAbs (set_heap h s))
  end.

Definition scheduleEvent (consumer : option nat) (timeDelta : Z) s : outcome (world W) :=
  scheduleEventAbsolute consumer (timeDelta + getTime s) s.

(** [Consumer::triggerWakeup]; the list says whether [wakeup] was called. *)
Definition triggerWakeup (c : nat) s : outcome (world W * list (nat * Z)) :=
  let time := getTime s in
  if m_last_wakeup (consumers s c) =? time then Ret (s, [])
  else
    let '(w, calls) := wakeup (rest s) c time in
    s ← foldM (λ s '(c', t'), scheduleEventAbsolute (Some c') t' s)
          (mkWorld (queue s) (consumers s) w) calls;
    Ret (mkWorld (queue s)
           (set_consumer c (mkConsumer (m_last_scheduled_wakeup (consumers s c)) time) (consumers s))
           (rest s), [(c, time)]).

(** The loop of [triggerEvents] and of [triggerAllEvents]. *)
Fixpoint event_loop (fuel : nat) (due : Z → bool) s : outcome (world W * list (nat * Z)) :=
  match fuel with
  | 0%nat => Raise NoFuel
  | S fuel =>
      if isEmpty s then Ret (s, [])
      else
        m ← peekMin (m_prio_heap (queue s));
        if due (m_time m) then
          let s := set_time (m_time m) s in
          '(thisNode, h) ← extractMin (m_prio_heap (queue s));
          let s := set_heap h s in
          match m_consumer_ptr thisNode with
          | None => Raise AssertFailed
          | Some c =>
              '(s, woken) ← triggerWakeup c s;
              '(s, later) ← event_loop fuel due s;
              Ret (s, woken ++ later)
          end
        else Ret (s, [])
  end.

Definition triggerEvents (fuel : nat) (t : Z) s : outcome (world W * list (nat * Z)) :=
  '(s, woken) ← event_loop fuel (λ m, m <=? t) s;
  Ret (set_time t s, woken).

Definition triggerAllEvents (fuel : nat) s : outcome (world W * list (nat * Z)) :=
  event_loop fuel (λ _, true) s.

(** The rounds of the loop when one cycle is triggered: one per node queued. *)
Definition event_fuel s : nat := S (m_current_size (m_prio_heap (queue s))).

(** ** The invariant *)

Definition nodes s : list EventQueueNode := elements (m_prio_heap (queue s)).

Definition later (now : Z) (n : EventQueueNode) : Prop :=
  now < m_time n ∧ is_Some (m_consumer_ptr n).

Definition due_now (now : Z) (n : EventQueueNode) : Prop :=
  m_time n = now ∧ is_Some (m_consumer_ptr n).

(** [P] are the nodes of the current cycle not handled yet. *)
Record pending_ok (P : list EventQueueNode) s : Prop := {
  po_heap : heap_ok (m_prio_heap (queue s));
  po_now : Forall (due_now (getTime s)) P;
  po_later : ∃ L, nodes s ≡ₚ P ++ L ∧ Forall (later (getTime s)) L;
  po_sched : ∀ c, getTime s < m_last_scheduled_wakeup (consumers s c) →
    mkNode (m_last_scheduled_wakeup (consumers s c)) (Some c) ∈ nodes s;
  po_woken : ∀ c, m_last_wakeup (consumers s c) ≤ getTime s
}.

(** Between two calls of [triggerEvents] nothing is pending. *)
Definition events_ok s : Prop := pending_ok [] s.

(** A [wakeup] schedules for later cycles only ([scheduleEventAbsolute] asserts it). *)
Definition schedules_later : Prop :=
  ∀ w c t, Forall (λ '(_, t'), t < t') (wakeup w c t).2.

(** What scheduling leaves alone. *)
Record kept s s' : Prop := {
  kept_time : getTime s' = getTime s;
  kept_nodes : ∀ n, n ∈ nodes s → n ∈ nodes s';
  kept_woken : ∀ c, m_last_wakeup (consumers s' c) = m_last_wakeup (consumers s c)
}.

Lemma kept_refl s : kept s s.
Proof. by split. Qed.

Lemma kept_trans s1 s2 s3 : kept s1 s2 → kept s2 s3 → kept s1 s3.
Proof. intros [T1 N1 K1] [T2 N2 K2]. split; [congruence|auto|]. intros c. by rewrite K2. Qed.

(** ** Scheduling *)

Lemma schedule_ok P s c t :
  pending_ok P s → getTime s < t →
  ∃ s', scheduleEventAbsolute (Some c) t s = Ret s' ∧ pending_ok P s' ∧ kept s s' ∧
    mkNode t (Some c) ∈ nodes s' ∧ m_last_scheduled_wakeup (consumers s' c) = t.
Proof.
  intros [Hh Hnow (L & HL & Hlater) Hsched Hwoken] Ht. cbn [scheduleEventAbsolute].
  destruct (Z.eqb_spec (m_last_scheduled_wakeup (consumers s c)) t) as [E|Hne].
  { exists s. split; [done|]. split; [by split; eauto|]. split; [apply kept_refl|].
    split; [|done]. rewrite <- E. apply Hsched. by rewrite E. }
  rewrite (proj2 (Z.ltb_lt _ _)) by done. cbn [assertb mbind outcome_bind].
  destruct (heap_insert_ok (mkNode t (Some c)) (m_prio_heap (queue s))) as (h & -> & Hh' & Hp & _);
    [done|auto with csim|].
  cbn [mbind outcome_bind]. eexists. split; [done|].
  assert (Hin : ∀ n, n ∈ elements h ↔ n = mkNode t (Some c) ∨ n ∈ nodes s)
    by (intros n; by rewrite Hp, elem_of_cons).
  unfold setLastScheduledWakeup, set_consumer, set_heap, nodes, getTime in *.
  split; [|split; [|split]]; [split|split|..]; cbn in *; try done.
  - exists (mkNode t (Some c) :: L). rewrite Hp, HL. split; [apply Permutation_middle|].
    constructor; [split; cbn; [done|eauto]|done].
  - intros c'. destruct (decide (c' = c)) as [->|Hc]; cbn; intros; apply Hin; auto.
  - intros c'. destruct (decide (c' = c)) as [->|Hc]; cbn; [apply Hwoken|apply Hwoken].
  - intros n Hn. apply Hin. auto.
  - intros c'. by destruct (decide (c' = c)) as [->|Hc].
  - apply Hin. auto.
  - by rewrite decide_True.
Qed.

Lemma schedules_ok P calls : ∀ s,
  pending_ok P s → Forall (λ '(_, t'), getTime s < t') calls →
  ∃ s', foldM (λ s '(c', t'), scheduleEventAbsolute (Some c') t' s) s calls = Ret s' ∧
    pending_ok P s' ∧ kept s s' ∧ ∀ c t, (c, t) ∈ calls → mkNode t (Some c) ∈ nodes s'.
Proof.
  induction calls as [|[c t] calls IH]; intros s Hs Hcalls.
  { exists s. split; [done|]. split; [done|]. split; [apply kept_refl|]. by intros c t ?%not_elem_of_nil. }
  apply Forall_cons in Hcalls as [Ht Hcalls].
  destruct (schedule_ok P s c t Hs Ht) as (s1 & E & H1 & K1 & Hin & _).
  destruct (IH s1 H1) as (s2 & E2 & H2 & K2 & Hin2); [by rewrite (kept_time _ _ K1)|].
  exists s2. cbn [foldM]. rewrite E. cbn [mbind outcome_bind].
  split; [done|]. split; [done|]. split; [by eapply kept_trans|].
  intros c' t' [[= -> ->]|Hct]%elem_of_cons; [by apply (kept_nodes _ _ K2)|by apply Hin2].
Qed.

(** Scheduling does not touch what the wakeups act on. *)
Lemma schedule_rest c t s s' : scheduleEventAbsolute c t s = Ret s' → rest s' = rest s.
Proof.
  destruct c as [c|]; cbn [scheduleEventAbsolute]; [|done].
  destruct (_ =? _); [by intros [= <-]|]. intros H. unbind H. by injection H as <-.
Qed.

Lemma schedules_rest calls : ∀ s s',
  foldM (λ s '(c', t'), scheduleEventAbsolute (Some c') t' s) s calls = Ret s' → rest s' = rest s.
Proof.
  induction calls as [|[c t] calls IH]; intros s s'; cbn [foldM]; [by intros [= <-]|].
  intros (s1 & E1 & E2)%bind_ret_inv. rewrite (IH _ _ E2). by eapply schedule_rest.
Qed.

(** ** Waking one consumer *)

Definition woken_before s c : Prop := m_last_wakeup (consumers s c) = getTime s.

Lemma triggerWakeup_ok P s c :
  schedules_later → pending_ok P s →
  ∃ s' woken, triggerWakeup c s = Ret (s', woken) ∧ pending_ok P s' ∧
    getTime s' = getTime s ∧ (∀ n, n ∈ nodes s → n ∈ nodes s') ∧
    (∀ c', woken_before s' c' ↔ c' = c ∨ woken_before s c') ∧
    (woken_before s c ∧ woken = [] ∧ rest s' = rest s ∨
     ¬ woken_before s c ∧ woken = [(c, getTime s)] ∧ rest s' = (wakeup (rest s) c (getTime s)).1 ∧
     ∀ c' t', (c', t') ∈ (wakeup (rest s) c (getTime s)).2 → mkNode t' (Some c') ∈ nodes s').
Proof.
  intros Hw Hs. unfold triggerWakeup, woken_before. cbn zeta.
  destruct (Z.eqb_spec (m_last_wakeup (consumers s c)) (getTime s)) as [E|Hne].
  { exists s, []. split; [done|]. split; [done|]. split; [done|]. split; [done|]. split; [naive_solver|auto]. }
  specialize (Hw (rest s) c (getTime s)). destruct (wakeup (rest s) c (getTime s)) as [w calls]. cbn in Hw.
  destruct (schedules_ok P calls (mkWorld (queue s) (consumers s) w)) as (s1 & E1 & H1 & K1 & Hcalls);
    [by destruct Hs; split|done|].
  pose proof (schedules_rest calls _ _ E1) as Hrest. rewrite E1. cbn [fst snd].
  destruct K1 as [KT KN KW]. cbn [mbind outcome_bind]. eexists _, _. split; [reflexivity|].
  assert (Elast : ∀ c', m_last_scheduled_wakeup
      (set_consumer c (mkConsumer (m_last_scheduled_wakeup (consumers s1 c)) (getTime s)) (consumers s1) c') =
      m_last_scheduled_wakeup (consumers s1 c'))
    by (intros c'; unfold set_consumer; by destruct (decide (c' = c)) as [->|]).
  assert (Ewake : ∀ c', m_last_wakeup
      (set_consumer c (mkConsumer (m_last_scheduled_wakeup (consumers s1 c)) (getTime s)) (consumers s1) c') =
      if decide (c' = c) then getTime s else m_last_wakeup (consumers s c'))
    by (intros c'; unfold set_consumer; destruct (decide (c' = c)); [done|apply KW]).
  destruct H1 as [Hh Hnow Hl Hsched Hwk].
  change (getTime (mkWorld (queue s) (consumers s) w)) with (getTime s) in *.
  split; [|split; [exact KT|split; [exact KN|split]]].
  - split; [exact Hh|exact Hnow|exact Hl| |]; intros c'; cbn [consumers]; rewrite ?Elast, ?Ewake.
    + apply Hsched.
    + unfold getTime in *. cbn [queue]. rewrite KT. destruct Hs. by case_decide.
  - intros c'. cbn [consumers]. rewrite Ewake. unfold getTime in *. cbn [queue].
    rewrite KT. case_decide; naive_solver.
  - right. auto.
Qed.

(** ** The loop of one cycle *)

(** The wakeups performed, in order. *)
Definition run_wakeups (w : W) (woken : list (nat * Z)) : W :=
  foldl (λ w '(c, t), (wakeup w c t).1) w woken.

Lemma set_time_id s : set_time (getTime s) s = s.
Proof. by destruct s as [[]]. Qed.

(** The clock the call starts with does not matter. *)
Lemma triggerEvents_set_time fuel t t' s :
  triggerEvents fuel t (set_time t' s) = triggerEvents fuel t s.
Proof.
  unfold triggerEvents. destruct fuel as [|fuel]; [done|]. cbn [event_loop].
  change (isEmpty (set_time t' s)) with (isEmpty s). destruct (isEmpty s); [done|].
  change (m_prio_heap (queue (set_time t' s))) with (m_prio_heap (queue s)).
  destruct (peekMin _) as [m|]; [|done]. cbn [mbind outcome_bind].
  by destruct (m_time m <=? t).
Qed.

Lemma isEmpty_nodes s : heap_ok (m_prio_heap (queue s)) → isEmpty s = true ↔ nodes s = [].
Proof.
  intros Hh. unfold isEmpty, nodes. rewrite Nat.eqb_eq, <- (length_elements _ Hh).
  by destruct (elements _).
Qed.

(** With something pending the loop takes a pending node. *)
Lemma pending_step P s :
  pending_ok P s → P ≠ [] →
  ∃ c P' h, isEmpty s = false ∧ let x := mkNode (getTime s) (Some c) in
    peekMin (m_prio_heap (queue s)) = Ret x ∧
    extractMin (m_prio_heap (queue s)) = Ret (x, h) ∧ P ≡ₚ x :: P' ∧
    pending_ok P' (set_heap h s) ∧ ∀ n, n ∈ nodes s → n = x ∨ n ∈ elements h.
Proof.
  intros [Hh Hnow (L & HL & Hlater) Hsched Hwoken] HP.
  destruct P as [|y P]; [done|]. clear HP.
  assert (Hne : nodes s ≠ []) by (intros E; rewrite E in HL; by apply Permutation_nil_cons in HL).
  destruct (heap_peek_ok _ Hh Hne) as (x & Hx & Hin & Hmin).
  destruct (heap_extract_ok _ x Hh (EventQueueNode_comparable _) Hx) as (h & Hext & Hh' & Hp & _).
  change (elements (m_prio_heap (queue s))) with (nodes s) in *.
  assert (HxP : x ∈ y :: P).
  { rewrite HL in Hin. apply elem_of_app in Hin as [|HxL]; [done|].
    assert (Hy : node_leb x y = true) by (apply Hmin; rewrite HL; left).
    apply Z.leb_le in Hy. rewrite Forall_forall in Hlater. apply Hlater in HxL as [Hgt _].
    apply Forall_cons in Hnow as [[Ey _] _]. lia. }
  rewrite Forall_forall in Hnow. pose proof (Hnow x HxP) as [Et [c Ec]].
  assert (Ex : x = mkNode (getTime s) (Some c)) by (destruct x; cbn in *; congruence).
  apply elem_of_Permutation in HxP as [P' HP'].
  assert (HL' : elements h ≡ₚ P' ++ L).
  { apply (Permutation_cons_inv (a := x)). rewrite <- Hp, HL, HP'. done. }
  assert (Hback : ∀ n, n ∈ nodes s → n = x ∨ n ∈ elements h)
    by (intros n; rewrite Hp; by rewrite elem_of_cons).
  exists c, P', h. split; [by apply not_true_is_false; rewrite isEmpty_nodes|]. rewrite <- Ex.
  split; [done|]. split; [done|]. split; [done|]. split; [|done].
  split; [done| |by exists L| |done].
  - apply Forall_forall. intros n Hn. apply Hnow. rewrite HP'. by right.
  - intros c' Hc'. destruct (Hback _ (Hsched c' Hc')) as [E|]; [|done].
    exfalso. rewrite Ex in E. injection E as E _. unfold getTime in *. cbn in Hc'. lia.
Qed.

Lemma cycle_loop t fuel : ∀ P s,
  schedules_later → pending_ok P s → getTime s = t → (length P < fuel)%nat →
  ∃ s' woken, event_loop fuel (λ m, m <=? t) s = Ret (s', woken) ∧
    events_ok s' ∧ getTime s' = t ∧ (∀ n, later t n → n ∈ nodes s → n ∈ nodes s') ∧
    NoDup woken ∧ rest s' = run_wakeups (rest s) woken ∧
    (∀ c c' t', (∀ w, (c', t') ∈ (wakeup w c t).2) → (c, t) ∈ woken → mkNode t' (Some c') ∈ nodes s') ∧
    ∀ c τ, (c, τ) ∈ woken ↔ τ = t ∧ mkNode t (Some c) ∈ P ∧ ¬ woken_before s c.
Proof.
  induction fuel as [|fuel IH]; intros P s Hw Hs Ht Hf; [lia|].
  destruct (decide (P = [])) as [->|HP].
  - assert (E : event_loop (S fuel) (λ m, m <=? t) s = Ret (s, [])).
    { cbn [event_loop]. destruct Hs as [Hh _ (L & HL & Hlater) _ _]. cbn in HL.
      destruct (isEmpty s) eqn:Ee; [done|].
      destruct (heap_peek_ok _ Hh) as (x & -> & Hx & _);
        [change (nodes s ≠ []); by rewrite <- isEmpty_nodes, Ee by done|]. cbn [mbind outcome_bind].
      change (x ∈ nodes s) in Hx. rewrite HL in Hx. rewrite Forall_forall in Hlater.
      apply Hlater in Hx as [Hgt _]. by rewrite (proj2 (Z.leb_gt _ _)) by lia. }
    exists s, []. rewrite E. split_and!; [done|done|done|done|constructor|done|by intros ???? ?%not_elem_of_nil|].
    intros c τ. split; [by intros ?%not_elem_of_nil|]. by intros (_ & ?%not_elem_of_nil & _).
  - destruct (pending_step P s Hs HP) as (c & P' & h & Ee & Hpk & Hext & HP' & Hs1 & Hback).
    cbn [event_loop]. rewrite Ee, Hpk. cbn [mbind outcome_bind m_time].
    rewrite Ht in *. rewrite Z.leb_refl. replace (set_time t s) with s by (by rewrite <- Ht, set_time_id).
    rewrite Hext. cbn [mbind outcome_bind m_consumer_ptr].
    destruct (triggerWakeup_ok P' (set_heap h s) c Hw Hs1) as (s2 & w & -> & Hs2 & Ht2 & Hn2 & Hb2 & Hc2).
    cbn [mbind outcome_bind]. change (getTime (set_heap h s)) with (getTime s) in *.
    destruct (IH P' s2 Hw Hs2) as (s3 & w3 & -> & Hs3 & Ht3 & Hn3 & Hnd & Hr3 & Hc3 & Hw3);
      [by rewrite Ht2|rewrite HP' in Hf; cbn in Hf; lia|].
    cbn [mbind outcome_bind]. exists s3, (w ++ w3). split; [done|]. split; [done|]. split; [done|].
    change (woken_before (set_heap h s)) with (woken_before s) in *.
    split; [|split; [|split; [|split]]].
    + intros n Hl Hn. apply Hn3; [done|]. apply Hn2. destruct (Hback n Hn) as [->|]; [|done].
      destruct Hl as [Hl _]. cbn in Hl. lia.
    + destruct Hc2 as [(_ & -> & _)|(_ & -> & _)]; [done|]. apply NoDup_cons. split; [|done].
      rewrite Ht. intros (_ & _ & Hnb)%Hw3. apply Hnb, Hb2. by left.
    + rewrite Hr3. unfold run_wakeups. rewrite foldl_app. f_equal.
      by destruct Hc2 as [(_ & -> & ->)|(_ & -> & -> & _)].
    + intros c1 c' t' Hcall [Hin|Hin]%elem_of_app; [|by eapply Hc3].
      destruct Hc2 as [(_ & -> & _)|(_ & -> & _ & Hsched)]; [by apply not_elem_of_nil in Hin|].
      apply list_elem_of_singleton in Hin as [= ->]. specialize (Hcall (rest s)).
      assert (Hlater : later t (mkNode t' (Some c'))).
      { specialize (Hw (rest s) c t). rewrite Forall_forall in Hw.
        split; [exact (Hw _ Hcall)|by eexists]. }
      apply Hn3; [done|]. rewrite Ht in Hsched. by apply Hsched.
    + intros c' τ. rewrite elem_of_app, Hw3, HP', elem_of_cons, Hb2. rewrite Ht in Hc2.
      assert (Hx : mkNode t (Some c') = mkNode t (Some c) ↔ c' = c) by (split; congruence). rewrite Hx.
      destruct Hc2 as [(Hb & -> & _)|(Hb & -> & _)]; [rewrite elem_of_nil|rewrite list_elem_of_singleton];
        destruct (decide (c' = c)) as [->|]; naive_solver.
Qed.

(** ** The clock of the simulator *)

(** [OpalInterface::advanceTime] of [O3simInterface.C]: one cycle. *)
Definition advanceTime s : outcome (world W * list (nat * Z)) :=
  triggerEvents (event_fuel s) (getTime s + 1) s.

Fixpoint run_cycles (n : nat) s : outcome (world W * list (nat * Z)) :=
  match n with
  | 0%nat => Ret (s, [])
  | S n => '(s, w) ← advanceTime s; '(s, w') ← run_cycles n s; Ret (s, w ++ w')
  end.

Lemma event_queue_init_ok (w : W) :
  events_ok (mkWorld event_queue_init (λ _, new_consumer) w).
Proof.
  split; [apply heap_init_ok|constructor|by exists []| |done]; cbn; intros c Hc; unfold getTime in Hc; cbn in Hc; lia.
Qed.

(** The nodes due in the next cycle become the pending ones. *)
Lemma pending_advance s :
  events_ok s → ∃ P, pending_ok P (set_time (getTime s + 1) s) ∧ (length P < event_fuel s)%nat ∧
    ∀ c, mkNode (getTime s + 1) (Some c) ∈ P ↔ mkNode (getTime s + 1) (Some c) ∈ nodes s.
Proof.
  intros [Hh _ (L & HL & Hlater) Hsched Hwoken]. cbn in HL. set (t := getTime s + 1) in *.
  rewrite Forall_forall in Hlater.
  exists (filter (λ n, m_time n = t) L). split; [split; [done| | | |]|split].
  - apply Forall_forall. intros n [Hn HnL]%list_elem_of_filter. split; [done|by apply Hlater].
  - exists (filter (λ n, m_time n ≠ t) L). split.
    + change (nodes (set_time t s)) with (nodes s). rewrite HL. clear.
      induction L as [|n L IH]; [done|]. rewrite !filter_cons.
      destruct (decide (m_time n = t)) as [E|E]; [rewrite decide_False by naive_solver|rewrite decide_True by done].
      * cbn. by rewrite <- IH.
      * rewrite IH at 1. apply Permutation_middle.
    + apply Forall_forall. intros n [Hn HnL]%list_elem_of_filter. destruct (Hlater n HnL) as [Hgt Hs].
      split; [|done]. change (getTime (set_time t s)) with t. unfold t in *. lia.
  - intros c Hc. apply Hsched. change (t < m_last_scheduled_wakeup (consumers s c)) in Hc. unfold t in Hc. lia.
  - intros c. change (m_last_wakeup (consumers s c) ≤ t). specialize (Hwoken c). unfold t. lia.
  - unfold event_fuel. rewrite <- (length_elements _ Hh). change (elements _) with (nodes s).
    rewrite HL. pose proof (length_filter (λ n, m_time n = t) L). lia.
  - intros c. rewrite HL, list_elem_of_filter. cbn. naive_solver.
Qed.

Lemma events_advance_ok s :
  schedules_later → events_ok s →
  ∃ s' woken, advanceTime s = Ret (s', woken) ∧ events_ok s' ∧ getTime s' = getTime s + 1 ∧
    NoDup woken ∧
    (∀ c t, (c, t) ∈ woken ↔ t = getTime s + 1 ∧ mkNode t (Some c) ∈ nodes s) ∧
    (∀ n, getTime s + 1 < m_time n → n ∈ nodes s → n ∈ nodes s') ∧
    rest s' = run_wakeups (rest s) woken ∧
    ∀ c c' t', (∀ w, (c', t') ∈ (wakeup w c (getTime s + 1)).2) → (c, getTime s + 1) ∈ woken →
      mkNode t' (Some c') ∈ nodes s'.
Proof.
  intros Hw Hs. unfold advanceTime. rewrite <- (triggerEvents_set_time _ _ (getTime s + 1)).
  destruct (pending_advance s Hs) as (P & HP & Hf & HPn). unfold triggerEvents.
  destruct (cycle_loop (getTime s + 1) (event_fuel s) P (set_time (getTime s + 1) s))
    as (s' & woken & -> & Hs' & Ht' & Hn' & Hnd & Hrest & Hcall & Hwk); [done|done|done|done|].
  cbn [mbind outcome_bind]. exists s', woken. split; [by rewrite <- Ht', set_time_id|].
  split; [done|]. split; [done|]. split; [done|]. split; [|split; [|by split]].
  - intros c t. rewrite Hwk. destruct Hs as [_ _ _ _ Hold].
    assert (Hnb : ¬ woken_before (set_time (getTime s + 1) s) c)
      by (unfold woken_before; change (m_last_wakeup (consumers s c) ≠ getTime s + 1); specialize (Hold c); lia).
    split; [intros (-> & Hp & _); by rewrite <- HPn|intros [-> Hp]; by rewrite HPn].
  - intros n Hn Hin. apply Hn'; [|done]. split; [done|].
    destruct Hs as [_ _ (L & HL & Hlater) _ _]. rewrite Forall_forall in Hlater.
    apply Hlater. change (nodes (set_time _ s)) with (nodes s) in Hin. by rewrite HL in Hin.
Qed.

(** A queued node is served in its cycle. *)
Lemma run_serves n : ∀ s c t,
  schedules_later → events_ok s → mkNode t (Some c) ∈ nodes s → t = getTime s + Z.of_nat n →
  ∃ s' woken, run_cycles n s = Ret (s', woken) ∧ events_ok s' ∧ getTime s' = t ∧ (c, t) ∈ woken.
Proof.
  induction n as [|n IH]; intros s c t Hw Hs Hin Ht.
  - exfalso. destruct Hs as [_ _ (L & HL & Hlater) _ _]. rewrite HL in Hin.
    rewrite Forall_forall in Hlater. apply Hlater in Hin as [Hgt _]. cbn in Hgt. lia.
  - destruct (events_advance_ok s Hw Hs) as (s1 & w1 & E & Hs1 & Ht1 & _ & Hw1 & Hn1 & _).
    cbn [run_cycles]. rewrite E. cbn [mbind outcome_bind].
    destruct n as [|n].
    + exists s1, (w1 ++ []). cbn. split; [done|]. split; [done|]. split; [lia|].
      apply elem_of_app. left. apply Hw1. split; [lia|done].
    + destruct (IH s1 c t Hw Hs1) as (s2 & w2 & -> & Hs2 & Ht2 & Hw2); [apply Hn1; [cbn; lia|done]|lia|].
      cbn [mbind outcome_bind]. exists s2, (w1 ++ w2). rewrite elem_of_app. auto.
Qed.
End eventqueue.

(** ** The claims *)

(** One cycle of the event queue: [triggerEvents(getTime() + 1)] ends
    without a failed assertion, calls [wakeup] once on each consumer that has a
    node for this cycle and on no other, and keeps every later node and the
    invariant, whatever the wakeups schedule. *)
Theorem advanceTime_wakes {W} (wakeup : W → nat → Z → W * list (nat * Z)) (s : world W) :
  schedules_later wakeup → events_ok s →
  ∃ s' woken, advanceTime wakeup s = Ret (s', woken) ∧ events_ok s' ∧
    getTime s' = getTime s + 1 ∧ NoDup woken ∧
    (∀ c t, (c, t) ∈ woken ↔ t = getTime s + 1 ∧ mkNode t (Some c) ∈ nodes s) ∧
    ∀ n, getTime s + 1 < m_time n → n ∈ nodes s → n ∈ nodes s'.
Proof.
  intros Hw Hs. destruct (events_advance_ok wakeup s Hw Hs) as (s' & woken & ? & ? & ? & ? & ? & ? & _).
  by exists s', woken.
Qed.

(** [C24] No wakeup is lost: a consumer scheduled for a later cycle [t] is woken
    in cycle [t] when the simulator runs up to it, even when the request was
    merged with an earlier equal one or other requests came in between. *)
Theorem scheduled_wakeup_happens {W} (wakeup : W → nat → Z → W * list (nat * Z)) (s : world W)
    (c : nat) (t : Z) (others : list (nat * Z)) :
  schedules_later wakeup → events_ok s → getTime s < t → Forall (λ '(_, t'), getTime s < t') others →
  ∃ s1 s2 s' woken, scheduleEventAbsolute (Some c) t s = Ret s1 ∧
    foldM (λ s '(c', t'), scheduleEventAbsolute (Some c') t' s) s1 others = Ret s2 ∧
    run_cycles wakeup (Z.to_nat (t - getTime s)) s2 = Ret (s', woken) ∧
    events_ok s' ∧ getTime s' = t ∧ (c, t) ∈ woken.
Proof.
  intros Hw Hs Ht Hall. destruct (schedule_ok [] s c t Hs Ht) as (s1 & E1 & Hs1 & K1 & Hin & _).
  destruct (schedules_ok [] others s1 Hs1) as (s2 & E2 & Hs2 & K2 & _); [by rewrite (kept_time _ _ K1)|].
  destruct (run_serves wakeup (Z.to_nat (t - getTime s)) s2 c t) as (s' & woken & E & ? & ? & ?);
    [done|done|by apply (kept_nodes _ _ K2)|rewrite (kept_time _ _ K2), (kept_time _ _ K1); lia|].
  by exists s1, s2, s', woken.
Qed.

(** A consumer that reschedules itself two cycles later each time. *)
Definition ex_wakeup (w : unit) (c : nat) (t : Z) : unit * list (nat * Z) := (w, [(c, t + 2)]).
Definition ex_world : world unit := mkWorld event_queue_init (λ _, new_consumer) tt.

Lemma ex_wakeup_later : schedules_later ex_wakeup.
Proof. intros w c t. repeat constructor. lia. Qed.

Lemma advanceTime_wakes_witness :
  (snd <$> (match scheduleEvent (Some 7%nat) 1 ex_world with
           | Ret s => match run_cycles ex_wakeup 5 s with Ret r => Some r | _ => None end
           | _ => None end)) = Some [(7%nat, 2); (7%nat, 4); (7%nat, 6)] ∧
  ∃ s' woken, advanceTime ex_wakeup ex_world = Ret (s', woken) ∧ events_ok s' ∧
    getTime s' = getTime ex_world + 1 ∧ NoDup woken ∧
    (∀ c t, (c, t) ∈ woken ↔ t = getTime ex_world + 1 ∧ mkNode t (Some c) ∈ nodes ex_world) ∧
    ∀ n, getTime ex_world + 1 < m_time n → n ∈ nodes ex_world → n ∈ nodes s'.
Proof.
  split; [reflexivity|].
  apply (advanceTime_wakes ex_wakeup ex_world ex_wakeup_later (event_queue_init_ok tt)).
Defined.

Lemma scheduled_wakeup_happens_witness :
  ∃ s1 s2 s' woken, scheduleEventAbsolute (Some 3%nat) 4 ex_world = Ret s1 ∧
    foldM (λ s '(c', t'), scheduleEventAbsolute (Some c') t' s) s1 [(3%nat, 2); (5%nat, 4); (3%nat, 4)] = Ret s2 ∧
    run_cycles ex_wakeup (Z.to_nat (4 - getTime ex_world)) s2 = Ret (s', woken) ∧
    events_ok s' ∧ getTime s' = 4 ∧ (3%nat, 4) ∈ woken.
Proof.
  apply (scheduled_wakeup_happens ex_wakeup ex_world 3 4 [(3%nat, 2); (5%nat, 4); (3%nat, 4)]);
    [exact ex_wakeup_later|exact (event_queue_init_ok tt)|reflexivity|repeat constructor].
Defined.
