(* ===== verification/MessageBuffer.v ===== *)
(** * Message buffers

    [MessageBuffer.C], [MessageBuffer.h], [MessageBufferNode.h] of
    [gems-lib/ruby_clean/buffers] and the timing fields of [Message.h]: a queue
    of messages ordered by arrival time and, within a cycle, by a counter.  It
    keeps its nodes in a [PrioHeap] and schedules its consumer on the
    [EventQueue].  Messages are objects of a store, since one message may be in
    several buffers.  Left out: the name of the buffer and the debug output. *)

From Stdlib Require Import Sorting.Sorted.
From S2P Require Import Prelude PrioHeap EventQueue.
Local Open Scope Z_scope.

(** ** Nodes *)

Record MessageBufferNode := mkMsgNode { mn_time : Z; mn_msg_counter : Z; mn_msgptr : option nat }.

#[export] Instance MessageBufferNode_heap : HeapNode MessageBufferNode := {|
  node_less_then_eq n1 n2 :=
    if mn_time n1 =? mn_time n2 then
      assertb (negb (mn_msg_counter n1 =? mn_msg_counter n2)) ;;
      Ret (mn_msg_counter n1 <=? mn_msg_counter n2)
    else Ret (mn_time n1 <=? mn_time n2);
  node_default := mkMsgNode 0 0 None
|}.

(** Arrival time first, the counter breaks ties. *)
Definition node_before (n1 n2 : MessageBufferNode) : bool :=
  (mn_time n1 <? mn_time n2) ||
  (mn_time n1 =? mn_time n2) && (mn_msg_counter n1 <=? mn_msg_counter n2).

Lemma node_before_spec a b :
  node_before a b = true ↔
  mn_time a < mn_time b ∨ mn_time a = mn_time b ∧ mn_msg_counter a ≤ mn_msg_counter b.
Proof. unfold node_before. by rewrite orb_true_iff, andb_true_iff, Z.ltb_lt, Z.eqb_eq, Z.leb_le. Qed.

Lemma node_before_trans a b c :
  node_before a b = true → node_before b c = true → node_before a c = true.
Proof. rewrite !node_before_spec. lia. Qed.

Lemma node_before_total a b : node_before a b = false → node_before b a = true.
Proof. rewrite <- not_true_iff_false, !node_before_spec. lia. Qed.

Lemma node_before_refl a : node_before a a = true.
Proof. rewrite node_before_spec. lia. Qed.

#[export] Instance MessageBufferNode_order : HeapOrder MessageBufferNode := {|
  node_leb := node_before;
  node_leb_trans := node_before_trans;
  node_leb_total := node_before_total
|}.

(** ** Messages and the buffer *)

Record Message := mkMessage { m_LastEnqueueTime : Z; m_DelayedCycles : Z }.

Record MessageBuffer := mkBuffer {
  m_consumer : option nat;
  mb_heap : PrioHeap MessageBufferNode;
  m_max_size : Z;
  m_size : Z;
  m_time_last_time_size_checked : Z;
  m_size_last_time_size_checked : Z;
  m_time_last_time_enqueue : Z;
  m_time_last_time_pop : Z;
  m_size_at_cycle_start : Z;
  m_msgs_this_cycle : Z;
  m_not_avail_count : Z;
  m_msg_counter : Z;
  m_priority_rank : Z;
  m_strict_fifo : bool;
  m_ordering_set : bool;
  m_randomization : bool;
  m_last_arrival_time : Z
}.

Definition new_buffer : MessageBuffer :=
  mkBuffer None heap_init (-1) 0 0 0 0 0 0 0 0 0 0 true false true 0.

(** The buffer, the store of messages and the event queue. *)
Record mbstate (W : Type) := mkMB { buf : MessageBuffer; msgs : nat → Message; evq : world W }.
Arguments mkMB {W}.
Arguments buf {W}.
Arguments msgs {W}.
Arguments evq {W}.

Definition set_msg (p : nat) (m : Message) (ms : nat → Message) : nat → Message :=
  λ p', if decide (p' = p) then m else ms p'.

(** [random_time()] from three draws of [random()]. *)
Definition random_time (r1 r2 r3 : Z) : Z :=
  1 + Z.land r1 3 + (if Z.land r2 7 =? 0 then 100 + r3 `mod` 15 else 0).

Section buffer.
Context {W : Type}.
(** Parameters of the configuration. *)
Variable RANDOMIZATION : bool.
Variable RECYCLE_LATENCY : Z.
Implicit Types (b : MessageBuffer) (s : mbstate W) (now : Z).

Definition time s : Z := getTime (evq s).
Definition set_buf b s : mbstate W := mkMB b (msgs s) (evq s).

(** ** Configuration *)

Definition setConsumer (c : nat) b : outcome MessageBuffer :=
  match m_consumer b with
  | Some _ => Raise AssertFailed
  | None => Ret (mkBuffer (Some c) (mb_heap b) (m_max_size b) (m_size b)
      (m_time_last_time_size_checked b) (m_size_last_time_size_checked b)
      (m_time_last_time_enqueue b) (m_time_last_time_pop b) (m_size_at_cycle_start b)
      (m_msgs_this_cycle b) (m_not_avail_count b) (m_msg_counter b) (m_priority_rank b)
      (m_strict_fifo b) (m_ordering_set b) (m_randomization b) (m_last_arrival_time b))
  end.

Definition setOrdering (order : bool) b : MessageBuffer :=
  mkBuffer (m_consumer b) (mb_heap b) (m_max_size b) (m_size b)
    (m_time_last_time_size_checked b) (m_size_last_time_size_checked b)
    (m_time_last_time_enqueue b) (m_time_last_time_pop b) (m_size_at_cycle_start b)
    (m_msgs_this_cycle b) (m_not_avail_count b) (m_msg_counter b) (m_priority_rank b)
    order true (m_randomization b) (m_last_arrival_time b).

Definition setSize (size : Z) b : MessageBuffer :=
  mkBuffer (m_consumer b) (mb_heap b) size (m_size b)
    (m_time_last_time_size_checked b) (m_size_last_time_size_checked b)
    (m_time_last_time_enqueue b) (m_time_last_time_pop b) (m_size_at_cycle_start b)
    (m_msgs_this_cycle b) (m_not_avail_count b) (m_msg_counter b) (m_priority_rank b)
    (m_strict_fifo b) (m_ordering_set b) (m_randomization b) (m_last_arrival_time b).

Definition setRandomization (random_flag : bool) b : MessageBuffer :=
  mkBuffer (m_consumer b) (mb_heap b) (m_max_size b) (m_size b)
    (m_time_last_time_size_checked b) (m_size_last_time_size_checked b)
    (m_time_last_time_enqueue b) (m_time_last_time_pop b) (m_size_at_cycle_start b)
    (m_msgs_this_cycle b) (m_not_avail_count b) (m_msg_counter b) (m_priority_rank b)
    (m_strict_fifo b) (m_ordering_set b) random_flag (m_last_arrival_time b).

Definition clearStats b : MessageBuffer :=
  mkBuffer (m_consumer b) (mb_heap b) (m_max_size b) (m_size b)
    (m_time_last_time_size_checked b) (m_size_last_time_size_checked b)
    (m_time_last_time_enqueue b) (m_time_last_time_pop b) (m_size_at_cycle_start b)
    (m_msgs_this_cycle b) 0 0 (m_priority_rank b)
    (m_strict_fifo b) (m_ordering_set b) (m_randomization b) (m_last_arrival_time b).

(** ** Reading *)

Definition mb_isEmpty b : bool := (m_current_size (mb_heap b) =? 0)%nat.

Definition isReady now b : bool :=
  (0 <? m_current_size (mb_heap b))%nat &&
  match peekMin (mb_heap b) with Ret n => mn_time n <=? now | Raise _ => false end.

Definition peekMsgPtr now b : outcome (option nat) :=
  assertb (isReady now b) ;; n ← peekMin (mb_heap b); Ret (mn_msgptr n).

Definition peekMsgPtrEvenIfNotReady b : outcome (option nat) :=
  n ← peekMin (mb_heap b); Ret (mn_msgptr n).

Definition peekAtHeadOfQueue now b : outcome nat :=
  assertb (isReady now b) ;; n ← peekMin (mb_heap b);
  match mn_msgptr n with Some p => Ret p | None => Raise AssertFailed end.

Definition getSize now b : Z * MessageBuffer :=
  if m_time_last_time_size_checked b =? now then (m_size_last_time_size_checked b, b)
  else (m_size b,
    mkBuffer (m_consumer b) (mb_heap b) (m_max_size b) (m_size b) now (m_size b)
      (m_time_last_time_enqueue b) (m_time_last_time_pop b) (m_size_at_cycle_start b)
      (m_msgs_this_cycle b) (m_not_avail_count b) (m_msg_counter b) (m_priority_rank b)
      (m_strict_fifo b) (m_ordering_set b) (m_randomization b) (m_last_arrival_time b)).

(** The size the network sees in this cycle. *)
Definition visible_size now b : Z :=
  if m_time_last_time_pop b <? now then m_size b
  else if m_time_last_time_enqueue b <? now then m_size_at_cycle_start b
  else i32 (m_size_at_cycle_start b + m_msgs_this_cycle b).

Definition areNSlotsAvailable now (n : Z) b : bool * MessageBuffer :=
  if m_max_size b =? -1 then (true, b)
  else if i32 (visible_size now b + n) <=? m_max_size b then (true, b)
  else (false,
    mkBuffer (m_consumer b) (mb_heap b) (m_max_size b) (m_size b)
      (m_time_last_time_size_checked b) (m_size_last_time_size_checked b)
      (m_time_last_time_enqueue b) (m_time_last_time_pop b) (m_size_at_cycle_start b)
      (m_msgs_this_cycle b) (i32 (m_not_avail_count b + 1)) (m_msg_counter b) (m_priority_rank b)
      (m_strict_fifo b) (m_ordering_set b) (m_randomization b) (m_last_arrival_time b)).

(** ** Enqueue *)

(** The arrival time, and [m_last_arrival_time] as the random branch leaves it. *)
Definition arrival now (delta : Z) (draws : Z * Z * Z) b : Z * Z :=
  let '(r1, r2, r3) := draws in
  if negb RANDOMIZATION || negb (m_randomization b) then (now + delta, m_last_arrival_time b)
  else if m_strict_fifo b then
    let last := if m_last_arrival_time b <? now then now else m_last_arrival_time b in
    (last + random_time r1 r2 r3, last)
  else (now + random_time r1 r2 r3, m_last_arrival_time b).

(** Insert the node; the counters of the buffer are stepped first. *)
Definition enqueue_node now (p : nat) (arrival_time : Z) b : outcome MessageBuffer :=
  let counter := i32 (m_msg_counter b + 1) in
  h ← insert (mkMsgNode arrival_time counter (Some p)) (mb_heap b);
  let first := m_time_last_time_enqueue b <? now in
  Ret (mkBuffer (m_consumer b) h (m_max_size b) (i32 (m_size b + 1))
    (m_time_last_time_size_checked b) (m_size_last_time_size_checked b)
    (if first then now else m_time_last_time_enqueue b) (m_time_last_time_pop b)
    (m_size_at_cycle_start b) (i32 ((if first then 0 else m_msgs_this_cycle b) + 1))
    (m_not_avail_count b) counter (m_priority_rank b)
    (m_strict_fifo b) (m_ordering_set b) (m_randomization b) arrival_time).

Definition enqueue (message : option nat) (delta : Z) (draws : Z * Z * Z) s : outcome (mbstate W) :=
  let now := time s in
  let b := buf s in
  assertb (m_ordering_set b) ;;
  assertb (0 <? delta) ;;
  let '(arrival_time, last) := arrival now delta draws b in
  assertb (now <? arrival_time) ;;
  assertb (negb (m_strict_fifo b) || (last <=? arrival_time)) ;;
  match message with
  | None => Raise AssertFailed
  | Some p =>
      let m := msgs s p in
      assertb (m_LastEnqueueTime m <=? now) ;;
      let delayed := i32 (now - m_LastEnqueueTime m + m_DelayedCycles m) in
      b' ← enqueue_node now p arrival_time b;
      match m_consumer b with
      | None => Raise AssertFailed
      | Some c =>
          evq' ← scheduleEventAbsolute (Some c) arrival_time (evq s);
          Ret (mkMB b' (set_msg p (mkMessage arrival_time delayed) (msgs s)) evq')
      end
  end.

(** ** Dequeue *)

Definition pop now b : outcome MessageBuffer :=
  assertb (isReady now b) ;;
  '(_, h) ← extractMin (mb_heap b);
  let first := m_time_last_time_pop b <? now in
  Ret (mkBuffer (m_consumer b) h (m_max_size b) (i32 (m_size b - 1))
    (m_time_last_time_size_checked b) (m_size_last_time_size_checked b)
    (m_time_last_time_enqueue b) (if first then now else m_time_last_time_pop b)
    (if first then m_size b else m_size_at_cycle_start b) (m_msgs_this_cycle b)
    (m_not_avail_count b) (m_msg_counter b) (m_priority_rank b)
    (m_strict_fifo b) (m_ordering_set b) (m_randomization b) (m_last_arrival_time b)).

Definition dequeue now b : outcome (option nat * MessageBuffer) :=
  n ← peekMin (mb_heap b);
  b ← pop now b;
  Ret (mn_msgptr n, b).

Definition setAndReturnDelayCycles (message : option nat) s : outcome (Z * mbstate W) :=
  match message with
  | None => Raise BadDeref
  | Some p =>
      let m := msgs s p in
      assertb (m_LastEnqueueTime m <=? time s) ;;
      let delay_cycles := i32 (time s - m_LastEnqueueTime m + m_DelayedCycles m) in
      assertb (0 <=? delay_cycles) ;;
      Ret (delay_cycles,
           mkMB (buf s) (set_msg p (mkMessage (m_LastEnqueueTime m) delay_cycles) (msgs s)) (evq s))
  end.

(** [dequeue_getDelayCycles(MsgPtr&)] *)
Definition dequeue_getDelayCycles s : outcome (Z * option nat * mbstate W) :=
  '(message, b) ← dequeue (time s) (buf s);
  '(delay_cycles, s) ← setAndReturnDelayCycles message (set_buf b s);
  Ret (delay_cycles, message, s).

(** [dequeue_getDelayCycles()]: the delay is read before the node leaves. *)
Definition dequeue_getDelayCycles_void s : outcome (Z * mbstate W) :=
  n ← peekMin (mb_heap (buf s));
  '(delay_cycles, s) ← setAndReturnDelayCycles (mn_msgptr n) s;
  b ← pop (time s) (buf s);
  Ret (delay_cycles, set_buf b s).

Fixpoint extract_all (fuel : nat) (h : PrioHeap MessageBufferNode) : outcome (PrioHeap MessageBufferNode) :=
  match fuel with
  | 0%nat => Raise NoFuel
  | S fuel =>
      if (0 <? m_current_size h)%nat then '(_, h) ← extractMin h; extract_all fuel h else Ret h
  end.

Definition clear b : outcome MessageBuffer :=
  h ← extract_all (S (m_current_size (mb_heap b))) (mb_heap b);
  assertb (m_current_size h =? 0)%nat ;;
  Ret (mkBuffer (m_consumer b) h (m_max_size b) 0
    (m_time_last_time_size_checked b) (m_size_last_time_size_checked b) 0 0 0 0
    (m_not_avail_count b) 0 (m_priority_rank b)
    (m_strict_fifo b) (m_ordering_set b) (m_randomization b) (m_last_arrival_time b)).

Definition recycle s : outcome (mbstate W) :=
  let now := time s in
  let b := buf s in
  assertb (isReady now b) ;;
  '(node, h) ← extractMin (mb_heap b);
  h ← insert (mkMsgNode (now + RECYCLE_LATENCY) (mn_msg_counter node) (mn_msgptr node)) h;
  evq' ← scheduleEventAbsolute (m_consumer b) (now + RECYCLE_LATENCY) (evq s);
  Ret (mkMB (mkBuffer (m_consumer b) h (m_max_size b) (m_size b)
      (m_time_last_time_size_checked b) (m_size_last_time_size_checked b)
      (m_time_last_time_enqueue b) (m_time_last_time_pop b) (m_size_at_cycle_start b)
      (m_msgs_this_cycle b) (m_not_avail_count b) (m_msg_counter b) (m_priority_rank b)
      (m_strict_fifo b) (m_ordering_set b) (m_randomization b) (m_last_arrival_time b))
    (msgs s) evq').
End buffer.

(** ** The abstract queue

    A list of nodes in the order they leave. *)

Fixpoint insert_node (n : MessageBufferNode) (q : list MessageBufferNode) : list MessageBufferNode :=
  match q with
  | [] => [n]
  | x :: q => if node_before n x then n :: x :: q else x :: insert_node n q
  end.

Definition in_order : list MessageBufferNode → Prop := StronglySorted (λ a b, node_before a b = true).

Record represents (b : MessageBuffer) (q : list MessageBufferNode) : Prop := {
  rep_heap : heap_ok (mb_heap b);
  rep_perm : elements (mb_heap b) ≡ₚ q;
  rep_order : in_order q;
  rep_counters : NoDup (mn_msg_counter <$> q);
  rep_bound : ∀ n, n ∈ q → mn_msg_counter n ≤ m_msg_counter b;
  rep_msgs : ∀ n, n ∈ q → is_Some (mn_msgptr n);
  rep_size : m_size b = Z.of_nat (length q);
  rep_count : m_size b ≤ m_msg_counter b < 2 ^ 31
}.

Lemma insert_node_perm n q : insert_node n q ≡ₚ n :: q.
Proof.
  induction q as [|x q IH]; cbn; [done|]. destruct (node_before n x); [done|].
  rewrite IH. constructor.
Qed.

Lemma insert_node_order n q : in_order q → in_order (insert_node n q).
Proof.
  induction 1 as [|x q Hq IH Hx]; cbn; [repeat constructor|].
  destruct (node_before n x) eqn:E; constructor; try done.
  - by constructor.
  - constructor; [done|]. eapply Forall_impl; [exact Hx|]. intros y Hy.
    by apply (node_before_trans n x y).
  - rewrite insert_node_perm. constructor; [|done]. by apply node_before_total.
Qed.

(** A node after all the others goes to the end. *)
Lemma insert_node_last n q :
  (∀ x, x ∈ q → node_before n x = false) → insert_node n q = q ++ [n].
Proof.
  induction q as [|x q IH]; intros Hn; cbn; [done|].
  rewrite Hn by left. f_equal. apply IH. intros y Hy. apply Hn. by right.
Qed.

Lemma counters_comparable (l : list MessageBufferNode) :
  NoDup (mn_msg_counter <$> l) → comparable l.
Proof.
  intros Hnd a b r E. rewrite E in Hnd. cbn in Hnd. apply NoDup_cons in Hnd as [Hne _].
  assert (mn_msg_counter a ≠ mn_msg_counter b) by (intros Eq; apply Hne; rewrite Eq; left).
  cbn. unfold node_before. destruct (Z.eqb_spec (mn_time a) (mn_time b)) as [Et|Et].
  - rewrite (proj2 (Z.eqb_neq _ _)) by done. cbn. by rewrite Et, Z.ltb_irrefl.
  - cbn. rewrite orb_false_r. f_equal. destruct (Z.leb_spec (mn_time a) (mn_time b)), (Z.ltb_spec (mn_time a) (mn_time b)); lia.
Qed.

Lemma rep_comparable b q : represents b q → comparable (elements (mb_heap b)).
Proof. intros Hr. apply counters_comparable. rewrite (rep_perm _ _ Hr). apply Hr. Qed.

Lemma node_before_antisym (q : list MessageBufferNode) a b :
  NoDup (mn_msg_counter <$> q) → a ∈ q → b ∈ q →
  node_before a b = true → node_before b a = true → a = b.
Proof.
  intros Hnd Ha Hb. rewrite !node_before_spec. intros H1 H2.
  eapply (NoDup_map_inj mn_msg_counter q); [exact Hnd|done|done|lia].
Qed.

(** [represents] determines the queue. *)
Lemma represents_unique b q q' : represents b q → represents b q' → q = q'.
Proof.
  intros Hq Hq'. assert (E : q ≡ₚ q') by (by rewrite <- (rep_perm _ _ Hq), <- (rep_perm _ _ Hq')).
  pose proof (rep_counters _ _ Hq) as Hnd.
  pose proof (rep_order _ _ Hq) as Ho. pose proof (rep_order _ _ Hq') as Ho'.
  clear Hq Hq'. revert q' E Ho'. induction Ho as [|x q Hq IH Hx]; intros q' E Ho'.
  - by apply Permutation_nil_l in E.
  - destruct Ho' as [|y q' Hq' Hy]; [by apply Permutation_nil_r in E|].
    assert (x = y) as <-.
    { assert (Hxin : x ∈ y :: q') by (rewrite <- E; left).
      assert (Hyin : y ∈ x :: q) by (rewrite E; left).
      rewrite Forall_forall in Hx. rewrite Forall_forall in Hy.
      apply (node_before_antisym (x :: q)); [done|left|done|..].
      - apply elem_of_cons in Hyin as [->|Hyin]; [apply node_before_refl|by apply Hx].
      - apply elem_of_cons in Hxin as [->|Hxin]; [apply node_before_refl|by apply Hy]. }
    f_equal. cbn in Hnd. apply NoDup_cons in Hnd as [_ Hnd].
    apply IH; [done| |done]. by apply Permutation_cons_inv in E.
Qed.

Lemma rep_nonempty b n q : represents b (n :: q) → elements (mb_heap b) ≠ [].
Proof. intros Hr E. pose proof (rep_perm _ _ Hr) as Hp. rewrite E in Hp. by apply Permutation_nil_cons in Hp. Qed.

Lemma rep_current b q : represents b q → m_current_size (mb_heap b) = length q.
Proof. intros Hr. rewrite <- (length_elements _ (rep_heap _ _ Hr)). apply Permutation_length, Hr. Qed.

(** The head of the queue is what the heap shows. *)
Lemma rep_peek b n q : represents b (n :: q) → peekMin (mb_heap b) = Ret n.
Proof.
  intros Hr. destruct (heap_peek_ok (mb_heap b) (rep_heap _ _ Hr) (rep_nonempty _ _ _ Hr)) as (x & -> & Hx & Hmin).
  f_equal. rewrite (rep_perm _ _ Hr) in Hx. pose proof (rep_order _ _ Hr) as Ho. inversion Ho as [|? ? Hq Hn].
  subst. rewrite Forall_forall in Hn. apply (node_before_antisym (n :: q)); [apply Hr|done|left|..].
  - apply Hmin. rewrite (rep_perm _ _ Hr). left.
  - apply elem_of_cons in Hx as [->|Hx]; [apply node_before_refl|by apply Hn].
Qed.

Lemma rep_isReady now b q :
  represents b q → isReady now b = match q with n :: _ => mn_time n <=? now | [] => false end.
Proof.
  intros Hr. unfold isReady. rewrite (rep_current _ _ Hr). destruct q as [|n q]; [done|].
  by rewrite (rep_peek _ _ _ Hr).
Qed.

(** ** The operations on the nodes *)

Lemma enqueue_node_ok now p t b q :
  represents b q → m_msg_counter b < 2 ^ 31 - 1 →
  ∃ b', enqueue_node now p t b = Ret b' ∧
    represents b' (insert_node (mkMsgNode t (m_msg_counter b + 1) (Some p)) q) ∧
    m_msg_counter b' = m_msg_counter b + 1 ∧ m_last_arrival_time b' = t ∧
    m_consumer b' = m_consumer b ∧ m_strict_fifo b' = m_strict_fifo b ∧
    m_ordering_set b' = m_ordering_set b ∧ m_randomization b' = m_randomization b.
Proof.
  intros [Hh Hp Ho Hc Hb Hm Hs Hcnt] Hroom. unfold enqueue_node.
  rewrite (i32_id (m_msg_counter b + 1)) by lia. set (n := mkMsgNode t (m_msg_counter b + 1) (Some p)).
  assert (Hnd : NoDup (mn_msg_counter <$> n :: q)).
  { cbn. apply NoDup_cons. split; [|done]. intros (x & Ex & Hx)%list_elem_of_fmap. specialize (Hb x Hx). lia. }
  destruct (heap_insert_ok n (mb_heap b) Hh) as (h & -> & Hh' & Hp' & _).
  { apply counters_comparable. by rewrite Hp. }
  cbn [mbind outcome_bind]. eexists. split; [done|]. cbn. split; [|done].
  split; cbn; [done|by rewrite Hp', Hp, insert_node_perm|by apply insert_node_order|
    by rewrite insert_node_perm| | | |].
  - intros x Hx. rewrite insert_node_perm, elem_of_cons in Hx. destruct Hx as [->|Hx]; [done|].
    specialize (Hb x Hx). lia.
  - intros x Hx. rewrite insert_node_perm, elem_of_cons in Hx. destruct Hx as [->|Hx]; [by eexists|eauto].
  - rewrite insert_node_perm. cbn. rewrite i32_id; lia.
  - rewrite i32_id; lia.
Qed.

Lemma rep_extract b n q :
  represents b (n :: q) →
  ∃ h, extractMin (mb_heap b) = Ret (n, h) ∧ heap_ok h ∧ elements h ≡ₚ q.
Proof.
  intros Hr. destruct (heap_extract_ok (mb_heap b) n (rep_heap _ _ Hr) (rep_comparable _ _ Hr) (rep_peek _ _ _ Hr))
    as (h & E & Hh & Hp & _).
  exists h. split; [done|]. split; [done|]. apply (Permutation_cons_inv (a := n)).
  by rewrite <- Hp, <- (rep_perm _ _ Hr).
Qed.

Lemma rep_tail b n q :
  represents b (n :: q) → in_order q ∧ NoDup (mn_msg_counter <$> q) ∧
  (∀ x, x ∈ q → mn_msg_counter x ≤ m_msg_counter b) ∧ (∀ x, x ∈ q → is_Some (mn_msgptr x)) ∧
  m_size b - 1 = Z.of_nat (length q) ∧ -2 ^ 31 ≤ m_size b - 1 < 2 ^ 31.
Proof.
  intros [_ _ Ho Hc Hb Hm Hs Hcnt]. cbn in Hc, Hs. split; [by inversion Ho|]. apply NoDup_cons in Hc as [_ Hc].
  split; [done|]. split; [intros x Hx; apply Hb; by right|]. split; [intros x Hx; apply Hm; by right|lia].
Qed.

Lemma pop_ok now b n q :
  represents b (n :: q) → mn_time n ≤ now →
  ∃ b', pop now b = Ret b' ∧ represents b' q ∧
    m_msg_counter b' = m_msg_counter b ∧ m_last_arrival_time b' = m_last_arrival_time b ∧
    m_consumer b' = m_consumer b ∧ m_strict_fifo b' = m_strict_fifo b ∧
    m_ordering_set b' = m_ordering_set b ∧ m_randomization b' = m_randomization b.
Proof.
  intros Hr Hnow. unfold pop. rewrite (rep_isReady now _ _ Hr), (proj2 (Z.leb_le _ _)) by done.
  cbn [assertb mbind outcome_bind]. destruct (rep_extract b n q Hr) as (h & -> & Hh & Hp).
  cbn [mbind outcome_bind]. eexists. split; [done|]. cbn. split; [|done].
  destruct (rep_tail b n q Hr) as (Ho & Hc & Hb & Hm & Hs & Hi). pose proof (rep_count _ _ Hr) as Hcnt.
  split; cbn; try done; rewrite i32_id by lia; lia.
Qed.

Lemma pop_not_ready now b q :
  represents b q → (∀ n q', q = n :: q' → now < mn_time n) → pop now b = Raise AssertFailed.
Proof.
  intros Hr Hq. unfold pop. rewrite (rep_isReady now _ _ Hr). destruct q as [|n q]; [done|].
  by rewrite (proj2 (Z.leb_gt _ _)) by (by eapply Hq).
Qed.

Lemma extract_all_ok fuel : ∀ h : PrioHeap MessageBufferNode,
  heap_ok h → NoDup (mn_msg_counter <$> elements h) → (m_current_size h < fuel)%nat →
  ∃ h', extract_all fuel h = Ret h' ∧ heap_ok h' ∧ elements h' = [] ∧ m_current_size h' = 0%nat.
Proof.
  induction fuel as [|fuel IH]; intros h Hh Hnd Hf; [lia|]. cbn [extract_all].
  pose proof (length_elements h Hh) as Hlen.
  destruct (Nat.ltb_spec 0 (m_current_size h)) as [Hgt|Hle].
  - destruct (heap_peek_ok h Hh) as (x & Hx & _); [by destruct (elements h); cbn in *; [lia|]|].
    destruct (heap_extract_ok h x Hh (counters_comparable _ Hnd) Hx) as (h' & -> & Hh' & Hp & Hn).
    cbn [mbind outcome_bind]. rewrite Hp in Hnd. cbn in Hnd. apply NoDup_cons in Hnd as [_ Hnd].
    apply IH; [done|done|lia].
  - exists h. split; [done|]. split; [done|]. split; [|lia]. destruct (elements h); [done|cbn in *; lia].
Qed.

Lemma represents_nil b :
  heap_ok (mb_heap b) → elements (mb_heap b) = [] → m_size b = 0 → m_msg_counter b = 0 → represents b [].
Proof.
  intros Hh He Hs Hc. split; [done|by rewrite He|constructor|constructor|
    by intros n ?%not_elem_of_nil|by intros n ?%not_elem_of_nil|done|lia].
Qed.

Lemma clear_ok b q : represents b q → ∃ b', clear b = Ret b' ∧ represents b' [].
Proof.
  intros Hr. unfold clear.
  destruct (extract_all_ok (S (m_current_size (mb_heap b))) (mb_heap b)) as (h & -> & Hh & He & Hn);
    [apply Hr|rewrite (rep_perm _ _ Hr); apply Hr|lia|].
  cbn [mbind outcome_bind]. rewrite Hn. cbn [assertb mbind outcome_bind Nat.eqb]. eexists. split; [done|].
  apply represents_nil; cbn; try done.
Qed.

Lemma new_buffer_ok : represents new_buffer [].
Proof.
  apply represents_nil; [apply heap_init_ok|done..].
Qed.

(** The node a [recycle] puts back keeps its counter. *)
Definition recycled (now lat : Z) (n : MessageBufferNode) : MessageBufferNode :=
  mkMsgNode (now + lat) (mn_msg_counter n) (mn_msgptr n).

Lemma recycle_ok {W} RECYCLE_LATENCY P (s : mbstate W) n q c :
  represents (buf s) (n :: q) → pending_ok P (evq s) → m_consumer (buf s) = Some c →
  mn_time n ≤ time s → 0 < RECYCLE_LATENCY →
  ∃ s', recycle RECYCLE_LATENCY s = Ret s' ∧
    represents (buf s') (insert_node (recycled (time s) RECYCLE_LATENCY n) q) ∧
    pending_ok P (evq s') ∧ mkNode (time s + RECYCLE_LATENCY) (Some c) ∈ nodes (evq s').
Proof.
  intros Hr Hev Hcons Hnow Hlat. unfold recycle. rewrite (rep_isReady _ _ _ Hr), (proj2 (Z.leb_le _ _)) by done.
  cbn [assertb mbind outcome_bind]. destruct (rep_extract _ n q Hr) as (h & -> & Hh & Hp).
  cbn [mbind outcome_bind]. fold (recycled (time s) RECYCLE_LATENCY n). set (r := recycled _ _ n).
  destruct (rep_tail _ n q Hr) as (Ho & Hc & Hb & Hm & Hs & Hi).
  pose proof (rep_counters _ _ Hr) as Hnd. change (NoDup (mn_msg_counter <$> r :: q)) in Hnd.
  destruct (heap_insert_ok r h Hh) as (h' & -> & Hh' & Hp' & _).
  { apply counters_comparable. by rewrite Hp. }
  cbn [mbind outcome_bind]. rewrite Hcons.
  destruct (schedule_ok P (evq s) c (time s + RECYCLE_LATENCY) Hev) as (e & -> & He & _ & Hin & _); [unfold time; lia|].
  cbn [mbind outcome_bind]. eexists. split; [done|]. split; [|done].
  split; cbn; try done; rewrite ?insert_node_perm; try done.
  - by rewrite Hp', Hp.
  - by apply insert_node_order.
  - intros x Hx. rewrite insert_node_perm, elem_of_cons in Hx. destruct Hx as [->|Hx]; [|by apply Hb].
    cbn. apply (rep_bound _ _ Hr). left.
  - intros x Hx. rewrite insert_node_perm, elem_of_cons in Hx. destruct Hx as [->|Hx]; [|by apply Hm].
    cbn. apply (rep_msgs _ _ Hr n). left.
  - cbn. lia.
  - pose proof (rep_count _ _ Hr). lia.
Qed.
