(* ===== verification/MessageFifo.v ===== *)
(** * What a message buffer promises

    A strict FIFO [MessageBuffer] without randomization refines a plain list
    queue ([fifo], [fifo_step]); its consumer is woken in the cycle in which a
    message becomes ready; [areNSlotsAvailable] never promises a slot that is
    not there. *)

From S2P Require Import Prelude PrioHeap EventQueue MessageBuffer.
Local Open Scope Z_scope.

Inductive action := Enqueue (p : nat) (delta : Z) | Pop | Tick.

(** ** The abstract queue *)

Record fifo := mkFifo {
  f_now : Z;
  f_queue : list (nat * Z);     (** messages with the cycle they become ready *)
  f_last : Z;
  f_sent : nat → Z              (** the last arrival of each message *)
}.

Definition fifo_step (a : action) (f : fifo) : option (fifo * list (nat * Z)) :=
  match a with
  | Enqueue p delta =>
      let t := f_now f + delta in
      if (0 <? delta) && (f_last f <=? t) && (f_sent f p <=? f_now f) then
        Some (mkFifo (f_now f) (f_queue f ++ [(p, t)]) t
                (λ p', if decide (p' = p) then t else f_sent f p'), [])
      else None
  | Pop =>
      match f_queue f with
      | (p, t) :: q =>
          if t <=? f_now f then Some (mkFifo (f_now f) q (f_last f) (f_sent f), [(p, f_now f)]) else None
      | [] => None
      end
  | Tick => Some (mkFifo (f_now f + 1) (f_queue f) (f_last f) (f_sent f), [])
  end.

Fixpoint fifo_run (acts : list action) (f : fifo) : option (fifo * list (nat * Z)) :=
  match acts with
  | [] => Some (f, [])
  | a :: acts =>
      '(f, out) ← fifo_step a f; '(f, out') ← fifo_run acts f; Some (f, out ++ out')
  end.

(** The messages sent, with their arrival cycles. *)
Fixpoint sent_log (now : Z) (acts : list action) : list (nat * Z) :=
  match acts with
  | [] => []
  | Enqueue p delta :: acts => (p, now + delta) :: sent_log now acts
  | Pop :: acts => sent_log now acts
  | Tick :: acts => sent_log (now + 1) acts
  end.

Section refine.
Context {W : Type}.
Variable wakeup : W → nat → Z → W * list (nat * Z).
Variable RANDOMIZATION : bool.
Hypothesis wakeup_later : schedules_later wakeup.
Implicit Types s : mbstate W.

(** ** The same actions on the buffer *)

Definition mb_step (a : action) s : outcome (mbstate W * list (nat * Z)) :=
  match a with
  | Enqueue p delta => s ← enqueue RANDOMIZATION (Some p) delta (0, 0, 0) s; Ret (s, [])
  | Pop =>
      '(m, b) ← dequeue (time s) (buf s);
      p ← deref m;
      Ret (set_buf b s, [(p, time s)])
  | Tick => '(e, _) ← advanceTime wakeup (evq s); Ret (mkMB (buf s) (msgs s) e, [])
  end.

Fixpoint mb_run (acts : list action) s : outcome (mbstate W * list (nat * Z)) :=
  match acts with
  | [] => Ret (s, [])
  | a :: acts => '(s, out) ← mb_step a s; '(s, out') ← mb_run acts s; Ret (s, out ++ out')
  end.

(** ** The simulation relation *)

Definition entry (n : MessageBufferNode) : option nat * Z := (mn_msgptr n, mn_time n).

Record simulates (c : nat) s (f : fifo) (q : list MessageBufferNode) : Prop := {
  sim_rep : represents (buf s) q;
  sim_queue : entry <$> q = (λ '(p, t), (Some p, t)) <$> f_queue f;
  sim_times : ∀ n, n ∈ q → mn_time n ≤ f_last f;
  sim_last : m_last_arrival_time (buf s) = f_last f;
  sim_now : time s = f_now f;
  sim_sent : ∀ p, m_LastEnqueueTime (msgs s p) = f_sent f p;
  sim_strict : m_strict_fifo (buf s) = true;
  sim_ordering : m_ordering_set (buf s) = true;
  sim_random : negb RANDOMIZATION || negb (m_randomization (buf s)) = true;
  sim_consumer : m_consumer (buf s) = Some c;
  sim_events : events_ok (evq s);
  sim_wakeups : ∀ n, n ∈ q → time s < mn_time n → mkNode (mn_time n) (Some c) ∈ nodes (evq s)
}.

(** ** The actions simulate the abstract ones *)

Lemma sim_enqueue c s f q p delta :
  simulates c s f q → m_msg_counter (buf s) < 2 ^ 31 - 1 →
  match fifo_step (Enqueue p delta) f with
  | Some (f', out) => ∃ s' q', mb_step (Enqueue p delta) s = Ret (s', out) ∧ simulates c s' f' q' ∧
      m_msg_counter (buf s') = m_msg_counter (buf s) + 1
  | None => mb_step (Enqueue p delta) s = Raise AssertFailed
  end.
Proof.
  intros [Hr Hq Ht Hl Hn Hs Hst Ho Hra Hc Hev Hw] Hroom.
  unfold mb_step, enqueue, arrival. cbn [fifo_step].
  rewrite Ho, Hra, Hst, Hl, Hs, Hc, Hn. cbn [assertb mbind outcome_bind negb orb].
  destruct (Z.ltb_spec 0 delta) as [Hd|]; cbn [assertb mbind outcome_bind andb]; [|done].
  rewrite (proj2 (Z.ltb_lt (f_now f) (f_now f + delta))) by lia. cbn [assertb mbind outcome_bind].
  destruct (Z.leb_spec (f_last f) (f_now f + delta)) as [Hf|]; cbn [assertb mbind outcome_bind andb]; [|done].
  destruct (Z.leb_spec (f_sent f p) (f_now f)) as [Hsent|]; cbn [assertb mbind outcome_bind]; [|done].
  set (t := f_now f + delta) in *.
  destruct (enqueue_node_ok (f_now f) p t (buf s) q Hr Hroom)
    as (b & -> & Hrb & Hcnt & Hlast & Hcons & Hstr & Hord & Hrnd). cbn [mbind outcome_bind].
  destruct (schedule_ok [] (evq s) c t Hev) as (e & -> & He & Hk & Hin & _); [unfold time in Hn; lia|].
  cbn [mbind outcome_bind]. eexists _, (q ++ [mkMsgNode t (m_msg_counter (buf s) + 1) (Some p)]).
  split; [done|]. split; [|done]. rewrite insert_node_last in Hrb.
  2: { intros x Hx. apply not_true_iff_false. rewrite node_before_spec. cbn.
       specialize (Ht x Hx). pose proof (rep_bound _ _ Hr x Hx). lia. }
  assert (Ete : getTime e = f_now f) by (rewrite (kept_time _ _ Hk); exact Hn).
  split; cbn; try done; try congruence.
  - by rewrite !fmap_app, Hq.
  - intros n [Hn'| ->%list_elem_of_singleton]%elem_of_app; [|done]. specialize (Ht n Hn'). lia.
  - intros p'. unfold set_msg. by case_decide.
  - unfold time. cbn. rewrite Ete. intros n [Hn'| ->%list_elem_of_singleton]%elem_of_app Hgt; [|done].
    apply (kept_nodes _ _ Hk), Hw; [done|lia].
Qed.

Lemma sim_pop c s f q :
  simulates c s f q →
  match fifo_step Pop f with
  | Some (f', out) => ∃ s' q', mb_step Pop s = Ret (s', out) ∧ simulates c s' f' q' ∧
      m_msg_counter (buf s') = m_msg_counter (buf s)
  | None => mb_step Pop s = Raise AssertFailed
  end.
Proof.
  intros [Hr Hq Ht Hl Hn Hs Hst Ho Hra Hc Hev Hw]. unfold mb_step, dequeue. cbn [fifo_step].
  destruct (f_queue f) as [|[p t] fq]; destruct q as [|n q]; try done.
  - unfold peekMin. by rewrite (rep_current _ _ Hr).
  - cbn in Hq. injection Hq as Ep Et Hq. rewrite (rep_peek _ _ _ Hr). cbn [mbind outcome_bind].
    rewrite Hn. destruct (Z.leb_spec t (f_now f)) as [Hle|Hgt].
    + destruct (pop_ok (f_now f) (buf s) n q Hr) as (b & -> & Hrb & Hcnt & Hlast & Hcons & Hstr & Hord & Hrnd);
        [by rewrite Et|].
      cbn [mbind outcome_bind]. rewrite Ep. cbn. eexists _, q. split; [done|]. split; [|done].
      split; cbn; try done; try congruence.
      * intros x Hx. apply Ht. by right.
      * intros x Hx. apply Hw. by right.
    + rewrite (pop_not_ready _ _ _ Hr); [done|]. intros n' q' [= <- _]. by rewrite Et.
Qed.

Lemma sim_tick c s f q :
  simulates c s f q →
  ∃ s' e woken, mb_step Tick s = Ret (s', []) ∧ advanceTime wakeup (evq s) = Ret (e, woken) ∧
    simulates c s' (mkFifo (f_now f + 1) (f_queue f) (f_last f) (f_sent f)) q ∧ buf s' = buf s ∧
    ∀ n, n ∈ q → mn_time n = f_now f + 1 → (c, f_now f + 1) ∈ woken.
Proof.
  intros [Hr Hq Ht Hl Hn Hs Hst Ho Hra Hc Hev Hw]. unfold mb_step.
  destruct (events_advance_ok wakeup (evq s) wakeup_later Hev) as (e & woken & -> & He & Hte & _ & Hwk & Hlater & _).
  unfold time in *. rewrite Hn in Hte, Hwk, Hlater. cbn [mbind outcome_bind].
  eexists _, e, woken. split; [done|]. split; [done|]. split; [|split; [done|]].
  - split; cbn; try done. unfold time. cbn. rewrite Hte. intros n Hnq Hgt.
    apply Hlater; [done|]. apply Hw; [done|lia].
  - intros n Hnq E. apply Hwk. split; [done|]. rewrite <- E. apply Hw; [done|lia].
Qed.

(** A whole run; what the abstract queue refuses stops at an assertion. *)
Lemma sim_run c acts : ∀ s f q,
  simulates c s f q → m_msg_counter (buf s) + Z.of_nat (length acts) < 2 ^ 31 →
  match fifo_run acts f with
  | Some (f', out) => ∃ s' q', mb_run acts s = Ret (s', out) ∧ simulates c s' f' q'
  | None => mb_run acts s = Raise AssertFailed
  end.
Proof.
  induction acts as [|a acts IH]; intros s f q Hsim Hroom; cbn [fifo_run mb_run]; [by exists s, q|].
  cbn [length] in Hroom.
  assert (Hstep : match fifo_step a f with
    | Some (f', out) => ∃ s' q', mb_step a s = Ret (s', out) ∧ simulates c s' f' q' ∧
        m_msg_counter (buf s') + Z.of_nat (length acts) < 2 ^ 31
    | None => mb_step a s = Raise AssertFailed
    end).
  { destruct a as [p delta| |].
    - pose proof (sim_enqueue c s f q p delta Hsim ltac:(lia)) as Hx.
      destruct (fifo_step _ f) as [[f1 out]|]; [|done]. destruct Hx as (s1 & q1 & E & Hs1 & Hcnt).
      exists s1, q1. split; [done|]. split; [done|lia].
    - pose proof (sim_pop c s f q Hsim) as Hx.
      destruct (fifo_step _ f) as [[f1 out]|]; [|done]. destruct Hx as (s1 & q1 & E & Hs1 & Hcnt).
      exists s1, q1. split; [done|]. split; [done|lia].
    - destruct (sim_tick c s f q Hsim) as (s1 & e & w & E & _ & Hs1 & Hb & _).
      exists s1, q. split; [done|]. split; [done|]. rewrite Hb. lia. }
  destruct (fifo_step a f) as [[f1 out1]|]; cbn [mbind option_bind]; [|by rewrite Hstep].
  destruct Hstep as (s1 & q1 & -> & Hs1 & Hroom1). cbn [mbind outcome_bind].
  specialize (IH s1 f1 q1 Hs1 Hroom1). destruct (fifo_run acts f1) as [[f2 out2]|]; cbn [mbind option_bind].
  - destruct IH as (s2 & q2 & -> & Hs2). cbn [mbind outcome_bind]. by exists s2, q2.
  - by rewrite IH.
Qed.

(** The abstract queue delivers in order and not early. *)
Lemma fifo_run_log acts : ∀ f f' out,
  fifo_run acts f = Some (f', out) →
  ∃ got, f_queue f ++ sent_log (f_now f) acts = got ++ f_queue f' ∧
    fst <$> out = fst <$> got ∧ Forall2 (λ a d, snd a ≤ snd d) got out.
Proof.
  induction acts as [|a acts IH]; intros f f' out; cbn [fifo_run].
  { intros [= <- <-]. exists []. cbn. by rewrite app_nil_r. }
  destruct (fifo_step a f) as [[f1 out1]|] eqn:E; cbn; [|done].
  destruct (fifo_run acts f1) as [[f2 out2]|] eqn:E2; cbn; [|done]. intros [= <- <-].
  destruct (IH f1 f2 out2 E2) as (got & Hlog & Hfst & Hle). clear IH E2.
  destruct a as [p delta| |]; cbn [fifo_step] in E.
  - destruct (_ && _); [|done]. injection E as <- <-. exists got. cbn in *.
    by rewrite <- app_assoc in Hlog.
  - destruct (f_queue f) as [|[p t] q]; [done|]. destruct (Z.leb_spec t (f_now f)); [|done].
    injection E as <- <-. exists ((p, t) :: got). cbn in *. rewrite Hlog, Hfst.
    split; [done|]. split; [done|]. by constructor.
  - injection E as <- <-. by exists got.
Qed.
End refine.

(** ** The visible size within one cycle *)

Inductive size_op := Sent (p : nat) (t : Z) | Popped.

Definition size_step (now : Z) (b : MessageBuffer) (o : size_op) : outcome MessageBuffer :=
  match o with Sent p t => enqueue_node now p t b | Popped => pop now b end.

Definition is_sent (o : size_op) : bool := match o with Sent _ _ => true | Popped => false end.

Definition sends (ops : list size_op) : nat := count_occ Bool.bool_dec (is_sent <$> ops) true.

Definition pops (ops : list size_op) : nat := count_occ Bool.bool_dec (is_sent <$> ops) false.

(** The messages sent before the first pop of the cycle. *)
Fixpoint sends_before (ops : list size_op) : nat :=
  match ops with Sent _ _ :: ops => S (sends_before ops) | _ => 0%nat end.

(** What the code reports after [ops] in a cycle that started with [size0]. *)
Definition reported (size0 : Z) (ops : list size_op) : Z :=
  if (pops ops =? 0)%nat then size0 + Z.of_nat (sends ops)
  else if (sends ops =? 0)%nat then size0
  else size0 + Z.of_nat (sends_before ops) + Z.of_nat (sends ops).

(** The bookkeeping of the sizes after [ops]. *)
Record size_inv (now size0 : Z) (ops : list size_op) (b : MessageBuffer) : Prop := {
  sz_size : m_size b = size0 + Z.of_nat (sends ops) - Z.of_nat (pops ops);
  sz_pop : if (pops ops =? 0)%nat then m_time_last_time_pop b < now
           else m_time_last_time_pop b = now ∧
                m_size_at_cycle_start b = size0 + Z.of_nat (sends_before ops);
  sz_enq : if (sends ops =? 0)%nat then m_time_last_time_enqueue b < now
           else m_time_last_time_enqueue b = now ∧ m_msgs_this_cycle b = Z.of_nat (sends ops)
}.

Lemma sends_snoc ops o : sends (ops ++ [o]) = (sends ops + if is_sent o then 1 else 0)%nat.
Proof. unfold sends. rewrite fmap_app, count_occ_app. cbn. by destruct (is_sent o). Qed.

Lemma pops_snoc ops o : pops (ops ++ [o]) = (pops ops + if is_sent o then 0 else 1)%nat.
Proof. unfold pops. rewrite fmap_app, count_occ_app. cbn. by destruct (is_sent o). Qed.

Lemma sends_before_le ops : (sends_before ops ≤ sends ops)%nat.
Proof. unfold sends. induction ops as [|[p t|] ops IH]; cbn; lia. Qed.

Lemma sends_before_snoc ops o :
  sends_before (ops ++ [o]) =
  if (pops ops =? 0)%nat then (sends ops + if is_sent o then 1 else 0)%nat else sends_before ops.
Proof.
  unfold pops, sends. induction ops as [|[p t|] ops IH]; cbn; [by destruct o| |done].
  rewrite IH. by destruct (_ =? 0)%nat.
Qed.

Lemma sends_before_all ops : pops ops = 0%nat → sends_before ops = sends ops.
Proof. unfold pops, sends. induction ops as [|[p t|] ops IH]; cbn; intros; [done|by rewrite IH|lia]. Qed.

Lemma sends_pops ops : (sends ops + pops ops = length ops)%nat.
Proof. unfold sends, pops. induction ops as [|[p t|] ops IH]; cbn; lia. Qed.

Lemma enqueue_node_sizes now p t b b' :
  enqueue_node now p t b = Ret b' →
  let first := m_time_last_time_enqueue b <? now in
  m_size b' = i32 (m_size b + 1) ∧
  m_time_last_time_enqueue b' = (if first then now else m_time_last_time_enqueue b) ∧
  m_msgs_this_cycle b' = i32 ((if first then 0 else m_msgs_this_cycle b) + 1) ∧
  m_time_last_time_pop b' = m_time_last_time_pop b ∧ m_size_at_cycle_start b' = m_size_at_cycle_start b.
Proof. unfold enqueue_node. intros H. unbind H. by injection H as <-. Qed.

Lemma pop_sizes now b b' :
  pop now b = Ret b' →
  let first := m_time_last_time_pop b <? now in
  m_size b' = i32 (m_size b - 1) ∧
  m_time_last_time_pop b' = (if first then now else m_time_last_time_pop b) ∧
  m_size_at_cycle_start b' = (if first then m_size b else m_size_at_cycle_start b) ∧
  m_time_last_time_enqueue b' = m_time_last_time_enqueue b ∧ m_msgs_this_cycle b' = m_msgs_this_cycle b.
Proof. unfold pop. intros H. unbind H. destruct a0 as [n h]. by injection H as <-. Qed.

Lemma size_step_ok now size0 ops b o b' :
  size_inv now size0 ops b → size_step now b o = Ret b' →
  0 ≤ size0 → size0 + Z.of_nat (length ops) < 2 ^ 31 - 1 →
  size_inv now size0 (ops ++ [o]) b'.
Proof.
  intros [Hs Hp He] Hstep H0 Hroom. pose proof (sends_pops ops) as Hlen.
  destruct o as [p t|]; cbn [size_step] in Hstep.
  - apply enqueue_node_sizes in Hstep as (E1 & E2 & E3 & E4 & E5).
    split; rewrite ?sends_snoc, ?pops_snoc, ?sends_before_snoc; cbn [is_sent]; rewrite ?Nat.add_0_r.
    + rewrite E1, i32_id; lia.
    + rewrite E4, E5. by destruct (pops ops =? 0)%nat.
    + rewrite (proj2 (Nat.eqb_neq _ _)), E2, E3 by lia. destruct (Nat.eqb_spec (sends ops) 0) as [Ee|Ee].
      * rewrite (proj2 (Z.ltb_lt _ _)) by done. rewrite i32_id; lia.
      * destruct He as [-> ->]. rewrite Z.ltb_irrefl, i32_id by lia. lia.
  - apply pop_sizes in Hstep as (E1 & E2 & E3 & E4 & E5).
    split; rewrite ?sends_snoc, ?pops_snoc, ?sends_before_snoc; cbn [is_sent]; rewrite ?Nat.add_0_r.
    + rewrite E1, i32_id; lia.
    + rewrite (proj2 (Nat.eqb_neq (_ + 1) _)), E2, E3 by lia. destruct (Nat.eqb_spec (pops ops) 0) as [Ep|Ep].
      * rewrite (proj2 (Z.ltb_lt _ _)) by done. lia.
      * destruct Hp as [-> ->]. by rewrite Z.ltb_irrefl.
    + by rewrite E4, E5.
Qed.

Lemma size_run_ok now size0 l : ∀ ops b b',
  size_inv now size0 ops b → foldM (size_step now) b l = Ret b' →
  0 ≤ size0 → size0 + Z.of_nat (length (ops ++ l)) < 2 ^ 31 →
  size_inv now size0 (ops ++ l) b'.
Proof.
  induction l as [|o l IH]; intros ops b b' Hi Hrun H0 Hroom; cbn in Hrun.
  { injection Hrun as <-. by rewrite app_nil_r. }
  apply bind_ret_inv in Hrun as (b1 & E1 & E2). rewrite cons_middle, app_assoc.
  rewrite length_app in Hroom. cbn in Hroom.
  apply (IH _ b1); [eapply size_step_ok; [done|exact E1|done|lia]|done|done|].
  rewrite !length_app. cbn. lia.
Qed.

Lemma visible_size_reported now size0 ops b :
  size_inv now size0 ops b → 0 ≤ size0 → size0 + 2 * Z.of_nat (length ops) < 2 ^ 31 →
  visible_size now b = reported size0 ops.
Proof.
  intros [Hs Hp He] H0 Hroom. unfold visible_size, reported.
  pose proof (sends_pops ops) as Hlen. pose proof (sends_before_le ops).
  destruct (Nat.eqb_spec (pops ops) 0) as [Ep|Ep].
  - rewrite (proj2 (Z.ltb_lt _ _)) by done. lia.
  - destruct Hp as [-> ->]. rewrite Z.ltb_irrefl. destruct (Nat.eqb_spec (sends ops) 0) as [Ee|Ee].
    + rewrite (proj2 (Z.ltb_lt _ _)) by done. unfold sends_before in *. lia.
    + destruct He as [-> ->]. rewrite Z.ltb_irrefl, i32_id; lia.
Qed.

(** ** The claims *)

(** [C6] Refinement: a strict buffer without randomization behaves, action by
    action, as a list queue: it accepts an [enqueue], a [dequeue] or a cycle
    exactly when the list does, delivers the same messages in the same cycles,
    and stops at an assertion exactly when the list refuses (a delta that is not
    positive, an arrival before the last one, a message whose last arrival is
    in the future, a dequeue with no message ready). *)
Theorem message_buffer_refines {W} (wakeup : W → nat → Z → W * list (nat * Z)) RANDOMIZATION
    (c : nat) (acts : list action) (s : mbstate W) (f : fifo) q :
  schedules_later wakeup → simulates RANDOMIZATION c s f q →
  m_msg_counter (buf s) + Z.of_nat (length acts) < 2 ^ 31 →
  match fifo_run acts f with
  | Some (f', out) => ∃ s' q', mb_run wakeup RANDOMIZATION acts s = Ret (s', out) ∧
      simulates RANDOMIZATION c s' f' q'
  | None => mb_run wakeup RANDOMIZATION acts s = Raise AssertFailed
  end.
Proof. intros Hw. by apply sim_run. Qed.

(** Delivery: whatever the actions, the messages dequeued are the first of
    the messages waiting or enqueued, in the order they were enqueued, none of
    them before its arrival cycle, and the others are still in the buffer. *)
Theorem message_delivery {W} (wakeup : W → nat → Z → W * list (nat * Z)) RANDOMIZATION
    (c : nat) (acts : list action) (s s' : mbstate W) (f : fifo) q out :
  schedules_later wakeup → simulates RANDOMIZATION c s f q →
  m_msg_counter (buf s) + Z.of_nat (length acts) < 2 ^ 31 →
  mb_run wakeup RANDOMIZATION acts s = Ret (s', out) →
  ∃ f' q' got, simulates RANDOMIZATION c s' f' q' ∧
    f_queue f ++ sent_log (f_now f) acts = got ++ f_queue f' ∧
    fst <$> out = fst <$> got ∧ Forall2 (λ a d, snd a ≤ snd d) got out.
Proof.
  intros Hw Hsim Hroom Hrun. pose proof (sim_run wakeup RANDOMIZATION Hw c acts s f q Hsim Hroom) as Hr.
  destruct (fifo_run acts f) as [[f' out']|] eqn:E; [|by rewrite Hr in Hrun].
  destruct Hr as (s1 & q' & E1 & Hs1). rewrite E1 in Hrun. injection Hrun as <- <-.
  destruct (fifo_run_log acts f f' out' E) as (got & H1 & H2 & H3). by exists f', q', got.
Qed.

(** The buffer and the event queue together: in the cycle in which a
    message of the buffer becomes ready the consumer of the buffer is woken. *)
Theorem ready_message_wakes {W} (wakeup : W → nat → Z → W * list (nat * Z)) RANDOMIZATION
    (c : nat) (s : mbstate W) (f : fifo) q (p : nat) :
  schedules_later wakeup → simulates RANDOMIZATION c s f q → (p, f_now f + 1) ∈ f_queue f →
  ∃ e woken, advanceTime wakeup (evq s) = Ret (e, woken) ∧ (c, f_now f + 1) ∈ woken.
Proof.
  intros Hw Hsim Hp. destruct (sim_tick wakeup RANDOMIZATION Hw c s f q Hsim) as (s' & e & woken & _ & E & _ & _ & Hwk).
  exists e, woken. split; [done|].
  assert (Hx : (Some p, f_now f + 1) ∈ entry <$> q)
    by (rewrite (sim_queue _ _ _ _ _ Hsim); apply list_elem_of_fmap; by exists (p, f_now f + 1)).
  apply list_elem_of_fmap in Hx as (n & [= _ Et] & Hn). by apply (Hwk n).
Qed.

(** [C23] The slots of the network: after any sends and pops within a cycle
    [areNSlotsAvailable(n)] compares the limit with the size at the start of the
    cycle plus all sends, so pops of the cycle free nothing; the sends before
    the first pop count twice.  It never promises room that is not there. *)
Theorem areNSlotsAvailable_safe now (b0 b : MessageBuffer) (ops : list size_op) (n : Z) :
  m_time_last_time_enqueue b0 < now → m_time_last_time_pop b0 < now → 0 ≤ m_size b0 →
  foldM (size_step now) b0 ops = Ret b → m_max_size b ≠ -1 →
  0 ≤ n → m_size b0 + 2 * Z.of_nat (length ops) + n < 2 ^ 31 →
  let visible := m_size b0 + Z.of_nat (sends ops) +
    (if (pops ops =? 0)%nat then 0 else Z.of_nat (sends_before ops)) in
  fst (areNSlotsAvailable now n b) = (visible + n <=? m_max_size b) ∧
  m_size b = m_size b0 + Z.of_nat (sends ops) - Z.of_nat (pops ops) ∧
  (fst (areNSlotsAvailable now n b) = true → m_size b + n ≤ m_max_size b).
Proof.
  intros He Hp H0 Hrun Hmax Hn Hroom. cbn zeta.
  assert (Hi : size_inv now (m_size b0) ops b).
  { apply (size_run_ok now (m_size b0) ops [] b0); [|done|done|cbn; lia]. by split; cbn; [lia|..]. }
  assert (Hv : visible_size now b = m_size b0 + Z.of_nat (sends ops) +
      (if (pops ops =? 0)%nat then 0 else Z.of_nat (sends_before ops))).
  { rewrite (visible_size_reported now (m_size b0) ops b Hi) by lia. unfold reported.
    pose proof (sends_before_le ops). destruct (pops ops =? 0)%nat; [lia|].
    destruct (Nat.eqb_spec (sends ops) 0); lia. }
  pose proof (sends_before_le ops). pose proof (sends_pops ops).
  assert (Ha : fst (areNSlotsAvailable now n b) = (visible_size now b + n <=? m_max_size b)).
  { unfold areNSlotsAvailable. rewrite (proj2 (Z.eqb_neq _ _)) by done.
    rewrite Hv, i32_id by (destruct (pops ops =? 0)%nat; lia). by destruct (_ <=? _). }
  rewrite Ha, Hv. split; [done|]. split; [apply Hi|].
  rewrite (sz_size _ _ _ _ Hi), Z.leb_le. destruct (pops ops =? 0)%nat; lia.
Qed.

(** ** Evaluation *)

Definition ex_buffer : MessageBuffer :=
  match setConsumer 7 (setOrdering true new_buffer) with Ret b => b | Raise _ => new_buffer end.

Definition ex_state : mbstate unit := mkMB ex_buffer (λ _, mkMessage 1 0) ex_world.
Definition ex_fifo : fifo := mkFifo 1 [] 0 (λ _, 1).
Definition ex_acts : list action := [Enqueue 1 2; Enqueue 2 2; Tick; Enqueue 3 2; Tick; Pop; Pop; Tick; Pop].

Lemma ex_simulates : simulates false 7 ex_state ex_fifo [].
Proof.
  split; try done; [apply represents_nil; [apply heap_init_ok|done..]|
    by intros n ?%not_elem_of_nil|apply event_queue_init_ok|by intros n ?%not_elem_of_nil].
Qed.

Lemma message_buffer_refines_witness :
  (snd <$> fifo_run ex_acts ex_fifo) = Some [(1%nat, 3); (2%nat, 3); (3%nat, 4)] ∧
  fifo_run [Enqueue 1 2; Tick; Pop] ex_fifo = None ∧
  match fifo_run ex_acts ex_fifo with
  | Some (f', out) => ∃ s' q', mb_run ex_wakeup false ex_acts ex_state = Ret (s', out) ∧
      simulates false 7 s' f' q'
  | None => mb_run ex_wakeup false ex_acts ex_state = Raise AssertFailed
  end.
Proof.
  split; [reflexivity|]. split; [reflexivity|].
  exact (message_buffer_refines ex_wakeup false 7 ex_acts ex_state ex_fifo []
    ex_wakeup_later ex_simulates eq_refl).
Defined.

Definition ex_after : mbstate unit :=
  match mb_run ex_wakeup false ex_acts ex_state with Ret (s, _) => s | Raise _ => ex_state end.

Lemma message_delivery_witness :
  ∃ f' q' got, simulates false 7 ex_after f' q' ∧
    f_queue ex_fifo ++ sent_log 1 ex_acts = got ++ f_queue f' ∧
    fst <$> [(1%nat, 3); (2%nat, 3); (3%nat, 4)] = fst <$> got ∧
    Forall2 (λ a d, snd a ≤ snd d) got [(1%nat, 3); (2%nat, 3); (3%nat, 4)].
Proof.
  apply (message_delivery ex_wakeup false 7 ex_acts ex_state ex_after ex_fifo []);
    [exact ex_wakeup_later|exact ex_simulates|reflexivity|vm_compute; reflexivity].
Defined.

(** A message with one cycle to go. *)
Definition ex_waiting : mbstate unit :=
  match enqueue false (Some 1%nat) 1 (0, 0, 0) ex_state with Ret s => s | Raise _ => ex_state end.

Lemma ex_waiting_simulates :
  simulates false 7 ex_waiting (mkFifo 1 [(1%nat, 2)] 2 (λ p', if decide (p' = 1%nat) then 2 else 1))
    [mkMsgNode 2 1 (Some 1%nat)].
Proof.
  pose proof (sim_enqueue ex_wakeup false 7 ex_state ex_fifo [] 1 1 ex_simulates eq_refl) as Hx.
  cbn [fifo_step] in Hx. destruct Hx as (s' & q' & E & Hs & _).
  assert (Es : s' = ex_waiting) by (unfold mb_step in E; unfold ex_waiting; unbind E; by injection E as <-).
  subst s'. assert (Eq : q' = [mkMsgNode 2 1 (Some 1%nat)]); [|by subst q'].
  apply (represents_unique (buf ex_waiting)); [apply Hs|].
  destruct (enqueue_node_ok 1 1 2 ex_buffer [] (sim_rep _ _ _ _ _ ex_simulates)) as (b & Eb & Hb & _); [done|].
  replace (buf ex_waiting) with b; [exact Hb|]. vm_compute in Eb |- *. by injection Eb as <-.
Qed.

Lemma ready_message_wakes_witness :
  ∃ e woken, advanceTime ex_wakeup (evq ex_waiting) = Ret (e, woken) ∧ (7%nat, 2) ∈ woken.
Proof.
  apply (ready_message_wakes ex_wakeup false 7 ex_waiting _ _ 1 ex_wakeup_later ex_waiting_simulates).
  left.
Defined.

(** One message ready, room for two: a send, then a pop. *)
Definition ex_small : MessageBuffer := setSize 2 (buf ex_waiting).
Definition ex_small_after : MessageBuffer :=
  match foldM (size_step 2) ex_small [Sent 2 3; Popped] with Ret b => b | Raise _ => ex_small end.

Lemma areNSlotsAvailable_safe_witness :
  m_size ex_small_after = 1 ∧
  fst (areNSlotsAvailable 2 0 ex_small_after) = (1 + 1 + 1 + 0 <=? 2) ∧
  m_size ex_small_after = 1 + 1 - 1 ∧
  (fst (areNSlotsAvailable 2 0 ex_small_after) = true → m_size ex_small_after + 0 ≤ 2).
Proof.
  split; [reflexivity|].
  apply (areNSlotsAvailable_safe 2 ex_small ex_small_after [Sent 2 3; Popped] 0);
    [reflexivity|reflexivity|discriminate|vm_compute; reflexivity|discriminate|discriminate|reflexivity].
Defined.

(** ** What the modelling showed *)

(** One message waits, one is sent and one taken in a cycle: the buffer, with
    room for two, holds one message but answers that not even zero more fit. *)
Lemma sends_counted_twice :
  m_size ex_small_after = 1 ∧ visible_size 2 ex_small_after = 3 ∧
  fst (areNSlotsAvailable 2 0 ex_small_after) = false.
Proof. by vm_compute. Qed.

(** [clearStats] resets the counter of a buffer that holds messages: the next
    message of the same cycle gets a counter that is in use, and the comparison
    of the nodes asserts. *)
Lemma clearStats_collision :
  enqueue_node 1 2 2 (clearStats (buf ex_waiting)) = Raise AssertFailed ∧
  ∃ b, enqueue_node 1 2 2 (buf ex_waiting) = Ret b.
Proof. split; [reflexivity|]. eexists. vm_compute. reflexivity. Qed.

(** A random delay is 1 to 4 cycles, or 101 to 118. *)
Lemma random_time_bounds r1 r2 r3 :
  1 ≤ random_time r1 r2 r3 ≤ 4 ∨ 101 ≤ random_time r1 r2 r3 ≤ 118.
Proof.
  unfold random_time. pose proof (Z.mod_pos_bound r3 15 ltac:(lia)).
  assert (0 ≤ Z.land r1 3 ≤ 3).
  { change (Z.land r1 3) with (Z.land r1 (Z.ones 2)). rewrite Z.land_ones by lia.
    change (2 ^ 2) with 4. pose proof (Z.mod_pos_bound r1 4 ltac:(lia)). lia. }
  destruct (Z.land r2 7 =? 0); [right|left]; lia.
Qed.
