(* ===== verification/HashMap.v ===== *)
(** * The hash map of Ruby

    [Map.h] of [gems-lib/common]: a wrapper of [hash_map] whose accessors
    assert that the key is present.  The keys of all its uses in the library are
    addresses.  [keys] lists them in an order the hash table chooses; a client
    of it takes that order as a parameter. *)

From stdpp Require Import gmap.
From S2P Require Import Prelude.
Local Open Scope Z_scope.

Section map.
Context {V : Type}.
Implicit Types m : gmap Z V.

(** [add], with its synonyms [insert] and [allocate]: update or add. *)
Definition map_add (k : Z) (v : V) m : gmap Z V := <[k := v]> m.

(** [lookup], and the assertions on a missing key. *)
Definition map_lookup (k : Z) m : outcome V :=
  match m !! k with Some r => Ret r | None => Raise AssertFailed end.

(** [erase], with its synonyms [remove] and [deallocate]. *)
Definition map_erase (k : Z) m : outcome (gmap Z V) :=
  assertb (bool_decide (is_Some (m !! k))) ;; Ret (delete k m).

Definition map_exist (k : Z) m : bool := bool_decide (is_Some (m !! k)).

Definition map_size m : Z := Z.of_nat (size m).

Lemma map_exist_Some k m v : m !! k = Some v → map_exist k m = true.
Proof. intros E. unfold map_exist. apply bool_decide_eq_true. by exists v. Qed.

Lemma map_exist_None k m : m !! k = None → map_exist k m = false.
Proof. intros E. unfold map_exist. apply bool_decide_eq_false. rewrite E. by intros []. Qed.

Lemma map_lookup_Some k m v : m !! k = Some v → map_lookup k m = Ret v.
Proof. intros E. unfold map_lookup. by rewrite E. Qed.

Lemma map_erase_Some k m v : m !! k = Some v → map_erase k m = Ret (delete k m).
Proof. intros E. unfold map_erase. by rewrite bool_decide_eq_true_2 by eauto. Qed.
End map.
