(* ===== verification/TimerTable.v ===== *)
(** * Timers on lines

    [TimerTable.C] of [gems-lib/ruby_clean/system]: a set of lines with the time
    each becomes ready, and a cached earliest one.  The order in which the hash
    map lists its keys is a parameter; times are those of the event queue, and
    [set] returns the wake-up it schedules.  Printing is left out. *)

From stdpp Require Import gmap list sorting.
From S2P Require Import Prelude Address HashMap.
Local Open Scope Z_scope.

(** The order of [Map::keys]. *)
Class KeyOrder := {
  map_keys : gmap Z Z → list Z;
  map_keys_perm m : map_keys m ≡ₚ (map_to_list m).*1
}.

Section timers.
Context {order : KeyOrder} (bits : Z).

Record TimerTable := mkTimers {
  m_map : gmap Z Z;
  m_consumer : option nat;
  m_next_valid : bool;
  m_next_time : Z;
  m_next_address : Z
}.

Implicit Types (t : TimerTable) (address now : Z).

Definition new_TimerTable : TimerTable := mkTimers ∅ None false 0 0.

Definition setConsumer (c : nat) t : outcome TimerTable :=
  assertb (match m_consumer t with None => true | _ => false end) ;;
  Ret (mkTimers (m_map t) (Some c) (m_next_valid t) (m_next_time t) (m_next_address t)).

Definition set_next (time address : Z) t : TimerTable := mkTimers (m_map t) (m_consumer t) true time address.

Definition closer (m : gmap Z Z) '(next_time, next_address) (maybe_next_address : Z) : outcome (Z * Z) :=
  maybe_next_time ← map_lookup maybe_next_address m;
  Ret (if maybe_next_time <? next_time then (maybe_next_time, maybe_next_address) else (next_time, next_address)).

Definition updateNext t : outcome TimerTable :=
  if map_size (m_map t) =? 0 then assertb (negb (m_next_valid t)) ;; Ret t
  else
    let addresses := map_keys (m_map t) in
    first ← addresses.[0]!;
    time ← map_lookup first (m_map t);
    '(time, address) ← foldM (closer (m_map t)) (time, first) (drop 1 addresses);
    Ret (set_next time address t).

Definition refresh t : outcome TimerTable := if negb (m_next_valid t) then updateNext t else Ret t.

Definition isReady now t : outcome (bool * TimerTable) :=
  if map_size (m_map t) =? 0 then Ret (false, t)
  else t ← refresh t; assertb (m_next_valid t) ;; Ret (m_next_time t <=? now, t).

Definition readyAddress now t : outcome (Z * TimerTable) :=
  '(b, t) ← isReady now t; assertb b ;;
  t ← refresh t; assertb (m_next_valid t) ;; Ret (m_next_address t, t).

Definition isSet address t : bool := map_exist address (m_map t).

(** The wake-up of the consumer, and the table; the second test of
    [m_next_valid] follows an assignment that already cleared it. *)
Definition set now address (relative_latency : Z) t : outcome (nat * Z * TimerTable) :=
  assertb (address =? line_address bits address) ;;
  assertb (0 <? relative_latency) ;;
  assertb (negb (map_exist address (m_map t))) ;;
  let ready_time := now + relative_latency in
  match m_consumer t with
  | None => Raise AssertFailed
  | Some c =>
      let valid := false in
      let valid := if ready_time <=? m_next_time t then false else valid in
      Ret (c, ready_time, mkTimers (map_add address ready_time (m_map t)) (m_consumer t) valid (m_next_time t) (m_next_address t))
  end.

Definition unset address t : outcome TimerTable :=
  assertb (address =? line_address bits address) ;;
  assertb (map_exist address (m_map t)) ;;
  m ← map_erase address (m_map t);
  let valid := if address =? m_next_address t then false else m_next_valid t in
  Ret (mkTimers m (m_consumer t) valid (m_next_time t) (m_next_address t)).

(** ** Timers as a map of times *)

Inductive timer_op := SetTimer (address latency : Z) | Unset (address : Z) | IsReady | ReadyAddress | IsSet (address : Z).

Inductive timer_answer := WakeAt (c : nat) (time : Z) | Done | Ready (b : bool) | Address (a : Z).

Definition timer_do t (call : Z * timer_op) : outcome (timer_answer * TimerTable) :=
  let '(now, op) := call in
  match op with
  | SetTimer a latency => '(c, time, t) ← set now a latency t; Ret (WakeAt c time, t)
  | Unset a => t ← unset a t; Ret (Done, t)
  | IsReady => '(b, t) ← isReady now t; Ret (Ready b, t)
  | ReadyAddress => '(a, t) ← readyAddress now t; Ret (Address a, t)
  | IsSet a => Ret (Ready (isSet a t), t)
  end.

Definition timer_run (calls : list (Z * timer_op)) t : outcome (list timer_answer * TimerTable) :=
  foldM (λ '(answers, t) call, '(a, t) ← timer_do t call; Ret (answers ++ [a], t)) ([], t) calls.

Definition pending (m : gmap Z Z) now : Prop := ∃ a time, m !! a = Some time ∧ time ≤ now.

(** What a caller may ask, and how the map changes. *)
Definition allowed (m : gmap Z Z) (call : Z * timer_op) : Prop :=
  match call.2 with
  | SetTimer a latency => a = line_address bits a ∧ 0 < latency ∧ m !! a = None
  | Unset a => a = line_address bits a ∧ is_Some (m !! a)
  | ReadyAddress => pending m call.1
  | _ => True
  end.

Definition timer_next (m : gmap Z Z) (call : Z * timer_op) : gmap Z Z :=
  match call.2 with
  | SetTimer a latency => <[a := call.1 + latency]> m
  | Unset a => delete a m
  | _ => m
  end.

Definition answers_well (c : nat) (m : gmap Z Z) (call : Z * timer_op) (answer : timer_answer) : Prop :=
  match call.2, answer with
  | SetTimer a latency, WakeAt c' time => c' = c ∧ time = call.1 + latency
  | Unset _, Done => True
  | IsReady, Ready b => b = true ↔ pending m call.1
  | ReadyAddress, Address a => ∃ time, m !! a = Some time ∧ time ≤ call.1 ∧ ∀ a' time', m !! a' = Some time' → time ≤ time'
  | IsSet a, Ready b => b = true ↔ is_Some (m !! a)
  | _, _ => False
  end.

(** The answers to a sequence of calls, each of them allowed. *)
Inductive timer_trace (c : nat) : gmap Z Z → list (Z * timer_op) → list timer_answer → gmap Z Z → Prop :=
  | trace_nil m : timer_trace c m [] [] m
  | trace_cons m call calls answer answers m' :
      allowed m call → answers_well c m call answer → timer_trace c (timer_next m call) calls answers m' →
      timer_trace c m (call :: calls) (answer :: answers) m'.

Fixpoint all_allowed (m : gmap Z Z) (calls : list (Z * timer_op)) : Prop :=
  match calls with
  | [] => True
  | call :: calls => allowed m call ∧ all_allowed (timer_next m call) calls
  end.

#[global] Instance pending_dec m now : Decision (pending m now).
Proof.
  refine (cast_if (decide (map_Exists (λ _ time, time ≤ now) m))); done.
Defined.

#[global] Instance allowed_dec m call : Decision (allowed m call).
Proof. destruct call as [now []]; unfold allowed; cbn; apply _. Defined.

(** ** The earliest timer *)

Definition earliest (m : gmap Z Z) (time address : Z) : Prop :=
  m !! address = Some time ∧ ∀ a' time', m !! a' = Some time' → time ≤ time'.

Record timer_ok (c : nat) t : Prop := {
  to_consumer : m_consumer t = Some c;
  to_next : m_next_valid t = true → earliest (m_map t) (m_next_time t) (m_next_address t)
}.

Lemma closer_spec m l : ∀ time address,
  m !! address = Some time → (∀ a, a ∈ l → is_Some (m !! a)) →
  ∃ time' address', foldM (closer m) (time, address) l = Ret (time', address') ∧ m !! address' = Some time' ∧
    time' ≤ time ∧ ∀ a v, a ∈ l → m !! a = Some v → time' ≤ v.
Proof.
  induction l as [|x l IH]; intros time address Ha Hl; [exists time, address; repeat split; [done|lia|set_solver]|].
  destruct (Hl x) as [v Hv]; [set_solver|]. cbn [foldM closer]. rewrite (map_lookup_Some _ _ _ Hv).
  cbn [mbind outcome_bind].
  destruct (Z.ltb_spec v time) as [H|H].
  - destruct (IH v x Hv) as (t' & a' & E & H1 & H2 & H3); [set_solver|]. exists t', a'. rewrite E.
    split; [done|]. split; [done|]. split; [lia|]. intros a w [->|Hin]%elem_of_cons Hw; [congruence|by eapply H3].
  - destruct (IH time address Ha) as (t' & a' & E & H1 & H2 & H3); [set_solver|]. exists t', a'. rewrite E.
    split; [done|]. split; [done|]. split; [lia|]. intros a w [->|Hin]%elem_of_cons Hw; [|by eapply H3].
    assert (w = v) by congruence. lia.
Qed.

Lemma size_zero (m : gmap Z Z) : map_size m = 0 ↔ m = ∅.
Proof. unfold map_size. rewrite <- map_size_empty_iff. lia. Qed.

Lemma updateNext_spec c t :
  timer_ok c t → m_next_valid t = false → m_map t ≠ ∅ →
  ∃ t', updateNext t = Ret t' ∧ timer_ok c t' ∧ m_next_valid t' = true ∧ m_map t' = m_map t.
Proof.
  intros [Hc _] Hv Hm. unfold updateNext. rewrite (proj2 (Z.eqb_neq _ 0)) by (by rewrite size_zero).
  assert (Hk : ∀ a, a ∈ map_keys (m_map t) ↔ is_Some (m_map t !! a)).
  { intros a. rewrite map_keys_perm, list_elem_of_fmap. split.
    - intros ([a' v] & -> & H%elem_of_map_to_list). by exists v.
    - intros [v H]. exists (a, v). by rewrite elem_of_map_to_list. }
  destruct (map_keys (m_map t)) as [|first l] eqn:El.
  { exfalso. apply Hm, map_empty. intros a. destruct (m_map t !! a) as [v|] eqn:E; [|done].
    assert (a ∈ ([] : list Z)) by (rewrite Hk; by exists v). set_solver. }
  destruct (proj1 (Hk first)) as [v Hfirst]; [set_solver|]. cbn [at_idx mbind outcome_bind drop].
  rewrite (at_idx_Some (first :: l) 0%nat first eq_refl). cbn [mbind outcome_bind].
  rewrite (map_lookup_Some _ _ _ Hfirst). cbn [mbind outcome_bind].
  destruct (closer_spec (m_map t) l v first Hfirst) as (time & address & E & H1 & H2 & H3); [intros a Ha; apply Hk; set_solver|].
  change (skipn 0 l) with l. rewrite E. cbn [mbind outcome_bind]. eexists. split; [reflexivity|]. split; [|done]. split; [done|]. intros _. split; [done|].
  intros a w Hw. assert (a ∈ first :: l) as [->|Hin]%elem_of_cons by (rewrite Hk; by exists w); [|by eapply H3].
  cbn. cbn in Hw. assert (w = v) by congruence. lia.
Qed.

Lemma refresh_spec c t :
  timer_ok c t → m_map t ≠ ∅ →
  ∃ t', refresh t = Ret t' ∧ timer_ok c t' ∧ m_next_valid t' = true ∧ m_map t' = m_map t.
Proof.
  intros Ht Hm. unfold refresh. destruct (m_next_valid t) eqn:Ev; [by exists t|]. by apply updateNext_spec.
Qed.

Lemma pending_earliest m now time address : earliest m time address → pending m now ↔ time ≤ now.
Proof.
  intros [H1 H2]. split; [intros (a & v & Ha & Hv); specialize (H2 a v Ha); lia|intros H; by exists address, time].
Qed.

Lemma isReady_spec c t now :
  timer_ok c t →
  ∃ b t', isReady now t = Ret (b, t') ∧ timer_ok c t' ∧ m_map t' = m_map t ∧ (b = true ↔ pending (m_map t) now) ∧
    (b = true → m_next_valid t' = true).
Proof.
  intros Ht. unfold isReady. destruct (Z.eqb_spec (map_size (m_map t)) 0) as [E|E].
  - apply size_zero in E. exists false, t. split; [done|]. split; [done|]. split; [done|]. split; [|done].
    rewrite E. split; [done|]. intros (a & v & Ha & _). by rewrite lookup_empty in Ha.
  - rewrite size_zero in E. destruct (refresh_spec c t Ht E) as (t' & -> & Ht' & Hv & Hm). cbn [mbind outcome_bind].
    rewrite Hv. cbn [assertb mbind outcome_bind]. eexists _, t'. split; [reflexivity|]. split; [done|]. split; [done|].
    split; [|done]. rewrite Z.leb_le, <- Hm. symmetry. by eapply pending_earliest, (to_next c t' Ht').
Qed.

Lemma readyAddress_spec c t now :
  timer_ok c t →
  (pending (m_map t) now → ∃ a time t', readyAddress now t = Ret (a, t') ∧ timer_ok c t' ∧ m_map t' = m_map t ∧
     earliest (m_map t) time a ∧ time ≤ now) ∧
  (¬ pending (m_map t) now → readyAddress now t = Raise AssertFailed).
Proof.
  intros Ht. destruct (isReady_spec c t now Ht) as (b & t' & E & Ht' & Hm & Hb & Hv). unfold readyAddress. rewrite E.
  cbn [mbind outcome_bind]. rewrite <- Hb. destruct b; cbn [assertb mbind outcome_bind]; [|by split].
  split; [|done]. intros _. unfold refresh. rewrite Hv by done. cbn [negb mbind outcome_bind]. rewrite Hv by done.
  cbn [assertb mbind outcome_bind]. pose proof (to_next c t' Ht' (Hv eq_refl)) as He. rewrite Hm in He.
  exists (m_next_address t'), (m_next_time t'), t'. repeat (split; [done|]).
  by apply (pending_earliest _ _ _ _ He), Hb.
Qed.

Lemma set_spec c t now a latency :
  timer_ok c t →
  (allowed (m_map t) (now, SetTimer a latency) →
     ∃ t', set now a latency t = Ret (c, now + latency, t') ∧ timer_ok c t' ∧ m_map t' = <[a := now + latency]> (m_map t)) ∧
  (¬ allowed (m_map t) (now, SetTimer a latency) → set now a latency t = Raise AssertFailed).
Proof.
  intros [Hc _]. unfold set, allowed. cbn [fst snd].
  destruct (Z.eqb_spec a (line_address bits a)) as [Ea|Ea]; [|split; [tauto|done]]. cbn [assertb mbind outcome_bind].
  destruct (Z.ltb_spec 0 latency) as [El|El]; [|split; [lia|done]]. cbn [assertb mbind outcome_bind].
  unfold map_exist. case_bool_decide as Hx; cbn [negb assertb mbind outcome_bind].
  - split; [|done]. destruct Hx as [v Hx]. rewrite Hx. naive_solver.
  - split; [|intros []; split; [done|split; [done|by apply eq_None_not_Some]]]. intros _. rewrite Hc.
    eexists. split; [reflexivity|]. split; [|done]. split; [done|]. cbn. by case_match.
Qed.

Lemma unset_spec c t a now :
  timer_ok c t →
  (allowed (m_map t) (now, Unset a) → ∃ t', unset a t = Ret t' ∧ timer_ok c t' ∧ m_map t' = delete a (m_map t)) ∧
  (¬ allowed (m_map t) (now, Unset a) → unset a t = Raise AssertFailed).
Proof.
  intros [Hc Hn]. unfold unset, allowed. cbn [fst snd].
  destruct (Z.eqb_spec a (line_address bits a)) as [Ea|Ea]; [|split; [tauto|done]]. cbn [assertb mbind outcome_bind].
  unfold map_exist. case_bool_decide as Hx; cbn [assertb mbind outcome_bind]; [|split; [tauto|done]].
  split; [|tauto]. intros _. destruct Hx as [v Hx]. rewrite (map_erase_Some _ _ _ Hx). cbn [mbind outcome_bind].
  eexists. split; [reflexivity|]. split; [|done]. split; [done|]. cbn.
  destruct (Z.eqb_spec a (m_next_address t)) as [->|Hne]; [done|]. intros Hv. destruct (Hn Hv) as [H1 H2]. split.
  - by rewrite lookup_delete_ne.
  - intros a' w Hw. apply lookup_delete_Some in Hw as [_ Hw]. by eapply H2.
Qed.

Lemma timer_do_spec c t call :
  timer_ok c t →
  (allowed (m_map t) call → ∃ answer t', timer_do t call = Ret (answer, t') ∧ timer_ok c t' ∧
     m_map t' = timer_next (m_map t) call ∧ answers_well c (m_map t) call answer) ∧
  (¬ allowed (m_map t) call → timer_do t call = Raise AssertFailed).
Proof.
  intros Ht. destruct call as [now [a latency|a| | |a]].
  - destruct (set_spec c t now a latency Ht) as [H1 H2]. split; intros Ha.
    + destruct (H1 Ha) as (t' & E & Ht' & Hm). cbn [timer_do]. rewrite E. cbn [mbind outcome_bind]. by exists (WakeAt c (now + latency)), t'.
    + cbn [timer_do]. by rewrite (H2 Ha).
  - destruct (unset_spec c t a now Ht) as [H1 H2]. split; intros Ha.
    + destruct (H1 Ha) as (t' & E & Ht' & Hm). cbn [timer_do]. rewrite E. cbn [mbind outcome_bind]. by exists Done, t'.
    + cbn [timer_do]. by rewrite (H2 Ha).
  - destruct (isReady_spec c t now Ht) as (b & t' & E & Ht' & Hm & Hb & _). split; [|intros []; done]. intros _.
    cbn [timer_do]. rewrite E. cbn [mbind outcome_bind]. by exists (Ready b), t'.
  - destruct (readyAddress_spec c t now Ht) as [H1 H2]. split; intros Ha.
    + destruct (H1 Ha) as (a & time & t' & E & Ht' & Hm & [He1 He2] & Hle). cbn [timer_do]. rewrite E. cbn [mbind outcome_bind].
      exists (Address a), t'. repeat (split; [done|]). by exists time.
    + cbn [timer_do]. by rewrite (H2 Ha).
  - split; [|intros []; done]. intros _. exists (Ready (isSet a t)), t. repeat (split; [done|]).
    unfold answers_well, isSet, map_exist. cbn. by rewrite bool_decide_eq_true.
Qed.

Lemma timer_run_spec c calls : ∀ t answers,
  timer_ok c t →
  (all_allowed (m_map t) calls → ∃ answers' t',
     foldM (λ '(answers, t) call, '(a, t) ← timer_do t call; Ret (answers ++ [a], t)) (answers, t) calls =
       Ret (answers ++ answers', t') ∧
     timer_ok c t' ∧ timer_trace c (m_map t) calls answers' (m_map t')) ∧
  (¬ all_allowed (m_map t) calls →
     foldM (λ '(answers, t) call, '(a, t) ← timer_do t call; Ret (answers ++ [a], t)) (answers, t) calls = Raise AssertFailed).
Proof.
  induction calls as [|call calls IH]; intros t answers Ht.
  - split; [|intros []; done]. intros _. exists [], t. rewrite app_nil_r. split; [done|]. split; [done|constructor].
  - cbn [foldM all_allowed]. destruct (timer_do_spec c t call Ht) as [H1 H2]. split.
    + intros [Ha Hall]. destruct (H1 Ha) as (answer & t1 & E & Ht1 & Hm & Hw). rewrite E. cbn [mbind outcome_bind].
      destruct (IH t1 (answers ++ [answer]) Ht1) as [IH1 _]. rewrite Hm in IH1. destruct (IH1 Hall) as (answers' & t' & E' & Ht' & Htr).
      exists (answer :: answers'), t'. rewrite E', <- app_assoc. split; [done|]. split; [done|]. by econstructor.
    + intros Hn. destruct (decide (allowed (m_map t) call)) as [Ha|Ha]; [|by rewrite (H2 Ha)].
      destruct (H1 Ha) as (answer & t1 & E & Ht1 & Hm & _). rewrite E. cbn [mbind outcome_bind].
      destruct (IH t1 (answers ++ [answer]) Ht1) as [_ IH2]. apply IH2. rewrite Hm. tauto.
Qed.

(** A pending timer was announced when it was set. *)
Lemma trace_wakes c m calls answers m' :
  timer_trace c m calls answers m' →
  ∀ a time, m' !! a = Some time → m !! a = Some time ∨ WakeAt c time ∈ answers.
Proof.
  induction 1 as [m|m [now op] calls answer answers m' _ Hw _ IH]; intros a time Ha; [by left|].
  destruct (IH a time Ha) as [Hn|Hn]; [|right; set_solver].
  destruct op as [x latency|x| | |x]; cbn in *; try (by left).
  - apply lookup_insert_Some in Hn as [[-> <-]|[_ Hn]]; [|by left].
    right. destruct answer; try done. destruct Hw as [-> ->]. set_solver.
  - apply lookup_delete_Some in Hn as [_ Hn]. by left.
Qed.

Lemma timers_run c calls t :
  setConsumer c new_TimerTable = Ret t →
  (all_allowed ∅ calls → ∃ answers t', timer_run calls t = Ret (answers, t') ∧
     timer_trace c ∅ calls answers (m_map t') ∧ ∀ a time, m_map t' !! a = Some time → WakeAt c time ∈ answers) ∧
  (¬ all_allowed ∅ calls → timer_run calls t = Raise AssertFailed).
Proof.
  intros [= <-]. destruct (timer_run_spec c calls (mkTimers ∅ (Some c) false 0 0) []) as [H1 H2]; [by split|].
  split; [|exact H2]. intros Hall. destruct (H1 Hall) as (answers & t' & E & _ & Htr). exists answers, t'.
  split; [exact E|]. split; [exact Htr|]. intros a time Ha.
  destruct (trace_wakes _ _ _ _ _ Htr a time Ha) as [Hn|Hn]; [|done]. cbn in Hn. by rewrite lookup_empty in Hn.
Qed.
End timers.

(** [C37] A timer table is a map from lines to the times they become ready,
    whatever order the hash map lists its keys in: it is ready exactly when the
    time of some line has come, the ready address is a line of the earliest time,
    and every line still set had a wake-up scheduled for exactly its time.  A
    sequence of calls fails exactly when one of them sets a line twice, is not
    about a line, has no latency, unsets a line that is not set or asks for the
    ready address when there is none. *)
Theorem timers_correct {order : KeyOrder} (bits : Z) c calls t :
  setConsumer c new_TimerTable = Ret t →
  (all_allowed bits ∅ calls → ∃ answers t', timer_run bits calls t = Ret (answers, t') ∧
     timer_trace bits c ∅ calls answers (m_map t') ∧ ∀ a time, m_map t' !! a = Some time → WakeAt c time ∈ answers) ∧
  (¬ all_allowed bits ∅ calls → timer_run bits calls t = Raise AssertFailed).
Proof. apply timers_run. Qed.

Definition sorted_keys : KeyOrder := {| map_keys m := (map_to_list m).*1; map_keys_perm m := reflexivity _ |}.

Lemma timers_correct_witness :
  ∃ t answers t', setConsumer 3 (new_TimerTable) = Ret t ∧
    timer_run (order := sorted_keys) 6 [(10, SetTimer 64 20); (11, SetTimer 128 5); (16, ReadyAddress); (17, Unset 128)] t =
      Ret (answers, t') ∧ timer_trace 6 3 ∅ [(10, SetTimer 64 20); (11, SetTimer 128 5); (16, ReadyAddress); (17, Unset 128)] answers (m_map t').
Proof.
  destruct (setConsumer 3 new_TimerTable) as [t|e] eqn:Et; [|discriminate Et].
  destruct (timers_correct (order := sorted_keys) 6 3
    [(10, SetTimer 64 20); (11, SetTimer 128 5); (16, ReadyAddress); (17, Unset 128)] t Et) as [H _].
  destruct H as (answers & t' & E & Htr & _).
  - cbn. unfold allowed. cbn. repeat split; try lia; try (by vm_compute).
    + exists 128, 16. split; [reflexivity|lia].
    + exists 16. reflexivity.
  - exists t, answers, t'. split; [reflexivity|]. split; [exact E|exact Htr].
Defined.
