(* ===== verification/TBETable.v ===== *)
(** * Transaction buffers

    [TBETable.h] of [gems-lib/ruby_clean/system]: the buffers of the transactions
    in progress, at most [NUMBER_OF_TBES], by line.  The entry type is the one the
    protocol generates.  The profiling sample of [allocate] and printing are left
    out. *)

From stdpp Require Import gmap list.
From S2P Require Import Prelude Address HashMap.
Local Open Scope Z_scope.

Section table.
Context {V : Type} (new_ENTRY : V) (bits NUMBER_OF_TBES : Z).
Implicit Types (m_map : gmap Z V) (address : Z).

Definition isPresent address m_map : outcome bool :=
  assertb (address =? line_address bits address) ;;
  assertb (map_size m_map <=? NUMBER_OF_TBES) ;; Ret (map_exist address m_map).

Definition allocate m_map address : outcome (gmap Z V) :=
  b ← isPresent address m_map; assertb (negb b) ;;
  assertb (map_size m_map <? NUMBER_OF_TBES) ;; Ret (map_add address new_ENTRY m_map).

Definition deallocate address m_map : outcome (gmap Z V) :=
  b ← isPresent address m_map; assertb b ;;
  assertb (0 <? map_size m_map) ;; map_erase address m_map.

Definition areNSlotsAvailable (n : Z) m_map : bool := n <=? NUMBER_OF_TBES - map_size m_map.

Definition lookup address m_map : outcome V :=
  b ← isPresent address m_map; assertb b ;; map_lookup address m_map.

(** ** The table as a bounded map *)

Lemma isPresent_line address m_map b : isPresent address m_map = Ret b → address = line_address bits address.
Proof. unfold isPresent. destruct (Z.eqb_spec address (line_address bits address)); [done|discriminate]. Qed.

Definition is_line address : Prop := address = line_address bits address.

Definition table_ok m_map : Prop := map_size m_map ≤ NUMBER_OF_TBES.

Lemma isPresent_spec address m_map :
  table_ok m_map → is_line address → isPresent address m_map = Ret (map_exist address m_map).
Proof. intros Hm Ha. unfold isPresent. by rewrite (proj2 (Z.eqb_eq address _) Ha), (proj2 (Z.leb_le _ _) Hm). Qed.

Lemma tbe_allocate_spec address m_map :
  table_ok m_map → is_line address → m_map !! address = None →
  allocate m_map address =
    if map_size m_map <? NUMBER_OF_TBES then Ret (<[address := new_ENTRY]> m_map) else Raise AssertFailed.
Proof.
  intros Hm Ha Hn. unfold allocate. rewrite isPresent_spec, map_exist_None by done. cbn [negb assertb mbind outcome_bind].
  by destruct (map_size m_map <? NUMBER_OF_TBES).
Qed.

Lemma size_add address v m_map : m_map !! address = None → map_size (<[address := v]> m_map) = map_size m_map + 1.
Proof. intros Hn. unfold map_size. rewrite map_size_insert_None by done. lia. Qed.

Lemma size_remove address m_map : is_Some (m_map !! address) → map_size (delete address m_map) = map_size m_map - 1.
Proof.
  intros Hx. unfold map_size. rewrite map_size_delete_Some by done. destruct Hx as [v Hv].
  assert (size m_map ≠ 0%nat); [|lia]. intros Hz%map_size_empty_iff. by rewrite Hz, lookup_empty in Hv.
Qed.

Lemma deallocate_spec address m_map :
  table_ok m_map → is_line address →
  deallocate address m_map =
    if decide (is_Some (m_map !! address)) then Ret (delete address m_map) else Raise AssertFailed.
Proof.
  intros Hm Ha. unfold deallocate. rewrite isPresent_spec by done. cbn [mbind outcome_bind]. unfold map_exist.
  case_decide as Hx; [rewrite bool_decide_eq_true_2 by done|by rewrite bool_decide_eq_false_2 by done].
  cbn [assertb mbind outcome_bind]. pose proof (size_remove _ _ Hx). destruct Hx as [v Hv].
  rewrite (proj2 (Z.ltb_lt 0 _)), (map_erase_Some _ _ _ Hv) by (unfold map_size in *; lia). done.
Qed.

Lemma tbe_lookup_spec address m_map :
  table_ok m_map → is_line address →
  lookup address m_map = match m_map !! address with Some v => Ret v | None => Raise AssertFailed end.
Proof.
  intros Hm Ha. unfold lookup. rewrite isPresent_spec by done. cbn [mbind outcome_bind]. unfold map_exist, map_lookup.
  destruct (m_map !! address); [by rewrite bool_decide_eq_true_2 by eauto|by rewrite bool_decide_eq_false_2 by by intros []].
Qed.

Lemma allocate_all l : ∀ m_map,
  table_ok m_map → Forall is_line l → NoDup l → (∀ a, a ∈ l → m_map !! a = None) →
  foldM allocate m_map l =
    if areNSlotsAvailable (Z.of_nat (length l)) m_map then Ret (foldl (λ m a, <[a := new_ENTRY]> m) m_map l)
    else Raise AssertFailed.
Proof.
  unfold areNSlotsAvailable. induction l as [|a l IH]; intros m_map Hm Hl Hnd Hn.
  - cbn. unfold table_ok in Hm. by rewrite (proj2 (Z.leb_le 0 _)) by lia.
  - apply Forall_cons in Hl as [Ha Hl]. apply NoDup_cons in Hnd as [Hni Hnd].
    cbn [foldM foldl]. rewrite tbe_allocate_spec by (done || apply Hn; set_solver). cbn [length].
    destruct (Z.ltb_spec (map_size m_map) NUMBER_OF_TBES) as [H|H]; cbn [mbind outcome_bind].
    + assert (Ea : map_size (<[a := new_ENTRY]> m_map) = map_size m_map + 1) by (apply size_add, Hn; set_solver).
      rewrite IH; [|unfold table_ok; lia|done|done|].
      * rewrite Ea. replace (Z.of_nat (S (length l)) <=? NUMBER_OF_TBES - map_size m_map)
          with (Z.of_nat (length l) <=? NUMBER_OF_TBES - (map_size m_map + 1)); [done|].
        apply eq_true_iff_eq. rewrite !Z.leb_le. lia.
      * intros b Hb. rewrite lookup_insert_ne by set_solver. apply Hn. set_solver.
    + by rewrite (proj2 (Z.leb_gt _ _)) by lia.
Qed.
End table.

(** Transaction buffers are a map of at most [NUMBER_OF_TBES] lines: the
    slots said to be available are exactly those that can be allocated, so that a
    sequence of new lines is allocated without a failure when it was granted that
    many slots and fails otherwise; freeing a buffer gives its slot back, a buffer
    is looked up only while it is there, and the bound is never exceeded. *)
Theorem tbe_slots {V} (new_ENTRY : V) bits N m :
  table_ok N m →
  (∀ l, Forall (is_line bits) l → NoDup l → (∀ a, a ∈ l → m !! a = None) →
     foldM (allocate new_ENTRY bits N) m l =
       (if areNSlotsAvailable N (Z.of_nat (length l)) m then Ret (foldl (λ m a, <[a := new_ENTRY]> m) m l)
        else Raise AssertFailed)) ∧
  (∀ a m', allocate new_ENTRY bits N m a = Ret m' → table_ok N m' ∧ m' = <[a := new_ENTRY]> m ∧ m !! a = None) ∧
  (∀ a m', deallocate bits N a m = Ret m' → m' = delete a m ∧ table_ok N m' ∧
     ∀ n, areNSlotsAvailable N n m' = areNSlotsAvailable N (n - 1) m) ∧
  (∀ a, is_line bits a → lookup bits N a m = match m !! a with Some v => Ret v | None => Raise AssertFailed end).
Proof.
  intros Hm. split; [|split; [|split]].
  - intros l. by apply allocate_all.
  - intros a m' E. assert (Ha : is_line bits a).
    { unfold allocate in E. unbind E. by eapply isPresent_line. }
    destruct (m !! a) eqn:En.
    + unfold allocate in E. rewrite isPresent_spec, (map_exist_Some _ _ _ En) in E by done. done.
    + rewrite tbe_allocate_spec in E by done. destruct (Z.ltb_spec (map_size m) N); [|done]. injection E as <-.
      split; [|done]. unfold table_ok. rewrite size_add by done. lia.
  - intros a m' E. assert (Ha : is_line bits a).
    { unfold deallocate in E. unbind E. by eapply isPresent_line. }
    rewrite deallocate_spec in E by done. case_decide as Hx; [|done]. injection E as <-. split; [done|].
    unfold table_ok, areNSlotsAvailable in *. rewrite size_remove by done. split; [lia|]. intros n.
    apply eq_true_iff_eq. rewrite !Z.leb_le. lia.
  - intros a. by apply tbe_lookup_spec.
Qed.

Lemma tbe_slots_witness :
  table_ok 2 (∅ : gmap Z nat) ∧
  foldM (allocate 7%nat 6 2) ∅ [0; 64] = Ret (foldl (λ m a, <[a := 7%nat]> m) ∅ [0; 64]).
Proof.
  assert (H0 : table_ok 2 (∅ : gmap Z nat)) by (unfold table_ok; vm_compute; discriminate).
  split; [exact H0|]. destruct (tbe_slots 7%nat 6 2 ∅ H0) as (H & _).
  rewrite (H [0; 64]).
  - reflexivity.
  - repeat (apply Forall_cons; split; [reflexivity|]). by apply Forall_nil.
  - apply NoDup_cons; split; [set_solver|]. apply NoDup_singleton.
  - intros a _. reflexivity.
Defined.
