(* ===== verification/Sequencer.v ===== *)
(** * The sequencer of a processor

    [Sequencer.C] of [gems-lib/ruby_clean/system], the front end of the memory
    hierarchy: per thread a table of outstanding reads and one of outstanding
    writes, keyed by line.  The configuration is the one of
    [O3simconfig.defaults]: no TSO, no transactional memory, so the store
    buffer and the conflict callbacks are never used.  Left out: the data of
    the lines, profiling, tracing, printing. *)

From stdpp Require Import gmap.
From S2P Require Import Prelude Address HashMap.
Local Open Scope Z_scope.

(** ** Configuration *)

Definition g_DEADLOCK_THRESHOLD : Z := 500000.
Definition g_SEQUENCER_OUTSTANDING_REQUESTS : Z := 16.
Definition SEQUENCER_TO_CONTROLLER_LATENCY : Z := 4.
Definition REMOVE_SINGLE_CYCLE_DCACHE_FAST_PATH : bool := true.
Definition DATA_BLOCK_BITS : Z := 6.

Notation line := (line_address DATA_BLOCK_BITS).

(** ** Requests *)

Inductive CacheRequestType :=
  | LD | ST | ATOMIC | IFETCH | IO | REPLACEMENT | COMMIT | LD_XACT | LDX_XACT | ST_XACT
  | BEGIN_XACT | COMMIT_XACT | ABORT_XACT | NULL_type | ACC_LD | ACC_ST.

Inductive PrefetchBit := No | Yes | L1_HW | L2_HW.
Inductive AccessModeType := SupervisorMode | UserMode.

#[export] Instance CacheRequestType_dec : EqDecision CacheRequestType.
Proof. solve_decision. Defined.
#[export] Instance PrefetchBit_dec : EqDecision PrefetchBit.
Proof. solve_decision. Defined.

Record CacheMsg := mkCacheMsg {
  getAddress : Z;
  getType : CacheRequestType;
  getAccessMode : AccessModeType;
  getSize : Z;
  getPrefetch : PrefetchBit;
  getLogicalAddress : Z;
  getThreadID : Z;
  msg_time : Z                     (** [Message::getTime] *)
}.

Definition is_write (t : CacheRequestType) : bool :=
  match t with ST | ST_XACT | LDX_XACT | ATOMIC => true | _ => false end.

Definition is_read (t : CacheRequestType) : bool :=
  match t with LD | LD_XACT | IFETCH => true | _ => false end.

Notation request_table := (gmap Z CacheMsg).

Record Sequencer := mkSequencer {
  m_writeRequestTable : list request_table;
  m_readRequestTable : list request_table;
  m_outstanding_count : Z;
  m_deadlock_check_scheduled : bool
}.

Definition new_Sequencer (smt_threads : nat) : Sequencer :=
  mkSequencer (replicate smt_threads ∅) (replicate smt_threads ∅) 0 false.

(** ** The tables of a kind *)

Definition tables (write : bool) (s : Sequencer) : list request_table :=
  if write then m_writeRequestTable s else m_readRequestTable s.

Definition set_table (write : bool) (thread : nat) (m : request_table) (s : Sequencer) : Sequencer :=
  if write then
    mkSequencer (<[thread := m]> (m_writeRequestTable s)) (m_readRequestTable s)
      (m_outstanding_count s) (m_deadlock_check_scheduled s)
  else
    mkSequencer (m_writeRequestTable s) (<[thread := m]> (m_readRequestTable s))
      (m_outstanding_count s) (m_deadlock_check_scheduled s).

Definition set_count (n : Z) (s : Sequencer) : Sequencer :=
  mkSequencer (m_writeRequestTable s) (m_readRequestTable s) n (m_deadlock_check_scheduled s).

Definition set_check (b : bool) (s : Sequencer) : Sequencer :=
  mkSequencer (m_writeRequestTable s) (m_readRequestTable s) (m_outstanding_count s) b.

Definition total_outstanding (s : Sequencer) : Z :=
  zsum (λ m : request_table, Z.of_nat (size m)) (m_writeRequestTable s) +
  zsum (λ m : request_table, Z.of_nat (size m)) (m_readRequestTable s).

(** ** The deadlock check

    The [wakeup] of the sequencer; the list holds the delays of the
    [scheduleEvent] calls for itself. *)
Definition too_old (now : Z) (m : request_table) : bool :=
  existsb (λ '(_, r), g_DEADLOCK_THRESHOLD <=? now - msg_time r) (map_to_list m).

Definition wakeup (now : Z) (s : Sequencer) : outcome (Sequencer * list Z) :=
  assertb (negb (existsb (too_old now) (m_readRequestTable s)) &&
           negb (existsb (too_old now) (m_writeRequestTable s))) ;;
  assertb (m_outstanding_count s =? total_outstanding s) ;;
  if 0 <? m_outstanding_count s then Ret (s, [g_DEADLOCK_THRESHOLD])
  else Ret (set_check false s, []).

(** ** Queries *)

Definition getNumberOutstanding (s : Sequencer) : Z := m_outstanding_count s.
Definition empty (s : Sequencer) : bool := m_outstanding_count s =? 0.

Definition count_requests (p : CacheMsg → bool) (m : request_table) : Z :=
  zsum (λ '(_, r), if p r then 1 else 0) (map_to_list m).

Definition getNumberOutstandingDemand (s : Sequencer) : Z :=
  zsum (count_requests (λ r, bool_decide (getType r ≠ BEGIN_XACT ∧ getType r ≠ COMMIT_XACT ∧
                                          getPrefetch r = No))) (m_readRequestTable s) +
  zsum (count_requests (λ r, bool_decide (getPrefetch r = No))) (m_writeRequestTable s).

Definition getNumberOutstandingPrefetch (s : Sequencer) : Z :=
  zsum (count_requests (λ r, bool_decide (getPrefetch r = Yes))) (m_readRequestTable s) +
  zsum (count_requests (λ r, bool_decide (getPrefetch r = Yes))) (m_writeRequestTable s).

(** The first request for the line in thread order, reads before writes. *)
Definition find_in (lineaddr : Z) (m : request_table) : option CacheMsg :=
  snd ∘ snd <$> list_find (λ kr, line (getAddress kr.2) = lineaddr) (map_to_list m).

Fixpoint isPrefetch_loop (lineaddr : Z) (reads writes : list request_table) : outcome bool :=
  match reads, writes with
  | rm :: reads, wm :: writes =>
      match find_in lineaddr rm, find_in lineaddr wm with
      | Some r, _ => Ret (bool_decide (getPrefetch r = Yes))
      | None, Some r => Ret (bool_decide (getPrefetch r = Yes))
      | None, None => isPrefetch_loop lineaddr reads writes
      end
  | _, _ => Raise AssertFailed
  end.

Definition isPrefetchRequest (lineaddr : Z) (s : Sequencer) : outcome bool :=
  isPrefetch_loop lineaddr (m_readRequestTable s) (m_writeRequestTable s).

(** [getAccessModeOfRequest], [getLogicalAddressOfRequest]: the tables are
    tested for the line and read at the address itself. *)
Definition request_of (addr thread : Z) (s : Sequencer) : outcome CacheMsg :=
  rm ← (m_readRequestTable s).[Z.to_nat thread]!;
  if map_exist (line addr) rm then map_lookup addr rm
  else
    wm ← (m_writeRequestTable s).[Z.to_nat thread]!;
    if map_exist (line addr) wm then map_lookup addr wm else Raise AssertFailed.

Definition getAccessModeOfRequest (addr thread : Z) (s : Sequencer) : outcome AccessModeType :=
  r ← request_of addr thread s; Ret (getAccessMode r).

Definition getLogicalAddressOfRequest (addr thread : Z) (s : Sequencer) : outcome Z :=
  assertb (0 <=? thread) ;; r ← request_of addr thread s; Ret (getLogicalAddress r).

(** The loop of [getRequestThreadID] and [getRequestPhysicalAddress]: how many
    tables hold the address, and the last thread and request found. *)
Definition find_request (addr : Z) (s : Sequencer) : Z * Z * option CacheMsg :=
  foldl (λ '(num_found, thread, found) '(p, (rm, wm)),
      let '(num_found, thread, found) :=
        match (rm : request_table) !! addr with
        | Some r => (num_found + 1, Z.of_nat p, Some r) | None => (num_found, thread, found) end in
      match (wm : request_table) !! addr with
      | Some r => (num_found + 1, Z.of_nat p, Some r) | None => (num_found, thread, found) end)
    (0, -1, None) (imap pair (zip (m_readRequestTable s) (m_writeRequestTable s))).

Definition getRequestThreadID (addr : Z) (s : Sequencer) : outcome Z :=
  let '(num_found, thread, _) := find_request addr s in
  assertb (num_found =? 1) ;; assertb (negb (thread =? -1)) ;; Ret thread.

Definition getRequestPhysicalAddress (lineaddr : Z) (s : Sequencer) : outcome Z :=
  let '(num_found, _, found) := find_request lineaddr s in
  assertb (num_found =? 1) ;; Ret (match found with Some r => getAddress r | None => 0 end).

Definition getRequest (write : bool) (addr thread : Z) (s : Sequencer) : outcome CacheMsg :=
  assertb (0 <=? thread) ;;
  assertb (addr =? line addr) ;;
  m ← (tables write s).[Z.to_nat thread]!;
  map_lookup addr m.

Definition set_time_of (t : Z) (r : CacheMsg) : CacheMsg :=
  mkCacheMsg (getAddress r) (getType r) (getAccessMode r) (getSize r) (getPrefetch r)
    (getLogicalAddress r) (getThreadID r) t.

Definition resetRequestTime (now addr thread : Z) (s : Sequencer) : outcome Sequencer :=
  assertb (0 <=? thread) ;;
  foldM (λ s write,
      m ← (tables write s).[Z.to_nat thread]!;
      if map_exist (line addr) m then
        r ← map_lookup addr m;
        Ret (set_table write (Z.to_nat thread) (<[addr := set_time_of now r]> m) s)
      else Ret s) s [false; true].

(** ** Insertion and removal *)

(** [insertRequest]: whether the line was already in the table, and the delays
    of the [scheduleEvent] calls. *)
Definition insertRequest (request : CacheMsg) (s : Sequencer) : outcome (bool * list Z * Sequencer) :=
  assertb (0 <=? getThreadID request) ;;
  assertb (m_outstanding_count s =? total_outstanding s) ;;
  let calls := if m_deadlock_check_scheduled s then [] else [g_DEADLOCK_THRESHOLD] in
  let s := set_check true s in
  let thread := Z.to_nat (getThreadID request) in
  let write := is_write (getType request) in
  let key := line (getAddress request) in
  m ← (tables write s).[thread]!;
  if map_exist key m then Ret (true, calls, set_table write thread (<[key := request]> m) s)
  else
    let s := set_count (m_outstanding_count s + 1) (set_table write thread (<[key := request]> m) s) in
    assertb (m_outstanding_count s =? total_outstanding s) ;;
    Ret (false, calls, s).

Definition removeRequest (request : CacheMsg) (s : Sequencer) : outcome Sequencer :=
  assertb (0 <=? getThreadID request) ;;
  assertb (m_outstanding_count s =? total_outstanding s) ;;
  let thread := Z.to_nat (getThreadID request) in
  let write := is_write (getType request) in
  m ← (tables write s).[thread]!;
  m ← map_erase (line (getAddress request)) m;
  let s := set_count (m_outstanding_count s - 1) (set_table write thread m s) in
  assertb (m_outstanding_count s =? total_outstanding s) ;;
  Ret s.

Definition removeLoadRequest (addr thread : Z) (s : Sequencer) : outcome Sequencer :=
  r ← getRequest false addr thread s; removeRequest r s.

Definition removeStoreRequest (addr thread : Z) (s : Sequencer) : outcome Sequencer :=
  r ← getRequest true addr thread s; removeRequest r s.

(** ** Acceptance *)

Definition isReady (request : CacheMsg) (s : Sequencer) : bool :=
  negb (g_SEQUENCER_OUTSTANDING_REQUESTS <=? m_outstanding_count s) &&
  negb (existsb (map_exist (line (getAddress request))) (m_writeRequestTable s) ||
        existsb (map_exist (line (getAddress request))) (m_readRequestTable s)).

(** ** Callbacks *)

(** The thread whose request for the line is oldest, the first one on a tie;
    [-1] when there is none. *)
Definition oldest_thread (address : Z) (ms : list request_table) : Z :=
  fst (foldl (λ '(thread, oldest_time) '(t, m),
      match (m : request_table) !! address with
      | Some r => if (thread =? -1) || (msg_time r <? oldest_time) then (Z.of_nat t, msg_time r)
                  else (thread, oldest_time)
      | None => (thread, oldest_time)
      end) (-1, 0) (imap pair ms)).

(** [hitCallback]: the address pushed to the driver, if any.  Without data and
    without TSO all that the block built for the driver does is to check its
    size ([setSize]): merging it from and into the line copies nothing. *)
Definition hitCallback (now : Z) (request : CacheMsg) : outcome (option Z) :=
  assertb (msg_time request <=? now) ;;
  if bool_decide (getPrefetch request = Yes) then Ret None
  else assertb (0 <=? getSize request) ;; Ret (Some (getAddress request)).

(** [readCallback] and [writeCallback] of a line, through their overloads. *)
Definition callback (write : bool) (now address : Z) (s : Sequencer)
    : outcome (option Z * CacheMsg * Sequencer) :=
  let thread := oldest_thread address (tables write s) in
  assertb (negb (thread =? -1)) ;;
  assertb (address =? line address) ;;
  assertb (0 <=? thread) ;;
  m ← (tables write s).[Z.to_nat thread]!;
  assertb (map_exist (line address) m) ;;
  request ← map_lookup address m;
  assertb (getThreadID request =? thread) ;;
  s ← removeRequest request s;
  assertb ((if write then is_write else is_read) (getType request)) ;;
  answer ← hitCallback now request;
  Ret (answer, request, s).

Definition writeCallback := callback true.
Definition readCallback := callback false.

(** ** The hierarchy behind the sequencer

    The L1 caches and the controllers of the protocol, generated by SLICC when
    the simulator is built.  [cycle] is the work of all controllers in a cycle
    and the callbacks (write?, line) they make; [touch] is [setMRU]. *)
Class CacheHierarchy (P : Type) := {
  tryCacheAccess : P → Z → CacheRequestType → bool * P;
  touch : P → CacheRequestType → Z → P;
  mandatory_enqueue : P → CacheMsg → Z → Z → P;
  hier_cycle : P → Z → P * list (bool * Z)
}.

Section requests.
Context `{CacheHierarchy P}.

Definition with_address (a : Z) (r : CacheMsg) : CacheMsg :=
  mkCacheMsg a (getType r) (getAccessMode r) (getSize r) (getPrefetch r)
    (getLogicalAddress r) (getThreadID r) (msg_time r).

Definition issueRequest (now : Z) (request : CacheMsg) (s : Sequencer) (p : P)
    : outcome (list Z * Sequencer * P) :=
  '(found, calls, s) ← insertRequest request s;
  if (found : bool) then Ret (calls, s, p)
  else
    let msg := with_address (line (getAddress request)) request in
    let latency := SEQUENCER_TO_CONTROLLER_LATENCY in
    assertb (0 <? latency) ;;
    Ret (calls, s, mandatory_enqueue p msg latency now).

(** [doRequest]: whether the cache was hit, the answer to the driver, the
    [scheduleEvent] calls. *)
Definition doRequest (now : Z) (request : CacheMsg) (s : Sequencer) (p : P)
    : outcome (bool * option Z * list Z * Sequencer * P) :=
  let '(hit, p) := tryCacheAccess p (line (getAddress request)) (getType request) in
  if hit && (bool_decide (getType request = IFETCH) || negb REMOVE_SINGLE_CYCLE_DCACHE_FAST_PATH) then
    answer ← hitCallback now request;
    Ret (true, answer, [], s, touch p (getType request) (line (getAddress request)))
  else
    '(calls, s, p) ← issueRequest now request s p;
    Ret (hit, None, calls, s, p).

Definition makeRequest (now : Z) (request : CacheMsg) (s : Sequencer) (p : P)
    : outcome (option Z * list Z * Sequencer * P) :=
  '(_, answer, calls, s, p) ← doRequest now request s p;
  Ret (answer, calls, s, p).
End requests.

(** ** The invariant *)

Definition requests_of (ms : list request_table) : list CacheMsg :=
  concat ((λ m : request_table, snd <$> map_to_list m) <$> ms).

Arguments requests_of : simpl never.

(** Everything outstanding. *)
Definition requests (s : Sequencer) : list CacheMsg :=
  requests_of (m_writeRequestTable s) ++ requests_of (m_readRequestTable s).

Definition lineof (r : CacheMsg) : Z := line (getAddress r).

(** An entry of a table is keyed by its line and sits in the right table. *)
Definition entry_ok (write : bool) (ms : list request_table) : Prop :=
  ∀ (t : nat) (m : request_table) k r, ms !! t = Some m → m !! k = Some r →
    k = lineof r ∧ getThreadID r = Z.of_nat t ∧
    (if write then is_write else is_read) (getType r) = true ∧ 0 ≤ getSize r.

Record seq_ok (s : Sequencer) : Prop := {
  so_threads : length (m_readRequestTable s) = length (m_writeRequestTable s);
  so_write : entry_ok true (m_writeRequestTable s);
  so_read : entry_ok false (m_readRequestTable s);
  so_count : m_outstanding_count s = total_outstanding s;
  so_lines : NoDup (lineof <$> requests s)
}.

(** ** The tables as a multiset of requests *)

Lemma requests_of_insert ms t m k r :
  ms !! t = Some m → m !! k = None →
  requests_of (<[t := <[k := r]> m]> ms) ≡ₚ r :: requests_of ms.
Proof.
  intros Ht Hk. unfold requests_of. rewrite list_fmap_insert.
  assert (Hf : ((λ m : request_table, snd <$> map_to_list m) <$> ms) !! t = Some (snd <$> map_to_list m))
    by (by rewrite list_lookup_fmap, Ht).
  apply (Permutation_app_inv_r (snd <$> map_to_list m)). rewrite (concat_insert _ _ _ _ Hf).
  rewrite map_to_list_insert by done. cbn. by rewrite <- Permutation_middle.
Qed.

Lemma requests_of_delete ms t m k r :
  ms !! t = Some m → m !! k = Some r →
  requests_of ms ≡ₚ r :: requests_of (<[t := delete k m]> ms).
Proof.
  intros Ht Hk. rewrite <- (requests_of_insert (<[t:=delete k m]> ms) t (delete k m) k r).
  - rewrite list_insert_insert_eq, insert_delete_id by done. by rewrite list_insert_id.
  - apply list_lookup_insert_eq. by apply lookup_lt_Some in Ht.
  - apply lookup_delete_eq.
Qed.

Lemma elem_requests_of ms r :
  r ∈ requests_of ms ↔ ∃ t m k, ms !! t = Some m ∧ m !! k = Some r.
Proof.
  unfold requests_of. rewrite elem_of_concat_lookup. split.
  - intros (t & l & Hl & Hr). rewrite list_lookup_fmap in Hl.
    apply fmap_Some in Hl as (m & Hm & ->). apply list_elem_of_fmap in Hr as ([k r'] & -> & Hkr).
    apply elem_of_map_to_list in Hkr. by exists t, m, k.
  - intros (t & m & k & Ht & Hk). exists t, (snd <$> map_to_list m).
    rewrite list_lookup_fmap, Ht. split; [done|]. apply list_elem_of_fmap. exists (k, r).
    by rewrite elem_of_map_to_list.
Qed.

Lemma total_requests s : total_outstanding s = Z.of_nat (length (requests s)).
Proof.
  assert (E : ∀ ms, zsum (λ m : request_table, Z.of_nat (size m)) ms = Z.of_nat (length (requests_of ms))).
  { induction ms as [|m ms IH]; [done|]. rewrite zsum_cons, IH. unfold requests_of. cbn.
    rewrite length_app, length_fmap, length_map_to_list. lia. }
  unfold total_outstanding, requests. rewrite !E, length_app. lia.
Qed.

Lemma seq_count s : seq_ok s → m_outstanding_count s = Z.of_nat (length (requests s)).
Proof. intros Hs. rewrite (so_count _ Hs). apply total_requests. Qed.

(** Requests of a kind. *)
Lemma elem_requests s r :
  r ∈ requests s ↔ ∃ (w : bool) t m k, tables w s !! t = Some m ∧ m !! k = Some r.
Proof.
  unfold requests. rewrite elem_of_app, !elem_requests_of. split.
  - intros [(t & m & k & ?)|(t & m & k & ?)]; [exists true|exists false]; by exists t, m, k.
  - intros ([] & t & m & k & ?); [left|right]; by exists t, m, k.
Qed.

Lemma so_entry s w : seq_ok s → entry_ok w (tables w s).
Proof. intros Hs. destruct w; apply Hs. Qed.

Lemma entry_ok_kind write w (ms : list request_table) t m k r :
  entry_ok w ms → ms !! t = Some m → m !! k = Some r → is_write (getType r) = write → w = write.
Proof. intros He Ht Hk Hw. destruct (He t m k r Ht Hk) as (_ & _ & E & _). destruct w; [congruence|]. by destruct (getType r). Qed.

(** ** Insertion *)

Lemma requests_set_insert s w t m k r :
  tables w s !! t = Some m → m !! k = None →
  requests (set_table w t (<[k := r]> m) s) ≡ₚ r :: requests s.
Proof.
  intros Ht Hk. unfold requests, set_table. destruct w; cbn in *.
  - by rewrite (requests_of_insert _ _ _ _ _ Ht Hk).
  - rewrite (requests_of_insert _ _ _ _ _ Ht Hk). by rewrite <- Permutation_middle.
Qed.

Lemma requests_set_delete s w t m k r :
  tables w s !! t = Some m → m !! k = Some r →
  requests s ≡ₚ r :: requests (set_table w t (delete k m) s).
Proof.
  intros Ht Hk. unfold requests, set_table. destruct w; cbn in *.
  - by rewrite (requests_of_delete _ _ _ _ r Ht Hk) at 1.
  - rewrite (requests_of_delete _ _ _ _ r Ht Hk) at 1. by rewrite <- Permutation_middle.
Qed.

Lemma entry_ok_insert w ms t m r :
  entry_ok w ms → ms !! t = Some m → getThreadID r = Z.of_nat t →
  (if w then is_write else is_read) (getType r) = true → 0 ≤ getSize r →
  entry_ok w (<[t := <[lineof r := r]> m]> ms).
Proof.
  intros He Ht Hth Hty Hsz t' m' k' r' Ht' Hk'. destruct (decide (t' = t)) as [->|Hne].
  - rewrite list_lookup_insert_eq in Ht' by (by apply lookup_lt_Some in Ht). injection Ht' as <-.
    apply lookup_insert_Some in Hk' as [[<- <-]|[_ Hk']]; [done|]. by apply (He t m).
  - rewrite list_lookup_insert_ne in Ht' by done. by apply (He t' m').
Qed.

Lemma entry_ok_delete w ms t m k :
  entry_ok w ms → ms !! t = Some m → entry_ok w (<[t := delete k m]> ms).
Proof.
  intros He Ht t' m' k' r' Ht' Hk'. destruct (decide (t' = t)) as [->|Hne].
  - rewrite list_lookup_insert_eq in Ht' by (by apply lookup_lt_Some in Ht). injection Ht' as <-.
    apply lookup_delete_Some in Hk' as [_ Hk']. by apply (He t m).
  - rewrite list_lookup_insert_ne in Ht' by done. by apply (He t' m').
Qed.

(** What a driver request must be: a load or store of an existing thread, of no
    negative size. *)
Definition request_ok (request : CacheMsg) (s : Sequencer) : Prop :=
  0 ≤ getThreadID request < Z.of_nat (length (m_readRequestTable s)) ∧
  (is_write (getType request) = true ∨ is_read (getType request) = true) ∧ 0 ≤ getSize request.

Lemma exist_lines (ms : list request_table) w r :
  entry_ok w ms → existsb (map_exist (lineof r)) ms = false → lineof r ∉ lineof <$> requests_of ms.
Proof.
  intros He Hex Hin. apply list_elem_of_fmap in Hin as (x & El & Hx).
  apply elem_requests_of in Hx as (t & m & k & Ht & Hk). destruct (He t m k x Ht Hk) as (-> & _).
  assert (existsb (map_exist (lineof r)) ms = true); [|congruence].
  apply existsb_exists. exists m. split; [apply list_elem_of_In; by eapply list_elem_of_lookup_2|].
  unfold map_exist. apply bool_decide_eq_true. exists x. by rewrite El.
Qed.

Lemma isReady_lines s request :
  seq_ok s → isReady request s = true →
  m_outstanding_count s < g_SEQUENCER_OUTSTANDING_REQUESTS ∧ lineof request ∉ lineof <$> requests s.
Proof.
  intros Hs. unfold isReady. rewrite andb_true_iff, !negb_true_iff, orb_false_iff, Z.leb_gt.
  intros (Hc & Hw & Hr). split; [done|]. unfold requests. rewrite fmap_app, elem_of_app.
  intros [Hin|Hin]; [by apply (exist_lines _ true request (so_write _ Hs) Hw)
                    |by apply (exist_lines _ false request (so_read _ Hs) Hr)].
Qed.

Lemma insertRequest_ok s request :
  seq_ok s → request_ok request s → isReady request s = true →
  ∃ s', insertRequest request s =
      Ret (false, if m_deadlock_check_scheduled s then [] else [g_DEADLOCK_THRESHOLD], s') ∧
    seq_ok s' ∧ requests s' ≡ₚ request :: requests s ∧ m_deadlock_check_scheduled s' = true ∧
    length (m_readRequestTable s') = length (m_readRequestTable s).
Proof.
  intros Hs (Hth & Hty & Hsz) Hrdy. destruct (isReady_lines s request Hs Hrdy) as [Hcnt Hline].
  pose proof (seq_count s Hs) as Hc. pose proof (so_threads _ Hs) as Hlen.
  unfold insertRequest. rewrite (proj2 (Z.leb_le 0 _)) by lia. cbn [assertb mbind outcome_bind].
  rewrite (so_count _ Hs), Z.eqb_refl. cbn [assertb mbind outcome_bind].
  set (w := is_write (getType request)). set (t := Z.to_nat (getThreadID request)).
  destruct (lookup_lt_is_Some_2 (tables w s) t) as [m Hm]; [unfold t; destruct w; cbn; lia|].
  assert (Hm' : tables w (set_check true s) !! t = Some m) by (by destruct w).
  rewrite (proj2 (at_idx_ret _ _ _) Hm'). cbn [mbind outcome_bind]. fold (lineof request).
  assert (Hnone : m !! lineof request = None).
  { destruct (m !! lineof request) as [r|] eqn:Er; [|done]. exfalso. apply Hline.
    apply list_elem_of_fmap. exists r. destruct (so_entry s w Hs t m _ r Hm Er) as (E & _).
    split; [done|]. apply elem_requests. by exists w, t, m, (lineof request). }
  assert (Hex : map_exist (lineof request) m = false) by (unfold map_exist; by rewrite Hnone).
  rewrite Hex. pose proof (requests_set_insert (set_check true s) w t m (lineof request) request Hm' Hnone) as Hp.
  assert (Hp' : requests (set_count (m_outstanding_count s + 1)
      (set_table w t (<[lineof request:=request]> m) (set_check true s))) ≡ₚ request :: requests s)
    by (unfold requests in *; by destruct w).
  rewrite total_requests.
  assert (Hn : Z.of_nat (length (requests s)) + 1 = Z.of_nat (length (request :: requests s))) by (cbn; lia).
  change (m_outstanding_count (set_check true s)) with (m_outstanding_count s).
  rewrite (Permutation_length Hp'). cbn [m_outstanding_count set_count]. rewrite Hc, Hn, Z.eqb_refl. cbn [assertb mbind outcome_bind].
  rewrite <- Hn, <- Hc. eexists. split; [done|]. split; [|split; [done|]].
  - split.
    + destruct w; cbn; rewrite ?length_insert; done.
    + destruct w eqn:Ew; [|apply Hs]. apply entry_ok_insert; [apply Hs|done|unfold t; lia|done..].
    + destruct w eqn:Ew; [apply Hs|]. apply entry_ok_insert; [apply Hs|done|unfold t; lia| |done].
      destruct Hty as [Hty|]; [|done]. unfold w in Ew. congruence.
    + rewrite total_requests, Hp'. cbn. lia.
    + rewrite Hp'. cbn. apply NoDup_cons. split; [done|apply Hs].
  - split; destruct w; cbn; rewrite ?length_insert; done.
Qed.

(** ** Removal *)

Lemma line_line a : line (line a) = line a.
Proof. unfold line_address, maskLowOrderBits. by rewrite <- Z.land_assoc, Z.land_diag. Qed.

(** Where an outstanding request is. *)
Lemma seq_lookup s r :
  seq_ok s → r ∈ requests s →
  ∃ t m, tables (is_write (getType r)) s !! t = Some m ∧ m !! lineof r = Some r ∧
    getThreadID r = Z.of_nat t ∧ (if is_write (getType r) then is_write else is_read) (getType r) = true.
Proof.
  intros Hs (w & t & m & k & Ht & Hk)%elem_requests.
  destruct (so_entry s w Hs t m k r Ht Hk) as (-> & Hth & Hty & _).
  assert (E : is_write (getType r) = w) by (destruct w; [done|by destruct (getType r)]).
  exists t, m. rewrite E. done.
Qed.

Lemma removeRequest_ok s r :
  seq_ok s → r ∈ requests s →
  ∃ s', removeRequest r s = Ret s' ∧ seq_ok s' ∧ requests s ≡ₚ r :: requests s' ∧
    m_deadlock_check_scheduled s' = m_deadlock_check_scheduled s ∧
    length (m_readRequestTable s') = length (m_readRequestTable s).
Proof.
  intros Hs Hr. destruct (seq_lookup s r Hs Hr) as (t & m & Ht & Hk & Hth & Hty).
  unfold removeRequest. rewrite (proj2 (Z.leb_le 0 _)) by lia. cbn [assertb mbind outcome_bind].
  rewrite (so_count _ Hs), Z.eqb_refl. cbn [assertb mbind outcome_bind].
  rewrite Hth, Nat2Z.id. set (w := is_write (getType r)) in *.
  rewrite (proj2 (at_idx_ret _ _ _) Ht). cbn [mbind outcome_bind]. fold (lineof r).
  unfold map_erase. rewrite Hk. rewrite (bool_decide_eq_true_2 (is_Some (Some r))) by (by eexists).
  cbn [assertb mbind outcome_bind].
  pose proof (requests_set_delete s w t m (lineof r) r Ht Hk) as Hp.
  set (s' := set_count _ _). assert (Hp' : requests s ≡ₚ r :: requests s')
    by (unfold requests in *; by destruct w).
  pose proof (seq_count s Hs) as Hc. rewrite (Permutation_length Hp') in Hc. cbn in Hc.
  rewrite total_requests. replace (m_outstanding_count s') with (m_outstanding_count s - 1)
    by (by rewrite (so_count _ Hs)).
  rewrite (proj2 (Z.eqb_eq _ _)) by lia. cbn [assertb mbind outcome_bind].
  exists s'. split; [done|]. split; [|split; [done|split; unfold s'; destruct w; cbn; by rewrite ?length_insert]].
  split.
  - unfold s'. destruct w; cbn; rewrite ?length_insert; apply Hs.
  - unfold s'. destruct w; cbn; [|apply Hs]. apply entry_ok_delete; [apply Hs|done].
  - unfold s'. destruct w; cbn; [apply Hs|]. apply entry_ok_delete; [apply Hs|done].
  - rewrite total_requests. change (m_outstanding_count s') with (total_outstanding s - 1).
    rewrite total_requests, (Permutation_length Hp'). cbn. lia.
  - pose proof (so_lines _ Hs) as Hnd. rewrite Hp' in Hnd. cbn in Hnd. by apply NoDup_cons in Hnd as [_ Hnd].
Qed.

(** ** The oldest thread *)

Definition holds_oldest (address : Z) (ms : list request_table) (t : nat) (r : CacheMsg) : Prop :=
  (∃ m, ms !! t = Some m ∧ m !! address = Some r) ∧
  ∀ t' (m' : request_table) r', ms !! t' = Some m' → m' !! address = Some r' →
    msg_time r ≤ msg_time r' ∧ ((t' < t)%nat → msg_time r < msg_time r').

Lemma oldest_thread_spec address (ms : list request_table) :
  (oldest_thread address ms = -1 ∧ ∀ t m, ms !! t = Some m → m !! address = None) ∨
  ∃ t r, oldest_thread address ms = Z.of_nat t ∧ holds_oldest address ms t r.
Proof.
  unfold oldest_thread. set (step := λ '(thread, oldest_time) '(t, m), _).
  assert (Hgen : (foldl step (-1, 0) (imap pair ms) = (-1, 0) ∧ ∀ t m, ms !! t = Some m → m !! address = None) ∨
    ∃ t r, foldl step (-1, 0) (imap pair ms) = (Z.of_nat t, msg_time r) ∧ holds_oldest address ms t r).
  { induction ms as [|m ms IH] using rev_ind; [by left|].
    rewrite imap_app, foldl_app. cbn [imap foldl]. rewrite Nat.add_0_r.
    assert (Hsnoc : ∀ t m', (ms ++ [m]) !! t = Some m' ↔ ms !! t = Some m' ∨ t = length ms ∧ m' = m).
    { intros t m'. rewrite lookup_snoc_Some. split; [intros [[_ ?]|[-> ->]]; auto|].
      intros [Ht|[-> ->]]; [left; split; [by apply lookup_lt_Some in Ht|done]|by right]. }
    destruct IH as [[-> Hno]|(t & r & -> & (m0 & Hm0 & Hr) & Hold)]; cbn [step];
      destruct (m !! address) as [x|] eqn:Ex.
    - right. exists (length ms), x. split; [done|]. split; [exists m; rewrite Hsnoc; auto|].
      intros t' m' r' [Ht'|[-> ->]]%Hsnoc Hr'; [by rewrite (Hno _ _ Ht') in Hr'|].
      rewrite Ex in Hr'. injection Hr' as <-. split; [done|lia].
    - left. split; [done|]. intros t m' [Ht|[-> ->]]%Hsnoc; [by eapply Hno|done].
    - rewrite (proj2 (Z.eqb_neq _ _)) by lia. cbn [orb]. right.
      destruct (Z.ltb_spec (msg_time x) (msg_time r)) as [Hlt|Hge].
      + exists (length ms), x. split; [done|]. split; [exists m; rewrite Hsnoc; auto|].
        intros t' m' r' [Ht'|[-> ->]]%Hsnoc Hr'.
        * destruct (Hold t' m' r' Ht' Hr'). split; lia.
        * rewrite Ex in Hr'. injection Hr' as <-. split; [done|lia].
      + exists t, r. split; [done|]. split; [exists m0; rewrite Hsnoc; auto|].
        intros t' m' r' [Ht'|[-> ->]]%Hsnoc Hr'; [by eapply Hold|].
        rewrite Ex in Hr'. injection Hr' as <-. apply lookup_lt_Some in Hm0. split; [done|lia].
    - right. exists t, r. split; [done|]. split; [exists m0; rewrite Hsnoc; auto|].
      intros t' m' r' [Ht'|[-> ->]]%Hsnoc Hr'; [by eapply Hold|congruence]. }
  destruct Hgen as [[-> Hno]|(t & r & -> & Hold)]; [by left|right]. by exists t, r.
Qed.

(** ** Callbacks *)

Definition answer_of (r : CacheMsg) : option Z :=
  if bool_decide (getPrefetch r = Yes) then None else Some (getAddress r).

(** A callback for a line serves its oldest request of the kind. *)
Lemma callback_oldest write now address s t r :
  seq_ok s → holds_oldest address (tables write s) t r → address = line address → msg_time r ≤ now →
  ∃ s', callback write now address s = Ret (answer_of r, r, s') ∧ seq_ok s' ∧
    requests s ≡ₚ r :: requests s' ∧ m_deadlock_check_scheduled s' = m_deadlock_check_scheduled s ∧
    length (m_readRequestTable s') = length (m_readRequestTable s).
Proof.
  intros Hs Hold Hal Hnow. pose proof Hold as [(m & Hm & Hr) Hmin].
  assert (Eth : oldest_thread address (tables write s) = Z.of_nat t).
  { destruct (oldest_thread_spec address (tables write s)) as [[_ Hno]|(t' & r' & -> & (m' & Hm' & Hr') & Hmin')].
    - by rewrite (Hno _ _ Hm) in Hr.
    - f_equal. destruct (Hmin t' m' r' Hm' Hr') as [H1 H2], (Hmin' t m r Hm Hr) as [H3 H4].
      destruct (lt_eq_lt_dec t t') as [[Hlt|]|Hlt]; [specialize (H4 Hlt); lia|done|specialize (H2 Hlt); lia]. }
  destruct (so_entry s write Hs t m _ r Hm Hr) as (Ek & Hth & Hty & Hsz).
  assert (Hin : r ∈ requests s) by (apply elem_requests; by exists write, t, m, address).
  destruct (removeRequest_ok s r Hs Hin) as (s' & Erem & Hs' & Hp & Hc & Hl).
  unfold callback. rewrite Eth, (proj2 (Z.eqb_neq (Z.of_nat t) (-1))) by lia. cbn [negb assertb mbind outcome_bind].
  rewrite <- Hal, Z.eqb_refl, (proj2 (Z.leb_le 0 (Z.of_nat t))), Nat2Z.id by lia. cbn [assertb mbind outcome_bind].
  rewrite (proj2 (at_idx_ret _ _ _) Hm). cbn [mbind outcome_bind]. unfold map_exist, map_lookup. rewrite Hr.
  rewrite (bool_decide_eq_true_2 (is_Some (Some r))) by (by eexists). cbn [assertb mbind outcome_bind].
  rewrite Hth, Z.eqb_refl. cbn [assertb mbind outcome_bind]. rewrite Erem. cbn [mbind outcome_bind].
  replace ((if write then is_write else is_read) (getType r)) with true. cbn [assertb mbind outcome_bind].
  exists s'. split; [|done]. unfold hitCallback. rewrite (proj2 (Z.leb_le (msg_time r) _)) by done.
  cbn [assertb mbind outcome_bind]. rewrite (proj2 (Z.leb_le 0 (getSize r))) by done. unfold answer_of. by case_bool_decide.
Qed.

(** With one request per line it is the request. *)
Lemma callback_ok now s r :
  seq_ok s → r ∈ requests s → msg_time r ≤ now →
  ∃ s', callback (is_write (getType r)) now (lineof r) s = Ret (answer_of r, r, s') ∧ seq_ok s' ∧
    requests s ≡ₚ r :: requests s' ∧ m_deadlock_check_scheduled s' = m_deadlock_check_scheduled s ∧
    length (m_readRequestTable s') = length (m_readRequestTable s).
Proof.
  intros Hs Hr Hnow. destruct (seq_lookup s r Hs Hr) as (t & m & Ht & Hk & Hth & Hty).
  apply (callback_oldest _ _ _ _ t); [done| |by unfold lineof; rewrite line_line|done].
  split; [by exists m|]. intros t' m' r' Ht' Hr'.
  assert (Hin' : r' ∈ requests s) by (apply elem_requests; by eexists _, t', m', _).
  destruct (so_entry s _ Hs t' m' _ r' Ht' Hr') as (Ek & Hth' & _).
  assert (r = r') as <-.
  { apply (NoDup_map_inj lineof (requests s)); [apply Hs|done|done|done]. }
  split; [done|]. lia.
Qed.

(** ** The deadlock check passes while no request is too old *)

Lemma wakeup_ok now s :
  seq_ok s → (∀ r, r ∈ requests s → now - msg_time r < g_DEADLOCK_THRESHOLD) →
  ∃ s' calls, wakeup now s = Ret (s', calls) ∧ seq_ok s' ∧ requests s' = requests s ∧
    length (m_readRequestTable s') = length (m_readRequestTable s) ∧
    (calls = [] ∧ requests s = [] ∧ m_deadlock_check_scheduled s' = false ∨
     calls = [g_DEADLOCK_THRESHOLD] ∧ requests s ≠ [] ∧ s' = s).
Proof.
  intros Hs Hage.
  assert (Hold : ∀ w, existsb (too_old now) (tables w s) = false).
  { intros w. apply not_true_iff_false. rewrite existsb_exists. intros (m & Hm & Ho).
    apply list_elem_of_In, list_elem_of_lookup in Hm as [t Ht].
    apply existsb_exists in Ho as ([k r] & Hkr & Hle). apply Z.leb_le in Hle.
    apply list_elem_of_In, elem_of_map_to_list in Hkr.
    assert (Hin : r ∈ requests s) by (apply elem_requests; by exists w, t, m, k). specialize (Hage r Hin). lia. }
  pose proof (Hold false) as Hr. pose proof (Hold true) as Hw. cbn [tables] in Hr, Hw.
  unfold wakeup. rewrite Hr, Hw. cbn [negb andb assertb mbind outcome_bind].
  rewrite (so_count _ Hs), Z.eqb_refl. cbn [assertb mbind outcome_bind]. rewrite total_requests.
  destruct (Z.ltb_spec 0 (Z.of_nat (length (requests s)))) as [Hpos|Hz].
  - exists s, [g_DEADLOCK_THRESHOLD]. split_and!; [done..|]. right. split_and!; [done| |done].
    intros E. rewrite E in Hpos. cbn in Hpos. lia.
  - eexists _, []. split; [done|]. split; [by destruct Hs; split|]. split_and!; [done..|].
    left. split_and!; [done| |done]. destruct (requests s); [done|cbn in Hz; lia].
Qed.

Lemma wakeup_calls now s s' calls : wakeup now s = Ret (s', calls) → Forall (λ d, 0 < d) calls.
Proof.
  unfold wakeup. intros H. unbind H. destruct (0 <? _); injection H as <- <-; repeat constructor.
Qed.
