(* ===== verification/CacheMemory.v ===== *)
(** * The cache arrays

    [CacheMemory.h] with the set mapping of [RubySlicc_ComponentMapping.h]: a
    set-associative array of entries, with the replacement policy behind the
    interface of [Replacement].  An entry is its address, its permission and
    [D], the fields the protocol adds.  Left out: printing, and the access to
    the data bytes, which the configuration switches off ([DATA_BLOCK]). *)

From S2P Require Import Prelude Address Sequencer Replacement.
Local Open Scope Z_scope.

Inductive AccessPermission :=
  | Busy | Read_Only | Read_Write | Invalid | NotPresent | OnHold | ReadUpgradingToWrite | Stale.

#[export] Instance AccessPermission_dec : EqDecision AccessPermission.
Proof. solve_decision. Defined.

Inductive MachineType := L1Cache | L2Cache | OtherMachine.

(** ** Sets of addresses *)

Section geometry.
(** [L2CachePerChipBits], [MAP_L2BANKS_TO_LOWEST_BITS] and
    [L2_CACHE_NUM_SETS_BITS] of the configuration. *)
Variables (l2_bank_bits : Z) (low_bits : bool) (L2_CACHE_NUM_SETS_BITS : Z).

Definition map_address_to_L1CacheSet (a cache_num_set_bits : Z) : outcome Z :=
  i ← bitSelect DATA_BLOCK_BITS (DATA_BLOCK_BITS + cache_num_set_bits - 1) a; Ret (i32 i).

Definition map_address_to_L2CacheSet (a cache_num_set_bits : Z) : outcome Z :=
  assertb (cache_num_set_bits =? L2_CACHE_NUM_SETS_BITS) ;;
  let low := if low_bits then DATA_BLOCK_BITS + l2_bank_bits else DATA_BLOCK_BITS in
  i ← bitSelect low (low + cache_num_set_bits - 1) a; Ret (i32 i).

Section cache.
Context `{ReplacementPolicy T} {D : Type} (d0 : D).

Record Entry := mkEntry { m_Address : Z; m_Permission : AccessPermission; m_rest : D }.

Record CacheMemory := mkCache {
  m_machType : MachineType;
  m_cache_num_set_bits : Z;
  m_cache_num_sets : Z;
  m_cache_assoc : nat;
  m_is_instruction_cache : bool;
  m_cache : list (list Entry);
  m_replacementPolicy : T
}.

Definition new_CacheMemory (policy : nat → nat → T) (machType : MachineType) (numSetBits : Z) (cacheAssoc : nat) : CacheMemory :=
  let sets := Z.shiftl 1 numSetBits in
  mkCache machType numSetBits sets cacheAssoc false
    (replicate (Z.to_nat sets) (replicate cacheAssoc (mkEntry 0 NotPresent d0)))
    (policy (Z.to_nat sets) cacheAssoc).

Implicit Types (c : CacheMemory) (e : Entry).

Definition set_cache (m : list (list Entry)) c : CacheMemory :=
  mkCache (m_machType c) (m_cache_num_set_bits c) (m_cache_num_sets c) (m_cache_assoc c)
    (m_is_instruction_cache c) m (m_replacementPolicy c).

Definition set_policy (p : T) c : CacheMemory :=
  mkCache (m_machType c) (m_cache_num_set_bits c) (m_cache_num_sets c) (m_cache_assoc c)
    (m_is_instruction_cache c) (m_cache c) p.

Definition addressToCacheSet (a : Z) c : outcome Z :=
  assertb (a =? line a) ;;
  temp ← match m_machType c with
         | L1Cache => map_address_to_L1CacheSet a (m_cache_num_set_bits c)
         | L2Cache => map_address_to_L2CacheSet a (m_cache_num_set_bits c)
         | OtherMachine => Raise AssertFailed
         end;
  assertb (temp <? m_cache_num_sets c) ;;
  assertb (0 <=? temp) ;;
  Ret temp.

(** First way from [i] on whose entry satisfies the test; -1 for none. *)
Fixpoint find_way (p : Entry → bool) (ways : list Entry) (i : Z) : Z :=
  match ways with
  | [] => -1
  | e :: ways => if p e then i else find_way p ways (i + 1)
  end.

Definition tag_match (tag : Z) e : bool :=
  (m_Address e =? tag) && negb (bool_decide (m_Permission e = NotPresent)).

Definition findTagInSet (cacheSet tag : Z) c : outcome Z :=
  assertb (tag =? line tag) ;;
  ways ← (m_cache c).[Z.to_nat cacheSet]!;
  Ret (find_way (tag_match tag) ways 0).

Definition findTagInSetIgnorePermissions (cacheSet tag : Z) c : outcome Z :=
  assertb (tag =? line tag) ;;
  ways ← (m_cache c).[Z.to_nat cacheSet]!;
  Ret (find_way (λ e, m_Address e =? tag) ways 0).

Definition entry_at (cacheSet loc : Z) c : outcome Entry :=
  ways ← (m_cache c).[Z.to_nat cacheSet]!; ways.[Z.to_nat loc]!.

Definition set_entry (cacheSet loc : Z) e c : CacheMemory :=
  set_cache (alter (λ ways, <[Z.to_nat loc := e]> ways) (Z.to_nat cacheSet) (m_cache c)) c.

Definition touch_way (now cacheSet loc : Z) c : outcome CacheMemory :=
  p ← touch cacheSet loc now (m_replacementPolicy c); Ret (set_policy p c).

(** The access granted by a permission, to a kind of request. *)
Definition accessible (type : CacheRequestType) (perm : AccessPermission) : bool :=
  bool_decide (perm = Read_Write) ||
  (bool_decide (perm = Read_Only) && (bool_decide (type = LD) || bool_decide (type = IFETCH))).

(** Whether the access hits, and the data pointer. *)
Definition tryCacheAccess (now a : Z) (type : CacheRequestType) c : outcome (bool * option D * CacheMemory) :=
  assertb (a =? line a) ;;
  cacheSet ← addressToCacheSet a c;
  loc ← findTagInSet cacheSet a c;
  if loc =? -1 then Ret (false, None, c)
  else
    e ← entry_at cacheSet loc c;
    c ← touch_way now cacheSet loc c;
    if accessible type (m_Permission e) then Ret (true, Some (m_rest e), c) else Ret (false, None, c).

Definition tryAccCacheAccess (a : Z) c : outcome bool :=
  assertb (a =? line a) ;;
  cacheSet ← addressToCacheSet a c;
  loc ← findTagInSet cacheSet a c;
  if loc =? -1 then Ret false
  else
    e ← entry_at cacheSet loc c;
    Ret (bool_decide (m_Permission e ∈ [Read_Only; Read_Write; Stale])).

Definition testCacheAccess (now a : Z) c : outcome (bool * option D * CacheMemory) :=
  assertb (a =? line a) ;;
  cacheSet ← addressToCacheSet a c;
  loc ← findTagInSet cacheSet a c;
  if loc =? -1 then Ret (false, None, c)
  else
    e ← entry_at cacheSet loc c;
    c ← touch_way now cacheSet loc c;
    Ret (negb (bool_decide (m_Permission e = NotPresent)), Some (m_rest e), c).

Definition isTagPresent (a : Z) c : outcome bool :=
  assertb (a =? line a) ;;
  cacheSet ← addressToCacheSet a c;
  location ← findTagInSet cacheSet a c;
  Ret (negb (location =? -1)).

Definition cacheAvail (a : Z) c : outcome bool :=
  assertb (a =? line a) ;;
  cacheSet ← addressToCacheSet a c;
  ways ← (m_cache c).[Z.to_nat cacheSet]!;
  Ret (existsb (λ e, (m_Address e =? a) || bool_decide (m_Permission e = NotPresent)) ways).

(** The first open slot of the set. *)
Definition allocate (now a : Z) c : outcome CacheMemory :=
  assertb (a =? line a) ;;
  present ← isTagPresent a c; assertb (negb present) ;;
  avail ← cacheAvail a c; assertb avail ;;
  cacheSet ← addressToCacheSet a c;
  ways ← (m_cache c).[Z.to_nat cacheSet]!;
  let i := find_way (λ e, bool_decide (m_Permission e = NotPresent)) ways 0 in
  if i =? -1 then Raise AssertFailed
  else touch_way now cacheSet i (set_entry cacheSet i (mkEntry a Invalid d0) c).

(** [lookup] as a position, the entry being a reference. *)
Definition lookup_pos (a : Z) c : outcome (Z * Z) :=
  assertb (a =? line a) ;;
  cacheSet ← addressToCacheSet a c;
  loc ← findTagInSet cacheSet a c;
  assertb (negb (loc =? -1)) ;;
  Ret (cacheSet, loc).

Definition lookup (a : Z) c : outcome Entry :=
  '(cacheSet, loc) ← lookup_pos a c; entry_at cacheSet loc c.

Definition set_permission (a : Z) (perm : AccessPermission) c : outcome CacheMemory :=
  '(cacheSet, loc) ← lookup_pos a c;
  e ← entry_at cacheSet loc c;
  Ret (set_entry cacheSet loc (mkEntry (m_Address e) perm (m_rest e)) c).

Definition deallocate (a : Z) c : outcome CacheMemory :=
  assertb (a =? line a) ;;
  present ← isTagPresent a c; assertb present ;;
  set_permission a NotPresent c.

Definition cacheProbe (a : Z) c : outcome Z :=
  assertb (a =? line a) ;;
  avail ← cacheAvail a c; assertb (negb avail) ;;
  cacheSet ← addressToCacheSet a c;
  victim ← getVictim cacheSet (m_replacementPolicy c);
  e ← entry_at cacheSet victim c;
  Ret (m_Address e).

Definition getPermission (a : Z) c : outcome AccessPermission :=
  assertb (a =? line a) ;;
  e ← lookup a c; Ret (m_Permission e).

Definition changePermission (a : Z) (new_perm : AccessPermission) c : outcome CacheMemory :=
  assertb (a =? line a) ;;
  c ← set_permission a new_perm c;
  perm ← getPermission a c;
  assertb (bool_decide (perm = new_perm)) ;;
  Ret c.

Definition setMRU (now a : Z) c : outcome CacheMemory :=
  cacheSet ← addressToCacheSet a c;
  loc ← findTagInSet cacheSet a c;
  touch_way now cacheSet loc c.

(** The records of [recordCacheContents]: address, request type, last access. *)
Definition record_type c (perm : AccessPermission) : option CacheRequestType :=
  match perm with
  | Read_Only => Some (if m_is_instruction_cache c then IFETCH else LD)
  | Read_Write => Some ST
  | _ => None
  end.

Definition recordCacheContents c : outcome (list (Z * CacheRequestType * Z)) :=
  foldM (λ recs '(i, ways),
    foldM (λ recs '(j, e),
        match record_type c (m_Permission e) with
        | Some ty =>
            t ← getLastAccess (Z.of_nat i) (Z.of_nat j) (m_replacementPolicy c);
            Ret (recs ++ [(m_Address e, ty, t)])
        | None => Ret recs
        end) recs (imap pair ways))
    [] (imap pair (m_cache c)).

(** ** The invariant

    A present entry holds a line address of its set, and no two present entries
    of a set hold the same line. *)
Section spec.
Variables sets assoc : nat.
Context {laws : PolicyLaws T sets assoc}.

Definition line_addr (a : Z) : Prop := 0 ≤ a < 2 ^ 64 ∧ a = line a.

Record cache_ok c : Prop := {
  ck_bits : 1 ≤ m_cache_num_set_bits c ≤ 30;
  ck_sets : m_cache_num_sets c = 2 ^ m_cache_num_set_bits c ∧ sets = Z.to_nat (m_cache_num_sets c);
  ck_type : m_machType c = L1Cache ∨
    m_machType c = L2Cache ∧ m_cache_num_set_bits c = L2_CACHE_NUM_SETS_BITS ∧ 0 ≤ l2_bank_bits ≤ 20;
  ck_shape : length (m_cache c) = sets ∧ ∀ ways, ways ∈ m_cache c → length ways = assoc;
  ck_policy : policy_ok (m_replacementPolicy c);
  ck_lines : ∀ s ways e, m_cache c !! s = Some ways → e ∈ ways → m_Permission e ≠ NotPresent →
    line_addr (m_Address e) ∧ addressToCacheSet (m_Address e) c = Ret (Z.of_nat s);
  ck_once : ∀ s ways i j e1 e2, m_cache c !! s = Some ways → ways !! i = Some e1 → ways !! j = Some e2 →
    tag_match (m_Address e2) e1 = true → m_Permission e2 ≠ NotPresent → i = j
}.

(** The entry that holds a line: what the array means. *)
Definition cached c (a : Z) : option Entry :=
  match addressToCacheSet a c with
  | Ret s => ways ← m_cache c !! Z.to_nat s; snd <$> list_find (λ e, tag_match a e = true) ways
  | Raise _ => None
  end.

Lemma tag_match_true a e : tag_match a e = true ↔ m_Address e = a ∧ m_Permission e ≠ NotPresent.
Proof. unfold tag_match. rewrite andb_true_iff, Z.eqb_eq, negb_true_iff, bool_decide_eq_false. done. Qed.

Lemma find_way_spec p ways : ∀ i, 0 ≤ i →
  find_way p ways i = -1 ∧ (∀ e, e ∈ ways → p e = false) ∨
  ∃ k e, find_way p ways i = i + Z.of_nat k ∧ ways !! k = Some e ∧ p e = true.
Proof.
  induction ways as [|e ways IH]; intros i Hi; cbn [find_way]; [left; split; [done|by intros ? ?%not_elem_of_nil]|].
  destruct (p e) eqn:E.
  - right. exists 0%nat, e. split; [lia|done].
  - destruct (IH (i + 1) ltac:(lia)) as [[H1 H2]|(k & x & H1 & H2 & H3)].
    + left. split; [done|]. intros y [->|Hy]%elem_of_cons; auto.
    + right. exists (S k), x. split; [lia|done].
Qed.

(** *** Every line has a set *)

Lemma L1_set a bits :
  0 ≤ a < 2 ^ 64 → 1 ≤ bits ≤ 30 →
  ∃ s, map_address_to_L1CacheSet a bits = Ret s ∧ 0 ≤ s < 2 ^ bits.
Proof.
  intros Ha Hb. unfold map_address_to_L1CacheSet, DATA_BLOCK_BITS.
  rewrite bitSelect_spec by lia. cbn [mbind outcome_bind]. eexists. split; [done|].
  replace (6 + bits - 1 - 6 + 1) with bits by lia.
  assert (0 < 2 ^ bits) by (apply Z.pow_pos_nonneg; lia).
  pose proof (Z.mod_pos_bound (a / 2 ^ 6) (2 ^ bits) ltac:(done)).
  assert (2 ^ bits ≤ 2 ^ 30) by (apply Z.pow_le_mono_r; lia). rewrite i32_id; lia.
Qed.

Lemma L2_set a bits :
  0 ≤ a < 2 ^ 64 → 1 ≤ bits ≤ 30 → bits = L2_CACHE_NUM_SETS_BITS → 0 ≤ l2_bank_bits ≤ 20 →
  ∃ s, map_address_to_L2CacheSet a bits = Ret s ∧ 0 ≤ s < 2 ^ bits.
Proof.
  intros Ha Hb E Hl. unfold map_address_to_L2CacheSet, DATA_BLOCK_BITS. rewrite (proj2 (Z.eqb_eq _ _) E).
  cbn [assertb mbind outcome_bind]. set (low := if low_bits then _ else _).
  assert (6 ≤ low ≤ 26) by (unfold low; destruct low_bits; lia).
  rewrite bitSelect_spec by lia. cbn [mbind outcome_bind]. eexists. split; [done|].
  replace (low + bits - 1 - low + 1) with bits by lia.
  assert (0 < 2 ^ bits) by (apply Z.pow_pos_nonneg; lia).
  pose proof (Z.mod_pos_bound (a / 2 ^ low) (2 ^ bits) ltac:(done)).
  assert (2 ^ bits ≤ 2 ^ 30) by (apply Z.pow_le_mono_r; lia). rewrite i32_id; lia.
Qed.

Lemma set_index c a :
  cache_ok c → line_addr a → ∃ s, addressToCacheSet a c = Ret s ∧ 0 ≤ s < Z.of_nat sets.
Proof.
  intros [Hb [Hs Hn] Hty _ _ _ _] [Ha Hl]. unfold addressToCacheSet.
  rewrite <- Hl, Z.eqb_refl. cbn [assertb mbind outcome_bind].
  assert (∃ s, match m_machType c with
         | L1Cache => map_address_to_L1CacheSet a (m_cache_num_set_bits c)
         | L2Cache => map_address_to_L2CacheSet a (m_cache_num_set_bits c)
         | OtherMachine => Raise AssertFailed
         end = Ret s ∧ 0 ≤ s < 2 ^ m_cache_num_set_bits c) as (s & -> & Hr).
  { destruct Hty as [->|(-> & Hbits & Hl2)]; [by apply L1_set|by apply L2_set]. }
  cbn [mbind outcome_bind]. rewrite Hs. rewrite (proj2 (Z.ltb_lt s _)), (proj2 (Z.leb_le 0 s)) by lia.
  exists s. split; [done|]. lia.
Qed.

(** A line is found where its entry is, or nowhere. *)
Lemma locate c a :
  cache_ok c → line_addr a →
  ∃ s ways, addressToCacheSet a c = Ret s ∧ 0 ≤ s < Z.of_nat sets ∧ m_cache c !! Z.to_nat s = Some ways ∧
    length ways = assoc ∧
    (cached c a = None ∧ findTagInSet s a c = Ret (-1) ∧ (∀ e, e ∈ ways → tag_match a e = false) ∨
     ∃ k e, cached c a = Some e ∧ findTagInSet s a c = Ret (Z.of_nat k) ∧ ways !! k = Some e ∧
       tag_match a e = true).
Proof.
  intros Hok Hl. destruct (set_index c a Hok Hl) as (s & Es & Hs). destruct (ck_shape c Hok) as [Hlen Hways].
  destruct (lookup_lt_is_Some_2 (m_cache c) (Z.to_nat s)) as [ways Hw]; [lia|].
  exists s, ways. split; [done|]. split; [done|]. split; [done|].
  split; [by eapply Hways, list_elem_of_lookup_2|].
  unfold findTagInSet. rewrite (proj2 (Z.eqb_eq a (line a)) (proj2 Hl)). cbn [assertb mbind outcome_bind].
  rewrite (at_idx_Some _ _ _ Hw). cbn [mbind outcome_bind]. unfold cached. rewrite Es, Hw. cbn [mbind option_bind].
  destruct (find_way_spec (tag_match a) ways 0 ltac:(lia)) as [[-> Hno]|(k & e & -> & Hk & Hm)].
  - left. split; [|done]. apply fmap_None, list_find_None, Forall_forall. intros e He. rewrite (Hno e He). done.
  - right. exists k, e. rewrite Z.add_0_l. split; [|done].
    destruct (list_find_elem_of (λ e, tag_match a e = true) ways e) as [[j x] Hf];
      [by eapply list_elem_of_lookup_2|done|].
    rewrite Hf. cbn. apply list_find_Some in Hf as (Hj & Hmx & _). apply tag_match_true in Hm as [Ha Hp].
    rewrite <- Ha in Hmx. rewrite (ck_once c Hok _ _ j k x e Hw Hj Hk Hmx Hp) in Hj. by simplify_eq.
Qed.

Lemma cached_Some c a e :
  cache_ok c → line_addr a →
  cached c a = Some e ↔ ∃ s ways k, addressToCacheSet a c = Ret s ∧ m_cache c !! Z.to_nat s = Some ways ∧
    ways !! k = Some e ∧ tag_match a e = true.
Proof.
  intros Hok Hl. destruct (locate c a Hok Hl) as (s & ways & Es & _ & Hw & _ & Hloc). split.
  - intros Hc. destruct Hloc as [[? _]|(k & x & Hx & _ & Hk & Hm)]; [congruence|]. rewrite Hc in Hx.
    injection Hx as <-. by exists s, ways, k.
  - intros (s' & ways' & k & Es' & Hw' & Hk & Hm). rewrite Es in Es'. injection Es' as <-. simplify_eq.
    destruct Hloc as [(_ & _ & Hno)|(j & x & Hx & _ & Hj & Hmx)].
    + by rewrite (Hno e (list_elem_of_lookup_2 _ _ _ Hk)) in Hm.
    + apply tag_match_true in Hmx as [<- Hp].
      rewrite (ck_once c Hok _ _ k j e x Hw Hk Hj Hm Hp) in Hk. by simplify_eq.
Qed.

(** The effect of writing one way. *)
Lemma alter_lookup {A} (f : A → A) i (l : list A) j x :
  alter f i l !! j = Some x → ∃ y, l !! j = Some y ∧ x = (if decide (i = j) then f y else y).
Proof.
  rewrite list_lookup_alter. destruct (decide (i = j)) as [->|]; [|by eauto].
  destruct (l !! j); [|done]. intros [= <-]. by eauto.
Qed.

Lemma way_lookup {A} k (e' : A) ways j x :
  <[k := e']> ways !! j = Some x → (j = k ∧ x = e' ∧ (k < length ways)%nat) ∨ (j ≠ k ∧ ways !! j = Some x).
Proof. intros [(<- & <- & Hk)|[Hne Hx]]%list_lookup_insert_Some; [by left|by right]. Qed.

Section write.
Variables (c : CacheMemory) (s : Z) (k : nat) (ways : list Entry) (e e' : Entry).
Hypotheses (Hok : cache_ok c) (Hs : 0 ≤ s) (Hw : m_cache c !! Z.to_nat s = Some ways) (Hk : ways !! k = Some e).
Hypothesis Hnew : m_Permission e' ≠ NotPresent →
  line_addr (m_Address e') ∧ addressToCacheSet (m_Address e') c = Ret s ∧
  ∀ j x, j ≠ k → ways !! j = Some x → tag_match (m_Address e') x = false.

Let c' := set_entry s (Z.of_nat k) e' c.

Lemma written_row j w :
  m_cache c' !! j = Some w →
  ∃ w0, m_cache c !! j = Some w0 ∧ w = (if decide (Z.to_nat s = j) then <[k := e']> w0 else w0).
Proof. intros H'. apply alter_lookup in H'. by rewrite Nat2Z.id in H'. Qed.

Lemma set_entry_ok : cache_ok c'.
Proof.
  destruct Hok as [K1 K2 K3 [K4 K4'] K5 K6 K7]. split; [done|done|done| |done| |].
  - split; [cbn; by rewrite length_alter|]. intros w (j & Hj)%list_elem_of_lookup.
    apply written_row in Hj as (w0 & Hj & ->). case_decide; rewrite ?length_insert; by eapply K4', list_elem_of_lookup_2.
  - intros j w x Hj Hx Hp. apply written_row in Hj as (w0 & Hj & ->).
    change (addressToCacheSet (m_Address x) c') with (addressToCacheSet (m_Address x) c).
    case_decide as E; [|by eapply K6]. apply list_elem_of_lookup in Hx as (i & Hi).
    apply way_lookup in Hi as [(-> & -> & _)|[_ Hi]]; [|by eapply K6, Hp; [exact Hj|eapply list_elem_of_lookup_2]].
    destruct (Hnew Hp) as (N1 & N2 & _). split; [done|]. rewrite N2. f_equal. lia.
  - intros q w i j x y Hq Hi Hj Hm Hp. apply written_row in Hq as (w0 & Hq & ->).
    case_decide as E; [|by eapply K7]. subst q. simplify_eq.
    apply way_lookup in Hi as [(-> & -> & _)|[Hi0 Hi]]; apply way_lookup in Hj as [(-> & -> & _)|[Hj0 Hj]].
    + done.
    + apply tag_match_true in Hm as [Ha Hpe]. destruct (Hnew Hpe) as (_ & _ & N3).
      specialize (N3 j y Hj0 Hj). rewrite Ha in N3. rewrite (proj2 (tag_match_true _ _) (conj eq_refl Hp)) in N3. done.
    + destruct (Hnew Hp) as (_ & _ & N3). by rewrite (N3 i x Hi0 Hi) in Hm.
    + by eapply K7.
Qed.

Lemma set_entry_cached b :
  line_addr b → cached c' b = (if tag_match b e' then Some e' else if tag_match b e then None else cached c b).
Proof.
  intros Hb. apply option_eq. intros x. rewrite (cached_Some c' b x set_entry_ok Hb).
  change (addressToCacheSet b c') with (addressToCacheSet b c).
  assert (Hrow : m_cache c' !! Z.to_nat s = Some (<[k := e']> ways)).
  { cbn. rewrite list_lookup_alter_eq, Hw, Nat2Z.id. done. }
  assert (Hlt : (k < length ways)%nat) by by eapply lookup_lt_Some.
  assert (Hin : tag_match b e = true → addressToCacheSet b c = Ret s).
  { intros [<- Hp]%tag_match_true. destruct (ck_lines c Hok _ _ e Hw (list_elem_of_lookup_2 _ _ _ Hk) Hp) as [_ ->].
    f_equal. lia. }
  destruct (tag_match b e') eqn:E'; [|destruct (tag_match b e) eqn:E].
  - pose proof E' as [Ha' Hp']%tag_match_true. destruct (Hnew Hp') as (_ & N2 & N3). rewrite Ha' in N2, N3.
    split.
    + intros (s0 & w & j & Es & Hwj & Hj & Hm). rewrite N2 in Es. injection Es as <-.
      rewrite Hrow in Hwj. injection Hwj as <-. apply way_lookup in Hj as [(_ & -> & _)|[Hne Hj]]; [done|].
      by rewrite (N3 j x Hne Hj) in Hm.
    + intros [= <-]. exists s, (<[k := e']> ways), k. split; [done|]. split; [done|]. split; [|done].
      by apply list_lookup_insert_eq.
  - split; [|done]. intros (s0 & w & j & Es & Hwj & Hj & Hm). rewrite (Hin eq_refl) in Es. injection Es as <-.
    rewrite Hrow in Hwj. injection Hwj as <-. apply way_lookup in Hj as [(_ & -> & _)|[Hne Hj]]; [congruence|].
    pose proof E as [<- Hp]%tag_match_true. exfalso. apply Hne. by eapply (ck_once c Hok).
  - rewrite (cached_Some c b x Hok Hb). split.
    + intros (s0 & w & j & Es & Hwj & Hj & Hm). apply written_row in Hwj as (w0 & Hw0 & ->).
      case_decide as Eq; [|by exists s0, w0, j]. apply way_lookup in Hj as [(_ & -> & _)|[Hne Hj]]; [congruence|].
      by exists s0, w0, j.
    + intros (s0 & w & j & Es & Hwj & Hj & Hm). destruct (decide (Z.to_nat s0 = Z.to_nat s)) as [Eq|Hne].
      * rewrite Eq, Hw in Hwj. injection Hwj as <-. exists s0, (<[k := e']> ways), j. rewrite Eq.
        split; [done|]. split; [done|]. split; [|done]. rewrite list_lookup_insert_ne; [done|].
        intros <-. simplify_eq. congruence.
      * exists s0, w, j. split; [done|]. split; [|done]. cbn. by rewrite list_lookup_alter_ne.
Qed.
End write.

(** A touch changes the policy only. *)
Lemma touch_way_ok c now s k :
  cache_ok c → 0 ≤ s < Z.of_nat sets → (k < assoc)%nat →
  ∃ p, touch_way now s (Z.of_nat k) c = Ret (set_policy p c) ∧ cache_ok (set_policy p c).
Proof.
  intros Hok Hs Hk. destruct (touch_ok s (Z.of_nat k) now (m_replacementPolicy c) (ck_policy c Hok) Hs) as (p & E & Hp & _); [lia|].
  exists p. unfold touch_way. rewrite E. split; [done|]. by destruct Hok; split.
Qed.

(** *** The operations on a line, from its location *)

Section at_line.
Variables (c : CacheMemory) (a : Z).
Hypotheses (Hok : cache_ok c) (Ha : line_addr a).

Lemma lookup_pos_spec :
  (cached c a = None ∧ lookup_pos a c = Raise AssertFailed) ∨
  ∃ s k ways e, cached c a = Some e ∧ lookup_pos a c = Ret (s, Z.of_nat k) ∧ 0 ≤ s < Z.of_nat sets ∧
    (k < assoc)%nat ∧ m_cache c !! Z.to_nat s = Some ways ∧ ways !! k = Some e ∧ tag_match a e = true ∧
    entry_at s (Z.of_nat k) c = Ret e.
Proof.
  destruct (locate c a Hok Ha) as (s & ways & Es & Hs & Hw & Hl & Hloc). unfold lookup_pos.
  rewrite (proj2 (Z.eqb_eq a (line a)) (proj2 Ha)). cbn [assertb mbind outcome_bind]. rewrite Es. cbn [mbind outcome_bind].
  destruct Hloc as [(Hc & -> & _)|(k & e & Hc & -> & Hk & Hm)]; cbn [mbind outcome_bind].
  - by left.
  - right. exists s, k, ways, e. rewrite (proj2 (Z.eqb_neq (Z.of_nat k) (-1))) by lia. split_and!; try done; try lia.
    + apply lookup_lt_Some in Hk. lia.
    + unfold entry_at. rewrite (at_idx_Some _ _ _ Hw). cbn [mbind outcome_bind]. by rewrite Nat2Z.id, (at_idx_Some _ _ _ Hk).
Qed.

Lemma isTagPresent_spec : isTagPresent a c = Ret (bool_decide (is_Some (cached c a))).
Proof.
  destruct (locate c a Hok Ha) as (s & ways & Es & Hs & Hw & Hl & Hloc). unfold isTagPresent.
  rewrite (proj2 (Z.eqb_eq a (line a)) (proj2 Ha)). cbn [assertb mbind outcome_bind]. rewrite Es. cbn [mbind outcome_bind].
  destruct Hloc as [(-> & -> & _)|(k & e & -> & -> & _)]; cbn [mbind outcome_bind]; [done|].
  rewrite (proj2 (Z.eqb_neq (Z.of_nat k) (-1))) by lia. by rewrite bool_decide_eq_true_2 by (by eexists).
Qed.

Lemma lookup_spec : lookup a c = match cached c a with Some e => Ret e | None => Raise AssertFailed end.
Proof.
  unfold lookup. destruct lookup_pos_spec as [[-> ->]|(s & k & ways & e & -> & -> & H')]; [done|].
  cbn [mbind outcome_bind]. by apply H'.
Qed.

Lemma getPermission_spec :
  getPermission a c = match cached c a with Some e => Ret (m_Permission e) | None => Raise AssertFailed end.
Proof.
  unfold getPermission. rewrite (proj2 (Z.eqb_eq a (line a)) (proj2 Ha)), lookup_spec. by destruct (cached c a).
Qed.

Lemma set_permission_spec perm :
  match cached c a with
  | None => set_permission a perm c = Raise AssertFailed
  | Some e => ∃ c', set_permission a perm c = Ret c' ∧ cache_ok c' ∧ ∀ b, line_addr b →
      cached c' b = if b =? a then (if decide (perm = NotPresent) then None else Some (mkEntry a perm (m_rest e)))
                    else cached c b
  end.
Proof.
  unfold set_permission. destruct lookup_pos_spec as [[-> ->]|(s & k & ways & e & -> & -> & Hs & Hka & Hw & Hk & Hm & He)]; [done|].
  cbn [mbind outcome_bind]. rewrite He. cbn [mbind outcome_bind]. pose proof Hm as [Hae Hp]%tag_match_true.
  assert (Hnew : m_Permission (mkEntry (m_Address e) perm (m_rest e)) ≠ NotPresent →
    line_addr (m_Address (mkEntry (m_Address e) perm (m_rest e))) ∧
    addressToCacheSet (m_Address (mkEntry (m_Address e) perm (m_rest e))) c = Ret s ∧
    ∀ j x, j ≠ k → ways !! j = Some x → tag_match (m_Address (mkEntry (m_Address e) perm (m_rest e))) x = false).
  { intros _. cbn. rewrite Hae. split; [done|].
    destruct (ck_lines c Hok _ _ e Hw (list_elem_of_lookup_2 _ _ _ Hk) Hp) as [_ Es]. rewrite Hae in Es.
    split; [rewrite Es; f_equal; lia|]. intros j x Hj Hx. apply not_true_iff_false. intros Hmx. apply Hj.
    rewrite <- Hae in Hmx. by eapply (ck_once c Hok). }
  eexists. split; [done|]. split; [exact (set_entry_ok c s k ways _ Hok (proj1 Hs) Hw Hnew)|]. intros b Hb.
  rewrite (set_entry_cached c s k ways e _ Hok (proj1 Hs) Hw Hk Hnew b Hb). cbn [m_Address m_Permission m_rest].
  unfold tag_match. cbn [m_Address m_Permission]. rewrite Hae, (Z.eqb_sym a b).
  destruct (b =? a); cbn [andb]; [|done]. rewrite (bool_decide_eq_false_2 (m_Permission e = NotPresent)) by done.
  case_decide; [by rewrite bool_decide_eq_true_2|by rewrite bool_decide_eq_false_2].
Qed.

Lemma cacheAvail_spec s ways :
  addressToCacheSet a c = Ret s → m_cache c !! Z.to_nat s = Some ways →
  ∃ r, cacheAvail a c = Ret r ∧
    (r = true ↔ is_Some (cached c a) ∨ ∃ e, e ∈ ways ∧ m_Permission e = NotPresent).
Proof.
  intros Es Hw. unfold cacheAvail. rewrite (proj2 (Z.eqb_eq a (line a)) (proj2 Ha)), Es. cbn [assertb mbind outcome_bind].
  rewrite (at_idx_Some _ _ _ Hw). cbn [mbind outcome_bind]. eexists. split; [done|]. rewrite existsb_exists. split.
  - intros (e & He%list_elem_of_In & Hm). destruct (decide (m_Permission e = NotPresent)) as [|Hp]; [right; by exists e|].
    left. rewrite (bool_decide_eq_false_2 _ Hp), orb_false_r in Hm. apply Z.eqb_eq in Hm.
    apply list_elem_of_lookup in He as [k Hk]. exists e. apply (cached_Some c a e Hok Ha). exists s, ways, k.
    by rewrite tag_match_true.
  - intros [[e Hc]|(e & He & Hp)].
    + apply (cached_Some c a e Hok Ha) in Hc as (s' & w & k & Es' & Hw' & Hk & Hm). rewrite Es in Es'.
      injection Es' as <-. simplify_eq. exists e. split; [by eapply list_elem_of_In, list_elem_of_lookup_2|].
      apply tag_match_true in Hm as [-> _]. by rewrite Z.eqb_refl.
    + exists e. split; [by apply list_elem_of_In|]. rewrite (bool_decide_eq_true_2 _ Hp). apply orb_true_r.
Qed.

Lemma allocate_spec now :
  (is_Some (cached c a) → allocate now a c = Raise AssertFailed) ∧
  (cached c a = None → cacheAvail a c = Ret false → allocate now a c = Raise AssertFailed) ∧
  (cached c a = None → cacheAvail a c = Ret true →
   ∃ c', allocate now a c = Ret c' ∧ cache_ok c' ∧ ∀ b, line_addr b →
     cached c' b = if b =? a then Some (mkEntry a Invalid d0) else cached c b).
Proof.
  unfold allocate. rewrite (proj2 (Z.eqb_eq a (line a)) (proj2 Ha)), isTagPresent_spec. cbn [assertb mbind outcome_bind].
  split; [intros Hc; by rewrite bool_decide_eq_true_2|].
  split; [intros Hc Hav; rewrite Hc, Hav; done|]. intros Hc Hav. rewrite Hav, Hc.
  cbn [negb bool_decide assertb mbind outcome_bind].
  destruct (locate c a Hok Ha) as (s & ways & Es & Hs & Hw & Hl & Hloc). rewrite Es. cbn [mbind outcome_bind].
  rewrite (at_idx_Some _ _ _ Hw). cbn [mbind outcome_bind].
  destruct (cacheAvail_spec s ways Es Hw) as (r & Hr & Hfree). rewrite Hav in Hr. injection Hr as <-.
  destruct (proj1 Hfree eq_refl) as [[e He]|(e0 & He0 & Hp0)]; [congruence|].
  destruct Hloc as [(_ & _ & Hno)|(k & e & He & _)]; [|congruence].
  destruct (find_way_spec (λ e, bool_decide (m_Permission e = NotPresent)) ways 0 ltac:(lia)) as [[_ Hf]|(k & e & -> & Hk & He)].
  { specialize (Hf e0 He0). by rewrite (bool_decide_eq_true_2 _ Hp0) in Hf. }
  apply bool_decide_eq_true in He. rewrite Z.add_0_l, (proj2 (Z.eqb_neq (Z.of_nat k) (-1))) by lia.
  set (e' := mkEntry a Invalid d0).
  assert (Hnew : m_Permission e' ≠ NotPresent → line_addr (m_Address e') ∧ addressToCacheSet (m_Address e') c = Ret s ∧
    ∀ j x, j ≠ k → ways !! j = Some x → tag_match (m_Address e') x = false).
  { intros _. split; [done|]. split; [done|]. intros j x _ Hx. by eapply Hno, list_elem_of_lookup_2. }
  pose proof (set_entry_ok c s k ways e' Hok (proj1 Hs) Hw Hnew) as Hok1.
  destruct (touch_way_ok _ now s k Hok1 Hs) as (p & -> & Hok2); [apply lookup_lt_Some in Hk; lia|].
  eexists. split; [done|]. split; [done|]. intros b Hb.
  change (cached (set_policy p (set_entry s (Z.of_nat k) e' c)) b) with (cached (set_entry s (Z.of_nat k) e' c) b).
  rewrite (set_entry_cached c s k ways e e' Hok (proj1 Hs) Hw Hk Hnew b Hb). unfold tag_match. cbn [m_Address m_Permission e'].
  rewrite He, (Z.eqb_sym a b). cbn [bool_decide decide]. rewrite (bool_decide_eq_true_2 (NotPresent = NotPresent)) by done.
  rewrite andb_false_r. by destruct (b =? a).
Qed.

Lemma tryCacheAccess_spec now type :
  ∃ c', cache_ok c' ∧ (∀ b, cached c' b = cached c b) ∧ tryCacheAccess now a type c =
    match cached c a with
    | Some e => if accessible type (m_Permission e) then Ret (true, Some (m_rest e), c') else Ret (false, None, c')
    | None => Ret (false, None, c')
    end.
Proof.
  destruct (locate c a Hok Ha) as (s & ways & Es & Hs & Hw & Hl & Hloc). unfold tryCacheAccess.
  rewrite (proj2 (Z.eqb_eq a (line a)) (proj2 Ha)), Es. cbn [assertb mbind outcome_bind].
  destruct Hloc as [(-> & -> & _)|(k & e & -> & -> & Hk & Hm)]; cbn [mbind outcome_bind]; [by exists c|].
  rewrite (proj2 (Z.eqb_neq (Z.of_nat k) (-1))) by lia. unfold entry_at. rewrite (at_idx_Some _ _ _ Hw).
  cbn [mbind outcome_bind]. rewrite Nat2Z.id, (at_idx_Some _ _ _ Hk). cbn [mbind outcome_bind].
  destruct (touch_way_ok c now s k Hok Hs) as (p & -> & Hok'); [apply lookup_lt_Some in Hk; lia|].
  cbn [mbind outcome_bind]. by exists (set_policy p c).
Qed.
End at_line.

(** A cache just built holds no line. *)
Lemma new_CacheMemory_ok policy ty bits :
  1 ≤ bits ≤ 30 → sets = Z.to_nat (2 ^ bits) →
  (ty = L1Cache ∨ ty = L2Cache ∧ bits = L2_CACHE_NUM_SETS_BITS ∧ 0 ≤ l2_bank_bits ≤ 20) →
  policy_ok (policy sets assoc) →
  cache_ok (new_CacheMemory policy ty bits assoc) ∧
  ∀ a, line_addr a → cached (new_CacheMemory policy ty bits assoc) a = None.
Proof.
  intros Hb Hsets Hty Hp. unfold new_CacheMemory. rewrite Z.shiftl_1_l, <- Hsets. set (c := mkCache _ _ _ _ _ _ _).
  assert (Hempty : ∀ s ways e, m_cache c !! s = Some ways → e ∈ ways → m_Permission e = NotPresent).
  { intros s ways e [-> _]%lookup_replicate (i & [-> _]%lookup_replicate)%list_elem_of_lookup. done. }
  assert (Hok : cache_ok c).
  { split; cbn; [done|done|done| |done| |].
    - split; [apply length_replicate|]. intros w (i & [-> _]%lookup_replicate)%list_elem_of_lookup. apply length_replicate.
    - intros s ways e Hw He Hne. destruct Hne. by eapply Hempty.
    - intros s ways i j e1 e2 Hw _ Hj _ Hne. destruct Hne. by eapply Hempty, list_elem_of_lookup_2. }
  split; [done|]. intros a Ha. apply eq_None_not_Some. intros [e He].
  apply (cached_Some c a e Hok Ha) in He as (s & ways & k & _ & Hw & Hk & [_ Hm]%tag_match_true).
  destruct Hm. by eapply Hempty, list_elem_of_lookup_2.
Qed.

(** [C13] The array is a map from lines to entries: with [cached c] its
    contents, the queries read the entry of the line and fail their assertion
    when there is none; [deallocate], [changePermission] and [allocate] change
    the entry of that line and no other, keep the invariant, and fail their
    assertions in every other case, [NotPresent] as the new permission
    included; an access never changes the contents and hits by the permission
    of the entry. *)
Theorem cache_refines_map now a type perm c :
  cache_ok c → line_addr a →
  isTagPresent a c = Ret (bool_decide (is_Some (cached c a))) ∧
  (∃ c', cache_ok c' ∧ (∀ b, cached c' b = cached c b) ∧ tryCacheAccess now a type c =
    match cached c a with
    | Some e => if accessible type (m_Permission e) then Ret (true, Some (m_rest e), c') else Ret (false, None, c')
    | None => Ret (false, None, c')
    end) ∧
  match cached c a with
  | Some e =>
      lookup a c = Ret e ∧ getPermission a c = Ret (m_Permission e) ∧
      allocate now a c = Raise AssertFailed ∧
      (∃ c', deallocate a c = Ret c' ∧ cache_ok c' ∧ ∀ b, line_addr b →
         cached c' b = if b =? a then None else cached c b) ∧
      (if decide (perm = NotPresent) then changePermission a perm c = Raise AssertFailed
       else ∃ c', changePermission a perm c = Ret c' ∧ cache_ok c' ∧ ∀ b, line_addr b →
         cached c' b = if b =? a then Some (mkEntry a perm (m_rest e)) else cached c b)
  | None =>
      lookup a c = Raise AssertFailed ∧ getPermission a c = Raise AssertFailed ∧
      deallocate a c = Raise AssertFailed ∧ changePermission a perm c = Raise AssertFailed ∧
      ∃ avail, cacheAvail a c = Ret avail ∧
        if avail then ∃ c', allocate now a c = Ret c' ∧ cache_ok c' ∧ ∀ b, line_addr b →
          cached c' b = if b =? a then Some (mkEntry a Invalid d0) else cached c b
        else allocate now a c = Raise AssertFailed
  end.
Proof.
  intros Hok Ha. split; [by apply isTagPresent_spec|]. split; [by apply tryCacheAccess_spec|].
  destruct (allocate_spec c a Hok Ha now) as (A1 & A2 & A3).
  pose proof (set_permission_spec c a Hok Ha) as Hset.
  rewrite (lookup_spec c a Hok Ha), (getPermission_spec c a Hok Ha).
  unfold deallocate, changePermission. rewrite (proj2 (Z.eqb_eq a (line a)) (proj2 Ha)), (isTagPresent_spec c a Hok Ha).
  cbn [assertb mbind outcome_bind].
  destruct (cached c a) as [e|] eqn:Ec.
  - split; [done|]. split; [done|]. split; [apply A1; by eexists|].
    rewrite bool_decide_eq_true_2 by (by eexists). cbn [assertb mbind outcome_bind]. split.
    + destruct (Hset NotPresent) as (c' & -> & Hok' & Hc'). exists c'. split; [done|]. split; [done|].
      intros b Hb. rewrite (Hc' b Hb). by rewrite decide_True.
    + destruct (Hset perm) as (c' & -> & Hok' & Hc'). cbn [mbind outcome_bind].
      pose proof (Hc' a Ha) as Hca. rewrite Z.eqb_refl in Hca. rewrite (getPermission_spec c' a Hok' Ha), Hca.
      destruct (decide (perm = NotPresent)) as [|Hne]; [done|]. cbn [mbind outcome_bind m_Permission].
      rewrite bool_decide_eq_true_2 by done. exists c'. done.
  - split; [done|]. split; [done|]. split; [done|]. split; [by rewrite (Hset perm)|].
    destruct (locate c a Hok Ha) as (s & ways & Es & _ & Hw & _).
    destruct (cacheAvail_spec c a Hok Ha s ways Es Hw) as (avail & Hav & _). exists avail. split; [done|].
    destruct avail; auto.
Qed.

(** Giving up a line makes room in its set. *)
Lemma room_after c c1 a v s :
  cache_ok c → line_addr v → line_addr a → cache_ok c1 → set_permission v NotPresent c = Ret c1 →
  addressToCacheSet v c = Ret s → addressToCacheSet a c = Ret s → cacheAvail a c1 = Ret true.
Proof.
  intros Hok Hv Ha Hok1 E Ev Es. unfold set_permission in E.
  destruct (lookup_pos_spec c v Hok Hv) as [[_ Epos]|(s2 & k & ways & x & _ & Epos & Hs2 & _ & Hw & Hk & Hm & Hx)];
    rewrite Epos in E; cbn [mbind outcome_bind] in E; [done|].
  rewrite Hx in E. cbn [mbind outcome_bind] in E. injection E as <-. apply tag_match_true in Hm as [Hm Hp].
  destruct (ck_lines c Hok _ _ x Hw (list_elem_of_lookup_2 _ _ _ Hk) Hp) as [_ Ex]. rewrite Hm, Ev in Ex.
  assert (s = s2) as -> by (injection Ex; lia).
  set (c1 := set_entry _ _ _ _) in *. set (e' := mkEntry (m_Address x) NotPresent (m_rest x)) in *.
  assert (Hw1 : m_cache c1 !! Z.to_nat s2 = Some (<[k := e']> ways)).
  { cbn. by rewrite list_lookup_alter_eq, Hw, Nat2Z.id. }
  destruct (cacheAvail_spec c1 a Hok1 Ha s2 _ Es Hw1) as (r & -> & Hr). f_equal. apply Hr. right.
  exists e'. split; [|done]. apply list_elem_of_lookup. exists k. apply list_lookup_insert_eq. by eapply lookup_lt_Some.
Qed.

(** Eviction: when a set is full, [cacheProbe] returns a line the cache
    holds in the set of the address and other than it, so deallocating that
    line never fails, and then the address can be allocated: exactly the
    victim leaves the cache and exactly the new line enters it. *)
Theorem cache_evict now a c :
  cache_ok c → line_addr a → cacheAvail a c = Ret false →
  ∃ v e c1 c2, cacheProbe a c = Ret v ∧ line_addr v ∧ v ≠ a ∧ cached c v = Some e ∧ cached c a = None ∧
    addressToCacheSet v c = addressToCacheSet a c ∧
    deallocate v c = Ret c1 ∧ cacheAvail a c1 = Ret true ∧ allocate now a c1 = Ret c2 ∧ cache_ok c2 ∧
    ∀ b, line_addr b →
      cached c2 b = if b =? a then Some (mkEntry a Invalid d0) else if b =? v then None else cached c b.
Proof.
  intros Hok Ha Hfull. destruct (locate c a Hok Ha) as (s & ways & Es & Hs & Hw & Hl & _).
  destruct (cacheAvail_spec c a Hok Ha s ways Es Hw) as (r & Hr & Hfree). rewrite Hfull in Hr. injection Hr as <-.
  assert (Hall : ∀ e, e ∈ ways → m_Permission e ≠ NotPresent).
  { intros e He Hp. discriminate (proj2 Hfree (or_intror (ex_intro _ e (conj He Hp)))). }
  assert (Hna : cached c a = None).
  { apply eq_None_not_Some. intros Hc. discriminate (proj2 Hfree (or_introl Hc)). }
  destruct (victim_ok s (m_replacementPolicy c) (ck_policy c Hok) Hs) as (w & Ew & Hwr).
  destruct (lookup_lt_is_Some_2 ways (Z.to_nat w)) as [e He]; [lia|].
  pose proof (list_elem_of_lookup_2 _ _ _ He) as Hin. pose proof (Hall e Hin) as Hp.
  destruct (ck_lines c Hok _ _ e Hw Hin Hp) as [Hv Ev]. rewrite Z2Nat.id in Ev by lia.
  assert (Hcv : cached c (m_Address e) = Some e).
  { apply (cached_Some c _ e Hok Hv). exists s, ways, (Z.to_nat w). by rewrite tag_match_true. }
  assert (Hne : m_Address e ≠ a) by congruence.
  pose proof (set_permission_spec c (m_Address e) Hok Hv NotPresent) as Hset. rewrite Hcv in Hset.
  destruct Hset as (c1 & E1 & Hok1 & Hc1). rewrite decide_True in Hc1 by done.
  exists (m_Address e), e, c1.
  assert (Hc1a : cached c1 a = None).
  { rewrite (Hc1 a Ha), (proj2 (Z.eqb_neq a _)) by congruence. done. }
  assert (Hav1 : cacheAvail a c1 = Ret true) by by apply (room_after c c1 a (m_Address e) s).
  destruct (allocate_spec c1 a Hok1 Ha now) as (_ & _ & A3). destruct (A3 Hc1a Hav1) as (c2 & E2 & Hok2 & Hc2).
  exists c2. split.
  { unfold cacheProbe. rewrite (proj2 (Z.eqb_eq a (line a)) (proj2 Ha)), Hfull. cbn [assertb negb mbind outcome_bind].
    rewrite Es. cbn [mbind outcome_bind]. rewrite Ew. cbn [mbind outcome_bind]. unfold entry_at.
    rewrite (at_idx_Some _ _ _ Hw). cbn [mbind outcome_bind]. by rewrite (at_idx_Some _ _ _ He). }
  split_and!; try done; [by rewrite Ev, Es| |].
  { unfold deallocate. rewrite (proj2 (Z.eqb_eq (m_Address e) _) (proj2 Hv)), (isTagPresent_spec c _ Hok Hv), Hcv. exact E1. }
  intros b Hb. rewrite (Hc2 b Hb), (Hc1 b Hb). done.
Qed.
End spec.
End cache.
End geometry.

(** ** A direct-mapped cache of two lines that holds line 0 *)

#[export] Instance lru_laws_2_1 : PolicyLaws LRUPolicy 2 1 := lru_laws 2 1 (Nat.lt_0_succ 0).

Definition ex_new : CacheMemory (T := LRUPolicy) (D := unit) := new_CacheMemory tt new_LRUPolicy L1Cache 1 1.

Definition ex_cache : CacheMemory (T := LRUPolicy) (D := unit) :=
  match allocate 0 false 1 tt 3 0 ex_new with Ret c => c | Raise _ => ex_new end.

Lemma ex_new_ok : cache_ok 0 false 1 2 1 ex_new ∧ ∀ a, line_addr a → cached 0 false 1 ex_new a = None.
Proof.
  apply new_CacheMemory_ok; [lia|done|by left|]. split; [done|split; [done|apply shaped_new]].
Qed.

Lemma ex_line_0 : line_addr 0.
Proof. by vm_compute. Qed.

Lemma ex_cache_ok : cache_ok 0 false 1 2 1 ex_cache.
Proof.
  destruct ex_new_ok as [Hok Hc]. destruct (allocate_spec 0 false 1 tt 2 1 ex_new 0 Hok ex_line_0 3) as (_ & _ & A).
  destruct (A (Hc 0 ex_line_0)) as (c & E & Hok' & _); [by vm_compute|]. unfold ex_cache. by rewrite E.
Qed.

Lemma cache_refines_map_witness :
  cached 0 false 1 ex_cache 0 = Some (mkEntry 0 Invalid tt) ∧
  ∃ c', changePermission 0 false 1 0 Read_Write ex_cache = Ret c' ∧ cache_ok 0 false 1 2 1 c' ∧
    ∀ b, line_addr b → cached 0 false 1 c' b =
      if b =? 0 then Some (mkEntry 0 Read_Write tt) else cached 0 false 1 ex_cache b.
Proof.
  pose proof (cache_refines_map 0 false 1 tt 2 1 7 0 LD Read_Write ex_cache ex_cache_ok ex_line_0)
    as (_ & _ & Hmap).
  assert (Hc : cached 0 false 1 ex_cache 0 = Some (mkEntry 0 Invalid tt)) by (vm_compute; reflexivity).
  split; [exact Hc|]. rewrite Hc in Hmap. exact (proj2 (proj2 (proj2 (proj2 Hmap)))).
Defined.

Lemma cache_evict_witness :
  cacheAvail 0 false 1 128 ex_cache = Ret false ∧
  ∃ v e c1 c2, cacheProbe 0 false 1 128 ex_cache = Ret v ∧ line_addr v ∧ v ≠ 128 ∧
    cached 0 false 1 ex_cache v = Some e ∧ cached 0 false 1 ex_cache 128 = None ∧
    addressToCacheSet 0 false 1 v ex_cache = addressToCacheSet 0 false 1 128 ex_cache ∧
    deallocate 0 false 1 v ex_cache = Ret c1 ∧ cacheAvail 0 false 1 128 c1 = Ret true ∧
    allocate 0 false 1 tt 9 128 c1 = Ret c2 ∧ cache_ok 0 false 1 2 1 c2 ∧
    ∀ b, line_addr b → cached 0 false 1 c2 b =
      if b =? 128 then Some (mkEntry 128 Invalid tt) else if b =? v then None else cached 0 false 1 ex_cache b.
Proof.
  assert (H : cacheAvail 0 false 1 128 ex_cache = Ret false) by (vm_compute; reflexivity).
  split; [exact H|].
  apply (cache_evict 0 false 1 tt 2 1 9 128 ex_cache ex_cache_ok); [vm_compute; split; [split; [discriminate|reflexivity]|reflexivity]|exact H].
Defined.

(** A cache of a single set cannot be used: the set of a line is a selection of
    no bits, which fails its assertion. *)
Lemma one_set a c :
  m_machType c = L1Cache → m_cache_num_set_bits c = 0 → addressToCacheSet (T := LRUPolicy) (D := unit) 0 false 0 a c = Raise AssertFailed.
Proof.
  intros E Eb. unfold addressToCacheSet. rewrite E, Eb. destruct (a =? line a); reflexivity.
Qed.
