(* ===== verification/NodeSet.v ===== *)
(** * Sets of nodes

    [OptBigSet.C], [OptBigSet.h] of [gems-lib/ruby_clean/common], the set that
    [Set.h] selects: a bit vector in an array of 64-bit [long] words.  The
    statically and the dynamically allocated array behave alike, so one list
    models both; an access outside of it is a fault. *)

From stdpp Require Import gmap sets list numbers.
From S2P Require Import Prelude.
Local Open Scope Z_scope.

(** Conversion of a value to [long]. *)
Definition i64 (z : Z) : Z := (z + 2 ^ 63) `mod` 2 ^ 64 - 2 ^ 63.

Record NodeSet := mkSet { m_nSize : Z; m_p_nArray : list Z }.

Implicit Types (s : NodeSet) (w : Z).

Definition getSize s : Z := m_nSize s.

Definition array_len (size : Z) : Z := Z.quot size 64 + (if Z.rem size 64 =? 0 then 0 else 1).

Definition m_nArrayLen s : nat := Z.to_nat (array_len (m_nSize s)).

Definition setSize (size : Z) : NodeSet := mkSet size (replicate (Z.to_nat (array_len size)) 0).

Definition new_Set (size : Z) : outcome NodeSet := assertb (0 <? size) ;; Ret (setSize size).

Definition clear s : NodeSet := mkSet (m_nSize s) ((λ _, 0) <$> m_p_nArray s).

(** [m_p_nArray[i]] for an [int] index. *)
Definition word_at (i : Z) s : outcome Z :=
  if i <? 0 then Raise OutOfBounds else (m_p_nArray s).[Z.to_nat i]!.

Definition bit (index : Z) : Z := u64 (Z.shiftl 1 (Z.land index 63)).

Definition set_word (i : Z) w s : NodeSet := mkSet (m_nSize s) (<[Z.to_nat i := w]> (m_p_nArray s)).

Definition add (index : Z) s : outcome NodeSet :=
  let i := Z.shiftr index 6 in
  w ← word_at i s; Ret (set_word i (i64 (Z.lor (u64 w) (bit index))) s).

Definition remove (index : Z) s : outcome NodeSet :=
  let i := Z.shiftr index 6 in
  w ← word_at i s; Ret (set_word i (i64 (Z.land (u64 w) (u64 (Z.lnot (bit index))))) s).

Definition isElement (element : Z) s : outcome bool :=
  w ← word_at (Z.shiftr element 6) s; Ret (negb (Z.land (u64 w) (bit element) =? 0)).

Definition elementAt (index : Z) s : outcome Z :=
  b ← isElement index s; Ret (if b : bool then 1 else 0).

(** The loops over two arrays of the same length. *)
Definition zip_words (f : Z → Z → Z) s t : NodeSet :=
  mkSet (m_nSize s) (zip_with f (m_p_nArray s) (m_p_nArray t)).

Definition addSet s t : outcome NodeSet :=
  assertb (getSize s =? getSize t) ;; Ret (zip_words Z.lor s t).

Definition removeSet s t : outcome NodeSet :=
  assertb (getSize s =? getSize t) ;; Ret (zip_words (λ a b, Z.land a (Z.lnot b)) s t).

Definition OR s t : outcome NodeSet :=
  r ← new_Set (m_nSize s); assertb (m_nSize s =? m_nSize t) ;; Ret (mkSet (m_nSize r) (m_p_nArray (zip_words Z.lor s t))).

Definition AND s t : outcome NodeSet :=
  r ← new_Set (m_nSize s); assertb (m_nSize s =? m_nSize t) ;; Ret (mkSet (m_nSize r) (m_p_nArray (zip_words Z.land s t))).

(** [mask = mask >> 1] and [w &= mask], [n] times. *)
Fixpoint mask_loop (n : nat) (mask w : Z) : Z :=
  match n with O => w | S n => mask_loop n (Z.shiftr mask 1) (Z.land w mask) end.

(** Clear the bits over the size in the last word. *)
Definition trim s : NodeSet :=
  if Z.rem (m_nSize s) 64 =? 0 then s
  else mkSet (m_nSize s)
    (alter (mask_loop (Z.to_nat (64 - Z.land (m_nSize s) 63)) 0x7FFFFFFFFFFFFFFF) (m_nArrayLen s - 1)%nat (m_p_nArray s)).

Definition broadcast s : NodeSet := trim (mkSet (m_nSize s) ((λ _, -1) <$> m_p_nArray s)).

(** Two draws of [random()] for each word. *)
Definition addRandom (draws : nat → Z * Z) s : NodeSet :=
  trim (mkSet (m_nSize s)
    (imap (λ i w, let '(r1, r2) := draws i in i64 (Z.lor w (Z.lxor r1 (i64 (Z.shiftl r2 4))))) (m_p_nArray s))).

Fixpoint count_word (n : nat) (w mask counter : Z) : Z :=
  match n with
  | O => counter
  | S n => count_word n w (i64 (Z.shiftl mask 1)) (if Z.land w mask =? 0 then counter else i32 (counter + 1))
  end.

Definition count s : Z := foldl (λ counter w, count_word 64 w 1 counter) 0 (m_p_nArray s).

Definition isEqual s t : outcome bool :=
  assertb (m_nSize s =? m_nSize t) ;;
  Ret (forallb id (zip_with Z.eqb (m_p_nArray s) (m_p_nArray t))).

(** The least set bit of a word. *)
Fixpoint first_bit (n : nat) (x j : Z) : option Z :=
  match n with
  | O => None
  | S n => if Z.land x 1 =? 0 then first_bit n (Z.shiftr x 1) (j + 1) else Some j
  end.

Fixpoint first_word (ws : list Z) (i : Z) : outcome Z :=
  match ws with
  | [] => Raise AssertFailed
  | w :: ws =>
      if w =? 0 then first_word ws (i + 1)
      else match first_bit 64 w 0 with Some j => Ret (64 * i + j) | None => Raise AssertFailed end
  end.

Definition smallestElement s : outcome Z :=
  assertb (0 <? count s) ;; first_word (m_p_nArray s) 0.

Fixpoint all_bits (n : nat) (mask w : Z) : bool :=
  match n with
  | O => true
  | S n => if Z.land mask w =? 0 then false else all_bits n (i64 (Z.shiftl mask 1)) w
  end.

Definition isBroadcast s : outcome bool :=
  let full := if Z.rem (m_nSize s) 64 =? 0 then m_nArrayLen s else (m_nArrayLen s - 1)%nat in
  if forallb (λ w, w =? -1) (take full (m_p_nArray s)) then
    if Z.rem (m_nSize s) 64 =? 0 then Ret true
    else w ← (m_p_nArray s).[(m_nArrayLen s - 1)%nat]!; Ret (all_bits (Z.to_nat (Z.rem (m_nSize s) 64)) 1 w)
  else Ret false.

Definition isEmpty s : bool := forallb (λ w, w =? 0) (m_p_nArray s).

Definition intersectionIsNotEmpty s t : bool :=
  existsb id (zip_with (λ a b, negb (Z.land a b =? 0)) (m_p_nArray s) (m_p_nArray t)).

Definition intersectionIsEmpty s t : bool :=
  negb (existsb id (zip_with (λ a b, negb (Z.land a b =? 0)) (m_p_nArray s) (m_p_nArray t))).

Definition isSuperset s test : outcome bool :=
  assertb (m_nSize s =? m_nSize test) ;;
  Ret (forallb id (zip_with (λ a b, Z.lor (Z.land b a) (Z.lnot b) =? -1) (m_p_nArray s) (m_p_nArray test))).

(** ** Words and their bits *)

(** A value of [long]: its bits from 63 on are the sign. *)
Definition word w : Prop := ∀ n, 63 ≤ n → Z.testbit w n = Z.testbit w 63.

Lemma word_range w : - 2 ^ 63 ≤ w < 2 ^ 63 → word w.
Proof.
  assert (Hpos : ∀ v n, 0 ≤ v < 2 ^ 63 → 63 ≤ n → Z.testbit v n = false).
  { intros v n Hv Hn. rewrite <- (Z.mod_small v (2 ^ 63)) by lia. apply Z.mod_pow2_bits_high. lia. }
  intros Hw n Hn. destruct (decide (0 ≤ w)); [by rewrite !Hpos by lia|].
  rewrite <- (Z.lnot_involutive w), !(Z.lnot_spec (Z.lnot w)) by lia.
  assert (0 ≤ Z.lnot w < 2 ^ 63) by (unfold Z.lnot; lia). by rewrite !Hpos.
Qed.

Lemma i64_word z : word (i64 z).
Proof. apply word_range. unfold i64. pose proof (Z.mod_pos_bound (z + 2 ^ 63) (2 ^ 64)). lia. Qed.

Lemma i64_bit z j : 0 ≤ j < 64 → Z.testbit (i64 z) j = Z.testbit z j.
Proof.
  intros Hj. rewrite <- (Z.mod_pow2_bits_low (i64 z) 64), <- (Z.mod_pow2_bits_low z 64) by lia. f_equal.
  unfold i64. rewrite <- Zminus_mod_idemp_l, Zmod_mod, Zminus_mod_idemp_l. f_equal. lia.
Qed.

Lemma u64_bit z j : 0 ≤ j < 64 → Z.testbit (u64 z) j = Z.testbit z j.
Proof. intros Hj. unfold u64. by rewrite Z.mod_pow2_bits_low by lia. Qed.

Lemma word_bit w : word w → ∀ n, 0 ≤ n → Z.testbit w n = Z.testbit w (Z.min n 63).
Proof. intros Hw n Hn. destruct (decide (n ≤ 63)); [by rewrite Z.min_l|]. rewrite Z.min_r by lia. apply Hw. lia. Qed.

Lemma word_bitwise (f : Z → Z → Z) (g : bool → bool → bool) a b :
  (∀ x y n, 0 ≤ n → Z.testbit (f x y) n = g (Z.testbit x n) (Z.testbit y n)) → word a → word b → word (f a b).
Proof. intros Hf Ha Hb n Hn. by rewrite !Hf, (Ha n), (Hb n) by lia. Qed.

Lemma word_eq a b : word a → word b → (∀ j, 0 ≤ j < 64 → Z.testbit a j = Z.testbit b j) → a = b.
Proof.
  intros Ha Hb H. apply Z.bits_inj'. intros n Hn. rewrite (word_bit a), (word_bit b) by done. apply H. lia.
Qed.

Lemma word_const c : c = 0 ∨ c = -1 → word c.
Proof. intros [-> | ->]; apply word_range; lia. Qed.

Lemma word_zero w : word w → w = 0 ↔ ∀ j, 0 ≤ j < 64 → Z.testbit w j = false.
Proof.
  intros Hw. split; [intros ->; intros; apply Z.bits_0|]. intros H. apply word_eq; [done|apply word_const; auto|].
  intros j Hj. by rewrite Z.bits_0, H.
Qed.

Lemma word_ones w : word w → w = -1 ↔ ∀ j, 0 ≤ j < 64 → Z.testbit w j = true.
Proof.
  intros Hw. split; [intros -> j Hj; apply Z.bits_m1; lia|]. intros H. apply word_eq; [done|apply word_const; auto|].
  intros j Hj. rewrite H, Z.bits_m1 by lia. done.
Qed.

(** The moving mask [1 << k]. *)
Lemma mask_bit k j : 0 ≤ k → 0 ≤ j < 64 → Z.testbit (i64 (2 ^ k)) j = (j =? k).
Proof. intros Hk Hj. by rewrite i64_bit, Z.pow2_bits_eqb, Z.eqb_sym by lia. Qed.

Lemma mask_next k : 0 ≤ k → i64 (Z.shiftl (i64 (2 ^ k)) 1) = i64 (2 ^ (k + 1)).
Proof.
  intros Hk. apply word_eq; [apply i64_word..|]. intros j Hj.
  rewrite i64_bit, mask_bit by lia. rewrite Z.shiftl_spec by lia. destruct (decide (j = 0)) as [->|].
  - rewrite Z.testbit_neg_r by lia. symmetry. apply Z.eqb_neq. lia.
  - rewrite mask_bit by lia. destruct (Z.eqb_spec (j - 1) k), (Z.eqb_spec j (k + 1)); lia || done.
Qed.

Lemma land_mask w k : word w → 0 ≤ k < 64 → (Z.land w (i64 (2 ^ k)) =? 0) = negb (Z.testbit w k).
Proof.
  intros Hw Hk.
  assert (Hl : word (Z.land w (i64 (2 ^ k)))).
  { apply (word_bitwise Z.land andb); [intros; apply Z.land_spec|done|apply i64_word]. }
  apply eq_true_iff_eq. rewrite Z.eqb_eq, (word_zero _ Hl), negb_true_iff. split.
  - intros H. specialize (H k Hk). rewrite Z.land_spec, mask_bit, Z.eqb_refl, andb_true_r in H by lia. done.
  - intros H j Hj. rewrite Z.land_spec, mask_bit by lia. destruct (Z.eqb_spec j k) as [->|]; [by rewrite H|apply andb_false_r].
Qed.

(** ** Membership *)

Definition has s (i : Z) : bool :=
  (0 <=? i) && match m_p_nArray s !! Z.to_nat (i / 64) with Some w => Z.testbit w (i `mod` 64) | None => false end.

Record set_ok s : Prop := {
  so_size : 0 ≤ m_nSize s < 2 ^ 31;
  so_len : length (m_p_nArray s) = m_nArrayLen s;
  so_words : ∀ w, w ∈ m_p_nArray s → word w;
  so_tail : ∀ i, m_nSize s ≤ i → has s i = false
}.

(** What the bits mean. *)
Definition members s : gset Z := list_to_set (filter (λ i, has s i = true) (seqZ 0 (m_nSize s))).

Lemma elem_members s i : set_ok s → i ∈ members s ↔ has s i = true.
Proof.
  intros Hs. unfold members. rewrite elem_of_list_to_set, list_elem_of_filter, elem_of_seqZ.
  split; [tauto|]. intros H. split; [done|]. unfold has in H. apply andb_true_iff in H as [H0 H].
  destruct (decide (m_nSize s ≤ i)) as [Hi|]; [|lia]. pose proof (so_tail s Hs i Hi) as Hf.
  unfold has in Hf. by rewrite H0, H in Hf.
Qed.

Lemma members_ext s (X : gset Z) : set_ok s → (∀ i, has s i = true ↔ i ∈ X) → members s = X.
Proof. intros Hs H. apply set_eq. intros i. by rewrite elem_members, H. Qed.

Lemma array_len_spec size : 0 ≤ size → array_len size = (size + 63) / 64.
Proof.
  intros Hs. unfold array_len. rewrite Z.quot_div_nonneg, Z.rem_mod_nonneg by lia.
  pose proof (Z.div_mod size 64 ltac:(lia)) as E. pose proof (Z.mod_pos_bound size 64 ltac:(lia)).
  destruct (Z.eqb_spec (size `mod` 64) 0) as [E0|].
  - apply (Z.div_unique_pos _ _ _ 63); lia.
  - apply (Z.div_unique_pos _ _ _ (size `mod` 64 - 1)); lia.
Qed.

Lemma index_word s i : set_ok s → 0 ≤ i < m_nSize s → ∃ w, m_p_nArray s !! Z.to_nat (i / 64) = Some w ∧ word w.
Proof.
  intros Hs Hi. destruct (lookup_lt_is_Some_2 (m_p_nArray s) (Z.to_nat (i / 64))) as [w Hw].
  { rewrite (so_len s Hs). unfold m_nArrayLen. rewrite array_len_spec by lia.
    assert (i / 64 < (m_nSize s + 63) / 64); [|pose proof (Z.div_pos i 64); lia].
    apply Z.div_lt_upper_bound; [lia|]. pose proof (Z.div_mod (m_nSize s + 63) 64 ltac:(lia)).
    pose proof (Z.mod_pos_bound (m_nSize s + 63) 64 ltac:(lia)). lia. }
  exists w. split; [done|]. by eapply (so_words s Hs), list_elem_of_lookup_2.
Qed.

Lemma has_range s i : set_ok s → has s i = true → 0 ≤ i < m_nSize s.
Proof.
  intros Hs H. assert (0 ≤ i) by (unfold has in H; apply andb_true_iff in H as [H _]; lia).
  split; [done|]. apply Z.nle_gt. intros Hi. by rewrite (so_tail s Hs i Hi) in H.
Qed.

(** The bits of a word of the array. *)
Lemma has_word s k w j :
  m_p_nArray s !! k = Some w → 0 ≤ j < 64 → has s (64 * Z.of_nat k + j) = Z.testbit w j.
Proof.
  intros Hw Hj. unfold has. rewrite (proj2 (Z.leb_le 0 _)) by lia.
  replace (64 * Z.of_nat k + j) with (j + Z.of_nat k * 64) by lia.
  by rewrite Z.div_add, Z.mod_add, Z.div_small, Z.mod_small, Z.add_0_l, Nat2Z.id, Hw by lia.
Qed.

Lemma has_lookup s i w :
  0 ≤ i → m_p_nArray s !! Z.to_nat (i / 64) = Some w → has s i = Z.testbit w (i `mod` 64).
Proof. intros Hi Hw. unfold has. by rewrite (proj2 (Z.leb_le 0 i)), Hw. Qed.

Lemma mod64 i : 0 ≤ i `mod` 64 < 64.
Proof. apply Z.mod_pos_bound. lia. Qed.

Lemma bit_spec i j : 0 ≤ j < 64 → Z.testbit (bit i) j = (j =? i `mod` 64).
Proof.
  intros Hj. unfold bit. rewrite u64_bit, Z.shiftl_1_l by done. change 63 with (Z.ones 6). rewrite Z.land_ones by lia.
  change (2 ^ 6) with 64. by rewrite Z.pow2_bits_eqb, Z.eqb_sym by apply mod64.
Qed.

(** ** One node *)

Section node.
Variables (s : NodeSet) (i : Z).
Hypotheses (Hs : set_ok s) (Hi : 0 ≤ i < m_nSize s).

Lemma word_at_spec : ∃ w, word_at (Z.shiftr i 6) s = Ret w ∧ m_p_nArray s !! Z.to_nat (i / 64) = Some w ∧ word w.
Proof.
  destruct (index_word s i Hs Hi) as (w & Hw & Hword). exists w. unfold word_at. rewrite Z.shiftr_div_pow2 by lia.
  change (2 ^ 6) with 64. rewrite (proj2 (Z.ltb_ge (i / 64) 0)) by (apply Z.div_pos; lia).
  split; [by apply at_idx_Some|done].
Qed.

Lemma set_word_ok w w' :
  m_p_nArray s !! Z.to_nat (i / 64) = Some w → word w' →
  (∀ j, 0 ≤ j < 64 → j ≠ i `mod` 64 → Z.testbit w' j = Z.testbit w j) →
  let s' := set_word (Z.shiftr i 6) w' s in
  set_ok s' ∧ m_nSize s' = m_nSize s ∧
  ∀ j, has s' j = if j =? i then Z.testbit w' (i `mod` 64) else has s j.
Proof.
  intros Hw Hword Hrest s'.
  assert (Ek : Z.to_nat (Z.shiftr i 6) = Z.to_nat (i / 64)).
  { rewrite Z.shiftr_div_pow2 by lia. done. }
  assert (Hhas : ∀ j, has s' j = if j =? i then Z.testbit w' (i `mod` 64) else has s j).
  { intros j. unfold has, s'. cbn [set_word m_p_nArray]. rewrite Ek. destruct (Z.leb_spec 0 j) as [Hj|Hj]; cbn [andb].
    - destruct (decide (j / 64 = i / 64)) as [E|E].
      + rewrite E, Hw, list_lookup_insert_eq by by eapply lookup_lt_Some.
        pose proof (Z.div_mod j 64 ltac:(lia)). pose proof (Z.div_mod i 64 ltac:(lia)).
        destruct (Z.eqb_spec j i) as [->|Hne]; [done|]. apply Hrest; [apply mod64|lia].
      + rewrite list_lookup_insert_ne by (pose proof (Z.div_pos j 64); pose proof (Z.div_pos i 64); lia).
        destruct (Z.eqb_spec j i) as [->|]; [done|done].
    - destruct (Z.eqb_spec j i); [lia|done]. }
  split; [|done]. destruct Hs as [S1 S2 S3 S4]. split; cbn; [done|by rewrite length_insert| |].
  - intros x (k & Hk)%list_elem_of_lookup. apply list_lookup_insert_Some in Hk as [(_ & <- & _)|[_ Hk]]; [done|].
    by eapply S3, list_elem_of_lookup_2.
  - intros j Hj. rewrite Hhas. destruct (Z.eqb_spec j i); [lia|]. by apply S4.
Qed.

Lemma set_add_spec : ∃ s', add i s = Ret s' ∧ set_ok s' ∧ m_nSize s' = m_nSize s ∧ members s' = {[i]} ∪ members s.
Proof.
  destruct word_at_spec as (w & E & Hw & Hword). unfold add. rewrite E. cbn [mbind outcome_bind].
  eexists. split; [done|]. edestruct (set_word_ok w _ Hw (i64_word (Z.lor (u64 w) (bit i)))) as (Hok & Hsz & Hhas).
  { intros j Hj Hne. rewrite i64_bit, Z.lor_spec, u64_bit, bit_spec by done.
    rewrite (proj2 (Z.eqb_neq j _)) by done. apply orb_false_r. }
  split; [exact Hok|]. split; [exact Hsz|]. apply members_ext; [done|]. intros j. rewrite Hhas.
  rewrite i64_bit, Z.lor_spec, u64_bit, bit_spec, Z.eqb_refl, orb_true_r by apply mod64.
  rewrite elem_of_union, elem_of_singleton, elem_members by done. destruct (Z.eqb_spec j i); naive_solver.
Qed.

Lemma set_remove_spec : ∃ s', remove i s = Ret s' ∧ set_ok s' ∧ m_nSize s' = m_nSize s ∧ members s' = members s ∖ {[i]}.
Proof.
  destruct word_at_spec as (w & E & Hw & Hword). unfold remove. rewrite E. cbn [mbind outcome_bind].
  eexists. split; [done|].
  edestruct (set_word_ok w _ Hw (i64_word (Z.land (u64 w) (u64 (Z.lnot (bit i)))))) as (Hok & Hsz & Hhas).
  { intros j Hj Hne. rewrite i64_bit, Z.land_spec, !u64_bit, Z.lnot_spec, bit_spec by lia.
    rewrite (proj2 (Z.eqb_neq j _)) by done. apply andb_true_r. }
  split; [exact Hok|]. split; [exact Hsz|]. apply members_ext; [done|]. intros j. rewrite Hhas. pose proof (mod64 i).
  rewrite i64_bit, Z.land_spec, !u64_bit, Z.lnot_spec, bit_spec, Z.eqb_refl, andb_false_r by lia.
  rewrite elem_of_difference, elem_of_singleton, elem_members by done. destruct (Z.eqb_spec j i); naive_solver.
Qed.

Lemma set_isElement_spec : isElement i s = Ret (bool_decide (i ∈ members s)).
Proof.
  destruct word_at_spec as (w & E & Hw & Hword). unfold isElement. rewrite E. cbn [mbind outcome_bind]. f_equal.
  apply eq_true_iff_eq. rewrite bool_decide_eq_true, elem_members, (has_lookup s i w) by (done || lia).
  rewrite negb_true_iff, Z.eqb_neq. pose proof (mod64 i) as Hm. split.
  - intros Hne. apply not_false_iff_true. intros Hf. apply Hne. apply Z.bits_inj'. intros n Hn.
    rewrite Z.land_spec, Z.bits_0. destruct (decide (n < 64)).
    + rewrite u64_bit, bit_spec by lia. destruct (Z.eqb_spec n (i `mod` 64)) as [->|]; [by rewrite Hf|apply andb_false_r].
    + unfold u64. by rewrite Z.mod_pow2_bits_high by lia.
  - intros Ht E0. pose proof (f_equal (λ z, Z.testbit z (i `mod` 64)) E0) as Eb. cbn beta in Eb.
    rewrite Z.land_spec, u64_bit, bit_spec, Z.eqb_refl, Z.bits_0, Ht in Eb by done. done.
Qed.
End node.

(** ** Two sets of the same size *)

Definition bitwise (f : Z → Z → Z) (g : bool → bool → bool) : Prop :=
  ∀ x y n, 0 ≤ n → Z.testbit (f x y) n = g (Z.testbit x n) (Z.testbit y n).

Lemma lor_bitwise : bitwise Z.lor orb.
Proof. intros x y n _. apply Z.lor_spec. Qed.

Lemma land_bitwise : bitwise Z.land andb.
Proof. intros x y n _. apply Z.land_spec. Qed.

Lemma ldiff_bitwise : bitwise (λ a b, Z.land a (Z.lnot b)) (λ a b, a && negb b).
Proof. intros x y n Hn. by rewrite Z.land_spec, Z.lnot_spec. Qed.

Section pairs.
Variables s t : NodeSet.
Hypotheses (Hs : set_ok s) (Ht : set_ok t) (Hst : m_nSize s = m_nSize t).

Lemma same_length : length (m_p_nArray s) = length (m_p_nArray t).
Proof. rewrite (so_len s Hs), (so_len t Ht). unfold m_nArrayLen. by rewrite Hst. Qed.

Lemma same_lookup k x : m_p_nArray s !! k = Some x → ∃ y, m_p_nArray t !! k = Some y ∧ word x ∧ word y.
Proof.
  intros Hx. pose proof (lookup_lt_Some _ _ _ Hx) as Hk. rewrite same_length in Hk.
  destruct (lookup_lt_is_Some_2 _ _ Hk) as [y Hy]. exists y. split; [done|].
  split; [by eapply (so_words s Hs), list_elem_of_lookup_2|by eapply (so_words t Ht), list_elem_of_lookup_2].
Qed.

Lemma zip_ok f g :
  bitwise f g → g false false = false →
  set_ok (zip_words f s t) ∧ ∀ i, has (zip_words f s t) i = g (has s i) (has t i).
Proof.
  intros Hf Hg.
  assert (Hhas : ∀ i, has (zip_words f s t) i = g (has s i) (has t i)).
  { intros i. unfold has. destruct (0 <=? i); cbn [andb]; [|done]. cbn [zip_words m_p_nArray].
    rewrite lookup_zip_with. destruct (m_p_nArray s !! Z.to_nat (i / 64)) as [x|] eqn:Ex; cbn.
    - destruct (same_lookup _ _ Ex) as (y & Ey & _). rewrite Ey. cbn. apply Hf. apply mod64.
    - destruct (m_p_nArray t !! Z.to_nat (i / 64)) eqn:Ey; [|done]. apply lookup_lt_Some in Ey.
      apply lookup_ge_None in Ex. pose proof same_length. lia. }
  split; [|done]. destruct Hs as [S1 S2 S3 S4]. split; cbn.
  - done.
  - rewrite length_zip_with, <- same_length, Nat.min_id. exact S2.
  - intros w (k & Hk)%list_elem_of_lookup. apply lookup_zip_with_Some in Hk as (x & y & -> & Hx & Hy).
    destruct (same_lookup k x Hx) as (y' & Hy' & Hwx & Hwy). simplify_eq. by apply (word_bitwise f g).
  - intros i Hi. rewrite Hhas, (S4 i Hi), (so_tail t Ht i) by lia. done.
Qed.

(** A test of all pairs of words is a test of all pairs of bits. *)
Lemma zip_forall (p : Z → Z → bool) (q : bool → bool → Prop) :
  q false false →
  (∀ a b, word a → word b → p a b = true ↔ ∀ j, 0 ≤ j < 64 → q (Z.testbit a j) (Z.testbit b j)) →
  forallb id (zip_with p (m_p_nArray s) (m_p_nArray t)) = true ↔ ∀ i, q (has s i) (has t i).
Proof.
  intros Hq Hp. rewrite forallb_forall. split.
  - intros H i. destruct (has s i || has t i) eqn:E; [|by apply orb_false_iff in E as [-> ->]].
    assert (Hi : 0 ≤ i < m_nSize s).
    { apply orb_true_iff in E as [E|E]; [by apply (has_range s)|rewrite Hst; by apply (has_range t)]. }
    destruct (index_word s i Hs Hi) as (x & Hx & _). destruct (same_lookup _ _ Hx) as (y & Hy & Hwx & Hwy).
    rewrite (has_lookup s i x), (has_lookup t i y) by (done || lia). apply Hp; [done..| |apply mod64].
    apply H. apply list_elem_of_In, list_elem_of_lookup. exists (Z.to_nat (i / 64)).
    apply lookup_zip_with_Some. by exists x, y.
  - intros H b (k & Hk)%list_elem_of_In%list_elem_of_lookup. apply lookup_zip_with_Some in Hk as (x & y & -> & Hx & Hy).
    destruct (same_lookup k x Hx) as (y' & Hy' & Hwx & Hwy). simplify_eq. apply Hp; [done..|]. intros j Hj.
    rewrite <- (has_word s k x j), <- (has_word t k y j) by done. apply H.
Qed.

Lemma addSet_spec : ∃ r, addSet s t = Ret r ∧ set_ok r ∧ m_nSize r = m_nSize s ∧ members r = members s ∪ members t.
Proof.
  unfold addSet, getSize. rewrite (proj2 (Z.eqb_eq _ _) Hst). eexists. split; [done|].
  destruct (zip_ok _ _ lor_bitwise eq_refl) as [Hok Hhas]. split; [done|]. split; [done|]. apply members_ext; [done|].
  intros i. by rewrite Hhas, orb_true_iff, elem_of_union, !elem_members.
Qed.

Lemma removeSet_spec : ∃ r, removeSet s t = Ret r ∧ set_ok r ∧ m_nSize r = m_nSize s ∧ members r = members s ∖ members t.
Proof.
  unfold removeSet, getSize. rewrite (proj2 (Z.eqb_eq _ _) Hst). eexists. split; [done|].
  destruct (zip_ok _ _ ldiff_bitwise eq_refl) as [Hok Hhas]. split; [done|]. split; [done|]. apply members_ext; [done|].
  intros i. rewrite Hhas, andb_true_iff, negb_true_iff, elem_of_difference, !elem_members, not_true_iff_false by done. done.
Qed.

Lemma set_OR_spec : 0 < m_nSize s → ∃ r, OR s t = Ret r ∧ set_ok r ∧ m_nSize r = m_nSize s ∧ members r = members s ∪ members t.
Proof.
  intros Hpos. unfold OR, new_Set. rewrite (proj2 (Z.ltb_lt _ _) Hpos), (proj2 (Z.eqb_eq _ _) Hst).
  destruct addSet_spec as (r & E & H). exists r. split; [|done]. unfold addSet, getSize in E.
  by rewrite (proj2 (Z.eqb_eq _ _) Hst) in E.
Qed.

Lemma set_AND_spec : 0 < m_nSize s → ∃ r, AND s t = Ret r ∧ set_ok r ∧ m_nSize r = m_nSize s ∧ members r = members s ∩ members t.
Proof.
  intros Hpos. unfold AND, new_Set. rewrite (proj2 (Z.ltb_lt _ _) Hpos), (proj2 (Z.eqb_eq _ _) Hst).
  eexists. split; [done|]. destruct (zip_ok _ _ land_bitwise eq_refl) as [Hok Hhas].
  split; [done|]. split; [done|]. apply members_ext; [done|].
  intros i. by rewrite Hhas, andb_true_iff, elem_of_intersection, !elem_members.
Qed.

Lemma isEqual_spec : isEqual s t = Ret (bool_decide (members s = members t)).
Proof.
  unfold isEqual. rewrite (proj2 (Z.eqb_eq _ _) Hst). cbn [assertb mbind outcome_bind]. f_equal. apply eq_true_iff_eq.
  rewrite (zip_forall Z.eqb (λ a b, a = b)), bool_decide_eq_true; [|done|].
  - split; [|intros E i; apply eq_true_iff_eq; by rewrite <- !elem_members, E].
    intros H. apply set_eq. intros i. by rewrite !elem_members, H.
  - intros a b Ha Hb. rewrite Z.eqb_eq. split; [by intros ->|by apply word_eq].
Qed.

Lemma set_isSuperset_spec : isSuperset s t = Ret (bool_decide (members t ⊆ members s)).
Proof.
  unfold isSuperset. rewrite (proj2 (Z.eqb_eq _ _) Hst). cbn [assertb mbind outcome_bind]. f_equal. apply eq_true_iff_eq.
  rewrite (zip_forall _ (λ a b, b = true → a = true)), bool_decide_eq_true; [|done|].
  - split; intros H i; [rewrite !elem_members by done; apply H|]. rewrite <- !elem_members by done. apply H.
  - intros a b Ha Hb.
    assert (Hbits : bitwise (λ a b, Z.lor (Z.land b a) (Z.lnot b)) (λ a b, b && a || negb b)).
    { intros x y n Hn. by rewrite Z.lor_spec, Z.land_spec, Z.lnot_spec. }
    rewrite Z.eqb_eq, word_ones by by apply (word_bitwise (λ a b, Z.lor (Z.land b a) (Z.lnot b)) (λ a b, b && a || negb b)).
    split; intros H j Hj; specialize (H j Hj).
    + rewrite (Hbits a b j) in H by lia. by destruct (Z.testbit a j), (Z.testbit b j).
    + rewrite (Hbits a b j) by lia. destruct (Z.testbit a j), (Z.testbit b j); auto.
Qed.

Lemma no_common_spec :
  existsb id (zip_with (λ a b, negb (Z.land a b =? 0)) (m_p_nArray s) (m_p_nArray t)) =
  negb (bool_decide (members s ∩ members t = ∅)).
Proof.
  assert (E : ∀ l1 l2, existsb id (zip_with (λ a b, negb (Z.land a b =? 0)) l1 l2) =
    negb (forallb id (zip_with (λ a b, Z.land a b =? 0) l1 l2))).
  { induction l1 as [|a l1 IH]; intros [|b l2]; cbn; [done..|]. rewrite IH. by destruct (Z.land a b =? 0). }
  rewrite E. f_equal. apply eq_true_iff_eq.
  rewrite (zip_forall _ (λ a b, a && b = false)), bool_decide_eq_true; [|done|].
  - split; [|intros Em i; apply not_true_iff_false; rewrite andb_true_iff, <- !elem_members by done; set_solver].
    intros H. apply set_eq. intros i. rewrite elem_of_intersection, !elem_members, <- andb_true_iff, H by done. set_solver.
  - intros a b Ha Hb. rewrite Z.eqb_eq, word_zero by by apply (word_bitwise Z.land andb); [apply land_bitwise|..].
    split; intros H j Hj; specialize (H j Hj); [by rewrite Z.land_spec in H|by rewrite Z.land_spec].
Qed.
End pairs.

(** ** Counting *)

Definition bits (P : Z → bool) (from n : Z) : nat := length (filter (λ j, P j = true) (seqZ from n)).

Lemma bits_cons P k n : bits P k (Z.of_nat (S n)) = ((if P k then 1 else 0) + bits P (k + 1) (Z.of_nat n))%nat.
Proof.
  unfold bits. rewrite seqZ_cons by lia. rewrite filter_cons. replace (Z.succ k) with (k + 1) by lia.
  replace (Z.pred (Z.of_nat (S n))) with (Z.of_nat n) by lia. by destruct (P k).
Qed.

Lemma bits_app P k n1 n2 : 0 ≤ n1 → 0 ≤ n2 → bits P k (n1 + n2) = (bits P k n1 + bits P (k + n1) n2)%nat.
Proof. intros H1 H2. unfold bits. by rewrite seqZ_app, filter_app, length_app. Qed.

Lemma bits_ext P Q k k' n :
  (∀ j, 0 ≤ j < Z.of_nat n → P (k + j) = Q (k' + j)) → bits P k (Z.of_nat n) = bits Q k' (Z.of_nat n).
Proof.
  revert k k'. induction n as [|n IH]; intros k k' H; [done|]. rewrite !bits_cons.
  pose proof (H 0 ltac:(lia)) as H0. rewrite !Z.add_0_r in H0. rewrite H0. f_equal. apply IH. intros j Hj.
  replace (k + 1 + j) with (k + (j + 1)) by lia. replace (k' + 1 + j) with (k' + (j + 1)) by lia. apply H. lia.
Qed.

Lemma count_word_spec w n : ∀ k counter, word w → 0 ≤ k → k + Z.of_nat n = 64 → 0 ≤ counter →
  counter + Z.of_nat (bits (Z.testbit w) k (Z.of_nat n)) < 2 ^ 31 →
  count_word n w (i64 (2 ^ k)) counter = counter + Z.of_nat (bits (Z.testbit w) k (Z.of_nat n)).
Proof.
  induction n as [|n IH]; intros k c Hw Hk Hkn Hc Hb; [change (bits (Z.testbit w) k (Z.of_nat 0)) with 0%nat; cbn [count_word]; lia|].
  rewrite bits_cons in *. cbn [count_word]. rewrite land_mask, mask_next by (done || lia).
  destruct (Z.testbit w k); cbn [negb]; [rewrite i32_id by lia|]; rewrite IH; (done || lia).
Qed.

(** The words up to [k] count the elements below [64 k]. *)
Lemma count_prefix s k : set_ok s → (k ≤ m_nArrayLen s)%nat →
  foldl (λ counter w, count_word 64 w 1 counter) 0 (take k (m_p_nArray s)) = Z.of_nat (bits (has s) 0 (64 * Z.of_nat k)).
Proof.
  intros Hs. pose proof (so_size s Hs) as Hsz.
  assert (Hbound : ∀ n, (bits (has s) 0 (Z.of_nat n) ≤ Z.to_nat (m_nSize s))%nat).
  { intros n. destruct (decide (Z.of_nat n ≤ m_nSize s)) as [Hn|Hn].
    - unfold bits. etrans; [apply length_filter|]. rewrite length_seqZ. lia.
    - replace (Z.of_nat n) with (m_nSize s + Z.of_nat (n - Z.to_nat (m_nSize s))) by lia.
      rewrite bits_app by lia. rewrite (bits_ext (has s) (λ _, false) (0 + m_nSize s) 0).
      + assert (E : ∀ m, bits (λ _, false) 0 (Z.of_nat m) = 0%nat).
        { intros m. unfold bits. induction (seqZ 0 (Z.of_nat m)); cbn; done. }
        rewrite E, Nat.add_0_r. unfold bits. etrans; [apply length_filter|]. by rewrite length_seqZ.
      + intros j Hj. apply (so_tail s Hs). lia. }
  induction k as [|k IH]; intros Hk; [done|]. specialize (IH ltac:(lia)).
  destruct (lookup_lt_is_Some_2 (m_p_nArray s) k) as [w Hw]; [rewrite (so_len s Hs); lia|].
  rewrite (take_S_r _ _ _ Hw), foldl_app, IH. cbn [foldl].
  assert (Hword : word w) by by eapply (so_words s Hs), list_elem_of_lookup_2.
  assert (Ew : bits (Z.testbit w) 0 64 = bits (has s) (64 * Z.of_nat k) 64).
  { apply (bits_ext (Z.testbit w) (has s) 0 (64 * Z.of_nat k) 64). intros j Hj. rewrite Z.add_0_l. symmetry. by apply has_word. }
  assert (Esum : bits (has s) 0 (64 * Z.of_nat (S k)) = (bits (has s) 0 (64 * Z.of_nat k) + bits (Z.testbit w) 0 64)%nat).
  { replace (64 * Z.of_nat (S k)) with (64 * Z.of_nat k + 64) by lia. by rewrite bits_app, Ew, Z.add_0_l by lia. }
  pose proof (Hbound (64 * S k)%nat) as Hb. rewrite Nat2Z.inj_mul in Hb. change (Z.of_nat 64) with 64 in Hb.
  rewrite Esum in Hb. rewrite Esum.
  pose proof (count_word_spec w 64 0 (Z.of_nat (bits (has s) 0 (64 * Z.of_nat k))) Hword) as Hc.
  change (i64 (2 ^ 0)) with 1 in Hc. change (Z.of_nat 64) with 64 in Hc. rewrite Hc; lia.
Qed.

Lemma members_size s : set_ok s → size (members s) = bits (has s) 0 (m_nSize s).
Proof.
  intros Hs. unfold members, bits. rewrite size_list_to_set; [done|]. apply NoDup_filter, NoDup_seqZ.
Qed.

Lemma set_count_spec s : set_ok s → count s = Z.of_nat (size (members s)).
Proof.
  intros Hs. unfold count. rewrite <- (take_ge (m_p_nArray s) (m_nArrayLen s)) by by rewrite (so_len s Hs).
  rewrite count_prefix by done. rewrite members_size by done. f_equal.
  pose proof (so_size s Hs) as Hsz. unfold m_nArrayLen. rewrite array_len_spec by lia.
  set (q := (m_nSize s + 63) / 64).
  assert (Hq : m_nSize s ≤ 64 * q).
  { pose proof (Z.div_mod (m_nSize s + 63) 64 ltac:(lia)). pose proof (Z.mod_pos_bound (m_nSize s + 63) 64 ltac:(lia)). lia. }
  replace (64 * Z.of_nat (Z.to_nat q)) with (m_nSize s + (64 * q - m_nSize s)) by lia.
  rewrite bits_app by lia. replace (64 * q - m_nSize s) with (Z.of_nat (Z.to_nat (64 * q - m_nSize s))) by lia.
  rewrite (bits_ext (has s) (λ _, false) (0 + m_nSize s) 0).
  - unfold bits at 2. replace (filter _ _) with (@nil Z); [cbn; lia|].
    induction (seqZ 0 (Z.of_nat (Z.to_nat (64 * q - m_nSize s)))); cbn; done.
  - intros j Hj. apply (so_tail s Hs). lia.
Qed.

Lemma set_isEmpty_spec s : set_ok s → isEmpty s = bool_decide (members s = ∅).
Proof.
  intros Hs. apply eq_true_iff_eq. rewrite bool_decide_eq_true. unfold isEmpty. rewrite forallb_forall. split.
  - intros H. apply set_eq. intros i. rewrite elem_members by done. split; [|set_solver]. intros Hi.
    pose proof (has_range s i Hs Hi). destruct (index_word s i Hs) as (w & Hw & _); [done|].
    rewrite (has_lookup s i w) in Hi by (done || lia).
    specialize (H w (proj1 (list_elem_of_In _ _) (list_elem_of_lookup_2 _ _ _ Hw))). apply Z.eqb_eq in H as ->.
    by rewrite Z.bits_0 in Hi.
  - intros Em w (k & Hk)%list_elem_of_In%list_elem_of_lookup. apply Z.eqb_eq, word_zero.
    { by eapply (so_words s Hs), list_elem_of_lookup_2. }
    intros j Hj. rewrite <- (has_word s k w j Hk Hj). apply not_true_iff_false. rewrite <- elem_members, Em by done. set_solver.
Qed.

(** ** The least element *)

Lemma land_1 x : (Z.land x 1 =? 0) = negb (Z.testbit x 0).
Proof.
  change 1 with (Z.ones 1). rewrite Z.land_ones by lia. change (2 ^ 1) with 2. rewrite <- Z.bit0_mod.
  by destruct (Z.testbit x 0).
Qed.

Lemma first_bit_spec n : ∀ x j,
  match first_bit n x j with
  | Some r => ∃ k, r = j + k ∧ 0 ≤ k < Z.of_nat n ∧ Z.testbit x k = true ∧ ∀ i, 0 ≤ i < k → Z.testbit x i = false
  | None => ∀ i, 0 ≤ i < Z.of_nat n → Z.testbit x i = false
  end.
Proof.
  induction n as [|n IH]; intros x j; cbn [first_bit]; [intros i Hi; lia|]. rewrite land_1.
  destruct (Z.testbit x 0) eqn:E0; cbn [negb].
  - exists 0. split; [lia|]. split; [lia|]. split; [done|]. intros i Hi. lia.
  - specialize (IH (Z.shiftr x 1) (j + 1)). destruct (first_bit n (Z.shiftr x 1) (j + 1)) as [r|].
    + destruct IH as (k & -> & Hk & Ht & Hf). exists (k + 1). rewrite Z.shiftr_spec in Ht by lia.
      split; [lia|]. split; [lia|]. split; [done|]. intros i Hi. destruct (decide (i = 0)) as [->|]; [done|].
      specialize (Hf (i - 1) ltac:(lia)). rewrite Z.shiftr_spec in Hf by lia. by rewrite Z.sub_add in Hf.
    + intros i Hi. destruct (decide (i = 0)) as [->|]; [done|].
      specialize (IH (i - 1) ltac:(lia)). rewrite Z.shiftr_spec in IH by lia. by rewrite Z.sub_add in IH.
Qed.

Lemma below_word s k w j :
  m_p_nArray s !! k = Some w → (∀ j, j < 64 * Z.of_nat k → has s j = false) →
  (∀ i, 0 ≤ i < j → Z.testbit w i = false) → j ≤ 64 → ∀ i, i < 64 * Z.of_nat k + j → has s i = false.
Proof.
  intros Hw Hlow Hf Hj i Hi. destruct (decide (i < 64 * Z.of_nat k)) as [|Hge]; [by apply Hlow|].
  replace i with (64 * Z.of_nat k + (i - 64 * Z.of_nat k)) by lia. rewrite (has_word s k w) by (done || lia).
  apply Hf. lia.
Qed.

Lemma first_word_spec s n : ∀ k,
  set_ok s → (k + n = m_nArrayLen s)%nat → (∀ j, j < 64 * Z.of_nat k → has s j = false) →
  match first_word (drop k (m_p_nArray s)) (Z.of_nat k) with
  | Ret r => has s r = true ∧ ∀ j, j < r → has s j = false
  | Raise e => e = AssertFailed ∧ ∀ j, has s j = false
  end.
Proof.
  induction n as [|n IH]; intros k Hs Hkn Hlow.
  - rewrite drop_ge by (rewrite (so_len s Hs); lia). cbn. split; [done|]. intros j. apply not_true_iff_false. intros Hj.
    pose proof (has_range s j Hs Hj) as Hr. pose proof (so_size s Hs). destruct (decide (j < 64 * Z.of_nat k)) as [Hlt|Hge].
    + by rewrite Hlow in Hj.
    + destruct (index_word s j Hs Hr) as (w & Hw & _). apply lookup_lt_Some in Hw. rewrite (so_len s Hs) in Hw.
      assert (Z.of_nat k ≤ j / 64) by (apply Z.div_le_lower_bound; lia). lia.
  - destruct (lookup_lt_is_Some_2 (m_p_nArray s) k) as [w Hw]; [rewrite (so_len s Hs); lia|].
    rewrite (drop_S _ _ _ Hw). cbn [first_word].
    assert (Hword : word w) by by eapply (so_words s Hs), list_elem_of_lookup_2.
    pose proof (first_bit_spec 64 w 0) as Hfb. destruct (Z.eqb_spec w 0) as [->|Hne].
    + replace (Z.of_nat k + 1) with (Z.of_nat (S k)) by lia. apply IH; [done|lia|].
      replace (64 * Z.of_nat (S k)) with (64 * Z.of_nat k + 64) by lia. apply (below_word s k 0 64 Hw Hlow); [|lia].
      intros. apply Z.bits_0.
    + destruct (first_bit 64 w 0) as [r|].
      * destruct Hfb as (j & -> & Hj & Ht & Hf). rewrite Z.add_0_l. split; [by rewrite (has_word s k w)|].
        apply (below_word s k w j Hw Hlow); [done|lia].
      * destruct Hne. by apply word_zero.
Qed.

Lemma smallestElement_spec s : set_ok s →
  (members s = ∅ ∧ smallestElement s = Raise AssertFailed) ∨
  ∃ i, smallestElement s = Ret i ∧ i ∈ members s ∧ ∀ j, j ∈ members s → i ≤ j.
Proof.
  intros Hs. unfold smallestElement. rewrite set_count_spec by done.
  destruct (decide (members s = ∅)) as [E|Hne]; [left; rewrite E; done|]. right.
  assert (size (members s) ≠ 0%nat) by (intros E; by apply Hne, leibniz_equiv, size_empty_inv).
  rewrite (proj2 (Z.ltb_lt 0 _)) by lia. cbn [assertb mbind outcome_bind].
  pose proof (first_word_spec s (m_nArrayLen s) 0 Hs ltac:(lia)) as H0. rewrite drop_0 in H0. change (Z.of_nat 0) with 0 in H0.
  specialize (H0 ltac:(intros j Hj; unfold has; by rewrite (proj2 (Z.leb_gt 0 j)) by lia)).
  destruct (first_word (m_p_nArray s) 0) as [r|e].
  - destruct H0 as [Hr Hlow]. exists r. split; [done|]. rewrite elem_members by done. split; [done|].
    intros j Hj. apply elem_members in Hj; [|done]. apply Z.nlt_ge. intros Hlt. by rewrite Hlow in Hj.
  - destruct H0 as [_ Hnone]. destruct Hne. apply set_eq. intros i. rewrite elem_members, Hnone by done. set_solver.
Qed.

(** ** All nodes *)

Definition nodes (n : Z) : gset Z := list_to_set (seqZ 0 n).

Lemma elem_nodes n i : i ∈ nodes n ↔ 0 ≤ i < n.
Proof. unfold nodes. rewrite elem_of_list_to_set, elem_of_seqZ. lia. Qed.

Lemma mask_loop_bit n : ∀ m w j, 0 ≤ j → 0 ≤ m → Z.of_nat n ≤ m + 1 →
  Z.testbit (mask_loop n (Z.ones m) w) j = Z.testbit w j && ((n =? 0)%nat || (j <? m - Z.of_nat n + 1)).
Proof.
  induction n as [|n IH]; intros m w j Hj Hm Hn; cbn [mask_loop]; [by rewrite andb_true_r|]. cbn [Nat.eqb orb].
  destruct (decide (m = 0)) as [->|].
  - assert (n = 0)%nat as -> by lia. cbn [mask_loop]. rewrite Z.land_spec. change (Z.ones 0) with 0. rewrite Z.bits_0.
    rewrite (proj2 (Z.ltb_ge j _)) by lia. done.
  - replace (Z.shiftr (Z.ones m) 1) with (Z.ones (m - 1)).
    + rewrite IH, Z.land_spec, Z.testbit_ones_nonneg by lia. rewrite <- andb_assoc. f_equal.
      destruct n as [|n]; cbn [Nat.eqb orb].
      * rewrite andb_true_r. f_equal. lia.
      * destruct (Z.ltb_spec j m), (Z.ltb_spec j (m - 1 - Z.of_nat (S n) + 1)), (Z.ltb_spec j (m - Z.of_nat (S (S n)) + 1)); cbn; lia.
    + rewrite Z.shiftr_div_pow2 by lia. symmetry. apply (Z.ones_div_pow2 m 1). lia.
Qed.

Lemma array_len_le size i : 0 < size → 64 * array_len size ≤ i → size ≤ i.
Proof.
  intros Hs. rewrite array_len_spec by lia. pose proof (Z.div_mod (size + 63) 64 ltac:(lia)).
  pose proof (mod64 (size + 63)). lia.
Qed.

Lemma trim_spec s :
  0 < m_nSize s < 2 ^ 31 → length (m_p_nArray s) = m_nArrayLen s → (∀ w, w ∈ m_p_nArray s → word w) →
  set_ok (trim s) ∧ m_nSize (trim s) = m_nSize s ∧ ∀ i, has (trim s) i = has s i && (i <? m_nSize s).
Proof.
  intros Hsz Hlen Hwords. set (len := m_nArrayLen s) in *.
  assert (Hla : Z.of_nat len = (m_nSize s + 63) / 64).
  { unfold len, m_nArrayLen. rewrite array_len_spec by lia. rewrite Z2Nat.id; [done|]. apply Z.div_pos; lia. }
  pose proof (Z.div_mod (m_nSize s + 63) 64 ltac:(lia)) as D1. pose proof (mod64 (m_nSize s + 63)) as D2.
  pose proof (Z.div_mod (m_nSize s) 64 ltac:(lia)) as D3. pose proof (mod64 (m_nSize s)) as D4.
  assert (Hpast : ∀ t i, m_p_nArray t !! Z.to_nat (i / 64) = None → has t i = false).
  { intros t i H. unfold has. rewrite H. apply andb_false_r. }
  unfold trim. fold len. rewrite Z.rem_mod_nonneg by lia. destruct (Z.eqb_spec (m_nSize s `mod` 64) 0) as [E0|Hne].
  - assert (Hhas : ∀ i, has s i = has s i && (i <? m_nSize s)).
    { intros i. destruct (Z.ltb_spec i (m_nSize s)); [by rewrite andb_true_r|]. rewrite andb_false_r. apply Hpast.
      apply lookup_ge_None. rewrite Hlen. assert (Z.of_nat len ≤ i / 64) by (apply Z.div_le_lower_bound; lia). lia. }
    split; [|done]. split; [lia|done|done|]. intros i Hi. rewrite Hhas, (proj2 (Z.ltb_ge i _)) by lia. apply andb_false_r.
  - set (n := Z.to_nat (64 - Z.land (m_nSize s) 63)).
    assert (Hn : Z.of_nat n = 64 - m_nSize s `mod` 64).
    { unfold n. change 63 with (Z.ones 6). rewrite Z.land_ones by lia. change (2 ^ 6) with 64. lia. }
    change 0x7FFFFFFFFFFFFFFF with (Z.ones 63). set (s' := mkSet _ _).
    assert (Hhas : ∀ i, has s' i = has s i && (i <? m_nSize s)).
    { intros i. unfold has. destruct (Z.leb_spec 0 i) as [Hi|]; [|done]. cbn [andb s' m_p_nArray].
      pose proof (Z.div_mod i 64 ltac:(lia)) as D5. pose proof (mod64 i) as D6. pose proof (Z.div_pos i 64 Hi ltac:(lia)).
      destruct (decide ((len - 1)%nat = Z.to_nat (i / 64))) as [E|E].
      - rewrite E, list_lookup_alter_eq. destruct (m_p_nArray s !! Z.to_nat (i / 64)) as [w|]; cbn; [|done].
        rewrite mask_loop_bit by lia. f_equal. rewrite (proj2 (Nat.eqb_neq n 0)) by lia. cbn [orb].
        destruct (Z.ltb_spec (i `mod` 64) (63 - Z.of_nat n + 1)), (Z.ltb_spec i (m_nSize s)); lia || done.
      - rewrite list_lookup_alter_ne by done. destruct (m_p_nArray s !! Z.to_nat (i / 64)) as [w|] eqn:Ew; [|done].
        apply lookup_lt_Some in Ew. rewrite (proj2 (Z.ltb_lt i _)) by lia. by rewrite andb_true_r. }
    split; [|done]. split; [cbn; lia|cbn; by rewrite length_alter| |].
    + intros w (k & Hk)%list_elem_of_lookup. cbn in Hk. rewrite list_lookup_alter in Hk. case_decide as E.
      * apply fmap_Some in Hk as (x & Hx & ->). intros j Hj.
        rewrite !mask_loop_bit by lia. rewrite (proj2 (Nat.eqb_neq n 0)) by lia. cbn [orb].
        rewrite !(proj2 (Z.ltb_ge _ (63 - Z.of_nat n + 1))) by lia. by rewrite !andb_false_r.
      * by eapply Hwords, list_elem_of_lookup_2.
    + intros i Hi. rewrite Hhas. change (m_nSize s') with (m_nSize s) in Hi. rewrite (proj2 (Z.ltb_ge i _)) by lia.
      apply andb_false_r.
Qed.

Lemma const_words_ok (c : Z) (l : list Z) :
  c = 0 ∨ c = -1 → ∀ w, w ∈ ((λ _, c) <$> l) → word w.
Proof. intros Hc w (x & -> & _)%list_elem_of_fmap. by apply word_const. Qed.

Lemma setSize_spec size : 0 ≤ size < 2 ^ 31 → set_ok (setSize size) ∧ members (setSize size) = ∅.
Proof.
  intros Hsz.
  assert (Hno : ∀ i, has (setSize size) i = false).
  { intros i. unfold has, setSize. cbn. destruct (replicate _ 0 !! _) eqn:E; [|apply andb_false_r].
    apply lookup_replicate in E as [-> _]. rewrite Z.bits_0. apply andb_false_r. }
  assert (Hok : set_ok (setSize size)).
  { split; cbn; [done|apply length_replicate| |intros i _; apply Hno].
    intros w (k & [-> _]%lookup_replicate)%list_elem_of_lookup. apply word_const. auto. }
  split; [done|]. apply members_ext; [done|]. intros i. rewrite Hno. set_solver.
Qed.

Lemma set_clear_spec s : set_ok s → set_ok (clear s) ∧ m_nSize (clear s) = m_nSize s ∧ members (clear s) = ∅.
Proof.
  intros Hs.
  assert (Hno : ∀ i, has (clear s) i = false).
  { intros i. unfold has, clear. cbn. rewrite list_lookup_fmap. destruct (m_p_nArray s !! _); cbn; [|apply andb_false_r].
    rewrite Z.bits_0. apply andb_false_r. }
  assert (Hok : set_ok (clear s)).
  { destruct Hs as [S1 S2 S3 S4]. split; cbn; [done|by rewrite length_fmap| |intros i _; apply Hno].
    apply const_words_ok. auto. }
  split; [done|]. split; [done|]. apply members_ext; [done|]. intros i. rewrite Hno. set_solver.
Qed.

Lemma set_broadcast_spec s : set_ok s → 0 < m_nSize s →
  set_ok (broadcast s) ∧ m_nSize (broadcast s) = m_nSize s ∧ members (broadcast s) = nodes (m_nSize s).
Proof.
  intros Hs Hpos. pose proof (so_size s Hs). unfold broadcast. set (s1 := mkSet _ _).
  destruct (trim_spec s1) as (Hok & Hsz & Hhas); [cbn; lia|unfold s1; cbn [m_p_nArray]; rewrite length_fmap; apply (so_len s Hs)| |].
  { apply const_words_ok. auto. }
  split; [done|]. split; [done|]. apply members_ext; [done|]. intros i.
  rewrite Hhas, elem_nodes, andb_true_iff, Z.ltb_lt. change (m_nSize s1) with (m_nSize s). split.
  - intros [Hi Hlt]. unfold has in Hi. apply andb_true_iff in Hi as [Hi _]. lia.
  - intros Hi. split; [|lia]. destruct (index_word s i Hs Hi) as (w & Hw & _).
    rewrite (has_lookup s1 i (-1)); [apply Z.bits_m1; apply mod64|lia|]. cbn. by rewrite list_lookup_fmap, Hw.
Qed.

Lemma all_bits_spec n w : ∀ k, word w → 0 ≤ k → k + Z.of_nat n ≤ 64 →
  all_bits n (i64 (2 ^ k)) w = true ↔ ∀ j, k ≤ j < k + Z.of_nat n → Z.testbit w j = true.
Proof.
  induction n as [|n IH]; intros k Hw Hk Hkn; cbn [all_bits]; [split; [intros _ j Hj; lia|done]|].
  rewrite Z.land_comm, land_mask, mask_next by (done || lia). destruct (Z.testbit w k) eqn:E; cbn [negb].
  - rewrite IH by (done || lia). split; intros H j Hj; [|apply H; lia].
    destruct (decide (j = k)) as [->|]; [done|]. apply H. lia.
  - split; [done|]. intros H. by rewrite H in E by lia.
Qed.

(** The elements of the words [from] to [upto]. *)
Lemma full_words s k : set_ok s → (k ≤ m_nArrayLen s)%nat →
  forallb (λ w, w =? -1) (take k (m_p_nArray s)) = true ↔ ∀ i, 0 ≤ i < 64 * Z.of_nat k → has s i = true.
Proof.
  intros Hs Hk. rewrite forallb_forall. split.
  - intros H i Hi. pose proof (Z.div_pos i 64 ltac:(lia) ltac:(lia)).
    assert (i / 64 < Z.of_nat k) by (apply Z.div_lt_upper_bound; lia).
    destruct (lookup_lt_is_Some_2 (m_p_nArray s) (Z.to_nat (i / 64))) as [w Hw]; [rewrite (so_len s Hs); lia|].
    rewrite (has_lookup s i w) by (done || lia).
    assert (w = -1) as ->; [|apply Z.bits_m1; apply mod64].
    apply Z.eqb_eq, H, list_elem_of_In, list_elem_of_lookup. exists (Z.to_nat (i / 64)).
    rewrite lookup_take_lt by lia. done.
  - intros H w (j & Hj)%list_elem_of_In%list_elem_of_lookup. apply lookup_take_Some in Hj as [Hw Hlt].
    apply Z.eqb_eq, word_ones; [by eapply (so_words s Hs), list_elem_of_lookup_2|].
    intros b Hb. rewrite <- (has_word s j w b) by done. apply H. lia.
Qed.

Lemma isBroadcast_spec s : set_ok s → 0 < m_nSize s → isBroadcast s = Ret (bool_decide (members s = nodes (m_nSize s))).
Proof.
  intros Hs Hpos. pose proof (so_size s Hs).
  assert (Hall : members s = nodes (m_nSize s) ↔ ∀ i, 0 ≤ i < m_nSize s → has s i = true).
  { split; [intros E i Hi; apply elem_members; [done|]; rewrite E; by apply elem_nodes|].
    intros Hi. apply set_eq. intros i. rewrite elem_members, elem_nodes by done. split; [by apply has_range|apply Hi]. }
  assert (Hla : Z.of_nat (m_nArrayLen s) = (m_nSize s + 63) / 64).
  { unfold m_nArrayLen. rewrite array_len_spec by lia. rewrite Z2Nat.id; [done|]. apply Z.div_pos; lia. }
  pose proof (Z.div_mod (m_nSize s + 63) 64 ltac:(lia)) as D1. pose proof (mod64 (m_nSize s + 63)) as D2.
  pose proof (Z.div_mod (m_nSize s) 64 ltac:(lia)) as D3. pose proof (mod64 (m_nSize s)) as D4.
  unfold isBroadcast. rewrite Z.rem_mod_nonneg by lia. destruct (Z.eqb_spec (m_nSize s `mod` 64) 0) as [E0|Hne].
  - pose proof (full_words s (m_nArrayLen s) Hs ltac:(lia)) as Hf. destruct (forallb _ _).
    + rewrite bool_decide_eq_true_2; [done|]. apply Hall. intros i Hi. apply Hf; [done|lia].
    + rewrite bool_decide_eq_false_2; [done|]. intros E. discriminate (proj2 Hf). intros i Hi. apply Hall; [done|lia].
  - pose proof (full_words s (m_nArrayLen s - 1) Hs ltac:(lia)) as Hf. destruct (forallb _ _).
    + destruct (lookup_lt_is_Some_2 (m_p_nArray s) (m_nArrayLen s - 1)) as [w Hw]; [rewrite (so_len s Hs); lia|].
      rewrite (at_idx_Some _ _ _ Hw). cbn [mbind outcome_bind]. f_equal. apply eq_true_iff_eq.
      assert (Hword : word w) by by eapply (so_words s Hs), list_elem_of_lookup_2.
      change 1 with (i64 (2 ^ 0)). rewrite all_bits_spec, bool_decide_eq_true, Hall by (done || lia).
      split; intros Hb i Hi.
      * destruct (decide (i < 64 * Z.of_nat (m_nArrayLen s - 1))); [apply Hf; [done|lia]|].
        replace i with (64 * Z.of_nat (m_nArrayLen s - 1) + (i - 64 * Z.of_nat (m_nArrayLen s - 1))) by lia.
        rewrite (has_word s _ w) by (done || lia). apply Hb. lia.
      * rewrite <- (has_word s _ w i Hw) by lia. apply Hb. lia.
    + rewrite bool_decide_eq_false_2; [done|]. intros E. discriminate (proj2 Hf). intros i Hi. apply Hall; [done|lia].
Qed.

(** The bit vector refines finite sets: every operation of [Set] on sets of
    the same size is the operation on the sets of their members, it keeps the
    representation, in particular no bit over the size is ever set, and no
    assertion fails but that of [smallestElement] on the empty set. *)
Theorem node_set_refines s t i :
  set_ok s → set_ok t → m_nSize s = m_nSize t → 0 ≤ i < m_nSize s →
  let returns (m : outcome NodeSet) (X : gset Z) :=
    ∃ r, m = Ret r ∧ set_ok r ∧ m_nSize r = m_nSize s ∧ members r = X in
  returns (add i s) ({[i]} ∪ members s) ∧ returns (remove i s) (members s ∖ {[i]}) ∧
  returns (addSet s t) (members s ∪ members t) ∧ returns (removeSet s t) (members s ∖ members t) ∧
  returns (OR s t) (members s ∪ members t) ∧ returns (AND s t) (members s ∩ members t) ∧
  returns (Ret (clear s)) ∅ ∧ returns (Ret (broadcast s)) (nodes (m_nSize s)) ∧
  returns (new_Set (m_nSize s)) ∅ ∧
  isElement i s = Ret (bool_decide (i ∈ members s)) ∧
  count s = Z.of_nat (size (members s)) ∧
  isEmpty s = bool_decide (members s = ∅) ∧
  isBroadcast s = Ret (bool_decide (members s = nodes (m_nSize s))) ∧
  isEqual s t = Ret (bool_decide (members s = members t)) ∧
  isSuperset s t = Ret (bool_decide (members t ⊆ members s)) ∧
  intersectionIsEmpty s t = bool_decide (members s ∩ members t = ∅) ∧
  intersectionIsNotEmpty s t = negb (bool_decide (members s ∩ members t = ∅)) ∧
  if decide (members s = ∅) then smallestElement s = Raise AssertFailed
  else ∃ m, smallestElement s = Ret m ∧ m ∈ members s ∧ ∀ j, j ∈ members s → m ≤ j.
Proof.
  intros Hs Ht Hst Hi returns. assert (Hpos : 0 < m_nSize s) by lia.
  split; [by apply set_add_spec|]. split; [by apply set_remove_spec|]. split; [by apply addSet_spec|].
  split; [by apply removeSet_spec|]. split; [by apply set_OR_spec|]. split; [by apply set_AND_spec|].
  split; [eexists; split; [done|by apply set_clear_spec]|]. split; [eexists; split; [done|by apply set_broadcast_spec]|].
  split.
  { exists (setSize (m_nSize s)). unfold new_Set. rewrite (proj2 (Z.ltb_lt _ _) Hpos). split; [done|].
    destruct (setSize_spec (m_nSize s)) as [H1 H2]; [apply (so_size s Hs)|]. done. }
  split; [by apply set_isElement_spec|]. split; [by apply set_count_spec|]. split; [by apply set_isEmpty_spec|].
  split; [by apply isBroadcast_spec|]. split; [by apply isEqual_spec|]. split; [by apply set_isSuperset_spec|].
  split; [unfold intersectionIsEmpty; rewrite no_common_spec by done; apply negb_involutive|].
  split; [by apply no_common_spec|].
  destruct (smallestElement_spec s Hs) as [[E Em]|(m & Em & Hm & Hmin)].
  - by rewrite decide_True.
  - rewrite decide_False by set_solver. by exists m.
Qed.

Definition ex_set : NodeSet := mkSet 70 [5; 32].

Lemma ex_set_ok : set_ok ex_set.
Proof.
  split; [cbn; lia|done| |].
  - intros w Hw. apply word_range. elem_cases Hw; lia.
  - intros i Hi. cbn in Hi. unfold has, ex_set. cbn [m_p_nArray]. rewrite (proj2 (Z.leb_le 0 i)) by lia. cbn [andb].
    pose proof (Z.div_mod i 64 ltac:(lia)). pose proof (mod64 i).
    assert (Hq : 1 ≤ i / 64) by (apply Z.div_le_lower_bound; lia).
    destruct (decide (i / 64 = 1)) as [E|].
    + rewrite E. cbn. apply Z.testbit_false; [lia|]. rewrite Z.div_small; [done|]. split; [lia|].
      apply Z.lt_le_trans with (2 ^ 6); [lia|]. apply Z.pow_le_mono_r; lia.
    + by rewrite lookup_ge_None_2 by (cbn; lia).
Qed.

Lemma node_set_refines_witness :
  count ex_set = 3 ∧ members ex_set = {[0; 2; 69]} ∧
  ∃ r, add 69 ex_set = Ret r ∧ set_ok r ∧ m_nSize r = 70 ∧ members r = {[69]} ∪ members ex_set.
Proof.
  split; [reflexivity|]. split; [vm_compute; reflexivity|].
  refine (proj1 (node_set_refines ex_set ex_set 69 ex_set_ok ex_set_ok eq_refl _)). cbn. lia.
Defined.
