(* ===== verification/NetDest.v ===== *)
(** * Network destinations

    [NetDest.C], [NetDest.h] of [gems-lib/ruby_clean/common]: one set of nodes
    per machine type.  The numbers of components of the machine types are those
    of the configuration; the functions on machine types are what
    [slicc/symbols/Type.C] prints.  Left out: printing. *)

From stdpp Require Import gmap sets list numbers.
From S2P Require Import Prelude NodeSet.
Local Open Scope Z_scope.

(** ** Machine types *)

(** A machine type is its number in the enumeration, a component the type and
    its number. *)
Notation MachineID := (nat * Z)%type.

Section machines.
(** [RubyConfig::numberOf<M>()] in the order of the enumeration. *)
Variable counts : list Z.

Definition MachineType_NUM : nat := length counts.

Definition MachineType_base_level (m : nat) : outcome nat :=
  if (m <=? MachineType_NUM)%nat then Ret m else Raise AssertFailed.

Definition MachineType_base_number (m : nat) : outcome Z :=
  if (m <=? MachineType_NUM)%nat then Ret (zsum id (take m counts)) else Raise AssertFailed.

Definition MachineType_base_count (m : nat) : outcome Z :=
  match counts !! m with Some c => Ret c | None => Raise AssertFailed end.

(** ** Operations *)

Definition NetDest : Type := list NodeSet.

Implicit Types (d : list NodeSet) (m : MachineID).

Definition new_NetDest : list NodeSet := setSize <$> counts.

Definition vecIndex m d : outcome nat :=
  i ← MachineType_base_level m.1; assertb (i <? length d)%nat ;; Ret i.

(** [m_bits[vecIndex(m)]] replaced by the result of [f]. *)
Definition at_machine (f : NodeSet → outcome NodeSet) m d : outcome (list NodeSet) :=
  i ← vecIndex m d; s ← d.[i]!; s ← f s; Ret (<[i := s]> d).

Definition add m d : outcome (list NodeSet) := at_machine (NodeSet.add m.2) m d.

Definition remove m d : outcome (list NodeSet) := at_machine (NodeSet.remove m.2) m d.

(** A draw of [random()] for the type, and those of [Set::addRandom]. *)
Definition addRandom (draw : Z) (draws : nat → Z * Z) d : outcome (list NodeSet) :=
  if (length d =? 0)%nat then Raise DivByZero
  else i ← Ret (Z.to_nat (Z.rem draw (Z.of_nat (length d)))); s ← d.[i]!; Ret (<[i := NodeSet.addRandom draws s]> d).

Definition isElement m d : outcome bool :=
  i ← vecIndex m d; s ← d.[i]!; NodeSet.isElement m.2 s.

Definition elementAt m d : outcome Z :=
  i ← vecIndex m d; s ← d.[i]!; NodeSet.elementAt m.2 s.

(** The loop over the sets of two destinations. *)
Fixpoint zipM (f : NodeSet → NodeSet → outcome NodeSet) d d2 : outcome (list NodeSet) :=
  match d, d2 with
  | [], _ => Ret []
  | _ :: _, [] => Raise OutOfBounds
  | s :: d, t :: d2 => r ← f s t; rs ← zipM f d d2; Ret (r :: rs)
  end.

Definition pairwise (f : NodeSet → NodeSet → outcome NodeSet) d d2 : outcome (list NodeSet) :=
  assertb (length d =? length d2)%nat ;; zipM f d d2.

Definition addNetDest d d2 : outcome (list NodeSet) := pairwise addSet d d2.
Definition removeNetDest d d2 : outcome (list NodeSet) := pairwise removeSet d d2.
Definition OR d d2 : outcome (list NodeSet) := pairwise NodeSet.OR d d2.
Definition AND d d2 : outcome (list NodeSet) := pairwise NodeSet.AND d d2.

Definition setNetDest (machine : nat) (s : NodeSet) d : outcome (list NodeSet) :=
  i ← MachineType_base_level machine; j ← MachineType_base_level (S machine);
  assertb (j - i =? 1)%nat ;; _ ← d.[i]!; Ret (<[i := s]> d).

Definition clear d : list NodeSet := NodeSet.clear <$> d.

Definition broadcast_machine (machine : nat) d : outcome (list NodeSet) :=
  c ← MachineType_base_count machine;
  foldM (λ d i, add (machine, i) d) d (seqZ 0 c).

Definition broadcast d : outcome (list NodeSet) :=
  foldM (λ d machine, broadcast_machine machine d) d (seq 0 MachineType_NUM).

Definition count d : Z := foldl (λ counter s, i32 (counter + NodeSet.count s)) 0 d.

(** First set element from position [j] on. *)
Fixpoint scan (fuel : nat) (j : Z) (s : NodeSet) : outcome (option Z) :=
  match fuel with
  | O => Ret None
  | S fuel => b ← NodeSet.isElement j s; if b : bool then Ret (Some j) else scan fuel (j + 1) s
  end.

Definition scan_set (s : NodeSet) : outcome (option Z) := scan (Z.to_nat (getSize s)) 0 s.

Fixpoint scan_all d : outcome Z :=
  match d with
  | [] => Raise AssertFailed
  | s :: d => r ← scan_set s; match r with Some j => Ret j | None => scan_all d end
  end.

Definition smallestElement d : outcome Z := assertb (0 <? count d) ;; scan_all d.

Definition smallestElement_machine (machine : nat) d : outcome MachineID :=
  i ← MachineType_base_level machine; s ← d.[i]!;
  r ← scan_set s; match r with Some j => Ret (machine, j) | None => Raise AssertFailed end.

Definition isBroadcast d : outcome bool :=
  foldM (λ b s, if b : bool then NodeSet.isBroadcast s else Ret false) true d.

Definition isEmpty d : bool := forallb NodeSet.isEmpty d.

Definition intersectionIsNotEmpty d d2 : outcome bool :=
  assertb (length d =? length d2)%nat ;;
  Ret (existsb id (zip_with NodeSet.intersectionIsNotEmpty d d2)).

Fixpoint superset_loop d d2 : outcome bool :=
  match d, d2 with
  | s :: d, t :: d2 => b ← isSuperset s t; if b : bool then superset_loop d d2 else Ret false
  | _, _ => Ret true
  end.

Definition isSuperset d d2 : outcome bool :=
  assertb (length d =? length d2)%nat ;; superset_loop d d2.

Definition getAllDest d : outcome (list Z) :=
  foldM (λ dest '(i, s),
      foldM (λ dest j,
          b ← NodeSet.isElement j s;
          if b : bool then n ← MachineType_base_number i; Ret (dest ++ [n + j]) else Ret dest)
        dest (seqZ 0 (getSize s)))
    [] (imap pair d).

(** ** Destinations as a set of components *)

Record dest_ok d : Prop := {
  do_size : length d = MachineType_NUM;
  do_sets : ∀ i s c, d !! i = Some s → counts !! i = Some c → set_ok s ∧ m_nSize s = c
}.

Definition dests d : gset MachineID := list_to_set (concat (imap (λ i s, pair i <$> elements (members s)) d)).

Lemma elem_dests d i j : (i, j) ∈ dests d ↔ ∃ s, d !! i = Some s ∧ j ∈ members s.
Proof.
  unfold dests. rewrite elem_of_list_to_set, elem_of_concat. split.
  - intros (l & (k & Hk)%list_elem_of_lookup & Hj). rewrite list_lookup_imap in Hk.
    apply fmap_Some in Hk as (s & Hs & ->). apply list_elem_of_fmap in Hj as (x & [= -> ->] & Hx%elem_of_elements). by exists s.
  - intros (s & Hs & Hj). exists (pair i <$> elements (members s)). split.
    + apply list_elem_of_lookup. exists i. by rewrite list_lookup_imap, Hs.
    + apply list_elem_of_fmap. exists j. by rewrite elem_of_elements.
Qed.

Lemma dests_ext d (X : gset MachineID) :
  (∀ i j, (∃ s, d !! i = Some s ∧ j ∈ members s) ↔ (i, j) ∈ X) → dests d = X.
Proof. intros H. apply set_eq. intros [i j]. by rewrite elem_dests, H. Qed.

(** The configuration: at least one component of each type. *)
Definition counts_ok : Prop := ∀ i c, counts !! i = Some c → 0 < c < 2 ^ 31.

Lemma dest_at d i c : dest_ok d → counts !! i = Some c → ∃ s, d !! i = Some s ∧ set_ok s ∧ m_nSize s = c.
Proof.
  intros [Hl Hs] Hc. destruct (lookup_lt_is_Some_2 d i) as [s E]; [rewrite Hl; by eapply lookup_lt_Some|].
  exists s. split; [done|]. by eapply Hs.
Qed.

(** A component that exists. *)
Definition valid m : Prop := ∃ c, counts !! m.1 = Some c ∧ 0 ≤ m.2 < c.

Lemma dest_at_index d i s : dest_ok d → d !! i = Some s → ∃ c, counts !! i = Some c ∧ set_ok s ∧ m_nSize s = c.
Proof.
  intros Hd Hs. destruct (lookup_lt_is_Some_2 counts i) as [c Hc].
  { fold MachineType_NUM. rewrite <- (do_size d Hd). by eapply lookup_lt_Some. }
  exists c. split; [done|]. by eapply (do_sets d Hd).
Qed.

Lemma dests_valid d m : dest_ok d → m ∈ dests d → valid m.
Proof.
  destruct m as [i j]. intros Hd (s & Hs & Hj)%elem_dests. destruct (dest_at_index d i s Hd Hs) as (c & Hc & Hok & Hsz).
  exists c. split; [done|]. apply elem_members in Hj; [|done]. apply has_range in Hj; [|done]. cbn. lia.
Qed.

Lemma vecIndex_spec m d : dest_ok d → valid m → vecIndex m d = Ret m.1.
Proof.
  intros Hd (c & Hc & _). apply lookup_lt_Some in Hc. unfold vecIndex, MachineType_base_level.
  rewrite (proj2 (Nat.leb_le _ _)) by (unfold MachineType_NUM; lia). cbn [mbind outcome_bind]. rewrite (do_size d Hd).
  unfold MachineType_NUM.
  by rewrite (proj2 (Nat.ltb_lt _ _) Hc).
Qed.

(** ** One component *)

Lemma at_machine_spec f m d (X : gset Z → gset Z) :
  dest_ok d → valid m →
  (∀ s, set_ok s → 0 ≤ m.2 < m_nSize s →
     ∃ s', f s = Ret s' ∧ set_ok s' ∧ m_nSize s' = m_nSize s ∧ members s' = X (members s)) →
  ∃ d' s, at_machine f m d = Ret d' ∧ dest_ok d' ∧ d !! m.1 = Some s ∧
    ∀ i j, (i, j) ∈ dests d' ↔ if decide (i = m.1) then j ∈ X (members s) else (i, j) ∈ dests d.
Proof.
  intros Hd Hm Hf. pose proof Hm as (c & Hc & Hj). unfold at_machine. rewrite vecIndex_spec by done.
  cbn [mbind outcome_bind]. destruct (dest_at d _ c Hd Hc) as (s & Hs & Hok & Hsz).
  rewrite (at_idx_Some _ _ _ Hs). cbn [mbind outcome_bind]. destruct (Hf s Hok) as (s' & -> & Hok' & Hsz' & Hmem); [lia|].
  cbn [mbind outcome_bind]. eexists _, s. split; [done|]. split; [|split; [done|]].
  - destruct Hd as [D1 D2]. split; [by rewrite length_insert|]. intros i x k Hx Hk.
    apply list_lookup_insert_Some in Hx as [(<- & <- & _)|[_ Hx]]; [|by eapply D2]. simplify_eq. lia || done.
  - intros i j. rewrite elem_dests. case_decide as E.
    + subst i. rewrite list_lookup_insert_eq by by eapply lookup_lt_Some. rewrite <- Hmem. naive_solver.
    + rewrite list_lookup_insert_ne, elem_dests by done. done.
Qed.

Lemma add_spec m d : dest_ok d → valid m → ∃ d', add m d = Ret d' ∧ dest_ok d' ∧ dests d' = {[m]} ∪ dests d.
Proof.
  intros Hd Hm. destruct (at_machine_spec (NodeSet.add m.2) m d (λ Y, {[m.2]} ∪ Y) Hd Hm) as (d' & s & E & Hd' & Hs & Hmem).
  { intros s Hok Hj. by apply set_add_spec. }
  exists d'. split; [done|]. split; [done|]. apply set_eq. intros [i j]. rewrite elem_of_union, elem_of_singleton, Hmem.
  destruct m as [mi mj]. cbn in *. case_decide as Ei; [subst i|naive_solver].
  rewrite elem_of_union, elem_of_singleton, elem_dests, Hs. naive_solver.
Qed.

Lemma remove_spec m d : dest_ok d → valid m → ∃ d', remove m d = Ret d' ∧ dest_ok d' ∧ dests d' = dests d ∖ {[m]}.
Proof.
  intros Hd Hm. destruct (at_machine_spec (NodeSet.remove m.2) m d (λ Y, Y ∖ {[m.2]}) Hd Hm) as (d' & s & E & Hd' & Hs & Hmem).
  { intros s Hok Hj. by apply set_remove_spec. }
  exists d'. split; [done|]. split; [done|]. apply set_eq. intros [i j]. rewrite elem_of_difference, elem_of_singleton, Hmem.
  destruct m as [mi mj]. cbn in *. case_decide as Ei; [subst i|naive_solver].
  rewrite elem_of_difference, elem_of_singleton, elem_dests, Hs. naive_solver.
Qed.

Lemma isElement_spec m d : dest_ok d → valid m → isElement m d = Ret (bool_decide (m ∈ dests d)).
Proof.
  intros Hd Hm. pose proof Hm as (c & Hc & Hj). unfold isElement. rewrite vecIndex_spec by done.
  cbn [mbind outcome_bind]. destruct (dest_at d _ c Hd Hc) as (s & Hs & Hok & Hsz).
  rewrite (at_idx_Some _ _ _ Hs). cbn [mbind outcome_bind]. rewrite set_isElement_spec by (done || lia). f_equal.
  apply bool_decide_ext. destruct m as [i j]. rewrite elem_dests. cbn in *. rewrite Hs. naive_solver.
Qed.

(** ** Two destinations *)

Lemma zipM_spec f (P : NodeSet → NodeSet → NodeSet → Prop) d : ∀ d2,
  length d = length d2 → (∀ i s t, d !! i = Some s → d2 !! i = Some t → ∃ r, f s t = Ret r ∧ P s t r) →
  ∃ rs, zipM f d d2 = Ret rs ∧ length rs = length d ∧
    ∀ i r, rs !! i = Some r → ∃ s t, d !! i = Some s ∧ d2 !! i = Some t ∧ P s t r.
Proof.
  induction d as [|s d IH]; intros [|t d2] Hl Hf; try done; [by exists []|].
  destruct (Hf 0%nat s t eq_refl eq_refl) as (r & E & HP).
  destruct (IH d2) as (rs & Ers & Hlen & Hrs); [by injection Hl|intros i x y Hx Hy; exact (Hf (S i) x y Hx Hy)|].
  exists (r :: rs). cbn. rewrite E. cbn [mbind outcome_bind]. rewrite Ers. split; [done|]. split; [cbn; lia|].
  intros [|i] x Hx; [injection Hx as <-; by exists s, t|]. exact (Hrs i x Hx).
Qed.

Section pairs.
Variables d d2 : list NodeSet.
Hypotheses (Hc : counts_ok) (Hd : dest_ok d) (Hd2 : dest_ok d2).

Lemma pairs_at i s t : d !! i = Some s → d2 !! i = Some t →
  set_ok s ∧ set_ok t ∧ m_nSize s = m_nSize t ∧ 0 < m_nSize s.
Proof.
  intros Hs Ht. destruct (dest_at_index d i s Hd Hs) as (c & Hci & H1 & H2).
  destruct (do_sets d2 Hd2 i t c Ht Hci) as [H3 H4]. specialize (Hc i c Hci). split; [done|]. split; [done|]. lia.
Qed.

Lemma pairs_lookup i : (∃ s t, d !! i = Some s ∧ d2 !! i = Some t) ∨ d !! i = None ∧ d2 !! i = None.
Proof.
  destruct (d !! i) as [s|] eqn:Es, (d2 !! i) as [t|] eqn:Et; [left; by exists s, t| | |by right].
  - apply lookup_lt_Some in Es. apply lookup_ge_None in Et. rewrite (do_size d Hd) in Es. rewrite (do_size d2 Hd2) in Et. lia.
  - apply lookup_lt_Some in Et. apply lookup_ge_None in Es. rewrite (do_size d Hd) in Es. rewrite (do_size d2 Hd2) in Et. lia.
Qed.

Lemma pairwise_spec f (G : gset Z → gset Z → gset Z) (Q : Prop → Prop → Prop) :
  (∀ s t, set_ok s → set_ok t → m_nSize s = m_nSize t → 0 < m_nSize s →
     ∃ r, f s t = Ret r ∧ set_ok r ∧ m_nSize r = m_nSize s ∧ members r = G (members s) (members t)) →
  (∀ X Y j, j ∈ G X Y ↔ Q (j ∈ X) (j ∈ Y)) → (∀ A A' B B', (A ↔ A') → (B ↔ B') → Q A B ↔ Q A' B') → ¬ Q False False →
  ∃ r, pairwise f d d2 = Ret r ∧ dest_ok r ∧ ∀ m, m ∈ dests r ↔ Q (m ∈ dests d) (m ∈ dests d2).
Proof.
  intros Hf HG HQ HQ0. unfold pairwise. rewrite (do_size d Hd), (do_size d2 Hd2), Nat.eqb_refl. cbn [assertb mbind outcome_bind].
  destruct (zipM_spec f (λ s t r, set_ok r ∧ m_nSize r = m_nSize s ∧ members r = G (members s) (members t)) d d2)
    as (rs & E & Hlen & Hrs).
  { by rewrite (do_size d Hd), (do_size d2 Hd2). }
  { intros i s t Hs Ht. destruct (pairs_at i s t Hs Ht) as (H1 & H2 & H3 & H4). by apply Hf. }
  exists rs. split; [done|]. split.
  - split; [by rewrite Hlen, (do_size d Hd)|]. intros i r c Hr Hci.
    destruct (Hrs i r Hr) as (s & t & Hs & Ht & H1 & H2 & _). split; [done|]. rewrite H2. by eapply (do_sets d Hd).
  - intros [i j]. rewrite elem_dests. destruct (pairs_lookup i) as [(s & t & Hs & Ht)|[Hs Ht]].
    + rewrite (HQ _ (j ∈ members s) _ (j ∈ members t)); [|rewrite elem_dests, Hs; naive_solver|rewrite elem_dests, Ht; naive_solver].
      rewrite <- HG. destruct (lookup_lt_is_Some_2 rs i) as [r Hr]; [rewrite Hlen; by eapply lookup_lt_Some|].
      destruct (Hrs i r Hr) as (s' & t' & Hs' & Ht' & _ & _ & Hm). simplify_eq. rewrite <- Hm, Hr. naive_solver.
    + rewrite (HQ _ False _ False); [|rewrite elem_dests, Hs; naive_solver|rewrite elem_dests, Ht; naive_solver].
      split; [|done]. intros (r & Hr & _). destruct (Hrs i r Hr) as (s & t & Hs' & _). congruence.
Qed.

Lemma addNetDest_spec : ∃ r, addNetDest d d2 = Ret r ∧ dest_ok r ∧ dests r = dests d ∪ dests d2.
Proof.
  destruct (pairwise_spec addSet (∪) or) as (r & E & Hr & Hm); [| |tauto|tauto|].
  - intros s t H1 H2 H3 _. by apply addSet_spec.
  - intros X Y j. apply elem_of_union.
  - exists r. split; [done|]. split; [done|]. apply set_eq. intros m. by rewrite Hm, elem_of_union.
Qed.

Lemma OR_spec : ∃ r, OR d d2 = Ret r ∧ dest_ok r ∧ dests r = dests d ∪ dests d2.
Proof.
  destruct (pairwise_spec NodeSet.OR (∪) or) as (r & E & Hr & Hm); [| |tauto|tauto|].
  - intros s t H1 H2 H3 H4. by apply set_OR_spec.
  - intros X Y j. apply elem_of_union.
  - exists r. split; [done|]. split; [done|]. apply set_eq. intros m. by rewrite Hm, elem_of_union.
Qed.

Lemma AND_spec : ∃ r, AND d d2 = Ret r ∧ dest_ok r ∧ dests r = dests d ∩ dests d2.
Proof.
  destruct (pairwise_spec NodeSet.AND (∩) and) as (r & E & Hr & Hm); [| |tauto|tauto|].
  - intros s t H1 H2 H3 H4. by apply set_AND_spec.
  - intros X Y j. apply elem_of_intersection.
  - exists r. split; [done|]. split; [done|]. apply set_eq. intros m. by rewrite Hm, elem_of_intersection.
Qed.

Lemma removeNetDest_spec : ∃ r, removeNetDest d d2 = Ret r ∧ dest_ok r ∧ dests r = dests d ∖ dests d2.
Proof.
  destruct (pairwise_spec removeSet (∖) (λ A B, A ∧ ¬ B)) as (r & E & Hr & Hm); [| |tauto|tauto|].
  - intros s t H1 H2 H3 _. by apply removeSet_spec.
  - intros X Y j. apply elem_of_difference.
  - exists r. split; [done|]. split; [done|]. apply set_eq. intros m. by rewrite Hm, elem_of_difference.
Qed.

Lemma intersection_spec : intersectionIsNotEmpty d d2 = Ret (negb (bool_decide (dests d ∩ dests d2 = ∅))).
Proof.
  unfold intersectionIsNotEmpty. rewrite (do_size d Hd), (do_size d2 Hd2), Nat.eqb_refl. cbn [assertb mbind outcome_bind].
  f_equal. apply eq_true_iff_eq. rewrite existsb_exists, negb_true_iff, bool_decide_eq_false. split.
  - intros (b & (i & Hi)%list_elem_of_In%list_elem_of_lookup & Hb). apply lookup_zip_with_Some in Hi as (s & t & -> & Hs & Ht).
    destruct (pairs_at i s t Hs Ht) as (H1 & H2 & H3 & _). unfold id, NodeSet.intersectionIsNotEmpty in Hb.
    rewrite no_common_spec, negb_true_iff, bool_decide_eq_false in Hb by done.
    apply set_choose_L in Hb as [j [Hj1 Hj2]%elem_of_intersection]. intros E.
    assert ((i, j) ∈ dests d ∩ dests d2) as Hin; [|rewrite E in Hin; set_solver].
    rewrite elem_of_intersection, !elem_dests. split; [by exists s|by exists t].
  - intros Hne. apply set_choose_L in Hne as [[i j] [(s & Hs & Hj1)%elem_dests (t & Ht & Hj2)%elem_dests]%elem_of_intersection].
    destruct (pairs_at i s t Hs Ht) as (H1 & H2 & H3 & _). exists (NodeSet.intersectionIsNotEmpty s t). split.
    + apply list_elem_of_In, list_elem_of_lookup. exists i. apply lookup_zip_with_Some. by exists s, t.
    + unfold id, NodeSet.intersectionIsNotEmpty. rewrite no_common_spec, negb_true_iff, bool_decide_eq_false by done. set_solver.
Qed.
End pairs.

Lemma isSuperset_spec d d2 : counts_ok → dest_ok d → dest_ok d2 →
  isSuperset d d2 = Ret (bool_decide (dests d2 ⊆ dests d)).
Proof.
  intros Hc Hd Hd2. unfold isSuperset. rewrite (do_size d Hd), (do_size d2 Hd2), Nat.eqb_refl. cbn [assertb mbind outcome_bind].
  assert (Hloop : ∀ l l2, length l = length l2 →
    (∀ i s t, l !! i = Some s → l2 !! i = Some t → set_ok s ∧ set_ok t ∧ m_nSize s = m_nSize t) →
    ∃ b, superset_loop l l2 = Ret b ∧
      (b = true ↔ ∀ i s t, l !! i = Some s → l2 !! i = Some t → members t ⊆ members s)).
  { induction l as [|s l IH]; intros [|t l2] Hl Hok; try done; [by exists true|].
    destruct (Hok 0%nat s t eq_refl eq_refl) as (H1 & H2 & H3). cbn [superset_loop].
    rewrite set_isSuperset_spec by done. cbn [mbind outcome_bind].
    destruct (IH l2) as (b & Eb & Hb); [by injection Hl|intros i x y Hx Hy; exact (Hok (S i) x y Hx Hy)|].
    case_bool_decide as Hst.
    - exists b. split; [done|]. rewrite Hb. split; [|intros H i x y Hx Hy; exact (H (S i) x y Hx Hy)].
      intros H [|i] x y Hx Hy; [by simplify_eq/=|]. exact (H i x y Hx Hy).
    - exists false. split; [done|]. split; [done|]. intros H. destruct Hst. exact (H 0%nat s t eq_refl eq_refl). }
  destruct (Hloop d d2) as (b & -> & Hb).
  { by rewrite (do_size d Hd), (do_size d2 Hd2). }
  { intros i s t Hs Ht. destruct (pairs_at d d2 Hc Hd Hd2 i s t Hs Ht) as (? & ? & ? & _). done. }
  f_equal. apply eq_true_iff_eq. rewrite Hb, bool_decide_eq_true. split.
  - intros H [i j] (t & Ht & Hj)%elem_dests. destruct (pairs_lookup d d2 Hd Hd2 i) as [(s & t' & Hs & Ht')|[_ Hn]]; [|congruence].
    simplify_eq. apply elem_dests. exists s. split; [done|]. by eapply H.
  - intros H i s t Hs Ht j Hj. assert (Hin : (i, j) ∈ dests d2) by (apply elem_dests; by exists t).
    apply H, elem_dests in Hin as (s' & Hs' & Hj'). by simplify_eq.
Qed.

(** ** All components and their number *)

Lemma size_dests d : ∀ k,
  size (list_to_set (concat (imap (λ i s, pair (k + i)%nat <$> elements (members s)) d)) : gset MachineID) =
  sum_list ((λ s, size (members s)) <$> d).
Proof.
  induction d as [|s d IH]; intros k; cbn; [apply size_empty|]. rewrite list_to_set_app_L, size_union.
  - f_equal.
    + rewrite size_list_to_set; [by rewrite length_fmap|]. apply NoDup_fmap; [intros ? ?; congruence|apply NoDup_elements].
    + rewrite <- (IH (S k)). do 3 f_equal. apply imap_ext. intros i x _. cbn. by rewrite Nat.add_succ_r.
  - intros [i j]. rewrite !elem_of_list_to_set, elem_of_concat. intros (x & [= -> ->] & _)%list_elem_of_fmap (l & (q & Hq)%list_elem_of_lookup & Hl).
    rewrite list_lookup_imap in Hq. apply fmap_Some in Hq as (y & _ & ->). cbn in Hl.
    apply list_elem_of_fmap in Hl as (z & [= E _] & _). lia.
Qed.

Lemma count_spec d : counts_ok → zsum id counts < 2 ^ 31 → dest_ok d → count d = Z.of_nat (size (dests d)).
Proof.
  intros Hc Htot Hd. change (size (dests d)) with (size (list_to_set (concat (imap (λ i s, pair (0 + i)%nat <$> elements (members s)) d)) : gset MachineID)).
  rewrite (size_dests d 0). unfold count.
  assert (Hgen : ∀ l (cs : list Z) a, Forall2 (λ s c, set_ok s ∧ m_nSize s = c ∧ 0 < c) l cs → 0 ≤ a → a + zsum id cs < 2 ^ 31 →
    foldl (λ counter s, i32 (counter + NodeSet.count s)) a l = a + Z.of_nat (sum_list ((λ s, size (members s)) <$> l))).
  { induction l as [|s l IH]; intros cs a HF Ha Hb; [cbn; lia|].
    inversion HF as [|? c ? cs' (Hs & Hsz & Hpos) HF']; subst. rewrite zsum_cons in Hb. unfold id at 1 in Hb.
    assert (Hle : Z.of_nat (size (members s)) ≤ m_nSize s).
    { rewrite members_size by done. unfold bits. pose proof (length_filter (λ j, has s j = true) (seqZ 0 (m_nSize s))) as Hlf.
      rewrite length_seqZ in Hlf. lia. }
    assert (0 ≤ zsum id cs').
    { apply zsum_nonneg. intros x (q & Hq)%list_elem_of_lookup. destruct (Forall2_lookup_r _ _ _ _ _ HF' Hq) as (y & _ & _ & _ & Hx). unfold id. lia. }
    cbn [foldl fmap list_fmap sum_list]. rewrite set_count_spec, i32_id by (done || lia). rewrite (IH cs') by (done || lia).
    cbn. lia. }
  rewrite (Hgen d counts); [done| |lia|done]. apply Forall2_same_length_lookup. split; [apply (do_size d Hd)|].
  intros i s c Hs Hci. destruct (do_sets d Hd i s c Hs Hci). specialize (Hc i c Hci). split; [done|]. lia.
Qed.

(** The scans of [smallestElement]. *)
Lemma scan_spec s : set_ok s → ∀ fuel j,
  0 ≤ j → j + Z.of_nat fuel = m_nSize s → (∀ i, i ∈ members s → j ≤ i) →
  (scan fuel j s = Ret None ∧ members s = ∅) ∨
  ∃ i, scan fuel j s = Ret (Some i) ∧ i ∈ members s ∧ ∀ k, k ∈ members s → i ≤ k.
Proof.
  intros Hs fuel. induction fuel as [|fuel IH]; intros j Hj Hf Hlow; cbn [scan].
  - left. split; [done|]. apply set_eq. intros i. split; [|set_solver]. intros Hi. pose proof (Hlow i Hi).
    apply elem_members, has_range in Hi; [lia|done..].
  - rewrite set_isElement_spec by (done || lia). cbn [mbind outcome_bind]. case_bool_decide as Hin; [right; by exists j|].
    apply IH; [lia|lia|]. intros i Hi. specialize (Hlow i Hi). destruct (decide (i = j)) as [->|]; [done|lia].
Qed.

Lemma scan_set_spec s : set_ok s →
  (scan_set s = Ret None ∧ members s = ∅) ∨ ∃ i, scan_set s = Ret (Some i) ∧ i ∈ members s ∧ ∀ k, k ∈ members s → i ≤ k.
Proof.
  intros Hs. pose proof (so_size s Hs). apply scan_spec; [done|lia|unfold getSize; lia|].
  intros i Hi. apply elem_members, has_range in Hi; [lia|done..].
Qed.

(** Components by type, then by number. *)
Definition before (m m' : MachineID) : Prop := (m.1 < m'.1)%nat ∨ m.1 = m'.1 ∧ m.2 < m'.2.

(** The number it delivers is that of the first component. *)
Lemma net_smallestElement_spec d : counts_ok → zsum id counts < 2 ^ 31 → dest_ok d → dests d ≠ ∅ →
  ∃ m, smallestElement d = Ret m.2 ∧ m ∈ dests d ∧ ∀ m', m' ∈ dests d → m' = m ∨ before m m'.
Proof.
  intros Hc Htot Hd Hne. unfold smallestElement. rewrite count_spec by done.
  assert (size (dests d) ≠ 0%nat) by (intros E; by apply Hne, leibniz_equiv, size_empty_inv).
  rewrite (proj2 (Z.ltb_lt 0 _)) by lia. cbn [assertb mbind outcome_bind].
  assert (Hok : ∀ s, s ∈ d → set_ok s).
  { intros s (i & Hi)%list_elem_of_lookup. by destruct (dest_at_index d i s Hd Hi) as (c & _ & ? & _). }
  assert (Hgen : ∀ l k, (∀ s, s ∈ l → set_ok s) → (∃ i j s, l !! i = Some s ∧ j ∈ members s) →
    ∃ i j s, scan_all l = Ret j ∧ l !! i = Some s ∧ j ∈ members s ∧
      ∀ i' j' s', l !! i' = Some s' → j' ∈ members s' → (i' = i ∧ j' = j) ∨ before ((k + i)%nat, j) ((k + i')%nat, j')).
  { induction l as [|s l IH]; intros k Hl (i & j & s0 & Hi & Hj); [done|]. cbn [scan_all].
    destruct (scan_set_spec s (Hl s ltac:(by left))) as [[-> E]|(m & -> & Hm & Hmin)]; cbn [mbind outcome_bind].
    - destruct i as [|i]; [injection Hi as ->; rewrite E in Hj; set_solver|].
      destruct (IH k (λ s Hs, Hl s (list_elem_of_further _ _ _ Hs))) as (i1 & j1 & s1 & H1 & H2 & H3 & H4); [by exists i, j, s0|].
      exists (S i1), j1, s1. split_and!; [done..|]. intros [|i'] j' s' Hi' Hj'; [injection Hi' as <-; rewrite E in Hj'; set_solver|].
      destruct (H4 i' j' s' Hi' Hj') as [[-> ->]|Hb]; [by left|right]. destruct Hb as [Hb|[Hb ?]]; cbn in *; [left|right]; cbn; lia.
    - exists 0%nat, m, s. split_and!; [done..|]. intros [|i'] j' s' Hi' Hj'.
      + injection Hi' as <-. specialize (Hmin j' Hj'). destruct (decide (j' = m)) as [->|]; [by left|right]. right. cbn. lia.
      + right. left. cbn. lia. }
  destruct (Hgen d 0%nat Hok) as (i & j & s & E & Hs & Hj & Hmin).
  { apply set_choose_L in Hne as [[i j] (s & Hs & Hj)%elem_dests]. by exists i, j, s. }
  exists (i, j). cbn. split; [done|]. split; [apply elem_dests; by exists s|].
  intros [i' j'] (s' & Hs' & Hj')%elem_dests. destruct (Hmin i' j' s' Hs' Hj') as [[-> ->]|Hb]; [by left|by right].
Qed.

Lemma isEmpty_spec d : dest_ok d → isEmpty d = bool_decide (dests d = ∅).
Proof.
  intros Hd. apply eq_true_iff_eq. unfold isEmpty. rewrite forallb_forall, bool_decide_eq_true. split.
  - intros H. apply set_eq. intros [i j]. rewrite elem_dests. split; [|set_solver]. intros (s & Hs & Hj).
    destruct (dest_at_index d i s Hd Hs) as (c & _ & Hok & _).
    specialize (H s (proj1 (list_elem_of_In _ _) (list_elem_of_lookup_2 _ _ _ Hs))). rewrite set_isEmpty_spec in H by done.
    apply bool_decide_eq_true in H. rewrite H in Hj. set_solver.
  - intros E s (i & Hs)%list_elem_of_In%list_elem_of_lookup. destruct (dest_at_index d i s Hd Hs) as (c & _ & Hok & _).
    rewrite set_isEmpty_spec by done. apply bool_decide_eq_true, set_eq. intros j. split; [|set_solver]. intros Hj.
    assert (Hin : (i, j) ∈ dests d) by (apply elem_dests; by exists s). rewrite E in Hin. set_solver.
Qed.

Lemma clear_spec d : dest_ok d → dest_ok (clear d) ∧ dests (clear d) = ∅.
Proof.
  intros Hd. unfold clear. split.
  - split; [rewrite length_fmap; apply (do_size d Hd)|]. intros i s c Hs Hci. rewrite list_lookup_fmap in Hs.
    apply fmap_Some in Hs as (x & Hx & ->). destruct (do_sets d Hd i x c Hx Hci) as [H1 H2].
    destruct (set_clear_spec x H1) as (? & ? & _). split; [done|]. lia.
  - apply set_eq. intros [i j]. rewrite elem_dests. split; [|set_solver]. intros (s & Hs & Hj). rewrite list_lookup_fmap in Hs.
    apply fmap_Some in Hs as (x & Hx & ->). destruct (dest_at_index d i x Hd Hx) as (c & _ & H1 & _).
    destruct (set_clear_spec x H1) as (_ & _ & E). rewrite E in Hj. set_solver.
Qed.

Lemma new_spec : counts_ok → dest_ok new_NetDest ∧ dests new_NetDest = ∅.
Proof.
  intros Hc. unfold new_NetDest.
  assert (Hok : dest_ok (setSize <$> counts)).
  { split; [apply length_fmap|]. intros i s c Hs Hci. rewrite list_lookup_fmap, Hci in Hs. injection Hs as <-.
    specialize (Hc i c Hci). split; [apply setSize_spec; lia|done]. }
  split; [done|]. apply set_eq. intros [i j]. rewrite elem_dests. split; [|set_solver]. intros (s & Hs & Hj).
  rewrite list_lookup_fmap in Hs. apply fmap_Some in Hs as (c & Hci & ->). specialize (Hc i c Hci).
  destruct (setSize_spec c) as [_ E]; [lia|]. rewrite E in Hj. set_solver.
Qed.

(** Adding the components [machine, 0] to [machine, n - 1]. *)
Lemma add_all machine c n d : dest_ok d → counts !! machine = Some c → Z.of_nat n ≤ c →
  ∃ d', foldM (λ d i, add (machine, i) d) d (seqZ 0 (Z.of_nat n)) = Ret d' ∧ dest_ok d' ∧
    ∀ m, m ∈ dests d' ↔ m ∈ dests d ∨ m.1 = machine ∧ 0 ≤ m.2 < Z.of_nat n.
Proof.
  intros Hd Hc. induction n as [|n IH]; intros Hn.
  - exists d. split; [done|]. split; [done|]. intros m. split; [auto|]. intros [H|H]; [done|lia].
  - destruct IH as (d1 & E1 & Hd1 & H1); [lia|]. replace (Z.of_nat (S n)) with (Z.of_nat n + 1) by lia.
    rewrite seqZ_app, foldM_app, E1 by lia. change (seqZ (0 + Z.of_nat n) 1) with [0 + Z.of_nat n]. rewrite Z.add_0_l.
    cbn [mbind outcome_bind foldM]. destruct (add_spec (machine, Z.of_nat n) d1 Hd1) as (d2 & -> & Hd2 & E2).
    { exists c. cbn. split; [done|lia]. }
    exists d2. split; [done|]. split; [done|]. intros [i j]. rewrite E2, elem_of_union, elem_of_singleton, H1. cbn.
    split; [intros [[= -> ->]|[H|[-> H]]]; [right; lia|auto|right; lia]|].
    intros [H|[-> H]]; [auto|]. destruct (decide (j = Z.of_nat n)) as [->|]; [auto|]. right. right. lia.
Qed.

Lemma broadcast_spec d : counts_ok → dest_ok d →
  ∃ d', broadcast d = Ret d' ∧ dest_ok d' ∧ ∀ m, m ∈ dests d' ↔ valid m.
Proof.
  intros Hc Hd. unfold broadcast.
  assert (Hgen : ∀ n, (n ≤ MachineType_NUM)%nat →
    ∃ d', foldM (λ d machine, broadcast_machine machine d) d (seq 0 n) = Ret d' ∧ dest_ok d' ∧
      ∀ m, m ∈ dests d' ↔ m ∈ dests d ∨ (m.1 < n)%nat ∧ valid m).
  { induction n as [|n IH]; intros Hn.
    - exists d. split; [done|]. split; [done|]. intros m. split; [auto|]. intros [H|[H _]]; [done|lia].
    - destruct IH as (d1 & E1 & Hd1 & H1); [lia|]. rewrite seq_S, foldM_app, E1. cbn [mbind outcome_bind foldM Nat.add].
      destruct (lookup_lt_is_Some_2 counts n Hn) as [c Hcn]. pose proof (Hc n c Hcn) as Hpos.
      unfold broadcast_machine, MachineType_base_count. rewrite Hcn. cbn [mbind outcome_bind].
      destruct (add_all n c (Z.to_nat c) d1 Hd1 Hcn) as (d2 & E2 & Hd2 & H2); [lia|].
      rewrite Z2Nat.id in E2, H2 by lia. rewrite E2. cbn [mbind outcome_bind]. exists d2. split; [done|]. split; [done|].
      intros m. rewrite H2, H1. split.
      + intros [[H|[H Hv]]|[Hm Hj]]; [auto|right; split; [lia|done]|].
        right. split; [lia|]. exists c. by rewrite Hm.
      + intros [H|[Hlt Hv]]; [auto|]. destruct (decide (m.1 = n)) as [E|]; [|left; right; split; [lia|done]].
        right. split; [done|]. destruct Hv as (c' & Hc' & Hj). rewrite E, Hcn in Hc'. by injection Hc' as <-. }
  destruct (Hgen MachineType_NUM) as (d' & E & Hd' & H); [lia|]. exists d'. split; [done|]. split; [done|].
  intros m. rewrite H. split; [intros [Hm|[_ Hm]]; [exact (dests_valid d m Hd Hm)|done]|]. intros Hv. right. split; [|done].
  destruct Hv as (c & Hci & _). by eapply lookup_lt_Some.
Qed.

(** Network destinations refine sets of components: with at least one
    component of each machine type, every operation of [NetDest] is the one on
    the sets of components, keeps the representation, and fails no assertion;
    broadcasting reaches every component that exists and nothing else. *)
Theorem net_dest_refines d d2 m :
  counts_ok → zsum id counts < 2 ^ 31 → dest_ok d → dest_ok d2 → valid m →
  let returns (r : outcome (list NodeSet)) (X : gset MachineID) := ∃ d', r = Ret d' ∧ dest_ok d' ∧ dests d' = X in
  returns (Ret new_NetDest) ∅ ∧ returns (Ret (clear d)) ∅ ∧
  returns (add m d) ({[m]} ∪ dests d) ∧ returns (remove m d) (dests d ∖ {[m]}) ∧
  returns (addNetDest d d2) (dests d ∪ dests d2) ∧ returns (removeNetDest d d2) (dests d ∖ dests d2) ∧
  returns (OR d d2) (dests d ∪ dests d2) ∧ returns (AND d d2) (dests d ∩ dests d2) ∧
  (∃ all, broadcast d = Ret all ∧ dest_ok all ∧ ∀ m, m ∈ dests all ↔ valid m) ∧
  isElement m d = Ret (bool_decide (m ∈ dests d)) ∧ count d = Z.of_nat (size (dests d)) ∧
  isEmpty d = bool_decide (dests d = ∅) ∧ isSuperset d d2 = Ret (bool_decide (dests d2 ⊆ dests d)) ∧
  intersectionIsNotEmpty d d2 = Ret (negb (bool_decide (dests d ∩ dests d2 = ∅))).
Proof.
  intros Hc Htot Hd Hd2 Hm returns. split; [eexists; split; [done|by apply new_spec]|].
  split; [eexists; split; [done|by apply clear_spec]|]. split; [by apply add_spec|]. split; [by apply remove_spec|].
  split; [by apply addNetDest_spec|]. split; [by apply removeNetDest_spec|]. split; [by apply OR_spec|].
  split; [by apply AND_spec|]. split; [by apply broadcast_spec|]. split; [by apply isElement_spec|].
  split; [by apply count_spec|]. split; [by apply isEmpty_spec|]. split; [by apply isSuperset_spec|].
  by apply intersection_spec.
Qed.
End machines.

(** Two L1 caches and a directory. *)
Definition ex_counts : list Z := [2; 1].

Lemma ex_counts_ok : counts_ok ex_counts.
Proof. intros [|[|i]] c Hc; cbn in Hc; simplify_eq; lia. Qed.

Lemma net_dest_refines_witness :
  dest_ok ex_counts (new_NetDest ex_counts) ∧ valid ex_counts (0%nat, 1) ∧
  ∃ d', add ex_counts (0%nat, 1) (new_NetDest ex_counts) = Ret d' ∧ dest_ok ex_counts d' ∧
    dests d' = {[(0%nat, 1)]} ∪ dests (new_NetDest ex_counts).
Proof.
  assert (Hok : dest_ok ex_counts (new_NetDest ex_counts)) by exact (proj1 (new_spec ex_counts ex_counts_ok)).
  assert (Hv : valid ex_counts (0%nat, 1)) by (exists 2; split; [reflexivity|cbn; lia]).
  split; [exact Hok|]. split; [exact Hv|].
  assert (Htot : zsum id ex_counts < 2 ^ 31) by reflexivity.
  exact (proj1 (proj2 (proj2 (net_dest_refines ex_counts _ _ (0%nat, 1) ex_counts_ok Htot Hok Hok Hv)))).
Defined.
