(* ===== verification/ComponentMapping.v ===== *)
(** * Where an address belongs

    [RubySlicc_ComponentMapping.h] of [gems-lib/ruby_clean/slicc_interface] and
    [memoryModuleIndex] of [common/Address.h]: the cache bank, the memory module
    and the index in it that an address is mapped to, and the caches that share a
    chip.  [MAP_L2BANKS_TO_LOWEST_BITS] and the numbers of the machine types in
    the enumeration of the protocol are parameters.  The sets of the caches are in
    [CacheMemory]; what the functions print before an assertion fails is left out. *)

From stdpp Require Import gmap sets list numbers.
From S2P Require Import Prelude Address NodeSet NetDest RubyConfig.
Local Open Scope Z_scope.

Section mapping.
Variables (g : globals) (counts : list Z) (MAP_L2BANKS_TO_LOWEST_BITS : bool).
(** [MACHINETYPE_L1CACHE_ENUM] and its companions. *)
Variables (L1_ENUM L2_ENUM DIRECTORY_ENUM ARBITER_ENUM COLLECTOR_ENUM : nat).

Implicit Types (a : Z) (mach : MachineID).

(** ** Banks of the second-level cache *)

(** The bank of a chip, as both functions below select it. *)
Definition l2_bank a : outcome Z :=
  let block := g_DATA_BLOCK_BITS g in
  let bits := g_NUM_L2_BANKS_PER_CHIP_BITS g in
  if 0 <? bits then
    let low := if MAP_L2BANKS_TO_LOWEST_BITS then block else block + L2_CACHE_NUM_SETS_BITS g in
    b ← bitSelect low (low + bits - 1) a; Ret (i32 b)
  else Ret 0.

(** The bank of [l2_bank] on the chip whose banks start at [base]. *)
Definition l2_cache a (base : Z) : outcome MachineID :=
  bank ← l2_bank a;
  assertb (bank <? g_NUM_L2_BANKS_PER_CHIP g) ;; assertb (0 <=? bank) ;;
  let num := base * g_NUM_L2_BANKS_PER_CHIP g + bank in
  assertb (num <? g_NUM_L2_BANKS g) ;; Ret (L2_ENUM, num).

Definition map_L1CacheMachId_to_L2Cache a (L1CacheMachId : MachineID) : outcome MachineID :=
  l2_cache a (L1CacheNumToL2Base g L1CacheMachId.2).

Definition map_L2ChipId_to_L2Cache a (L2ChipId : Z) : outcome MachineID :=
  assertb (L2ChipId <? g_NUM_CHIPS g) ;; l2_cache a L2ChipId.

Definition getMultiStaticL2BankNetDest a (sharers : NodeSet) : outcome (list NodeSet) :=
  foldM (λ dest i,
      b ← NodeSet.isElement i sharers;
      if b : bool then m ← map_L2ChipId_to_L2Cache a i; add counts m dest else Ret dest)
    (new_NetDest counts) (seqZ 0 (getSize sharers)).

Definition getAllPertinentL2Banks a : outcome (list NodeSet) :=
  foldM (λ dest i, m ← map_L2ChipId_to_L2Cache a i; add counts m dest) (new_NetDest counts) (seqZ 0 (g_NUM_CHIPS g)).

(** ** Memory modules *)

Definition map_Address_to_DirectoryNode a : outcome Z :=
  dirNode ← (if 0 <? g_NUM_MEMORIES_BITS g
             then n ← bitSelect (g_DATA_BLOCK_BITS g) (g_DATA_BLOCK_BITS g + g_NUM_MEMORIES_BITS g - 1) a; Ret (i32 n)
             else Ret 0);
  assertb (dirNode <? g_NUM_MEMORIES g) ;; assertb (0 <=? dirNode) ;; Ret dirNode.

Definition map_Address_to_Directory a : outcome MachineID :=
  num ← map_Address_to_DirectoryNode a; Ret (DIRECTORY_ENUM, num).

Definition map_Address_to_CentralArbiterNode a : outcome MachineID :=
  num ← map_Address_to_DirectoryNode a;
  assertb (num <? g_NUM_MEMORIES g) ;; assertb (0 <=? num) ;; Ret (ARBITER_ENUM, num).

Definition memoryModuleIndex a : outcome Z :=
  index ← bitSelect (g_DATA_BLOCK_BITS g + g_NUM_MEMORIES_BITS g) ADDRESS_WIDTH a;
  let index := i64 index in
  assertb (0 <=? index) ;; assertb (index <? g_MEMORY_MODULE_BLOCKS g) ;; Ret index.

(** ** First-level caches of a chip *)

(** [MachineType_NUM] stands for a type the protocol lacks. *)
Definition has_L1 : outcome unit := assertb (negb (L1_ENUM =? MachineType_NUM counts)%nat).

Definition add_range (start n : Z) (ret : list NodeSet) : outcome (list NodeSet) :=
  foldM (λ ret i, add counts (L1_ENUM, i) ret) ret (seqZ start n).

Definition getOtherLocalL1IDs (L1 : MachineID) : outcome (list NodeSet) :=
  let start := Z.quot L1.2 (g_PROCS_PER_CHIP g) * g_PROCS_PER_CHIP g in
  has_L1 ;;
  foldM (λ ret i, if negb (i =? L1.2) then add counts (L1_ENUM, i) ret else Ret ret)
    (new_NetDest counts) (seqZ start (g_PROCS_PER_CHIP g)).

Definition getLocalL1IDs mach : outcome (list NodeSet) :=
  has_L1 ;;
  if (mach.1 =? L1_ENUM)%nat then
    let start := Z.quot mach.2 (g_PROCS_PER_CHIP g) * g_PROCS_PER_CHIP g in
    add_range start (g_PROCS_PER_CHIP g) (new_NetDest counts)
  else if (mach.1 =? L2_ENUM)%nat then
    let chip := Z.quot mach.2 (g_NUM_L2_BANKS_PER_CHIP g) in
    let start := chip * g_PROCS_PER_CHIP g in
    add_range start (g_PROCS_PER_CHIP g) (new_NetDest counts)
  else Ret (new_NetDest counts).

Definition getExternalL1IDs (L1 : MachineID) : outcome (list NodeSet) :=
  has_L1 ;; ret ← add_range 0 (g_NUM_PROCESSORS g) (new_NetDest counts);
  local ← getLocalL1IDs L1; removeNetDest ret local.

Definition isLocalProcessor (thisId tarID : MachineID) : bool :=
  let start := Z.quot thisId.2 (g_PROCS_PER_CHIP g) * g_PROCS_PER_CHIP g in
  existsb (λ i, i =? tarID.2) (seqZ start (g_PROCS_PER_CHIP g)).

Definition isL1OnChip (L1machID : MachineID) (L2NodeID : Z) : bool :=
  if (L1machID.1 =? L1_ENUM)%nat then L1machID.2 =? L2NodeID else false.

Definition isL2OnChip (L2machID : MachineID) (L2NodeID : Z) : bool :=
  if (L2machID.1 =? L2_ENUM)%nat then L2machID.2 =? L2NodeID else false.

(** ** Numbers of nodes *)

Definition closest_clockwise_distance (this_node next_node : Z) : Z :=
  if this_node <=? next_node then next_node - this_node else next_node - this_node + g_NUM_CHIPS g.

Definition closer_clockwise_processor (this_node newer older : Z) : bool :=
  closest_clockwise_distance this_node newer <? closest_clockwise_distance this_node older.

Definition getChipID (L2machID : MachineID) : Z := Z.quot (Z.rem L2machID.2 (g_NUM_CHIPS g)) (g_PROCS_PER_CHIP g).

Definition machineIDToNodeID (machID : MachineID) : Z := machID.2.
Definition machineIDToVersion (machID : MachineID) : Z := Z.quot machID.2 (g_NUM_CHIPS g).
Definition machineIDToMachineType (machID : MachineID) : nat := machID.1.

Definition L1CacheMachIDToProcessorNum (machID : MachineID) : outcome Z :=
  assertb (machID.1 =? L1_ENUM)%nat ;; Ret machID.2.

Definition L2CacheMachIDToChipID (machID : MachineID) : outcome Z :=
  assertb (machID.1 =? L2_ENUM)%nat ;; Ret (Z.quot machID.2 (g_NUM_L2_BANKS_PER_CHIP g)).

Definition getCollectorDest (L1MachID : MachineID) : MachineID := (COLLECTOR_ENUM, L1MachID.2).

(** ** Selected bits *)

Lemma bits_select small n a :
  0 ≤ small < 64 → 0 < n → 0 ≤ a < 2 ^ 64 →
  bitSelect small (small + n - 1) a = Ret ((a / 2 ^ small) `mod` 2 ^ n).
Proof.
  intros Hs Hn Ha. destruct (Z.lt_ge_cases (small + n - 1) 63) as [H|H].
  - rewrite bitSelect_spec by lia. do 3 f_equal. lia.
  - unfold bitSelect, ADDRESS_WIDTH. rewrite (proj2 (Z.leb_le small _)), (proj2 (Z.leb_le (64 - 1) _)) by lia.
    cbn [assertb mbind outcome_bind]. rewrite Z.shiftr_div_pow2 by lia. f_equal. symmetry. apply Z.mod_small. split.
    + apply Z.div_pos; [lia|apply Z.pow_pos_nonneg; lia].
    + apply Z.div_lt_upper_bound; [apply Z.pow_pos_nonneg; lia|]. rewrite <- Z.pow_add_r by lia.
      eapply Z.lt_le_trans; [apply Ha|]. apply Z.pow_le_mono_r; lia.
Qed.

Context (Hg : config_ok g).

Lemma int_select small n a :
  0 ≤ small < 64 → 0 < n < 32 → 0 ≤ a < 2 ^ 64 →
  (b ← bitSelect small (small + n - 1) a; Ret (i32 b)) = Ret ((a / 2 ^ small) `mod` 2 ^ n).
Proof.
  intros Hs Hn Ha. rewrite bits_select by lia. cbn [mbind outcome_bind]. f_equal. apply i32_id.
  pose proof (Z.mod_pos_bound (a / 2 ^ small) (2 ^ n) ltac:(apply Z.pow_pos_nonneg; lia)).
  pose proof (Z.pow_le_mono_r 2 n 31 ltac:(lia) ltac:(lia)). lia.
Qed.

(** ** Memory modules *)

(** The line of an address of the memory, spread over the modules. *)
Lemma home_spec a :
  0 ≤ a < 2 ^ 64 →
  map_Address_to_DirectoryNode a = Ret ((a / g_DATA_BLOCK_BYTES g) `mod` g_NUM_MEMORIES g).
Proof.
  intros Ha. destruct Hg as [[Eb Hb] _ _ _ _ _ _ [En Hn] _ _ _ _ _ _ _ (Hb' & _ & _ & Hn')].
  unfold map_Address_to_DirectoryNode. rewrite Eb, En.
  pose proof (Z.mod_pos_bound (a / 2 ^ g_DATA_BLOCK_BITS g) (2 ^ g_NUM_MEMORIES_BITS g)
    ltac:(apply Z.pow_pos_nonneg; lia)) as Hm.
  destruct (Z.ltb_spec 0 (g_NUM_MEMORIES_BITS g)) as [H|H].
  - rewrite int_select by lia. cbn [mbind outcome_bind].
    by rewrite (proj2 (Z.ltb_lt _ (2 ^ g_NUM_MEMORIES_BITS g))), (proj2 (Z.leb_le 0 _)) by lia.
  - replace (g_NUM_MEMORIES_BITS g) with 0 by lia. cbn. by rewrite Z.mod_1_r.
Qed.

Lemma index_spec a :
  0 ≤ a < 2 ^ 64 →
  memoryModuleIndex a =
    if a <? g_MEMORY_SIZE_BYTES g then Ret (a / g_DATA_BLOCK_BYTES g / g_NUM_MEMORIES g) else Raise AssertFailed.
Proof.
  intros Ha. destruct Hg as [[Eb Hb] [Em Hm] _ _ _ _ _ [En Hn] [Ek Hk] _ _ Es _ _ _ (Hb' & _ & _ & Hn')].
  unfold memoryModuleIndex, bitSelect. rewrite Eb, En, Em, Ek, Es. unfold ADDRESS_WIDTH.
  rewrite (proj2 (Z.leb_le (g_DATA_BLOCK_BITS g + g_NUM_MEMORIES_BITS g) 64)), (proj2 (Z.leb_le (64 - 1) 64)) by lia.
  cbn [assertb mbind outcome_bind]. rewrite Z.shiftr_div_pow2 by lia.
  rewrite !Z.pow_add_r, Z.div_div by (try apply Z.pow_pos_nonneg; try apply Z.pow_nonzero; lia).
  set (w := 2 ^ g_DATA_BLOCK_BITS g * 2 ^ g_NUM_MEMORIES_BITS g).
  assert (Hw : 0 < w) by (unfold w; apply Z.mul_pos_pos; apply Z.pow_pos_nonneg; lia).
  assert (Hq : 0 ≤ a / w < 2 ^ 64).
  { split; [apply Z.div_pos; lia|]. eapply Z.le_lt_trans; [apply (Z.div_le_mono a (2 ^ 64 - 1)); lia|].
    eapply Z.le_lt_trans; [apply (Z.div_le_compat_l _ 1 w); lia|]. rewrite Z.div_1_r. lia. }
  assert (Hk' : 2 ^ g_MEMORY_MODULE_BITS g < 2 ^ 63) by (apply Z.pow_lt_mono_r; lia).
  assert (Hlt : a < w * 2 ^ g_MEMORY_MODULE_BITS g ↔ a / w < 2 ^ g_MEMORY_MODULE_BITS g).
  { split; [by apply Z.div_lt_upper_bound|]. intros H. destruct (Z.lt_ge_cases a (w * 2 ^ g_MEMORY_MODULE_BITS g)); [done|].
    assert (2 ^ g_MEMORY_MODULE_BITS g ≤ a / w) by (apply Z.div_le_lower_bound; lia). lia. }
  destruct (Z.ltb_spec a (w * 2 ^ g_MEMORY_MODULE_BITS g)) as [H|H].
  - rewrite Hlt in H. assert (i64 (a / w) = a / w) as -> by (unfold i64; rewrite Z.mod_small; lia).
    by rewrite (proj2 (Z.leb_le 0 _)), (proj2 (Z.ltb_lt (a / w) _)) by lia.
  - destruct (Z.lt_ge_cases (a / w) (2 ^ 63)) as [H'|H'].
    + assert (i64 (a / w) = a / w) as -> by (unfold i64; rewrite Z.mod_small; lia).
      rewrite (proj2 (Z.leb_le 0 _)), (proj2 (Z.ltb_ge (a / w) _)) by lia. done.
    + assert (i64 (a / w) < 0); [|by rewrite (proj2 (Z.leb_gt 0 _)) by lia].
      unfold i64. replace (a / w + 2 ^ 63) with ((a / w - 2 ^ 63) + 1 * 2 ^ 64) by lia.
      rewrite Z.mod_add, Z.mod_small by lia. lia.
Qed.

(** ** Banks *)

Definition bank_bits_ok : Prop :=
  g_DATA_BLOCK_BITS g + (if MAP_L2BANKS_TO_LOWEST_BITS then 0 else L2_CACHE_NUM_SETS_BITS g) < 64.

Definition bank_of a : Z :=
  (a / 2 ^ (g_DATA_BLOCK_BITS g + if MAP_L2BANKS_TO_LOWEST_BITS then 0 else L2_CACHE_NUM_SETS_BITS g))
    `mod` g_NUM_L2_BANKS_PER_CHIP g.

Lemma per_chip_pos : 0 < g_NUM_L2_BANKS_PER_CHIP g ∧ 0 < g_PROCS_PER_CHIP g ∧ 0 < g_NUM_CHIPS g ∧
  g_NUM_L2_BANKS g = g_NUM_CHIPS g * g_NUM_L2_BANKS_PER_CHIP g ∧
  g_NUM_PROCESSORS g = g_NUM_CHIPS g * g_PROCS_PER_CHIP g.
Proof.
  destruct Hg as [_ _ [Ep _] [Eq Hq] [Ec Hc] [El _] [Ek Hk] _ _ Esp Esl _ _ _ _ _].
  rewrite Ep, Eq, Ec, El, Ek, Esp, Esl. rewrite !Z.pow_add_r by lia.
  repeat split; try apply Z.pow_pos_nonneg; lia.
Qed.

Lemma bank_range a : 0 ≤ bank_of a < g_NUM_L2_BANKS_PER_CHIP g.
Proof. apply Z.mod_pos_bound, per_chip_pos. Qed.

Lemma l2_bank_spec a : bank_bits_ok → 0 ≤ a < 2 ^ 64 → l2_bank a = Ret (bank_of a).
Proof.
  intros Hok Ha. destruct Hg as [[_ Hb] _ _ _ [_ Hc] _ [Ek Hk] _ _ _ Esl _ Hsets _ _ (_ & _ & Hl & _)].
  unfold l2_bank, bank_of, bank_bits_ok in *. rewrite Ek. destruct (Z.ltb_spec 0 (g_NUM_L2_BANKS_PER_CHIP_BITS g)) as [H|H].
  - destruct MAP_L2BANKS_TO_LOWEST_BITS; rewrite int_select by lia; rewrite ?Z.add_0_r; done.
  - replace (g_NUM_L2_BANKS_PER_CHIP_BITS g) with 0 by lia. cbn. by rewrite Z.mod_1_r.
Qed.

Lemma l2_cache_spec a chip :
  bank_bits_ok → 0 ≤ a < 2 ^ 64 → 0 ≤ chip < g_NUM_CHIPS g →
  l2_cache a chip = Ret (L2_ENUM, chip * g_NUM_L2_BANKS_PER_CHIP g + bank_of a).
Proof.
  intros Hok Ha Hchip. unfold l2_cache. rewrite l2_bank_spec by done. pose proof (bank_range a) as Hb.
  destruct per_chip_pos as (Hk & _ & Hc & -> & _). cbn [mbind outcome_bind].
  rewrite (proj2 (Z.ltb_lt (bank_of a) _)), (proj2 (Z.leb_le 0 (bank_of a))) by lia. cbn [assertb mbind outcome_bind].
  by rewrite (proj2 (Z.ltb_lt _ (g_NUM_CHIPS g * _))) by nia.
Qed.

Lemma chip_of_L1 p : 0 ≤ p < g_NUM_PROCESSORS g →
  Z.quot p (g_PROCS_PER_CHIP g) = p / g_PROCS_PER_CHIP g ∧ 0 ≤ p / g_PROCS_PER_CHIP g < g_NUM_CHIPS g.
Proof.
  intros Hp. destruct per_chip_pos as (_ & Hq & Hc & _ & E). rewrite E in Hp.
  split; [apply Z.quot_div_nonneg; lia|]. split; [apply Z.div_pos; lia|apply Z.div_lt_upper_bound; lia].
Qed.

Lemma chip_of_L2 b : 0 ≤ b < g_NUM_L2_BANKS g →
  Z.quot b (g_NUM_L2_BANKS_PER_CHIP g) = b / g_NUM_L2_BANKS_PER_CHIP g ∧
  0 ≤ b / g_NUM_L2_BANKS_PER_CHIP g < g_NUM_CHIPS g.
Proof.
  intros Hp. destruct per_chip_pos as (Hk & _ & Hc & E & _). rewrite E in Hp.
  split; [apply Z.quot_div_nonneg; lia|]. split; [apply Z.div_pos; lia|apply Z.div_lt_upper_bound; lia].
Qed.

(** ** Groups of caches *)

Context (Hcounts : counts_ok counts).

Definition group (t : nat) (f : Z → Z) (l : list Z) : gset MachineID := list_to_set ((λ i, (t, f i)) <$> l).

Lemma elem_group t f l i j : (i, j) ∈ group t f l ↔ i = t ∧ ∃ k, k ∈ l ∧ j = f k.
Proof. unfold group. rewrite elem_of_list_to_set, list_elem_of_fmap. split; [intros (k & [= -> ->] & H); eauto|intros (-> & k & H & ->); eauto]. Qed.

(** A loop that adds a component for the numbers of a list it keeps. *)
Lemma add_all_spec (step : list NodeSet → Z → outcome (list NodeSet)) t (f : Z → Z) (keep : Z → bool) l : ∀ d,
  dest_ok counts d →
  (∀ i, i ∈ l → keep i = true → valid counts (t, f i)) →
  (∀ i ret, i ∈ l → step ret i = if keep i then add counts (t, f i) ret else Ret ret) →
  ∃ d', foldM step d l = Ret d' ∧ dest_ok counts d' ∧ dests d' = dests d ∪ group t f (List.filter keep l).
Proof.
  induction l as [|i l IH]; intros d Hd Hv Hl.
  - exists d. split; [done|]. split; [done|]. unfold group. cbn. set_solver.
  - cbn. rewrite Hl by set_solver. destruct (keep i) eqn:Ei.
    + destruct (add_spec counts _ d Hd (Hv i ltac:(set_solver) Ei)) as (d1 & E1 & Hd1 & Hm1). rewrite E1.
      destruct (IH d1 Hd1) as (d' & E & Hd' & Hm); [set_solver|set_solver|].
      exists d'. cbn [mbind outcome_bind]. rewrite E. split; [done|]. split; [done|].
      rewrite Hm, Hm1. unfold group. cbn. set_solver.
    + destruct (IH d Hd) as (d' & E & Hd' & Hm); [set_solver|set_solver|].
      exists d'. cbn [mbind outcome_bind]. by rewrite E.
Qed.

Context (HL1 : counts !! L1_ENUM = Some (g_NUM_PROCESSORS g)) (HL2 : counts !! L2_ENUM = Some (g_NUM_L2_BANKS g)).

(** The loops start from no component. *)
Lemma gather_spec (step : list NodeSet → Z → outcome (list NodeSet)) t (f : Z → Z) (keep : Z → bool) l :
  (∀ i, i ∈ l → keep i = true → valid counts (t, f i)) →
  (∀ i ret, i ∈ l → step ret i = if keep i then add counts (t, f i) ret else Ret ret) →
  ∃ d', foldM step (new_NetDest counts) l = Ret d' ∧ dest_ok counts d' ∧ dests d' = group t f (List.filter keep l).
Proof.
  intros Hv Hl. destruct (new_spec counts Hcounts) as [Hd E0].
  destruct (add_all_spec step t f keep l _ Hd Hv Hl) as (d & E & Hok & Em). exists d.
  split; [done|]. split; [done|]. rewrite Em, E0. set_solver.
Qed.

Lemma has_L1_spec : has_L1 = Ret tt.
Proof. unfold has_L1, MachineType_NUM. apply lookup_lt_Some in HL1. by rewrite (proj2 (Nat.eqb_neq _ _)) by lia. Qed.

(** The first-level caches of a chip. *)
Definition chip_L1s (chip : Z) : gset MachineID :=
  group L1_ENUM id (List.filter (λ q, q / g_PROCS_PER_CHIP g =? chip) (seqZ 0 (g_NUM_PROCESSORS g))).

Lemma elem_chip_L1s chip i q :
  (i, q) ∈ chip_L1s chip ↔ i = L1_ENUM ∧ 0 ≤ q < g_NUM_PROCESSORS g ∧ q / g_PROCS_PER_CHIP g = chip.
Proof.
  unfold chip_L1s. rewrite elem_group. split.
  - intros (-> & k & Hk & ->). apply list_elem_of_In, List.filter_In in Hk as [Hk E].
    apply list_elem_of_In, elem_of_seqZ in Hk. apply Z.eqb_eq in E. unfold id. split; [done|]. split; [lia|done].
  - intros (-> & Hq & E). split; [done|]. exists q. split; [|done]. apply list_elem_of_In, List.filter_In.
    split; [|by apply Z.eqb_eq]. apply list_elem_of_In, elem_of_seqZ. lia.
Qed.

(** The numbers of the processors of a chip are consecutive. *)
Lemma chip_range chip q :
  0 ≤ chip < g_NUM_CHIPS g →
  chip * g_PROCS_PER_CHIP g ≤ q < chip * g_PROCS_PER_CHIP g + g_PROCS_PER_CHIP g ↔
  0 ≤ q < g_NUM_PROCESSORS g ∧ q / g_PROCS_PER_CHIP g = chip.
Proof.
  intros Hc. destruct per_chip_pos as (_ & Hq & _ & _ & ->). split.
  - intros H. split; [nia|]. symmetry. apply (Z.div_unique_pos _ _ _ (q - chip * g_PROCS_PER_CHIP g)); lia.
  - intros [H <-]. pose proof (Z.div_mod q (g_PROCS_PER_CHIP g) ltac:(lia)).
    pose proof (Z.mod_pos_bound q (g_PROCS_PER_CHIP g) Hq). lia.
Qed.

Lemma chip_loop_spec (step : list NodeSet → Z → outcome (list NodeSet)) (keep : Z → bool) chip :
  0 ≤ chip < g_NUM_CHIPS g →
  (∀ i ret, step ret i = if keep i then add counts (L1_ENUM, i) ret else Ret ret) →
  ∃ d, foldM step (new_NetDest counts) (seqZ (chip * g_PROCS_PER_CHIP g) (g_PROCS_PER_CHIP g)) = Ret d ∧
    dest_ok counts d ∧ ∀ i q, (i, q) ∈ dests d ↔ (i, q) ∈ chip_L1s chip ∧ keep q = true.
Proof.
  intros Hc Hstep.
  destruct (gather_spec step L1_ENUM id keep (seqZ (chip * g_PROCS_PER_CHIP g) (g_PROCS_PER_CHIP g))) as (d & E & Hd & Em).
  - intros q Hq%elem_of_seqZ _. apply chip_range in Hq; [|done]. exists (g_NUM_PROCESSORS g). split; [done|apply Hq].
  - intros i ret _. apply Hstep.
  - exists d. split; [done|]. split; [done|]. intros i q. rewrite Em, elem_group, elem_chip_L1s, <- chip_range by done.
    split.
    + intros (-> & k & Hk & ->). apply list_elem_of_In, List.filter_In in Hk as [Hk Hkeep].
      apply list_elem_of_In, elem_of_seqZ in Hk. done.
    + intros [[-> Hq] Hkeep]. split; [done|]. exists q. split; [|done]. apply list_elem_of_In, List.filter_In.
      split; [|done]. by apply list_elem_of_In, elem_of_seqZ.
Qed.

(** The banks of an address on the chips of a list. *)
Definition address_banks a (chips : list Z) : gset MachineID :=
  group L2_ENUM (λ chip, chip * g_NUM_L2_BANKS_PER_CHIP g + bank_of a) chips.

Lemma bank_valid a chip : 0 ≤ chip < g_NUM_CHIPS g →
  valid counts (L2_ENUM, chip * g_NUM_L2_BANKS_PER_CHIP g + bank_of a).
Proof.
  intros Hc. exists (g_NUM_L2_BANKS g). split; [done|]. pose proof (bank_range a). cbn.
  destruct per_chip_pos as (_ & _ & _ & -> & _). nia.
Qed.

Lemma map_chip_spec a chip :
  bank_bits_ok → 0 ≤ a < 2 ^ 64 → 0 ≤ chip < g_NUM_CHIPS g →
  map_L2ChipId_to_L2Cache a chip = Ret (L2_ENUM, chip * g_NUM_L2_BANKS_PER_CHIP g + bank_of a).
Proof.
  intros Hok Ha Hc. unfold map_L2ChipId_to_L2Cache. rewrite (proj2 (Z.ltb_lt chip _)) by lia. by apply l2_cache_spec.
Qed.

(** The chips a message goes to. *)
Lemma banks_loop_spec a (step : list NodeSet → Z → outcome (list NodeSet)) (keep : Z → bool) n :
  bank_bits_ok → 0 ≤ a < 2 ^ 64 →
  (∀ i, 0 ≤ i < n → keep i = true → i < g_NUM_CHIPS g) →
  (∀ i ret, 0 ≤ i < n → step ret i =
     if keep i then m ← map_L2ChipId_to_L2Cache a i; add counts m ret else Ret ret) →
  ∃ d, foldM step (new_NetDest counts) (seqZ 0 n) = Ret d ∧ dest_ok counts d ∧
    dests d = address_banks a (List.filter keep (seqZ 0 n)).
Proof.
  intros Hok Ha Hn Hstep. apply gather_spec.
  - intros i Hi%elem_of_seqZ Hk. apply bank_valid. specialize (Hn i ltac:(lia) Hk). lia.
  - intros i ret Hi%elem_of_seqZ. rewrite Hstep by lia. destruct (keep i) eqn:E; [|done].
    specialize (Hn i ltac:(lia) E). by rewrite map_chip_spec by (done || lia).
Qed.

Lemma filter_all (l : list Z) : List.filter (λ _, true) l = l.
Proof. induction l as [|x l IH]; cbn; by f_equal. Qed.

Lemma getMultiStatic_spec a sharers :
  bank_bits_ok → 0 ≤ a < 2 ^ 64 → set_ok sharers → (∀ i, i ∈ members sharers → i < g_NUM_CHIPS g) →
  ∃ d, getMultiStaticL2BankNetDest a sharers = Ret d ∧ dest_ok counts d ∧
    ∀ m, m ∈ dests d ↔ ∃ chip, chip ∈ members sharers ∧ m = (L2_ENUM, chip * g_NUM_L2_BANKS_PER_CHIP g + bank_of a).
Proof.
  intros Hok Ha Hs Hm.
  destruct (banks_loop_spec a (λ dest i,
      b ← NodeSet.isElement i sharers;
      if b : bool then m ← map_L2ChipId_to_L2Cache a i; add counts m dest else Ret dest)
    (λ i, bool_decide (i ∈ members sharers)) (getSize sharers)) as (d & E & Hd & Em); [done|done| | |].
  - intros i _ Hi. apply Hm. by apply bool_decide_eq_true in Hi.
  - intros i ret Hi. by rewrite set_isElement_spec.
  - exists d. split; [exact E|]. split; [done|]. intros [i j]. rewrite Em. unfold address_banks. rewrite elem_group. split.
    + intros (-> & k & Hk & ->). apply list_elem_of_In, List.filter_In in Hk as [_ Hk]. apply bool_decide_eq_true in Hk. eauto.
    + intros (chip & Hc & [= -> ->]). split; [done|]. exists chip. split; [|done]. apply list_elem_of_In, List.filter_In.
      split; [|by apply bool_decide_eq_true]. apply list_elem_of_In, elem_of_seqZ. apply elem_members in Hc; [|done].
      apply has_range in Hc; [|done]. unfold getSize. lia.
Qed.

(** ** The functions on the caches of a chip *)

Lemma local_of_chip chip :
  0 ≤ chip < g_NUM_CHIPS g →
  ∃ d, add_range (chip * g_PROCS_PER_CHIP g) (g_PROCS_PER_CHIP g) (new_NetDest counts) = Ret d ∧
    dest_ok counts d ∧ dests d = chip_L1s chip.
Proof.
  intros Hc. destruct (chip_loop_spec (λ ret i, add counts (L1_ENUM, i) ret) (λ _, true) chip Hc) as (d & E & Hd & Em); [done|].
  exists d. split; [exact E|]. split; [done|]. apply set_eq. intros [i q]. rewrite Em. tauto.
Qed.

Lemma getLocal_L1 p :
  0 ≤ p < g_NUM_PROCESSORS g →
  ∃ d, getLocalL1IDs (L1_ENUM, p) = Ret d ∧ dest_ok counts d ∧ dests d = chip_L1s (p / g_PROCS_PER_CHIP g).
Proof.
  intros Hp. destruct (chip_of_L1 p Hp) as [E Hc]. unfold getLocalL1IDs. rewrite has_L1_spec. cbn [fst snd mbind outcome_bind].
  rewrite Nat.eqb_refl, E. by apply local_of_chip.
Qed.

Lemma getOther_spec p :
  0 ≤ p < g_NUM_PROCESSORS g →
  ∃ d, getOtherLocalL1IDs (L1_ENUM, p) = Ret d ∧ dest_ok counts d ∧
    dests d = chip_L1s (p / g_PROCS_PER_CHIP g) ∖ {[(L1_ENUM, p)]}.
Proof.
  intros Hp. destruct (chip_of_L1 p Hp) as [E Hc]. unfold getOtherLocalL1IDs. rewrite has_L1_spec.
  cbn [fst snd mbind outcome_bind]. rewrite E.
  destruct (chip_loop_spec (λ ret i, if negb (i =? p) then add counts (L1_ENUM, i) ret else Ret ret)
    (λ i, negb (i =? p)) _ Hc) as (d & Ed & Hd & Em); [done|].
  exists d. split; [exact Ed|]. split; [done|]. apply set_eq. intros [i q].
  rewrite Em, elem_of_difference, elem_of_singleton, negb_true_iff, Z.eqb_neq, elem_chip_L1s. naive_solver.
Qed.

Lemma getExternal_spec p :
  0 ≤ p < g_NUM_PROCESSORS g →
  ∃ d, getExternalL1IDs (L1_ENUM, p) = Ret d ∧ dest_ok counts d ∧
    dests d = group L1_ENUM id (seqZ 0 (g_NUM_PROCESSORS g)) ∖ chip_L1s (p / g_PROCS_PER_CHIP g).
Proof.
  intros Hp. unfold getExternalL1IDs. rewrite has_L1_spec. cbn [mbind outcome_bind].
  destruct (gather_spec (λ ret i, add counts (L1_ENUM, i) ret) L1_ENUM id (λ _, true) (seqZ 0 (g_NUM_PROCESSORS g)))
    as (d & E & Hd & Em).
  { intros i Hi%elem_of_seqZ _. exists (g_NUM_PROCESSORS g). cbn. split; [done|unfold id; lia]. }
  { done. }
  unfold add_range. rewrite E. cbn [mbind outcome_bind]. destruct (getLocal_L1 p Hp) as (dl & -> & Hdl & El).
  cbn [mbind outcome_bind]. destruct (removeNetDest_spec counts d dl Hcounts Hd Hdl) as (r & Er & Hr & Erm).
  exists r. split; [done|]. split; [done|]. by rewrite Erm, Em, El, filter_all.
Qed.

Lemma isLocal_spec p q t t' :
  0 ≤ p < g_NUM_PROCESSORS g → 0 ≤ q < g_NUM_PROCESSORS g →
  isLocalProcessor (t, p) (t', q) = (q / g_PROCS_PER_CHIP g =? p / g_PROCS_PER_CHIP g).
Proof.
  intros Hp Hq. destruct (chip_of_L1 p Hp) as [E Hc]. unfold isLocalProcessor. cbn [fst snd]. rewrite E.
  apply eq_true_iff_eq. rewrite existsb_exists, Z.eqb_eq. pose proof (chip_range _ q Hc) as Hr. split.
  - intros (i & Hi & ->%Z.eqb_eq). apply list_elem_of_In, elem_of_seqZ in Hi. by apply Hr.
  - intros H. exists q. split; [|apply Z.eqb_refl]. apply list_elem_of_In, elem_of_seqZ. by apply Hr.
Qed.
Context (Hne : L1_ENUM ≠ L2_ENUM).

Lemma getLocal_L2 b :
  0 ≤ b < g_NUM_L2_BANKS g →
  ∃ d, getLocalL1IDs (L2_ENUM, b) = Ret d ∧ dest_ok counts d ∧ dests d = chip_L1s (b / g_NUM_L2_BANKS_PER_CHIP g).
Proof.
  intros Hp. destruct (chip_of_L2 b Hp) as [E Hc]. unfold getLocalL1IDs. rewrite has_L1_spec. cbn [fst snd mbind outcome_bind].
  rewrite (proj2 (Nat.eqb_neq _ _)), Nat.eqb_refl, E by done. by apply local_of_chip.
Qed.

End mapping.

(** ** Lines of the memory and their homes *)

(** The address of the first byte of a line, from the module and the index. *)
Definition address_of (g : globals) (node index : Z) : Z :=
  (index * g_NUM_MEMORIES g + node) * g_DATA_BLOCK_BYTES g.

Lemma memory_shape g : config_ok g →
  0 < g_DATA_BLOCK_BYTES g ∧ 0 < g_NUM_MEMORIES g ∧ 0 < g_MEMORY_MODULE_BLOCKS g ∧
  g_MEMORY_SIZE_BYTES g = g_MEMORY_MODULE_BLOCKS g * g_NUM_MEMORIES g * g_DATA_BLOCK_BYTES g ∧
  g_MEMORY_SIZE_BYTES g < 2 ^ 63.
Proof.
  intros [[Eb Hb] [Em Hm] _ _ _ _ _ [En Hn] [Ek Hk] _ _ Es _ _ _ _]. rewrite Eb, Em, En, Ek.
  repeat split; try (apply Z.pow_pos_nonneg; lia); [|apply Z.pow_lt_mono_r; lia].
  rewrite <- !Z.pow_add_r by lia. f_equal. lia.
Qed.

Lemma address_of_memory g node index :
  config_ok g → 0 ≤ node < g_NUM_MEMORIES g → 0 ≤ index < g_MEMORY_MODULE_BLOCKS g →
  0 ≤ address_of g node index < g_MEMORY_SIZE_BYTES g ∧
  address_of g node index / g_DATA_BLOCK_BYTES g = index * g_NUM_MEMORIES g + node.
Proof.
  intros Hg Hn Hi. destruct (memory_shape g Hg) as (Hb & Hm & Hk & E & _). unfold address_of.
  split; [|by rewrite Z.div_mul by lia]. rewrite E. split; [apply Z.mul_nonneg_nonneg; nia|].
  apply Z.mul_lt_mono_pos_r; [done|]. nia.
Qed.

Lemma line_split x n : 0 < n → 0 ≤ x → x = x / n * n + x `mod` n ∧ 0 ≤ x / n.
Proof. intros Hn Hx. pose proof (Z.div_mod x n ltac:(lia)). split; [lia|by apply Z.div_pos]. Qed.

(** [C34] Every line of the memory has one place: an address below the size of the
    memory is mapped to a module that exists and an index inside it, from which
    the line is recovered, and every place of every module is the place of the
    line at [address_of].  An address beyond the memory is refused. *)
Theorem directory_places g :
  config_ok g →
  (∀ a, 0 ≤ a < g_MEMORY_SIZE_BYTES g → ∃ node index,
     map_Address_to_DirectoryNode g a = Ret node ∧ memoryModuleIndex g a = Ret index ∧
     0 ≤ node < g_NUM_MEMORIES g ∧ 0 ≤ index < g_MEMORY_MODULE_BLOCKS g ∧
     address_of g node index = line_address (g_DATA_BLOCK_BITS g) a) ∧
  (∀ node index, 0 ≤ node < g_NUM_MEMORIES g → 0 ≤ index < g_MEMORY_MODULE_BLOCKS g →
     0 ≤ address_of g node index < g_MEMORY_SIZE_BYTES g ∧
     map_Address_to_DirectoryNode g (address_of g node index) = Ret node ∧
     memoryModuleIndex g (address_of g node index) = Ret index) ∧
  (∀ a, g_MEMORY_SIZE_BYTES g ≤ a < 2 ^ 64 → memoryModuleIndex g a = Raise AssertFailed).
Proof.
  intros Hg. destruct (memory_shape g Hg) as (Hb & Hm & Hk & E & Hs). split; [|split].
  - intros a Ha. exists ((a / g_DATA_BLOCK_BYTES g) `mod` g_NUM_MEMORIES g), (a / g_DATA_BLOCK_BYTES g / g_NUM_MEMORIES g).
    rewrite home_spec, index_spec, (proj2 (Z.ltb_lt a _)) by (done || lia).
    split; [done|]. split; [done|]. split; [by apply Z.mod_pos_bound|].
    assert (Hx : 0 ≤ a / g_DATA_BLOCK_BYTES g) by (apply Z.div_pos; lia).
    destruct (line_split _ _ Hm Hx) as [Ex Hq]. split.
    + split; [done|]. rewrite E in Ha.
      apply Z.div_lt_upper_bound; [done|]. apply Z.div_lt_upper_bound; lia.
    + unfold address_of. rewrite <- Ex. destruct (co_block g Hg) as [Eb Hb0]. destruct (co_int g Hg) as [Hb31 _].
      rewrite line_address_div, Eb by lia. lia.
  - intros node index Hn Hi. destruct (address_of_memory g node index Hg Hn Hi) as [Ha Ed].
    split; [done|]. rewrite home_spec, index_spec, (proj2 (Z.ltb_lt (address_of g node index) _)), Ed by (done || lia).
    split; f_equal; [by rewrite Z.add_comm, Z.mod_add, Z.mod_small by lia|].
    by rewrite Z.div_add_l, Z.div_small, Z.add_0_r by lia.
  - intros a Ha. rewrite index_spec, (proj2 (Z.ltb_ge a _)) by (done || lia). done.
Qed.

(** ** The configuration of the machines *)

Record machines_ok (g : globals) (counts : list Z) (L1 L2 : nat) : Prop := {
  mo_config : config_ok g;
  mo_counts : counts_ok counts;
  mo_L1 : counts !! L1 = Some (g_NUM_PROCESSORS g);
  mo_L2 : counts !! L2 = Some (g_NUM_L2_BANKS g);
  mo_different : L1 ≠ L2
}.

(** [C35] The banks of an address: there is one on each chip, at the same place of
    every chip; the bank a first-level cache is sent to is the one of its chip,
    whichever function computes it, and its chip is read back from its number;
    a set of chips is turned into exactly the banks on those chips, and all
    pertinent banks are the banks on all chips. *)
Theorem address_bank_per_chip g counts low L1 L2 a :
  machines_ok g counts L1 L2 → bank_bits_ok g low → 0 ≤ a < 2 ^ 64 →
  ∃ bank, 0 ≤ bank < g_NUM_L2_BANKS_PER_CHIP g ∧
    (∀ chip, 0 ≤ chip < g_NUM_CHIPS g → ∃ num, num = chip * g_NUM_L2_BANKS_PER_CHIP g + bank ∧
       map_L2ChipId_to_L2Cache g low L2 a chip = Ret (L2, num) ∧ 0 ≤ num < g_NUM_L2_BANKS g ∧
       L2CacheMachIDToChipID g L2 (L2, num) = Ret chip) ∧
    (∀ p t, 0 ≤ p < g_NUM_PROCESSORS g →
       map_L1CacheMachId_to_L2Cache g low L2 a (t, p) = map_L2ChipId_to_L2Cache g low L2 a (p / g_PROCS_PER_CHIP g)) ∧
    (∃ d, getAllPertinentL2Banks g counts low L2 a = Ret d ∧ dest_ok counts d ∧
       ∀ m, m ∈ dests d ↔ ∃ chip, 0 ≤ chip < g_NUM_CHIPS g ∧ m = (L2, chip * g_NUM_L2_BANKS_PER_CHIP g + bank)) ∧
    (∀ sharers, set_ok sharers → (∀ i, i ∈ members sharers → i < g_NUM_CHIPS g) →
       ∃ d, getMultiStaticL2BankNetDest g counts low L2 a sharers = Ret d ∧ dest_ok counts d ∧
         ∀ m, m ∈ dests d ↔ ∃ chip, chip ∈ members sharers ∧ m = (L2, chip * g_NUM_L2_BANKS_PER_CHIP g + bank)).
Proof.
  intros [Hg Hcounts HL1 HL2 Hne] Hok Ha. exists (bank_of g low a). pose proof (bank_range g low Hg a) as Hb.
  destruct (per_chip_pos g Hg) as (Hk & _ & Hc & El & _).
  split; [done|]. split; [|split; [|split]].
  - intros chip Hchip. eexists. split; [reflexivity|].
    rewrite (map_chip_spec g low L2 Hg a chip Hok Ha Hchip). split; [done|].
    split; [rewrite El; nia|]. unfold L2CacheMachIDToChipID. cbn [fst snd]. rewrite Nat.eqb_refl.
    cbn [assertb mbind outcome_bind]. f_equal. rewrite Z.quot_div_nonneg by nia.
    by rewrite Z.div_add_l, Z.div_small, Z.add_0_r by lia.
  - intros p t Hp. destruct (chip_of_L1 g Hg p Hp) as [E Hchip]. unfold map_L2ChipId_to_L2Cache, map_L1CacheMachId_to_L2Cache.
    rewrite (proj2 (Z.ltb_lt (p / _) _)) by lia. unfold L1CacheNumToL2Base. cbn [snd]. by rewrite E.
  - destruct (banks_loop_spec g counts low L1 L2 Hg Hcounts HL1 HL2 a
      (λ dest i, m ← map_L2ChipId_to_L2Cache g low L2 a i; add counts m dest) (λ _, true) (g_NUM_CHIPS g) Hok Ha)
      as (d & E & Hd & Em); [lia|done|].
    exists d. split; [exact E|]. split; [done|]. intros [i j]. rewrite Em, filter_all. unfold address_banks. rewrite elem_group.
    setoid_rewrite elem_of_seqZ. split.
    + intros (-> & k & Hk' & ->). exists k. split; [lia|done].
    + intros (chip & Hchip & [= -> ->]). split; [done|]. exists chip. split; [lia|done].
  - intros sharers Hs Hm. by apply (getMultiStatic_spec g counts low L1 L2 Hg Hcounts HL1 HL2 a sharers Hok Ha Hs Hm).
Qed.

(** The first-level caches of a chip: from a cache of the chip, or from a
    bank of the chip, the local caches are those whose processor is on the chip;
    the other local ones leave out the cache itself, the external ones are the
    caches of all other chips, and a processor is local exactly when its cache is. *)
Theorem caches_per_chip g counts L1 L2 :
  machines_ok g counts L1 L2 →
  (∀ b, 0 ≤ b < g_NUM_L2_BANKS g → ∃ d, getLocalL1IDs g counts L1 L2 (L2, b) = Ret d ∧ dest_ok counts d ∧
     ∀ i q, (i, q) ∈ dests d ↔
       i = L1 ∧ 0 ≤ q < g_NUM_PROCESSORS g ∧ q / g_PROCS_PER_CHIP g = b / g_NUM_L2_BANKS_PER_CHIP g) ∧
  (∀ p, 0 ≤ p < g_NUM_PROCESSORS g → ∃ local other external,
     getLocalL1IDs g counts L1 L2 (L1, p) = Ret local ∧ getOtherLocalL1IDs g counts L1 (L1, p) = Ret other ∧
     getExternalL1IDs g counts L1 L2 (L1, p) = Ret external ∧
     dest_ok counts local ∧ dest_ok counts other ∧ dest_ok counts external ∧
     (∀ i q, (i, q) ∈ dests local ↔
        i = L1 ∧ 0 ≤ q < g_NUM_PROCESSORS g ∧ q / g_PROCS_PER_CHIP g = p / g_PROCS_PER_CHIP g) ∧
     dests other = dests local ∖ {[(L1, p)]} ∧
     (∀ i q, (i, q) ∈ dests external ↔ i = L1 ∧ 0 ≤ q < g_NUM_PROCESSORS g ∧ (L1, q) ∉ dests local) ∧
     (∀ q t t', 0 ≤ q < g_NUM_PROCESSORS g → isLocalProcessor g (t, p) (t', q) = true ↔ (L1, q) ∈ dests local)).
Proof.
  intros [Hg Hcounts HL1 HL2 Hne]. split.
  - intros b Hb. destruct (getLocal_L2 g counts L1 L2 Hg Hcounts HL1 HL2 Hne b Hb) as (d & E & Hd & Em).
    exists d. split; [done|]. split; [done|]. intros i q. rewrite Em. by apply elem_chip_L1s.
  - intros p Hp. destruct (getLocal_L1 g counts L1 L2 Hg Hcounts HL1 HL2 p Hp) as (dl & El & Hl & Eml).
    destruct (getOther_spec g counts L1 L2 Hg Hcounts HL1 HL2 p Hp) as (d & E & Hd & Em).
    destruct (getExternal_spec g counts L1 L2 Hg Hcounts HL1 HL2 p Hp) as (de & Ee & He & Eme).
    exists dl, d, de. repeat (split; [done|]). split; [|split; [by rewrite Em, Eml|split]].
    + intros i q. rewrite Eml. by apply elem_chip_L1s.
    + intros i q. rewrite Eme, elem_of_difference, elem_group, Eml, !elem_chip_L1s by done. setoid_rewrite elem_of_seqZ.
      unfold id. split; [intros [(-> & k & Hk & ->) Hn]|intros (-> & Hq & Hn)]; [|split; [split; [done|exists q]|]]; intuition lia.
    + intros q t t' Hq. rewrite (isLocal_spec g Hg), Z.eqb_eq, Eml, elem_chip_L1s by done. tauto.
Qed.

(** ** An example: sixteen processors on four chips *)

Definition example_g : globals :=
  mkGlobals 10 8 2 2 12 11 10 10 2 (2 ^ 32) 64 4096 16 4 1 16 8 14 4 2 32 6 12 4 2 4 4 2 3 2 23 (2 ^ 23).

Example example_g_init : init true (example_config (2 ^ 32)) = Ret example_g.
Proof. vm_compute. reflexivity. Qed.

Lemma example_g_ok : config_ok example_g.
Proof. split; cbn; lia. Qed.

Definition example_counts : list Z := [16; 16; 8].

Lemma example_machines_ok : machines_ok example_g example_counts 0 1.
Proof.
  split; [exact example_g_ok| |done..]. intros i c H.
  destruct i as [|[|[|i]]]; cbn in H; [injection H as <-; lia..|done].
Qed.

Lemma directory_places_witness :
  ∃ node index, map_Address_to_DirectoryNode example_g 1000 = Ret node ∧ memoryModuleIndex example_g 1000 = Ret index ∧
    address_of example_g node index = line_address (g_DATA_BLOCK_BITS example_g) 1000.
Proof.
  destruct (directory_places example_g example_g_ok) as (H & _ & _).
  destruct (H 1000 ltac:(cbn; lia)) as (node & index & E1 & E2 & _ & _ & E). by exists node, index.
Defined.

Lemma address_bank_per_chip_witness :
  ∃ bank, 0 ≤ bank < 4 ∧ map_L1CacheMachId_to_L2Cache example_g true 1 1000 (0%nat, 9) =
    map_L2ChipId_to_L2Cache example_g true 1 1000 2.
Proof.
  destruct (address_bank_per_chip example_g example_counts true 0 1 1000 example_machines_ok
    ltac:(unfold bank_bits_ok; cbn; lia) ltac:(lia)) as (bank & Hb & _ & H & _).
  exists bank. split; [exact Hb|]. exact (H 9 0%nat ltac:(cbn; lia)).
Defined.

Lemma caches_per_chip_witness :
  ∃ local, getLocalL1IDs example_g example_counts 0 1 (0%nat, 9) = Ret local ∧ (0%nat, 10) ∈ dests local.
Proof.
  destruct (caches_per_chip example_g example_counts 0 1 example_machines_ok) as [_ H].
  destruct (H 9 ltac:(cbn; lia)) as (local & other & external & E & _ & _ & _ & _ & _ & Hl & _).
  exists local. split; [exact E|]. apply Hl. split; [reflexivity|]. split; [cbn; lia|reflexivity].
Defined.

(** The number [getChipID] gives for a bank is not its chip. *)
Example getChipID_differs : getChipID example_g (1%nat, 9) = 0 ∧ L2CacheMachIDToChipID example_g 1 (1%nat, 9) = Ret 2.
Proof. split; reflexivity. Qed.
