(* ===== verification/DirectoryMemory.v ===== *)
(** * The directory of a memory module

    [DirectoryMemory.C] of [gems-lib/ruby_clean/system].  The entry type is the
    one the protocol generates, a parameter with the value its constructor gives.
    A caller writes to the entry through the reference [lookup] returns: [access]
    is a [lookup] followed by such a write.  The destructor and printing are left
    out. *)

From stdpp Require Import gmap list numbers.
From S2P Require Import Prelude Address NodeSet RubyConfig ComponentMapping.
Local Open Scope Z_scope.

Section directory.
Context {E : Type} (new_Entry : E) (g : globals).

(** The keys of [m_entries] are [int]. *)
Record DirectoryMemory := mkDirectory {
  m_chip : Z;
  m_version : Z;
  m_size : Z;
  m_entries : gmap Z E
}.

Implicit Types (d : DirectoryMemory) (a : Z).

Definition new_DirectoryMemory (chip version : Z) : outcome DirectoryMemory :=
  let size := g_MEMORY_MODULE_BLOCKS g in
  assertb (0 <? size) ;; Ret (mkDirectory chip version size ∅).

Definition isPresent a d : outcome bool :=
  node ← map_Address_to_DirectoryNode g a;
  Ret (node =? m_chip d * g_NUM_MEMORIES_PER_CHIP g + m_version d).

Definition set_entry (key : Z) (e : E) d : DirectoryMemory :=
  mkDirectory (m_chip d) (m_version d) (m_size d) (<[key := e]> (m_entries d)).

(** The key and the entry, which is allocated when there is none; the comparison
    with [m_size] is an unsigned one. *)
Definition lookup a d : outcome (Z * E * DirectoryMemory) :=
  b ← isPresent a d; assertb b ;;
  index ← memoryModuleIndex g a;
  assertb (negb ((index <? 0) || (m_size d <? u64 index))) ;;
  let key := i32 index in
  match m_entries d !! key with
  | Some e => Ret (key, e, d)
  | None => Ret (key, new_Entry, set_entry key new_Entry d)
  end.

(** The entry found and the directory after a write [f] to it. *)
Definition access '(seen, d) '(a, f) : outcome (list E * DirectoryMemory) :=
  '(key, e, d) ← lookup a d; Ret (seen ++ [e], set_entry key (f e) d).

Definition accesses (ops : list (Z * (E → E))) d : outcome (list E * DirectoryMemory) := foldM access ([], d) ops.

(** ** A directory as a memory of entries *)

(** An entry for every line, that only an access to the line changes. *)
Definition line_access '(seen, m) '(a, f) : list E * (Z → E) :=
  let line := a / g_DATA_BLOCK_BYTES g in
  (seen ++ [m line : E], λ l, if l =? line then f (m line) else m l).

Definition line_accesses (ops : list (Z * (E → E))) : list E := (foldl line_access ([], λ _, new_Entry) ops).1.

(** An address of the memory whose home is the directory. *)
Definition at_home (node : Z) a : Prop :=
  0 ≤ a < g_MEMORY_SIZE_BYTES g ∧ (a / g_DATA_BLOCK_BYTES g) `mod` g_NUM_MEMORIES g = node.

Definition key_of a : Z := i32 (a / g_DATA_BLOCK_BYTES g / g_NUM_MEMORIES g).

Definition entry_at d a : E := default new_Entry (m_entries d !! key_of a).

Lemma i32_inj x y : 0 ≤ x < 2 ^ 32 → 0 ≤ y < 2 ^ 32 → i32 x = i32 y → x = y.
Proof. unfold i32. intros. Z.to_euclidean_division_equations. lia. Qed.

Context (Hg : config_ok g).

Lemma index_range a :
  0 ≤ a < g_MEMORY_SIZE_BYTES g →
  0 ≤ a / g_DATA_BLOCK_BYTES g ∧ 0 ≤ a / g_DATA_BLOCK_BYTES g / g_NUM_MEMORIES g < g_MEMORY_MODULE_BLOCKS g.
Proof.
  intros Ha. destruct (memory_shape g Hg) as (H1 & H2 & H3 & Em & _). rewrite Em in Ha.
  assert (0 ≤ a / g_DATA_BLOCK_BYTES g) by (apply Z.div_pos; lia). split; [done|]. split; [apply Z.div_pos; lia|].
  apply Z.div_lt_upper_bound; [done|]. apply Z.div_lt_upper_bound; lia.
Qed.

Lemma directory_lookup_spec a d :
  m_size d = g_MEMORY_MODULE_BLOCKS g → at_home (m_chip d * g_NUM_MEMORIES_PER_CHIP g + m_version d) a →
  ∃ d', lookup a d = Ret (key_of a, entry_at d a, d') ∧
    ∀ e, set_entry (key_of a) e d' = set_entry (key_of a) e d.
Proof.
  intros Hs [Ha Eh]. destruct (memory_shape g Hg) as (_ & _ & _ & _ & H63). destruct (index_range a Ha) as [_ Hi].
  assert (Hk : g_MEMORY_MODULE_BLOCKS g < 2 ^ 63).
  { destruct (co_module g Hg) as [-> Hb]. apply Z.pow_lt_mono_r; [lia|lia|]. destruct (co_memory g Hg) as [_ Hm].
    pose proof (co_sum_memory g Hg). destruct (co_block g Hg) as [_ ?]. destruct (co_memories g Hg) as [_ ?]. lia. }
  unfold lookup, isPresent. rewrite home_spec, Eh by (done || lia). cbn [mbind outcome_bind]. rewrite Z.eqb_refl.
  cbn [assertb mbind outcome_bind]. rewrite index_spec, (proj2 (Z.ltb_lt a _)) by (done || lia). cbn [mbind outcome_bind].
  unfold u64. rewrite Z.mod_small, Hs by lia. rewrite (proj2 (Z.ltb_ge _ 0)), (proj2 (Z.ltb_ge (g_MEMORY_MODULE_BLOCKS g) _)) by lia.
  cbn [orb negb assertb mbind outcome_bind]. unfold entry_at, key_of.
  destruct (m_entries d !! _) as [e|] eqn:E0; cbn [default]; eexists; (split; [reflexivity|]); [done|].
  intros e. unfold set_entry. cbn. by rewrite insert_insert_eq.
Qed.

Context (Hsize : g_MEMORY_MODULE_BLOCKS g ≤ 2 ^ 32).

Lemma key_injective node a b :
  at_home node a → at_home node b → key_of a = key_of b → a / g_DATA_BLOCK_BYTES g = b / g_DATA_BLOCK_BYTES g.
Proof.
  intros [Ha Ea] [Hb Eb] Ek. destruct (memory_shape g Hg) as (_ & Hm & _).
  destruct (index_range a Ha) as [Pa Ia], (index_range b Hb) as [Pb Ib].
  destruct (line_split _ _ Hm Pa) as [Sa _], (line_split _ _ Hm Pb) as [Sb _].
  rewrite Sa, Sb, Ea, Eb. f_equal. f_equal. apply i32_inj; [lia|lia|exact Ek].
Qed.

(** The directory holds the entries of a memory. *)
Record holds (node : Z) d (m : Z → E) : Prop := {
  ho_node : m_chip d * g_NUM_MEMORIES_PER_CHIP g + m_version d = node;
  ho_size : m_size d = g_MEMORY_MODULE_BLOCKS g;
  ho_entries : ∀ a, at_home node a → entry_at d a = m (a / g_DATA_BLOCK_BYTES g)
}.

Lemma access_holds node seen d m a f :
  holds node d m → at_home node a →
  ∃ d', access (seen, d) (a, f) = Ret ((line_access (seen, m) (a, f)).1, d') ∧
    holds node d' (line_access (seen, m) (a, f)).2.
Proof.
  intros [H1 H2 H3] Ha. subst node. destruct (directory_lookup_spec a d H2 Ha) as (d' & E0 & Es). unfold access. rewrite E0.
  cbn [mbind outcome_bind]. rewrite Es, (H3 a Ha). eexists. split; [reflexivity|]. split; [done|done|].
  intros b Hb. unfold entry_at, set_entry. cbn. destruct (Z.eqb_spec (b / g_DATA_BLOCK_BYTES g) (a / g_DATA_BLOCK_BYTES g)) as [El|El].
  - assert (key_of b = key_of a) as -> by (unfold key_of; by rewrite El). by rewrite lookup_insert_eq.
  - rewrite lookup_insert_ne; [by apply H3|]. intros Ek. apply El. symmetry. by eapply key_injective.
Qed.

Lemma accesses_hold node ops : ∀ seen d m,
  holds node d m → Forall (λ op, at_home node op.1) ops →
  ∃ d', foldM access (seen, d) ops = Ret ((foldl line_access (seen, m) ops).1, d') ∧
    holds node d' (foldl line_access (seen, m) ops).2.
Proof.
  induction ops as [|[a f] ops IH]; intros seen d m Hh Hops; [by exists d|].
  apply Forall_cons in Hops as [Ha Hops]. destruct (access_holds node seen d m a f Hh Ha) as (d1 & E1 & H1).
  cbn [foldM foldl]. rewrite E1. cbn [mbind outcome_bind].
  destruct (line_access (seen, m) (a, f)) as [seen1 m1]. cbn [fst snd] in *. by apply IH.
Qed.

Lemma new_holds chip version d :
  new_DirectoryMemory chip version = Ret d →
  holds (chip * g_NUM_MEMORIES_PER_CHIP g + version) d (λ _, new_Entry).
Proof.
  unfold new_DirectoryMemory. destruct (0 <? g_MEMORY_MODULE_BLOCKS g); [|done]. cbn. intros [= <-]. split; [done|done|].
  intros a _. unfold entry_at. cbn. by rewrite lookup_empty.
Qed.

Lemma accesses_lines chip version d ops :
  new_DirectoryMemory chip version = Ret d →
  Forall (λ op, at_home (chip * g_NUM_MEMORIES_PER_CHIP g + version) op.1) ops →
  ∃ d', accesses ops d = Ret (line_accesses ops, d').
Proof.
  intros Hd Hops. destruct (accesses_hold _ ops [] d _ (new_holds _ _ _ Hd) Hops) as (d' & E0 & _). by exists d'.
Qed.
End directory.

(** [C36] A directory whose module has at most 2^32 lines is a memory of entries:
    whatever the sequence of accesses to lines whose home it is, no access fails,
    the first to a line finds a new entry and every later one the entry its
    predecessor on that line left, accesses to other lines of the module
    changing nothing. *)
Theorem directory_refines {E} (new_Entry : E) (g : globals) chip version d ops :
  config_ok g → g_MEMORY_MODULE_BLOCKS g ≤ 2 ^ 32 → new_DirectoryMemory g chip version = Ret d →
  Forall (λ op, at_home g (chip * g_NUM_MEMORIES_PER_CHIP g + version) op.1) ops →
  ∃ d', accesses new_Entry g ops d = Ret (line_accesses new_Entry g ops, d').
Proof. intros Hg Hs. by apply accesses_lines. Qed.

(** Module 5 of the example, the second of chip 2. *)
Lemma directory_refines_witness :
  ∃ d d', new_DirectoryMemory (E := Z) example_g 2 1 = Ret d ∧
    accesses 0 example_g [(320, Z.succ); (832, Z.succ); (352, Z.succ)] d = Ret ([0; 0; 1], d').
Proof.
  destruct (new_DirectoryMemory (E := Z) example_g 2 1) as [d|e] eqn:Ed; [|discriminate Ed]. exists d.
  destruct (directory_refines 0 example_g 2 1 d [(320, Z.succ); (832, Z.succ); (352, Z.succ)] example_g_ok
    ltac:(cbn; lia) Ed) as (d' & E).
  - repeat (apply Forall_cons; split; [unfold at_home; cbn; split; [lia|reflexivity]|]). by apply Forall_nil.
  - exists d'. split; [reflexivity|]. rewrite E. reflexivity.
Defined.

(** With the memory of [O3simconfig.defaults], 2^48 bytes in lines of 64, and four
    processors, a module has 2^40 lines: the key is cut to 32 bits, and an access to
    a line finds the entry of another one. *)
Definition large_config : globals :=
  mkGlobals 10 8 2 2 12 11 10 10 2 (2 ^ 48) 64 4096 4 1 1 0 0 12 0 0 0 0 0 0 0 0 0 0 0 0 0 0.

Example directory_aliases :
  ∃ g d d', init false large_config = Ret g ∧ new_DirectoryMemory (E := Z) g 0 0 = Ret d ∧
    accesses 0 g [(0, Z.succ); (2 ^ 40, Z.succ)] d = Ret ([0; 1], d') ∧
    line_accesses 0 g [(0, Z.succ); (2 ^ 40, Z.succ)] = [0; 0].
Proof. do 3 eexists. repeat split; vm_compute; reflexivity. Qed.
