(* ===== verification/Topology.v ===== *)
(** * Topology of the network

    [Topology.C] of [gems-lib/ruby_clean/network/simple]: the links of a
    network of switches, all-pairs shortest paths over them, and the routing
    table entries handed to the network.  The first [m_nodes] switch numbers
    are the links into the network, the next [m_nodes] those out of it.  The
    parallel vectors of the links are one list.  The other topologies are in
    [TopologyKinds]; printing is left out. *)

From stdpp Require Import gmap sets list numbers.
From S2P Require Import Prelude NodeSet NetDest.
Local Open Scope Z_scope.

Definition INFINITE_LATENCY : Z := 10000.
Definition DEFAULT_BW_MULTIPLIER : Z := 1.

(** ** Matrices *)

Notation Matrix := (list (list Z)).

Definition mget (M : Matrix) (i j : nat) : outcome Z := row ← M.[i]!; row.[j]!.

Definition mset (M : Matrix) (i j : nat) (v : Z) : Matrix := alter (λ row, <[j := v]> row) i M.

Definition mfill (n : nat) (f : nat → nat → Z) : Matrix :=
  (λ i, (λ j, f i j) <$> seq 0 n) <$> seq 0 n.

(** ** All-pairs shortest paths *)

(** The locals of the loop over the intermediate switch [k]. *)
Record scan_state := mkScan { minimum : Z; previous_minimum : Z; intermediate_switch : Z; inter : Matrix }.

Definition scan_step (D : Matrix) (i j : nat) (st : scan_state) (k : nat) : outcome scan_state :=
  d1 ← mget D i k; d2 ← mget D k j;
  let m := Z.min (minimum st) (i32 (d1 + d2)) in
  if previous_minimum st =? m then Ret (mkScan m m (intermediate_switch st) (inter st))
  else
    s1 ← mget (inter st) i k; s2 ← mget (inter st) k j; _ ← mget (inter st) i j;
    Ret (mkScan m m (Z.of_nat k) (mset (inter st) i j (i32 (i32 (s1 + s2) + 1)))).

(** Distances, latencies, intermediate switches, and whether one changed. *)
Record path_state := mkPaths { p_dist : Matrix; p_lat : Matrix; p_inter : Matrix; p_change : bool }.

Definition relax_cell (n : nat) (p : path_state) '(i, j) : outcome path_state :=
  d ← mget (p_dist p) i j;
  st ← foldM (scan_step (p_dist p) i j) (mkScan d d (-1) (p_inter p)) (seq 0 n);
  if d =? minimum st then Ret (mkPaths (p_dist p) (p_lat p) (inter st) (p_change p))
  else
    row ← (p_lat p).[i]!;
    assertb (0 <=? intermediate_switch st) ;;
    assertb (intermediate_switch st <? Z.of_nat (length row)) ;;
    let k := Z.to_nat (intermediate_switch st) in
    l1 ← mget (p_lat p) i k; l2 ← mget (p_lat p) k j; _ ← mget (p_lat p) i j;
    Ret (mkPaths (mset (p_dist p) i j (minimum st)) (mset (p_lat p) i j (i32 (l1 + l2))) (inter st) true).

Definition all_cells (n : nat) : list (nat * nat) := i ← seq 0 n; pair i <$> seq 0 n.

Fixpoint extend_shortest_path (fuel : nat) (D L S : Matrix) : outcome (Matrix * Matrix * Matrix) :=
  match fuel with
  | O => Raise NoFuel
  | Datatypes.S fuel =>
      p ← foldM (relax_cell (length D)) (mkPaths D L S false) (all_cells (length D));
      if p_change p then extend_shortest_path fuel (p_dist p) (p_lat p) (p_inter p)
      else Ret (p_dist p, p_lat p, p_inter p)
  end.

Definition shortest_path (fuel : nat) (weights L S : Matrix) : outcome (Matrix * Matrix * Matrix) :=
  extend_shortest_path fuel weights L S.

(** ** Routing table entries *)

Definition link_is_shortest_path_to_node (src next final : nat) (weights dist : Matrix) : outcome bool :=
  w ← mget weights src next; d1 ← mget dist next final; d2 ← mget dist src final;
  Ret (i32 (w + d1) =? d2).

Section topology.
Variable counts : list Z.

(** The components in the order of the loops, with their number [d]. *)
Definition machines : list (nat * Z) :=
  concat (imap (λ m c, pair m <$> seqZ 0 c) counts).

Definition shortest_path_to_node (src next : nat) (weights dist : Matrix) : outcome (list NodeSet) :=
  max_machines ← MachineType_base_number counts (MachineType_NUM counts);
  foldM (λ result '(d, mach),
      b ← link_is_shortest_path_to_node src next (d + Z.to_nat max_machines) weights dist;
      if b : bool then add counts mach result else Ret result)
    (new_NetDest counts) (imap pair machines).

(** ** Links *)

Record Link := mkLink { l_src : nat; l_dest : nat; l_latency : Z; l_weight : Z; l_bw : Z }.

Record Topology := mkTopology { m_nodes : nat; m_number_of_switches : nat; m_links : list Link }.

Implicit Types t : Topology.

Definition newSwitchID t : nat * Topology :=
  ((m_number_of_switches t + m_nodes t + m_nodes t)%nat,
   mkTopology (m_nodes t) (S (m_number_of_switches t)) (m_links t)).

Definition addLink_weight (src dest : nat) (latency bw weight : Z) t : outcome Topology :=
  assertb (src <=? m_number_of_switches t + m_nodes t + m_nodes t)%nat ;;
  assertb (dest <=? m_number_of_switches t + m_nodes t + m_nodes t)%nat ;;
  Ret (mkTopology (m_nodes t) (m_number_of_switches t) (m_links t ++ [mkLink src dest latency weight bw])).

Definition addLink_bw (src dest : nat) (latency bw : Z) t : outcome Topology :=
  addLink_weight src dest latency bw latency t.

Definition addLink (src dest : nat) (latency : Z) t : outcome Topology :=
  addLink_weight src dest latency DEFAULT_BW_MULTIPLIER latency t.

(** What the network is told of a link. *)
Inductive link_call :=
  | InLink (src dest : nat) (entry : list NodeSet) (latency bw : Z)
  | OutLink (src dest : nat) (entry : list NodeSet) (latency weight bw : Z)
  | InternalLink (src dest : nat) (entry : list NodeSet) (latency weight bw : Z).

Definition makeLink (src dest : nat) (entry : list NodeSet) (latency weight bw : Z) t : outcome link_call :=
  assertb ((2 * m_nodes t <=? src) || (2 * m_nodes t <=? dest))%nat ;;
  if (src <? m_nodes t)%nat then Ret (InLink src (dest - 2 * m_nodes t) entry latency bw)
  else if (dest <? 2 * m_nodes t)%nat then
    assertb (m_nodes t <=? dest)%nat ;;
    Ret (OutLink (src - 2 * m_nodes t) (dest - m_nodes t) entry latency weight bw)
  else
    assertb ((2 * m_nodes t <=? src) && (2 * m_nodes t <=? dest))%nat ;;
    Ret (InternalLink (src - 2 * m_nodes t) (dest - 2 * m_nodes t) entry latency weight bw).

(** A matrix with the values of the links, the later ones last. *)
Definition link_matrix (n : nat) (f : Link → Z) (M : Matrix) (links : list Link) : outcome Matrix :=
  foldM (λ M l, _ ← mget M (l_src l) (l_dest l); Ret (mset M (l_src l) (l_dest l) (f l))) M links.

Definition max_switch_id t : nat :=
  foldl (λ m l, Nat.max (Nat.max m (l_src l)) (l_dest l)) 0%nat (m_links t).

(** The calls to the network, and [m_component_latencies] and
    [m_component_inter_switches] as they are left. *)
Definition createLinks (fuel : nat) t : outcome (list link_call * Matrix * Matrix) :=
  let n := S (max_switch_id t) in
  W ← link_matrix n l_weight (mfill n (λ i j, if (i =? j)%nat then 0 else INFINITE_LATENCY)) (m_links t);
  L ← link_matrix n l_latency (mfill n (λ _ _, -1)) (m_links t);
  B ← link_matrix n l_bw (mfill n (λ _ _, -1)) (m_links t);
  '(D, CL, CS) ← shortest_path fuel W L (mfill n (λ _ _, 0));
  calls ← foldM (λ calls '(i, j),
      weight ← mget W i j; bw ← mget B i j; latency ← mget L i j;
      if (0 <? weight) && negb (weight =? INFINITE_LATENCY) then
        entry ← shortest_path_to_node i j W D;
        assertb (negb (latency =? -1)) ;;
        c ← makeLink i j entry latency weight bw t; Ret (calls ++ [c])
      else Ret calls) [] (all_cells n);
  Ret (calls, CL, CS).

(** ** The hierarchical switch *)

(** A row of switches with one input each. *)
Definition add_leaf (latency : Z) '(t, last_level) (i : nat) : outcome (Topology * list nat) :=
  let '(id, t) := newSwitchID t in
  t ← addLink i id latency t; Ret (t, last_level ++ [id]).

Definition up_step (fan : nat) (latency : Z) (last_level : list nat) '(t, next_level) (i : nat) : outcome (Topology * list nat) :=
  if (fan =? 0)%nat then Raise DivByZero
  else
    let '(t, next_level) :=
      if (i mod fan =? 0)%nat then let '(id, t) := newSwitchID t in (t, next_level ++ [id]) else (t, next_level) in
    src ← last_level.[i]!; dest ← next_level.[(length next_level - 1)%nat]!;
    t ← addLink src dest latency t; Ret (t, next_level).

Fixpoint up_levels (fuel fan : nat) (latency : Z) (last_level : list nat) t : outcome (Topology * list nat) :=
  if (1 <? length last_level)%nat then
    match fuel with
    | O => Raise NoFuel
    | S fuel =>
        '(t, next_level) ← foldM (up_step fan latency last_level) (t, []) (seq 0 (length last_level));
        up_levels fuel fan latency next_level t
    end
  else Ret (t, last_level).

Definition down_step (fan : nat) (latency : Z) (root : nat) (out_level : list nat) '(t, next_level) (i : nat) : outcome (Topology * list nat) :=
  if (fan =? 0)%nat then Raise DivByZero
  else
    let '(t, next_level) :=
      if (i mod fan =? 0)%nat then
        if (fan <? length out_level)%nat then let '(id, t) := newSwitchID t in (t, next_level ++ [id])
        else (t, next_level ++ [root])
      else (t, next_level) in
    src ← next_level.[(length next_level - 1)%nat]!; dest ← out_level.[i]!;
    t ← addLink src dest latency t; Ret (t, next_level).

Fixpoint down_levels (fuel fan : nat) (latency : Z) (root : nat) (out_level : list nat) t : outcome Topology :=
  if (length out_level =? 1)%nat then Ret t
  else
    match fuel with
    | O => Raise NoFuel
    | S fuel =>
        '(t, next_level) ← foldM (down_step fan latency root out_level) (t, []) (seq 0 (length out_level));
        down_levels fuel fan latency root next_level t
    end.

Definition makeHierarchicalSwitch (fuel fan_out_degree : nat) (latency : Z) t : outcome Topology :=
  '(t, last_level) ← foldM (add_leaf latency) (t, []) (seq 0 (m_nodes t));
  '(t, last_level) ← up_levels fuel fan_out_degree latency last_level t;
  root_switch ← last_level.[0%nat]!;
  down_levels fuel fan_out_degree latency root_switch ((λ i, m_nodes t + i)%nat <$> seq 0 (m_nodes t)) t.

End topology.

(** ** Square matrices as functions *)

Definition cell (M : Matrix) (i j : nat) : Z := default 0 (M !! i ≫= (.!! j)).

Definition square (n : nat) (M : Matrix) : Prop := length M = n ∧ ∀ row, row ∈ M → length row = n.

Lemma mget_cell n M i j : square n M → (i < n)%nat → (j < n)%nat → mget M i j = Ret (cell M i j).
Proof.
  intros [Hl Hr] Hi Hj. destruct (lookup_lt_is_Some_2 M i) as [row E]; [lia|].
  assert (length row = n) by by eapply Hr, list_elem_of_lookup_2.
  destruct (lookup_lt_is_Some_2 row j) as [v Ev]; [lia|].
  unfold mget, cell. rewrite (at_idx_Some _ _ _ E), E. cbn. by rewrite (at_idx_Some _ _ _ Ev), Ev.
Qed.

Lemma mset_square n M i j v : square n M → square n (mset M i j v).
Proof.
  intros [Hl Hr]. unfold mset. split; [by rewrite length_alter|]. intros row (k & Hk)%list_elem_of_lookup.
  rewrite list_lookup_alter in Hk. case_decide; [apply fmap_Some in Hk as (r & Hk & ->); rewrite length_insert|];
    by eapply Hr, list_elem_of_lookup_2.
Qed.

Lemma cell_mset n M i j v a b : square n M → (i < n)%nat → (j < n)%nat →
  cell (mset M i j v) a b = if decide (a = i ∧ b = j) then v else cell M a b.
Proof.
  intros [Hl Hr] Hi Hj. unfold cell, mset. rewrite list_lookup_alter. destruct (decide (i = a)) as [->|Hne].
  - destruct (lookup_lt_is_Some_2 M a) as [row E]; [lia|]. rewrite E. cbn.
    assert (length row = n) by by eapply Hr, list_elem_of_lookup_2.
    destruct (decide (b = j)) as [->|Hb].
    + rewrite list_lookup_insert_eq, decide_True by (done || lia). done.
    + rewrite list_lookup_insert_ne, decide_False by naive_solver. done.
  - rewrite decide_False by naive_solver. done.
Qed.

Lemma mfill_square n f : square n (mfill n f).
Proof.
  unfold mfill. split; [by rewrite length_fmap, length_seq|]. intros row (i & -> & _)%list_elem_of_fmap.
  by rewrite length_fmap, length_seq.
Qed.

Lemma cell_mfill n f i j : (i < n)%nat → (j < n)%nat → cell (mfill n f) i j = f i j.
Proof.
  intros Hi Hj. unfold cell, mfill. rewrite list_lookup_fmap, lookup_seq_lt by done. cbn.
  rewrite list_lookup_fmap, lookup_seq_lt by done. done.
Qed.

(** ** Walks

    From [i] to [j] with a total weight, a total latency and a number of steps,
    over the steps a matrix of weights allows. *)

Section walks.
Variables (n : nat) (W L : nat → nat → Z).

Inductive walk : nat → nat → Z → Z → nat → Prop :=
  | walk_nil i : (i < n)%nat → walk i i 0 0 0
  | walk_step i k j w l h : (i < n)%nat → (k < n)%nat → i ≠ k → walk k j w l h → walk i j (W i k + w) (L i k + l) (S h).

Lemma walk_one i j : (i < n)%nat → (j < n)%nat → i ≠ j → walk i j (W i j) (L i j) 1.
Proof.
  intros Hi Hj Hne. rewrite <- (Z.add_0_r (W i j)), <- (Z.add_0_r (L i j)). apply walk_step; [done..|]. by constructor.
Qed.

Lemma walk_trans i k j w1 l1 h1 w2 l2 h2 :
  walk i k w1 l1 h1 → walk k j w2 l2 h2 → walk i j (w1 + w2) (l1 + l2) (h1 + h2).
Proof.
  induction 1 as [|i m k w1 l1 h1 Hi Hm Hne H IH]; intros H2; [done|].
  rewrite <- !Z.add_assoc. cbn. apply walk_step; auto.
Qed.

(** Distances that obey the triangle inequality are lower bounds. *)
Lemma walk_lower (D : nat → nat → Z) i j w l h :
  (∀ i, (i < n)%nat → D i i = 0) → (∀ i j, (i < n)%nat → (j < n)%nat → D i j ≤ W i j) →
  (∀ i j k, (i < n)%nat → (j < n)%nat → (k < n)%nat → D i j ≤ D i k + D k j) →
  walk i j w l h → (i < n)%nat ∧ (j < n)%nat ∧ D i j ≤ w.
Proof.
  intros Hd Hle Htri. induction 1 as [i Hi|i k j w l h Hi Hk Hne H (IH1 & IH2 & IH3)]; [rewrite Hd by done; done|].
  split; [done|]. split; [done|]. specialize (Htri i j k Hi IH2 Hk). specialize (Hle i k Hi Hk). lia.
Qed.

Lemma walk_nonneg i j w l h :
  (∀ i j, (i < n)%nat → (j < n)%nat → 0 ≤ W i j) → walk i j w l h → 0 ≤ w.
Proof. intros Hw. induction 1 as [|i k j w l h Hi Hk _ H IH]; [done|]. specialize (Hw i k Hi Hk). lia. Qed.
End walks.

(** ** The relaxation *)

Section relax.
Variables (n : nat) (W L0 : nat → nat → Z).
(** Weights and latencies of the configuration. *)
Hypothesis W_range : ∀ i j, (i < n)%nat → (j < n)%nat → i ≠ j → 1 ≤ W i j ≤ 10000.
Hypothesis W_diag : ∀ i, (i < n)%nat → W i i = 0.
Hypothesis L_range : ∀ i j, (i < n)%nat → (j < n)%nat → -1 ≤ L0 i j ≤ 100000.

Lemma walk_bounds i j w l h : walk n W L0 i j w l h → Z.of_nat h ≤ w ∧ - Z.of_nat h ≤ l ≤ 100000 * Z.of_nat h.
Proof.
  induction 1 as [|i k j w l h Hi Hk Hne H IH]; [lia|].
  specialize (W_range i k Hi Hk Hne). specialize (L_range i k Hi Hk). lia.
Qed.

Definition weight_of (M : Matrix) : Z := zsum (λ '(i, j), cell M i j) (all_cells n).

(** A distance is the weight of a walk whose latency and number of switches on
    the way the other two matrices hold. *)
Record dist_ok (D L S : Matrix) : Prop := {
  dk_square : square n D ∧ square n L ∧ square n S;
  dk_diag : ∀ i, (i < n)%nat → cell D i i = 0;
  dk_le : ∀ i j, (i < n)%nat → (j < n)%nat → 0 ≤ cell D i j ≤ W i j;
  dk_walk : ∀ i j, (i < n)%nat → (j < n)%nat → i ≠ j →
    ∃ h, walk n W L0 i j (cell D i j) (cell L i j) (Datatypes.S h) ∧ cell S i j = Z.of_nat h
}.

Lemma elem_cells i j : (i, j) ∈ all_cells n ↔ (i < n)%nat ∧ (j < n)%nat.
Proof.
  unfold all_cells. rewrite list_elem_of_bind. split.
  - intros (k & (x & [= -> ->] & Hx%elem_of_seq)%list_elem_of_fmap & Hk%elem_of_seq). lia.
  - intros [Hi Hj]. exists i. split; [|apply elem_of_seq; lia]. apply list_elem_of_fmap. exists j.
    split; [done|]. apply elem_of_seq. lia.
Qed.

Lemma dist_bound D L S a b : dist_ok D L S → (a < n)%nat → (b < n)%nat → 0 ≤ cell D a b ≤ 10000.
Proof.
  intros Hok Ha Hb. pose proof (dk_le _ _ _ Hok a b Ha Hb). destruct (decide (a = b)) as [->|Hne].
  - rewrite W_diag in H by done. lia.
  - specialize (W_range a b Ha Hb Hne). lia.
Qed.

Section one_cell.
Variables (D L S : Matrix) (i j : nat).
Hypotheses (Hok : dist_ok D L S) (Hi : (i < n)%nat) (Hj : (j < n)%nat).

(** The state of the scan: nothing found, or the last better switch. *)
Inductive scanned (st : scan_state) : Prop :=
  | scan_none : st = mkScan (cell D i j) (cell D i j) (-1) S → scanned st
  | scan_found k : (k < n)%nat → k ≠ i → k ≠ j → minimum st = cell D i k + cell D k j → minimum st < cell D i j →
      previous_minimum st = minimum st → intermediate_switch st = Z.of_nat k → square n (inter st) →
      (∀ a b, cell (inter st) a b = if decide (a = i ∧ b = j) then cell S i k + cell S k j + 1 else cell S a b) →
      scanned st.

Lemma scan_step_ok st k : scanned st → (k < n)%nat →
  ∃ st', scan_step D i j st k = Ret st' ∧ scanned st' ∧ minimum st' = Z.min (minimum st) (cell D i k + cell D k j).
Proof.
  intros Hst Hk. destruct (dk_square _ _ _ Hok) as (QD & QL & QS). unfold scan_step.
  rewrite !(mget_cell n D) by done. cbn [mbind outcome_bind].
  pose proof (dist_bound D L S i k Hok Hi Hk) as B1. pose proof (dist_bound D L S k j Hok Hk Hj) as B2. rewrite i32_id by lia.
  assert (Hprev : previous_minimum st = minimum st) by (destruct Hst as [->|]; done).
  assert (Hsq : square n (inter st)) by (destruct Hst as [->|]; done).
  assert (Hmin : minimum st ≤ cell D i j) by (destruct Hst as [->|]; cbn; lia).
  rewrite Hprev. destruct (Z.eqb_spec (minimum st) (Z.min (minimum st) (cell D i k + cell D k j))) as [E|E].
  - eexists. split; [done|]. split; [|done]. rewrite <- E. destruct Hst as [->|q H1 H2 H3 H4 H5 H6 H7 H8 H9].
    + by apply scan_none.
    + by apply (scan_found _ q).
  - assert (Hlt : cell D i k + cell D k j < minimum st) by lia.
    assert (k ≠ i) by (intros ->; rewrite (dk_diag _ _ _ Hok) in Hlt by done; lia).
    assert (k ≠ j) by (intros ->; rewrite (dk_diag _ _ _ Hok j) in Hlt by done; lia).
    rewrite !(mget_cell n (inter st)) by done. cbn [mbind outcome_bind].
    assert (Hold : ∀ a b, ¬ (a = i ∧ b = j) → cell (inter st) a b = cell S a b).
    { intros a b Hab. destruct Hst as [->|q _ _ _ _ _ _ _ _ H9]; [done|]. by rewrite H9, decide_False. }
    rewrite !Hold by naive_solver.
    destruct (dk_walk _ _ _ Hok i k Hi Hk) as (h1 & Hw1 & Hs1); [done|].
    destruct (dk_walk _ _ _ Hok k j Hk Hj) as (h2 & Hw2 & Hs2); [done|].
    pose proof (walk_bounds _ _ _ _ _ Hw1). pose proof (walk_bounds _ _ _ _ _ Hw2).
    rewrite (i32_id (cell S i k + cell S k j)) by lia. rewrite i32_id by lia. rewrite Z.min_r by lia.
    eexists. split; [done|]. split; [|done].
    apply (scan_found _ k); cbn; try done; [lia|by apply mset_square|]. intros a b.
    rewrite (cell_mset n) by done. case_decide; [done|]. by apply Hold.
Qed.

Lemma scan_ok m : (m ≤ n)%nat →
  ∃ st, foldM (scan_step D i j) (mkScan (cell D i j) (cell D i j) (-1) S) (seq 0 m) = Ret st ∧ scanned st ∧
    ∀ k, (k < m)%nat → minimum st ≤ cell D i k + cell D k j.
Proof.
  induction m as [|m IH]; intros Hm; [eexists; split; [done|]; split; [by apply scan_none|lia]|].
  destruct IH as (st & E & Hst & Hlow); [lia|]. rewrite seq_S, foldM_app, E. cbn [mbind outcome_bind foldM Nat.add].
  destruct (scan_step_ok st m Hst) as (st' & -> & Hst' & Emin); [lia|]. exists st'. split; [done|]. split; [done|].
  intros k Hk. rewrite Emin. destruct (decide (k = m)) as [->|]; [lia|]. specialize (Hlow k ltac:(lia)). lia.
Qed.
End one_cell.

Lemma weight_of_mset D i j v : square n D → (i < n)%nat → (j < n)%nat → v < cell D i j →
  weight_of (mset D i j v) < weight_of D.
Proof.
  intros HD Hi Hj Hv.
  apply (zsum_lt _ _ _ (i, j)); [|by apply elem_cells|].
  - intros [a b] _. rewrite (cell_mset n) by done. case_decide as E; [destruct E as [-> ->]|]; lia.
  - rewrite (cell_mset n), decide_True by done. done.
Qed.

Lemma relax_cell_ok D L S c i j : dist_ok D L S → (i < n)%nat → (j < n)%nat →
  ∃ p, relax_cell n (mkPaths D L S c) (i, j) = Ret p ∧ dist_ok (p_dist p) (p_lat p) (p_inter p) ∧
    ((p = mkPaths D L S c ∧ ∀ k, (k < n)%nat → cell D i j ≤ cell D i k + cell D k j) ∨
     (p_change p = true ∧ weight_of (p_dist p) < weight_of D)).
Proof.
  intros Hok Hi Hj. pose proof (dk_square _ _ _ Hok) as (QD & QL & QS). unfold relax_cell. cbn [p_dist p_lat p_inter p_change].
  rewrite (mget_cell n D) by done. cbn [mbind outcome_bind].
  destruct (scan_ok D L S i j Hok Hi Hj n ltac:(lia)) as (st & -> & Hst & Hlow). cbn [mbind outcome_bind].
  destruct Hst as [->|k Hk Hki Hkj Hm Hlt _ Hint HQ Hcell].
  { cbn [minimum inter] in *. rewrite Z.eqb_refl. eexists. split; [done|]. split; [done|]. left. done. }
  rewrite (proj2 (Z.eqb_neq _ _)) by lia. pose proof QL as [QL1 QL2].
  destruct (lookup_lt_is_Some_2 L i) as [row Erow]; [lia|]. rewrite (at_idx_Some _ _ _ Erow). cbn [mbind outcome_bind].
  rewrite (QL2 row) by by eapply list_elem_of_lookup_2. rewrite Hint, (proj2 (Z.leb_le 0 _)), (proj2 (Z.ltb_lt _ _)), Nat2Z.id by lia.
  cbn [assertb mbind outcome_bind]. rewrite !(mget_cell n L) by done. cbn [mbind outcome_bind].
  pose proof (dist_bound D L S i k Hok Hi Hk) as B1. pose proof (dist_bound D L S k j Hok Hk Hj) as B2.
  assert (Hne : i ≠ j). { intros ->. rewrite (dk_diag _ _ _ Hok) in Hlt by done. lia. }
  destruct (dk_walk _ _ _ Hok i k Hi Hk) as (h1 & Hw1 & Hs1); [done|].
  destruct (dk_walk _ _ _ Hok k j Hk Hj) as (h2 & Hw2 & Hs2); [done|].
  pose proof (walk_bounds _ _ _ _ _ Hw1). pose proof (walk_bounds _ _ _ _ _ Hw2). rewrite i32_id by lia.
  eexists. split; [done|]. cbn [p_dist p_lat p_inter p_change]. split; [|right; split; [done|by apply weight_of_mset]].
  split.
  - split; [by apply mset_square|]. split; [by apply mset_square|done].
  - intros a Ha. rewrite (cell_mset n), decide_False by (done || naive_solver). by apply (dk_diag _ _ _ Hok).
  - intros a b Ha Hb. rewrite (cell_mset n) by done. pose proof (dk_le _ _ _ Hok a b Ha Hb) as Hle. case_decide as E; [|done].
    destruct E as [-> ->]. lia.
  - intros a b Ha Hb Hab. rewrite !(cell_mset n), Hcell by done. case_decide as E; [|by apply (dk_walk _ _ _ Hok)].
    destruct E as [-> ->]. exists (h1 + Datatypes.S h2)%nat. rewrite Hm. split; [|lia]. by apply (walk_trans n W L0 i k j _ _ (Datatypes.S h1)).
Qed.

Lemma change_stays cells : ∀ p q,
  foldM (relax_cell n) p cells = Ret q → p_change p = true → p_change q = true.
Proof.
  induction cells as [|[i j] l IH]; intros p q E Hp; [by injection E as <-|]. cbn [foldM] in E.
  destruct (relax_cell n p (i, j)) as [r|] eqn:Er; [|done]. cbn [mbind outcome_bind] in E. apply (IH r); [done|].
  unfold relax_cell in Er. unbind Er. destruct (_ =? _); [by injection Er as <-|]. unbind Er. by injection Er as <-.
Qed.

(** A pass changes nothing, and then the triangle inequality holds, or it
    lowers the sum of the distances. *)
Lemma pass_ok D L S cells : ∀ p, (∀ c, c ∈ cells → c ∈ all_cells n) → dist_ok (p_dist p) (p_lat p) (p_inter p) →
  (p_change p = true → weight_of (p_dist p) < weight_of D) → (p_change p = false → p = mkPaths D L S false) →
  ∃ p', foldM (relax_cell n) p cells = Ret p' ∧ dist_ok (p_dist p') (p_lat p') (p_inter p') ∧
    (p_change p' = true → weight_of (p_dist p') < weight_of D) ∧
    (p_change p' = false → p' = mkPaths D L S false ∧
       ∀ i j k, (i, j) ∈ cells → (k < n)%nat → cell D i j ≤ cell D i k + cell D k j).
Proof.
  induction cells as [|[i j] cells IH]; intros p Hin Hok Ht Hf.
  { exists p. split; [done|]. split; [done|]. split; [done|]. intros E. split; [auto|]. by intros i j k ?%not_elem_of_nil. }
  destruct (proj1 (elem_cells i j) (Hin _ (list_elem_of_here _ _))) as [Hi Hj].
  destruct p as [D1 L1 S1 c]. cbn [p_dist p_lat p_inter p_change] in *.
  destruct (relax_cell_ok D1 L1 S1 c i j Hok Hi Hj) as (p & E & Hok' & Hcase). cbn [foldM]. rewrite E. cbn [mbind outcome_bind].
  destruct (IH p) as (p' & Ep & Hok2 & Ht2 & Hf2); [intros x Hx; apply Hin; by right|done| | |].
  - intros Hc. destruct Hcase as [[-> _]|[_ Hlt]]; [by apply Ht|]. destruct c; [specialize (Ht eq_refl); lia|].
    specialize (Hf eq_refl). injection Hf as -> _ _. done.
  - intros Hc. destruct Hcase as [[-> _]|[Hch _]]; [|congruence]. cbn in Hc. by rewrite Hf.
  - exists p'. split; [done|]. split; [done|]. split; [done|]. intros Hc. destruct (Hf2 Hc) as [-> Htri]. split; [done|].
    intros a b k [[= -> ->]|Hab]%elem_of_cons Hk; [|by apply Htri].
    destruct Hcase as [[-> Htr]|[Hch _]].
    + destruct c; [by specialize (change_stays _ _ _ Ep eq_refl)|]. specialize (Hf eq_refl). injection Hf as -> -> ->. by apply Htr.
    + by specialize (change_stays _ _ _ Ep Hch).
Qed.

Lemma weight_of_range D L S : dist_ok D L S → 0 ≤ weight_of D ≤ 10000 * Z.of_nat (n * n).
Proof.
  intros Hok. split.
  - apply zsum_nonneg. intros [i j] [Hi Hj]%elem_cells. pose proof (dist_bound D L S i j Hok Hi Hj). lia.
  - transitivity (zsum (λ _, 10000) (all_cells n)).
    + apply zsum_le. intros [i j] [Hi Hj]%elem_cells. pose proof (dist_bound D L S i j Hok Hi Hj). lia.
    + assert (Hconst : ∀ l : list (nat * nat), zsum (λ _, 10000) l = 10000 * Z.of_nat (length l)).
      { induction l as [|x l IH]; [done|]. rewrite zsum_cons, IH. cbn [length]. lia. }
      rewrite Hconst. unfold all_cells. apply Z.mul_le_mono_nonneg_l; [lia|]. apply inj_le, Nat.eq_le_incl.
      assert (Hlen : ∀ l : list nat, length (i ← l; pair i <$> seq 0 n) = (length l * n)%nat).
      { induction l as [|x l IH]; [done|]. cbn. by rewrite length_app, IH, length_fmap, length_seq. }
      by rewrite Hlen, length_seq.
Qed.

Lemma extend_ok fuel : ∀ D L S, dist_ok D L S → weight_of D < Z.of_nat fuel →
  ∃ D' L' S', extend_shortest_path fuel D L S = Ret (D', L', S') ∧ dist_ok D' L' S' ∧
    ∀ i j k, (i < n)%nat → (j < n)%nat → (k < n)%nat → cell D' i j ≤ cell D' i k + cell D' k j.
Proof.
  induction fuel as [|fuel IH]; intros D L S Hok Hlt; [pose proof (weight_of_range _ _ _ Hok); lia|].
  cbn [extend_shortest_path]. destruct (dk_square _ _ _ Hok) as ((Hn & _) & _). rewrite Hn.
  destruct (pass_ok D L S (all_cells n) (mkPaths D L S false)) as (p & -> & Hok' & Ht & Hf); [done|done|done|done|].
  cbn [mbind outcome_bind]. destruct (p_change p) eqn:Ec.
  - apply IH; [done|]. specialize (Ht eq_refl). lia.
  - destruct (Hf eq_refl) as [-> Htri]. exists D, L, S. split; [done|]. split; [done|].
    intros i j k Hi Hj Hk. apply Htri; [by apply elem_cells|done].
Qed.
End relax.

Definition path_fuel (n : nat) : nat := S (Z.to_nat (10000 * Z.of_nat (n * n))).

(** The matrices [createLinks] starts from. *)
Record weights_ok (n : nat) (W L S : Matrix) : Prop := {
  wo_square : square n W ∧ square n L ∧ square n S;
  wo_weight : ∀ i j, (i < n)%nat → (j < n)%nat → i ≠ j → 1 ≤ cell W i j ≤ INFINITE_LATENCY;
  wo_diag : ∀ i, (i < n)%nat → cell W i i = 0;
  wo_latency : ∀ i j, (i < n)%nat → (j < n)%nat → -1 ≤ cell L i j ≤ 100000;
  wo_inter : ∀ i j, (i < n)%nat → (j < n)%nat → cell S i j = 0
}.

Lemma shortest_path_ok n W L S : weights_ok n W L S →
  ∃ D CL CS, shortest_path (path_fuel n) W L S = Ret (D, CL, CS) ∧ dist_ok n (cell W) (cell L) D CL CS ∧
    ∀ i j k, (i < n)%nat → (j < n)%nat → (k < n)%nat → cell D i j ≤ cell D i k + cell D k j.
Proof.
  intros [(QW & QL & QS) Hw Hd Hl Hs].
  assert (Hok : dist_ok n (cell W) (cell L) W L S).
  { split; [done|done| |].
    - intros i j Hi Hj. destruct (decide (i = j)) as [->|Hne]; [rewrite Hd by done; lia|]. specialize (Hw i j Hi Hj Hne). lia.
    - intros i j Hi Hj Hne. exists 0%nat. split; [by apply walk_one|by rewrite Hs]. }
  apply extend_ok; [done..|]. pose proof (weight_of_range n (cell W) (cell L) Hw Hd _ _ _ Hok) as Hr. unfold path_fuel. lia.
Qed.

(** [C27] All-pairs shortest paths: on positive link weights under the infinite
    latency the relaxation loop ends within the given fuel and fails no
    assertion; each distance is the least weight of a walk, and the latency and
    the number of intermediate switches are those of one walk of that weight. *)
Theorem shortest_path_correct n W L S : weights_ok n W L S →
  ∃ D CL CS, shortest_path (path_fuel n) W L S = Ret (D, CL, CS) ∧
    ∀ i j, (i < n)%nat → (j < n)%nat →
      (∀ w l h, walk n (cell W) (cell L) i j w l h → cell D i j ≤ w) ∧
      (i = j → cell D i j = 0) ∧
      (i ≠ j → ∃ h, walk n (cell W) (cell L) i j (cell D i j) (cell CL i j) (Datatypes.S h) ∧ cell CS i j = Z.of_nat h).
Proof.
  intros Hok. destruct (shortest_path_ok n W L S Hok) as (D & CL & CS & E & Hd & Htri). exists D, CL, CS. split; [done|].
  intros i j Hi Hj. split; [|split].
  - intros w l h Hwalk. refine (proj2 (proj2 (walk_lower n (cell W) (cell L) (cell D) i j w l h _ _ Htri Hwalk))).
    + apply (dk_diag _ _ _ _ _ _ Hd).
    + intros a b Ha Hb. apply (dk_le _ _ _ _ _ _ Hd a b Ha Hb).
  - intros ->. by apply (dk_diag _ _ _ _ _ _ Hd).
  - intros Hne. by apply (dk_walk _ _ _ _ _ _ Hd).
Qed.

(** ** Routing *)

Section routing.
Variable counts : list Z.
Hypothesis Hcounts : counts_ok counts.

(** The number of a component among the output endpoints. *)
Lemma machines_valid d m : machines counts !! d = Some m → valid counts m.
Proof.
  intros Hd. apply list_elem_of_lookup_2 in Hd. unfold machines in Hd.
  apply elem_of_concat in Hd as (l & (i & Hi)%list_elem_of_lookup & Hm). rewrite list_lookup_imap in Hi.
  apply fmap_Some in Hi as (c & Hc & ->). apply list_elem_of_fmap in Hm as (j & -> & Hj%elem_of_seqZ).
  exists c. cbn. split; [done|lia].
Qed.

Lemma machines_from k cs : (∀ c, c ∈ cs → 0 < c) →
  Z.of_nat (length (concat (imap (λ m c, pair (k + m)%nat <$> seqZ 0 c) cs))) = zsum id cs ∧
  NoDup (concat (imap (λ m c, pair (k + m)%nat <$> seqZ 0 c) cs)).
Proof.
  revert k. induction cs as [|c cs IH]; intros k Hc; [split; [done|constructor]|]. cbn [imap concat].
  destruct (IH (S k)) as [IH1 IH2]; [intros x Hx; apply Hc; by right|].
  assert (Eq : imap ((λ (m : nat) (c0 : Z), pair (k + m)%nat <$> seqZ 0 c0) ∘ S) cs = imap (λ m c0, pair (S k + m)%nat <$> seqZ 0 c0) cs).
  { apply imap_ext. intros i x _. cbn. by rewrite Nat.add_succ_r. }
  rewrite Eq. pose proof (Hc c (list_elem_of_here _ _)) as Hpos. split.
  - rewrite length_app, Nat2Z.inj_add, IH1, length_fmap, length_seqZ, zsum_cons. unfold id at 2. lia.
  - apply NoDup_app. split; [|split; [|done]].
    + apply NoDup_fmap; [intros ? ?; congruence|apply NoDup_seqZ].
    + intros [a b] (j & [= -> ->] & _)%list_elem_of_fmap (l & (q & Hq)%list_elem_of_lookup & Hl)%elem_of_concat.
      rewrite list_lookup_imap in Hq. apply fmap_Some in Hq as (y & _ & ->).
      apply list_elem_of_fmap in Hl as (z & [= E _] & _). lia.
Qed.

Lemma machines_length : Z.of_nat (length (machines counts)) = zsum id counts.
Proof.
  apply (machines_from 0). intros c (i & Hi)%list_elem_of_lookup. specialize (Hcounts i c Hi); lia.
Qed.

Lemma machines_inj d1 d2 m : machines counts !! d1 = Some m → machines counts !! d2 = Some m → d1 = d2.
Proof.
  intros H1 H2. eapply NoDup_lookup; [|exact H1|exact H2]. apply (machines_from 0).
  intros c (i & Hi)%list_elem_of_lookup. specialize (Hcounts i c Hi); lia.
Qed.

Lemma base_number_total : MachineType_base_number counts (MachineType_NUM counts) = Ret (zsum id counts).
Proof.
  unfold MachineType_base_number. rewrite Nat.leb_refl. unfold MachineType_NUM. by rewrite firstn_all.
Qed.

(** An entry holds the components whose shortest path takes the link. *)
Lemma entry_spec n (W D : Matrix) src next :
  square n W → square n D → (src < n)%nat → (next < n)%nat → (2 * length (machines counts) ≤ n)%nat →
  (∀ i j, (i < n)%nat → (j < n)%nat → 0 ≤ cell W i j ≤ 10000 ∧ 0 ≤ cell D i j ≤ 10000) →
  ∃ e, shortest_path_to_node counts src next W D = Ret e ∧ dest_ok counts e ∧
    ∀ d m, machines counts !! d = Some m →
      m ∈ dests e ↔
      cell W src next + cell D next (d + length (machines counts)) = cell D src (d + length (machines counts)).
Proof.
  intros QW QD Hs Hn Hm Hr. unfold shortest_path_to_node. rewrite base_number_total. cbn [mbind outcome_bind].
  rewrite <- machines_length, Nat2Z.id. set (N := length (machines counts)) in *.
  set (test d := cell W src next + cell D next (d + N) = cell D src (d + N)).
  assert (Hgen : ∀ k, (k ≤ N)%nat →
    ∃ e, foldM (λ result '(d, mach),
        b ← link_is_shortest_path_to_node src next (d + N) W D;
        if b : bool then add counts mach result else Ret result)
      (new_NetDest counts) (take k (imap pair (machines counts))) = Ret e ∧ dest_ok counts e ∧
      ∀ m, m ∈ dests e ↔ ∃ d, (d < k)%nat ∧ machines counts !! d = Some m ∧ test d).
  { induction k as [|k IH]; intros Hk.
    - destruct (new_spec counts Hcounts) as [H1 H2]. exists (new_NetDest counts). split; [done|]. split; [done|].
      intros m. rewrite H2. split; [set_solver|]. intros (d & Hd & _). lia.
    - destruct IH as (e & E & He & Hmem); [lia|]. destruct (lookup_lt_is_Some_2 (machines counts) k) as [mk Hmk]; [lia|].
      rewrite (take_S_r _ _ (k, mk)) by (rewrite list_lookup_imap, Hmk; reflexivity). rewrite foldM_app, E.
      cbn [mbind outcome_bind foldM]. unfold link_is_shortest_path_to_node.
      rewrite (mget_cell n W), !(mget_cell n D) by (done || lia). cbn [mbind outcome_bind].
      destruct (Hr src next Hs Hn) as [R1 _]. destruct (Hr next (k + N)%nat) as [_ R2]; [done|lia|]. rewrite i32_id by lia.
      destruct (Z.eqb_spec (cell W src next + cell D next (k + N)) (cell D src (k + N))) as [Et|Et].
      + destruct (add_spec counts mk e He (machines_valid k mk Hmk)) as (e' & -> & He' & E'). cbn [mbind outcome_bind].
        exists e'. split; [done|]. split; [done|]. intros m. rewrite E', elem_of_union, elem_of_singleton, Hmem. split.
        * intros [->|(d & Hd & H)]; [exists k; split; [lia|done]|exists d; split; [lia|done]].
        * intros (d & Hd & Hlook & Hte). destruct (decide (d = k)) as [->|]; [left; congruence|].
          right. exists d. split; [lia|done].
      + cbn [mbind outcome_bind]. exists e. split; [done|]. split; [done|]. intros m. rewrite Hmem. split.
        * intros (d & Hd & H). exists d. split; [lia|done].
        * intros (d & Hd & Hlook & Hte). destruct (decide (d = k)) as [->|]; [done|]. exists d. split; [lia|done]. }
  destruct (Hgen N ltac:(lia)) as (e & E & He & Hmem). rewrite take_ge in E by (rewrite length_imap; lia).
  exists e. split; [done|]. split; [done|]. intros d m Hd. rewrite Hmem. split.
  - intros (d' & _ & Hd' & Ht). by rewrite (machines_inj d d' m).
  - intros Ht. exists d. split; [by apply lookup_lt_Some in Hd|done].
Qed.

(** *** The links of a topology *)

Record links_ok (t : Topology) : Prop := {
  lk_nodes : m_nodes t = length (machines counts);
  lk_out : (2 * m_nodes t ≤ S (max_switch_id t))%nat;
  lk_ends : ∀ l, l ∈ m_links t → l_src l ≠ l_dest l ∧
    ((l_src l < m_nodes t ∧ 2 * m_nodes t ≤ l_dest l)%nat ∨ (2 * m_nodes t ≤ l_src l ∧ m_nodes t ≤ l_dest l)%nat);
  lk_values : ∀ l, l ∈ m_links t → 1 ≤ l_weight l < INFINITE_LATENCY ∧ 0 ≤ l_latency l ≤ 100000;
  lk_once : NoDup ((λ l, (l_src l, l_dest l)) <$> m_links t)
}.

Lemma max_switch_id_ge t l : l ∈ m_links t → (l_src l ≤ max_switch_id t ∧ l_dest l ≤ max_switch_id t)%nat.
Proof.
  unfold max_switch_id. generalize (m_links t) 0%nat. intros links.
  assert (Hmono : ∀ ks m, (m ≤ foldl (λ m l, Nat.max (Nat.max m (l_src l)) (l_dest l)) m ks)%nat).
  { induction ks as [|x ls IH]; intros m; [done|]. cbn [foldl]. specialize (IH (Nat.max (Nat.max m (l_src x)) (l_dest x))). lia. }
  induction links as [|x ls IH]; intros m Hl; [by apply not_elem_of_nil in Hl|]. cbn [foldl].
  apply elem_of_cons in Hl as [->|Hl]; [|by apply IH].
  specialize (Hmono ls (Nat.max (Nat.max m (l_src x)) (l_dest x))). lia.
Qed.

Lemma link_matrix_ok n (f : Link → Z) links M :
  square n M → (∀ l, l ∈ links → (l_src l < n)%nat ∧ (l_dest l < n)%nat) → NoDup ((λ l, (l_src l, l_dest l)) <$> links) →
  ∃ M', link_matrix n f M links = Ret M' ∧ square n M' ∧
    (∀ l, l ∈ links → cell M' (l_src l) (l_dest l) = f l) ∧
    (∀ a b, (∀ l, l ∈ links → (l_src l, l_dest l) ≠ (a, b)) → cell M' a b = cell M a b).
Proof.
  revert M. induction links as [|l links IH]; intros M QM Hr Hnd.
  { exists M. split; [done|]. split; [done|]. split; [|done]. by intros l ?%not_elem_of_nil. }
  apply NoDup_cons in Hnd as [Hnot Hnd]. destruct (Hr l (list_elem_of_here _ _)) as [H1 H2].
  destruct (IH (mset M (l_src l) (l_dest l) (f l))) as (M' & E & QM' & Hin & Hout);
    [by apply mset_square|intros x Hx; apply Hr; by right|done|].
  exists M'. unfold link_matrix in *. cbn [foldM]. rewrite (mget_cell n) by done. cbn [mbind outcome_bind].
  split; [done|]. split; [done|]. split.
  - intros x [->|Hx]%elem_of_cons; [|by apply Hin]. rewrite Hout.
    + by rewrite (cell_mset n), decide_True by done.
    + intros y Hy E0. apply Hnot. apply list_elem_of_fmap. by exists y.
  - intros a b Hab. rewrite Hout by (intros y Hy; apply Hab; by right).
    rewrite (cell_mset n), decide_False; [done| |done..]. intros [-> ->]. by apply (Hab l (list_elem_of_here _ _)).
Qed.

(** A link as the network sees it, in switch numbers of the topology. *)
Definition hop (t : Topology) (c : link_call) : nat * nat * list NodeSet :=
  match c with
  | InLink s d e _ _ => (s, d + 2 * m_nodes t, e)%nat
  | OutLink s d e _ _ _ => (s + 2 * m_nodes t, d + m_nodes t, e)%nat
  | InternalLink s d e _ _ _ => (s + 2 * m_nodes t, d + 2 * m_nodes t, e)%nat
  end.

Lemma makeLink_ok t l e : links_ok t → l ∈ m_links t →
  ∃ c, makeLink (l_src l) (l_dest l) e (l_latency l) (l_weight l) (l_bw l) t = Ret c ∧ hop t c = (l_src l, l_dest l, e).
Proof.
  intros Ht Hl. destruct (lk_ends t Ht l Hl) as [_ Hends]. unfold makeLink.
  replace ((2 * m_nodes t <=? l_src l) || (2 * m_nodes t <=? l_dest l))%nat with true
    by (symmetry; apply orb_true_iff; rewrite !Nat.leb_le; lia).
  cbn [assertb mbind outcome_bind]. destruct (Nat.ltb_spec (l_src l) (m_nodes t)) as [H1|H1].
  - eexists. split; [done|]. cbn [hop]. f_equal. f_equal. lia.
  - destruct (Nat.ltb_spec (l_dest l) (2 * m_nodes t)) as [H2|H2].
    + rewrite (proj2 (Nat.leb_le _ _)) by lia. cbn [assertb mbind outcome_bind]. eexists. split; [done|]. cbn [hop].
      f_equal. f_equal; lia.
    + replace ((2 * m_nodes t <=? l_src l) && (2 * m_nodes t <=? l_dest l))%nat with true
        by (symmetry; apply andb_true_iff; rewrite !Nat.leb_le; lia).
      cbn [assertb mbind outcome_bind]. eexists. split; [done|]. cbn [hop]. f_equal. f_equal; lia.
Qed.

(** The matrices of [createLinks], and the routes they give. *)
Record routes_of (t : Topology) (W D : Matrix) (calls : list link_call) : Prop := {
  ro_weight : ∀ l, l ∈ m_links t → cell W (l_src l) (l_dest l) = l_weight l;
  ro_none : ∀ a b, (a < S (max_switch_id t))%nat → (b < S (max_switch_id t))%nat → a ≠ b →
    (∀ l, l ∈ m_links t → (l_src l, l_dest l) ≠ (a, b)) → cell W a b = INFINITE_LATENCY;
  ro_weights : ∃ L S, weights_ok (Datatypes.S (max_switch_id t)) W L S;
  ro_dist : ∃ L CL CS, dist_ok (S (max_switch_id t)) (cell W) L D CL CS;
  ro_tri : ∀ i j k, (i < S (max_switch_id t))%nat → (j < S (max_switch_id t))%nat → (k < S (max_switch_id t))%nat →
    cell D i j ≤ cell D i k + cell D k j;
  ro_calls : ∀ src next e, (src, next, e) ∈ hop t <$> calls ↔
    ∃ l, l ∈ m_links t ∧ src = l_src l ∧ next = l_dest l ∧ shortest_path_to_node counts src next W D = Ret e;
  ro_link : ∀ c, c ∈ calls → ∃ l e, l ∈ m_links t ∧ makeLink (l_src l) (l_dest l) e (l_latency l) (l_weight l) (l_bw l) t = Ret c;
  ro_once : NoDup ((λ c, (hop t c).1) <$> calls)
}.

(** What a loop over distinct cells collects, at most once per cell. *)
Lemma collect_once {A} (key : A → nat * nat) (g : nat * nat → list A) cells : NoDup cells →
  (∀ x c, c ∈ g x → key c = x) → (∀ x, (length (g x) ≤ 1)%nat) → NoDup (key <$> (cells ≫= g)).
Proof.
  intros Hnd Hkey Hlen. induction Hnd as [|x cells Hx _ IH]; [constructor|]. cbn [mbind list_bind]. rewrite fmap_app.
  apply NoDup_app. split; [|split; [|exact IH]].
  - pose proof (Hlen x) as Hl. destruct (g x) as [|c [|c' l]]; cbn in *; [constructor|apply NoDup_singleton|lia].
  - intros y (c & -> & Hc)%list_elem_of_fmap (c' & E & (z & Hc' & Hz)%list_elem_of_bind)%list_elem_of_fmap.
    rewrite (Hkey x c Hc), (Hkey z c' Hc') in E. by subst z.
Qed.

Lemma all_cells_once n : NoDup (all_cells n).
Proof.
  unfold all_cells. apply NoDup_bind.
  - intros x1 x2 y _ _ (j1 & -> & _)%list_elem_of_fmap (j2 & E & _)%list_elem_of_fmap. by injection E.
  - intros i _. apply NoDup_fmap; [intros ? ? [=]; done|apply NoDup_seq].
  - apply NoDup_seq.
Qed.

Lemma link_or_none t i j :
  (∃ l, l ∈ m_links t ∧ l_src l = i ∧ l_dest l = j) ∨ (∀ l, l ∈ m_links t → (l_src l, l_dest l) ≠ (i, j)).
Proof.
  destruct (list_find (λ l, (l_src l, l_dest l) = (i, j)) (m_links t)) as [[k l]|] eqn:E.
  - apply list_find_Some in E as (Hk & [= H1 H2] & _). left. exists l. split; [by eapply list_elem_of_lookup_2|done].
  - right. intros l Hl E'. apply list_find_None in E. rewrite Forall_forall in E. by apply (E l).
Qed.

(** The matrices [createLinks] fills. *)
Lemma link_weights_ok t W L : links_ok t → let n := S (max_switch_id t) in
  square n W → square n L →
  (∀ l, l ∈ m_links t → cell W (l_src l) (l_dest l) = l_weight l) →
  (∀ a b, (∀ l, l ∈ m_links t → (l_src l, l_dest l) ≠ (a, b)) →
     cell W a b = cell (mfill n (λ i j, if (i =? j)%nat then 0 else INFINITE_LATENCY)) a b) →
  (∀ l, l ∈ m_links t → cell L (l_src l) (l_dest l) = l_latency l) →
  (∀ a b, (∀ l, l ∈ m_links t → (l_src l, l_dest l) ≠ (a, b)) → cell L a b = cell (mfill n (λ _ _, -1)) a b) →
  weights_ok n W L (mfill n (λ _ _, 0)).
Proof.
  intros Ht n QW QL Win Wout Lin Lout. split.
  - split; [done|]. split; [done|apply mfill_square].
  - intros i j Hi Hj Hne. destruct (link_or_none t i j) as [(l & Hl & <- & <-)|Hno].
    + rewrite Win by done. destruct (lk_values t Ht l Hl) as [[H1 H2] _]. unfold INFINITE_LATENCY in *. lia.
    + rewrite Wout, cell_mfill, (proj2 (Nat.eqb_neq i j)) by done. unfold INFINITE_LATENCY. lia.
  - intros i Hi. rewrite Wout; [rewrite cell_mfill, Nat.eqb_refl by done; done|]. intros l Hl [= E1 E2].
    destruct (lk_ends t Ht l Hl) as [Hne _]. congruence.
  - intros i j Hi Hj. destruct (link_or_none t i j) as [(l & Hl & <- & <-)|Hno].
    + rewrite Lin by done. destruct (lk_values t Ht l Hl) as [_ ?]. lia.
    + rewrite Lout, cell_mfill by done. lia.
  - intros i j Hi Hj. by rewrite cell_mfill.
Qed.

Lemma createLinks_ok t : links_ok t →
  ∃ W D calls CL CS, createLinks counts (path_fuel (S (max_switch_id t))) t = Ret (calls, CL, CS) ∧ routes_of t W D calls.
Proof.
  intros Ht. set (n := S (max_switch_id t)).
  assert (Hr : ∀ l, l ∈ m_links t → (l_src l < n)%nat ∧ (l_dest l < n)%nat).
  { intros l Hl. destruct (max_switch_id_ge t l Hl). lia. }
  destruct (link_matrix_ok n l_weight (m_links t) (mfill n (λ i j, if (i =? j)%nat then 0 else INFINITE_LATENCY)) (mfill_square n _) Hr (lk_once t Ht))
    as (W & EW & QW & Win & Wout).
  destruct (link_matrix_ok n l_latency (m_links t) (mfill n (λ _ _, -1)) (mfill_square n _) Hr (lk_once t Ht))
    as (L & EL & QL & Lin & Lout).
  destruct (link_matrix_ok n l_bw (m_links t) (mfill n (λ _ _, -1)) (mfill_square n _) Hr (lk_once t Ht))
    as (B & EB & QB & Bin & Bout).
  pose proof (link_weights_ok t W L Ht QW QL Win Wout Lin Lout) as Hw. fold n in Hw.
  destruct (shortest_path_ok n W L _ Hw) as (D & CL & CS & ED & Hd & Htri).
  set (entry i j := shortest_path_to_node counts i j W D).
  assert (Hentry : ∀ i j, (i < n)%nat → (j < n)%nat → ∃ e, entry i j = Ret e).
  { intros i j Hi Hj. destruct (entry_spec n W D i j QW (proj1 (dk_square _ _ _ _ _ _ Hd)) Hi Hj) as (e & E & _).
    - rewrite <- (lk_nodes t Ht). apply (lk_out t Ht).
    - intros a b Ha Hb. pose proof (dk_le _ _ _ _ _ _ Hd a b Ha Hb).
      destruct (decide (a = b)) as [->|Hne]; [rewrite (wo_diag _ _ _ _ Hw) in * by done; lia|].
      pose proof (wo_weight _ _ _ _ Hw a b Ha Hb Hne). unfold INFINITE_LATENCY in *. lia.
    - by exists e. }
  set (g := λ '(i, j), match list_find (λ l, (l_src l, l_dest l) = (i, j)) (m_links t), entry i j with
    | Some (_, l), Ret e => match makeLink i j e (l_latency l) (l_weight l) (l_bw l) t with Ret c => [c] | Raise _ => [] end
    | _, _ => [] end).
  exists W, D, (all_cells n ≫= g), CL, CS. split.
  { unfold createLinks. fold n. rewrite EW, EL, EB. cbn [mbind outcome_bind]. rewrite ED. cbn [mbind outcome_bind].
    rewrite (foldM_append _ g); [done|]. intros calls [i j] [Hi Hj]%elem_cells. cbn [g].
    rewrite !(mget_cell n) by done. cbn [mbind outcome_bind].
    destruct (list_find _ _) as [[k l]|] eqn:E.
    - apply list_find_Some in E as (Hk & [= <- <-] & _). apply list_elem_of_lookup_2 in Hk.
      rewrite Win, Bin, Lin by done. destruct (lk_values t Ht l Hk) as [H1 H2].
      rewrite (proj2 (Z.ltb_lt 0 _)), (proj2 (Z.eqb_neq _ INFINITE_LATENCY)) by lia. cbn [negb andb].
      destruct (Hentry (l_src l) (l_dest l) Hi Hj) as [e Ee]. fold (entry (l_src l) (l_dest l)). rewrite Ee. cbn [mbind outcome_bind].
      rewrite (proj2 (Z.eqb_neq _ (-1))) by lia. cbn [negb assertb mbind outcome_bind].
      destruct (makeLink_ok t l e Ht Hk) as (c & -> & _). done.
    - apply list_find_None in E. rewrite Forall_forall in E. rewrite app_nil_r.
      rewrite Wout, cell_mfill by done. destruct (Nat.eqb_spec i j) as [->|Hne]; [done|].
      unfold INFINITE_LATENCY. by rewrite Z.eqb_refl. }
  assert (Hcall : ∀ x c, c ∈ g x → ∃ l e, l ∈ m_links t ∧ (l_src l, l_dest l) = x ∧
      makeLink (l_src l) (l_dest l) e (l_latency l) (l_weight l) (l_bw l) t = Ret c ∧ hop t c = (l_src l, l_dest l, e)).
  { intros [i j] c Hc. cbn [g] in Hc. destruct (list_find _ _) as [[k l]|] eqn:E; [|by apply not_elem_of_nil in Hc].
    apply list_find_Some in E as (Hk & [= <- <-] & _). apply list_elem_of_lookup_2 in Hk.
    destruct (entry (l_src l) (l_dest l)) as [e'|]; [|by apply not_elem_of_nil in Hc].
    destruct (makeLink_ok t l e' Ht Hk) as (c' & Em & Eh). rewrite Em in Hc. apply list_elem_of_singleton in Hc as ->. by exists l, e'. }
  split; [exact Win| |by exists L, (mfill n (λ _ _, 0))|by exists (cell L), CL, CS|exact Htri| | |].
  - intros a b Ha Hb Hne Hno. rewrite Wout, cell_mfill, (proj2 (Nat.eqb_neq a b)) by done. done.
  - intros src next e. rewrite list_elem_of_fmap. split.
    + intros (c & Ec & ([i j] & Hc & [Hi Hj]%elem_cells)%list_elem_of_bind). cbn [g] in Hc.
      destruct (list_find _ _) as [[k l]|] eqn:E; [|by apply not_elem_of_nil in Hc].
      apply list_find_Some in E as (Hk & [= <- <-] & _). apply list_elem_of_lookup_2 in Hk.
      destruct (entry (l_src l) (l_dest l)) as [e'|] eqn:Ee; [|by apply not_elem_of_nil in Hc].
      destruct (makeLink_ok t l e' Ht Hk) as (c' & Em & Eh). rewrite Em in Hc. apply list_elem_of_singleton in Hc as ->.
      rewrite Eh in Ec. injection Ec as -> -> ->. by exists l.
    + intros (l & Hl & -> & -> & Ee). destruct (Hr l Hl) as [Hi Hj].
      destruct (makeLink_ok t l e Ht Hl) as (c & Em & Eh). exists c. split; [done|]. apply list_elem_of_bind.
      exists (l_src l, l_dest l). split; [|by apply elem_cells]. cbn [g].
      destruct (list_find _ _) as [[k l']|] eqn:E.
      * apply list_find_Some in E as (Hk & [= E1 E2] & _). apply list_elem_of_lookup_2 in Hk.
        assert (l' = l) as -> by (apply (NoDup_map_inj (λ l, (l_src l, l_dest l)) (m_links t)); [apply Ht|done|done|by rewrite E1, E2]).
        unfold entry. rewrite Ee, Em. by left.
      * apply list_find_None in E. rewrite Forall_forall in E. by destruct (E l Hl).
  - intros c (x & Hc & _)%list_elem_of_bind. destruct (Hcall x c Hc) as (l & e & Hl & _ & Em & _). by exists l, e.
  - apply collect_once; [apply all_cells_once| |].
    + intros x c Hc. destruct (Hcall x c Hc) as (l & e & _ & <- & _ & ->). done.
    + intros [i j]. cbn [g]. destruct (list_find _ _) as [[k l]|]; [|cbn; lia]. destruct (entry i j) as [e'|]; [|cbn; lia].
      destruct (makeLink _ _ _ _ _ _ _); cbn; lia.
Qed.

(** ** Messages arrive *)

(** A path of links and its weight. *)
Inductive linked (t : Topology) : nat → nat → Z → Prop :=
  | linked_nil i : linked t i i 0
  | linked_step l j w : l ∈ m_links t → linked t (l_dest l) j w → linked t (l_src l) j (l_weight l + w).

(** Whatever link is taken among those whose entry holds the component, it is
    reached in at most so many hops. *)
Inductive arrives (t : Topology) (calls : list link_call) (m : nat * Z) (final : nat) : nat → nat → Prop :=
  | arrive_here b : arrives t calls m final final b
  | arrive_hop src b :
      (∃ next e, (src, next, e) ∈ hop t <$> calls ∧ m ∈ dests e) →
      (∀ next e, (src, next, e) ∈ hop t <$> calls → m ∈ dests e → arrives t calls m final next b) →
      arrives t calls m final src (S b).

Section arrival.
Variables (t : Topology) (W D : Matrix) (calls : list link_call) (d : nat) (m : nat * Z).
Hypotheses (Ht : links_ok t) (Hro : routes_of t W D calls) (Hm : machines counts !! d = Some m).
Let n := S (max_switch_id t).
Let final := (d + length (machines counts))%nat.

Lemma final_lt : (final < n)%nat.
Proof. pose proof (lk_out t Ht). rewrite (lk_nodes t Ht) in *. apply lookup_lt_Some in Hm. unfold final, n. lia. Qed.

Lemma route_ranges : square n W ∧ square n D ∧
  (∀ i j, (i < n)%nat → (j < n)%nat → 0 ≤ cell W i j ≤ 10000 ∧ 0 ≤ cell D i j ≤ cell W i j) ∧
  (∀ i j, (i < n)%nat → (j < n)%nat → i ≠ j → 1 ≤ cell W i j).
Proof.
  destruct (ro_weights _ _ _ _ Hro) as (L & S & Hw). destruct (ro_dist _ _ _ _ Hro) as (L' & CL & CS & Hd). fold n in Hw, Hd.
  split; [apply (wo_square _ _ _ _ Hw)|]. split; [apply (dk_square _ _ _ _ _ _ Hd)|].
  pose proof (wo_weight _ _ _ _ Hw) as Hpos. unfold INFINITE_LATENCY in Hpos. split.
  - intros i j Hi Hj. split; [|by apply (dk_le _ _ _ _ _ _ Hd)].
    destruct (decide (i = j)) as [->|Hne]; [rewrite (wo_diag _ _ _ _ Hw) by done; lia|]. specialize (Hpos i j Hi Hj Hne). lia.
  - intros i j Hi Hj Hne. by apply Hpos.
Qed.

(** An entry of the table holds the component when the link is on a shortest
    path to it, and then the way that remains is shorter. *)
Lemma hop_progress src next e :
  (src, next, e) ∈ hop t <$> calls →
  (src < n)%nat ∧ (next < n)%nat ∧ 1 ≤ cell W src next ∧
  (m ∈ dests e ↔ cell W src next + cell D next final = cell D src final).
Proof.
  intros (l & Hl & -> & -> & Ee)%(ro_calls _ _ _ _ Hro). destruct (max_switch_id_ge t l Hl) as [H1 H2].
  destruct route_ranges as (QW & QD & Hr & Hpos). destruct (lk_ends t Ht l Hl) as [Hne _].
  split; [unfold n; lia|]. split; [unfold n; lia|]. split; [apply Hpos; unfold n; (lia || done)|].
  destruct (entry_spec n W D (l_src l) (l_dest l) QW QD) as (e' & E' & _ & Hmem); [unfold n; lia..| | |].
  - rewrite <- (lk_nodes t Ht). apply (lk_out t Ht).
  - intros i j Hi Hj. destruct (Hr i j Hi Hj). lia.
  - rewrite E' in Ee. injection Ee as ->. by apply Hmem.
Qed.

Lemma hop_exists src : (src < n)%nat → src ≠ final → cell D src final < INFINITE_LATENCY →
  ∃ next e, (src, next, e) ∈ hop t <$> calls ∧ m ∈ dests e.
Proof.
  intros Hs Hne Hd. destruct route_ranges as (QW & QD & Hr & Hpos). pose proof final_lt as Hf.
  destruct (ro_dist _ _ _ _ Hro) as (L & CL & CS & Hdist). fold n in Hdist.
  destruct (dk_walk _ _ _ _ _ _ Hdist src final Hs Hf Hne) as (h & Hw & _).
  inversion Hw as [|? k ? w l ? _ Hk Hsk Hrest Ei Ej Ew El Eh]; subst.
  assert (Hlow : cell D k final ≤ w).
  { refine (proj2 (proj2 (walk_lower n (cell W) L (cell D) k final w l h _ _ _ Hrest))).
    - apply (dk_diag _ _ _ _ _ _ Hdist).
    - intros a b Ha Hb. destruct (Hr a b Ha Hb). lia.
    - apply (ro_tri _ _ _ _ Hro). }
  destruct (Hr src k Hs Hk) as [R1 R2]. destruct (Hr k final Hk Hf) as [_ R3].
  assert (Htri : cell D src final ≤ cell D src k + cell D k final) by (by apply (ro_tri _ _ _ _ Hro)).
  assert (Hlink : ∃ l, l ∈ m_links t ∧ l_src l = src ∧ l_dest l = k).
  { destruct (list_find (λ l, (l_src l, l_dest l) = (src, k)) (m_links t)) as [[q x]|] eqn:E.
    - apply list_find_Some in E as (Hq & [= H1 H2] & _). exists x. split; [by eapply list_elem_of_lookup_2|done].
    - apply list_find_None in E. rewrite Forall_forall in E.
      rewrite (ro_none _ _ _ _ Hro src k) in Ew by (try done; intros x Hx E0; by apply (E x Hx)).
      unfold INFINITE_LATENCY in *. lia. }
  destruct Hlink as (x & Hx & <- & <-).
  destruct (entry_spec n W D (l_src x) (l_dest x) QW QD Hs Hk) as (e & Ee & _ & Hmem).
  { rewrite <- (lk_nodes t Ht). apply (lk_out t Ht). }
  { intros i j Hi Hj. destruct (Hr i j Hi Hj). lia. }
  exists (l_dest x), e. split; [apply (ro_calls _ _ _ _ Hro); by exists x|]. apply (Hmem d m Hm). fold final. lia.
Qed.

Lemma arrives_within b : ∀ src, (src < n)%nat → cell D src final < INFINITE_LATENCY → cell D src final ≤ Z.of_nat b →
  arrives t calls m final src b.
Proof.
  induction b as [|b IH]; intros src Hs Hd Hb; (destruct (decide (src = final)) as [->|Hne]; [constructor|]).
  - exfalso. destruct (hop_exists src Hs Hne Hd) as (next & e & Hh & Hin).
    destruct (hop_progress src next e Hh) as (_ & Hn & Hw & Hiff). apply Hiff in Hin.
    destruct route_ranges as (_ & _ & Hr & _). destruct (Hr next final Hn final_lt). lia.
  - constructor; [by apply hop_exists|]. intros next e Hh Hin.
    destruct (hop_progress src next e Hh) as (_ & Hn & Hw & Hiff). apply Hiff in Hin. apply IH; [done|lia|lia].
Qed.
End arrival.

Lemma linked_walk t W D calls L i j w : links_ok t → routes_of t W D calls → linked t i j w → (j < S (max_switch_id t))%nat →
  (i < S (max_switch_id t))%nat ∧ ∃ l h, walk (S (max_switch_id t)) (cell W) L i j w l h.
Proof.
  intros Ht Hro. induction 1 as [i|x j w Hx H IH]; intros Hj; [split; [done|]; exists 0, 0%nat; by constructor|].
  destruct (IH Hj) as (Hk & l & h & Hw). destruct (max_switch_id_ge t x Hx) as [H1 _]. split; [lia|].
  exists (L (l_src x) (l_dest x) + l), (S h). rewrite <- (ro_weight _ _ _ _ Hro x Hx).
  apply walk_step; [lia|done|apply (lk_ends t Ht x Hx)|done].
Qed.

Lemma linked_arrives t W D calls d m src w : links_ok t → routes_of t W D calls → machines counts !! d = Some m →
  linked t src (d + m_nodes t) w → w < INFINITE_LATENCY → arrives t calls m (d + m_nodes t) src (Z.to_nat w).
Proof.
  intros Ht Hro Hm Hpath Hw. pose proof (final_lt t d m Ht Hm) as Hf. rewrite (lk_nodes t Ht) in *.
  destruct (ro_dist _ _ _ _ Hro) as (L & CL' & CS' & Hdist).
  destruct (linked_walk t W D calls L _ _ _ Ht Hro Hpath Hf) as (Hs & l & h & Hwalk).
  assert (Hle : cell D src (d + length (machines counts)) ≤ w).
  { refine (proj2 (proj2 (walk_lower _ (cell W) L (cell D) _ _ w l h _ _ (ro_tri _ _ _ _ Hro) Hwalk))).
    - apply (dk_diag _ _ _ _ _ _ Hdist).
    - intros a b Ha Hb. apply (dk_le _ _ _ _ _ _ Hdist a b Ha Hb). }
  pose proof (dk_le _ _ _ _ _ _ Hdist src _ Hs Hf) as [Hnn _].
  apply (arrives_within t W D calls d m Ht Hro Hm); [done|lia|lia].
Qed.

(** Routing: the links handed to the network carry routing entries under
    which every message arrives.  From each switch from which a path of links
    of weight [w] under the infinite latency leads to a component, some link
    has the component in its entry, and whichever such link is taken, adaptively
    at each switch, the component is reached in at most [w] hops; no assertion
    fails. *)
Theorem routing_correct t : links_ok t →
  ∃ calls CL CS, createLinks counts (path_fuel (S (max_switch_id t))) t = Ret (calls, CL, CS) ∧
    ∀ d m src w, machines counts !! d = Some m → linked t src (d + m_nodes t) w → w < INFINITE_LATENCY →
      arrives t calls m (d + m_nodes t) src (Z.to_nat w).
Proof.
  intros Ht. destruct (createLinks_ok t Ht) as (W & D & calls & CL & CS & E & Hro). exists calls, CL, CS. split; [done|].
  intros d m src w Hm Hpath Hw. by apply (linked_arrives t W D).
Qed.
End routing.

(** ** Two components and one switch *)

Definition ex_network : Topology :=
  mkTopology 2 1 [mkLink 0 4 1 1 1; mkLink 1 4 2 2 1; mkLink 4 2 1 1 1; mkLink 4 3 1 1 1].

Lemma ex_network_ok : links_ok [2] ex_network.
Proof.
  split; [done|vm_compute; lia| | |].
  - intros l Hl. cbn in Hl. repeat (apply elem_of_cons in Hl as [->|Hl]; [cbn; lia|]). by apply not_elem_of_nil in Hl.
  - intros l Hl. cbn in Hl. unfold INFINITE_LATENCY.
    repeat (apply elem_of_cons in Hl as [->|Hl]; [cbn; lia|]). by apply not_elem_of_nil in Hl.
  - by apply (bool_decide_unpack _).
Qed.

Lemma ex_network_counts : counts_ok [2].
Proof. intros [|i] c Hc; cbn in Hc; [injection Hc as <-; lia|done]. Qed.

Lemma routing_correct_witness :
  links_ok [2] ex_network ∧
  ∃ calls CL CS, createLinks [2] (path_fuel 5) ex_network = Ret (calls, CL, CS) ∧
    ∀ d m src w, machines [2] !! d = Some m → linked ex_network src (d + 2) w → w < INFINITE_LATENCY →
      arrives ex_network calls m (d + 2) src (Z.to_nat w).
Proof. split; [exact ex_network_ok|exact (routing_correct [2] ex_network_counts ex_network ex_network_ok)]. Defined.

Lemma shortest_path_correct_witness :
  weights_ok 2 [[0; 3]; [10000; 0]] [[-1; 5]; [-1; -1]] [[0; 0]; [0; 0]] ∧
  ∃ D CL CS, shortest_path (path_fuel 2) [[0; 3]; [10000; 0]] [[-1; 5]; [-1; -1]] [[0; 0]; [0; 0]] = Ret (D, CL, CS) ∧
    ∀ i j, (i < 2)%nat → (j < 2)%nat →
      (∀ w l h, walk 2 (cell [[0; 3]; [10000; 0]]) (cell [[-1; 5]; [-1; -1]]) i j w l h → cell D i j ≤ w) ∧
      (i = j → cell D i j = 0) ∧
      (i ≠ j → ∃ h, walk 2 (cell [[0; 3]; [10000; 0]]) (cell [[-1; 5]; [-1; -1]]) i j (cell D i j) (cell CL i j) (S h) ∧
         cell CS i j = Z.of_nat h).
Proof.
  assert (H : weights_ok 2 [[0; 3]; [10000; 0]] [[-1; 5]; [-1; -1]] [[0; 0]; [0; 0]]).
  { assert (Hsq : ∀ a b c d : Z, square 2 [[a; b]; [c; d]]).
    { intros a b c d. split; [done|]. intros row [->|[->|[]%not_elem_of_nil]%elem_of_cons]%elem_of_cons; done. }
    split; [by split_and!| | | |].
    - intros [|[|i]] [|[|j]] Hi Hj Hne; try lia; vm_compute; split; discriminate.
    - intros [|[|i]] Hi; try lia; done.
    - intros [|[|i]] [|[|j]] Hi Hj; try lia; vm_compute; split; discriminate.
    - intros [|[|i]] [|[|j]] Hi Hj; try lia; done. }
  split; [exact H|exact (shortest_path_correct 2 _ _ _ H)].
Defined.
