(* ===== verification/SwitchTree.v ===== *)
(** * The hierarchical topology connects every pair of components

    [Topology::makeHierarchicalSwitch]: the closed form of one level, the links
    that lead from an input to the root and from the root to an output, and the
    routes that follow by [Topology]. *)

From stdpp Require Import gmap sets list numbers.
From S2P Require Import Prelude NodeSet NetDest Topology.
Local Open Scope Z_scope.

(** ** One level *)

(** The number of switches over [m] nodes, [fan] nodes each. *)
Definition over (fan m : nat) : nat := ((m + fan - 1) / fan)%nat.

Lemma over_S fan i : (0 < fan)%nat → over fan (S i) = S (i / fan).
Proof.
  intros Hf. unfold over. replace (S i + fan - 1)%nat with (i + 1 * fan)%nat by lia. rewrite Nat.div_add by lia. lia.
Qed.

Lemma over_step fan i : (0 < fan)%nat → over fan (S i) = if (i mod fan =? 0)%nat then S (over fan i) else over fan i.
Proof.
  intros Hf. rewrite over_S by done. unfold over.
  pose proof (Nat.div_mod i fan ltac:(lia)) as D. pose proof (Nat.mod_upper_bound i fan ltac:(lia)) as M.
  destruct (Nat.eqb_spec (i mod fan) 0) as [E|E].
  - f_equal. apply (Nat.div_unique _ _ _ (fan - 1)); lia.
  - apply (Nat.div_unique _ _ _ (i mod fan - 1)); lia.
Qed.

Lemma over_lt fan m : (2 ≤ fan)%nat → (2 ≤ m)%nat → (1 ≤ over fan m < m)%nat.
Proof.
  intros Hf Hm. destruct m as [|m]; [lia|]. rewrite over_S by lia. split; [lia|].
  assert (m / fan < m)%nat; [|lia]. apply Nat.div_lt; lia.
Qed.

Lemma over_one fan m : (0 < fan)%nat → (0 < m)%nat → over fan m = 1%nat ↔ (m ≤ fan)%nat.
Proof.
  intros Hf Hm. destruct m as [|m]; [lia|]. rewrite over_S by done. rewrite Nat.lt_eq_cases. split.
  - intros H. assert (m / fan = 0)%nat as E by lia. apply Nat.div_small_iff in E; lia.
  - intros H. rewrite Nat.div_small by lia. done.
Qed.

Definition new_id (t : Topology) : nat := (m_number_of_switches t + m_nodes t + m_nodes t)%nat.

(** The links of one level, upward to the switches from [base] on, or down. *)
Definition up_links (fan base : nat) (latency : Z) (level : list nat) : list Link :=
  imap (λ i x, mkLink x (base + i / fan) latency latency DEFAULT_BW_MULTIPLIER) level.

Definition down_links (src : nat → nat) (latency : Z) (level : list nat) : list Link :=
  imap (λ i x, mkLink (src i) x latency latency DEFAULT_BW_MULTIPLIER) level.

Lemma imap_take_S {A B} (f : nat → A → B) l i x :
  l !! i = Some x → imap f (take (S i) l) = imap f (take i l) ++ [f i x].
Proof.
  intros H. rewrite (take_S_r _ _ _ H), imap_app. cbn. f_equal. f_equal.
  rewrite length_take_le, Nat.add_0_r; [done|]. apply Nat.lt_le_incl. by eapply lookup_lt_Some.
Qed.

Lemma last_of_seq base m : (0 < m)%nat → (seq base m).[(length (seq base m) - 1)%nat]! = Ret (base + (m - 1))%nat.
Proof. intros Hm. apply at_idx_Some. rewrite length_seq. apply lookup_seq. lia. Qed.

Section level.
Variables (fan : nat) (latency : Z) (t0 : Topology).
Hypothesis Hfan : (2 ≤ fan)%nat.

Lemma up_level level :
  (∀ x, x ∈ level → (x < new_id t0)%nat) →
  foldM (up_step fan latency level) (t0, []) (seq 0 (length level)) =
  Ret (mkTopology (m_nodes t0) (m_number_of_switches t0 + over fan (length level))
         (m_links t0 ++ up_links fan (new_id t0) latency level), seq (new_id t0) (over fan (length level))).
Proof.
  intros Hlv.
  destruct (foldM_seq (λ i st, st = (mkTopology (m_nodes t0) (m_number_of_switches t0 + over fan i)
         (m_links t0 ++ up_links fan (new_id t0) latency (take i level)), seq (new_id t0) (over fan i)))
    (up_step fan latency level) (length level) (t0, [])) as (st & E & ->).
  - assert (over fan 0 = 0)%nat as -> by (apply Nat.div_small; lia). cbn. destruct t0 as [n s l]. cbn.
    by rewrite Nat.add_0_r, app_nil_r.
  - intros i st Hi ->. destruct (lookup_lt_is_Some_2 level i Hi) as [x Hx].
    pose proof (Hlv x (list_elem_of_lookup_2 _ _ _ Hx)) as Hxl. unfold new_id in Hxl.
    unfold up_step. rewrite (proj2 (Nat.eqb_neq fan 0)) by lia. cbn [newSwitchID m_nodes m_number_of_switches m_links].
    assert (Hstep : (if (i mod fan =? 0)%nat
        then (mkTopology (m_nodes t0) (S (m_number_of_switches t0 + over fan i))
                (m_links t0 ++ up_links fan (new_id t0) latency (take i level)),
              seq (new_id t0) (over fan i) ++ [(m_number_of_switches t0 + over fan i + m_nodes t0 + m_nodes t0)%nat])
        else (mkTopology (m_nodes t0) (m_number_of_switches t0 + over fan i)
                (m_links t0 ++ up_links fan (new_id t0) latency (take i level)), seq (new_id t0) (over fan i))) =
      (mkTopology (m_nodes t0) (m_number_of_switches t0 + over fan (S i))
                (m_links t0 ++ up_links fan (new_id t0) latency (take i level)), seq (new_id t0) (over fan (S i)))).
    { rewrite over_step by lia. destruct (i mod fan =? 0)%nat; [|done]. rewrite seq_S. f_equal; [f_equal; lia|].
      do 2 f_equal. unfold new_id. lia. }
    rewrite Hstep. rewrite (at_idx_Some _ _ _ Hx). cbn [mbind outcome_bind].
    rewrite last_of_seq by (rewrite over_S; lia). cbn [mbind outcome_bind]. unfold addLink, addLink_weight.
    cbn [m_nodes m_number_of_switches m_links]. rewrite over_S by lia. unfold new_id.
    rewrite !(proj2 (Nat.leb_le _ _)) by lia. cbn [assertb mbind outcome_bind]. eexists. split; [done|].
    rewrite <- app_assoc. do 2 f_equal. unfold up_links. rewrite (imap_take_S _ _ _ _ Hx). do 4 f_equal. lia.
  - rewrite E, firstn_all. done.
Qed.

(** The switches over an output level: new ones, or the root alone. *)
Definition down_src (root : nat) (m i : nat) : nat := if (fan <? m)%nat then (new_id t0 + i / fan)%nat else root.

Lemma down_level root level :
  (∀ x, x ∈ level → (x < new_id t0)%nat) → (root < new_id t0)%nat → (0 < length level)%nat →
  let m := length level in
  foldM (down_step fan latency root level) (t0, []) (seq 0 m) =
  Ret (mkTopology (m_nodes t0) (m_number_of_switches t0 + if (fan <? m)%nat then over fan m else 0)
         (m_links t0 ++ down_links (down_src root m) latency level),
       if (fan <? m)%nat then seq (new_id t0) (over fan m) else [root]).
Proof.
  intros Hlv Hroot Hpos m.
  set (next i := if (i =? 0)%nat then [] else if (fan <? m)%nat then seq (new_id t0) (over fan i) else [root]).
  destruct (foldM_seq (λ i st, st = (mkTopology (m_nodes t0) (m_number_of_switches t0 + if (fan <? m)%nat then over fan i else 0)
         (m_links t0 ++ down_links (down_src root m) latency (take i level)), next i))
    (down_step fan latency root level) m (t0, [])) as (st & E & ->).
  - assert (over fan 0 = 0)%nat as -> by (apply Nat.div_small; lia). unfold down_links. cbn [take imap next Nat.eqb].
    rewrite app_nil_r. replace (if (fan <? m)%nat then 0 else 0)%nat with 0%nat by (by destruct (fan <? m)%nat).
    destruct t0 as [n s l]. cbn [m_nodes m_number_of_switches m_links]. by rewrite Nat.add_0_r.
  - intros i st Hi ->. destruct (lookup_lt_is_Some_2 level i Hi) as [x Hx].
    pose proof (Hlv x (list_elem_of_lookup_2 _ _ _ Hx)) as Hxl. unfold new_id in Hxl, Hroot.
    unfold down_step. rewrite (proj2 (Nat.eqb_neq fan 0)) by lia. cbn [newSwitchID m_nodes m_number_of_switches m_links].
    fold m. pose proof (Nat.div_mod i fan ltac:(lia)) as Di. pose proof (over_S fan i ltac:(lia)) as Ov.
    assert (Hsrc : (down_src root m i < m_number_of_switches t0 + (if (fan <? m)%nat then over fan (S i) else 0) + m_nodes t0 + m_nodes t0)%nat).
    { unfold down_src, new_id. rewrite Ov. destruct (fan <? m)%nat; lia. }
    match goal with |- context [let '(_, _) := ?p in _] =>
      assert (Hp : p = (mkTopology (m_nodes t0) (m_number_of_switches t0 + if (fan <? m)%nat then over fan (S i) else 0)
         (m_links t0 ++ down_links (down_src root m) latency (take i level)), next (S i))) end.
    { unfold next. rewrite over_step by lia. cbn [Nat.eqb]. destruct (Nat.eqb_spec (i mod fan) 0) as [E0|E0].
      - destruct (Nat.ltb_spec fan m) as [Hm|Hm].
        + f_equal; [f_equal; lia|]. destruct (Nat.eqb_spec i 0) as [->|].
          * assert (over fan 0 = 0)%nat as -> by (apply Nat.div_small; lia). cbn. f_equal. unfold new_id. lia.
          * rewrite seq_S. do 2 f_equal. unfold new_id. lia.
        + assert (i < fan)%nat by lia. rewrite Nat.mod_small in E0 by lia. subst i. cbn. done.
      - destruct (Nat.eqb_spec i 0) as [->|]; [by rewrite Nat.mod_0_l in E0 by lia|]. done. }
    rewrite Hp. clear Hp.
    assert (Hlast : (next (S i)).[(length (next (S i)) - 1)%nat]! = Ret (down_src root m i)).
    { unfold next, down_src. cbn [Nat.eqb]. destruct (fan <? m)%nat; [|done]. rewrite last_of_seq by (rewrite Ov; lia).
      rewrite Ov. f_equal. lia. }
    rewrite Hlast. cbn [mbind outcome_bind]. rewrite (at_idx_Some _ _ _ Hx). cbn [mbind outcome_bind].
    unfold addLink, addLink_weight. cbn [m_nodes m_number_of_switches m_links].
    rewrite !(proj2 (Nat.leb_le _ _)) by lia. cbn [assertb mbind outcome_bind]. eexists. split; [done|].
    rewrite <- app_assoc. do 2 f_equal. unfold down_links. by rewrite (imap_take_S _ _ _ _ Hx).
  - rewrite E. unfold next. rewrite (proj2 (Nat.eqb_neq m 0)) by (unfold m; lia). unfold m. by rewrite firstn_all.
Qed.
End level.

(** The first row. *)
Lemma leaf_row latency t0 :
  foldM (add_leaf latency) (t0, []) (seq 0 (m_nodes t0)) =
  Ret (mkTopology (m_nodes t0) (m_number_of_switches t0 + m_nodes t0)
         (m_links t0 ++ ((λ i, mkLink i (new_id t0 + i) latency latency DEFAULT_BW_MULTIPLIER) <$> seq 0 (m_nodes t0))),
       seq (new_id t0) (m_nodes t0)).
Proof.
  destruct (foldM_seq (λ i st, st = (mkTopology (m_nodes t0) (m_number_of_switches t0 + i)
         (m_links t0 ++ ((λ i, mkLink i (new_id t0 + i) latency latency DEFAULT_BW_MULTIPLIER) <$> seq 0 i)), seq (new_id t0) i))
    (add_leaf latency) (m_nodes t0) (t0, [])) as (st & E & ->); [| |exact E].
  - destruct t0 as [n s l]. cbn. by rewrite Nat.add_0_r, app_nil_r.
  - intros i st Hi ->. unfold add_leaf. cbn [newSwitchID m_nodes m_number_of_switches m_links].
    unfold addLink, addLink_weight. cbn [m_nodes m_number_of_switches m_links].
    rewrite !(proj2 (Nat.leb_le _ _)) by lia. cbn [assertb mbind outcome_bind]. eexists. split; [done|].
    rewrite <- app_assoc, seq_S, fmap_app, seq_S. unfold new_id.
    replace (m_number_of_switches t0 + i + m_nodes t0 + m_nodes t0)%nat with (m_number_of_switches t0 + m_nodes t0 + m_nodes t0 + i)%nat by lia.
    rewrite Nat.add_succ_r. done.
Qed.

(** ** The up network *)

Lemma linked_mono t t' i j w : (∀ l, l ∈ m_links t → l ∈ m_links t') → linked t i j w → linked t' i j w.
Proof. intros H. induction 1; [constructor|]. constructor; auto. Qed.

Lemma linked_snoc t i x j w l : linked t i x w → l ∈ m_links t → l_src l = x → l_dest l = j → linked t i j (w + l_weight l).
Proof.
  induction 1 as [x|l' x w Hl' H IH]; intros Hl Hs Hd.
  - subst. rewrite Z.add_0_l, <- (Z.add_0_r (l_weight l)). constructor; [done|constructor].
  - rewrite <- Z.add_assoc. constructor; auto.
Qed.

Lemma linked_app t i j k w1 w2 : linked t i j w1 → linked t j k w2 → linked t i k (w1 + w2).
Proof.
  induction 1 as [|l j w Hl H IH]; intros H2; [done|]. rewrite <- Z.add_assoc. constructor; auto.
Qed.

Section tree.
Variables (n fan : nat) (latency : Z).
Hypotheses (Hn : (2 ≤ n)%nat) (Hfan : (2 ≤ fan)%nat) (Hlat : 1 ≤ latency).

(** After [k] rows; every input leads to a switch of the last one. *)
Record up_inv (t : Topology) (level : list nat) (k : nat) : Prop := {
  ui_nodes : m_nodes t = n;
  ui_links : ∀ l, l ∈ m_links t → l_latency l = latency ∧ l_weight l = latency ∧
    (l_src l < n ∨ 2 * n ≤ l_src l)%nat ∧ (2 * n ≤ l_dest l < new_id t)%nat ∧ (l_src l < l_dest l)%nat ∧ l_src l ∉ level;
  ui_once : NoDup (l_src <$> m_links t);
  ui_level : NoDup level ∧ (0 < length level)%nat ∧ ∀ x, x ∈ level → (2 * n ≤ x < new_id t)%nat;
  ui_paths : ∀ a, (a < n)%nat → ∃ x, x ∈ level ∧ linked t a x (Z.of_nat k * latency);
  ui_rows : (k + length level ≤ n + 1)%nat
}.

Lemma elem_up_links base level l :
  l ∈ up_links fan base latency level ↔
  ∃ i x, level !! i = Some x ∧ l = mkLink x (base + i / fan) latency latency DEFAULT_BW_MULTIPLIER.
Proof.
  unfold up_links. rewrite list_elem_of_lookup. setoid_rewrite list_lookup_imap. split.
  - intros (i & H). apply fmap_Some in H as (x & Hx & ->). by exists i, x.
  - intros (i & x & Hx & ->). exists i. by rewrite Hx.
Qed.

Lemma src_up_links base level : l_src <$> up_links fan base latency level = level.
Proof.
  unfold up_links. apply list_eq. intros i. rewrite list_lookup_fmap, list_lookup_imap. by destruct (level !! i).
Qed.

Lemma quot_over (level : list nat) i x : level !! i = Some x → (i / fan < over fan (length level))%nat.
Proof.
  intros Hi%lookup_lt_Some. destruct (length level) as [|m]; [lia|]. rewrite over_S by lia.
  apply Nat.lt_succ_r, Nat.div_le_mono; lia.
Qed.

Lemma up_level_inv t level k : up_inv t level k → (1 < length level)%nat →
  ∃ t' level', foldM (up_step fan latency level) (t, []) (seq 0 (length level)) = Ret (t', level') ∧
    up_inv t' level' (S k) ∧ (length level' < length level)%nat.
Proof.
  intros [U1 U2 U3 (U4 & U4' & U4'') U5 U6] Hl. pose proof (over_lt fan (length level) Hfan Hl) as Ho.
  rewrite (up_level fan latency t Hfan level) by (intros x Hx; apply U4''; done). eexists _, _. split; [done|].
  set (c := over fan (length level)) in *. set (t' := mkTopology _ _ _).
  assert (Hid : new_id t' = (new_id t + c)%nat) by (unfold new_id; cbn; lia).
  assert (Hbase : (2 * n ≤ new_id t)%nat) by (unfold new_id; rewrite U1; lia).
  split; [|rewrite length_seq; lia]. split.
  - done.
  - intros l Hin. cbn in Hin. apply elem_of_app in Hin as [Hin|Hin].
    + destruct (U2 l Hin) as (H1 & H2 & H3 & H4 & H5 & H6). rewrite elem_of_seq, Hid. split_and!; done || lia.
    + apply elem_up_links in Hin as (i & x & Hx & ->). cbn [l_src l_dest l_latency l_weight]. pose proof (U4'' x (list_elem_of_lookup_2 _ _ _ Hx)).
      pose proof (quot_over level i x Hx). fold c in H0. rewrite elem_of_seq, Hid. split_and!; done || lia.
  - cbn. rewrite fmap_app, src_up_links. apply NoDup_app. split; [done|]. split; [|done].
    intros x (l & -> & Hin)%list_elem_of_fmap. by apply (U2 l Hin).
  - split; [apply NoDup_seq|]. split; [rewrite length_seq; lia|]. intros x Hx%elem_of_seq. lia.
  - intros a Ha. destruct (U5 a Ha) as (x & Hx & Hpath). apply list_elem_of_lookup in Hx as [i Hi].
    exists (new_id t + i / fan)%nat. split; [apply elem_of_seq; pose proof (quot_over level i x Hi); lia|].
    replace (Z.of_nat (S k) * latency) with (Z.of_nat k * latency + latency) by lia.
    apply (linked_snoc t' a x _ _ (mkLink x (new_id t + i / fan) latency latency DEFAULT_BW_MULTIPLIER)); [|..|done|done].
    + apply (linked_mono t); [|done]. intros l Hin. cbn. apply elem_of_app. by left.
    + cbn. apply elem_of_app. right. apply elem_up_links. by exists i, x.
  - rewrite length_seq. lia.
Qed.

Lemma up_levels_inv fuel : ∀ t level k, up_inv t level k → (length level ≤ fuel)%nat →
  ∃ t' root k', up_levels fuel fan latency level t = Ret (t', [root]) ∧ up_inv t' [root] k'.
Proof.
  induction fuel as [|fuel IH]; intros t level k Hinv Hf; [destruct (ui_level _ _ _ Hinv) as (_ & ? & _); lia|].
  cbn [up_levels]. destruct (Nat.ltb_spec 1 (length level)) as [Hl|Hl].
  - destruct (up_level_inv t level k Hinv Hl) as (t' & level' & -> & Hinv' & Hlt). cbn [mbind outcome_bind].
    apply (IH t' level' (S k)); [done|lia].
  - destruct (ui_level _ _ _ Hinv) as (_ & Hpos & _). destruct level as [|root [|]]; cbn in Hpos, Hl; try lia.
    by exists t, root, k.
Qed.

Lemma leaves_inv t0 : t0 = mkTopology n 0 [] →
  ∃ t level, foldM (add_leaf latency) (t0, []) (seq 0 (m_nodes t0)) = Ret (t, level) ∧ up_inv t level 1 ∧ length level = n.
Proof.
  intros ->. rewrite leaf_row. eexists _, _. split; [done|]. cbn [m_nodes m_number_of_switches m_links]. set (t := mkTopology _ _ _).
  assert (Hid : new_id t = (n + n + n)%nat) by (unfold new_id; cbn; lia).
  change (new_id (mkTopology n 0 [])) with (0 + n + n)%nat in *.
  assert (Hin : ∀ l, l ∈ m_links t ↔ ∃ i, (i < n)%nat ∧ l = mkLink i (0 + n + n + i) latency latency DEFAULT_BW_MULTIPLIER).
  { intros l. cbn. rewrite list_elem_of_fmap. setoid_rewrite elem_of_seq. naive_solver lia. }
  split; [|by rewrite length_seq]. split.
  - done.
  - intros l (i & Hi & ->)%Hin. cbn. rewrite elem_of_seq. split_and!; try done; lia.
  - replace (l_src <$> m_links t) with (seq 0 n); [apply NoDup_seq|]. cbn. rewrite <- list_fmap_compose.
    symmetry. apply list_fmap_id.
  - split; [apply NoDup_seq|]. rewrite length_seq. split; [lia|]. intros x Hx%elem_of_seq. lia.
  - intros a Ha. exists (0 + n + n + a)%nat. split; [apply elem_of_seq; lia|].
    replace (Z.of_nat 1 * latency) with (0 + latency) by lia.
    apply (linked_snoc t a a _ _ (mkLink a (0 + n + n + a) latency latency DEFAULT_BW_MULTIPLIER)); [constructor| |done|done].
    apply Hin. by exists a.
  - rewrite length_seq. lia.
Qed.

(** ** The down network *)

Section down.
Variables (up : list Link) (U root : nat).
Hypothesis Hroot : (2 * n ≤ root < U)%nat.

(** A node of the down network that has no link into it yet. *)
Definition below (t : Topology) (x : nat) : Prop := (n ≤ x < 2 * n ∨ U ≤ x < new_id t)%nat.

Record down_inv (t : Topology) (level : list nat) (k : nat) : Prop := {
  di_nodes : m_nodes t = n;
  di_id : (U ≤ new_id t)%nat;
  di_links : ∃ dl, m_links t = up ++ dl ∧ NoDup (l_dest <$> dl) ∧ ∀ l, l ∈ dl →
    l_latency l = latency ∧ l_weight l = latency ∧ (2 * n ≤ l_src l)%nat ∧ below t (l_dest l) ∧ l_dest l ∉ level ∧ l_src l ≠ l_dest l;
  di_level : level = [root] ∨ NoDup level ∧ (2 ≤ length level)%nat ∧ ∀ x, x ∈ level → below t x;
  di_paths : ∀ b, (b < n)%nat → ∃ x, x ∈ level ∧ linked t x (n + b) (Z.of_nat k * latency);
  di_rows : (k + length level ≤ n)%nat
}.

Lemma elem_down_links src level l :
  l ∈ down_links src latency level ↔
  ∃ i x, level !! i = Some x ∧ l = mkLink (src i) x latency latency DEFAULT_BW_MULTIPLIER.
Proof.
  unfold down_links. rewrite list_elem_of_lookup. setoid_rewrite list_lookup_imap. split.
  - intros (i & H). apply fmap_Some in H as (x & Hx & ->). by exists i, x.
  - intros (i & x & Hx & ->). exists i. by rewrite Hx.
Qed.

Lemma dest_down_links src level : l_dest <$> down_links src latency level = level.
Proof.
  unfold down_links. apply list_eq. intros i. rewrite list_lookup_fmap, list_lookup_imap. by destruct (level !! i).
Qed.

Lemma down_level_inv t level k : down_inv t level k → length level ≠ 1%nat →
  ∃ t' level', foldM (down_step fan latency root level) (t, []) (seq 0 (length level)) = Ret (t', level') ∧
    down_inv t' level' (S k) ∧ (length level' < length level)%nat.
Proof.
  intros [D1 D2 (dl & D3 & D3' & D3'') D4 D5 D6] Hl. destruct D4 as [->|(D4 & Hlen & D4')]; [done|].
  assert (Hbase : (2 * n ≤ new_id t)%nat) by (unfold new_id; rewrite D1; lia).
  rewrite (down_level fan latency t Hfan root level); [|intros x Hx; destruct (D4' x Hx); lia|lia|lia]. cbv zeta.
  set (m := length level) in *. pose proof (over_lt fan m Hfan Hlen) as Ho.
  set (c := if (fan <? m)%nat then over fan m else 0%nat). eexists _, _. split; [done|]. set (t' := mkTopology _ _ _).
  set (level' := if (fan <? m)%nat then _ else _).
  assert (Hid : new_id t' = (new_id t + c)%nat) by (unfold new_id; cbn; lia).
  assert (Hcv : (fan < m)%nat → c = over fan m) by (intros Hfm; unfold c; by rewrite (proj2 (Nat.ltb_lt _ _) Hfm)).
  assert (Hlen' : (length level' < m)%nat) by (unfold level'; destruct (fan <? m)%nat; rewrite ?length_seq; cbn; lia).
  assert (Hsrc : ∀ i x, level !! i = Some x → (2 * n ≤ down_src fan t root m i)%nat ∧ down_src fan t root m i ∈ level' ∧ down_src fan t root m i ≠ x).
  { intros i x Hx. pose proof (D4' x (list_elem_of_lookup_2 _ _ _ Hx)) as Hb. pose proof (quot_over level i x Hx) as Hq. fold m in Hq.
    unfold down_src, level'. destruct (fan <? m)%nat.
    - rewrite elem_of_seq. unfold below in Hb. lia.
    - rewrite list_elem_of_singleton. unfold below in Hb. lia. }
  assert (Hnew : ∀ x, below t x → below t' x ∧ x ∉ level').
  { intros x Hx. unfold below in *. rewrite Hid. split; [lia|]. unfold level'. destruct (fan <? m)%nat.
    - rewrite elem_of_seq. lia.
    - rewrite list_elem_of_singleton. lia. }
  split; [|done]. split.
  - done.
  - lia.
  - exists (dl ++ down_links (down_src fan t root m) latency level). split; [cbn; by rewrite D3, app_assoc|]. split.
    + rewrite fmap_app, dest_down_links. apply NoDup_app. split; [done|]. split; [|done].
      intros x (l & -> & Hin)%list_elem_of_fmap. by apply (D3'' l Hin).
    + intros l [Hin|Hin]%elem_of_app.
      * destruct (D3'' l Hin) as (H1 & H2 & H3 & H4 & H5 & H6). destruct (Hnew _ H4). split_and!; done.
      * apply elem_down_links in Hin as (i & x & Hx & ->). cbn [l_src l_dest l_latency l_weight].
        destruct (Hsrc i x Hx) as (S1 & S2 & S3). destruct (Hnew x (D4' x (list_elem_of_lookup_2 _ _ _ Hx))). split_and!; done.
  - unfold level'. destruct (Nat.ltb_spec fan m) as [Hfm|Hfm]; [right|by left]. split; [apply NoDup_seq|].
    rewrite length_seq. split.
    + assert (over fan m ≠ 1%nat); [|lia]. intros E. apply over_one in E; lia.
    + intros x Hx%elem_of_seq. right. rewrite Hid. specialize (Hcv Hfm). lia.
  - intros b Hb. destruct (D5 b Hb) as (x & Hx & Hpath). apply list_elem_of_lookup in Hx as [i Hi].
    destruct (Hsrc i x Hi) as (_ & Hin & _). exists (down_src fan t root m i). split; [done|].
    replace (Z.of_nat (S k) * latency) with (latency + Z.of_nat k * latency) by lia.
    apply (linked_step t' (mkLink (down_src fan t root m i) x latency latency DEFAULT_BW_MULTIPLIER)).
    + cbn. apply elem_of_app. right. apply elem_down_links. by exists i, x.
    + apply (linked_mono t); [|done]. intros l Hl'. cbn. apply elem_of_app. by left.
  - fold m in D6. lia.
Qed.

Lemma down_levels_inv fuel : ∀ t level k, down_inv t level k → (length level ≤ fuel)%nat →
  ∃ t' k', down_levels fuel fan latency root level t = Ret t' ∧ down_inv t' [root] k'.
Proof.
  assert (Hone : ∀ t level k, down_inv t level k → length level = 1%nat → level = [root]).
  { intros t level k Hinv Hl. destruct (di_level _ _ _ Hinv) as [|(_ & ? & _)]; [done|lia]. }
  induction fuel as [|fuel IH]; intros t level k Hinv Hf.
  - destruct (di_level _ _ _ Hinv) as [->|(_ & ? & _)]; cbn in Hf; lia.
  - cbn [down_levels]. destruct (Nat.eqb_spec (length level) 1) as [Hl|Hl].
    + exists t, k. split; [done|]. by rewrite <- (Hone t level k).
    + destruct (down_level_inv t level k Hinv Hl) as (t' & level' & -> & Hinv' & Hlt). cbn [mbind outcome_bind].
      apply (IH t' level' (S k)); [done|lia].
Qed.
End down.

Lemma linked_enters t i j w : linked t i j w → i = j ∨ ∃ l, l ∈ m_links t ∧ l_dest l = j.
Proof. induction 1 as [|l j w Hl H [<-|IH]]; [by left|right; by exists l|by right]. Qed.

(** The tree over [n] nodes. *)
Lemma hierarchical_tree counts fuel :
  (n ≤ fuel)%nat → n = length (machines counts) → 2 * Z.of_nat n * latency < INFINITE_LATENCY →
  ∃ t, makeHierarchicalSwitch fuel fan latency (mkTopology n 0 []) = Ret t ∧ m_nodes t = n ∧ links_ok counts t ∧
    ∀ a b, (a < n)%nat → (b < n)%nat → ∃ w, linked t a (n + b) w ∧ w < INFINITE_LATENCY.
Proof.
  intros Hfuel Hc Hw. unfold makeHierarchicalSwitch.
  destruct (leaves_inv (mkTopology n 0 []) eq_refl) as (t1 & lv & -> & Hinv1 & Hlen). cbn [mbind outcome_bind].
  destruct (up_levels_inv fuel t1 lv 1 Hinv1) as (t2 & root & k & -> & Hup); [lia|]. cbn [mbind outcome_bind].
  change ([root].[0%nat]!) with (Ret root). cbn [mbind outcome_bind]. pose proof (ui_nodes _ _ _ Hup) as Hn2. rewrite Hn2.
  destruct (ui_level _ _ _ Hup) as (_ & _ & Hr). specialize (Hr root (list_elem_of_here _ _)).
  destruct (down_levels_inv (m_links t2) (new_id t2) root Hr fuel t2 ((λ i, n + i)%nat <$> seq 0 n) 0) as (t & k' & -> & Hd).
  { split.
    - done.
    - done.
    - exists []. rewrite app_nil_r. split; [done|]. split; [constructor|]. by intros l ?%not_elem_of_nil.
    - right. rewrite length_fmap, length_seq. split; [apply NoDup_fmap; [intros ? ?; lia|apply NoDup_seq]|]. split; [done|].
      intros x (i & -> & Hi%elem_of_seq)%list_elem_of_fmap. left. lia.
    - intros b Hb. exists (n + b)%nat. split; [|constructor]. apply list_elem_of_fmap. exists b. rewrite elem_of_seq. lia.
    - rewrite length_fmap, length_seq. lia. }
  { rewrite length_fmap, length_seq. lia. }
  exists t. split; [done|]. pose proof (di_nodes _ _ _ _ _ _ Hd) as Hnt. split; [done|].
  destruct (di_links _ _ _ _ _ _ Hd) as (dl & El & Hnd & Hdl).
  assert (Hpaths : ∀ a b, (a < n)%nat → (b < n)%nat → linked t a (n + b) (Z.of_nat k * latency + Z.of_nat k' * latency)).
  { intros a b Ha Hb. destruct (ui_paths _ _ _ Hup a Ha) as (x & ->%list_elem_of_singleton & Hp1).
    destruct (di_paths _ _ _ _ _ _ Hd b Hb) as (y & ->%list_elem_of_singleton & Hp2).
    eapply linked_app; [|exact Hp2]. apply (linked_mono t2); [|done]. intros l Hl. rewrite El. apply elem_of_app. by left. }
  pose proof (ui_rows _ _ _ Hup) as Hk. pose proof (di_rows _ _ _ _ _ _ Hd) as Hk'. cbn in Hk, Hk'. split.
  - split.
    + by rewrite Hnt.
    + rewrite Hnt. destruct (linked_enters t 0 (n + (n - 1)) _ (Hpaths 0%nat (n - 1)%nat ltac:(lia) ltac:(lia))) as [E|(l & Hl & Ed)]; [lia|].
      destruct (max_switch_id_ge t l Hl). lia.
    + intros l Hl. rewrite El in Hl. rewrite Hnt. apply elem_of_app in Hl as [Hl|Hl].
      * destruct (ui_links _ _ _ Hup l Hl) as (_ & _ & H3 & H4 & H5 & _). lia.
      * destruct (Hdl l Hl) as (_ & _ & H3 & H4 & _ & H6). unfold below in H4. lia.
    + intros l Hl. rewrite El in Hl. unfold INFINITE_LATENCY in *. apply elem_of_app in Hl as [Hl|Hl].
      * destruct (ui_links _ _ _ Hup l Hl) as (-> & -> & _). nia.
      * destruct (Hdl l Hl) as (-> & -> & _). nia.
    + rewrite El, fmap_app. apply NoDup_app. split; [|split].
      * apply (NoDup_fmap_1 fst). rewrite <- list_fmap_compose. exact (ui_once _ _ _ Hup).
      * intros p (l & -> & Hl)%list_elem_of_fmap (l' & [= E1 E2] & Hl')%list_elem_of_fmap.
        destruct (ui_links _ _ _ Hup l Hl) as (_ & _ & _ & H4 & _ & _). destruct (Hdl l' Hl') as (_ & _ & _ & H4' & _).
        unfold below in H4'. lia.
      * apply (NoDup_fmap_1 snd). rewrite <- list_fmap_compose. exact Hnd.
  - intros a b Ha Hb. eexists. split; [by apply Hpaths|]. nia.
Qed.
End tree.

(** The hierarchical topology connects the network: for two components or
    more and switches of fan-out two or more, building it ends within as many
    levels as there are components and fails no assertion, its links and routes
    are well formed, and a message for any component that enters at any input
    arrives, whichever of the offered links it takes. *)
Theorem hierarchical_routes counts fan latency :
  let n := length (machines counts) in
  counts_ok counts → (2 ≤ n)%nat → (2 ≤ fan)%nat → 1 ≤ latency → 2 * Z.of_nat n * latency < INFINITE_LATENCY →
  ∃ t calls CL CS, makeHierarchicalSwitch n fan latency (mkTopology n 0 []) = Ret t ∧
    createLinks counts (path_fuel (S (max_switch_id t))) t = Ret (calls, CL, CS) ∧
    ∀ d m a, machines counts !! d = Some m → (a < n)%nat →
      ∃ hops, arrives t calls m (d + n) a hops.
Proof.
  intros n Hc Hn Hf Hl Hw. destruct (hierarchical_tree n fan latency Hn Hf Hl counts n) as (t & E & Hnt & Ht & Hp); [done..|].
  destruct (createLinks_ok counts Hc t Ht) as (W & D & calls & CL & CS & Ec & Hro). exists t, calls, CL, CS.
  split; [done|]. split; [done|]. intros d m a Hm Ha. destruct (Hp a d Ha) as (w & Hpath & Hlt); [by eapply lookup_lt_Some|].
  rewrite (Nat.add_comm n d), <- Hnt in Hpath. exists (Z.to_nat w). rewrite <- Hnt. by apply (linked_arrives counts Hc t W D).
Qed.

Lemma ex_tree_counts : counts_ok [2; 1].
Proof. intros [|[|i]] c Hc; cbn in Hc; simplify_eq; lia. Qed.

Lemma hierarchical_routes_witness :
  length (machines [2; 1]) = 3%nat ∧
  ∃ t calls CL CS, makeHierarchicalSwitch 3 2 1 (mkTopology 3 0 []) = Ret t ∧
    createLinks [2; 1] (path_fuel (S (max_switch_id t))) t = Ret (calls, CL, CS) ∧
    ∀ d m a, machines [2; 1] !! d = Some m → (a < 3)%nat → ∃ hops, arrives t calls m (d + 3) a hops.
Proof.
  split; [reflexivity|].
  apply (hierarchical_routes [2; 1] 2 1 ex_tree_counts); [change (length (machines [2; 1])) with 3%nat; lia|lia|lia|reflexivity].
Defined.
