(* ===== verification/TopologyKinds.v ===== *)
(** * The other topologies

    The rest of [Topology.C] ([gems-lib/ruby_clean/network/simple]): the switch
    of each chip, the two-dimensional torus, the point-to-point network, the
    network read from a file, and the constructor that chooses between them.  The
    parallel vectors of node pairs, latencies and bandwidth multipliers are one
    list.  [exit(1)] after an error message ends the program like a failing
    assertion.  Numbers of switches are not negative, and sums are written in the
    order that keeps them so. *)

From stdpp Require Import gmap sets list numbers strings.
From S2P Require Import Prelude Text Util NodeSet NetDest Topology.
From Stdlib Require Import Ascii.
Local Open Scope Z_scope.

Section kinds.
(** Configuration: the components of each type and those on each chip, chips, the
    number of the directory type, latencies. *)
Variables (counts chip_counts : list Z) (chips DIRECTORY : nat).
Variables (NETWORK_LINK_LATENCY ON_CHIP_LINK_LATENCY : Z).

(** A node pair, its latency and its bandwidth multiplier. *)
Notation spec := (nat * nat * Z * Z)%type.

Implicit Types (t : Topology).

(** ** The switch of each chip *)

Record chip_state := mkChip {
  specs : list spec;
  endpointConnectionExist : list bool;
  componentCount : list Z
}.

(** One turn of the innermost loop; the multiplier of the link into the network
    is the number of the component. *)
Definition connect_component (n : nat) (st : chip_state) '(chip, mType) : outcome chip_state :=
  let '(latency, bw_multiplier) :=
    if (mType =? DIRECTORY)%nat then (NETWORK_LINK_LATENCY, 1) else (ON_CHIP_LINK_LATENCY, 10) in
  base ← MachineType_base_number counts mType; c ← (componentCount st).[mType]!;
  let node := Z.to_nat (base + c) in
  let switch := (chip + n * 2)%nat in
  b ← (endpointConnectionExist st).[node]!; assertb (negb b) ;;
  Ret (mkChip
    (specs st ++ [(node, switch, latency, c + base); (switch, (node + n)%nat, latency, bw_multiplier)])
    (<[node := true]> (endpointConnectionExist st)) (<[mType := c + 1]> (componentCount st))).

(** The components in the order of the loops. *)
Definition chip_components : list (nat * nat) :=
  chip ← seq 0 chips; mType ← seq 0 (MachineType_NUM counts);
  replicate (Z.to_nat (nth mType chip_counts 0)) (chip, mType).

Definition makeSwitchesPerChip (n : nat) : outcome (list spec) :=
  st ← foldM (connect_component n) (mkChip [] (replicate n false) (replicate (MachineType_NUM counts) 0)) chip_components;
  assertb (forallb id (endpointConnectionExist st)) ;;
  foldM (λ _ mType, c ← (componentCount st).[mType]!; k ← MachineType_base_count counts mType; assertb (c =? k)) tt
    (seq 0 (MachineType_NUM counts)) ;;
  Ret (specs st).

(** The links are added in the order of the pairs. *)
Definition add_links (l : list spec) t : outcome Topology :=
  foldM (λ t '(src, dest, latency, bw), addLink_bw src dest latency bw t) t l.

(** [k] new switches. *)
Definition new_switches (k : nat) t : list nat * Topology :=
  foldl (λ '(l, t) _, let '(id, t) := newSwitchID t in (l ++ [id], t)) ([], t) (seq 0 k).

(** Nodes per machine type; [MachineType_base_level] of the last type is their number. *)
Definition switches_of_nodes t : outcome nat :=
  levels ← MachineType_base_level counts (MachineType_NUM counts);
  if (levels =? 0)%nat then Raise DivByZero else Ret (m_nodes t / levels)%nat.

(** ** The torus *)

(** The neighbours of a switch on the left, right, top and bottom. *)
Definition torus_neighbours (n T side node : nat) : list nat :=
  [if (node mod side =? 0)%nat then (node + side - 1)%nat else (node - 1)%nat;
   if ((node + 1) mod side =? 0)%nat then (node + 1 - side)%nat else (node + 1)%nat;
   if (node <? 2 * n + side)%nat then (node + side * side - side)%nat else (node - side)%nat;
   if (2 * n + T <=? node + side)%nat then (node + side - side * side)%nat else (node + side)%nat].

Definition make2DTorus t : outcome Topology :=
  numberOfTorusSwitches ← switches_of_nodes t;
  let '(torusSwitches, t) := new_switches numberOfTorusSwitches t in
  pairs ← makeSwitchesPerChip (m_nodes t);
  let lengthOfSide := Nat.sqrt numberOfTorusSwitches in
  let pairs := pairs ++
    (node ← torusSwitches;
     (λ next, (node, next, NETWORK_LINK_LATENCY, 1)) <$> torus_neighbours (m_nodes t) numberOfTorusSwitches lengthOfSide node) in
  add_links pairs t.

(** ** Point to point *)

Definition both_ways (a b : nat) (latency bw : Z) : list spec := [(a, b, latency, bw); (b, a, latency, bw)].

Definition makePtToPt t : outcome Topology :=
  numberOfChipSwitches ← switches_of_nodes t;
  let '(_, t) := new_switches (2 * numberOfChipSwitches) t in
  let n := m_nodes t in
  pairs ← makeSwitchesPerChip n;
  let pairs := pairs ++
    (chip ← seq 0 chips; both_ways (chip + n * 2) (chip + n * 2 + chips) ON_CHIP_LINK_LATENCY 10) in
  let pairs := pairs ++
    (chip ← seq 0 chips; other_chip ← seq (S chip) (chips - S chip);
     both_ways (chip + n * 2 + chips) (other_chip + n * 2 + chips) NETWORK_LINK_LATENCY 1) in
  add_links pairs t.

(** ** A network read from a file *)

(** The enumeration's values by name, and what the file is checked against. *)
Variable string_to_MachineType : string → outcome nat.
Variables (numberOfProcessors g_endpoint_bandwidth numberOfProcsPerChip numberOfL2Cache numberOfMemories : Z).

(** A line; a node never assigned is [None]. *)
Record line_state := mkLine {
  nodes : list (option nat);
  latency : Z;
  weight : Z;
  bw_multiplier : Z;
  pair_index : nat;
  varsFound : Z;
  internalNodes : Z
}.

Definition new_line : line_state := mkLine [None; None] (-1) (-1) DEFAULT_BW_MULTIPLIER 0 0 0.

(** What the whole file has shown: connected endpoints, switches, and links with their weight. *)
Record file_state := mkFile {
  connected : list bool;
  int_network_switches : list nat;
  number_of_switches : nat;
  file_links : list (nat * nat * Z * Z * Z)
}.

(** [string_split(varStr, ':')] as an assignment. *)
Definition field (varStr : string) : string * string := string_split varStr ":".

Definition number_is (varStr : string) (v : Z) : outcome unit := assertb (atoi (field varStr).1 =? v).

Definition ext_node (n : nat) (varStr : string) : outcome nat :=
  let '(name, varStr) := field varStr in
  machine ← string_to_MachineType name;
  let '(nodeStr, varStr) := field varStr in
  let '(bank, varStr) := field varStr in
  base ← MachineType_base_number counts machine;
  let node :=
    if String.eqb bank "bank" then base + atoi nodeStr + atoi (field varStr).1 * Z.of_nat chips
    else base + atoi nodeStr in
  assertb ((0 <=? node) && (node <? Z.of_nat n)) ;; Ret (Z.to_nat node).

Definition set_node (node : nat) (internal : Z) l : line_state :=
  mkLine (<[pair_index l := Some node]> (nodes l)) (latency l) (weight l) (bw_multiplier l) (S (pair_index l))
    (varsFound l + 1) (internalNodes l + internal).

Definition read_var (n : nat) '(f, l) (varStr : string) : outcome (file_state * line_state) :=
  let '(label, varStr) := field varStr in
  if String.eqb label "ext_node" then
    assertb (pair_index l <? 2)%nat ;;
    node ← ext_node n varStr;
    Ret (mkFile (<[node := true]> (connected f)) (int_network_switches f) (number_of_switches f) (file_links f), set_node node 0 l)
  else if String.eqb label "int_node" then
    assertb (pair_index l <? 2)%nat ;;
    let node := atoi (field varStr).1 + Z.of_nat n * 2 in
    assertb (Z.of_nat n * 2 <=? node) ;;
    let node := Z.to_nat node in
    let f :=
      if existsb (Nat.eqb node) (int_network_switches f) then f
      else mkFile (connected f) (int_network_switches f ++ [node]) (S (number_of_switches f)) (file_links f) in
    Ret (f, set_node node 1 l)
  else if String.eqb label "link_latency" then
    Ret (f, mkLine (nodes l) (atoi (field varStr).1) (weight l) (bw_multiplier l) (pair_index l) (varsFound l + 1) (internalNodes l))
  else if String.eqb label "bw_multiplier" then
    Ret (f, mkLine (nodes l) (latency l) (weight l) (atoi (field varStr).1) (pair_index l) (varsFound l) (internalNodes l))
  else if String.eqb label "link_weight" then
    Ret (f, mkLine (nodes l) (latency l) (atoi (field varStr).1) (bw_multiplier l) (pair_index l) (varsFound l) (internalNodes l))
  else if String.eqb label "processors" then number_is varStr numberOfProcessors ;; Ret (f, l)
  else if String.eqb label "bw_unit" then number_is varStr g_endpoint_bandwidth ;; Ret (f, l)
  else if String.eqb label "procs_per_chip" then number_is varStr numberOfProcsPerChip ;; Ret (f, l)
  else if String.eqb label "L2banks" then number_is varStr numberOfL2Cache ;; Ret (f, l)
  else if String.eqb label "memories" then number_is varStr numberOfMemories ;; Ret (f, l)
  else Raise AssertFailed.

(** The loop over the words of a line ends at the first empty word; a word takes
    at least a character of the line. *)
Fixpoint read_vars (fuel n : nat) (line : string) (st : file_state * line_state) : outcome (file_state * line_state) :=
  let '(varStr, line) := string_split line " " in
  match varStr with
  | EmptyString => Ret st
  | _ => match fuel with
         | O => Raise NoFuel
         | S fuel => st ← read_var n st varStr; read_vars fuel n line st
         end
  end.

(** The two links of a line; the second node of a link out of the network is
    taken to be the switch. *)
Definition end_line (n : nat) (f : file_state) (l : line_state) : outcome file_state :=
  if varsFound l =? 3 then
    first ← (nodes l).[0%nat]!; second ← (nodes l).[1%nat]!;
    first ← deref first; second ← deref second;
    let w := if negb (weight l =? -1) then weight l else latency l in
    let back := if internalNodes l =? 2 then first else (first + n)%nat in
    Ret (mkFile (connected f) (int_network_switches f) (number_of_switches f)
      (file_links f ++ [(first, second, latency l, bw_multiplier l, w); (second, back, latency l, bw_multiplier l, w)]))
  else assertb (varsFound l =? 0) ;; Ret f.

Definition read_line (n : nat) (f : file_state) (line : string) : outcome file_state :=
  '(f, l) ← read_vars (String.length line) n line (f, new_line); end_line n f l.

(** The lines [getline] delivers, the one after the last newline among them. *)
Fixpoint file_lines (text : string) : list string :=
  match text with
  | EmptyString => [EmptyString]
  | String c text =>
      match file_lines text with
      | [] => []
      | line :: lines => if Ascii.eqb c "010" then EmptyString :: line :: lines else String c line :: lines
      end
  end.

(** The text of the file, which is there. *)
Definition makeFileSpecified (text : string) t : outcome Topology :=
  let n := m_nodes t in
  f ← foldM (read_line n) (mkFile (replicate n false) [] (m_number_of_switches t) []) (file_lines text);
  assertb (forallb id (connected f)) ;;
  foldM (λ t '(src, dest, latency, bw, w), addLink_weight src dest latency bw w t)
    (mkTopology n (number_of_switches f) (m_links t)) (file_links f).

(** ** The constructor *)

Inductive TopologyType :=
  | TORUS_2D | HIERARCHICAL_SWITCH | CROSSBAR | PT_TO_PT | FILE_SPECIFIED.

(** [Topology::init]; the fuel is that of the hierarchical switch. *)
Definition init (fuel : nat) (topology : TopologyType) (FAN_OUT_DEGREE : nat) (text : string) t : outcome Topology :=
  if (m_nodes t =? 1)%nat then
    let '(id, t) := newSwitchID t in
    t ← addLink 0 id NETWORK_LINK_LATENCY t; addLink id 1 NETWORK_LINK_LATENCY t
  else
    match topology with
    | TORUS_2D => make2DTorus t
    | HIERARCHICAL_SWITCH => makeHierarchicalSwitch fuel FAN_OUT_DEGREE NETWORK_LINK_LATENCY t
    | CROSSBAR => makeHierarchicalSwitch fuel 1024 NETWORK_LINK_LATENCY t
    | PT_TO_PT => makePtToPt t
    | FILE_SPECIFIED => makeFileSpecified text t
    end.

Definition new_Topology (fuel : nat) (topology : TopologyType) (FAN_OUT_DEGREE : nat) (text : string)
    (number_of_nodes : nat) : outcome Topology :=
  init fuel topology FAN_OUT_DEGREE text (mkTopology number_of_nodes 0 []).
End kinds.

(** ** Small networks *)

(** A file for two caches, a bank and a memory. *)
Definition example_machine (name : string) : outcome nat :=
  if String.eqb name "L1Cache" then Ret 0%nat else if String.eqb name "L2Cache" then Ret 1%nat
  else if String.eqb name "Directory" then Ret 2%nat else Raise AssertFailed.

Definition newline : string := String "010" EmptyString.

Definition example_file : string :=
  "processors:2" ++ newline ++ "ext_node:L1Cache:0 int_node:0 link_latency:1 bw_multiplier:72 " ++ newline ++
  "ext_node:L1Cache:1 int_node:0 link_latency:1" ++ newline ++ newline ++
  "ext_node:L2Cache:0:bank:0 int_node:1 link_latency:2 link_weight:3" ++ newline ++
  "ext_node:Directory:0 int_node:1 link_latency:20" ++ newline ++ "int_node:0 int_node:1 link_latency:1" ++ newline.

Example example_file_read :
  match makeFileSpecified [2; 1; 1] 1 example_machine 2 0 2 1 1 example_file (mkTopology 4 0 []) with
  | Ret t => (m_number_of_switches t, map (λ l, (l_src l, l_dest l, l_latency l, l_weight l, l_bw l)) (m_links t))
  | Raise _ => (0%nat, [])
  end = (2%nat,
    [(0%nat, 8%nat, 1, 1, 72); (8%nat, 4%nat, 1, 1, 72); (1%nat, 8%nat, 1, 1, 1); (8%nat, 5%nat, 1, 1, 1); (2%nat, 9%nat, 2, 3, 1); (9%nat, 6%nat, 2, 3, 1);
     (3%nat, 9%nat, 20, 20, 1); (9%nat, 7%nat, 20, 20, 1); (8%nat, 9%nat, 1, 1, 1); (9%nat, 8%nat, 1, 1, 1)]).
Proof. vm_compute. reflexivity. Qed.
