(* ===== verification/TopologyRoutes.v ===== *)
(** * The other topologies connect the network

    Every component is attached to the switch of its chip, and the torus and the
    point-to-point network connect the switches, so that the routes
    [createLinks] computes lead every message to its component. *)

From stdpp Require Import gmap sets list numbers strings.
From S2P Require Import Prelude NodeSet NetDest Topology SwitchTree TopologyKinds.
Local Open Scope Z_scope.

(** ** Components of the types *)

Section attach.
Variables (counts chip_counts : list Z) (chips DIRECTORY : nat) (NETWORK ON_CHIP : Z).
Hypothesis Hcounts : counts_ok counts.
Hypothesis Hchip : ∀ m c, counts !! m = Some c → ∃ k, chip_counts !! m = Some k ∧ 0 ≤ k ∧ c = Z.of_nat chips * k.

Let n := length (machines counts).
Let types := length counts.

Definition base (m : nat) : Z := zsum id (take m counts).

Lemma base_S m c : counts !! m = Some c → base (S m) = base m + c.
Proof. intros Hc. unfold base. rewrite (take_S_r _ _ _ Hc), zsum_app, zsum_cons. unfold id. cbn. lia. Qed.

Lemma base_nonneg m : 0 ≤ base m.
Proof.
  apply zsum_nonneg. intros c (i & Hi)%elem_of_take. destruct Hi as [Hi _]. pose proof (Hcounts i c Hi). unfold id. lia.
Qed.

Lemma base_below m m' c : counts !! m = Some c → (m < m')%nat → base m + c ≤ base m'.
Proof.
  intros Hc Hm. unfold base. replace m' with (S m + (m' - S m))%nat by lia.
  rewrite <- (take_drop (S m) (take (S m + (m' - S m)) counts)), take_take, Nat.min_l by lia.
  rewrite zsum_app. fold (base (S m)). rewrite (base_S m c Hc). unfold base.
  assert (0 ≤ zsum id (drop (S m) (take (S m + (m' - S m)) counts))); [|lia].
  apply zsum_nonneg. intros x (i & Hi)%list_elem_of_lookup. rewrite lookup_drop in Hi. apply lookup_take_Some in Hi as [Hi _].
  pose proof (Hcounts _ _ Hi). unfold id. lia.
Qed.

Lemma base_total : base types = Z.of_nat n.
Proof. unfold base, types. rewrite firstn_all. symmetry. by apply machines_length. Qed.

Lemma base_node m c k : counts !! m = Some c → (Z.of_nat k < c) → (Z.to_nat (base m + Z.of_nat k) < n)%nat.
Proof.
  intros Hc Hk. pose proof (base_below m types c Hc) as H. rewrite base_total in H. pose proof (base_nonneg m).
  apply lookup_lt_Some in Hc as Hl. specialize (H Hl). lia.
Qed.

(** The numbers of components of different types, or places, differ. *)
Lemma base_inj m m' c c' k k' :
  counts !! m = Some c → counts !! m' = Some c' → Z.of_nat k < c → Z.of_nat k' < c' →
  Z.to_nat (base m + Z.of_nat k) = Z.to_nat (base m' + Z.of_nat k') → m = m' ∧ k = k'.
Proof.
  intros Hc Hc' Hk Hk' E. pose proof (base_nonneg m). pose proof (base_nonneg m').
  destruct (lt_eq_lt_dec m m') as [[Hlt| ->]|Hlt].
  - pose proof (base_below m m' c Hc Hlt). lia.
  - split; [done|lia].
  - pose proof (base_below m' m c' Hc' Hlt). lia.
Qed.

(** Every number is one. *)
Lemma base_surj d : (d < n)%nat → ∃ m c k, counts !! m = Some c ∧ Z.of_nat k < c ∧ d = Z.to_nat (base m + Z.of_nat k).
Proof.
  intros Hd.
  assert (Hgen : ∀ q, (q ≤ types)%nat → Z.of_nat d < base q →
    ∃ m c k, counts !! m = Some c ∧ Z.of_nat k < c ∧ d = Z.to_nat (base m + Z.of_nat k)).
  { induction q as [|q IH]; intros Hq Hlt; [change (base 0) with 0 in Hlt; lia|].
    destruct (lookup_lt_is_Some_2 counts q) as [c Hc]; [unfold types in Hq; lia|]. rewrite (base_S q c Hc) in Hlt.
    destruct (Z.lt_ge_cases (Z.of_nat d) (base q)) as [H|H]; [apply IH; [lia|done]|].
    exists q, c, (Z.to_nat (Z.of_nat d - base q)). split; [done|]. split; [lia|]. pose proof (base_nonneg q). lia. }
  apply (Hgen types); [done|]. rewrite base_total. lia.
Qed.

(** The component with a number. *)
Lemma machine_at m c k : counts !! m = Some c → Z.of_nat k < c →
  machines counts !! Z.to_nat (base m + Z.of_nat k) = Some (m, Z.of_nat k).
Proof.
  unfold machines, base. intros Hc Hk.
  assert (Hgen : ∀ cs m q, cs !! m = Some c → (∀ x, x ∈ cs → 0 < x) →
    concat (imap (λ m c, pair (q + m)%nat <$> seqZ 0 c) cs) !! Z.to_nat (zsum id (take m cs) + Z.of_nat k) =
      Some ((q + m)%nat, Z.of_nat k)).
  { clear m Hc. induction cs as [|x cs IH]; intros m q Hm Hx; [done|]. cbn [imap concat].
    assert (Eq : imap ((λ (m : nat) (c0 : Z), pair (q + m)%nat <$> seqZ 0 c0) ∘ S) cs =
      imap (λ m c0, pair (S q + m)%nat <$> seqZ 0 c0) cs).
    { apply imap_ext. intros i y _. cbn. by rewrite Nat.add_succ_r. }
    rewrite Eq. destruct m as [|m]; cbn [lookup list_lookup] in Hm.
    - injection Hm as ->. change (zsum id (take 0 (c :: cs))) with 0. rewrite Z.add_0_l, Nat2Z.id, lookup_app_l by (rewrite length_fmap, length_seqZ; lia).
      rewrite list_lookup_fmap, (proj2 (lookup_seqZ _ _ _ (Z.of_nat k))) by lia. by rewrite Nat.add_0_r.
    - cbn [take]. rewrite zsum_cons. unfold id at 1.
      assert (0 ≤ zsum id (take m cs)).
      { apply zsum_nonneg. intros y (i & [Hi _])%elem_of_take. specialize (Hx y). apply list_elem_of_lookup_2 in Hi.
        specialize (Hx (list_elem_of_further _ _ _ Hi)). unfold id. lia. }
      pose proof (Hx x (list_elem_of_here _ _)).
      rewrite lookup_app_r by (rewrite length_fmap, length_seqZ; lia). rewrite length_fmap, length_seqZ.
      replace (Z.to_nat (x + zsum id (take m cs) + Z.of_nat k) - Z.to_nat x)%nat with (Z.to_nat (zsum id (take m cs) + Z.of_nat k)) by lia.
      rewrite (IH m (S q) Hm) by (intros y Hy; apply Hx; by right). by rewrite Nat.add_succ_r. }
  apply (Hgen counts m 0%nat Hc). intros x (i & Hi)%list_elem_of_lookup. apply (Hcounts i x Hi).
Qed.

(** ** Attaching components *)

(** How often a type has come up, and what came of each turn: the number of the
    component, the chip and the type. *)
Definition occ (m : nat) (cs : list (nat * nat)) : nat := length (filter (λ p, p.2 = m) cs).

Definition placed (cs : list (nat * nat)) : list (nat * nat * nat) :=
  imap (λ i p, (Z.to_nat (base p.2 + Z.of_nat (occ p.2 (take i cs))), p.1, p.2)) cs.

Definition latency_of (m : nat) : Z := if (m =? DIRECTORY)%nat then NETWORK else ON_CHIP.
Definition bw_of (m : nat) : Z := if (m =? DIRECTORY)%nat then 1 else 10.

Definition spec_of '(d, chip, m) : list (nat * nat * Z * Z) :=
  [(d, chip + n * 2, latency_of m, Z.of_nat d); (chip + n * 2, d + n, latency_of m, bw_of m)]%nat.

Lemma occ_app m cs cs' : occ m (cs ++ cs') = (occ m cs + occ m cs')%nat.
Proof. unfold occ. by rewrite filter_app, length_app. Qed.

Lemma occ_one m p : occ m [p] = if decide (p.2 = m) then 1%nat else 0%nat.
Proof. unfold occ. rewrite filter_cons, filter_nil. by case_decide. Qed.

Lemma placed_snoc cs p :
  placed (cs ++ [p]) = placed cs ++ [(Z.to_nat (base p.2 + Z.of_nat (occ p.2 cs)), p.1, p.2)].
Proof.
  unfold placed. rewrite imap_app. f_equal.
  - apply imap_ext. intros i x Hx. apply lookup_lt_Some in Hx. by rewrite take_app_le by lia.
  - cbn. by rewrite Nat.add_0_r, take_app_length.
Qed.

(** A turn is possible while the type has components left. *)
Definition room (cs : list (nat * nat)) : Prop :=
  ∀ p, p ∈ cs → ∃ c, counts !! p.2 = Some c ∧ Z.of_nat (occ p.2 cs) ≤ c.

Lemma elem_placed cs d chip m :
  (d, chip, m) ∈ placed cs ↔ ∃ i, cs !! i = Some (chip, m) ∧ d = Z.to_nat (base m + Z.of_nat (occ m (take i cs))).
Proof.
  unfold placed. rewrite list_elem_of_lookup. setoid_rewrite list_lookup_imap. split.
  - intros (i & Hi). apply fmap_Some in Hi as ([c m'] & Hi & [= -> -> ->]). by exists i.
  - intros (i & Hi & ->). exists i. by rewrite Hi.
Qed.

Lemma occ_take m i p cs : cs !! i = Some p → p.2 = m → (occ m (take i cs) < occ m cs)%nat.
Proof.
  intros Hi Hp. rewrite <- (take_drop_middle _ _ _ Hi) at 2. rewrite occ_app. change (p :: drop (S i) cs) with ([p] ++ drop (S i) cs). rewrite occ_app, occ_one, decide_True by done. lia.
Qed.

(** A number is in use when its component was placed. *)
Record attach_inv (cs : list (nat * nat)) (st : chip_state) : Prop := {
  ai_specs : specs st = placed cs ≫= spec_of;
  ai_exist : length (endpointConnectionExist st) = n ∧
    ∀ d b, endpointConnectionExist st !! d = Some b → b = true ↔ ∃ c m, (d, c, m) ∈ placed cs;
  ai_count : length (componentCount st) = types ∧
    ∀ m, (m < types)%nat → componentCount st !! m = Some (Z.of_nat (occ m cs));
  ai_once : NoDup ((λ p, p.1.1) <$> placed cs)
}.

Lemma attach_start : attach_inv [] (mkChip [] (replicate n false) (replicate types 0)).
Proof.
  split; cbn.
  - done.
  - split; [apply length_replicate|]. intros d b Hb. apply lookup_replicate in Hb as [-> _]. split; [done|].
    intros (c & m & []%not_elem_of_nil).
  - split; [apply length_replicate|]. intros m Hm. by rewrite lookup_replicate_2.
  - constructor.
Qed.

Lemma attach_step cs p st :
  attach_inv cs st → room (cs ++ [p]) →
  ∃ st', connect_component counts DIRECTORY NETWORK ON_CHIP n st p = Ret st' ∧ attach_inv (cs ++ [p]) st'.
Proof.
  intros [Hs [He1 He2] [Hc1 Hc2] Hnd] Hroom. destruct p as [chip m].
  destruct (Hroom (chip, m)) as (c & Hc & Hocc); [set_solver|]. cbn [snd] in *.
  rewrite occ_app, occ_one, decide_True in Hocc by done. pose proof (lookup_lt_Some _ _ _ Hc) as Hm. fold types in Hm.
  assert (Hd : (Z.to_nat (base m + Z.of_nat (occ m cs)) < n)%nat) by (eapply base_node; [done|lia]).
  assert (Hnew : ¬ ∃ c' m', (Z.to_nat (base m + Z.of_nat (occ m cs)), c', m') ∈ placed cs).
  { intros (c' & m' & (i & Hi & E)%elem_placed). pose proof (occ_take m' i _ cs Hi eq_refl) as Hlt.
    destruct (Hroom (c', m')) as (c2 & Hc2' & Hocc2); [apply elem_of_app; left; by eapply list_elem_of_lookup_2|]. cbn [snd] in *.
    rewrite occ_app in Hocc2. destruct (base_inj m m' c c2 (occ m cs) (occ m' (take i cs)) Hc Hc2' ltac:(lia) ltac:(lia) E) as [<- E']. lia. }
  unfold connect_component.
  replace (if (m =? DIRECTORY)%nat then (NETWORK, 1) else (ON_CHIP, 10)) with (latency_of m, bw_of m)
    by (unfold latency_of, bw_of; by destruct (m =? DIRECTORY)%nat).
  unfold MachineType_base_number. rewrite (proj2 (Nat.leb_le m _)) by (unfold MachineType_NUM; fold types; lia).
  cbn [mbind outcome_bind]. fold (base m). rewrite (at_idx_Some _ _ _ (Hc2 m Hm)). cbn [mbind outcome_bind].
  destruct (lookup_lt_is_Some_2 (endpointConnectionExist st) (Z.to_nat (base m + Z.of_nat (occ m cs)))) as [b Hb]; [lia|].
  rewrite (at_idx_Some _ _ _ Hb). destruct b; [by destruct Hnew; apply (He2 _ _ Hb)|]. cbn [negb assertb mbind outcome_bind].
  eexists. split; [reflexivity|]. pose proof (base_nonneg m) as Hb0. split; cbn [specs endpointConnectionExist componentCount].
  - rewrite placed_snoc, bind_app, Hs. f_equal.
    cbn [mbind list_bind spec_of fst snd app]. rewrite Z2Nat.id by lia. by rewrite (Z.add_comm (Z.of_nat _) (base m)).
  - split; [by rewrite length_insert|]. intros d b Hdb. rewrite placed_snoc.
    apply list_lookup_insert_Some in Hdb as [(<- & <- & _)|[Hne Hdb]].
    + split; [|done]. intros _. exists chip, m. set_solver.
    + rewrite (He2 d b Hdb). split; [intros (c' & m' & H); exists c', m'; set_solver|].
      intros (c' & m' & [H|[= ->]%list_elem_of_singleton]%elem_of_app); [by exists c', m'|done].
  - split; [by rewrite length_insert|]. intros m' Hm'. rewrite occ_app, occ_one. cbn [snd]. case_decide as E.
    + subst m'. rewrite list_lookup_insert_eq by lia. f_equal. lia.
    + rewrite list_lookup_insert_ne by done. rewrite Hc2 by done. f_equal. lia.
  - rewrite placed_snoc, fmap_app. apply NoDup_app. split; [done|]. split; [|apply NoDup_singleton].
    intros d ([[d' c'] m'] & -> & Hin)%list_elem_of_fmap [= E]%list_elem_of_singleton. apply Hnew. exists c', m'. by rewrite <- E.
Qed.

Lemma room_prefix cs cs' : room (cs ++ cs') → room cs.
Proof.
  intros H p Hp. destruct (H p) as (c & Hc & Ho); [set_solver|]. exists c. split; [done|]. rewrite occ_app in Ho. lia.
Qed.

Lemma attach_all cs : room cs →
  ∃ st, foldM (connect_component counts DIRECTORY NETWORK ON_CHIP n) (mkChip [] (replicate n false) (replicate types 0)) cs = Ret st ∧
    attach_inv cs st.
Proof.
  induction cs as [|p cs IH] using rev_ind; intros Hroom; [eexists; split; [reflexivity|apply attach_start]|].
  destruct (IH (room_prefix _ _ Hroom)) as (st & E & Hinv). destruct (attach_step cs p st Hinv Hroom) as (st' & E' & Hinv').
  exists st'. rewrite foldM_app, E. cbn [mbind outcome_bind foldM]. by rewrite E'.
Qed.

(** ** The turns of the loops *)

Definition per (m : nat) : nat := Z.to_nat (nth m chip_counts 0).

Definition chip_block (k chip : nat) : list (nat * nat) := mType ← seq 0 k; replicate (per mType) (chip, mType).

Definition turns (k : nat) : list (nat * nat) := seq 0 k ≫= chip_block types.

Lemma occ_replicate m q p : occ m (replicate q p) = if decide (p.2 = m) then q else 0%nat.
Proof.
  unfold occ. induction q as [|q IH]; cbn [replicate]; [by case_decide|]. rewrite filter_cons. case_decide; cbn; rewrite IH; done.
Qed.

Lemma occ_block m k chip : occ m (chip_block k chip) = if decide (m < k)%nat then per m else 0%nat.
Proof.
  unfold chip_block. induction k as [|k IH]; [done|]. rewrite seq_S, bind_app, occ_app, IH. cbn [mbind list_bind].
  rewrite app_nil_r, occ_replicate. cbn [snd Nat.add]. repeat case_decide; try lia. by subst.
Qed.

Lemma occ_turns m k : (m < types)%nat → occ m (turns k) = (k * per m)%nat.
Proof.
  intros Hm. unfold turns. induction k as [|k IH]; [done|]. rewrite seq_S, bind_app, occ_app, IH. cbn [mbind list_bind].
  rewrite app_nil_r, occ_block, decide_True by done. lia.
Qed.

Lemma elem_block k chip p : p ∈ chip_block k chip → p.1 = chip ∧ (p.2 < k)%nat.
Proof.
  unfold chip_block. intros (m & [-> Hm]%elem_of_replicate & Hk%elem_of_seq)%list_elem_of_bind. cbn. lia.
Qed.

Lemma elem_turns k p : p ∈ turns k → (p.1 < k)%nat ∧ (p.2 < types)%nat.
Proof. unfold turns. intros (chip & [<- Hm]%elem_block & Hk%elem_of_seq)%list_elem_of_bind. lia. Qed.

Lemma count_per m c : counts !! m = Some c → Z.of_nat (chips * per m) = c ∧ (0 < per m)%nat ∧ (0 < chips)%nat.
Proof.
  intros Hc. destruct (Hchip m c Hc) as (k & Hk & Hk0 & ->). pose proof (Hcounts m _ Hc). unfold per.
  rewrite (nth_lookup_Some _ _ 0 k Hk). nia.
Qed.

Lemma turns_room : room (turns chips).
Proof.
  intros p Hp. destruct (elem_turns _ _ Hp) as [_ Hm]. destruct (lookup_lt_is_Some_2 counts p.2) as [c Hc]; [done|].
  exists c. split; [done|]. rewrite occ_turns by done. destruct (count_per _ _ Hc). lia.
Qed.

Lemma occ_nth m k cs : (k < occ m cs)%nat → ∃ i chip, cs !! i = Some (chip, m) ∧ occ m (take i cs) = k.
Proof.
  induction cs as [|p cs IH] using rev_ind; [cbn; lia|]. intros Hk. rewrite occ_app, occ_one in Hk.
  destruct (decide (k < occ m cs)%nat) as [Hlt|Hge].
  - destruct (IH Hlt) as (i & chip & Hi & Ho). exists i, chip. pose proof (lookup_lt_Some _ _ _ Hi).
    by rewrite lookup_app_l, take_app_le by lia.
  - case_decide as E; [|lia]. exists (length cs), p.1. rewrite lookup_app_r, Nat.sub_diag by done.
    rewrite take_app_length. split; [destruct p; cbn in *; by subst|lia].
Qed.

(** The chips take the components of a type in equal shares, in order. *)
Lemma turn_chip k : ∀ i chip m, turns k !! i = Some (chip, m) → (occ m (take i (turns k)) / per m)%nat = chip.
Proof.
  induction k as [|k IH]; intros i chip m Hi; [done|].
  assert (Et : turns (S k) = turns k ++ chip_block types k).
  { unfold turns. rewrite seq_S, bind_app. cbn [mbind list_bind]. by rewrite app_nil_r. }
  destruct (elem_turns (S k) (chip, m)) as [_ Hm]; [by eapply list_elem_of_lookup_2|]. cbn [snd] in Hm.
  rewrite Et in Hi |- *. destruct (decide (i < length (turns k))%nat) as [Hlt|Hge].
  - rewrite lookup_app_l in Hi by done. rewrite take_app_le by lia. by apply IH.
  - rewrite lookup_app_r in Hi by lia. rewrite take_app_ge, occ_app, occ_turns by (done || lia).
    pose proof (occ_take m _ _ _ Hi eq_refl) as Ho. rewrite occ_block, decide_True in Ho by done.
    destruct (elem_block types k (chip, m)) as [Ek _]; [by eapply list_elem_of_lookup_2|]. cbn [fst] in Ek. subst chip.
    rewrite Nat.div_add_l, Nat.div_small by lia. lia.
Qed.

(** What every component is attached to. *)
Record attached (l : list (nat * nat * nat)) : Prop := {
  at_once : NoDup ((λ p, p.1.1) <$> l);
  at_range : ∀ d chip m, (d, chip, m) ∈ l → (d < n)%nat ∧ (chip < chips)%nat ∧ (m < types)%nat;
  at_all : ∀ d, (d < n)%nat → ∃ chip m k, (d, chip, m) ∈ l ∧ machines counts !! d = Some (m, Z.of_nat k) ∧ chip = (k / per m)%nat
}.

Lemma switches_per_chip :
  (0 < types)%nat →
  ∃ l, makeSwitchesPerChip counts chip_counts chips DIRECTORY NETWORK ON_CHIP n = Ret (l ≫= spec_of) ∧ attached l.
Proof.
  intros Htypes. destruct (attach_all (turns chips) turns_room) as (st & E & [Hs [He1 He2] [Hc1 Hc2] Hnd]).
  assert (Hat : attached (placed (turns chips))).
  { split; [done| |].
    - intros d chip m (i & Hi & ->)%elem_placed. pose proof (list_elem_of_lookup_2 _ _ _ Hi) as [H1 H2]%elem_turns. cbn in H1, H2.
      split; [|done]. destruct (lookup_lt_is_Some_2 counts m) as [c Hc]; [done|]. apply (base_node m c); [done|].
      pose proof (occ_take m i _ _ Hi eq_refl) as Ho. rewrite occ_turns in Ho by done. destruct (count_per m c Hc). lia.
    - intros d Hd. destruct (base_surj d Hd) as (m & c & k & Hc & Hk & ->). destruct (count_per m c Hc) as (Ec & Hp & _).
      pose proof (lookup_lt_Some _ _ _ Hc) as Hm.
      destruct (occ_nth m k (turns chips)) as (i & chip & Hi & Ho); [rewrite occ_turns by done; lia|].
      exists chip, m, k. split; [apply elem_placed; exists i; by rewrite Ho|]. split; [by apply (machine_at m c)|].
      rewrite <- Ho. symmetry. by apply turn_chip. }
  exists (placed (turns chips)). split; [|exact Hat]. unfold makeSwitchesPerChip.
  change (chip_components counts chip_counts chips) with (turns chips). change (MachineType_NUM counts) with types.
  rewrite E. cbn [mbind outcome_bind].
  replace (forallb id (endpointConnectionExist st)) with true.
  2: { symmetry. apply forallb_forall. intros b (d & Hd)%list_elem_of_In%list_elem_of_lookup. apply (He2 d b Hd).
       destruct (at_all _ Hat d) as (chip & m & k & Hin & _); [by apply lookup_lt_Some in Hd; lia|]. by exists chip, m. }
  cbn [assertb mbind outcome_bind].
  destruct (foldM_seq (λ _ _, True) (λ (_ : unit) mType, c ← (componentCount st).[mType]!; k ← MachineType_base_count counts mType; assertb (c =? k))
    types tt I) as (u & -> & _); [|by rewrite Hs].
  intros m u Hm _. rewrite (at_idx_Some _ _ _ (Hc2 m Hm)). cbn [mbind outcome_bind]. unfold MachineType_base_count.
  destruct (lookup_lt_is_Some_2 counts m) as [c Hc]; [done|]. rewrite Hc, occ_turns by done. cbn [mbind outcome_bind].
  destruct (count_per m c Hc) as [-> _]. rewrite Z.eqb_refl. by exists tt.
Qed.
End attach.

(** ** A network around the switches of the chips *)

Definition link_of '(src, dest, latency, bw) : Link := mkLink src dest latency latency bw.

Definition ends (p : nat * nat * Z * Z) : nat * nat := p.1.1.

Lemma add_links_ok l : ∀ t,
  (∀ p, p ∈ l → ((ends p).1 ≤ m_number_of_switches t + m_nodes t + m_nodes t ∧
                 (ends p).2 ≤ m_number_of_switches t + m_nodes t + m_nodes t)%nat) →
  add_links l t = Ret (mkTopology (m_nodes t) (m_number_of_switches t) (m_links t ++ (link_of <$> l))).
Proof.
  unfold add_links. induction l as [|[[[src dest] latency] bw] l IH]; intros t Hl.
  - destruct t. cbn. by rewrite app_nil_r.
  - cbn [foldM]. destruct (Hl (src, dest, latency, bw)) as [H1 H2]; [set_solver|]. cbn in H1, H2.
    unfold addLink_bw, addLink_weight. rewrite (proj2 (Nat.leb_le src _) H1), (proj2 (Nat.leb_le dest _) H2).
    cbn [assertb mbind outcome_bind]. rewrite IH; cbn [m_nodes m_number_of_switches m_links]; [|intros p Hp; apply Hl; set_solver].
    by rewrite <- app_assoc.
Qed.

Lemma torus_switches_ok k t :
  new_switches k t = (seq (new_id t) k, mkTopology (m_nodes t) (m_number_of_switches t + k) (m_links t)).
Proof.
  unfold new_switches, new_id. induction k as [|k IH]; [destruct t; cbn; by rewrite Nat.add_0_r|].
  rewrite !seq_S, foldl_app, IH. cbn [foldl newSwitchID m_nodes m_number_of_switches m_links].
  f_equal; [do 2 f_equal; lia|f_equal; lia].
Qed.

(** Steps of one weight. *)
Lemma linked_steps t (f : nat → nat) w m :
  (∀ k, (k < m)%nat → ∃ l, l ∈ m_links t ∧ l_src l = f k ∧ l_dest l = f (S k) ∧ l_weight l = w) →
  linked t (f 0%nat) (f m) (Z.of_nat m * w).
Proof.
  induction m as [|m IH]; intros Hf; [constructor|].
  destruct (Hf m) as (l & Hl & Hs & Hd & Hw); [lia|]. replace (Z.of_nat (S m) * w) with (Z.of_nat m * w + l_weight l) by lia.
  eapply linked_snoc; [apply IH|done..]. intros k Hk. apply Hf. lia.
Qed.

Lemma fmap_of_bind {A B C} (f : B → C) (g : A → list B) (l : list A) : f <$> (l ≫= g) = l ≫= λ x, f <$> g x.
Proof. induction l as [|x l IH]; [done|]. cbn. by rewrite fmap_app, <- IH. Qed.

Lemma ends_link (l : list (nat * nat * Z * Z)) : (λ lk, (l_src lk, l_dest lk)) <$> (link_of <$> l) = ends <$> l.
Proof. rewrite <- list_fmap_compose. apply list_fmap_ext. by intros i [[[a b] w] bw] _. Qed.

Section net.
Variables (counts : list Z) (chips DIRECTORY : nat) (NETWORK ON_CHIP : Z).
Variables (per_chip : nat → nat) (l : list (nat * nat * nat)) (inner : list (nat * nat * Z * Z)) (K : nat) (reach : Z).
Hypothesis Hcounts : counts_ok counts.
Let n := length (machines counts).
Notation spec_of := (spec_of counts DIRECTORY NETWORK ON_CHIP).
Notation latency_of := (latency_of DIRECTORY NETWORK ON_CHIP).

Hypothesis Hl_once : NoDup ((λ p, p.1.1) <$> l).
Hypothesis Hl_range : ∀ d chip m, (d, chip, m) ∈ l → (d < n)%nat ∧ (chip < chips)%nat.
Hypothesis Hl_all : ∀ d, (d < n)%nat → ∃ chip m, (d, chip, m) ∈ l.
Hypothesis Hn : (0 < n)%nat.
Hypothesis Hlat : 1 ≤ NETWORK < INFINITE_LATENCY ∧ 1 ≤ ON_CHIP < INFINITE_LATENCY.
Hypothesis Hchips : (chips ≤ K)%nat.
Hypothesis Hinner : ∀ p, p ∈ inner →
  (2 * n ≤ (ends p).1 < 2 * n + K ∧ 2 * n ≤ (ends p).2 < 2 * n + K ∧ (ends p).1 ≠ (ends p).2)%nat ∧
  1 ≤ p.1.2 < INFINITE_LATENCY.
Hypothesis Hinner_once : NoDup (ends <$> inner).

Definition net_of : Topology := mkTopology n K (link_of <$> (l ≫= spec_of) ++ inner).

Lemma latency_range m : 1 ≤ latency_of m < INFINITE_LATENCY.
Proof. unfold TopologyRoutes.latency_of. destruct (m =? DIRECTORY)%nat; lia. Qed.

Lemma add_net : add_links ((l ≫= spec_of) ++ inner) (mkTopology n K []) = Ret net_of.
Proof.
  rewrite add_links_ok; [done|]. cbn [m_nodes m_number_of_switches]. intros p [Hp|Hp]%elem_of_app.
  - apply list_elem_of_bind in Hp as ([[d chip] m] & Hp & Hin). destruct (Hl_range _ _ _ Hin) as [H1 H2]. fold n in Hp.
    cbn in Hp. fold n in Hp. apply elem_of_cons in Hp as [-> | Hp%list_elem_of_singleton]; [cbn; lia|]. subst p. cbn. lia.
  - destruct (Hinner p Hp). lia.
Qed.

Lemma elem_net lk : lk ∈ m_links net_of ↔
  (∃ d chip m, (d, chip, m) ∈ l ∧ (lk = mkLink d (chip + n * 2) (latency_of m) (latency_of m) (Z.of_nat d) ∨
     lk = mkLink (chip + n * 2) (d + n) (latency_of m) (latency_of m) (bw_of DIRECTORY m))) ∨
  (∃ p, p ∈ inner ∧ lk = link_of p).
Proof.
  cbn [m_links net_of]. rewrite list_elem_of_fmap. setoid_rewrite elem_of_app. split.
  - intros (p & -> & [([[d chip] m] & Hp & Hin)%list_elem_of_bind|Hp]); [|right; by exists p].
    left. exists d, chip, m. split; [done|]. cbn in Hp. fold n in Hp.
    apply elem_of_cons in Hp as [-> | ->%list_elem_of_singleton]; [by left|by right].
  - intros [(d & chip & m & Hin & Hlk)|(p & Hp & ->)]; [|exists p; split; [done|by right]].
    destruct Hlk as [-> | ->]; (eexists; split; [|left; apply list_elem_of_bind; exists (d, chip, m); split; [|exact Hin]]);
      [|cbn; apply list_elem_of_here| |cbn; apply list_elem_of_further, list_elem_of_here]; reflexivity.
Qed.

Lemma net_links_ok : links_ok counts net_of.
Proof.
  split.
  - done.
  - destruct (Hl_all 0%nat Hn) as (chip & m & Hin).
    destruct (max_switch_id_ge net_of (mkLink (chip + n * 2) (0 + n) (latency_of m) (latency_of m) (bw_of DIRECTORY m))) as [H _].
    { apply elem_net. left. exists 0%nat, chip, m. split; [done|by right]. } cbn [m_nodes net_of] in *. cbn [l_src] in H. lia.
  - intros lk Hlk. cbn [m_nodes net_of]. apply elem_net in Hlk as [(d & chip & m & Hin & [-> | ->])|([[[a b] w] bw] & Hp & ->)]; cbn.
    + destruct (Hl_range _ _ _ Hin). lia.
    + destruct (Hl_range _ _ _ Hin). lia.
    + destruct (Hinner _ Hp) as [H _]. cbn in H. lia.
  - intros lk Hlk. unfold INFINITE_LATENCY in *. apply elem_net in Hlk as [(d & chip & m & Hin & [-> | ->])|([[[a b] w] bw] & Hp & ->)]; cbn.
    + pose proof (latency_range m). unfold INFINITE_LATENCY in *. lia.
    + pose proof (latency_range m). unfold INFINITE_LATENCY in *. lia.
    + destruct (Hinner _ Hp) as [_ H]. cbn in H. lia.
  - cbn [m_links net_of]. rewrite ends_link, fmap_app, fmap_of_bind.
    apply NoDup_app. split; [|split; [|done]].
    + apply NoDup_bind.
      * intros [[d c] m] [[d' c'] m'] y Hin Hin' Hy Hy'. cbn in Hy, Hy'. fold n in Hy, Hy'.
        destruct (Hl_range _ _ _ Hin) as [R1 _], (Hl_range _ _ _ Hin') as [R2 _].
        assert (d = d') as <-.
        { apply elem_of_cons in Hy as [-> | ->%list_elem_of_singleton];
            apply elem_of_cons in Hy' as [[= E1 E2]|[= E1 E2]%list_elem_of_singleton]; lia. }
        apply list_elem_of_lookup in Hin as [i Hi], Hin' as [j Hj].
        assert (i = j) as <- by (apply (NoDup_lookup _ i j d Hl_once); rewrite list_lookup_fmap, ?Hi, ?Hj; done). congruence.
      * intros [[d c] m] Hin. destruct (Hl_range _ _ _ Hin) as [R1 _]. cbn. fold n.
        apply NoDup_cons. split; [|apply NoDup_singleton]. intros [= E1 E2]%list_elem_of_singleton. lia.
      * by apply NoDup_fmap_1 in Hl_once.
    + intros e ([[d c] m] & He & Hin)%list_elem_of_bind (p & -> & Hp)%list_elem_of_fmap.
      destruct (Hl_range _ _ _ Hin) as [R1 _]. destruct (Hinner p Hp) as [R _]. cbn in He. fold n in He.
      apply elem_of_cons in He as [E|E%list_elem_of_singleton]; rewrite E in R; cbn in R; lia.
Qed.

(** From any component to any other one. *)
Hypothesis Hreach : ∀ c c', (c < chips)%nat → (c' < chips)%nat → ∃ w, w ≤ reach ∧ linked net_of (c + n * 2) (c' + n * 2) w.

Lemma net_linked a b : (a < n)%nat → (b < n)%nat →
  ∃ w, w ≤ 2 * Z.max NETWORK ON_CHIP + reach ∧ linked net_of a (n + b) w.
Proof.
  intros Ha Hb. destruct (Hl_all a Ha) as (ca & ma & Hina), (Hl_all b Hb) as (cb & mb & Hinb).
  destruct (Hl_range _ _ _ Hina) as [_ Ra], (Hl_range _ _ _ Hinb) as [_ Rb]. destruct (Hreach ca cb Ra Rb) as (w & Hw & Hp).
  assert (Hlm : ∀ m, latency_of m ≤ Z.max NETWORK ON_CHIP).
  { intros m. unfold TopologyRoutes.latency_of. destruct (m =? DIRECTORY)%nat; lia. }
  pose proof (Hlm ma). pose proof (Hlm mb).
  exists (latency_of ma + w + latency_of mb). split; [lia|]. rewrite (Nat.add_comm n b). rewrite <- Z.add_assoc.
  apply (linked_step net_of (mkLink a (ca + n * 2) (latency_of ma) (latency_of ma) (Z.of_nat a))).
  { apply elem_net. left. exists a, ca, ma. split; [done|by left]. }
  cbn [l_dest]. eapply (linked_snoc net_of _ _ _ _ (mkLink (cb + n * 2) (b + n) (latency_of mb) (latency_of mb) (bw_of DIRECTORY mb)));
    [exact Hp| |done|done].
  apply elem_net. left. exists b, cb, mb. split; [done|by right].
Qed.
End net.

(** ** Point to point *)

Section point.
Variables (n chips : nat) (NETWORK ON_CHIP : Z).
Notation low c := (c + n * 2)%nat.
Notation high c := (c + n * 2 + chips)%nat.

Definition to_chip : list (nat * nat * Z * Z) :=
  chip ← seq 0 chips; both_ways (chip + n * 2) (chip + n * 2 + chips) ON_CHIP 10.

Definition between_chips : list (nat * nat * Z * Z) :=
  chip ← seq 0 chips; other_chip ← seq (S chip) (chips - S chip);
  both_ways (chip + n * 2 + chips) (other_chip + n * 2 + chips) NETWORK 1.

Lemma elem_both_ways a b w bw p : p ∈ both_ways a b w bw ↔ p = (a, b, w, bw) ∨ p = (b, a, w, bw).
Proof. unfold both_ways. by rewrite elem_of_cons, list_elem_of_singleton. Qed.

Lemma elem_to_chip p : p ∈ to_chip ↔ ∃ c, (c < chips)%nat ∧
  (p = (low c, high c, ON_CHIP, 10) ∨ p = (high c, low c, ON_CHIP, 10)).
Proof.
  unfold to_chip. rewrite list_elem_of_bind. split.
  - intros (c & Hp%elem_both_ways & Hc%elem_of_seq). exists c. split; [lia|done].
  - intros (c & Hc & Hp). exists c. split; [by apply elem_both_ways|apply elem_of_seq; lia].
Qed.

Lemma elem_between p : p ∈ between_chips ↔ ∃ c o, (c < o < chips)%nat ∧
  (p = (high c, high o, NETWORK, 1) ∨ p = (high o, high c, NETWORK, 1)).
Proof.
  unfold between_chips. rewrite list_elem_of_bind. setoid_rewrite list_elem_of_bind. split.
  - intros (c & (o & Hp%elem_both_ways & Ho%elem_of_seq) & Hc%elem_of_seq). exists c, o. split; [lia|done].
  - intros (c & o & Hc & Hp). exists c. split; [|apply elem_of_seq; lia].
    exists o. split; [by apply elem_both_ways|apply elem_of_seq; lia].
Qed.

Lemma both_ways_once a b w bw : a ≠ b → NoDup (ends <$> both_ways a b w bw).
Proof. intros Hne. cbn. apply NoDup_cons. split; [|apply NoDup_singleton]. intros [= E1 E2]%list_elem_of_singleton. done. Qed.

Lemma elem_ends_both a b w bw e : e ∈ ends <$> both_ways a b w bw → e = (a, b) ∨ e = (b, a).
Proof. cbn. by rewrite elem_of_cons, list_elem_of_singleton. Qed.

Lemma point_once : NoDup (ends <$> to_chip ++ between_chips).
Proof.
  rewrite fmap_app. apply NoDup_app. split; [|split].
  - unfold to_chip. rewrite fmap_of_bind. apply NoDup_bind.
    + intros c c' e Hc%elem_of_seq Hc'%elem_of_seq He%elem_ends_both He'%elem_ends_both.
      destruct He as [-> | ->], He' as [E|E]; injection E; lia.
    + intros c Hc%elem_of_seq. apply both_ways_once. lia.
    + apply NoDup_seq.
  - intros e (p & -> & Hp)%list_elem_of_fmap (q & E & Hq)%list_elem_of_fmap.
    apply elem_to_chip in Hp as (c & Hc & Hp). apply elem_between in Hq as (c' & o & Ho & Hq).
    destruct Hp as [-> | ->], Hq as [-> | ->]; injection E; lia.
  - unfold between_chips. rewrite fmap_of_bind. apply NoDup_bind.
    + intros c c' e Hc%elem_of_seq Hc'%elem_of_seq He He'. rewrite fmap_of_bind in He, He'.
      apply list_elem_of_bind in He as (o & He%elem_ends_both & Ho%elem_of_seq).
      apply list_elem_of_bind in He' as (o' & He'%elem_ends_both & Ho'%elem_of_seq).
      destruct He as [-> | ->], He' as [E|E]; injection E; lia.
    + intros c Hc%elem_of_seq. rewrite fmap_of_bind. apply NoDup_bind.
      * intros o o' e Ho%elem_of_seq Ho'%elem_of_seq He%elem_ends_both He'%elem_ends_both.
        destruct He as [-> | ->], He' as [E|E]; injection E; lia.
      * intros o Ho%elem_of_seq. apply both_ways_once. lia.
      * apply NoDup_seq.
    + apply NoDup_seq.
Qed.

Lemma point_reach t c c' :
  (∀ p, p ∈ to_chip ++ between_chips → link_of p ∈ m_links t) → 0 ≤ NETWORK → 0 ≤ ON_CHIP →
  (c < chips)%nat → (c' < chips)%nat → ∃ w, w ≤ 2 * ON_CHIP + NETWORK ∧ linked t (c + n * 2) (c' + n * 2) w.
Proof.
  intros Hl HN HO Hc Hc'. destruct (decide (c = c')) as [->|Hne]; [exists 0; split; [lia|constructor]|].
  assert (Hmid : link_of (high c, high c', NETWORK, 1) ∈ m_links t).
  { apply Hl, elem_of_app. right. apply elem_between. destruct (decide (c < c')%nat); [exists c, c'|exists c', c]; split; lia || auto. }
  assert (Hup : link_of (low c, high c, ON_CHIP, 10) ∈ m_links t).
  { apply Hl, elem_of_app. left. apply elem_to_chip. exists c. auto. }
  assert (Hdown : link_of (high c', low c', ON_CHIP, 10) ∈ m_links t).
  { apply Hl, elem_of_app. left. apply elem_to_chip. exists c'. auto. }
  exists (ON_CHIP + (NETWORK + (ON_CHIP + 0))). split; [lia|].
  apply (linked_step t (link_of (low c, high c, ON_CHIP, 10))); [done|].
  apply (linked_step t (link_of (high c, high c', NETWORK, 1))); [done|].
  apply (linked_step t (link_of (high c', low c', ON_CHIP, 10))); [done|]. constructor.
Qed.
End point.

(** ** The torus *)

Section torus.
Variables (n side : nat) (NETWORK : Z).
Hypotheses (Hside : (3 ≤ side)%nat) (Hn : ((2 * n) mod side = 0)%nat).
Let T := (side * side)%nat.

Definition torus_links : list (nat * nat * Z * Z) :=
  node ← seq (2 * n) T; (λ next, (node, next, NETWORK, 1)) <$> torus_neighbours n T side node.

(** The neighbours of the switch in a row and a column. *)
Definition at_cell (r c : nat) : nat := (c + r * side + n * 2)%nat.

Lemma mod_cell r c : (c < side)%nat → (at_cell r c mod side = c)%nat.
Proof.
  intros Hc. unfold at_cell. apply Nat.Div0.div_exact in Hn.
  replace (c + r * side + n * 2)%nat with (c + (r + (2 * n) / side) * side)%nat by lia.
  rewrite Nat.Div0.mod_add. by apply Nat.mod_small.
Qed.

Lemma mod_next_cell r c : (c < side)%nat → ((at_cell r c + 1) mod side = if decide (c + 1 = side) then 0 else c + 1)%nat.
Proof.
  intros Hc. replace (at_cell r c + 1)%nat with (at_cell r 0 + (c + 1))%nat by (unfold at_cell; lia).
  rewrite Nat.Div0.add_mod, mod_cell, Nat.add_0_l, Nat.Div0.mod_mod by lia. case_decide as E; [rewrite E; apply Nat.Div0.mod_same|].
  apply Nat.mod_small. lia.
Qed.

Lemma neighbours_cell r c : (r < side)%nat → (c < side)%nat →
  torus_neighbours n T side (at_cell r c) =
    [at_cell r (if decide (c = 0)%nat then side - 1 else c - 1); at_cell r (if decide (c + 1 = side)%nat then 0 else c + 1);
     at_cell (if decide (r = 0)%nat then side - 1 else r - 1) c; at_cell (if decide (r + 1 = side)%nat then 0 else r + 1) c]%nat.
Proof.
  intros Hr Hc. unfold torus_neighbours. rewrite mod_cell, mod_next_cell by done.
  assert (ET : (side * side = (side - 1) * side + side)%nat) by nia. unfold T. f_equal; [|f_equal; [|f_equal; [|f_equal]]].
  - destruct (Nat.eqb_spec c 0); case_decide; try lia; unfold at_cell; lia.
  - case_decide as E; [rewrite Nat.eqb_refl; unfold at_cell; lia|]. rewrite (proj2 (Nat.eqb_neq _ 0)) by lia. unfold at_cell. lia.
  - case_decide as E.
    + subst r. rewrite (proj2 (Nat.ltb_lt _ _)) by (unfold at_cell; lia). unfold at_cell.
      clear -ET. generalize dependent ((side - 1) * side)%nat. generalize dependent (side * side)%nat. lia.
    + destruct r as [|q]; [done|]. replace (S q - 1)%nat with q by lia.
      rewrite (proj2 (Nat.ltb_ge _ _)) by (unfold at_cell; nia). unfold at_cell. nia.
  - case_decide as E.
    + rewrite (proj2 (Nat.leb_le _ _)) by (unfold at_cell; nia). unfold at_cell. nia.
    + rewrite (proj2 (Nat.leb_gt _ _)) by (unfold at_cell; nia). unfold at_cell. nia.
Qed.

(** Every switch is in one cell. *)
Lemma cell_of i : i ∈ seq (2 * n) T → ∃ r c, (r < side)%nat ∧ (c < side)%nat ∧ i = at_cell r c.
Proof.
  intros Hi%elem_of_seq. exists ((i - 2 * n) / side)%nat, ((i - 2 * n) mod side)%nat.
  pose proof (Nat.div_mod (i - 2 * n) side ltac:(lia)) as E. unfold T in Hi.
  split; [apply Nat.Div0.div_lt_upper_bound; lia|]. split; [apply Nat.mod_upper_bound; lia|]. unfold at_cell. lia.
Qed.

Lemma cell_in r c : (r < side)%nat → (c < side)%nat → (2 * n ≤ at_cell r c < 2 * n + T)%nat.
Proof. intros Hr Hc. unfold at_cell, T. nia. Qed.

Lemma cell_inj r c r' c' : (c < side)%nat → (c' < side)%nat → at_cell r c = at_cell r' c' → r = r' ∧ c = c'.
Proof.
  intros Hc Hc' E. assert (c = c') as <- by (by rewrite <- (mod_cell r c Hc), E, mod_cell). split; [|done].
  unfold at_cell in E. nia.
Qed.

Lemma neighbours_ok r c : (r < side)%nat → (c < side)%nat →
  NoDup (torus_neighbours n T side (at_cell r c)) ∧
  ∀ x, x ∈ torus_neighbours n T side (at_cell r c) → x ≠ at_cell r c ∧ (2 * n ≤ x < 2 * n + T)%nat.
Proof.
  intros Hr Hc. rewrite neighbours_cell by done.
  set (c1 := if decide (c = 0)%nat then (side - 1)%nat else (c - 1)%nat).
  set (c2 := if decide (c + 1 = side)%nat then 0%nat else (c + 1)%nat).
  set (r1 := if decide (r = 0)%nat then (side - 1)%nat else (r - 1)%nat).
  set (r2 := if decide (r + 1 = side)%nat then 0%nat else (r + 1)%nat).
  assert (Hb : (c1 < side ∧ c2 < side ∧ r1 < side ∧ r2 < side ∧ c1 ≠ c ∧ c2 ≠ c ∧ r1 ≠ r ∧ r2 ≠ r ∧ c1 ≠ c2 ∧ r1 ≠ r2)%nat).
  { unfold c1, c2, r1, r2. repeat case_decide; lia. }
  clearbody c1 c2 r1 r2. destruct Hb as (B1 & B2 & B3 & B4 & B5 & B6 & B7 & B8 & B9 & B10). split.
  - assert (Hne : ∀ r c r' c', (c < side)%nat → (c' < side)%nat → r ≠ r' ∨ c ≠ c' → at_cell r c ≠ at_cell r' c').
    { intros x y x' y' Hy Hy' H E. apply cell_inj in E as [-> ->]; [|done..]. by destruct H. }
    repeat (apply NoDup_cons; split); rewrite ?not_elem_of_cons; [..|constructor];
      (repeat split; try apply not_elem_of_nil; apply Hne; auto).
  - intros x Hx. rewrite !elem_of_cons in Hx. destruct Hx as [-> | [-> | [-> | [-> | []%not_elem_of_nil]]]];
      (split; [intros E; (apply cell_inj in E; [|assumption..]); destruct E; congruence|by apply cell_in]).
Qed.

Lemma torus_once : NoDup (ends <$> torus_links).
Proof.
  unfold torus_links. rewrite fmap_of_bind. apply NoDup_bind.
  - intros i j e _ _ (p & -> & (x & -> & _)%list_elem_of_fmap)%list_elem_of_fmap
      (q & E & (y & -> & _)%list_elem_of_fmap)%list_elem_of_fmap. by injection E.
  - intros i Hi. destruct (cell_of i Hi) as (r & c & Hr & Hc & ->). rewrite <- list_fmap_compose.
    apply NoDup_fmap; [intros x y [=]; done|]. by apply neighbours_ok.
  - apply NoDup_seq.
Qed.

Lemma torus_ends p : 1 ≤ NETWORK < INFINITE_LATENCY → p ∈ torus_links →
  (2 * n ≤ (ends p).1 < 2 * n + T ∧ 2 * n ≤ (ends p).2 < 2 * n + T ∧ (ends p).1 ≠ (ends p).2)%nat ∧
  1 ≤ p.1.2 < INFINITE_LATENCY.
Proof.
  intros HN (i & (x & -> & Hx)%list_elem_of_fmap & Hi)%list_elem_of_bind.
  destruct (cell_of i Hi) as (r & c & Hr & Hc & ->). destruct (neighbours_ok r c Hr Hc) as [_ Hok]. destruct (Hok x Hx) as [H1 H2].
  pose proof (cell_in r c Hr Hc). cbn. split; [|done]. split; [done|]. split; [done|]. congruence.
Qed.

Section moves.
Variable t : Topology.
Hypothesis Hl : ∀ p, p ∈ torus_links → link_of p ∈ m_links t.

Lemma move r c x : (r < side)%nat → (c < side)%nat → x ∈ torus_neighbours n T side (at_cell r c) →
  ∃ lk, lk ∈ m_links t ∧ l_src lk = at_cell r c ∧ l_dest lk = x ∧ l_weight lk = NETWORK.
Proof.
  intros Hr Hc Hx. exists (link_of (at_cell r c, x, NETWORK, 1)). split; [|done]. apply Hl, list_elem_of_bind.
  exists (at_cell r c). split; [apply list_elem_of_fmap; by exists x|]. apply elem_of_seq. by apply cell_in.
Qed.

(** Along a row, and along a column. *)
Lemma move_row r c c' : (r < side)%nat → (c < side)%nat → (c' < side)%nat →
  ∃ k, (k < side)%nat ∧ linked t (at_cell r c) (at_cell r c') (Z.of_nat k * NETWORK).
Proof.
  intros Hr Hc Hc'. destruct (Nat.le_ge_cases c c') as [H|H].
  - exists (c' - c)%nat. split; [lia|].
    pose proof (linked_steps t (λ k, at_cell r (c + k)) NETWORK (c' - c)) as Hs. cbn in Hs.
    rewrite Nat.add_0_r in Hs. replace (c + (c' - c))%nat with c' in Hs by lia. apply Hs. intros k Hk.
    apply move; [lia|lia|]. rewrite neighbours_cell by lia. rewrite (decide_False (P := (c + k + 1 = side)%nat)) by lia.
    replace (c + S k)%nat with (c + k + 1)%nat by lia. set_solver.
  - exists (c - c')%nat. split; [lia|].
    pose proof (linked_steps t (λ k, at_cell r (c - k)) NETWORK (c - c')) as Hs. cbn in Hs.
    rewrite Nat.sub_0_r in Hs. replace (c - (c - c'))%nat with c' in Hs by lia. apply Hs. intros k Hk.
    apply move; [lia|lia|]. rewrite neighbours_cell by lia. rewrite (decide_False (P := (c - k = 0)%nat)) by lia.
    replace (c - S k)%nat with (c - k - 1)%nat by lia. set_solver.
Qed.

Lemma move_column r r' c : (r < side)%nat → (r' < side)%nat → (c < side)%nat →
  ∃ k, (k < side)%nat ∧ linked t (at_cell r c) (at_cell r' c) (Z.of_nat k * NETWORK).
Proof.
  intros Hr Hr' Hc. destruct (Nat.le_ge_cases r r') as [H|H].
  - exists (r' - r)%nat. split; [lia|].
    pose proof (linked_steps t (λ k, at_cell (r + k) c) NETWORK (r' - r)) as Hs. cbn in Hs.
    rewrite Nat.add_0_r in Hs. replace (r + (r' - r))%nat with r' in Hs by lia. apply Hs. intros k Hk.
    apply move; [lia|lia|]. rewrite neighbours_cell by lia. rewrite (decide_False (P := (r + k + 1 = side)%nat)) by lia.
    replace (r + S k)%nat with (r + k + 1)%nat by lia. set_solver.
  - exists (r - r')%nat. split; [lia|].
    pose proof (linked_steps t (λ k, at_cell (r - k) c) NETWORK (r - r')) as Hs. cbn in Hs.
    rewrite Nat.sub_0_r in Hs. replace (r - (r - r'))%nat with r' in Hs by lia. apply Hs. intros k Hk.
    apply move; [lia|lia|]. rewrite neighbours_cell by lia. rewrite (decide_False (P := (r - k = 0)%nat)) by lia.
    replace (r - S k)%nat with (r - k - 1)%nat by lia. set_solver.
Qed.

Lemma torus_reach i j : 0 ≤ NETWORK → (i < T)%nat → (j < T)%nat →
  ∃ w, w ≤ 2 * Z.of_nat side * NETWORK ∧ linked t (i + n * 2) (j + n * 2) w.
Proof.
  intros HN Hi Hj. destruct (cell_of (i + n * 2)) as (r & c & Hr & Hc & ->); [apply elem_of_seq; lia|].
  destruct (cell_of (j + n * 2)) as (r' & c' & Hr' & Hc' & ->); [apply elem_of_seq; lia|].
  destruct (move_row r c c' Hr Hc Hc') as (k & Hk & H1). destruct (move_column r r' c' Hr Hr' Hc') as (k' & Hk' & H2).
  eexists. split; [|eapply linked_app; [exact H1|exact H2]]. nia.
Qed.
End moves.
End torus.

(** ** Every topology *)

Section topologies.
Variables (counts chip_counts : list Z) (chips DIRECTORY : nat) (NETWORK ON_CHIP : Z).
Hypothesis Hcounts : counts_ok counts.
Hypothesis Hchip : ∀ m c, counts !! m = Some c → ∃ k, chip_counts !! m = Some k ∧ 0 ≤ k ∧ c = Z.of_nat chips * k.
Hypothesis Hlat : 1 ≤ NETWORK < INFINITE_LATENCY ∧ 1 ≤ ON_CHIP < INFINITE_LATENCY.
Let n := length (machines counts).
Let types := length counts.
Hypothesis Hn : (2 ≤ n)%nat.

(** A network whose inputs all lead to all outputs. *)
Definition connects (t : Topology) : Prop :=
  m_nodes t = n ∧ links_ok counts t ∧ ∀ a b, (a < n)%nat → (b < n)%nat → ∃ w, linked t a (n + b) w ∧ w < INFINITE_LATENCY.

(** A component and the switch of its chip, in both directions. *)
Definition on_its_chip (t : Topology) : Prop := ∀ d m k,
  machines counts !! d = Some (m, Z.of_nat k) →
  ∃ bw, let switch := (k / per chip_counts m + n * 2)%nat in let w := latency_of DIRECTORY NETWORK ON_CHIP m in
    mkLink d switch w w (Z.of_nat d) ∈ m_links t ∧ mkLink switch (d + n) w w bw ∈ m_links t.

Lemma types_pos : (0 < types)%nat.
Proof.
  destruct (decide (types = 0%nat)) as [E|E]; [|lia]. unfold types in E. apply nil_length_inv in E.
  unfold n in Hn. rewrite E in Hn. cbn in Hn. lia.
Qed.

Lemma switches_count t : m_nodes t = n → switches_of_nodes counts t = Ret (n / types)%nat.
Proof.
  intros E. unfold switches_of_nodes, MachineType_base_level, MachineType_NUM. fold types. rewrite Nat.leb_refl.
  cbn [mbind outcome_bind]. pose proof types_pos. by rewrite (proj2 (Nat.eqb_neq types 0)), E by lia.
Qed.

(** Links around the switches of the chips make such a network. *)
Lemma net_connects l inner K reach :
  attached counts chip_counts chips l →
  (chips ≤ K)%nat →
  (∀ p, p ∈ inner → (2 * n ≤ (ends p).1 < 2 * n + K ∧ 2 * n ≤ (ends p).2 < 2 * n + K ∧ (ends p).1 ≠ (ends p).2)%nat ∧
     1 ≤ p.1.2 < INFINITE_LATENCY) →
  NoDup (ends <$> inner) →
  (∀ c c', (c < chips)%nat → (c' < chips)%nat →
     ∃ w, w ≤ reach ∧ linked (net_of counts DIRECTORY NETWORK ON_CHIP l inner K) (c + n * 2) (c' + n * 2) w) →
  2 * Z.max NETWORK ON_CHIP + reach < INFINITE_LATENCY →
  ∃ t, add_links ((l ≫= spec_of counts DIRECTORY NETWORK ON_CHIP) ++ inner) (mkTopology n K []) = Ret t ∧
    connects t ∧ on_its_chip t.
Proof.
  intros [Ho Hr Ha] HK Hi Hio Hreach Hw. exists (net_of counts DIRECTORY NETWORK ON_CHIP l inner K).
  assert (Hr' : ∀ d chip m, (d, chip, m) ∈ l → (d < n)%nat ∧ (chip < chips)%nat).
  { intros d chip m Hin. by destruct (Hr d chip m Hin) as (H1 & H2 & _). }
  assert (Ha' : ∀ d, (d < n)%nat → ∃ chip m, (d, chip, m) ∈ l).
  { intros d Hd. destruct (Ha d Hd) as (chip & m & k & H & _). by exists chip, m. }
  assert (Hn0 : (0 < n)%nat) by lia.
  split; [exact (add_net counts chips DIRECTORY NETWORK ON_CHIP l inner K Hr' Hn0 HK Hi)|]. split; [split; [done|split]|].
  - exact (net_links_ok counts chips DIRECTORY NETWORK ON_CHIP l inner K Ho Hr' Ha' Hn0 Hlat HK Hi Hio).
  - intros a b HA HB.
    destruct (net_linked counts chips DIRECTORY NETWORK ON_CHIP l inner K reach Hr' Ha' Hn0 HK Hreach a b HA HB) as (w & H1 & H2).
    exists w. split; [done|]. lia.
  - intros d m k Hd. pose proof (lookup_lt_Some _ _ _ Hd) as Hlt. destruct (Ha d Hlt) as (chip & m' & k' & Hin & Hd' & Ec).
    rewrite Hd in Hd'. injection Hd' as <- Ek. apply Nat2Z.inj in Ek as <-. subst chip.
    exists (bw_of DIRECTORY m). split; apply elem_net; left; exists d, (k / per chip_counts m)%nat, m; (split; [done|]); [by left|by right].
Qed.

Lemma torus_connects side :
  (3 ≤ side)%nat → (n = types * (side * side))%nat → (chips ≤ side * side)%nat →
  2 * Z.max NETWORK ON_CHIP + 2 * Z.of_nat side * NETWORK < INFINITE_LATENCY →
  ∃ t, make2DTorus counts chip_counts chips DIRECTORY NETWORK ON_CHIP (mkTopology n 0 []) = Ret t ∧ connects t ∧ on_its_chip t.
Proof.
  intros Hs En Hc Hw. unfold make2DTorus. rewrite (switches_count (mkTopology n 0 []) eq_refl). cbn [mbind outcome_bind].
  pose proof types_pos as Ht. rewrite torus_switches_ok. cbn [m_nodes m_number_of_switches m_links new_id].
  assert (ET : (n / types = side * side)%nat) by (rewrite En, Nat.mul_comm; apply Nat.div_mul; lia).
  rewrite ET, Nat.sqrt_square.
  destruct (switches_per_chip counts chip_counts chips DIRECTORY NETWORK ON_CHIP Hcounts Hchip Ht) as (l & El & Hl).
  fold n in El. rewrite El. cbn [mbind outcome_bind].
  assert (Hmod : ((2 * n) mod side = 0)%nat).
  { rewrite En. replace (2 * (types * (side * side)))%nat with (2 * types * side * side)%nat by lia. apply Nat.Div0.mod_mul. }
  replace (new_id (mkTopology n 0 [])) with (2 * n)%nat by (unfold new_id; cbn; lia).
  change (seq (2 * n) (side * side) ≫= _) with (torus_links n side NETWORK).
  apply (net_connects l (torus_links n side NETWORK) (side * side) (2 * Z.of_nat side * NETWORK) Hl Hc).
  - intros p Hp. exact (torus_ends n side NETWORK Hs Hmod p (proj1 Hlat) Hp).
  - by apply torus_once.
  - intros c c' Hcc Hcc'. apply torus_reach; [done|done| |lia|lia|lia].
    intros p Hp. cbn [m_links net_of]. apply list_elem_of_fmap. exists p. split; [done|]. apply elem_of_app. by right.
  - done.
Qed.

Lemma point_connects :
  (chips ≤ n / types)%nat → 2 * Z.max NETWORK ON_CHIP + (2 * ON_CHIP + NETWORK) < INFINITE_LATENCY →
  ∃ t, makePtToPt counts chip_counts chips DIRECTORY NETWORK ON_CHIP (mkTopology n 0 []) = Ret t ∧ connects t ∧ on_its_chip t.
Proof.
  intros Hc Hw. unfold makePtToPt. rewrite (switches_count (mkTopology n 0 []) eq_refl). cbn [mbind outcome_bind].
  pose proof types_pos as Ht. rewrite torus_switches_ok. cbn [m_nodes m_number_of_switches m_links].
  destruct (switches_per_chip counts chip_counts chips DIRECTORY NETWORK ON_CHIP Hcounts Hchip Ht) as (l & El & Hl).
  fold n in El. rewrite El. cbn [mbind outcome_bind]. rewrite <- app_assoc.
  apply (net_connects l (to_chip n chips ON_CHIP ++ between_chips n chips NETWORK) (0 + 2 * (n / types)) (2 * ON_CHIP + NETWORK) Hl).
  - lia.
  - intros p [Hp|Hp]%elem_of_app.
    + apply elem_to_chip in Hp as (c & Hlt & [-> | ->]); cbn; lia.
    + apply elem_between in Hp as (c & o & Hlt & [-> | ->]); cbn; lia.
  - apply point_once.
  - intros c c' Hcc Hcc'. apply (point_reach n chips NETWORK ON_CHIP); [|lia|lia|done|done].
    intros p Hp. cbn [m_links net_of]. apply list_elem_of_fmap. exists p. split; [done|]. apply elem_of_app. by right.
  - done.
Qed.

Lemma tree_connects fan :
  (2 ≤ fan)%nat → 2 * Z.of_nat n * NETWORK < INFINITE_LATENCY →
  ∃ t, makeHierarchicalSwitch n fan NETWORK (mkTopology n 0 []) = Ret t ∧ connects t.
Proof.
  intros Hf Hw. destruct Hlat as [[HN _] _].
  destruct (hierarchical_tree n fan NETWORK Hn Hf HN counts n) as (t & E & Hnt & Ht & Hp); [done..|].
  exists t. split; [done|]. by split.
Qed.
End topologies.

(** What a built-in topology asks of the configuration. *)
Definition topology_fits (counts : list Z) (chips : nat) (NETWORK ON_CHIP : Z) (fan : nat) (kind : TopologyType) : Prop :=
  let n := length (machines counts) in
  match kind with
  | TORUS_2D => ∃ side, (3 ≤ side)%nat ∧ (n = length counts * (side * side))%nat ∧ (chips ≤ side * side)%nat ∧
      2 * Z.max NETWORK ON_CHIP + 2 * Z.of_nat side * NETWORK < INFINITE_LATENCY
  | PT_TO_PT => (chips ≤ n / length counts)%nat ∧ 2 * Z.max NETWORK ON_CHIP + (2 * ON_CHIP + NETWORK) < INFINITE_LATENCY
  | HIERARCHICAL_SWITCH => (2 ≤ fan)%nat ∧ 2 * Z.of_nat n * NETWORK < INFINITE_LATENCY
  | CROSSBAR => 2 * Z.of_nat n * NETWORK < INFINITE_LATENCY
  | FILE_SPECIFIED => False
  end.

Definition by_chips (kind : TopologyType) : Prop := kind = TORUS_2D ∨ kind = PT_TO_PT.

(** The configuration of the components: the types in equal shares on the chips. *)
Record components_ok (counts chip_counts : list Z) (chips : nat) (NETWORK ON_CHIP : Z) : Prop := {
  cm_counts : counts_ok counts;
  cm_chips : ∀ m c, counts !! m = Some c → ∃ k, chip_counts !! m = Some k ∧ 0 ≤ k ∧ c = Z.of_nat chips * k;
  cm_latency : 1 ≤ NETWORK < INFINITE_LATENCY ∧ 1 ≤ ON_CHIP < INFINITE_LATENCY;
  cm_several : (2 ≤ length (machines counts))%nat
}.

(** [C9] Every built-in topology connects the network: on a configuration it fits,
    building the torus, the point-to-point network, the hierarchical switch or the
    crossbar fails no assertion, and a message from the input of any component
    arrives at its component, whichever of the links offered for it it takes at
    every switch on the way.  On
    the torus and the point-to-point network the components of a type are spread
    over the switches of the chips in equal shares. *)
Theorem topology_routes counts chip_counts chips DIRECTORY NETWORK ON_CHIP names p b q l2 me fan text kind :
  let n := length (machines counts) in
  components_ok counts chip_counts chips NETWORK ON_CHIP → topology_fits counts chips NETWORK ON_CHIP fan kind →
  ∃ t calls CL CS,
    new_Topology counts chip_counts chips DIRECTORY NETWORK ON_CHIP names p b q l2 me n kind fan text n = Ret t ∧
    createLinks counts (path_fuel (S (max_switch_id t))) t = Ret (calls, CL, CS) ∧
    (∀ d m a, machines counts !! d = Some m → (a < n)%nat → ∃ hops, arrives t calls m (d + n) a hops) ∧
    (by_chips kind → on_its_chip counts chip_counts DIRECTORY NETWORK ON_CHIP t).
Proof.
  intros n [Hcounts Hchip Hlat Hn] Hfits.
  assert (Ht : ∃ t, new_Topology counts chip_counts chips DIRECTORY NETWORK ON_CHIP names p b q l2 me n kind fan text n = Ret t ∧
    connects counts t ∧ (by_chips kind → on_its_chip counts chip_counts DIRECTORY NETWORK ON_CHIP t)).
  { unfold new_Topology, init, by_chips. cbn [m_nodes]. rewrite (proj2 (Nat.eqb_neq n 1)) by (unfold n; lia).
    destruct kind; cbn in Hfits.
    - destruct Hfits as (side & Hs & En & Hc & Hw).
      destruct (torus_connects counts chip_counts chips DIRECTORY NETWORK ON_CHIP Hcounts Hchip Hlat Hn side Hs En Hc Hw) as (t & E & H1 & H2).
      by exists t.
    - destruct Hfits as [Hf Hw]. destruct (tree_connects counts NETWORK ON_CHIP Hlat Hn fan Hf Hw) as (t & E & H1).
      exists t. split; [done|]. split; [done|]. by intros [|].
    - destruct (tree_connects counts NETWORK ON_CHIP Hlat Hn 1024 ltac:(lia) Hfits) as (t & E & H1).
      exists t. split; [done|]. split; [done|]. by intros [|].
    - destruct Hfits as [Hc Hw].
      destruct (point_connects counts chip_counts chips DIRECTORY NETWORK ON_CHIP Hcounts Hchip Hlat Hn Hc Hw) as (t & E & H1 & H2).
      by exists t.
    - done. }
  destruct Ht as (t & E & (Hnt & Hok & Hp) & Hon).
  destruct (createLinks_ok counts Hcounts t Hok) as (W & D & calls & CL & CS & Ec & Hro). exists t, calls, CL, CS.
  split; [done|]. split; [done|]. split; [|done]. intros d m a Hm Ha. destruct (Hp a d Ha) as (w & Hpath & Hlt); [by eapply lookup_lt_Some|].
  fold n in Hnt. rewrite (Nat.add_comm _ d) in Hpath. fold n in Hpath. rewrite <- Hnt in Hpath |- *. exists (Z.to_nat w).
  by apply (linked_arrives counts Hcounts t W D).
Qed.

(** Nine chips with a cache and a memory each, on a torus. *)
Lemma topology_routes_witness :
  components_ok [9; 9] [1; 1] 9 10 1 ∧
  ∃ t calls CL CS,
    new_Topology [9; 9] [1; 1] 9 1 10 1 example_machine 0 0 0 0 0 18 TORUS_2D 0 "" 18 = Ret t ∧
    createLinks [9; 9] (path_fuel (S (max_switch_id t))) t = Ret (calls, CL, CS).
Proof.
  assert (H : components_ok [9; 9] [1; 1] 9 10 1).
  { split; [| |unfold INFINITE_LATENCY; lia|vm_compute; lia].
    - intros [|[|i]] c Hc; cbn in Hc; [injection Hc as <-; lia..|done].
    - intros [|[|i]] c Hc; cbn in Hc; [injection Hc as <-; exists 1; (split; [reflexivity|lia])..|done]. }
  split; [exact H|].
  destruct (topology_routes [9; 9] [1; 1] 9 1 10 1 example_machine 0 0 0 0 0 0 "" TORUS_2D H) as (t & calls & CL & CS & E1 & E2 & _).
  { cbn. exists 3%nat. split; [lia|]. split; [reflexivity|]. split; [lia|reflexivity]. }
  exists t, calls, CL, CS. split; [exact E1|exact E2].
Defined.

(** On a single switch the torus links the switch to itself, four times. *)
Example torus_of_one :
  match make2DTorus [1; 1] [1; 1] 1 1 10 1 (mkTopology 2 0 []) with
  | Ret t => map (λ l, (l_src l, l_dest l)) (drop 4 (m_links t))
  | Raise _ => []
  end = replicate 4 (4%nat, 4%nat).
Proof. vm_compute. reflexivity. Qed.
