(* ===== verification/NetworkFile.v ===== *)
(** * The network file, written and read back

    The text of a network file, as lines of words, and what [makeFileSpecified]
    makes of it: which files it accepts and the links and switches it then has.
    The files under [gems-lib/ruby_clean/network/simple/Network_Files] are of
    this form. *)

From stdpp Require Import gmap sets list numbers strings.
From S2P Require Import Prelude Text Util NodeSet NetDest Topology SwitchTree TopologyKinds TopologyRoutes.
From Stdlib Require Import Ascii.
Local Open Scope Z_scope.

(** ** Numbers as text *)

Definition digit (k : nat) : ascii := ascii_of_nat (48 + k).

Fixpoint show_with (fuel k : nat) (s : string) : string :=
  let s := String (digit (k mod 10)) s in
  match fuel with
  | O => s
  | S fuel => if (k / 10 =? 0)%nat then s else show_with fuel (k / 10) s
  end.

Definition show (k : nat) : string := show_with k k "".

Lemma digit_is k : (k < 10)%nat → is_digit (digit k) = true ∧ digit_val (digit k) = Z.of_nat k.
Proof. intros Hk. do 10 (destruct k as [|k]; [by split|]). lia. Qed.

Lemma digits_show fuel : ∀ k s, (k < 10 ^ S fuel)%nat →
  ∃ len, (0 < len)%nat ∧ ∀ acc q, digits acc q (show_with fuel k s) = digits (acc * 10 ^ Z.of_nat len + Z.of_nat k) (q + len) s.
Proof.
  induction fuel as [|fuel IH]; intros k s Hk; cbn [show_with].
  - destruct (digit_is (k mod 10)) as [H1 H2]; [by apply Nat.mod_upper_bound|]. exists 1%nat. split; [lia|]. intros acc q. cbn [digits].
    rewrite H1, H2. cbn in Hk. rewrite Nat.mod_small by lia. do 2 f_equal; lia.
  - destruct (digit_is (k mod 10)) as [H1 H2]; [by apply Nat.mod_upper_bound|].
    destruct (Nat.eqb_spec (k / 10) 0) as [E|E].
    + exists 1%nat. split; [lia|]. intros acc q. cbn [digits]. rewrite H1, H2.
      apply Nat.div_small_iff in E; [|lia]. rewrite Nat.mod_small by lia. do 2 f_equal; lia.
    + destruct (IH (k / 10)%nat (String (digit (k mod 10)) s)) as (len & Hlen & Hd).
      { apply Nat.Div0.div_lt_upper_bound. rewrite <- Nat.pow_succ_r'. done. }
      exists (S len). split; [lia|]. intros acc q. rewrite Hd. cbn [digits]. rewrite H1, H2.
      replace (q + S len)%nat with (S (q + len)) by lia. f_equal.
      rewrite Nat2Z.inj_succ, Z.pow_succ_r by lia. rewrite (Nat.div_mod_eq k 10) at 3. lia.
Qed.

(** ** Splitting *)

#[local] Arguments Ascii.eqb : simpl never.
#[local] Arguments String.append : simpl nomatch.

Fixpoint lacks (c : ascii) (s : string) : bool :=
  match s with EmptyString => true | String d s => negb (Ascii.eqb d c) && lacks c s end.

Lemma split_app c s r : lacks c s = true → string_split (s +:+ String c r) c = (s, r).
Proof.
  induction s as [|d s IH]; cbn; intros H; [by rewrite Ascii.eqb_refl|].
  apply andb_true_iff in H as [H1 H2]. apply negb_true_iff in H1. by rewrite H1, IH.
Qed.

Lemma split_end c s : lacks c s = true → string_split s c = (s, ""%string).
Proof.
  induction s as [|d s IH]; cbn [string_split lacks]; intros H; [done|]. apply andb_true_iff in H as [H1 H2]. apply negb_true_iff in H1.
  by rewrite H1, IH.
Qed.

Lemma lacks_app c s r : lacks c (s +:+ r) = lacks c s && lacks c r.
Proof. induction s as [|d s IH]; [done|]. cbn. by rewrite IH, andb_assoc. Qed.

Lemma lacks_show c k : is_digit c = false → lacks c (show k) = true.
Proof.
  intros Hc. unfold show. assert (Hs : lacks c "" = true) by done. revert Hs. generalize ""%string. generalize k at 1.
  intros fuel. revert k. assert (Hd : ∀ q, Ascii.eqb (digit (q mod 10)) c = false).
  { intros q. apply Ascii.eqb_neq. intros <-. destruct (digit_is (q mod 10)) as [H _]; [by apply Nat.mod_upper_bound|congruence]. }
  induction fuel as [|fuel IH]; intros k s Hs; cbn [show_with].
  - cbn [lacks]. by rewrite Hd, Hs.
  - destruct (k / 10 =? 0)%nat; [cbn [lacks]; by rewrite Hd, Hs|]. apply IH. cbn [lacks]. by rewrite Hd, Hs.
Qed.

Lemma show_head k : ∃ d r, show k = String d r ∧ is_digit d = true.
Proof.
  unfold show. generalize ""%string. generalize k at 1. intros fuel. revert k.
  assert (Hd : ∀ q, is_digit (digit (q mod 10)) = true) by (intros q; apply digit_is; by apply Nat.mod_upper_bound).
  induction fuel as [|fuel IH]; intros k s; cbn [show_with]; [eauto|]. destruct (k / 10 =? 0)%nat; eauto.
Qed.

Lemma atoi_show k : Z.of_nat k < 2 ^ 31 → atoi (show k) = Z.of_nat k.
Proof.
  intros Hk. destruct (digits_show k k "") as (len & _ & Hd).
  { apply Nat.lt_le_trans with (10 ^ k)%nat; [apply Nat.pow_gt_lin_r; lia|apply Nat.pow_le_mono_r; lia]. }
  specialize (Hd 0 0%nat). rewrite Z.mul_0_l, Z.add_0_l in Hd. fold (show k) in Hd. cbn [digits] in Hd.
  unfold atoi. destruct (show_head k) as (d & r & E & Hdig). rewrite E in *.
  assert (Es : (match skip_space (String d r) with
    | String "-" s' => (-1, s') | String "+" s' => (1, s') | s' => (1, s') end) = (1, String d r)).
  { destruct d as [[] [] [] [] [] [] [] []]; try discriminate Hdig; reflexivity. }
  rewrite Es, Hd. cbn [fst]. rewrite i32_id; lia.
Qed.

Lemma field_show k : field (show k) = (show k, ""%string).
Proof. unfold field. by rewrite split_end by by apply lacks_show. Qed.

(** ** Network files *)

Section file.
Variables (counts : list Z) (chips : nat) (name : nat → string) (string_to_MachineType : string → outcome nat).
Variables (numberOfProcessors g_endpoint_bandwidth numberOfProcsPerChip numberOfL2Cache numberOfMemories : Z).
Let n := length (machines counts).

(** An end of a link: a component of a type, with its bank if it has one, or a switch. *)
Inductive endpoint := Ext (mType k : nat) (bank : option nat) | Int (k : nat).

Inductive check := Processors | BwUnit | ProcsPerChip | L2banks | Memories.

(** A word of a line; [Unknown] is one with a label of its own. *)
Inductive word :=
  | Node (e : endpoint)
  | Latency (k : nat)
  | BwMultiplier (k : nat)
  | Weight (k : nat)
  | Says (c : check) (k : nat)
  | Unknown (s : string).

(** A line: words with a blank between them, and perhaps a blank after the last
    one with what follows it, which starts with another blank if it is not
    empty. *)
Record net_line := mkNetLine { words : list word; rest : option string }.

(** *** The text *)

Definition print_endpoint (e : endpoint) : string :=
  match e with
  | Ext m k None => "ext_node:" +:+ name m +:+ ":" +:+ show k
  | Ext m k (Some b) => "ext_node:" +:+ name m +:+ ":" +:+ show k +:+ ":bank:" +:+ show b
  | Int k => "int_node:" +:+ show k
  end.

Definition check_label (c : check) : string :=
  match c with
  | Processors => "processors:" | BwUnit => "bw_unit:" | ProcsPerChip => "procs_per_chip:"
  | L2banks => "L2banks:" | Memories => "memories:"
  end.

Definition print_word (w : word) : string :=
  match w with
  | Node e => print_endpoint e
  | Latency k => "link_latency:" +:+ show k
  | BwMultiplier k => "bw_multiplier:" +:+ show k
  | Weight k => "link_weight:" +:+ show k
  | Says c k => check_label c +:+ show k
  | Unknown s => s
  end.

Fixpoint join (ws : list string) (rest : option string) : string :=
  match ws with
  | [] => default ""%string rest
  | w :: ws =>
      match ws, rest with
      | [], None => w
      | _, _ => w +:+ String " " (join ws rest)
      end
  end.

Definition print_line (l : net_line) : string := join (print_word <$> words l) (rest l).

Fixpoint print_file (file : list net_line) : string :=
  match file with
  | [] => ""
  | [l] => print_line l
  | l :: file => print_line l +:+ String "010" (print_file file)
  end.

(** The numbers fit an [int], the machine types exist, and an unknown word is one
    word with a label that is none of the others. *)
Definition small (k : nat) : Prop := Z.of_nat k < 2 ^ 31.

Definition labels : list string :=
  ["ext_node"; "int_node"; "link_latency"; "bw_multiplier"; "link_weight"; "processors"; "bw_unit"; "procs_per_chip";
   "L2banks"; "memories"]%string.

Definition is_word (w : string) : Prop := w ≠ ""%string ∧ lacks " " w = true ∧ lacks "010" w = true.

Definition endpoint_text (e : endpoint) : Prop :=
  match e with
  | Ext m k b => (m < length counts)%nat ∧ small k ∧ small (default 0%nat b)
  | Int k => small k
  end.

Definition word_text (w : word) : Prop :=
  match w with
  | Node e => endpoint_text e
  | Latency k | BwMultiplier k | Weight k | Says _ k => small k
  | Unknown s => is_word s ∧ (field s).1 ∉ labels
  end.

Definition rest_text (o : option string) : Prop :=
  match o with
  | None | Some EmptyString => True
  | Some (String c s) => c = " "%char ∧ lacks "010" s = true
  end.

Definition line_text (l : net_line) : Prop := Forall word_text (words l) ∧ rest_text (rest l).

Definition file_text (file : list net_line) : Prop := file ≠ [] ∧ Forall line_text file.

Definition names_ok : Prop := ∀ m, (m < length counts)%nat →
  string_to_MachineType (name m) = Ret m ∧
  lacks ":" (name m) = true ∧ lacks " " (name m) = true ∧ lacks "010" (name m) = true.

(** *** What it means *)

Definition as_node (w : word) : option endpoint := match w with Node e => Some e | _ => None end.
Definition as_latency (w : word) : option nat := match w with Latency k => Some k | _ => None end.
Definition as_bw (w : word) : option nat := match w with BwMultiplier k => Some k | _ => None end.
Definition as_weight (w : word) : option nat := match w with Weight k => Some k | _ => None end.

Definition ends (l : net_line) : list endpoint := omap as_node (words l).
Definition latencies (l : net_line) : list nat := omap as_latency (words l).
Definition bws (l : net_line) : list nat := omap as_bw (words l).
Definition weights (l : net_line) : list nat := omap as_weight (words l).

Definition component (m k b : nat) : nat := Z.to_nat (base counts m + Z.of_nat k + Z.of_nat b * Z.of_nat chips).

(** The node of an end: a component's side into the network, or a switch; and
    where the link back goes: to the component's other side, when the line joins
    a component to a switch. *)
Definition node_of (e : endpoint) : nat :=
  match e with Ext m k b => component m k (default 0%nat b) | Int k => (k + n * 2)%nat end.

Definition back_of (first second : endpoint) : nat :=
  match first, second with Int _, Int _ => node_of first | _, _ => (node_of first + n)%nat end.

Definition links_of (l : net_line) : list Link :=
  match ends l, latencies l with
  | [first; second], [k] =>
      let latency := Z.of_nat k in
      let weight := default latency (Z.of_nat <$> last (weights l)) in
      let bw := default DEFAULT_BW_MULTIPLIER (Z.of_nat <$> last (bws l)) in
      [mkLink (node_of first) (node_of second) latency weight bw;
       mkLink (node_of second) (back_of first second) latency weight bw]
  | _, _ => []
  end.

Definition switches_of (l : net_line) : list nat := omap (λ e, match e with Int k => Some k | _ => None end) (ends l).
Definition components_of (l : net_line) : list nat :=
  omap (λ e, match e with Ext m k b => Some (component m k (default 0%nat b)) | _ => None end) (ends l).

Definition switches (file : list net_line) : gset nat := list_to_set (file ≫= switches_of).

(** *** What is accepted *)

Definition said (c : check) : Z :=
  match c with
  | Processors => numberOfProcessors | BwUnit => g_endpoint_bandwidth | ProcsPerChip => numberOfProcsPerChip
  | L2banks => numberOfL2Cache | Memories => numberOfMemories
  end.

Definition word_good (w : word) : Prop :=
  match w with
  | Node (Ext m k b) => (component m k (default 0%nat b) < n)%nat
  | Says c k => Z.of_nat k = said c
  | Unknown _ => False
  | _ => True
  end.

(** A link has two ends and a latency; a line that is none has neither. *)
Definition line_good (l : net_line) : Prop :=
  Forall word_good (words l) ∧
  ((length (ends l) = 2%nat ∧ length (latencies l) = 1%nat) ∨ (ends l = [] ∧ latencies l = [])).

(** Every component is an end of some line, and no link starts or ends at a node
    whose number is above that of the last switch. *)
Record file_good (file : list net_line) : Prop := {
  fg_lines : Forall line_good file;
  fg_connected : ∀ d, (d < n)%nat → d ∈ file ≫= components_of;
  fg_nodes : ∀ l, l ∈ file ≫= links_of →
    (l_src l ≤ size (switches file) + n + n ∧ l_dest l ≤ size (switches file) + n + n)%nat
}.

(** ** Lines and words of the text *)

Notation read_var := (read_var counts chips string_to_MachineType numberOfProcessors g_endpoint_bandwidth numberOfProcsPerChip
  numberOfL2Cache numberOfMemories n).
Notation read_vars := (read_vars counts chips string_to_MachineType numberOfProcessors g_endpoint_bandwidth numberOfProcsPerChip
  numberOfL2Cache numberOfMemories).
Notation read_line := (read_line counts chips string_to_MachineType numberOfProcessors g_endpoint_bandwidth numberOfProcsPerChip
  numberOfL2Cache numberOfMemories n).

Lemma read_rest fuel o st : rest_text o → read_vars fuel n (default ""%string o) st = Ret st.
Proof. destruct o as [[|c t]|]; [by destruct fuel|intros [-> _]|]; by destruct fuel. Qed.

Lemma read_words ws o : ∀ fuel st,
  Forall is_word ws → rest_text o → (length ws ≤ fuel)%nat → read_vars fuel n (join ws o) st = foldM read_var st ws.
Proof.
  induction ws as [|w ws IH]; intros fuel st Hws Ho Hf; [by apply read_rest|].
  apply Forall_cons in Hws as [(Hw & Hs & _) Hws]. destruct fuel as [|fuel]; [cbn in Hf; lia|]. cbn in Hf.
  assert (Hsplit : ∃ t, string_split (join (w :: ws) o) " " = (w, t) ∧ ∀ st, read_vars fuel n t st = foldM read_var st ws).
  { cbn [join]. destruct ws as [|w' ws]; [destruct o as [t|]|].
    - exists t. split; [by apply split_app|]. intros. by apply (read_rest fuel (Some t)).
    - exists ""%string. split; [by apply split_end|]. intros. by apply (read_rest fuel None).
    - exists (join (w' :: ws) o). split; [by apply split_app|]. intros. apply IH; [done|done|lia]. }
  destruct Hsplit as (t & E & Ht). cbn [TopologyKinds.read_vars]. rewrite E. destruct w as [|c w]; [done|].
  cbn [foldM]. destruct (read_var st (String c w)); [|done]. cbn [mbind outcome_bind]. apply Ht.
Qed.

Lemma length_app_string a b : String.length (a +:+ b) = (String.length a + String.length b)%nat.
Proof. induction a as [|c a IH]; cbn; [done|]. by rewrite IH. Qed.

Lemma join_length ws o : Forall is_word ws → (length ws ≤ String.length (join ws o))%nat.
Proof.
  induction 1 as [|w ws (Hw & _) _ IH]; cbn [length join]; [lia|].
  assert (1 ≤ String.length w)%nat by (destruct w; cbn; [done|lia]).
  destruct ws as [|w' ws]; [destruct o; cbn [length]; rewrite ?length_app_string; lia|].
  rewrite length_app_string. cbn [String.length]. lia.
Qed.

Lemma join_lacks ws o : Forall is_word ws → rest_text o → lacks "010" (join ws o) = true.
Proof.
  intros Hws Ho. induction Hws as [|w ws (_ & _ & Hw) _ IH]; cbn [join].
  { destruct o as [[|c t]|]; [done| |done]. destruct Ho as [-> Ht]. exact Ht. }
  assert (lacks "010" (w +:+ String " " (join ws o)) = true) by (rewrite lacks_app, Hw; exact IH).
  by destruct ws, o.
Qed.

Lemma file_lines_ne t : ∃ x xs, file_lines t = x :: xs.
Proof. induction t as [|c t (x & xs & E)]; cbn; [eauto|]. rewrite E. destruct (Ascii.eqb c "010"); eauto. Qed.

Lemma file_lines_app l text : lacks "010" l = true → file_lines (l +:+ String "010" text) = l :: file_lines text.
Proof.
  induction l as [|c l IH]; intros H.
  - cbn. destruct (file_lines_ne text) as (x & xs & ->). by rewrite Ascii.eqb_refl.
  - cbn in H |- *. apply andb_true_iff in H as [H1 H2]. apply negb_true_iff in H1. by rewrite (IH H2), H1.
Qed.

Lemma file_lines_one l : lacks "010" l = true → file_lines l = [l].
Proof.
  induction l as [|c l IH]; intros H; [done|]. cbn in H |- *. apply andb_true_iff in H as [H1 H2].
  apply negb_true_iff in H1. by rewrite (IH H2), H1.
Qed.

Context (Hnames : names_ok) (Hcounts : counts_ok counts).

Lemma label_word label k : lacks " " label = true → lacks "010" label = true → label ≠ ""%string → is_word (label +:+ show k).
Proof. intros H1 H2 H3. split; [by destruct label|]. split; by rewrite lacks_app, ?H1, ?H2, lacks_show. Qed.

Lemma print_word_is w : word_text w → is_word (print_word w).
Proof.
  destruct w as [[m k b|k]|k|k|k|c k|s]; cbn [print_word print_endpoint]; intros Hw; [|by apply label_word..| |by apply Hw].
  - destruct Hw as [Hm _], (Hnames m Hm) as (_ & _ & H1 & H2).
    destruct b; (split; [done|]); split; repeat (rewrite lacks_app; apply andb_true_iff; split); try done; by apply lacks_show.
  - by destruct c; apply label_word.
Qed.

Lemma print_words_are l : line_text l → Forall is_word (print_word <$> words l).
Proof. intros [Hl _]. apply Forall_fmap. eapply Forall_impl; [exact Hl|]. exact print_word_is. Qed.

Lemma print_file_lines file : file_text file → file_lines (print_file file) = print_line <$> file.
Proof.
  intros [Hne Hall]. assert (Hlacks : ∀ l, line_text l → lacks "010" (print_line l) = true).
  { intros l Hl. apply join_lacks; [by apply print_words_are|apply Hl]. }
  induction file as [|l file IH]; [done|]. apply Forall_cons in Hall as [Hl Hall].
  destruct file as [|l' file]; [by apply file_lines_one, Hlacks|].
  change (print_file (l :: l' :: file)) with (print_line l +:+ String "010" (print_file (l' :: file))).
  rewrite file_lines_app by by apply Hlacks. by rewrite IH.
Qed.

(** *** One word *)

Definition see (node : nat) (f : file_state) : file_state :=
  if existsb (Nat.eqb node) (int_network_switches f) then f
  else mkFile (connected f) (int_network_switches f ++ [node]) (S (number_of_switches f)) (file_links f).

Definition visit (f : file_state) (e : endpoint) : file_state :=
  match e with
  | Ext m k b => mkFile (<[component m k (default 0%nat b) := true]> (connected f)) (int_network_switches f)
      (number_of_switches f) (file_links f)
  | Int k => see (k + n * 2) f
  end.

Definition internal_of (e : endpoint) : Z := match e with Ext _ _ _ => 0 | Int _ => 1 end.

Definition effect (st : file_state * line_state) (w : word) : file_state * line_state :=
  let '(f, l) := st in
  match w with
  | Node e => (visit f e, set_node (node_of e) (internal_of e) l)
  | Latency k =>
      (f, mkLine (nodes l) (Z.of_nat k) (weight l) (bw_multiplier l) (pair_index l) (varsFound l + 1) (internalNodes l))
  | BwMultiplier k =>
      (f, mkLine (nodes l) (latency l) (weight l) (Z.of_nat k) (pair_index l) (varsFound l) (internalNodes l))
  | Weight k =>
      (f, mkLine (nodes l) (latency l) (Z.of_nat k) (bw_multiplier l) (pair_index l) (varsFound l) (internalNodes l))
  | Says _ _ | Unknown _ => (f, l)
  end.

Definition has_room (w : word) (l : line_state) : Prop :=
  match w with Node _ => (pair_index l < 2)%nat | _ => True end.

Lemma bind_ret_iff {A B} (o : outcome A) (g : A → outcome B) y :
  (x ← o; g x) = Ret y ↔ ∃ x, o = Ret x ∧ g x = Ret y.
Proof. destruct o; cbn; naive_solver. Qed.

Lemma assertb_then_ret {A} (b : bool) (o : outcome A) x : (assertb b ;; o) = Ret x ↔ b = true ∧ o = Ret x.
Proof. destruct b; cbn; [naive_solver|]. split; [done|by intros []]. Qed.

Lemma ext_node_spec m k b :
  endpoint_text (Ext m k b) →
  ext_node counts chips string_to_MachineType n
    (name m +:+ String ":" (match b with None => show k | Some b => show k +:+ String ":" ("bank:" +:+ show b) end)) =
  (assertb (component m k (default 0%nat b) <? n)%nat ;; Ret (component m k (default 0%nat b))).
Proof.
  intros (Hm & Hk & Hb). destruct (Hnames m Hm) as (En & H1 & _). unfold ext_node, field at 1.
  rewrite split_app by done. cbn [mbind outcome_bind]. rewrite En. cbn [mbind outcome_bind].
  unfold MachineType_base_number, MachineType_NUM. rewrite (proj2 (Nat.leb_le _ _)) by lia.
  fold (base counts m). pose proof (base_nonneg counts Hcounts m).
  assert (Hend : ∀ node, 0 ≤ node →
    (assertb ((0 <=? node) && (node <? Z.of_nat n)) ;; Ret (Z.to_nat node)) =
    (assertb (Z.to_nat node <? n)%nat ;; Ret (Z.to_nat node))).
  { intros node Hnode. rewrite (proj2 (Z.leb_le 0 _)) by done. cbn [andb].
    by destruct (Z.ltb_spec node (Z.of_nat n)), (Nat.ltb_spec (Z.to_nat node) n); try lia. }
  unfold component. destruct b as [b|]; cbn [default from_option] in *; try change (id b) with b in *.
  - unfold field at 1. rewrite split_app by by apply lacks_show.
    change (field ("bank:" +:+ show b)) with ("bank"%string, show b). cbn [mbind outcome_bind].
    change (("bank" =? "bank")%string) with true. cbn iota. rewrite field_show. cbn [fst]. rewrite !atoi_show by done.
    apply Hend. pose proof (Z.mul_nonneg_nonneg (Z.of_nat b) (Z.of_nat chips) ltac:(lia) ltac:(lia)). lia.
  - rewrite field_show. change (field "") with (""%string, ""%string). cbn [mbind outcome_bind].
    change (("" =? "bank")%string) with false. cbn iota. rewrite atoi_show by done.
    rewrite Z.mul_0_l, Z.add_0_r. apply Hend. lia.
Qed.

Lemma read_int f l k : small k →
  read_var (f, l) ("int_node:" +:+ show k) =
    (assertb (pair_index l <? 2)%nat ;; Ret (see (k + n * 2) f, set_node (k + n * 2) 1 l)).
Proof.
  intros Hk. unfold TopologyKinds.read_var.
  change (field ("int_node:" +:+ show k)) with ("int_node"%string, show k).
  change (("int_node" =? "ext_node")%string) with false. change (("int_node" =? "int_node")%string) with true. cbn iota.
  rewrite field_show. cbn [fst]. rewrite (atoi_show k Hk), (proj2 (Z.leb_le (Z.of_nat n * 2) _)) by lia.
  by replace (Z.to_nat (Z.of_nat k + Z.of_nat n * 2)) with (k + n * 2)%nat by lia.
Qed.

Lemma read_ext f l m k b : endpoint_text (Ext m k b) →
  read_var (f, l) (print_endpoint (Ext m k b)) =
    (assertb (pair_index l <? 2)%nat ;; assertb (component m k (default 0%nat b) <? n)%nat ;;
     Ret (effect (f, l) (Node (Ext m k b)))).
Proof.
  intros He. assert (Ef : field (print_endpoint (Ext m k b)) = ("ext_node"%string,
    name m +:+ String ":" (match b with None => show k | Some b => show k +:+ String ":" ("bank:" +:+ show b) end))) by by destruct b.
  unfold TopologyKinds.read_var. rewrite Ef. change (("ext_node" =? "ext_node")%string) with true. cbn iota.
  rewrite (ext_node_spec m k b He). destruct (_ <? 2)%nat; [|done]. cbn [assertb mbind outcome_bind]. by destruct (_ <? n)%nat.
Qed.

Lemma read_unknown s f l : (field s).1 ∉ labels → read_var (f, l) s = Raise AssertFailed.
Proof.
  unfold TopologyKinds.read_var, labels. destruct (field s) as [label rest]. cbn [fst]. rewrite !not_elem_of_cons.
  intros (H1 & H2 & H3 & H4 & H5 & H6 & H7 & H8 & H9 & H10 & _).
  by rewrite !(proj2 (String.eqb_neq _ _)).
Qed.

Lemma read_check c k f l : small k →
  read_var (f, l) (check_label c +:+ show k) = (assertb (Z.of_nat k =? said c) ;; Ret (f, l)).
Proof.
  intros Hk. unfold TopologyKinds.read_var. destruct c; cbn [check_label said];
    match goal with |- context [field (?lab +:+ show k)] =>
      let x := eval vm_compute in (field lab) in
      match x with (?h, _) => change (field (lab +:+ show k)) with (h, show k) end end;
    unfold number_is; rewrite field_show; cbn; by rewrite atoi_show.
Qed.

Lemma read_word w f l st :
  word_text w → read_var (f, l) (print_word w) = Ret st ↔ word_good w ∧ has_room w l ∧ st = effect (f, l) w.
Proof.
  intros Hw. destruct w as [[m k b|k]|k|k|k|c k|s]; cbn [print_word word_good has_room].
  - rewrite read_ext, !assertb_then_ret, !Nat.ltb_lt by done. naive_solver.
  - cbn [print_endpoint]. rewrite read_int, assertb_then_ret, Nat.ltb_lt by done. cbn [effect visit node_of internal_of]. naive_solver.
  - unfold TopologyKinds.read_var. change (field ("link_latency:" +:+ show k)) with ("link_latency"%string, show k).
    cbn. rewrite field_show; cbn; rewrite atoi_show by done. naive_solver.
  - unfold TopologyKinds.read_var. change (field ("bw_multiplier:" +:+ show k)) with ("bw_multiplier"%string, show k).
    cbn. rewrite field_show; cbn; rewrite atoi_show by done. naive_solver.
  - unfold TopologyKinds.read_var. change (field ("link_weight:" +:+ show k)) with ("link_weight"%string, show k).
    cbn. rewrite field_show; cbn; rewrite atoi_show by done. naive_solver.
  - rewrite read_check, assertb_then_ret, Z.eqb_eq by done. cbn [effect]. naive_solver.
  - rewrite read_unknown by apply Hw. naive_solver.
Qed.

(** *** One line *)

(** The variables of the loop over the words, after the words [ws]. *)
Definition after (ws : list word) : line_state :=
  let es := omap as_node ws in
  mkLine (take 2 ((Some <$> (node_of <$> es)) ++ [None; None]))
    (default (-1) (Z.of_nat <$> last (omap as_latency ws)))
    (default (-1) (Z.of_nat <$> last (omap as_weight ws)))
    (default DEFAULT_BW_MULTIPLIER (Z.of_nat <$> last (omap as_bw ws)))
    (length es)
    (Z.of_nat (length es + length (omap as_latency ws)))
    (zsum internal_of es).

Lemma after_snoc ws w f :
  has_room w (after ws) →
  effect (foldl visit f (omap as_node ws), after ws) w =
    (foldl visit f (omap as_node (ws ++ [w])), after (ws ++ [w])).
Proof.
  intros Hroom. unfold after. rewrite !omap_app.
  destruct w as [e|k|k|k|c k|s]; cbn [effect omap list_omap as_node as_latency as_bw as_weight];
    rewrite ?app_nil_r, ?last_snoc, ?length_app; try done.
  - rewrite foldl_app. cbn [foldl]. f_equal. unfold set_node. cbn [nodes pair_index latency weight bw_multiplier varsFound internalNodes].
    cbn [has_room after pair_index] in Hroom. rewrite fmap_app, zsum_app.
    f_equal; [|cbn [length]; lia|cbn [length]; lia|unfold zsum; cbn; lia].
    destruct (omap as_node ws) as [|a [|b es]]; [done|done|cbn in Hroom; lia].
  - f_equal. cbn [nodes pair_index latency weight bw_multiplier varsFound internalNodes]. f_equal. cbn [length]. lia.
Qed.

Lemma read_all_words ws f st : Forall word_text ws →
  foldM read_var (f, new_line) (print_word <$> ws) = Ret st ↔
  Forall word_good ws ∧ (length (omap as_node ws) ≤ 2)%nat ∧ st = (foldl visit f (omap as_node ws), after ws).
Proof.
  intros Hws. revert st. induction ws as [|w ws IH] using rev_ind; intros st.
  { cbn. split; [|naive_solver]. intros [= <-]. split; [done|]. split; [lia|done]. }
  apply Forall_app in Hws as [Hws [Hw _]%Forall_cons]. specialize (IH Hws).
  rewrite fmap_app, foldM_app, Forall_app, Forall_singleton, bind_ret_iff. setoid_rewrite IH. cbn [fmap list_fmap foldM].
  split.
  - intros (st1 & (H1 & H2 & ->) & (st2 & H3%read_word & [= ->])%bind_ret_iff); [|done].
    destruct H3 as (H3 & H4 & ->). rewrite after_snoc by done. split; [done|]. split; [|done].
    rewrite omap_app, length_app. destruct w; cbn in *; lia.
  - intros ((H1 & H2) & H3 & ->). rewrite omap_app, length_app in H3.
    exists (foldl visit f (omap as_node ws), after ws). split; [split; [done|]; split; [lia|done]|].
    apply bind_ret_iff. exists (foldl visit f (omap as_node (ws ++ [w])), after (ws ++ [w])). split; [|done].
    assert (has_room w (after ws)) by (destruct w; cbn in *; [lia|done..]).
    apply read_word; [done|]. by rewrite after_snoc.
Qed.

Definition spec_of_link (l : Link) : nat * nat * Z * Z * Z := (l_src l, l_dest l, l_latency l, l_bw l, l_weight l).

Definition read_entry (f : file_state) (l : net_line) : file_state :=
  let f := foldl visit f (ends l) in
  mkFile (connected f) (int_network_switches f) (number_of_switches f) (file_links f ++ (spec_of_link <$> links_of l)).

Lemma mkFile_id f : mkFile (connected f) (int_network_switches f) (number_of_switches f) (file_links f) = f.
Proof. by destruct f. Qed.

(** The end of a line: three variables that are two ends and a latency, or none. *)
Lemma end_of_line f l f' : (length (ends l) ≤ 2)%nat →
  end_line n f (after (words l)) = Ret f' ↔
  ((length (ends l) = 2%nat ∧ length (latencies l) = 1%nat) ∨ (ends l = [] ∧ latencies l = [])) ∧
  f' = mkFile (connected f) (int_network_switches f) (number_of_switches f) (file_links f ++ (spec_of_link <$> links_of l)).
Proof.
  unfold end_line, after, links_of, weights, bws. fold (ends l) (latencies l).
  cbn [nodes pair_index latency weight bw_multiplier varsFound internalNodes].
  assert (Hw : ∀ k, (if negb (default (-1) (Z.of_nat <$> last (omap as_weight (words l))) =? -1)
      then default (-1) (Z.of_nat <$> last (omap as_weight (words l))) else k) =
    default k (Z.of_nat <$> last (omap as_weight (words l)))).
  { intros k. destruct (last (omap as_weight (words l))) as [w|]; [|done]. cbn. by rewrite (proj2 (Z.eqb_neq _ (-1))) by lia. }
  rewrite Hw. intros Hlen.
  destruct (ends l) as [|a [|b [|c es]]] eqn:Ee; cbn in Hlen; [..|lia].
  - destruct (latencies l) as [|k ks] eqn:El.
    + cbn. rewrite app_nil_r, mkFile_id. naive_solver.
    + destruct (Z.eqb_spec (Z.of_nat (length (@nil endpoint) + length (k :: ks))) 3); [cbn; naive_solver|].
      rewrite assertb_then_ret, Z.eqb_eq. cbn. split; [intros []; lia|naive_solver].
  - destruct (Z.eqb_spec (Z.of_nat (length [a] + length (latencies l))) 3); [cbn; naive_solver|].
    rewrite assertb_then_ret, Z.eqb_eq. cbn. split; [intros []; lia|naive_solver].
  - destruct (latencies l) as [|k [|k' ks]] eqn:El.
    + cbn. naive_solver.
    + cbn -[Z.add Z.mul]. unfold back_of. destruct a as [ma ka ba|ka], b as [mb kb bb|kb]; cbn -[Z.add Z.mul]; naive_solver.
    + rewrite (proj2 (Z.eqb_neq _ 3)) by (cbn; lia). rewrite assertb_then_ret, Z.eqb_eq. cbn. split; [intros []; lia|naive_solver].
Qed.

Lemma read_line_iff f l f' : line_text l →
  read_line f (print_line l) = Ret f' ↔ line_good l ∧ f' = read_entry f l.
Proof.
  intros Hl. pose proof (print_words_are l Hl) as Hws. destruct Hl as [Hw Hr]. unfold TopologyKinds.read_line, print_line.
  rewrite read_words by (done || by apply join_length). rewrite bind_ret_iff. setoid_rewrite read_all_words; [|done].
  unfold line_good, read_entry. split.
  - intros (st & (H1 & H2 & ->) & H3). by apply end_of_line in H3 as [? ->].
  - intros ((H1 & H2) & ->). assert (H3 : (length (ends l) ≤ 2)%nat) by (destruct H2 as [[]|[-> _]]; cbn; lia).
    eexists. split; [done|]. by apply end_of_line.
Qed.

(** *** The file *)

Lemma read_all file f f' : Forall line_text file →
  foldM read_line f (print_line <$> file) = Ret f' ↔ Forall line_good file ∧ f' = foldl read_entry f file.
Proof.
  intros Hall. revert f. induction Hall as [|l file Hl _ IH]; intros f; cbn [fmap list_fmap foldM foldl].
  { rewrite Forall_nil. naive_solver. }
  rewrite bind_ret_iff, Forall_cons. setoid_rewrite IH. setoid_rewrite read_line_iff; [|done]. naive_solver.
Qed.

Lemma see_spec x f :
  NoDup (int_network_switches f) → number_of_switches f = length (int_network_switches f) →
  NoDup (int_network_switches (see x f)) ∧ number_of_switches (see x f) = length (int_network_switches (see x f)) ∧
  (∀ y, y ∈ int_network_switches (see x f) ↔ y = x ∨ y ∈ int_network_switches f) ∧
  connected (see x f) = connected f ∧ file_links (see x f) = file_links f.
Proof.
  intros Hnd Hn. unfold see. destruct (existsb (Nat.eqb x) (int_network_switches f)) eqn:E.
  - apply existsb_exists in E as (y & Hy%list_elem_of_In & <-%Nat.eqb_eq). repeat (split; [done|]). split; [|done].
    intros y. split; [by right|]. by intros [->|].
  - assert (Hni : x ∉ int_network_switches f).
    { intros Hx. apply not_true_iff_false in E. apply E, existsb_exists. exists x. split; [by apply list_elem_of_In|apply Nat.eqb_refl]. }
    cbn. split; [apply NoDup_app; split; [done|]; split; [set_solver|apply NoDup_singleton]|].
    split; [rewrite length_app; cbn; lia|]. split; [|done]. intros y. set_solver.
Qed.

(** What the file state holds after the ends [es] of all lines so far. *)
Record seen (es : list endpoint) (f : file_state) : Prop := {
  se_length : length (connected f) = n;
  se_connected : ∀ d, (d < n)%nat → connected f !! d = Some true ↔
    d ∈ omap (λ e, match e with Ext m k b => Some (component m k (default 0%nat b)) | _ => None end) es;
  se_once : NoDup (int_network_switches f);
  se_switches : ∀ x, x ∈ int_network_switches f ↔
    ∃ k, k ∈ omap (λ e, match e with Int k => Some k | _ => None end) es ∧ x = (k + n * 2)%nat;
  se_number : number_of_switches f = length (int_network_switches f)
}.

Lemma seen_visit es f e : seen es f → seen (es ++ [e]) (visit f e) ∧ file_links (visit f e) = file_links f.
Proof.
  intros [S1 S2 S3 S4 S5]. destruct e as [m k b|k]; cbn [visit].
  - split; [|done]. split; cbn [connected int_network_switches number_of_switches]; rewrite ?omap_app; cbn.
    + by rewrite length_insert.
    + intros d Hd. rewrite elem_of_app, <- S2, list_elem_of_singleton by done.
      set (c := component m k (default 0%nat b)). destruct (decide (d = c)) as [->|Hne].
      * rewrite list_lookup_insert_eq by lia. naive_solver.
      * rewrite list_lookup_insert_ne by done. naive_solver.
    + done.
    + intros x. by rewrite app_nil_r, S4.
    + done.
  - destruct (see_spec (k + n * 2) f S3 S5) as (V1 & V2 & V3 & V4 & V5). split; [|done].
    split; rewrite ?omap_app; cbn; rewrite ?V4, ?app_nil_r; [done|done|done| |done].
    intros x. rewrite V3, S4. setoid_rewrite elem_of_app. setoid_rewrite list_elem_of_singleton. naive_solver.
Qed.

Lemma seen_visits es' : ∀ es f, seen es f →
  seen (es ++ es') (foldl visit f es') ∧ file_links (foldl visit f es') = file_links f.
Proof.
  induction es' as [|e es' IH]; intros es f Hs; cbn [foldl]; [by rewrite app_nil_r|].
  destruct (seen_visit es f e Hs) as [H1 H2]. destruct (IH _ _ H1) as [H3 H4]. by rewrite <- app_assoc in H3; rewrite H4.
Qed.

Lemma read_file_seen file :
  let f := foldl read_entry (mkFile (replicate n false) [] 0 []) file in
  seen (file ≫= ends) f ∧ file_links f = spec_of_link <$> (file ≫= links_of).
Proof.
  induction file as [|l file [IH1 IH2]] using rev_ind.
  - cbn. split; [|done]. split; cbn; [by rewrite length_replicate| |constructor| |done].
    + intros d Hd. rewrite lookup_replicate_2 by done. split; [done|]. by intros ?%not_elem_of_nil.
    + intros x. split; [by intros ?%not_elem_of_nil|]. by intros (k & ?%not_elem_of_nil & _).
  - cbn zeta. rewrite foldl_app, !bind_app. cbn [foldl]. unfold read_entry at 1 3. cbn zeta.
    destruct (seen_visits (ends l) _ _ IH1) as [H1 H2].
    assert (Hbind : ∀ A (g : net_line → list A), [l] ≫= g = g l) by (intros; cbn; by rewrite app_nil_r).
    rewrite !Hbind, fmap_app, <- IH2. cbn [file_links]. rewrite H2. split; [|done].
    by destruct H1; split.
Qed.

Lemma bind_omap {A B C} (g : A → list B) (h : B → option C) l : omap h (l ≫= g) = l ≫= λ x, omap h (g x).
Proof. induction l as [|x l IH]; cbn; [done|]. by rewrite omap_app, IH. Qed.

Lemma switches_size file f : seen (file ≫= ends) f → length (int_network_switches f) = size (switches file).
Proof.
  intros [_ _ S3 S4 _].
  assert (Hp : int_network_switches f ≡ₚ (λ k, k + n * 2)%nat <$> elements (switches file)).
  { apply NoDup_Permutation; [done|apply NoDup_fmap; [intros x y; lia|apply NoDup_elements]|].
    intros x. rewrite S4, list_elem_of_fmap. setoid_rewrite elem_of_elements. unfold switches.
    setoid_rewrite elem_of_list_to_set. rewrite bind_omap. naive_solver. }
  by rewrite Hp, length_fmap.
Qed.

Definition node_fits (s nn : nat) (l : Link) : Prop := (l_src l ≤ s + nn + nn ∧ l_dest l ≤ s + nn + nn)%nat.

Lemma add_file_links links t' : ∀ t,
  foldM (λ t '(src, dest, latency, bw, w), addLink_weight src dest latency bw w t) t (spec_of_link <$> links) = Ret t' ↔
  Forall (node_fits (m_number_of_switches t) (m_nodes t)) links ∧
  t' = mkTopology (m_nodes t) (m_number_of_switches t) (m_links t ++ links).
Proof.
  induction links as [|l links IH]; intros t; cbn [fmap list_fmap foldM].
  { rewrite Forall_nil, app_nil_r. destruct t. cbn. naive_solver. }
  rewrite bind_ret_iff, Forall_cons. cbn [spec_of_link]. unfold addLink_weight. setoid_rewrite assertb_then_ret.
  setoid_rewrite assertb_then_ret. setoid_rewrite Nat.leb_le. setoid_rewrite IH. unfold node_fits.
  split.
  - intros (t1 & (H1 & H2 & [= <-]) & H3 & ->). cbn in *. rewrite <- app_assoc. by destruct l.
  - intros (([H1 H2] & H3) & ->). eexists. split; [split; [done|]; split; [done|reflexivity]|]. cbn.
    rewrite <- app_assoc. by destruct l.
Qed.

Lemma file_read file t :
  file_text file →
  makeFileSpecified counts chips string_to_MachineType numberOfProcessors g_endpoint_bandwidth numberOfProcsPerChip
    numberOfL2Cache numberOfMemories (print_file file) (mkTopology n 0 []) = Ret t ↔
  file_good file ∧ t = mkTopology n (size (switches file)) (file ≫= links_of).
Proof.
  intros Htext. unfold makeFileSpecified. cbn [m_nodes m_number_of_switches m_links].
  rewrite print_file_lines, bind_ret_iff by done. destruct Htext as [_ Htext].
  setoid_rewrite read_all; [|done]. setoid_rewrite assertb_then_ret.
  destruct (read_file_seen file) as [Hs Hl]. set (f := foldl _ _ _) in *.
  pose proof (switches_size file f Hs) as Hsize.
  assert (Hcon : forallb id (connected f) = true ↔ ∀ d, (d < n)%nat → d ∈ file ≫= components_of).
  { unfold components_of. rewrite forallb_forall. setoid_rewrite <- bind_omap. destruct Hs as [S1 S2 _ _ _]. split.
    - intros H d Hd. apply S2; [done|]. destruct (lookup_lt_is_Some_2 (connected f) d) as [b Hb]; [lia|].
      rewrite Hb. f_equal. apply H, list_elem_of_In. by eapply list_elem_of_lookup_2.
    - intros H b (d & Hd)%list_elem_of_In%list_elem_of_lookup. pose proof (lookup_lt_Some _ _ _ Hd).
      specialize (H d ltac:(lia)). apply S2 in H; [|lia]. rewrite Hd in H. by injection H as ->. }
  assert (Hadd : ∀ t, foldM (λ t '(src, dest, latency, bw, w), addLink_weight src dest latency bw w t)
      (mkTopology n (number_of_switches f) []) (file_links f) = Ret t ↔
    Forall (node_fits (size (switches file)) n) (file ≫= links_of) ∧
    t = mkTopology n (size (switches file)) (file ≫= links_of)).
  { intros t'. rewrite Hl, (se_number _ _ Hs), Hsize. apply add_file_links. }
  split.
  - intros (f' & [H1 ->] & H2 & H3). fold f in H2, H3. apply Hadd in H3 as [H3 ->]. pose proof (proj1 Hcon H2) as H4.
    split; [|done]. split; [done|exact H4|]. by apply Forall_forall.
  - intros [[H1 H2 H3] ->]. exists f. split; [done|]. split; [by apply Hcon|]. apply Hadd. split; [|done].
    by apply Forall_forall.
Qed.
End file.


(** ** A file that comes with the library *)

Definition example_name (m : nat) : string := match m with 0%nat => "L1Cache" | 1%nat => "L2Cache" | _ => "Directory" end.

(** [ACCELERATOR_Procs-1_ProcsPerChip-1_L2Banks-1_Memories-1.txt] *)
Definition accelerator_file : string := "
processors:1
procs_per_chip:1
L2banks:1
memories:1
bw_unit:10000

ext_node:L1Cache:0 int_node:0 link_latency:1 bw_multiplier:64

ext_node:L2Cache:0 int_node:1 link_latency:1 bw_multiplier:64
ext_node:Directory:0 int_node:2 link_latency:1 bw_multiplier:16

int_node:1 int_node:2 link_latency:1 bw_multiplier:32

int_node:0 int_node:1 link_latency:3 bw_multiplier:64

int_node:1 int_node:2 link_latency:1 bw_multiplier:16

".

Definition plain_line (ws : list word) : net_line := mkNetLine ws None.
Definition blank_line : net_line := plain_line [].
Definition link_line (a b : endpoint) (latency bw : nat) : net_line :=
  plain_line [Node a; Node b; Latency latency; BwMultiplier bw].

Definition accelerator : list net_line :=
  [blank_line; plain_line [Says Processors 1]; plain_line [Says ProcsPerChip 1]; plain_line [Says L2banks 1];
   plain_line [Says Memories 1]; plain_line [Says BwUnit 10000]; blank_line;
   link_line (Ext 0 0 None) (Int 0) 1 64; blank_line;
   link_line (Ext 1 0 None) (Int 1) 1 64; link_line (Ext 2 0 None) (Int 2) 1 16; blank_line;
   link_line (Int 1) (Int 2) 1 32; blank_line; link_line (Int 0) (Int 1) 3 64; blank_line;
   link_line (Int 1) (Int 2) 1 16; blank_line; blank_line].

Example accelerator_printed : print_file example_name accelerator = accelerator_file.
Proof. vm_compute. reflexivity. Qed.

Lemma accelerator_counts : counts_ok [1; 1; 1].
Proof. intros i c Hc. destruct i as [|[|[|i]]]; cbn in Hc; [injection Hc as <-; lia..|done]. Qed.

Lemma accelerator_names : names_ok [1; 1; 1] example_name example_machine.
Proof. intros m Hm. cbn in Hm. destruct m as [|[|[|m]]]; [repeat split..|lia]. Qed.

Lemma accelerator_text : file_text [1; 1; 1] accelerator.
Proof.
  split; [done|]. unfold accelerator. repeat (apply Forall_cons; split); [..|by apply Forall_nil]; split; try exact I;
    cbn; repeat (apply Forall_cons; split); try apply Forall_nil; cbn; unfold small; try lia; repeat split; lia.
Qed.

Lemma accelerator_good : file_good [1; 1; 1] 1 1 10000 1 1 1 accelerator.
Proof.
  assert (E : size (switches accelerator) = 3%nat) by (vm_compute; reflexivity).
  split.
  - unfold accelerator. repeat (apply Forall_cons; split); [..|by apply Forall_nil]; split;
      first [by right; split|by left; split|repeat (apply Forall_cons; split); try apply Forall_nil; try exact I; vm_compute; lia || reflexivity].
  - intros d Hd. change (d < 3)%nat in Hd. destruct d as [|[|[|d]]]; [by apply (bool_decide_unpack _)..|lia].
  - rewrite E. intros l Hl. change (accelerator ≫= links_of [1; 1; 1] 1) with (concat (links_of [1; 1; 1] 1 <$> accelerator)) in Hl.
    vm_compute in Hl. elem_cases Hl; subst; vm_compute; lia.
Qed.


(** A switch before its component: the link back leads to no component. *)
Example switch_first :
  ends (link_line (Int 0) (Ext 0 0 None) 1 64) = [Int 0; Ext 0 0 None] ∧
  l_dest <$> links_of [1; 1; 1] 1 (link_line (Int 0) (Ext 0 0 None) 1 64) = [0; 9]%nat ∧
  l_dest <$> links_of [1; 1; 1] 1 (link_line (Ext 0 0 None) (Int 0) 1 64) = [6; 3]%nat.
Proof. vm_compute. auto. Qed.
