(* ===== verification/NetStore.v ===== *)
(** * Buffers and messages of the network

    [NetworkMessage.h] of [gems-lib/ruby_clean/slicc_interface] and the objects
    the components of the network share through pointers: the message buffers,
    the messages (their timing fields are those of [MessageBuffer.v]) and the
    event queue.  The fields a protocol adds to a message are a parameter, and
    [random()] is a stream. *)

From stdpp Require Import gmap sets list numbers.
From S2P Require Import Prelude NodeSet NetDest PrioHeap EventQueue MessageBuffer MessageFifo.
Local Open Scope Z_scope.

(** ** Messages *)

Inductive MessageSizeType :=
  | Undefined | Control | Data | Request_Control | Reissue_Control | Response_Data | ResponseL2hit_Data
  | ResponseLocal_Data | Response_Control | Writeback_Data | Writeback_Control | Forwarded_Control
  | Invalidate_Control | Unblock_Control | Persistent_Control | Completion_Control.

Definition CONTROL_MESSAGE_SIZE : Z := 8.
Definition DATA_MESSAGE_SIZE : Z := 64 + 8.

(** [ERROR_MSG] stops the program. *)
Definition MessageSizeType_to_int (size_type : MessageSizeType) : outcome Z :=
  match size_type with
  | Undefined => Raise AssertFailed
  | Control | Request_Control | Reissue_Control | Response_Control | Writeback_Control | Forwarded_Control
  | Invalidate_Control | Unblock_Control | Persistent_Control | Completion_Control => Ret CONTROL_MESSAGE_SIZE
  | Data | Response_Data | ResponseLocal_Data | ResponseL2hit_Data | Writeback_Data => Ret DATA_MESSAGE_SIZE
  end.

Record NetworkMessage (B : Type) := mkNetMsg {
  getDestination : list NodeSet;
  getMessageSize : MessageSizeType;
  m_internal_dest : list NodeSet;
  m_internal_dest_valid : bool;
  protocol_fields : B
}.
Arguments mkNetMsg {B}.
Arguments getDestination {B}.
Arguments getMessageSize {B}.
Arguments m_internal_dest {B}.
Arguments m_internal_dest_valid {B}.
Arguments protocol_fields {B}.

(** The [const] method. *)
Definition internal {B} (m : NetworkMessage B) : list NodeSet :=
  if m_internal_dest_valid m then m_internal_dest m else getDestination m.

(** The method that hands out a reference fixes the internal destination. *)
Definition getInternalDestination {B} (m : NetworkMessage B) : NetworkMessage B :=
  mkNetMsg (getDestination m) (getMessageSize m) (internal m) true (protocol_fields m).

Definition set_internal {B} (d : list NodeSet) (m : NetworkMessage B) : NetworkMessage B :=
  mkNetMsg (getDestination m) (getMessageSize m) d true (protocol_fields m).

(** ** The shared state *)

Record netstate (W B : Type) := mkNet {
  bufs : nat → MessageBuffer;
  timing : nat → Message;
  netmsgs : nat → NetworkMessage B;
  next_msg : nat;
  net_evq : world W;
  draws : nat
}.
Arguments mkNet {W B}.
Arguments bufs {W B}.
Arguments timing {W B}.
Arguments netmsgs {W B}.
Arguments next_msg {W B}.
Arguments net_evq {W B}.
Arguments draws {W B}.

(** One object of a store replaced. *)
Definition upd {A} (i : nat) (x : A) (f : nat → A) : nat → A := λ j, if decide (j = i) then x else f j.

Section store.
Context {W B : Type}.
Variable RANDOMIZATION : bool.
Variable random : nat → Z.
Implicit Types st : netstate W B.

Definition now st : Z := getTime (net_evq st).

Definition set_bufs (i : nat) (b : MessageBuffer) st : netstate W B :=
  mkNet (upd i b (bufs st)) (timing st) (netmsgs st) (next_msg st) (net_evq st) (draws st).

Definition set_netmsg (p : nat) (m : NetworkMessage B) st : netstate W B :=
  mkNet (bufs st) (timing st) (upd p m (netmsgs st)) (next_msg st) (net_evq st) (draws st).

(** [m_buffer->enqueue(msg_ptr, delta)] *)
Definition net_enqueue (i p : nat) (delta : Z) st : outcome (netstate W B) :=
  let r := draws st in
  s ← enqueue RANDOMIZATION (Some p) delta (random r, random (r + 1)%nat, random (r + 2)%nat)
        (mkMB (bufs st i) (timing st) (net_evq st));
  Ret (mkNet (upd i (buf s) (bufs st)) (msgs s) (netmsgs st) (next_msg st) (evq s) (r + 3)).

Definition net_pop (i : nat) st : outcome (netstate W B) :=
  b ← pop (now st) (bufs st i); Ret (set_bufs i b st).

Definition net_isReady (i : nat) st : bool := isReady (now st) (bufs st i).

Definition net_peek (i : nat) st : outcome nat :=
  m ← peekMsgPtr (now st) (bufs st i); deref m.

Definition net_slots (i : nat) (n : Z) st : bool * netstate W B :=
  let '(r, b) := areNSlotsAvailable (now st) n (bufs st i) in (r, set_bufs i b st).

Definition net_size (i : nat) st : Z * netstate W B :=
  let '(r, b) := MessageBuffer.getSize (now st) (bufs st i) in (r, set_bufs i b st).

(** A private copy of a message. *)
Definition copy_msg (p : nat) st : nat * netstate W B :=
  let u := next_msg st in
  (u, mkNet (bufs st) (upd u (timing st p) (timing st)) (upd u (netmsgs st p) (netmsgs st)) (S u)
        (net_evq st) (draws st)).

Definition net_schedule (c : nat) (delta : Z) st : outcome (netstate W B) :=
  e ← scheduleEvent (Some c) delta (net_evq st);
  Ret (mkNet (bufs st) (timing st) (netmsgs st) (next_msg st) e (draws st)).

Definition next_random st : Z * netstate W B :=
  (random (draws st), mkNet (bufs st) (timing st) (netmsgs st) (next_msg st) (net_evq st) (S (draws st))).
End store.

Lemma upd_same {A} i (x : A) f : upd i x f i = x.
Proof. unfold upd. by rewrite decide_True. Qed.

Lemma upd_other {A} i j (x : A) f : j ≠ i → upd i x f j = f j.
Proof. intros H. unfold upd. by rewrite decide_False. Qed.

#[export] Hint Rewrite @upd_same : csim.

(** A concatenation over distinct indices, at one of them. *)
Lemma bind_focus {A} (ids : list nat) i : NoDup ids → i ∈ ids →
  ∃ others, i ∉ others ∧ (∀ j, j ∈ others → j ∈ ids) ∧
    ∀ f : nat → list A, ids ≫= f ≡ₚ f i ++ (others ≫= f).
Proof.
  intros Hnd Hi. apply elem_of_Permutation in Hi as [k Hk]. exists k. rewrite Hk in Hnd.
  apply NoDup_cons in Hnd as [Hn _]. split; [done|]. split; [intros j Hj; rewrite Hk; by right|].
  intros f. by rewrite (bind_Permutation f ids (i :: k)).
Qed.

Lemma bind_ext_in {A C} (f g : A → list C) l : (∀ x, x ∈ l → f x = g x) → l ≫= f = l ≫= g.
Proof.
  induction l as [|x l IH]; intros H; cbn; [done|]. rewrite (H x) by left. f_equal. apply IH.
  intros y Hy. apply H. by right.
Qed.

Lemma bind_change {A} (ids : list nat) i (f g : nat → list A) x y :
  NoDup ids → i ∈ ids → (∀ j, j ∈ ids → j ≠ i → g j = f j) → f i ++ x ≡ₚ g i ++ y →
  (ids ≫= f) ++ x ≡ₚ (ids ≫= g) ++ y.
Proof.
  intros Hnd Hi Hfg Hp. destruct (bind_focus (A := A) ids i Hnd Hi) as (k & Hk & Hsub & E).
  rewrite (E f), (E g). rewrite (bind_ext_in g f k) by (intros j Hj; apply Hfg; [auto|congruence]).
  rewrite <- !app_assoc, (Permutation_app_comm _ x), (Permutation_app_comm _ y), !app_assoc. by rewrite Hp.
Qed.

(** ** What the buffers hold *)

Section contents.
Context {W B : Type}.
Variable counts : list Z.
Implicit Types (st : netstate W B) (Q : nat → list MessageBufferNode).

(** What a message says apart from where this copy goes. *)
Definition payload (m : NetworkMessage B) : list NodeSet * MessageSizeType * B :=
  (getDestination m, getMessageSize m, protocol_fields m).

Definition targets (m : NetworkMessage B) : gset (nat * Z) := dests (internal m).

(** The deliveries a message still owes. *)
Definition owes (m : NetworkMessage B) : list (list NodeSet * MessageSizeType * B * (nat * Z)) :=
  pair (payload m) <$> base.elements (targets m).

Definition owed_at st (q : list MessageBufferNode) : list (list NodeSet * MessageSizeType * B * (nat * Z)) :=
  n ← q; match mn_msgptr n with Some p => owes (netmsgs st p) | None => [] end.

Definition owed st (ids : list nat) Q := ids ≫= λ i, owed_at st (Q i).

(** The buffers [ids] represent the queues [R]. *)
Definition reps st (ids : list nat) (R : nat → list MessageBufferNode) : Prop :=
  ∀ i, i ∈ ids → represents (bufs st i) (R i).

(** A message in flight: already sent, and for components that exist. *)
Record msg_ok st (t : Z) (p : nat) : Prop := {
  mo_old : (p < next_msg st)%nat;
  mo_time : m_LastEnqueueTime (timing st p) ≤ t;
  mo_dest : NetDest.dest_ok counts (internal (netmsgs st p))
}.

Record held st (ids : list nat) Q : Prop := {
  he_msgs : ∀ i n, i ∈ ids → n ∈ Q i → ∃ p, mn_msgptr n = Some p ∧ msg_ok st (mn_time n) p;
  he_once : NoDup (ids ≫= λ i, mn_msgptr <$> Q i)
}.

Definition not_held (p : nat) (ids : list nat) Q : Prop := Some p ∉ (ids ≫= λ i, mn_msgptr <$> Q i).

Lemma not_held_spec p ids Q : not_held p ids Q ↔ ∀ i n, i ∈ ids → n ∈ Q i → mn_msgptr n ≠ Some p.
Proof.
  unfold not_held. rewrite list_elem_of_bind. split.
  - intros H i n Hi Hn E. apply H. exists i. split; [|done]. apply list_elem_of_fmap. by exists n.
  - intros H (i & (n & E & Hn)%list_elem_of_fmap & Hi). by eapply H.
Qed.

(** Two states that differ in messages no buffer holds. *)
Lemma owed_ext st st' ids Q :
  (∀ i n p, i ∈ ids → n ∈ Q i → mn_msgptr n = Some p → payload (netmsgs st' p) = payload (netmsgs st p) ∧
     targets (netmsgs st' p) = targets (netmsgs st p)) →
  owed st' ids Q = owed st ids Q.
Proof.
  intros H. apply bind_ext_in. intros i Hi. apply bind_ext_in. intros n Hn.
  destruct (mn_msgptr n) as [p|] eqn:E; [|done]. destruct (H i n p Hi Hn E) as [H1 H2]. unfold owes. by rewrite H1, H2.
Qed.

Lemma held_ext st st' ids Q :
  (∀ i n p, i ∈ ids → n ∈ Q i → mn_msgptr n = Some p → msg_ok st (mn_time n) p → msg_ok st' (mn_time n) p) →
  held st ids Q → held st' ids Q.
Proof.
  intros H [H1 H2]. split; [|done]. intros i n Hi Hn. destruct (H1 i n Hi Hn) as (p & E & Hp). exists p. eauto.
Qed.

(** Taking the head of a queue. *)
Lemma held_tail st ids Q i n q : NoDup ids → held st ids Q → i ∈ ids → Q i = n :: q →
  held st ids (upd i q Q) ∧
  ∃ p, mn_msgptr n = Some p ∧ msg_ok st (mn_time n) p ∧ not_held p ids (upd i q Q) ∧
    owed st ids Q ≡ₚ owes (netmsgs st p) ++ owed st ids (upd i q Q).
Proof.
  intros Hnd [H1 H2] Hi Hq. destruct (H1 i n Hi) as (p & Ep & Hp); [rewrite Hq; left|].
  assert (Hperm : (ids ≫= λ i, mn_msgptr <$> Q i) ++ [] ≡ₚ (ids ≫= λ j, mn_msgptr <$> upd i q Q j) ++ [Some p]).
  { apply (bind_change ids i); [done|done|intros j _ Hj; by rewrite upd_other|].
    rewrite upd_same, Hq, app_nil_r. cbn. rewrite Ep. apply Permutation_cons_append. }
  rewrite app_nil_r in Hperm. rewrite Hperm in H2. apply NoDup_app in H2 as (H2 & Hno & _).
  split; [split; [|done]|].
  - intros j m Hj Hm. apply (H1 j); [done|]. destruct (decide (j = i)) as [->|Hne]; [|by rewrite upd_other in Hm].
    rewrite upd_same in Hm. rewrite Hq. by right.
  - exists p. split; [done|]. split; [done|]. split; [intros Hin; destruct (Hno _ Hin); by left|].
    rewrite (Permutation_app_comm (owes _)), <- (app_nil_r (owed st ids Q)).
    apply (bind_change ids i); [done|done|intros j _ Hj; by rewrite upd_other|].
    rewrite upd_same, Hq, app_nil_r. cbn. rewrite Ep. apply Permutation_app_comm.
Qed.

(** Putting a message into a queue. *)
Lemma held_insert st ids Q i n p : NoDup ids → held st ids Q → i ∈ ids →
  mn_msgptr n = Some p → msg_ok st (mn_time n) p → not_held p ids Q →
  held st ids (upd i (insert_node n (Q i)) Q) ∧
  owed st ids (upd i (insert_node n (Q i)) Q) ≡ₚ owes (netmsgs st p) ++ owed st ids Q.
Proof.
  intros Hnd [H1 H2] Hi Ep Hp Hno. split; [split|].
  - intros j m Hj Hm. destruct (decide (j = i)) as [->|Hne]; [|rewrite upd_other in Hm by done; by apply (H1 j)].
    rewrite upd_same, insert_node_perm, elem_of_cons in Hm. destruct Hm as [->|Hm]; [by exists p|by apply (H1 i)].
  - assert (Hperm : (ids ≫= λ i, mn_msgptr <$> Q i) ++ [Some p] ≡ₚ
        (ids ≫= λ j, mn_msgptr <$> upd i (insert_node n (Q i)) Q j) ++ []).
    { apply (bind_change ids i); [done|done|intros j _ Hj; by rewrite upd_other|].
      rewrite upd_same, insert_node_perm, app_nil_r. cbn. rewrite Ep. symmetry. apply Permutation_cons_append. }
    rewrite app_nil_r in Hperm. rewrite <- Hperm. apply NoDup_app. split; [done|]. split; [|apply NoDup_singleton].
    intros x Hx ->%list_elem_of_singleton. by apply Hno.
  - rewrite (Permutation_app_comm (owes _)), <- (app_nil_r (owed st ids (upd _ _ _))). symmetry.
    apply (bind_change ids i); [done|done|intros j _ Hj; by rewrite upd_other|].
    rewrite upd_same, app_nil_r. unfold owed_at. rewrite (bind_Permutation _ _ _ (insert_node_perm n (Q i))).
    cbn. rewrite Ep. apply Permutation_app_comm.
Qed.
End contents.

(** ** The operations on the store *)

Section operations.
Context {W B : Type}.
Variable RANDOMIZATION : bool.
Variable random : nat → Z.
(** The events of the cycle that are still to come. *)
Variable P : list EventQueueNode.
Implicit Types st : netstate W B.

Definition fixed_delay b : bool := negb RANDOMIZATION || negb (m_randomization b).

(** A buffer takes messages with this delay. *)
Record accepts (delta t : Z) (b : MessageBuffer) : Prop := {
  ac_ordering : m_ordering_set b = true;
  ac_consumer : is_Some (m_consumer b);
  ac_last : m_strict_fifo b = true → fixed_delay b = true → m_last_arrival_time b ≤ t + delta
}.

Definition config (b : MessageBuffer) := (m_consumer b, m_strict_fifo b, m_ordering_set b, m_randomization b).

(** What no operation of the network changes. *)
Record evolves st st' : Prop := {
  ev_kept : kept (net_evq st) (net_evq st');
  ev_next : (next_msg st ≤ next_msg st')%nat;
  ev_config : ∀ i, config (bufs st' i) = config (bufs st i)
}.

Lemma evolves_refl st : evolves st st.
Proof. split; [apply kept_refl|done|done]. Qed.

Lemma evolves_trans st1 st2 st3 : evolves st1 st2 → evolves st2 st3 → evolves st1 st3.
Proof. intros [K1 N1 C1] [K2 N2 C2]. split; [by eapply kept_trans|lia|]. intros i. by rewrite C2. Qed.

Lemma ev_now st st' : evolves st st' → now st' = now st.
Proof. intros H. apply (kept_time _ _ (ev_kept _ _ H)). Qed.

Lemma arrival_ok t delta d b : accepts delta t b → 0 < delta →
  ∃ a last, arrival RANDOMIZATION t delta d b = (a, last) ∧ t < a ∧ (m_strict_fifo b = true → last ≤ a) ∧
    (fixed_delay b = true → a = t + delta).
Proof.
  intros [_ _ Hl] Hd. unfold arrival, fixed_delay in *. destruct d as [[r1 r2] r3].
  pose proof (random_time_bounds r1 r2 r3) as Hr. destruct (negb RANDOMIZATION || negb (m_randomization b)).
  - eexists _, _. split; [done|]. split; [lia|]. split; [intros Hs; by apply Hl|done].
  - destruct (m_strict_fifo b).
    + eexists _, _. split; [done|]. destruct (Z.ltb_spec (m_last_arrival_time b) t); (split; [lia|split; [lia|done]]).
    + eexists _, _. split; [done|]. split; [lia|]. by split.
Qed.

Record enqueued (i p : nat) (delta : Z) st (t : Z) st' : Prop := {
  en_evolves : evolves st st';
  en_time : now st < t;
  en_other : ∀ j, j ≠ i → bufs st' j = bufs st j;
  en_counter : m_msg_counter (bufs st' i) = m_msg_counter (bufs st i) + 1;
  en_accepts : accepts delta (now st) (bufs st' i);
  en_netmsgs : netmsgs st' = netmsgs st;
  en_next : next_msg st' = next_msg st;
  en_timing : ∀ q, m_LastEnqueueTime (timing st' q) = if decide (q = p) then t else m_LastEnqueueTime (timing st q);
  en_events : pending_ok P (net_evq st');
  en_wakes : ∀ c, m_consumer (bufs st i) = Some c → mkNode t (Some c) ∈ nodes (net_evq st')
}.

Lemma net_enqueue_ok i p delta st q :
  represents (bufs st i) q → m_msg_counter (bufs st i) < 2 ^ 31 - 1 → pending_ok P (net_evq st) →
  accepts delta (now st) (bufs st i) → 0 < delta → m_LastEnqueueTime (timing st p) ≤ now st →
  ∃ st' t, net_enqueue RANDOMIZATION random i p delta st = Ret st' ∧ enqueued i p delta st t st' ∧
    represents (bufs st' i) (insert_node (mkMsgNode t (m_msg_counter (bufs st i) + 1) (Some p)) q).
Proof.
  intros Hr Hcnt Hev Hac Hd Hp. unfold net_enqueue, enqueue, time. cbn [buf msgs evq]. fold (now st).
  destruct (arrival_ok (now st) delta (random (draws st), random (draws st + 1)%nat, random (draws st + 2)%nat) _ Hac Hd)
    as (t & last & -> & Ht & Hlast & Hfix).
  pose proof Hac as [Ho [c Hc] _]. rewrite Ho. cbn [assertb mbind outcome_bind].
  rewrite (proj2 (Z.ltb_lt _ _) Hd), (proj2 (Z.ltb_lt _ _) Ht). cbn [assertb mbind outcome_bind].
  assert (E : negb (m_strict_fifo (bufs st i)) || (last <=? t) = true).
  { destruct (m_strict_fifo _); [|done]. apply Z.leb_le. by apply Hlast. }
  rewrite E, (proj2 (Z.leb_le _ _) Hp). cbn [assertb mbind outcome_bind].
  destruct (enqueue_node_ok (now st) p t _ q Hr Hcnt) as (b & -> & Hrb & Ecnt & El & Ec & Es & Eo & Er).
  cbn [mbind outcome_bind]. rewrite Hc.
  destruct (schedule_ok P (net_evq st) c t Hev Ht) as (e & -> & He & Hk & Hin & _). cbn [mbind outcome_bind buf msgs evq].
  eexists _, t. split; [done|]. cbn. rewrite upd_same. split; [|done].
  split; cbn; rewrite ?upd_same; try done.
  - split; cbn; [done|done|]. intros j. unfold upd. case_decide; [subst j|done]. unfold config. congruence.
  - intros j Hj. by rewrite upd_other.
  - split; [congruence|rewrite Ec, Hc; eauto|]. unfold fixed_delay in *. rewrite Es, Er, El. intros _ H. rewrite Hfix by done. lia.
  - intros j. unfold set_msg. by case_decide.
  - intros c' Hc'. rewrite Hc in Hc'. by injection Hc' as <-.
Qed.

Lemma net_pop_ok i st n q : represents (bufs st i) (n :: q) → mn_time n ≤ now st →
  ∃ b, net_pop i st = Ret (set_bufs i b st) ∧ represents b q ∧ m_msg_counter b = m_msg_counter (bufs st i) ∧
    m_last_arrival_time b = m_last_arrival_time (bufs st i) ∧ config b = config (bufs st i).
Proof.
  intros Hr Hn. unfold net_pop. destruct (pop_ok (now st) _ n q Hr Hn) as (b & -> & Hb & Hcnt & Hl & Hc & Hs & Ho & Hra).
  cbn [mbind outcome_bind]. exists b. unfold config. split_and!; [done..|congruence].
Qed.

Lemma net_peek_ok i st n q p : represents (bufs st i) (n :: q) → mn_time n ≤ now st → mn_msgptr n = Some p →
  net_peek i st = Ret p.
Proof.
  intros Hr Hn Hp. unfold net_peek, peekMsgPtr. rewrite (rep_isReady _ _ _ Hr), (proj2 (Z.leb_le _ _) Hn), (rep_peek _ _ _ Hr).
  cbn. by rewrite Hp.
Qed.

Lemma net_schedule_ok c delta st : pending_ok P (net_evq st) → 0 < delta →
  ∃ e, net_schedule c delta st = Ret (mkNet (bufs st) (timing st) (netmsgs st) (next_msg st) e (draws st)) ∧
    pending_ok P e ∧ kept (net_evq st) e ∧ mkNode (now st + delta) (Some c) ∈ nodes e.
Proof.
  intros Hev Hd. unfold net_schedule, scheduleEvent.
  destruct (schedule_ok P (net_evq st) c (getTime (net_evq st) + delta) Hev) as (e & E & He & Hk & Hin & _); [lia|].
  replace (delta + getTime (net_evq st)) with (getTime (net_evq st) + delta) by lia.
  rewrite E. cbn [mbind outcome_bind]. by exists e.
Qed.

(** Looking at a buffer changes its statistics only. *)
Definition same_queue (b b' : MessageBuffer) : Prop :=
  mb_heap b' = mb_heap b ∧ m_size b' = m_size b ∧ m_msg_counter b' = m_msg_counter b ∧
  m_last_arrival_time b' = m_last_arrival_time b ∧ config b' = config b.

Lemma same_queue_rep b b' q : same_queue b b' → represents b q → represents b' q.
Proof. intros (E1 & E2 & E3 & _) [H1 H2 H3 H4 H5 H6 H7 H8]. split; rewrite ?E1, ?E2, ?E3; done. Qed.

Lemma same_queue_accepts delta t b b' : same_queue b b' → accepts delta t b → accepts delta t b'.
Proof.
  intros (_ & _ & _ & El & Ec) [H1 H2 H3]. unfold config in Ec. injection Ec as E1 E2 E3 E4.
  split; [congruence|congruence|]. unfold fixed_delay in *. by rewrite E2, E4, El.
Qed.

(** Two states that differ in statistics, in the random numbers drawn, and in
    how messages store their internal destination. *)
Record looked st st' : Prop := {
  lk_bufs : ∀ i, same_queue (bufs st i) (bufs st' i);
  lk_timing : timing st' = timing st;
  lk_netmsgs : ∀ p, payload (netmsgs st' p) = payload (netmsgs st p) ∧ internal (netmsgs st' p) = internal (netmsgs st p);
  lk_next : next_msg st' = next_msg st;
  lk_evq : net_evq st' = net_evq st
}.

Lemma looked_refl st : looked st st.
Proof. by split. Qed.

Lemma looked_trans st1 st2 st3 : looked st1 st2 → looked st2 st3 → looked st1 st3.
Proof.
  intros [B1 T1 M1 N1 E1] [B2 T2 M2 N2 E2]. split; [| congruence | |congruence..].
  - intros i. destruct (B1 i) as (? & ? & ? & ? & ?), (B2 i) as (? & ? & ? & ? & ?). unfold same_queue. split_and!; congruence.
  - intros p. destruct (M1 p), (M2 p). split; congruence.
Qed.

Lemma looked_set i b st : same_queue (bufs st i) b → looked st (set_bufs i b st).
Proof. intros H. split; try done. intros j. cbn. unfold upd. case_decide; [by subst j|done]. Qed.

Lemma net_slots_looked i n st : looked st (net_slots i n st).2.
Proof.
  unfold net_slots. destruct (areNSlotsAvailable _ _ _) as [r b] eqn:E. cbn. apply looked_set.
  unfold areNSlotsAvailable in E. destruct (m_max_size _ =? -1); [by injection E as <- <-|].
  destruct (_ <=? _); by injection E as <- <-.
Qed.

Lemma net_size_looked i st : looked st (net_size i st).2.
Proof.
  unfold net_size. destruct (MessageBuffer.getSize _ _) as [r b] eqn:E. cbn. apply looked_set.
  unfold MessageBuffer.getSize in E. destruct (_ =? _); by injection E as <- <-.
Qed.

Lemma next_random_looked st : looked st (next_random random st).2.
Proof. by split. Qed.

Lemma fixed_looked p st : looked st (set_netmsg p (getInternalDestination (netmsgs st p)) st).
Proof. split; cbn; try done. intros x. unfold upd. case_decide; [by subst x|done]. Qed.

Lemma looked_evolves st st' : looked st st' → evolves st st'.
Proof.
  intros [H1 H2 H3 H4 H5]. split; [rewrite H5; apply kept_refl|lia|]. intros i. by destruct (H1 i) as (_ & _ & _ & _ & ?).
Qed.

Lemma looked_reps st st' ids R : looked st st' → reps st ids R → reps st' ids R.
Proof. intros Hl Hr i Hi. eapply same_queue_rep; [apply Hl|]. by apply Hr. Qed.

Lemma looked_held counts st st' ids Q : looked st st' → held counts st ids Q → held counts st' ids Q.
Proof.
  intros Hl. apply held_ext. intros i n p _ _ _ [H1 H2 H3]. destruct (lk_netmsgs _ _ Hl p) as [_ E].
  split; [by rewrite (lk_next _ _ Hl)|by rewrite (lk_timing _ _ Hl)|by rewrite E].
Qed.

Lemma looked_targets st st' p : looked st st' → targets (netmsgs st' p) = targets (netmsgs st p).
Proof. intros Hl. unfold targets. by destruct (lk_netmsgs _ _ Hl p) as [_ ->]. Qed.

Lemma looked_owed st st' ids Q : looked st st' → owed st' ids Q = owed st ids Q.
Proof. intros Hl. apply owed_ext. intros i n p _ _ _. split; [apply (lk_netmsgs _ _ Hl)|by apply looked_targets]. Qed.
End operations.

(** ** Moving the head of one buffer to another *)

Section moving.
Context {W B : Type}.
Variable RANDOMIZATION : bool.
Variable random : nat → Z.
Variable counts : list Z.
Variable P : list EventQueueNode.
Variable ids : list nat.
Hypothesis Hids : NoDup ids.
Implicit Types st : netstate W B.

Lemma net_move_ok i o delta st Q n q p :
  reps st ids Q → held counts st ids Q → pending_ok P (net_evq st) → i ∈ ids → o ∈ ids → o ≠ i → 0 < delta →
  Q i = n :: q → mn_time n ≤ now st → mn_msgptr n = Some p →
  m_msg_counter (bufs st o) < 2 ^ 31 - 1 → accepts RANDOMIZATION delta (now st) (bufs st o) →
  ∃ st1 t b, let m := mkMsgNode t (m_msg_counter (bufs st o) + 1) (Some p) in
    let Q' := upd o (insert_node m (Q o)) (upd i q Q) in
    let st' := set_bufs i b st1 in
    net_enqueue RANDOMIZATION random o p delta st = Ret st1 ∧ net_pop i st1 = Ret st' ∧
    enqueued RANDOMIZATION P o p delta st t st1 ∧ bufs st1 i = bufs st i ∧
    m_msg_counter b = m_msg_counter (bufs st i) ∧ config b = config (bufs st i) ∧
    m_last_arrival_time b = m_last_arrival_time (bufs st i) ∧
    reps st' ids Q' ∧ held counts st' ids Q' ∧ evolves st st' ∧ owed st' ids Q' ≡ₚ owed st ids Q.
Proof.
  intros Hr Hh He Hi Ho Hne Hd Hq Hn Hp Hroom Hac.
  destruct (held_tail counts st ids Q i n q Hids Hh Hi Hq) as (Hh1 & x & Ex & [X1 X2 X3] & Hfree & Howed).
  rewrite Hp in Ex. injection Ex as <-.
  destruct (net_enqueue_ok RANDOMIZATION random P o p delta st (Q o) (Hr o Ho) Hroom He Hac Hd) as (st1 & t & E1 & En & Hrep); [lia|].
  pose proof En as [Ev Et Eoth Ecnt Eac Enm Enx Etm Eev Ewk]. pose proof (Hr i Hi) as Hri. rewrite Hq in Hri.
  assert (Hbi : bufs st1 i = bufs st i) by (by apply Eoth).
  destruct (net_pop_ok i st1 n q) as (b & E2 & Hrb & Hbc & Hbl & Hbcfg); [by rewrite Hbi|by rewrite (ev_now _ _ Ev)|].
  rewrite Hbi in Hbc, Hbl, Hbcfg. exists st1, t, b. cbn zeta. set (m := mkMsgNode t _ (Some p)) in *.
  split; [done|]. split; [done|]. split; [done|]. split; [done|]. split; [done|]. split; [done|]. split; [done|].
  assert (Hev : evolves st (set_bufs i b st1)).
  { eapply evolves_trans; [exact Ev|]. split; [apply kept_refl|done|]. intros j. cbn. unfold upd. case_decide; [subst j; by rewrite Hbi|done]. }
  assert (Hheld : held counts (set_bufs i b st1) ids (upd i q Q)).
  { eapply held_ext; [|exact Hh1]. intros j k y Hj Hk Ey [Y1 Y2 Y3]. split; cbn; [by rewrite Enx|rewrite Etm|by rewrite Enm].
    rewrite decide_False; [done|]. intros ->. by eapply (proj1 (not_held_spec p ids _) Hfree). }
  destruct (held_insert counts (set_bufs i b st1) ids (upd i q Q) o m p Hids Hheld Ho eq_refl) as [Hheld' Howed'].
  { split; cbn; [by rewrite Enx|rewrite Etm, decide_True by done; lia|by rewrite Enm]. }
  { done. }
  rewrite (upd_other i o) in Hheld', Howed' by done. split; [|split; [done|split; [done|]]].
  - intros j Hj. cbn. destruct (decide (j = i)) as [->|Hji]; [by rewrite (upd_other o), !upd_same by done|].
    rewrite (upd_other i j) by done. destruct (decide (j = o)) as [->|Hjo]; [by rewrite upd_same|].
    rewrite Eoth, !upd_other by done. by apply Hr.
  - rewrite Howed', Howed, (owed_ext st (set_bufs i b st1)); [cbn; by rewrite Enm|]. intros; cbn. by rewrite Enm.
Qed.
End moving.
