(* ===== verification/PerfectSwitch.v ===== *)
(** * The switch

    [PerfectSwitch.C], [PerfectSwitch.h] of [gems-lib/ruby_clean/network/simple]:
    moves the messages that are ready at its input ports to the buffers of the
    links that lead to their destinations, with one copy per link.  Left out:
    the descriptions of the buffers, statistics and printing. *)

From stdpp Require Import gmap sets list numbers.
From S2P Require Import Prelude NodeSet NetDest PrioHeap EventQueue MessageBuffer NetStore.
Local Open Scope Z_scope.

Definition PRIORITY_SWITCH_LIMIT : Z := 128.

Record LinkOrder := mkLinkOrder { m_link : nat; m_value : Z }.

(** [ps_this] is the object as a consumer of the event queue. *)
Record PerfectSwitch := mkSwitch {
  ps_this : nat;
  m_switch_id : nat;
  m_in : list (list nat);
  m_out : list (list nat);
  m_routing_table : list (list NodeSet);
  m_link_order : list LinkOrder;
  m_round_robin_start : Z;
  m_wakeups_wo_switch : Z
}.

Definition new_PerfectSwitch (this sid : nat) : PerfectSwitch := mkSwitch this sid [] [] [] [] 0 0.

Section switch.
Context {W B : Type}.
(** Configuration. *)
Variable RANDOMIZATION : bool.
Variable g_adaptive_routing : bool.
Variable m_virtual_networks : nat.
(** [m_network_ptr->isVNetOrdered] *)
Variable isVNetOrdered : nat → bool.
(** [std::sort] with the order of the values. *)
Variable sortVector : list LinkOrder → list LinkOrder.
Variable random : nat → Z.
Implicit Types (st : netstate W B) (sw : PerfectSwitch).

Notation state := (PerfectSwitch * netstate W B)%type.

(** ** Ports *)

Definition set_consumer_of (c i : nat) st : outcome (netstate W B) :=
  b ← setConsumer c (bufs st i); Ret (set_bufs i b st).

Definition addInPort (in_vec : list nat) '(sw, st) : outcome state :=
  assertb (length in_vec =? m_virtual_networks)%nat ;;
  st ← foldM (λ st i, set_consumer_of (ps_this sw) i st) st in_vec;
  Ret (mkSwitch (ps_this sw) (m_switch_id sw) (m_in sw ++ [in_vec]) (m_out sw) (m_routing_table sw) (m_link_order sw)
         (m_round_robin_start sw) (m_wakeups_wo_switch sw), st).

Definition addOutPort (out : list nat) (entry : list NodeSet) sw : outcome PerfectSwitch :=
  assertb (length out =? m_virtual_networks)%nat ;;
  Ret (mkSwitch (ps_this sw) (m_switch_id sw) (m_in sw) (m_out sw ++ [out]) (m_routing_table sw ++ [entry])
         (m_link_order sw ++ [mkLinkOrder (length (m_out sw)) 0])
         (m_round_robin_start sw) (m_wakeups_wo_switch sw)).

Definition clearRoutingTables sw : PerfectSwitch :=
  mkSwitch (ps_this sw) (m_switch_id sw) (m_in sw) (m_out sw) [] (m_link_order sw) (m_round_robin_start sw) (m_wakeups_wo_switch sw).

Definition reconfigureOutPort (entry : list NodeSet) sw : PerfectSwitch :=
  mkSwitch (ps_this sw) (m_switch_id sw) (m_in sw) (m_out sw) (m_routing_table sw ++ [entry]) (m_link_order sw)
    (m_round_robin_start sw) (m_wakeups_wo_switch sw).

Definition clear_ports (ports : list (list nat)) st : outcome (netstate W B) :=
  foldM (λ st port,
      foldM (λ st vnet, i ← port.[vnet]!; b ← MessageBuffer.clear (bufs st i); Ret (set_bufs i b st))
        st (seq 0 m_virtual_networks)) st ports.

Definition clearBuffers '(sw, st) : outcome (netstate W B) :=
  st ← clear_ports (m_in sw) st; clear_ports (m_out sw) st.

(** ** Routing of one message *)

Definition set_link_order (o : list LinkOrder) sw : PerfectSwitch :=
  mkSwitch (ps_this sw) (m_switch_id sw) (m_in sw) (m_out sw) (m_routing_table sw) o (m_round_robin_start sw) (m_wakeups_wo_switch sw).

Definition out_queue_length (link : list nat) st : outcome (Z * netstate W B) :=
  foldM (λ '(len, st) v, i ← link.[v]!; let '(n, st) := net_size i st in Ret (i32 (len + n), st))
    (0, st) (seq 0 m_virtual_networks).

Definition clogged '(order, st) '(outlink, link) : outcome (list LinkOrder * netstate W B) :=
  '(len, st) ← out_queue_length link st;
  let '(r, st) := next_random random st in
  Ret (order ++ [mkLinkOrder outlink (Z.lor (i32 (Z.shiftl len 8)) (Z.land r 255))], st).

Definition order_links (vnet : nat) '(sw, st) : outcome state :=
  assertb (length (m_link_order sw) =? length (m_routing_table sw))%nat ;;
  assertb (length (m_link_order sw) =? length (m_out sw))%nat ;;
  if g_adaptive_routing then
    if isVNetOrdered vnet then
      Ret (set_link_order (imap (λ outlink _, mkLinkOrder outlink 0) (m_out sw)) sw, st)
    else
      '(order, st) ← foldM clogged ([], st) (imap pair (m_out sw));
      Ret (set_link_order (sortVector order) sw, st)
  else Ret (sw, st).

(** The links to use with the destinations each is responsible for, and the
    destinations that are left. *)
Definition route_link sw '(links, rest) (i : nat) : outcome (list (nat * list NodeSet) * list NodeSet) :=
  o ← (m_link_order sw).[i]!;
  entry ← (m_routing_table sw).[m_link o]!;
  b ← intersectionIsNotEmpty rest entry;
  if b : bool then
    share ← AND rest entry; rest ← removeNetDest rest entry;
    Ret (links ++ [(m_link o, share)], rest)
  else Ret (links, rest).

Definition route sw (d : list NodeSet) : outcome (list (nat * list NodeSet)) :=
  '(links, rest) ← foldM (route_link sw) ([], d) (seq 0 (length (m_routing_table sw)));
  assertb (NetDest.count rest =? 0) ;;
  Ret links.

Definition out_buffer (link vnet : nat) sw : outcome nat :=
  port ← (m_out sw).[link]!; port.[vnet]!.

(** [enough = enough && ...] *)
Definition enough_slots (vnet : nat) sw '(enough, st) '(outgoing, share) : outcome (bool * netstate W B) :=
  if enough : bool then o ← out_buffer outgoing vnet sw; Ret (net_slots o 1 st)
  else let _ := share : list NodeSet in Ret (false, st).

Definition send (vnet p u : nat) sw st '(i, (outgoing, share)) : outcome (netstate W B) :=
  let '(q, st) := if (0 <? i)%nat then copy_msg u st else (p, st) in
  let st := set_netmsg q (set_internal share (netmsgs st q)) st in
  o ← out_buffer outgoing vnet sw;
  net_enqueue RANDOMIZATION random o q 1 st.

(** ** The wakeup *)

(** What a turn of the [while] loop ends with: blocked, or another turn. *)
Definition forward (incoming vnet : nat) '(sw, st) : outcome (bool * state) :=
  port ← (m_in sw).[incoming]!; i ← port.[vnet]!;
  p ← net_peek i st;
  let st := set_netmsg p (getInternalDestination (netmsgs st p)) st in
  let msg_destinations := m_internal_dest (netmsgs st p) in
  '(sw, st) ← order_links vnet (sw, st);
  links ← route sw msg_destinations;
  '(enough, st) ← foldM (enough_slots vnet sw) (true, st) links;
  if negb enough then st ← net_schedule (ps_this sw) 1 st; Ret (false, (sw, st))
  else
    let '(u, st) := if (1 <? length links)%nat then copy_msg p st else (p, st) in
    st ← foldM (send vnet p u sw) st (imap pair links);
    st ← net_pop i st;
    Ret (true, (sw, st)).

Fixpoint drain_port (fuel incoming vnet : nat) (s : state) : outcome state :=
  port ← (m_in s.1).[incoming]!; i ← port.[vnet]!;
  if net_isReady i s.2 then
    match fuel with
    | O => Raise NoFuel
    | S fuel =>
        '(again, s) ← forward incoming vnet s;
        if again : bool then drain_port fuel incoming vnet s else Ret s
    end
  else Ret s.

Definition waiting (incoming vnet : nat) sw st : nat :=
  default 0%nat (port ← m_in sw !! incoming; i ← port !! vnet; Some (m_current_size (mb_heap (bufs st i)))).

Definition round_robin (n v : Z) : Z := if n <=? v then 0 else v.

Definition one_port (vnet : nat) '(incoming, (sw, st)) (_ : nat) : outcome (Z * state) :=
  let incoming := round_robin (Z.of_nat (length (m_in sw))) (incoming + 1) in
  s ← drain_port (waiting (Z.to_nat incoming) vnet sw st) (Z.to_nat incoming) vnet (sw, st);
  Ret (incoming, s).

Definition one_vnet '(sw, st) (vnet : nat) : outcome state :=
  let incoming := m_round_robin_start sw in
  let sw := mkSwitch (ps_this sw) (m_switch_id sw) (m_in sw) (m_out sw) (m_routing_table sw) (m_link_order sw)
              (round_robin (Z.of_nat (length (m_in sw))) (m_round_robin_start sw + 1)) (m_wakeups_wo_switch sw) in
  '(_, s) ← foldM (one_port vnet) (incoming, (sw, st)) (seq 0 (length (m_in sw)));
  Ret s.

Definition vnet_order (invert : bool) : list nat :=
  if invert then seq 0 m_virtual_networks else rev (seq 0 m_virtual_networks).

Definition wakeup '(sw, st) : outcome state :=
  let w := i32 (m_wakeups_wo_switch sw + 1) in
  let invert := PRIORITY_SWITCH_LIMIT <? w in
  let sw := mkSwitch (ps_this sw) (m_switch_id sw) (m_in sw) (m_out sw) (m_routing_table sw) (m_link_order sw)
              (m_round_robin_start sw) (if invert then 0 else w) in
  foldM one_vnet (sw, st) (vnet_order invert).
End switch.

(** ** Routing splits the destinations *)

Definition shares (links : list (nat * list NodeSet)) : list (nat * Z) := l ← links; base.elements (dests l.2).

Section routing.
Variable counts : list Z.
Hypothesis Hc : counts_ok counts.
Hypothesis Htot : zsum id counts < 2 ^ 31.
Variable sw : PerfectSwitch.

(** The routing table and an order of its links. *)
Record table_ok : Prop := {
  tb_order : m_link <$> m_link_order sw ≡ₚ seq 0 (length (m_routing_table sw));
  tb_entries : ∀ entry, entry ∈ m_routing_table sw → NetDest.dest_ok counts entry
}.

Definition reachable : gset (nat * Z) := ⋃ (dests <$> m_routing_table sw).

(** A link with its share of the destinations. *)
Definition link_ok (l : nat * list NodeSet) : Prop :=
  ∃ entry, m_routing_table sw !! l.1 = Some entry ∧ NetDest.dest_ok counts l.2 ∧
    dests l.2 ≠ ∅ ∧ dests l.2 ⊆ dests entry.

Lemma route_loop d m : table_ok → NetDest.dest_ok counts d → (m ≤ length (m_routing_table sw))%nat →
  ∃ links rest, foldM (route_link sw) ([], d) (seq 0 m) = Ret (links, rest) ∧
    Forall link_ok links ∧ NetDest.dest_ok counts rest ∧
    base.elements (dests d) ≡ₚ shares links ++ base.elements (dests rest) ∧
    links.*1 `sublist_of` take m (m_link <$> m_link_order sw) ∧
    ∀ k o entry, (k < m)%nat → m_link_order sw !! k = Some o → m_routing_table sw !! m_link o = Some entry →
      dests rest ## dests entry.
Proof.
  intros [Ho He] Hd. induction m as [|m IH]; intros Hm.
  { exists [], d. cbn. split_and!; try done. intros; lia. }
  destruct IH as (links & rest & E & Hl & Hr & Hp & Hs & Hdis); [lia|].
  rewrite seq_S, foldM_app, E. cbn [mbind outcome_bind foldM Nat.add]. unfold route_link.
  assert (Hlen : length (m_link_order sw) = length (m_routing_table sw)).
  { apply Permutation_length in Ho. by rewrite length_fmap, length_seq in Ho. }
  destruct (lookup_lt_is_Some_2 (m_link_order sw) m) as [o Hom]; [lia|].
  rewrite (at_idx_Some _ _ _ Hom). cbn [mbind outcome_bind].
  assert (Hin : m_link o ∈ seq 0 (length (m_routing_table sw))).
  { rewrite <- Ho. apply list_elem_of_fmap. exists o. split; [done|]. by eapply list_elem_of_lookup_2. }
  apply elem_of_seq in Hin as [_ Hin]. destruct (lookup_lt_is_Some_2 (m_routing_table sw) (m_link o)) as [entry Hen]; [lia|].
  rewrite (at_idx_Some _ _ _ Hen). cbn [mbind outcome_bind].
  assert (Hent : NetDest.dest_ok counts entry) by (by eapply He, list_elem_of_lookup_2).
  rewrite (intersection_spec counts) by done. cbn [mbind outcome_bind].
  assert (Htake : take (S m) (m_link <$> m_link_order sw) = take m (m_link <$> m_link_order sw) ++ [m_link o]).
  { apply take_S_r. by rewrite list_lookup_fmap, Hom. }
  case_bool_decide as Hi; cbn [negb].
  - exists links, rest. rewrite Htake. split_and!; try done; [by apply sublist_inserts_r|].
    intros k o' e' Hk Ho' He'. destruct (decide (k = m)) as [->|]; [|eapply Hdis; [|done..]; lia].
    simplify_eq. set_solver.
  - destruct (AND_spec counts rest entry Hc Hr Hent) as (share & -> & Hsh & Esh).
    destruct (removeNetDest_spec counts rest entry Hc Hr Hent) as (rest' & -> & Hr' & Er'). cbn [mbind outcome_bind].
    exists (links ++ [(m_link o, share)]), rest'. split; [done|]. split_and!.
    + apply Forall_app. split; [done|]. constructor; [|done]. exists entry. cbn [fst snd]. rewrite Esh. split_and!; [done..|set_solver].
    + done.
    + rewrite Hp. unfold shares. rewrite bind_app. cbn [mbind list_bind snd app]. rewrite app_nil_r, <- app_assoc, Esh, Er'. apply Permutation_app_head.
      rewrite <- elements_disj_union by set_solver. f_equiv. intros x.
      rewrite elem_of_union, elem_of_intersection, elem_of_difference. destruct (decide (x ∈ dests entry)); tauto.
    + rewrite Htake, fmap_app. by apply sublist_app.
    + intros k o' e' Hk Ho' He'. rewrite Er'. destruct (decide (k = m)) as [->|]; [simplify_eq; set_solver|].
      assert (dests rest ## dests e') by (eapply Hdis; [|done..]; lia). set_solver.
Qed.

Lemma route_ok d : table_ok → NetDest.dest_ok counts d → dests d ⊆ reachable →
  ∃ links, route sw d = Ret links ∧ Forall link_ok links ∧ NoDup links.*1 ∧ shares links ≡ₚ base.elements (dests d).
Proof.
  intros Ht Hd Hsub. destruct (route_loop d (length (m_routing_table sw)) Ht Hd) as (links & rest & E & Hl & Hr & Hp & Hs & Hdis); [done|].
  pose proof (tb_order Ht) as Ho.
  assert (Hlen : length (m_link_order sw) = length (m_routing_table sw)).
  { apply Permutation_length in Ho. by rewrite length_fmap, length_seq in Ho. }
  assert (Hnone : dests rest = ∅).
  { apply set_eq. intros x. split; [|set_solver]. intros Hx.
    assert (Hxd : x ∈ dests d).
    { apply elem_of_elements. rewrite Hp. apply elem_of_app. right. by apply elem_of_elements. }
    apply Hsub, elem_of_union_list in Hxd as (X & (entry & -> & [ℓ Hentry]%list_elem_of_lookup)%list_elem_of_fmap & HX).
    assert (Hin : ℓ ∈ m_link <$> m_link_order sw).
    { rewrite Ho. apply elem_of_seq. apply lookup_lt_Some in Hentry. lia. }
    apply list_elem_of_fmap in Hin as (o & -> & [k Hk]%list_elem_of_lookup).
    assert (dests rest ## dests entry); [|set_solver]. eapply Hdis; [|exact Hk|done]. apply lookup_lt_Some in Hk. lia. }
  exists links. unfold route. rewrite E. cbn [mbind outcome_bind].
  rewrite (count_spec counts) by done. rewrite Hnone, size_empty. cbn [assertb mbind outcome_bind Z.eqb Z.of_nat].
  split; [done|]. split; [done|]. split.
  - eapply NoDup_submseteq_inv; [by apply sublist_submseteq|]. apply (NoDup_submseteq_inv _ (m_link <$> m_link_order sw));
      [apply sublist_submseteq, sublist_take|]. rewrite Ho. apply NoDup_seq.
  - rewrite Hp, Hnone, elements_empty, app_nil_r. done.
Qed.
End routing.
