(* ===== verification/SwitchWakeup.v ===== *)
(** * What a wakeup of the switch achieves

    A wakeup of [PerfectSwitch] never fails, hands every ready message to
    exactly the links that lead to its destinations, loses and duplicates no
    delivery, and leaves a ready message behind only with its own next wakeup
    scheduled. *)

From stdpp Require Import gmap sets list numbers.
From S2P Require Import Prelude NodeSet NetDest PrioHeap EventQueue MessageBuffer NetStore PerfectSwitch.
Local Open Scope Z_scope.

(** ** Sending down the links *)

Section wakeup.
Context {W B : Type}.
Variables (RANDOMIZATION g_adaptive_routing : bool) (m_virtual_networks : nat) (isVNetOrdered : nat → bool).
Variable sortVector : list LinkOrder → list LinkOrder.
Variable random : nat → Z.
Variable counts : list Z.
Variable P : list EventQueueNode.
(** The buffers in use. *)
Variable ids : list nat.
Implicit Types (st : netstate W B) (sw : PerfectSwitch) (Q : nat → list MessageBufferNode).

Definition ins sw : list nat := concat (m_in sw).
Definition outs sw : list nat := concat (m_out sw).

(** The shape of the switch. *)
Record switch_ok sw : Prop := {
  sk_table : table_ok counts sw;
  sk_outs : length (m_out sw) = length (m_routing_table sw);
  sk_in_ports : ∀ port, port ∈ m_in sw → length port = m_virtual_networks;
  sk_out_ports : ∀ port, port ∈ m_out sw → length port = m_virtual_networks;
  sk_distinct : NoDup (ins sw ++ outs sw);
  sk_used : ∀ i, i ∈ ins sw ++ outs sw → i ∈ ids;
  sk_start : 0 ≤ m_round_robin_start sw ∧ (m_in sw ≠ [] → m_round_robin_start sw < Z.of_nat (length (m_in sw)))
}.

(** A node that the switch put into the buffer of a link. *)
Definition sent_on sw st (o : nat) (m : MessageBufferNode) : Prop :=
  ∃ link vnet entry p, out_buffer link vnet sw = Ret o ∧ m_routing_table sw !! link = Some entry ∧
    mn_msgptr m = Some p ∧ (p < next_msg st)%nat ∧ targets (netmsgs st p) ≠ ∅ ∧ targets (netmsgs st p) ⊆ dests entry ∧
    now st < mn_time m ∧ ∀ c, m_consumer (bufs st o) = Some c → mkNode (mn_time m) (Some c) ∈ nodes (net_evq st).

Lemma elem_port (ports : list (list nat)) k vnet port i :
  ports !! k = Some port → port !! vnet = Some i → i ∈ concat ports.
Proof. intros Hk Hv. apply elem_of_concat_lookup. exists k, port. split; [done|]. by eapply list_elem_of_lookup_2. Qed.

Lemma out_buffer_ok sw link vnet : switch_ok sw → (link < length (m_routing_table sw))%nat → (vnet < m_virtual_networks)%nat →
  ∃ o, out_buffer link vnet sw = Ret o ∧ o ∈ outs sw.
Proof.
  intros Hs Hl Hv. rewrite <- (sk_outs _ Hs) in Hl. destruct (lookup_lt_is_Some_2 _ _ Hl) as [port Hp].
  destruct (lookup_lt_is_Some_2 port vnet) as [o Ho]; [by rewrite (sk_out_ports _ Hs) by by eapply list_elem_of_lookup_2|].
  exists o. unfold out_buffer. rewrite (at_idx_Some _ _ _ Hp). cbn. rewrite (at_idx_Some _ _ _ Ho). split; [done|].
  by eapply elem_port.
Qed.

(** Different links have different buffers. *)
Lemma out_buffer_inj sw l1 l2 vnet o : switch_ok sw → out_buffer l1 vnet sw = Ret o → out_buffer l2 vnet sw = Ret o → l1 = l2.
Proof.
  unfold out_buffer. intros Hs (p1 & H1%at_idx_ret & Ho1%at_idx_ret)%bind_ret_inv (p2 & H2%at_idx_ret & Ho2%at_idx_ret)%bind_ret_inv.
  pose proof (sk_distinct _ Hs) as Hnd. apply NoDup_app in Hnd as (_ & _ & Hnd).
  eapply NoDup_concat_unique; [exact Hnd|exact H1|exact H2|by eapply list_elem_of_lookup_2..].
Qed.

Lemma in_not_out sw i : switch_ok sw → i ∈ ins sw → i ∉ outs sw.
Proof. intros Hs. pose proof (sk_distinct _ Hs) as Hnd. apply NoDup_app in Hnd as (_ & Hd & _). apply Hd. Qed.

(** The message at hand: not in a buffer, ready to be sent. *)
Record at_hand (p : nat) pay st Q : Prop := {
  ah_old : (p < next_msg st)%nat;
  ah_time : m_LastEnqueueTime (timing st p) ≤ now st;
  ah_payload : payload (netmsgs st p) = pay;
  ah_free : not_held p ids Q
}.

Lemma handed k u p pay share st Q : held counts st ids Q →
  (k = 0%nat → at_hand p pay st Q) → ((0 < k)%nat → at_hand u pay st Q) →
  let s := if (0 <? k)%nat then copy_msg u st else (p, st) in
  let st' := set_netmsg s.1 (set_internal share (netmsgs s.2 s.1)) s.2 in
  at_hand s.1 pay st' Q ∧ internal (netmsgs st' s.1) = share ∧
  bufs st' = bufs st ∧ net_evq st' = net_evq st ∧ (next_msg st ≤ next_msg st')%nat ∧
  (k = 0%nat → s.1 = p) ∧ ((0 < k)%nat → s.1 = next_msg st) ∧
  ∀ x, x ≠ s.1 → netmsgs st' x = netmsgs st x ∧ timing st' x = timing st x.
Proof.
  intros Hh Hp Hu. destruct (Nat.ltb_spec 0 k) as [Hk|Hk]; cbn.
  - destruct (Hu Hk) as [H1 H2 H3 H4]. rewrite !upd_same. split; [|split_and!; try done; [lia|lia|]].
    + split; cbn; rewrite ?upd_same; [lia|done|done|]. apply not_held_spec. intros i n Hi Hn E.
      destruct (he_msgs _ _ _ _ Hh i n Hi Hn) as (x & Ex & Hx%mo_old). rewrite E in Ex. injection Ex as <-. lia.
    + intros x Hx. by rewrite !upd_other.
  - destruct (Hp ltac:(lia)) as [H1 H2 H3 H4]. rewrite !upd_same. split; [|split_and!; try done; [lia|]].
    + split; cbn; rewrite ?upd_same; done.
    + intros x Hx. by rewrite !upd_other.
Qed.

Section sends.
Hypothesis Hids : NoDup ids.
Variables (sw : PerfectSwitch) (st0 : netstate W B) (Q0 : nat → list MessageBufferNode).
Variables (links : list (nat * list NodeSet)) (vnet p u i : nat) (n : MessageBufferNode) (q : list MessageBufferNode).
Variable pay : list NodeSet * MessageSizeType * B.
Hypothesis Hsw : switch_ok sw.
Hypothesis Hvnet : (vnet < m_virtual_networks)%nat.
Hypothesis Hlinks : Forall (link_ok counts sw) links.
Hypothesis Hlinks_once : NoDup links.*1.
Hypothesis Hi : i ∈ ins sw.

(** After [k] links; the head [n] of the input buffer [i] is still in its heap. *)
Record sending (k : nat) st Q : Prop := {
  sd_evolves : evolves st0 st;
  sd_reps : reps st ids (upd i (n :: q) Q);
  sd_held : held counts st ids Q;
  sd_owed : owed st ids Q ≡ₚ (pair pay <$> shares (take k links)) ++ owed st0 ids Q0;
  sd_events : pending_ok P (net_evq st);
  sd_first : k = 0%nat → at_hand p pay st Q;
  sd_copy : (1 < length links)%nat → at_hand u pay st Q ∧ u ≠ p;
  sd_count : ∀ o, o ∈ outs sw → m_msg_counter (bufs st o) ≤ m_msg_counter (bufs st0 o) + 1;
  sd_unused : ∀ j l o, (k ≤ j)%nat → links !! j = Some l → out_buffer l.1 vnet sw = Ret o → bufs st o = bufs st0 o;
  sd_accepts : ∀ o, o ∈ outs sw → accepts RANDOMIZATION 1 (now st) (bufs st o);
  sd_keep : ∀ j m, m ∈ Q0 j → m ∈ Q j;
  sd_new : ∀ j m, m ∈ Q j → m ∈ Q0 j ∨ sent_on sw st j m;
  sd_same : ∀ x, (x < next_msg st0)%nat → x ≠ p → netmsgs st x = netmsgs st0 x;
  sd_else : ∀ j, j ∉ outs sw → bufs st j = bufs st0 j ∧ Q j = Q0 j
}.

Lemma send_ok k l st Q : sending k st Q → links !! k = Some l →
  (∀ o, o ∈ outs sw → m_msg_counter (bufs st0 o) < 2 ^ 31 - 1) →
  ∃ st' Q', send RANDOMIZATION random vnet p u sw st (k, l) = Ret st' ∧ sending (S k) st' Q'.
Proof.
  intros [Hev Hr Hh Ho He Hf Hcp Hct Hun Hac Hk Hn Hs Hel] Hl Hroom. destruct l as [link share].
  pose proof Hlinks as HF. rewrite Forall_lookup in HF. destruct (HF k _ Hl) as (entry & Hen & Hdok & Hne & Hsub). cbn in Hen, Hdok, Hne, Hsub.
  destruct (out_buffer_ok sw link vnet Hsw) as (o & Eo & Hout); [by eapply lookup_lt_Some|done|].
  assert (Hio : o ≠ i) by (intros ->; by eapply in_not_out).
  assert (Hoid : o ∈ ids) by (apply (sk_used _ Hsw), elem_of_app; by right).
  assert (Hu : (0 < k)%nat → at_hand u pay st Q).
  { intros H0. apply Hcp. apply lookup_lt_Some in Hl. lia. }
  destruct (handed k u p pay share st Q Hh Hf Hu) as (Hx & Hint & Hb & Hq & Hnx & Hx0 & Hxk & Hoth).
  unfold send. destruct (if (0 <? k)%nat then copy_msg u st else (p, st)) as [x sta]. cbn [fst snd] in *.
  rewrite Eo. cbn [mbind outcome_bind]. set (stb := set_netmsg x (set_internal share (netmsgs sta x)) sta) in *.
  assert (Enow : now stb = now st) by (unfold now; by rewrite Hq).
  assert (Hunb : bufs stb o = bufs st0 o) by (rewrite Hb; eapply (Hun k); [lia|exact Hl|done]).
  assert (Hnotx : ∀ j m y, j ∈ ids → m ∈ Q j → mn_msgptr m = Some y → y ≠ x).
  { intros j m y Hj Hm Ey ->. by eapply (proj1 (not_held_spec x ids Q) (ah_free _ _ _ _ Hx)). }
  assert (Hhb : held counts stb ids Q).
  { eapply held_ext; [|exact Hh]. intros j m y Hj Hm Ey [Y1 Y2 Y3].
    destruct (Hoth y (Hnotx j m y Hj Hm Ey)) as [O1 O2]. split; [lia|by rewrite O2|by rewrite O1]. }
  destruct (net_enqueue_ok RANDOMIZATION random P o x 1 stb (Q o)) as (st' & t & E & Hen' & Hrep).
  { rewrite Hb. specialize (Hr o Hoid). by rewrite upd_other in Hr. }
  { rewrite Hunb. by apply Hroom. }
  { by rewrite Hq. }
  { rewrite Enow, Hb. by apply Hac. }
  { done. }
  { apply Hx. }
  rewrite E. set (node := mkMsgNode t _ _) in *. destruct Hen' as [Ev Et Eoth Ecnt Eac Enm Enx Etm Eev Ewk].
  exists st', (upd o (insert_node node (Q o)) Q). split; [done|].
  assert (Hevb : evolves st stb) by (split; [rewrite Hq; apply kept_refl|done|intros j; by rewrite Hb]).
  assert (Enow' : now st' = now stb) by (by apply ev_now).
  assert (Hgrow : ∀ j m, m ∈ Q j → m ∈ upd o (insert_node node (Q o)) Q j).
  { intros j m Hm. destruct (decide (j = o)) as [->|]; [|by rewrite upd_other].
    rewrite upd_same, insert_node_perm. by right. }
  assert (Hheld : held counts st' ids Q).
  { eapply held_ext; [|exact Hhb]. intros j m y Hj Hm Ey [Y1 Y2 Y3]. split; [by rewrite Enx|rewrite Etm|by rewrite Enm].
    rewrite decide_False; [done|by eapply Hnotx]. }
  destruct (held_insert counts st' ids Q o node x Hids Hheld Hoid eq_refl) as [Hheld' Howed].
  { split; [rewrite Enx; apply Hx|rewrite Etm, decide_True by done; cbn; lia|by rewrite Enm, Hint]. }
  { apply Hx. }
  assert (Hfree : ∀ y, y ≠ x → at_hand y pay st Q → at_hand y pay st' (upd o (insert_node node (Q o)) Q)).
  { intros y Hy [Y1 Y2 Y3 Y4]. destruct (Hoth y Hy) as [O1 O2]. split.
    - rewrite Enx. lia.
    - rewrite Etm, decide_False, O2, Enow', Enow by done. done.
    - by rewrite Enm, O1.
    - apply not_held_spec. intros j m Hj Hm. destruct (decide (j = o)) as [->|Hjo].
      + rewrite upd_same, insert_node_perm, elem_of_cons in Hm. destruct Hm as [->|Hm]; [cbn; congruence|].
        by eapply (proj1 (not_held_spec y ids Q) Y4).
      + rewrite upd_other in Hm by done. by eapply (proj1 (not_held_spec y ids Q) Y4). }
  split.
  - eapply evolves_trans; [exact Hev|]. by eapply evolves_trans.
  - intros j Hj. destruct (decide (j = o)) as [->|Hjo].
    + rewrite upd_other, upd_same by done. exact Hrep.
    + rewrite Eoth, Hb by done. specialize (Hr j Hj). destruct (decide (j = i)) as [->|]; [by rewrite upd_same in *|].
      by rewrite !upd_other in * by done.
  - done.
  - rewrite Howed, (owed_ext st st' ids Q), Ho.
    + rewrite (take_S_r _ _ _ Hl). unfold shares, owes, targets. rewrite bind_app. cbn [mbind list_bind snd app].
      rewrite app_nil_r, fmap_app, Enm, Hint, (ah_payload _ _ _ _ Hx), !app_assoc. apply Permutation_app_tail, Permutation_app_comm.
    + intros j m y Hj Hm Ey. rewrite Enm. by destruct (Hoth y (Hnotx j m y Hj Hm Ey)) as [-> _].
  - done.
  - done.
  - intros H1. destruct (Hcp H1) as [Hau Hup]. split; [|done]. apply Hfree; [|done].
    destruct (decide (k = 0%nat)) as [Ek|]; [rewrite (Hx0 Ek); done|]. rewrite Hxk by lia. pose proof (ah_old _ _ _ _ Hau). lia.
  - intros o' Ho'. destruct (decide (o' = o)) as [->|]; [rewrite Ecnt, Hunb; lia|]. rewrite Eoth, Hb by done. by apply Hct.
  - intros j l' o' Hj Hl' Eo'. assert (o' ≠ o).
    { intros ->. assert (l'.1 = link) as El by (by eapply out_buffer_inj). assert (j = k); [|lia].
      eapply (NoDup_lookup links.*1); [done|rewrite list_lookup_fmap, Hl'; cbn; by rewrite El|by rewrite list_lookup_fmap, Hl]. }
    rewrite Eoth, Hb by done. eapply (Hun j); [lia|done|done].
  - intros o' Ho'. rewrite Enow'. destruct (decide (o' = o)) as [->|]; [done|]. rewrite Eoth, Hb, Enow by done. by apply Hac.
  - auto.
  - assert (Hold : ∀ j m, sent_on sw st j m → m ∈ Q j → j ∈ ids → sent_on sw st' j m).
    { intros j m (lk & v & en & y & S1 & S2 & S3 & S4 & S5 & S6 & S7 & S8) Hm Hj. exists lk, v, en, y.
      destruct (Hoth y (Hnotx j m y Hj Hm S3)) as [O1 O2]. rewrite Enm, O1, Enx, Enow', Enow. split_and!; try done; [lia|].
      intros c Hc'. apply (kept_nodes _ _ (ev_kept _ _ Ev)). rewrite Hq. apply S8.
      pose proof (ev_config _ _ Ev j) as Hcf. unfold config in Hcf. rewrite Hb in Hcf. congruence. }
    intros j m Hm. destruct (decide (j = o)) as [->|Hjo].
    + rewrite upd_same, insert_node_perm, elem_of_cons in Hm. destruct Hm as [->|Hm].
      * right. exists link, vnet, entry, x. rewrite Enm, Enx, Enow'. unfold targets. rewrite Hint.
        split_and!; try done; [apply Hx|]. intros c Hc'. apply Ewk.
        pose proof (ev_config _ _ Ev o) as Hcf. unfold config in Hcf. congruence.
      * destruct (Hn o m Hm) as [|Hso]; [by left|right; by apply Hold].
    + rewrite upd_other in Hm by done. destruct (Hn j m Hm) as [|Hso]; [by left|right]. apply Hold; [done|done|].
      destruct Hso as (lk & v & en & y & S1 & _). apply (sk_used _ Hsw), elem_of_app. right.
      unfold out_buffer in S1. apply bind_ret_inv in S1 as (pt & H1%at_idx_ret & H2%at_idx_ret). by eapply elem_port.
  - intros y Hy Hyp. rewrite Enm. destruct (decide (y = x)) as [->|Hyx].
    + destruct (decide (k = 0%nat)) as [Ek|]; [by rewrite Hx0 in Hyp|]. rewrite Hxk in Hy by lia.
      pose proof (ev_next _ _ Hev). lia.
    + destruct (Hoth y Hyx) as [-> _]. by apply Hs.
  - intros j Hj. assert (j ≠ o) by (by intros ->). rewrite Eoth, Hb, upd_other by done. by apply Hel.
Qed.

Lemma sends_ok st : sending 0 st Q0 → (∀ o, o ∈ outs sw → m_msg_counter (bufs st0 o) < 2 ^ 31 - 1) →
  ∃ st' Q', foldM (send RANDOMIZATION random vnet p u sw) st (imap pair links) = Ret st' ∧ sending (length links) st' Q'.
Proof.
  intros H0 Hroom.
  destruct (foldM_list (λ k st, ∃ Q, sending k st Q) (send RANDOMIZATION random vnet p u sw) (imap pair links) st)
    as (st' & E & Q' & S'); [by exists Q0| |exists st', Q'; rewrite length_imap in S'; done].
  intros k x st1 Hx [Q1 S1]. rewrite list_lookup_imap in Hx. apply fmap_Some in Hx as (l & Hl & ->).
  destruct (send_ok k l st1 Q1 S1 Hl Hroom) as (st2 & Q2 & E2 & S2). eauto.
Qed.
End sends.

(** ** The order of the links and the slots *)

Lemma out_queue_looked link st : (m_virtual_networks ≤ length link)%nat →
  ∃ len st', out_queue_length m_virtual_networks link st = Ret (len, st') ∧ looked st st'.
Proof.
  intros Hl. unfold out_queue_length.
  destruct (foldM_total (λ s : Z * netstate W B, looked st s.2)
    (λ '(len, st) v, i ← link.[v]!; let '(n, st) := net_size i st in Ret (i32 (len + n), st))
    (seq 0 m_virtual_networks)) with (b := (0, st)) as ([len st'] & E & H); [|apply looked_refl|by exists len, st'].
  intros [len s] v [_ Hv]%elem_of_seq Hs. destruct (at_idx_lt link v) as [o ->]; [lia|]. cbn [mbind outcome_bind].
  pose proof (net_size_looked o s) as Hn. destruct (net_size o s) as [r s'] eqn:En. eexists. split; [done|].
  by eapply looked_trans.
Qed.

Lemma order_links_ok vnet sw st :
  (∀ l, sortVector l ≡ₚ l) → switch_ok sw →
  ∃ order st', order_links g_adaptive_routing m_virtual_networks isVNetOrdered sortVector random vnet (sw, st) =
      Ret (set_link_order order sw, st') ∧ looked st st' ∧ switch_ok (set_link_order order sw).
Proof.
  intros Hsort Hsw. pose proof Hsw as [[Ht He] Hl Hin Hout Hd Hu Hst].
  assert (Hlen : length (m_link_order sw) = length (m_out sw)).
  { apply Permutation_length in Ht. by rewrite length_fmap, length_seq, <- Hl in Ht. }
  assert (Hkeep : ∀ order, m_link <$> order ≡ₚ seq 0 (length (m_routing_table sw)) → switch_ok (set_link_order order sw))
    by (intros order Ho; by split).
  unfold order_links. rewrite Hlen, Hl, !Nat.eqb_refl. cbn [assertb mbind outcome_bind].
  assert (Esw : sw = set_link_order (m_link_order sw) sw) by (by destruct sw).
  assert (Eseq : ∀ A (l : list A) (f : nat → A → LinkOrder), (∀ k x, m_link (f k x) = k) → m_link <$> imap f l = seq 0 (length l)).
  { intros A l f Hf. rewrite fmap_imap. apply list_eq. intros k. rewrite list_lookup_imap.
    destruct (l !! k) as [x|] eqn:Ex; cbn.
    - rewrite Hf. symmetry. apply lookup_seq. split; [lia|]. by apply lookup_lt_Some in Ex.
    - symmetry. apply lookup_seq_ge. by apply lookup_ge_None in Ex. }
  destruct g_adaptive_routing.
  - destruct (isVNetOrdered vnet).
    + eexists _, st. split; [done|]. split; [apply looked_refl|]. apply Hkeep. by rewrite Eseq, Hl.
    + destruct (foldM_list (λ k (s : list LinkOrder * netstate W B), looked st s.2 ∧ m_link <$> s.1 = seq 0 k)
        (clogged m_virtual_networks random) (imap pair (m_out sw)) ([], st)) as ([order st'] & E' & Hlk & Eo);
        [by split; [apply looked_refl|]| |].
      { intros k x [order s] Hx [Hs Eo]. rewrite list_lookup_imap in Hx. apply fmap_Some in Hx as (port & Hp & ->). unfold clogged.
        destruct (out_queue_looked port s) as (len & s1 & -> & Hs1); [by rewrite (Hout port) by by eapply list_elem_of_lookup_2|].
        cbn [mbind outcome_bind]. destruct (next_random random s1) as [r s2] eqn:Er. eexists. split; [done|]. cbn [fst snd] in *.
        split; [|by rewrite fmap_app, Eo, seq_S].
        eapply looked_trans; [exact Hs|]. eapply looked_trans; [exact Hs1|].
        pose proof (next_random_looked random s1) as Hr. by rewrite Er in Hr. }
      cbn [fst snd] in *. rewrite length_imap in Eo.
      rewrite E'. cbn [mbind outcome_bind]. eexists _, st'. split; [done|]. split; [done|]. apply Hkeep.
      by rewrite (fmap_Permutation _ _ _ (Hsort order)), Eo, Hl.
  - exists (m_link_order sw), st. rewrite <- Esw. split; [done|]. split; [apply looked_refl|done].
Qed.

Lemma enough_ok vnet sw links st : switch_ok sw → (vnet < m_virtual_networks)%nat → Forall (link_ok counts sw) links →
  ∃ enough st', foldM (enough_slots vnet sw) (true, st) links = Ret (enough, st') ∧ looked st st'.
Proof.
  intros Hsw Hv Hl. rewrite Forall_forall in Hl.
  destruct (foldM_total (λ s : bool * netstate W B, looked st s.2) (enough_slots vnet sw) links) with (b := (true, st))
    as ([e st'] & E & H); [|apply looked_refl|by exists e, st'].
  intros [e s] [link share] Hx Hs. destruct (Hl _ Hx) as (entry & Hen & _). cbn in Hen. unfold enough_slots.
  destruct e; [|by eexists]. destruct (out_buffer_ok sw link vnet Hsw) as (o & -> & _); [by eapply lookup_lt_Some|done|].
  eexists. split; [done|]. eapply looked_trans; [exact Hs|]. apply net_slots_looked.
Qed.

(** ** One turn *)

Definition backlog sw Q : nat := length (ins sw ≫= Q).

Record net_inv sw st Q : Prop := {
  ni_reps : reps st ids Q;
  ni_held : held counts st ids Q;
  ni_events : pending_ok P (net_evq st);
  ni_accepts : ∀ o, o ∈ outs sw → accepts RANDOMIZATION 1 (now st) (bufs st o);
  ni_room : ∀ o, o ∈ outs sw → m_msg_counter (bufs st o) + Z.of_nat (backlog sw Q) < 2 ^ 31;
  ni_routed : ∀ i n p, i ∈ ins sw → n ∈ Q i → mn_msgptr n = Some p → targets (netmsgs st p) ⊆ reachable sw
}.

(** What a wakeup does to the queues. *)
Record moved sw st Q st' Q' : Prop := {
  mv_evolves : evolves st st';
  mv_owed : owed st' ids Q' ≡ₚ owed st ids Q;
  mv_in : ∀ i, i ∈ ins sw → ∃ gone, Q i = gone ++ Q' i ∧ Forall (λ n, mn_time n ≤ now st) gone;
  mv_keep : ∀ j n, j ∉ ins sw → n ∈ Q j → n ∈ Q' j;
  mv_new : ∀ j n, n ∈ Q' j → n ∈ Q j ∨ sent_on sw st' j n;
  mv_same : ∀ j n p, j ∈ ids → n ∈ Q j → n ∈ Q' j → mn_msgptr n = Some p →
    payload (netmsgs st' p) = payload (netmsgs st p) ∧ targets (netmsgs st' p) = targets (netmsgs st p);
  mv_else : ∀ j, j ∉ ins sw → j ∉ outs sw → same_queue (bufs st j) (bufs st' j) ∧ Q' j = Q j;
  mv_last : ∀ j, j ∉ outs sw → m_last_arrival_time (bufs st' j) = m_last_arrival_time (bufs st j)
}.

Lemma elem_out_buffer sw link vnet o : out_buffer link vnet sw = Ret o → o ∈ outs sw.
Proof. intros (pt & H1%at_idx_ret & H2%at_idx_ret)%bind_ret_inv. by eapply elem_port. Qed.

Lemma sent_on_later sw st Q st' Q' j n : moved sw st Q st' Q' → (∀ i, i ∈ outs sw → i ∈ ids) →
  sent_on sw st j n → n ∈ Q j → n ∈ Q' j → sent_on sw st' j n.
Proof.
  intros Hm Hids (lk & v & en & y & S1 & S2 & S3 & S4 & S5 & S6 & S7 & S8) Hn Hn'.
  pose proof (mv_evolves _ _ _ _ _ Hm) as Hev. exists lk, v, en, y.
  destruct (mv_same _ _ _ _ _ Hm j n y) as [_ ->]; [by eapply Hids, elem_out_buffer|done..|].
  rewrite (ev_now _ _ Hev). split_and!; try done; [pose proof (ev_next _ _ Hev); lia|].
  intros c Hc. apply (kept_nodes _ _ (ev_kept _ _ Hev)), S8. pose proof (ev_config _ _ Hev j) as Hcf. unfold config in Hcf. congruence.
Qed.

Lemma moved_trans sw st1 Q1 st2 Q2 st3 Q3 : switch_ok sw →
  moved sw st1 Q1 st2 Q2 → moved sw st2 Q2 st3 Q3 → moved sw st1 Q1 st3 Q3.
Proof.
  intros Hsw M1 M2. pose proof M1 as [E1 O1 I1 K1 N1 S1 L1 A1]. pose proof M2 as [E2 O2 I2 K2 N2 S2 L2 A2].
  assert (Hmid : ∀ j n, n ∈ Q1 j → n ∈ Q3 j → n ∈ Q2 j).
  { intros j n H1 H3. destruct (decide (j ∈ ins sw)) as [Hj|Hj]; [|by apply K1].
    destruct (I2 j Hj) as (gone & -> & _). apply elem_of_app. by right. }
  split.
  - by eapply evolves_trans.
  - by rewrite O2.
  - intros i Hi. destruct (I1 i Hi) as (g1 & -> & G1), (I2 i Hi) as (g2 & -> & G2). exists (g1 ++ g2).
    rewrite app_assoc. split; [done|]. apply Forall_app. split; [done|]. by rewrite (ev_now _ _ E1) in G2.
  - auto.
  - intros j n H3. destruct (N2 j n H3) as [H2|]; [|by right]. destruct (N1 j n H2) as [|Hs]; [by left|right].
    eapply sent_on_later; [exact M2| |done..]. intros i Hi. apply (sk_used _ Hsw), elem_of_app. by right.
  - intros j n p Hj H1 H3 Hp. pose proof (Hmid j n H1 H3) as H2. destruct (S1 j n p), (S2 j n p); try done. split; congruence.
  - intros j Hi Ho. destruct (L1 j Hi Ho) as [(?&?&?&?&?) EQ1], (L2 j Hi Ho) as [(?&?&?&?&?) EQ2].
    unfold same_queue. split_and!; congruence.
  - intros j Ho. by rewrite A2, A1.
Qed.

Lemma looked_moved sw st Q st' : looked st st' → moved sw st Q st' Q.
Proof.
  intros Hl. split; auto.
  - by apply looked_evolves.
  - by rewrite (looked_owed st).
  - intros i _. by exists [].
  - intros j n p _ _ _ _. split; [apply (lk_netmsgs _ _ Hl)|by apply looked_targets].
  - intros j _ _. split; [apply Hl|done].
  - intros j _. by destruct (lk_bufs _ _ Hl j) as (_ & _ & _ & -> & _).
Qed.

Lemma moved_refl sw st Q : moved sw st Q st Q.
Proof. apply looked_moved, looked_refl. Qed.

Lemma looked_inv sw st Q st' : looked st st' → net_inv sw st Q → net_inv sw st' Q.
Proof.
  intros Hl [H1 H2 H3 H4 H5 H6]. pose proof (looked_evolves _ _ Hl) as Hev. split.
  - by eapply looked_reps.
  - by eapply looked_held.
  - by rewrite (lk_evq _ _ Hl).
  - intros o Ho. rewrite (ev_now _ _ Hev). eapply same_queue_accepts; [apply Hl|auto].
  - intros o Ho. destruct (lk_bufs _ _ Hl o) as (_ & _ & -> & _). auto.
  - intros i n p Hi Hn Hp. rewrite (looked_targets st) by done. eauto.
Qed.

Section turn.
Hypothesis Hids : NoDup ids.
Variables (sw : PerfectSwitch) (st : netstate W B) (Q : nat → list MessageBufferNode).
Variables (links : list (nat * list NodeSet)) (vnet p i : nat) (n : MessageBufferNode) (q : list MessageBufferNode).
Hypothesis Hsw : switch_ok sw.
Hypothesis Hvnet : (vnet < m_virtual_networks)%nat.
Hypothesis Hinv : net_inv sw st Q.
Hypothesis Hlinks : Forall (link_ok counts sw) links.
Hypothesis Hlinks_once : NoDup links.*1.
Hypothesis Hi : i ∈ ins sw.
Hypothesis Hq : Q i = n :: q.
Hypothesis Hready : mn_time n ≤ now st.
Hypothesis Hp : mn_msgptr n = Some p.
Hypothesis Hshares : shares links ≡ₚ base.elements (targets (netmsgs st p)).

Notation Q1 := (upd i q Q).
Notation pay := (payload (netmsgs st p)).

Lemma i_used : i ∈ ids.
Proof. apply (sk_used _ Hsw), elem_of_app. by left. Qed.

Lemma head_msg : held counts st ids Q1 ∧ msg_ok counts st (mn_time n) p ∧ not_held p ids Q1 ∧
  owed st ids Q ≡ₚ owes (netmsgs st p) ++ owed st ids Q1.
Proof.
  destruct (held_tail counts st ids Q i n q Hids (ni_held _ _ _ Hinv) i_used Hq) as (H1 & x & Ex & H2 & H3 & H4).
  rewrite Hp in Ex. injection Ex as <-. done.
Qed.

Lemma copy_ok : let s := if (1 <? length links)%nat then copy_msg p st else (p, st) in
  sending sw s.2 Q1 links vnet p s.1 i n q pay 0 s.2 Q1 ∧ bufs s.2 = bufs st ∧ evolves st s.2 ∧
  (∀ x, (x < next_msg st)%nat → netmsgs s.2 x = netmsgs st x).
Proof.
  destruct head_msg as (Hh & [M1 M2 M3] & Hfree & _).
  assert (Hreps : reps st ids (upd i (n :: q) Q1)).
  { intros j Hj. destruct (decide (j = i)) as [->|]; [rewrite upd_same, <- Hq|rewrite !upd_other by done]; by apply (ni_reps _ _ _ Hinv). }
  assert (Hnext : not_held (next_msg st) ids Q1).
  { apply not_held_spec. intros j m Hj Hm E. destruct (he_msgs _ _ _ _ Hh j m Hj Hm) as (x & Ex & Hx%mo_old). simplify_eq. lia. }
  pose proof Hinv as [_ _ He Ha _ _].
  destruct (Nat.ltb_spec 1 (length links)) as [Hl|Hl]; cbn [fst snd copy_msg].
  2: { split; [|split; [done|]; split; [apply evolves_refl|done]].
       split; auto using evolves_refl; try done; intros; try lia; by split; [|lia|..]. }
  assert (Hfresh : ∀ x, (x < next_msg st)%nat → x ≠ next_msg st) by lia.
  split; [|split; [done|]; split; [split; cbn; [apply kept_refl|lia|done]|intros x Hx; cbn; by rewrite upd_other by auto]].
  split; cbn; auto using evolves_refl; try done.
  - eapply held_ext; [|exact Hh]. intros j m x _ _ _ [X1 X2 X3]. split; cbn; rewrite ?upd_other by auto; [lia|done..].
  - intros _. split; cbn; rewrite ?upd_other by auto; [lia|unfold now in *; cbn; lia|done|done].
  - intros _. split; [|lia]. split; cbn; rewrite ?upd_same; [lia|unfold now in *; cbn; lia|done|done].
  - intros; lia.
Qed.

Lemma switch_backlog_pop Q' : Q' i = q → (∀ j, j ∈ ins sw → j ≠ i → Q' j = Q j) → backlog sw Q = S (backlog sw Q').
Proof.
  intros Hqi Hother. pose proof (sk_distinct _ Hsw) as Hnd. apply NoDup_app in Hnd as (Hnd & _ & _).
  assert (Hp' : (ins sw ≫= Q) ++ [] ≡ₚ (ins sw ≫= Q') ++ [n]).
  { apply (bind_change (ins sw) i); [done..|]. rewrite app_nil_r, Hqi, Hq. apply Permutation_cons_append. }
  apply Permutation_length in Hp'. rewrite !length_app in Hp'. cbn in Hp'. unfold backlog. lia.
Qed.

(** After all the links, and the head taken from the input. *)
Lemma sent_all st0 u st' Q' b : sending sw st0 Q1 links vnet p u i n q pay (length links) st' Q' →
  bufs st0 = bufs st → evolves st st0 → (∀ x, (x < next_msg st)%nat → netmsgs st0 x = netmsgs st x) →
  represents b q → config b = config (bufs st' i) → m_msg_counter b = m_msg_counter (bufs st' i) →
  m_last_arrival_time b = m_last_arrival_time (bufs st' i) →
  net_inv sw (set_bufs i b st') Q' ∧ moved sw st Q (set_bufs i b st') Q' ∧ Q' i = q ∧ ∀ j, j ∈ ins sw → j ≠ i → Q' j = Q j.
Proof.
  intros [Hev Hr Hh Ho He _ _ Hct _ Hac Hk Hn Hs Hel] Hb0 Hev0 Hm0 Hrb Hcfg Hcnt Hlast.
  destruct head_msg as (Hh1 & HM & Hfree & Howed). pose proof Hinv as [I1 I2 I3 I4 I5 I6].
  assert (Hi_out : i ∉ outs sw) by by apply in_not_out.
  assert (Hqi : Q' i = q) by (destruct (Hel i Hi_out) as [_ ->]; by rewrite upd_same).
  assert (Hins : ∀ j, j ∈ ins sw → j ≠ i → Q' j = Q j).
  { intros j Hj Hne. destruct (Hel j) as [_ ->]; [by apply in_not_out|by rewrite upd_other]. }
  assert (Hev' : evolves st (set_bufs i b st')).
  { eapply evolves_trans; [exact Hev0|]. eapply evolves_trans; [exact Hev|]. split; [apply kept_refl|done|].
    intros j. cbn. unfold upd. case_decide; [by subst j|done]. }
  assert (Hsame : ∀ j m x, j ∈ ids → m ∈ Q1 j → mn_msgptr m = Some x → netmsgs st' x = netmsgs st x).
  { intros j m x Hj Hm Ex. destruct (he_msgs _ _ _ _ Hh1 j m Hj Hm) as (y & Ey & Hy%mo_old). rewrite Ex in Ey. injection Ey as <-.
    pose proof (ev_next _ _ Hev0). rewrite Hs, Hm0; [done|done|lia|].
    intros ->. by eapply (proj1 (not_held_spec p ids Q1) Hfree). }
  assert (HQ1 : ∀ j m, m ∈ Q1 j → m ∈ Q j).
  { intros j m Hm. destruct (decide (j = i)) as [->|]; [rewrite upd_same in Hm; rewrite Hq; by right|by rewrite upd_other in Hm]. }
  split; [|split; [|done]].
  - split.
    + intros j Hj. specialize (Hr j Hj). cbn. destruct (decide (j = i)) as [->|]; [by rewrite upd_same, Hqi|by rewrite !upd_other in * by done].
    + eapply held_ext; [|exact Hh]. by intros ? ? ? _ _ _ [? ? ?].
    + exact He.
    + intros o Hoo. cbn. rewrite upd_other by by intros ->. unfold now in *. cbn. by apply Hac.
    + intros o Hoo. cbn. rewrite upd_other by by intros ->. specialize (Hct o Hoo). rewrite Hb0 in Hct. specialize (I5 o Hoo).
      rewrite (switch_backlog_pop Q') in I5 by done. lia.
    + intros j m x Hj Hm Ex. cbn. assert (j ∉ outs sw) as Hjo by by apply in_not_out. destruct (Hel j Hjo) as [_ EQ].
      rewrite EQ in Hm. rewrite (Hsame j m x) by (done || by apply (sk_used _ Hsw), elem_of_app; left). eauto.
  - split.
    + done.
    + change (owed (set_bufs i b st') ids Q') with (owed st' ids Q'). rewrite Ho, take_ge, Howed by done.
      rewrite (owed_ext st st0 ids Q1).
      * apply Permutation_app_tail. unfold owes. by rewrite Hshares.
      * intros j m x Hj Hm Ex. destruct (he_msgs _ _ _ _ Hh1 j m Hj Hm) as (y & Ey & Hy%mo_old). rewrite Ex in Ey. injection Ey as <-.
        by rewrite Hm0.
    + intros j Hj. destruct (decide (j = i)) as [->|]; [exists [n]; rewrite Hqi, Hq; by repeat constructor|].
      exists []. by rewrite Hins.
    + intros j m Hj Hm. apply Hk. rewrite upd_other; [done|]. by intros ->.
    + intros j m Hm. destruct (Hn j m Hm) as [H1|Hso]; [left; by apply HQ1|right].
      destruct Hso as (lk & v & en & y & S1 & S2 & S3 & S4 & S5 & S6 & S7 & S8). exists lk, v, en, y. split_and!; try done.
      intros c. cbn. rewrite upd_other; [apply S8|]. intros ->. by apply Hi_out, (elem_out_buffer sw lk v).
    + intros j m x Hj Hm Hm' Ex. assert (HmQ1 : m ∈ Q1 j).
      { destruct (decide (j = i)) as [->|]; [by rewrite upd_same; rewrite Hqi in Hm'|by rewrite upd_other]. }
      cbn. by rewrite (Hsame j m x).
    + intros j Hji Hjo. destruct (Hel j Hjo) as [E1 E2]. assert (j ≠ i) by by intros ->. cbn. rewrite upd_other by done.
      rewrite E1, Hb0, E2, upd_other by done. done.
    + intros j Hjo. destruct (Hel j Hjo) as [E1 _]. cbn. unfold upd. case_decide; [subst j; by rewrite Hlast, E1, Hb0|by rewrite E1, Hb0].
Qed.

Lemma transfer_ok :
  ∃ st' Q', (let '(u, st1) := if (1 <? length links)%nat then copy_msg p st else (p, st) in
             st2 ← foldM (send RANDOMIZATION random vnet p u sw) st1 (imap pair links); net_pop i st2) = Ret st' ∧
    net_inv sw st' Q' ∧ moved sw st Q st' Q' ∧ Q' i = q ∧ ∀ j, j ∈ ins sw → j ≠ i → Q' j = Q j.
Proof.
  destruct copy_ok as (H0 & Hb & Hev & Hm). destruct (if (1 <? length links)%nat then copy_msg p st else (p, st)) as [u st1].
  cbn [fst snd] in *.
  destruct (sends_ok Hids sw st1 Q1 links vnet p u i n q pay Hsw Hvnet Hlinks Hlinks_once Hi st1 H0) as (st2 & Q' & -> & Hs).
  { intros o Ho. rewrite Hb. pose proof (ni_room _ _ _ Hinv o Ho) as Hr. rewrite (switch_backlog_pop Q1) in Hr; [lia|by rewrite upd_same|].
    intros j _ Hj. by rewrite upd_other. }
  cbn [mbind outcome_bind]. pose proof (sd_reps _ _ _ _ _ _ _ _ _ _ _ _ _ _ Hs i i_used) as Hrep. rewrite upd_same in Hrep.
  assert (Hnow : now st2 = now st).
  { rewrite (ev_now _ _ (sd_evolves _ _ _ _ _ _ _ _ _ _ _ _ _ _ Hs)). by apply ev_now. }
  destruct (net_pop_ok i st2 n q Hrep) as (b & -> & Hrb & Hcnt & Hlast & Hcfg); [by rewrite Hnow|].
  exists (set_bufs i b st2), Q'. split; [done|]. by eapply sent_all.
Qed.
End turn.

(** ** The loops *)

Definition same_ports sw sw' : Prop :=
  ps_this sw' = ps_this sw ∧ m_in sw' = m_in sw ∧ m_out sw' = m_out sw ∧ m_routing_table sw' = m_routing_table sw.

Lemma same_ports_inv sw sw' st Q : same_ports sw sw' → net_inv sw' st Q → net_inv sw st Q.
Proof. destruct sw, sw'. unfold same_ports. cbn. intros (_ & -> & -> & ->) [H1 H2 H3 H4 H5 H6]. by split. Qed.

Lemma same_ports_moved sw sw' st Q st' Q' : same_ports sw sw' → moved sw' st Q st' Q' → moved sw st Q st' Q'.
Proof. destruct sw, sw'. unfold same_ports. cbn. intros (_ & -> & -> & ->) [H1 H2 H3 H4 H5 H6 H7 H8]. split; assumption. Qed.

Lemma same_ports_refl sw : same_ports sw sw.
Proof. done. Qed.

Lemma same_ports_trans sw1 sw2 sw3 : same_ports sw1 sw2 → same_ports sw2 sw3 → same_ports sw1 sw3.
Proof. intros (?&?&?&?) (?&?&?&?). unfold same_ports. split_and!; congruence. Qed.

(** An input that needs nothing more in this cycle: no message is ready, or the
    switch is woken again in the next cycle. *)
Definition settled sw st Q (i : nat) : Prop :=
  (∀ n q, Q i = n :: q → now st < mn_time n) ∨ mkNode (now st + 1) (Some (ps_this sw)) ∈ nodes (net_evq st).

(** What every part of the wakeup achieves, from [s] with the queues [Q]. *)
Record progress (s : PerfectSwitch * netstate W B) Q (s' : PerfectSwitch * netstate W B) Q' : Prop := {
  pg_ports : same_ports s.1 s'.1;
  pg_switch : switch_ok s'.1;
  pg_inv : net_inv s'.1 s'.2 Q';
  pg_moved : moved s.1 s.2 Q s'.2 Q';
  pg_settled : ∀ i, i ∈ ins s.1 → settled s.1 s.2 Q i → settled s.1 s'.2 Q' i
}.

Lemma settled_ports sw sw' st Q i : same_ports sw sw' → settled sw' st Q i ↔ settled sw st Q i.
Proof. intros (E & _). unfold settled. by rewrite E. Qed.

Lemma progress_refl s Q : switch_ok s.1 → net_inv s.1 s.2 Q → progress s Q s Q.
Proof. split; auto using same_ports_refl, moved_refl. Qed.

Lemma progress_trans s1 Q1 s2 Q2 s3 Q3 : switch_ok s1.1 → progress s1 Q1 s2 Q2 → progress s2 Q2 s3 Q3 → progress s1 Q1 s3 Q3.
Proof.
  intros H1 [P1 S1 I1 M1 T1] [P2 S2 I2 M2 T2]. split; [by eapply same_ports_trans|done|done| |].
  - eapply moved_trans; [done|exact M1|]. by eapply same_ports_moved.
  - intros i Hi Hs. apply (settled_ports s1.1 s2.1); [done|]. apply T2; [destruct P1 as (_ & E & _); unfold ins; by rewrite E|].
    apply (settled_ports s1.1 s2.1); [done|]. by apply T1.
Qed.

Section loops.
Hypothesis Hids : NoDup ids.
Hypothesis Hcounts : counts_ok counts.
Hypothesis Htot : zsum id counts < 2 ^ 31.
Hypothesis Hsort : ∀ l, sortVector l ≡ₚ l.

Notation forward := (forward RANDOMIZATION g_adaptive_routing m_virtual_networks isVNetOrdered sortVector random).
Notation drain_port := (drain_port RANDOMIZATION g_adaptive_routing m_virtual_networks isVNetOrdered sortVector random).
Notation one_port := (one_port RANDOMIZATION g_adaptive_routing m_virtual_networks isVNetOrdered sortVector random).
Notation one_vnet := (one_vnet RANDOMIZATION g_adaptive_routing m_virtual_networks isVNetOrdered sortVector random).
Notation wakeup := (wakeup RANDOMIZATION g_adaptive_routing m_virtual_networks isVNetOrdered sortVector random).

Lemma forward_ok incoming vnet port i sw st Q n q :
  switch_ok sw → net_inv sw st Q → (vnet < m_virtual_networks)%nat →
  m_in sw !! incoming = Some port → port !! vnet = Some i → Q i = n :: q → mn_time n ≤ now st →
  ∃ again s' Q', forward incoming vnet (sw, st) = Ret (again, s') ∧ progress (sw, st) Q s' Q' ∧
    (if again : bool then Q' i = q else settled sw s'.2 Q' i).
Proof.
  intros Hsw Hinv Hv Hin Hport Hq Hn.
  assert (Hi : i ∈ ins sw) by by eapply elem_port.
  destruct (held_tail counts st ids Q i n q Hids (ni_held _ _ _ Hinv) (i_used sw i Hsw Hi) Hq) as (_ & p & Ep & [_ _ Hd] & _).
  unfold PerfectSwitch.forward. rewrite (at_idx_Some _ _ _ Hin). cbn [mbind outcome_bind]. rewrite (at_idx_Some _ _ _ Hport).
  cbn [mbind outcome_bind]. pose proof (ni_reps _ _ _ Hinv i (i_used sw i Hsw Hi)) as Hrep. rewrite Hq in Hrep.
  rewrite (net_peek_ok i st n q p Hrep Hn Ep). cbn [mbind outcome_bind].
  pose proof (fixed_looked p st) as L1. set (st1 := set_netmsg p _ st) in *.
  destruct (order_links_ok vnet sw st1 Hsort Hsw) as (order & st2 & -> & L2 & Hsw2). cbn [mbind outcome_bind].
  set (sw2 := set_link_order order sw) in *.
  replace (m_internal_dest (netmsgs st1 p)) with (internal (netmsgs st p)) by (cbn; by rewrite upd_same).
  destruct (route_ok counts Hcounts Htot sw2 (internal (netmsgs st p))) as (links & -> & Hl & Hnd & Hsh);
    [apply Hsw2|done|apply (ni_routed _ _ _ Hinv i n p Hi); [rewrite Hq; left|done]|]. cbn [mbind outcome_bind].
  destruct (enough_ok vnet sw2 links st2 Hsw2 Hv Hl) as (enough & st3 & -> & L3). cbn [mbind outcome_bind].
  pose proof (looked_trans _ _ _ (looked_trans _ _ _ L1 L2) L3) as L. clear L1 L2 L3.
  pose proof (looked_evolves _ _ L) as Hev. pose proof (ev_now _ _ Hev) as Hnow.
  assert (Hinv3 : net_inv sw2 st3 Q) by (apply (looked_inv sw2 st Q st3 L), (same_ports_inv sw2 sw); done). pose proof (looked_moved sw st Q st3 L) as Hm3.
  destruct enough; cbn [negb].
  - destruct (transfer_ok Hids sw2 st3 Q links vnet p i n q Hsw2 Hv Hinv3 Hl Hnd Hi Hq) as (st4 & Q' & E & Hinv4 & Hm4 & Hqi & Hother);
      [by rewrite Hnow|done|by rewrite Hsh, (looked_targets st)|].
    exists true, (sw2, st4), Q'. destruct (if (1 <? length links)%nat then copy_msg p st3 else (p, st3)) as [u st3'].
    apply bind_ret_inv in E as (st3'' & -> & E). cbn [mbind outcome_bind]. rewrite E. split; [done|]. split; [|done].
    assert (Hm : moved sw st Q st4 Q') by (eapply moved_trans; [done|exact Hm3|by apply (same_ports_moved sw sw2)]).
    split; [done|done|done|done|]. intros j Hj Hset. destruct Hset as [Hset|Hset].
    + left. cbn. rewrite (ev_now _ _ (mv_evolves _ _ _ _ _ Hm)). intros n' q' E'. destruct (decide (j = i)) as [->|].
      * specialize (Hset n q Hq). cbn in Hset. lia.
      * rewrite Hother in E' by done. by apply (Hset n' q').
    + right. cbn. rewrite (ev_now _ _ (mv_evolves _ _ _ _ _ Hm)). by apply (kept_nodes _ _ (ev_kept _ _ (mv_evolves _ _ _ _ _ Hm))).
  - destruct (net_schedule_ok P (ps_this sw2) 1 st3 (ni_events _ _ _ Hinv3)) as (e & -> & He & Hk & Hin'); [lia|].
    cbn [mbind outcome_bind]. eexists false, (sw2, _), Q. split; [done|].
    assert (Hnow4 : getTime e = now st3) by apply (kept_time _ _ Hk).
    split; [|right; cbn; unfold now at 1; cbn; by rewrite Hnow4].
    split; [done|done| | |].
    + destruct Hinv3 as [J1 J2 J3 J4 J5 J6]. split; cbn; try done.
      * eapply held_ext; [|exact J2]. by intros ? ? ? _ _ _ [? ? ?].
      * unfold now. cbn. rewrite Hnow4. exact J4.
    + destruct Hm3 as [K1 K2 K3 K4 K5 K6 K7 K8]. split; cbn; try done.
      * eapply evolves_trans; [exact K1|]. by split.
      * intros j m Hm. by left.
    + intros j Hj _. right. cbn. unfold now at 1. cbn. by rewrite Hnow4.
Qed.

Lemma settle sw st Q i : reps st ids Q → i ∈ ids → net_isReady i st = false → settled sw st Q i.
Proof.
  intros Hr Hi Hn. left. intros n q Hq. unfold net_isReady in Hn. rewrite (rep_isReady _ _ _ (Hr i Hi)), Hq in Hn.
  by apply Z.leb_gt in Hn.
Qed.

Lemma drain_port_ok incoming vnet port i fuel : ∀ sw st Q,
  switch_ok sw → net_inv sw st Q → (vnet < m_virtual_networks)%nat →
  m_in sw !! incoming = Some port → port !! vnet = Some i → (length (Q i) ≤ fuel)%nat →
  ∃ s' Q', drain_port fuel incoming vnet (sw, st) = Ret s' ∧ progress (sw, st) Q s' Q' ∧ settled sw s'.2 Q' i.
Proof.
  induction fuel as [|fuel IH]; intros sw st Q Hsw Hinv Hv Hin Hport Hlen; cbn [PerfectSwitch.drain_port fst snd];
    rewrite (at_idx_Some _ _ _ Hin); cbn [mbind outcome_bind]; rewrite (at_idx_Some _ _ _ Hport); cbn [mbind outcome_bind];
    assert (Hi : i ∈ ids) by (apply (i_used sw); [done|by eapply elem_port]).
  - assert (Hq : Q i = []) by (by apply nil_length_inv; lia).
    unfold net_isReady. rewrite (rep_isReady _ _ _ (ni_reps _ _ _ Hinv i Hi)), Hq.
    exists (sw, st), Q. split; [done|]. split; [by apply progress_refl|]. left. by rewrite Hq.
  - destruct (net_isReady i st) eqn:Er.
    2: { exists (sw, st), Q. split; [done|]. split; [by apply progress_refl|]. by apply settle; [apply Hinv|..]. }
    unfold net_isReady in Er. rewrite (rep_isReady _ _ _ (ni_reps _ _ _ Hinv i Hi)) in Er.
    destruct (Q i) as [|n q] eqn:Hq; [done|]. apply Z.leb_le in Er.
    destruct (forward_ok incoming vnet port i sw st Q n q Hsw Hinv Hv Hin Hport Hq Er) as (again & [sw1 st1] & Q1 & -> & Hp & Hres).
    cbn [mbind outcome_bind]. destruct again; [|by exists (sw1, st1), Q1].
    pose proof Hp as [(E1 & E2 & E3 & E4) S1 I1 M1 T1]. cbn in *.
    destruct (IH sw1 st1 Q1) as (s2 & Q2 & -> & Hp2 & Hset); [done|done|done|by rewrite E2|done|rewrite Hres; lia|].
    exists s2, Q2. split; [done|]. split; [by eapply progress_trans|]. by apply (settled_ports sw sw1).
Qed.

Lemma round_robin_mod n v : 0 ≤ v < n → round_robin n (v + 1) = (v + 1) `mod` n.
Proof.
  intros Hv. unfold round_robin. destruct (Z.leb_spec n (v + 1)).
  - replace (v + 1) with n by lia. by rewrite Z_mod_same_full.
  - by rewrite Z.mod_small by lia.
Qed.

(** The port visited in turn [k] of a virtual network. *)
Definition visited (n start : Z) (k : nat) : Z := (start + Z.of_nat k) `mod` n.

Lemma visited_all n start p : 0 ≤ p < n → ∃ k, (k < Z.to_nat n)%nat ∧ visited n start (S k) = p.
Proof.
  intros Hp. exists (Z.to_nat ((p - start - 1) `mod` n)).
  pose proof (Z.mod_pos_bound (p - start - 1) n ltac:(lia)). split; [lia|]. unfold visited.
  rewrite Nat2Z.inj_succ, Z2Nat.id by lia. rewrite <- Z.add_1_l, (Z.add_comm 1), Z.add_assoc.
  rewrite <- (Z.add_assoc start), <- Zplus_mod_idemp_r, Zplus_mod_idemp_l.
  rewrite Zplus_mod_idemp_r. replace (start + (p - start - 1 + 1)) with p by lia. by apply Z.mod_small.
Qed.

(** All ports of one virtual network. *)
Lemma switch_vnet_ok vnet sw st Q : switch_ok sw → net_inv sw st Q → (vnet < m_virtual_networks)%nat →
  ∃ s' Q', one_vnet (sw, st) vnet = Ret s' ∧ progress (sw, st) Q s' Q' ∧
    ∀ port i, port ∈ m_in sw → port !! vnet = Some i → settled sw s'.2 Q' i.
Proof.
  intros Hsw Hinv Hv. unfold PerfectSwitch.one_vnet.
  set (n := Z.of_nat (length (m_in sw))). set (start := m_round_robin_start sw).
  set (sw1 := mkSwitch _ _ _ _ _ _ _ _).
  assert (Hp1 : progress (sw, st) Q (sw1, st) Q).
  { destruct (sk_start _ Hsw) as [Hs0 Hs1]. fold start in Hs0, Hs1.
    split; [done| |by apply (same_ports_inv sw1 sw)|apply moved_refl|done].
    destruct Hsw as [K1 K2 K3 K4 K5 K6 K7]. split; try done; [by destruct K1|]. unfold sw1. cbn [fst m_in m_round_robin_start]. fold n start. unfold round_robin.
    destruct (Z.leb_spec n (start + 1)); [|split; [lia|intros _; lia]]. split; [done|]. intros Hne. by destruct (m_in sw). }
  destruct (foldM_list (λ k (s : Z * (PerfectSwitch * netstate W B)), ∃ Q', (0 < n → s.1 = visited n start k) ∧
      progress (sw, st) Q s.2 Q' ∧
      ∀ j port i, (j < k)%nat → m_in sw !! Z.to_nat (visited n start (S j)) = Some port → port !! vnet = Some i →
        settled sw s.2.2 Q' i) (one_port vnet) (seq 0 (length (m_in sw))) (start, (sw1, st)))
    as ([incoming s'] & E & Q' & _ & Hp & Hset).
  - exists Q. split; [|split; [done|intros; lia]]. intros Hn. cbn. unfold visited. rewrite Z.add_0_r, Z.mod_small; [done|].
    destruct (sk_start _ Hsw) as [Hs0 Hs1]. split; [done|]. apply Hs1. intros E. unfold n in Hn. rewrite E in Hn. done.
  - intros k x [inc [sw2 st2]] Hk (Q2 & Einc & Hp & Hset). apply lookup_lt_Some in Hk. rewrite length_seq in Hk. cbn in Einc.
    assert (Hn : 0 < n) by lia. specialize (Einc Hn). pose proof Hp as [(P1 & P2 & P3 & P4) S2 I2 M2 T2]. cbn in *.
    unfold PerfectSwitch.one_port. rewrite P2. fold n.
    pose proof (Z.mod_pos_bound (start + Z.of_nat k) n Hn) as Hb. rewrite Einc.
    rewrite round_robin_mod by exact Hb.
    assert (Ev : (visited n start k + 1) `mod` n = visited n start (S k)).
    { unfold visited. rewrite Zplus_mod_idemp_l. f_equal. lia. }
    rewrite Ev. pose proof (Z.mod_pos_bound (start + Z.of_nat (S k)) n Hn) as Hb'. fold (visited n start (S k)) in Hb'.
    destruct (lookup_lt_is_Some_2 (m_in sw) (Z.to_nat (visited n start (S k)))) as [port Hport]; [lia|].
    destruct (lookup_lt_is_Some_2 port vnet) as [i Hi]; [by rewrite (sk_in_ports _ Hsw) by by eapply list_elem_of_lookup_2|].
    assert (Hiids : i ∈ ids) by (apply (i_used sw Hsw) || (eapply i_used; [exact Hsw|by eapply elem_port])).
    destruct (drain_port_ok (Z.to_nat (visited n start (S k))) vnet port i
      (waiting (Z.to_nat (visited n start (S k))) vnet sw2 st2) sw2 st2 Q2) as (s3 & Q3 & -> & Hp3 & Hset3);
      [done|done|done|by rewrite P2|done| |].
    { unfold waiting. rewrite P2, Hport. cbn. rewrite Hi. cbn. rewrite (rep_current _ _ (ni_reps _ _ _ I2 i Hiids)). done. }
    cbn [mbind outcome_bind]. eexists. split; [done|]. cbn. exists Q3. split; [done|].
    assert (Hp' : progress (sw, st) Q s3 Q3) by by eapply progress_trans.
    split; [done|]. intros j port' i' Hj Hport' Hi'. destruct (decide (j = k)) as [->|].
    + rewrite Hport in Hport'. injection Hport' as <-. rewrite Hi in Hi'. injection Hi' as <-. by apply (settled_ports sw sw2).
    + apply (settled_ports sw sw2); [done|]. apply Hp3; [unfold ins; cbn; rewrite P2; by eapply elem_port|].
      apply (settled_ports sw sw2); [done|]. apply (Hset j port'); [lia|done..].
  - cbn in *. rewrite E. cbn [mbind outcome_bind]. exists s', Q'. split; [done|]. split; [done|].
    intros port i [k Hk]%list_elem_of_lookup Hi. pose proof (lookup_lt_Some _ _ _ Hk) as Hlt.
    destruct (visited_all n start (Z.of_nat k)) as (j & Hj & Ej); [lia|]. rewrite length_seq in Hset. apply (Hset j port); [lia| |done].
    by rewrite Ej, Nat2Z.id.
Qed.

Lemma elem_vnets invert v : v ∈ vnet_order m_virtual_networks invert ↔ (v < m_virtual_networks)%nat.
Proof.
  unfold vnet_order. destruct invert; [|rewrite list_elem_of_In, <- in_rev, <- list_elem_of_In]; rewrite elem_of_seq; lia.
Qed.

Lemma switch_wakeup_ok sw st Q : switch_ok sw → net_inv sw st Q →
  ∃ s' Q', wakeup (sw, st) = Ret s' ∧ progress (sw, st) Q s' Q' ∧ ∀ i, i ∈ ins sw → settled sw s'.2 Q' i.
Proof.
  intros Hsw Hinv. unfold PerfectSwitch.wakeup. set (invert := PRIORITY_SWITCH_LIMIT <? _). set (sw1 := mkSwitch _ _ _ _ _ _ _ _).
  assert (Hp1 : progress (sw, st) Q (sw1, st) Q).
  { split; [done| |by apply (same_ports_inv sw1 sw)|apply moved_refl|done].
    destruct Hsw as [K1 K2 K3 K4 K5 K6 K7]. split; try done. by destruct K1. }
  destruct (foldM_list (λ k (s : PerfectSwitch * netstate W B), ∃ Q', progress (sw, st) Q s Q' ∧
      ∀ j v port i, (j < k)%nat → vnet_order m_virtual_networks invert !! j = Some v → port ∈ m_in sw → port !! v = Some i →
        settled sw s.2 Q' i) one_vnet (vnet_order m_virtual_networks invert) (sw1, st)) as (s' & E & Q' & Hp & Hset).
  - exists Q. split; [done|intros; lia].
  - intros k v [sw2 st2] Hk (Q2 & Hp & Hset). pose proof Hp as [(P1 & P2 & P3 & P4) S2 I2 M2 T2]. cbn [fst snd] in *.
    destruct (switch_vnet_ok v sw2 st2 Q2) as (s3 & Q3 & -> & Hp3 & Hset3);
      [done|done|apply (elem_vnets invert); by eapply list_elem_of_lookup_2|].
    exists s3. split; [done|]. exists Q3. split; [by eapply progress_trans|].
    intros j v' port i Hj Hv' Hport Hi. apply (settled_ports sw sw2); [done|]. destruct (decide (j = k)) as [->|].
    + rewrite Hk in Hv'. injection Hv' as <-. apply (Hset3 port); [by rewrite P2|done].
    + apply Hp3; [unfold ins; cbn; rewrite P2; apply elem_of_concat; exists port; split; [done|by eapply list_elem_of_lookup_2]|].
      apply (settled_ports sw sw2); [done|]. apply (Hset j v' port); [lia|done..].
  - exists s', Q'. split; [done|]. split; [done|]. intros i (port & Hport & [v Hv]%list_elem_of_lookup)%elem_of_concat.
    assert (Hvn : (v < m_virtual_networks)%nat) by (rewrite <- (sk_in_ports _ Hsw port Hport); by eapply lookup_lt_Some).
    apply (elem_vnets invert), list_elem_of_lookup in Hvn as [j Hj]. eapply (Hset j v port); [by eapply lookup_lt_Some|done..].
Qed.
End loops.
End wakeup.

(** [C3] Switching: from any state whose buffers hold well-formed messages the
    routing table covers, a wakeup of the switch returns (no assertion of the
    switch, the buffers, the sets or the event queue fails, and the loops end),
    keeps the invariant, owes exactly the same deliveries as before (the copies
    it makes split the destinations of a message between the links), takes from
    each input only messages that are ready, in order, puts every new message on
    a link whose routing entry contains all its destinations with the wakeup of
    the link scheduled, and leaves at each input no ready message unless its own
    wakeup in the next cycle is scheduled. *)
Theorem switch_wakeup_correct {W B} RANDOMIZATION adaptive vnets ordered sortVector random counts P ids
    (sw : PerfectSwitch) (st : netstate W B) Q :
  NoDup ids → counts_ok counts → zsum id counts < 2 ^ 31 → (∀ l, sortVector l ≡ₚ l) →
  switch_ok vnets counts ids sw → net_inv RANDOMIZATION counts P ids sw st Q →
  ∃ sw' st' Q', wakeup RANDOMIZATION adaptive vnets ordered sortVector random (sw, st) = Ret (sw', st') ∧
    switch_ok vnets counts ids sw' ∧ net_inv RANDOMIZATION counts P ids sw' st' Q' ∧
    owed st' ids Q' ≡ₚ owed st ids Q ∧
    (∀ i, i ∈ ins sw → ∃ gone, Q i = gone ++ Q' i ∧ Forall (λ n, mn_time n ≤ now st) gone) ∧
    (∀ j n, n ∈ Q' j → n ∈ Q j ∨ sent_on sw st' j n) ∧
    (∀ i n q, i ∈ ins sw → Q' i = n :: q → mn_time n ≤ now st →
       mkNode (now st + 1) (Some (ps_this sw)) ∈ nodes (net_evq st')).
Proof.
  intros Hids Hc Htot Hsort Hsw Hinv.
  destruct (switch_wakeup_ok RANDOMIZATION adaptive vnets ordered sortVector random counts P ids Hids Hc Htot Hsort sw st Q Hsw Hinv)
    as ([sw' st'] & Q' & E & [Hports Hsw' Hinv' Hm Hs] & Hset).
  exists sw', st', Q'. split; [done|]. split; [done|]. split; [done|]. split; [apply Hm|]. split; [apply Hm|]. split; [apply Hm|].
  intros i n q Hi Hq Hn. pose proof (ev_now _ _ (mv_evolves _ _ _ _ _ _ Hm)) as Hnow. cbn in *.
  destruct (Hset i Hi) as [Hr|Hw]; [specialize (Hr n q Hq); lia|by rewrite Hnow in Hw].
Qed.

(** ** A broadcast to two components over two links *)

Definition ex_port (consumer : nat) : MessageBuffer :=
  match setConsumer consumer (setOrdering true new_buffer) with Ret b => b | Raise _ => new_buffer end.

Definition ex_all : list NodeSet := match NetDest.broadcast [2] (new_NetDest [2]) with Ret d => d | Raise _ => [] end.
Definition ex_one (j : Z) : list NodeSet := match NetDest.add [2] (0%nat, j) (new_NetDest [2]) with Ret d => d | Raise _ => [] end.

(** Buffer 0 comes in, 1 and 2 go out; the message is sent in cycle 1. *)
Definition ex_sent : netstate unit unit :=
  let b := match enqueue_node 1 0 2 (ex_port 10) with Ret b => b | Raise _ => ex_port 10 end in
  mkNet (λ i, if decide (i = 0%nat) then b else ex_port (10 + i)) (λ _, mkMessage 2 0)
    (λ _, mkNetMsg ex_all Control [] false tt) 1 (mkWorld (mkEventQueue heap_init 2 2) (λ _, new_consumer) tt) 0.

Definition ex_switch : PerfectSwitch :=
  mkSwitch 10 0 [[0%nat]] [[1%nat]; [2%nat]] [ex_one 0; ex_one 1] [mkLinkOrder 0 0; mkLinkOrder 1 0] 0 0.

Definition ex_queues (i : nat) : list MessageBufferNode := if decide (i = 0%nat) then [mkMsgNode 2 1 (Some 0%nat)] else [].

Lemma ex_dest_counts : counts_ok [2].
Proof. intros [|i] c Hc; cbn in Hc; simplify_eq; lia. Qed.

Lemma ex_one_ok j : 0 ≤ j < 2 → NetDest.dest_ok [2] (ex_one j) ∧ dests (ex_one j) = {[(0%nat, j)]}.
Proof.
  intros Hj. destruct (new_spec [2] ex_dest_counts) as [H1 H2]. unfold ex_one.
  destruct (add_spec [2] (0%nat, j) _ H1) as (d & -> & Hd & E); [exists 2; done|]. split; [done|]. rewrite E, H2. set_solver.
Qed.

Lemma ex_all_ok : NetDest.dest_ok [2] ex_all ∧ ∀ m, m ∈ dests ex_all → m = (0%nat, 0) ∨ m = (0%nat, 1).
Proof.
  destruct (new_spec [2] ex_dest_counts) as [H1 _]. unfold ex_all.
  destruct (broadcast_spec [2] _ ex_dest_counts H1) as (d & -> & Hd & E). split; [done|].
  intros [[|i] j] (c & Hc & Hj)%E; cbn in Hc, Hj; [|done]. injection Hc as <-.
  destruct (decide (j = 0)) as [->|]; [by left|right; f_equal; lia].
Qed.

Lemma ex_switch_port_ok c : represents (ex_port c) [].
Proof. apply represents_nil; [apply heap_init_ok|done..]. Qed.

Lemma ex_reps : reps ex_sent [0%nat; 1%nat; 2%nat] ex_queues.
Proof.
  intros i _. unfold ex_sent, ex_queues. cbn [bufs]. case_decide; [|apply ex_switch_port_ok].
  destruct (enqueue_node_ok 1 0 2 (ex_port 10) [] (ex_switch_port_ok 10)) as (b & -> & Hb & _); done.
Qed.

Lemma ex_switch_ok : switch_ok 1 [2] [0%nat; 1%nat; 2%nat] ex_switch.
Proof.
  split; try done.
  - split; [done|]. intros e He. elem_cases He; subst; by apply ex_one_ok.
  - intros p Hp. by elem_cases Hp; subst.
  - intros p Hp. elem_cases Hp; by subst.
  - cbn. solve_NoDup.
Qed.

Lemma ex_net_inv : net_inv false [2] [] [0%nat; 1%nat; 2%nat] ex_switch ex_sent ex_queues.
Proof.
  assert (Hn : ∀ i n, n ∈ ex_queues i → n = mkMsgNode 2 1 (Some 0%nat)).
  { intros i n. unfold ex_queues. case_decide; [by intros ->%list_elem_of_singleton|by intros ?%not_elem_of_nil]. }
  destruct ex_all_ok as [Hall Hin]. split.
  - apply ex_reps.
  - split; [|by apply NoDup_singleton]. intros i n _ ->%Hn. exists 0%nat. split; [done|]. split; [cbn; lia|cbn; lia|exact Hall].
  - split; [apply heap_init_ok|constructor|by exists []| |]; cbn; intros c; cbn; [|lia]. intros Hc. unfold getTime in Hc. cbn in Hc. lia.
  - intros o Ho. elem_cases Ho; subst; (split; [done|by eexists|by cbn]).
  - intros o Ho. elem_cases Ho; subst; done.
  - intros i n p _ ->%Hn [= <-] m Hm. apply Hin in Hm. unfold reachable. cbn -[dests ex_one].
    rewrite (proj2 (ex_one_ok 0 ltac:(lia))), (proj2 (ex_one_ok 1 ltac:(lia))). destruct Hm as [-> | ->]; set_solver.
Qed.

(** Both links get their copy, the input is empty. *)
Lemma switch_wakeup_correct_witness :
  match wakeup false false 1 (λ _, true) id (λ _, 0) (ex_switch, ex_sent) with
  | Ret (_, st) => (λ i, m_size (bufs st i)) <$> [0%nat; 1%nat; 2%nat] = [0; 1; 1]
  | Raise _ => False
  end ∧
  ∃ sw' st' Q', wakeup false false 1 (λ _, true) id (λ _, 0) (ex_switch, ex_sent) = Ret (sw', st') ∧
    owed st' [0%nat; 1%nat; 2%nat] Q' ≡ₚ owed ex_sent [0%nat; 1%nat; 2%nat] ex_queues.
Proof.
  split; [vm_compute; reflexivity|].
  assert (Hnd : NoDup [0%nat; 1%nat; 2%nat]) by solve_NoDup.
  destruct (switch_wakeup_correct false false 1 (λ _, true) id (λ _, 0) [2] [] [0%nat; 1%nat; 2%nat] ex_switch ex_sent ex_queues
    Hnd ex_dest_counts eq_refl (λ l, reflexivity _) ex_switch_ok ex_net_inv) as (sw' & st' & Q' & E & _ & _ & Ho & _).
  exact (ex_intro _ sw' (ex_intro _ st' (ex_intro _ Q' (conj E Ho)))).
Defined.
