(* ===== verification/Throttle.v ===== *)
(** * The throttle of a link

    [Throttle.C], [Throttle.h] of [gems-lib/ruby_clean/network/simple]: moves
    messages over a link of limited bandwidth, a message at a time per virtual
    network, and samples the utilization.  The [double]s are the binary64 numbers
    of the standard library.  Left out: descriptions, [g_PRINT_TOPOLOGY] and
    printing. *)

From Stdlib Require Import SpecFloat.
From stdpp Require Import gmap sets list numbers.
From S2P Require Import Prelude NodeSet NetDest PrioHeap EventQueue MessageBuffer NetStore.
Local Open Scope Z_scope.

Definition HIGH_RANGE : Z := 256.
Definition ADJUST_INTERVAL : Z := 50000.
Definition MESSAGE_SIZE_MULTIPLIER : Z := 1000.
Definition BROADCAST_SCALING : Z := 1.
Definition PRIORITY_SWITCH_LIMIT : Z := 128.

(** ** Binary64 *)

Definition double : Type := spec_float.
Definition of_int (z : Z) : double := binary_normalize 53 1024 z 0 false.
Definition dadd : double → double → double := SFadd 53 1024.
Definition dsub : double → double → double := SFsub 53 1024.
Definition dmul : double → double → double := SFmul 53 1024.
Definition ddiv : double → double → double := SFdiv 53 1024.
Definition dlt (x y : double) : bool := SFltb x y.

(** ** State *)

(** [th_this] is the object as a consumer of the event queue. *)
Record Throttle := mkThrottle {
  th_this : nat;
  m_in : list nat;
  m_out : list nat;
  m_message_counters : MessageSizeType → list Z;
  m_vnets : nat;
  m_units_remaining : list Z;
  m_sID : Z;
  m_node : Z;
  m_bash_counter : Z;
  m_bandwidth_since_sample : Z;
  m_last_bandwidth_sample : Z;
  m_link_bandwidth_multiplier : Z;
  m_link_latency : Z;
  m_wakeups_wo_switch : Z;
  m_ruby_start : Z;
  m_links_utilized : double
}.

Section throttle.
Context {W B : Type}.
(** Configuration. *)
Variable RANDOMIZATION : bool.
Variable g_endpoint_bandwidth : Z.
Variable g_bash_bandwidth_adaptive_threshold : double.
Variable random : nat → Z.
Implicit Types (st : netstate W B) (th : Throttle).

Notation state := (Throttle * netstate W B)%type.

Definition getLinkBandwidth th : Z := i32 (g_endpoint_bandwidth * m_link_bandwidth_multiplier th).
Definition getLatency th : Z := m_link_latency th.

(** ** Construction *)

Definition clearStats th st : Throttle :=
  mkThrottle (th_this th) (m_in th) (m_out th) (λ t, (λ _, 0) <$> m_message_counters th t) (m_vnets th)
    (m_units_remaining th) (m_sID th) (m_node th) (m_bash_counter th) (m_bandwidth_since_sample th)
    (m_last_bandwidth_sample th) (m_link_bandwidth_multiplier th) (m_link_latency th) (m_wakeups_wo_switch th)
    (now st) (of_int 0).

(** The constructor and [init]. *)
Definition new_Throttle (this : nat) (sID node link_latency link_bandwidth_multiplier : Z) st : outcome Throttle :=
  assertb (0 <? link_bandwidth_multiplier) ;;
  Ret (clearStats (mkThrottle this [] [] (λ _, []) 0 [] sID node HIGH_RANGE 0 0 link_bandwidth_multiplier link_latency
         0 0 (of_int 0)) st).

Definition addVirtualNetwork '(th, st) '(in_ptr, out_ptr) : outcome state :=
  b ← setConsumer (th_this th) (bufs st in_ptr);
  Ret (mkThrottle (th_this th) (m_in th ++ [in_ptr]) (m_out th ++ [out_ptr]) (m_message_counters th) (S (m_vnets th))
         (m_units_remaining th ++ [0]) (m_sID th) (m_node th) (m_bash_counter th) (m_bandwidth_since_sample th)
         (m_last_bandwidth_sample th) (m_link_bandwidth_multiplier th) (m_link_latency th) (m_wakeups_wo_switch th)
         (m_ruby_start th) (m_links_utilized th), set_bufs in_ptr b st).

Definition set_counters (c : MessageSizeType → list Z) th : Throttle :=
  mkThrottle (th_this th) (m_in th) (m_out th) c (m_vnets th)
    (m_units_remaining th) (m_sID th) (m_node th) (m_bash_counter th) (m_bandwidth_since_sample th)
    (m_last_bandwidth_sample th) (m_link_bandwidth_multiplier th) (m_link_latency th) (m_wakeups_wo_switch th)
    (m_ruby_start th) (m_links_utilized th).

Definition addLinks (in_vec out_vec : list nat) '(th, st) : outcome state :=
  assertb (length in_vec =? length out_vec)%nat ;;
  '(th, st) ← foldM addVirtualNetwork (th, st) (zip in_vec out_vec);
  Ret (set_counters (λ _, replicate (length in_vec) 0) th, st).

Definition clear '(th, st) : outcome (netstate W B) :=
  foldM (λ st counter,
      i ← (m_in th).[counter]!; b ← MessageBuffer.clear (bufs st i); let st := set_bufs i b st in
      o ← (m_out th).[counter]!; b ← MessageBuffer.clear (bufs st o); Ret (set_bufs o b st))
    st (seq 0 (m_vnets th)).

(** ** Moving messages *)

Definition network_message_to_size (m : NetworkMessage B) : outcome Z :=
  s ← MessageSizeType_to_int (getMessageSize m);
  if 1 <? BROADCAST_SCALING then
    b ← NetDest.isBroadcast (getDestination m);
    Ret (if b : bool then i32 (i32 (s * MESSAGE_SIZE_MULTIPLIER) * BROADCAST_SCALING) else i32 (s * MESSAGE_SIZE_MULTIPLIER))
  else Ret (i32 (s * MESSAGE_SIZE_MULTIPLIER)).

#[local] Instance MessageSizeType_eq_dec : EqDecision MessageSizeType.
Proof. solve_decision. Defined.

Definition set_units (vnet : nat) (u : Z) th : Throttle :=
  mkThrottle (th_this th) (m_in th) (m_out th) (m_message_counters th) (m_vnets th)
    (<[vnet := u]> (m_units_remaining th)) (m_sID th) (m_node th) (m_bash_counter th) (m_bandwidth_since_sample th)
    (m_last_bandwidth_sample th) (m_link_bandwidth_multiplier th) (m_link_latency th) (m_wakeups_wo_switch th)
    (m_ruby_start th) (m_links_utilized th).

Definition count_message (t : MessageSizeType) (vnet : nat) th : outcome Throttle :=
  c ← (m_message_counters th t).[vnet]!;
  Ret (set_counters (λ t', if decide (t' = t) then <[vnet := i32 (c + 1)]> (m_message_counters th t) else m_message_counters th t') th).

(** The next message of a virtual network. *)
Definition start_message (vnet i o : nat) (units : Z) '(th, st) : outcome state :=
  p ← net_peek i st;
  size ← network_message_to_size (netmsgs st p);
  let th := set_units vnet (i32 (units + size)) th in
  st ← net_enqueue RANDOMIZATION random o p (m_link_latency th) st;
  st ← net_pop i st;
  th ← count_message (getMessageSize (netmsgs st p)) vnet th;
  Ret (th, st).

(** The condition of the [while] loop; the slots are asked for only when the rest holds. *)
Definition can_move (vnet i o : nat) (bw units : Z) st : bool * netstate W B :=
  if (0 <? bw) && (net_isReady i st || (0 <? units)) then net_slots o 1 st else (false, st).

Fixpoint move_loop (fuel vnet i o : nat) (bw : Z) (s : state) : outcome (Z * state) :=
  units ← (m_units_remaining s.1).[vnet]!;
  let '(go, st) := can_move vnet i o bw units s.2 in
  if go : bool then
    match fuel with
    | O => Raise NoFuel
    | S fuel =>
        '(th, st) ← if (units =? 0) && net_isReady i st then start_message vnet i o units (s.1, st) else Ret (s.1, st);
        units ← (m_units_remaining th).[vnet]!;
        let diff := i32 (units - bw) in
        move_loop fuel vnet i o (Z.max 0 (i32 (- diff))) (set_units vnet (Z.max 0 diff) th, st)
    end
  else Ret (bw, (s.1, st)).

Definition one_vnet '(bw, schedule_wakeup, (th, st)) (vnet : nat) : outcome (Z * bool * state) :=
  o ← (m_out th).[vnet]!; i ← (m_in th).[vnet]!; units ← (m_units_remaining th).[vnet]!;
  assertb (0 <=? units) ;;
  '(bw, (th, st)) ← move_loop (2 + m_current_size (mb_heap (bufs st i))) vnet i o bw (th, st);
  units ← (m_units_remaining th).[vnet]!;
  if (0 <? bw) && (net_isReady i st || (0 <? units)) then
    let '(r, st) := net_slots o 1 st in Ret (bw, schedule_wakeup || negb r, (th, st))
  else Ret (bw, schedule_wakeup, (th, st)).

(** ** Sampling *)

Fixpoint sample_loop (fuel : nat) (current_time bandwidth last since bash : Z) : outcome (Z * Z * Z) :=
  if ADJUST_INTERVAL <? current_time - last then
    match fuel with
    | O => Raise NoFuel
    | S fuel =>
        let utilization := ddiv (of_int since) (of_int (i32 (ADJUST_INTERVAL * bandwidth))) in
        let bash := i32 (if dlt g_bash_bandwidth_adaptive_threshold utilization then bash + 1 else bash - 1) in
        let bash := Z.max 0 (Z.min HIGH_RANGE bash) in
        sample_loop fuel current_time bandwidth (last + ADJUST_INTERVAL) 0 bash
    end
  else Ret (last, since, bash).

Definition sample_fuel (current_time last : Z) : nat := Z.to_nat ((current_time - last) / ADJUST_INTERVAL + 1).

(** [linkUtilized] and the sampling of the bandwidth. *)
Definition account (bw_remaining : Z) th st : outcome Throttle :=
  let bw := getLinkBandwidth th in
  let ratio := dsub (of_int 1) (ddiv (of_int bw_remaining) (of_int bw)) in
  let since := i32 (m_bandwidth_since_sample th + i32 (bw - bw_remaining)) in
  '(last, since, bash) ← sample_loop (sample_fuel (now st) (m_last_bandwidth_sample th)) (now st) bw
      (m_last_bandwidth_sample th) since (m_bash_counter th);
  Ret (mkThrottle (th_this th) (m_in th) (m_out th) (m_message_counters th) (m_vnets th)
    (m_units_remaining th) (m_sID th) (m_node th) bash since last
    (m_link_bandwidth_multiplier th) (m_link_latency th) (m_wakeups_wo_switch th)
    (m_ruby_start th) (dadd (m_links_utilized th) ratio)).

Definition vnet_order (n : nat) (invert : bool) : list nat := if invert then seq 0 n else rev (seq 0 n).

Definition wakeup '(th, st) : outcome state :=
  assertb (0 <? getLinkBandwidth th) ;;
  let w := i32 (m_wakeups_wo_switch th + 1) in
  let invert := PRIORITY_SWITCH_LIMIT <? w in
  let th := mkThrottle (th_this th) (m_in th) (m_out th) (m_message_counters th) (m_vnets th)
    (m_units_remaining th) (m_sID th) (m_node th) (m_bash_counter th) (m_bandwidth_since_sample th)
    (m_last_bandwidth_sample th) (m_link_bandwidth_multiplier th) (m_link_latency th) (if invert then 0 else w)
    (m_ruby_start th) (m_links_utilized th) in
  '(bw, schedule_wakeup, (th, st)) ← foldM one_vnet (getLinkBandwidth th, false, (th, st)) (vnet_order (m_vnets th) invert);
  th ← account bw th st;
  if (0 <? bw) && negb schedule_wakeup then Ret (th, st)
  else st ← net_schedule (th_this th) 1 st; Ret (th, st).

Definition broadcastBandwidthAvailable (rand : Z) th : bool :=
  negb (HIGH_RANGE / 4 + Z.rem rand (HIGH_RANGE / 2) <? m_bash_counter th).

Definition getUtilization th st : double :=
  ddiv (dmul (of_int 100) (m_links_utilized th)) (of_int (now st - m_ruby_start th)).
End throttle.
