(* ===== verification/ThrottleWakeup.v ===== *)
(** * What a wakeup of the throttle achieves

    A wakeup never fails, moves messages in order and unchanged from the input
    to the output of their virtual network, spends exactly the bandwidth their
    sizes cost, never more than the link has, and schedules its next wakeup
    whenever something is left to do. *)

From stdpp Require Import gmap sets list numbers.
From S2P Require Import Prelude NodeSet NetDest PrioHeap EventQueue MessageBuffer NetStore Throttle.
Local Open Scope Z_scope.

(** A list of numbers with one replaced. *)
Lemma zsum_insert (l : list Z) k x y : l !! k = Some x → zsum id (<[k := y]> l) = zsum id l - x + y.
Proof.
  revert k. induction l as [|z l IH]; intros [|k] H; cbn in H; [done|done| |].
  - injection H as ->. cbn. unfold id. lia.
  - change (<[S k := y]> (z :: l)) with (z :: <[k := y]> l). rewrite !zsum_cons, (IH k H). lia.
Qed.

(** The sizes a message can have. *)
Definition MAX_SIZE : Z := 72000.

Section throttle.
Context {W B : Type}.
Variable RANDOMIZATION : bool.
Variable g_endpoint_bandwidth : Z.
Variable threshold : double.
Variable random : nat → Z.
Variable counts : list Z.
Variable P : list EventQueueNode.
Variable ids : list nat.
Hypothesis Hids : NoDup ids.
Implicit Types (st : netstate W B) (th : Throttle) (Q : nat → list MessageBufferNode).

Notation move_loop := (move_loop RANDOMIZATION random).
Notation one_vnet := (one_vnet RANDOMIZATION random).
Notation getLinkBandwidth := (getLinkBandwidth g_endpoint_bandwidth).
Notation account := (account g_endpoint_bandwidth threshold).
Notation wakeup := (wakeup RANDOMIZATION g_endpoint_bandwidth threshold random).

Definition size_of (m : NetworkMessage B) : Z :=
  match network_message_to_size m with Ret s => s | Raise _ => 0 end.

Lemma size_ok (m : NetworkMessage B) : getMessageSize m ≠ Undefined →
  network_message_to_size m = Ret (size_of m) ∧ 0 < size_of m ≤ MAX_SIZE.
Proof. unfold size_of, network_message_to_size. destruct (getMessageSize m); done. Qed.

(** The shape of the throttle. *)
Record throttle_ok th : Prop := {
  tk_in : length (m_in th) = m_vnets th;
  tk_out : length (m_out th) = m_vnets th;
  tk_units : length (m_units_remaining th) = m_vnets th;
  tk_counters : ∀ t, length (m_message_counters th t) = m_vnets th;
  tk_distinct : NoDup (m_in th ++ m_out th);
  tk_used : ∀ i, i ∈ m_in th ++ m_out th → i ∈ ids;
  tk_range : ∀ u, u ∈ m_units_remaining th → 0 ≤ u ≤ MAX_SIZE;
  tk_latency : 0 < m_link_latency th;
  tk_bandwidth : 0 < g_endpoint_bandwidth * m_link_bandwidth_multiplier th < 2 ^ 31;
  tk_bash : 0 ≤ m_bash_counter th ≤ HIGH_RANGE
}.

Definition backlog th Q : nat := length (m_in th ≫= Q).

Record link_inv th st Q : Prop := {
  li_reps : reps st ids Q;
  li_held : held counts st ids Q;
  li_events : pending_ok P (net_evq st);
  li_accepts : ∀ o, o ∈ m_out th → accepts RANDOMIZATION (m_link_latency th) (now st) (bufs st o);
  li_room : ∀ o, o ∈ m_out th → m_msg_counter (bufs st o) + Z.of_nat (backlog th Q) < 2 ^ 31;
  li_sized : ∀ i n p, i ∈ m_in th → n ∈ Q i → mn_msgptr n = Some p → getMessageSize (netmsgs st p) ≠ Undefined
}.

(** What never changes. *)
Definition same_link th th' : Prop :=
  th_this th' = th_this th ∧ m_in th' = m_in th ∧ m_out th' = m_out th ∧ m_vnets th' = m_vnets th ∧
  m_link_latency th' = m_link_latency th ∧ m_link_bandwidth_multiplier th' = m_link_bandwidth_multiplier th.

Lemma same_link_refl th : same_link th th.
Proof. done. Qed.

Lemma same_link_trans th1 th2 th3 : same_link th1 th2 → same_link th2 th3 → same_link th1 th3.
Proof. intros (?&?&?&?&?&?) (?&?&?&?&?&?). unfold same_link. split_and!; congruence. Qed.

Lemma same_link_inv th th' st Q : same_link th th' → link_inv th st Q → link_inv th' st Q.
Proof.
  destruct th, th'. unfold same_link. cbn. intros (_ & -> & -> & _ & -> & _) [H1 H2 H3 H4 H5 H6]. by split.
Qed.

(** A message as it left the input and as it entered the output. *)
Definition carried st st' (o : nat) '(a, b) : Prop :=
  mn_msgptr b = mn_msgptr a ∧ mn_time a ≤ now st < mn_time b ∧
  ∀ c, m_consumer (bufs st o) = Some c → mkNode (mn_time b) (Some c) ∈ nodes (net_evq st').

Record passed (i o : nat) st Q st' Q' (sent : list (MessageBufferNode * MessageBufferNode)) : Prop := {
  ps_evolves : evolves st st';
  ps_owed : owed st' ids Q' ≡ₚ owed st ids Q;
  ps_netmsgs : ∀ p, netmsgs st' p = netmsgs st p;
  ps_in : Q i = sent.*1 ++ Q' i;
  ps_out : Q' o ≡ₚ sent.*2 ++ Q o;
  ps_carried : Forall (carried st st' o) sent;
  ps_else : ∀ j, j ≠ i → j ≠ o → same_queue (bufs st j) (bufs st' j) ∧ Q' j = Q j;
  ps_last : ∀ j, j ≠ o → m_last_arrival_time (bufs st' j) = m_last_arrival_time (bufs st j)
}.

Lemma carried_later st st1 st2 o x : evolves st1 st2 → carried st st1 o x → carried st st2 o x.
Proof.
  destruct x as [a b]. intros Hev (H1 & H2 & H3). split; [done|]. split; [done|]. intros c Hc.
  apply (kept_nodes _ _ (ev_kept _ _ Hev)). auto.
Qed.

Lemma passed_trans i o st Q st1 Q1 st2 Q2 s1 s2 :
  passed i o st Q st1 Q1 s1 → passed i o st1 Q1 st2 Q2 s2 → passed i o st Q st2 Q2 (s1 ++ s2).
Proof.
  intros [E1 O1 M1 I1 U1 C1 L1 A1] [E2 O2 M2 I2 U2 C2 L2 A2]. split.
  - by eapply evolves_trans.
  - by rewrite O2.
  - intros p. by rewrite M2.
  - by rewrite fmap_app, <- app_assoc, <- I2.
  - rewrite U2, U1, fmap_app, !app_assoc. apply Permutation_app_tail, Permutation_app_comm.
  - apply Forall_app. split; [eapply Forall_impl; [exact C1|]; intros x; by apply carried_later|].
    eapply Forall_impl; [exact C2|]. intros [a b] (H1 & H2 & H3). rewrite (ev_now _ _ E1) in H2. split; [done|]. split; [done|].
    intros c Hc. apply H3. pose proof (ev_config _ _ E1 o) as Hcf. unfold config in Hcf. congruence.
  - intros j Hi Ho. destruct (L1 j Hi Ho) as [(?&?&?&?&?) EQ1], (L2 j Hi Ho) as [(?&?&?&?&?) EQ2].
    unfold same_queue. split_and!; congruence.
  - intros j Ho. by rewrite A2, A1.
Qed.

Lemma looked_passed i o st Q st' : looked st st' → (∀ p, netmsgs st' p = netmsgs st p) → passed i o st Q st' Q [].
Proof.
  intros Hl Hm. split; auto; [by apply looked_evolves|by rewrite (looked_owed st)| |].
  - intros j _ _. split; [apply Hl|done].
  - intros j _. by destruct (lk_bufs _ _ Hl j) as (_ & _ & _ & -> & _).
Qed.

Lemma looked_link th st Q st' : looked st st' → (∀ p, netmsgs st' p = netmsgs st p) → link_inv th st Q → link_inv th st' Q.
Proof.
  intros Hl Hm [H1 H2 H3 H4 H5 H6]. pose proof (looked_evolves _ _ Hl) as Hev. split.
  - by eapply looked_reps.
  - by eapply looked_held.
  - by rewrite (lk_evq _ _ Hl).
  - intros o Ho. rewrite (ev_now _ _ Hev). eapply same_queue_accepts; [apply Hl|auto].
  - intros o Ho. destruct (lk_bufs _ _ Hl o) as (_ & _ & -> & _). auto.
  - intros i n p. rewrite Hm. eauto.
Qed.

Lemma net_slots_netmsgs i n st p : netmsgs (net_slots i n st).2 p = netmsgs st p.
Proof. unfold net_slots. by destruct (areNSlotsAvailable _ _ _). Qed.

(** Asking again gives the same answer. *)
Lemma net_slots_again i n st : (net_slots i n (net_slots i n st).2).1 = (net_slots i n st).1.
Proof.
  unfold net_slots. destruct (areNSlotsAvailable (now st) n (bufs st i)) as [r b] eqn:E. cbn. rewrite upd_same.
  unfold areNSlotsAvailable in E. destruct (m_max_size (bufs st i) =? -1) eqn:Em.
  { injection E as <- <-. unfold areNSlotsAvailable, now. cbn. by rewrite Em. }
  destruct (i32 (visible_size (now st) (bufs st i) + n) <=? m_max_size (bufs st i)) eqn:Ev; injection E as <- <-;
    unfold areNSlotsAvailable, visible_size, now in *; cbn; rewrite Em; by rewrite Ev.
Qed.

(** ** One message *)

Section vnet.
Variables (k i o : nat).

Record vnet_ok th : Prop := {
  vk_throttle : throttle_ok th;
  vk_in : m_in th !! k = Some i;
  vk_out : m_out th !! k = Some o
}.

Lemma vnet_facts th : vnet_ok th → i ∈ m_in th ∧ o ∈ m_out th ∧ i ∈ ids ∧ o ∈ ids ∧ o ≠ i ∧
  ∃ u, m_units_remaining th !! k = Some u ∧ 0 ≤ u ≤ MAX_SIZE.
Proof.
  intros [Hok Hi Ho]. assert (i ∈ m_in th) by by eapply list_elem_of_lookup_2. assert (o ∈ m_out th) by by eapply list_elem_of_lookup_2.
  pose proof (tk_distinct _ Hok) as Hnd. apply NoDup_app in Hnd as (_ & Hd & _).
  destruct (lookup_lt_is_Some_2 (m_units_remaining th) k) as [u Hu].
  { rewrite (tk_units _ Hok), <- (tk_in _ Hok). by eapply lookup_lt_Some. }
  split_and!; [done|done|apply (tk_used _ Hok), elem_of_app; by left|apply (tk_used _ Hok), elem_of_app; by right| |].
  - intros ->. by apply (Hd i).
  - exists u. split; [done|]. by eapply (tk_range _ Hok), list_elem_of_lookup_2.
Qed.

Lemma set_units_ok u th : vnet_ok th → 0 ≤ u ≤ MAX_SIZE → vnet_ok (set_units k u th) ∧ same_link th (set_units k u th).
Proof.
  intros [[H1 H2 H3 H4 H5 H6 H7 H8 H9 H10] Hi Ho] Hu. split; [|done]. split; [split|done|done]; cbn; try done.
  - by rewrite length_insert.
  - intros x (j & Hj)%list_elem_of_lookup. apply list_lookup_insert_Some in Hj as [(_ & <- & _)|[_ Hj]]; [done|].
    by eapply H7, list_elem_of_lookup_2.
Qed.

Lemma link_backlog_pop th Q Q' n q : throttle_ok th → i ∈ m_in th → Q i = n :: q → Q' i = q →
  (∀ j, j ∈ m_in th → j ≠ i → Q' j = Q j) → backlog th Q = S (backlog th Q').
Proof.
  intros Hok Hi Hq Hqi Hother. pose proof (tk_distinct _ Hok) as Hnd. apply NoDup_app in Hnd as (Hnd & _ & _).
  assert (Hp' : (m_in th ≫= Q) ++ [] ≡ₚ (m_in th ≫= Q') ++ [n]).
  { apply (bind_change (m_in th) i); [done..|]. rewrite app_nil_r, Hqi, Hq. apply Permutation_cons_append. }
  apply Permutation_length in Hp'. rewrite !length_app in Hp'. cbn in Hp'. unfold backlog. lia.
Qed.

(** The state of the throttle after one message went over. *)
Lemma move_inv th st Q n q p st1 t b :
  vnet_ok th → link_inv th st Q → Q i = n :: q → mn_msgptr n = Some p →
  enqueued RANDOMIZATION P o p (m_link_latency th) st t st1 →
  let m := mkMsgNode t (m_msg_counter (bufs st o) + 1) (Some p) in
  let Q' := upd o (insert_node m (Q o)) (upd i q Q) in
  let st' := set_bufs i b st1 in
  reps st' ids Q' → held counts st' ids Q' → link_inv th st' Q'.
Proof.
  intros Hv [L1 L2 L3 L4 L5 L6] Hq Hp [Ev Et Eoth Ecnt Eac Enm Enx Etm Eev Ewk] m Q' st' Hr Hh.
  destruct (vnet_facts th Hv) as (Hi & Ho & Hii & Hoi & Hne & _). pose proof Hv as [Hok _ _].
  pose proof (tk_distinct _ Hok) as Hnd. apply NoDup_app in Hnd as (_ & Hd & _).
  assert (Hbuf : ∀ x, x ∈ m_out th → x ≠ i) by (intros x Hx ->; by apply (Hd i)).
  assert (HQi : Q' i = q) by (unfold Q'; rewrite upd_other by done; by rewrite upd_same).
  assert (HQj : ∀ j, j ∈ m_in th → j ≠ i → Q' j = Q j).
  { intros j Hj Hji. unfold Q'. rewrite !upd_other; [done|done|]. intros ->. by apply (Hd o). }
  split; [done|done|exact Eev| | |].
  - intros x Hx. cbn. rewrite upd_other by by apply Hbuf. change (now st') with (now st1). rewrite (ev_now _ _ Ev).
    destruct (decide (x = o)) as [->|]; [done|]. rewrite Eoth by done. by apply L4.
  - intros x Hx. cbn. rewrite upd_other by by apply Hbuf. specialize (L5 x Hx). rewrite (link_backlog_pop th Q Q' n q) in L5 by done.
    destruct (decide (x = o)) as [->|]; [rewrite Ecnt; lia|]. rewrite Eoth by done. lia.
  - intros j y x Hj Hy Ex. cbn. rewrite Enm. apply (L6 j y); [done| |done].
    destruct (decide (j = i)) as [->|Hji]; [rewrite HQi in Hy; rewrite Hq; by right|by rewrite HQj in Hy].
Qed.

Lemma start_ok th st Q n q :
  vnet_ok th → link_inv th st Q → m_units_remaining th !! k = Some 0 → Q i = n :: q → mn_time n ≤ now st →
  ∃ p th' st' Q' b, mn_msgptr n = Some p ∧ start_message RANDOMIZATION random k i o 0 (th, st) = Ret (th', st') ∧
    m_units_remaining th' = <[k := size_of (netmsgs st p)]> (m_units_remaining th) ∧ 0 < size_of (netmsgs st p) ≤ MAX_SIZE ∧
    same_link th th' ∧ vnet_ok th' ∧ link_inv th' st' Q' ∧ passed i o st Q st' Q' [(n, b)].
Proof.
  intros Hv Hinv Hu Hq Hn. destruct (vnet_facts th Hv) as (Hi & Ho & Hii & Hoi & Hne & _). pose proof Hinv as [L1 L2 L3 L4 L5 L6].
  pose proof Hv as [Hok Hvi Hvo].
  destruct (he_msgs _ _ _ _ L2 i n Hii) as (p & Ep & _); [rewrite Hq; left|].
  destruct (size_ok (netmsgs st p)) as [Esz Hsz]; [apply (L6 i n p); [done|rewrite Hq; left|done]|].
  assert (Hroom : m_msg_counter (bufs st o) < 2 ^ 31 - 1).
  { specialize (L5 o Ho). assert (backlog th Q ≠ 0%nat); [|lia]. unfold backlog. intros E. apply nil_length_inv in E.
    assert (Hin : n ∈ (m_in th ≫= Q)); [|rewrite E in Hin; by apply not_elem_of_nil in Hin].
    apply list_elem_of_bind. exists i. split; [rewrite Hq; left|done]. }
  destruct (net_move_ok RANDOMIZATION random counts P ids Hids i o (m_link_latency th) st Q n q p L1 L2 L3 Hii Hoi Hne)
    as (st1 & t & b & E1 & E2 & En & Hbi & Hbc & Hbcfg & Hbl & Hr & Hh & Hev & Howed);
    [apply (tk_latency _ Hok)|done|done|done|done|by apply L4|]. cbn zeta in *.
  unfold start_message. pose proof (L1 i Hii) as Hrep. rewrite Hq in Hrep. rewrite (net_peek_ok i st n q p Hrep Hn Ep).
  cbn [mbind outcome_bind]. rewrite Esz. cbn [mbind outcome_bind].
  change (m_link_latency (set_units k (i32 (0 + size_of (netmsgs st p))) th)) with (m_link_latency th).
  rewrite E1. cbn [mbind outcome_bind]. rewrite E2. cbn [mbind outcome_bind].
  unfold count_message. cbn [m_message_counters set_units].
  destruct (lookup_lt_is_Some_2 (m_message_counters th (getMessageSize (netmsgs (set_bufs i b st1) p))) k) as [c Hc].
  { rewrite (tk_counters _ Hok), <- (tk_in _ Hok). by eapply lookup_lt_Some. }
  rewrite (at_idx_Some _ _ _ Hc). cbn [mbind outcome_bind].
  pose proof (move_inv th st Q n q p st1 t b Hv Hinv Hq Ep En Hr Hh) as Hinv'.
  set (m := mkMsgNode t _ (Some p)) in *. set (Q' := upd o _ _) in *. set (st' := set_bufs i b st1) in *.
  unfold MAX_SIZE in *. rewrite (i32_id (0 + size_of (netmsgs st p))) by lia. rewrite Z.add_0_l.
  eexists p, _, st', Q', m. split; [done|]. split; [done|]. split; [done|]. split; [done|]. split; [done|].
  assert (Hsame : same_link th (set_units k (size_of (netmsgs st p)) th)) by done. split; [|split].
  - destruct (set_units_ok (size_of (netmsgs st p)) th Hv) as [[[K1 K2 K3 K4 K5 K6 K7 K8 K9 K10] V1 V2] _]; [unfold MAX_SIZE; lia|].
    split; [split|done|done]; try done. intros t'. cbn. case_decide; [rewrite length_insert|]; apply (tk_counters _ Hok).
  - by eapply same_link_inv.
  - destruct En as [Ev Et Eoth Ecnt Eac Enm Enx Etm Eev Ewk]. split.
    + done.
    + done.
    + intros x. cbn. by rewrite Enm.
    + unfold Q'. rewrite upd_other, upd_same by done. by rewrite Hq.
    + unfold Q'. rewrite upd_same, insert_node_perm. done.
    + constructor; [|done]. split; [by rewrite Ep|]. split; [done|]. exact Ewk.
    + intros j Hji Hjo. unfold st', Q'. cbn. rewrite !upd_other, Eoth by done. done.
    + intros j Hjo. unfold st'. cbn. unfold upd. case_decide; [by subst j|by rewrite Eoth].
Qed.

(** ** The loop of one virtual network *)

(** The bandwidth a list of messages costs. *)
Definition cost st (sent : list (MessageBufferNode * MessageBufferNode)) : Z :=
  zsum (λ x, match mn_msgptr x.1 with Some p => size_of (netmsgs st p) | None => 0 end) sent.

(** Why the loop ends. *)
Definition finished (bw u : Z) st : Prop :=
  bw = 0 ∨ (net_isReady i st = false ∧ u = 0) ∨ (net_slots o 1 st).1 = false.

Definition units th : Z := default 0 (m_units_remaining th !! k).

Record loop_result th st Q (bw : Z) th' st' Q' (bw' : Z) (sent : list (MessageBufferNode * MessageBufferNode)) : Prop := {
  lr_vnet : vnet_ok th';
  lr_same : same_link th th';
  lr_inv : link_inv th' st' Q';
  lr_passed : passed i o st Q st' Q' sent;
  lr_units : m_units_remaining th' = <[k := units th']> (m_units_remaining th);
  lr_bw : 0 ≤ bw' ≤ bw;
  lr_cost : bw - bw' + units th' = units th + cost st sent;
  lr_finished : finished bw' (units th') st'
}.

Lemma units_at th u : m_units_remaining th !! k = Some u → units th = u.
Proof. intros E. unfold units. by rewrite E. Qed.

Lemma can_move_spec bw u st : let '(go, st') := can_move k i o bw u st in
  looked st st' ∧ (∀ p, netmsgs st' p = netmsgs st p) ∧
  if go then 0 < bw ∧ (net_isReady i st = true ∨ 0 < u) else bw ≤ 0 ∨ (net_isReady i st = false ∧ u ≤ 0) ∨ (net_slots o 1 st').1 = false.
Proof.
  unfold can_move. destruct (Z.ltb_spec 0 bw) as [Hb|Hb]; cbn [andb].
  2: { split; [apply looked_refl|]. split; [done|by left]. }
  destruct (net_isReady i st) eqn:Er; [|destruct (Z.ltb_spec 0 u) as [Hu|Hu]]; cbn [orb].
  1, 2: pose proof (net_slots_looked o 1 st) as Hl; pose proof (net_slots_netmsgs o 1 st) as Hm; pose proof (net_slots_again o 1 st) as Ha;
    destruct (net_slots o 1 st) as [r st']; cbn [fst snd] in *; split; [done|split; [done|]];
    destruct r; [auto|right; by right].
  split; [apply looked_refl|]. split; [done|]. right. left. by split; [|lia].
Qed.

Lemma looked_ready st st' : looked st st' → net_isReady i st' = net_isReady i st.
Proof.
  intros Hl. unfold net_isReady. rewrite (ev_now _ _ (looked_evolves _ _ Hl)). destruct (lk_bufs _ _ Hl i) as (E & _).
  unfold isReady. by rewrite E.
Qed.

Lemma cost_same st st' sent : (∀ p, netmsgs st' p = netmsgs st p) → cost st' sent = cost st sent.
Proof. intros H. apply zsum_ext. intros [a b] _. cbn. destruct (mn_msgptr a); by rewrite ?H. Qed.

(** The part of an iteration after the message was started. *)
Lemma spend th bw u : vnet_ok th → m_units_remaining th !! k = Some u → 0 < bw < 2 ^ 31 → 0 ≤ u ≤ MAX_SIZE →
  let diff := i32 (u - bw) in let th' := set_units k (Z.max 0 diff) th in let bw' := Z.max 0 (i32 (- diff)) in
  vnet_ok th' ∧ same_link th th' ∧ units th' = Z.max 0 (u - bw) ∧ bw' = Z.max 0 (bw - u) ∧
  m_units_remaining th' = <[k := units th']> (m_units_remaining th) ∧ m_units_remaining th' !! k = Some (units th').
Proof.
  intros Hv Hu Hb Hr. unfold MAX_SIZE in *. cbn zeta. rewrite (i32_id (u - bw)) by lia. rewrite i32_id by lia.
  destruct (set_units_ok (Z.max 0 (u - bw)) th Hv) as [H1 H2]; [unfold MAX_SIZE; lia|].
  assert (E : m_units_remaining (set_units k (Z.max 0 (u - bw)) th) !! k = Some (Z.max 0 (u - bw))).
  { cbn. apply list_lookup_insert_eq. by eapply lookup_lt_Some. }
  rewrite (units_at _ _ E). split_and!; try done. lia.
Qed.

Lemma move_loop_ok fuel : ∀ th st Q bw,
  vnet_ok th → link_inv th st Q → 0 ≤ bw < 2 ^ 31 →
  (bw = 0 ∨ (length (Q i) + (if (0 <? units th)%Z then 1 else 0) ≤ fuel)%nat) →
  ∃ bw' th' st' Q' sent, move_loop fuel k i o bw (th, st) = Ret (bw', (th', st')) ∧
    loop_result th st Q bw th' st' Q' bw' sent.
Proof.
  induction fuel as [|fuel IH]; intros th st Q bw Hv Hinv Hbw Hfuel; cbn [Throttle.move_loop fst snd];
    destruct (vnet_facts th Hv) as (Hi & Ho & Hii & Hoi & Hne & u & Hu & Hur);
    rewrite (at_idx_Some _ _ _ Hu); cbn [mbind outcome_bind]; pose proof (units_at th u Hu) as Eu; rewrite Eu in *;
    pose proof (can_move_spec bw u st) as Hcan; destruct (can_move k i o bw u st) as [go st1];
    destruct Hcan as (Hl & Hm & Hgo);
    pose proof (rep_isReady (now st) _ _ (li_reps _ _ _ Hinv i Hii)) as Hready; fold (net_isReady i st) in Hready;
    assert (Hstop : go = false → ∃ bw' th' st' Q' sent, Ret (bw, (th, st1)) = Ret (bw', (th', st')) ∧
      loop_result th st Q bw th' st' Q' bw' sent)
    by (intros ->; exists bw, th, st1, Q, []; split; [done|]; split; rewrite ?Eu;
        [done|done|by eapply looked_link|by apply looked_passed|by rewrite list_insert_id|lia|unfold cost; cbn; lia|];
        unfold finished; rewrite (looked_ready st) by done;
        destruct Hgo as [?|[[? ?]|?]]; [left; lia|right; left; split; [done|lia]|right; by right]).
  { destruct go; [|by apply Hstop]. exfalso. destruct Hgo as [Hb Hgo]. destruct Hfuel as [?|Hfuel]; [lia|].
    destruct (Z.ltb_spec 0 u); [lia|]. destruct Hgo as [Hr|]; [|lia]. rewrite Hr in Hready. destruct (Q i); [done|cbn in Hfuel; lia]. }
  destruct go; [|by apply Hstop]. clear Hstop. destruct Hgo as [Hb Hgo]. destruct Hfuel as [?|Hfuel]; [lia|].
  pose proof (looked_link th st Q st1 Hl Hm Hinv) as Hinv1. pose proof (ev_now _ _ (looked_evolves _ _ Hl)) as Hnow1.
  rewrite (looked_ready st) by done.
  assert (Hnext : ∀ th2 st2 Q2 u2 sent, vnet_ok th2 → same_link th th2 → link_inv th2 st2 Q2 → passed i o st Q st2 Q2 sent →
      m_units_remaining th2 = <[k := u2]> (m_units_remaining th) → 0 ≤ u2 ≤ MAX_SIZE → u2 = u + cost st sent →
      (bw ≤ u2 ∨ (length (Q2 i) ≤ fuel)%nat) →
      ∃ bw' th' st' Q' sent', (units ← (m_units_remaining th2).[k]!; let diff := i32 (units - bw) in
        move_loop fuel k i o (Z.max 0 (i32 (- diff))) (set_units k (Z.max 0 diff) th2, st2)) = Ret (bw', (th', st')) ∧
      loop_result th st Q bw th' st' Q' bw' sent').
  { intros th2 st2 Q2 u2 sent Hv2 Hsame2 Hinv2 Hp2 Eun2 Hu2 Ecost Hf2.
    assert (Eu2 : m_units_remaining th2 !! k = Some u2) by (rewrite Eun2; apply list_lookup_insert_eq; by eapply lookup_lt_Some).
    rewrite (at_idx_Some _ _ _ Eu2). cbn [mbind outcome_bind].
    destruct (spend th2 bw u2 Hv2 Eu2) as (Hv3 & Hsame3 & Eu3 & Ebw3 & Eun3 & _); [lia|done|].
    rewrite Ebw3 in *. set (th3 := set_units k _ th2) in *.
    destruct (IH th3 st2 Q2 (Z.max 0 (bw - u2))) as (bw' & th' & st' & Q' & sent' & -> & [R1 R2 R3 R4 R5 R6 R7 R8]).
    { done. } { by eapply same_link_inv. } { lia. }
    { rewrite Eu3. destruct Hf2 as [?|Hf2]; [left; lia|]. destruct (Z.leb_spec bw u2); [left; lia|right].
      destruct (Z.ltb_spec 0 (Z.max 0 (u2 - bw))); lia. }
    exists bw', th', st', Q', (sent ++ sent'). split; [done|]. split; [done| |done|by eapply passed_trans| |lia| |done].
    - eapply same_link_trans; [exact Hsame2|]. by eapply same_link_trans.
    - rewrite R5, Eun3, Eun2, !list_insert_insert_eq. done.
    - rewrite (cost_same st st2), Eu3 in R7 by apply Hp2. unfold cost in *. rewrite Eu, zsum_app. lia. }
  destruct (Z.eqb_spec u 0) as [->|Hu0]; cbn [andb].
  - destruct Hgo as [Hr|]; [|lia]. rewrite Hr in Hready |- *. destruct (Q i) as [|n q] eqn:Hq; [done|].
    assert (Hn : mn_time n ≤ now st1) by (rewrite Hnow1; by apply Z.leb_le).
    destruct (start_ok th st1 Q n q Hv Hinv1 Hu Hq Hn) as (p & th2 & st2 & Q2 & b & Ep & -> & Eun2 & Hsz & Hsame2 & Hv2 & Hinv2 & Hp2).
    cbn [mbind outcome_bind]. rewrite Hm in Eun2, Hsz.
    apply (Hnext th2 st2 Q2 (size_of (netmsgs st p)) [(n, b)]); try done.
    + apply (passed_trans i o st Q st1 Q st2 Q2 [] [(n, b)]); [by apply looked_passed|done].
    + lia.
    + unfold cost. cbn. rewrite Ep. lia.
    + right. pose proof (ps_in _ _ _ _ _ _ _ Hp2) as Ein. rewrite Hq in Ein. injection Ein as Ein. rewrite <- Ein. cbn in Hfuel. lia.
  - cbn [mbind outcome_bind]. apply (Hnext th st1 Q u []); try done.
    + by apply looked_passed.
    + by rewrite list_insert_id.
    + unfold cost. cbn. lia.
    + right. destruct (Z.ltb_spec 0 u); lia.
Qed.
End vnet.

(** ** All virtual networks *)

(** The messages each virtual network moved. *)
Notation sends := (nat → list (MessageBufferNode * MessageBufferNode)).

Record delivered th st Q st' Q' (S : sends) : Prop := {
  dl_evolves : evolves st st';
  dl_owed : owed st' ids Q' ≡ₚ owed st ids Q;
  dl_netmsgs : ∀ p, netmsgs st' p = netmsgs st p;
  dl_vnets : ∀ k i o, m_in th !! k = Some i → m_out th !! k = Some o →
    Q i = (S k).*1 ++ Q' i ∧ Q' o ≡ₚ (S k).*2 ++ Q o ∧ Forall (carried st st' o) (S k);
  dl_else : ∀ j, j ∉ m_in th → j ∉ m_out th → same_queue (bufs st j) (bufs st' j) ∧ Q' j = Q j;
  dl_last : ∀ j, j ∉ m_out th → m_last_arrival_time (bufs st' j) = m_last_arrival_time (bufs st j)
}.

(** Something is left for virtual network [k]. *)
Definition busy th st (k i : nat) : bool := net_isReady i st || (0 <? units k th).

(** The loop after the virtual networks [done_]. *)
Record round th st Q (bw0 : Z) (done_ : list nat) (bw : Z) (sched : bool) th' st' Q' (S : sends) : Prop := {
  rd_ok : throttle_ok th';
  rd_same : same_link th th';
  rd_inv : link_inv th' st' Q';
  rd_delivered : delivered th st Q st' Q' S;
  rd_rest : ∀ k, k ∉ done_ → S k = [];
  rd_bw : 0 ≤ bw ≤ bw0;
  rd_cost : bw0 - bw + zsum id (m_units_remaining th') = zsum id (m_units_remaining th) + zsum (λ k, cost st (S k)) done_;
  rd_pending : ∀ k i, k ∈ done_ → m_in th !! k = Some i → busy th' st' k i = true → bw = 0 ∨ sched = true
}.

Lemma port_distinct th k j a b : throttle_ok th → (m_in th ++ m_out th) !! k = Some a → (m_in th ++ m_out th) !! j = Some b → k ≠ j → a ≠ b.
Proof. intros Hok Ha Hb Hne ->. apply Hne. eapply NoDup_lookup; [apply (tk_distinct _ Hok)|done..]. Qed.

Lemma delivered_step th st Q st1 Q1 S k i o st2 Q2 sent :
  throttle_ok th → m_in th !! k = Some i → m_out th !! k = Some o → S k = [] →
  delivered th st Q st1 Q1 S → passed i o st1 Q1 st2 Q2 sent → delivered th st Q st2 Q2 (upd k sent S).
Proof.
  intros Hok Hi Ho HS [D1 D2 D3 D4 D5 D6] Hp. pose proof Hp as [P1 P2 P3 P4 P5 P6 P7 P8].
  assert (Hin : ∀ j a, m_in th !! j = Some a → (m_in th ++ m_out th) !! j = Some a) by (intros j a H; by apply lookup_app_l_Some).
  assert (Hout : ∀ j a, m_out th !! j = Some a → (m_in th ++ m_out th) !! (length (m_in th) + j)%nat = Some a)
    by (intros j a H; rewrite lookup_app_r by lia; by replace (length (m_in th) + j - length (m_in th))%nat with j by lia).
  split.
  - by eapply evolves_trans.
  - by rewrite P2.
  - intros p. by rewrite P3.
  - intros j a b Ha Hb. destruct (D4 j a b Ha Hb) as (E1 & E2 & E3). unfold upd. destruct (decide (j = k)) as [->|Hjk].
    + assert (a = i) as -> by congruence. assert (b = o) as -> by congruence. rewrite HS in E1, E2. cbn in E1, E2.
      split; [by rewrite E1|]. split; [by rewrite P5, E2|]. eapply Forall_impl; [exact P6|]. intros [x y] (C1 & C2 & C3).
      rewrite (ev_now _ _ D1) in C2. split; [done|]. split; [done|]. intros c Hc. apply C3.
      pose proof (ev_config _ _ D1 o) as Hcf. unfold config in Hcf. congruence.
    + pose proof (lookup_lt_Some _ _ _ Hi). pose proof (lookup_lt_Some _ _ _ Ha).
      destruct (P7 a) as [_ ->]; [eapply port_distinct; [done|by apply Hin|by apply Hin|done]|
        eapply port_distinct; [done|by apply Hin|by apply Hout|lia]|].
      destruct (P7 b) as [_ ->]; [eapply port_distinct; [done|by apply Hout|by apply Hin|lia]|
        eapply port_distinct; [done|by apply Hout|by apply Hout|lia]|].
      split; [done|]. split; [done|]. eapply Forall_impl; [exact E3|]. intros x. by apply carried_later.
  - intros j Hji Hjo. destruct (D5 j Hji Hjo) as [(?&?&?&?&?) EQ1], (P7 j) as [(?&?&?&?&?) EQ2].
    { intros ->. by apply Hji, (list_elem_of_lookup_2 _ k). } { intros ->. by apply Hjo, (list_elem_of_lookup_2 _ k). }
    unfold same_queue. split_and!; congruence.
  - intros j Hjo. rewrite P8, D6; [done|done|]. intros ->. by apply Hjo, (list_elem_of_lookup_2 _ k).
Qed.

Lemma same_vnet th th' k i o : same_link th th' → throttle_ok th' → m_in th !! k = Some i → m_out th !! k = Some o → vnet_ok k i o th'.
Proof. intros (_ & E1 & E2 & _) Hok Hi Ho. split; [done|by rewrite E1|by rewrite E2]. Qed.

(** Another virtual network's queue and units are not touched. *)
Lemma busy_other th st1 st2 Q1 Q2 th1 th2 k i o j a sent :
  throttle_ok th → m_in th !! k = Some i → m_out th !! k = Some o → m_in th !! j = Some a → j ≠ k →
  passed i o st1 Q1 st2 Q2 sent → m_units_remaining th2 = <[k := units k th2]> (m_units_remaining th1) →
  busy th2 st2 j a = busy th1 st1 j a.
Proof.
  intros Hok Hi Ho Ha Hjk [P1 _ _ _ _ _ P7] Hu. unfold busy. f_equal.
  - unfold net_isReady. rewrite (ev_now _ _ P1). destruct (P7 a) as [(E & _) _].
    + intros ->. apply Hjk. eapply NoDup_lookup; [|exact Ha|exact Hi]. pose proof (tk_distinct _ Hok) as Hnd. by apply NoDup_app in Hnd as (? & _).
    + intros ->. pose proof (tk_distinct _ Hok) as Hnd. apply NoDup_app in Hnd as (_ & Hd & _). apply (Hd o); by eapply list_elem_of_lookup_2.
    + unfold isReady. by rewrite E.
  - f_equal. unfold units at 1. rewrite Hu, list_lookup_insert_ne by done. done.
Qed.

Lemma link_vnet_ok th st Q bw0 done_ bw sched th1 st1 Q1 S k : throttle_ok th → bw0 < 2 ^ 31 →
  round th st Q bw0 done_ bw sched th1 st1 Q1 S → (k < m_vnets th)%nat → k ∉ done_ →
  ∃ bw' sched' th' st' Q' S', one_vnet (bw, sched, (th1, st1)) k = Ret (bw', sched', (th', st')) ∧
    round th st Q bw0 (done_ ++ [k]) bw' sched' th' st' Q' S'.
Proof.
  intros Hok Hbw0 [R1 R2 R3 R4 R5 R6 R7 R8] Hk Hnew.
  destruct (lookup_lt_is_Some_2 (m_in th) k) as [i Hi]; [by rewrite (tk_in _ Hok)|].
  destruct (lookup_lt_is_Some_2 (m_out th) k) as [o Ho]; [by rewrite (tk_out _ Hok)|].
  pose proof (same_vnet th th1 k i o R2 R1 Hi Ho) as Hv. destruct (vnet_facts k i o th1 Hv) as (Hi1 & Ho1 & Hii & Hoi & Hne & u & Hu & Hur).
  unfold Throttle.one_vnet. rewrite (at_idx_Some _ _ _ (vk_out _ _ _ _ Hv)). cbn [mbind outcome_bind].
  rewrite (at_idx_Some _ _ _ (vk_in _ _ _ _ Hv)). cbn [mbind outcome_bind]. rewrite (at_idx_Some _ _ _ Hu). cbn [mbind outcome_bind].
  rewrite (proj2 (Z.leb_le 0 u)) by lia. cbn [assertb mbind outcome_bind].
  destruct (move_loop_ok k i o (2 + m_current_size (mb_heap (bufs st1 i))) th1 st1 Q1 bw Hv R3) as (bw' & th2 & st2 & Q2 & sent & -> & [M1 M2 M3 M4 M5 M6 M7 M8]).
  { lia. }
  { right. rewrite (rep_current _ _ (li_reps _ _ _ R3 i Hii)). destruct (0 <? units k th1); lia. }
  cbn [mbind outcome_bind]. assert (Eu2 : m_units_remaining th2 !! k = Some (units k th2)).
  { rewrite M5. apply list_lookup_insert_eq. by eapply lookup_lt_Some. }
  rewrite (at_idx_Some _ _ _ Eu2). cbn [mbind outcome_bind].
  assert (Hnext : ∀ sched' st3, looked st2 st3 → (∀ p, netmsgs st3 p = netmsgs st2 p) →
      (busy th2 st2 k i = true → bw' = 0 ∨ sched' = true) → (sched = true → sched' = true) →
      round th st Q bw0 (done_ ++ [k]) bw' sched' th2 st3 Q2 (upd k sent S)).
  { intros sched' st3 Hl Hm Hsch Hmono.
    assert (Hp3 : passed i o st1 Q1 st3 Q2 sent).
    { rewrite <- (app_nil_r sent). eapply passed_trans; [exact M4|]. by apply looked_passed. }
    split; [apply M1|by eapply same_link_trans|by eapply looked_link| | |lia| |].
    - by eapply delivered_step; [..|apply R5|exact R4|exact Hp3].
    - intros j Hj. apply not_elem_of_app in Hj as [Hj Hjk]. rewrite upd_other; [by apply R5|]. intros ->. apply Hjk. left.
    - rewrite M5, (zsum_insert _ _ _ _ Hu), zsum_app. cbn [zsum foldr]. rewrite upd_same, <- (cost_same st st1) by apply R4.
      rewrite (zsum_ext (λ k0, cost st (upd k sent S k0)) (λ k0, cost st (S k0))).
      2: { intros j Hj. rewrite upd_other; [done|]. by intros ->. }
      rewrite (units_at k th1 u Hu) in M7. lia.
    - intros j a Hj Ha Hb. destruct (decide (j = k)) as [->|Hjk].
      + assert (a = i) as -> by congruence. apply Hsch. unfold busy in *. by rewrite (looked_ready i st2 st3) in Hb.
      + apply elem_of_app in Hj as [Hj|Hj%list_elem_of_singleton]; [|done].
        rewrite (busy_other th st1 st3 Q1 Q2 th1 th2 k i o j a sent) in Hb by done.
        destruct (R8 j a Hj Ha Hb) as [->|Hs]; [left; lia|right; auto]. }
  destruct (Z.ltb_spec 0 bw') as [Hb|Hb]; cbn [andb].
  2: { exists bw', sched, th2, st2, Q2, (upd k sent S). split; [done|]. apply Hnext; [apply looked_refl|done| |done]. intros _. left. lia. }
  fold (busy th2 st2 k i). destruct (busy th2 st2 k i) eqn:Hbusy.
  - pose proof (net_slots_looked o 1 st2) as Hl. pose proof (net_slots_netmsgs o 1 st2) as Hm.
    destruct (net_slots o 1 st2) as [r st3] eqn:Es. cbn [fst snd] in *.
    exists bw', (sched || negb r), th2, st3, Q2, (upd k sent S). split; [done|]. apply Hnext; [done|done| |by intros ->].
    intros _. right. destruct M8 as [?|[[Hr Hu0]|Hs]]; [lia| |].
    + unfold busy in Hbusy. rewrite Hr, Hu0 in Hbusy. done.
    + rewrite Es in Hs. cbn in Hs. subst r. apply orb_true_r.
  - exists bw', sched, th2, st2, Q2, (upd k sent S). split; [done|]. apply Hnext; [apply looked_refl|done|congruence|done].
Qed.

(** ** The wakeup *)

Lemma sample_ok fuel : ∀ cur bw last since bash, cur - last ≤ ADJUST_INTERVAL * (Z.of_nat fuel + 1) → 0 ≤ bash ≤ HIGH_RANGE →
  ∃ last' since' bash', sample_loop threshold fuel cur bw last since bash = Ret (last', since', bash') ∧
    0 ≤ bash' ≤ HIGH_RANGE ∧ cur - last' ≤ ADJUST_INTERVAL.
Proof.
  induction fuel as [|fuel IH]; intros cur bw last since bash Hf Hb; cbn [sample_loop];
    (destruct (Z.ltb_spec ADJUST_INTERVAL (cur - last)) as [Hlt|]; [|by exists last, since, bash]).
  - lia.
  - apply IH; [lia|]. unfold HIGH_RANGE in *. lia.
Qed.

Lemma account_ok bw th st : throttle_ok th →
  ∃ th', account bw th st = Ret th' ∧ throttle_ok th' ∧ same_link th th' ∧ m_units_remaining th' = m_units_remaining th.
Proof.
  intros [H1 H2 H3 H4 H5 H6 H7 H8 H9 H10]. unfold Throttle.account.
  destruct (sample_ok (sample_fuel (now st) (m_last_bandwidth_sample th)) (now st) (getLinkBandwidth th) (m_last_bandwidth_sample th)
    (i32 (m_bandwidth_since_sample th + i32 (getLinkBandwidth th - bw))) (m_bash_counter th)) as (last & since & bash & -> & Hb' & _); [|done|].
  { unfold sample_fuel. set (d := now st - m_last_bandwidth_sample th). pose proof (Z.div_mod d ADJUST_INTERVAL ltac:(done)).
    pose proof (Z.mod_pos_bound d ADJUST_INTERVAL ltac:(done)). unfold ADJUST_INTERVAL in *.
    destruct (Z.leb_spec 0 (d / 50000 + 1)); [rewrite Z2Nat.id by done|]; lia. }
  cbn [mbind outcome_bind]. eexists. split; [done|]. split; [by split|]. by split.
Qed.

Lemma elem_order n invert v : v ∈ vnet_order n invert ↔ (v < n)%nat.
Proof.
  unfold vnet_order. destruct invert; [|rewrite list_elem_of_In, <- in_rev, <- list_elem_of_In]; rewrite elem_of_seq; lia.
Qed.

Lemma order_once n invert : NoDup (vnet_order n invert).
Proof. unfold vnet_order. destruct invert; [|rewrite <- Permutation_rev]; apply NoDup_seq. Qed.

Lemma order_perm n invert : vnet_order n invert ≡ₚ seq 0 n.
Proof. unfold vnet_order. destruct invert; [done|]. symmetry. apply Permutation_rev. Qed.

Lemma all_vnets th0 th st Q order : throttle_ok th → throttle_ok th0 → same_link th th0 → link_inv th0 st Q →
  m_units_remaining th0 = m_units_remaining th → (∀ v, v ∈ order → (v < m_vnets th)%nat) → NoDup order →
  ∃ bw sched th' st' Q' S, foldM one_vnet (getLinkBandwidth th, false, (th0, st)) order = Ret (bw, sched, (th', st')) ∧
    round th st Q (getLinkBandwidth th) order bw sched th' st' Q' S.
Proof.
  intros Hok Hok0 Hsame Hinv Hu Horder Hnd. pose proof (tk_bandwidth _ Hok) as Hbw.
  assert (Hlbw : 0 ≤ getLinkBandwidth th < 2 ^ 31) by (unfold Throttle.getLinkBandwidth; rewrite i32_id; lia).
  destruct (foldM_list (λ n '(bw, sched, (th', st')), ∃ Q' S, round th st Q (getLinkBandwidth th) (take n order) bw sched th' st' Q' S)
    one_vnet order (getLinkBandwidth th, false, (th0, st))) as ([[bw sched] [th' st']] & E & Q' & S & HR).
  - exists Q, (λ _, []). split; [done|done|done| |done|lia| |].
    + split; [apply evolves_refl|done|done| |done|done]. intros k i o Hi Ho. by split_and!.
    + rewrite Hu, take_0. unfold zsum at 3. cbn [foldr]. lia.
    + by intros k i ?%not_elem_of_nil.
  - intros n k [[bw sched] [th1 st1]] Hk (Q1 & S & HR).
    destruct (link_vnet_ok th st Q (getLinkBandwidth th) (take n order) bw sched th1 st1 Q1 S k Hok) as (bw' & sched' & th' & st' & Q' & S' & E & HR');
      [lia|done|by eapply Horder, list_elem_of_lookup_2| |].
    + intros (j & Hj & Hlt)%elem_of_take. assert (j = n); [|lia]. by eapply NoDup_lookup.
    + eexists. split; [exact E|]. exists Q', S'. by rewrite (take_S_r _ _ _ Hk).
  - exists bw, sched, th', st', Q', S. split; [done|]. by rewrite take_ge in HR.
Qed.

Lemma link_wakeup_ok th st Q : throttle_ok th → link_inv th st Q →
  ∃ th' st' Q' S, wakeup (th, st) = Ret (th', st') ∧ throttle_ok th' ∧ same_link th th' ∧ link_inv th' st' Q' ∧ delivered th st Q st' Q' S ∧
    0 ≤ zsum (λ k, cost st (S k)) (seq 0 (m_vnets th)) + zsum id (m_units_remaining th) - zsum id (m_units_remaining th') ≤ getLinkBandwidth th ∧
    ∀ k i, m_in th !! k = Some i → busy th' st' k i = true → mkNode (now st + 1) (Some (th_this th)) ∈ nodes (net_evq st').
Proof.
  intros Hok Hinv. unfold Throttle.wakeup. pose proof (tk_bandwidth _ Hok) as Hbw.
  rewrite (proj2 (Z.ltb_lt 0 (getLinkBandwidth th))) by (unfold Throttle.getLinkBandwidth; rewrite i32_id; lia).
  cbn [assertb mbind outcome_bind]. set (invert := PRIORITY_SWITCH_LIMIT <? _). set (th0 := mkThrottle _ _ _ _ _ _ _ _ _ _ _ _ _ _ _ _).
  change (getLinkBandwidth th0) with (getLinkBandwidth th). change (m_vnets th0) with (m_vnets th).
  assert (Hok0 : throttle_ok th0) by (destruct Hok; by split). assert (Hsame0 : same_link th th0) by done.
  destruct (all_vnets th0 th st Q (vnet_order (m_vnets th) invert) Hok Hok0 Hsame0) as (bw & sched & th1 & st1 & Q1 & S & -> & [R1 R2 R3 R4 R5 R6 R7 R8]);
    [by eapply same_link_inv|done|intros v; apply elem_order|apply order_once|].
  cbn [mbind outcome_bind]. destruct (account_ok bw th1 st1 R1) as (th2 & E & Hok2 & Hsame2 & Hu2).
  assert (Eacc : account bw th1 st1 = Ret th2) by exact E. rewrite Eacc. cbn [mbind outcome_bind]. clear E Eacc.
  assert (Hsame : same_link th th2) by by eapply same_link_trans. pose proof (same_link_inv _ _ _ _ Hsame2 R3) as Hinv2.
  assert (Hcost : zsum (λ k, cost st (S k)) (vnet_order (m_vnets th) invert) = zsum (λ k, cost st (S k)) (seq 0 (m_vnets th)))
    by apply zsum_perm, order_perm.
  pose proof (dl_evolves _ _ _ _ _ _ R4) as Hev. pose proof (ev_now _ _ Hev) as Hnow.
  destruct ((0 <? bw) && negb sched) eqn:Eb.
  - apply andb_true_iff in Eb as [Hb%Z.ltb_lt Hs%negb_true_iff]. exists th2, st1, Q1, S. split; [done|]. split; [done|]. split; [done|].
    split; [done|]. split; [done|]. split; [rewrite Hu2; lia|]. intros k i Hi Hbusy. exfalso.
    destruct (R8 k i) as [?|?]; [apply elem_order; rewrite <- (tk_in _ Hok); by eapply lookup_lt_Some|done| |lia|congruence].
    revert Hbusy. unfold busy, units. by rewrite Hu2.
  - destruct (net_schedule_ok P (th_this th2) 1 st1 (li_events _ _ _ R3)) as (e & -> & He & Hk & Hin); [lia|].
    cbn [mbind outcome_bind]. assert (Hnow4 : getTime e = now st1) by apply (kept_time _ _ Hk).
    assert (Hth : th_this th2 = th_this th) by apply Hsame.
    eexists th2, _, Q1, S. split; [done|]. split; [done|]. split; [done|]. split; [|split; [|split; [rewrite Hu2; lia|]]].
    + destruct Hinv2 as [J1 J2 J3 J4 J5 J6]. split; cbn; try done.
      * eapply held_ext; [|exact J2]. by intros ? ? ? _ _ _ [? ? ?].
      * unfold now. cbn. rewrite Hnow4. exact J4.
    + destruct R4 as [D1 D2 D3 D4 D5 D6]. assert (Hev2 : evolves st1 (mkNet (bufs st1) (timing st1) (netmsgs st1) (next_msg st1) e (draws st1))) by by split.
      split; cbn; try done; [by eapply evolves_trans|]. intros k i o Hi Ho. destruct (D4 k i o Hi Ho) as (E1 & E2 & E3).
      split; [done|]. split; [done|]. eapply Forall_impl; [exact E3|]. intros x. by apply carried_later.
    + intros k i _ _. cbn. by rewrite <- Hth, <- Hnow.
Qed.
End throttle.

(** [C28] The throttle: from any state whose buffers hold well-formed messages of
    a defined size, a wakeup returns (no assertion fails, the loops end), keeps
    the invariant, and delivers: on every virtual network it takes messages from
    the front of the input and puts the same, unchanged messages into the output
    with the wakeup of its consumer scheduled, so exactly the same deliveries are
    owed.  What the messages cost, with the transfers still running before and
    after, is what was spent, never more than the bandwidth of the link.  While
    a message is ready or a transfer is running, its next wakeup is scheduled. *)
Theorem throttle_wakeup_correct {W B} RANDOMIZATION endpoint_bandwidth threshold random counts P ids
    (th : Throttle) (st : netstate W B) Q :
  NoDup ids → throttle_ok endpoint_bandwidth ids th → link_inv RANDOMIZATION counts P ids th st Q →
  ∃ th' st' Q' S, wakeup RANDOMIZATION endpoint_bandwidth threshold random (th, st) = Ret (th', st') ∧
    throttle_ok endpoint_bandwidth ids th' ∧ link_inv RANDOMIZATION counts P ids th' st' Q' ∧
    owed st' ids Q' ≡ₚ owed st ids Q ∧ (∀ p, netmsgs st' p = netmsgs st p) ∧
    (∀ k i o, m_in th !! k = Some i → m_out th !! k = Some o →
       Q i = (S k).*1 ++ Q' i ∧ Q' o ≡ₚ (S k).*2 ++ Q o ∧ Forall (carried st st' o) (S k)) ∧
    0 ≤ zsum (λ k, cost st (S k)) (seq 0 (m_vnets th)) + zsum id (m_units_remaining th) - zsum id (m_units_remaining th')
      ≤ getLinkBandwidth endpoint_bandwidth th ∧
    ∀ k i, m_in th !! k = Some i → busy th' st' k i = true → mkNode (now st + 1) (Some (th_this th)) ∈ nodes (net_evq st').
Proof.
  intros Hids Hok Hinv.
  destruct (link_wakeup_ok RANDOMIZATION endpoint_bandwidth threshold random counts P ids Hids th st Q Hok Hinv)
    as (th' & st' & Q' & S & E & H1 & _ & H2 & [_ D2 D3 D4 _ _] & H3 & H4).
  by exists th', st', Q', S.
Qed.

(** ** One control message *)

Definition ex_port (consumer : nat) : MessageBuffer :=
  match setConsumer consumer (setOrdering true new_buffer) with Ret b => b | Raise _ => new_buffer end.

(** Buffer 0 comes in, 1 goes out; the message is sent in cycle 1. *)
Definition ex_sent : netstate unit unit :=
  let b := match enqueue_node 1 0 2 (ex_port 10) with Ret b => b | Raise _ => ex_port 10 end in
  mkNet (λ i, if decide (i = 0%nat) then b else ex_port 11) (λ _, mkMessage 2 0)
    (λ _, mkNetMsg (new_NetDest [2]) Control [] false tt) 1 (mkWorld (mkEventQueue heap_init 2 2) (λ _, new_consumer) tt) 0.

Definition ex_throttle : Throttle :=
  mkThrottle 10 [0%nat] [1%nat] (λ _, [0]) 1 [0] 0 0 HIGH_RANGE 0 0 1 3 0 0 (of_int 0).

Definition ex_queues (i : nat) : list MessageBufferNode := if decide (i = 0%nat) then [mkMsgNode 2 1 (Some 0%nat)] else [].

Lemma ex_link_port_ok c : represents (ex_port c) [].
Proof. apply represents_nil; [apply heap_init_ok|done..]. Qed.

Lemma ex_throttle_ok : throttle_ok 10000 [0%nat; 1%nat] ex_throttle.
Proof.
  split; try done; [cbn; solve_NoDup|]. intros u Hu. by elem_cases Hu; subst.
Qed.

Lemma ex_link_inv : link_inv false [2] [] [0%nat; 1%nat] ex_throttle ex_sent ex_queues.
Proof.
  assert (Hn : ∀ i n, n ∈ ex_queues i → n = mkMsgNode 2 1 (Some 0%nat)).
  { intros i n. unfold ex_queues. case_decide; [by intros ->%list_elem_of_singleton|by intros ?%not_elem_of_nil]. }
  split.
  - intros i _. unfold ex_sent, ex_queues. cbn [bufs]. case_decide; [|apply ex_link_port_ok].
    destruct (enqueue_node_ok 1 0 2 (ex_port 10) [] (ex_link_port_ok 10)) as (b & -> & Hb & _); done.
  - split; [|by apply NoDup_singleton]. intros i n _ ->%Hn. exists 0%nat. split; [done|]. split; [cbn; lia|cbn; lia|].
    apply new_spec. intros [|j] c Hc; cbn in Hc; simplify_eq; lia.
  - split; [apply heap_init_ok|constructor|by exists []| |]; cbn; intros c; cbn; [|lia]. intros Hc. unfold getTime in Hc. cbn in Hc. lia.
  - intros o Ho. elem_cases Ho; subst; (split; [done|by eexists|by cbn]).
  - intros o Ho. elem_cases Ho; subst; done.
  - by intros i n p _ ->%Hn [= <-].
Qed.

(** It is moved in one cycle and arrives three cycles later. *)
Lemma throttle_wakeup_correct_witness :
  match wakeup false 10000 (of_int 0) (λ _, 0) (ex_throttle, ex_sent) with
  | Ret (_, st) => (λ i, (m_size (bufs st i), m_last_arrival_time (bufs st i))) <$> [0%nat; 1%nat] = [(0, 2); (1, 5)]
  | Raise _ => False
  end ∧
  ∃ th' st' Q', wakeup false 10000 (of_int 0) (λ _, 0) (ex_throttle, ex_sent) = Ret (th', st') ∧
    owed st' [0%nat; 1%nat] Q' ≡ₚ owed ex_sent [0%nat; 1%nat] ex_queues.
Proof.
  split; [vm_compute; reflexivity|].
  assert (Hnd : NoDup [0%nat; 1%nat]) by solve_NoDup.
  destruct (throttle_wakeup_correct false 10000 (of_int 0) (λ _, 0) [2] [] [0%nat; 1%nat] ex_throttle ex_sent ex_queues
    Hnd ex_throttle_ok ex_link_inv) as (th' & st' & Q' & S & E & _ & _ & Ho & _).
  exact (ex_intro _ th' (ex_intro _ st' (ex_intro _ Q' (conj E Ho)))).
Defined.

(** ** What the modelling showed *)

(** With the default bandwidth and a multiplier of 10 the product of the sampling
    interval and the bandwidth does not fit an [int]. *)
Lemma sample_overflow : i32 (ADJUST_INTERVAL * (10000 * 10)) ≠ ADJUST_INTERVAL * (10000 * 10).
Proof. done. Qed.
