(* ===== verification/Switch.v ===== *)
(** * A switch with its links

    [Switch.C] and [Switch.h] of [gems-lib/ruby_clean/network/simple]: a
    [PerfectSwitch] and one [Throttle] per output port, with a buffer per
    virtual network between them.  The objects the network allocates live in an
    arena: [new] takes the next number.  Left out: the destructor and printing. *)

From stdpp Require Import gmap sets list numbers.
From S2P Require Import Prelude NodeSet NetDest PrioHeap EventQueue MessageBuffer NetStore PerfectSwitch Throttle.
Local Open Scope Z_scope.

(** ** Objects *)

(** The consumers a network creates. *)
Inductive component := Perfect (sw : PerfectSwitch) | Throttled (th : Throttle).

Record arena (W B : Type) := mkArena {
  next_buf : nat;
  next_obj : nat;
  objs : gmap nat component;
  net : netstate W B
}.
Arguments mkArena {W B}.
Arguments next_buf {W B}.
Arguments next_obj {W B}.
Arguments objs {W B}.
Arguments net {W B}.

Record Switch := mkSwitchObj {
  m_perfect_switch_ptr : nat;
  m_throttles : list nat;
  m_buffers_to_free : list nat;
  m_switch_id : nat
}.

Section switch.
Context {W B : Type}.
(** Configuration. *)
Variables (FINITE_BUFFERING : bool) (FINITE_BUFFER_SIZE : Z).
Variable m_virtual_networks : nat.
Implicit Types a : arena W B.

Definition set_net (st : netstate W B) a : arena W B := mkArena (next_buf a) (next_obj a) (objs a) st.
Definition set_obj (p : nat) (c : component) a : arena W B :=
  mkArena (next_buf a) (next_obj a) (<[p := c]> (objs a)) (net a).

Definition perfect_at (p : nat) a : outcome PerfectSwitch :=
  match objs a !! p with Some (Perfect sw) => Ret sw | _ => Raise BadDeref end.
Definition throttle_at (p : nat) a : outcome Throttle :=
  match objs a !! p with Some (Throttled th) => Ret th | _ => Raise BadDeref end.

(** [new MessageBuffer] *)
Definition new_MessageBuffer a : nat * arena W B :=
  (next_buf a, mkArena (S (next_buf a)) (next_obj a) (objs a) (set_bufs (next_buf a) new_buffer (net a))).

(** [new T(...)] for a consumer. *)
Definition new_component (f : nat → component) a : nat * arena W B :=
  (next_obj a, mkArena (next_buf a) (S (next_obj a)) (<[next_obj a := f (next_obj a)]> (objs a)) (net a)).

(** The buffer of a link or in front of it: ordered. *)
Definition new_link_buffer a : nat * arena W B :=
  let '(i, a) := new_MessageBuffer a in
  let b := setOrdering true (bufs (net a) i) in
  let b := if FINITE_BUFFERING then setSize FINITE_BUFFER_SIZE b else b in
  (i, set_net (set_bufs i b (net a)) a).

(** One per virtual network. *)
Definition new_link_buffers (n : nat) a : list nat * arena W B :=
  foldl (λ '(l, a) _, let '(i, a) := new_link_buffer a in (l ++ [i], a)) ([], a) (seq 0 n).

(** ** The methods *)

Definition new_Switch (sid : nat) a : Switch * arena W B :=
  let '(p, a) := new_component (λ this, Perfect (new_PerfectSwitch this sid)) a in
  (mkSwitchObj p [] [] sid, a).

Definition addInPort (in_vec : list nat) (s : Switch) a : outcome (arena W B) :=
  sw ← perfect_at (m_perfect_switch_ptr s) a;
  '(sw, st) ← PerfectSwitch.addInPort m_virtual_networks in_vec (sw, net a);
  Ret (set_obj (m_perfect_switch_ptr s) (Perfect sw) (set_net st a)).

Definition addOutPort (out : list nat) (entry : list NodeSet) (link_latency bw_multiplier : Z) (s : Switch) a
    : outcome (Switch * arena W B) :=
  th ← new_Throttle (next_obj a) (Z.of_nat (m_switch_id s)) (Z.of_nat (length (m_throttles s))) link_latency bw_multiplier (net a);
  let '(p, a) := new_component (λ _, Throttled th) a in
  let s := mkSwitchObj (m_perfect_switch_ptr s) (m_throttles s ++ [p]) (m_buffers_to_free s) (m_switch_id s) in
  let '(intermediateBuffers, a) := new_link_buffers (length out) a in
  let s := mkSwitchObj (m_perfect_switch_ptr s) (m_throttles s) (m_buffers_to_free s ++ intermediateBuffers) (m_switch_id s) in
  sw ← perfect_at (m_perfect_switch_ptr s) a;
  sw ← PerfectSwitch.addOutPort m_virtual_networks intermediateBuffers entry sw;
  let a := set_obj (m_perfect_switch_ptr s) (Perfect sw) a in
  th ← throttle_at p a;
  '(th, st) ← addLinks intermediateBuffers out (th, net a);
  Ret (s, set_obj p (Throttled th) (set_net st a)).

Definition clearRoutingTables (s : Switch) a : outcome (arena W B) :=
  sw ← perfect_at (m_perfect_switch_ptr s) a;
  Ret (set_obj (m_perfect_switch_ptr s) (Perfect (PerfectSwitch.clearRoutingTables sw)) a).

Definition clearBuffers (s : Switch) a : outcome (arena W B) :=
  sw ← perfect_at (m_perfect_switch_ptr s) a;
  st ← PerfectSwitch.clearBuffers m_virtual_networks (sw, net a);
  foldM (λ a p, th ← throttle_at p a; st ← Throttle.clear (th, net a); Ret (set_net st a))
    (set_net st a) (m_throttles s).

Definition reconfigureOutPort (entry : list NodeSet) (s : Switch) a : outcome (arena W B) :=
  sw ← perfect_at (m_perfect_switch_ptr s) a;
  Ret (set_obj (m_perfect_switch_ptr s) (Perfect (PerfectSwitch.reconfigureOutPort entry sw)) a).

Definition getThrottle (link_number : nat) (s : Switch) : outcome nat := (m_throttles s).[link_number]!.

Definition getThrottles (s : Switch) : list nat := m_throttles s.

Definition clearStats (s : Switch) a : outcome (arena W B) :=
  foldM (λ a p, th ← throttle_at p a; Ret (set_obj p (Throttled (Throttle.clearStats th (net a))) a)) a (m_throttles s).
End switch.
