(* ===== verification/SimpleNetwork.v ===== *)
(** * The network

    [SimpleNetwork.C] and [SimpleNetwork.h] of
    [gems-lib/ruby_clean/network/simple]: a queue into and out of the network per
    component and virtual network, and the switches, connected by the links the
    topology asks for.  A pointer to a [Switch] is its index.  Left out: the
    destructor and printing. *)

From stdpp Require Import gmap sets list numbers.
From S2P Require Import Prelude NodeSet NetDest PrioHeap EventQueue MessageBuffer NetStore PerfectSwitch Throttle Topology Switch.
Local Open Scope Z_scope.

Record SimpleNetwork := mkSimpleNetwork {
  m_toNetQueues : list (list nat);
  m_fromNetQueues : list (list nat);
  m_nodes : nat;
  m_in_use : list bool;
  m_ordered : list bool;
  m_switch_ptr_vector : list Switch;
  m_buffers_to_free : list nat;
  m_endpoint_switches : list (option nat)
}.

Section network.
Context {W B : Type}.
(** Configuration. *)
Variables (FINITE_BUFFERING : bool) (FINITE_BUFFER_SIZE : Z).
Variable m_virtual_networks : nat.
Variable counts : list Z.
Implicit Types (a : arena W B) (nw : SimpleNetwork).

Notation state := (SimpleNetwork * arena W B)%type.
Notation addOutPort := (addOutPort FINITE_BUFFERING FINITE_BUFFER_SIZE m_virtual_networks).
Notation addInPort := (addInPort m_virtual_networks).
Notation new_link_buffers := (new_link_buffers FINITE_BUFFERING FINITE_BUFFER_SIZE).

Definition set_switch (i : nat) (s : Switch) nw : SimpleNetwork :=
  mkSimpleNetwork (m_toNetQueues nw) (m_fromNetQueues nw) (m_nodes nw) (m_in_use nw) (m_ordered nw)
    (<[i := s]> (m_switch_ptr_vector nw)) (m_buffers_to_free nw) (m_endpoint_switches nw).

Definition free_later (l : list nat) nw : SimpleNetwork :=
  mkSimpleNetwork (m_toNetQueues nw) (m_fromNetQueues nw) (m_nodes nw) (m_in_use nw) (m_ordered nw)
    (m_switch_ptr_vector nw) (m_buffers_to_free nw ++ l) (m_endpoint_switches nw).

Definition set_endpoint (node switch : nat) nw : SimpleNetwork :=
  mkSimpleNetwork (m_toNetQueues nw) (m_fromNetQueues nw) (m_nodes nw) (m_in_use nw) (m_ordered nw)
    (m_switch_ptr_vector nw) (m_buffers_to_free nw) (<[node := Some switch]> (m_endpoint_switches nw)).

(** ** Links *)

Definition makeOutLink (src dest : nat) (entry : list NodeSet) (link_latency bw_multiplier : Z) (isReconfiguration : bool)
    '(nw, a) : outcome state :=
  assertb (dest <? m_nodes nw)%nat ;;
  assertb (src <? length (m_switch_ptr_vector nw))%nat ;;
  s ← (m_switch_ptr_vector nw).[src]!;
  if isReconfiguration then a ← reconfigureOutPort entry s a; Ret (nw, a)
  else
    out ← (m_fromNetQueues nw).[dest]!;
    '(s, a) ← addOutPort out entry link_latency bw_multiplier s a;
    _ ← (m_endpoint_switches nw).[dest]!;
    Ret (set_endpoint dest src (set_switch src s nw), a).

Definition makeInLink (src dest : nat) (isReconfiguration : bool) '(nw, a) : outcome state :=
  assertb (src <? m_nodes nw)%nat ;;
  if isReconfiguration then Ret (nw, a)
  else
    s ← (m_switch_ptr_vector nw).[dest]!; in_vec ← (m_toNetQueues nw).[src]!;
    a ← addInPort in_vec s a; Ret (nw, a).

Definition makeInternalLink (src dest : nat) (entry : list NodeSet) (link_latency bw_multiplier : Z) (isReconfiguration : bool)
    '(nw, a) : outcome state :=
  if isReconfiguration then
    s ← (m_switch_ptr_vector nw).[src]!; a ← reconfigureOutPort entry s a; Ret (nw, a)
  else
    let '(queues, a) := new_link_buffers m_virtual_networks a in
    let nw := free_later queues nw in
    d ← (m_switch_ptr_vector nw).[dest]!; a ← addInPort queues d a;
    s ← (m_switch_ptr_vector nw).[src]!; '(s, a) ← addOutPort queues entry link_latency bw_multiplier s a;
    Ret (set_switch src s nw, a).

(** A call of [Topology::makeLink]; the weight is not used. *)
Definition make_link (isReconfiguration : bool) (s : state) (c : link_call) : outcome state :=
  match c with
  | InLink src dest _ _ _ => makeInLink src dest isReconfiguration s
  | OutLink src dest entry latency _ bw => makeOutLink src dest entry latency bw isReconfiguration s
  | InternalLink src dest entry latency _ bw => makeInternalLink src dest entry latency bw isReconfiguration s
  end.

(** ** The constructor *)

Definition new_queue_pair '(to, from, a) (_ : nat) : list nat * list nat * arena W B :=
  let '(i, a) := new_MessageBuffer a in let '(o, a) := new_MessageBuffer a in (to ++ [i], from ++ [o], a).

Definition new_node_queues '(tos, froms, a) (_ : nat) : list (list nat) * list (list nat) * arena W B :=
  let '(to, from, a) := foldl new_queue_pair ([], [], a) (seq 0 m_virtual_networks) in (tos ++ [to], froms ++ [from], a).

Definition new_switches (n : nat) a : list Switch * arena W B :=
  foldl (λ '(l, a) i, let '(s, a) := new_Switch i a in (l ++ [s], a)) ([], a) (seq 0 n).

(** The members and the switches; [t] is the topology as its constructor left it. *)
Definition network_members (t : Topology) a : outcome state :=
  nodes ← MachineType_base_number counts (MachineType_NUM counts);
  let n := Z.to_nat nodes in
  let '(tos, froms, a) := foldl new_node_queues ([], [], a) (seq 0 n) in
  let '(switches, a) := new_switches (m_number_of_switches t) a in
  Ret (mkSimpleNetwork tos froms n (replicate m_virtual_networks false) (replicate m_virtual_networks false)
         switches [] (replicate n None), a).

Definition new_SimpleNetwork (fuel : nat) (t : Topology) a : outcome state :=
  s ← network_members t a;
  '(calls, _, _) ← createLinks counts fuel t;
  foldM (make_link false) s calls.

(** ** The other methods *)

Definition clear_buffer a (i : nat) : outcome (arena W B) :=
  b ← MessageBuffer.clear (bufs (net a) i); Ret (set_net (set_bufs i b (net a)) a).

Definition reset nw a : outcome (arena W B) :=
  a ← foldM (λ a node,
        foldM (λ a j,
            to ← (m_toNetQueues nw).[node]!; i ← to.[j]!; a ← clear_buffer a i;
            from ← (m_fromNetQueues nw).[node]!; o ← from.[j]!; clear_buffer a o)
          a (seq 0 m_virtual_networks)) a (seq 0 (m_nodes nw));
  foldM (λ a s, clearBuffers m_virtual_networks s a) a (m_switch_ptr_vector nw).

Definition checkNetworkAllocation (id : nat) (ordered : bool) (network_num : nat) nw : outcome SimpleNetwork :=
  assertb (id <? m_nodes nw)%nat ;;
  assertb (network_num <? m_virtual_networks)%nat ;;
  _ ← (m_ordered nw).[network_num]!; _ ← (m_in_use nw).[network_num]!;
  Ret (mkSimpleNetwork (m_toNetQueues nw) (m_fromNetQueues nw) (m_nodes nw) (<[network_num := true]> (m_in_use nw))
         (if ordered then <[network_num := true]> (m_ordered nw) else m_ordered nw)
         (m_switch_ptr_vector nw) (m_buffers_to_free nw) (m_endpoint_switches nw)).

Definition getToNetQueue (id : nat) (ordered : bool) (network_num : nat) nw : outcome (nat * SimpleNetwork) :=
  nw ← checkNetworkAllocation id ordered network_num nw;
  queues ← (m_toNetQueues nw).[id]!; i ← queues.[network_num]!; Ret (i, nw).

Definition getFromNetQueue (id : nat) (ordered : bool) (network_num : nat) nw : outcome (nat * SimpleNetwork) :=
  nw ← checkNetworkAllocation id ordered network_num nw;
  queues ← (m_fromNetQueues nw).[id]!; o ← queues.[network_num]!; Ret (o, nw).

Definition getThrottles (id : nat) nw : outcome (list nat) :=
  assertb (id <? m_nodes nw)%nat ;;
  e ← (m_endpoint_switches nw).[id]!;
  match e with
  | None => Raise AssertFailed
  | Some i => s ← (m_switch_ptr_vector nw).[i]!; Ret (Switch.getThrottles s)
  end.

Definition isVNetOrdered (vnet : nat) nw : outcome bool := (m_ordered nw).[vnet]!.

Definition validVirtualNetwork (vnet : nat) nw : outcome bool := (m_in_use nw).[vnet]!.

Definition clearStats nw a : outcome (arena W B) := foldM (λ a s, Switch.clearStats s a) a (m_switch_ptr_vector nw).
End network.
