(* ===== verification/NetworkStep.v ===== *)
(** * Steps of a network

    The switches and throttles of a network, woken by the event queue and fed by
    the components of the system: one turn of [EventQueue::triggerEvents] with
    [Consumer::triggerWakeup], the clock, and messages that enter and leave at
    the end points, in any order.  A switch and a throttle promise the network
    the same thing ([effect]); the invariant of the network is proved from it. *)

From stdpp Require Import gmap sets list numbers.
From S2P Require Import Prelude NodeSet NetDest PrioHeap EventQueue MessageBuffer NetStore PerfectSwitch SwitchWakeup Throttle ThrottleWakeup Switch.
Local Open Scope Z_scope.

Section network.
Context {W B : Type}.
Variables (RANDOMIZATION g_adaptive_routing : bool) (m_virtual_networks : nat) (isVNetOrdered : nat → bool).
Variable sortVector : list LinkOrder → list LinkOrder.
Variable g_endpoint_bandwidth : Z.
Variable threshold : double.
Variable random : nat → Z.
Implicit Types (a : arena W B) (st : netstate W B) (x y : component) (Q : nat → list MessageBufferNode).

(** ** Waking a component *)

Definition wake_component (c : nat) a : outcome (arena W B) :=
  match objs a !! c with
  | Some (Perfect sw) =>
      '(sw, st) ← PerfectSwitch.wakeup RANDOMIZATION g_adaptive_routing m_virtual_networks isVNetOrdered sortVector random (sw, net a);
      Ret (set_obj c (Perfect sw) (set_net st a))
  | Some (Throttled th) =>
      '(th, st) ← Throttle.wakeup RANDOMIZATION g_endpoint_bandwidth threshold random (th, net a);
      Ret (set_obj c (Throttled th) (set_net st a))
  | None => Ret a
  end.

Definition set_evq (e : world W) st : netstate W B :=
  mkNet (bufs st) (timing st) (netmsgs st) (next_msg st) e (draws st).

(** [Consumer::triggerWakeup] *)
Definition woken_at (c : nat) (t : Z) st : netstate W B :=
  let e := net_evq st in
  set_evq (mkWorld (queue e) (set_consumer c (mkConsumer (m_last_scheduled_wakeup (consumers e c)) t) (consumers e)) (rest e)) st.

Definition trigger (c : nat) a : outcome (arena W B) :=
  let t := now (net a) in
  if m_last_wakeup (consumers (net_evq (net a)) c) =? t then Ret a
  else a ← wake_component c a; Ret (set_net (woken_at c t (net a)) a).

(** A turn of the loop of [triggerEvents]. *)
Definition next_event a : outcome (arena W B) :=
  m ← peekMin (m_prio_heap (queue (net_evq (net a))));
  let e := set_time (m_time m) (net_evq (net a)) in
  '(thisNode, h) ← extractMin (m_prio_heap (queue e));
  match m_consumer_ptr thisNode with
  | None => Raise AssertFailed
  | Some c => trigger c (set_net (set_evq (set_heap h e) (net a)) a)
  end.

(** ** What a component promises *)

Definition inputs x : list nat := match x with Perfect sw => ins sw | Throttled th => Throttle.m_in th end.
Definition outputs x : list nat := match x with Perfect sw => outs sw | Throttled th => Throttle.m_out th end.
Definition delay x : Z := match x with Perfect _ => 1 | Throttled th => m_link_latency th end.
Definition this x : nat := match x with Perfect sw => ps_this sw | Throttled th => th_this th end.
Definition reach x : gset (nat * Z) := match x with Perfect sw => reachable sw | Throttled _ => ∅ end.

Variable counts : list Z.
Variable ids : list nat.
(** The destinations of the messages a buffer is meant for. *)
Variable allow : nat → gset (nat * Z).
Hypothesis Hids : NoDup ids.
Hypothesis Hcounts : counts_ok counts.
Hypothesis Htot : zsum id counts < 2 ^ 31.
Hypothesis Hsort : ∀ l, sortVector l ≡ₚ l.

Definition component_ok x : Prop :=
  match x with
  | Perfect sw =>
      switch_ok m_virtual_networks counts ids sw ∧ (∀ i, i ∈ ins sw → allow i ⊆ reachable sw) ∧
      ∀ link vnet o entry, out_buffer link vnet sw = Ret o → PerfectSwitch.m_routing_table sw !! link = Some entry → dests entry ⊆ allow o
  | Throttled th =>
      throttle_ok g_endpoint_bandwidth ids th ∧
      ∀ k i o, Throttle.m_in th !! k = Some i → Throttle.m_out th !! k = Some o → allow i ⊆ allow o
  end.

(** Messages in their buffers. *)
Definition placed st Q : Prop :=
  ∀ i n p, i ∈ ids → n ∈ Q i → mn_msgptr n = Some p →
    targets (netmsgs st p) ≠ ∅ ∧ targets (netmsgs st p) ⊆ allow i ∧ getMessageSize (netmsgs st p) ≠ Undefined.

Definition room x st : Prop := ∀ o, o ∈ outputs x →
  m_msg_counter (bufs st o) + zsum (λ i, Z.of_nat (m_current_size (mb_heap (bufs st i)))) (inputs x) < 2 ^ 31.

(** What a wakeup of a component does, as the rest of the network sees it. *)
Record effect (P : list EventQueueNode) x st Q x' st' Q' : Prop := {
  ef_ok : component_ok x';
  ef_this : this x' = this x;
  ef_inputs : inputs x' = inputs x;
  ef_outputs : outputs x' = outputs x;
  ef_delay : delay x' = delay x;
  ef_reach : reach x' = reach x;
  ef_evolves : evolves st st';
  ef_reps : reps st' ids Q';
  ef_held : held counts st' ids Q';
  ef_events : pending_ok P (net_evq st');
  ef_owed : owed st' ids Q' ≡ₚ owed st ids Q;
  ef_in : ∀ i n, i ∈ inputs x → n ∈ Q' i → n ∈ Q i;
  ef_keep : ∀ i n, i ∉ inputs x → n ∈ Q i → n ∈ Q' i;
  ef_same : ∀ j n p, j ∈ ids → n ∈ Q j → n ∈ Q' j → mn_msgptr n = Some p →
    targets (netmsgs st' p) = targets (netmsgs st p);
  ef_new : ∀ j n, n ∈ Q' j → n ∈ Q j ∨ j ∈ outputs x ∧ now st < mn_time n ∧
    (∀ c, m_consumer (bufs st j) = Some c → mkNode (mn_time n) (Some c) ∈ nodes (net_evq st')) ∧
    ∃ p, mn_msgptr n = Some p ∧ targets (netmsgs st' p) ≠ ∅ ∧ targets (netmsgs st' p) ⊆ allow j;
  ef_accepts : ∀ o, o ∈ outputs x → accepts RANDOMIZATION (delay x) (now st') (bufs st' o);
  ef_last : ∀ j, j ∉ outputs x → m_last_arrival_time (bufs st' j) = m_last_arrival_time (bufs st j);
  ef_settled : ∀ i n, i ∈ inputs x → n ∈ Q' i → mn_time n ≤ now st →
    mkNode (now st + 1) (Some (this x)) ∈ nodes (net_evq st')
}.

(** Before. *)
Record ready_for (P : list EventQueueNode) x st Q : Prop := {
  rf_ok : component_ok x;
  rf_reps : reps st ids Q;
  rf_held : held counts st ids Q;
  rf_events : pending_ok P (net_evq st);
  rf_placed : placed st Q;
  rf_accepts : ∀ o, o ∈ outputs x → accepts RANDOMIZATION (delay x) (now st) (bufs st o);
  rf_room : room x st
}.

Lemma represents_ready b q n t : represents b q → n ∈ q → mn_time n ≤ t → ∃ h q', q = h :: q' ∧ mn_time h ≤ t.
Proof.
  intros Hr Hn Ht. destruct q as [|h q']; [by apply not_elem_of_nil in Hn|]. exists h, q'. split; [done|].
  apply elem_of_cons in Hn as [->|Hn]; [done|]. pose proof (rep_order _ _ Hr) as Ho.
  unfold MessageBuffer.in_order in Ho. apply Sorted.StronglySorted_inv in Ho as [_ Ho].
  rewrite Forall_forall in Ho. specialize (Ho n Hn). apply node_before_spec in Ho. lia.
Qed.

Lemma room_backlog x st Q : (∀ i, i ∈ inputs x → i ∈ ids) → reps st ids Q → room x st → ∀ o, o ∈ outputs x →
  m_msg_counter (bufs st o) + Z.of_nat (length (inputs x ≫= Q)) < 2 ^ 31.
Proof.
  intros Hin Hr Hroom o Ho. specialize (Hroom o Ho). revert Hroom.
  replace (Z.of_nat (length (inputs x ≫= Q))) with (zsum (λ i, Z.of_nat (m_current_size (mb_heap (bufs st i)))) (inputs x)); [done|].
  clear Ho o. induction (inputs x) as [|i l IH]; [done|]. cbn [mbind list_bind]. rewrite zsum_cons, IH by (intros; apply Hin; by right).
  rewrite length_app, (rep_current _ (Q i)) by (apply Hr, Hin; left). lia.
Qed.

Lemma switch_effect P sw st Q : ready_for P (Perfect sw) st Q →
  ∃ sw' st' Q', PerfectSwitch.wakeup RANDOMIZATION g_adaptive_routing m_virtual_networks isVNetOrdered sortVector random (sw, st) = Ret (sw', st') ∧
    effect P (Perfect sw) st Q (Perfect sw') st' Q'.
Proof.
  intros [(Hok & Hin & Hout) Hr Hh He Hp Ha Hroom]. 
  assert (Hins : ∀ i, i ∈ ins sw → i ∈ ids) by (intros i Hi; apply (sk_used _ _ _ _ Hok), elem_of_app; by left).
  destruct (switch_wakeup_ok RANDOMIZATION g_adaptive_routing m_virtual_networks isVNetOrdered sortVector random counts P ids
    Hids Hcounts Htot Hsort sw st Q Hok) as ([sw' st'] & Q' & E & [Hports Hok' Hinv Hm _] & Hset).
  { split; try done.
    - intros o Ho. by apply (room_backlog (Perfect sw) st Q).
    - intros i n p Hi Hn Ep. destruct (Hp i n p (Hins i Hi) Hn Ep) as (_ & H2 & _). etrans; [exact H2|by apply Hin]. }
  exists sw', st', Q'. split; [done|]. cbn [fst snd] in *. pose proof Hports as (E1 & E2 & E3 & E4).
  pose proof Hm as [M1 M2 M3 M4 M5 M6 M7 M8]. pose proof (ev_now _ _ M1) as Hnow. pose proof Hinv as [N1 N2 N3 N4 N5 N6].
  assert (Ei : ins sw' = ins sw) by (unfold ins; by rewrite E2). assert (Eo : outs sw' = outs sw) by (unfold outs; by rewrite E3).
  split; try done.
  - split; [done|]. split; [|intros link vnet o entry; unfold out_buffer; rewrite E3, E4; apply Hout].
    intros i. rewrite Ei. unfold reachable. rewrite E4. apply Hin.
  - cbn. unfold reachable. by rewrite E4.
  - intros i n Hi Hn. destruct (M3 i Hi) as (gone & -> & _). apply elem_of_app. by right.
  - intros j n p Hj Hn Hn' Ep. by destruct (M6 j n p Hj Hn Hn' Ep).
  - intros j n [Hn|(link & vnet & entry & p & S1 & S2 & S3 & S4 & S5 & S6 & S7 & S8)]%M5; [by left|right]. rewrite Hnow in S7.
    split; [by eapply elem_out_buffer|]. split; [done|]. split.
    + intros c Hc. apply S8. pose proof (ev_config _ _ M1 j) as Hcf. unfold config in Hcf. congruence.
    + exists p. split; [done|]. split; [done|]. etrans; [exact S6|by eapply Hout].
  - intros o Ho. cbn in *. rewrite <- Eo in Ho. by apply N4.
  - intros i n Hi Hn Ht. destruct (represents_ready _ _ n (now st) (N1 i (Hins i Hi)) Hn Ht) as (h & q & Eq & Hth).
    destruct (Hset i Hi) as [Hs|Hs]; [specialize (Hs h q Eq); rewrite Hnow in Hs; lia|by rewrite Hnow in Hs].
Qed.

(** The port pairs of a throttle. *)
Lemma port_of_in th i : throttle_ok g_endpoint_bandwidth ids th → i ∈ Throttle.m_in th →
  ∃ k o, Throttle.m_in th !! k = Some i ∧ Throttle.m_out th !! k = Some o.
Proof.
  intros Hok [k Hk]%list_elem_of_lookup. destruct (lookup_lt_is_Some_2 (Throttle.m_out th) k) as [o Ho]; [|by exists k, o].
  rewrite (tk_out _ _ _ Hok), <- (tk_in _ _ _ Hok). by eapply lookup_lt_Some.
Qed.

Lemma port_of_out th o : throttle_ok g_endpoint_bandwidth ids th → o ∈ Throttle.m_out th →
  ∃ k i, Throttle.m_in th !! k = Some i ∧ Throttle.m_out th !! k = Some o.
Proof.
  intros Hok [k Hk]%list_elem_of_lookup. destruct (lookup_lt_is_Some_2 (Throttle.m_in th) k) as [i Hi]; [|by exists k, i].
  rewrite (tk_in _ _ _ Hok), <- (tk_out _ _ _ Hok). by eapply lookup_lt_Some.
Qed.

Lemma throttle_effect P th st Q : ready_for P (Throttled th) st Q →
  ∃ th' st' Q', Throttle.wakeup RANDOMIZATION g_endpoint_bandwidth threshold random (th, st) = Ret (th', st') ∧
    effect P (Throttled th) st Q (Throttled th') st' Q'.
Proof.
  intros [(Hok & Hflow) Hr Hh He Hp Ha Hroom].
  pose proof (tk_distinct _ _ _ Hok) as Hnd. apply NoDup_app in Hnd as (_ & Hdisj & _).
  assert (Hins : ∀ i, i ∈ Throttle.m_in th → i ∈ ids) by (intros i Hi; apply (tk_used _ _ _ Hok), elem_of_app; by left).
  destruct (link_wakeup_ok RANDOMIZATION g_endpoint_bandwidth threshold random counts P ids Hids th st Q Hok)
    as (th' & st' & Q' & S & E & Hok' & Hsame & [N1 N2 N3 N4 N5 N6] & [D1 D2 D3 D4 D5 D6] & _ & Hbusy).
  { split; try done.
    - intros o Ho. by apply (room_backlog (Throttled th) st Q).
    - intros i n p Hi Hn Ep. by apply (Hp i n p (Hins i Hi) Hn Ep). }
  exists th', st', Q'. split; [done|]. pose proof Hsame as (E1 & E2 & E3 & E4 & E5 & E6). pose proof (ev_now _ _ D1) as Hnow.
  split; try done.
  - split; [done|]. by rewrite E2, E3.
  - intros i n Hi Hn. destruct (port_of_in th i Hok Hi) as (k & o & Hk & Ho). destruct (D4 k i o Hk Ho) as (-> & _).
    apply elem_of_app. by right.
  - intros j n Hj Hn. destruct (decide (j ∈ Throttle.m_out th)) as [Ho|Ho]; [|by destruct (D5 j Hj Ho) as [_ ->]].
    destruct (port_of_out th j Hok Ho) as (k & i & Hk & Hko). destruct (D4 k i j Hk Hko) as (_ & -> & _). apply elem_of_app. by right.
  - intros j n p Hj Hn Hn' Ep. by rewrite D3.
  - intros j n Hn. destruct (decide (j ∈ Throttle.m_out th)) as [Ho|Ho].
    + destruct (port_of_out th j Hok Ho) as (k & i & Hk & Hko). destruct (D4 k i j Hk Hko) as (Eq & Eqo & Hc).
      rewrite Eqo in Hn. apply elem_of_app in Hn as [Hn|Hn]; [right|by left].
      apply list_elem_of_fmap in Hn as ([x y] & -> & Hxy). cbn [snd]. rewrite Forall_forall in Hc.
      destruct (Hc (x, y) Hxy) as (C1 & C2 & C3). split; [done|]. split; [lia|]. split; [done|].
      assert (Hx : x ∈ Q i) by (rewrite Eq; apply elem_of_app; left; apply list_elem_of_fmap; by exists (x, y)).
      assert (Hi : i ∈ ids) by by eapply Hins, list_elem_of_lookup_2.
      destruct (he_msgs _ _ _ _ Hh i x Hi Hx) as (p & Ep & _). exists p. rewrite C1, D3. split; [done|].
      destruct (Hp i x p Hi Hx Ep) as (P1 & P2 & _). split; [done|]. etrans; [exact P2|by eapply Hflow].
    + left. destruct (decide (j ∈ Throttle.m_in th)) as [Hi|Hi]; [|by destruct (D5 j Hi Ho) as [_ <-]].
      destruct (port_of_in th j Hok Hi) as (k & o & Hk & Hko). destruct (D4 k j o Hk Hko) as (-> & _). apply elem_of_app. by right.
  - intros o Ho. cbn in *. rewrite <- E5. apply N4. by rewrite E3.
  - intros i n Hi Hn Ht. cbn [this]. destruct (port_of_in th i Hok Hi) as (k & o & Hk & Hko). apply (Hbusy k i Hk).
    unfold busy. apply orb_true_iff. left. unfold net_isReady.
    rewrite (rep_isReady _ _ _ (N1 i (Hins i Hi))).
    destruct (represents_ready _ _ n (now st) (N1 i (Hins i Hi)) Hn Ht) as (h & q & -> & Hth). rewrite Hnow. by apply Z.leb_le.
Qed.

(** ** The invariant of the network *)

(** Who takes messages from a buffer and who puts them there is unique. *)
Record wired (objects : gmap nat component) : Prop := {
  wi_ok : ∀ c x, objects !! c = Some x → component_ok x ∧ this x = c;
  wi_in : ∀ c d x y i, objects !! c = Some x → objects !! d = Some y → i ∈ inputs x → i ∈ inputs y → c = d;
  wi_out : ∀ c d x y i, objects !! c = Some x → objects !! d = Some y → i ∈ outputs x → i ∈ outputs y → c = d;
  wi_entry : ∀ c x i, objects !! c = Some x → i ∈ inputs x → (∀ d y, objects !! d = Some y → i ∉ outputs y) → reach x ⊆ allow i
}.

(** [P]: the events of the cycle that are still to come. *)
Record net_ok (P : list EventQueueNode) a Q : Prop := {
  no_wired : wired (objs a);
  no_reps : reps (net a) ids Q;
  no_held : held counts (net a) ids Q;
  no_events : pending_ok P (net_evq (net a));
  no_placed : placed (net a) Q;
  no_accepts : ∀ c x o, objs a !! c = Some x → o ∈ outputs x → accepts RANDOMIZATION (delay x) (now (net a)) (bufs (net a) o);
  no_consumer : ∀ c x i, objs a !! c = Some x → i ∈ inputs x → m_consumer (bufs (net a) i) = Some c;
  no_later : ∀ c x i n, objs a !! c = Some x → i ∈ inputs x → n ∈ Q i → now (net a) < mn_time n →
    mkNode (mn_time n) (Some c) ∈ nodes (net_evq (net a))
}.

(** A component with a message that is ready will be woken. *)
Definition attended (P : list EventQueueNode) a Q (c : nat) : Prop :=
  ∀ x i n, objs a !! c = Some x → i ∈ inputs x → n ∈ Q i → mn_time n ≤ now (net a) →
    mkNode (now (net a) + 1) (Some c) ∈ nodes (net_evq (net a)) ∨
    mkNode (now (net a)) (Some c) ∈ P ∧ ¬ woken_before (net_evq (net a)) c.

(** ... in the next cycle. *)
Definition rescheduled a Q (c : nat) : Prop :=
  ∀ x i n, objs a !! c = Some x → i ∈ inputs x → n ∈ Q i → mn_time n ≤ now (net a) →
    mkNode (now (net a) + 1) (Some c) ∈ nodes (net_evq (net a)).

Lemma component_inputs x i : component_ok x → i ∈ inputs x → i ∈ ids.
Proof.
  destruct x as [sw|th]; intros [H _] Hi; [apply (sk_used _ _ _ _ H)|apply (tk_used _ _ _ H)]; apply elem_of_app; by left.
Qed.

Lemma component_outputs x i : component_ok x → i ∈ outputs x → i ∈ ids.
Proof.
  destruct x as [sw|th]; intros [H _] Hi; [apply (sk_used _ _ _ _ H)|apply (tk_used _ _ _ H)]; apply elem_of_app; by right.
Qed.

Lemma ready_here P a Q c x : net_ok P a Q → objs a !! c = Some x → room x (net a) → ready_for P x (net a) Q.
Proof.
  intros [H1 H2 H3 H4 H5 H6 H7 H8] Hc Hroom. split; try done; [by apply (wi_ok _ H1 c)|]. intros o Ho. by apply (H6 c).
Qed.

Lemma component_effect P a Q c x : net_ok P a Q → objs a !! c = Some x → room x (net a) →
  ∃ x' st' Q', wake_component c a = Ret (set_obj c x' (set_net st' a)) ∧ effect P x (net a) Q x' st' Q'.
Proof.
  intros Hok Hc Hroom. pose proof (ready_here P a Q c x Hok Hc Hroom) as Hr. unfold wake_component. rewrite Hc. destruct x as [sw|th].
  - destruct (switch_effect P sw (net a) Q Hr) as (sw' & st' & Q' & -> & He). by exists (Perfect sw'), st', Q'.
  - destruct (throttle_effect P th (net a) Q Hr) as (th' & st' & Q' & -> & He). by exists (Throttled th'), st', Q'.
Qed.

(** *** After the wakeup of one component *)

(** A component replaced by one of the same shape. *)
Record same_shape x x' : Prop := {
  sh_this : this x' = this x;
  sh_inputs : inputs x' = inputs x;
  sh_outputs : outputs x' = outputs x;
  sh_delay : delay x' = delay x;
  sh_reach : reach x' = reach x
}.

Lemma updated_shape (objects : gmap nat component) c x x' d y' :
  objects !! c = Some x → same_shape x x' → <[c := x']> objects !! d = Some y' →
  ∃ y, objects !! d = Some y ∧ same_shape y y' ∧ (d ≠ c → y' = y).
Proof.
  intros Hc Hs. destruct (decide (d = c)) as [->|Hne]; [rewrite lookup_insert_eq|rewrite lookup_insert_ne by done].
  - intros [= <-]. by exists x.
  - intros Hd. exists y'. by split_and!.
Qed.

Lemma wired_update objects c x x' : wired objects → objects !! c = Some x → same_shape x x' → component_ok x' →
  wired (<[c := x']> objects).
Proof.
  intros [H1 H2 H3 H4] Hc Hs Hx'. split.
  - intros d y' Hd. destruct (updated_shape _ _ _ _ _ _ Hc Hs Hd) as (y & Hy & [S1 _ _ _ _] & Hne). destruct (H1 d y Hy) as [K1 K2].
    rewrite S1. split; [|done]. destruct (decide (d = c)) as [->|]; [rewrite lookup_insert_eq in Hd; by injection Hd as <-|by rewrite Hne].
  - intros d e y' z' i Hd He. destruct (updated_shape _ _ _ _ _ _ Hc Hs Hd) as (y & Hy & [_ -> _ _ _] & _).
    destruct (updated_shape _ _ _ _ _ _ Hc Hs He) as (z & Hz & [_ -> _ _ _] & _). by apply H2.
  - intros d e y' z' i Hd He. destruct (updated_shape _ _ _ _ _ _ Hc Hs Hd) as (y & Hy & [_ _ -> _ _] & _).
    destruct (updated_shape _ _ _ _ _ _ Hc Hs He) as (z & Hz & [_ _ -> _ _] & _). by apply H3.
  - intros d y' i Hd Hi Hout. destruct (updated_shape _ _ _ _ _ _ Hc Hs Hd) as (y & Hy & [_ S2 _ _ S5] & _).
    rewrite S5. rewrite S2 in Hi. apply (H4 d y i Hy Hi). intros e z He Hz. destruct (decide (e = c)) as [->|Hne].
    + assert (z = x) as -> by congruence. apply (Hout c x'); [by rewrite lookup_insert_eq|by rewrite (sh_outputs _ _ Hs)].
    + apply (Hout e z); [by rewrite lookup_insert_ne|done].
Qed.

(** A message that still owes a delivery was sent with a size. *)
Lemma owed_sized st Q st' Q' j n p : placed st Q → held counts st ids Q → owed st' ids Q' ≡ₚ owed st ids Q →
  j ∈ ids → n ∈ Q' j → mn_msgptr n = Some p → targets (netmsgs st' p) ≠ ∅ → getMessageSize (netmsgs st' p) ≠ Undefined.
Proof.
  intros Hp Hh Ho Hj Hn Ep [t Ht]%set_choose_L.
  assert (Hin : (payload (netmsgs st' p), t) ∈ owed st ids Q).
  { rewrite <- Ho. apply list_elem_of_bind. exists j. split; [|done]. apply list_elem_of_bind. exists n. split; [|done]. rewrite Ep.
    apply list_elem_of_fmap. exists t. split; [done|]. by apply elem_of_elements. }
  apply list_elem_of_bind in Hin as (i & Hin & Hi). apply list_elem_of_bind in Hin as (m & Hin & Hm).
  destruct (he_msgs _ _ _ _ Hh i m Hi Hm) as (q & Eq & _). rewrite Eq in Hin.
  apply list_elem_of_fmap in Hin as (t' & E & _). destruct (Hp i m q Hi Hm Eq) as (_ & _ & Hs).
  unfold payload in E. injection E as _ -> _ _. done.
Qed.

Lemma accepts_same delta t b b' : config b' = config b → m_last_arrival_time b' = m_last_arrival_time b →
  accepts RANDOMIZATION delta t b → accepts RANDOMIZATION delta t b'.
Proof.
  unfold config. intros [= E1 E2 E3 E4] El [H1 H2 H3]. split; [congruence|congruence|]. unfold fixed_delay in *. by rewrite E2, E4, El.
Qed.

Lemma effect_net_ok P a Q c x x' st' Q' : net_ok P a Q → objs a !! c = Some x → effect P x (net a) Q x' st' Q' →
  let a' := set_obj c x' (set_net st' a) in
  net_ok P a' Q' ∧ rescheduled a' Q' c ∧ ∀ d, d ≠ c → attended P a Q d → attended P a' Q' d.
Proof.
  intros [H1 H2 H3 H4 H5 H6 H7 H8] Hc [F1 F2 F3 F4 F5 F18 F6 F7 F8 F9 F10 F11 F12 F13 F14 F15 F16 F17] a'.
  assert (Hs : same_shape x x') by done. pose proof (ev_now _ _ F6) as Hnow.
  assert (Hcfg : ∀ j, config (bufs st' j) = config (bufs (net a) j)) by apply F6.
  assert (Hcons : ∀ j, m_consumer (bufs st' j) = m_consumer (bufs (net a) j)) by (intros j; specialize (Hcfg j); unfold config in Hcfg; congruence).
  split; [split|split].
  - by apply (wired_update _ c x).
  - done.
  - done.
  - done.
  - intros i n p Hi Hn Ep. cbn. assert (Ht : targets (netmsgs st' p) ≠ ∅ ∧ targets (netmsgs st' p) ⊆ allow i).
    { destruct (F14 i n Hn) as [Hold|(_ & _ & _ & p' & Ep' & T1 & T2)]; [|rewrite Ep in Ep'; by injection Ep' as <-].
      rewrite (F13 i n p) by done. by destruct (H5 i n p Hi Hold Ep) as (T1 & T2 & _). }
    destruct Ht as [T1 T2]. split; [done|]. split; [done|]. by eapply (owed_sized (net a) Q st' Q').
  - intros d y' o Hd Ho. cbn in Hd |- *. destruct (updated_shape _ _ _ _ _ _ Hc Hs Hd) as (y & Hy & [_ _ S3 S4 _] & _).
    rewrite S3 in Ho. rewrite S4. destruct (decide (d = c)) as [->|Hne]; [assert (y = x) as -> by congruence; by apply F15|].
    rewrite Hnow. eapply accepts_same; [apply Hcfg|apply F16; intros Hx; apply Hne; by eapply (wi_out _ H1)|by apply (H6 d)].
  - intros d y' i Hd Hi. cbn in Hd |- *. destruct (updated_shape _ _ _ _ _ _ Hc Hs Hd) as (y & Hy & [_ S2 _ _ _] & _).
    rewrite S2 in Hi. rewrite Hcons. by apply (H7 d y).
  - intros d y' i n Hd Hi Hn Ht. cbn in Hd, Ht |- *. destruct (updated_shape _ _ _ _ _ _ Hc Hs Hd) as (y & Hy & [_ S2 _ _ _] & _).
    rewrite S2 in Hi. rewrite Hnow in Ht. destruct (F14 i n Hn) as [Hold|(_ & _ & Hev & _)].
    + apply (kept_nodes _ _ (ev_kept _ _ F6)). by apply (H8 d y i).
    + apply Hev. by apply (H7 d y).
  - intros y' i n Hd Hi Hn Ht. cbn in Hd, Ht |- *. rewrite lookup_insert_eq in Hd. injection Hd as <-. rewrite F3 in Hi.
    rewrite Hnow in *. rewrite <- (proj2 (wi_ok _ H1 c x Hc)). by apply (F17 i n).
  - intros d Hne Hat y' i n Hd Hi Hn Ht. cbn in Hd, Ht |- *. rewrite lookup_insert_ne in Hd by done. rewrite Hnow in *.
    destruct (F14 i n Hn) as [Hold|(_ & Hgt & _)]; [|lia]. destruct (Hat y' i n Hd Hi Hold Ht) as [Hev|[Hp Hw]].
    + left. by apply (kept_nodes _ _ (ev_kept _ _ F6)).
    + right. split; [done|]. unfold woken_before in *. rewrite (kept_woken _ _ (ev_kept _ _ F6)).
      pose proof (kept_time _ _ (ev_kept _ _ F6)) as Ek. by rewrite Ek.
Qed.

(** *** The event queue *)

(** Only the event queue changes, and no event to come is lost. *)
Lemma evq_net_ok P P' a Q e : net_ok P a Q → pending_ok P' e → getTime e = now (net a) →
  (∀ n, now (net a) < m_time n → n ∈ nodes (net_evq (net a)) → n ∈ nodes e) →
  net_ok P' (set_net (set_evq e (net a)) a) Q.
Proof.
  intros [H1 H2 H3 H4 H5 H6 H7 H8] He Ht Hn. split; try done.
  - eapply held_ext; [|exact H3]. by intros i n p _ _ _ [? ? ?].
  - intros c x o Hc Ho. unfold now. cbn. rewrite Ht. by apply (H6 c).
  - intros c x i n Hc Hi Hq Hlt. cbn in *. unfold now in Hlt. cbn in Hlt. rewrite Ht in Hlt. apply Hn; [done|]. by apply (H8 c x i).
Qed.

Lemma evq_rescheduled a Q e c : getTime e = now (net a) →
  (∀ n, now (net a) < m_time n → n ∈ nodes (net_evq (net a)) → n ∈ nodes e) →
  rescheduled a Q c → rescheduled (set_net (set_evq e (net a)) a) Q c.
Proof.
  intros Ht Hn Hr x i n Hc Hi Hq Hlt. unfold now in *. cbn in *. rewrite Ht in *. apply Hn; [cbn; lia|]. by apply (Hr x i n).
Qed.

Lemma evq_attended P P' a Q e c : getTime e = now (net a) →
  (∀ n, now (net a) < m_time n → n ∈ nodes (net_evq (net a)) → n ∈ nodes e) →
  (mkNode (now (net a)) (Some c) ∈ P → ¬ woken_before (net_evq (net a)) c → mkNode (now (net a)) (Some c) ∈ P' ∧ ¬ woken_before e c) →
  attended P a Q c → attended P' (set_net (set_evq e (net a)) a) Q c.
Proof.
  intros Ht Hn Hw Ha x i n Hc Hi Hq Hlt. unfold now in *. cbn in *. rewrite Ht in *.
  destruct (Ha x i n Hc Hi Hq Hlt) as [H|[H1 H2]]; [left; apply Hn; [cbn; lia|done]|right; by apply Hw].
Qed.

Lemma pending_woken P (e : world W) c : pending_ok P e →
  let e' := mkWorld (queue e) (set_consumer c (mkConsumer (m_last_scheduled_wakeup (consumers e c)) (getTime e)) (consumers e)) (rest e) in
  pending_ok P e' ∧ ∀ d, woken_before e' d ↔ d = c ∨ woken_before e d.
Proof.
  intros [H1 H2 H3 H4 H5] e'. split.
  - split; try done; intros d; cbn; unfold set_consumer; case_decide; try subst d; cbn.
    + apply H4.
    + apply H4.
    + unfold getTime. cbn. lia.
    + apply H5.
  - intros d. unfold woken_before, e', getTime. cbn. unfold set_consumer. case_decide; [subst d; cbn; naive_solver|naive_solver].
Qed.

(** What no step changes. *)
Definition same_objects a a' : Prop := ∀ c,
  match objs a !! c, objs a' !! c with Some x, Some x' => same_shape x x' | None, None => True | _, _ => False end.

Lemma same_objects_refl a a' : objs a' = objs a → same_objects a a'.
Proof. intros E c. rewrite E. by destruct (objs a !! c). Qed.

Lemma same_objects_trans a1 a2 a3 : same_objects a1 a2 → same_objects a2 a3 → same_objects a1 a3.
Proof.
  intros H1 H2 c. specialize (H1 c). specialize (H2 c). destruct (objs a1 !! c), (objs a2 !! c), (objs a3 !! c); try done.
  destruct H1, H2. split; congruence.
Qed.

(** [triggerWakeup] when the event has been taken out. *)
Lemma trigger_ok P a Q c : net_ok P a Q →
  (∀ x, objs a !! c = Some x → room x (net a)) →
  (∀ d, d ≠ c → attended P a Q d) → (woken_before (net_evq (net a)) c → rescheduled a Q c) →
  ∃ a' Q', trigger c a = Ret a' ∧ net_ok P a' Q' ∧ (∀ d, attended P a' Q' d) ∧
    owed (net a') ids Q' ≡ₚ owed (net a) ids Q ∧ now (net a') = now (net a) ∧
    same_objects a a'.
Proof.
  intros Hok Hroom Hat Hc. unfold trigger. destruct (Z.eqb_spec (m_last_wakeup (consumers (net_evq (net a)) c)) (now (net a))) as [Ew|Ew].
  { exists a, Q. split_and!; try done; [|by apply same_objects_refl]. intros d. destruct (decide (d = c)) as [->|]; [|by apply Hat].
    intros x i n Hx Hi Hn Ht. left. by apply (Hc Ew x i n). }
  assert (Hmid : ∃ a1 Q1, wake_component c a = Ret a1 ∧ net_ok P a1 Q1 ∧ rescheduled a1 Q1 c ∧ (∀ d, d ≠ c → attended P a1 Q1 d) ∧
      owed (net a1) ids Q1 ≡ₚ owed (net a) ids Q ∧ now (net a1) = now (net a) ∧
      same_objects a a1).
  { destruct (objs a !! c) as [x|] eqn:Hx.
    - destruct (component_effect P a Q c x Hok Hx (Hroom x eq_refl)) as (x' & st' & Q' & E & He).
      destruct (effect_net_ok P a Q c x x' st' Q' Hok Hx He) as (K1 & K2 & K3). eexists _, Q'. split; [exact E|]. split_and!; try done.
      + intros d Hd. apply K3; [done|by apply Hat].
      + apply He.
      + apply (ev_now _ _ (ef_evolves _ _ _ _ _ _ _ He)).
      + intros d. cbn. destruct (decide (d = c)) as [->|Hd]; [rewrite Hx, lookup_insert_eq; by destruct He|].
        rewrite lookup_insert_ne by done. by destruct (objs a !! d).
    - exists a, Q. split; [unfold wake_component; by rewrite Hx|]. split_and!; try done; [|by apply same_objects_refl]. intros x i n Hx'. congruence. }
  destruct Hmid as (a1 & Q1 & -> & K1 & K2 & K3 & K4 & K5 & K6). cbn [mbind outcome_bind].
  destruct (pending_woken P (net_evq (net a1)) c (no_events _ _ _ K1)) as [Hp Hw]. cbn zeta in Hp, Hw.
  unfold woken_at. rewrite <- K5. set (e := mkWorld _ _ _) in *.
  eexists _, Q1. split; [reflexivity|]. split; [by eapply evq_net_ok|]. split; [|by split_and!].
  intros d. destruct (decide (d = c)) as [->|Hd].
  - intros x i n Hx Hi Hn Ht. left. by apply (K2 x i n).
  - eapply evq_attended; [done|done| |by apply K3]. intros H1 H2. split; [done|]. rewrite Hw. by intros [?|?].
Qed.

Lemma extract_ok P a Q : net_ok P a Q → (∀ d, attended P a Q d) → P ≠ [] →
  ∃ c P' h, let t := now (net a) in let e := set_heap h (net_evq (net a)) in
    isEmpty (net_evq (net a)) = false ∧ peekMin (m_prio_heap (queue (net_evq (net a)))) = Ret (mkNode t (Some c)) ∧
    next_event a = trigger c (set_net (set_evq e (net a)) a) ∧
    net_ok P' (set_net (set_evq e (net a)) a) Q ∧ (∀ d, d ≠ c → attended P' (set_net (set_evq e (net a)) a) Q d) ∧
    (woken_before e c → rescheduled (set_net (set_evq e (net a)) a) Q c).
Proof.
  intros Hok Hat HP. destruct (pending_step P (net_evq (net a)) (no_events _ _ _ Hok) HP) as (c & P' & h & Ee & Hpk & Hext & HP' & Hs1 & Hback).
  exists c, P', h. cbn zeta. split; [done|]. split; [done|].
  assert (Hkeep : ∀ n, now (net a) < m_time n → n ∈ nodes (net_evq (net a)) → n ∈ nodes (set_heap h (net_evq (net a)))).
  { intros n Hlt Hn. destruct (Hback n Hn) as [->|]; [cbn in Hlt; unfold now in Hlt; lia|done]. }
  split.
  { unfold next_event. rewrite Hpk. cbn [mbind outcome_bind m_time]. rewrite set_time_id, Hext. done. }
  split; [by eapply evq_net_ok|]. split.
  - intros d Hd. eapply evq_attended; [done|done| |by apply Hat]. intros H1 H2. split; [|done].
    rewrite HP' in H1. apply elem_of_cons in H1 as [E|]; [|done]. by injection E as ->.
  - intros Hw. eapply evq_rescheduled; [done|done|]. intros x i n Hx Hi Hn Ht.
    destruct (Hat c x i n Hx Hi Hn Ht) as [|[_ Hnw]]; [done|]. by destruct Hnw.
Qed.

(** ** The steps *)

Definition delivery : Type := list NodeSet * MessageSizeType * B * (nat * Z).

(** A component of the system sends a new message. *)
Definition inject (i : nat) (delta : Z) (m : NetworkMessage B) a : outcome (arena W B) :=
  let st := net a in
  let p := next_msg st in
  st ← net_enqueue RANDOMIZATION random i p delta
         (mkNet (bufs st) (upd p (mkMessage (now st) 0) (timing st)) (upd p m (netmsgs st)) (S p) (net_evq st) (draws st));
  Ret (set_net st a).

(** It takes a message that has arrived. *)
Definition receive (o : nat) a : outcome (NetworkMessage B * arena W B) :=
  p ← net_peek o (net a); st ← net_pop o (net a); Ret (netmsgs (net a) p, set_net st a).

Definition clock_tick a : arena W B := set_net (set_evq (set_time (now (net a) + 1) (net_evq (net a))) (net a)) a.

(** No event of the cycle is left. *)
Definition no_event_due a : Prop :=
  isEmpty (net_evq (net a)) = true ∨
  ∃ m, peekMin (m_prio_heap (queue (net_evq (net a)))) = Ret m ∧ now (net a) < m_time m.

(** The next event is due; the message counters do not overflow. *)
Definition event_due a : Prop :=
  isEmpty (net_evq (net a)) = false ∧
  ∃ c, peekMin (m_prio_heap (queue (net_evq (net a)))) = Ret (mkNode (now (net a)) (Some c)) ∧
    ∀ x, objs a !! c = Some x → room x (net a).

(** A queue into the network and a queue out of it. *)
Definition entry (objects : gmap nat component) x i : Prop :=
  (∃ c, objects !! c = Some x) ∧ i ∈ inputs x ∧ ∀ d y, objects !! d = Some y → i ∉ outputs y.
Definition exit (objects : gmap nat component) o : Prop :=
  (∃ c x, objects !! c = Some x ∧ o ∈ outputs x) ∧ ∀ d y, objects !! d = Some y → o ∉ inputs y.

Definition sendable (m : NetworkMessage B) : Prop :=
  NetDest.dest_ok counts (internal m) ∧ targets m ≠ ∅ ∧ getMessageSize m ≠ Undefined.

(** A step with the deliveries that enter the network and those that leave it. *)
Inductive step : arena W B → list delivery → list delivery → arena W B → Prop :=
  | step_event a a' : event_due a → next_event a = Ret a' → step a [] [] a'
  | step_tick a : no_event_due a → step a [] [] (clock_tick a)
  | step_send a i x delta m a' : entry (objs a) x i → sendable m → targets m ⊆ reach x →
      0 < delta → accepts RANDOMIZATION delta (now (net a)) (bufs (net a) i) → m_msg_counter (bufs (net a) i) < 2 ^ 31 - 1 →
      inject i delta m a = Ret a' → step a (owes m) [] a'
  | step_receive a o m a' : exit (objs a) o → net_isReady o (net a) = true →
      receive o a = Ret (m, a') → step a [] (owes m) a'
  | step_schedule a c delta st : objs a !! c = None → 0 < delta → net_schedule c delta (net a) = Ret st →
      step a [] [] (set_net st a).

(** The state of the network, for some contents of its buffers. *)
Definition net_inv a Q : Prop := ∃ P, net_ok P a Q ∧ ∀ c, attended P a Q c.

Lemma no_event_pending P a Q : net_ok P a Q → no_event_due a → P = [].
Proof.
  intros Hok Hno. destruct (decide (P = [])) as [|HP]; [done|].
  destruct (pending_step P (net_evq (net a)) (no_events _ _ _ Hok) HP) as (c & P' & h & Ee & Hpk & _).
  destruct Hno as [E|(m & Em & Hm)]; [congruence|]. rewrite Hpk in Em. injection Em as <-. cbn in Hm. unfold now in Hm. lia.
Qed.

Lemma event_pending P a Q : net_ok P a Q → event_due a → P ≠ [].
Proof.
  intros Hok (Ee & c & Hpk & _) ->. pose proof (no_events _ _ _ Hok) as [Hh _ (L & HL & Hlater) _ _]. cbn in HL.
  destruct (heap_peek_ok _ Hh) as (x & Hx & Hin & _).
  { intros E. change (nodes (net_evq (net a)) = []) in E. apply (isEmpty_nodes _ Hh) in E. congruence. }
  rewrite Hpk in Hx. injection Hx as <-. change (mkNode (now (net a)) (Some c) ∈ nodes (net_evq (net a))) in Hin.
  rewrite HL in Hin. rewrite Forall_forall in Hlater. destruct (Hlater _ Hin) as [Hlt _]. cbn in Hlt. unfold now in Hlt. lia.
Qed.

Lemma clock_tick_ok a Q : net_inv a Q → no_event_due a → net_inv (clock_tick a) Q.
Proof.
  intros (P & Hok & Hat) Hno. assert (P = []) as -> by by eapply no_event_pending.
  destruct (pending_advance (net_evq (net a)) (no_events _ _ _ Hok)) as (P & Hp & _ & HP). exists P.
  pose proof Hok as [H1 H2 H3 H4 H5 H6 H7 H8]. pose proof (po_woken _ _ H4) as Hwk. fold (now (net a)) in *.
  split; [split; try done|].
  - eapply held_ext; [|exact H3]. by intros i n p _ _ _ [? ? ?].
  - intros c x o Hc Ho. destruct (H6 c x o Hc Ho) as [A1 A2 A3]. split; [done|done|]. intros B1 B2. specialize (A3 B1 B2).
    change (now (net (clock_tick a))) with (now (net a) + 1). cbn. lia.
  - intros c x i n Hc Hi Hn Ht. change (now (net (clock_tick a))) with (now (net a) + 1) in Ht.
    change (mkNode (mn_time n) (Some c) ∈ nodes (net_evq (net a))). apply (H8 c x i); [done..|lia].
  - intros c x i n Hc Hi Hn Ht. right. change (now (net (clock_tick a))) with (now (net a) + 1) in *. split.
    + apply HP. destruct (decide (mn_time n = now (net a) + 1)) as [E|Hne].
      * rewrite <- E. apply (H8 c x i); [done..|lia].
      * destruct (Hat c x i n Hc Hi Hn) as [H|[H _]]; [lia|done|by apply not_elem_of_nil in H].
    + unfold woken_before. intros E. specialize (Hwk c). cbn in E. change (getTime (net_evq (net (clock_tick a)))) with (now (net a) + 1) in E.
      fold (now (net a)) in Hwk. lia.
Qed.

Lemma net_inv_evq a Q c delta st : net_inv a Q → 0 < delta → net_schedule c delta (net a) = Ret st → net_inv (set_net st a) Q.
Proof.
  intros (P & Hok & Hat) Hd E.
  destruct (net_schedule_ok P c delta (net a) (no_events _ _ _ Hok) Hd) as (e & E' & He & [Kt Kn Kw] & _).
  rewrite E in E'. injection E' as ->. exists P. change (mkNet _ _ _ _ e _) with (set_evq e (net a)). split.
  - eapply evq_net_ok; [done..|]. auto.
  - intros d. eapply evq_attended; [done| | |apply Hat]; [auto|]. intros H1 H2. split; [done|]. unfold woken_before in *. by rewrite Kw, Kt.
Qed.

Lemma event_ok a Q : net_inv a Q → event_due a →
  ∃ a' Q', next_event a = Ret a' ∧ net_inv a' Q' ∧ owed (net a') ids Q' ≡ₚ owed (net a) ids Q ∧ same_objects a a'.
Proof.
  intros (P & Hok & Hat) Hdue. pose proof (event_pending P a Q Hok Hdue) as HP.
  destruct (extract_ok P a Q Hok Hat HP) as (c & P' & h & _ & Hpk & -> & K1 & K2 & K3).
  destruct Hdue as (_ & c' & Hpk' & Hroom). rewrite Hpk in Hpk'. injection Hpk' as <-.
  destruct (trigger_ok P' _ Q c K1 Hroom K2 K3) as (a' & Q' & -> & J1 & J2 & J3 & _ & J5).
  exists a', Q'. split; [done|]. split; [by exists P'|]. by split.
Qed.

Lemma inject_ok a Q i x delta m : net_inv a Q → entry (objs a) x i → sendable m → targets m ⊆ reach x → 0 < delta →
  accepts RANDOMIZATION delta (now (net a)) (bufs (net a) i) → m_msg_counter (bufs (net a) i) < 2 ^ 31 - 1 →
  ∃ a' Q', inject i delta m a = Ret a' ∧ net_inv a' Q' ∧ owed (net a') ids Q' ≡ₚ owes m ++ owed (net a) ids Q ∧ objs a' = objs a.
Proof.
  intros (P & [H1 H2 H3 H4 H5 H6 H7 H8] & Hat) ([c Hc] & Hi & Hno) (Hd1 & Hd2 & Hd3) Hreach Hd Hac Hroom.
  assert (Hii : i ∈ ids) by (eapply component_inputs; [by apply (wi_ok _ H1 c)|done]). unfold inject.
  set (p := next_msg (net a)). set (st0 := mkNet _ _ _ _ _ _).
  destruct (net_enqueue_ok RANDOMIZATION random P i p delta st0 (Q i)) as (st1 & t & -> & [Ev Et Eoth Ecnt Eac Enm Enx Etm Eev Ewk] & Hrep);
    [by apply H2|done|done|done|done|unfold st0, now; cbn; by rewrite upd_same|].
  cbn [mbind outcome_bind]. set (n := mkMsgNode t _ (Some p)) in *. pose proof (ev_now _ _ Ev) as Hnow. change (now st0) with (now (net a)) in *.
  exists (set_net st1 a), (upd i (insert_node n (Q i)) Q). split; [done|].
  assert (Hne : ∀ j k (y : nat), j ∈ ids → k ∈ Q j → mn_msgptr k = Some y → y ≠ p).
  { intros j k y Hj Hk Ey. destruct (he_msgs _ _ _ _ H3 j k Hj Hk) as (z & Ez & Hz%mo_old). rewrite Ey in Ez. injection Ez as <-. unfold p. lia. }
  assert (Hmsg : ∀ j k (y : nat), j ∈ ids → k ∈ Q j → mn_msgptr k = Some y → netmsgs st1 y = netmsgs (net a) y).
  { intros j k y Hj Hk Ey. rewrite Enm. cbn. rewrite upd_other; [done|by eapply Hne]. }
  assert (Hmp : netmsgs st1 p = m) by (rewrite Enm; cbn; by rewrite upd_same).
  assert (Hheld : held counts st1 ids Q).
  { eapply held_ext; [|exact H3]. intros j k y Hj Hk Ey [Y1 Y2 Y3]. pose proof (Hne j k y Hj Hk Ey). split.
    - rewrite Enx. cbn. fold p. unfold p in *. lia.
    - rewrite Etm, decide_False by done. cbn. by rewrite upd_other.
    - by rewrite (Hmsg j k y). }
  destruct (held_insert counts st1 ids Q i n p Hids Hheld Hii eq_refl) as [Hheld' Howed].
  { split; [rewrite Enx; cbn; fold p; lia|rewrite Etm, decide_True by done; cbn; lia|by rewrite Hmp]. }
  { apply not_held_spec. intros j k Hj Hk E. by apply (Hne j k p Hj Hk E). }
  assert (Hmem : ∀ j k, k ∈ upd i (insert_node n (Q i)) Q j → k ∈ Q j ∨ j = i ∧ k = n).
  { intros j k. destruct (decide (j = i)) as [->|Hj]; [|rewrite upd_other by done; auto].
    rewrite upd_same, insert_node_perm, elem_of_cons. naive_solver. }
  assert (Hcfg : ∀ j, config (bufs st1 j) = config (bufs (net a) j)) by (intros j; apply (ev_config _ _ Ev)).
  split; [exists P; split; [split; try done|]|split; [|done]].
  - intros j Hj. cbn. destruct (decide (j = i)) as [->|Hji]; [by rewrite upd_same|]. rewrite Eoth, upd_other by done. by apply H2.
  - intros j k y Hj [Hk|[-> ->]]%Hmem Ey; cbn in *; [rewrite (Hmsg j k y) by done; by apply (H5 j k y)|].
    injection Ey as <-. rewrite Hmp. split; [done|]. split; [|done]. etrans; [exact Hreach|by apply (wi_entry _ H1 c x)].
  - intros d y o Hy Ho. cbn. rewrite Hnow, Eoth; [by apply (H6 d)|]. intros ->. by eapply Hno.
  - intros d y j Hy Hj. cbn. specialize (Hcfg j). unfold config in Hcfg. rewrite <- (H7 d y j) by done. congruence.
  - intros d y j k Hy Hj Hk Ht. cbn in *. rewrite Hnow in Ht. apply Hmem in Hk as [Hk|[-> ->]].
    + apply (kept_nodes _ _ (ev_kept _ _ Ev)). by apply (H8 d y j).
    + apply Ewk. by apply (H7 d y).
  - intros d y j k Hy Hj Hk Ht. cbn in *. rewrite Hnow in *. apply Hmem in Hk as [Hk|[-> ->]]; [|cbn in Ht; lia].
    destruct (Hat d y j k Hy Hj Hk Ht) as [H|[H H']]; [left; by apply (kept_nodes _ _ (ev_kept _ _ Ev))|right].
    split; [done|]. unfold woken_before in *. pose proof (kept_time _ _ (ev_kept _ _ Ev)) as Ek. rewrite (kept_woken _ _ (ev_kept _ _ Ev)), Ek. done.
  - cbn. rewrite Howed, Hmp. apply Permutation_app_head. rewrite (owed_ext (net a) st1); [done|]. intros j k y Hj Hk Ey. by rewrite (Hmsg j k y).
Qed.

Lemma receive_ok a Q o : net_inv a Q → exit (objs a) o → net_isReady o (net a) = true →
  ∃ m a' Q', receive o a = Ret (m, a') ∧ net_inv a' Q' ∧ owed (net a) ids Q ≡ₚ owes m ++ owed (net a') ids Q' ∧ objs a' = objs a.
Proof.
  intros (P & [H1 H2 H3 H4 H5 H6 H7 H8] & Hat) ((c & x & Hc & Ho) & Hno) Hready.
  assert (Hoi : o ∈ ids) by (eapply component_outputs; [by apply (wi_ok _ H1 c)|done]).
  unfold net_isReady in Hready. rewrite (rep_isReady _ _ _ (H2 o Hoi)) in Hready. destruct (Q o) as [|n q] eqn:Hq; [done|].
  apply Z.leb_le in Hready. destruct (held_tail counts (net a) ids Q o n q Hids H3 Hoi Hq) as (Hh & p & Ep & Hp & _ & Howed).
  pose proof (H2 o Hoi) as Hrep. rewrite Hq in Hrep. unfold receive.
  rewrite (net_peek_ok o (net a) n q p Hrep Hready Ep). cbn [mbind outcome_bind].
  destruct (net_pop_ok o (net a) n q Hrep Hready) as (b & -> & Hb & _ & Hl & Hcfg). cbn [mbind outcome_bind].
  eexists _, _, (upd o q Q). split; [done|]. split; [|split; [exact Howed|done]].
  assert (Hmem : ∀ j k, k ∈ upd o q Q j → k ∈ Q j).
  { intros j k. destruct (decide (j = o)) as [->|Hj]; [|by rewrite upd_other by done]. rewrite upd_same, Hq. by right. }
  exists P. split; [split; try done|].
  - intros j Hj. cbn. destruct (decide (j = o)) as [->|Hji]; [by rewrite !upd_same|]. rewrite !upd_other by done. by apply H2.
  - eapply held_ext; [|exact Hh]. by intros j k y _ _ _ [? ? ?].
  - intros j k y Hj Hk%Hmem Ey. by apply (H5 j k y).
  - intros d y j Hy Hj. cbn. unfold upd. case_decide; [subst j|by apply (H6 d)]. eapply accepts_same; [exact Hcfg|done|]. by apply (H6 d).
  - intros d y j Hy Hj. cbn. rewrite upd_other; [by apply (H7 d y)|]. intros ->. by apply (Hno d y).
  - intros d y j k Hy Hj Hk%Hmem Ht. by apply (H8 d y j k).
  - intros d y j k Hy Hj Hk%Hmem Ht. by apply (Hat d y j k).
Qed.

Lemma step_ok a Q s r a' : net_inv a Q → step a s r a' →
  ∃ Q', net_inv a' Q' ∧ s ++ owed (net a) ids Q ≡ₚ r ++ owed (net a') ids Q' ∧ same_objects a a'.
Proof.
  intros Hinv Hst. destruct Hst as [a a' Hdue E|a Hno|a i x delta m a' H1 H2 H3 H4 H5 H6 E|a o m a' H1 H2 E|a c delta st Hc Hd E].
  - destruct (event_ok a Q Hinv Hdue) as (a1 & Q' & E' & Hinv' & Ho & Hs). rewrite E in E'. injection E' as <-. by exists Q'.
  - exists Q. split; [by apply clock_tick_ok|]. split; [done|by apply same_objects_refl].
  - destruct (inject_ok a Q i x delta m Hinv H1 H2 H3 H4 H5 H6) as (a1 & Q' & E' & Hinv' & Ho & Hs). rewrite E in E'. injection E' as <-.
    exists Q'. split; [done|]. split; [done|by apply same_objects_refl].
  - destruct (receive_ok a Q o Hinv H1 H2) as (m1 & a1 & Q' & E' & Hinv' & Ho & Hs). rewrite E in E'. injection E' as <- <-.
    exists Q'. split; [done|]. split; [done|by apply same_objects_refl].
  - exists Q. split; [by eapply net_inv_evq|]. split; [|by apply same_objects_refl].
    unfold net_schedule in E. apply bind_ret_inv in E as (e & _ & [= <-]). done.
Qed.

(** *** Runs *)

Inductive net_run (a0 : arena W B) : list delivery → list delivery → arena W B → Prop :=
  | net_run_start : net_run a0 [] [] a0
  | net_run_step a s r a' s' r' : net_run a0 s r a → step a s' r' a' → net_run a0 (s' ++ s) (r' ++ r) a'.

Lemma net_run_ok a0 Q0 s r a : net_inv a0 Q0 → net_run a0 s r a →
  ∃ Q, net_inv a Q ∧ s ++ owed (net a0) ids Q0 ≡ₚ r ++ owed (net a) ids Q ∧ same_objects a0 a.
Proof.
  intros H0. induction 1 as [|a s r a' s' r' _ IH Hst].
  { exists Q0. split; [done|]. split; [done|by apply same_objects_refl]. }
  destruct IH as (Q & Hinv & Ho & Hs). destruct (step_ok a Q s' r' a' Hinv Hst) as (Q' & Hinv' & Ho' & Hs').
  exists Q'. split; [done|]. split; [|by eapply same_objects_trans].
  rewrite <- !app_assoc, Ho, !app_assoc, (Permutation_app_comm s'), <- !app_assoc, Ho', !app_assoc. apply Permutation_app_tail, Permutation_app_comm.
Qed.

(** ** What the invariant says *)

(** The deliveries the messages of a buffer, and of some buffers, still owe. *)
Definition waiting st (i : nat) : list delivery := owed_at st (elements (mb_heap (bufs st i))).
Definition in_flight st (l : list nat) : list delivery := l ≫= waiting st.

(** No component of the network will be woken. *)
Definition quiet a : Prop := ∀ c t, is_Some (objs a !! c) → mkNode t (Some c) ∉ nodes (net_evq (net a)).

Lemma waiting_queue st Q i : reps st ids Q → i ∈ ids → waiting st i ≡ₚ owed_at st (Q i).
Proof. intros Hr Hi. unfold waiting, owed_at. by rewrite (rep_perm _ _ (Hr i Hi)). Qed.

Lemma in_flight_owed st Q : reps st ids Q → in_flight st ids ≡ₚ owed st ids Q.
Proof.
  intros Hr. unfold in_flight, owed. assert (Hall : ∀ i, i ∈ ids → waiting st i ≡ₚ owed_at st (Q i)) by (intros; by apply waiting_queue).
  clear Hr Hids. revert Hall. induction ids as [|i l IH]; intros Hall; cbn [mbind list_bind]; [done|].
  rewrite (Hall i) by left. rewrite IH; [done|]. intros j Hj. apply Hall. by right.
Qed.

Lemma quiet_empty a Q c x i : net_inv a Q → quiet a → objs a !! c = Some x → i ∈ inputs x → waiting (net a) i = [].
Proof.
  intros (P & Hok & Hat) Hq Hc Hi. assert (Hcs : is_Some (objs a !! c)) by by eexists.
  assert (Hii : i ∈ ids) by (eapply component_inputs; [by apply (wi_ok _ (no_wired _ _ _ Hok) c)|done]).
  apply Permutation_nil_r. rewrite (waiting_queue _ Q) by (done || apply Hok).
  destruct (Q i) as [|n q] eqn:Eq; [done|]. exfalso. assert (Hn : n ∈ Q i) by (rewrite Eq; left).
  destruct (decide (mn_time n ≤ now (net a))) as [Ht|Ht].
  - destruct (Hat c x i n Hc Hi Hn Ht) as [H|[H _]]; [by eapply Hq|].
    destruct (po_later _ _ (no_events _ _ _ Hok)) as (L & HL & _). eapply (Hq c (now (net a))); [done|]. rewrite HL. apply elem_of_app. by left.
  - eapply Hq; [done|]. apply (no_later _ _ _ Hok c x i n); [done..|lia].
Qed.

Lemma waiting_allowed a Q i d : net_inv a Q → i ∈ ids → d ∈ waiting (net a) i → d.2 ∈ allow i.
Proof.
  intros (P & Hok & _) Hi Hd. rewrite (waiting_queue _ Q) in Hd by (done || apply Hok).
  apply list_elem_of_bind in Hd as (n & Hd & Hn). destruct (he_msgs _ _ _ _ (no_held _ _ _ Hok) i n Hi Hn) as (p & Ep & _).
  rewrite Ep in Hd. apply list_elem_of_fmap in Hd as (m & -> & Hm%elem_of_elements).
  by apply (no_placed _ _ _ Hok i n p).
Qed.
End network.
