(* ===== verification/NetworkBuild.v ===== *)
(** * Construction of the network

    [SimpleNetwork]'s constructor with the links of a topology yields a network
    whose switches and throttles are wired as [NetworkStep] wants: every buffer
    has one producer and one consumer, the routing entries of the links lead on,
    and a queue out of the network gets only the messages of its component. *)

From stdpp Require Import gmap sets list numbers.
From S2P Require Import Prelude NodeSet NetDest PrioHeap EventQueue MessageBuffer NetStore PerfectSwitch SwitchWakeup Throttle ThrottleWakeup Topology Switch SimpleNetwork NetworkStep.
Local Open Scope Z_scope.

(** ** Buffers *)

(** A buffer that nothing was put into, with its consumer and its ordering. *)
Record unused (consumer : option nat) (ordered : bool) (b : MessageBuffer) : Prop := {
  un_consumer : m_consumer b = consumer;
  un_ordering : m_ordering_set b = ordered;
  un_empty : represents b [];
  un_last : m_last_arrival_time b = 0
}.

Lemma represents_same b b' q : mb_heap b' = mb_heap b → m_size b' = m_size b → m_msg_counter b' = m_msg_counter b →
  represents b q → represents b' q.
Proof. intros E1 E2 E3 [H1 H2 H3 H4 H5 H6 H7 H8]. split; rewrite ?E1, ?E2, ?E3; done. Qed.

Lemma new_unused : unused None false new_buffer.
Proof. split; [done|done| |done]. apply represents_nil; [apply heap_init_ok|done..]. Qed.

Lemma ordering_unused c o o' b : unused c o b → unused c true (setOrdering o' b).
Proof. intros [H1 H2 H3 H4]. split; [done|done| |done]. by apply (represents_same b). Qed.

Lemma size_unused c o n b : unused c o b → unused c o (setSize n b).
Proof. intros [H1 H2 H3 H4]. split; [done|done| |done]. by apply (represents_same b). Qed.

(** What [setConsumer] leaves in a buffer that has none. *)
Definition taken (c : nat) (b : MessageBuffer) : MessageBuffer :=
  match setConsumer c b with Ret b' => b' | Raise _ => b end.

Lemma setConsumer_unused c o b : unused None o b → setConsumer c b = Ret (taken c b) ∧ unused (Some c) o (taken c b).
Proof.
  intros [H1 H2 H3 H4]. unfold taken, setConsumer. rewrite H1. split; [done|]. split; [done|done| |done]. by apply (represents_same b).
Qed.

Section build.
Context {W B : Type}.
Variables (FINITE_BUFFERING : bool) (FINITE_BUFFER_SIZE : Z).
Variable V : nat.
Implicit Types (a : arena W B) (st : netstate W B).

Notation addOutPort := (addOutPort FINITE_BUFFERING FINITE_BUFFER_SIZE V).
Notation addInPort := (addInPort V).
Notation new_link_buffer := (new_link_buffer FINITE_BUFFERING FINITE_BUFFER_SIZE).
Notation new_link_buffers := (new_link_buffers FINITE_BUFFERING FINITE_BUFFER_SIZE).
Notation make_link := (make_link FINITE_BUFFERING FINITE_BUFFER_SIZE V).

(** Only buffers differ. *)
Definition with_bufs (f : nat → MessageBuffer) st : netstate W B :=
  mkNet f (timing st) (netmsgs st) (next_msg st) (net_evq st) (draws st).

Definition only_bufs st st' : Prop := st' = with_bufs (bufs st') st.

Lemma only_bufs_refl st : only_bufs st st.
Proof. by destruct st. Qed.

Lemma only_bufs_trans st1 st2 st3 : only_bufs st1 st2 → only_bufs st2 st3 → only_bufs st1 st3.
Proof. unfold only_bufs. intros H1 ->. rewrite H1. done. Qed.

Lemma only_bufs_now st st' : only_bufs st st' → now st' = now st.
Proof. by intros ->. Qed.

Definition link_buffer : MessageBuffer :=
  let b := setOrdering true new_buffer in if FINITE_BUFFERING then setSize FINITE_BUFFER_SIZE b else b.

Lemma link_buffer_unused : unused None true link_buffer.
Proof.
  pose proof (ordering_unused None false true _ new_unused) as H. unfold link_buffer. destruct FINITE_BUFFERING; [by apply size_unused|done].
Qed.

Lemma new_link_buffers_ok n a : ∃ a', new_link_buffers n a = (seq (next_buf a) n, a') ∧
  next_buf a' = (next_buf a + n)%nat ∧ next_obj a' = next_obj a ∧ objs a' = objs a ∧ only_bufs (net a) (net a') ∧
  ∀ i, bufs (net a') i = if decide (next_buf a ≤ i < next_buf a + n)%nat then link_buffer else bufs (net a) i.
Proof.
  unfold Switch.new_link_buffers. induction n as [|n IH].
  { exists a. split_and!; try done; [apply only_bufs_refl|]. intros i. rewrite decide_False by lia. done. }
  rewrite seq_S, foldl_app. destruct IH as (a' & -> & H1 & H2 & H3 & H4 & H5). cbn [foldl]. unfold Switch.new_link_buffer.
  eexists. split; [rewrite (seq_S n (next_buf a)), <- H1; reflexivity|]. cbn. split_and!; [lia|done|done| |].
  - unfold only_bufs. rewrite H4. done.
  - intros i. rewrite upd_same, H1. destruct (decide (i = next_buf a + n)%nat) as [->|Hne].
    + rewrite upd_same, decide_True by lia. done.
    + rewrite !upd_other, H5 by done. destruct (decide (next_buf a ≤ i < next_buf a + n)%nat); [rewrite decide_True by lia|rewrite decide_False by lia]; done.
Qed.

(** Consumers set one after the other. *)
Lemma set_consumers_ok c o l : ∀ st, NoDup l → (∀ i, i ∈ l → unused None o (bufs st i)) →
  ∃ st', foldM (λ st i, set_consumer_of c i st) st l = Ret st' ∧ only_bufs st st' ∧
    ∀ i, bufs st' i = if decide (i ∈ l) then taken c (bufs st i) else bufs st i.
Proof.
  induction l as [|j l IH]; intros st Hnd Hun.
  { exists st. split; [done|]. split; [apply only_bufs_refl|]. intros i. rewrite decide_False; [done|apply not_elem_of_nil]. }
  apply NoDup_cons in Hnd as [Hj Hnd]. cbn [foldM].
  destruct (setConsumer_unused c o (bufs st j)) as [E Hu]; [apply Hun; left|].
  assert (Ej : set_consumer_of c j st = Ret (set_bufs j (taken c (bufs st j)) st)) by (unfold set_consumer_of; by rewrite E).
  rewrite Ej. clear E Ej. cbn [mbind outcome_bind].
  destruct (IH (set_bufs j (taken c (bufs st j)) st)) as (st' & E & Ho & Hb); [done| |].
  { intros i Hi. cbn. rewrite upd_other; [apply Hun; by right|by intros ->]. }
  exists st'. split; [done|]. split; [eapply only_bufs_trans; [|exact Ho]; done|]. intros i. rewrite Hb. cbn.
  destruct (decide (i = j)) as [->|Hne].
  - rewrite decide_False, decide_True, upd_same by (done || left). done.
  - rewrite upd_other by done. destruct (decide (i ∈ l)); [rewrite decide_True by by right|rewrite decide_False]; [done..|].
    by intros [?|?]%elem_of_cons.
Qed.

(** ** Throttles *)

(** A throttle that has moved nothing. *)
Record idle (p : nat) (mid line : list nat) (latency bw : Z) (th : Throttle) : Prop := {
  id_this : th_this th = p;
  id_in : Throttle.m_in th = mid;
  id_out : Throttle.m_out th = line;
  id_vnets : m_vnets th = length mid;
  id_units : m_units_remaining th = replicate (length mid) 0;
  id_counters : ∀ t, m_message_counters th t = replicate (length mid) 0;
  id_latency : m_link_latency th = latency;
  id_bandwidth : m_link_bandwidth_multiplier th = bw;
  id_bash : m_bash_counter th = HIGH_RANGE
}.

Lemma idle_ok endpoint ids p mid line latency bw th : idle p mid line latency bw th → length line = length mid →
  NoDup (mid ++ line) → (∀ i, i ∈ mid ++ line → i ∈ ids) → 0 < latency → 0 < endpoint * bw < 2 ^ 31 → throttle_ok endpoint ids th.
Proof.
  intros [I1 I2 I3 I4 I5 I6 I7 I8 I9] Hl Hnd Hids Hlat Hbw. split; rewrite ?I2, ?I3, ?I4, ?I5, ?I7, ?I8, ?I9, ?length_replicate; try done.
  - intros t. by rewrite I6, length_replicate.
  - intros u ->%elem_of_replicate_inv. done.
Qed.

Lemma addLinks_ok p (sid node latency bw : Z) mid line st0 st o th0 : new_Throttle p sid node latency bw st0 = Ret th0 →
  length line = length mid → NoDup mid → (∀ i, i ∈ mid → unused None o (bufs st i)) →
  ∃ th st', addLinks mid line (th0, st) = Ret (th, st') ∧ idle p mid line latency bw th ∧ only_bufs st st' ∧
    ∀ i, bufs st' i = if decide (i ∈ mid) then taken p (bufs st i) else bufs st i.
Proof.
  unfold new_Throttle. intros (_ & _ & [= <-])%bind_ret_inv Hl Hnd Hun. unfold addLinks. rewrite Hl, Nat.eqb_refl. cbn [assertb mbind outcome_bind].
  set (th0 := Throttle.clearStats _ _).
  destruct (foldM_list (λ k s, m_in s.1 = take k mid ∧ Throttle.m_out s.1 = take k line ∧ m_vnets s.1 = k ∧ m_units_remaining s.1 = replicate k 0 ∧
      th_this s.1 = p ∧ m_link_latency s.1 = latency ∧ m_link_bandwidth_multiplier s.1 = bw ∧ m_bash_counter s.1 = HIGH_RANGE ∧
      only_bufs st s.2 ∧ ∀ i, bufs s.2 i = if decide (i ∈ take k mid) then taken p (bufs st i) else bufs st i)
    addVirtualNetwork (zip mid line) (th0, st)) as ([th st'] & E & K1 & K2 & K3 & K4 & K5 & K6 & K7 & K8 & K9 & K10).
  - rewrite !take_0. cbn. split_and!; try done.
    apply only_bufs_refl.
  - intros k [i j] [th1 st1] Hk (K1 & K2 & K3 & K4 & K5 & K6 & K7 & K8 & K9 & K10). cbn [fst snd] in *.
    apply lookup_zip_with_Some in Hk as (? & ? & [= <- <-] & Hi & Hj).
    assert (Hni : i ∉ take k mid). { intros (q & Hq & Hlt)%elem_of_take. assert (q = k); [|lia]. by eapply NoDup_lookup. }
    unfold addVirtualNetwork. rewrite K5, K10, decide_False by done.
    destruct (setConsumer_unused p o (bufs st i)) as [-> _]; [by eapply Hun, list_elem_of_lookup_2|]. cbn [mbind outcome_bind].
    eexists. split; [done|]. cbn. rewrite (take_S_r _ _ _ Hi), (take_S_r _ _ _ Hj), K1, K2, K3, K4.
    split_and!; try done.
    + by rewrite <- replicate_S_end.
    + unfold only_bufs. rewrite K9. done.
    + intros x. unfold upd. destruct (decide (x = i)) as [->|Hx].
      * rewrite decide_True; [done|]. apply elem_of_app. right. by left.
      * rewrite K10. destruct (decide (x ∈ take k mid)); [rewrite decide_True by (apply elem_of_app; by left)|rewrite decide_False]; [done..|].
        by intros [?|?%list_elem_of_singleton]%elem_of_app.
  - rewrite length_zip_with_l in * by lia. cbn [fst snd] in *. rewrite E. cbn [mbind outcome_bind].
    rewrite (take_ge mid) in K1, K10 by done. rewrite (take_ge line) in K2 by lia.
    eexists _, st'. split; [done|]. split; [by split|]. by split.
Qed.

(** ** Ports *)

Definition call_src (c : link_call) : nat := match c with InLink s _ _ _ _ | OutLink s _ _ _ _ _ | InternalLink s _ _ _ _ _ => s end.
Definition call_dst (c : link_call) : nat := match c with InLink _ d _ _ _ | OutLink _ d _ _ _ _ | InternalLink _ d _ _ _ _ => d end.
Definition call_entry (c : link_call) : list NodeSet := match c with InLink _ _ e _ _ | OutLink _ _ e _ _ _ | InternalLink _ _ e _ _ _ => e end.
Definition call_latency (c : link_call) : Z := match c with InLink _ _ _ l _ | OutLink _ _ _ l _ _ | InternalLink _ _ _ l _ _ => l end.
Definition call_bw (c : link_call) : Z := match c with InLink _ _ _ _ b | OutLink _ _ _ _ _ b | InternalLink _ _ _ _ _ b => b end.
Definition internal_call (c : link_call) : bool := match c with InternalLink _ _ _ _ _ _ => true | _ => false end.

(** A link at the switch it ends at, and at the switch it starts from. *)
Record inport := mkInport { ip_call : link_call; ip_line : list nat }.
Record outport := mkOutport { op_call : link_call; op_mid : list nat; op_line : list nat; op_th : nat }.

Implicit Types (nw : SimpleNetwork) (I : list inport) (O : list outport).

Definition ins_of (s : nat) I : list inport := filter (λ x, call_dst (ip_call x) = s) I.
Definition outs_of (s : nat) O : list outport := filter (λ o, call_src (op_call o) = s) O.

Lemma elem_ins_of s x I : x ∈ ins_of s I ↔ call_dst (ip_call x) = s ∧ x ∈ I.
Proof. unfold ins_of, outs_of. by rewrite list_elem_of_filter. Qed.

Lemma elem_outs_of s o O : o ∈ outs_of s O ↔ call_src (op_call o) = s ∧ o ∈ O.
Proof. unfold ins_of, outs_of. by rewrite list_elem_of_filter. Qed.

Record switch_at I O (s : nat) (sw : PerfectSwitch) : Prop := {
  sa_this : ps_this sw = s;
  sa_in : PerfectSwitch.m_in sw = ip_line <$> ins_of s I;
  sa_out : PerfectSwitch.m_out sw = op_mid <$> outs_of s O;
  sa_table : m_routing_table sw = (λ o, call_entry (op_call o)) <$> outs_of s O;
  sa_order : m_link <$> m_link_order sw = seq 0 (length (outs_of s O));
  sa_start : m_round_robin_start sw = 0
}.

Definition queues nw : list nat := concat (m_toNetQueues nw) ++ concat (m_fromNetQueues nw).

(** The network with the ports made so far; [n] switches. *)
Record built (n : nat) (st0 : netstate W B) nw a I O : Prop := {
  bt_vector : length (m_switch_ptr_vector nw) = n;
  bt_switch : ∀ s S, m_switch_ptr_vector nw !! s = Some S →
    m_perfect_switch_ptr S = s ∧ ∃ sw, objs a !! s = Some (Perfect sw) ∧ switch_at I O s sw;
  bt_throttle : ∀ o, o ∈ O → ∃ th, objs a !! op_th o = Some (Throttled th) ∧
    idle (op_th o) (op_mid o) (op_line o) (call_latency (op_call o)) (call_bw (op_call o)) th;
  bt_objs : ∀ c x, objs a !! c = Some x → (c < n)%nat ∨ ∃ o, o ∈ O ∧ c = op_th o;
  bt_names : ∀ o, o ∈ O → (n ≤ op_th o < next_obj a)%nat;
  bt_fresh : (n ≤ next_obj a)%nat;
  bt_named : NoDup (op_th <$> O);
  bt_widths : (∀ x, x ∈ I → length (ip_line x) = V) ∧ ∀ o, o ∈ O → length (op_mid o) = V ∧ length (op_line o) = V;
  bt_ins : NoDup (I ≫= ip_line);
  bt_mids : NoDup (O ≫= op_mid);
  bt_outs : NoDup (O ≫= op_line);
  bt_used : ∀ i, i ∈ (I ≫= ip_line) ++ (O ≫= op_mid) ++ (O ≫= op_line) ++ queues nw → (i < next_buf a)%nat;
  bt_inbufs : ∀ x i, x ∈ I → i ∈ ip_line x → unused (Some (call_dst (ip_call x))) (internal_call (ip_call x)) (bufs (net a) i);
  bt_midbufs : ∀ o i, o ∈ O → i ∈ op_mid o → unused (Some (op_th o)) true (bufs (net a) i);
  bt_queues : ∀ i, i ∈ queues nw → i ∉ (I ≫= ip_line) → unused None false (bufs (net a) i);
  bt_dst : ∀ x, x ∈ I → (call_dst (ip_call x) < n)%nat;
  bt_all : ∀ i, (i < next_buf a)%nat → ∃ c o, unused c o (bufs (net a) i);
  bt_net : only_bufs st0 (net a)
}.

Lemma unused_inj c o c' o' b : unused c o b → unused c' o' b → c = c' ∧ o = o'.
Proof. intros [H1 H2 _ _] [H3 H4 _ _]. split; congruence. Qed.

Lemma perfect_at_Some p a sw : objs a !! p = Some (Perfect sw) → perfect_at p a = Ret sw.
Proof. intros E. unfold perfect_at. by rewrite E. Qed.

Lemma NoDup_bind_snoc {A} (f : A → list nat) l x : NoDup (l ≫= f) → NoDup (f x) → (∀ i, i ∈ f x → i ∉ l ≫= f) → NoDup ((l ++ [x]) ≫= f).
Proof.
  intros H1 H2 H3. rewrite bind_app. cbn [mbind list_bind]. rewrite app_nil_r. apply NoDup_app. split; [done|]. split; [|done].
  intros i Hi Hx. by apply (H3 i).
Qed.

Lemma elem_bind_snoc {A} (f : A → list nat) l x i : i ∈ ((l ++ [x]) ≫= f) ↔ i ∈ (l ≫= f) ∨ i ∈ f x.
Proof. rewrite bind_app. cbn [mbind list_bind]. by rewrite app_nil_r, elem_of_app. Qed.

Lemma addInPort_ok n st0 nw a I O c line S :
  built n st0 nw a I O → m_switch_ptr_vector nw !! call_dst c = Some S → length line = V → NoDup line →
  (∀ i, i ∈ line → (i < next_buf a)%nat ∧ unused None (internal_call c) (bufs (net a) i)) →
  ∃ a', addInPort line S a = Ret a' ∧ built n st0 nw a' (I ++ [mkInport c line]) O ∧ next_buf a' = next_buf a ∧
    ∀ i, i ∉ line → bufs (net a') i = bufs (net a) i.
Proof.
  intros [H1 H2 H3 H4 H5 H6 H7 [H8 H8'] H9 H10 H11 H12 H13 H14 H15 H16 H18 H17] HS Hlen Hnd Hline.
  destruct (H2 _ S HS) as (EP & sw & Hsw & [S1 S2 S3 S4 S5 S6]). unfold Switch.addInPort. rewrite EP, (perfect_at_Some _ _ sw Hsw).
  cbn [mbind outcome_bind]. unfold PerfectSwitch.addInPort. rewrite Hlen, Nat.eqb_refl. cbn [assertb mbind outcome_bind]. rewrite S1.
  destruct (set_consumers_ok (call_dst c) (internal_call c) line (net a) Hnd) as (st' & -> & Hst & Hb); [by intros i [_ ?]%Hline|].
  cbn [mbind outcome_bind]. eexists. split; [done|].
  assert (Hother : ∀ i, i ∉ line → bufs st' i = bufs (net a) i) by (intros i Hi; by rewrite Hb, decide_False).
  split; [|by split]. cbn [set_net set_obj objs net next_buf next_obj].
  assert (Hnew : ∀ i, i ∈ line → i ∉ I ≫= ip_line).
  { intros i Hi (x & Hx & HxI)%list_elem_of_bind. destruct (Hline i Hi) as [_ Hu]. by destruct (unused_inj _ _ _ _ _ Hu (H13 x i HxI Hx)). }
  assert (Hmid : ∀ o i, o ∈ O → i ∈ op_mid o → i ∉ line).
  { intros o i Ho Hi Hl. destruct (Hline i Hl) as [_ Hu]. by destruct (unused_inj _ _ _ _ _ Hu (H14 o i Ho Hi)). }
  split; try done.
  - intros s S' HS'. destruct (H2 s S' HS') as (EP' & sw' & Hsw' & [T1 T2 T3 T4 T5 T6]). split; [done|].
    cbn. destruct (decide (s = call_dst c)) as [->|Hs].
    + eexists. rewrite lookup_insert_eq. split; [done|]. split; cbn; try done.
      * rewrite S2. unfold ins_of. rewrite filter_app, filter_cons_True, filter_nil, fmap_app by done. done.
    + exists sw'. rewrite lookup_insert_ne by done. split; [done|]. split; try done.
      rewrite T2. unfold ins_of. rewrite filter_app, filter_cons_False, filter_nil, app_nil_r by done. done.
  - intros o Ho. destruct (H3 o Ho) as (th & Hth & Hidle). exists th. cbn. rewrite lookup_insert_ne; [done|].
    pose proof (H5 o Ho). apply lookup_lt_Some in HS. lia.
  - intros d x Hd. cbn in Hd. destruct (decide (d = call_dst c)) as [->|Hne]; [left; apply lookup_lt_Some in HS; lia|].
    rewrite lookup_insert_ne in Hd by done. by apply (H4 d x).
  - split; [|done]. intros x [Hx| ->%list_elem_of_singleton]%elem_of_app; [by apply H8|done].
  - by apply NoDup_bind_snoc.
  - intros i. rewrite !elem_of_app, elem_bind_snoc. intros [[Hi|Hi]|Hi]; [| |];
      [apply H12; apply elem_of_app; by left|by apply Hline|apply H12; rewrite !elem_of_app; by right].
  - intros x i [Hx| ->%list_elem_of_singleton]%elem_of_app Hi; cbn.
    + rewrite Hother; [by apply H13|]. intros Hl. apply (Hnew i Hl), list_elem_of_bind. by exists x.
    + cbn in Hi. rewrite Hb, decide_True by done. by apply setConsumer_unused, Hline.
  - intros o i Ho Hi. rewrite Hother; [by apply H14|]. by eapply Hmid.
  - intros i Hi Hn. rewrite elem_bind_snoc in Hn. rewrite Hother by naive_solver. apply H15; [done|naive_solver].
  - intros x [Hx| ->%list_elem_of_singleton]%elem_of_app; [by apply H16|]. apply lookup_lt_Some in HS. cbn. lia.
  - intros i Hi. rewrite Hb. case_decide as Hil; [|by apply H18]. eexists _, _. by apply setConsumer_unused, Hline.
  - by eapply only_bufs_trans.
Qed.

(** The objects and buffers after [addOutPort], whatever the ports before. *)
Lemma addOutPort_run a S sw line e (latency bw : Z) :
  objs a !! m_perfect_switch_ptr S = Some (Perfect sw) → (m_perfect_switch_ptr S < next_obj a)%nat → length line = V → 0 < bw →
  let p := next_obj a in let mid := seq (next_buf a) V in
  ∃ S' th a', addOutPort line e latency bw S a = Ret (S', a') ∧ m_perfect_switch_ptr S' = m_perfect_switch_ptr S ∧
    idle p mid line latency bw th ∧ next_buf a' = (next_buf a + V)%nat ∧ next_obj a' = Datatypes.S p ∧ only_bufs (net a) (net a') ∧
    objs a' = <[p := Throttled th]> (<[m_perfect_switch_ptr S := Perfect (mkSwitch (ps_this sw) (PerfectSwitch.m_switch_id sw)
      (PerfectSwitch.m_in sw) (PerfectSwitch.m_out sw ++ [mid]) (m_routing_table sw ++ [e])
      (m_link_order sw ++ [mkLinkOrder (length (PerfectSwitch.m_out sw)) 0]) (m_round_robin_start sw) (PerfectSwitch.m_wakeups_wo_switch sw))]> (objs a)) ∧
    (∀ i, i ∈ mid → unused (Some p) true (bufs (net a') i)) ∧ ∀ i, i ∉ mid → bufs (net a') i = bufs (net a) i.
Proof.
  intros Hsw Hlt Hlen Hbw p mid. unfold Switch.addOutPort.
  destruct (new_Throttle (next_obj a) (Z.of_nat (Switch.m_switch_id S)) (Z.of_nat (length (m_throttles S))) latency bw (net a)) as [th0|e0] eqn:Eth.
  2: { unfold new_Throttle in Eth. by rewrite (proj2 (Z.ltb_lt 0 bw) Hbw) in Eth. }
  cbn [mbind outcome_bind]. set (a1 := mkArena (next_buf a) (Datatypes.S p) (<[p := Throttled th0]> (objs a)) (net a)).
  change (new_component (λ _, Throttled th0) a) with (p, a1). rewrite Hlen.
  destruct (new_link_buffers_ok V a1) as (a2 & -> & N1 & N2 & N3 & N4 & N5). change (next_buf a1) with (next_buf a) in *. fold mid.
  cbn [m_perfect_switch_ptr m_throttles m_buffers_to_free]. unfold perfect_at at 1. rewrite N3. cbn [a1 objs].
  rewrite lookup_insert_ne, Hsw by (unfold p; lia). cbn [mbind outcome_bind].
  assert (Hlm : length mid = V) by apply length_seq. unfold PerfectSwitch.addOutPort. rewrite Hlm, Nat.eqb_refl. cbn [assertb mbind outcome_bind].
  set (a3 := set_obj _ _ a2). assert (E3 : throttle_at p a3 = Ret th0).
  { unfold throttle_at, a3. cbn. rewrite lookup_insert_ne by (unfold p; lia). rewrite N3. cbn. by rewrite lookup_insert_eq. }
  rewrite E3. cbn [mbind outcome_bind].
  assert (Hmid : ∀ i, i ∈ mid → unused None true (bufs (net a3) i)).
  { intros i Hi%elem_of_seq. cbn. rewrite N5, decide_True by lia. apply link_buffer_unused. }
  destruct (addLinks_ok p _ _ latency bw mid line (net a) (net a3) true th0 Eth) as (th & st' & -> & Hidle & Hst & Hb);
    [by unfold mid; rewrite length_seq|apply NoDup_seq|done|]. cbn [mbind outcome_bind].
  eexists _, th, _. split; [done|]. cbn. rewrite N3. split_and!; try done.
  - by eapply only_bufs_trans.
  - cbn. apply map_eq. intros k. destruct (decide (k = p)) as [->|Hk]; [by rewrite !lookup_insert_eq|].
    rewrite !(lookup_insert_ne _ p) by done. destruct (decide (k = m_perfect_switch_ptr S)) as [->|Hk'];
      [by rewrite !lookup_insert_eq|by rewrite !lookup_insert_ne].
  - intros i Hi. rewrite Hb, decide_True by done. by apply (setConsumer_unused p true), Hmid.
  - intros i Hi. rewrite Hb, decide_False by done. cbn. rewrite N5, decide_False; [done|]. intros Hr. by apply Hi, elem_of_seq.
Qed.

Lemma addOutPort_ok n st0 nw a I O c line S :
  built n st0 nw a I O → m_switch_ptr_vector nw !! call_src c = Some S → length line = V → NoDup line → 0 < call_bw c →
  (∀ i, i ∈ line → (i < next_buf a)%nat ∧ i ∉ O ≫= op_line) →
  ∃ S' a' mid th, addOutPort line (call_entry c) (call_latency c) (call_bw c) S a = Ret (S', a') ∧
    built n st0 (set_switch (call_src c) S' nw) a' I (O ++ [mkOutport c mid line th]) ∧ (next_buf a ≤ next_buf a')%nat ∧
    ∀ i, (i < next_buf a)%nat → bufs (net a') i = bufs (net a) i.
Proof.
  intros [H1 H2 H3 H4 H5 H6 H7 [H8 H8'] H9 H10 H11 H12 H13 H14 H15 H16 H18 H17] HS Hlen Hnd Hbw Hline.
  destruct (H2 _ S HS) as (EP & sw & Hsw & [S1 S2 S3 S4 S5 S6]). pose proof (lookup_lt_Some _ _ _ HS) as Hlt. rewrite H1 in Hlt.
  destruct (addOutPort_run a S sw line (call_entry c) (call_latency c) (call_bw c)) as (S' & th & a' & -> & EP' & Hidle & N1 & N2 & N3 & N4 & N5 & N6);
    [by rewrite EP|rewrite EP; lia|done|done|]. rewrite EP in *. set (p := next_obj a) in *. set (mid := seq (next_buf a) V) in *.
  exists S', a', mid, p. split; [done|].
  assert (Hold : ∀ i, (i < next_buf a)%nat → bufs (net a') i = bufs (net a) i).
  { intros i Hi. apply N6. intros [? _]%elem_of_seq. lia. }
  split; [|split; [lia|done]].
  assert (Hobj : ∀ d, d ≠ p → d ≠ call_src c → objs a' !! d = objs a !! d) by (intros d ? ?; by rewrite N4, !lookup_insert_ne).
  split; cbn [m_switch_ptr_vector set_switch].
  - by rewrite length_insert.
  - intros s S0 HS0. destruct (decide (s = call_src c)) as [->|Hs].
    + rewrite list_lookup_insert_eq in HS0 by lia. injection HS0 as <-. split; [done|]. eexists. rewrite N4, lookup_insert_ne, lookup_insert_eq by lia.
      split; [done|]. assert (Ef : outs_of (call_src c) (O ++ [mkOutport c mid line p]) = outs_of (call_src c) O ++ [mkOutport c mid line p])
        by (unfold outs_of; by rewrite filter_app, filter_cons_True, filter_nil).
      split; cbn; rewrite ?Ef, ?fmap_app, ?length_app; try done; [by rewrite S3|by rewrite S4|].
      rewrite S5, S3, length_fmap. cbn. by rewrite Nat.add_1_r, seq_S.
    + rewrite list_lookup_insert_ne in HS0 by done. destruct (H2 s S0 HS0) as (EP0 & sw' & Hsw' & [T1 T2 T3 T4 T5 T6]). split; [done|].
      assert (s < n)%nat by (rewrite <- H1; by eapply lookup_lt_Some). exists sw'. rewrite Hobj by lia. split; [done|].
      assert (Ef : outs_of s (O ++ [mkOutport c mid line p]) = outs_of s O)
        by (unfold outs_of; by rewrite filter_app, filter_cons_False, filter_nil, app_nil_r by (cbn; congruence)).
      split; rewrite ?Ef; done.
  - intros o [Ho| ->%list_elem_of_singleton]%elem_of_app.
    + destruct (H3 o Ho) as (th' & Hth' & Hi'). exists th'. pose proof (H5 o Ho). by rewrite Hobj by lia.
    + exists th. cbn. rewrite N4, lookup_insert_eq. done.
  - intros d x Hd. destruct (decide (d = p)) as [->|Hdp]; [right; eexists; split; [apply elem_of_app; right; by left|done]|].
    destruct (decide (d = call_src c)) as [->|Hds]; [by left|]. rewrite Hobj in Hd by done.
    destruct (H4 d x Hd) as [|(o & Ho & Ed)]; [by left|right]. exists o. split; [apply elem_of_app; by left|done].
  - intros o [Ho| ->%list_elem_of_singleton]%elem_of_app; cbn; [specialize (H5 o Ho); lia|lia].
  - lia.
  - rewrite fmap_app. apply NoDup_app. split; [done|]. split; [|apply NoDup_singleton].
    intros q (o & -> & Ho)%list_elem_of_fmap E%list_elem_of_singleton. cbn in E. specialize (H5 o Ho). lia.
  - split; [done|]. intros o [Ho| ->%list_elem_of_singleton]%elem_of_app; [by apply H8'|]. cbn. unfold mid. by rewrite length_seq.
  - done.
  - apply NoDup_bind_snoc; [done|apply NoDup_seq|]. intros i [Hi _]%elem_of_seq Hin.
    assert (i < next_buf a)%nat; [|lia]. apply H12. rewrite !elem_of_app. by right; left.
  - apply NoDup_bind_snoc; [done..|]. intros i Hi. by apply Hline.
  - assert (Hmono : ∀ i, (i < next_buf a)%nat → (i < next_buf a')%nat) by lia.
    intros i. rewrite !elem_of_app, !elem_bind_snoc. cbn [op_mid op_line].
    intros [Hi|[[Hi|Hi]|[[Hi|Hi]|Hi]]]; [| |apply elem_of_seq in Hi; lia| |by apply Hmono, Hline|];
      apply Hmono, H12; rewrite !elem_of_app; tauto.
  - intros x i Hx Hi. rewrite Hold; [by apply H13|]. apply H12. rewrite elem_of_app. left. apply list_elem_of_bind. by exists x.
  - intros o i [Ho| ->%list_elem_of_singleton]%elem_of_app Hi; [|by apply N5].
    rewrite Hold; [by apply H14|]. apply H12. rewrite !elem_of_app. right; left. apply list_elem_of_bind. by exists o.
  - intros i Hi Hn. rewrite Hold; [by apply H15|]. apply H12. rewrite !elem_of_app. by right; right; right.
  - done.
  - intros i Hi. destruct (decide (i < next_buf a)%nat) as [Hlt'|Hge]; [rewrite Hold by done; by apply H18|].
    eexists _, _. apply N5. apply elem_of_seq. lia.
  - by eapply only_bufs_trans.
Qed.

Lemma built_nw n st0 nw nw' a I O : m_switch_ptr_vector nw' = m_switch_ptr_vector nw → queues nw' = queues nw →
  built n st0 nw a I O → built n st0 nw' a I O.
Proof. intros E1 E2 [H1 H2 H3 H4 H5 H6 H7 H8 H9 H10 H11 H12 H13 H14 H15 H16 H18 H17]. split; rewrite ?E1, ?E2; done. Qed.

Lemma built_alloc n st0 nw a a' I O : next_obj a' = next_obj a → objs a' = objs a → only_bufs (net a) (net a') →
  (next_buf a ≤ next_buf a')%nat → (∀ i, (i < next_buf a)%nat → bufs (net a') i = bufs (net a) i) →
  (∀ i, (next_buf a ≤ i < next_buf a')%nat → ∃ c o, unused c o (bufs (net a') i)) →
  built n st0 nw a I O → built n st0 nw a' I O.
Proof.
  intros E1 E2 E3 E4 E5 E6 [H1 H2 H3 H4 H5 H6 H7 H8 H9 H10 H11 H12 H13 H14 H15 H16 H18 H17].
  split; rewrite ?E1, ?E2; try done.
  - intros i Hi. specialize (H12 i Hi). lia.
  - intros x i Hx Hi. rewrite E5; [by apply H13|]. apply H12, elem_of_app. left. apply list_elem_of_bind. by exists x.
  - intros o i Ho Hi. rewrite E5; [by apply H14|]. apply H12. rewrite !elem_of_app. right; left. apply list_elem_of_bind. by exists o.
  - intros i Hi Hn. rewrite E5; [by apply H15|]. apply H12. rewrite !elem_of_app. by right; right; right.
  - intros i Hi. destruct (decide (i < next_buf a)%nat) as [Hlt|Hge]; [rewrite E5 by done; by apply H18|]. apply E6. lia.
  - by eapply only_bufs_trans.
Qed.

(** ** One call of the topology *)

(** The queues of [nodes] components. *)
Record queues_ok (nodes : nat) nw : Prop := {
  qo_nodes : m_nodes nw = nodes;
  qo_to : length (m_toNetQueues nw) = nodes;
  qo_from : length (m_fromNetQueues nw) = nodes;
  qo_endpoints : length (m_endpoint_switches nw) = nodes;
  qo_width : ∀ q, q ∈ m_toNetQueues nw ++ m_fromNetQueues nw → length q = V;
  qo_once : NoDup (queues nw)
}.

(** The ports belong to the calls made so far. *)
Record matched (nw : SimpleNetwork) (calls : list link_call) I O : Prop := {
  mt_in : ∀ x, x ∈ I → ip_call x ∈ calls ∧
    match ip_call x with
    | InLink s _ _ _ _ => m_toNetQueues nw !! s = Some (ip_line x)
    | InternalLink _ _ _ _ _ _ => (∃ o, o ∈ O ∧ op_call o = ip_call x ∧ op_line o = ip_line x) ∧ ∀ i, i ∈ ip_line x → i ∉ queues nw
    | OutLink _ _ _ _ _ _ => False
    end;
  mt_out : ∀ o, o ∈ O → op_call o ∈ calls ∧
    match op_call o with
    | OutLink _ d _ _ _ _ => m_fromNetQueues nw !! d = Some (op_line o)
    | InternalLink _ _ _ _ _ _ => ∃ x, x ∈ I ∧ ip_call x = op_call o ∧ ip_line x = op_line o
    | InLink _ _ _ _ _ => False
    end;
  mt_all : ∀ c, c ∈ calls →
    match c with InLink _ _ _ _ _ => ∃ x, x ∈ I ∧ ip_call x = c | _ => ∃ o, o ∈ O ∧ op_call o = c end
}.

(** A call that makes sense after the calls made so far. *)
Definition call_ok (nodes n : nat) (calls : list link_call) (c : link_call) : Prop :=
  match c with
  | InLink s d _ _ _ => (s < nodes)%nat ∧ (d < n)%nat ∧ ∀ d' e l b, InLink s d' e l b ∉ calls
  | OutLink s d _ _ _ b => (s < n)%nat ∧ (d < nodes)%nat ∧ 0 < b ∧ ∀ s' e l w b', OutLink s' d e l w b' ∉ calls
  | InternalLink s d _ _ _ b => (s < n)%nat ∧ (d < n)%nat ∧ 0 < b
  end.

Lemma queue_elem nw s q i : m_toNetQueues nw !! s = Some q ∨ m_fromNetQueues nw !! s = Some q → i ∈ q → i ∈ queues nw.
Proof. intros [H|H] Hi; apply elem_of_app; [left|right]; apply elem_of_concat; exists q; (split; [by eapply list_elem_of_lookup_2|done]). Qed.

Lemma to_from_disjoint nodes nw s d q q' i : queues_ok nodes nw → m_toNetQueues nw !! s = Some q → m_fromNetQueues nw !! d = Some q' → i ∈ q → i ∉ q'.
Proof.
  intros Hq Hs Hd Hi Hi'. pose proof (qo_once _ _ Hq) as Hnd. apply NoDup_app in Hnd as (_ & Hnd & _).
  apply (Hnd i); apply elem_of_concat; [exists q|exists q']; split; try done; by eapply list_elem_of_lookup_2.
Qed.

(** The queue of an endpoint is still free. *)
Lemma to_queue_free nodes n nw calls I O s d e l b q i : queues_ok nodes nw → matched nw calls I O →
  call_ok nodes n calls (InLink s d e l b) → m_toNetQueues nw !! s = Some q → i ∈ q → i ∉ I ≫= ip_line.
Proof.
  intros Hq Hm (_ & _ & Hno) Hs Hi (x & Hx & HxI)%list_elem_of_bind. destruct (mt_in _ _ _ _ Hm x HxI) as [Hc Hx'].
  destruct (ip_call x) as [s' d' e' l' b'| |]; [|done|by apply Hx' in Hx as []; eapply queue_elem; [left|]].
  assert (s' = s) as ->; [|by apply Hno in Hc]. pose proof (qo_once _ _ Hq) as Hnd. apply NoDup_app in Hnd as (Hnd & _ & _).
  by eapply NoDup_concat_unique; [exact Hnd|exact Hx'|exact Hs| |].
Qed.

Lemma from_queue_free nodes n nw calls I O s d e l w b q i : queues_ok nodes nw → matched nw calls I O →
  call_ok nodes n calls (OutLink s d e l w b) → m_fromNetQueues nw !! d = Some q → i ∈ q → i ∉ O ≫= op_line.
Proof.
  intros Hq Hm (_ & _ & _ & Hno) Hd Hi (o & Ho & HoO)%list_elem_of_bind. destruct (mt_out _ _ _ _ Hm o HoO) as [Hc Ho'].
  destruct (op_call o) as [|s' d' e' l' w' b'|] eqn:Eo; [done| |].
  - assert (d' = d) as ->; [|by apply Hno in Hc]. pose proof (qo_once _ _ Hq) as Hnd. apply NoDup_app in Hnd as (_ & _ & Hnd).
    by eapply NoDup_concat_unique; [exact Hnd|exact Ho'|exact Hd| |].
  - destruct Ho' as (x & Hx & Ex & El). destruct (mt_in _ _ _ _ Hm x Hx) as [_ Hx']. rewrite Ex in Hx'.
    destruct Hx' as [_ Hx']. rewrite <- El in Ho. apply (Hx' i Ho). eapply queue_elem; [by right|done].
Qed.

Lemma NoDup_concat_elem {A} (ls : list (list A)) q : NoDup (concat ls) → q ∈ ls → NoDup q.
Proof.
  intros Hnd (l1 & l2 & ->)%list_elem_of_split. rewrite concat_app in Hnd. cbn in Hnd.
  apply NoDup_app in Hnd as (_ & _ & Hnd). by apply NoDup_app in Hnd as (? & _).
Qed.

Lemma queue_ok nodes nw s q : queues_ok nodes nw → m_toNetQueues nw !! s = Some q ∨ m_fromNetQueues nw !! s = Some q →
  length q = V ∧ NoDup q.
Proof.
  intros Hq H. pose proof (qo_once _ _ Hq) as Hnd. apply NoDup_app in Hnd as (Hn1 & _ & Hn2). split.
  - apply (qo_width _ _ Hq), elem_of_app. destruct H as [H|H]; [left|right]; by eapply list_elem_of_lookup_2.
  - destruct H as [H|H]; (eapply NoDup_concat_elem; [|by eapply list_elem_of_lookup_2]); done.
Qed.

Definition same_queues nw nw' : Prop := m_toNetQueues nw' = m_toNetQueues nw ∧ m_fromNetQueues nw' = m_fromNetQueues nw ∧ m_nodes nw' = m_nodes nw ∧
  length (m_endpoint_switches nw') = length (m_endpoint_switches nw).

Lemma same_queues_ok nodes nw nw' : same_queues nw nw' → queues_ok nodes nw → queues_ok nodes nw'.
Proof. intros (E1 & E2 & E3 & E4) [H1 H2 H3 H4 H5 H6]. split; unfold queues in *; rewrite ?E1, ?E2, ?E3, ?E4; done. Qed.

Lemma matched_queues nw nw' calls I O : same_queues nw nw' → matched nw calls I O → matched nw' calls I O.
Proof. intros (E1 & E2 & E3 & E4) [H1 H2 H3]. unfold queues in *. split; unfold queues; rewrite ?E1, ?E2; done. Qed.

(** What is known after the calls [calls]. *)
Record made (nodes n : nat) st0 nw a calls I O : Prop := {
  md_built : built n st0 nw a I O;
  md_queues : queues_ok nodes nw;
  md_matched : matched nw calls I O
}.

Lemma makeInLink_ok nodes n st0 nw a calls I O s d e l b : let c := InLink s d e l b in
  made nodes n st0 nw a calls I O → call_ok nodes n calls c →
  ∃ a' line, make_link false (nw, a) c = Ret (nw, a') ∧ made nodes n st0 nw a' (calls ++ [c]) (I ++ [mkInport c line]) O.
Proof.
  intros c [Hb Hq Hm] Hc. pose proof Hc as (Hs & Hd & _).
  destruct (lookup_lt_is_Some_2 (m_switch_ptr_vector nw) d) as [S HS]; [by rewrite (bt_vector _ _ _ _ _ _ Hb)|].
  destruct (lookup_lt_is_Some_2 (m_toNetQueues nw) s) as [q Hsq]; [by rewrite (qo_to _ _ Hq)|].
  destruct (queue_ok nodes nw s q Hq) as [Hlen Hnd]; [by left|].
  assert (Hqi : ∀ i, i ∈ q → i ∈ queues nw) by (intros i Hi; eapply queue_elem; [by left|done]).
  destruct (addInPort_ok n st0 nw a I O c q S Hb HS Hlen Hnd) as (a' & E & Hb' & _).
  { intros i Hi. split; [apply (bt_used _ _ _ _ _ _ Hb); rewrite !elem_of_app; right; right; right; by apply Hqi|].
    apply (bt_queues _ _ _ _ _ _ Hb); [by apply Hqi|]. by eapply to_queue_free. }
  exists a', q. split.
  { unfold SimpleNetwork.make_link, makeInLink, c. rewrite (qo_nodes _ _ Hq), (proj2 (Nat.ltb_lt _ _) Hs). cbn [assertb mbind outcome_bind].
    rewrite (at_idx_Some _ _ _ HS), (at_idx_Some _ _ _ Hsq). cbn [mbind outcome_bind]. by rewrite E. }
  split; [done|done|]. destruct Hm as [M1 M2 M3]. split.
  - intros x [Hx| ->%list_elem_of_singleton]%elem_of_app.
    + destruct (M1 x Hx) as [K1 K2]. split; [apply elem_of_app; by left|done].
    + cbn. split; [apply elem_of_app; right; by left|done].
  - intros o Ho. destruct (M2 o Ho) as [K1 K2]. split; [apply elem_of_app; by left|]. destruct (op_call o); try done.
    destruct K2 as (x & Hx & K2). exists x. split; [apply elem_of_app; by left|done].
  - intros c' [Hc'| ->%list_elem_of_singleton]%elem_of_app.
    + specialize (M3 c' Hc'). destruct c'; try done. destruct M3 as (x & Hx & M3). exists x. split; [apply elem_of_app; by left|done].
    + cbn. eexists. split; [apply elem_of_app; right; by left|done].
Qed.

Lemma makeOutLink_ok nodes n st0 nw a calls I O s d e l w b : let c := OutLink s d e l w b in
  made nodes n st0 nw a calls I O → call_ok nodes n calls c →
  ∃ nw' a' o, make_link false (nw, a) c = Ret (nw', a') ∧ made nodes n st0 nw' a' (calls ++ [c]) I (O ++ [o]) ∧ same_queues nw nw'.
Proof.
  intros c [Hb Hq Hm] Hc. pose proof Hc as (Hs & Hd & Hbw & _).
  destruct (lookup_lt_is_Some_2 (m_switch_ptr_vector nw) s) as [S HS]; [by rewrite (bt_vector _ _ _ _ _ _ Hb)|].
  destruct (lookup_lt_is_Some_2 (m_fromNetQueues nw) d) as [q Hsq]; [by rewrite (qo_from _ _ Hq)|].
  destruct (lookup_lt_is_Some_2 (m_endpoint_switches nw) d) as [ep Hep]; [by rewrite (qo_endpoints _ _ Hq)|].
  destruct (queue_ok nodes nw d q Hq) as [Hlen Hnd]; [by right|].
  assert (Hqi : ∀ i, i ∈ q → i ∈ queues nw) by (intros i Hi; eapply queue_elem; [by right|done]).
  destruct (addOutPort_ok n st0 nw a I O c q S Hb HS Hlen Hnd Hbw) as (S' & a' & mid & th & E & Hb' & _).
  { intros i Hi. split; [apply (bt_used _ _ _ _ _ _ Hb); rewrite !elem_of_app; right; right; right; by apply Hqi|]. by eapply from_queue_free. }
  assert (Hsame : same_queues nw (set_endpoint d s (set_switch s S' nw))) by (split_and!; try done; cbn; by rewrite length_insert).
  exists (set_endpoint d s (set_switch s S' nw)), a', (mkOutport c mid q th).
  split; [|split; [split; [by apply (built_nw n st0 (set_switch s S' nw))| |]|exact Hsame]].
  { unfold SimpleNetwork.make_link, makeOutLink, c. rewrite (qo_nodes _ _ Hq), (proj2 (Nat.ltb_lt _ _) Hd), (bt_vector _ _ _ _ _ _ Hb), (proj2 (Nat.ltb_lt _ _) Hs).
    cbn [assertb mbind outcome_bind]. rewrite (at_idx_Some _ _ _ HS), (at_idx_Some _ _ _ Hsq). cbn [mbind outcome_bind].
    change e with (call_entry c). change l with (call_latency c). change b with (call_bw c). rewrite E. cbn [mbind outcome_bind].
    by rewrite (at_idx_Some _ _ _ Hep). }
  { by eapply same_queues_ok. }
  apply (matched_queues nw); [done|]. destruct Hm as [M1 M2 M3]. split.
  - intros x Hx. destruct (M1 x Hx) as [K1 K2]. split; [apply elem_of_app; by left|]. destruct (ip_call x); try done.
    destruct K2 as [(o & Ho & K2) K3]. split; [|done]. exists o. split; [apply elem_of_app; by left|done].
  - intros o [Ho| ->%list_elem_of_singleton]%elem_of_app.
    + destruct (M2 o Ho) as [K1 K2]. split; [apply elem_of_app; by left|done].
    + cbn. split; [apply elem_of_app; right; by left|done].
  - intros c' [Hc'| ->%list_elem_of_singleton]%elem_of_app.
    + specialize (M3 c' Hc'). destruct c'; try done; destruct M3 as (x & Hx & M3); exists x; (split; [apply elem_of_app; by left|done]).
    + cbn. eexists. split; [apply elem_of_app; right; by left|done].
Qed.

Lemma makeInternalLink_ok nodes n st0 nw a calls I O s d e l w b : let c := InternalLink s d e l w b in
  made nodes n st0 nw a calls I O → call_ok nodes n calls c →
  ∃ nw' a' x o, make_link false (nw, a) c = Ret (nw', a') ∧ made nodes n st0 nw' a' (calls ++ [c]) (I ++ [x]) (O ++ [o]) ∧ same_queues nw nw'.
Proof.
  intros c [Hb Hq Hm] Hc. pose proof Hc as (Hs & Hd & Hbw).
  destruct (new_link_buffers_ok V a) as (a1 & E1 & N1 & N2 & N3 & N4 & N5). set (line := seq (next_buf a) V) in *.
  assert (Hline : ∀ i, i ∈ line → ¬ (i < next_buf a)%nat ∧ (i < next_buf a1)%nat) by (intros i Hi%elem_of_seq; lia).
  set (nw1 := free_later line nw).
  assert (Hb1 : built n st0 nw1 a1 I O).
  { apply (built_nw n st0 nw); [done..|]. apply (built_alloc n st0 nw a); try done; [lia| |].
    - intros i Hi. rewrite N5, decide_False by lia. done.
    - intros i Hi. rewrite N5, decide_True by lia. eexists _, _. apply link_buffer_unused. }
  destruct (lookup_lt_is_Some_2 (m_switch_ptr_vector nw) d) as [D HD]; [by rewrite (bt_vector _ _ _ _ _ _ Hb)|].
  destruct (lookup_lt_is_Some_2 (m_switch_ptr_vector nw) s) as [S HS]; [by rewrite (bt_vector _ _ _ _ _ _ Hb)|].
  destruct (addInPort_ok n st0 nw1 a1 I O c line D Hb1 HD) as (a2 & E2 & Hb2 & N6 & _); [apply length_seq|apply NoDup_seq| |].
  { intros i Hi. split; [by apply Hline|]. apply elem_of_seq in Hi. rewrite N5, decide_True by lia. apply link_buffer_unused. }
  destruct (addOutPort_ok n st0 nw1 a2 (I ++ [mkInport c line]) O c line S Hb2 HS) as (S' & a' & mid & th & E3 & Hb3 & _); [apply length_seq|apply NoDup_seq|done| |].
  { intros i Hi. split; [rewrite N6; by apply Hline|]. intros Hin. apply (proj1 (Hline i Hi)), (bt_used _ _ _ _ _ _ Hb).
    rewrite !elem_of_app. tauto. }
  assert (Hsame : same_queues nw (set_switch s S' nw1)) by by split_and!.
  eexists _, a', _, _. split; [|split; [split; [exact Hb3|by eapply same_queues_ok|]|exact Hsame]].
  { unfold SimpleNetwork.make_link, makeInternalLink, c. rewrite E1. fold nw1. change (m_switch_ptr_vector nw1) with (m_switch_ptr_vector nw).
    rewrite (at_idx_Some _ _ _ HD), (at_idx_Some _ _ _ HS). cbn [mbind outcome_bind]. rewrite E2. cbn [mbind outcome_bind].
    change e with (call_entry c). change l with (call_latency c). change b with (call_bw c). by rewrite E3. }
  apply (matched_queues nw); [done|]. destruct Hm as [M1 M2 M3]. split.
  - intros x [Hx| ->%list_elem_of_singleton]%elem_of_app.
    + destruct (M1 x Hx) as [K1 K2]. split; [apply elem_of_app; by left|]. destruct (ip_call x); try done.
      destruct K2 as [(o & Ho & K2) K3]. split; [|done]. exists o. split; [apply elem_of_app; by left|done].
    + cbn. split; [apply elem_of_app; right; by left|]. split; [eexists; split; [apply elem_of_app; right; by left|done]|].
      intros i Hi Hiq. apply (proj1 (Hline i Hi)), (bt_used _ _ _ _ _ _ Hb). rewrite !elem_of_app. tauto.
  - intros o [Ho| ->%list_elem_of_singleton]%elem_of_app.
    + destruct (M2 o Ho) as [K1 K2]. split; [apply elem_of_app; by left|]. destruct (op_call o); try done.
      destruct K2 as (x & Hx & K2). exists x. split; [apply elem_of_app; by left|done].
    + cbn. split; [apply elem_of_app; right; by left|]. eexists. split; [apply elem_of_app; right; by left|done].
  - intros c' [Hc'| ->%list_elem_of_singleton]%elem_of_app.
    + specialize (M3 c' Hc'). destruct c'; destruct M3 as (x & Hx & M3); exists x; (split; [apply elem_of_app; by left|done]).
    + cbn. eexists. split; [apply elem_of_app; right; by left|done].
Qed.

(** ** The members of the network *)

(** Buffers allocated from [a] to [a']. *)
Record allocated a a' (k : nat) : Prop := {
  al_next : next_buf a' = (next_buf a + k)%nat;
  al_obj : next_obj a' = next_obj a;
  al_objs : objs a' = objs a;
  al_net : only_bufs (net a) (net a');
  al_bufs : ∀ i, bufs (net a') i = if decide (next_buf a ≤ i < next_buf a + k)%nat then new_buffer else bufs (net a) i
}.

Lemma allocated_refl a : allocated a a 0.
Proof. split; try done; [apply only_bufs_refl|]. intros i. rewrite decide_False by lia. done. Qed.

Lemma allocated_trans a1 a2 a3 j k : allocated a1 a2 j → allocated a2 a3 k → allocated a1 a3 (j + k).
Proof.
  intros [N1 O1 J1 B1 F1] [N2 O2 J2 B2 F2]. split; [lia|congruence|congruence|by eapply only_bufs_trans|].
  intros i. rewrite F2, F1, N1. repeat case_decide; (done || lia).
Qed.

Lemma alloc_buffer_ok a : (new_MessageBuffer a).1 = next_buf a ∧ allocated a (new_MessageBuffer a).2 1.
Proof.
  split; [done|]. split; try done; [cbn; lia|]. intros i. cbn. unfold upd. repeat case_decide; (done || lia).
Qed.

Lemma new_queue_pairs_ok k a : ∃ to from a', foldl new_queue_pair ([], [], a) (seq 0 k) = (to, from, a') ∧
  length to = k ∧ length from = k ∧ to ++ from ≡ₚ seq (next_buf a) (k + k) ∧ allocated a a' (k + k).
Proof.
  induction k as [|k (to & from & a' & E & L1 & L2 & Hp & Ha)].
  { exists [], [], a. split_and!; try done. apply allocated_refl. }
  rewrite seq_S, foldl_app, E. cbn [foldl Nat.add]. unfold new_queue_pair.
  destruct (alloc_buffer_ok a') as [E1 A1]. destruct (new_MessageBuffer a') as [i a1]. cbn [fst snd] in *. subst i.
  destruct (alloc_buffer_ok a1) as [E2 A2]. destruct (new_MessageBuffer a1) as [j a2]. cbn [fst snd] in *. subst j.
  exists (to ++ [next_buf a']), (from ++ [next_buf a1]), a2. split; [done|]. rewrite !length_app. cbn [length].
  split; [lia|]. split; [lia|]. replace (S (k + S k))%nat with (k + k + (1 + 1))%nat by lia. split.
  - rewrite seq_app, <- Hp, <- (al_next _ _ _ Ha), (al_next _ _ _ A1), Nat.add_1_r. cbn [seq Nat.add].
    rewrite <- !app_assoc. apply Permutation_app_head. rewrite (Permutation_app_comm from [_]), app_assoc. apply Permutation_app_comm.
  - eapply allocated_trans; [exact Ha|by eapply allocated_trans].
Qed.

Lemma new_all_queues_ok n a : ∃ tos froms a', foldl (new_node_queues V) ([], [], a) (seq 0 n) = (tos, froms, a') ∧
  length tos = n ∧ length froms = n ∧ (∀ q, q ∈ tos ++ froms → length q = V) ∧
  concat tos ++ concat froms ≡ₚ seq (next_buf a) (n * (V + V)) ∧ allocated a a' (n * (V + V)).
Proof.
  induction n as [|n (tos & froms & a' & E & L1 & L2 & Hw & Hp & Ha)].
  { exists [], [], a. split_and!; try done; [by intros q ?%not_elem_of_nil|apply allocated_refl]. }
  rewrite seq_S, foldl_app, E. cbn [foldl Nat.add]. unfold new_node_queues.
  destruct (new_queue_pairs_ok V a') as (to & from & a'' & -> & K1 & K2 & Kp & Ka).
  exists (tos ++ [to]), (froms ++ [from]), a''. split; [done|]. rewrite !length_app. cbn [length].
  split; [lia|]. split; [lia|]. split.
  { intros q. rewrite !elem_of_app. intros [[H| ->%list_elem_of_singleton]|[H| ->%list_elem_of_singleton]];
      [apply Hw, elem_of_app; by left|done|apply Hw, elem_of_app; by right|done]. }
  replace (S n * (V + V))%nat with (n * (V + V) + (V + V))%nat by lia. split; [|by eapply allocated_trans].
  rewrite seq_app, <- Hp, <- (al_next _ _ _ Ha), <- Kp, !concat_app. cbn [concat]. rewrite !app_nil_r, <- !app_assoc.
  apply Permutation_app_head. rewrite !app_assoc. apply Permutation_app_tail, Permutation_app_comm.
Qed.

Lemma new_switches_ok n a : objs a = ∅ → next_obj a = 0%nat →
  ∃ l a', new_switches n a = (l, a') ∧ l = (λ s, mkSwitchObj s [] [] s) <$> seq 0 n ∧
    next_obj a' = n ∧ next_buf a' = next_buf a ∧ net a' = net a ∧
    ∀ c, objs a' !! c = if decide (c < n)%nat then Some (Perfect (new_PerfectSwitch c c)) else None.
Proof.
  intros E0 E1. unfold new_switches. induction n as [|n (l & a' & E & El & E2 & E3 & E4 & E5)].
  { exists [], a. split_and!; try done. intros c. by rewrite E0. }
  rewrite seq_S, foldl_app, E. cbn [foldl Nat.add]. eexists _, _. split; [reflexivity|]. cbn. rewrite E2.
  split_and!; try done.
  - by rewrite El, fmap_app.
  - intros c. destruct (decide (c = n)) as [->|Hc]; [rewrite lookup_insert_eq, decide_True by lia; done|].
    rewrite lookup_insert_ne, E5 by done. repeat case_decide; (done || lia).
Qed.

Variable counts : list Z.
Hypothesis Hcounts : counts_ok counts.

Lemma network_members_ok (t : Topology) a : objs a = ∅ → next_obj a = 0%nat → next_buf a = 0%nat → let nodes := length (machines counts) in
  ∃ nw a', network_members V counts t a = Ret (nw, a') ∧ made nodes (m_number_of_switches t) (net a) nw a' [] [] [].
Proof.
  intros E0 E1 E2 nodes. unfold network_members. rewrite (base_number_total counts). cbn [mbind outcome_bind].
  rewrite <- (machines_length counts Hcounts), Nat2Z.id. fold nodes. destruct (new_all_queues_ok nodes a) as (tos & froms & a1 & -> & L1 & L2 & Hw & Hp & [N1 N2 N3 N4 N5]).
  destruct (new_switches_ok (m_number_of_switches t) a1) as (l & a2 & -> & El & S1 & S2 & S3 & S4); [congruence|congruence|].
  eexists _, a2. split; [done|].
  assert (Hused : ∀ i, i ∈ concat tos ++ concat froms → (next_buf a ≤ i < next_buf a1)%nat).
  { intros i. rewrite Hp, elem_of_seq, N1. done. }
  split; [split; cbn| |]; try done.
  - by rewrite El, length_fmap, length_seq.
  - intros s S HS. rewrite El, list_lookup_fmap in HS. apply fmap_Some in HS as (k & Hk & ->).
    apply lookup_seq in Hk as [-> Hk]. cbn. split; [done|]. eexists. rewrite S4, decide_True by done. split; [done|]. by split.
  - by intros o ?%not_elem_of_nil.
  - intros c x Hc. rewrite S4 in Hc. case_decide; [by left|done].
  - by intros o ?%not_elem_of_nil.
  - by rewrite S1.
  - constructor.
  - split; by intros o ?%not_elem_of_nil.
  - constructor.
  - constructor.
  - constructor.
  - intros i Hi. rewrite S2. by apply Hused.
  - by intros x i ?%not_elem_of_nil.
  - by intros x i ?%not_elem_of_nil.
  - intros i Hi _. rewrite S3, N5, decide_True; [apply new_unused|]. specialize (Hused i Hi). lia.
  - by intros x ?%not_elem_of_nil.
  - intros i Hi. rewrite S3, N5. eexists _, _. rewrite decide_True; [apply new_unused|]. rewrite S2 in Hi. lia.
  - by rewrite S3.
  - split; cbn; try done; [by rewrite length_replicate|]. unfold queues. cbn. rewrite Hp. apply NoDup_seq.
  - split; by intros ? ?%not_elem_of_nil.
Qed.

(** All the calls, each of which makes sense after those before. *)
Lemma make_links_ok nodes n st0 nw a calls : made nodes n st0 nw a [] [] [] →
  (∀ k c, calls !! k = Some c → call_ok nodes n (take k calls) c) →
  ∃ nw' a' I O, foldM (make_link false) (nw, a) calls = Ret (nw', a') ∧ made nodes n st0 nw' a' calls I O ∧ same_queues nw nw'.
Proof.
  intros H0 Hcalls.
  destruct (foldM_list (λ k '(nw', a'), ∃ I O, made nodes n st0 nw' a' (take k calls) I O ∧ same_queues nw nw') (make_link false) calls (nw, a))
    as ([nw' a'] & E & I & O & Hm & Hs).
  - exists [], []. by rewrite take_0.
  - intros k c [nw1 a1] Hk (I & O & Hm & Hs). specialize (Hcalls k c Hk). rewrite (take_S_r _ _ _ Hk).
    assert (Htrans : ∀ nw2, same_queues nw1 nw2 → same_queues nw nw2).
    { destruct Hs as (E1 & E2 & E3 & E4). intros nw2 (F1 & F2 & F3 & F4). split_and!; congruence. }
    destruct c as [s d e l b|s d e l w b|s d e l w b].
    + destruct (makeInLink_ok _ _ _ _ _ _ _ _ s d e l b Hm Hcalls) as (a2 & line & E & Hm'). eexists. split; [exact E|]. cbn. eauto.
    + destruct (makeOutLink_ok _ _ _ _ _ _ _ _ s d e l w b Hm Hcalls) as (nw2 & a2 & o & E & Hm' & Hs'). eexists. split; [exact E|]. cbn. eauto.
    + destruct (makeInternalLink_ok _ _ _ _ _ _ _ _ s d e l w b Hm Hcalls) as (nw2 & a2 & x & o & E & Hm' & Hs'). eexists. split; [exact E|]. cbn. eauto 6.
  - rewrite take_ge in Hm by done. by exists nw', a', I, O.
Qed.
End build.

(** ** What the calls of a topology promise *)

Section topology.
Variable counts : list Z.
Hypothesis Hcounts : counts_ok counts.
Variable g_endpoint_bandwidth : Z.

(** A topology a network can be built from: one link into the network and one
    out of it per component, delays and bandwidths positive. *)
Record network_topology (t : Topology) : Prop := {
  nt_links : links_ok counts t;
  nt_switches : ∀ l, l ∈ m_links t → (l_src l < 2 * Topology.m_nodes t + m_number_of_switches t)%nat ∧
    (l_dest l < 2 * Topology.m_nodes t + m_number_of_switches t)%nat;
  nt_latency : ∀ l, l ∈ m_links t → 1 ≤ l_latency l;
  nt_bandwidth : ∀ l, l ∈ m_links t → 0 < l_bw l ∧ 0 < g_endpoint_bandwidth * l_bw l < 2 ^ 31;
  nt_in : ∀ l l', l ∈ m_links t → l' ∈ m_links t → l_src l = l_src l' → (l_src l < Topology.m_nodes t)%nat → l = l';
  nt_out : ∀ l l', l ∈ m_links t → l' ∈ m_links t → l_dest l = l_dest l' → (l_dest l < 2 * Topology.m_nodes t)%nat → l = l'
}.

Variables (t : Topology) (W D : Matrix) (calls : list link_call).
Hypotheses (Ht : network_topology t) (Hro : routes_of counts t W D calls).
Let N := length (machines counts).
Let n := m_number_of_switches t.

Lemma nodes_machines : Topology.m_nodes t = N.
Proof. apply (lk_nodes _ _ (nt_links _ Ht)). Qed.

(** The link a call comes from. *)
Lemma call_link c : c ∈ calls → ∃ l, l ∈ m_links t ∧ (hop t c).1 = (l_src l, l_dest l) ∧
  call_latency c = l_latency l ∧ call_bw c = l_bw l ∧
  match c with
  | InLink s d _ _ _ => (s < N ∧ d < n)%nat
  | OutLink s d _ _ _ _ => (s < n ∧ d < N)%nat
  | InternalLink s d _ _ _ _ => (s < n ∧ d < n)%nat
  end.
Proof.
  intros Hc. destruct (ro_link _ _ _ _ _ Hro c Hc) as (l & e & Hl & Em). exists l. split; [done|].
  destruct (lk_ends _ _ (nt_links _ Ht) l Hl) as [_ Hends]. destruct (nt_switches _ Ht l Hl) as [Hs Hd]. fold n in Hs, Hd.
  pose proof nodes_machines as EN. unfold makeLink in Em.
  apply bind_ret_inv in Em as (_ & _ & Em). destruct (Nat.ltb_spec (l_src l) (Topology.m_nodes t)) as [H1|H1].
  - injection Em as <-. cbn. split_and!; [f_equal; lia|done|done|lia|lia].
  - destruct (Nat.ltb_spec (l_dest l) (2 * Topology.m_nodes t)) as [H2|H2]; apply bind_ret_inv in Em as (_ & _ & Em);
      injection Em as <-; cbn; (split_and!; [f_equal; lia|done|done|lia|lia]).
Qed.

Lemma call_hop c : hop t c = ((hop t c).1, call_entry c).
Proof. by destruct c. Qed.

(** Different calls belong to different links. *)
Lemma call_key j k c c' : calls !! j = Some c → calls !! k = Some c' → (hop t c).1 = (hop t c').1 → j = k.
Proof.
  intros Hj Hk E. eapply (NoDup_lookup _ j k (hop t c).1); [apply (ro_once _ _ _ _ _ Hro)|by rewrite list_lookup_fmap, Hj|].
  rewrite list_lookup_fmap, Hk. cbn. by rewrite E.
Qed.

Lemma calls_ok k c : calls !! k = Some c → call_ok N n (take k calls) c.
Proof.
  intros Hk. pose proof (list_elem_of_lookup_2 _ _ _ Hk) as Hc. destruct (call_link c Hc) as (l & Hl & Eh & _ & Eb & Hr).
  destruct (nt_bandwidth _ Ht l Hl) as [Hbw _]. pose proof nodes_machines as EN.
  destruct c as [s d e y b|s d e y w b|s d e y w b]; cbn in *; [| |split_and!; lia].
  - split; [lia|]. split; [lia|]. intros d' e' y' b' (j & Hj & Hlt)%elem_of_take.
    destruct (call_link _ (list_elem_of_lookup_2 _ _ _ Hj)) as (l' & Hl' & Eh' & _). cbn in Eh'.
    assert (l = l') as ->; [apply (nt_in _ Ht); try done; [congruence|]; injection Eh as <- _; lia|].
    assert (j = k); [|lia]. eapply call_key; [exact Hj|exact Hk|]. cbn. congruence.
  - split; [lia|]. split; [lia|]. split; [lia|]. intros s' e' y' w' b' (j & Hj & Hlt)%elem_of_take.
    destruct (call_link _ (list_elem_of_lookup_2 _ _ _ Hj)) as (l' & Hl' & Eh' & _). cbn in Eh'.
    assert (l = l') as ->; [apply (nt_out _ Ht); try done; [congruence|]; injection Eh as _ <-; lia|].
    assert (j = k); [|lia]. eapply call_key; [exact Hj|exact Hk|]. cbn. congruence.
Qed.

(** Every component a routing entry can hold has a number. *)
Lemma valid_machine m : valid counts m → ∃ d, machines counts !! d = Some m.
Proof.
  intros (c & Hc & Hm). apply list_elem_of_lookup. unfold machines. apply elem_of_concat. exists (pair m.1 <$> seqZ 0 c). split.
  - apply list_elem_of_lookup. exists m.1. by rewrite list_lookup_imap, Hc.
  - apply list_elem_of_fmap. exists m.2. split; [by destruct m|]. apply elem_of_seqZ. lia.
Qed.

Lemma call_entry_ok c : c ∈ calls → NetDest.dest_ok counts (call_entry c).
Proof.
  intros Hc. assert (Hh : ((hop t c).1.1, (hop t c).1.2, call_entry c) ∈ hop t <$> calls).
  { apply list_elem_of_fmap. exists c. split; [|done]. by destruct c. }
  apply (ro_calls _ _ _ _ _ Hro) in Hh as (l & Hl & E1 & E2 & Ee). rewrite E1, E2 in Ee.
  destruct (max_switch_id_ge t l Hl) as [H1 H2]. pose proof (nt_links _ Ht) as Hlk.
  destruct (route_ranges counts t W D calls 0%nat Hro) as (QW & QD & Hr & _).
  destruct (entry_spec counts Hcounts _ W D (l_src l) (l_dest l) QW QD) as (e' & E' & He & _); [lia|lia| | |].
  - rewrite <- (lk_nodes _ t Hlk). apply (lk_out _ t Hlk).
  - intros i j Hi Hj. destruct (Hr i j Hi Hj). lia.
  - rewrite E' in Ee. by injection Ee as ->.
Qed.

(** A message on a link finds a further link at the next switch. *)
Lemma leads_on s d e y w b m : InternalLink s d e y w b ∈ calls → m ∈ dests e →
  ∃ c, c ∈ calls ∧ call_src c = d ∧ m ∈ dests (call_entry c) ∧ match c with InLink _ _ _ _ _ => False | _ => True end.
Proof.
  intros Hc Hm. destruct (valid_machine m) as [k Hk]; [eapply dests_valid; [|exact Hm]; by apply (call_entry_ok _ Hc)|].
  pose proof (nt_links _ Ht) as Hlk. pose proof nodes_machines as EN.
  assert (Hh : (s + 2 * Topology.m_nodes t, d + 2 * Topology.m_nodes t, e)%nat ∈ hop t <$> calls) by (apply list_elem_of_fmap; by eexists; split; [|exact Hc]).
  destruct (hop_progress counts Hcounts t W D calls k m Hlk Hro Hk _ _ _ Hh) as (H1 & H2 & H3 & H4). apply H4 in Hm.
  destruct (route_ranges counts t W D calls 0%nat Hro) as (_ & _ & Hr & _).
  pose proof (final_lt counts t k m Hlk Hk) as Hf. pose proof (lookup_lt_Some _ _ _ Hk) as Hkl.
  destruct (hop_exists counts Hcounts t W D calls k m Hlk Hro Hk (d + 2 * Topology.m_nodes t)) as (next & e' & Hh' & Hm').
  { done. } { lia. } { destruct (Hr _ _ H1 Hf). unfold INFINITE_LATENCY. lia. }
  apply list_elem_of_fmap in Hh' as (c & Ec & Hc'). exists c. split; [done|].
  destruct (call_link c Hc') as (l & Hl & _ & _ & _ & Hrange).
  destruct c as [s' d' e'' y' b'|s' d' e'' y' w' b'|s' d' e'' y' w' b']; cbn in *; injection Ec as E1 E2 E3; subst; split_and!; (done || lia).
Qed.

(** The link out of the network carries messages for its component only. *)
Lemma out_entry s d e y w b m : OutLink s d e y w b ∈ calls → m ∈ dests e → machines counts !! d = Some m.
Proof.
  intros Hc Hm. destruct (valid_machine m) as [k Hk]; [eapply dests_valid; [|exact Hm]; by apply (call_entry_ok _ Hc)|].
  pose proof (nt_links _ Ht) as Hlk. pose proof nodes_machines as EN. destruct (decide (k = d)) as [->|Hne]; [done|]. exfalso.
  assert (Hh : (s + 2 * Topology.m_nodes t, d + Topology.m_nodes t, e)%nat ∈ hop t <$> calls) by (apply list_elem_of_fmap; by eexists; split; [|exact Hc]).
  destruct (hop_progress counts Hcounts t W D calls k m Hlk Hro Hk _ _ _ Hh) as (H1 & H2 & H3 & H4). apply H4 in Hm.
  destruct (route_ranges counts t W D calls 0%nat Hro) as (_ & _ & Hr & _). pose proof (final_lt counts t k m Hlk Hk) as Hf.
  destruct (call_link _ Hc) as (_ & _ & _ & _ & _ & Hrange). cbn in Hrange.
  destruct (hop_exists counts Hcounts t W D calls k m Hlk Hro Hk (d + Topology.m_nodes t)) as (next & e' & Hh' & _).
  { done. } { lia. } { destruct (Hr _ _ H1 Hf). unfold INFINITE_LATENCY. lia. }
  apply list_elem_of_fmap in Hh' as (c & Ec & Hc'). destruct (call_link c Hc') as (l & Hl & Eh & _). 
  destruct (lk_ends _ _ Hlk l Hl) as [_ Hends]. rewrite <- Ec in Eh. cbn in Eh. injection Eh as E1 E2. lia.
Qed.
End topology.
