(* ===== verification/NetworkDelivery.v ===== *)
(** * The network delivers

    The network [SimpleNetwork] builds satisfies the invariant of [NetworkStep],
    so whatever the order of sends, wakeups, ticks and receipts: nothing fails,
    every delivery is in exactly one place, only the component it is meant for
    can receive it, and when no switch or throttle will be woken again, all that
    was sent waits at its destination. *)

From stdpp Require Import gmap sets list numbers.
From S2P Require Import Prelude NodeSet NetDest PrioHeap EventQueue MessageBuffer NetStore PerfectSwitch SwitchWakeup Throttle ThrottleWakeup Topology Switch SimpleNetwork NetworkStep NetworkBuild.
Local Open Scope Z_scope.

(** In a concatenation without repetitions the origin of an element is unique. *)
Lemma bind_unique {A} (f : A → list nat) l x y i : NoDup (l ≫= f) → x ∈ l → y ∈ l → i ∈ f x → i ∈ f y → x = y.
Proof.
  induction l as [|z l IH]; [by intros _ ?%not_elem_of_nil|]. cbn [mbind list_bind]. intros (H1 & H2 & H3)%NoDup_app Hx Hy Hix Hiy.
  assert (Hl : ∀ w, w ∈ l → i ∈ f w → i ∈ l ≫= f) by (intros w Hw Hi; apply list_elem_of_bind; by exists w).
  apply elem_of_cons in Hx as [->|Hx]; apply elem_of_cons in Hy as [->|Hy]; [done| | |by apply IH].
  - by destruct (H2 i Hix (Hl y Hy Hiy)).
  - by destruct (H2 i Hiy (Hl x Hx Hix)).
Qed.

Lemma NoDup_bind_filter {A} (P : A → Prop) `{!∀ x, Decision (P x)} (f : A → list nat) l :
  NoDup (l ≫= f) → NoDup (concat (f <$> filter P l)).
Proof.
  induction l as [|x l IH]; [done|]. cbn [mbind list_bind]. intros (H1 & H2 & H3)%NoDup_app. rewrite filter_cons. case_decide; [|by apply IH].
  cbn. apply NoDup_app. split; [done|]. split; [|by apply IH]. intros i Hi (q & (y & -> & [_ Hy]%list_elem_of_filter)%list_elem_of_fmap & Hq)%elem_of_concat.
  apply (H2 i Hi), list_elem_of_bind. by exists y.
Qed.

Lemma elem_concat_map {A} (f : A → list nat) l i : i ∈ concat (f <$> l) ↔ ∃ x, x ∈ l ∧ i ∈ f x.
Proof.
  rewrite elem_of_concat. split; [intros (q & (x & -> & Hx)%list_elem_of_fmap & Hi); by exists x|].
  intros (x & Hx & Hi). exists (f x). split; [apply list_elem_of_fmap; by exists x|done].
Qed.

Section wiring.
Context {W0 B : Type}.
Variables (RANDOMIZATION : bool) (V : nat) (g_endpoint_bandwidth : Z).
Variable counts : list Z.
Hypothesis Hcounts : counts_ok counts.
Variables (t : Topology) (W D : Matrix) (calls : list link_call).
Hypotheses (Ht : network_topology counts g_endpoint_bandwidth t) (Hro : routes_of counts t W D calls).
Let N := length (machines counts).
Let n := m_number_of_switches t.
Variables (st0 : netstate W0 B) (nw : SimpleNetwork) (a : arena W0 B) (I : list inport) (O : list outport).
Hypothesis Hmade : made V N n st0 nw a calls I O.

Notation ids := (seq 0 (next_buf a)).

(** What the links from a switch can carry. *)
Definition carries (s : nat) : gset (nat * Z) := ⋃ ((λ o, dests (call_entry (op_call o))) <$> outs_of s O).

Definition in_set (x : inport) : gset (nat * Z) :=
  match ip_call x with InLink _ d _ _ _ => carries d | c => dests (call_entry c) end.

(** The destinations of the messages in a buffer. *)
Definition allow (i : nat) : gset (nat * Z) :=
  ⋃ ((λ x, if decide (i ∈ ip_line x) then in_set x else ∅) <$> I) ∪
  ⋃ ((λ o, if decide (i ∈ op_mid o ++ op_line o) then dests (call_entry (op_call o)) else ∅) <$> O).

Lemma elem_carries m s : m ∈ carries s ↔ ∃ o, o ∈ O ∧ call_src (op_call o) = s ∧ m ∈ dests (call_entry (op_call o)).
Proof.
  unfold carries. rewrite elem_of_union_list. split.
  - intros (X & (o & -> & [Ho1 Ho2]%elem_outs_of)%list_elem_of_fmap & Hm). by exists o.
  - intros (o & Ho & Es & Hm). eexists. split; [|exact Hm]. apply list_elem_of_fmap. exists o. split; [done|]. by apply elem_outs_of.
Qed.

Lemma elem_allow m i : m ∈ allow i ↔ (∃ x, x ∈ I ∧ i ∈ ip_line x ∧ m ∈ in_set x) ∨
  ∃ o, o ∈ O ∧ i ∈ op_mid o ++ op_line o ∧ m ∈ dests (call_entry (op_call o)).
Proof.
  unfold allow. rewrite elem_of_union, !elem_of_union_list. split.
  - intros [(X & (x & -> & Hx)%list_elem_of_fmap & Hm)|(X & (o & -> & Ho)%list_elem_of_fmap & Hm)];
      (case_decide; [|by apply not_elem_of_empty in Hm]); [left; by exists x|right; by exists o].
  - intros [(x & Hx & Hi & Hm)|(o & Ho & Hi & Hm)]; [left|right];
      (eexists; split; [apply list_elem_of_fmap; eexists; split; [reflexivity|done]|]); by rewrite decide_True.
Qed.

(** *** Every buffer has one place *)

Lemma in_not_mid x o i : x ∈ I → o ∈ O → i ∈ ip_line x → i ∉ op_mid o.
Proof.
  intros Hx Ho Hi Hi'. pose proof (md_built _ _ _ _ _ _ _ _ _ Hmade) as Hb.
  pose proof (bt_dst _ _ _ _ _ _ _ Hb x Hx). pose proof (bt_names _ _ _ _ _ _ _ Hb o Ho).
  destruct (unused_inj _ _ _ _ _ (bt_inbufs _ _ _ _ _ _ _ Hb x i Hx Hi) (bt_midbufs _ _ _ _ _ _ _ Hb o i Ho Hi')) as [[= E] _]. lia.
Qed.

Lemma mid_not_line o o' i : o ∈ O → o' ∈ O → i ∈ op_mid o → i ∉ op_line o'.
Proof.
  intros Ho Ho' Hi Hi'. pose proof (md_built _ _ _ _ _ _ _ _ _ Hmade) as Hb. destruct (mt_out _ _ _ _ (md_matched _ _ _ _ _ _ _ _ _ Hmade) o' Ho') as [_ Hm].
  destruct (op_call o'); [done| |].
  - destruct (decide (i ∈ I ≫= ip_line)) as [(x & Hix & Hx)%list_elem_of_bind|Hn]; [by apply (in_not_mid x o i)|].
    assert (Hq : i ∈ queues nw) by (eapply queue_elem; [by right|done]).
    by destruct (unused_inj _ _ _ _ _ (bt_queues _ _ _ _ _ _ _ Hb i Hq Hn) (bt_midbufs _ _ _ _ _ _ _ Hb o i Ho Hi)).
  - destruct Hm as (x & Hx & _ & El). apply (in_not_mid x o i); [done..|by rewrite El|done].
Qed.

(** The two ends of a link. *)
Lemma line_call x o i : x ∈ I → o ∈ O → i ∈ ip_line x → i ∈ op_line o → op_call o = ip_call x.
Proof.
  intros Hx Ho Hi Hi'. pose proof (md_built _ _ _ _ _ _ _ _ _ Hmade) as Hb. pose proof (md_queues _ _ _ _ _ _ _ _ _ Hmade) as Hq.
  destruct (mt_out _ _ _ _ (md_matched _ _ _ _ _ _ _ _ _ Hmade) o Ho) as [_ Hm].
  destruct (mt_in _ _ _ _ (md_matched _ _ _ _ _ _ _ _ _ Hmade) x Hx) as [_ Hm'].
  destruct (op_call o) eqn:Eo; [done| |].
  - destruct (ip_call x) eqn:Ex; [|done|].
    + by destruct (to_from_disjoint V _ _ _ _ _ _ i Hq Hm' Hm Hi).
    + destruct Hm' as [_ Hm']. destruct (Hm' i Hi). eapply queue_elem; [by right|done].
  - destruct Hm as (x' & Hx' & <- & El). f_equal. apply (bind_unique ip_line I x' x i); [apply Hb|done..|by rewrite El|done].
Qed.

Lemma allow_mid o i : o ∈ O → i ∈ op_mid o → allow i ⊆ dests (call_entry (op_call o)).
Proof.
  intros Ho Hi m [(x & Hx & Hix & _)|(o' & Ho' & [Hi'|Hi']%elem_of_app & Hm)]%elem_allow.
  - by destruct (in_not_mid x o i).
  - assert (o' = o) as ->; [|done]. apply (bind_unique op_mid O o' o i); try done. apply (bt_mids _ _ _ _ _ _ _ (md_built _ _ _ _ _ _ _ _ _ Hmade)).
  - by destruct (mid_not_line o o' i).
Qed.

Lemma allow_out o i : o ∈ O → i ∈ op_mid o ++ op_line o → dests (call_entry (op_call o)) ⊆ allow i.
Proof. intros Ho Hi m Hm. apply elem_allow. right. by exists o. Qed.

Lemma allow_line o i : o ∈ O → i ∈ op_line o → allow i ⊆ dests (call_entry (op_call o)).
Proof.
  intros Ho Hi m [(x & Hx & Hix & Hm)|(o' & Ho' & [Hi'|Hi']%elem_of_app & Hm)]%elem_allow.
  - pose proof (line_call x o i Hx Ho Hix Hi) as Ec. unfold in_set in Hm. rewrite Ec.
    destruct (mt_out _ _ _ _ (md_matched _ _ _ _ _ _ _ _ _ Hmade) o Ho) as [_ Hk]. rewrite Ec in Hk. by destruct (ip_call x).
  - by destruct (mid_not_line o' o i).
  - assert (o' = o) as ->; [|done]. apply (bind_unique op_line O o' o i); try done. apply (bt_outs _ _ _ _ _ _ _ (md_built _ _ _ _ _ _ _ _ _ Hmade)).
Qed.

Lemma allow_in x i : x ∈ I → i ∈ ip_line x → allow i ⊆ carries (call_dst (ip_call x)).
Proof.
  intros Hx Hi m Hm. assert (Hset : m ∈ in_set x).
  { apply elem_allow in Hm as [(x' & Hx' & Hi' & Hm)|(o & Ho & [Hi'|Hi']%elem_of_app & Hm)].
    - assert (x' = x) as ->; [|done]. apply (bind_unique ip_line I x' x i); try done. apply (bt_ins _ _ _ _ _ _ _ (md_built _ _ _ _ _ _ _ _ _ Hmade)).
    - by destruct (in_not_mid x o i).
    - pose proof (line_call x o i Hx Ho Hi Hi') as Ec. rewrite Ec in Hm. unfold in_set.
      destruct (mt_out _ _ _ _ (md_matched _ _ _ _ _ _ _ _ _ Hmade) o Ho) as [_ Hk]. rewrite Ec in Hk. by destruct (ip_call x). }
  unfold in_set in Hset. destruct (mt_in _ _ _ _ (md_matched _ _ _ _ _ _ _ _ _ Hmade) x Hx) as [Hc Hk].
  destruct (ip_call x) as [s d e l b| |s d e l w b] eqn:Ex; [done|done|].
  destruct (leads_on counts Hcounts g_endpoint_bandwidth t W D calls Ht Hro s d e l w b m Hc Hset) as (c & Hc' & Es & Hmc & Hnot).
  pose proof (mt_all _ _ _ _ (md_matched _ _ _ _ _ _ _ _ _ Hmade) c Hc') as Hall. apply elem_carries.
  destruct c; [done| |]; destruct Hall as (o & Ho & Eo); exists o; by rewrite Eo.
Qed.

(** *** The components *)

Lemma switch_found c sw : objs a !! c = Some (Perfect sw) → (c < n)%nat ∧ switch_at I O c sw.
Proof.
  intros Hc. pose proof (md_built _ _ _ _ _ _ _ _ _ Hmade) as Hb. destruct (bt_objs _ _ _ _ _ _ _ Hb c _ Hc) as [Hlt|(o & Ho & ->)].
  - split; [done|]. destruct (lookup_lt_is_Some_2 (m_switch_ptr_vector nw) c) as [S HS]; [by rewrite (bt_vector _ _ _ _ _ _ _ Hb)|].
    destruct (bt_switch _ _ _ _ _ _ _ Hb c S HS) as (_ & sw' & Hsw & Hat). rewrite Hc in Hsw. by injection Hsw as ->.
  - destruct (bt_throttle _ _ _ _ _ _ _ Hb o Ho) as (th & Hth & _). congruence.
Qed.

Lemma throttle_found c th : objs a !! c = Some (Throttled th) →
  ∃ o, o ∈ O ∧ c = op_th o ∧ idle c (op_mid o) (op_line o) (call_latency (op_call o)) (call_bw (op_call o)) th.
Proof.
  intros Hc. pose proof (md_built _ _ _ _ _ _ _ _ _ Hmade) as Hb. destruct (bt_objs _ _ _ _ _ _ _ Hb c _ Hc) as [Hlt|(o & Ho & ->)].
  - destruct (lookup_lt_is_Some_2 (m_switch_ptr_vector nw) c) as [S HS]; [by rewrite (bt_vector _ _ _ _ _ _ _ Hb)|].
    destruct (bt_switch _ _ _ _ _ _ _ Hb c S HS) as (_ & sw' & Hsw & Hat). congruence.
  - exists o. split; [done|]. split; [done|]. destruct (bt_throttle _ _ _ _ _ _ _ Hb o Ho) as (th' & Hth & Hi). rewrite Hc in Hth. by injection Hth as ->.
Qed.

Lemma switch_inputs c sw i : objs a !! c = Some (Perfect sw) → i ∈ ins sw ↔ ∃ x, x ∈ I ∧ call_dst (ip_call x) = c ∧ i ∈ ip_line x.
Proof.
  intros [_ [_ E _ _ _ _]]%switch_found. unfold ins. rewrite E, elem_concat_map. split.
  - intros (x & [H1 H2]%elem_ins_of & Hi). by exists x.
  - intros (x & Hx & Ec & Hi). exists x. split; [by apply elem_ins_of|done].
Qed.

Lemma switch_outputs c sw i : objs a !! c = Some (Perfect sw) → i ∈ outs sw ↔ ∃ o, o ∈ O ∧ call_src (op_call o) = c ∧ i ∈ op_mid o.
Proof.
  intros [_ [_ _ E _ _ _]]%switch_found. unfold outs. rewrite E, elem_concat_map. split.
  - intros (x & [H1 H2]%elem_outs_of & Hi). by exists x.
  - intros (x & Hx & Ec & Hi). exists x. split; [by apply elem_outs_of|done].
Qed.

Lemma switch_reach c sw : objs a !! c = Some (Perfect sw) → reachable sw = carries c.
Proof.
  intros [_ [_ _ _ E _ _]]%switch_found. unfold reachable, carries. rewrite E. f_equal. by rewrite <- list_fmap_compose.
Qed.

Lemma used_id i : i ∈ (I ≫= ip_line) ++ (O ≫= op_mid) ++ (O ≫= op_line) ++ queues nw → i ∈ ids.
Proof. intros Hi. apply elem_of_seq. pose proof (bt_used _ _ _ _ _ _ _ (md_built _ _ _ _ _ _ _ _ _ Hmade) i Hi). lia. Qed.

Lemma line_used x i : x ∈ I → i ∈ ip_line x → i ∈ ids.
Proof. intros Hx Hi. apply used_id. rewrite !elem_of_app. left. apply list_elem_of_bind. by exists x. Qed.
Lemma mid_used o i : o ∈ O → i ∈ op_mid o → i ∈ ids.
Proof. intros Ho Hi. apply used_id. rewrite !elem_of_app. right; left. apply list_elem_of_bind. by exists o. Qed.
Lemma out_used o i : o ∈ O → i ∈ op_line o → i ∈ ids.
Proof. intros Ho Hi. apply used_id. rewrite !elem_of_app. right; right; left. apply list_elem_of_bind. by exists o. Qed.

Lemma made_switch c sw : objs a !! c = Some (Perfect sw) → switch_ok V counts ids sw.
Proof.
  intros Hc. destruct (switch_found c sw Hc) as [Hlt [S1 S2 S3 S4 S5 S6]]. pose proof (md_built _ _ _ _ _ _ _ _ _ Hmade) as Hb.
  destruct (bt_widths _ _ _ _ _ _ _ Hb) as [Hwi Hwo]. split.
  - split; [by rewrite S5, S4, length_fmap|]. rewrite S4. intros e (o & -> & [_ Ho]%elem_outs_of)%list_elem_of_fmap.
    apply (call_entry_ok counts Hcounts g_endpoint_bandwidth t W D calls Ht Hro), (mt_out _ _ _ _ (md_matched _ _ _ _ _ _ _ _ _ Hmade) o Ho).
  - by rewrite S3, S4, !length_fmap.
  - rewrite S2. intros p (x & -> & [_ Hx]%elem_ins_of)%list_elem_of_fmap. by apply Hwi.
  - rewrite S3. intros p (o & -> & [_ Ho]%elem_outs_of)%list_elem_of_fmap. by apply Hwo.
  - apply NoDup_app. split; [|split].
    + unfold ins. rewrite S2. apply NoDup_bind_filter, (bt_ins _ _ _ _ _ _ _ Hb).
    + intros i (x & Hx & _ & Hi)%(switch_inputs c sw i Hc) (o & Ho & _ & Hi')%(switch_outputs c sw i Hc). by apply (in_not_mid x o i).
    + unfold outs. rewrite S3. apply NoDup_bind_filter, (bt_mids _ _ _ _ _ _ _ Hb).
  - intros i [Hi|Hi]%elem_of_app.
    + apply (switch_inputs c sw i Hc) in Hi as (x & Hx & _ & Hi). by eapply line_used.
    + apply (switch_outputs c sw i Hc) in Hi as (o & Ho & _ & Hi). by eapply mid_used.
  - rewrite S6. split; [done|]. intros Hne. destruct (PerfectSwitch.m_in sw); [done|cbn; lia].
Qed.

Lemma made_throttle c th : objs a !! c = Some (Throttled th) → throttle_ok g_endpoint_bandwidth ids th.
Proof.
  intros Hc. destruct (throttle_found c th Hc) as (o & Ho & -> & Hid). pose proof (md_built _ _ _ _ _ _ _ _ _ Hmade) as Hb.
  destruct (bt_widths _ _ _ _ _ _ _ Hb) as [_ Hwo]. destruct (Hwo o Ho) as [W1 W2].
  destruct (mt_out _ _ _ _ (md_matched _ _ _ _ _ _ _ _ _ Hmade) o Ho) as [Hcall _].
  destruct (call_link counts g_endpoint_bandwidth t W D calls Ht Hro _ Hcall) as (l & Hl & _ & El & Eb & _).
  eapply idle_ok; [exact Hid|lia| | |rewrite El; pose proof (nt_latency _ _ _ Ht l Hl); lia|rewrite Eb; apply (nt_bandwidth _ _ _ Ht l Hl)].
  - apply NoDup_app. split; [|split].
    + pose proof (bt_mids _ _ _ _ _ _ _ Hb) as Hnd. apply list_elem_of_split in Ho as (l1 & l2 & ->).
      rewrite bind_app in Hnd. apply NoDup_app in Hnd as (_ & _ & Hnd). cbn in Hnd. by apply NoDup_app in Hnd as (? & _).
    + intros i Hi. by apply (mid_not_line o o).
    + pose proof (bt_outs _ _ _ _ _ _ _ Hb) as Hnd. apply list_elem_of_split in Ho as (l1 & l2 & ->).
      rewrite bind_app in Hnd. apply NoDup_app in Hnd as (_ & _ & Hnd). cbn in Hnd. by apply NoDup_app in Hnd as (? & _).
  - intros i [Hi|Hi]%elem_of_app; [by eapply mid_used|by eapply out_used].
Qed.

Lemma made_component c x : objs a !! c = Some x → component_ok V g_endpoint_bandwidth counts ids allow x ∧ this x = c.
Proof.
  intros Hc. destruct x as [sw|th].
  - destruct (switch_found c sw Hc) as [Hlt [S1 S2 S3 S4 S5 S6]]. split; [|done]. split; [by apply (made_switch c)|]. split.
    + intros i (x & Hx & Ec & Hi)%(switch_inputs c sw i Hc). rewrite (switch_reach c sw Hc), <- Ec. by apply allow_in.
    + intros link vnet o entry (port & Hp%at_idx_ret & Hv%at_idx_ret)%bind_ret_inv He.
      rewrite S3, list_lookup_fmap in Hp. rewrite S4, list_lookup_fmap in He. destruct (outs_of c O !! link) as [op|] eqn:Eo; [|done].
      cbn in Hp, He. injection Hp as <-. injection He as <-. apply list_elem_of_lookup_2, elem_outs_of in Eo as [_ Ho].
      apply allow_out; [done|]. apply elem_of_app. left. by eapply list_elem_of_lookup_2.
  - destruct (throttle_found c th Hc) as (o & Ho & -> & Hid). split; [|apply Hid]. split; [by apply (made_throttle (op_th o))|].
    intros k i j Hi Hj. rewrite (id_in _ _ _ _ _ _ Hid) in Hi. rewrite (id_out _ _ _ _ _ _ Hid) in Hj.
    etrans; [apply (allow_mid o); [done|by eapply list_elem_of_lookup_2]|]. apply allow_out; [done|]. apply elem_of_app. right. by eapply list_elem_of_lookup_2.
Qed.

Lemma made_wired : wired V g_endpoint_bandwidth counts ids allow (objs a).
Proof.
  pose proof (md_built _ _ _ _ _ _ _ _ _ Hmade) as Hb. split.
  - apply made_component.
  - intros c d [sw|th] [sw'|th'] i Hc Hd Hi Hi'; cbn in Hi, Hi'.
    + apply (switch_inputs c sw i Hc) in Hi as (x & Hx & <- & Hi). apply (switch_inputs d sw' i Hd) in Hi' as (x' & Hx' & <- & Hi').
      by rewrite (bind_unique ip_line I x x' i (bt_ins _ _ _ _ _ _ _ Hb)).
    + apply (switch_inputs c sw i Hc) in Hi as (x & Hx & <- & Hi). destruct (throttle_found d th' Hd) as (o & Ho & -> & Hid).
      rewrite (id_in _ _ _ _ _ _ Hid) in Hi'. by destruct (in_not_mid x o i).
    + apply (switch_inputs d sw' i Hd) in Hi' as (x & Hx & <- & Hi'). destruct (throttle_found c th Hc) as (o & Ho & -> & Hid).
      rewrite (id_in _ _ _ _ _ _ Hid) in Hi. by destruct (in_not_mid x o i).
    + destruct (throttle_found c th Hc) as (o & Ho & -> & Hid). destruct (throttle_found d th' Hd) as (o' & Ho' & -> & Hid').
      rewrite (id_in _ _ _ _ _ _ Hid) in Hi. rewrite (id_in _ _ _ _ _ _ Hid') in Hi'. by rewrite (bind_unique op_mid O o o' i (bt_mids _ _ _ _ _ _ _ Hb)).
  - intros c d [sw|th] [sw'|th'] i Hc Hd Hi Hi'; cbn in Hi, Hi'.
    + apply (switch_outputs c sw i Hc) in Hi as (x & Hx & <- & Hi). apply (switch_outputs d sw' i Hd) in Hi' as (x' & Hx' & <- & Hi').
      by rewrite (bind_unique op_mid O x x' i (bt_mids _ _ _ _ _ _ _ Hb)).
    + apply (switch_outputs c sw i Hc) in Hi as (x & Hx & <- & Hi). destruct (throttle_found d th' Hd) as (o & Ho & -> & Hid).
      rewrite (id_out _ _ _ _ _ _ Hid) in Hi'. by destruct (mid_not_line x o i).
    + apply (switch_outputs d sw' i Hd) in Hi' as (x & Hx & <- & Hi'). destruct (throttle_found c th Hc) as (o & Ho & -> & Hid).
      rewrite (id_out _ _ _ _ _ _ Hid) in Hi. by destruct (mid_not_line x o i).
    + destruct (throttle_found c th Hc) as (o & Ho & -> & Hid). destruct (throttle_found d th' Hd) as (o' & Ho' & -> & Hid').
      rewrite (id_out _ _ _ _ _ _ Hid) in Hi. rewrite (id_out _ _ _ _ _ _ Hid') in Hi'. by rewrite (bind_unique op_line O o o' i (bt_outs _ _ _ _ _ _ _ Hb)).
  - intros c [sw|th] i Hc Hi Hno; [|set_solver]. cbn in *. apply (switch_inputs c sw i Hc) in Hi as (x & Hx & Ec & Hi).
    rewrite (switch_reach c sw Hc). intros m Hm. apply elem_allow. left. exists x. split; [done|]. split; [done|]. unfold in_set.
    destruct (mt_in _ _ _ _ (md_matched _ _ _ _ _ _ _ _ _ Hmade) x Hx) as [_ Hk]. destruct (ip_call x); [by cbn in Ec; subst|done|].
    destruct Hk as [(o & Ho & _ & El) _]. destruct (bt_throttle _ _ _ _ _ _ _ Hb o Ho) as (th & Hth & Hid).
    destruct (Hno (op_th o) (Throttled th) Hth). cbn. by rewrite (id_out _ _ _ _ _ _ Hid), El.
Qed.

(** *** The components of the system connect to their queues *)

(** They set the ordering of the queues, and the consumers of those out of the
    network. *)
Record connected (a' : arena W0 B) : Prop := {
  cn_objs : objs a' = objs a;
  cn_next : next_buf a' = next_buf a;
  cn_net : only_bufs (net a) (net a');
  cn_to : ∀ i, i ∈ concat (m_toNetQueues nw) → ∃ ordered, bufs (net a') i = setOrdering ordered (bufs (net a) i);
  cn_from : ∀ i, i ∈ concat (m_fromNetQueues nw) →
    ∃ ordered c, objs a !! c = None ∧ setConsumer c (setOrdering ordered (bufs (net a) i)) = Ret (bufs (net a') i);
  cn_else : ∀ i, i ∉ queues nw → bufs (net a') i = bufs (net a) i
}.

Variable a' : arena W0 B.
Hypothesis Hcon : connected a'.

Lemma mid_not_queue o i : o ∈ O → i ∈ op_mid o → i ∉ queues nw.
Proof.
  intros Ho Hi Hq. pose proof (md_built _ _ _ _ _ _ _ _ _ Hmade) as Hb.
  destruct (decide (i ∈ I ≫= ip_line)) as [(x & Hix & Hx)%list_elem_of_bind|Hn]; [by apply (in_not_mid x o i)|].
  by destruct (unused_inj _ _ _ _ _ (bt_queues _ _ _ _ _ _ _ Hb i Hq Hn) (bt_midbufs _ _ _ _ _ _ _ Hb o i Ho Hi)).
Qed.

Lemma connected_line x i : x ∈ I → i ∈ ip_line x → ∃ ordered, unused (Some (call_dst (ip_call x))) ordered (bufs (net a') i).
Proof.
  intros Hx Hi. pose proof (md_built _ _ _ _ _ _ _ _ _ Hmade) as Hb. pose proof (bt_inbufs _ _ _ _ _ _ _ Hb x i Hx Hi) as Hu.
  destruct (mt_in _ _ _ _ (md_matched _ _ _ _ _ _ _ _ _ Hmade) x Hx) as [_ Hk]. destruct (ip_call x); [|done|].
  - destruct (cn_to _ Hcon i) as [o ->]; [apply elem_of_concat; eexists; split; [by eapply list_elem_of_lookup_2|done]|].
    exists true. by eapply ordering_unused.
  - destruct Hk as [_ Hk]. rewrite (cn_else _ Hcon) by by apply Hk. eauto.
Qed.

Lemma connected_mid o i : o ∈ O → i ∈ op_mid o → unused (Some (op_th o)) true (bufs (net a') i).
Proof.
  intros Ho Hi. rewrite (cn_else _ Hcon) by by eapply mid_not_queue.
  by apply (bt_midbufs _ _ _ _ _ _ _ (md_built _ _ _ _ _ _ _ _ _ Hmade)).
Qed.

Lemma connected_from i : i ∈ concat (m_fromNetQueues nw) → ∃ c, objs a !! c = None ∧ unused (Some c) true (bufs (net a') i).
Proof.
  intros Hi. destruct (cn_from _ Hcon i Hi) as (o & c & Hc & E). exists c. split; [done|].
  pose proof (md_built _ _ _ _ _ _ _ _ _ Hmade) as Hb. assert (Hu : unused None false (bufs (net a) i)).
  { apply (bt_queues _ _ _ _ _ _ _ Hb); [apply elem_of_app; by right|]. intros (x & Hix & Hx)%list_elem_of_bind.
    pose proof (bt_inbufs _ _ _ _ _ _ _ Hb x i Hx Hix) as [E1 _ _ _]. unfold setConsumer in E. cbn in E. by rewrite E1 in E. }
  pose proof (ordering_unused _ _ o _ Hu) as Hu'. destruct (setConsumer_unused c _ _ Hu') as [E' Hu'']. rewrite E in E'. by injection E' as ->.
Qed.

Lemma connected_out o i : o ∈ O → i ∈ op_line o → ∃ c, unused (Some c) true (bufs (net a') i).
Proof.
  intros Ho Hi. pose proof (md_built _ _ _ _ _ _ _ _ _ Hmade) as Hb.
  destruct (mt_out _ _ _ _ (md_matched _ _ _ _ _ _ _ _ _ Hmade) o Ho) as [_ Hk]. destruct (op_call o) eqn:Eo; [done| |].
  - destruct (connected_from i) as (c & _ & Hu); [apply elem_of_concat; eexists; split; [by eapply list_elem_of_lookup_2|done]|]. by exists c.
  - destruct Hk as (x & Hx & Ex & El). rewrite <- El in Hi. pose proof (bt_inbufs _ _ _ _ _ _ _ Hb x i Hx Hi) as Hu. rewrite Ex in Hu.
    destruct (mt_in _ _ _ _ (md_matched _ _ _ _ _ _ _ _ _ Hmade) x Hx) as [_ Hk]. rewrite Ex in Hk. destruct Hk as [_ Hk].
    rewrite (cn_else _ Hcon) by by apply Hk. by eexists.
Qed.

Lemma connected_any i : i ∈ ids → ∃ c o, unused c o (bufs (net a') i).
Proof.
  intros Hi%elem_of_seq. pose proof (md_built _ _ _ _ _ _ _ _ _ Hmade) as Hb. destruct (bt_all _ _ _ _ _ _ _ Hb i) as (c & o & Hu); [lia|].
  destruct (decide (i ∈ concat (m_fromNetQueues nw))) as [Hf|Hf]; [destruct (connected_from i Hf) as (c' & _ & Hu'); eauto|].
  destruct (decide (i ∈ concat (m_toNetQueues nw))) as [Hto|Hto].
  - destruct (cn_to _ Hcon i Hto) as [o' ->]. eexists _, true. by eapply ordering_unused.
  - rewrite (cn_else _ Hcon); [eauto|]. by intros [?|?]%elem_of_app.
Qed.

Lemma connected_inv : events_ok (net_evq st0) → 0 ≤ now st0 → net_inv RANDOMIZATION V g_endpoint_bandwidth counts ids allow a' (λ _, []).
Proof.
  intros Hev Hnow. pose proof (md_built _ _ _ _ _ _ _ _ _ Hmade) as Hb.
  assert (Hnet : only_bufs st0 (net a')) by (eapply only_bufs_trans; [apply (bt_net _ _ _ _ _ _ _ Hb)|apply Hcon]).
  assert (En : now (net a') = now st0) by by apply only_bufs_now.
  assert (Ee : net_evq (net a') = net_evq st0) by by rewrite Hnet.
  exists []. split; [|by intros c x i k _ _ ?%not_elem_of_nil]. split.
  - rewrite (cn_objs _ Hcon). apply made_wired.
  - intros i Hi. by destruct (connected_any i Hi) as (c & o & [_ _ ? _]).
  - split; [by intros i k _ ?%not_elem_of_nil|]. assert (E : (ids ≫= λ i, mn_msgptr <$> ([] : list MessageBufferNode)) = []).
    { generalize ids. intros l. by induction l. }
    rewrite E. constructor.
  - by rewrite Ee.
  - by intros i k p _ ?%not_elem_of_nil.
  - rewrite (cn_objs _ Hcon). intros c x o Hc Ho.
    assert (Hout : ∃ k, unused (Some k) true (bufs (net a') o)).
    { destruct x as [sw|th]; cbn in Ho.
      - apply (switch_outputs c sw o Hc) in Ho as (op & Hop & _ & Ho). eexists. by apply (connected_mid op).
      - destruct (throttle_found c th Hc) as (op & Hop & -> & Hid). rewrite (id_out _ _ _ _ _ _ Hid) in Ho. by apply (connected_out op). }
    destruct Hout as (k & [U1 U2 U3 U4]). split; [done|by rewrite U1; eauto|]. intros _ _. rewrite U4, En.
    destruct x as [sw|th]; cbn; [lia|]. pose proof (tk_latency _ _ _ (made_throttle c th Hc)). lia.
  - rewrite (cn_objs _ Hcon). intros c [sw|th] i Hc Hi; cbn in Hi.
    + apply (switch_inputs c sw i Hc) in Hi as (x & Hx & <- & Hi). destruct (connected_line x i Hx Hi) as [o Hu]. apply Hu.
    + destruct (throttle_found c th Hc) as (op & Hop & -> & Hid). rewrite (id_in _ _ _ _ _ _ Hid) in Hi. apply (connected_mid op i Hop Hi).
  - by intros c x i k _ _ ?%not_elem_of_nil.
Qed.

(** *** The queues of the components *)

Lemma from_allowed d q i m : m_fromNetQueues nw !! d = Some q → i ∈ q → m ∈ allow i → machines counts !! d = Some m.
Proof.
  intros Hd Hi Hm. pose proof (md_queues _ _ _ _ _ _ _ _ _ Hmade) as Hq. apply elem_allow in Hm as [(x & Hx & Hix & _)|(o & Ho & Hio & Hm)].
  - destruct (mt_in _ _ _ _ (md_matched _ _ _ _ _ _ _ _ _ Hmade) x Hx) as [_ Hk]. destruct (ip_call x); [|done|].
    + by destruct (to_from_disjoint V _ _ _ _ _ _ i Hq Hk Hd Hix).
    + destruct Hk as [_ Hk]. destruct (Hk i Hix). eapply queue_elem; [by right|done].
  - apply elem_of_app in Hio as [Hio|Hio]; [destruct (mid_not_queue o i Ho Hio); eapply queue_elem; [by right|done]|].
    destruct (mt_out _ _ _ _ (md_matched _ _ _ _ _ _ _ _ _ Hmade) o Ho) as [Hc Hk]. destruct (op_call o) as [|s d' e y w b|] eqn:Eo; [done| |].
    + assert (d' = d) as ->.
      { pose proof (qo_once _ _ _ Hq) as Hnd. apply NoDup_app in Hnd as (_ & _ & Hnd).
        by eapply NoDup_concat_unique; [exact Hnd|exact Hk|exact Hd| |]. }
      by apply (out_entry counts Hcounts g_endpoint_bandwidth t W D calls Ht Hro s d e y w b m Hc).
    + destruct Hk as (x & Hx & Ex & El). rewrite <- El in Hio. destruct (mt_in _ _ _ _ (md_matched _ _ _ _ _ _ _ _ _ Hmade) x Hx) as [_ Hk].
      rewrite Ex in Hk. destruct Hk as [_ Hk]. destruct (Hk i Hio). eapply queue_elem; [by right|done].
Qed.

Lemma line_input x i : x ∈ I → i ∈ ip_line x → ∃ c y, objs a !! c = Some y ∧ i ∈ inputs y.
Proof.
  intros Hx Hi. pose proof (md_built _ _ _ _ _ _ _ _ _ Hmade) as Hb. pose proof (bt_dst _ _ _ _ _ _ _ Hb x Hx) as Hlt.
  destruct (lookup_lt_is_Some_2 (m_switch_ptr_vector nw) (call_dst (ip_call x))) as [S HS]; [by rewrite (bt_vector _ _ _ _ _ _ _ Hb)|].
  destruct (bt_switch _ _ _ _ _ _ _ Hb _ S HS) as (_ & sw & Hsw & Hat). eexists _, (Perfect sw). split; [exact Hsw|]. cbn.
  apply (switch_inputs _ sw i Hsw). by exists x.
Qed.

(** A link ends in a queue out of the network or at a component. *)
Lemma place_of o i : o ∈ O → i ∈ op_mid o ++ op_line o → i ∈ concat (m_fromNetQueues nw) ∨ ∃ c x, objs a !! c = Some x ∧ i ∈ inputs x.
Proof.
  intros Ho [Hi|Hi]%elem_of_app; pose proof (md_built _ _ _ _ _ _ _ _ _ Hmade) as Hb.
  - right. destruct (bt_throttle _ _ _ _ _ _ _ Hb o Ho) as (th & Hth & Hid). exists (op_th o), (Throttled th). split; [done|]. cbn.
    by rewrite (id_in _ _ _ _ _ _ Hid).
  - destruct (mt_out _ _ _ _ (md_matched _ _ _ _ _ _ _ _ _ Hmade) o Ho) as [_ Hk]. destruct (op_call o) eqn:Eo; [done| |].
    + left. apply elem_of_concat. eexists. split; [by eapply list_elem_of_lookup_2|done].
    + right. destruct Hk as (x & Hx & Ex & El). apply (line_input x); [done|by rewrite El].
Qed.

(** A component can send to every component a path leads to. *)
Lemma send_entry s q i d m w : m_toNetQueues nw !! s = Some q → i ∈ q → machines counts !! d = Some m →
  linked t s (d + N) w → w < INFINITE_LATENCY → ∃ x, entry (objs a) x i ∧ m ∈ reach x.
Proof.
  intros Hs Hi Hm Hpath Hw. pose proof (md_built _ _ _ _ _ _ _ _ _ Hmade) as Hb. pose proof (md_queues _ _ _ _ _ _ _ _ _ Hmade) as Hq.
  pose proof (nt_links _ _ _ Ht) as Hlk. pose proof (lk_nodes _ _ Hlk) as EN. fold N in EN. rewrite <- EN in Hpath.
  pose proof (linked_arrives counts Hcounts t W D calls d m s w Hlk Hro Hm Hpath Hw) as Harr.
  assert (HsN : (s < N)%nat) by (rewrite <- (qo_to _ _ _ Hq); by eapply lookup_lt_Some).
  assert (HdN : (d < N)%nat) by by eapply lookup_lt_Some.
  inversion Harr as [|? b (next & e & Hh & Hme) Hnext]; subst; [lia|]. specialize (Hnext next e Hh Hme).
  apply list_elem_of_fmap in Hh as (c & Ec & Hc).
  destruct (call_link counts g_endpoint_bandwidth t W D calls Ht Hro c Hc) as (_ & _ & _ & _ & _ & Hr).
  destruct c as [s' y e' l b'|s' y e' l w' b'|s' y e' l w' b']; cbn in Ec, Hr; injection Ec as E1 E2 E3; [subst s' e'|lia|lia].
  inversion Hnext as [? E|? b2 (next2 & e2 & Hh2 & Hme2) _]; subst; [lia|].
  apply list_elem_of_fmap in Hh2 as (c2 & Ec2 & Hc2).
  destruct (call_link counts g_endpoint_bandwidth t W D calls Ht Hro c2 Hc2) as (_ & _ & _ & _ & _ & Hr2).
  pose proof (mt_all _ _ _ _ (md_matched _ _ _ _ _ _ _ _ _ Hmade)) as Hall.
  destruct (Hall _ Hc) as (x & Hx & Ex). destruct (mt_in _ _ _ _ (md_matched _ _ _ _ _ _ _ _ _ Hmade) x Hx) as [_ Hk].
  rewrite Ex in Hk. rewrite Hs in Hk. injection Hk as Hk.
  destruct (lookup_lt_is_Some_2 (m_switch_ptr_vector nw) y) as [S HS]; [rewrite (bt_vector _ _ _ _ _ _ _ Hb); apply Hr|].
  destruct (bt_switch _ _ _ _ _ _ _ Hb _ S HS) as (_ & sw & Hsw & _). exists (Perfect sw). split; [split; [by exists y|split]|].
  - cbn. apply (switch_inputs y sw i Hsw). exists x. rewrite Ex, <- Hk. done.
  - assert (Hiq : i ∈ queues nw) by (eapply queue_elem; [by left|done]). intros c3 [sw3|th3] Hc3 Hout; cbn in Hout.
    + apply (switch_outputs c3 sw3 i Hc3) in Hout as (o & Ho & _ & Hio). by apply (mid_not_queue o i).
    + destruct (throttle_found c3 th3 Hc3) as (o & Ho & -> & Hid). rewrite (id_out _ _ _ _ _ _ Hid) in Hout.
      rewrite Hk in Hi. pose proof (line_call x o i Hx Ho Hi Hout) as E. rewrite Ex in E.
      destruct (mt_out _ _ _ _ (md_matched _ _ _ _ _ _ _ _ _ Hmade) o Ho) as [_ Hno]. by rewrite E in Hno.
  - cbn. rewrite (switch_reach y sw Hsw). apply elem_carries. specialize (Hall _ Hc2).
    destruct c2 as [s2 y2 e2' l2 b2'|s2 y2 e2' l2 w2 b2'|s2 y2 e2' l2 w2 b2']; cbn in Ec2, Hr2; injection Ec2 as F1 F2 F3; [lia| |];
      destruct Hall as (o & Ho & Eo); exists o; rewrite Eo; cbn; (split; [done|split; [lia|by subst]]).
Qed.
End wiring.

(** A concatenation restricted to the elements that contribute. *)
Lemma bind_support {A} (f : nat → list A) l1 l2 : NoDup l1 → NoDup l2 → (∀ i, i ∈ l2 → i ∈ l1) →
  (∀ i, i ∈ l1 → i ∉ l2 → f i = []) → l1 ≫= f ≡ₚ l2 ≫= f.
Proof.
  intros Hn1 Hn2 Hsub Hnil. assert (Hs : l2 ⊆+ l1) by (by apply NoDup_submseteq).
  apply submseteq_Permutation in Hs as [k Hk]. rewrite (bind_Permutation _ _ _ Hk), bind_app.
  rewrite Hk in Hn1. apply NoDup_app in Hn1 as (_ & Hdis & _).
  assert (E : k ≫= f = []); [|by rewrite E, app_nil_r].
  assert (Hall : ∀ i, i ∈ k → f i = []).
  { intros i Hi. apply Hnil; [rewrite Hk; apply elem_of_app; by right|]. intros Hi2. by apply (Hdis i). }
  clear -Hall. induction k as [|i k IH]; [done|]. cbn [mbind list_bind]. rewrite (Hall i) by left. apply IH. intros j Hj. apply Hall. by right.
Qed.

Lemma same_objects_entry {W0 B} (a a' : arena W0 B) x i m : same_objects a a' → entry (objs a) x i → m ∈ reach x →
  ∃ x', entry (objs a') x' i ∧ m ∈ reach x'.
Proof.
  intros Hs ([c Hc] & Hi & Hno) Hm. pose proof (Hs c) as Hx. rewrite Hc in Hx. destruct (objs a' !! c) as [x'|] eqn:Hc'; [|done].
  destruct Hx as [_ S2 _ _ S5]. exists x'. rewrite S5. split; [|done]. split; [by exists c|]. rewrite S2. split; [done|].
  intros d y' Hd. pose proof (Hs d) as Hy. rewrite Hd in Hy. destruct (objs a !! d) as [y|] eqn:Hd'; [|done]. rewrite (sh_outputs _ _ Hy). by eapply Hno.
Qed.

Lemma same_objects_inputs {W0 B} (a a' : arena W0 B) c x i : same_objects a a' → objs a !! c = Some x → i ∈ inputs x →
  ∃ x', objs a' !! c = Some x' ∧ i ∈ inputs x'.
Proof.
  intros Hs Hc Hi. specialize (Hs c). rewrite Hc in Hs. destruct (objs a' !! c) as [x'|]; [|done]. exists x'. by rewrite (sh_inputs _ _ Hs).
Qed.

(** [C2] Delivery: from a topology with one link in and one link out per
    component, the constructor of the network returns (no assertion fails).  Then,
    whatever the components send, receive and schedule and in whatever order
    events are handled and the clock advances, as long as the [int] counters of
    the buffers do not overflow: every delivery that was sent has been received
    or is in exactly one buffer of the network; a queue out of the network holds
    deliveries for its component only; the next event is always handled without
    a fault; a component can send to every component a path of links leads to;
    and when no switch or throttle has an event left, everything not yet
    received waits in the queue of its component. *)
Theorem network_delivers {W0 B} RANDOMIZATION adaptive FINITE_BUFFERING FINITE_BUFFER_SIZE vnets ordered sortVector
    endpoint_bandwidth threshold random counts (t : Topology) (a0 : arena W0 B) :
  counts_ok counts → zsum id counts < 2 ^ 31 → (∀ l, sortVector l ≡ₚ l) → network_topology counts endpoint_bandwidth t →
  objs a0 = ∅ → next_obj a0 = 0%nat → next_buf a0 = 0%nat → events_ok (net_evq (net a0)) → 0 ≤ now (net a0) →
  ∃ nw a1, new_SimpleNetwork FINITE_BUFFERING FINITE_BUFFER_SIZE vnets counts (path_fuel (S (max_switch_id t))) t a0 = Ret (nw, a1) ∧
    ∀ a2 a sent received, connected nw a1 a2 →
      net_run RANDOMIZATION adaptive vnets ordered sortVector endpoint_bandwidth threshold random counts a2 sent received a →
      let all := seq 0 (next_buf a1) in
      sent ≡ₚ received ++ in_flight (net a) all ∧
      (∀ d q i x, m_fromNetQueues nw !! d = Some q → i ∈ q → x ∈ waiting (net a) i → machines counts !! d = Some x.2) ∧
      (event_due a → ∃ a', next_event RANDOMIZATION adaptive vnets ordered sortVector endpoint_bandwidth threshold random a = Ret a') ∧
      (∀ s q i d m w, m_toNetQueues nw !! s = Some q → i ∈ q → machines counts !! d = Some m →
         linked t s (d + length (machines counts)) w → w < INFINITE_LATENCY → ∃ x, entry (objs a) x i ∧ m ∈ reach x) ∧
      (quiet a → in_flight (net a) all ≡ₚ in_flight (net a) (concat (m_fromNetQueues nw))).
Proof.
  intros Hc Htot Hsort Ht E0 E1 E2 Hev Hnow. pose proof (nt_links _ _ _ Ht) as Hlk.
  destruct (createLinks_ok counts Hc t Hlk) as (W & D & calls & CL & CS & Ecalls & Hro).
  destruct (network_members_ok vnets counts Hc t a0 E0 E1 E2) as (nw0 & a00 & Emem & Hmade0).
  destruct (make_links_ok FINITE_BUFFERING FINITE_BUFFER_SIZE vnets _ _ _ _ _ calls Hmade0 (calls_ok counts endpoint_bandwidth t W D calls Ht Hro))
    as (nw & a1 & I & O & Elinks & Hmade & _).
  exists nw, a1. split.
  { unfold new_SimpleNetwork. rewrite Emem. cbn [mbind outcome_bind]. rewrite Ecalls. done. }
  intros a2 a sent received Hcon Hrun all.
  pose proof (connected_inv RANDOMIZATION vnets endpoint_bandwidth counts Hc t W D calls Ht Hro _ nw a1 I O Hmade a2 Hcon Hev Hnow) as Hinv0.
  destruct (net_run_ok RANDOMIZATION adaptive vnets ordered sortVector endpoint_bandwidth threshold random counts all (allow I O) (NoDup_seq _ _) Hc Htot Hsort
    a2 _ sent received a Hinv0 Hrun) as (Q & Hinv & Howed & Hsame).
  assert (Hempty : owed (net a2) all (λ _, []) = []) by (unfold owed; generalize all; intros l; by induction l).
  rewrite Hempty, app_nil_r in Howed. pose proof Hinv as (P & Hok & _).
  assert (Hfrom : ∀ i, i ∈ concat (m_fromNetQueues nw) → i ∈ all).
  { intros i Hi. apply (used_id vnets counts t calls _ nw a1 I O Hmade). rewrite !elem_of_app. right; right; right. apply elem_of_app. by right. }
  split; [|split; [|split; [|split]]].
  - by rewrite (in_flight_owed all _ Q (no_reps _ _ _ _ _ _ _ _ _ Hok)).
  - intros d q i x Hd Hi Hx. eapply (from_allowed vnets endpoint_bandwidth counts Hc t W D calls Ht Hro _ nw a1 I O Hmade); [done|exact Hi|].
    eapply (waiting_allowed _ _ _ _ all); [exact Hinv| |exact Hx]. apply Hfrom, elem_of_concat. exists q. split; [by eapply list_elem_of_lookup_2|done].
  - intros Hdue. destruct (event_ok RANDOMIZATION adaptive vnets ordered sortVector endpoint_bandwidth threshold random counts all (allow I O)
      (NoDup_seq _ _) Hc Htot Hsort a Q Hinv Hdue) as (a' & Q' & E & _). by exists a'.
  - intros s q i d m w Hs Hi Hm Hpath Hw.
    destruct (send_entry vnets endpoint_bandwidth counts Hc t W D calls Ht Hro _ nw a1 I O Hmade s q i d m w Hs Hi Hm Hpath Hw) as (x & Hx & Hr).
    eapply same_objects_entry; [exact Hsame| |exact Hr]. by rewrite (cn_objs _ _ _ Hcon).
  - intros Hquiet. apply bind_support; [apply NoDup_seq| |done|].
    { pose proof (qo_once _ _ _ (md_queues _ _ _ _ _ _ _ _ _ Hmade)) as Hnd. by apply NoDup_app in Hnd as (_ & _ & ?). }
    intros i Hi Hnot. destruct (waiting (net a) i) as [|x l] eqn:Ew; [done|]. exfalso.
    assert (Hx : x.2 ∈ allow I O i) by (eapply (waiting_allowed _ _ _ _ all); [exact Hinv|done|rewrite Ew; left]).
    assert (Hin : ∃ c y, objs a1 !! c = Some y ∧ i ∈ inputs y).
    { apply elem_allow in Hx as [(y & Hy & Hiy & _)|(o & Ho & Hio & _)].
      - by apply (line_input vnets counts t calls _ nw a1 I O Hmade y).
      - by destruct (place_of vnets counts t calls _ nw a1 I O Hmade o i Ho Hio). }
    destruct Hin as (c & y & Hy & Hiy). rewrite <- (cn_objs _ _ _ Hcon) in Hy.
    destruct (same_objects_inputs _ _ _ _ _ Hsame Hy Hiy) as (y' & Hy' & Hiy').
    rewrite (quiet_empty _ _ _ _ _ _ a Q c y' i Hinv Hquiet Hy' Hiy') in Ew. done.
Qed.

(** ** Two components and one switch *)

Definition ex_state : netstate unit unit :=
  mkNet (λ _, new_buffer) (λ _, mkMessage 0 0) (λ _, mkNetMsg [] Undefined [] false tt) 0 (mkWorld event_queue_init (λ _, new_consumer) tt) 0.

Definition ex_arena : arena unit unit := mkArena 0 0 ∅ ex_state.

Definition ex_built : outcome (SimpleNetwork * arena unit unit) :=
  new_SimpleNetwork false 0 1 [2] (path_fuel (S (max_switch_id ex_network))) ex_network ex_arena.

(** The components, consumers 10 and 11, connect to their queues. *)
Definition ex_connect (a : arena unit unit) : arena unit unit :=
  let b := bufs (net a) in
  set_net (with_bufs (λ i, match i with
    | 0%nat | 2%nat => setOrdering false (b i)
    | 1%nat | 3%nat => taken (10 + Nat.div i 2) (setOrdering false (b i))
    | _ => b i end) (net a)) a.

(** Events while there are some, otherwise the clock. *)
Fixpoint ex_drive (k : nat) (a : arena unit unit) : outcome (arena unit unit) :=
  match k with
  | O => Ret a
  | S k =>
      let due := match peekMin (m_prio_heap (queue (net_evq (net a)))) with
                 | Ret m => negb (isEmpty (net_evq (net a))) && (m_time m <=? now (net a)) | Raise _ => false end in
      a ← (if due then next_event false false 1 (λ _, true) id 10000 (of_int 0) (λ _, 0) a else Ret (clock_tick a)); ex_drive k a
  end.

(** A broadcast of component 0 reaches both. *)
Definition ex_broadcast : NetworkMessage unit := mkNetMsg SwitchWakeup.ex_all Control [] false tt.

Definition ex_delivered : outcome (list (list delivery) * arena unit unit) :=
  '(_, a) ← ex_built;
  a ← inject false (λ _, 0) 0 1 ex_broadcast (ex_connect a);
  a ← ex_drive 40 a;
  Ret (waiting (net a) <$> [0; 1; 2; 3; 4; 5]%nat, a).

Lemma ex_network_topology : network_topology [2] 10000 ex_network.
Proof.
  split; [apply ex_network_ok|..].
  - intros l Hl. elem_cases Hl; subst; cbn; lia.
  - intros l Hl. elem_cases Hl; subst; cbn; lia.
  - intros l Hl. elem_cases Hl; subst; cbn; lia.
  - intros l l' Hl Hl'. elem_cases Hl; elem_cases Hl'; subst; cbn; try done; lia.
  - intros l l' Hl Hl'. elem_cases Hl; elem_cases Hl'; subst; cbn; try done; lia.
Qed.

Lemma network_delivers_witness :
  match ex_delivered with
  | Ret (l, _) => let x := (SwitchWakeup.ex_all, Control, tt) in l = [[]; [(x, (0%nat, 0))]; []; [(x, (0%nat, 1))]; []; []]
  | Raise _ => False
  end ∧
  ∃ nw a1, ex_built = Ret (nw, a1) ∧
    ∀ a2 a sent received, connected nw a1 a2 → net_run false false 1 (λ _, true) id 10000 (of_int 0) (λ _, 0) [2] a2 sent received a →
      sent ≡ₚ received ++ in_flight (net a) (seq 0 (next_buf a1)).
Proof.
  split; [vm_compute; reflexivity|].
  destruct (network_delivers false false false 0 1 (λ _, true) id 10000 (of_int 0) (λ _, 0) [2] ex_network ex_arena
    ex_network_counts eq_refl (λ l, reflexivity _) ex_network_topology eq_refl eq_refl eq_refl (event_queue_init_ok tt) ltac:(done))
    as (nw & a1 & E & H).
  exists nw, a1. split; [exact E|]. intros a2 a s r Hc Hr. exact (proj1 (H a2 a s r Hc Hr)).
Defined.
