(* ===== verification/MemoryControl.v ===== *)
(** * The memory controller

    [MemoryControl.C], [MemoryControl.h], [MemoryNode.h] of
    [gems-lib/ruby_clean/system] and the counters [Profiler.C] keeps for it: one
    channel of DRAM banks.  Requests wait in a common queue and in one queue per
    bank; once per memory cycle [executeCycle] counts the busy counters down,
    scans the banks and issues a refresh or a request if bank, address bus and
    data bus allow it.  Completed requests wait for the directory.  The message
    class [MemoryMsg] is generated, so its two accessors are parameters, and
    [random()] is a stream.  Left out: the debug output and [printConfig]. *)

From stdpp Require Import list numbers.
From S2P Require Import Prelude PrioHeap EventQueue.
Local Open Scope Z_scope.

(** ** Shifts and divisions of [int]s *)

(** [1 << k], both [int]: the sign bit is reached at 31 and a larger or
    negative count has no meaning. *)
Definition shl_one (k : Z) : outcome Z :=
  if (0 <=? k) && (k <? 32) then Ret (i32 (Z.shiftl 1 k)) else Raise BadShift.

(** [addr >> k] on a [uint64]. *)
Definition shr64 (addr k : Z) : outcome Z :=
  if (0 <=? k) && (k <? 64) then Ret (Z.shiftr addr k) else Raise BadShift.

Definition quot_int (a b : Z) : outcome Z := if b =? 0 then Raise DivByZero else Ret (Z.quot a b).
Definition rem_int (a b : Z) : outcome Z := if b =? 0 then Raise DivByZero else Ret (Z.rem a b).

(** ** Data *)

Record MemoryNode := mkMemNode {
  mr_time : Z;
  mr_msg_counter : Z;
  mr_msgptr : option nat;
  mr_addr : Z;
  mr_is_mem_read : bool;
  mr_is_dirty_wb : bool
}.

(** The constructor [enqueue] calls. *)
Definition new_MemoryNode (time : Z) (msgptr : option nat) (addr : Z) (is_read is_dirty : bool) : MemoryNode :=
  mkMemNode time 0 msgptr addr is_read is_dirty.

(** The fields the constructor reads from [RubyConfig] and never changes. *)
Record mem_config := mkMemConfig {
  m_mem_bus_cycle_multiplier : Z;
  m_banks_per_rank : Z;
  m_ranks_per_dimm : Z;
  m_dimms_per_channel : Z;
  m_bank_bit_0 : Z;
  m_rank_bit_0 : Z;
  m_dimm_bit_0 : Z;
  m_bank_queue_size : Z;
  m_bank_busy_time : Z;
  m_rank_rank_delay : Z;
  m_read_write_delay : Z;
  m_basic_bus_busy_time : Z;
  m_mem_ctl_latency : Z;
  m_refresh_period : Z;
  m_memRandomArbitrate : Z;
  m_tFaw : Z;
  m_memFixedDelay : Z
}.

Definition ACTIVATE_PER_TFAW : Z := 4.
Definition IDLECOUNT_MAX_VALUE : Z := 1000.

Definition m_total_banks (cf : mem_config) : Z :=
  i32 (i32 (m_banks_per_rank cf * m_ranks_per_dimm cf) * m_dimms_per_channel cf).
Definition m_total_ranks (cf : mem_config) : Z := i32 (m_ranks_per_dimm cf * m_dimms_per_channel cf).

(** The counters of the profiler. *)
Inductive mem_counter :=
  | memReq | memBankBusy | memBusBusy | memTfawBusy | memReadWriteBusy | memDataBusBusy | memRefresh | memRead
  | memWrite | memWaitCycles | memInputQ | memBankQ | memArbWait | memRandBusy | memNotOld.

#[export] Instance mem_counter_eq_dec : EqDecision mem_counter.
Proof. solve_decision. Defined.

Record mem_profile := mkMemProfile { m_mem : mem_counter → Z; m_memBankCount : list Z }.

Record mem_queues := mkMemQueues {
  m_msg_counter : Z;
  m_response_queue : list MemoryNode;
  m_input_queue : list MemoryNode;
  m_bankQueues : list (list MemoryNode)
}.

Record mem_banks := mkMemBanks {
  m_bankBusyCounter : list Z;
  m_oldRequest : list bool;
  m_tfaw_shift : list Z;
  m_tfaw_count : list Z
}.

Record mem_bus := mkMemBus {
  m_busBusyCounter_Write : Z;
  m_busBusyCounter_ReadNewRank : Z;
  m_busBusyCounter_Basic : Z;
  m_busBusy_WhichRank : Z
}.

Record mem_refresh := mkMemRefresh {
  m_refresh_period_system : Z;
  m_refresh_count : Z;
  m_need_refresh : Z;
  m_refresh_bank : Z
}.

Record mem_sched := mkMemSched { m_roundRobin : Z; m_ageCounter : Z; m_idleCount : Z; m_awakened : bool }.

Record MemoryControl := mkMemCtl {
  mc_queues : mem_queues;
  mc_banks : mem_banks;
  mc_bus : mem_bus;
  mc_refresh : mem_refresh;
  mc_sched : mem_sched
}.

(** The controller with what it shares: the profiler, the event queue, [random()]. *)
Record mem_state (W : Type) := mkMemState {
  mc : MemoryControl;
  prof : mem_profile;
  mem_evq : world W;
  mem_draws : nat
}.
Arguments mkMemState {W}.
Arguments mc {W}.
Arguments prof {W}.
Arguments mem_evq {W}.
Arguments mem_draws {W}.

(** ** Field updates *)

Definition set_queues (q : mem_queues) (m : MemoryControl) : MemoryControl :=
  mkMemCtl q (mc_banks m) (mc_bus m) (mc_refresh m) (mc_sched m).
Definition set_banks (b : mem_banks) (m : MemoryControl) : MemoryControl :=
  mkMemCtl (mc_queues m) b (mc_bus m) (mc_refresh m) (mc_sched m).
Definition set_bus (b : mem_bus) (m : MemoryControl) : MemoryControl :=
  mkMemCtl (mc_queues m) (mc_banks m) b (mc_refresh m) (mc_sched m).
Definition set_refresh (r : mem_refresh) (m : MemoryControl) : MemoryControl :=
  mkMemCtl (mc_queues m) (mc_banks m) (mc_bus m) r (mc_sched m).
Definition set_sched (s : mem_sched) (m : MemoryControl) : MemoryControl :=
  mkMemCtl (mc_queues m) (mc_banks m) (mc_bus m) (mc_refresh m) s.

Definition set_response (l : list MemoryNode) (m : MemoryControl) : MemoryControl :=
  let q := mc_queues m in
  set_queues (mkMemQueues (m_msg_counter q) l (m_input_queue q) (m_bankQueues q)) m.
Definition set_input (l : list MemoryNode) (m : MemoryControl) : MemoryControl :=
  let q := mc_queues m in
  set_queues (mkMemQueues (m_msg_counter q) (m_response_queue q) l (m_bankQueues q)) m.
Definition set_bankQueues (l : list (list MemoryNode)) (m : MemoryControl) : MemoryControl :=
  let q := mc_queues m in
  set_queues (mkMemQueues (m_msg_counter q) (m_response_queue q) (m_input_queue q) l) m.
Definition set_busy (l : list Z) (m : MemoryControl) : MemoryControl :=
  let b := mc_banks m in set_banks (mkMemBanks l (m_oldRequest b) (m_tfaw_shift b) (m_tfaw_count b)) m.
Definition set_old (l : list bool) (m : MemoryControl) : MemoryControl :=
  let b := mc_banks m in set_banks (mkMemBanks (m_bankBusyCounter b) l (m_tfaw_shift b) (m_tfaw_count b)) m.
Definition set_tfaw (s c : list Z) (m : MemoryControl) : MemoryControl :=
  let b := mc_banks m in set_banks (mkMemBanks (m_bankBusyCounter b) (m_oldRequest b) s c) m.
Definition set_roundRobin (n : Z) (m : MemoryControl) : MemoryControl :=
  let s := mc_sched m in set_sched (mkMemSched n (m_ageCounter s) (m_idleCount s) (m_awakened s)) m.
Definition set_age (n : Z) (m : MemoryControl) : MemoryControl :=
  let s := mc_sched m in set_sched (mkMemSched (m_roundRobin s) n (m_idleCount s) (m_awakened s)) m.
Definition set_idle (n : Z) (m : MemoryControl) : MemoryControl :=
  let s := mc_sched m in set_sched (mkMemSched (m_roundRobin s) (m_ageCounter s) n (m_awakened s)) m.
Definition set_awakened (b : bool) (m : MemoryControl) : MemoryControl :=
  let s := mc_sched m in set_sched (mkMemSched (m_roundRobin s) (m_ageCounter s) (m_idleCount s) b) m.

(** ** The constructor *)

Definition mem_init (cf : mem_config) : outcome MemoryControl :=
  assertb (m_tFaw cf <=? 62) ;;
  let banks := m_total_banks cf in
  let ranks := m_total_ranks cf in
  refresh_period_system ← quot_int (m_refresh_period cf) banks;
  if (banks <? 0) || (ranks <? 0) then Raise Uncaught   (** a negative array size *)
  else
    let nb := Z.to_nat banks in
    let nr := Z.to_nat ranks in
    Ret (mkMemCtl
      (mkMemQueues 0 [] [] (replicate nb []))
      (mkMemBanks (replicate nb 0) (replicate nb false) (replicate nr 0) (replicate nr 0))
      (mkMemBus 0 0 0 0)
      (mkMemRefresh refresh_period_system 1 0 0)
      (mkMemSched 0 0 0 false)).

(** The part of the profiler's constructor the controller needs. *)
Definition prof_init (cf : mem_config) : mem_profile :=
  mkMemProfile (λ _, 0) (replicate (Z.to_nat (m_total_banks cf)) 0).

(** ** Profiling *)

Definition profileMem (c : mem_counter) (n : Z) (p : mem_profile) : mem_profile :=
  mkMemProfile (λ c', if decide (c' = c) then m_mem p c + n else m_mem p c') (m_memBankCount p).

Definition profileMemReq (bank : Z) (p : mem_profile) : outcome mem_profile :=
  let p := profileMem memReq 1 p in
  n ← at_int (m_memBankCount p) bank;
  l ← set_int (m_memBankCount p) bank (n + 1);
  Ret (mkMemProfile (m_mem p) l).

(** ** Banks and ranks *)

Definition bit_field (addr bit n : Z) : outcome Z :=
  a ← shr64 addr bit; Ret (i32 (Z.land a (u64 (n - 1)))).

Definition getBank (cf : mem_config) (addr : Z) : outcome Z :=
  dimm ← bit_field addr (m_dimm_bit_0 cf) (m_dimms_per_channel cf);
  rank ← bit_field addr (m_rank_bit_0 cf) (m_ranks_per_dimm cf);
  bank ← bit_field addr (m_bank_bit_0 cf) (m_banks_per_rank cf);
  Ret (i32 (dimm * m_ranks_per_dimm cf * m_banks_per_rank cf + rank * m_banks_per_rank cf + bank)).

Definition getRank (cf : mem_config) (bank : Z) : outcome Z :=
  rank ← quot_int bank (m_banks_per_rank cf);
  assertb (rank <? m_total_ranks cf) ;;
  Ret rank.

(** ** Operations *)

(** What a scan of the banks issued, in order. *)
Inductive issue :=
  | Refresh (bank : Z)
  | Request (bank : Z) (req : MemoryNode).

Section control.
Context {W : Type}.
Variable cf : mem_config.
Variable random : nat → Z.
(** The controller and the directory as consumers of the event queue. *)
Variables (self : nat) (m_consumer_ptr : option nat).
(** [getAddress().getAddress()] of a message, and whether [getType()] is [MEMORY_READ]. *)
Variables (msg_addr : nat → Z) (msg_is_read : nat → bool).
Implicit Types st : mem_state W.

Definition mem_now st : Z := getTime (mem_evq st).
Definition on_mc (f : MemoryControl → MemoryControl) st : mem_state W :=
  mkMemState (f (mc st)) (prof st) (mem_evq st) (mem_draws st).
Definition on_prof (f : mem_profile → mem_profile) st : mem_state W :=
  mkMemState (mc st) (f (prof st)) (mem_evq st) (mem_draws st).
Definition set_evq (w : world W) st : mem_state W :=
  mkMemState (mc st) (prof st) w (mem_draws st).
Definition draw st : Z * mem_state W :=
  (random (mem_draws st), mkMemState (mc st) (prof st) (mem_evq st) (S (mem_draws st))).

Definition queues_of st : mem_queues := mc_queues (mc st).
Definition banks_of st : mem_banks := mc_banks (mc st).
Definition bus_of st : mem_bus := mc_bus (mc st).
Definition refresh_of st : mem_refresh := mc_refresh (mc st).
Definition sched_of st : mem_sched := mc_sched (mc st).

Definition enqueueMemRef (memRef : MemoryNode) st : outcome (mem_state W) :=
  let q := queues_of st in
  let n := i32 (m_msg_counter q + 1) in
  let memRef := mkMemNode (mr_time memRef) n (mr_msgptr memRef) (mr_addr memRef)
    (mr_is_mem_read memRef) (mr_is_dirty_wb memRef) in
  bank ← getBank cf (mr_addr memRef);
  p ← profileMemReq bank (prof st);
  let st := on_prof (λ _, p) (on_mc (set_queues
    (mkMemQueues n (m_response_queue q) (m_input_queue q ++ [memRef]) (m_bankQueues q))) st) in
  if m_awakened (sched_of st) then Ret st
  else
    w ← scheduleEvent (Some self) 1 (mem_evq st);
    Ret (on_mc (set_awakened true) (set_evq w st)).

Definition enqueue (message : option nat) (latency : Z) st : outcome (mem_state W) :=
  let arrival_time := mem_now st + latency in
  memMess ← deref message;
  let is_mem_read := msg_is_read memMess in
  enqueueMemRef (new_MemoryNode arrival_time message (msg_addr memMess) is_mem_read (negb is_mem_read)) st.

Definition isReady st : bool :=
  match m_response_queue (queues_of st) with
  | [] => false
  | r :: _ => mr_time r <=? mem_now st
  end.

Definition dequeue st : outcome (mem_state W) :=
  assertb (isReady st) ;;
  match m_response_queue (queues_of st) with
  | [] => Raise BadDeref
  | _ :: rs => Ret (on_mc (set_response rs) st)
  end.

Definition peekNode st : outcome MemoryNode :=
  assertb (isReady st) ;; deref (head (m_response_queue (queues_of st))).

Definition peek st : outcome nat :=
  node ← peekNode st;
  match mr_msgptr node with None => Raise AssertFailed | Some p => Ret p end.

Definition enqueueToDirectory (req : MemoryNode) (latency : Z) st : outcome (mem_state W) :=
  let arrival_time := mem_now st + i32 (latency * m_mem_bus_cycle_multiplier cf) in
  let req := mkMemNode arrival_time (mr_msg_counter req) (mr_msgptr req) (mr_addr req)
    (mr_is_mem_read req) (mr_is_dirty_wb req) in
  let st := on_mc (set_response (m_response_queue (queues_of st) ++ [req])) st in
  w ← scheduleEventAbsolute m_consumer_ptr arrival_time (mem_evq st);
  Ret (set_evq w st).

(** The checks of [queueReady] outside fixed-delay mode. *)
Definition busReady (bank : Z) st : outcome (bool * mem_state W) :=
  old ← at_int (m_oldRequest (banks_of st)) bank;
  if (2 * m_bank_busy_time cf <? m_ageCounter (sched_of st)) && negb old
  then Ret (false, on_prof (profileMem memNotOld 1) st)
  else if m_busBusyCounter_Basic (bus_of st) =? m_basic_bus_busy_time cf
  then Ret (false, on_prof (profileMem memArbWait 1) st)
  else if 0 <? m_busBusyCounter_Basic (bus_of st)
  then Ret (false, on_prof (profileMem memBusBusy 1) st)
  else
    rank ← getRank cf bank;
    count ← at_int (m_tfaw_count (banks_of st)) rank;
    if ACTIVATE_PER_TFAW <=? count then Ret (false, on_prof (profileMem memTfawBusy 1) st)
    else
      q ← at_int (m_bankQueues (queues_of st)) bank;
      req ← deref (head q);
      let write := negb (mr_is_mem_read req) in
      if write && (0 <? m_busBusyCounter_Write (bus_of st))
      then Ret (false, on_prof (profileMem memReadWriteBusy 1) st)
      else if negb write && negb (rank =? m_busBusy_WhichRank (bus_of st)) &&
              (0 <? m_busBusyCounter_ReadNewRank (bus_of st))
      then Ret (false, on_prof (profileMem memDataBusBusy 1) st)
      else Ret (true, st).

Definition queueReady (bank : Z) st : outcome (bool * mem_state W) :=
  busy ← at_int (m_bankBusyCounter (banks_of st)) bank;
  let fixed := negb (m_memFixedDelay cf =? 0) in
  if (0 <? busy) && negb fixed then Ret (false, on_prof (profileMem memBankBusy 1) st)
  else
    let '(r, st) := if 2 <=? m_memRandomArbitrate cf then draw st else (0, st) in
    if (2 <=? m_memRandomArbitrate cf) && (Z.rem r 100 <? m_memRandomArbitrate cf)
    then Ret (false, on_prof (profileMem memRandBusy 1) st)
    else if fixed then Ret (true, st) else busReady bank st.

Definition markTfaw (rank : Z) st : outcome (mem_state W) :=
  if m_tFaw cf =? 0 then Ret st
  else
    let b := banks_of st in
    bit ← shl_one (m_tFaw cf - 1);
    s ← at_int (m_tfaw_shift b) rank;
    shift ← set_int (m_tfaw_shift b) rank (Z.lor s (u64 bit));
    c ← at_int (m_tfaw_count b) rank;
    count ← set_int (m_tfaw_count b) rank (c + 1);
    Ret (on_mc (set_tfaw shift count) st).

Definition issueRefresh (bank : Z) st : outcome (bool * mem_state W) :=
  let r := refresh_of st in
  if (m_need_refresh r =? 0) || negb (m_refresh_bank r =? bank) then Ret (false, st)
  else
    busy ← at_int (m_bankBusyCounter (banks_of st)) bank;
    if 0 <? busy then Ret (false, st)
    else if 0 <? m_busBusyCounter_Basic (bus_of st) then Ret (false, st)
    else
      rank ← getRank cf bank;
      count ← at_int (m_tfaw_count (banks_of st)) rank;
      if ACTIVATE_PER_TFAW <=? count then Ret (false, st)
      else
        let next := m_refresh_bank r + 1 in
        let next := if m_total_banks cf <=? next then 0 else next in
        counters ← set_int (m_bankBusyCounter (banks_of st)) bank (m_bank_busy_time cf);
        let basic := m_basic_bus_busy_time cf in
        st ← markTfaw rank (on_prof (profileMem memRefresh 1)
          (on_mc (λ m, set_bus (mkMemBus basic basic basic (m_busBusy_WhichRank (mc_bus m))) (set_busy counters
             (set_refresh (mkMemRefresh (m_refresh_period_system r) (m_refresh_count r) (m_need_refresh r - 1) next)
             m))) st));
        Ret (true, st).

Definition issueRequest (bank : Z) st : outcome (MemoryNode * mem_state W) :=
  rank ← getRank cf bank;
  q ← at_int (m_bankQueues (queues_of st)) bank;
  req ← deref (head q);
  qs ← set_int (m_bankQueues (queues_of st)) bank (tail q);
  let st := on_mc (set_bankQueues qs) st in
  st ← match mr_msgptr req with
       | None => Ret st
       | Some _ => enqueueToDirectory req (m_mem_ctl_latency cf + m_memFixedDelay cf) st
       end;
  old ← set_int (m_oldRequest (banks_of st)) bank false;
  st ← markTfaw rank (on_mc (set_old old) st);
  counters ← set_int (m_bankBusyCounter (banks_of st)) bank (m_bank_busy_time cf);
  let basic := m_basic_bus_busy_time cf in
  let st := on_mc (set_busy counters) st in
  Ret (req,
    if mr_is_mem_read req then
      on_prof (profileMem memRead 1) (on_mc (set_bus
        (mkMemBus (basic + m_read_write_delay cf) (basic + m_rank_rank_delay cf) basic rank)) st)
    else
      on_prof (profileMem memWrite 1) (on_mc (set_bus (mkMemBus basic basic basic rank)) st)).

(** *** One memory cycle *)

Definition count_down (n : Z) : Z := if 0 <? n then n - 1 else n.

(** The arrays have an entry per bank and per rank, so the loops run over them. *)
Definition tick_counters (m : MemoryControl) : MemoryControl :=
  let b := mc_banks m in
  let u := mc_bus m in
  let shift := m_tfaw_shift b in
  set_bus (mkMemBus (count_down (m_busBusyCounter_Write u)) (count_down (m_busBusyCounter_ReadNewRank u))
             (count_down (m_busBusyCounter_Basic u)) (m_busBusy_WhichRank u))
    (set_banks (mkMemBanks (map count_down (m_bankBusyCounter b)) (m_oldRequest b)
       (map (λ s, Z.shiftr s 1) shift)
       (zip_with (λ s c, if Z.testbit s 0 then c - 1 else c) shift (m_tfaw_count b))) m).

Definition tick_refresh (m : MemoryControl) : outcome MemoryControl :=
  let r := mc_refresh m in
  let count := if m_memFixedDelay cf =? 0 then i32 (m_refresh_count r - 1) else m_refresh_count r in
  if count =? 0 then
    assertb (m_need_refresh r <? 10) ;;
    Ret (set_refresh (mkMemRefresh (m_refresh_period_system r) (m_refresh_period_system r)
                        (m_need_refresh r + 1) (m_refresh_bank r)) m)
  else
    Ret (set_refresh (mkMemRefresh (m_refresh_period_system r) count (m_need_refresh r) (m_refresh_bank r)) m).

Definition new_batch (m : MemoryControl) : MemoryControl :=
  let m := set_age (i32 (m_ageCounter (mc_sched m) + 1)) m in
  let b := mc_banks m in
  if existsb id (m_oldRequest b) then m
  else
    set_age 0 (set_old (zip_with (λ old q, match q with [] => old | _ => true end)
                          (m_oldRequest b) (m_bankQueues (mc_queues m))) m).

Definition randomize st : outcome (mem_state W) :=
  if m_memRandomArbitrate cf =? 0 then Ret st
  else
    let '(r, st) := draw st in
    n ← rem_int r (m_total_banks cf);
    Ret (on_mc (set_roundRobin n) st).

(** The loop state: the controller, what was issued, [queueHeads] and [banksIssued]. *)
Record scan_state := mkScan { sc_st : mem_state W; sc_issued : list issue; sc_heads : Z; sc_banks : Z }.

Definition scan_bank (s : scan_state) (_ : nat) : outcome scan_state :=
  let st := sc_st s in
  let bank := m_roundRobin (sched_of st) + 1 in
  let bank := if m_total_banks cf <=? bank then 0 else bank in
  let st := on_mc (set_roundRobin bank) st in
  '(refreshed, st) ← issueRefresh bank st;
  let issued := sc_issued s ++ (if refreshed : bool then [Refresh bank] else []) in
  q ← at_int (m_bankQueues (queues_of st)) bank;
  let qs := Z.of_nat (length q) in
  let st := if 1 <? qs then on_prof (profileMem memBankQ (qs - 1)) st else st in
  if 0 <? qs then
    let st := on_mc (set_idle IDLECOUNT_MAX_VALUE) st in
    '(ready, st) ← queueReady bank st;
    if ready : bool then
      '(req, st) ← issueRequest bank st;
      let st := if m_memFixedDelay cf =? 0 then st
                else on_prof (profileMem memWaitCycles (m_memFixedDelay cf)) st in
      Ret (mkScan st (issued ++ [Request bank req]) (sc_heads s + 1) (sc_banks s + 1))
    else Ret (mkScan st issued (sc_heads s + 1) (sc_banks s))
  else Ret (mkScan st issued (sc_heads s) (sc_banks s)).

Definition scan st : outcome scan_state :=
  foldM scan_bank (mkScan st [] 0 0) (seq 0 (Z.to_nat (m_total_banks cf))).

(** The limit is kept as an [unsigned int]: a negative one is very large. *)
Definition take_input st : outcome (mem_state W) :=
  match m_input_queue (queues_of st) with
  | [] => Ret st
  | req :: input =>
      let st := on_mc (set_idle IDLECOUNT_MAX_VALUE) st in
      bank ← getBank cf (mr_addr req);
      q ← at_int (m_bankQueues (queues_of st)) bank;
      st ← (if Z.of_nat (length q) <? u32 (m_bank_queue_size cf) then
              qs ← set_int (m_bankQueues (queues_of st)) bank (q ++ [req]);
              Ret (on_mc (λ m, set_bankQueues qs (set_input input m)) st)
            else Ret st);
      Ret (on_prof (profileMem memInputQ (Z.of_nat (length (m_input_queue (queues_of st))))) st)
  end.

Definition executeCycle st : outcome (mem_state W * list issue) :=
  m ← tick_refresh (tick_counters (mc st));
  st ← randomize (on_mc (λ _, new_batch m) st);
  s ← scan st;
  st ← take_input (on_prof (profileMem memWaitCycles (sc_heads s - sc_banks s)) (sc_st s));
  Ret (st, sc_issued s).

Definition wakeup st : outcome (mem_state W * list issue) :=
  '(st, issued) ← executeCycle st;
  let st := on_mc (λ m, set_idle (m_idleCount (mc_sched m) - 1) m) st in
  if m_idleCount (sched_of st) <=? 0 then Ret (on_mc (set_awakened false) st, issued)
  else
    w ← scheduleEvent (Some self) (m_mem_bus_cycle_multiplier cf) (mem_evq st);
    Ret (set_evq w st, issued).
End control.
