(* ===== verification/MemoryCycle.v ===== *)
(** * A cycle of the memory controller as guarded steps

    With a sensible configuration no array index, shift or division of
    [executeCycle] faults, and the cycle is a sequence of steps, one per bank: an
    optional refresh and an optional request, each under its guard.  The
    theorems about the controller are proved over these steps.  The cycle has one
    way to stop, the assertion that refreshes are not overrun. *)

From stdpp Require Import list numbers.
From S2P Require Import Prelude PrioHeap EventQueue MemoryControl.
Local Open Scope Z_scope.

(** ** Configurations *)

Record config_ok (cf : mem_config) : Prop := {
  co_banks : 0 < m_banks_per_rank cf;
  co_ranks : 0 < m_ranks_per_dimm cf;
  co_dimms : 0 < m_dimms_per_channel cf;
  co_total : m_banks_per_rank cf * m_ranks_per_dimm cf * m_dimms_per_channel cf < 2 ^ 31;
  co_bank_bit : 0 ≤ m_bank_bit_0 cf < 64;
  co_rank_bit : 0 ≤ m_rank_bit_0 cf < 64;
  co_dimm_bit : 0 ≤ m_dimm_bit_0 cf < 64;
  co_busy : 0 ≤ m_bank_busy_time cf;
  co_basic : 0 < m_basic_bus_busy_time cf;
  co_rw : 0 ≤ m_read_write_delay cf;
  co_rr : 0 ≤ m_rank_rank_delay cf;
  co_tfaw : 0 ≤ m_tFaw cf < 32;
  co_latency : 0 < (m_mem_ctl_latency cf + m_memFixedDelay cf) * m_mem_bus_cycle_multiplier cf < 2 ^ 31;
  co_multiplier : 0 < m_mem_bus_cycle_multiplier cf;
  co_refresh : m_banks_per_rank cf * m_ranks_per_dimm cf * m_dimms_per_channel cf ≤ m_refresh_period cf < 2 ^ 31
}.

Section config.
Context (cf : mem_config) (Hcf : config_ok cf).

Definition total_banks : Z := m_banks_per_rank cf * m_ranks_per_dimm cf * m_dimms_per_channel cf.
Definition total_ranks : Z := m_ranks_per_dimm cf * m_dimms_per_channel cf.
Definition rank_of (bank : Z) : Z := bank `div` m_banks_per_rank cf.

Lemma total_ranks_pos : 0 < total_ranks ∧ total_ranks ≤ total_banks < 2 ^ 31.
Proof.
  destruct Hcf as [Hb Hr Hd Ht _ _ _ _ _ _ _ _ _ _ _]. unfold total_banks, total_ranks in *.
  rewrite <- Z.mul_assoc in *. assert (0 < m_ranks_per_dimm cf * m_dimms_per_channel cf) by nia. nia.
Qed.

Lemma m_total_banks_eq : m_total_banks cf = total_banks.
Proof.
  pose proof total_ranks_pos as H. destruct Hcf as [Hb Hr Hd _ _ _ _ _ _ _ _ _ _ _ _].
  unfold m_total_banks, total_banks, total_ranks in *.
  assert (m_banks_per_rank cf * m_ranks_per_dimm cf ≤ m_banks_per_rank cf * m_ranks_per_dimm cf * m_dimms_per_channel cf) by nia.
  assert (0 < m_banks_per_rank cf * m_ranks_per_dimm cf) by nia.
  rewrite (i32_id (_ * m_ranks_per_dimm cf)) by lia. apply i32_id. lia.
Qed.

Lemma m_total_ranks_eq : m_total_ranks cf = total_ranks.
Proof. pose proof total_ranks_pos as H. apply i32_id. unfold total_ranks in *. lia. Qed.

Lemma rank_of_range bank : 0 ≤ bank < total_banks → 0 ≤ rank_of bank < total_ranks.
Proof.
  intros Hb. destruct Hcf. unfold rank_of, total_banks, total_ranks in *. split.
  - apply Z.div_pos; lia.
  - apply Z.div_lt_upper_bound; lia.
Qed.

Lemma getRank_ok bank : 0 ≤ bank < total_banks → getRank cf bank = Ret (rank_of bank).
Proof.
  intros Hb. pose proof (rank_of_range bank Hb). destruct Hcf. unfold getRank, quot_int.
  rewrite (proj2 (Z.eqb_neq _ _)) by lia. cbn [mbind outcome_bind].
  rewrite Z.quot_div_nonneg by lia. fold (rank_of bank).
  rewrite m_total_ranks_eq, (proj2 (Z.ltb_lt _ _)) by lia. done.
Qed.

Lemma bit_field_ok addr bit n :
  0 ≤ addr → 0 ≤ bit < 64 → 0 < n < 2 ^ 31 → ∃ x, bit_field addr bit n = Ret x ∧ 0 ≤ x < n.
Proof.
  intros Ha Hbit Hn. unfold bit_field, shr64.
  rewrite (proj2 (Z.leb_le _ _)), (proj2 (Z.ltb_lt _ _)) by lia. cbn [andb mbind outcome_bind].
  eexists. split; [done|].
  replace (u64 (n - 1)) with (n - 1) by (unfold u64; rewrite Z.mod_small; lia).
  assert (0 ≤ Z.land (Z.shiftr addr bit) (n - 1)) by (apply Z.land_nonneg; lia).
  assert (Z.land (Z.shiftr addr bit) (n - 1) ≤ n - 1).
  { destruct (Z.eq_dec (n - 1) 0) as [->|]; [by rewrite Z.land_0_r|].
    apply Z.ldiff_le; [lia|]. apply Z.bits_inj'. intros i _.
    rewrite Z.ldiff_spec, Z.land_spec, Z.bits_0. destruct (Z.testbit _ _), (Z.testbit _ _); done. }
  rewrite i32_id by lia. lia.
Qed.
Lemma getBank_ok addr :
  0 ≤ addr → ∃ bank, getBank cf addr = Ret bank ∧ 0 ≤ bank < total_banks.
Proof.
  intros Ha. pose proof total_ranks_pos as Hr. destruct Hcf. unfold total_ranks, total_banks in *. unfold getBank.
  destruct (bit_field_ok addr (m_dimm_bit_0 cf) (m_dimms_per_channel cf)) as (d & -> & Hd); [lia..|nia|].
  destruct (bit_field_ok addr (m_rank_bit_0 cf) (m_ranks_per_dimm cf)) as (r & -> & Hrk); [lia..|nia|].
  destruct (bit_field_ok addr (m_bank_bit_0 cf) (m_banks_per_rank cf)) as (b & -> & Hb); [lia..|nia|].
  cbn [mbind outcome_bind]. eexists. split; [done|].
  assert (0 ≤ d * m_ranks_per_dimm cf + r < m_ranks_per_dimm cf * m_dimms_per_channel cf) by nia.
  rewrite i32_id by nia. nia.
Qed.

(** ** The shape of the controller's arrays *)

Record shape (m : MemoryControl) : Prop := {
  sh_queues : length (m_bankQueues (mc_queues m)) = Z.to_nat total_banks;
  sh_busy : length (m_bankBusyCounter (mc_banks m)) = Z.to_nat total_banks;
  sh_old : length (m_oldRequest (mc_banks m)) = Z.to_nat total_banks;
  sh_shift : length (m_tfaw_shift (mc_banks m)) = Z.to_nat total_ranks;
  sh_count : length (m_tfaw_count (mc_banks m)) = Z.to_nat total_ranks;
  sh_robin : 0 ≤ m_roundRobin (mc_sched m) < total_banks
}.

(** ** Guards and effects *)

Definition busy (bank : Z) (m : MemoryControl) : Z := m_bankBusyCounter (mc_banks m) !!! Z.to_nat bank.
Definition bank_queue (bank : Z) (m : MemoryControl) : list MemoryNode :=
  m_bankQueues (mc_queues m) !!! Z.to_nat bank.
Definition activates_left (bank : Z) (m : MemoryControl) : Prop :=
  m_tfaw_count (mc_banks m) !!! Z.to_nat (rank_of bank) < ACTIVATE_PER_TFAW.

Record may_refresh (bank : Z) (m : MemoryControl) : Prop := {
  mr_needed : m_need_refresh (mc_refresh m) ≠ 0;
  mr_bank : m_refresh_bank (mc_refresh m) = bank;
  mr_free : busy bank m ≤ 0;
  mr_bus : m_busBusyCounter_Basic (mc_bus m) ≤ 0;
  mr_tfaw : activates_left bank m
}.

Record may_issue (bank : Z) (req : MemoryNode) (m : MemoryControl) : Prop := {
  mi_free : busy bank m ≤ 0;
  mi_bus : m_busBusyCounter_Basic (mc_bus m) ≤ 0;
  mi_tfaw : activates_left bank m;
  mi_write : mr_is_mem_read req = false → m_busBusyCounter_Write (mc_bus m) ≤ 0;
  mi_read : mr_is_mem_read req = true → rank_of bank ≠ m_busBusy_WhichRank (mc_bus m) →
    m_busBusyCounter_ReadNewRank (mc_bus m) ≤ 0;
  mi_old : m_ageCounter (mc_sched m) ≤ 2 * m_bank_busy_time cf ∨
    m_oldRequest (mc_banks m) !! Z.to_nat bank = Some true
}.

(** The mark of an activate in a rank's shift register. *)
Definition mark (rank : Z) (b : mem_banks) : mem_banks :=
  let r := Z.to_nat rank in
  mkMemBanks (m_bankBusyCounter b) (m_oldRequest b)
    (if m_tFaw cf =? 0 then m_tfaw_shift b
     else alter (λ s, Z.lor s (2 ^ (m_tFaw cf - 1))) r (m_tfaw_shift b))
    (if m_tFaw cf =? 0 then m_tfaw_count b else alter (λ c, c + 1) r (m_tfaw_count b)).

Definition activate (bank : Z) (b : mem_banks) : mem_banks :=
  mark (rank_of bank) (mkMemBanks (<[Z.to_nat bank := m_bank_busy_time cf]> (m_bankBusyCounter b))
    (m_oldRequest b) (m_tfaw_shift b) (m_tfaw_count b)).

Definition do_refresh (bank : Z) (m : MemoryControl) : MemoryControl :=
  let r := mc_refresh m in
  let basic := m_basic_bus_busy_time cf in
  mkMemCtl (mc_queues m) (activate bank (mc_banks m))
    (mkMemBus basic basic basic (m_busBusy_WhichRank (mc_bus m)))
    (mkMemRefresh (m_refresh_period_system r) (m_refresh_count r) (m_need_refresh r - 1)
       (if total_banks <=? m_refresh_bank r + 1 then 0 else m_refresh_bank r + 1))
    (mc_sched m).

(** The answer the directory gets: the request with its time of arrival. *)
Definition answer (now : Z) (req : MemoryNode) : MemoryNode :=
  mkMemNode (now + (m_mem_ctl_latency cf + m_memFixedDelay cf) * m_mem_bus_cycle_multiplier cf)
    (mr_msg_counter req) (mr_msgptr req) (mr_addr req) (mr_is_mem_read req) (mr_is_dirty_wb req).

Definition answers (now : Z) (req : MemoryNode) : list MemoryNode :=
  match mr_msgptr req with None => [] | Some _ => [answer now req] end.

Definition do_request (now bank : Z) (req : MemoryNode) (m : MemoryControl) : MemoryControl :=
  let q := mc_queues m in
  let b := mc_banks m in
  let basic := m_basic_bus_busy_time cf in
  mkMemCtl
    (mkMemQueues (m_msg_counter q) (m_response_queue q ++ answers now req) (m_input_queue q)
       (<[Z.to_nat bank := tail (bank_queue bank m)]> (m_bankQueues q)))
    (activate bank (mkMemBanks (m_bankBusyCounter b) (<[Z.to_nat bank := false]> (m_oldRequest b))
       (m_tfaw_shift b) (m_tfaw_count b)))
    (if mr_is_mem_read req
     then mkMemBus (basic + m_read_write_delay cf) (basic + m_rank_rank_delay cf) basic (rank_of bank)
     else mkMemBus basic basic basic (rank_of bank))
    (mc_refresh m) (mc_sched m).

(** Fixed-delay mode has no guard but the queue. *)
Definition may_request (bank : Z) (req : MemoryNode) (m : MemoryControl) : Prop :=
  m_memFixedDelay cf = 0 → may_issue bank req m.

(** What a bank's turn in the scan does. *)
Inductive bank_step (now bank : Z) : MemoryControl → list issue → MemoryControl → Prop :=
  | step_empty m :
      bank_queue bank m = [] → bank_step now bank m [] m
  | step_wait m :
      bank_queue bank m ≠ [] → bank_step now bank m [] (set_idle IDLECOUNT_MAX_VALUE m)
  | step_request m req :
      head (bank_queue bank m) = Some req → may_request bank req m →
      bank_step now bank m [Request bank req] (do_request now bank req (set_idle IDLECOUNT_MAX_VALUE m))
  | step_refresh m es m' :
      may_refresh bank m → bank_step now bank (do_refresh bank m) es m' →
      bank_step now bank m (Refresh bank :: es) m'.

(** The scan visits the banks from the one after [rr], around the ring. *)
Definition scan_order (rr : Z) : list Z :=
  map (λ i : nat, (rr + 1 + Z.of_nat i) `mod` total_banks) (seq 0 (Z.to_nat total_banks)).

Inductive bank_steps (now : Z) : list Z → MemoryControl → list issue → MemoryControl → Prop :=
  | steps_nil m : bank_steps now [] m [] m
  | steps_cons bank banks m m1 m2 es1 es2 :
      bank_step now bank (set_roundRobin bank m) es1 m1 → bank_steps now banks m1 es2 m2 →
      bank_steps now (bank :: banks) m (es1 ++ es2) m2.

Definition bank_of (addr : Z) : Z := match getBank cf addr with Ret bank => bank | Raise _ => 0 end.

(** One request at most moves from the common queue to its bank's. *)
Definition accept_input (m : MemoryControl) : MemoryControl :=
  match m_input_queue (mc_queues m) with
  | [] => m
  | req :: input =>
      let m := set_idle IDLECOUNT_MAX_VALUE m in
      let bank := bank_of (mr_addr req) in
      let q := bank_queue bank m in
      if Z.of_nat (length q) <? u32 (m_bank_queue_size cf)
      then set_bankQueues (<[Z.to_nat bank := q ++ [req]]> (m_bankQueues (mc_queues m))) (set_input input m)
      else m
  end.

Inductive cycle_step (now : Z) (m : MemoryControl) (es : list issue) : MemoryControl → Prop :=
  | cycle_intro m0 m1 rr :
      tick_refresh cf (tick_counters m) = Ret m0 → 0 ≤ rr < total_banks →
      (m_memRandomArbitrate cf = 0 → rr = m_roundRobin (mc_sched m)) →
      bank_steps now (scan_order rr) (set_roundRobin rr (new_batch m0)) es m1 →
      cycle_step now m es (accept_input m1).

(** ** The steps of the code are these steps *)

Context {W : Type}.
Variable random : nat → Z.
Variables (self directory : nat).
Hypothesis random_pos : ∀ n, 0 ≤ random n.
Implicit Types st : mem_state W.

(** The profiler and [random()] aside, only the controller and the event queue change. *)
Record frame st st' : Prop := {
  fr_evq : mem_evq st' = mem_evq st;
  fr_banks : m_memBankCount (prof st') = m_memBankCount (prof st)
}.

Lemma shl_one_ok :
  0 < m_tFaw cf → ∃ k, shl_one (m_tFaw cf - 1) = Ret k ∧ u64 k = 2 ^ (m_tFaw cf - 1).
Proof.
  intros H0. pose proof (co_tfaw cf Hcf) as Ht. unfold shl_one.
  rewrite (proj2 (Z.leb_le _ _)), (proj2 (Z.ltb_lt _ _)) by lia. cbn [andb]. eexists. split; [done|].
  rewrite Z.shiftl_1_l.
  assert (0 < 2 ^ (m_tFaw cf - 1)) by (apply Z.pow_pos_nonneg; lia).
  assert (2 ^ (m_tFaw cf - 1) < 2 ^ 31) by (apply Z.pow_lt_mono_r; lia).
  rewrite i32_id by lia. unfold u64. by rewrite Z.mod_small by lia.
Qed.

Lemma markTfaw_ok rank st :
  shape (mc st) → 0 ≤ rank < total_ranks →
  ∃ st', markTfaw cf rank st = Ret st' ∧ frame st st' ∧
    mc st' = set_banks (mark rank (mc_banks (mc st))) (mc st).
Proof.
  intros Hs Hr. unfold markTfaw, mark. pose proof (co_tfaw cf Hcf) as Ht.
  destruct (Z.eqb_spec (m_tFaw cf) 0) as [E|E].
  { exists st. split; [done|]. split; [by split|]. by destruct st as [[? []] ? ? ?]. }
  destruct (shl_one_ok ltac:(lia)) as (k & -> & Hk). cbn [mbind outcome_bind]. unfold banks_of.
  destruct (at_int_ok (m_tfaw_shift (mc_banks (mc st))) _ _ (sh_shift _ Hs) Hr) as (s & -> & Hx).
  cbn [mbind outcome_bind]. rewrite (set_int_ok _ _ _ _ (sh_shift _ Hs) Hr). cbn [mbind outcome_bind].
  destruct (at_int_ok (m_tfaw_count (mc_banks (mc st))) _ _ (sh_count _ Hs) Hr) as (c & -> & Hc).
  cbn [mbind outcome_bind]. rewrite (set_int_ok _ _ _ _ (sh_count _ Hs) Hr). cbn [mbind outcome_bind].
  eexists. split; [done|]. split; [by split|].
  rewrite Hk, (alter_insert (λ s, Z.lor s _) _ _ _ Hx), (alter_insert (λ c, c + 1) _ _ _ Hc). done.
Qed.

Lemma issueRefresh_ok bank st :
  shape (mc st) → 0 ≤ bank < total_banks →
  ∃ b st', issueRefresh cf bank st = Ret (b, st') ∧ frame st st' ∧
    (if b : bool then may_refresh bank (mc st) ∧ mc st' = do_refresh bank (mc st) else mc st' = mc st).
Proof.
  intros Hs Hb. pose proof (rank_of_range bank Hb) as Hr. unfold issueRefresh, refresh_of, banks_of, bus_of.
  assert (Hno : ∃ b st', Ret (false, st) = Ret (b, st') ∧ frame st st' ∧
    (if b : bool then may_refresh bank (mc st) ∧ mc st' = do_refresh bank (mc st) else mc st' = mc st)).
  { exists false, st. split; [done|]. by split. }
  destruct (Z.eqb_spec (m_need_refresh (mc_refresh (mc st))) 0) as [|Hneed]; [done|].
  destruct (Z.eqb_spec (m_refresh_bank (mc_refresh (mc st))) bank) as [Hbank|]; cbn [orb negb]; [|done].
  rewrite (lookup_at _ _ _ (sh_busy _ Hs) Hb). cbn [mbind outcome_bind].
  destruct (Z.ltb_spec 0 (m_bankBusyCounter (mc_banks (mc st)) !!! Z.to_nat bank)) as [|Hfree]; [done|].
  destruct (Z.ltb_spec 0 (m_busBusyCounter_Basic (mc_bus (mc st)))) as [|Hbus]; [done|].
  rewrite (getRank_ok _ Hb). cbn [mbind outcome_bind].
  rewrite (lookup_at _ _ _ (sh_count _ Hs) Hr). cbn [mbind outcome_bind].
  destruct (Z.leb_spec ACTIVATE_PER_TFAW (m_tfaw_count (mc_banks (mc st)) !!! Z.to_nat (rank_of bank)))
    as [|Htf]; [done|].
  rewrite (set_int_ok _ _ _ _ (sh_busy _ Hs) Hb). cbn [mbind outcome_bind].
  match goal with |- context [markTfaw cf _ ?st1] => destruct (markTfaw_ok (rank_of bank) st1) as (st' & -> & F & E) end.
  { destruct Hs. split; cbn; rewrite ?length_insert; done. } { done. }
  cbn [mbind outcome_bind]. exists true, st'. split; [done|]. split; [by destruct F; split|].
  split; [by split|]. rewrite E. unfold do_refresh. rewrite m_total_banks_eq. done.
Qed.

(** A guard answered without touching the controller. *)
Definition answered (st : mem_state W) (P : Prop) (o : outcome (bool * mem_state W)) : Prop :=
  ∃ b st', o = Ret (b, st') ∧ frame st st' ∧ mc st' = mc st ∧ (b = true → P).

Lemma answered_no st st' P :
  mem_evq st' = mem_evq st → m_memBankCount (prof st') = m_memBankCount (prof st) → mc st' = mc st →
  answered st P (Ret (false, st')).
Proof. intros E1 E2 E3. exists false, st'. split; [done|]. by split. Qed.

Lemma busReady_ok bank req st :
  shape (mc st) → 0 ≤ bank < total_banks → head (bank_queue bank (mc st)) = Some req →
  busy bank (mc st) ≤ 0 → answered st (may_issue bank req (mc st)) (busReady cf bank st).
Proof.
  intros Hs Hb Hq Hfree. pose proof (rank_of_range bank Hb) as Hr.
  unfold busReady, banks_of, bus_of, sched_of, queues_of.
  destruct (at_int_ok _ _ _ (sh_old _ Hs) Hb) as (old & -> & Hold). cbn [mbind outcome_bind].
  destruct (_ && negb old) eqn:E1; [by apply answered_no|].
  destruct (_ =? m_basic_bus_busy_time cf); [by apply answered_no|].
  destruct (Z.ltb_spec 0 (m_busBusyCounter_Basic (mc_bus (mc st)))); [by apply answered_no|].
  rewrite (getRank_ok _ Hb). cbn [mbind outcome_bind].
  rewrite (lookup_at _ _ _ (sh_count _ Hs) Hr). cbn [mbind outcome_bind].
  destruct (Z.leb_spec ACTIVATE_PER_TFAW (m_tfaw_count (mc_banks (mc st)) !!! Z.to_nat (rank_of bank)));
    [by apply answered_no|].
  rewrite (lookup_at _ _ _ (sh_queues _ Hs) Hb). cbn [mbind outcome_bind].
  unfold bank_queue in Hq. rewrite Hq. cbn [deref mbind outcome_bind].
  destruct (negb (mr_is_mem_read req) && _) eqn:E2; [by apply answered_no|].
  destruct (negb (negb (mr_is_mem_read req)) && _ && _) eqn:E3; [by apply answered_no|].
  exists true, st. split; [done|]. split; [by split|]. split; [done|]. intros _.
  split; [done..| | |].
  - intros Ew. rewrite Ew in E2. by apply Z.ltb_ge in E2.
  - intros Er Hne. rewrite Er, (proj2 (Z.eqb_neq _ _)) in E3 by done. by apply Z.ltb_ge in E3.
  - destruct old; [by right|]. rewrite andb_true_r in E1. left. by apply Z.ltb_ge in E1.
Qed.

Lemma queueReady_ok bank req st :
  shape (mc st) → 0 ≤ bank < total_banks → head (bank_queue bank (mc st)) = Some req →
  answered st (may_request bank req (mc st)) (queueReady cf random bank st).
Proof.
  intros Hs Hb Hq. unfold queueReady, banks_of. rewrite (lookup_at _ _ _ (sh_busy _ Hs) Hb).
  cbn [mbind outcome_bind].
  destruct (_ && negb (negb _)) eqn:E1; [by apply answered_no|]. unfold draw.
  set (d := if 2 <=? m_memRandomArbitrate cf then _ else _).
  assert (Hd : frame st d.2 ∧ mc d.2 = mc st) by (subst d; destruct (2 <=? m_memRandomArbitrate cf); by split).
  destruct d as [r st1]. cbn [snd] in Hd. destruct Hd as [[F1 F2] E].
  destruct (_ && (_ <? _)); [by apply answered_no|].
  destruct (Z.eqb_spec (m_memFixedDelay cf) 0) as [Hf|Hf]; cbn [negb].
  - destruct (busReady_ok bank req st1) as (b & st' & E' & [F1' F2'] & Hmc & Hp); [by rewrite E|done|by rewrite E| |].
    { rewrite E. cbn [negb] in E1. rewrite andb_true_r in E1. by apply Z.ltb_ge in E1. }
    exists b, st'. split; [done|]. split; [split; congruence|]. split; [congruence|].
    rewrite E in Hp. intros Hbt _. by apply Hp.
  - exists true, st1. split; [done|]. split; [by split|]. split; [done|]. by intros _ ?.
Qed.


Lemma activate_lengths bank b :
  length (m_bankBusyCounter (activate bank b)) = length (m_bankBusyCounter b) ∧
  length (m_tfaw_shift (activate bank b)) = length (m_tfaw_shift b) ∧
  length (m_tfaw_count (activate bank b)) = length (m_tfaw_count b).
Proof.
  cbn. destruct (m_tFaw cf =? 0); rewrite ?length_insert, ?length_alter; done.
Qed.

Lemma do_refresh_shape bank m : shape m → shape (do_refresh bank m).
Proof.
  intros []. destruct (activate_lengths bank (mc_banks m)) as (E1 & E2 & E3).
  split; cbn [do_refresh mc_queues mc_banks mc_sched]; rewrite ?E1, ?E2, ?E3; done.
Qed.

Lemma do_request_shape now bank req m : shape m → shape (do_request now bank req m).
Proof.
  intros []. unfold do_request. cbv zeta. match goal with |- context [activate bank ?b] =>
    destruct (activate_lengths bank b) as (E1 & E2 & E3) end.
  split; cbn [mc_queues mc_banks mc_sched m_bankQueues]; rewrite ?E1, ?E2, ?E3; cbn; rewrite ?length_insert; done.
Qed.

(** The directory is woken for the answer. *)
Definition scheduled now (req : MemoryNode) (s : world W) : Prop :=
  is_Some (mr_msgptr req) → mkNode (mr_time (answer now req)) (Some directory) ∈ nodes s.

Lemma issueRequest_ok P bank req st :
  shape (mc st) → 0 ≤ bank < total_banks → head (bank_queue bank (mc st)) = Some req →
  pending_ok P (mem_evq st) →
  ∃ st', issueRequest cf (Some directory) bank st = Ret (req, st') ∧
    pending_ok P (mem_evq st') ∧ kept (mem_evq st) (mem_evq st') ∧
    m_memBankCount (prof st') = m_memBankCount (prof st) ∧ scheduled (mem_now st) req (mem_evq st') ∧
    mc st' = do_request (mem_now st) bank req (mc st).
Proof.
  intros Hs Hb Hq Hw. pose proof (rank_of_range bank Hb) as Hr. pose proof (co_latency cf Hcf) as Hlat.
  unfold issueRequest, queues_of, banks_of. rewrite (getRank_ok _ Hb). cbn [mbind outcome_bind].
  rewrite (lookup_at _ _ _ (sh_queues _ Hs) Hb). cbn [mbind outcome_bind].
  unfold bank_queue in Hq. rewrite Hq. cbn [deref mbind outcome_bind].
  rewrite (set_int_ok _ _ _ _ (sh_queues _ Hs) Hb). cbn [mbind outcome_bind].
  set (st1 := on_mc _ st).
  assert (Hsend : ∃ st2, match mr_msgptr req with None => Ret st1 | Some _ =>
      enqueueToDirectory cf (Some directory) req (m_mem_ctl_latency cf + m_memFixedDelay cf) st1 end = Ret st2 ∧
    pending_ok P (mem_evq st2) ∧ kept (mem_evq st) (mem_evq st2) ∧
    m_memBankCount (prof st2) = m_memBankCount (prof st) ∧ scheduled (mem_now st) req (mem_evq st2) ∧
    mc st2 = set_response (m_response_queue (mc_queues (mc st)) ++ answers (mem_now st) req) (mc st1)).
  { unfold answers, scheduled. destruct (mr_msgptr req) as [p|] eqn:Ep.
    - unfold enqueueToDirectory. rewrite i32_id by lia.
      match goal with |- context [scheduleEventAbsolute _ ?t _] =>
        destruct (schedule_ok P (mem_evq st) directory t Hw) as (w & E & Hw' & K & Hin & _) end.
      { change (mem_now st1) with (getTime (mem_evq st)). lia. }
      cbn [mem_evq on_mc st1] in *. rewrite E. cbn [mbind outcome_bind]. eexists. split; [done|].
      split; [done|]. split; [done|]. split; [done|]. split; [intros _; exact Hin|].
      unfold answer. rewrite Ep. done.
    - exists st1. split; [done|]. split; [done|]. split; [apply kept_refl|]. split; [done|].
      split; [by intros [? ?]|]. rewrite app_nil_r. subst st1. by destruct st as [[[] [] ? ? ?] ? ? ?]. }
  destruct Hsend as (st2 & -> & Hw2 & K2 & Hp2 & Hsch & E2). cbn [mbind outcome_bind].
  assert (Hs2 : shape (mc st2)).
  { rewrite E2. destruct Hs. split; cbn; rewrite ?length_insert; done. }
  rewrite (set_int_ok _ _ _ _ (sh_old _ Hs2) Hb). cbn [mbind outcome_bind].
  match goal with |- context [markTfaw cf _ ?x] => destruct (markTfaw_ok (rank_of bank) x) as (st3 & -> & [F1 F2] & E3) end.
  { destruct Hs2. split; cbn; rewrite ?length_insert; done. } { done. }
  cbn [mbind outcome_bind].
  rewrite (set_int_ok _ _ total_banks) by (rewrite ?E3; first [exact (sh_busy _ Hs2)|exact Hb]).
  cbn [mbind outcome_bind]. eexists. split; [done|].
  assert (Hmc : mc st3 = set_banks (mark (rank_of bank)
      (mkMemBanks (m_bankBusyCounter (mc_banks (mc st))) (<[Z.to_nat bank := false]> (m_oldRequest (mc_banks (mc st))))
         (m_tfaw_shift (mc_banks (mc st))) (m_tfaw_count (mc_banks (mc st))))) (mc st2)).
  { rewrite E3. cbn [on_mc mc set_old]. rewrite E2. done. }
  destruct (mr_is_mem_read req) eqn:Er; cbn [mem_evq prof on_mc on_prof profileMem m_memBankCount mc];
    rewrite F1, F2; (split_and!; [done..|]); rewrite Hmc, E2; unfold do_request; rewrite Er; done.
Qed.

(** ** The scan *)

(** What every operation keeps; [P] are the events of the current cycle still to come. *)
Record mem_ok (P : list EventQueueNode) st : Prop := {
  mo_shape : shape (mc st);
  mo_evq : pending_ok P (mem_evq st);
  mo_prof : length (m_memBankCount (prof st)) = Z.to_nat total_banks;
  mo_addrs : Forall (λ r, 0 ≤ mr_addr r) (m_input_queue (queues_of st));
  mo_answers : ∀ r, r ∈ m_response_queue (queues_of st) → mem_now st < mr_time r →
    mkNode (mr_time r) (Some directory) ∈ nodes (mem_evq st)
}.

Lemma bank_step_shape now bank m es m' : bank_step now bank m es m' → shape m → shape m'.
Proof.
  induction 1; intros Hs; [done|by destruct Hs; split| |].
  - apply do_request_shape. by destruct Hs; split.
  - apply IHbank_step. by apply do_refresh_shape.
Qed.

Lemma bank_step_robin now bank m es m' :
  bank_step now bank m es m' → m_roundRobin (mc_sched m') = m_roundRobin (mc_sched m).
Proof. by induction 1. Qed.

Lemma bank_step_input now bank m es m' :
  bank_step now bank m es m' → m_input_queue (mc_queues m') = m_input_queue (mc_queues m).
Proof. by induction 1. Qed.

Lemma next_bank bank :
  0 ≤ bank < total_banks →
  (if total_banks <=? bank + 1 then 0 else bank + 1) = (bank + 1) `mod` total_banks.
Proof.
  intros Hb. destruct (Z.leb_spec total_banks (bank + 1)).
  - replace (bank + 1) with total_banks by lia. by rewrite Z.mod_same by lia.
  - by rewrite Z.mod_small by lia.
Qed.

(** One round of the scan. *)
Definition scanned (P : list EventQueueNode) (s s' : scan_state (W := W)) (es : list issue) : Prop :=
  mem_ok P (sc_st s') ∧ kept (mem_evq (sc_st s)) (mem_evq (sc_st s')) ∧ sc_issued s' = sc_issued s ++ es.

Lemma mem_ok_frame P st st' :
  mem_ok P st → frame st st' → shape (mc st') → mc_queues (mc st') = mc_queues (mc st) → mem_ok P st'.
Proof.
  intros [] [F1 F2] Hs Hq. unfold queues_of, mem_now in *.
  split; unfold queues_of, mem_now; rewrite ?F1, ?F2, ?Hq; done.
Qed.

Lemma scan_request_ok P bank req st :
  mem_ok P st → 0 ≤ bank < total_banks → head (bank_queue bank (mc st)) = Some req →
  ∃ st', issueRequest cf (Some directory) bank st = Ret (req, st') ∧ mem_ok P st' ∧
    kept (mem_evq st) (mem_evq st') ∧ mc st' = do_request (mem_now st) bank req (mc st).
Proof.
  intros [Hs Hw Hp Ha Hans] Hb Hq.
  destruct (issueRequest_ok P bank req st) as (st' & -> & Hw' & K & Hp' & Hsch & E); [done..|].
  exists st'. split; [done|]. split; [|done]. unfold queues_of, mem_now in *.
  split; unfold queues_of, mem_now; rewrite ?E, ?Hp'; [by apply do_request_shape|done..|].
  cbn [do_request mc_queues m_response_queue]. intros r Hr. rewrite (kept_time _ _ K). intros Hlt.
  apply elem_of_app in Hr as [Hr|Hr]; [apply (kept_nodes _ _ K); by apply Hans|].
  unfold answers in Hr. destruct (mr_msgptr req) eqn:Ep; [|by apply not_elem_of_nil in Hr].
  apply list_elem_of_singleton in Hr as ->. apply Hsch. by rewrite Ep.
Qed.

Lemma scan_bank_ok P s k :
  mem_ok P (sc_st s) →
  let bank := (m_roundRobin (sched_of (sc_st s)) + 1) `mod` total_banks in
  ∃ s' es, scan_bank cf random (Some directory) s k = Ret s' ∧ scanned P s s' es ∧
    bank_step (mem_now (sc_st s)) bank (set_roundRobin bank (mc (sc_st s))) es (mc (sc_st s')).
Proof.
  intros Hok bank. pose proof (sh_robin _ (mo_shape _ _ Hok)) as Hrr.
  assert (Hb : 0 ≤ bank < total_banks) by (apply Z.mod_pos_bound; lia).
  unfold scan_bank. rewrite m_total_banks_eq. unfold sched_of in *. rewrite next_bank by done.
  fold bank. set (st1 := on_mc (set_roundRobin bank) (sc_st s)).
  assert (H1 : mem_ok P st1).
  { apply (mem_ok_frame P (sc_st s)); [done|by split| |done]. by destruct Hok as [[] _ _ _ _]; split. }
  destruct (issueRefresh_ok bank st1 (mo_shape _ _ H1) Hb) as (rf & st2 & -> & F2 & Hrf).
  cbn [mbind outcome_bind].
  set (es0 := if rf then [Refresh bank] else []).
  assert (H2 : mem_ok P st2 ∧ ∀ es m', bank_step (mem_now (sc_st s)) bank (mc st2) es m' →
    bank_step (mem_now (sc_st s)) bank (mc st1) (es0 ++ es) m').
  { destruct rf; [destruct Hrf as [Hmay E]|rename Hrf into E]; rewrite E.
    - split; [|by intros es m'; apply step_refresh].
      apply (mem_ok_frame P st1); [done..|rewrite E; apply do_refresh_shape, H1|by rewrite E].
    - split; [|done]. apply (mem_ok_frame P st1); [done..|rewrite E; apply H1|by rewrite E]. }
  destruct H2 as [H2 Hcomb]. pose proof (mo_shape _ _ H2) as Hs2.
  assert (Ev2 : mem_evq st2 = mem_evq (sc_st s)) by apply F2.
  unfold queues_of. rewrite (lookup_at _ _ _ (sh_queues _ Hs2) Hb). cbn [mbind outcome_bind].
  fold (bank_queue bank (mc st2)). set (q := bank_queue bank (mc st2)). cbv zeta.
  set (st3 := if 1 <? Z.of_nat (length q) then _ else st2).
  assert (F3 : frame st2 st3 ∧ mc st3 = mc st2) by (subst st3; destruct (1 <? _); by split).
  destruct F3 as [F3 E3].
  destruct (q) as [|req q'] eqn:Eq; cbn [length Z.of_nat Z.ltb Z.compare].
  { eexists _, es0. split; [done|]. split; [split_and!|]; cbn [sc_st sc_issued].
    - apply (mem_ok_frame P st2); rewrite ?E3; done.
    - rewrite (fr_evq _ _ F3), Ev2. apply kept_refl.
    - done.
    - rewrite <- (app_nil_r es0). apply Hcomb. rewrite E3. by apply step_empty. }
  set (st4 := on_mc (set_idle IDLECOUNT_MAX_VALUE) st3).
  assert (H4 : mem_ok P st4).
  { apply (mem_ok_frame P st2); [done|by destruct F3; split| |]; cbn [st4 on_mc mc]; rewrite E3; [|done].
    by destruct Hs2; split. }
  assert (Eq4 : mc st4 = set_idle IDLECOUNT_MAX_VALUE (mc st2)) by (cbn; by rewrite E3).
  assert (Hq4 : head (bank_queue bank (mc st4)) = Some req).
  { rewrite Eq4. change (bank_queue bank (set_idle _ _)) with (bank_queue bank (mc st2)). fold q. by rewrite Eq. }
  destruct (queueReady_ok bank req st4 (mo_shape _ _ H4) Hb Hq4) as (rd & st5 & -> & F5 & E5 & Hready).
  cbn [mbind outcome_bind].
  assert (H5 : mem_ok P st5) by (apply (mem_ok_frame P st4); [done..|rewrite E5; apply H4|by rewrite E5]).
  assert (Ev5 : mem_evq st5 = mem_evq (sc_st s)).
  { rewrite (fr_evq _ _ F5). cbn [st4 on_mc mem_evq]. by rewrite (fr_evq _ _ F3). }
  destruct rd.
  - destruct (scan_request_ok P bank req st5) as (st6 & -> & H6 & K6 & E6); [done..|by rewrite E5|].
    cbn [mbind outcome_bind]. set (st7 := if m_memFixedDelay cf =? 0 then st6 else _).
    assert (F7 : frame st6 st7 ∧ mc st7 = mc st6) by (subst st7; destruct (_ =? 0); by split).
    destruct F7 as [F7 E7]. eexists _, (es0 ++ [Request bank req]). split; [done|].
    split; [split_and!|]; cbn [sc_st sc_issued].
    + apply (mem_ok_frame P st6); [done..|rewrite E7; apply H6|by rewrite E7].
    + rewrite (fr_evq _ _ F7), <- Ev5. done.
    + by rewrite app_assoc.
    + apply Hcomb. rewrite E7, E6, E5, Eq4. unfold mem_now. rewrite Ev5. apply step_request.
      * fold q. by rewrite Eq.
      * specialize (Hready eq_refl). rewrite Eq4 in Hready.
        intros Hf. destruct (Hready Hf). by split.
  - eexists _, es0. split; [done|]. split; [split_and!|]; cbn [sc_st sc_issued].
    + done.
    + rewrite Ev5. apply kept_refl.
    + done.
    + rewrite <- (app_nil_r es0). apply Hcomb. rewrite E5, Eq4. apply step_wait. fold q. by rewrite Eq.
Qed.

Definition ring (rr : Z) (n : nat) : list Z :=
  map (λ i : nat, (rr + 1 + Z.of_nat i) `mod` total_banks) (seq 0 n).

Lemma ring_S rr n : ring rr (S n) = (rr + 1) `mod` total_banks :: ring ((rr + 1) `mod` total_banks) n.
Proof.
  pose proof total_ranks_pos. unfold ring. cbn [seq map]. f_equal; [f_equal; lia|].
  rewrite <- seq_shift, map_map. apply map_ext. intros i.
  rewrite <- (Z.add_assoc (_ `mod` _)), Zplus_mod_idemp_l. f_equal. lia.
Qed.

Lemma scan_loop_ok P n : ∀ s k,
  mem_ok P (sc_st s) →
  ∃ s' es, foldM (scan_bank cf random (Some directory)) s (seq k n) = Ret s' ∧ scanned P s s' es ∧
    bank_steps (mem_now (sc_st s)) (ring (m_roundRobin (sched_of (sc_st s))) n) (mc (sc_st s)) es (mc (sc_st s')).
Proof.
  induction n as [|n IH]; intros s k Hok.
  { exists s, []. split; [done|]. split; [|constructor]. split_and!; [done|apply kept_refl|by rewrite app_nil_r]. }
  destruct (scan_bank_ok P s k Hok) as (s1 & es1 & E1 & (H1 & K1 & I1) & B1).
  destruct (IH s1 (S k) H1) as (s2 & es2 & E2 & (H2 & K2 & I2) & B2).
  exists s2, (es1 ++ es2). cbn [seq foldM]. rewrite E1. cbn [mbind outcome_bind]. split; [done|].
  split; [split_and!; [done|by eapply kept_trans|by rewrite I2, I1, app_assoc]|].
  rewrite ring_S. econstructor; [exact B1|].
  unfold sched_of in B2. rewrite (bank_step_robin _ _ _ _ _ B1) in B2. unfold mem_now in *.
  rewrite (kept_time _ _ K1) in B2. exact B2.
Qed.

Lemma mem_scan_ok P st :
  mem_ok P st →
  ∃ s es, scan cf random (Some directory) st = Ret s ∧ sc_issued s = es ∧ mem_ok P (sc_st s) ∧
    kept (mem_evq st) (mem_evq (sc_st s)) ∧
    bank_steps (mem_now st) (scan_order (m_roundRobin (sched_of st))) (mc st) es (mc (sc_st s)).
Proof.
  intros Hok. unfold scan. rewrite m_total_banks_eq.
  destruct (scan_loop_ok P (Z.to_nat total_banks) (mkScan st [] 0 0) 0 Hok) as (s & es & E & (H & K & I) & B).
  by exists s, es.
Qed.

(** The first and the last bank of the scan. *)
Lemma ring_last rr n : 0 ≤ rr < total_banks → last (ring rr (S n)) = Some ((rr + 1 + Z.of_nat n) `mod` total_banks).
Proof. intros _. unfold ring. rewrite seq_S, map_app. cbn [map]. apply last_snoc. Qed.

Lemma bank_steps_robin now banks m es m' :
  bank_steps now banks m es m' →
  m_roundRobin (mc_sched m') = default (m_roundRobin (mc_sched m)) (last banks).
Proof.
  induction 1 as [|bank banks m m1 m2 es1 es2 H1 H2 IH]; [done|]. rewrite IH.
  rewrite (bank_step_robin _ _ _ _ _ H1). destruct banks; [done|]. rewrite last_cons_cons. destruct (last (_ :: _)) eqn:E; [done|by apply last_None in E].
Qed.

Lemma bank_steps_shape now banks m es m' :
  bank_steps now banks m es m' → Forall (λ b, 0 ≤ b < total_banks) banks → shape m → shape m'.
Proof.
  induction 1 as [|bank banks m m1 m2 es1 es2 H1 H2 IH]; intros Hb Hs; [done|].
  apply Forall_cons in Hb as [Hb Hbs]. apply IH; [done|]. eapply bank_step_shape; [done|].
  by destruct Hs; split.
Qed.

Lemma bank_steps_input now banks m es m' :
  bank_steps now banks m es m' → m_input_queue (mc_queues m') = m_input_queue (mc_queues m).
Proof.
  induction 1 as [|bank banks m m1 m2 es1 es2 H1 H2 IH]; [done|]. rewrite IH.
  by rewrite (bank_step_input _ _ _ _ _ H1).
Qed.

(** ** The rest of the cycle *)

Lemma take_input_ok P st :
  mem_ok P st →
  ∃ st', take_input cf st = Ret st' ∧ mem_ok P st' ∧ mem_evq st' = mem_evq st ∧ mc st' = accept_input (mc st).
Proof.
  intros Hok. pose proof Hok as [Hs Hw Hp Ha Hans]. unfold take_input, accept_input, queues_of in *.
  destruct (m_input_queue (mc_queues (mc st))) as [|req input] eqn:Ei; [by exists st|].
  apply Forall_cons in Ha as [Ha Has]. destruct (getBank_ok _ Ha) as (bank & Eb & Hb).
  unfold bank_of, bank_queue. rewrite Eb. cbn [mbind outcome_bind on_mc mc set_idle set_sched mc_queues].
  rewrite (lookup_at _ _ _ (sh_queues _ Hs) Hb). cbn [mbind outcome_bind].
  rewrite (set_int_ok _ _ _ _ (sh_queues _ Hs) Hb).
  destruct (_ <? _); cbn [mbind outcome_bind]; eexists; (split; [done|]); (split; [|done]);
    destruct Hs; split; unfold queues_of, mem_now in *; cbn; rewrite ?length_insert, ?Ei; try done;
    try (by split; cbn; rewrite ?length_insert); by constructor.
Qed.

Definition overrun (m : MemoryControl) : Prop :=
  m_memFixedDelay cf = 0 ∧ m_refresh_count (mc_refresh m) = 1 ∧ 10 ≤ m_need_refresh (mc_refresh m).

(** The count of cycles to the next refresh does not run away. *)
Definition refresh_ok (m : MemoryControl) : Prop := 1 ≤ m_refresh_count (mc_refresh m) < 2 ^ 31.

Lemma tick_refresh_ok m :
  refresh_ok m →
  (overrun m ∧ tick_refresh cf m = Raise AssertFailed) ∨
  (¬ overrun m ∧ ∃ r, tick_refresh cf m = Ret (set_refresh r m)).
Proof.
  unfold refresh_ok, overrun, tick_refresh. intros Hc.
  destruct (Z.eqb_spec (m_memFixedDelay cf) 0) as [Hf|Hf].
  - rewrite i32_id by lia. destruct (Z.eqb_spec (m_refresh_count (mc_refresh m) - 1) 0).
    + destruct (Z.ltb_spec (m_need_refresh (mc_refresh m)) 10); cbn [assertb mbind outcome_bind].
      * right. split; [lia|]. by eexists.
      * left. split; [lia|done].
    + right. split; [lia|]. by eexists.
  - destruct (Z.eqb_spec (m_refresh_count (mc_refresh m)) 0); [lia|]. right. split; [tauto|]. by eexists.
Qed.

Lemma tick_shape m : shape m → shape (tick_counters m).
Proof.
  intros []. split; cbn; rewrite ?length_map, ?length_zip_with, ?length_map; try done. lia.
Qed.

Lemma new_batch_shape m : shape m → shape (new_batch m).
Proof.
  intros []. unfold new_batch. destruct (existsb id _); [by split|].
  split; cbn; rewrite ?length_zip_with; try done. lia.
Qed.

Lemma randomize_ok P st :
  mem_ok P st → ∃ st' rr, randomize cf random st = Ret st' ∧ mem_ok P st' ∧ mem_evq st' = mem_evq st ∧
    0 ≤ rr < total_banks ∧ (m_memRandomArbitrate cf = 0 → rr = m_roundRobin (sched_of st)) ∧
    mc st' = set_roundRobin rr (mc st).
Proof.
  intros Hok. pose proof (sh_robin _ (mo_shape _ _ Hok)) as Hrr. unfold randomize, draw.
  destruct (Z.eqb_spec (m_memRandomArbitrate cf) 0).
  - exists st, (m_roundRobin (sched_of st)). split_and!; try done; [apply Hrr..|]. by destruct st as [[? ? ? ? []] ? ? ?].
  - pose proof (random_pos (mem_draws st)). unfold rem_int. rewrite m_total_banks_eq, (proj2 (Z.eqb_neq _ _)) by lia.
    cbn [mbind outcome_bind]. rewrite Z.rem_mod_nonneg by lia.
    assert (0 ≤ random (mem_draws st) `mod` total_banks < total_banks) by (apply Z.mod_pos_bound; lia).
    eexists _, (random (mem_draws st) `mod` total_banks). split; [done|]. split; [|done].
    apply (mem_ok_frame P st); [done|by split| |done]. by destruct Hok as [[] ? ? ? ?]; split.
Qed.

(** One memory cycle: the only way to stop is the assertion on refreshes. *)
Lemma executeCycle_ok P st :
  mem_ok P st → refresh_ok (mc st) →
  (overrun (mc st) ∧ executeCycle cf random (Some directory) st = Raise AssertFailed) ∨
  (¬ overrun (mc st) ∧ ∃ st' es, executeCycle cf random (Some directory) st = Ret (st', es) ∧
    mem_ok P st' ∧ kept (mem_evq st) (mem_evq st') ∧ cycle_step (mem_now st) (mc st) es (mc st')).
Proof.
  intros Hok Hr. unfold executeCycle.
  destruct (tick_refresh_ok (tick_counters (mc st)) Hr) as [[Ho E]|[Ho [r E]]];
    [left; by rewrite E|right]. split; [done|]. rewrite E. cbn [mbind outcome_bind].
  set (m0 := set_refresh r (tick_counters (mc st))) in *.
  assert (H0 : mem_ok P (on_mc (λ _, new_batch m0) st)).
  { apply (mem_ok_frame P st); [done|by split|apply new_batch_shape|].
    - pose proof (tick_shape _ (mo_shape _ _ Hok)) as []. by split.
    - cbn. unfold new_batch. by destruct (existsb id _). }
  destruct (randomize_ok P _ H0) as (st1 & rr & -> & H1 & V1 & Hrr & Hrr0 & E1). cbn [mbind outcome_bind].
  destruct (mem_scan_ok P st1 H1) as (s & es & -> & Hes & H2 & K2 & B2). cbn [mbind outcome_bind].
  match goal with |- context [take_input cf ?x] =>
    destruct (take_input_ok P x) as (st3 & -> & H3 & V3 & E3) end.
  { apply (mem_ok_frame P (sc_st s)); [done|by split|apply H2|done]. }
  cbn [mbind outcome_bind]. eexists _, _. split; [done|]. split; [done|].
  cbn [on_mc on_prof mem_evq mc] in *. rewrite V1 in K2. rewrite V3. split; [done|]. rewrite E3, Hes.
  apply (cycle_intro _ _ _ m0 (mc (sc_st s)) rr); [done..| |].
  - intros Hz. rewrite (Hrr0 Hz). unfold sched_of. cbn [on_mc mc]. unfold new_batch, m0. by destruct (existsb id _).
  - unfold sched_of in B2. rewrite E1 in B2. unfold mem_now in *. rewrite V1 in B2. exact B2.
Qed.

End config.
