(* ===== verification/MemoryRun.v ===== *)
(** * Runs of the memory controller

    What the directory, the event queue and the clock of the memory can do to the
    controller, as a step relation, with the invariant of all reachable states:
    no operation faults (refreshes in time aside), the controller is only asleep
    when no request waits, and while it is awake its next cycle is scheduled. *)

From stdpp Require Import list numbers.
From S2P Require Import Prelude PrioHeap EventQueue MemoryControl MemoryCycle.
Local Open Scope Z_scope.

(** ** Work and sleep *)

Definition no_work (cf : mem_config) (m : MemoryControl) : Prop :=
  m_input_queue (mc_queues m) = [] ∧ ∀ bank, 0 ≤ bank < total_banks cf → bank_queue bank m = [].

Section idle.
Context (cf : mem_config) (Hcf : config_ok cf).
Notation total := (total_banks cf).

Definition busy_now (m : MemoryControl) : Prop := m_idleCount (mc_sched m) = IDLECOUNT_MAX_VALUE.

Lemma bank_step_idle now bank m es m' :
  bank_step cf now bank m es m' → busy_now m' ∨ bank_queue bank m' = [] ∧
    (∀ b, bank_queue b m' = bank_queue b m) ∧ m_idleCount (mc_sched m') = m_idleCount (mc_sched m).
Proof. by induction 1; [right|left|left|]. Qed.

Lemma bank_step_keeps_busy now bank m es m' : bank_step cf now bank m es m' → busy_now m → busy_now m'.
Proof. by induction 1; eauto. Qed.

Lemma bank_steps_keep_busy now banks m es m' : bank_steps cf now banks m es m' → busy_now m → busy_now m'.
Proof. induction 1 as [|bank banks m m1 m2 es1 es2 H1 H2 IH]; [done|]. intros Hm. by eapply IH, bank_step_keeps_busy. Qed.

Lemma bank_steps_idle now banks m es m' :
  bank_steps cf now banks m es m' → busy_now m' ∨
    (∀ b, b ∈ banks → bank_queue b m = []) ∧ ∀ b, bank_queue b m' = bank_queue b m.
Proof.
  induction 1 as [|bank banks m m1 m2 es1 es2 H1 H2 IH]; [right|].
  { split; [|done]. by intros b ?%not_elem_of_nil. }
  destruct IH as [IH|[IH1 IH2]]; [by left|].
  destruct (bank_step_idle _ _ _ _ _ H1) as [Hb|(Hb & Hq & _)].
  { left. by eapply bank_steps_keep_busy. }
  right. split.
  - intros b [->|Hin]%elem_of_cons; [by rewrite <- Hb, Hq|]. specialize (IH1 b Hin). by rewrite Hq in IH1.
  - intros b. by rewrite IH2, Hq.
Qed.

Lemma scan_order_all rr b : 0 ≤ b < total → b ∈ scan_order cf rr.
Proof.
  intros Hb. unfold scan_order. apply list_elem_of_fmap.
  exists (Z.to_nat ((b - rr - 1) `mod` total)).
  assert (0 ≤ (b - rr - 1) `mod` total < total) by (apply Z.mod_pos_bound; lia). split.
  - rewrite Z2Nat.id by lia. rewrite Zplus_mod_idemp_r. replace (rr + 1 + (b - rr - 1)) with b by lia.
    by rewrite Z.mod_small.
  - apply elem_of_seq. lia.
Qed.

Lemma cycle_idle now m es m' : shape cf m → cycle_step cf now m es m' → busy_now m' ∨ no_work cf m'.
Proof.
  intros Hs [m0 m1 rr Ht Hrr _ Hb]. unfold accept_input, no_work.
  destruct (m_input_queue (mc_queues m1)) as [|req input] eqn:Ei; [|left; by destruct (_ <? _)].
  destruct (bank_steps_idle _ _ _ _ _ Hb) as [|[H1 H2]]; [by left|right].
  split; [done|]. intros bank Hbank. rewrite H2. apply H1. by apply scan_order_all.
Qed.

Lemma bank_step_quiet now bank m es m' :
  bank_step cf now bank m es m' → bank_queue bank m = [] → ∀ b, bank_queue b m' = bank_queue b m.
Proof.
  induction 1 as [| |m req Hq|m es m' _ _ IH]; intros E; [done..| |].
  - by rewrite E in Hq.
  - intros b. by rewrite IH.
Qed.

Lemma bank_steps_quiet now banks m es m' :
  bank_steps cf now banks m es m' → (∀ b, b ∈ banks → bank_queue b m = []) →
  ∀ b, bank_queue b m' = bank_queue b m.
Proof.
  induction 1 as [|bank banks m m1 m2 es1 es2 H1 H2 IH]; intros E b; [done|].
  assert (Hq : ∀ b, bank_queue b m1 = bank_queue b m).
  { apply (bank_step_quiet _ _ _ _ _ H1). apply (E bank). by left. }
  rewrite IH, Hq; [done|]. intros b' Hb'. rewrite Hq. apply E. by right.
Qed.

Lemma ring_range rr b : 0 < total → b ∈ scan_order cf rr → 0 ≤ b < total.
Proof. intros Ht (i & -> & _)%list_elem_of_fmap. apply Z.mod_pos_bound. lia. Qed.

Lemma tick_queues m m0 : tick_refresh cf (tick_counters m) = Ret m0 → mc_queues m0 = mc_queues m.
Proof.
  unfold tick_refresh. destruct (_ =? 0); [|by intros [= <-]].
  destruct (_ <? _); [by intros [= <-]|done].
Qed.

Lemma tick_sched m m0 : tick_refresh cf (tick_counters m) = Ret m0 → mc_sched m0 = mc_sched m.
Proof.
  unfold tick_refresh. destruct (_ =? 0); [|by intros [= <-]].
  destruct (_ <? _); [by intros [= <-]|done].
Qed.

Lemma new_batch_queues m : mc_queues (new_batch m) = mc_queues m.
Proof. unfold new_batch. by destruct (existsb id _). Qed.

Lemma cycle_no_work now m es m' : 0 < total → cycle_step cf now m es m' → no_work cf m → no_work cf m'.
Proof.
  intros Htot [m0 m1 rr Ht Hrr _ Hb] [Hin Hq].
  assert (Eq : mc_queues (set_roundRobin rr (new_batch m0)) = mc_queues m).
  { cbn. rewrite new_batch_queues. by eapply tick_queues. }
  unfold accept_input. rewrite (bank_steps_input _ _ _ _ _ _ Hb), Eq, Hin. split.
  { by rewrite (bank_steps_input _ _ _ _ _ _ Hb), Eq. }
  intros bank Hbank. rewrite (bank_steps_quiet _ _ _ _ _ Hb).
  - unfold bank_queue. rewrite Eq. by apply Hq.
  - intros b Hb'. unfold bank_queue. rewrite Eq. apply Hq. by eapply ring_range.
Qed.
End idle.

(** ** The invariant *)

Section run.
Context (cf : mem_config) (Hcf : config_ok cf).
Context {W : Type}.
Variable random : nat → Z.
Variables (self directory : nat).
Hypothesis random_pos : ∀ n, 0 ≤ random n.
Implicit Types st : mem_state W.
Implicit Types m : MemoryControl.

(** The refresh counters stay in their ranges. *)
Record refreshes (m : MemoryControl) : Prop := {
  re_period : 1 ≤ m_refresh_period_system (mc_refresh m) < 2 ^ 31;
  re_count : refresh_ok m;
  re_need : 0 ≤ m_need_refresh (mc_refresh m) ≤ 10;
  re_bank : 0 ≤ m_refresh_bank (mc_refresh m) < total_banks cf
}.

Lemma bank_step_refreshes now bank m es m' : bank_step cf now bank m es m' → refreshes m → refreshes m'.
Proof.
  induction 1 as [| | |m es m' Hmay _ IH]; intros Hr; [done|by destruct Hr; split..|].
  apply IH. destruct Hr as [Hp Hc Hn Hb], Hmay as [Hneed _ _ _ _].
  split; cbn; [done|done|lia|]. destruct (Z.leb_spec (total_banks cf) (m_refresh_bank (mc_refresh m) + 1)); lia.
Qed.

Lemma bank_steps_refreshes now banks m es m' : bank_steps cf now banks m es m' → refreshes m → refreshes m'.
Proof.
  induction 1 as [|bank banks m m1 m2 es1 es2 H1 H2 IH]; [done|]. intros Hm. apply IH.
  eapply bank_step_refreshes; [done|]. by destruct Hm; split.
Qed.

Lemma tick_refreshes m m0 : refreshes m → tick_refresh cf (tick_counters m) = Ret m0 → refreshes m0.
Proof.
  intros [Hp Hc Hn Hb]. unfold refresh_ok in Hc. unfold tick_refresh. cbn [tick_counters set_bus set_banks mc_refresh].
  set (count := if m_memFixedDelay cf =? 0 then _ else _).
  assert (Hcount : 0 ≤ count < 2 ^ 31) by (subst count; destruct (_ =? 0); [rewrite i32_id by lia|]; lia).
  destruct (Z.eqb_spec count 0).
  - destruct (Z.ltb_spec (m_need_refresh (mc_refresh m)) 10); [|done]. intros [= <-]. by split; cbn; try lia.
  - intros [= <-]. split; cbn; try done. unfold refresh_ok. cbn. lia.
Qed.

Lemma accept_refreshes m : refreshes m → refreshes (accept_input cf m).
Proof. intros []. unfold accept_input. destruct (m_input_queue _); [done|]. by destruct (_ <? _). Qed.

Lemma cycle_refreshes now m es m' : cycle_step cf now m es m' → refreshes m → refreshes m'.
Proof.
  intros [m0 m1 rr Ht _ _ Hb] Hr. apply accept_refreshes. eapply bank_steps_refreshes; [done|].
  assert (refreshes m0) as [] by (by eapply tick_refreshes). unfold new_batch. by destruct (existsb id _).
Qed.

Definition self_scheduled st : Prop :=
  ∃ t, mem_now st ≤ t ∧ mkNode t (Some self) ∈ nodes (mem_evq st).

(** Asleep only without work; awake, the next cycle is scheduled. *)
Record mem_inv (P : list EventQueueNode) st : Prop := {
  iv_ok : mem_ok cf directory P st;
  iv_refresh : refreshes (mc st);
  iv_asleep : m_awakened (sched_of st) = false → no_work cf (mc st);
  iv_awake : m_awakened (sched_of st) = true → self_scheduled st
}.

(** *** The operations *)

(** The end of [wakeup]. *)
Definition watchdog (m : MemoryControl) : MemoryControl :=
  let n := m_idleCount (mc_sched m) - 1 in
  if n <=? 0 then set_awakened false (set_idle n m) else set_idle n m.

Lemma mem_wakeup_ok P st :
  mem_ok cf directory P st → refreshes (mc st) →
  (overrun cf (mc st) ∧ wakeup cf random self (Some directory) st = Raise AssertFailed) ∨
  (¬ overrun cf (mc st) ∧ ∃ st' es m1, wakeup cf random self (Some directory) st = Ret (st', es) ∧
    mem_ok cf directory P st' ∧ cycle_step cf (mem_now st) (mc st) es m1 ∧ mc st' = watchdog m1 ∧
    (m_awakened (sched_of st') = true → self_scheduled st') ∧ kept (mem_evq st) (mem_evq st')).
Proof.
  intros Hok Hr. unfold wakeup.
  destruct (executeCycle_ok cf Hcf random directory random_pos P st Hok (re_count _ Hr))
    as [[Ho E]|(Ho & st1 & es & E & H1 & K & C)]; rewrite E; [by left|right].
  split; [done|]. cbn [mbind outcome_bind]. unfold sched_of at 1. cbn [on_mc mc set_idle set_sched mc_sched m_idleCount].
  destruct (Z.leb_spec (m_idleCount (mc_sched (mc st1)) - 1) 0) as [Hi|Hi].
  - eexists _, es, (mc st1). split; [done|]. split; [|split; [done|]; split; [|done]].
    + apply (mem_ok_frame _ _ P st1); [done|by split| |done]. by destruct H1 as [[] ? ? ? ?]; split.
    + unfold watchdog. by rewrite (proj2 (Z.leb_le _ _)).
  - pose proof (co_multiplier cf Hcf). unfold scheduleEvent. cbn [on_mc mem_evq].
    destruct (schedule_ok P (mem_evq st1) self (m_mem_bus_cycle_multiplier cf + getTime (mem_evq st1)))
      as (w & -> & Hw & K' & Hin & _); [apply H1|lia|].
    cbn [mbind outcome_bind]. eexists _, es, (mc st1). split; [done|].
    split; [|split; [done|]; split; [|split; [|by eapply kept_trans]]].
    + destruct H1 as [Hs ? ? ? Hans]. unfold queues_of, mem_now in *.
      split; unfold queues_of, mem_now; cbn; try done; [by destruct Hs; split|].
      intros r Hr' Hlt. rewrite (kept_time _ _ K') in Hlt. by apply (kept_nodes _ _ K'), Hans.
    + unfold watchdog. by rewrite (proj2 (Z.leb_gt _ _)) by lia.
    + intros _. eexists. split; [|exact Hin]. unfold mem_now. cbn. rewrite (kept_time _ _ K'). lia.
Qed.

(** What [enqueueMemRef] does to the controller. *)
Definition numbered (m : MemoryControl) (r : MemoryNode) : MemoryNode :=
  mkMemNode (mr_time r) (i32 (m_msg_counter (mc_queues m) + 1)) (mr_msgptr r) (mr_addr r)
    (mr_is_mem_read r) (mr_is_dirty_wb r).

Definition arrive (r : MemoryNode) (m : MemoryControl) : MemoryControl :=
  let q := mc_queues m in
  set_awakened true (set_queues (mkMemQueues (i32 (m_msg_counter q + 1)) (m_response_queue q)
    (m_input_queue q ++ [numbered m r]) (m_bankQueues q)) m).

Lemma enqueueMemRef_ok P st r :
  mem_inv P st → 0 ≤ mr_addr r →
  ∃ st', enqueueMemRef cf self r st = Ret st' ∧ mem_ok cf directory P st' ∧ mc st' = arrive r (mc st) ∧
    self_scheduled st' ∧ kept (mem_evq st) (mem_evq st').
Proof.
  intros [Hok Hr Hsl Haw] Ha. unfold enqueueMemRef. cbv zeta. cbn [mr_addr].
  destruct (getBank_ok cf Hcf _ Ha) as (bank & -> & Hb). cbn [mbind outcome_bind]. unfold profileMemReq.
  destruct Hok as [Hs Hw Hp Has Hans]. cbn [profileMem m_memBankCount].
  rewrite (lookup_at _ _ _ Hp Hb). cbn [mbind outcome_bind]. rewrite (set_int_ok _ _ _ _ Hp Hb).
  cbn [mbind outcome_bind].
  match goal with |- context [if m_awakened (sched_of ?x) then _ else _] => set (st1 := x) end.
  assert (Hgo : ∀ w p, pending_ok P w → kept (mem_evq st) w → length (m_memBankCount p) = Z.to_nat (total_banks cf) →
    mem_ok cf directory P (mkMemState (arrive r (mc st)) p w (mem_draws st))).
  { intros w p Hw' K Hp'. unfold queues_of, mem_now in *. split; unfold queues_of, mem_now; cbn; try done.
    - by destruct Hs; split.
    - by apply Forall_app; split; [|constructor].
    - intros x Hx Hlt. rewrite (kept_time _ _ K) in Hlt. by apply (kept_nodes _ _ K), Hans. }
  assert (Hp1 : length (m_memBankCount (prof st1)) = Z.to_nat (total_banks cf)) by (cbn; by rewrite length_insert).
  assert (E1 : set_awakened true (mc st1) = arrive r (mc st)) by done.
  change (m_awakened (sched_of st1)) with (m_awakened (sched_of st)).
  destruct (m_awakened (sched_of st)) eqn:Eaw.
  - exists st1. split; [done|]. specialize (Haw eq_refl).
    replace (set_awakened true (mc st1)) with (mc st1) in E1.
    2:{ subst st1. unfold sched_of in Eaw. destruct st as [[? ? ? ? []] ? ? ?]. cbn in *. by subst. }
    split; [|split; [done|]; split; [done|apply kept_refl]].
    replace st1 with (mkMemState (arrive r (mc st)) (prof st1) (mem_evq st) (mem_draws st)); [|by rewrite <- E1].
    by apply Hgo; [|apply kept_refl|].
  - unfold scheduleEvent. change (mem_evq st1) with (mem_evq st).
    destruct (schedule_ok P (mem_evq st) self (1 + getTime (mem_evq st))) as (w & -> & Hw' & K & Hin & _); [done|lia|].
    cbn [mbind outcome_bind]. eexists. split; [done|]. split; [|split; [done|]; split; [|done]].
    + by apply Hgo.
    + eexists. split; [|exact Hin]. unfold mem_now. cbn. rewrite (kept_time _ _ K). lia.
Qed.
(** ** Steps and traces *)

Inductive mem_label :=
  | Cycled (es : list issue)       (** a wakeup and what it issued *)
  | Arrived (r : MemoryNode)       (** a request from the directory *)
  | Answered (r : MemoryNode)      (** an answer the directory took *)
  | Elsewhere.                     (** other consumers ran, time passed *)

(** [triggerEvents] takes the controller's node out before it calls [wakeup]. *)
Inductive mem_step : list EventQueueNode → mem_state W → mem_label → list EventQueueNode → mem_state W → Prop :=
  | mstep_wakeup P st P' w st' es :
      pending_ok P' w → getTime w = mem_now st →
      (∀ n, n ∈ nodes (mem_evq st) → n = mkNode (mem_now st) (Some self) ∨ n ∈ nodes w) →
      wakeup cf random self (Some directory) (set_evq w st) = Ret (st', es) →
      mem_step P st (Cycled es) P' st'
  | mstep_arrive P st r st' :
      0 ≤ mr_addr r → enqueueMemRef cf self r st = Ret st' → mem_step P st (Arrived r) P st'
  | mstep_dequeue P st r st' :
      peekNode st = Ret r → dequeue st = Ret st' → mem_step P st (Answered r) P st'
  | mstep_else P st P' w :
      pending_ok P' w → mem_now st ≤ getTime w →
      (∀ t, mkNode t (Some self) ∈ nodes (mem_evq st) → mkNode t (Some self) ∈ nodes w) →
      (∀ t, getTime w < t → mkNode t (Some directory) ∈ nodes (mem_evq st) → mkNode t (Some directory) ∈ nodes w) →
      mem_step P st Elsewhere P' (set_evq w st).

(** The latest label first. *)
Inductive mem_trace : list mem_label → list EventQueueNode → mem_state W → Prop :=
  | trace_init m P w d :
      mem_init cf = Ret m → pending_ok P w → mem_trace [] P (mkMemState m (prof_init cf) w d)
  | trace_step ls P st l P' st' :
      mem_trace ls P st → mem_step P st l P' st' → mem_trace (l :: ls) P' st'.

(** *** The invariant holds in every reachable state *)

Definition mem_start (p : Z) : MemoryControl :=
  let nb := Z.to_nat (total_banks cf) in
  let nr := Z.to_nat (total_ranks cf) in
  mkMemCtl (mkMemQueues 0 [] [] (replicate nb []))
    (mkMemBanks (replicate nb 0) (replicate nb false) (replicate nr 0) (replicate nr 0))
    (mkMemBus 0 0 0 0) (mkMemRefresh p 1 0 0) (mkMemSched 0 0 0 false).

Lemma mem_init_ok : ∃ p, mem_init cf = Ret (mem_start p) ∧ 1 ≤ p < 2 ^ 31.
Proof.
  pose proof (total_ranks_pos cf Hcf) as Ht. destruct (co_refresh cf Hcf) as [Hr1 Hr2].
  pose proof (co_tfaw cf Hcf). fold (total_banks cf) in Hr1.
  unfold mem_init. rewrite m_total_banks_eq, m_total_ranks_eq by done.
  rewrite (proj2 (Z.leb_le _ _)) by lia. cbn [assertb mbind outcome_bind]. unfold quot_int.
  rewrite (proj2 (Z.eqb_neq _ _)) by lia. cbn [mbind outcome_bind].
  rewrite !(proj2 (Z.ltb_ge _ _)) by lia. cbn [orb]. rewrite Z.quot_div_nonneg by lia.
  eexists. split; [done|]. split; [by apply Z.div_le_lower_bound; lia|].
  apply Z.div_lt_upper_bound; nia.
Qed.

Lemma start_inv P w d p :
  pending_ok P w → 1 ≤ p < 2 ^ 31 → mem_inv P (mkMemState (mem_start p) (prof_init cf) w d).
Proof.
  intros Hw Hp. pose proof (total_ranks_pos cf Hcf). unfold mem_start. split.
  - split; unfold queues_of; cbn; try done.
    + split; cbn; rewrite ?length_replicate; try done. lia.
    + rewrite m_total_banks_eq by done. apply length_replicate.
    + by intros r ?%not_elem_of_nil.
  - split; unfold refresh_ok; cbn; lia.
  - intros _. split; [done|]. intros bank Hb. unfold bank_queue. cbn.
    by rewrite lookup_total_replicate_2 by lia.
  - done.
Qed.

Lemma watchdog_queues m : mc_queues (watchdog m) = mc_queues m.
Proof. unfold watchdog. by destruct (_ <=? 0). Qed.

Lemma watchdog_refreshes m : refreshes m → refreshes (watchdog m).
Proof. intros []. unfold watchdog. by destruct (_ <=? 0). Qed.

Lemma no_work_queues m m' : mc_queues m' = mc_queues m → no_work cf m → no_work cf m'.
Proof. unfold no_work, bank_queue. by intros ->. Qed.

Lemma cycle_awakened now m es m' :
  cycle_step cf now m es m' → m_awakened (mc_sched m') = m_awakened (mc_sched m).
Proof.
  intros [m0 m1 rr Ht _ _ Hb].
  assert (E : m_awakened (mc_sched m1) = m_awakened (mc_sched m)).
  { assert (Hs : ∀ now banks m es m', bank_steps cf now banks m es m' →
      m_awakened (mc_sched m') = m_awakened (mc_sched m)).
    { clear. induction 1 as [|bank banks m m1 m2 es1 es2 H1 H2 IH]; [done|]. rewrite IH. clear IH H2.
      change (m_awakened (mc_sched m)) with (m_awakened (mc_sched (set_roundRobin bank m))). by induction H1. }
    rewrite (Hs _ _ _ _ _ Hb). cbn. rewrite <- (tick_sched cf _ _ Ht). unfold new_batch. by destruct (existsb id _). }
  rewrite <- E. unfold accept_input. destruct (m_input_queue _); [done|]. by destruct (_ <? _).
Qed.
Lemma wakeup_inv P st st' es :
  mem_inv P st ∨ mem_ok cf directory P st ∧ refreshes (mc st) ∧
    (m_awakened (sched_of st) = false → no_work cf (mc st)) →
  wakeup cf random self (Some directory) st = Ret (st', es) → mem_inv P st'.
Proof.
  intros Hinv E. pose proof (total_ranks_pos cf Hcf) as Ht.
  assert (H : mem_ok cf directory P st ∧ refreshes (mc st) ∧
    (m_awakened (sched_of st) = false → no_work cf (mc st))) by (destruct Hinv as [[]|]; done).
  destruct H as (Hok & Hr & Hsl).
  destruct (mem_wakeup_ok P st Hok Hr) as [[_ E']|(_ & st2 & es2 & m1 & E' & H1 & C & Em & Haw & _)];
    rewrite E' in E; [done|]. injection E as <- <-.
  split; [done| | |done].
  - rewrite Em. apply watchdog_refreshes. by eapply cycle_refreshes.
  - unfold sched_of. rewrite Em. intros Hs. apply (no_work_queues m1); [apply watchdog_queues|].
    destruct (cycle_idle cf (mem_now st) (mc st) es2 m1 (mo_shape _ _ _ _ Hok) C) as [Hb|]; [|done].
    unfold busy_now, IDLECOUNT_MAX_VALUE in Hb. unfold watchdog in Hs. rewrite Hb in Hs. cbn in Hs.
    eapply cycle_no_work; [lia|exact C|]. apply Hsl. unfold sched_of. by rewrite <- (cycle_awakened _ _ _ _ C).
Qed.

Lemma world_ok P P' st w :
  mem_ok cf directory P st → pending_ok P' w → mem_now st ≤ getTime w →
  (∀ t, getTime w < t → mkNode t (Some directory) ∈ nodes (mem_evq st) → mkNode t (Some directory) ∈ nodes w) →
  mem_ok cf directory P' (set_evq w st).
Proof.
  intros [Hs Hw Hp Ha Hans] Hw' Hle Hd. unfold queues_of, mem_now in *.
  split; unfold queues_of, mem_now; cbn; try done. intros r Hr Hlt. apply Hd; [done|]. apply Hans; [done|lia].
Qed.

(** What a wakeup in a trace did to the controller. *)
Lemma wakeup_cycle P P' st w st' es :
  mem_inv P st → pending_ok P' w → getTime w = mem_now st →
  (∀ n, n ∈ nodes (mem_evq st) → n = mkNode (mem_now st) (Some self) ∨ n ∈ nodes w) →
  wakeup cf random self (Some directory) (set_evq w st) = Ret (st', es) →
  ∃ m1, cycle_step cf (mem_now st) (mc st) es m1 ∧ mc st' = watchdog m1.
Proof.
  intros [Hok Hr _ _] Hw Ht Hn E.
  assert (Hok' : mem_ok cf directory P' (set_evq w st)).
  { apply (world_ok P); [done|done|lia|]. intros t Hlt [[= ->]|]%Hn; [lia|done]. }
  destruct (mem_wakeup_ok P' _ Hok' Hr) as [[_ E']|(_ & st2 & es2 & m1 & E' & _ & C & Em & _)];
    rewrite E' in E; [done|]. injection E as <- <-. exists m1. split; [|done].
  unfold mem_now in C. cbn [set_evq mem_evq] in C. rewrite Ht in C. exact C.
Qed.

Lemma step_inv P st l P' st' : mem_step P st l P' st' → mem_inv P st → mem_inv P' st'.
Proof.
  destruct 1 as [P st P' w st' es Hw Ht Hn E|P st r st' Ha E|P st r st' E1 E2|P st P' w Hw Hle Hs Hd]; intros Hinv.
  - eapply wakeup_inv; [right|exact E]. destruct Hinv as [Hok Hr Hsl _]. split; [|done].
    apply (world_ok P); [done|done|lia|]. intros t Hlt [[= ->]|]%Hn; [lia|done].
  - destruct (enqueueMemRef_ok P st r Hinv Ha) as (st2 & E' & Hok & Em & Hsch & _). rewrite E' in E. injection E as <-.
    destruct Hinv as [_ Hr _ _]. split; [done| |unfold sched_of; by rewrite Em|done].
    rewrite Em. by destruct Hr; split.
  - unfold dequeue in E2. destruct (isReady st); [|done]. cbn [assertb mbind outcome_bind] in E2.
    destruct Hinv as [Hok Hr Hsl Haw].
    destruct (m_response_queue (queues_of st)) as [|r0 rs] eqn:Eq; [done|]. injection E2 as <-.
    split; [|by destruct Hr; split|done|done].
    destruct Hok as [Hs Hw Hp Ha Hans]. split; try done; [by destruct Hs; split|].
    intros r' Hr'. apply Hans. rewrite Eq. by right.
  - destruct Hinv as [Hok Hr Hsl Haw]. split; [by apply (world_ok P)|done|done|].
    intros Ha. destruct (Haw Ha) as (t & _ & Hin). exists t. specialize (Hs t Hin). split; [|done].
    destruct Hw as [_ Hnow (L & HL & Hlater) _ _]. unfold mem_now. cbn. rewrite HL in Hs.
    apply elem_of_app in Hs as [Hs|Hs].
    + rewrite Forall_forall in Hnow. apply Hnow in Hs as [Hs _]. cbn in Hs. lia.
    + rewrite Forall_forall in Hlater. apply Hlater in Hs as [Hs _]. cbn in Hs. lia.
Qed.

Lemma trace_inv ls P st : mem_trace ls P st → mem_inv P st.
Proof.
  induction 1 as [m P w d Em Hw|ls P st l P' st' _ IH Hs]; [|by eapply step_inv].
  destruct mem_init_ok as (p & E & Hp). rewrite E in Em. injection Em as <-. by apply start_inv.
Qed.
(** ** Runs driven by the event queue *)

(** The events of the current cycle: the controller's wakeups run, and the
    directory leaves its answers for later. *)
Fixpoint mem_events (fuel : nat) (run : list mem_label * mem_state W) : outcome (list mem_label * mem_state W) :=
  match fuel with
  | 0%nat => Raise NoFuel
  | S fuel =>
      let '(ls, st) := run in
      if isEmpty (mem_evq st) then Ret run
      else
        x ← peekMin (m_prio_heap (queue (mem_evq st)));
        if mem_now st <? m_time x then Ret run
        else
          '(x, h) ← extractMin (m_prio_heap (queue (mem_evq st)));
          let st := set_evq (set_heap h (mem_evq st)) st in
          if decide (m_consumer_ptr x = Some self) then
            '(st, es) ← wakeup cf random self (Some directory) st;
            mem_events fuel (Cycled es :: ls, st)
          else mem_events fuel (Elsewhere :: ls, st)
  end.

Inductive mem_op := Clock | Ask (r : MemoryNode) | Take.

Definition mem_do (run : list mem_label * mem_state W) (op : mem_op) : outcome (list mem_label * mem_state W) :=
  let '(ls, st) := run in
  match op with
  | Clock =>
      let st := set_evq (set_time (mem_now st + 1) (mem_evq st)) st in
      mem_events (event_fuel (mem_evq st)) (Elsewhere :: ls, st)
  | Ask r => st ← enqueueMemRef cf self r st; Ret (Arrived r :: ls, st)
  | Take => r ← peekNode st; st ← dequeue st; Ret (Answered r :: ls, st)
  end.

Definition good_op (op : mem_op) : Prop := match op with Ask r => 0 ≤ mr_addr r | _ => True end.

#[export] Instance good_op_dec op : Decision (good_op op).
Proof. destruct op; cbn; apply _. Defined.

Lemma elsewhere_ok ls P st P' w :
  mem_trace ls P st → pending_ok P' w → mem_now st ≤ getTime w →
  (∀ n, n ∈ nodes (mem_evq st) → (m_time n ≤ getTime w ∧ m_consumer_ptr n ≠ Some self) ∨ n ∈ nodes w) →
  mem_trace (Elsewhere :: ls) P' (set_evq w st).
Proof.
  intros Htr Hw Hle Hn. eapply trace_step; [exact Htr|]. apply mstep_else; [done|done| |].
  - intros t Hin. destruct (Hn _ Hin) as [[_ Hne]|]; done.
  - intros t Ht Hin. destruct (Hn _ Hin) as [[Hle' _]|]; [cbn in Hle'; lia|done].
Qed.

Lemma mem_events_trace fuel : ∀ ls P st ls' st',
  mem_trace ls P st → mem_events fuel (ls, st) = Ret (ls', st') → mem_trace ls' [] st'.
Proof.
  induction fuel as [|fuel IH]; intros ls P st ls' st' Htr E; [done|]. cbn [mem_events] in E.
  pose proof (mo_evq _ _ _ _ (iv_ok _ _ (trace_inv _ _ _ Htr))) as Hw.
  destruct P as [|y P].
  - destruct (isEmpty (mem_evq st)) eqn:Ee; [by injection E as <- <-|].
    destruct Hw as [Hh _ (L & HL & Hlater) _ _].
    assert (Hne : nodes (mem_evq st) ≠ []) by (intros E0; by rewrite (proj2 (isEmpty_nodes _ Hh) E0) in Ee).
    destruct (heap_peek_ok _ Hh Hne) as (x & Hx & Hin & _). rewrite Hx in E. cbn [mbind outcome_bind] in E.
    change (elements (m_prio_heap (queue (mem_evq st)))) with (nodes (mem_evq st)) in Hin.
    rewrite HL in Hin. rewrite Forall_forall in Hlater. apply Hlater in Hin as [Hlt _].
    unfold mem_now in E. rewrite (proj2 (Z.ltb_lt _ _)) in E by done. by injection E as <- <-.
  - destruct (pending_step _ _ Hw) as (c & P' & h & Ee & Epeek & Eext & _ & Hw' & Hn); [done|].
    rewrite Ee, Epeek in E. cbn [mbind outcome_bind m_time] in E. unfold mem_now in E.
    rewrite Z.ltb_irrefl, Eext in E. cbn [mbind outcome_bind m_consumer_ptr] in E.
    destruct (decide (Some c = Some self)) as [[= ->]|Hc].
    + destruct (wakeup _ _ _ _ _) as [[st1 es]|] eqn:Ew; [|done]. cbn [mbind outcome_bind] in E.
      eapply IH; [|exact E]. eapply trace_step; [exact Htr|].
      by apply (mstep_wakeup (y :: P) st P' (set_heap h (mem_evq st))).
    + eapply IH; [|exact E]. eapply elsewhere_ok; [exact Htr|exact Hw'|done|].
      intros n [->|]%Hn; [left|by right]. split; [done|cbn; congruence].
Qed.

Lemma mem_do_trace ops : ∀ ls st ls' st',
  Forall good_op ops → mem_trace ls [] st → foldM mem_do (ls, st) ops = Ret (ls', st') → mem_trace ls' [] st'.
Proof.
  induction ops as [|op ops IH]; intros ls st ls' st' Hops Htr E; cbn [foldM] in E; [by injection E as <- <-|].
  apply Forall_cons in Hops as [Hop Hops].
  destruct (mem_do (ls, st) op) as [[ls1 st1]|] eqn:E1; [|done]. cbn [mbind outcome_bind] in E.
  eapply IH; [done| |exact E]. destruct op as [|r|]; cbn [mem_do] in E1.
  - pose proof (mo_evq _ _ _ _ (iv_ok _ _ (trace_inv _ _ _ Htr))) as Hw.
    destruct (pending_advance _ Hw) as (P & HP & _). eapply mem_events_trace; [|exact E1].
    eapply elsewhere_ok; [exact Htr|exact HP|unfold mem_now; cbn; lia|].
    intros n Hn. by right.
  - destruct (enqueueMemRef cf self r st) as [st2|] eqn:E2; [|done]. injection E1 as <- <-.
    eapply trace_step; [exact Htr|]. by apply mstep_arrive.
  - destruct (peekNode st) as [r|] eqn:E2; [|done]. cbn [mbind outcome_bind] in E1.
    destruct (dequeue st) as [st2|] eqn:E3; [|done]. injection E1 as <- <-.
    eapply trace_step; [exact Htr|]. by apply mstep_dequeue.
Qed.
End run.

(** In every reachable state the operations of the controller return: a
    request is accepted, an answer that is ready is handed out and one that is
    not stops at the assertion, and a wakeup runs its cycle.  The one exception
    is the assertion of [executeCycle] that fewer than ten refreshes are due. *)
Theorem memory_faults (cf : mem_config) {W : Type} (random : nat → Z) (self directory : nat)
    (ls : list mem_label) (P : list EventQueueNode) (st : mem_state W) :
  config_ok cf → (∀ n, 0 ≤ random n) → mem_trace cf random self directory ls P st →
  (overrun cf (mc st) → wakeup cf random self (Some directory) st = Raise AssertFailed) ∧
  (¬ overrun cf (mc st) → ∃ st' es, wakeup cf random self (Some directory) st = Ret (st', es)) ∧
  (∀ r, 0 ≤ mr_addr r → ∃ st', enqueueMemRef cf self r st = Ret st') ∧
  (isReady st = true → ∃ r rs, m_response_queue (queues_of st) = r :: rs ∧ peekNode st = Ret r ∧
     dequeue st = Ret (on_mc (set_response rs) st)) ∧
  (isReady st = false → peekNode st = Raise AssertFailed ∧ dequeue st = Raise AssertFailed).
Proof.
  intros Hcf Hrandom Htr. pose proof (trace_inv cf Hcf random self directory Hrandom _ _ _ Htr) as Hinv.
  pose proof Hinv as [Hok Hr _ _].
  split_and!.
  - intros Ho. by destruct (mem_wakeup_ok cf Hcf random self directory Hrandom P st Hok Hr) as [[_ E]|[? _]].
  - intros Ho. destruct (mem_wakeup_ok cf Hcf random self directory Hrandom P st Hok Hr)
      as [[? _]|(_ & st' & es & m1 & E & _)]; [done|by exists st', es].
  - intros r Ha. destruct (enqueueMemRef_ok cf Hcf self directory P st r Hinv Ha) as (st' & E & _). by exists st'.
  - unfold isReady, peekNode, dequeue, isReady. destruct (m_response_queue (queues_of st)) as [|r rs]; [done|].
    intros E. rewrite E. by exists r, rs.
  - unfold peekNode, dequeue. by intros ->.
Qed.

(** While any request waits, in the common queue or at a bank, the
    controller is awake and its next cycle is in the event queue; and for every
    answer whose time has not come the directory's wakeup at that time is. *)
Theorem memory_scheduled (cf : mem_config) {W : Type} (random : nat → Z) (self directory : nat)
    (ls : list mem_label) (P : list EventQueueNode) (st : mem_state W) :
  config_ok cf → (∀ n, 0 ≤ random n) → mem_trace cf random self directory ls P st →
  (¬ no_work cf (mc st) → m_awakened (sched_of st) = true ∧
     ∃ t, mem_now st ≤ t ∧ mkNode t (Some self) ∈ nodes (mem_evq st)) ∧
  (∀ r, r ∈ m_response_queue (queues_of st) → mem_now st < mr_time r →
     mkNode (mr_time r) (Some directory) ∈ nodes (mem_evq st)).
Proof.
  intros Hcf Hrandom Htr. destruct (trace_inv cf Hcf random self directory Hrandom _ _ _ Htr) as [Hok _ Hsl Haw].
  split; [|apply (mo_answers _ _ _ _ Hok)]. intros Hwork.
  destruct (m_awakened (sched_of st)) eqn:E; [split; [done|by apply Haw]|]. by destruct (Hwork (Hsl eq_refl)).
Qed.

(** *** Examples *)

(** Two ranks of two banks with a tFAW window; a stream of reads for one bank. *)
Definition ex_mem : mem_config := mkMemConfig 1 2 2 1 6 7 8 2 5 1 2 2 3 40 0 12 0.
Definition ex_starved : mem_config := mkMemConfig 1 2 1 1 6 7 8 4 1 0 0 2 3 8 0 0 0.
Definition ex_ask (addr : Z) (is_read : bool) : mem_op := Ask (new_MemoryNode 1 (Some 7%nat) addr is_read (negb is_read)).
Definition ex_random (n : nat) : Z := Z.of_nat n.
Definition ex_clockless : world unit := mkWorld event_queue_init (λ _, new_consumer) tt.

Definition ex_mem_start (cf : mem_config) : mem_state unit :=
  mkMemState (mem_start cf (m_refresh_period cf / total_banks cf)) (prof_init cf) ex_clockless 0.

Definition ex_run (cf : mem_config) (ops : list mem_op) : outcome (list mem_label * mem_state unit) :=
  foldM (mem_do cf ex_random 0 1) ([], ex_mem_start cf) ops.

Definition ex_asks : list mem_op :=
  [ex_ask 0 true; ex_ask 64 false; ex_ask 128 true; ex_ask 192 true; ex_ask 0 true; ex_ask 64 true].
Definition ex_busy : list mem_op := ex_asks ++ replicate 12 Clock ++ [Take].
Definition ex_stream : list mem_op := mjoin (replicate 48 [ex_ask 64 true; Clock]).

Lemma ex_mem_ok : config_ok ex_mem.
Proof. by split; cbn. Qed.

Lemma ex_starved_ok : config_ok ex_starved.
Proof. by split; cbn. Qed.

Lemma ex_random_pos n : 0 ≤ ex_random n.
Proof. unfold ex_random. lia. Qed.

Lemma ex_asks_good : Forall good_op ex_busy ∧ Forall good_op ex_stream.
Proof. split; apply (bool_decide_unpack _); vm_compute; exact I. Qed.

Lemma ex_run_trace cf ops ls st :
  config_ok cf → mem_init cf = Ret (mem_start cf (m_refresh_period cf / total_banks cf)) →
  Forall good_op ops → ex_run cf ops = Ret (ls, st) → mem_trace cf ex_random 0 1 ls [] st.
Proof.
  intros Hcf Hi Hops E. eapply mem_do_trace; [done|apply ex_random_pos|exact Hops| |exact E].
  apply trace_init; [done|]. apply event_queue_init_ok.
Qed.

(** A bank whose turn comes late never gets its refresh while another one's
    requests keep the address bus busy: the assertion is reached. *)
Lemma memory_faults_witness :
  ∃ ls st, ex_run ex_starved ex_stream = Ret (ls, st) ∧
    wakeup ex_starved ex_random 0 (Some 1%nat) st = Raise AssertFailed.
Proof.
  assert (Ho : match ex_run ex_starved ex_stream with
    | Ret (_, st) => (m_refresh_count (mc_refresh (mc st)) =? 1) && (10 <=? m_need_refresh (mc_refresh (mc st)))
    | _ => false end = true) by (vm_compute; reflexivity).
  destruct (ex_run ex_starved ex_stream) as [[ls st]|] eqn:E; [|discriminate].
  exists ls, st. split; [reflexivity|].
  apply (memory_faults ex_starved ex_random 0 1 ls []).
  - apply ex_starved_ok.
  - apply ex_random_pos.
  - eapply ex_run_trace; [apply ex_starved_ok|reflexivity|apply (proj2 ex_asks_good)|exact E].
  - apply andb_true_iff in Ho as [H1 H2]. apply Z.eqb_eq in H1. apply Z.leb_le in H2.
    split; [reflexivity|]. split; [exact H1|exact H2].
Defined.

Lemma memory_scheduled_witness :
  ∃ ls st, ex_run ex_mem ex_busy = Ret (ls, st) ∧
    m_awakened (sched_of st) = true ∧ ∃ t, mem_now st ≤ t ∧ mkNode t (Some 0%nat) ∈ nodes (mem_evq st).
Proof.
  assert (Hq : match ex_run ex_mem ex_busy with
    | Ret (_, st) => match bank_queue 0 (mc st) with [] => false | _ => true end | _ => false end = true) by (vm_compute; reflexivity).
  destruct (ex_run ex_mem ex_busy) as [[ls st]|] eqn:E; [|discriminate].
  exists ls, st. split; [reflexivity|].
  apply (memory_scheduled ex_mem ex_random 0 1 ls []).
  - apply ex_mem_ok.
  - apply ex_random_pos.
  - eapply ex_run_trace; [apply ex_mem_ok|reflexivity|apply (proj1 ex_asks_good)|exact E].
  - intros [_ Hn]. rewrite (Hn 0) in Hq by (split; [apply Z.le_refl|reflexivity]). discriminate Hq.
Defined.
