(* ===== verification/MemoryTiming.v ===== *)
(** * The timing of the memory controller

    What a DRAM asks of its controller, stated on the history of a run and not
    on the counters of the code: activates of a bank keep their distance, the
    address bus is used once per busy time, the data bus gets its bubbles, and no
    rank sees more than four activates in a tFAW window.  The counters and shift
    registers of [MemoryControl] are enough of a summary of the history. *)

From stdpp Require Import list numbers.
From S2P Require Import Prelude PrioHeap EventQueue MemoryControl MemoryCycle MemoryRun.
Local Open Scope Z_scope.

(** ** Histories: what each cycle issued, the latest cycle first *)

Definition cycles (ls : list mem_label) : list (list issue) :=
  omap (λ l, match l with Cycled es => Some es | _ => None end) ls.

Definition issue_bank (e : issue) : Z := match e with Refresh bank => bank | Request bank _ => bank end.
Definition reads_mem (e : issue) : bool := match e with Refresh _ => false | Request _ r => mr_is_mem_read r end.
Definition writes_mem (e : issue) : bool := match e with Refresh _ => false | Request _ r => negb (mr_is_mem_read r) end.

(** [e] was issued [k] cycles ago. *)
Definition at_age (h : list (list issue)) (k : nat) (e : issue) : Prop := ∃ es, h !! k = Some es ∧ e ∈ es.

Section timing.
Context (cf : mem_config) (Hcf : config_ok cf).
Notation basic := (m_basic_bus_busy_time cf).
Notation tFaw := (m_tFaw cf).

Definition issue_rank (e : issue) : Z := rank_of cf (issue_bank e).

(** The activates of a rank, refreshes included. *)
Definition activates (r : Z) (h : list (list issue)) : nat :=
  length (filter (λ e, issue_rank e = r) (concat h)).

(** A legal history.  The two bubbles on the data bus are only kept over the
    command in between when they are not longer than a bus slot. *)
Record obeys (h : list (list issue)) : Prop := {
  ob_one : ∀ es, es ∈ h → (length es ≤ 1)%nat;
  ob_bus : ∀ i j e e', at_age h i e → at_age h j e' → (i < j)%nat → basic ≤ Z.of_nat j - Z.of_nat i;
  ob_bank : ∀ i j e e', at_age h i e → at_age h j e' → (i < j)%nat →
    issue_bank e = issue_bank e' → m_bank_busy_time cf ≤ Z.of_nat j - Z.of_nat i;
  ob_read_write : ∀ i j e e', at_age h i e → at_age h j e' → (i < j)%nat →
    writes_mem e = true → reads_mem e' = true → m_read_write_delay cf ≤ basic →
    basic + m_read_write_delay cf ≤ Z.of_nat j - Z.of_nat i;
  ob_read_read : ∀ i j e e', at_age h i e → at_age h j e' → (i < j)%nat →
    reads_mem e = true → reads_mem e' = true → issue_rank e ≠ issue_rank e' → m_rank_rank_delay cf ≤ basic →
    basic + m_rank_rank_delay cf ≤ Z.of_nat j - Z.of_nat i;
  ob_tfaw : 0 < tFaw → ∀ i r, Z.of_nat (activates r (take (Z.to_nat tFaw) (drop i h))) ≤ ACTIVATE_PER_TFAW
}.

(** ** The counters summarise the history *)

Definition active (r : Z) (es : list issue) : bool := existsb (λ e, issue_rank e =? r) es.

Record tinv (m : MemoryControl) (h : list (list issue)) : Prop := {
  ti_range : ∀ k e, at_age h k e → 0 ≤ issue_bank e < total_banks cf;
  ti_one : ∀ es, es ∈ h → (length es ≤ 1)%nat;
  ti_basic : ∀ k e, at_age h k e → basic - Z.of_nat k ≤ m_busBusyCounter_Basic (mc_bus m);
  ti_bank : ∀ k e, at_age h k e → m_bank_busy_time cf - Z.of_nat k ≤ busy (issue_bank e) m;
  ti_write : ∀ k e, at_age h k e → reads_mem e = true → m_read_write_delay cf ≤ basic →
    basic + m_read_write_delay cf - Z.of_nat k ≤ m_busBusyCounter_Write (mc_bus m);
  ti_read : ∀ k e, at_age h k e → reads_mem e = true → m_rank_rank_delay cf ≤ basic →
    basic + m_rank_rank_delay cf - Z.of_nat k ≤ m_busBusyCounter_ReadNewRank (mc_bus m);
  ti_rank : ∀ k e, at_age h k e → reads_mem e = true → issue_rank e ≠ m_busBusy_WhichRank (mc_bus m) →
    2 * basic - Z.of_nat k ≤ m_busBusyCounter_Basic (mc_bus m);
  ti_shift : 0 < tFaw → ∀ r, 0 ≤ r < total_ranks cf → ∃ s,
    m_tfaw_shift (mc_banks m) !! Z.to_nat r = Some s ∧
    ∀ i, 0 ≤ i → Z.testbit s i = (i <? tFaw) && active r (default [] (h !! Z.to_nat (tFaw - 1 - i)));
  ti_count : 0 < tFaw → ∀ r, 0 ≤ r < total_ranks cf →
    m_tfaw_count (mc_banks m) !! Z.to_nat r = Some (Z.of_nat (activates r (take (Z.to_nat tFaw) h)))
}.

(** [tinv] looks at these fields only. *)
Definition regs (m : MemoryControl) : list Z * list Z * list Z * mem_bus :=
  (m_bankBusyCounter (mc_banks m), m_tfaw_shift (mc_banks m), m_tfaw_count (mc_banks m), mc_bus m).

Lemma tinv_regs m m' h : regs m' = regs m → tinv m h → tinv m' h.
Proof.
  unfold regs. intros [= E1 E2 E3 E4] []. unfold busy in *.
  split; unfold busy; rewrite ?E1, ?E2, ?E3, ?E4; done.
Qed.

Lemma at_age_nil h k e : at_age ([] :: h) k e ↔ ∃ k', k = S k' ∧ at_age h k' e.
Proof.
  split.
  - destruct k as [|k]; [|by exists k]. intros (es & [= <-] & He). by apply not_elem_of_nil in He.
  - by intros (k' & -> & H).
Qed.

Lemma at_age_one h k e e0 : at_age ([e0] :: h) k e ↔ k = 0%nat ∧ e = e0 ∨ ∃ k', k = S k' ∧ at_age h k' e.
Proof.
  split.
  - destruct k as [|k]; [|by right; exists k]. intros (es & [= <-] & He). left. split; [done|].
    by apply list_elem_of_singleton in He.
  - intros [[-> ->]|(k' & -> & H)]; [|done]. exists [e0]. split; [done|by left].
Qed.

Lemma activates_cons r es h : activates r (es :: h) = (activates r [es] + activates r h)%nat.
Proof. unfold activates. cbn. by rewrite app_nil_r, filter_app, length_app. Qed.

Lemma activates_app r h1 h2 : activates r (h1 ++ h2) = (activates r h1 + activates r h2)%nat.
Proof. unfold activates. by rewrite concat_app, filter_app, length_app. Qed.

Lemma activates_active r es :
  (length es ≤ 1)%nat → activates r [es] = if active r es then 1%nat else 0%nat.
Proof.
  unfold activates, active. destruct es as [|e [|? ?]]; cbn [concat app existsb length]; intros Hl; [done| |lia].
  rewrite orb_false_r. rewrite filter_cons. destruct (Z.eqb_spec (issue_rank e) r); case_decide; done.
Qed.

(** *** A cycle begins *)

Lemma count_down_ge n : n - 1 ≤ count_down n.
Proof. unfold count_down. destruct (0 <? n); lia. Qed.

Lemma busy_tick bank m :
  shape cf m → 0 ≤ bank < total_banks cf → busy bank (tick_counters m) = count_down (busy bank m).
Proof.
  intros Hs Hb. unfold busy. cbn [tick_counters set_bus set_banks mc_banks m_bankBusyCounter].
  destruct (lookup_lt_is_Some_2 (m_bankBusyCounter (mc_banks m)) (Z.to_nat bank)) as [x Hx].
  { rewrite (sh_busy _ _ Hs). lia. }
  rewrite (list_lookup_total_correct _ _ _ Hx). apply list_lookup_total_correct.
  by rewrite list_lookup_fmap, Hx.
Qed.

Lemma window_tick r h :
  0 < tFaw → (∀ es, es ∈ h → (length es ≤ 1)%nat) →
  Z.of_nat (activates r (take (Z.to_nat tFaw) ([] :: h))) =
  Z.of_nat (activates r (take (Z.to_nat tFaw) h)) -
    (if active r (default [] (h !! Z.to_nat (tFaw - 1))) then 1 else 0).
Proof.
  intros Ht Hone. replace (Z.to_nat tFaw) with (S (Z.to_nat (tFaw - 1))) by lia.
  cbn [take]. rewrite activates_cons. destruct (h !! Z.to_nat (tFaw - 1)) as [es|] eqn:E; cbn [default].
  - rewrite (take_S_r _ _ _ E), activates_app, (activates_active r es).
    + change (activates r [[]]) with 0%nat. unfold id. destruct (active r es); lia.
    + apply Hone. by eapply list_elem_of_lookup_2.
  - apply lookup_ge_None in E. rewrite !take_ge by lia. change (activates r [[]]) with 0%nat. cbn. lia.
Qed.

Lemma tinv_tick m h : shape cf m → tinv m h → tinv (tick_counters m) ([] :: h).
Proof.
  intros Hs [Hrange Hone Hbasic Hbank Hwrite Hread Hrank Hshift Hcount].
  split; cbn [tick_counters set_bus mc_bus m_busBusyCounter_Basic m_busBusyCounter_Write
    m_busBusyCounter_ReadNewRank m_busBusy_WhichRank].
  - intros k e (k' & -> & H)%at_age_nil. by eapply Hrange.
  - intros es [->|H]%elem_of_cons; [cbn; lia|by apply Hone].
  - intros k e (k' & -> & H)%at_age_nil. specialize (Hbasic k' e H).
    pose proof (count_down_ge (m_busBusyCounter_Basic (mc_bus m))). lia.
  - intros k e (k' & -> & H)%at_age_nil. fold (tick_counters m). specialize (Hbank k' e H).
    rewrite busy_tick by eauto. pose proof (count_down_ge (busy (issue_bank e) m)). lia.
  - intros k e (k' & -> & H)%at_age_nil Hr Hd. specialize (Hwrite k' e H Hr Hd).
    pose proof (count_down_ge (m_busBusyCounter_Write (mc_bus m))). lia.
  - intros k e (k' & -> & H)%at_age_nil Hr Hd. specialize (Hread k' e H Hr Hd).
    pose proof (count_down_ge (m_busBusyCounter_ReadNewRank (mc_bus m))). lia.
  - intros k e (k' & -> & H)%at_age_nil Hr Hd. specialize (Hrank k' e H Hr Hd).
    pose proof (count_down_ge (m_busBusyCounter_Basic (mc_bus m))). lia.
  - intros Ht r Hr. destruct (Hshift Ht r Hr) as (s & Es & Hbits). exists (Z.shiftr s 1). cbn [mc_banks set_banks m_tfaw_shift].
    split; [etransitivity; [apply list_lookup_fmap|by rewrite Es]|]. intros i Hi. rewrite Z.shiftr_spec by lia. rewrite Hbits by lia.
    destruct (Z.ltb_spec i tFaw), (Z.ltb_spec (i + 1) tFaw); cbn [andb]; try done; [| |lia].
    + replace (Z.to_nat (tFaw - 1 - i)) with (S (Z.to_nat (tFaw - 1 - (i + 1)))) by lia. done.
    + replace (Z.to_nat (tFaw - 1 - i)) with 0%nat by lia. done.
  - intros Ht r Hr. destruct (Hshift Ht r Hr) as (s & Es & Hbits). specialize (Hcount Ht r Hr).
    cbn [mc_banks set_banks m_tfaw_count]. etransitivity; [apply lookup_zip_with|]. rewrite Es, Hcount. cbn [mbind option_bind].
    rewrite window_tick by done. rewrite Hbits by lia. rewrite (proj2 (Z.ltb_lt _ _)) by lia. cbn [andb].
    replace (tFaw - 1 - 0) with (tFaw - 1) by lia. f_equal. destruct (active _ _); lia.
Qed.

(** *** A command is issued *)

(** What an issue leaves in the counters. *)
Record issued_regs (e : issue) (m m' : MemoryControl) : Prop := {
  ir_basic : m_busBusyCounter_Basic (mc_bus m') = basic;
  ir_write : m_busBusyCounter_Write (mc_bus m') = if reads_mem e then basic + m_read_write_delay cf else basic;
  ir_read : m_busBusyCounter_ReadNewRank (mc_bus m') = if reads_mem e then basic + m_rank_rank_delay cf else basic;
  ir_rank : m_busBusy_WhichRank (mc_bus m') = issue_rank e ∨
    reads_mem e = false ∧ m_busBusy_WhichRank (mc_bus m') = m_busBusy_WhichRank (mc_bus m);
  ir_busy : m_bankBusyCounter (mc_banks m') =
    <[Z.to_nat (issue_bank e) := m_bank_busy_time cf]> (m_bankBusyCounter (mc_banks m));
  ir_shift : 0 < tFaw → m_tfaw_shift (mc_banks m') =
    alter (λ s, Z.lor s (2 ^ (tFaw - 1))) (Z.to_nat (issue_rank e)) (m_tfaw_shift (mc_banks m));
  ir_count : 0 < tFaw → m_tfaw_count (mc_banks m') =
    alter (λ c, c + 1) (Z.to_nat (issue_rank e)) (m_tfaw_count (mc_banks m))
}.

Lemma refresh_regs bank m : issued_regs (Refresh bank) m (do_refresh cf bank m).
Proof. split; cbn; try done; [by right|..]; intros; by rewrite (proj2 (Z.eqb_neq _ _)) by lia. Qed.

Lemma request_regs now bank req m : issued_regs (Request bank req) m (do_request cf now bank req m).
Proof.
  split; cbn; try (by destruct (mr_is_mem_read req)); [left; by destruct (mr_is_mem_read req)|..];
    intros; by rewrite (proj2 (Z.eqb_neq _ _)) by lia.
Qed.

(** Nothing has been issued in a cycle in which the bus is still free. *)
Lemma bus_free_idle m es h : tinv m (es :: h) → m_busBusyCounter_Basic (mc_bus m) ≤ 0 → es = [].
Proof.
  intros Hti Hfree. destruct es as [|e es]; [done|exfalso].
  pose proof (co_basic cf Hcf). assert (Hat : at_age ((e :: es) :: h) 0 e) by (exists (e :: es); split; [done|by left]).
  pose proof (ti_basic _ _ Hti 0 e Hat). lia.
Qed.

Lemma window_issue e h r :
  0 < tFaw → activates r (take (Z.to_nat tFaw) ([e] :: h)) =
    (activates r (take (Z.to_nat tFaw) ([] :: h)) + if decide (issue_rank e = r) then 1 else 0)%nat.
Proof.
  intros Ht. replace (Z.to_nat tFaw) with (S (Z.to_nat (tFaw - 1))) by lia. cbn [take].
  rewrite !(activates_cons _ _ (take _ h)). rewrite (activates_active r [e]) by (cbn; lia).
  change (activates r [[]]) with 0%nat. unfold active. cbn [existsb]. rewrite orb_false_r.
  destruct (Z.eqb_spec (issue_rank e) r), (decide (issue_rank e = r)); done || lia.
Qed.

Lemma busy_issue e m m' bank :
  shape cf m → issued_regs e m m' → 0 ≤ issue_bank e < total_banks cf → 0 ≤ bank →
  busy bank m' = if decide (bank = issue_bank e) then m_bank_busy_time cf else busy bank m.
Proof.
  intros Hs Hr He Hb. unfold busy. rewrite (ir_busy _ _ _ Hr). destruct (decide (bank = issue_bank e)) as [->|Hne].
  - rewrite list_lookup_total_insert_eq; [done|]. rewrite (sh_busy _ _ Hs). lia.
  - rewrite list_lookup_total_insert_ne by lia. done.
Qed.

(** The bit of an activate in its rank's register; the other registers stay. *)
Lemma shift_issue m m' e h r s :
  0 < tFaw → 0 ≤ issue_bank e < total_banks cf → 0 ≤ r → issued_regs e m m' →
  m_tfaw_shift (mc_banks m) !! Z.to_nat r = Some s →
  (∀ i, 0 ≤ i → Z.testbit s i = (i <? tFaw) && active r (default [] (([] :: h) !! Z.to_nat (tFaw - 1 - i)))) →
  ∃ s', m_tfaw_shift (mc_banks m') !! Z.to_nat r = Some s' ∧
    ∀ i, 0 ≤ i → Z.testbit s' i = (i <? tFaw) && active r (default [] (([e] :: h) !! Z.to_nat (tFaw - 1 - i))).
Proof.
  intros Ht He Hrk Hr Es Hbits. rewrite (ir_shift _ _ _ Hr Ht).
  pose proof (rank_of_range cf Hcf _ He) as Hre.
  assert (Hhead : ∀ i, 0 ≤ i → i ≠ tFaw - 1 → (i <? tFaw) && active r (default [] (([e] :: h) !! Z.to_nat (tFaw - 1 - i)))
    = (i <? tFaw) && active r (default [] (([] :: h) !! Z.to_nat (tFaw - 1 - i)))).
  { intros i Hi Hne. destruct (Z.ltb_spec i tFaw); [|done]. by destruct (Z.to_nat (tFaw - 1 - i)) eqn:?; [lia|]. }
  destruct (decide (issue_rank e = r)) as [<-|Hne].
  - exists (Z.lor s (2 ^ (tFaw - 1))). split; [by rewrite list_lookup_alter_eq, Es|]. intros i Hi.
    rewrite Z.lor_spec, Hbits by done. destruct (decide (i = tFaw - 1)) as [->|Hi'].
    + rewrite Z.pow2_bits_true by lia. rewrite orb_true_r. rewrite (proj2 (Z.ltb_lt _ _)) by lia.
      replace (Z.to_nat (tFaw - 1 - (tFaw - 1))) with 0%nat by lia. cbn. by rewrite Z.eqb_refl.
    + rewrite Z.pow2_bits_false by lia. by rewrite orb_false_r, Hhead.
  - exists s. split; [by rewrite list_lookup_alter_ne by (unfold issue_rank in *; lia)|]. intros i Hi. rewrite Hbits by done.
    destruct (decide (i = tFaw - 1)) as [->|Hi']; [|by rewrite Hhead].
    replace (Z.to_nat (tFaw - 1 - (tFaw - 1))) with 0%nat by lia. cbn. by rewrite (proj2 (Z.eqb_neq _ _)).
Qed.

Lemma tinv_issue m m' e h :
  shape cf m → 0 ≤ issue_bank e < total_banks cf → issued_regs e m m' →
  m_busBusyCounter_Basic (mc_bus m) ≤ 0 → busy (issue_bank e) m ≤ 0 →
  tinv m ([] :: h) → tinv m' ([e] :: h).
Proof.
  intros Hs He Hr Hfree Hbusy [Hrange Hone Hbasic Hbank Hwrite Hread Hrank Hshift Hcount].
  pose proof (co_basic cf Hcf) as Hb0. pose proof (co_rw cf Hcf) as Hrw. pose proof (co_rr cf Hcf) as Hrr.
  assert (Hold : ∀ k e', at_age h k e' → at_age ([] :: h) (S k) e') by (intros; apply at_age_nil; eauto).
  split.
  - intros k e' [[-> ->]|(k' & -> & H)]%at_age_one; [done|]. eapply Hrange, Hold, H.
  - intros es [->|H]%elem_of_cons; [done|]. apply Hone. by right.
  - intros k e' _. rewrite (ir_basic _ _ _ Hr). lia.
  - intros k e' [[-> ->]|(k' & -> & H)]%at_age_one.
    + rewrite (busy_issue e m m') by (done || lia). rewrite decide_True by done. lia.
    + apply Hold in H. pose proof (Hrange _ _ H). rewrite (busy_issue e m m') by (done || lia).
      destruct (decide _); [lia|]. apply (Hbank _ _ H).
  - intros k e' [[-> ->]|(k' & -> & H)]%at_age_one Hrd Hd; rewrite (ir_write _ _ _ Hr).
    + rewrite Hrd. lia.
    + apply Hold in H. specialize (Hbasic _ _ H). destruct (reads_mem e); lia.
  - intros k e' [[-> ->]|(k' & -> & H)]%at_age_one Hrd Hd; rewrite (ir_read _ _ _ Hr).
    + rewrite Hrd. lia.
    + apply Hold in H. specialize (Hbasic _ _ H). destruct (reads_mem e); lia.
  - intros k e' [[-> ->]|(k' & -> & H)]%at_age_one Hrd Hne; rewrite (ir_basic _ _ _ Hr).
    + destruct (ir_rank _ _ _ Hr) as [E|[E _]]; congruence.
    + apply Hold in H. specialize (Hbasic _ _ H). lia.
  - intros Ht r Hrk. destruct (Hshift Ht r Hrk) as (s & Es & Hbits). eapply shift_issue; [done|done|lia|done..].
  - intros Ht r Hrk. specialize (Hcount Ht r Hrk). rewrite (ir_count _ _ _ Hr Ht), window_issue by done.
    pose proof (rank_of_range cf Hcf _ He) as Hre. destruct (decide (issue_rank e = r)) as [<-|Hne].
    + rewrite list_lookup_alter_eq, Hcount. cbn. f_equal. lia.
    + rewrite list_lookup_alter_ne by (unfold issue_rank in *; lia). rewrite Hcount. f_equal. lia.
Qed.

(** ** The guards keep the history legal *)

Lemma drop_cons_window (es : list issue) h i :
  (∃ j, drop i (es :: h) = drop j h) ∨ drop i (es :: h) = es :: h.
Proof. destruct i as [|i]; [by right|left; by exists i]. Qed.

Lemma window_cons_le r h : (activates r (take (Z.to_nat tFaw) ([] :: h)) ≤ activates r (take (Z.to_nat tFaw) h))%nat.
Proof.
  destruct (Z.to_nat tFaw) as [|n]; [done|]. cbn [take]. rewrite activates_cons. change (activates r [[]]) with 0%nat.
  destruct (h !! n) as [es|] eqn:E.
  - rewrite (take_S_r _ _ _ E), activates_app. lia.
  - apply lookup_ge_None in E. by rewrite !take_ge by lia.
Qed.

Lemma obeys_tick h : obeys h → obeys ([] :: h).
Proof.
  intros [H1 H2 H3 H4 H5 H6].
  split; [intros es [->|?]%elem_of_cons; [cbn; lia|by apply H1]| | | | |].
  all: try (intros i j e e' (i' & -> & Hi)%at_age_nil (j' & -> & Hj)%at_age_nil Hij; intros).
  - specialize (H2 _ _ _ _ Hi Hj). lia.
  - specialize (H3 _ _ _ _ Hi Hj ltac:(lia)). intuition lia.
  - specialize (H4 _ _ _ _ Hi Hj ltac:(lia)). intuition lia.
  - specialize (H5 _ _ _ _ Hi Hj ltac:(lia)). intuition lia.
  - intros Ht i r. destruct (drop_cons_window [] h i) as [[j ->] | ->]; [by apply H6|].
    pose proof (window_cons_le r h). specialize (H6 Ht 0%nat r). rewrite drop_0 in H6. lia.
Qed.

(** What both guards check of a command. *)
Record allowed (e : issue) (m : MemoryControl) : Prop := {
  al_free : busy (issue_bank e) m ≤ 0;
  al_bus : m_busBusyCounter_Basic (mc_bus m) ≤ 0;
  al_tfaw : activates_left cf (issue_bank e) m;
  al_write : writes_mem e = true → m_busBusyCounter_Write (mc_bus m) ≤ 0;
  al_read : reads_mem e = true → issue_rank e ≠ m_busBusy_WhichRank (mc_bus m) →
    m_busBusyCounter_ReadNewRank (mc_bus m) ≤ 0
}.

Lemma refresh_allowed bank m : may_refresh cf bank m → allowed (Refresh bank) m.
Proof. by intros []. Qed.

Lemma request_allowed bank req m : may_issue cf bank req m → allowed (Request bank req) m.
Proof.
  intros [Hf Hb Ht Hw Hr _]. split; cbn; try done. intros E. apply Hw. by apply negb_true_iff.
Qed.

Lemma obeys_issue e m h :
  shape cf m → 0 ≤ issue_bank e < total_banks cf → allowed e m → tinv m ([] :: h) → obeys ([] :: h) → obeys ([e] :: h).
Proof.
  intros Hs He [Hfree Hbus Htf Hw Hrd] [Hrange Hone Hbasic Hbank Hwrite Hread Hrank Hshift Hcount] [H1 H2 H3 H4 H5 H6].
  pose proof (co_rr cf Hcf) as Hrr.
  assert (Hold : ∀ k e', at_age h k e' → at_age ([] :: h) (S k) e') by (intros; apply at_age_nil; eauto).
  split; [intros es [->|?]%elem_of_cons; [done|apply H1; by right]| | | | |].
  all: try (intros i j a b [[-> ->]|(i' & -> & Hi)]%at_age_one [[-> ->]|(j' & -> & Hj)]%at_age_one Hij;
    try lia; apply Hold in Hj; try apply Hold in Hi; intros).
  - specialize (Hbasic _ _ Hj). lia.
  - by apply (H2 _ _ _ _ Hi Hj).
  - specialize (Hbank _ _ Hj). replace (issue_bank b) with (issue_bank e) in Hbank by done. lia.
  - by apply (H3 _ _ _ _ Hi Hj).
  - specialize (Hwrite _ _ Hj). intuition lia.
  - by apply (H4 _ _ _ _ Hi Hj).
  - specialize (Hread _ _ Hj). specialize (Hrank _ _ Hj).
    destruct (decide (issue_rank e = m_busBusy_WhichRank (mc_bus m))) as [E|E]; [|intuition lia].
    rewrite E in *. assert (issue_rank b ≠ m_busBusy_WhichRank (mc_bus m)) by congruence. intuition lia.
  - by apply (H5 _ _ _ _ Hi Hj).
  - intros Ht i r. destruct (drop_cons_window [e] h i) as [[j ->] | ->].
    { specialize (H6 Ht (S j) r). done. }
    rewrite window_issue by done. specialize (H6 Ht 0%nat r). rewrite drop_0 in H6.
    destruct (decide (issue_rank e = r)) as [<-|]; [|lia].
    specialize (Hcount Ht (issue_rank e) (rank_of_range cf Hcf _ He)). unfold activates_left in Htf.
    change (rank_of cf (issue_bank e)) with (issue_rank e) in Htf.
    rewrite (list_lookup_total_correct _ _ _ Hcount) in Htf. lia.
Qed.

(** A bank's turn, and the whole scan, after [acc] was issued in the same cycle. *)
Definition legal (m : MemoryControl) (h : list (list issue)) : Prop := shape cf m ∧ tinv m h ∧ obeys h.

Lemma legal_issue e m m' acc h :
  0 ≤ issue_bank e < total_banks cf → allowed e m → issued_regs e m m' → shape cf m' →
  legal m (acc :: h) → legal m' ((acc ++ [e]) :: h).
Proof.
  intros He Ha Hr Hs' (Hs & Ht & Ho). pose proof (bus_free_idle m acc h Ht (al_bus _ _ Ha)) as ->. cbn [app].
  split; [done|]. split; [by eapply tinv_issue; [..|apply Ht]; try apply Ha|by eapply obeys_issue].
Qed.

Lemma legal_bank_step now bank m es m' :
  m_memFixedDelay cf = 0 → 0 ≤ bank < total_banks cf → bank_step cf now bank m es m' →
  ∀ acc h, legal m (acc :: h) → legal m' ((acc ++ es) :: h).
Proof.
  intros Hf Hb H. induction H as [m E|m E|m req Hq Hmay|m es m' Hmay _ IH]; intros acc h Hl.
  - by rewrite app_nil_r.
  - rewrite app_nil_r. destruct Hl as (Hs & Ht & Ho). split; [by destruct Hs; split|]. split; [|done].
    by eapply tinv_regs, Ht.
  - eapply legal_issue; [done|by apply request_allowed, Hmay| | |exact Hl].
    + pose proof (request_regs now bank req (set_idle IDLECOUNT_MAX_VALUE m)) as Hr. by destruct Hr; split.
    + apply do_request_shape. destruct Hl as [Hs _]. by destruct Hs; split.
  - rewrite (app_assoc acc [_] es) || rewrite cons_middle, app_assoc. apply IH.
    eapply legal_issue; [done|by apply refresh_allowed|apply refresh_regs| |exact Hl].
    apply do_refresh_shape. apply Hl.
Qed.

Lemma legal_bank_steps now banks m es m' :
  m_memFixedDelay cf = 0 → Forall (λ b, 0 ≤ b < total_banks cf) banks → bank_steps cf now banks m es m' →
  ∀ acc h, legal m (acc :: h) → legal m' ((acc ++ es) :: h).
Proof.
  intros Hf Hb H. induction H as [m|bank banks m m1 m2 es1 es2 H1 H2 IH]; intros acc h Hl; [by rewrite app_nil_r|].
  apply Forall_cons in Hb as [Hb Hbs]. rewrite app_assoc. apply IH; [done|].
  eapply legal_bank_step; [done|done|exact H1|]. destruct Hl as (Hs & Ht & Ho).
  split; [by destruct Hs; split|]. split; [by eapply tinv_regs, Ht|done].
Qed.

Lemma legal_regs m m' h : shape cf m' → regs m' = regs m → legal m h → legal m' h.
Proof. intros Hs Hr (_ & Ht & Ho). split; [done|]. split; [by eapply tinv_regs|done]. Qed.

Lemma scan_order_range rr : Forall (λ b, 0 ≤ b < total_banks cf) (scan_order cf rr).
Proof.
  pose proof (total_ranks_pos cf Hcf). apply Forall_forall. intros b. apply ring_range. lia.
Qed.

Lemma tick_regs m m0 : tick_refresh cf (tick_counters m) = Ret m0 → regs m0 = regs (tick_counters m).
Proof.
  unfold tick_refresh. destruct (_ =? 0); [|by intros [= <-]].
  destruct (_ <? _); [by intros [= <-]|done].
Qed.

Lemma tick_refresh_shape m m0 : shape cf m → tick_refresh cf (tick_counters m) = Ret m0 → shape cf m0.
Proof.
  intros Hs E. pose proof (tick_shape cf m Hs) as Ht. unfold tick_refresh in E.
  destruct (_ =? 0); [destruct (_ <? _); [|done]|]; injection E as <-; by destruct Ht; split.
Qed.

Lemma legal_cycle now m es m' h :
  m_memFixedDelay cf = 0 → cycle_step cf now m es m' → shape cf m' → legal m h → legal m' (es :: h).
Proof.
  intros Hf [m0 m1 rr Ht Hrr _ Hb] Hs' (Hs & Hti & Ho).
  assert (H0 : legal (set_roundRobin rr (new_batch m0)) ([] :: h)).
  { apply (legal_regs (tick_counters m)).
    - pose proof (new_batch_shape cf _ (tick_refresh_shape _ _ Hs Ht)) as []. by split.
    - rewrite <- (tick_regs _ _ Ht). unfold new_batch. by destruct (existsb id _).
    - split; [by apply tick_shape|]. split; [by apply tinv_tick|by apply obeys_tick]. }
  apply (legal_bank_steps _ _ _ _ _ Hf (scan_order_range rr) Hb) in H0. cbn [app] in H0.
  eapply legal_regs; [done| |exact H0]. unfold accept_input. destruct (m_input_queue _); [done|].
  by destruct (_ <? _).
Qed.

Lemma legal_start p : legal (mem_start cf p) [].
Proof.
  pose proof (total_ranks_pos cf Hcf). split; [|split].
  - split; cbn; rewrite ?length_replicate; try done. lia.
  - split; try (by intros ? ? (? & ? & ?)); [by intros ? ?%not_elem_of_nil|..].
    + intros _ r Hr. exists 0. split; [apply lookup_replicate_2; lia|]. intros i Hi.
      rewrite Z.bits_0. rewrite lookup_nil. cbn. by rewrite andb_false_r.
    + intros _ r Hr. cbn [mem_start mc_banks m_tfaw_count]. rewrite lookup_replicate_2 by lia.
      by rewrite take_nil.
  - split; try (by intros ? ? ? ? (? & ? & ?)); [by intros ? ?%not_elem_of_nil|].
    intros _ i r. by rewrite drop_nil, take_nil.
Qed.
End timing.

(** [C11] In every run of a controller outside fixed-delay mode, whatever the
    directory asks and however the cycles and arrivals interleave, the commands
    it sends obey the timing of the DRAM: at most one command a cycle, commands
    as far apart as the address bus needs, activates of one bank (refreshes
    included) as far apart as the bank is busy, a write after a read and reads
    of different ranks as far apart as the data bus needs, and never more than
    four activates of one rank within a tFAW window. *)
Theorem memory_timing (cf : mem_config) {W : Type} (random : nat → Z) (self directory : nat)
    (ls : list mem_label) (P : list EventQueueNode) (st : mem_state W) :
  config_ok cf → (∀ n, 0 ≤ random n) → m_memFixedDelay cf = 0 →
  mem_trace cf random self directory ls P st → obeys cf (cycles ls).
Proof.
  intros Hcf Hrandom Hf Htr. cut (legal cf (mc st) (cycles ls)); [by intros (_ & _ & ?)|].
  induction Htr as [m P w d Em Hw|ls P st l P' st' Htr IH Hstep].
  - destruct (mem_init_ok cf Hcf) as (p & E & _). rewrite E in Em. injection Em as <-. by apply legal_start.
  - pose proof (trace_inv cf Hcf random self directory Hrandom _ _ _ Htr) as Hinv.
    pose proof (step_inv cf Hcf random self directory Hrandom _ _ _ _ _ Hstep Hinv) as Hinv'.
    pose proof (mo_shape _ _ _ _ (iv_ok _ _ _ _ _ Hinv')) as Hs'.
    destruct Hstep as [P st P' w st' es Hw Ht Hn E|P st r st' Ha E|P st r st' E1 E2|P st P' w Hw Hle Hsf Hd]; [|..|exact IH].
    + destruct (wakeup_cycle cf Hcf random self directory Hrandom _ _ _ _ _ _ Hinv Hw Ht Hn E) as (m1 & C & Em).
      change (cycles (Cycled es :: ls)) with (es :: cycles ls).
      apply (legal_regs cf m1); [done|rewrite Em; unfold watchdog; by destruct (_ <=? 0)|].
      eapply legal_cycle; [done|done|exact C| |exact IH].
      rewrite Em in Hs'. unfold watchdog in Hs'. destruct (_ <=? 0); by destruct Hs'; split.
    + destruct (enqueueMemRef_ok cf Hcf self directory P st r Hinv Ha) as (st2 & E' & _ & Em & _). rewrite E' in E. injection E as <-.
      apply (legal_regs cf (mc st)); [done| |exact IH]. by rewrite Em.
    + unfold dequeue in E2. destruct (isReady st); [|done]. cbn [assertb mbind outcome_bind] in E2.
      destruct (m_response_queue (queues_of st)) as [|r0 rs] eqn:Eq; [done|]. injection E2 as <-.
      by apply (legal_regs cf (mc st)).
Qed.

Lemma memory_timing_witness :
  ∃ ls st, ex_run ex_mem (ex_busy ++ replicate 20 Clock) = Ret (ls, st) ∧
    length (concat (cycles ls)) = 10%nat ∧ obeys ex_mem (cycles ls).
Proof.
  assert (Hq : match ex_run ex_mem (ex_busy ++ replicate 20 Clock) with
    | Ret (ls, _) => length (concat (cycles ls)) = 10%nat | _ => False end) by (vm_compute; reflexivity).
  destruct (ex_run ex_mem (ex_busy ++ replicate 20 Clock)) as [[ls st]|] eqn:E; [|destruct Hq].
  exists ls, st. split; [reflexivity|]. split; [exact Hq|].
  apply (memory_timing ex_mem ex_random 0 1 ls [] st).
  - apply ex_mem_ok.
  - apply ex_random_pos.
  - reflexivity.
  - eapply ex_run_trace; [apply ex_mem_ok|reflexivity| |exact E].
    apply Forall_app; split; [apply (proj1 ex_asks_good)|]. apply (bool_decide_unpack _). vm_compute. exact I.
Defined.
