(* ===== verification/MemoryOrder.v ===== *)
(** * Requests of the memory controller

    Every request that arrives is in exactly one place until the directory takes
    its answer, requests of one bank are served in the order they arrived in, and
    answers are given in the order the requests were issued in. *)

From stdpp Require Import list numbers.
From S2P Require Import Prelude PrioHeap EventQueue MemoryControl MemoryCycle MemoryRun MemoryTiming.
Local Open Scope Z_scope.

(** What stays with a request from its arrival to its answer. *)
Definition key (r : MemoryNode) : option nat * Z * bool * bool :=
  (mr_msgptr r, mr_addr r, mr_is_mem_read r, mr_is_dirty_wb r).

Definition issue_req (e : issue) : option MemoryNode :=
  match e with Request _ r => Some r | Refresh _ => None end.

Definition requests (es : list issue) : list MemoryNode := omap issue_req es.

(** The requests of one bank. *)
Definition served (bank : Z) (es : list issue) : list MemoryNode :=
  requests (filter (λ e, issue_bank e = bank) es).

Definition wants_answer (r : MemoryNode) : Prop := is_Some (mr_msgptr r).
#[export] Instance wants_answer_dec r : Decision (wants_answer r) := _.

(** The labels of a trace, oldest first. *)
Definition arrived (ls : list mem_label) : list MemoryNode :=
  omap (λ l, match l with Arrived r => Some r | _ => None end) (rev ls).
Definition answered_to (ls : list mem_label) : list MemoryNode :=
  omap (λ l, match l with Answered r => Some r | _ => None end) (rev ls).
Definition issued (ls : list mem_label) : list issue := concat (rev (cycles ls)).

Lemma issued_cycle es ls : issued (Cycled es :: ls) = issued ls ++ es.
Proof.
  unfold issued. change (cycles (Cycled es :: ls)) with (es :: cycles ls). cbn [rev].
  rewrite concat_app. cbn. by rewrite app_nil_r.
Qed.

Lemma issued_other l ls : (∀ es, l ≠ Cycled es) → issued (l :: ls) = issued ls.
Proof. intros H. unfold issued. destruct l; try done. by destruct (H es). Qed.

Lemma arrived_arrived r ls : arrived (Arrived r :: ls) = arrived ls ++ [r].
Proof. unfold arrived. cbn [rev]. by rewrite omap_app. Qed.

Lemma arrived_other l ls : (∀ r, l ≠ Arrived r) → arrived (l :: ls) = arrived ls.
Proof.
  intros H. unfold arrived. cbn [rev]. rewrite omap_app. destruct l; try by rewrite app_nil_r. by destruct (H r).
Qed.

Lemma answered_answered r ls : answered_to (Answered r :: ls) = answered_to ls ++ [r].
Proof. unfold answered_to. cbn [rev]. by rewrite omap_app. Qed.

Lemma answered_other l ls : (∀ r, l ≠ Answered r) → answered_to (l :: ls) = answered_to ls.
Proof.
  intros H. unfold answered_to. cbn [rev]. rewrite omap_app. destruct l; try by rewrite app_nil_r. by destruct (H r).
Qed.

Section order.
Context (cf : mem_config) (Hcf : config_ok cf).

(** The requests of a bank are those whose address it holds. *)
Definition of_bank (bank : Z) (r : MemoryNode) : Prop := bank_of cf (mr_addr r) = bank.
#[export] Instance of_bank_dec bank r : Decision (of_bank bank r).
Proof. unfold of_bank. apply _. Defined.

Lemma served_app bank es1 es2 : served bank (es1 ++ es2) = served bank es1 ++ served bank es2.
Proof. unfold served, requests. by rewrite filter_app, omap_app. Qed.

Lemma requests_app es1 es2 : requests (es1 ++ es2) = requests es1 ++ requests es2.
Proof. apply omap_app. Qed.

Lemma bank_queue_insert bank b q m :
  shape cf m → 0 ≤ bank < total_banks cf → 0 ≤ b →
  (<[Z.to_nat bank := q]> (m_bankQueues (mc_queues m))) !!! Z.to_nat b =
  if decide (b = bank) then q else bank_queue b m.
Proof.
  intros Hs Hb Hb'. destruct (decide (b = bank)) as [->|Hne].
  - rewrite list_lookup_total_insert_eq; [done|]. rewrite (sh_queues _ _ Hs). lia.
  - by rewrite list_lookup_total_insert_ne by lia.
Qed.

(** A bank's turn takes the head of its queue. *)
Lemma bank_step_served now bank m es m' b :
  bank_step cf now bank m es m' → shape cf m → 0 ≤ bank < total_banks cf → 0 ≤ b →
  served b es ++ bank_queue b m' = bank_queue b m.
Proof.
  intros H Hs Hb Hb'. induction H as [m E|m E|m req Hq _|m es m' _ H IH]; [done|done| |].
  - change (bank_queue b (do_request _ _ _ _ _)) with
      ((<[Z.to_nat bank := tail (bank_queue bank m)]> (m_bankQueues (mc_queues m))) !!! Z.to_nat b).
    rewrite bank_queue_insert by done. unfold served. rewrite filter_cons. cbn [issue_bank].
    destruct (decide (bank = b)) as [->|]; [|by rewrite decide_False by congruence].
    rewrite decide_True by done. cbn. destruct (bank_queue b m) as [|x q]; [done|]. by injection Hq as ->.
  - change (bank_queue b m) with (bank_queue b (do_refresh cf bank m)).
    rewrite <- (IH (do_refresh_shape cf bank m Hs)). unfold served. rewrite filter_cons.
    by destruct (decide _).
Qed.

Lemma bank_steps_served now banks m es m' b :
  bank_steps cf now banks m es m' → shape cf m → Forall (λ b, 0 ≤ b < total_banks cf) banks → 0 ≤ b →
  served b es ++ bank_queue b m' = bank_queue b m.
Proof.
  induction 1 as [|bank banks m m1 m2 es1 es2 H1 H2 IH]; intros Hs Hb Hb'; [done|].
  apply Forall_cons in Hb as [Hb Hbs].
  assert (Hs' : shape cf (set_roundRobin bank m)) by (by destruct Hs; split).
  rewrite served_app, <- app_assoc, IH by (try done; by eapply bank_step_shape).
  exact (bank_step_served _ _ _ _ _ _ H1 Hs' Hb Hb').
Qed.

(** Its request gets an answer at the end of the response queue. *)
Lemma bank_step_answers now bank m es m' :
  bank_step cf now bank m es m' →
  key <$> m_response_queue (mc_queues m') =
  (key <$> m_response_queue (mc_queues m)) ++ (key <$> filter wants_answer (requests es)).
Proof.
  induction 1 as [m E|m E|m req Hq _|m es m' _ H IH]; [by rewrite app_nil_r..| |].
  - cbn [do_request mc_queues m_response_queue]. rewrite fmap_app. f_equal.
    unfold answers, requests. cbn [omap list_omap issue_req]. rewrite filter_cons.
    case_decide as Hw; unfold wants_answer in Hw.
    + destruct Hw as [p Ep]. by rewrite Ep.
    + destruct (mr_msgptr req) as [p|]; [|done]. destruct Hw. by exists p.
  - exact IH.
Qed.

Lemma bank_steps_answers now banks m es m' :
  bank_steps cf now banks m es m' →
  key <$> m_response_queue (mc_queues m') =
  (key <$> m_response_queue (mc_queues m)) ++ (key <$> filter wants_answer (requests es)).
Proof.
  induction 1 as [|bank banks m m1 m2 es1 es2 H1 H2 IH]; [by rewrite app_nil_r|].
  rewrite IH, (bank_step_answers _ _ _ _ _ H1), requests_app, filter_app, fmap_app. by rewrite app_assoc.
Qed.

(** Everything that waits for a bank, in its order: the bank's queue, then its
    part of the common queue. *)
Definition waiting (bank : Z) (m : MemoryControl) : list MemoryNode :=
  bank_queue bank m ++ filter (of_bank bank) (m_input_queue (mc_queues m)).

Lemma accept_waiting m b :
  shape cf m → 0 ≤ b → Forall (λ r, 0 ≤ mr_addr r) (m_input_queue (mc_queues m)) →
  waiting b (accept_input cf m) = waiting b m.
Proof.
  intros Hs Hb Ha. unfold accept_input. destruct (m_input_queue (mc_queues m)) as [|req input] eqn:Ei; [done|].
  destruct (_ <? _); [|done]. unfold waiting. rewrite Ei, filter_cons.
  apply Forall_cons in Ha as [Ha _]. destruct (getBank_ok cf Hcf _ Ha) as (bank & Eb & Hbank).
  assert (E : bank_of cf (mr_addr req) = bank) by (unfold bank_of; by rewrite Eb).
  change (bank_queue b (set_bankQueues ?l _)) with (l !!! Z.to_nat b).
  change (mc_queues (set_idle _ m)) with (mc_queues m). rewrite E, bank_queue_insert by done.
  change (bank_queue _ (set_idle _ m)) with (bank_queue bank m). cbn [mc_queues set_bankQueues set_queues m_input_queue set_input].
  destruct (decide (b = bank)) as [->|].
  - rewrite decide_True by done. by rewrite <- app_assoc.
  - rewrite decide_False; [done|]. unfold of_bank. congruence.
Qed.

Lemma accept_response m : m_response_queue (mc_queues (accept_input cf m)) = m_response_queue (mc_queues m).
Proof. unfold accept_input. destruct (m_input_queue (mc_queues m)); [done|]. by destruct (_ <? _). Qed.

Lemma cycle_order now m es m' b :
  cycle_step cf now m es m' → shape cf m → 0 ≤ b → Forall (λ r, 0 ≤ mr_addr r) (m_input_queue (mc_queues m)) →
  served b es ++ waiting b m' = waiting b m ∧
  key <$> m_response_queue (mc_queues m') =
    (key <$> m_response_queue (mc_queues m)) ++ (key <$> filter wants_answer (requests es)).
Proof.
  intros [m0 m1 rr Ht Hrr _ Hst] Hs Hb Ha.
  assert (Hs0 : shape cf (set_roundRobin rr (new_batch m0))).
  { pose proof (new_batch_shape cf _ (tick_refresh_shape cf _ _ Hs Ht)) as []. by split. }
  assert (Eq : mc_queues (set_roundRobin rr (new_batch m0)) = mc_queues m).
  { cbn. rewrite new_batch_queues. by eapply tick_queues. }
  pose proof (scan_order_range cf Hcf rr) as Hr. rewrite accept_waiting.
  - unfold waiting. rewrite app_assoc, (bank_steps_served _ _ _ _ _ _ Hst Hs0 Hr Hb).
    rewrite (bank_steps_input _ _ _ _ _ _ Hst). unfold bank_queue. rewrite Eq. split; [done|].
    by rewrite accept_response, (bank_steps_answers _ _ _ _ _ Hst), Eq.
  - by eapply bank_steps_shape; [exact Hst| |].
  - done.
  - by rewrite (bank_steps_input _ _ _ _ _ _ Hst), Eq.
Qed.
End order.

(** [C12] In every run, for every bank: what has been issued there, then what
    waits in the bank's queue, then what waits for it in the common queue, is
    what arrived for it, in the order of arrival; and what the directory has
    taken, then what it can still take, is what was issued of the requests that
    want an answer, in the order of issue.  So no request is lost, doubled or
    overtaken within its bank, and every answer belongs to a request. *)
Theorem memory_order (cf : mem_config) {W : Type} (random : nat → Z) (self directory : nat)
    (ls : list mem_label) (P : list EventQueueNode) (st : mem_state W) :
  config_ok cf → (∀ n, 0 ≤ random n) → mem_trace cf random self directory ls P st →
  (∀ bank, 0 ≤ bank < total_banks cf →
     key <$> served bank (issued ls) ++ bank_queue bank (mc st) ++
             filter (of_bank cf bank) (m_input_queue (queues_of st)) =
     key <$> filter (of_bank cf bank) (arrived ls)) ∧
  key <$> answered_to ls ++ m_response_queue (queues_of st) =
  key <$> filter wants_answer (requests (issued ls)).
Proof.
  intros Hcf Hrandom. induction 1 as [m P w d Em Hw|ls P st l P' st' Htr [IH1 IH2] Hstep].
  - destruct (mem_init_ok cf Hcf) as (p & E & _). rewrite E in Em. injection Em as <-. split; [|done].
    intros bank Hb. unfold bank_queue. cbn. by rewrite lookup_total_replicate_2 by lia.
  - pose proof (trace_inv cf Hcf random self directory Hrandom _ _ _ Htr) as Hinv.
    destruct Hstep as [P st P' w st' es Hw Ht Hn E|P st r st' Ha E|P st r st' E1 E2|P st P' w Hw Hle Hsf Hd].
    + destruct (wakeup_cycle cf Hcf random self directory Hrandom _ _ _ _ _ _ Hinv Hw Ht Hn E) as (m1 & C & Em).
      destruct Hinv as [[Hs _ _ Ha _] _ _ _]. unfold queues_of, bank_queue in *. rewrite Em, watchdog_queues.
      rewrite issued_cycle, arrived_other, answered_other by done. split.
      * intros bank Hb. destruct (cycle_order cf Hcf _ _ _ _ bank C Hs) as [H1 _]; [lia|done|].
        unfold waiting, bank_queue in H1. rewrite served_app, <- app_assoc, H1. by apply IH1.
      * destruct (cycle_order cf Hcf _ _ _ _ 0 C Hs) as [_ H2]; [lia|done|].
        rewrite requests_app, filter_app, !fmap_app, H2, app_assoc. f_equal. by rewrite <- fmap_app.
    + destruct (enqueueMemRef_ok cf Hcf self directory P st r Hinv Ha) as (st2 & E' & _ & Em & _). rewrite E' in E. injection E as <-.
      unfold queues_of, bank_queue in *. rewrite Em. cbn [arrive set_awakened set_sched set_queues mc_queues m_bankQueues m_input_queue m_response_queue].
      rewrite issued_other, arrived_arrived, answered_other by done. split; [|done].
      intros bank Hb. rewrite !filter_app, !fmap_app, <- IH1, !fmap_app, !app_assoc by done. f_equal.
      rewrite !filter_cons. unfold of_bank, numbered. cbn [mr_addr]. by destruct (decide _).
    + unfold peekNode, dequeue in *. destruct (isReady st); [|done]. cbn [assertb mbind outcome_bind] in *.
      unfold queues_of in *. destruct (m_response_queue (mc_queues (mc st))) as [|r0 rs] eqn:Eq; [done|].
      injection E1 as <-. injection E2 as <-. rewrite issued_other, arrived_other, answered_answered by done.
      split; [exact IH1|]. rewrite <- IH2. cbn [on_mc mc set_response set_queues mc_queues m_response_queue].
      by rewrite <- app_assoc.
    + rewrite issued_other, arrived_other, answered_other by done. done.
Qed.

Lemma memory_order_witness :
  ∃ ls st, ex_run ex_mem ex_busy = Ret (ls, st) ∧ length (requests (issued ls)) = 5%nat ∧
    key <$> answered_to ls ++ m_response_queue (queues_of st) = key <$> filter wants_answer (requests (issued ls)).
Proof.
  assert (Hq : match ex_run ex_mem ex_busy with
    | Ret (ls, _) => length (requests (issued ls)) = 5%nat | _ => False end) by (vm_compute; reflexivity).
  destruct (ex_run ex_mem ex_busy) as [[ls st]|] eqn:E; [|destruct Hq].
  exists ls, st. split; [reflexivity|]. split; [exact Hq|].
  apply (memory_order ex_mem ex_random 0 1 ls []).
  - apply ex_mem_ok.
  - apply ex_random_pos.
  - eapply ex_run_trace; [apply ex_mem_ok|reflexivity|apply (proj1 ex_asks_good)|exact E].
Defined.
