(* ===== verification/Bloom.v ===== *)
(** * Bloom filters

    [AbstractBloomFilter.h] and its seven implementations in
    [gems-lib/ruby_clean/system]: signatures of the set of addresses a transaction touched.  A method with an empty body is written as
    one.  Members no method reads ([m_count] outside the counting filter, the
    primes of [H3BloomFilter]) and printing are left out. *)

From Stdlib Require Import Ascii.
From stdpp Require Import list numbers strings.
From S2P Require Import Prelude Text Util Address BloomTable.
Local Open Scope Z_scope.

(** [Vector<int>::setSize] and the [clear] that follows it. *)
Definition zeros (size : Z) : list Z := replicate (Z.to_nat size) 0.

(** ** The interface *)

Class AbstractBloomFilter (F : Type) := {
  bf_clear : F → F;
  bf_increment : Z → F → outcome F;
  bf_decrement : Z → F → outcome F;
  bf_merge : F → F → outcome F;            (** [merge f other] *)
  bf_set : Z → F → outcome F;
  bf_unset : Z → F → outcome F;
  bf_isSet : Z → F → outcome (bool * F);
  bf_getCount : Z → F → outcome (Z * F);
  bf_getTotalCount : F → Z * F;
  bf_getIndex : Z → F → outcome Z;
  bf_readBit : Z → F → outcome Z;
  bf_writeBit : Z → Z → F → outcome F
}.

(** [m_filter[i] = 1] for every index a method computes. *)
Definition set_bits (idxs : list Z) (v : list Z) : outcome (list Z) :=
  foldM (λ v i, set_int v i 1) v idxs.

(** [res = res && m_filter[idx]] over the indices. *)
Definition test_bits (idxs : list Z) (v : list Z) : outcome bool :=
  foldM (λ res i, if (res : bool) then x ← at_int v i; Ret (negb (x =? 0)) else Ret false) true idxs.

(** [m_filter[i] |= other[i]] *)
Definition or_bits (v other : list Z) : outcome (list Z) :=
  foldM (λ v i, x ← at_idx v i; y ← at_idx other i; Ret (<[i := Z.lor x y]> v)) v (seq 0 (length v)).

(** The two ways the totals are counted. *)
Definition count_set (v : list Z) : Z := zsum (λ x, if x =? 0 then 0 else 1) v.
Definition count_sum (v : list Z) : Z := zsum id v.

(** What the filters read of the configuration. *)
Class RubyConfig := dataBlockBits : Z.

Section filters.
Context {config : RubyConfig}.
Notation bits := (dataBlockBits).

(** ** [LSB_CountingBloomFilter] *)

Record LSB_CountingBloomFilter := mkLsb { lsb_filter : list Z; lsb_size_bits : Z; lsb_count : Z }.

Definition new_lsb (str : string) : outcome LSB_CountingBloomFilter :=
  let '(head, tail) := string_split str ":" in
  let size := atoi head in
  size_bits ← log_int size;
  let count := atoi tail in
  _ ← log_int count;
  Ret (mkLsb (zeros size) size_bits count).

Definition lsb_get_index (addr : Z) (f : LSB_CountingBloomFilter) : outcome Z :=
  i ← bitSelect bits (bits + lsb_size_bits f - 1) addr; Ret (i32 i).

Definition lsb_with (f : LSB_CountingBloomFilter) (v : list Z) : LSB_CountingBloomFilter :=
  mkLsb v (lsb_size_bits f) (lsb_count f).

(** The [if] ends in a semicolon, so the increment is not guarded. *)
Definition lsb_increment (addr : Z) (f : LSB_CountingBloomFilter) : outcome LSB_CountingBloomFilter :=
  i ← lsb_get_index addr f;
  x ← at_int (lsb_filter f) i;
  v ← set_int (lsb_filter f) i (i32 (x + 1));
  Ret (lsb_with f v).

Definition lsb_decrement (addr : Z) (f : LSB_CountingBloomFilter) : outcome LSB_CountingBloomFilter :=
  i ← lsb_get_index addr f;
  x ← at_int (lsb_filter f) i;
  if 0 <? x then v ← set_int (lsb_filter f) i (x - 1); Ret (lsb_with f v) else Ret f.

Definition lsb_getCount (addr : Z) (f : LSB_CountingBloomFilter) : outcome Z :=
  i ← lsb_get_index addr f; at_int (lsb_filter f) i.

#[export] Instance lsb_bloom : AbstractBloomFilter LSB_CountingBloomFilter := {|
  bf_clear f := lsb_with f (map (λ _, 0) (lsb_filter f));
  bf_increment := lsb_increment;
  bf_decrement := lsb_decrement;
  bf_merge f _ := Ret f;
  bf_set _ f := Ret f;
  bf_unset _ f := Ret f;
  bf_isSet _ _ := Raise AssertFailed;
  bf_getCount addr f := n ← lsb_getCount addr f; Ret (n, f);
  bf_getTotalCount f := (count_sum (lsb_filter f), f);
  bf_getIndex := lsb_get_index;
  bf_readBit _ _ := Ret 0;
  bf_writeBit _ _ f := Ret f
|}.

(** ** [NonCountingBloomFilter] *)

Record NonCountingBloomFilter := mkNonCounting { nc_filter : list Z; nc_size_bits : Z; nc_offset : Z }.

Definition new_noncounting (str : string) : outcome NonCountingBloomFilter :=
  let '(head, tail) := string_split str "_" in
  let size := atoi head in
  let offset := atoi tail in
  size_bits ← log_int size;
  Ret (mkNonCounting (zeros size) size_bits offset).

Definition nc_get_index (addr : Z) (f : NonCountingBloomFilter) : outcome Z :=
  i ← bitSelect (bits + nc_offset f) (bits + nc_offset f + nc_size_bits f - 1) addr; Ret (i32 i).

Definition nc_with (f : NonCountingBloomFilter) (v : list Z) : NonCountingBloomFilter :=
  mkNonCounting v (nc_size_bits f) (nc_offset f).

Definition nc_write (i value : Z) (f : NonCountingBloomFilter) : outcome NonCountingBloomFilter :=
  v ← set_int (nc_filter f) i value; Ret (nc_with f v).

Definition nc_read (i : Z) (f : NonCountingBloomFilter) : outcome Z := at_int (nc_filter f) i.

#[export] Instance noncounting_bloom : AbstractBloomFilter NonCountingBloomFilter := {|
  bf_clear f := nc_with f (map (λ _, 0) (nc_filter f));
  bf_increment _ f := Ret f;
  bf_decrement _ f := Ret f;
  bf_merge f other := v ← or_bits (nc_filter f) (nc_filter other); Ret (nc_with f v);
  bf_set addr f := i ← nc_get_index addr f; nc_write i 1 f;
  bf_unset addr f := i ← nc_get_index addr f; nc_write i 0 f;
  bf_isSet addr f := i ← nc_get_index addr f; x ← nc_read i f; Ret (negb (x =? 0), f);
  bf_getCount addr f := i ← nc_get_index addr f; x ← nc_read i f; Ret (x, f);
  bf_getTotalCount f := (count_sum (nc_filter f), f);
  bf_getIndex := nc_get_index;
  bf_readBit := nc_read;
  bf_writeBit := nc_write
|}.

(** ** [BlockBloomFilter] *)

Record BlockBloomFilter := mkBlock { block_filter : list Z; block_size_bits : Z }.

Definition new_block (str : string) : outcome BlockBloomFilter :=
  let '(head, _) := string_split str "_" in
  let size := atoi head in
  size_bits ← log_int size;
  Ret (mkBlock (zeros size) size_bits).

Definition block_get_index (addr : Z) (f : BlockBloomFilter) : outcome Z :=
  let offset := 5 in
  block_bits ← bitSelect bits (2 * bits - 1) addr;
  other_bits ← bitSelect (2 * bits + offset) (2 * bits + offset + block_size_bits f - 1) addr;
  let index := i32 (Z.lxor block_bits other_bits) in
  assertb (index <? Z.of_nat (length (block_filter f))) ;;
  Ret index.

Definition block_write (i value : Z) (f : BlockBloomFilter) : outcome BlockBloomFilter :=
  v ← set_int (block_filter f) i value; Ret (mkBlock v (block_size_bits f)).

Definition block_read (i : Z) (f : BlockBloomFilter) : outcome Z := at_int (block_filter f) i.

#[export] Instance block_bloom : AbstractBloomFilter BlockBloomFilter := {|
  bf_clear f := mkBlock (map (λ _, 0) (block_filter f)) (block_size_bits f);
  bf_increment _ f := Ret f;
  bf_decrement _ f := Ret f;
  bf_merge f _ := Ret f;
  bf_set addr f := i ← block_get_index addr f; block_write i 1 f;
  bf_unset addr f := i ← block_get_index addr f; block_write i 0 f;
  bf_isSet addr f := i ← block_get_index addr f; x ← block_read i f; Ret (negb (x =? 0), f);
  bf_getCount addr f := i ← block_get_index addr f; x ← block_read i f; Ret (x, f);
  bf_getTotalCount f := (count_set (block_filter f), f);
  bf_getIndex := block_get_index;
  bf_readBit := block_read;
  bf_writeBit := block_write
|}.

(** ** [BulkBloomFilter] *)

Record BulkBloomFilter := mkBulk {
  bulk_filter : list Z; bulk_temp_filter : list Z; bulk_size : Z; bulk_size_bits : Z; bulk_sector_bits : Z
}.

Definition new_bulk (str : string) : outcome BulkBloomFilter :=
  let '(head, _) := string_split str "_" in
  let size := atoi head in
  size_bits ← log_int size;
  Ret (mkBulk (zeros size) (zeros size) size size_bits (size_bits - 1)).

Definition bulk_with (f : BulkBloomFilter) (v temp : list Z) : BulkBloomFilter :=
  mkBulk v temp (bulk_size f) (bulk_size_bits f) (bulk_sector_bits f).

(** The bits of the two halves, [c0] already shifted to its half. *)
Definition bulk_indices (addr : Z) (f : BulkBloomFilter) : outcome (Z * Z) :=
  let set_bits := bulk_sector_bits f in
  c0 ← bitSelect bits (bits + set_bits - 1) addr;
  c1 ← bitSelect (bits + set_bits) (bits + 2 * set_bits - 1) addr;
  Ret (i32 c0 + Z.quot (bulk_size f) 2, i32 c1).

Definition bulk_set (addr : Z) (f : BulkBloomFilter) : outcome BulkBloomFilter :=
  '(i0, i1) ← bulk_indices addr f;
  v ← set_int (bulk_filter f) i0 1;
  v ← set_int v i1 1;
  Ret (bulk_with f v (bulk_temp_filter f)).

(** The loops of [isSet]: the temporary filter and whether a bit is left. *)
Definition bulk_round (filter : list Z) (run : list Z * bool) (i : nat) : outcome (list Z * bool) :=
  let '(temp, any) := run in
  t ← at_idx temp i;
  x ← at_idx filter i;
  let b := negb (t =? 0) && negb (x =? 0) in
  Ret (<[i := if b then 1 else 0]> temp, any || b).

Definition bulk_intersect (first count : nat) (filter temp : list Z) : outcome (list Z * bool) :=
  foldM (bulk_round filter) (temp, false) (seq first count).

Definition bulk_isSet (addr : Z) (f : BulkBloomFilter) : outcome (bool * BulkBloomFilter) :=
  '(i0, i1) ← bulk_indices addr f;
  temp ← set_int (bulk_temp_filter f) i0 1;
  temp ← set_int temp i1 1;
  let half := Z.to_nat (Z.quot (bulk_size f) 2) in
  let reset temp := v ← set_int temp i0 0; set_int v i1 0 in
  '(temp, any) ← bulk_intersect 0 half (bulk_filter f) temp;
  if negb any then temp ← reset temp; Ret (false, bulk_with f (bulk_filter f) temp)
  else
    '(temp, any) ← bulk_intersect half (Z.to_nat (bulk_size f) - half) (bulk_filter f) temp;
    temp ← reset temp;
    Ret (any, bulk_with f (bulk_filter f) temp).

Definition bulk_getIndex (addr : Z) (f : BulkBloomFilter) : outcome Z :=
  i ← bitSelect bits (bits + bulk_size_bits f - 1) addr; Ret (i32 i).

#[export] Instance bulk_bloom : AbstractBloomFilter BulkBloomFilter := {|
  bf_clear f := bulk_with f (map (λ _, 0) (bulk_filter f)) (bulk_temp_filter f);
  bf_increment _ f := Ret f;
  bf_decrement _ f := Ret f;
  bf_merge f _ := Ret f;
  bf_set := bulk_set;
  bf_unset _ f := Ret f;
  bf_isSet := bulk_isSet;
  bf_getCount _ f := Ret (0, f);
  bf_getTotalCount f := (count_set (bulk_filter f), f);
  bf_getIndex := bulk_getIndex;
  bf_readBit _ _ := Ret 0;
  bf_writeBit _ _ f := Ret f
|}.

(** ** [MultiGrainBloomFilter] *)

Record MultiGrainBloomFilter := mkMultiGrain {
  mg_filter : list Z; mg_page_filter : list Z; mg_size_bits : Z; mg_page_size_bits : Z
}.

Definition new_multigrain (str : string) : outcome MultiGrainBloomFilter :=
  let '(head, tail) := string_split str "_" in
  let size := atoi head in
  size_bits ← log_int size;
  let page_size := atoi tail in
  page_size_bits ← log_int page_size;
  Ret (mkMultiGrain (zeros size) (zeros page_size) size_bits page_size_bits).

Definition mg_with (f : MultiGrainBloomFilter) (v page : list Z) : MultiGrainBloomFilter :=
  mkMultiGrain v page (mg_size_bits f) (mg_page_size_bits f).

Definition get_block_index (addr : Z) (f : MultiGrainBloomFilter) : outcome Z :=
  i ← bitSelect bits (bits + mg_size_bits f - 1) addr; Ret (i32 i).

Definition get_page_index (addr : Z) (f : MultiGrainBloomFilter) : outcome Z :=
  let first := bits + mg_size_bits f - 1 in
  j ← bitSelect first (first + mg_page_size_bits f - 1) addr; Ret (i32 j).

(** Both methods check both indices and then use the block index twice. *)
Definition mg_index (addr : Z) (f : MultiGrainBloomFilter) : outcome Z :=
  i ← get_block_index addr f;
  j ← get_page_index addr f;
  assertb (i <? Z.of_nat (length (mg_filter f))) ;;
  assertb (j <? Z.of_nat (length (mg_page_filter f))) ;;
  Ret i.

Definition mg_set (addr : Z) (f : MultiGrainBloomFilter) : outcome MultiGrainBloomFilter :=
  i ← mg_index addr f;
  v ← set_int (mg_filter f) i 1;
  page ← set_int (mg_page_filter f) i 1;
  Ret (mg_with f v page).

Definition mg_isSet (addr : Z) (f : MultiGrainBloomFilter) : outcome bool :=
  i ← mg_index addr f;
  x ← at_int (mg_filter f) i;
  if x =? 0 then Ret false
  else y ← at_int (mg_page_filter f) i; Ret (negb (y =? 0)).

(** [count += m_page_filter[i] = 0] clears the page filter. *)
Definition mg_getTotalCount (f : MultiGrainBloomFilter) : Z * MultiGrainBloomFilter :=
  (count_sum (mg_filter f), mg_with f (mg_filter f) (map (λ _, 0) (mg_page_filter f))).

#[export] Instance multigrain_bloom : AbstractBloomFilter MultiGrainBloomFilter := {|
  bf_clear f := mg_with f (map (λ _, 0) (mg_filter f)) (map (λ _, 0) (mg_page_filter f));
  bf_increment _ f := Ret f;
  bf_decrement _ f := Ret f;
  bf_merge f _ := Ret f;
  bf_set := mg_set;
  bf_unset _ f := Ret f;
  bf_isSet addr f := b ← mg_isSet addr f; Ret (b, f);
  bf_getCount _ f := Ret (0, f);
  bf_getTotalCount := mg_getTotalCount;
  bf_getIndex _ _ := Ret 0;
  bf_readBit _ _ := Ret 0;
  bf_writeBit _ _ f := Ret f
|}.

(** ** Filters with several hash functions *)

Record HashBloomFilter := mkHash {
  hb_filter : list Z; hb_num_hashes : Z; hb_size_bits : Z; hb_par_size : Z; hb_parallel : bool
}.

Definition hb_with (f : HashBloomFilter) (v : list Z) : HashBloomFilter :=
  mkHash v (hb_num_hashes f) (hb_size_bits f) (hb_par_size f) (hb_parallel f).

(** The end of the two constructors. *)
Definition new_hash (size num_hashes : Z) (tail : string) : outcome HashBloomFilter :=
  parallel ← (if String.eqb tail "Regular" then Ret false
              else if String.eqb tail "Parallel" then Ret true else Raise AssertFailed);
  size_bits ← log_int size;
  par_size ← (if num_hashes =? 0 then Raise DivByZero else Ret (Z.quot size num_hashes));
  _ ← log_int par_size;
  Ret (mkHash (zeros size) num_hashes size_bits par_size parallel).

(** A hash value cut to the filter, or to its hash function's part of it. *)
Definition hash_place (f : HashBloomFilter) (i y : Z) : outcome Z :=
  if hb_parallel f then
    if hb_par_size f =? 0 then Raise DivByZero
    else Ret (Z.rem y (hb_par_size f) + i * hb_par_size f)
  else
    let size := Z.of_nat (length (hb_filter f)) in
    if size =? 0 then Raise DivByZero else Ret (Z.rem y size).

(** The indices of the loops of [set] and [isSet]. *)
Definition hash_numbers (f : HashBloomFilter) : list Z := map Z.of_nat (seq 0 (Z.to_nat (hb_num_hashes f))).

Definition hb_set (get_index : Z → outcome Z) (f : HashBloomFilter) : outcome HashBloomFilter :=
  v ← foldM (λ v i, idx ← get_index i; set_int v idx 1) (hb_filter f) (hash_numbers f);
  Ret (hb_with f v).

Definition hb_isSet (get_index : Z → outcome Z) (f : HashBloomFilter) : outcome bool :=
  foldM (λ res i,
      idx ← get_index i;
      if (res : bool) then x ← at_int (hb_filter f) idx; Ret (negb (x =? 0)) else Ret false)
    true (hash_numbers f).

(** *** [H3BloomFilter] *)

Record H3BloomFilter := mkH3 { h3 : HashBloomFilter }.

Definition new_h3 (str : string) : outcome H3BloomFilter :=
  let '(head, tail) := string_split str "_" in
  let size := atoi head in
  let '(head, tail) := string_split tail "_" in
  f ← new_hash size (atoi head) tail;
  Ret (mkH3 f).

Definition hash_H3 (value index : Z) : outcome Z :=
  foldM (λ result i,
      if Z.testbit value (Z.of_nat i) then
        row ← at_idx H3 i; x ← at_int row index; Ret (Z.lxor result x)
      else Ret result) 0 (seq 0 64).

Definition h3_get_index (addr : Z) (f : HashBloomFilter) (i : Z) : outcome Z :=
  x ← getLineAddress bits addr;
  y ← hash_H3 x i;
  hash_place f i y.

#[export] Instance h3_bloom : AbstractBloomFilter H3BloomFilter := {|
  bf_clear f := mkH3 (hb_with (h3 f) (map (λ _, 0) (hb_filter (h3 f))));
  bf_increment _ f := Ret f;
  bf_decrement _ f := Ret f;
  bf_merge f other := v ← or_bits (hb_filter (h3 f)) (hb_filter (h3 other)); Ret (mkH3 (hb_with (h3 f) v));
  bf_set addr f := g ← hb_set (h3_get_index addr (h3 f)) (h3 f); Ret (mkH3 g);
  bf_unset _ _ := Raise AssertFailed;
  bf_isSet addr f := b ← hb_isSet (h3_get_index addr (h3 f)) (h3 f); Ret (b, f);
  bf_getCount addr f := b ← hb_isSet (h3_get_index addr (h3 f)) (h3 f); Ret (if (b : bool) then 1 else 0, f);
  bf_getTotalCount f := (count_sum (hb_filter (h3 f)), f);
  bf_getIndex _ _ := Ret 0;
  bf_readBit _ _ := Ret 0;
  bf_writeBit _ _ f := Ret f
|}.

(** *** [MultiBitSelBloomFilter] *)

Record MultiBitSelBloomFilter := mkBitSel { mbs : HashBloomFilter; mbs_skip_bits : Z }.

Definition new_multibitsel (str : string) : outcome MultiBitSelBloomFilter :=
  let '(head, tail) := string_split str "_" in
  let size := atoi head in
  let '(head, tail) := string_split tail "_" in
  let num_hashes := atoi head in
  let '(head, tail) := string_split tail "_" in
  let skip_bits := atoi head in
  f ← new_hash size num_hashes tail;
  Ret (mkBitSel f skip_bits).

Definition hash_bitsel (value index jump maxBits numBits : Z) : outcome Z :=
  foldM (λ result i,
      let bit := Z.rem (index + jump * Z.of_nat i) maxBits in
      if (0 <=? bit) && (bit <? 64) then
        if Z.testbit value bit then
          if (i <? 64)%nat then Ret (i32 (result + 2 ^ Z.of_nat i)) else Raise BadShift
        else Ret result
      else Raise BadShift) 0 (seq 0 (Z.to_nat numBits)).

Definition mbs_get_index (addr : Z) (f : MultiBitSelBloomFilter) (i : Z) : outcome Z :=
  x ← getLineAddress bits addr;
  x ← (if (0 <=? mbs_skip_bits f) && (mbs_skip_bits f <? 64) then Ret (Z.shiftr x (mbs_skip_bits f)) else Raise BadShift);
  y ← hash_bitsel x i (hb_num_hashes (mbs f)) 30 (hb_size_bits (mbs f));
  hash_place (mbs f) i y.

Definition mbs_with (f : MultiBitSelBloomFilter) (g : HashBloomFilter) : MultiBitSelBloomFilter :=
  mkBitSel g (mbs_skip_bits f).

#[export] Instance multibitsel_bloom : AbstractBloomFilter MultiBitSelBloomFilter := {|
  bf_clear f := mbs_with f (hb_with (mbs f) (map (λ _, 0) (hb_filter (mbs f))));
  bf_increment _ f := Ret f;
  bf_decrement _ f := Ret f;
  bf_merge f other :=
    v ← or_bits (hb_filter (mbs f)) (hb_filter (mbs other)); Ret (mbs_with f (hb_with (mbs f) v));
  bf_set addr f := g ← hb_set (mbs_get_index addr f) (mbs f); Ret (mbs_with f g);
  bf_unset _ _ := Raise AssertFailed;
  bf_isSet addr f := b ← hb_isSet (mbs_get_index addr f) (mbs f); Ret (b, f);
  bf_getCount addr f := b ← hb_isSet (mbs_get_index addr f) (mbs f); Ret (if (b : bool) then 1 else 0, f);
  bf_getTotalCount f := (count_sum (hb_filter (mbs f)), f);
  bf_getIndex _ _ := Ret 0;
  bf_readBit _ _ := Ret 0;
  bf_writeBit _ _ f := Ret f
|}.

(** ** [GenericBloomFilter]: one of them, by name *)

Inductive GenericBloomFilter :=
  | LSB_Counting (f : LSB_CountingBloomFilter)
  | NonCounting (f : NonCountingBloomFilter)
  | Bulk (f : BulkBloomFilter)
  | Block (f : BlockBloomFilter)
  | Multigrain (f : MultiGrainBloomFilter)
  | MultiBitSel (f : MultiBitSelBloomFilter)
  | H3Filter (f : H3BloomFilter).

Definition new_GenericBloomFilter (config : string) : outcome GenericBloomFilter :=
  let '(head, tail) := string_split config "_" in
  if String.eqb head "LSB_Counting" then f ← new_lsb tail; Ret (LSB_Counting f)
  else if String.eqb head "NonCounting" then f ← new_noncounting tail; Ret (NonCounting f)
  else if String.eqb head "Bulk" then f ← new_bulk tail; Ret (Bulk f)
  else if String.eqb head "Block" then f ← new_block tail; Ret (Block f)
  else if String.eqb head "Multigrain" then f ← new_multigrain tail; Ret (Multigrain f)
  else if String.eqb head "MultiBitSel" then f ← new_multibitsel tail; Ret (MultiBitSel f)
  else if String.eqb head "H3" then f ← new_h3 tail; Ret (H3Filter f)
  else Raise AssertFailed.

(** A virtual call that changes the filter, and one that answers as well. *)
Definition gb_do (call : ∀ F, AbstractBloomFilter F → F → outcome F) (g : GenericBloomFilter) :
    outcome GenericBloomFilter :=
  match g with
  | LSB_Counting f => f ← call _ _ f; Ret (LSB_Counting f)
  | NonCounting f => f ← call _ _ f; Ret (NonCounting f)
  | Bulk f => f ← call _ _ f; Ret (Bulk f)
  | Block f => f ← call _ _ f; Ret (Block f)
  | Multigrain f => f ← call _ _ f; Ret (Multigrain f)
  | MultiBitSel f => f ← call _ _ f; Ret (MultiBitSel f)
  | H3Filter f => f ← call _ _ f; Ret (H3Filter f)
  end.

Definition gb_ask {A} (call : ∀ F, AbstractBloomFilter F → F → outcome (A * F)) (g : GenericBloomFilter) :
    outcome (A * GenericBloomFilter) :=
  match g with
  | LSB_Counting f => '(a, f) ← call _ _ f; Ret (a, LSB_Counting f)
  | NonCounting f => '(a, f) ← call _ _ f; Ret (a, NonCounting f)
  | Bulk f => '(a, f) ← call _ _ f; Ret (a, Bulk f)
  | Block f => '(a, f) ← call _ _ f; Ret (a, Block f)
  | Multigrain f => '(a, f) ← call _ _ f; Ret (a, Multigrain f)
  | MultiBitSel f => '(a, f) ← call _ _ f; Ret (a, MultiBitSel f)
  | H3Filter f => '(a, f) ← call _ _ f; Ret (a, H3Filter f)
  end.

Definition gb_pure {A} (call : ∀ F, AbstractBloomFilter F → F → A * F) (g : GenericBloomFilter) : A * GenericBloomFilter :=
  match g with
  | LSB_Counting f => let '(a, f) := call _ _ f in (a, LSB_Counting f)
  | NonCounting f => let '(a, f) := call _ _ f in (a, NonCounting f)
  | Bulk f => let '(a, f) := call _ _ f in (a, Bulk f)
  | Block f => let '(a, f) := call _ _ f in (a, Block f)
  | Multigrain f => let '(a, f) := call _ _ f in (a, Multigrain f)
  | MultiBitSel f => let '(a, f) := call _ _ f in (a, MultiBitSel f)
  | H3Filter f => let '(a, f) := call _ _ f in (a, H3Filter f)
  end.

(** The classes that merge cast the other filter to their own class. *)
Definition gb_merge (g other : GenericBloomFilter) : outcome GenericBloomFilter :=
  match g, other with
  | NonCounting f, NonCounting o => f ← bf_merge f o; Ret (NonCounting f)
  | H3Filter f, H3Filter o => f ← bf_merge f o; Ret (H3Filter f)
  | MultiBitSel f, MultiBitSel o => f ← bf_merge f o; Ret (MultiBitSel f)
  | NonCounting _, _ | H3Filter _, _ | MultiBitSel _, _ => Raise BadDeref
  | _, _ => Ret g
  end.

#[export] Instance generic_bloom : AbstractBloomFilter GenericBloomFilter := {|
  bf_clear g := (gb_pure (λ (F : Type) (H : AbstractBloomFilter F) (f : F), (tt, bf_clear f)) g).2;
  bf_increment addr := gb_do (λ F H, bf_increment addr);
  bf_decrement addr := gb_do (λ F H, bf_decrement addr);
  bf_merge := gb_merge;
  bf_set addr := gb_do (λ F H, bf_set addr);
  bf_unset addr := gb_do (λ F H, bf_unset addr);
  bf_isSet addr := gb_ask (λ F H, bf_isSet addr);
  bf_getCount addr := gb_ask (λ F H, bf_getCount addr);
  bf_getTotalCount := gb_pure (λ F H, bf_getTotalCount);
  bf_getIndex addr g := '(i, _) ← gb_ask (λ (F : Type) (H : AbstractBloomFilter F) (f : F), i ← bf_getIndex addr f; Ret (i, f)) g; Ret i;
  bf_readBit index g := '(x, _) ← gb_ask (λ (F : Type) (H : AbstractBloomFilter F) (f : F), x ← bf_readBit index f; Ret (x, f)) g; Ret x;
  bf_writeBit index value := gb_do (λ F H, bf_writeBit index value)
|}.
End filters.
