(* ===== verification/BloomSpec.v ===== *)
(** * What a Bloom filter promises

    The interface the filters are used through: an address has marks, a filter
    has bits, [set] lights the marks of an address and [isSet] asks whether all
    of them are lit.  Every class but the counting one implements it, and the
    theorem about what a filter answers is proved once, against the interface. *)

From stdpp Require Import list numbers strings sets.
From S2P Require Import Prelude Text Util Address BloomTable Bloom.
Local Open Scope Z_scope.

Definition lit (v : list Z) (p : nat) : Prop := ∃ x, v !! p = Some x ∧ x ≠ 0.

Definition address (a : Z) : Prop := 0 ≤ a < 2 ^ 64.

(** ** The laws *)

(** Nothing but the bits changes. *)
Definition alike {F} (marks : F → Z → list nat) (fits : F → Z → bool) (forgets : F → bool) (f f' : F) : Prop :=
  (∀ b, marks f' b = marks f b) ∧ (∀ b, fits f' b = fits f b) ∧ forgets f' = forgets f.

(** [bl_fits]: [set] can take the address, the bounds check of the vector stops
    it otherwise.  [bl_forgets]: counting the bits clears them. *)
Class BloomLaws (F : Type) `{AbstractBloomFilter F} := {
  bl_ok : F → Prop;
  bl_bits : F → list Z;
  bl_marks : F → Z → list nat;
  bl_fits : F → Z → bool;
  bl_forgets : F → bool;
  bl_set f a : bl_ok f → address a → bl_fits f a = true → ∃ f', bf_set a f = Ret f' ∧ bl_ok f' ∧
    alike bl_marks bl_fits bl_forgets f f' ∧ ∀ p, lit (bl_bits f') p ↔ lit (bl_bits f) p ∨ p ∈ bl_marks f a;
  bl_set_fails f a : bl_ok f → address a → bl_fits f a = false → bf_set a f = Raise OutOfBounds;
  bl_isSet f a : bl_ok f → address a → ∃ b f', bf_isSet a f = Ret (b, f') ∧ bl_ok f' ∧
    alike bl_marks bl_fits bl_forgets f f' ∧ bl_bits f' = bl_bits f ∧
    (b = true ↔ ∀ p, p ∈ bl_marks f a → lit (bl_bits f) p);
  bl_clear f : bl_ok f → bl_ok (bf_clear f) ∧ alike bl_marks bl_fits bl_forgets f (bf_clear f) ∧
    ∀ p, ¬ lit (bl_bits (bf_clear f)) p;
  bl_count f : bl_ok f → bl_ok (bf_getTotalCount f).2 ∧
    alike bl_marks bl_fits bl_forgets f (bf_getTotalCount f).2 ∧
    if bl_forgets f then ∀ p, ¬ lit (bl_bits (bf_getTotalCount f).2) p
    else bl_bits (bf_getTotalCount f).2 = bl_bits f
}.

Notation like := (alike bl_marks bl_fits bl_forgets).

Section clients.
Context {F : Type} `{BloomLaws F}.
Implicit Types (f : F) (S : list Z).

Lemma like_refl f : like f f.
Proof. by split_and!. Qed.

Lemma like_trans f f' f'' : like f f' → like f' f'' → like f f''.
Proof.
  intros (M1 & F1 & G1) (M2 & F2 & G2).
  split_and!; [intros b; by rewrite M2|intros b; by rewrite F2|congruence].
Qed.

(** The filter holds the addresses [S]. *)
Record holds f S : Prop := {
  ho_ok : bl_ok f;
  ho_bits : ∀ p, lit (bl_bits f) p ↔ ∃ a, a ∈ S ∧ p ∈ bl_marks f a
}.

Inductive bloom_op := Touch (a : Z) | Ask (a : Z) | Forget | Count.

Definition bloom_do (run : list bool * F) (op : bloom_op) : outcome (list bool * F) :=
  let '(answers, f) := run in
  match op with
  | Touch a => f ← bf_set a f; Ret (answers, f)
  | Ask a => '(b, f) ← bf_isSet a f; Ret (answers ++ [b], f)
  | Forget => Ret (answers, bf_clear f)
  | Count => Ret (answers, (bf_getTotalCount f).2)
  end.

Definition op_address (fits : Z → bool) (op : bloom_op) : Prop :=
  match op with Touch a => address a ∧ fits a = true | Ask a => address a | Forget | Count => True end.

(** The addresses set since the filter was last cleared, or counted if that
    clears it. *)
Definition touched (forgets : bool) (S : list Z) (ops : list bloom_op) : list Z :=
  foldl (λ S op, match op with
    | Touch a => a :: S
    | Ask _ => S
    | Forget => []
    | Count => if forgets then [] else S
    end) S ops.

Lemma holds_none f : bl_ok f → (∀ p, ¬ lit (bl_bits f) p) → holds f [].
Proof.
  intros Hok Hno. split; [done|]. intros p. split; [by intros ?%Hno|]. by intros (a & ?%not_elem_of_nil & _).
Qed.

Lemma holds_same f f' S :
  holds f S → bl_ok f' → like f f' → bl_bits f' = bl_bits f → holds f' S.
Proof.
  intros [_ Hb] Hok (Hm & _ & _) E. split; [done|]. intros p. rewrite E, Hb. by setoid_rewrite Hm.
Qed.

Lemma holds_ask f S a :
  holds f S → address a → ∃ b f', bf_isSet a f = Ret (b, f') ∧ holds f' S ∧ like f f' ∧
    (b = true ↔ ∀ p, p ∈ bl_marks f a → ∃ a', a' ∈ S ∧ p ∈ bl_marks f a').
Proof.
  intros Hf Ha. destruct (bl_isSet f a (ho_ok _ _ Hf) Ha) as (b & f' & E & Hok' & Hm & Hbits & Hans).
  exists b, f'. split; [done|]. split; [by apply (holds_same f)|]. split; [done|].
  rewrite Hans. by setoid_rewrite (ho_bits _ _ Hf).
Qed.

Lemma bloom_step f S op answers :
  holds f S → op_address (bl_fits f) op →
  ∃ answers' f', bloom_do (answers, f) op = Ret (answers', f') ∧ holds f' (touched (bl_forgets f) S [op]) ∧
    like f f'.
Proof.
  intros Hf Hop. destruct op as [a|a| |]; cbn [bloom_do touched foldl].
  - destruct Hf as [Hok Hb]. destruct Hop as [Ha Hfit].
    destruct (bl_set f a Hok Ha Hfit) as (f' & -> & Hok' & Hm & Hbits).
    exists answers, f'. split; [done|]. split; [split; [done|]|done]. intros p. rewrite Hbits, Hb.
    destruct Hm as [Hm _]. setoid_rewrite elem_of_cons. setoid_rewrite Hm. naive_solver.
  - destruct (holds_ask f S a Hf Hop) as (b & f' & -> & Hf' & Hm & _). by exists (answers ++ [b]), f'.
  - destruct (bl_clear f (ho_ok _ _ Hf)) as (Hok' & Hm & Hno).
    exists answers, (bf_clear f). split; [done|]. split; [by apply holds_none|done].
  - destruct (bl_count f (ho_ok _ _ Hf)) as (Hok' & Hm & Hbits).
    exists answers, (bf_getTotalCount f).2. split; [done|]. split; [|done].
    destruct (bl_forgets f); [by apply holds_none|by apply (holds_same f)].
Qed.

Lemma bloom_run f S ops answers :
  holds f S → Forall (op_address (bl_fits f)) ops →
  ∃ answers' f', foldM bloom_do (answers, f) ops = Ret (answers', f') ∧
    holds f' (touched (bl_forgets f) S ops) ∧ like f f'.
Proof.
  revert f S answers. induction ops as [|op ops IH]; intros f S answers Hf Hops.
  { exists answers, f. split; [done|]. split; [done|]. apply like_refl. }
  apply Forall_cons in Hops as [Hop Hops]. cbn [foldM].
  destruct (bloom_step f S op answers Hf Hop) as (ans1 & f1 & -> & H1 & Hm1). cbn [mbind outcome_bind].
  pose proof Hm1 as (_ & Hfit & Hfor).
  destruct (IH f1 _ ans1 H1) as (ans2 & f2 & -> & H2 & Hm2).
  { eapply Forall_impl; [exact Hops|]. intros [a|a| |]; cbn; try done. by rewrite Hfit. }
  exists ans2, f2. split; [done|]. split; [by rewrite Hfor in H2|by eapply like_trans].
Qed.
End clients.

(** ** Lists of bits *)

Lemma lit_insert v i x p : (i < length v)%nat → x ≠ 0 → lit (<[i:=x]> v) p ↔ lit v p ∨ p = i.
Proof.
  intros Hi Hx. unfold lit. destruct (decide (i = p)) as [->|Hne].
  - rewrite list_lookup_insert_eq by done. split; [by right|]. intros _. by exists x.
  - rewrite list_lookup_insert_ne by done. split; [by left|]. intros [?|?]; [done|congruence].
Qed.

Lemma lit_zeros (v : list Z) p : ¬ lit (map (λ _, 0) v) p.
Proof.
  intros (x & Hx & Hne). assert (E : ((λ _ : Z, 0) <$> v) !! p = Some x) by exact Hx.
  rewrite list_lookup_fmap in E. by destruct (v !! p); simplify_eq/=.
Qed.

Lemma lit_new n p : ¬ lit (zeros n) p.
Proof. intros (x & Hx & Hne). by apply lookup_replicate in Hx as [-> _]. Qed.

Lemma at_int_lit v i :
  0 ≤ i < Z.of_nat (length v) → ∃ x, at_int v i = Ret x ∧ (negb (x =? 0) = true ↔ lit v (Z.to_nat i)).
Proof.
  intros Hi. destruct (at_int_ok v i (Z.of_nat (length v))) as (x & E & Hx); [by rewrite Nat2Z.id|done|].
  exists x. split; [done|]. unfold lit. rewrite Hx, negb_true_iff, Z.eqb_neq. naive_solver.
Qed.

Lemma set_int_lit v i :
  0 ≤ i < Z.of_nat (length v) → ∃ v', set_int v i 1 = Ret v' ∧ length v' = length v ∧
    ∀ p, lit v' p ↔ lit v p ∨ p = Z.to_nat i.
Proof.
  intros Hi. exists (<[Z.to_nat i := 1]> v). split.
  - apply (set_int_ok v i (Z.of_nat (length v))); [by rewrite Nat2Z.id|done].
  - split; [apply length_insert|]. intros p. apply lit_insert; [lia|done].
Qed.

(** ** Indices *)

Lemma select_ok small n a :
  0 ≤ small → 1 ≤ n ≤ 31 → small + n ≤ 63 → address a →
  ∃ i, bitSelect small (small + n - 1) a = Ret i ∧ i32 i = i ∧ 0 ≤ i < 2 ^ n.
Proof.
  intros Hs Hn Hb Ha. rewrite bitSelect_spec by (done || lia).
  replace (small + n - 1 - small + 1) with n by lia.
  assert (0 < 2 ^ n) by (apply Z.pow_pos_nonneg; lia).
  assert (2 ^ n ≤ 2 ^ 31) by (apply Z.pow_le_mono_r; lia).
  pose proof (Z.mod_pos_bound (a / 2 ^ small) (2 ^ n) ltac:(lia)).
  eexists. split; [done|]. split; [|done]. apply i32_id. lia.
Qed.

(** The place of an index that was computed without a fault. *)
Definition place (o : outcome Z) : nat := match o with Ret i => Z.to_nat i | Raise _ => 0%nat end.

(** A class whose [set] takes every address and whose count changes nothing. *)
Lemma alike_marks {F} (marks : F → Z → list nat) f f' :
  (∀ b, marks f' b = marks f b) → alike marks (λ _ _, true) (λ _, false) f f'.
Proof. by repeat split. Qed.

Section instances.
Context {config : RubyConfig}.
Notation bits := dataBlockBits.

(** *** [NonCountingBloomFilter] *)

Record nc_ok (f : NonCountingBloomFilter) : Prop := {
  nc_bits : 0 ≤ bits ∧ 0 ≤ nc_offset f;
  nc_index_bits : 1 ≤ nc_size_bits f ≤ 31 ∧ bits + nc_offset f + nc_size_bits f ≤ 63;
  nc_fits : 2 ^ nc_size_bits f ≤ Z.of_nat (length (nc_filter f))
}.

Lemma nc_index_ok f a :
  nc_ok f → address a → ∃ i, nc_get_index a f = Ret i ∧ 0 ≤ i < Z.of_nat (length (nc_filter f)).
Proof.
  intros [Hb Hi Hf] Ha. unfold nc_get_index.
  destruct (select_ok (bits + nc_offset f) (nc_size_bits f) a) as (i & -> & Ei & Hr); [lia..|done|].
  cbn [mbind outcome_bind]. exists i. rewrite Ei. split; [done|lia].
Qed.

#[export] Program Instance noncounting_laws : BloomLaws NonCountingBloomFilter := {|
  bl_ok := nc_ok;
  bl_bits := nc_filter;
  bl_marks f a := [place (nc_get_index a f)];
  bl_fits _ _ := true;
  bl_forgets _ := false
|}.
Next Obligation.
  intros f a Hok Ha _. destruct (nc_index_ok f a Hok Ha) as (i & E & Hi).
  unfold bf_set, noncounting_bloom, nc_write. rewrite E. cbn [mbind outcome_bind place].
  destruct (set_int_lit (nc_filter f) i Hi) as (v & -> & Hl & Hlit). cbn [mbind outcome_bind].
  exists (nc_with f v). split; [done|]. split; [by destruct Hok; split; cbn; rewrite ?Hl|]. split; [by apply alike_marks|].
  intros p. cbn [nc_with nc_filter]. by rewrite Hlit, list_elem_of_singleton.
Qed.
Next Obligation. by intros. Qed.
Next Obligation.
  intros f a Hok Ha. destruct (nc_index_ok f a Hok Ha) as (i & E & Hi).
  unfold bf_isSet, noncounting_bloom, nc_read. rewrite E. cbn [mbind outcome_bind place].
  destruct (at_int_lit (nc_filter f) i Hi) as (x & -> & Hx). cbn [mbind outcome_bind].
  exists (negb (x =? 0)), f. do 2 (split; [done|]). split; [by apply alike_marks|]. split; [done|]. rewrite Hx. setoid_rewrite list_elem_of_singleton. naive_solver.
Qed.
Next Obligation.
  intros f Hok. split; [by destruct Hok; split; cbn; rewrite ?length_map|]. split; [by apply alike_marks|]. apply lit_zeros.
Qed.
Next Obligation. intros f Hok. split; [done|]. split; [by apply alike_marks|done]. Qed.
(** *** [BlockBloomFilter] *)

Record block_ok (f : BlockBloomFilter) : Prop := {
  bk_bits : 1 ≤ bits ≤ block_size_bits f;
  bk_index_bits : block_size_bits f ≤ 31 ∧ 2 * bits + 5 + block_size_bits f ≤ 63;
  bk_fits : 2 ^ block_size_bits f ≤ Z.of_nat (length (block_filter f))
}.

Lemma lxor_range x y n : 0 ≤ n → 0 ≤ x < 2 ^ n → 0 ≤ y < 2 ^ n → 0 ≤ Z.lxor x y < 2 ^ n.
Proof.
  intros Hn Hx Hy. assert (0 ≤ Z.lxor x y) by (apply Z.lxor_nonneg; lia). split; [done|].
  destruct (Z.eq_dec (Z.lxor x y) 0) as [->|Hne]; [lia|].
  assert (Hlog : ∀ z, 0 ≤ z < 2 ^ n → z = 0 ∨ Z.log2 z < n).
  { intros z Hz. destruct (Z.eq_dec z 0); [by left|right]. apply Z.log2_lt_pow2; lia. }
  apply Z.log2_lt_pow2; [lia|]. pose proof (Z.log2_lxor x y ltac:(lia) ltac:(lia)) as Hmax.
  destruct (Hlog x Hx) as [->|], (Hlog y Hy) as [->|]; rewrite ?Z.lxor_0_l, ?Z.lxor_0_r in *; done || lia.
Qed.

Lemma block_index_ok f a :
  block_ok f → address a → ∃ i, block_get_index a f = Ret i ∧ 0 ≤ i < Z.of_nat (length (block_filter f)).
Proof.
  intros [Hb Hi Hf] Ha. unfold block_get_index. cbv zeta.
  replace (2 * bits - 1) with (bits + bits - 1) by lia.
  destruct (select_ok bits bits a) as (i & -> & _ & Hri); [lia..|done|].
  destruct (select_ok (2 * bits + 5) (block_size_bits f) a) as (j & -> & _ & Hrj); [lia..|done|].
  cbn [mbind outcome_bind].
  assert (2 ^ bits ≤ 2 ^ block_size_bits f) by (apply Z.pow_le_mono_r; lia).
  assert (2 ^ block_size_bits f ≤ 2 ^ 31) by (apply Z.pow_le_mono_r; lia).
  pose proof (lxor_range i j (block_size_bits f) ltac:(lia) ltac:(lia) Hrj).
  rewrite i32_id by lia. rewrite (proj2 (Z.ltb_lt _ _)) by lia. cbn [assertb mbind outcome_bind].
  eexists. split; [done|]. lia.
Qed.

#[export] Program Instance block_laws : BloomLaws BlockBloomFilter := {|
  bl_ok := block_ok;
  bl_bits := block_filter;
  bl_marks f a := [place (block_get_index a f)];
  bl_fits _ _ := true;
  bl_forgets _ := false
|}.
Next Obligation.
  intros f a Hok Ha _. destruct (block_index_ok f a Hok Ha) as (i & E & Hi).
  unfold bf_set, block_bloom, block_write. rewrite E. cbn [mbind outcome_bind place].
  destruct (set_int_lit (block_filter f) i Hi) as (v & -> & Hl & Hlit). cbn [mbind outcome_bind].
  exists (mkBlock v (block_size_bits f)). split; [done|]. split; [by destruct Hok; split; cbn; rewrite ?Hl|].
  split; [apply alike_marks; intros b; unfold block_get_index; cbn; by rewrite Hl|].
  intros p. cbn [block_filter]. by rewrite Hlit, list_elem_of_singleton.
Qed.
Next Obligation. by intros. Qed.
Next Obligation.
  intros f a Hok Ha. destruct (block_index_ok f a Hok Ha) as (i & E & Hi).
  unfold bf_isSet, block_bloom, block_read. rewrite E. cbn [mbind outcome_bind place].
  destruct (at_int_lit (block_filter f) i Hi) as (x & -> & Hx). cbn [mbind outcome_bind].
  exists (negb (x =? 0)), f. do 2 (split; [done|]). split; [by apply alike_marks|]. split; [done|]. rewrite Hx. setoid_rewrite list_elem_of_singleton. naive_solver.
Qed.
Next Obligation.
  intros f Hok. split; [by destruct Hok; split; cbn; rewrite ?length_map|].
  split; [apply alike_marks; intros b; unfold block_get_index; cbn; by rewrite length_map|]. apply lit_zeros.
Qed.
Next Obligation. intros f Hok. split; [done|]. split; [by apply alike_marks|done]. Qed.

(** *** [MultiGrainBloomFilter] *)

(** Both methods index the page filter by the block, so the page index is never
    used: a mark is the bit of the block in the page filter, and the bits of the
    first filter are those of blocks the page filter has or has had. *)
Record mg_ok (f : MultiGrainBloomFilter) : Prop := {
  mgo_bits : 0 ≤ bits ∧ 1 ≤ mg_size_bits f ≤ 31 ∧ 1 ≤ mg_page_size_bits f ≤ 31;
  mgo_index_bits : bits + mg_size_bits f + mg_page_size_bits f ≤ 63;
  mgo_fits : 2 ^ mg_size_bits f ≤ Z.of_nat (length (mg_filter f));
  mgo_page_fits : 2 ^ mg_page_size_bits f ≤ Z.of_nat (length (mg_page_filter f));
  mgo_lit p : lit (mg_page_filter f) p → lit (mg_filter f) p;
  mgo_page p : lit (mg_filter f) p → (p < length (mg_page_filter f))%nat
}.

Lemma mg_index_ok f a :
  mg_ok f → address a → ∃ i, mg_index a f = Ret i ∧ 0 ≤ i < Z.of_nat (length (mg_filter f)).
Proof.
  intros [Hb Hi Hf Hpf _ _] Ha. unfold mg_index, get_block_index, get_page_index. cbv zeta.
  destruct (select_ok bits (mg_size_bits f) a) as (i & -> & Ei & Hri); [lia..|done|].
  destruct (select_ok (bits + mg_size_bits f - 1) (mg_page_size_bits f) a) as (j & -> & Ej & Hrj); [lia..|done|].
  cbn [mbind outcome_bind]. rewrite Ei, Ej, !(proj2 (Z.ltb_lt _ _)) by lia. cbn [assertb mbind outcome_bind].
  exists i. split; [done|]. lia.
Qed.

Definition mg_mark (f : MultiGrainBloomFilter) (a : Z) : nat := place (mg_index a f).

(** The block of the address is a bit of the page filter. *)
Definition mg_fits (f : MultiGrainBloomFilter) (a : Z) : bool := (mg_mark f a <? length (mg_page_filter f))%nat.

Lemma mg_alike f v w :
  length v = length (mg_filter f) → length w = length (mg_page_filter f) →
  alike (λ f a, [mg_mark f a]) mg_fits (λ _, true) f (mg_with f v w).
Proof.
  intros Hv Hw. assert (E : ∀ b, mg_mark (mg_with f v w) b = mg_mark f b).
  { intros b. unfold mg_mark, mg_index. cbn. by rewrite Hv, Hw. }
  split_and!; [intros b; by rewrite E| |done]. intros b. unfold mg_fits. rewrite E. cbn. by rewrite Hw.
Qed.

Lemma mg_with_id f : mg_with f (mg_filter f) (mg_page_filter f) = f.
Proof. by destruct f. Qed.

#[export] Program Instance multigrain_laws : BloomLaws MultiGrainBloomFilter := {|
  bl_ok := mg_ok;
  bl_bits f := mg_page_filter f;
  bl_marks f a := [mg_mark f a];
  bl_fits := mg_fits;
  bl_forgets _ := true
|}.
Next Obligation.
  intros f a Hok Ha Hfit. destruct (mg_index_ok f a Hok Ha) as (i & E & Hi).
  unfold mg_fits, mg_mark in *. rewrite E in Hfit. apply Nat.ltb_lt in Hfit. cbn [place] in Hfit.
  unfold bf_set, multigrain_bloom, mg_set. rewrite E. cbn [mbind outcome_bind].
  destruct (set_int_lit (mg_filter f) i Hi) as (v & -> & Hl & Hlit).
  destruct (set_int_lit (mg_page_filter f) i) as (w & -> & Hlw & Hlitw); [lia|]. cbn [mbind outcome_bind].
  exists (mg_with f v w). split; [done|]. split; [|split; [by apply mg_alike|]].
  - destruct Hok as [H1 H2 H3 H4 H5 H6]. split; cbn; rewrite ?Hl, ?Hlw; try done.
    + intros p. rewrite Hlit, Hlitw. naive_solver.
    + intros p [?%H6| ->]%Hlit; [done|lia].
  - intros p. cbn. by rewrite Hlitw, list_elem_of_singleton, ?E.
Qed.
Next Obligation.
  intros f a Hok Ha Hfit. destruct (mg_index_ok f a Hok Ha) as (i & E & Hi).
  unfold mg_fits, mg_mark in *. rewrite E in Hfit. apply Nat.ltb_ge in Hfit. cbn [place] in Hfit.
  unfold bf_set, multigrain_bloom, mg_set. rewrite E. cbn [mbind outcome_bind].
  destruct (set_int_lit (mg_filter f) i Hi) as (v & -> & _). cbn [mbind outcome_bind].
  unfold set_int, at_int, at_idx. rewrite (proj2 (Z.ltb_ge _ _)) by lia. by rewrite lookup_ge_None_2 by lia.
Qed.
Next Obligation.
  intros f a Hok Ha. destruct (mg_index_ok f a Hok Ha) as (i & E & Hi).
  unfold bf_isSet, multigrain_bloom, mg_isSet, mg_mark. rewrite E. cbn [mbind outcome_bind place].
  destruct (at_int_lit (mg_filter f) i Hi) as (x & -> & Hx). cbn [mbind outcome_bind].
  setoid_rewrite list_elem_of_singleton.
  assert (Hlike := mg_alike f _ _ eq_refl eq_refl). rewrite mg_with_id in Hlike.
  destruct (x =? 0) eqn:Ex; cbn [mbind outcome_bind].
  - exists false, f. do 2 (split; [done|]). split; [exact Hlike|]. split; [done|]. split; [done|].
    intros H. specialize (H _ eq_refl). by apply (mgo_lit _ Hok), Hx in H.
  - assert (Hl : lit (mg_filter f) (Z.to_nat i)) by by apply Hx.
    pose proof (mgo_page _ Hok _ Hl).
    destruct (at_int_lit (mg_page_filter f) i) as (y & -> & Hy); [lia|]. cbn [mbind outcome_bind].
    exists (negb (y =? 0)), f. do 2 (split; [done|]). split; [exact Hlike|]. split; [done|]. rewrite Hy. naive_solver.
Qed.
Next Obligation.
  intros f [H1 H2 H3 H4 H5 H6]. cbn.
  split; [|split; [apply mg_alike; by rewrite length_map|apply lit_zeros]].
  split; cbn; rewrite ?length_map; try done; by intros p ?%lit_zeros.
Qed.
Next Obligation.
  intros f [H1 H2 H3 H4 H5 H6]. cbn.
  split; [|split; [apply mg_alike; by rewrite ?length_map|apply lit_zeros]].
  split; cbn; rewrite ?length_map; try done; by intros p ?%lit_zeros.
Qed.

(** *** [BulkBloomFilter] *)

(** Zero but for the two bits of the address asked for. *)
Definition zero_but (i0 i1 : nat) (temp : list Z) : Prop :=
  ∀ j, lit temp j → j = i0 ∨ j = i1.

Lemma bulk_intersect_ok filter count : ∀ first temp any,
  (first + count ≤ length temp)%nat → length temp = length filter →
  ∃ temp' any', foldM (bulk_round filter) (temp, any) (seq first count) = Ret (temp', any') ∧
    length temp' = length temp ∧ (∀ j, lit temp' j → lit temp j) ∧
    (∀ j, (j < first ∨ first + count ≤ j)%nat → temp' !! j = temp !! j) ∧
    (any' = true ↔ any = true ∨ ∃ j, (first ≤ j < first + count)%nat ∧ lit temp j ∧ lit filter j).
Proof.
  induction count as [|count IH]; intros first temp any Hlen Hl; cbn [seq foldM bulk_round].
  { exists temp, any. split_and!; try done. split; [by left|]. by intros [?|(j & ? & _)]; [|lia]. }
  destruct (at_idx_lt temp first) as [t Et]; [lia|]. destruct (at_idx_lt filter first) as [x Ex]; [lia|].
  rewrite Et. cbn [mbind outcome_bind]. rewrite Ex. cbn [mbind outcome_bind]. cbv zeta.
  apply at_idx_ret in Et, Ex. set (b := negb (t =? 0) && negb (x =? 0)).
  assert (Hb : b = true ↔ lit temp first ∧ lit filter first).
  { unfold b, lit. rewrite andb_true_iff, !negb_true_iff, !Z.eqb_neq, Et, Ex. naive_solver. }
  destruct (IH (S first) (<[first := if b then 1 else 0]> temp) (any || b)) as (temp' & any' & E & Hl' & Hlit & Hout & Hany);
    rewrite ?length_insert; [lia|done|].
  exists temp', any'. rewrite length_insert in Hl'. split; [done|]. split; [done|].
  assert (Hins : ∀ j, lit (<[first := if b then 1 else 0]> temp) j → lit temp j).
  { intros j (y & Hy & Hne). destruct (decide (first = j)) as [->|Hj].
    - rewrite list_lookup_insert_eq in Hy by lia. destruct b; [by apply Hb|by simplify_eq].
    - rewrite list_lookup_insert_ne in Hy by done. by exists y. }
  split; [by intros j Hj%Hlit%Hins|]. split.
  - intros j Hj. rewrite Hout by lia. rewrite list_lookup_insert_ne by lia. done.
  - rewrite Hany, orb_true_iff, Hb. split.
    + intros [[?|[? ?]]|(j & Hj & H1 & H2)]; [by left|right|right].
      * exists first. split; [lia|done].
      * exists j. split; [lia|]. split; [by apply Hins|done].
    + intros [?|(j & Hj & H1 & H2)]; [by left; left|]. destruct (decide (first = j)) as [->|Hne]; [by left; right|right].
      exists j. split; [lia|]. split; [|done]. destruct H1 as (y & Hy & ?). exists y.
      by rewrite list_lookup_insert_ne by done.
Qed.

Record bulk_ok (f : BulkBloomFilter) : Prop := {
  bu_bits : 0 ≤ bits ∧ bits + 2 * bulk_sector_bits f ≤ 63;
  bu_sector : 1 ≤ bulk_sector_bits f ≤ 30;
  bu_half : 2 ^ bulk_sector_bits f ≤ bulk_size f `div` 2;
  bu_filter : length (bulk_filter f) = Z.to_nat (bulk_size f);
  bu_temp : length (bulk_temp_filter f) = Z.to_nat (bulk_size f) ∧ ∀ j, ¬ lit (bulk_temp_filter f) j
}.

Lemma bulk_indices_ok f a :
  bulk_ok f → address a → ∃ i0 i1, bulk_indices a f = Ret (i0, i1) ∧
    bulk_size f `div` 2 ≤ i0 < bulk_size f ∧ 0 ≤ i1 < bulk_size f `div` 2.
Proof.
  intros [Hb Hs Hh _ _] Ha. unfold bulk_indices.
  replace (bits + 2 * bulk_sector_bits f - 1) with (bits + bulk_sector_bits f + bulk_sector_bits f - 1) by lia.
  destruct (select_ok bits (bulk_sector_bits f) a) as (c0 & -> & E0 & H0); [lia..|done|].
  destruct (select_ok (bits + bulk_sector_bits f) (bulk_sector_bits f) a) as (c1 & -> & E1 & H1); [lia..|done|].
  cbn [mbind outcome_bind]. rewrite E0, E1.
  assert (0 < 2 ^ bulk_sector_bits f) by (apply Z.pow_pos_nonneg; lia).
  assert (0 ≤ bulk_size f) by (destruct (Z.le_gt_cases 0 (bulk_size f)); [done|];
    assert (bulk_size f `div` 2 < 0) by (apply Z.div_lt_upper_bound; lia); lia).
  rewrite Z.quot_div_nonneg by lia. eexists _, _. split; [done|].
  pose proof (Z.mul_div_le (bulk_size f) 2). lia.
Qed.

Lemma lit_reset temp i0 i1 :
  zero_but i0 i1 temp → ∀ j, ¬ lit (<[i1:=0]> (<[i0:=0]> temp)) j.
Proof.
  intros Hz j (x & Hx & Hne). assert (Hj : j = i0 ∨ j = i1 → False).
  - intros Hj. assert (x = 0); [|done]. destruct (decide (i1 = j)) as [->|H1].
    + apply list_lookup_insert_Some in Hx as [(_ & <- & _)|[? _]]; done.
    + rewrite list_lookup_insert_ne in Hx by done. destruct Hj as [->|]; [|congruence].
      apply list_lookup_insert_Some in Hx as [(_ & <- & _)|[? _]]; done.
  - apply Hj, Hz. exists x. rewrite !list_lookup_insert_ne in Hx by (intros ->; naive_solver). done.
Qed.

(** The bits of the address lit in the temporary filter. *)
Lemma temp_ok f i0 i1 :
  bulk_ok f → 0 ≤ i0 < bulk_size f → 0 ≤ i1 < bulk_size f →
  ∃ temp1 temp, set_int (bulk_temp_filter f) i0 1 = Ret temp1 ∧ set_int temp1 i1 1 = Ret temp ∧
    length temp = Z.to_nat (bulk_size f) ∧ ∀ j, lit temp j ↔ j = Z.to_nat i0 ∨ j = Z.to_nat i1.
Proof.
  intros [_ _ _ _ [Hl Hz]] H0 H1.
  destruct (set_int_lit (bulk_temp_filter f) i0) as (t1 & E1 & Hl1 & Hlit1); [lia|].
  destruct (set_int_lit t1 i1) as (t2 & E2 & Hl2 & Hlit2); [lia|].
  exists t1, t2. split; [done|]. split; [done|]. split; [lia|]. intros j. rewrite Hlit2, Hlit1. naive_solver.
Qed.

Lemma bulk_reset_ok f i0 i1 temp :
  0 ≤ i0 < bulk_size f → 0 ≤ i1 < bulk_size f → length temp = Z.to_nat (bulk_size f) →
  zero_but (Z.to_nat i0) (Z.to_nat i1) temp →
  ∃ temp', (v ← set_int temp i0 0; set_int v i1 0) = Ret temp' ∧ length temp' = Z.to_nat (bulk_size f) ∧
    ∀ j, ¬ lit temp' j.
Proof.
  intros H0 H1 Hl Hz. rewrite (set_int_ok _ _ _ _ Hl H0). cbn [mbind outcome_bind].
  rewrite (set_int_ok _ _ (bulk_size f)) by (rewrite ?length_insert; done).
  eexists. split; [done|]. split; [by rewrite !length_insert|]. by apply lit_reset.
Qed.

Lemma bulk_isSet_ok f a :
  bulk_ok f → address a → ∃ b temp, bulk_isSet a f = Ret (b, bulk_with f (bulk_filter f) temp) ∧
    length temp = Z.to_nat (bulk_size f) ∧ (∀ j, ¬ lit temp j) ∧
    ∃ i0 i1, bulk_indices a f = Ret (i0, i1) ∧
      (b = true ↔ lit (bulk_filter f) (Z.to_nat i0) ∧ lit (bulk_filter f) (Z.to_nat i1)).
Proof.
  intros Hok Ha. pose proof (bulk_indices_ok f a Hok Ha) as (i0 & i1 & E & H0 & H1).
  pose proof (Z.mul_div_le (bulk_size f) 2 ltac:(lia)) as Hhalf.
  destruct (temp_ok f i0 i1 Hok) as (t1 & t2 & E1 & E2 & Hl & Hlit); [lia..|].
  unfold bulk_isSet. rewrite E. cbn [mbind outcome_bind]. rewrite E1. cbn [mbind outcome_bind]. rewrite E2.
  cbn [mbind outcome_bind]. rewrite Z.quot_div_nonneg by lia. cbv zeta. unfold bulk_intersect.
  pose proof (bu_filter _ Hok) as Hlf.
  destruct (bulk_intersect_ok (bulk_filter f) (Z.to_nat (bulk_size f `div` 2)) 0 t2 false)
    as (t3 & any1 & -> & Hl3 & Hlit3 & Hout3 & Hany1); [lia..|]. cbn [mbind outcome_bind].
  assert (Hz3 : zero_but (Z.to_nat i0) (Z.to_nat i1) t3) by (intros j Hj%Hlit3%Hlit; done).
  assert (Ha1 : any1 = true ↔ lit (bulk_filter f) (Z.to_nat i1)).
  { rewrite Hany1. split.
    - intros [?|(j & Hj & Hj2%Hlit & Hf)]; [done|]. destruct Hj2 as [->| ->]; [lia|done].
    - intros Hf. right. exists (Z.to_nat i1). split; [lia|]. split; [apply Hlit; by right|done]. }
  destruct any1; cbn [negb].
  - destruct (bulk_intersect_ok (bulk_filter f) (Z.to_nat (bulk_size f) - Z.to_nat (bulk_size f `div` 2))
      (Z.to_nat (bulk_size f `div` 2)) t3 false) as (t4 & any2 & -> & Hl4 & Hlit4 & _ & Hany2); [lia..|].
    cbn [mbind outcome_bind].
    destruct (bulk_reset_ok f i0 i1 t4) as (t5 & -> & Hl5 & Hz5); [lia..| |]. { by intros j Hj%Hlit4%Hz3. }
    cbn [mbind outcome_bind]. exists any2, t5. split; [done|]. split; [done|]. split; [done|].
    exists i0, i1. split; [done|]. rewrite Hany2. split.
    + intros [?|(j & Hj & Hj2%Hz3 & Hf)]; [done|]. destruct Hj2 as [->| ->]; [|lia]. split; [done|by apply Ha1].
    + intros [Hf _]. right. exists (Z.to_nat i0). split; [lia|]. split; [|done].
      unfold lit. rewrite Hout3 by lia. apply Hlit. by left.
  - destruct (bulk_reset_ok f i0 i1 t3) as (t5 & -> & Hl5 & Hz5); [lia..|done|].
    cbn [mbind outcome_bind]. exists false, t5. split; [done|]. split; [done|]. split; [done|].
    exists i0, i1. split; [done|]. split; [done|]. intros [_ Hf]. by apply Ha1.
Qed.

#[export] Program Instance bulk_laws : BloomLaws BulkBloomFilter := {|
  bl_ok := bulk_ok;
  bl_bits := bulk_filter;
  bl_marks f a := match bulk_indices a f with Ret (i0, i1) => [Z.to_nat i0; Z.to_nat i1] | Raise _ => [] end;
  bl_fits _ _ := true;
  bl_forgets _ := false
|}.
Next Obligation.
  intros f a Hok Ha _. pose proof (bulk_indices_ok f a Hok Ha) as (i0 & i1 & E & H0 & H1).
  pose proof (bu_filter _ Hok) as Hl. pose proof (Z.mul_div_le (bulk_size f) 2 ltac:(lia)).
  unfold bf_set, bulk_bloom, bulk_set. rewrite E. cbn [mbind outcome_bind].
  destruct (set_int_lit (bulk_filter f) i0) as (v1 & -> & Hl1 & Hlit1); [lia|]. cbn [mbind outcome_bind].
  destruct (set_int_lit v1 i1) as (v2 & -> & Hl2 & Hlit2); [lia|]. cbn [mbind outcome_bind].
  eexists. split; [done|]. split; [by destruct Hok; split; cbn; rewrite ?Hl2, ?Hl1|]. split; [by apply alike_marks|].
  intros p. cbn [bulk_with bulk_filter]. rewrite Hlit2, Hlit1, elem_of_cons, list_elem_of_singleton. tauto.
Qed.
Next Obligation. by intros. Qed.
Next Obligation.
  intros f a Hok Ha. destruct (bulk_isSet_ok f a Hok Ha) as (b & t & E & Hl & Hz & i0 & i1 & Ei & Hb).
  exists b, (bulk_with f (bulk_filter f) t). split; [done|]. split; [by destruct Hok; split|]. split; [by apply alike_marks|]. split; [done|].
  rewrite Hb, Ei. setoid_rewrite elem_of_cons. setoid_rewrite list_elem_of_singleton. naive_solver.
Qed.
Next Obligation.
  intros f Hok. split; [by destruct Hok; split; cbn; rewrite ?length_map|]. split; [by apply alike_marks|]. apply lit_zeros.
Qed.
Next Obligation. intros f Hok. split; [done|]. split; [by apply alike_marks|done]. Qed.
End instances.
