(* ===== verification/BloomHash.v ===== *)
(** * Bloom filters with several hash functions

    [H3BloomFilter] and [MultiBitSelBloomFilter] implement the interface of
    [BloomSpec]: their hash functions stay inside the table and inside the
    filter. *)

From stdpp Require Import list numbers strings sets.
From S2P Require Import Prelude Text Util Address BloomTable Bloom BloomSpec.
Local Open Scope Z_scope.

(** ** The shared loops *)

(** Every hash function finds a place in the filter. *)
Definition places_ok (get_index : Z → outcome Z) (f : HashBloomFilter) : Prop :=
  ∀ i, i ∈ hash_numbers f → ∃ idx, get_index i = Ret idx ∧ 0 ≤ idx < Z.of_nat (length (hb_filter f)).

Definition places (get_index : Z → outcome Z) (f : HashBloomFilter) : list nat :=
  (λ i, place (get_index i)) <$> hash_numbers f.

Lemma hb_set_loop (get_index : Z → outcome Z) n ns : ∀ v,
  length v = n → (∀ i, i ∈ ns → ∃ idx, get_index i = Ret idx ∧ 0 ≤ idx < Z.of_nat n) →
  ∃ v', foldM (λ v i, idx ← get_index i; set_int v idx 1) v ns = Ret v' ∧ length v' = n ∧
    ∀ p, lit v' p ↔ lit v p ∨ p ∈ ((λ i, place (get_index i)) <$> ns).
Proof.
  induction ns as [|i ns IH]; intros v Hl His.
  { exists v. split; [done|]. split; [done|]. intros p. cbn. rewrite elem_of_nil. tauto. }
  destruct (His i (list_elem_of_here _ _)) as (idx & E & Hidx). cbn [foldM]. rewrite E. cbn [mbind outcome_bind].
  destruct (set_int_lit v idx) as (v1 & -> & Hl1 & Hlit1); [lia|]. cbn [mbind outcome_bind].
  destruct (IH v1) as (v2 & -> & Hl2 & Hlit2); [lia|intros j Hj; apply His; by right|].
  exists v2. split; [done|]. split; [done|]. intros p. rewrite Hlit2, Hlit1, fmap_cons, elem_of_cons, E. cbn [place].
  tauto.
Qed.

Lemma hb_set_ok get_index f :
  places_ok get_index f → ∃ v, hb_set get_index f = Ret (hb_with f v) ∧ length v = length (hb_filter f) ∧
    ∀ p, lit v p ↔ lit (hb_filter f) p ∨ p ∈ places get_index f.
Proof.
  intros Hp. unfold hb_set. destruct (hb_set_loop get_index _ (hash_numbers f) (hb_filter f) eq_refl Hp) as (v & -> & H).
  by exists v.
Qed.

Lemma hb_isSet_loop (get_index : Z → outcome Z) v ns : ∀ res,
  (∀ i, i ∈ ns → ∃ idx, get_index i = Ret idx ∧ 0 ≤ idx < Z.of_nat (length v)) →
  ∃ b, foldM (λ (res : bool) i, idx ← get_index i;
      if res then x ← at_int v idx; Ret (negb (x =? 0)) else Ret false) res ns = Ret b ∧
    (b = true ↔ res = true ∧ ∀ p, p ∈ ((λ i, place (get_index i)) <$> ns) → lit v p).
Proof.
  induction ns as [|i ns IH]; intros res His.
  { exists res. split; [done|]. split; [|by intros [? _]]. intros ->. split; [done|]. by intros p ?%not_elem_of_nil. }
  destruct (His i (list_elem_of_here _ _)) as (idx & E & Hidx). cbn [foldM]. rewrite E. cbn [mbind outcome_bind].
  destruct (at_int_lit v idx Hidx) as (x & Ex & Hx).
  assert (Hstep : (if res then x ← at_int v idx; Ret (negb (x =? 0)) else Ret false) = Ret (res && negb (x =? 0)))
    by (rewrite Ex; by destruct res).
  rewrite Hstep. cbn [mbind outcome_bind].
  destruct (IH (res && negb (x =? 0))) as (b & -> & Hb); [intros j Hj; apply His; by right|].
  exists b. split; [done|]. rewrite Hb, andb_true_iff, Hx, fmap_cons. setoid_rewrite elem_of_cons.
  rewrite E. cbn [place]. naive_solver.
Qed.

Lemma hb_isSet_ok get_index f :
  places_ok get_index f →
  ∃ b, hb_isSet get_index f = Ret b ∧ (b = true ↔ ∀ p, p ∈ places get_index f → lit (hb_filter f) p).
Proof.
  intros Hp. destruct (hb_isSet_loop get_index (hb_filter f) (hash_numbers f) true Hp) as (b & E & Hb).
  exists b. split; [exact E|]. rewrite Hb. tauto.
Qed.

(** The shape of a filter the hash values fit in. *)
Record hash_ok (f : HashBloomFilter) : Prop := {
  hk_size : 0 < Z.of_nat (length (hb_filter f)) < 2 ^ 31;
  hk_hashes : 0 < hb_num_hashes f;
  hk_part : 0 < hb_par_size f ∧ hb_num_hashes f * hb_par_size f ≤ Z.of_nat (length (hb_filter f))
}.

Lemma hash_numbers_range f i : hash_ok f → i ∈ hash_numbers f ↔ 0 ≤ i < hb_num_hashes f.
Proof.
  intros Hok. unfold hash_numbers. rewrite list_elem_of_fmap. setoid_rewrite elem_of_seq. split.
  - intros (n & -> & Hn). lia.
  - intros Hi. exists (Z.to_nat i). lia.
Qed.

Lemma hash_place_ok f i y :
  hash_ok f → 0 ≤ i < hb_num_hashes f → 0 ≤ y →
  ∃ idx, hash_place f i y = Ret idx ∧ 0 ≤ idx < Z.of_nat (length (hb_filter f)).
Proof.
  intros [Hs Hh [Hp1 Hp2]] Hi Hy. unfold hash_place. destruct (hb_parallel f).
  - rewrite (proj2 (Z.eqb_neq _ _)) by lia. eexists. split; [done|].
    rewrite Z.rem_mod_nonneg by lia. pose proof (Z.mod_pos_bound y (hb_par_size f) Hp1).
    assert ((i + 1) * hb_par_size f ≤ hb_num_hashes f * hb_par_size f) by (apply Z.mul_le_mono_nonneg_r; lia).
    nia.
  - cbv zeta. rewrite (proj2 (Z.eqb_neq _ _)) by lia. eexists. split; [done|].
    rewrite Z.rem_mod_nonneg by lia. apply Z.mod_pos_bound. lia.
Qed.

Lemma hash_place_with f v i y : length v = length (hb_filter f) → hash_place (hb_with f v) i y = hash_place f i y.
Proof. intros Hl. unfold hash_place. cbn. by rewrite Hl. Qed.

Lemma hash_ok_with f v : length v = length (hb_filter f) → hash_ok f → hash_ok (hb_with f v).
Proof. intros Hl []. by split; cbn; rewrite ?Hl. Qed.

(** ** The hash functions *)

Lemma H3_entry i j : (i < 64)%nat → 0 ≤ j < 16 → ∃ row x, H3 !! i = Some row ∧ at_int row j = Ret x ∧ 0 ≤ x < 2 ^ 30.
Proof.
  intros Hi Hj. destruct (lookup_lt_is_Some_2 H3 i) as [row Er]; [by rewrite H3_rows|].
  pose proof (proj1 (forallb_forall _ _) H3_columns row) as Hc. pose proof (proj1 (forallb_forall _ _) H3_entries row) as He.
  assert (Hin : In row H3) by (by apply list_elem_of_In, (list_elem_of_lookup_2 _ i)).
  specialize (Hc Hin). specialize (He Hin). apply Nat.eqb_eq in Hc.
  destruct (at_int_ok row j 16) as (x & Ex & Hx); [by rewrite Hc|done|].
  exists row, x. split; [done|]. split; [done|].
  pose proof (proj1 (forallb_forall _ _) He x) as Hr. unfold H3_entry_ok in Hr.
  specialize (Hr ltac:(by apply list_elem_of_In, (list_elem_of_lookup_2 _ (Z.to_nat j)))).
  apply andb_true_iff in Hr as [H1 H2]. apply Z.leb_le in H1. apply Z.ltb_lt in H2. done.
Qed.

Lemma hash_H3_ok value j : 0 ≤ j < 16 → ∃ y, hash_H3 value j = Ret y ∧ 0 ≤ y < 2 ^ 30.
Proof.
  intros Hj. unfold hash_H3. apply (foldM_total (λ y, 0 ≤ y < 2 ^ 30)); [|done].
  intros y i Hi Hy. destruct (Z.testbit value (Z.of_nat i)); [|by exists y].
  apply elem_of_seq in Hi. destruct (H3_entry i j) as (row & x & Er & Ex & Hx); [lia|done|].
  rewrite (at_idx_Some _ _ _ Er). cbn [mbind outcome_bind]. rewrite Ex. cbn [mbind outcome_bind].
  eexists. split; [done|]. by apply lxor_range.
Qed.

Lemma hash_bitsel_ok value index jump n :
  0 ≤ index → 0 ≤ jump → 0 ≤ n ≤ 31 → ∃ y, hash_bitsel value index jump 30 n = Ret y ∧ 0 ≤ y < 2 ^ n.
Proof.
  intros Hi Hj Hn. unfold hash_bitsel. replace (2 ^ n) with (2 ^ Z.of_nat (Z.to_nat n)) by (f_equal; lia).
  apply (foldM_seq (λ k y, 0 ≤ y < 2 ^ Z.of_nat k)); [done|].
  intros i y Hlt Hy. cbv zeta. rewrite Z.rem_mod_nonneg by lia.
  pose proof (Z.mod_pos_bound (index + jump * Z.of_nat i) 30 ltac:(lia)) as Hb.
  rewrite (proj2 (Z.leb_le 0 _)), (proj2 (Z.ltb_lt _ 64)) by lia. cbn [andb].
  rewrite Nat2Z.inj_succ, Z.pow_succ_r by lia.
  assert (0 < 2 ^ Z.of_nat i) by (apply Z.pow_pos_nonneg; lia).
  assert (2 ^ Z.succ (Z.of_nat i) ≤ 2 ^ 31) by (apply Z.pow_le_mono_r; lia).
  rewrite Z.pow_succ_r in * by lia.
  destruct (Z.testbit value _); [|exists y; split; [done|lia]].
  rewrite (proj2 (Nat.ltb_lt i 64)) by lia. eexists. split; [done|]. rewrite i32_id by lia. lia.
Qed.

Section instances.
Context {config : RubyConfig}.
Notation bits := dataBlockBits.

(** *** [H3BloomFilter] *)

Record h3_ok (f : H3BloomFilter) : Prop := {
  h3_bits : 0 ≤ bits ≤ 62;
  h3_hash : hash_ok (h3 f);
  h3_columns : hb_num_hashes (h3 f) ≤ 16
}.

Lemma h3_places f a : h3_ok f → address a → places_ok (h3_get_index a (h3 f)) (h3 f).
Proof.
  intros [Hb Hok Hc] Ha i Hi. apply hash_numbers_range in Hi; [|done]. unfold h3_get_index.
  rewrite getLineAddress_div by done. cbn [mbind outcome_bind].
  destruct (hash_H3_ok (a / 2 ^ bits) i) as (y & -> & Hy); [lia|]. cbn [mbind outcome_bind].
  apply hash_place_ok; [done|done|lia].
Qed.

Lemma h3_index_with f v a i :
  length v = length (hb_filter f) → h3_get_index a (hb_with f v) i = h3_get_index a f i.
Proof.
  intros Hl. unfold h3_get_index. destruct (getLineAddress bits a) as [x|]; cbn [mbind outcome_bind]; [|done].
  destruct (hash_H3 x i); cbn [mbind outcome_bind]; [by apply hash_place_with|done].
Qed.

Lemma h3_places_with f v a :
  length v = length (hb_filter f) → places (h3_get_index a (hb_with f v)) (hb_with f v) = places (h3_get_index a f) f.
Proof. intros Hl. unfold places. apply list_fmap_ext. intros j i _. by rewrite h3_index_with. Qed.

#[export] Program Instance h3_laws : BloomLaws H3BloomFilter := {|
  bl_ok := h3_ok;
  bl_bits f := hb_filter (h3 f);
  bl_marks f a := places (h3_get_index a (h3 f)) (h3 f);
  bl_fits _ _ := true;
  bl_forgets _ := false
|}.
Next Obligation.
  intros f a Hok Ha _. destruct (hb_set_ok _ _ (h3_places f a Hok Ha)) as (v & E & Hl & Hlit).
  unfold bf_set, h3_bloom. rewrite E. cbn [mbind outcome_bind]. eexists. split; [done|].
  split; [destruct Hok; split; [done|by apply hash_ok_with|done]|].
  split; [apply alike_marks; intros b; by apply h3_places_with|done].
Qed.
Next Obligation. by intros. Qed.
Next Obligation.
  intros f a Hok Ha. destruct (hb_isSet_ok _ _ (h3_places f a Hok Ha)) as (b & E & Hb).
  unfold bf_isSet, h3_bloom. rewrite E. cbn [mbind outcome_bind]. exists b, f.
  do 2 (split; [done|]). split; [by apply alike_marks|done].
Qed.
Next Obligation.
  intros f Hok. assert (Hl : length (map (λ _, 0) (hb_filter (h3 f))) = length (hb_filter (h3 f))) by apply length_map.
  split; [destruct Hok; split; [done|by apply hash_ok_with|done]|].
  split; [apply alike_marks; intros b; by apply h3_places_with|apply lit_zeros].
Qed.
Next Obligation. intros f Hok. split; [done|]. split; [by apply alike_marks|done]. Qed.

(** *** [MultiBitSelBloomFilter] *)

Record mbs_ok (f : MultiBitSelBloomFilter) : Prop := {
  ms_bits : 0 ≤ bits ≤ 62 ∧ 0 ≤ mbs_skip_bits f < 64;
  ms_hash : hash_ok (mbs f);
  ms_hash_bits : 0 ≤ hb_size_bits (mbs f) ≤ 31
}.

Lemma mbs_places f a : mbs_ok f → address a → places_ok (mbs_get_index a f) (mbs f).
Proof.
  intros [[Hb Hs] Hok Hn] Ha i Hi. apply hash_numbers_range in Hi; [|done]. unfold mbs_get_index.
  rewrite getLineAddress_div by done. cbn [mbind outcome_bind].
  rewrite (proj2 (Z.leb_le _ _)), (proj2 (Z.ltb_lt _ _)) by lia. cbn [andb mbind outcome_bind].
  destruct (hash_bitsel_ok (Z.shiftr (a / 2 ^ bits) (mbs_skip_bits f)) i (hb_num_hashes (mbs f)) (hb_size_bits (mbs f)))
    as (y & -> & Hy); [lia..|]. cbn [mbind outcome_bind].
  apply hash_place_ok; [done|done|lia].
Qed.

Lemma mbs_places_with f v a :
  length v = length (hb_filter (mbs f)) →
  places (mbs_get_index a (mbs_with f (hb_with (mbs f) v))) (hb_with (mbs f) v) = places (mbs_get_index a f) (mbs f).
Proof.
  intros Hl. unfold places. apply list_fmap_ext. intros j i _. f_equal. unfold mbs_get_index. cbn.
  destruct (getLineAddress bits a) as [x|]; cbn [mbind outcome_bind]; [|done].
  destruct (_ && _); cbn [mbind outcome_bind]; [|done].
  destruct (hash_bitsel (Z.shiftr x _) _ _ _ _); cbn [mbind outcome_bind]; [by apply hash_place_with|done].
Qed.

#[export] Program Instance multibitsel_laws : BloomLaws MultiBitSelBloomFilter := {|
  bl_ok := mbs_ok;
  bl_bits f := hb_filter (mbs f);
  bl_marks f a := places (mbs_get_index a f) (mbs f);
  bl_fits _ _ := true;
  bl_forgets _ := false
|}.
Next Obligation.
  intros f a Hok Ha _. destruct (hb_set_ok _ _ (mbs_places f a Hok Ha)) as (v & E & Hl & Hlit).
  unfold bf_set, multibitsel_bloom. rewrite E. cbn [mbind outcome_bind]. eexists. split; [done|].
  split; [destruct Hok; split; [done|by apply hash_ok_with|done]|].
  split; [apply alike_marks; intros b; by apply mbs_places_with|done].
Qed.
Next Obligation. by intros. Qed.
Next Obligation.
  intros f a Hok Ha. destruct (hb_isSet_ok _ _ (mbs_places f a Hok Ha)) as (b & E & Hb).
  unfold bf_isSet, multibitsel_bloom. rewrite E. cbn [mbind outcome_bind]. exists b, f.
  do 2 (split; [done|]). split; [by apply alike_marks|done].
Qed.
Next Obligation.
  intros f Hok. assert (Hl : length (map (λ _, 0) (hb_filter (mbs f))) = length (hb_filter (mbs f))) by apply length_map.
  split; [destruct Hok; split; [done|by apply hash_ok_with|done]|].
  split; [apply alike_marks; intros b; by apply mbs_places_with|apply lit_zeros].
Qed.
Next Obligation. intros f Hok. split; [done|]. split; [by apply alike_marks|done]. Qed.

End instances.
