(* ===== verification/BloomGeneric.v ===== *)
(** * What the filter a configuration names answers

    [GenericBloomFilter] implements the interface of [BloomSpec] whichever class
    it was built as; a filter built from a sensible configuration answers true
    for every address set since it was last cleared, and false as soon as one
    mark of the address is not a mark of theirs.  Merging is union; the counting
    filter counts what it holds. *)

From Stdlib Require Import Ascii.
From stdpp Require Import list numbers strings sets.
From S2P Require Import Prelude Text Util Address BloomTable Bloom BloomSpec BloomHash.
Local Open Scope Z_scope.

Section generic.
Context {config : RubyConfig}.
Notation bits := dataBlockBits.

(** ** The interface, by cases *)

#[export] Program Instance generic_laws : BloomLaws GenericBloomFilter := {|
  bl_ok g := match g with
    | LSB_Counting _ => False
    | NonCounting f => bl_ok f | Bulk f => bl_ok f | Block f => bl_ok f | Multigrain f => bl_ok f
    | MultiBitSel f => bl_ok f | H3Filter f => bl_ok f
    end;
  bl_bits g := match g with
    | LSB_Counting f => lsb_filter f
    | NonCounting f => bl_bits f | Bulk f => bl_bits f | Block f => bl_bits f | Multigrain f => bl_bits f
    | MultiBitSel f => bl_bits f | H3Filter f => bl_bits f
    end;
  bl_marks g := match g with
    | LSB_Counting _ => λ _, []
    | NonCounting f => bl_marks f | Bulk f => bl_marks f | Block f => bl_marks f | Multigrain f => bl_marks f
    | MultiBitSel f => bl_marks f | H3Filter f => bl_marks f
    end;
  bl_fits g := match g with
    | LSB_Counting _ => λ _, true
    | NonCounting f => bl_fits f | Bulk f => bl_fits f | Block f => bl_fits f | Multigrain f => bl_fits f
    | MultiBitSel f => bl_fits f | H3Filter f => bl_fits f
    end;
  bl_forgets g := match g with
    | LSB_Counting _ => false
    | NonCounting f => bl_forgets f | Bulk f => bl_forgets f | Block f => bl_forgets f
    | Multigrain f => bl_forgets f | MultiBitSel f => bl_forgets f | H3Filter f => bl_forgets f
    end
|}.
Next Obligation.
  intros g a Hok Ha Hfit. unfold bf_set, generic_bloom, gb_do.
  destruct g as [f|f|f|f|f|f|f]; [done|..];
    destruct (bl_set f a Hok Ha Hfit) as (f' & -> & H); (eexists; split; [done|exact H]).
Qed.
Next Obligation.
  intros g a Hok Ha Hfit. unfold bf_set, generic_bloom, gb_do.
  destruct g as [f|f|f|f|f|f|f]; [done|..]; by rewrite (bl_set_fails f a Hok Ha Hfit).
Qed.
Next Obligation.
  intros g a Hok Ha. unfold bf_isSet, generic_bloom, gb_ask.
  destruct g as [f|f|f|f|f|f|f]; [done|..];
    destruct (bl_isSet f a Hok Ha) as (b & f' & -> & H); (eexists b, _; split; [done|exact H]).
Qed.
Next Obligation.
  intros g Hok. destruct g as [f|f|f|f|f|f|f]; [done|..]; exact (bl_clear f Hok).
Qed.
Next Obligation.
  intros g Hok. destruct g as [f|f|f|f|f|f|f]; [done|..]; exact (bl_count f Hok).
Qed.

(** ** The constructors *)

(** What the numbers of a configuration string have to satisfy. *)
Definition sensible (g : GenericBloomFilter) : Prop :=
  match g with
  | LSB_Counting _ => False
  | NonCounting f => 0 ≤ bits ∧ 0 ≤ nc_offset f ∧ 1 ≤ nc_size_bits f ∧ bits + nc_offset f + nc_size_bits f ≤ 63
  | Bulk f => 0 ≤ bits ∧ 2 ≤ bulk_size_bits f ∧ bits + 2 * (bulk_size_bits f - 1) ≤ 63
  | Block f => 1 ≤ bits ≤ block_size_bits f ∧ 2 * bits + 5 + block_size_bits f ≤ 63
  | Multigrain f => 0 ≤ bits ∧ 1 ≤ mg_size_bits f ∧ 1 ≤ mg_page_size_bits f ∧
      bits + mg_size_bits f + mg_page_size_bits f ≤ 63
  | MultiBitSel f => 0 ≤ bits ≤ 62 ∧ 0 ≤ mbs_skip_bits f < 64
  | H3Filter f => 0 ≤ bits ≤ 62 ∧ hb_num_hashes (h3 f) ≤ 16
  end.

Lemma i32_range z : - 2 ^ 31 ≤ i32 z < 2 ^ 31.
Proof. unfold i32. pose proof (Z.mod_pos_bound (z + 2 ^ 31) (2 ^ 32)). lia. Qed.

Lemma log_atoi_ok s r :
  log_int (atoi s) = Ret r → 0 < atoi s < 2 ^ 31 ∧ 0 ≤ r ≤ 31 ∧ 2 ^ r ≤ Z.of_nat (length (zeros (atoi s))).
Proof.
  intros E. assert (Hr : - 2 ^ 31 ≤ atoi s < 2 ^ 31) by (unfold atoi; repeat case_match; apply i32_range).
  destruct (log_int_ok _ _ E) as (-> & Hpos & Hle); [lia|]. unfold zeros. rewrite length_replicate.
  pose proof (Z.log2_nonneg (atoi s)). assert (Z.log2 (atoi s) < 31) by (apply Z.log2_lt_pow2; lia). lia.
Qed.

Lemma new_noncounting_ok s f :
  new_noncounting s = Ret f → sensible (NonCounting f) → nc_ok f ∧ ∀ p, ¬ lit (nc_filter f) p.
Proof.
  unfold new_noncounting. destruct (string_split s "_"%char) as [head tail]. cbv zeta.
  destruct (log_int (atoi head)) as [r|] eqn:E; [|done]. intros [= <-] (H1 & H2 & H3 & H4). cbn in *.
  destruct (log_atoi_ok _ _ E) as (_ & Hr & Hf). split; [split; cbn; lia|apply lit_new].
Qed.

Lemma new_block_ok s f :
  new_block s = Ret f → sensible (Block f) → block_ok f ∧ ∀ p, ¬ lit (block_filter f) p.
Proof.
  unfold new_block. destruct (string_split s "_"%char) as [head tail]. cbv zeta.
  destruct (log_int (atoi head)) as [r|] eqn:E; [|done]. intros [= <-] (H1 & H2). cbn in *.
  destruct (log_atoi_ok _ _ E) as (_ & Hr & Hf). split; [split; cbn; lia|apply lit_new].
Qed.

Lemma new_bulk_ok s f :
  new_bulk s = Ret f → sensible (Bulk f) → bulk_ok f ∧ ∀ p, ¬ lit (bulk_filter f) p.
Proof.
  unfold new_bulk. destruct (string_split s "_"%char) as [head tail]. cbv zeta.
  destruct (log_int (atoi head)) as [r|] eqn:E; [|done]. intros [= <-] (H1 & H2 & H3). cbn in *.
  destruct (log_atoi_ok _ _ E) as (Hs & Hr & Hf). unfold zeros in Hf. rewrite length_replicate, Z2Nat.id in Hf by lia.
  split; [split; cbn; try lia|apply lit_new].
  - apply Z.div_le_lower_bound; [lia|]. rewrite <- Z.pow_succ_r by lia. by replace (Z.succ (r - 1)) with r by lia.
  - apply length_replicate.
  - split; [apply length_replicate|]. apply lit_new.
Qed.

Lemma new_multigrain_ok s f :
  new_multigrain s = Ret f → sensible (Multigrain f) → mg_ok f ∧ ∀ p, ¬ lit (mg_page_filter f) p.
Proof.
  unfold new_multigrain. destruct (string_split s "_"%char) as [head tail]. cbv zeta.
  destruct (log_int (atoi head)) as [r|] eqn:E1; [|done]. cbn [mbind outcome_bind].
  destruct (log_int (atoi tail)) as [t|] eqn:E2; [|done]. cbn [mbind outcome_bind].
  intros [= <-] (H1 & H2 & H3 & H4). cbn in *.
  destruct (log_atoi_ok _ _ E1) as (_ & Hr & Hf). destruct (log_atoi_ok _ _ E2) as (_ & Ht & Hp).
  split; [split; cbn; try lia; by intros p ?%lit_new|apply lit_new].
Qed.

Lemma new_hash_ok s head tail f :
  new_hash (atoi s) (atoi head) tail = Ret f →
  hash_ok f ∧ 0 ≤ hb_size_bits f ≤ 31 ∧ hb_filter f = zeros (atoi s).
Proof.
  unfold new_hash. set (P := if String.eqb tail "Regular" then _ else _).
  destruct P as [par|]; [|done]. cbn [mbind outcome_bind].
  destruct (log_int (atoi s)) as [r|] eqn:E1; [|done]. cbn [mbind outcome_bind].
  destruct (Z.eqb_spec (atoi head) 0) as [|Hne]; [done|]. cbn [mbind outcome_bind].
  destruct (log_int (Z.quot (atoi s) (atoi head))) as [t|] eqn:E2; [|done]. cbn [mbind outcome_bind]. intros [= <-].
  destruct (log_atoi_ok _ _ E1) as (Hs & Hr & Hf). cbn.
  assert (Hq : 0 < Z.quot (atoi s) (atoi head)).
  { unfold log_int in E2. by destruct (Z.ltb_spec 0 (Z.quot (atoi s) (atoi head))). }
  assert (Hh : 0 < atoi head).
  { destruct (Z.lt_trichotomy (atoi head) 0) as [Hneg|[?|?]]; [|done..].
    pose proof (Z.quot_opp_r (atoi s) (atoi head) Hne). pose proof (Z.quot_pos (atoi s) (- atoi head)). lia. }
  split; [|done]. unfold zeros in *. rewrite length_replicate, Z2Nat.id in * by lia.
  split; cbn; rewrite ?length_replicate, ?Z2Nat.id by lia; [lia|done|].
  split; [done|]. rewrite Z.quot_div_nonneg by lia. apply Z.mul_div_le. lia.
Qed.

Lemma new_h3_ok s f : new_h3 s = Ret f → sensible (H3Filter f) → h3_ok f ∧ ∀ p, ¬ lit (hb_filter (h3 f)) p.
Proof.
  unfold new_h3. destruct (string_split s "_"%char) as [head tail]. destruct (string_split tail "_"%char) as [head' tail']. cbv zeta.
  destruct (new_hash _ _ _) as [g|] eqn:E; [|done]. intros [= <-] [H1 H2]. cbn in *.
  destruct (new_hash_ok _ _ _ _ E) as (Hok & _ & Hz). split; [done|]. rewrite Hz. apply lit_new.
Qed.

Lemma new_multibitsel_ok s f :
  new_multibitsel s = Ret f → sensible (MultiBitSel f) → mbs_ok f ∧ ∀ p, ¬ lit (hb_filter (mbs f)) p.
Proof.
  unfold new_multibitsel. destruct (string_split s "_"%char) as [head tail]. destruct (string_split tail "_"%char) as [head' tail'].
  destruct (string_split tail' "_"%char) as [h t]. cbv zeta.
  destruct (new_hash _ _ _) as [g|] eqn:E; [|done]. intros [= <-] [H1 H2]. cbn in *.
  destruct (new_hash_ok _ _ _ _ E) as (Hok & Hn & Hz). split; [done|]. rewrite Hz. apply lit_new.
Qed.

Lemma new_generic_ok s g : new_GenericBloomFilter s = Ret g → sensible g → holds g [].
Proof.
  intros E Hs. cut (bl_ok g ∧ ∀ p, ¬ lit (bl_bits g) p); [by intros []; apply holds_none|].
  unfold new_GenericBloomFilter in E. destruct (string_split s "_"%char) as [head tail].
  repeat match type of E with
  | (if ?c then _ else _) = _ => destruct c
  | Raise _ = _ => discriminate E
  | mbind _ ?o = _ =>
      let E0 := fresh "E0" in destruct o eqn:E0; cbn [mbind outcome_bind] in E; [injection E as <-|discriminate E]
  end; [done|..].
  - by eapply new_noncounting_ok.
  - by eapply new_bulk_ok.
  - by eapply new_block_ok.
  - by eapply new_multigrain_ok.
  - by eapply new_multibitsel_ok.
  - by eapply new_h3_ok.
Qed.
(** ** Merging *)

Lemma or_bits_ok v w :
  length v = length w → ∃ v', or_bits v w = Ret v' ∧ length v' = length v ∧ ∀ p, lit v' p ↔ lit v p ∨ lit w p.
Proof.
  intros Hl. unfold or_bits.
  destruct (foldM_seq (λ i u, length u = length v ∧ ∀ p, u !! p =
      if (p <? i)%nat then x ← v !! p; y ← w !! p; Some (Z.lor x y) else v !! p)
    (λ v i, x ← at_idx v i; y ← at_idx w i; Ret (<[i := Z.lor x y]> v)) (length v) v) as (v' & E & Hl' & Hv'); [done| |].
  - intros i u Hi [Hlu Hu]. destruct (lookup_lt_is_Some_2 v i) as [x Hx]; [lia|].
    destruct (lookup_lt_is_Some_2 w i) as [y Hy]; [lia|].
    assert (Hxi : u !! i = Some x) by (rewrite Hu, Nat.ltb_irrefl; done).
    rewrite (at_idx_Some _ _ _ Hxi). cbn [mbind outcome_bind]. rewrite (at_idx_Some _ _ _ Hy). cbn [mbind outcome_bind].
    eexists. split; [done|]. split; [by rewrite length_insert|]. intros p. destruct (decide (i = p)) as [<-|Hne].
    + rewrite list_lookup_insert_eq by lia. by rewrite (proj2 (Nat.ltb_lt i (S i))), Hx, Hy by lia.
    + rewrite list_lookup_insert_ne, Hu by done.
      destruct (Nat.ltb_spec p i), (Nat.ltb_spec p (S i)); try done; lia.
  - exists v'. split; [done|]. split; [done|]. intros p. unfold lit. rewrite Hv'.
    destruct (Nat.ltb_spec p (length v)) as [Hp|Hp].
    + destruct (lookup_lt_is_Some_2 v p Hp) as [x Hx]. destruct (lookup_lt_is_Some_2 w p) as [y Hy]; [lia|].
      rewrite Hx, Hy. cbn. pose proof (Z.lor_eq_0_iff x y). split.
      * intros (z & [= <-] & Hz). destruct (Z.eq_dec x 0); [right; exists y; split; [done|tauto]|by left; exists x].
      * intros [(z & [= <-] & Hz)|(z & [= <-] & Hz)]; eexists; (split; [done|tauto]).
    + rewrite (lookup_ge_None_2 v), (lookup_ge_None_2 w) by lia. naive_solver.
Qed.

(** Two filters of one class and one configuration. *)
Definition same_config (g h : GenericBloomFilter) : Prop :=
  match g, h with
  | NonCounting f, NonCounting o => nc_with f (nc_filter o) = o ∧ length (nc_filter f) = length (nc_filter o)
  | H3Filter f, H3Filter o => hb_with (h3 f) (hb_filter (h3 o)) = h3 o ∧ length (hb_filter (h3 f)) = length (hb_filter (h3 o))
  | MultiBitSel f, MultiBitSel o =>
      mbs_with f (hb_with (mbs f) (hb_filter (mbs o))) = o ∧ length (hb_filter (mbs f)) = length (hb_filter (mbs o))
  | _, _ => False
  end.

(** The merge of two filters holds what either of them holds. *)
Lemma bloom_merge g h S T :
  same_config g h → holds g S → holds h T → ∃ g', bf_merge g h = Ret g' ∧ holds g' (S ++ T).
Proof.
  intros Hsame [Hg HS] [Hh HT].
  cut (∃ g' v, bf_merge g h = Ret g' ∧ or_bits (bl_bits g) (bl_bits h) = Ret v ∧ bl_bits g' = v ∧
    length (bl_bits g) = length (bl_bits h) ∧ (length v = length (bl_bits g) → bl_ok g') ∧
    ∀ a, (length v = length (bl_bits g) → bl_marks g' a = bl_marks g a) ∧ bl_marks h a = bl_marks g a).
  { intros (g' & v & E & Ev & Hv & Hl & Hok & Hm). destruct (or_bits_ok _ _ Hl) as (v' & Ev' & Hl' & Hlit).
    rewrite Ev' in Ev. injection Ev as ->. exists g'. split; [done|]. split; [by apply Hok|]. intros p.
    rewrite Hv, Hlit, HS, HT. setoid_rewrite elem_of_app. split.
    - intros [(a & Ha & Hp)|(a & Ha & Hp)]; exists a; (split; [tauto|]); destruct (Hm a) as [Em Ema];
        rewrite Em by done; [done|]. by rewrite <- Ema.
    - intros (a & Ha & Hp). destruct (Hm a) as [Em Ema]. rewrite Em in Hp by done.
      destruct Ha; [left|right]; exists a; (split; [done|]); [done|]. by rewrite Ema. }
  destruct g as [|f| | | |f|f], h as [|o| | | |o|o]; try done; destruct Hsame as [Ho Hl]; cbn in Hl;
    unfold bf_merge, generic_bloom, gb_merge, bf_merge, noncounting_bloom, multibitsel_bloom, h3_bloom.
  - destruct (or_bits_ok _ _ Hl) as (v & Ev & Hlv & _). rewrite Ev. cbn [mbind outcome_bind].
    exists (NonCounting (nc_with f v)), v. split_and!; [done|exact Ev|done|exact Hl|..].
    + intros _. destruct Hg. by split; cbn; rewrite ?Hlv.
    + intros a. split; [done|]. rewrite <- Ho. done.
  - destruct (or_bits_ok _ _ Hl) as (v & Ev & Hlv & _). rewrite Ev. cbn [mbind outcome_bind].
    exists (MultiBitSel (mbs_with f (hb_with (mbs f) v))), v. split_and!; [done|exact Ev|done|exact Hl|..].
    + intros _. destruct Hg. split; [done|by apply hash_ok_with|done].
    + intros a. split; [intros _; exact (mbs_places_with f v a Hlv)|].
      rewrite <- Ho. exact (mbs_places_with f _ a (eq_sym Hl)).
  - destruct (or_bits_ok _ _ Hl) as (v & Ev & Hlv & _). rewrite Ev. cbn [mbind outcome_bind].
    exists (H3Filter (mkH3 (hb_with (h3 f) v))), v. split_and!; [done|exact Ev|done|exact Hl|..].
    + intros _. destruct Hg. split; [done|by apply hash_ok_with|done].
    + intros a. split; [intros _; exact (h3_places_with (h3 f) v a Hlv)|].
      cbn. rewrite <- Ho. exact (h3_places_with (h3 f) _ a (eq_sym Hl)).
Qed.

(** ** The counting filter *)

Record lsb_ok (f : LSB_CountingBloomFilter) : Prop := {
  lo_bits : 0 ≤ bits ∧ 1 ≤ lsb_size_bits f ≤ 31 ∧ bits + lsb_size_bits f ≤ 63;
  lo_fits : 2 ^ lsb_size_bits f ≤ Z.of_nat (length (lsb_filter f))
}.

Definition lsb_place (f : LSB_CountingBloomFilter) (a : Z) : nat := place (lsb_get_index a f).

(** The addresses held that share a counter. *)
Definition sharing (f : LSB_CountingBloomFilter) (i : nat) (h : list Z) : nat :=
  length (base.filter (λ a, lsb_place f a = i) h).

Record lsb_holds (f : LSB_CountingBloomFilter) (h : list Z) : Prop := {
  lh_ok : lsb_ok f;
  lh_addr : Forall address h;
  lh_count : ∀ i, (i < length (lsb_filter f))%nat → lsb_filter f !! i = Some (Z.of_nat (sharing f i h))
}.

Lemma lsb_index_ok f a :
  lsb_ok f → address a → ∃ i, lsb_get_index a f = Ret i ∧ 0 ≤ i < Z.of_nat (length (lsb_filter f)) ∧ lsb_place f a = Z.to_nat i.
Proof.
  intros [Hb Hf] Ha. unfold lsb_place, lsb_get_index.
  destruct (select_ok bits (lsb_size_bits f) a) as (i & -> & Ei & Hr); [lia..|done|].
  cbn [mbind outcome_bind place]. exists i. rewrite Ei. split; [done|]. split; [lia|done].
Qed.

Lemma lsb_read f h a :
  lsb_holds f h → address a → ∃ i, lsb_get_index a f = Ret i ∧ lsb_place f a = Z.to_nat i ∧
    0 ≤ i < Z.of_nat (length (lsb_filter f)) ∧
    at_int (lsb_filter f) i = Ret (Z.of_nat (sharing f (lsb_place f a) h)).
Proof.
  intros [Hok _ Hc] Ha. destruct (lsb_index_ok f a Hok Ha) as (i & E & Hi & Hp). exists i.
  destruct (at_int_ok (lsb_filter f) i (Z.of_nat (length (lsb_filter f)))) as (x & Ex & Hx); [by rewrite Nat2Z.id|done|].
  split; [done|]. split; [done|]. split; [done|]. rewrite Ex, Hp. rewrite Hc in Hx by lia. by injection Hx as <-.
Qed.

Lemma lsb_update f h h' a n :
  lsb_holds f h → Forall address h' → address a → Z.of_nat (sharing f (lsb_place f a) h') = n →
  (∀ i, i ≠ lsb_place f a → sharing f i h' = sharing f i h) →
  lsb_holds (lsb_with f (<[lsb_place f a := n]> (lsb_filter f))) h'.
Proof.
  intros [Hok Hh Hc] Hh' Ha Hn Ho. destruct (lsb_index_ok f a Hok Ha) as (k & _ & Hk & Hp).
  split; [by destruct Hok; split; cbn; rewrite ?length_insert|done|]. cbn. rewrite length_insert. intros i Hi.
  change (sharing (lsb_with f _) i h') with (sharing f i h'). destruct (decide (lsb_place f a = i)) as [<-|Hne].
  - rewrite list_lookup_insert_eq by lia. by rewrite Hn.
  - rewrite list_lookup_insert_ne by done. rewrite Ho by done. by apply Hc.
Qed.

(** An increment adds an address, a decrement of an address held removes it,
    and the count of an address is the number of addresses held that share its
    counter, so it never is too low.  The counters only stay in range because
    fewer than 2^31 addresses are held: the limit the filter is configured with
    is not checked. *)
Lemma lsb_counts f h a :
  lsb_holds f h → address a → Z.of_nat (length h) < 2 ^ 31 - 1 →
  lsb_getCount a f = Ret (Z.of_nat (sharing f (lsb_place f a) h)) ∧
  (∃ f', lsb_increment a f = Ret f' ∧ lsb_holds f' (a :: h)) ∧
  (∀ h', h ≡ₚ a :: h' → ∃ f', lsb_decrement a f = Ret f' ∧ lsb_holds f' h').
Proof.
  intros Hf Ha Hlen. destruct (lsb_read f h a Hf Ha) as (i & E & Hp & Hi & Ex).
  assert (Hcons : ∀ j l, sharing f j (a :: l) = ((if decide (lsb_place f a = j) then 1 else 0) + sharing f j l)%nat).
  { intros j l. unfold sharing. rewrite filter_cons. by destruct (decide _). }
  assert (Hle : (sharing f (lsb_place f a) h ≤ length h)%nat) by apply length_filter.
  unfold lsb_getCount, lsb_increment, lsb_decrement. rewrite E. cbn [mbind outcome_bind]. rewrite Ex.
  cbn [mbind outcome_bind]. split; [done|]. split.
  - rewrite (set_int_ok _ _ (Z.of_nat (length (lsb_filter f)))) by (rewrite ?Nat2Z.id; done). cbn [mbind outcome_bind].
    eexists. split; [done|]. rewrite <- Hp, i32_id by lia.
    apply (lsb_update f h); [done|constructor; [done|apply Hf]|done| |].
    + rewrite Hcons, decide_True by done. lia.
    + intros j Hj. rewrite Hcons, decide_False by done. done.
  - intros h' Hperm. assert (Es : ∀ j, sharing f j h = sharing f j (a :: h')).
    { intros j. unfold sharing. by rewrite Hperm. }
    rewrite Es, Hcons, decide_True, (proj2 (Z.ltb_lt _ _)) by (done || lia).
    rewrite (set_int_ok _ _ (Z.of_nat (length (lsb_filter f)))) by (rewrite ?Nat2Z.id; done). cbn [mbind outcome_bind].
    eexists. split; [done|]. rewrite <- Hp. apply (lsb_update f h); [done| |done|lia|].
    + pose proof (lh_addr _ _ Hf) as Hall. rewrite Hperm in Hall. by apply Forall_cons in Hall as [_ ?].
    + intros j Hj. by rewrite Es, Hcons, decide_False by done.
Qed.
End generic.

(** Which classes forget when they are counted, and which addresses fit. *)
Lemma generic_forgets {config : RubyConfig} g :
  bl_forgets g = match g with Multigrain _ => true | _ => false end.
Proof. by destruct g. Qed.

Lemma generic_fits {config : RubyConfig} g a :
  bl_fits g a = match g with Multigrain f => mg_fits f a | _ => true end.
Proof. by destruct g. Qed.



(** A count of the bits of the two-level filter forgets the pages, and with them
    every address. *)
Example multigrain_forgets (f := mkMultiGrain (zeros 4) (zeros 4) 2 2) :
  (f ← @bf_set _ (@multigrain_bloom (6 : RubyConfig)) 64 f;
   b1 ← @mg_isSet (6 : RubyConfig) 64 f;
   b2 ← @mg_isSet (6 : RubyConfig) 64 (bf_getTotalCount (AbstractBloomFilter := @multigrain_bloom (6 : RubyConfig)) f).2;
   Ret (b1, b2)) = Ret (true, false).
Proof. vm_compute. reflexivity. Qed.

(** The counting filter cannot be configured: its name is split. *)
Example lsb_unreachable : new_GenericBloomFilter "LSB_Counting_64:4" = Raise AssertFailed.
Proof. vm_compute. reflexivity. Qed.
