(* ===== verification/DataBlock.v ===== *)
(** * The data of a line and of a request

    [DataBlock.C] and [SubBlock.C] of [gems-lib/ruby_clean/common]: the bytes of
    a cache line, the bytes a request asks for or brings, and the copying of the
    one from and into the other.  The parameters [DATA_BLOCK] and [XACT_MEMORY]
    of the configuration say whether data is kept at all. *)

From S2P Require Import Prelude Address Sequencer.
Local Open Scope Z_scope.

(** A value stored in a [uint8]. *)
Definition u8 (z : Z) : Z := z `mod` 2 ^ 8.

Class DataConfig := mkDataConfig { DATA_BLOCK : bool; XACT_MEMORY : bool }.

(** [RubyConfig::dataBlockBytes()] *)
Definition dataBlockBytes : Z := 64.

(** ** Lines *)

Notation DataBlock := (list Z).

Section blocks.
Context `{DataConfig}.

Definition has_data : bool := DATA_BLOCK || XACT_MEMORY.

(** [clear]: every byte is zero. *)
Definition clear (d : DataBlock) : DataBlock := replicate (length d) 0.

Definition new_DataBlock : DataBlock :=
  clear (if has_data then replicate (Z.to_nat dataBlockBytes) 0 else []).

(** [equal]: [value && ...] does not read the other block once a byte differs. *)
Definition equal (d obj : DataBlock) : outcome bool :=
  foldM (λ value i, if (value : bool) then x ← d.[i]!; y ← obj.[i]!; Ret (x =? y) else Ret false)
    true (seq 0 (length d)).

Definition getByte (whichByte : Z) (d : DataBlock) : outcome Z :=
  if has_data then at_int d whichByte else Ret 0.

Definition setByte (whichByte data : Z) (d : DataBlock) : outcome DataBlock :=
  if has_data then set_int d whichByte data else Ret d.
End blocks.

(** ** Parts of lines *)

Record SubBlock := mkSubBlock {
  m_address : Z;
  m_logicalAddress : Z;
  m_data : list Z
}.

#[export] Instance SubBlock_inhabited : Inhabited SubBlock := populate (mkSubBlock 0 0 []).

(** The constructors: [setSize] asserts that the size is not negative, the loop
    clears every byte. *)
Definition new_SubBlock_logical (addr logicalAddress size : Z) : outcome SubBlock :=
  assertb (0 <=? size) ;; Ret (mkSubBlock addr logicalAddress (replicate (Z.to_nat size) 0)).

Definition new_SubBlock (addr size : Z) : outcome SubBlock := new_SubBlock_logical addr 0 size.

Definition sub_size (b : SubBlock) : Z := Z.of_nat (length (m_data b)).

Definition with_data (d : list Z) (b : SubBlock) : SubBlock :=
  mkSubBlock (m_address b) (m_logicalAddress b) d.

(** The bytes are kept in a [Vector<uint>]: reading one narrows it to [uint8]. *)
Definition sub_getByte (offset : Z) (b : SubBlock) : outcome Z :=
  x ← at_int (m_data b) offset; Ret (u8 x).

Definition sub_setByte (offset data : Z) (b : SubBlock) : outcome SubBlock :=
  d ← set_int (m_data b) offset data; Ret (with_data d b).

Definition sub_offset (b : SubBlock) : outcome Z := getOffset DATA_BLOCK_BITS (m_address b).

Section merging.
Context `{DataConfig}.

Definition internalMergeFrom (data : DataBlock) (b : SubBlock) : outcome SubBlock :=
  assertb (0 <? sub_size b) ;;
  offset ← sub_offset b;
  foldM (λ b i, x ← getByte (offset + Z.of_nat i) data; sub_setByte (Z.of_nat i) x b)
    b (seq 0 (length (m_data b))).

Definition internalMergeTo (b : SubBlock) (data : DataBlock) : outcome DataBlock :=
  assertb (0 <? sub_size b) ;;
  offset ← sub_offset b;
  foldM (λ data i, x ← sub_getByte (Z.of_nat i) b; setByte (offset + Z.of_nat i) x data)
    data (seq 0 (length (m_data b))).

Definition mergeFrom (data : DataBlock) (b : SubBlock) : outcome SubBlock :=
  if DATA_BLOCK then internalMergeFrom data b else Ret b.

Definition mergeTo (b : SubBlock) (data : DataBlock) : outcome DataBlock :=
  if DATA_BLOCK then internalMergeTo b data else Ret data.
End merging.

(** ** What they compute *)

Definition is_byte (z : Z) : Prop := 0 ≤ z < 2 ^ 8.
Definition off (b : SubBlock) : Z := m_address b `mod` dataBlockBytes.
Notation sub_line b := (line (m_address b)).

(** A part of a line: some bytes that do not cross the end of the line. *)
Record sub_ok (b : SubBlock) : Prop := {
  so_addr : 0 ≤ m_address b < 2 ^ 64;
  so_size : 0 < sub_size b;
  so_line : off b + sub_size b ≤ dataBlockBytes;
  so_bytes : Forall is_byte (m_data b)
}.

Definition block_ok (d : DataBlock) : Prop := length d = Z.to_nat dataBlockBytes ∧ Forall is_byte d.

Lemma u8_id z : is_byte z → u8 z = z.
Proof. apply Z.mod_small. Qed.

Lemma sub_offset_ok b : 0 ≤ m_address b < 2 ^ 64 → sub_offset b = Ret (off b).
Proof. intros Ha. unfold sub_offset, getOffset. by rewrite bitSelect_low by (done || (unfold DATA_BLOCK_BITS; lia)). Qed.

Lemma off_range b : 0 ≤ off b < dataBlockBytes.
Proof. apply Z.mod_pos_bound. unfold dataBlockBytes. lia. Qed.

Lemma address_line_off a : 0 ≤ a < 2 ^ 64 → a = line a + a `mod` dataBlockBytes.
Proof.
  intros Ha. rewrite line_address_div by (done || (unfold DATA_BLOCK_BITS; lia)).
  unfold DATA_BLOCK_BITS, dataBlockBytes. change (2 ^ 6) with 64. pose proof (Z.div_mod a 64). lia.
Qed.

Lemma sub_address b : sub_ok b → m_address b = sub_line b + off b.
Proof. intros Hb. apply address_line_off, Hb. Qed.

(** Writing consecutive bytes. *)
Lemma insert_inserts (l k : list Z) o i x :
  k !! i = Some x → <[(o + i)%nat := x]> (list_inserts o (take i k) l) = list_inserts o (take (S i) k) l.
Proof.
  intros Hx. rewrite (take_S_r k i x Hx).
  assert (Hlen : length (take i k) = i) by (apply length_take_le; apply lookup_lt_Some in Hx; lia).
  generalize dependent (take i k). intros k' <-. clear Hx. revert o l.
  induction k' as [|y k' IH]; intros o l; cbn [length list_inserts app].
  - by rewrite Nat.add_0_r.
  - rewrite <- IH. destruct (decide (o < length l)%nat).
    + rewrite list_insert_insert_ne by lia. by replace (o + S (length k'))%nat with (S o + length k')%nat by lia.
    + by rewrite list_insert_insert_ne, (Nat.add_succ_r o) by lia.
Qed.

Section specs.
Context `{DataConfig}.
Hypothesis data_kept : DATA_BLOCK = true.

Lemma has_data_true : has_data = true.
Proof. unfold has_data. by rewrite data_kept. Qed.

Lemma new_DataBlock_ok : block_ok new_DataBlock.
Proof.
  unfold new_DataBlock. rewrite has_data_true. split; [done|]. by apply Forall_replicate.
Qed.

Lemma mergeFrom_ok b d :
  sub_ok b → length d = Z.to_nat dataBlockBytes →
  mergeFrom d b = Ret (with_data (take (length (m_data b)) (drop (Z.to_nat (off b)) d)) b).
Proof.
  intros Hb Hd. pose proof (off_range b). pose proof (so_line b Hb) as Hl. unfold sub_size in Hl.
  unfold mergeFrom, internalMergeFrom. rewrite data_kept, (proj2 (Z.ltb_lt _ _) (so_size b Hb)).
  cbn [assertb mbind outcome_bind]. rewrite sub_offset_ok by apply Hb. cbn [mbind outcome_bind].
  edestruct (foldM_seq (λ i b', b' = with_data (take i (drop (Z.to_nat (off b)) d) ++ drop i (m_data b)) b))
    as (b' & -> & ->); [by destruct b|..].
  - intros i b' Hi ->. unfold getByte. rewrite has_data_true, (lookup_at d _ dataBlockBytes) by (done || lia).
    cbn [mbind outcome_bind]. set (x := d !!! _).
    assert (Hx : drop (Z.to_nat (off b)) d !! i = Some x).
    { rewrite lookup_drop. subst x. replace (Z.to_nat (off b + Z.of_nat i)) with (Z.to_nat (off b) + i)%nat by lia.
      apply list_lookup_lookup_total_lt. lia. }
    assert (Hlen : length (take i (drop (Z.to_nat (off b)) d)) = i) by (rewrite length_take, length_drop; lia).
    destruct (drop i (m_data b)) as [|y r] eqn:Er.
    { apply (f_equal length) in Er. rewrite length_drop in Er. cbn in Er. lia. }
    unfold sub_setByte. cbn [m_data with_data].
    rewrite (set_int_ok _ _ (Z.of_nat (length (m_data b)))); [|..|lia].
    2: { rewrite length_app, Hlen, <- Er, length_drop. lia. }
    cbn [mbind outcome_bind]. eexists. split; [done|]. unfold with_data. cbn. f_equal.
    rewrite Nat2Z.id. rewrite insert_app_r_alt, Hlen, Nat.sub_diag by lia. cbn.
    rewrite (take_S_r _ i x Hx), <- app_assoc. cbn. do 2 f_equal.
    rewrite (drop_S _ y) in Er; [by injection Er|].
    apply (f_equal (λ l, l !! 0%nat)) in Er. by rewrite lookup_drop, Nat.add_0_r in Er.
  - by rewrite drop_all, app_nil_r.
Qed.

Lemma mergeTo_ok b d :
  sub_ok b → length d = Z.to_nat dataBlockBytes →
  mergeTo b d = Ret (list_inserts (Z.to_nat (off b)) (m_data b) d).
Proof.
  intros Hb Hd. pose proof (off_range b). pose proof (so_line b Hb) as Hl. unfold sub_size in Hl.
  unfold mergeTo, internalMergeTo. rewrite data_kept, (proj2 (Z.ltb_lt _ _) (so_size b Hb)).
  cbn [assertb mbind outcome_bind]. rewrite sub_offset_ok by apply Hb. cbn [mbind outcome_bind].
  edestruct (foldM_seq (λ i d', d' = list_inserts (Z.to_nat (off b)) (take i (m_data b)) d))
    as (d' & -> & ->); [done|..].
  - intros i d' Hi ->. destruct (lookup_lt_is_Some_2 (m_data b) i Hi) as [x Hx].
    unfold sub_getByte. unfold at_int. rewrite (proj2 (Z.ltb_ge _ _)) by lia.
    rewrite Nat2Z.id, (at_idx_Some _ _ _ Hx). cbn [mbind outcome_bind].
    rewrite u8_id by exact (Forall_lookup_1 _ _ _ _ (so_bytes b Hb) Hx).
    unfold setByte. rewrite has_data_true, (set_int_ok _ _ dataBlockBytes) by (rewrite ?length_inserts; done || lia).
    eexists. split; [done|]. replace (Z.to_nat (off b + Z.of_nat i)) with (Z.to_nat (off b) + i)%nat by lia.
    by apply insert_inserts.
  - by rewrite take_ge.
Qed.
End specs.
