(* ===== verification/StoreCache.v ===== *)
(** * The store cache

    [StoreCache.C] of [gems-lib/ruby_clean/system]: for every line with waiting
    stores a block with the newest bytes and, per byte, the number of waiting
    stores to it.  Its invariant says that it answers every question about the
    waiting stores as their list does. *)

From stdpp Require Import gmap.
From S2P Require Import Prelude Address HashMap Sequencer DataBlock.
Local Open Scope Z_scope.

(** ** Entries *)

Record StoreCacheEntry := mkStoreCacheEntry {
  m_datablock : DataBlock;
  m_byte_counters : list Z;
  m_line_counter : Z
}.

Notation StoreCache := (gmap Z StoreCacheEntry).

Section operations.
Context `{DataConfig}.

(** The constructor. *)
Definition new_StoreCacheEntry : StoreCacheEntry :=
  mkStoreCacheEntry new_DataBlock (replicate (Z.to_nat dataBlockBytes) 0) 0.

Definition sc_isEmpty (m : StoreCache) : bool := map_size m =? 0.

(** ** [add] and [remove] *)

(** The body of the loop of [add]: the counter and the byte. *)
Definition add_byte (starting_offset : Z) (block : SubBlock) (entry : StoreCacheEntry) (index : nat)
    : outcome StoreCacheEntry :=
  let k := starting_offset + Z.of_nat index in
  c ← at_int (m_byte_counters entry) k;
  counters ← set_int (m_byte_counters entry) k (c + 1);
  x ← sub_getByte (Z.of_nat index) block;
  data ← setByte k x (m_datablock entry);
  Ret (mkStoreCacheEntry data counters (m_line_counter entry)).

Definition sc_add (block : SubBlock) (m : StoreCache) : outcome StoreCache :=
  let key := sub_line block in
  let m := if map_exist key m then m else map_add key new_StoreCacheEntry m in
  entry ← map_lookup key m;
  starting_offset ← sub_offset block;
  entry ← foldM (add_byte starting_offset block) entry (seq 0 (length (m_data block)));
  let entry := mkStoreCacheEntry (m_datablock entry) (m_byte_counters entry) (m_line_counter entry + 1) in
  Ret (<[key := entry]> m).

Definition remove_byte (starting_offset : Z) (entry : StoreCacheEntry) (index : nat) : outcome StoreCacheEntry :=
  let k := starting_offset + Z.of_nat index in
  c ← at_int (m_byte_counters entry) k;
  counters ← set_int (m_byte_counters entry) k (c - 1);
  Ret (mkStoreCacheEntry (m_datablock entry) counters (m_line_counter entry)).

Definition sc_remove (block : SubBlock) (m : StoreCache) : outcome StoreCache :=
  let key := sub_line block in
  assertb (map_exist key m) ;;
  entry ← map_lookup key m;
  starting_offset ← sub_offset block;
  entry ← foldM (remove_byte starting_offset) entry (seq 0 (length (m_data block)));
  let entry := mkStoreCacheEntry (m_datablock entry) (m_byte_counters entry) (m_line_counter entry - 1) in
  assertb (0 <=? m_line_counter entry) ;;
  if m_line_counter entry =? 0 then map_erase key (<[key := entry]> m)
  else Ret (<[key := entry]> m).

(** ** [check] and [update] *)

(** The loop of [check], which returns at the first byte without a store. *)
Fixpoint check_bytes (starting_offset : Z) (entry : StoreCacheEntry) (indices : list nat) : outcome bool :=
  match indices with
  | [] => Ret true
  | index :: rest =>
      c ← at_int (m_byte_counters entry) (starting_offset + Z.of_nat index);
      if 0 <? c then check_bytes starting_offset entry rest else Ret false
  end.

Definition sc_check (block : SubBlock) (m : StoreCache) : outcome bool :=
  let key := sub_line block in
  if negb (map_exist key m) then Ret false
  else
    entry ← map_lookup key m;
    starting_offset ← sub_offset block;
    check_bytes starting_offset entry (seq 0 (length (m_data block))).

Definition update_byte (starting_offset : Z) (entry : StoreCacheEntry) (block : SubBlock) (index : nat)
    : outcome SubBlock :=
  let k := starting_offset + Z.of_nat index in
  c ← at_int (m_byte_counters entry) k;
  if 0 <? c then x ← getByte k (m_datablock entry); sub_setByte (Z.of_nat index) x block
  else Ret block.

Definition sc_update (block : SubBlock) (m : StoreCache) : outcome SubBlock :=
  let key := sub_line block in
  if map_exist key m then
    entry ← map_lookup key m;
    starting_offset ← sub_offset block;
    foldM (update_byte starting_offset entry) block (seq 0 (length (m_data block)))
  else Ret block.
End operations.

(** ** The waiting stores as a list *)

(** The byte a store writes to an address, if it does. *)
Definition byte_at (b : SubBlock) (a : Z) : option Z :=
  if m_address b <=? a then m_data b !! Z.to_nat (a - m_address b) else None.

(** The newest byte for an address among stores listed oldest first. *)
Fixpoint newest (q : list SubBlock) (a : Z) : option Z :=
  match q with
  | [] => None
  | b :: q => match newest q a with Some x => Some x | None => byte_at b a end
  end.

Definition on_line (l : Z) (b : SubBlock) : bool := sub_line b =? l.
Definition writes (a : Z) (b : SubBlock) : bool := bool_decide (is_Some (byte_at b a)).
Definition count (p : SubBlock → bool) (q : list SubBlock) : Z := zsum (λ b, Z.b2z (p b)) q.

Lemma count_app p q q' : count p (q ++ q') = count p q + count p q'.
Proof. apply zsum_app. Qed.

Lemma count_cons p b q : count p (b :: q) = Z.b2z (p b) + count p q.
Proof. done. Qed.

Lemma count_nonneg p q : 0 ≤ count p q.
Proof. apply zsum_nonneg. intros b _. by destruct (p b). Qed.

Lemma count_none p q : (∀ b, b ∈ q → p b = false) → count p q = 0.
Proof.
  induction q as [|b q IH]; intros Hq; [done|]. rewrite count_cons, Hq, IH by set_solver. done.
Qed.

Lemma count_pos p q : 0 < count p q ↔ ∃ b, b ∈ q ∧ p b = true.
Proof.
  induction q as [|b q IH]; [split; [done|intros (b & Hb & _); set_solver]|].
  rewrite count_cons. pose proof (count_nonneg p q). destruct (p b) eqn:E; cbn [Z.b2z].
  - split; [intros _; exists b; set_solver|lia].
  - rewrite Z.add_0_l, IH. split; intros (c & Hc & Hp); exists c; (split; [|done]); [by apply elem_of_cons; right|].
    apply elem_of_cons in Hc as [->|Hc]; [congruence|done].
Qed.

Lemma newest_app q b a : newest (q ++ [b]) a = match byte_at b a with Some x => Some x | None => newest q a end.
Proof.
  induction q as [|c q IH]; cbn; [by destruct (byte_at b a)|]. rewrite IH. by destruct (byte_at b a).
Qed.

Lemma newest_count q a : is_Some (newest q a) ↔ 0 < count (writes a) q.
Proof.
  rewrite count_pos. induction q as [|b q IH]; cbn.
  - split; [by intros []|intros (b & Hb & _); set_solver].
  - split.
    + intros Hs. destruct (newest q a) eqn:E.
      * destruct (proj1 IH ltac:(eauto)) as (c & Hc & Hw). exists c. set_solver.
      * exists b. split; [set_solver|]. by apply bool_decide_eq_true.
    + intros (c & [->|Hc]%elem_of_cons & Hw).
      * apply bool_decide_eq_true in Hw as [x Hx]. destruct (newest q a); eauto.
      * destruct (proj2 IH ltac:(eauto)) as [x ->]. eauto.
Qed.

(** ** The invariant *)

(** The entry of a line [l] with waiting stores [q]. *)
Record entry_ok (q : list SubBlock) (l : Z) (e : StoreCacheEntry) : Prop := {
  eo_line : m_line_counter e = count (on_line l) q;
  eo_counters : length (m_byte_counters e) = Z.to_nat dataBlockBytes;
  eo_data : block_ok (m_datablock e);
  eo_count k : 0 ≤ k < dataBlockBytes → m_byte_counters e !!! Z.to_nat k = count (writes (l + k)) q;
  eo_byte k x : 0 ≤ k < dataBlockBytes → newest q (l + k) = Some x → m_datablock e !!! Z.to_nat k = x
}.

Definition cache_ok (q : list SubBlock) (m : StoreCache) : Prop :=
  Forall sub_ok q ∧
  ∀ l, match m !! l with
       | Some e => 0 < count (on_line l) q ∧ entry_ok q l e
       | None => count (on_line l) q = 0
       end.

(** ** Bytes of a line *)

Lemma sub_line_aligned b : sub_ok b → sub_line b `mod` dataBlockBytes = 0.
Proof.
  intros Hb. rewrite line_address_div by (apply Hb || (unfold DATA_BLOCK_BITS; lia)).
  rewrite Z.mul_comm. by apply Z.mod_mul.
Qed.

Lemma byte_at_line b k :
  sub_ok b → 0 ≤ k < dataBlockBytes →
  byte_at b (sub_line b + k) =
    if (off b <=? k) && (k <? off b + sub_size b) then Some (m_data b !!! Z.to_nat (k - off b)) else None.
Proof.
  intros Hb Hk. unfold byte_at. pose proof (sub_address b Hb) as E. pose proof (off_range b).
  replace (sub_line b + k - m_address b) with (k - off b) by lia. unfold sub_size.
  destruct (Z.leb_spec (off b) k), (Z.leb_spec (m_address b) (sub_line b + k)); try lia; cbn [andb].
  - destruct (Z.ltb_spec k (off b + Z.of_nat (length (m_data b)))).
    + apply list_lookup_lookup_total_lt. lia.
    + apply lookup_ge_None_2. lia.
  - done.
Qed.

(** A store does not reach another line. *)
Lemma byte_at_other b l k :
  sub_ok b → l `mod` dataBlockBytes = 0 → l ≠ sub_line b → 0 ≤ k < dataBlockBytes → byte_at b (l + k) = None.
Proof.
  intros Hb Hl Hne Hk. unfold byte_at. pose proof (sub_address b Hb) as E. pose proof (off_range b).
  pose proof (sub_line_aligned b Hb) as Ha. pose proof (so_line b Hb) as Hs. unfold sub_size in Hs.
  destruct (Z.leb_spec (m_address b) (l + k)); [|done]. apply lookup_ge_None_2.
  apply Z.mod_divide in Hl as [x ->], Ha as [y Ha]; [|done..]. rewrite Ha in *. unfold dataBlockBytes in *.
  assert (y < x) by lia. lia.
Qed.

Lemma writes_line b k :
  sub_ok b → 0 ≤ k < dataBlockBytes →
  writes (sub_line b + k) b = (off b <=? k) && (k <? off b + sub_size b).
Proof.
  intros Hb Hk. unfold writes. rewrite byte_at_line by done.
  destruct (_ && _); [by apply bool_decide_eq_true|by apply bool_decide_eq_false; intros []].
Qed.

Lemma writes_other b l k :
  sub_ok b → l `mod` dataBlockBytes = 0 → l ≠ sub_line b → 0 ≤ k < dataBlockBytes → writes (l + k) b = false.
Proof. intros. unfold writes. rewrite byte_at_other by done. apply bool_decide_eq_false. by intros []. Qed.

Lemma no_line_no_write q l k :
  Forall sub_ok q → l `mod` dataBlockBytes = 0 → 0 ≤ k < dataBlockBytes → count (on_line l) q = 0 →
  count (writes (l + k)) q = 0 ∧ newest q (l + k) = None.
Proof.
  intros Hq Hl Hk Hn. assert (E : count (writes (l + k)) q = 0).
  { apply count_none. intros b Hb. rewrite Forall_forall in Hq.
    destruct (decide (l = sub_line b)) as [->|Hne]; [|by apply writes_other; auto].
    exfalso. cut (0 < count (on_line (sub_line b)) q); [lia|]. apply count_pos. exists b.
    split; [done|]. unfold on_line. by apply Z.eqb_eq. }
  split; [done|]. apply eq_None_not_Some. rewrite newest_count. lia.
Qed.

Section laws.
Context `{DataConfig}.
Hypothesis data_kept : DATA_BLOCK = true.
Local Notation has_data_true := (has_data_true data_kept).

Lemma new_entry_ok q l :
  Forall sub_ok q → l `mod` dataBlockBytes = 0 → count (on_line l) q = 0 → entry_ok q l new_StoreCacheEntry.
Proof.
  intros Hq Hl Hn. split; cbn [new_StoreCacheEntry m_line_counter m_byte_counters m_datablock].
  - done.
  - done.
  - apply new_DataBlock_ok, data_kept.
  - intros k Hk. rewrite lookup_total_replicate_2 by lia. symmetry. by apply no_line_no_write.
  - intros k x Hk Hx. exfalso. destruct (no_line_no_write q l k) as [_ E]; [done..|congruence].
Qed.

(** The bytes the loops have reached after [i] rounds. *)
Definition reached (b : SubBlock) (i : nat) (k : Z) : bool := (off b <=? k) && (k <? off b + Z.of_nat i).

Lemma reached_S b i k :
  reached b (S i) k = (reached b i k || (k =? off b + Z.of_nat i)) ∧ reached b i (off b + Z.of_nat i) = false.
Proof.
  unfold reached. rewrite Nat2Z.inj_succ. split; [|by rewrite Z.ltb_irrefl, andb_false_r].
  destruct (Z.leb_spec (off b) k), (Z.ltb_spec k (off b + Z.succ (Z.of_nat i))), (Z.ltb_spec k (off b + Z.of_nat i)),
    (Z.eqb_spec k (off b + Z.of_nat i)); cbn; lia || done.
Qed.

Lemma reached_0 b k : reached b 0 k = false.
Proof. unfold reached. destruct (Z.leb_spec (off b) k), (Z.ltb_spec k (off b + Z.of_nat 0)); cbn; lia || done. Qed.

Lemma reached_all b k : reached b (length (m_data b)) k = (off b <=? k) && (k <? off b + sub_size b).
Proof. done. Qed.

Lemma insert_total (l : list Z) i k (x : Z) n :
  length l = Z.to_nat n → 0 ≤ i < n → 0 ≤ k < n →
  <[Z.to_nat i := x]> l !!! Z.to_nat k = if k =? i then x else l !!! Z.to_nat k.
Proof.
  intros Hl Hi Hk. destruct (Z.eqb_spec k i) as [->|Hne].
  - apply list_lookup_total_insert_eq. lia.
  - apply list_lookup_total_insert_ne. lia.
Qed.

(** The loop of [add]. *)
Lemma add_loop b e :
  sub_ok b → length (m_byte_counters e) = Z.to_nat dataBlockBytes → block_ok (m_datablock e) →
  ∃ e', foldM (add_byte (off b) b) e (seq 0 (length (m_data b))) = Ret e' ∧
    m_line_counter e' = m_line_counter e ∧
    length (m_byte_counters e') = Z.to_nat dataBlockBytes ∧ block_ok (m_datablock e') ∧
    ∀ k, 0 ≤ k < dataBlockBytes →
      m_byte_counters e' !!! Z.to_nat k =
        m_byte_counters e !!! Z.to_nat k + Z.b2z (reached b (length (m_data b)) k) ∧
      m_datablock e' !!! Z.to_nat k =
        if reached b (length (m_data b)) k then m_data b !!! Z.to_nat (k - off b) else m_datablock e !!! Z.to_nat k.
Proof.
  intros Hb Hc Hd. pose proof (off_range b). pose proof (so_line b Hb) as Hl. unfold sub_size in Hl.
  apply (foldM_seq (λ i e', m_line_counter e' = m_line_counter e ∧
    length (m_byte_counters e') = Z.to_nat dataBlockBytes ∧ block_ok (m_datablock e') ∧
    ∀ k, 0 ≤ k < dataBlockBytes →
      m_byte_counters e' !!! Z.to_nat k = m_byte_counters e !!! Z.to_nat k + Z.b2z (reached b i k) ∧
      m_datablock e' !!! Z.to_nat k =
        if reached b i k then m_data b !!! Z.to_nat (k - off b) else m_datablock e !!! Z.to_nat k)).
  - split_and!; [done..|]. intros k Hk. rewrite reached_0.
    split; [cbn; lia|done].
  - intros i e' Hi (E1 & E2 & [E3 E4] & E5). unfold add_byte.
    assert (Hk : 0 ≤ off b + Z.of_nat i < dataBlockBytes) by lia.
    destruct (lookup_lt_is_Some_2 (m_data b) i Hi) as [x Hx].
    rewrite (lookup_at _ _ _ E2 Hk). cbn [mbind outcome_bind]. rewrite (set_int_ok _ _ _ _ E2 Hk).
    cbn [mbind outcome_bind]. unfold sub_getByte, at_int at 1. rewrite (proj2 (Z.ltb_ge _ _)) by lia.
    rewrite Nat2Z.id, (at_idx_Some _ _ _ Hx). cbn [mbind outcome_bind].
    pose proof (Forall_lookup_1 _ _ _ _ (so_bytes b Hb) Hx) as Hbyte. rewrite u8_id by done.
    unfold setByte. rewrite has_data_true, (set_int_ok _ _ _ _ E3 Hk). cbn [mbind outcome_bind].
    eexists. split; [done|]. cbn. rewrite !length_insert. split_and!; [done|done|split; [by rewrite length_insert|by apply Forall_insert]|].
    intros k Hk'. destruct (E5 k Hk') as [E6 E7]. destruct (reached_S b i k) as [-> Hr].
    rewrite (insert_total _ _ _ _ _ E2 Hk Hk'), (insert_total _ _ _ _ _ E3 Hk Hk').
    destruct (Z.eqb_spec k (off b + Z.of_nat i)) as [->|Hne].
    + rewrite Hr in *. cbn [orb Z.b2z] in *. split; [lia|].
      replace (off b + Z.of_nat i - off b) with (Z.of_nat i) by lia. rewrite Nat2Z.id.
      by rewrite (list_lookup_total_correct _ _ _ Hx).
    + rewrite orb_false_r. done.
Qed.

Lemma remove_loop b e :
  sub_ok b → length (m_byte_counters e) = Z.to_nat dataBlockBytes →
  ∃ e', foldM (remove_byte (off b)) e (seq 0 (length (m_data b))) = Ret e' ∧
    m_line_counter e' = m_line_counter e ∧ m_datablock e' = m_datablock e ∧
    length (m_byte_counters e') = Z.to_nat dataBlockBytes ∧
    ∀ k, 0 ≤ k < dataBlockBytes →
      m_byte_counters e' !!! Z.to_nat k =
        m_byte_counters e !!! Z.to_nat k - Z.b2z (reached b (length (m_data b)) k).
Proof.
  intros Hb Hc. pose proof (off_range b). pose proof (so_line b Hb) as Hl. unfold sub_size in Hl.
  apply (foldM_seq (λ i e', m_line_counter e' = m_line_counter e ∧ m_datablock e' = m_datablock e ∧
    length (m_byte_counters e') = Z.to_nat dataBlockBytes ∧
    ∀ k, 0 ≤ k < dataBlockBytes →
      m_byte_counters e' !!! Z.to_nat k = m_byte_counters e !!! Z.to_nat k - Z.b2z (reached b i k))).
  - split_and!; [done..|]. intros k Hk. rewrite reached_0. cbn; lia.
  - intros i e' Hi (E1 & E2 & E3 & E4). unfold remove_byte.
    assert (Hk : 0 ≤ off b + Z.of_nat i < dataBlockBytes) by lia.
    rewrite (lookup_at _ _ _ E3 Hk). cbn [mbind outcome_bind]. rewrite (set_int_ok _ _ _ _ E3 Hk).
    cbn [mbind outcome_bind]. eexists. split; [done|]. cbn. rewrite length_insert. split_and!; [done..|].
    intros k Hk'. pose proof (E4 k Hk'). destruct (reached_S b i k) as [-> Hr].
    rewrite (insert_total _ _ _ _ _ E3 Hk Hk').
    destruct (Z.eqb_spec k (off b + Z.of_nat i)) as [->|Hne].
    + rewrite Hr in *. cbn [orb Z.b2z] in *. lia.
    + by rewrite orb_false_r.
Qed.

(** ** The operations against the list *)

Lemma reached_writes b k :
  sub_ok b → 0 ≤ k < dataBlockBytes → reached b (length (m_data b)) k = writes (sub_line b + k) b.
Proof. intros. by rewrite writes_line, reached_all. Qed.

Lemma on_line_self b : on_line (sub_line b) b = true.
Proof. apply Z.eqb_refl. Qed.

Lemma count_snoc p q b : count p (q ++ [b]) = count p q + Z.b2z (p b).
Proof. rewrite count_app, count_cons. cbn. lia. Qed.

Lemma entry_add q b e :
  Forall sub_ok q → sub_ok b → entry_ok q (sub_line b) e →
  ∃ e', foldM (add_byte (off b) b) e (seq 0 (length (m_data b))) = Ret e' ∧
    entry_ok (q ++ [b]) (sub_line b) (mkStoreCacheEntry (m_datablock e') (m_byte_counters e') (m_line_counter e' + 1)).
Proof.
  intros Hq Hb He. destruct (add_loop b e Hb) as (e' & -> & E1 & E2 & E3 & E4); [apply He..|].
  exists e'. split; [done|]. split; cbn; [|done|done|..].
  - rewrite count_snoc, on_line_self, E1. cbn. by rewrite (eo_line _ _ _ He).
  - intros k Hk. destruct (E4 k Hk) as [-> _]. rewrite count_snoc, reached_writes by done.
    by rewrite (eo_count _ _ _ He).
  - intros k x Hk. rewrite newest_app, byte_at_line, <- reached_all by done.
    destruct (E4 k Hk) as [_ ->]. destruct (reached _ _ _); [by intros [= <-]|]. by apply (eo_byte _ _ _ He).
Qed.

(** An entry depends on the stores to its line only. *)
Lemma entry_ext q q' l e :
  count (on_line l) q' = count (on_line l) q →
  (∀ k, 0 ≤ k < dataBlockBytes →
    count (writes (l + k)) q' = count (writes (l + k)) q ∧ newest q' (l + k) = newest q (l + k)) →
  entry_ok q l e → entry_ok q' l e.
Proof.
  intros El Ek He. split; try apply He.
  - rewrite El. apply He.
  - intros k Hk. destruct (Ek k Hk) as [-> _]. by apply He.
  - intros k x Hk. destruct (Ek k Hk) as [_ ->]. by apply He.
Qed.

Lemma other_line b l : l ≠ sub_line b → on_line l b = false.
Proof. intros Hl. unfold on_line. apply Z.eqb_neq. congruence. Qed.

Lemma cache_aligned q l : Forall sub_ok q → 0 < count (on_line l) q → l `mod` dataBlockBytes = 0.
Proof.
  intros Hq (b & Hb & E)%count_pos.
  apply Z.eqb_eq in E as <-. rewrite Forall_forall in Hq. by apply sub_line_aligned, Hq.
Qed.

Lemma sc_add_ok q b m :
  cache_ok q m → sub_ok b → ∃ m', sc_add b m = Ret m' ∧ cache_ok (q ++ [b]) m'.
Proof.
  intros [Hq Hm] Hb. unfold sc_add. set (m1 := if map_exist _ m then m else _).
  assert (∃ e, m1 !! sub_line b = Some e ∧ entry_ok q (sub_line b) e ∧ ∀ l, l ≠ sub_line b → m1 !! l = m !! l)
    as (e & E1 & He & Hne).
  { subst m1. specialize (Hm (sub_line b)). destruct (m !! sub_line b) as [e|] eqn:Ee.
    - rewrite (map_exist_Some _ _ _ Ee). exists e. by destruct Hm.
    - rewrite (map_exist_None _ _ Ee). exists new_StoreCacheEntry. unfold map_add. rewrite lookup_insert_eq.
      split_and!; [done|by apply new_entry_ok, Hm; [|apply sub_line_aligned]|].
      intros l Hl. by rewrite lookup_insert_ne. }
  rewrite (map_lookup_Some _ _ _ E1). cbn [mbind outcome_bind]. rewrite sub_offset_ok by apply Hb.
  cbn [mbind outcome_bind]. destruct (entry_add q b e Hq Hb He) as (e' & -> & He').
  cbn [mbind outcome_bind]. eexists. split; [done|]. split; [by apply Forall_app; split; [|constructor]|].
  intros l. destruct (decide (l = sub_line b)) as [->|Hl].
  - rewrite lookup_insert_eq, count_snoc, on_line_self. pose proof (count_nonneg (on_line (sub_line b)) q).
    split; [cbn; lia|done].
  - rewrite lookup_insert_ne, Hne, count_snoc, other_line, Z.add_0_r by done. specialize (Hm l).
    destruct (m !! l) as [e1|]; [|done]. destruct Hm as [Hc He1]. split; [done|].
    pose proof (cache_aligned q l Hq Hc) as Hal. revert He1. apply entry_ext.
    + by rewrite count_snoc, other_line, Z.add_0_r.
    + intros k Hk. by rewrite count_snoc, newest_app, writes_other, byte_at_other, Z.add_0_r.
Qed.

(** A removal takes the oldest store away; only its place matters. *)
Lemma sc_remove_ok q b b' m :
  cache_ok (b :: q) m → m_address b' = m_address b → length (m_data b') = length (m_data b) →
  ∃ m', sc_remove b' m = Ret m' ∧ cache_ok q m'.
Proof.
  intros [[Hb Hq]%Forall_cons Hm] Ea Es. unfold sc_remove. rewrite Ea.
  pose proof (Hm (sub_line b)) as Hl. rewrite count_cons, on_line_self in Hl. cbn [Z.b2z] in Hl.
  pose proof (count_nonneg (on_line (sub_line b)) q) as Hnn.
  destruct (m !! sub_line b) as [e|] eqn:Ee; [|lia]. destruct Hl as [_ He].
  rewrite (map_exist_Some _ _ _ Ee), (map_lookup_Some _ _ _ Ee). cbn [assertb mbind outcome_bind].
  unfold sub_offset. rewrite Ea. fold (sub_offset b). rewrite sub_offset_ok by apply Hb. cbn [mbind outcome_bind].
  rewrite Es. destruct (remove_loop b e Hb) as (e' & -> & E1 & E2 & E3 & E4); [apply He|].
  cbn [mbind outcome_bind m_line_counter]. rewrite E1, (eo_line _ _ _ He), count_cons, on_line_self. cbn [Z.b2z].
  replace (1 + count (on_line (sub_line b)) q - 1) with (count (on_line (sub_line b)) q) by lia.
  rewrite (proj2 (Z.leb_le _ _) Hnn). cbn [assertb mbind outcome_bind].
  assert (Hrest : ∀ l, l ≠ sub_line b → match m !! l with
    | Some e => 0 < count (on_line l) q ∧ entry_ok q l e | None => count (on_line l) q = 0 end).
  { intros l Hne. specialize (Hm l). rewrite count_cons, other_line, Z.add_0_l in Hm by done.
    destruct (m !! l) as [e1|]; [|done]. destruct Hm as [Hc He1]. split; [done|].
    pose proof (cache_aligned q l Hq Hc) as Hal. revert He1. apply entry_ext.
    - by rewrite count_cons, other_line.
    - intros k Hk. rewrite count_cons, writes_other by done. cbn. rewrite byte_at_other by done.
      by destruct (newest q (l + k)). }
  destruct (Z.eqb_spec (count (on_line (sub_line b)) q) 0) as [E0|E0].
  - rewrite (map_erase_Some _ _ _ (lookup_insert_eq _ _ _)). eexists. split; [done|]. split; [done|]. intros l.
    destruct (decide (l = sub_line b)) as [->|Hne]; [by rewrite lookup_delete_eq|].
    rewrite lookup_delete_ne, lookup_insert_ne by done. by apply Hrest.
  - eexists. split; [done|]. split; [done|]. intros l.
    destruct (decide (l = sub_line b)) as [->|Hne]; [|rewrite lookup_insert_ne by done; by apply Hrest].
    rewrite lookup_insert_eq. split; [lia|]. split; cbn; [done|done|rewrite E2; apply He|..].
    + intros k Hk. rewrite E4, reached_writes, (eo_count _ _ _ He), count_cons by done. lia.
    + intros k x Hk Hx. rewrite E2. apply (eo_byte _ _ _ He k x Hk). cbn. by rewrite Hx.
Qed.

Lemma sub_byte b : sub_ok b → ∀ i, sub_line b + (off b + Z.of_nat i) = m_address b + Z.of_nat i.
Proof. intros Hb i. pose proof (sub_address b Hb). lia. Qed.

Lemma check_loop b e q ids :
  sub_ok b → entry_ok q (sub_line b) e → (∀ i, i ∈ ids → i < length (m_data b))%nat →
  check_bytes (off b) e ids =
    Ret (forallb (λ i, bool_decide (is_Some (newest q (m_address b + Z.of_nat i)))) ids).
Proof.
  intros Hb He. pose proof (off_range b). pose proof (so_line b Hb) as Hl. unfold sub_size in Hl.
  induction ids as [|i ids IH]; intros His; [done|]. cbn [check_bytes forallb].
  pose proof (His i ltac:(set_solver)) as Hi. assert (Hk : 0 ≤ off b + Z.of_nat i < dataBlockBytes) by lia.
  rewrite (lookup_at _ _ _ (eo_counters _ _ _ He) Hk). cbn [mbind outcome_bind].
  rewrite (eo_count _ _ _ He _ Hk), (sub_byte b Hb).
  pose proof (newest_count q (m_address b + Z.of_nat i)) as Hn.
  destruct (Z.ltb_spec 0 (count (writes (m_address b + Z.of_nat i)) q)) as [Hc|Hc].
  - rewrite bool_decide_eq_true_2 by (by apply Hn). by rewrite IH by (intros; apply His; set_solver).
  - by rewrite bool_decide_eq_false_2 by (rewrite Hn; lia).
Qed.

(** The bytes of [b] all have a waiting store. *)
Definition covered (q : list SubBlock) (b : SubBlock) : bool :=
  forallb (λ i, bool_decide (is_Some (newest q (m_address b + Z.of_nat i)))) (seq 0 (length (m_data b))).

Lemma sc_check_ok q b m : cache_ok q m → sub_ok b → sc_check b m = Ret (covered q b).
Proof.
  intros [Hq Hm] Hb. unfold sc_check. specialize (Hm (sub_line b)).
  destruct (m !! sub_line b) as [e|] eqn:Ee.
  - rewrite (map_exist_Some _ _ _ Ee), (map_lookup_Some _ _ _ Ee). cbn [negb mbind outcome_bind].
    rewrite sub_offset_ok by apply Hb. cbn [mbind outcome_bind]. apply check_loop; [done|apply Hm|].
    intros i Hi%elem_of_seq. lia.
  - rewrite (map_exist_None _ _ Ee). cbn [negb]. f_equal. symmetry. unfold covered.
    pose proof (so_size b Hb) as Hs. unfold sub_size in Hs. destruct (length (m_data b)) as [|n]; [lia|]. cbn [seq forallb].
    rewrite <- (sub_byte b Hb), Z.add_0_r.
    destruct (no_line_no_write q (sub_line b) (off b) Hq (sub_line_aligned b Hb) (off_range b) Hm) as [_ ->].
    done.
Qed.

(** The bytes of [b] as a load sees them: the newest waiting store, else what it has. *)
Definition forwarded (q : list SubBlock) (b : SubBlock) : SubBlock :=
  with_data (imap (λ i x, default x (newest q (m_address b + Z.of_nat i))) (m_data b)) b.

Lemma forwarded_none q b :
  (∀ i, (i < length (m_data b))%nat → newest q (m_address b + Z.of_nat i) = None) → forwarded q b = b.
Proof.
  intros Hn. unfold forwarded. destruct b as [a l d]. unfold with_data. cbn in *. f_equal.
  apply list_eq. intros i. rewrite list_lookup_imap. destruct (d !! i) eqn:E; [|done]. cbn.
  by rewrite Hn by (by eapply lookup_lt_Some).
Qed.

(** The loop of [update]. *)
Lemma update_loop b e q :
  sub_ok b → entry_ok q (sub_line b) e →
  foldM (update_byte (off b) e) b (seq 0 (length (m_data b))) = Ret (forwarded q b).
Proof.
  intros Hb He. pose proof (off_range b). pose proof (so_line b Hb) as Hl. unfold sub_size in Hl.
  set (f i x := default x (newest q (m_address b + Z.of_nat i))).
  edestruct (foldM_seq (λ i b', ∃ d, b' = with_data d b ∧ length d = length (m_data b) ∧
      ∀ j x, m_data b !! j = Some x → d !! j = Some (if decide (j < i)%nat then f j x else x)))
    as (b' & -> & d & -> & Hd1 & Hd2).
  - exists (m_data b). split_and!; [by destruct b|done|]. intros j x Hj. by rewrite decide_False by lia.
  - intros i ? Hi (d & -> & Hd1 & Hd2). unfold update_byte.
    assert (Hk : 0 ≤ off b + Z.of_nat i < dataBlockBytes) by lia.
    rewrite (lookup_at _ _ _ (eo_counters _ _ _ He) Hk). cbn [mbind outcome_bind].
    rewrite (eo_count _ _ _ He _ Hk). pose proof (newest_count q (sub_line b + (off b + Z.of_nat i))) as Hn.
    assert (Ea : sub_line b + (off b + Z.of_nat i) = m_address b + Z.of_nat i) by (exact (sub_byte b Hb i)).
    destruct (Z.ltb_spec 0 (count (writes (sub_line b + (off b + Z.of_nat i))) q)) as [Hc|Hc].
    + apply Hn in Hc as [y Hy]. unfold getByte. rewrite has_data_true.
      rewrite (lookup_at _ _ dataBlockBytes) by (apply He || done). cbn [mbind outcome_bind].
      rewrite (eo_byte _ _ _ He _ _ Hk Hy). unfold sub_setByte. cbn [m_data with_data].
      rewrite (set_int_ok _ _ (Z.of_nat (length d))) by lia. cbn [mbind outcome_bind]. rewrite Nat2Z.id.
      eexists. split; [done|]. eexists. split; [done|]. rewrite length_insert. split; [done|].
      intros j x Hj. destruct (decide (j = i)) as [->|Hji].
      * rewrite list_lookup_insert_eq, decide_True by lia. unfold f. rewrite <- Ea. by rewrite Hy.
      * rewrite list_lookup_insert_ne, (Hd2 j x Hj) by done. f_equal.
        destruct (decide (j < i)%nat), (decide (j < S i)%nat); (done || lia).
    + eexists. split; [done|]. exists d. split_and!; [done|done|]. intros j x Hj. rewrite (Hd2 j x Hj). f_equal.
      destruct (decide (j = i)) as [->|Hji].
      * rewrite decide_False, decide_True by lia. unfold f.
        assert (newest q (m_address b + Z.of_nat i) = None) as ->; [|done].
        apply eq_None_not_Some. rewrite <- Ea, Hn. lia.
      * destruct (decide (j < i)%nat), (decide (j < S i)%nat); (done || lia).
  - f_equal. unfold forwarded, with_data. cbn. f_equal. apply list_eq. intros j. rewrite list_lookup_imap.
    destruct (m_data b !! j) as [x|] eqn:Ex; cbn.
    + rewrite (Hd2 j x Ex), decide_True by (by eapply lookup_lt_Some). done.
    + apply lookup_ge_None in Ex. apply lookup_ge_None. lia.
Qed.

Lemma sc_update_ok q b m : cache_ok q m → sub_ok b → sc_update b m = Ret (forwarded q b).
Proof.
  intros [Hq Hm] Hb. unfold sc_update. specialize (Hm (sub_line b)).
  destruct (m !! sub_line b) as [e|] eqn:Ee.
  - rewrite (map_exist_Some _ _ _ Ee), (map_lookup_Some _ _ _ Ee). cbn [mbind outcome_bind].
    rewrite sub_offset_ok by apply Hb. cbn [mbind outcome_bind]. apply update_loop; [done|apply Hm].
  - rewrite (map_exist_None _ _ Ee). f_equal. symmetry. apply forwarded_none. intros i Hi.
    pose proof (off_range b). pose proof (so_line b Hb) as Hl. unfold sub_size in Hl.
    rewrite <- (sub_byte b Hb). apply no_line_no_write; [done| |lia|done]. by apply sub_line_aligned.
Qed.

Lemma sc_isEmpty_ok q m : cache_ok q m → sc_isEmpty m = true ↔ q = [].
Proof.
  intros [Hq Hm]. unfold sc_isEmpty, map_size. rewrite Z.eqb_eq. split.
  - intros E. assert (m = ∅) as -> by (apply map_size_empty_inv; lia). destruct q as [|b q]; [done|].
    specialize (Hm (sub_line b)). rewrite lookup_empty, count_cons, on_line_self in Hm. cbn in Hm.
    pose proof (count_nonneg (on_line (sub_line b)) q). lia.
  - intros ->. assert (m = ∅) as ->; [|done]. apply map_empty. intros l. specialize (Hm l).
    destruct (m !! l); [|done]. destruct Hm as [Hm _]. cbn in Hm. lia.
Qed.
End laws.
