(* ===== verification/StoreBuffer.v ===== *)
(** * The store buffer

    [StoreBuffer.C] of [gems-lib/ruby_clean/system], used when the sequencer is
    configured for total store order: a ring of 128 waiting stores, the oldest
    of which is with the memory system, and the store cache that answers loads
    from the ring.  The program counter, which only profiling reads, is left out
    of entries and requests, and so are the profiler's samples and printing. *)

From stdpp Require Import gmap.
From S2P Require Import Prelude Address HashMap Sequencer DataBlock StoreCache.
Local Open Scope Z_scope.

(** ** Data *)

Record StoreBufferEntry := mkStoreBufferEntry {
  m_subblock : SubBlock;
  m_type : CacheRequestType;
  m_access_mode : AccessModeType;
  entry_size : Z;
  m_thread : Z;
  m_time : Z
}.

(** A slot of the ring before its first use. *)
Definition blank_entry : StoreBufferEntry := mkStoreBufferEntry (mkSubBlock 0 0 []) NULL_type UserMode 0 0 0.

#[export] Instance StoreBufferEntry_inhabited : Inhabited StoreBufferEntry := populate blank_entry.

Definition MAX_ENTRIES : Z := 128.

Record StoreBuffer := mkStoreBuffer {
  m_queue : list StoreBufferEntry;
  m_head : Z;
  m_tail : Z;
  m_size : Z;
  m_store_cache : StoreCache;
  m_pending : bool;
  m_pending_address : Z;
  m_seen_atomic : bool;
  m_check_scheduled : bool
}.

(** The calls the buffer makes, in order: [scheduleEvent] for itself, the
    [hitCallback] of the driver, [makeRequest] (the prefetches) and [doRequest]
    of the sequencer. *)
Inductive sb_call :=
  | ScheduleSelf (delay : Z)
  | HitCallback (block : SubBlock) (type : CacheRequestType) (thread : Z)
  | MakeRequest (request : CacheMsg)
  | DoRequest (request : CacheMsg).

Definition inc_index (index : Z) : Z :=
  let index := index + 1 in if MAX_ENTRIES <=? index then 0 else index.

Definition new_StoreBuffer : StoreBuffer :=
  mkStoreBuffer (replicate (Z.to_nat MAX_ENTRIES) blank_entry) 0 0 0 ∅ false 0 false false.

(** ** The ring *)

Definition sb_isEmpty (s : StoreBuffer) : bool := m_size s =? 0.
Definition sb_isReady (s : StoreBuffer) : bool := (m_size s <? MAX_ENTRIES) && negb (m_seen_atomic s).
Definition getEntry (index : Z) (s : StoreBuffer) : outcome StoreBufferEntry := at_int (m_queue s) index.
Definition sb_peek (s : StoreBuffer) : outcome StoreBufferEntry := getEntry (m_head s) s.

(** An update of the entry [peek] returns a reference to. *)
Definition set_head (e : StoreBufferEntry) (s : StoreBuffer) : outcome StoreBuffer :=
  queue ← set_int (m_queue s) (m_head s) e;
  Ret (mkStoreBuffer queue (m_head s) (m_tail s) (m_size s) (m_store_cache s) (m_pending s)
         (m_pending_address s) (m_seen_atomic s) (m_check_scheduled s)).

Definition sb_dequeue (s : StoreBuffer) : outcome StoreBuffer :=
  assertb (0 <? m_size s) ;;
  Ret (mkStoreBuffer (m_queue s) (inc_index (m_head s)) (m_tail s) (m_size s - 1) (m_store_cache s) (m_pending s)
         (m_pending_address s) (m_seen_atomic s) (m_check_scheduled s)).

Definition sb_enqueue (e : StoreBufferEntry) (s : StoreBuffer) : outcome StoreBuffer :=
  queue ← set_int (m_queue s) (m_tail s) e;
  Ret (mkStoreBuffer queue (m_head s) (inc_index (m_tail s)) (m_size s + 1) (m_store_cache s) (m_pending s)
         (m_pending_address s) (m_seen_atomic s) (m_check_scheduled s)).

(** Assignments to the other members. *)
Definition set_cache (c : StoreCache) (s : StoreBuffer) : StoreBuffer :=
  mkStoreBuffer (m_queue s) (m_head s) (m_tail s) (m_size s) c (m_pending s)
    (m_pending_address s) (m_seen_atomic s) (m_check_scheduled s).

Definition set_pending (b : bool) (a : Z) (s : StoreBuffer) : StoreBuffer :=
  mkStoreBuffer (m_queue s) (m_head s) (m_tail s) (m_size s) (m_store_cache s) b a
    (m_seen_atomic s) (m_check_scheduled s).

Definition set_atomic (b : bool) (s : StoreBuffer) : StoreBuffer :=
  mkStoreBuffer (m_queue s) (m_head s) (m_tail s) (m_size s) (m_store_cache s) (m_pending s)
    (m_pending_address s) b (m_check_scheduled s).

Definition set_scheduled (b : bool) (s : StoreBuffer) : StoreBuffer :=
  mkStoreBuffer (m_queue s) (m_head s) (m_tail s) (m_size s) (m_store_cache s) (m_pending s)
    (m_pending_address s) (m_seen_atomic s) b.

(** ** The deadlock check *)

Fixpoint deadlock_loop (now queue_pointer : Z) (n : nat) (s : StoreBuffer) : outcome unit :=
  match n with
  | O => Ret tt
  | S n =>
      e ← getEntry queue_pointer s;
      assertb (negb (g_DEADLOCK_THRESHOLD <=? now - m_time e)) ;;
      deadlock_loop now (inc_index queue_pointer) n s
  end.

Definition sb_wakeup (now : Z) (s : StoreBuffer) : outcome (list sb_call * StoreBuffer) :=
  deadlock_loop now (m_head s) (Z.to_nat (m_size s)) s ;;
  if 0 <? m_size s then Ret ([ScheduleSelf g_DEADLOCK_THRESHOLD], s)
  else Ret ([], set_scheduled false s).

(** ** Stores *)

(** The request of the oldest store, when none is under way. *)
Definition processHeadOfQueue (now : Z) (s : StoreBuffer) : outcome (list sb_call * StoreBuffer) :=
  if negb (sb_isEmpty s) && negb (m_pending s) then
    entry ← sb_peek s;
    let address := m_address (m_subblock entry) in
    let request := mkCacheMsg address (m_type entry) (m_access_mode entry) (entry_size entry) No 0 (m_thread entry) now in
    Ret ([DoRequest request], set_pending true address s)
  else Ret ([], s).

Definition with_prefetch (p : PrefetchBit) (r : CacheMsg) : CacheMsg :=
  mkCacheMsg (getAddress r) (getType r) (getAccessMode r) (getSize r) p (getLogicalAddress r) (getThreadID r)
    (msg_time r).

Section buffer.
Context `{DataConfig}.

(** [hit] is what the driver makes of the block it is handed: it stores the
    data of a store, and reads and replaces the data of an atomic. *)
Definition insertStore (now : Z) (hit : SubBlock → SubBlock) (request : CacheMsg) (s : StoreBuffer)
    : outcome (list sb_call * StoreBuffer) :=
  let type := getType request in
  assertb (bool_decide (type = ST) || bool_decide (type = ATOMIC)) ;;
  assertb (sb_isReady s) ;;
  let calls := if m_check_scheduled s then [] else [ScheduleSelf g_DEADLOCK_THRESHOLD] in
  let s := set_scheduled true s in
  block ← new_SubBlock (getAddress request) (getSize request);
  '(calls, subblock) ←
    (if bool_decide (type = ST) then
       assertb (negb (sub_size (hit block) =? 0)) ;;
       Ret (calls ++ [HitCallback block type (getThreadID request)], hit block)
     else Ret (calls, block));
  let calls := if sb_isEmpty s then calls else calls ++ [MakeRequest (with_prefetch Yes request)] in
  cache ← sc_add subblock (m_store_cache s);
  let s := set_cache cache s in
  s ← sb_enqueue (mkStoreBufferEntry subblock type (getAccessMode request) (getSize request)
                    (getThreadID request) now) s;
  let s := if bool_decide (type = ATOMIC) then set_atomic true s else s in
  '(more, s) ← processHeadOfQueue now s;
  Ret (calls ++ more, s).

(** The branch of [callBack] for an atomic: the driver reads and replaces the
    bytes of the line. *)
Definition answer_atomic (hit : SubBlock → SubBlock) (data : DataBlock) (e : StoreBufferEntry) (s : StoreBuffer)
    : outcome (list sb_call * StoreBuffer) :=
  block ← mergeFrom data (m_subblock e);
  s ← set_head (mkStoreBufferEntry (hit block) (m_type e) (m_access_mode e) (entry_size e) (m_thread e) (m_time e)) s;
  Ret ([HitCallback block (m_type e) (m_thread e)], set_atomic false s).

(** [callBack]: the data of the line comes and goes by reference. *)
Definition callBack (now : Z) (hit : SubBlock → SubBlock) (addr : Z) (data : DataBlock) (s : StoreBuffer)
    : outcome (list sb_call * DataBlock * StoreBuffer) :=
  assertb (negb (sb_isEmpty s)) ;;
  assertb (m_pending s) ;;
  assertb (line addr =? addr) ;;
  assertb (line (m_pending_address s) =? addr) ;;
  e ← sb_peek s;
  assertb (sub_line (m_subblock e) =? addr) ;;
  let type := m_type e in
  assertb (bool_decide (type = ST) || bool_decide (type = ATOMIC)) ;;
  let s := set_pending false (m_pending_address s) s in
  '(calls, s) ←
    (if bool_decide (type = ST) then Ret ([], s) else answer_atomic hit data e s);
  e ← sb_peek s;
  assertb (negb (sub_size (m_subblock e) =? 0)) ;;
  data ← mergeTo (m_subblock e) data;
  cache ← sc_remove (m_subblock e) (m_store_cache s);
  let s := set_cache cache s in
  s ← sb_dequeue s;
  (if sb_isEmpty s then assertb (sc_isEmpty (m_store_cache s)) else Ret tt) ;;
  (if bool_decide (type = ATOMIC) then assertb (sb_isEmpty s) else Ret tt) ;;
  '(more, s) ← processHeadOfQueue now s;
  Ret (calls ++ more, data, s).

(** ** Loads *)

Definition updateSubBlock (block : SubBlock) (s : StoreBuffer) : outcome SubBlock :=
  sc_update block (m_store_cache s).

Definition trySubBlock (block : SubBlock) (s : StoreBuffer) : outcome bool :=
  assertb (sb_isReady s) ;; sc_check block (m_store_cache s).
End buffer.

(** ** The invariant *)

Definition is_store (t : CacheRequestType) : bool := bool_decide (t = ST) || bool_decide (t = ATOMIC).
Definition is_atomic (e : StoreBufferEntry) : bool := bool_decide (m_type e = ATOMIC).

Definition slot (s : StoreBuffer) (i : nat) : Z := (m_head s + Z.of_nat i) `mod` MAX_ENTRIES.

(** The ring [s] holds the entries [q], oldest first. *)
Record ring_ok (q : list StoreBufferEntry) (s : StoreBuffer) : Prop := {
  ro_length : length (m_queue s) = Z.to_nat MAX_ENTRIES;
  ro_head : 0 ≤ m_head s < MAX_ENTRIES;
  ro_size : m_size s = Z.of_nat (length q);
  ro_max : m_size s ≤ MAX_ENTRIES;
  ro_tail : m_tail s = slot s (length q);
  ro_entries i e : q !! i = Some e → m_queue s !! Z.to_nat (slot s i) = Some e
}.

(** An entry: a store to a part of a line. *)
Record stored_ok (e : StoreBufferEntry) : Prop := {
  st_type : is_store (m_type e) = true;
  st_block : sub_ok (m_subblock e);
  st_size : entry_size e = sub_size (m_subblock e)
}.

Record sb_ok (q : list StoreBufferEntry) (s : StoreBuffer) : Prop := {
  sb_ring : ring_ok q s;
  sb_stored : Forall stored_ok q;
  sb_cache : cache_ok (m_subblock <$> q) (m_store_cache s);
  sb_pending : m_pending s = negb (sb_isEmpty s);
  sb_address e : head q = Some e → m_pending_address s = m_address (m_subblock e);
  sb_atomic : m_seen_atomic s = existsb is_atomic q;
  sb_atomic_last i e : q !! i = Some e → is_atomic e = true → S i = length q
}.

(** ** The ring as a queue *)

Lemma inc_index_mod i : 0 ≤ i < MAX_ENTRIES → inc_index i = (i + 1) `mod` MAX_ENTRIES.
Proof.
  intros Hi. unfold inc_index, MAX_ENTRIES in *. destruct (Z.leb_spec 128 (i + 1)).
  - by replace (i + 1) with 128 by lia.
  - rewrite Z.mod_small; lia.
Qed.

Lemma slot_range s i : 0 ≤ slot s i < MAX_ENTRIES.
Proof. apply Z.mod_pos_bound. unfold MAX_ENTRIES. lia. Qed.

Lemma slot_inj s i j : (i < 128)%nat → (j < 128)%nat → slot s i = slot s j → i = j.
Proof.
  unfold slot, MAX_ENTRIES. intros Hi Hj E.
  pose proof (Z.div_mod (m_head s + Z.of_nat i) 128 ltac:(lia)).
  pose proof (Z.div_mod (m_head s + Z.of_nat j) 128 ltac:(lia)). lia.
Qed.

Lemma slot_0 s : 0 ≤ m_head s < MAX_ENTRIES → slot s 0 = m_head s.
Proof. intros. unfold slot. rewrite Z.add_0_r. by apply Z.mod_small. Qed.

Lemma slot_next s i : inc_index (slot s i) = slot s (S i).
Proof.
  rewrite inc_index_mod by apply slot_range. unfold slot.
  rewrite Zplus_mod_idemp_l. f_equal. lia.
Qed.

(** The other members do not matter. *)
Lemma ring_ext q s s' :
  m_queue s' = m_queue s → m_head s' = m_head s → m_tail s' = m_tail s → m_size s' = m_size s →
  ring_ok q s → ring_ok q s'.
Proof.
  intros E1 E2 E3 E4 [H1 H2 H3 H4 H5 H6]. unfold slot in *.
  split; unfold slot; rewrite ?E1, ?E2, ?E3, ?E4; auto.
Qed.

Lemma new_ring_ok : ring_ok [] new_StoreBuffer.
Proof. by split. Qed.

Lemma peek_ok q s e : ring_ok (e :: q) s → sb_peek s = Ret e.
Proof.
  intros Hr. pose proof (ro_head _ _ Hr). unfold sb_peek, getEntry, at_int.
  rewrite (proj2 (Z.ltb_ge _ _)) by lia. apply at_idx_Some.
  rewrite <- (ro_entries _ _ Hr 0 e eq_refl). by rewrite slot_0.
Qed.

Lemma enqueue_ok q s e :
  ring_ok q s → m_size s < MAX_ENTRIES →
  ∃ s', sb_enqueue e s = Ret s' ∧ ring_ok (q ++ [e]) s' ∧
    s' = mkStoreBuffer (m_queue s') (m_head s) (m_tail s') (m_size s + 1) (m_store_cache s) (m_pending s)
           (m_pending_address s) (m_seen_atomic s) (m_check_scheduled s).
Proof.
  intros Hr Hs. pose proof (slot_range s (length q)) as Ht. pose proof (ro_size _ _ Hr) as Hn.
  unfold sb_enqueue. rewrite (ro_tail _ _ Hr), (set_int_ok _ _ _ _ (ro_length _ _ Hr) Ht). cbn [mbind outcome_bind].
  eexists. split; [done|]. split; [|done]. split; cbn.
  - rewrite length_insert. apply Hr.
  - apply Hr.
  - rewrite length_app. cbn. lia.
  - lia.
  - rewrite slot_next, length_app, Nat.add_1_r. done.
  - intros i x [Hi|[Hi Hx]]%lookup_app_Some.
    + change (slot _ i) with (slot s i). rewrite list_lookup_insert_ne; [by apply Hr|].
      intros E. pose proof (slot_range s i). apply lookup_lt_Some in Hi. unfold MAX_ENTRIES in *.
      assert (i = length q); [|lia]. apply (slot_inj s); lia.
    + apply list_lookup_singleton_Some in Hx as [Hx <-]. replace i with (length q) by lia.
      change (slot _ (length q)) with (slot s (length q)). apply list_lookup_insert_eq.
      rewrite (ro_length _ _ Hr). lia.
Qed.

Lemma dequeue_ok q s e :
  ring_ok (e :: q) s →
  ∃ s', sb_dequeue s = Ret s' ∧ ring_ok q s' ∧
    s' = mkStoreBuffer (m_queue s) (m_head s') (m_tail s) (m_size s - 1) (m_store_cache s) (m_pending s)
           (m_pending_address s) (m_seen_atomic s) (m_check_scheduled s).
Proof.
  intros Hr. pose proof (ro_size _ _ Hr) as Hn. pose proof (ro_max _ _ Hr) as Hm. cbn [length] in Hn.
  unfold sb_dequeue. rewrite (proj2 (Z.ltb_lt _ _)) by lia. cbn [assertb mbind outcome_bind].
  assert (Hslot : ∀ i, slot (mkStoreBuffer (m_queue s) (inc_index (m_head s)) (m_tail s) (m_size s - 1)
    (m_store_cache s) (m_pending s) (m_pending_address s) (m_seen_atomic s) (m_check_scheduled s)) i = slot s (S i)).
  { intros i. unfold slot at 1. cbn [m_head]. rewrite inc_index_mod by apply Hr. rewrite Zplus_mod_idemp_l.
    unfold slot. f_equal. lia. }
  eexists. split; [done|]. split; [|done]. split; cbn [m_queue m_size m_tail m_head].
  - apply Hr.
  - rewrite inc_index_mod by apply Hr. apply Z.mod_pos_bound. unfold MAX_ENTRIES. lia.
  - lia.
  - lia.
  - rewrite Hslot. apply (ro_tail _ _ Hr).
  - intros i x Hi. rewrite Hslot. by apply (ro_entries _ _ Hr (S i)).
Qed.

Lemma set_head_ok q s e e' :
  ring_ok (e :: q) s →
  ∃ s', set_head e' s = Ret s' ∧ ring_ok (e' :: q) s' ∧
    s' = mkStoreBuffer (m_queue s') (m_head s) (m_tail s) (m_size s) (m_store_cache s) (m_pending s)
           (m_pending_address s) (m_seen_atomic s) (m_check_scheduled s).
Proof.
  intros Hr. unfold set_head. rewrite (set_int_ok _ _ _ _ (ro_length _ _ Hr) (ro_head _ _ Hr)).
  cbn [mbind outcome_bind]. eexists. split; [done|]. split; [|done]. split; cbn; try apply Hr.
  - rewrite length_insert. apply Hr.
  - intros [|i] x Hx; cbn in Hx.
    + injection Hx as <-. change (slot _ 0) with (slot s 0). rewrite slot_0 by apply Hr.
      apply list_lookup_insert_eq. rewrite (ro_length _ _ Hr). pose proof (ro_head _ _ Hr). lia.
    + change (slot _ (S i)) with (slot s (S i)). rewrite list_lookup_insert_ne.
      * by apply (ro_entries _ _ Hr (S i)).
      * rewrite <- (slot_0 s) by apply Hr. intros E. pose proof (slot_range s (S i)). pose proof (slot_range s 0).
        apply lookup_lt_Some in Hx. pose proof (ro_size _ _ Hr) as Hn. pose proof (ro_max _ _ Hr). cbn [length] in Hn.
        unfold MAX_ENTRIES in *. cut (0%nat = S i); [done|]. apply (slot_inj s); lia.
Qed.

(** ** The operations on the queue of stores *)

Lemma is_empty_ok q s : ring_ok q s → sb_isEmpty s = bool_decide (q = []).
Proof.
  intros Hr. unfold sb_isEmpty. rewrite (ro_size _ _ Hr). destruct q; [done|].
  rewrite bool_decide_eq_false_2 by done. apply Z.eqb_neq. cbn [length]. lia.
Qed.

(** A store can be taken: the ring has room and holds no atomic. *)
Definition ready (q : list StoreBufferEntry) : bool :=
  (Z.of_nat (length q) <? MAX_ENTRIES) && negb (existsb is_atomic q).

Lemma is_ready_ok q s : sb_ok q s → sb_isReady s = ready q.
Proof.
  intros Hs. unfold sb_isReady, ready. by rewrite (ro_size _ _ (sb_ring _ _ Hs)), (sb_atomic _ _ Hs).
Qed.

Lemma new_sb_ok : sb_ok [] new_StoreBuffer.
Proof.
  split; [apply new_ring_ok|done| |done..]. split; [done|]. intros l. change (m_store_cache _) with (∅ : StoreCache). by rewrite lookup_empty.
Qed.

(** The request for the oldest store. *)
Definition request_of (now : Z) (e : StoreBufferEntry) : CacheMsg :=
  mkCacheMsg (m_address (m_subblock e)) (m_type e) (m_access_mode e) (entry_size e) No 0 (m_thread e) now.

Definition next_request (now : Z) (q : list StoreBufferEntry) : list sb_call :=
  match q with [] => [] | e :: _ => [DoRequest (request_of now e)] end.

(** With nothing under way, the head is sent. *)
Lemma process_idle now q s :
  ring_ok q s → m_pending s = false →
  ∃ a, processHeadOfQueue now s = Ret (next_request now q, set_pending (negb (bool_decide (q = []))) a s) ∧
    ∀ e, head q = Some e → a = m_address (m_subblock e).
Proof.
  intros Hr Hp. unfold processHeadOfQueue. rewrite (is_empty_ok q s Hr), Hp. destruct q as [|e q].
  - exists (m_pending_address s). rewrite bool_decide_eq_true_2 by done. split; [|done].
    cbn. unfold set_pending. rewrite <- Hp. by destruct s.
  - rewrite bool_decide_eq_false_2 by done. cbn [negb andb]. rewrite (peek_ok _ _ _ Hr). cbn [mbind outcome_bind].
    eexists. split; [done|]. by intros ? [= <-].
Qed.

Lemma process_busy now s : m_pending s = true → processHeadOfQueue now s = Ret ([], s).
Proof. intros Hp. unfold processHeadOfQueue. by rewrite Hp, andb_false_r. Qed.

(** The driver keeps the place and the size of the block it is handed, and
    writes bytes. *)
Definition hit_ok (hit : SubBlock → SubBlock) : Prop :=
  ∀ b, m_address (hit b) = m_address b ∧ length (m_data (hit b)) = length (m_data b) ∧
       (Forall is_byte (m_data b) → Forall is_byte (m_data (hit b))).

Lemma hit_sub_ok hit b : hit_ok hit → sub_ok b → sub_ok (hit b).
Proof.
  intros Hh [H1 H2 H3 H4]. destruct (Hh b) as (E1 & E2 & E3). unfold off, sub_size in *.
  split; unfold off, sub_size; rewrite ?E1, ?E2; auto.
Qed.

(** A request for a part of a line. *)
Record store_request_ok (r : CacheMsg) : Prop := {
  sr_type : is_store (getType r) = true;
  sr_addr : 0 ≤ getAddress r < 2 ^ 64;
  sr_size : 0 < getSize r;
  sr_line : getAddress r `mod` dataBlockBytes + getSize r ≤ dataBlockBytes
}.

Definition zero_block (r : CacheMsg) : SubBlock :=
  mkSubBlock (getAddress r) 0 (replicate (Z.to_nat (getSize r)) 0).

Lemma zero_block_ok r : store_request_ok r → sub_ok (zero_block r) ∧ sub_size (zero_block r) = getSize r.
Proof.
  intros [_ H1 H2 H3]. assert (E : sub_size (zero_block r) = getSize r) by (unfold sub_size; cbn; rewrite length_replicate; lia).
  split; [|done]. split; rewrite ?E; [done|done|done|]. by apply Forall_replicate.
Qed.

(** The entry and the calls of an insertion. *)
Definition stored_entry (now : Z) (hit : SubBlock → SubBlock) (r : CacheMsg) : StoreBufferEntry :=
  mkStoreBufferEntry (if bool_decide (getType r = ST) then hit (zero_block r) else zero_block r)
    (getType r) (getAccessMode r) (getSize r) (getThreadID r) now.

Definition driver_call (r : CacheMsg) : list sb_call :=
  if bool_decide (getType r = ST) then [HitCallback (zero_block r) ST (getThreadID r)] else [].

Definition prefetch_call (q : list StoreBufferEntry) (r : CacheMsg) : list sb_call :=
  match q with [] => [] | _ => [MakeRequest (with_prefetch Yes r)] end.

(** The request of a new store, sent when nothing is before it. *)
Definition first_request (now : Z) (q : list StoreBufferEntry) (e : StoreBufferEntry) : list sb_call :=
  match q with [] => [DoRequest (request_of now e)] | _ => [] end.

Definition check_call (s : StoreBuffer) : list sb_call :=
  if m_check_scheduled s then [] else [ScheduleSelf g_DEADLOCK_THRESHOLD].

Lemma stored_entry_ok now hit r : store_request_ok r → hit_ok hit → stored_ok (stored_entry now hit r).
Proof.
  intros Hr Hh. destruct (zero_block_ok r Hr) as [Hz Ez].
  split; cbn; [apply Hr|destruct (bool_decide _); [by apply hit_sub_ok|done]|].
  destruct (bool_decide _); [|done]. unfold sub_size in *. destruct (Hh (zero_block r)) as (_ & -> & _). done.
Qed.

(** The part of a line a block is for. *)
Definition read_line (data : DataBlock) (b : SubBlock) : SubBlock :=
  with_data (take (length (m_data b)) (drop (Z.to_nat (off b)) data)) b.

(** What the callback of a store writes, and what it tells the driver. *)
Definition written (hit : SubBlock → SubBlock) (data : DataBlock) (e : StoreBufferEntry) : SubBlock :=
  if bool_decide (m_type e = ST) then m_subblock e else hit (read_line data (m_subblock e)).

Definition atomic_call (data : DataBlock) (e : StoreBufferEntry) : list sb_call :=
  if bool_decide (m_type e = ST) then []
  else [HitCallback (read_line data (m_subblock e)) (m_type e) (m_thread e)].

Definition write_line (b : SubBlock) (data : DataBlock) : DataBlock :=
  list_inserts (Z.to_nat (off b)) (m_data b) data.

Lemma read_line_ok data b : sub_ok b → block_ok data → sub_ok (read_line data b) ∧ sub_size (read_line data b) = sub_size b.
Proof.
  intros [H1 H2 H3 H4] [Hl Hb]. pose proof (off_range b).
  assert (E : sub_size (read_line data b) = sub_size b).
  { unfold sub_size in *. cbn. rewrite length_take, length_drop, Hl. lia. }
  split; [|done]. split; rewrite ?E; [done..|]. cbn. by apply Forall_take, Forall_drop.
Qed.

Lemma written_ok hit data e :
  hit_ok hit → stored_ok e → block_ok data →
  sub_ok (written hit data e) ∧ m_address (written hit data e) = m_address (m_subblock e) ∧
  length (m_data (written hit data e)) = length (m_data (m_subblock e)).
Proof.
  intros Hh He Hd. unfold written. destruct (bool_decide _).
  - split; [apply He|done].
  - destruct (read_line_ok data (m_subblock e) (st_block e He) Hd) as [Hr Es].
    destruct (Hh (read_line data (m_subblock e))) as (E1 & E2 & _). split; [by apply hit_sub_ok|].
    rewrite E1, E2. unfold sub_size in Es. split; [done|lia].
Qed.

Lemma write_line_ok b data : sub_ok b → block_ok data → block_ok (write_line b data).
Proof.
  intros Hb [Hl Hd]. unfold write_line. split; [by rewrite length_inserts|].
  pose proof (so_bytes b Hb) as Hx. revert Hd. generalize (Z.to_nat (off b)). clear Hl Hb.
  induction Hx as [|x l Hx Hl IH]; intros n Hd; cbn; [done|]. by apply Forall_insert; [apply IH|].
Qed.

(** What an insertion leaves, up to the request of the new store. *)
Lemma insert_inv q e s s' :
  sb_ok q s → ready q = true → stored_ok e → ring_ok (q ++ [e]) s' →
  cache_ok (m_subblock <$> q ++ [e]) (m_store_cache s') → m_pending s' = true →
  m_pending_address s' = match q with [] => m_address (m_subblock e) | _ => m_pending_address s end →
  m_seen_atomic s' = (is_atomic e || m_seen_atomic s) → sb_ok (q ++ [e]) s'.
Proof.
  intros Hs [_ Hna%negb_true_iff]%andb_true_iff He Hr Hc Hp Ha Hat.
  split; [done|by apply Forall_app; split; [apply Hs|constructor]|done|..].
  - rewrite Hp, (is_empty_ok _ _ Hr). by rewrite bool_decide_eq_false_2 by (by destruct q).
  - intros x Hx. rewrite Ha. destruct q as [|y q]; cbn in Hx; injection Hx as <-; [done|].
    by apply (sb_address _ _ Hs).
  - rewrite Hat, existsb_app, (sb_atomic _ _ Hs). cbn. by rewrite orb_false_r, orb_comm.
  - intros i x [Hx|[Hi Hx]]%lookup_app_Some Hatx.
    + exfalso. assert (existsb is_atomic q = true); [|congruence]. apply existsb_exists. exists x.
      split; [|done]. apply list_elem_of_In. by eapply list_elem_of_lookup_2.
    + apply list_lookup_singleton_Some in Hx as [Hx _]. rewrite length_app. cbn. lia.
Qed.

Section specs.
Context `{DataConfig}.
Hypothesis data_kept : DATA_BLOCK = true.

Lemma insertStore_ok now hit r q s :
  sb_ok q s → ready q = true → store_request_ok r → hit_ok hit →
  ∃ s', insertStore now hit r s =
      Ret (check_call s ++ driver_call r ++ prefetch_call q r ++ first_request now q (stored_entry now hit r), s') ∧
    m_check_scheduled s' = true ∧ sb_ok (q ++ [stored_entry now hit r]) s'.
Proof.
  intros Hs Hready Hr Hh. pose proof (stored_entry_ok now hit r Hr Hh) as He.
  destruct (zero_block_ok r Hr) as [Hz Ez]. pose proof (sr_type r Hr) as Ht.
  unfold insertStore. fold (is_store (getType r)). rewrite Ht, (is_ready_ok q s Hs), Hready.
  cbn [assertb mbind outcome_bind]. unfold new_SubBlock, new_SubBlock_logical.
  rewrite (proj2 (Z.leb_le _ _)) by (pose proof (sr_size r Hr); lia). cbn [assertb mbind outcome_bind].
  fold (zero_block r). fold (check_call s). set (e := stored_entry now hit r) in *.
  assert (E : (if bool_decide (getType r = ST) then
       assertb (negb (sub_size (hit (zero_block r)) =? 0)) ;;
       Ret (check_call s ++ [HitCallback (zero_block r) (getType r) (getThreadID r)], hit (zero_block r))
     else Ret (check_call s, zero_block r)) = Ret (check_call s ++ driver_call r, m_subblock e)).
  { unfold driver_call, e, stored_entry. cbn [m_subblock]. case_bool_decide as Et; [|by rewrite app_nil_r].
    rewrite Et. unfold sub_size in *. destruct (Hh (zero_block r)) as (_ & -> & _). rewrite Ez.
    pose proof (sr_size r Hr). by rewrite (proj2 (Z.eqb_neq _ _)) by lia. }
  rewrite E. clear E. cbn [mbind outcome_bind].
  change (sb_isEmpty (set_scheduled true s)) with (sb_isEmpty s).
  change (m_store_cache (set_scheduled true s)) with (m_store_cache s).
  destruct (sc_add_ok data_kept _ (m_subblock e) _ (sb_cache q s Hs) (st_block e He)) as (c' & -> & Hc').
  cbn [mbind outcome_bind].
  set (s1 := set_cache c' (set_scheduled true s)).
  assert (Hr1 : ring_ok q s1) by (destruct (sb_ring q s Hs); by split).
  destruct (enqueue_ok q s1 e Hr1) as (s2 & E2 & Hr2 & Es2).
  { change (m_size s1) with (m_size s). rewrite (ro_size _ _ (sb_ring q s Hs)). unfold ready in Hready.
    apply andb_true_iff in Hready as [Hl _]. by apply Z.ltb_lt. }
  change (mkStoreBufferEntry (m_subblock e) _ _ _ _ _) with e. rewrite E2. cbn [mbind outcome_bind].
  set (s3 := if bool_decide (getType r = ATOMIC) then set_atomic true s2 else s2).
  assert (Hr3 : ring_ok (q ++ [e]) s3) by (by apply (ring_ext _ s2); [subst s3; by case_bool_decide..|]).
  assert (E3 : m_store_cache s3 = c' ∧ m_pending s3 = m_pending s ∧ m_pending_address s3 = m_pending_address s ∧
    m_seen_atomic s3 = (is_atomic e || m_seen_atomic s) ∧ m_check_scheduled s3 = true).
  { subst s3. unfold is_atomic. change (m_type e) with (getType r). rewrite Es2. by case_bool_decide. }
  destruct E3 as (E31 & E32 & E33 & E34 & E35).
  assert (Hc3 : cache_ok (m_subblock <$> q ++ [e]) (m_store_cache s3)) by (by rewrite fmap_app, E31).
  pose proof (sb_pending q s Hs) as Hp. rewrite (is_empty_ok q s (sb_ring q s Hs)) in Hp.
  rewrite (is_empty_ok q s (sb_ring q s Hs)). destruct q as [|e0 q]; cbn [app prefetch_call first_request].
  - rewrite bool_decide_eq_true_2 in * by done. cbn [negb] in Hp.
    destruct (process_idle now [e] s3 Hr3) as (a & -> & Ha); [congruence|]. cbn [mbind outcome_bind next_request].
    exists (set_pending true a s3). split; [by rewrite <- app_assoc|]. split; [done|].
    apply (insert_inv [] e s); [done..| | |done| |done].
    + by apply (ring_ext _ s3).
    + done.
    + by apply Ha.
  - rewrite bool_decide_eq_false_2 in * by done. cbn [negb] in Hp.
    rewrite (process_busy now s3) by congruence. cbn [mbind outcome_bind].
    exists s3. rewrite !app_nil_r, <- app_assoc. split; [done|]. split; [done|].
    apply (insert_inv (e0 :: q) e s); (done || congruence).
Qed.

(** The oldest store leaves: what remains when nothing is under way. *)
Lemma remove_inv now e q s s' :
  sb_ok (e :: q) s → ring_ok q s' → cache_ok (m_subblock <$> q) (m_store_cache s') → m_pending s' = false →
  m_seen_atomic s' = (if is_atomic e then false else m_seen_atomic s) →
  ∃ s'', processHeadOfQueue now s' = Ret (next_request now q, s'') ∧
    m_check_scheduled s'' = m_check_scheduled s' ∧ sb_ok q s''.
Proof.
  intros Hs Hr Hc Hp Hat. destruct (process_idle now q s' Hr Hp) as (a & -> & Ha).
  eexists. split; [done|]. split; [done|]. pose proof (sb_stored _ _ Hs) as [_ Hq]%Forall_cons.
  split; cbn; [by apply (ring_ext _ s')|done|done|..].
  - unfold sb_isEmpty. cbn. by rewrite <- (is_empty_ok q s' Hr).
  - intros x Hx. by apply Ha.
  - rewrite Hat. pose proof (sb_atomic _ _ Hs) as E. cbn in E. destruct (is_atomic e) eqn:Ee; [|done].
    pose proof (sb_atomic_last _ _ Hs 0 e eq_refl Ee) as Hl. by destruct q.
  - intros i x Hx Hax. pose proof (sb_atomic_last _ _ Hs (S i) x Hx Hax) as Hl. cbn in Hl. lia.
Qed.

Lemma callBack_ok now hit e q s data :
  sb_ok (e :: q) s → block_ok data → hit_ok hit →
  ∃ s', callBack now hit (sub_line (m_subblock e)) data s =
      Ret (atomic_call data e ++ next_request now q, write_line (written hit data e) data, s') ∧
    m_check_scheduled s' = m_check_scheduled s ∧ sb_ok q s'.
Proof.
  intros Hs Hd Hh. pose proof (sb_ring _ _ Hs) as Hr. pose proof (sb_stored _ _ Hs) as [He Hq]%Forall_cons.
  pose proof (sb_pending _ _ Hs) as Hp. rewrite (is_empty_ok _ _ Hr), bool_decide_eq_false_2 in Hp by done.
  cbn [negb] in Hp. pose proof (st_block e He) as Hb. pose proof (st_type e He) as Ht.
  unfold callBack. rewrite (is_empty_ok _ _ Hr), bool_decide_eq_false_2, Hp by done.
  cbn [negb assertb mbind outcome_bind].
  rewrite line_address_idem by (apply Hb || (unfold DATA_BLOCK_BITS; lia)). rewrite Z.eqb_refl.
  rewrite (sb_address _ _ Hs e eq_refl), Z.eqb_refl. cbn [assertb mbind outcome_bind].
  rewrite (peek_ok _ _ _ Hr). cbn [mbind outcome_bind]. rewrite Z.eqb_refl. cbn [assertb mbind outcome_bind].
  fold (is_store (m_type e)). rewrite Ht. cbn [assertb mbind outcome_bind].
  set (s1 := set_pending false (m_address (m_subblock e)) s).
  assert (Hr1 : ring_ok (e :: q) s1) by (by apply (ring_ext _ s)).
  destruct (written_ok hit data e Hh He Hd) as (Hw & Ew1 & Ew2).
  (* the driver's part *)
  set (e' := mkStoreBufferEntry (written hit data e) (m_type e) (m_access_mode e) (entry_size e) (m_thread e) (m_time e)).
  assert (∃ s2, (if bool_decide (m_type e = ST) then Ret ([], s1) else answer_atomic hit data e s1) = Ret (atomic_call data e, s2) ∧
     ring_ok (e' :: q) s2 ∧ m_store_cache s2 = m_store_cache s ∧ m_pending s2 = false ∧
     m_seen_atomic s2 = (if is_atomic e then false else m_seen_atomic s) ∧
     m_check_scheduled s2 = m_check_scheduled s) as (s2 & E2 & Hr2 & Ec2 & Ep2 & Ea2 & Es2).
  { unfold atomic_call, written in *. unfold e', is_atomic. case_bool_decide as Et.
    - exists s1. rewrite Et. split_and!; [done| |done..]. destruct e; cbn in *. by rewrite <- Et.
    - assert (Et' : m_type e = ATOMIC).
      { unfold is_store in Ht. apply orb_true_iff in Ht as [Ht|Ht]; by apply bool_decide_eq_true in Ht. }
      unfold answer_atomic. rewrite (mergeFrom_ok data_kept _ _ Hb (proj1 Hd)). cbn [mbind outcome_bind]. fold (read_line data (m_subblock e)).
      destruct (set_head_ok _ _ _ (mkStoreBufferEntry (hit (read_line data (m_subblock e))) (m_type e) (m_access_mode e)
        (entry_size e) (m_thread e) (m_time e)) Hr1) as (s2 & -> & Hr2 & Es2).
      cbn [mbind outcome_bind]. exists (set_atomic false s2).
      split_and!; [done|by apply (ring_ext _ s2)|by rewrite Es2|by rewrite Es2| |by rewrite Es2].
      by rewrite Et'. }
  rewrite E2. clear E2. cbn [mbind outcome_bind]. rewrite (peek_ok _ _ _ Hr2). cbn [mbind outcome_bind].
  change (m_subblock e') with (written hit data e).
  rewrite (proj2 (Z.eqb_neq _ _)) by (pose proof (so_size _ Hw); lia). cbn [negb assertb mbind outcome_bind].
  rewrite (mergeTo_ok data_kept _ _ Hw (proj1 Hd)). cbn [mbind outcome_bind]. fold (write_line (written hit data e) data).
  destruct (sc_remove_ok _ _ (written hit data e) _ (sb_cache _ _ Hs) Ew1 Ew2) as (c & Ec & Hc).
  rewrite Ec2, Ec. cbn [mbind outcome_bind].
  assert (Hr3 : ring_ok (e' :: q) (set_cache c s2)) by (by apply (ring_ext _ s2)).
  destruct (dequeue_ok _ _ _ Hr3) as (s4 & -> & Hr4 & Es4). cbn [mbind outcome_bind].
  assert (Ec4 : m_store_cache s4 = c) by (by rewrite Es4).
  rewrite (is_empty_ok _ _ Hr4).
  assert (E5 : (if bool_decide (q = []) then assertb (sc_isEmpty (m_store_cache s4)) else Ret tt) = Ret tt).
  { case_bool_decide as Eq; [|done]. rewrite Ec4, (proj2 (sc_isEmpty_ok _ _ Hc)); [done|]. by rewrite Eq. }
  rewrite E5. cbn [mbind outcome_bind].
  assert (E6 : (if bool_decide (m_type e = ATOMIC) then assertb (bool_decide (q = [])) else Ret tt) = Ret tt).
  { destruct (bool_decide_reflect (m_type e = ATOMIC)) as [Eq|]; [|done]. rewrite bool_decide_eq_true_2; [done|].
    pose proof (sb_atomic_last _ _ Hs 0 e eq_refl (bool_decide_eq_true_2 _ Eq)) as Hl. cbn in Hl. apply length_zero_iff_nil. lia. }
  rewrite E6. cbn [mbind outcome_bind].
  destruct (remove_inv now e q s s4 Hs Hr4) as (s5 & -> & Es5 & Hs5).
  - by rewrite Ec4.
  - by rewrite Es4.
  - by rewrite Es4.
  - cbn [mbind outcome_bind]. exists s5. split; [done|]. split; [|done]. rewrite Es5, Es4. exact Es2.
Qed.

(** Loads see the newest waiting store of each byte. *)
Lemma updateSubBlock_ok q s b :
  sb_ok q s → sub_ok b → updateSubBlock b s = Ret (forwarded (m_subblock <$> q) b).
Proof. intros Hs Hb. by apply sc_update_ok; [|apply Hs|]. Qed.

Lemma trySubBlock_ok q s b :
  sb_ok q s → sub_ok b → ready q = true → trySubBlock b s = Ret (covered (m_subblock <$> q) b).
Proof.
  intros Hs Hb Hq. unfold trySubBlock. rewrite (is_ready_ok q s Hs), Hq. cbn [assertb mbind outcome_bind].
  by apply sc_check_ok; [|apply Hs|].
Qed.
End specs.
