(* ===== verification/Tso.v ===== *)
(** * Total store order

    What the store buffer promises: the machine of total store order, a memory
    and a queue of stores through which the processor reads.  The parts of the
    sequencer that use the buffer ([hitCallback], [doRequest] and [makeRequest] of
    [Sequencer.C] with [TSO] set), and the machine; [TsoRefine] proves that the
    former refine the latter whatever the memory system, the driver and the other
    processors do. *)

From stdpp Require Import gmap.
From S2P Require Import Prelude Address HashMap Sequencer DataBlock StoreCache StoreBuffer.
Local Open Scope Z_scope.

(** ** The sequencer with its store buffer *)

Section sequencer.
Context `{DataConfig}.

(** [isReady] *)
Definition tso_isReady (request : CacheMsg) (s : Sequencer) (sb : StoreBuffer) : bool :=
  isReady request s && sb_isReady sb.

(** [hitCallback]: writes go to the buffer, loads read the line through it. *)
Definition tso_hitCallback (now : Z) (hit : SubBlock → SubBlock) (request : CacheMsg) (data : DataBlock)
    (sb : StoreBuffer) : outcome (list sb_call * DataBlock * StoreBuffer) :=
  assertb (msg_time request <=? now) ;;
  if bool_decide (getPrefetch request = Yes) then Ret ([], data, sb)
  else if is_write (getType request) then callBack now hit (line (getAddress request)) data sb
  else
    subblock ← new_SubBlock_logical (getAddress request) (getLogicalAddress request) (getSize request);
    subblock ← mergeFrom data subblock;
    subblock ← updateSubBlock subblock sb;
    Ret ([HitCallback subblock (getType request) (getThreadID request)], data, sb).

(** The part of [doRequest] that tries to answer a load from the buffer alone:
    the block it asks about starts where the line does. *)
Definition try_store_buffer (now : Z) (hit : SubBlock → SubBlock) (request : CacheMsg) (sb : StoreBuffer)
    : outcome (bool * list sb_call * StoreBuffer) :=
  if bool_decide (getType request = LD) || bool_decide (getType request = IFETCH) then
    subblock ← new_SubBlock (line (getAddress request)) (getSize request);
    found ← trySubBlock subblock sb;
    if (found : bool) then
      '(calls, _, sb) ← tso_hitCallback now hit request new_DataBlock sb;
      Ret (true, calls, sb)
    else Ret (false, [], sb)
  else Ret (false, [], sb).

(** [makeRequest] of a demand request for a write. *)
Definition tso_makeStore (now : Z) (hit : SubBlock → SubBlock) (request : CacheMsg) (sb : StoreBuffer)
    : outcome (list sb_call * StoreBuffer) :=
  assertb (sb_isReady sb) ;; insertStore now hit request sb.
End sequencer.

(** The requests of the buffer are issued to the memory system: they never take
    the fast path, so no callback interrupts the buffer. *)
Lemma doRequest_store `{CacheHierarchy P} now e s (p : P) :
  is_store (m_type e) = true →
  doRequest now (request_of now e) s p =
    (let '(hit, p) := tryCacheAccess p (line (m_address (m_subblock e))) (m_type e) in
     '(calls, s, p) ← issueRequest now (request_of now e) s p; Ret (hit, None, calls, s, p)).
Proof.
  intros Ht. unfold doRequest. cbn [request_of getAddress getType].
  destruct (tryCacheAccess _ _ _) as [hit p']. rewrite bool_decide_eq_false_2.
  - by rewrite andb_false_r.
  - intros E. by rewrite E in Ht.
Qed.

(** ** What happens to a processor *)

(** A store or atomic the driver makes; the answer to the oldest store; the
    answer to a load; a load tried against the buffer; a line changed by another
    processor. *)
Inductive action :=
  | Store (r : CacheMsg) (hit : SubBlock → SubBlock)
  | Reply (r : CacheMsg) (hit : SubBlock → SubBlock)
  | Load (r : CacheMsg)
  | TryLoad (r : CacheMsg)
  | Remote (l : Z) (d : DataBlock).

(** The lines as the memory system holds them, and the buffer. *)
Record tso := mkTso { lines : Z → DataBlock; buffer : StoreBuffer }.

Definition set_line (l : Z) (d : DataBlock) (m : Z → DataBlock) : Z → DataBlock :=
  λ k, if k =? l then d else m k.

Section system.
Context `{DataConfig}.

(** Memory and buffer after an action, and the calls made. *)
Definition tso_do (now : Z) (x : action) (s : tso) : outcome (list sb_call * tso) :=
  match x with
  | Store r hit =>
      '(calls, sb) ← tso_makeStore now hit r (buffer s); Ret (calls, mkTso (lines s) sb)
  | Reply r hit =>
      let l := line (getAddress r) in
      '(calls, data, sb) ← tso_hitCallback now hit r (lines s l) (buffer s);
      Ret (calls, mkTso (set_line l data (lines s)) sb)
  | Load r =>
      let l := line (getAddress r) in
      '(calls, data, sb) ← tso_hitCallback now id r (lines s l) (buffer s);
      Ret (calls, mkTso (set_line l data (lines s)) sb)
  | TryLoad r =>
      '(_, calls, sb) ← try_store_buffer now id r (buffer s); Ret (calls, mkTso (lines s) sb)
  | Remote l d => Ret ([], mkTso (set_line l d (lines s)) (buffer s))
  end.

Fixpoint tso_run (acts : list (Z * action)) (s : tso) : outcome (list sb_call * tso) :=
  match acts with
  | [] => Ret ([], s)
  | (now, x) :: acts =>
      '(calls, s) ← tso_do now x s; '(more, s) ← tso_run acts s; Ret (calls ++ more, s)
  end.
End system.

(** ** The machine of total store order *)

(** What can be seen: bytes handed to the driver, and lines asked of the memory
    system for a store and ahead of one. *)
Inductive event :=
  | Bytes (a : Z) (l : list Z) (t : CacheRequestType) (thread : Z)
  | Issue (a : Z)
  | Prefetch (a : Z).

Definition event_of (c : sb_call) : option event :=
  match c with
  | ScheduleSelf _ => None
  | HitCallback b t thread => Some (Bytes (m_address b) (m_data b) t thread)
  | MakeRequest r => Some (Prefetch (getAddress r))
  | DoRequest r => Some (Issue (getAddress r))
  end.

Inductive waiting :=
  | Write (a : Z) (l : list Z)
  | Atomic (a : Z) (n : nat) (thread : Z).

Definition place (w : waiting) : Z := match w with Write a _ => a | Atomic a _ _ => a end.

Record machine := mkMachine { memory : Z → Z; queue : list waiting }.

Definition write_bytes (a : Z) (l : list Z) (m : Z → Z) : Z → Z :=
  λ x, if a <=? x then default (m x) (l !! Z.to_nat (x - a)) else m x.

Definition read_bytes (m : Z → Z) (a : Z) (n : nat) : list Z := (λ i, m (a + Z.of_nat i)) <$> seq 0 n.

(** Memory as the processor sees it: the waiting writes are done. *)
Definition view (m : machine) : Z → Z :=
  foldl (λ m w, match w with Write a l => write_bytes a l m | Atomic _ _ _ => m end) (memory m) (queue m).

Definition is_atomic_store (w : waiting) : bool := match w with Atomic _ _ _ => true | _ => false end.

(** A new store is accepted. *)
Definition accepts (m : machine) : bool :=
  (Z.of_nat (length (queue m)) <? MAX_ENTRIES) && negb (existsb is_atomic_store (queue m)).

(** The next line to ask for. *)
Definition issue_next (q : list waiting) : list event :=
  match q with [] => [] | w :: _ => [Issue (place w)] end.

Definition machine_store (r : CacheMsg) (hit : SubBlock → SubBlock) (m : machine) : list event * machine :=
  let a := getAddress r in
  let w := if bool_decide (getType r = ST) then Write a (m_data (hit (zero_block r)))
           else Atomic a (Z.to_nat (getSize r)) (getThreadID r) in
  ((if bool_decide (getType r = ST) then [Bytes a (replicate (Z.to_nat (getSize r)) 0) ST (getThreadID r)] else []) ++
   match queue m with [] => [Issue a] | _ => [Prefetch a] end,
   mkMachine (memory m) (queue m ++ [w])).

(** The oldest store reaches memory. *)
Definition machine_reply (hit : SubBlock → SubBlock) (m : machine) : list event * machine :=
  match queue m with
  | [] => ([], m)
  | Write a l :: q => (issue_next q, mkMachine (write_bytes a l (memory m)) q)
  | Atomic a n thread :: q =>
      let old := read_bytes (memory m) a n in
      (Bytes a old ATOMIC thread :: issue_next q,
       mkMachine (write_bytes a (m_data (hit (mkSubBlock a 0 old))) (memory m)) q)
  end.

Definition load_event (r : CacheMsg) (m : machine) : event :=
  Bytes (getAddress r) (read_bytes (view m) (getAddress r) (Z.to_nat (getSize r))) (getType r) (getThreadID r).

(** Bytes that the waiting writes have. *)
Definition has_write (m : machine) (a : Z) : bool :=
  existsb (λ w, match w with Write b l => (b <=? a) && (a <? b + Z.of_nat (length l)) | _ => false end) (queue m).

(** What the sequencer hands the driver for a load answered from the buffer
    alone: the bytes of the waiting writes over an empty data block. *)
Definition forwarded_event (r : CacheMsg) (m : machine) : event :=
  load_event r (mkMachine (λ _, 0) (queue m)).

(** The machine.  A load is tried against the waiting writes as [doRequest] does
    it, which asks whether they have the bytes from the start of the line on, as
    many as the load has.  [forward] is what a load answered from them is given:
    [load_event] in total store order, [forwarded_event] in the program. *)
Section machine.
Variable forward : CacheMsg → machine → event.

Definition machine_do (x : action) (m : machine) : list event * machine :=
  match x with
  | Store r hit => machine_store r hit m
  | Reply r hit => machine_reply hit m
  | Load r => ([load_event r m], m)
  | TryLoad r =>
      (if forallb (λ i, has_write m (line (getAddress r) + Z.of_nat i)) (seq 0 (Z.to_nat (getSize r)))
       then [forward r m] else [], m)
  | Remote l d => ([], mkMachine (write_bytes l d (memory m)) (queue m))
  end.
End machine.

(** Loads are tried at the start of a line only: there the two agree. *)
Definition at_line_start (x : action) : bool :=
  match x with TryLoad r => getAddress r =? line (getAddress r) | _ => true end.

(** ** What may happen *)

(** A load of a part of a line. *)
Record load_ok (r : CacheMsg) : Prop := {
  lo_type : getType r = LD ∨ getType r = IFETCH;
  lo_prefetch : getPrefetch r ≠ Yes;
  lo_addr : 0 ≤ getAddress r < 2 ^ 64;
  lo_size : 0 < getSize r;
  lo_line : getAddress r `mod` dataBlockBytes + getSize r ≤ dataBlockBytes
}.

(** The sequencer refuses requests while an atomic waits, and an atomic while
    its line has one under way: no load meets an atomic of its line. *)
Definition no_atomic_on (l : Z) (m : machine) : Prop :=
  ∀ w, w ∈ queue m → is_atomic_store w = true → line (place w) ≠ l.

Definition allowed (now : Z) (x : action) (m : machine) : Prop :=
  match x with
  | Store r hit => accepts m = true ∧ store_request_ok r ∧ hit_ok hit
  | Reply r hit =>
      hit_ok hit ∧ msg_time r ≤ now ∧ getPrefetch r ≠ Yes ∧ is_write (getType r) = true ∧
      line (getAddress r) = line (match queue m with w :: _ => place w | [] => -1 end) ∧ queue m ≠ []
  | Load r => load_ok r ∧ msg_time r ≤ now ∧ no_atomic_on (line (getAddress r)) m
  | TryLoad r => load_ok r ∧ msg_time r ≤ now ∧ accepts m = true
  | Remote l d => block_ok d ∧ 0 ≤ l < 2 ^ 64 ∧ l = line l
  end.

(** The runs of the machine. *)
Inductive machine_run (forward : CacheMsg → machine → event) :
    list (Z * action) → machine → list event → machine → Prop :=
  | run_done m : machine_run forward [] m [] m
  | run_step now x acts m es es' m' m'' :
      allowed now x m → machine_do forward x m = (es, m') → machine_run forward acts m' es' m'' →
      machine_run forward ((now, x) :: acts) m (es ++ es') m''.
