(* ===== verification/TsoRefine.v ===== *)
(** * The store buffer refines total store order

    The simulation of the machine of [Tso] by the sequencer with its store
    buffer, action by action; that the buffer cannot be seen by its own
    processor; a concrete run. *)

From stdpp Require Import gmap.
From S2P Require Import Prelude Address HashMap Sequencer DataBlock StoreCache StoreBuffer Tso.
Local Open Scope Z_scope.

(** ** The simulation *)

(** An entry of the ring as the machine sees it. *)
Definition waits (e : StoreBufferEntry) : waiting :=
  if bool_decide (m_type e = ST) then Write (m_address (m_subblock e)) (m_data (m_subblock e))
  else Atomic (m_address (m_subblock e)) (length (m_data (m_subblock e))) (m_thread e).

(** The block of an atomic comes from its request alone. *)
Definition plain_atomic (e : StoreBufferEntry) : Prop :=
  m_type e ≠ ST → m_logicalAddress (m_subblock e) = 0.

Definition flat (ls : Z → DataBlock) (a : Z) : Z := ls (line a) !!! Z.to_nat (a `mod` dataBlockBytes).

Record related (q : list StoreBufferEntry) (s : tso) (m : machine) : Prop := {
  re_buffer : sb_ok q (buffer s);
  re_queue : queue m = waits <$> q;
  re_atomic : Forall plain_atomic q;
  re_lines l : block_ok (lines s l);
  re_memory a : 0 ≤ a < 2 ^ 64 → memory m a = flat (lines s) a
}.

Lemma waits_place e : place (waits e) = m_address (m_subblock e).
Proof. unfold waits. by case_bool_decide. Qed.

Lemma waits_atomic e : is_store (m_type e) = true → is_atomic_store (waits e) = is_atomic e.
Proof.
  intros Ht. unfold waits, is_atomic. unfold is_store in Ht. repeat case_bool_decide; naive_solver congruence.
Qed.

Lemma accepts_ready q s m : related q s m → accepts m = ready q.
Proof.
  intros Hr. unfold accepts, ready. rewrite (re_queue _ _ _ Hr), length_fmap. do 2 f_equal.
  pose proof (sb_stored _ _ (re_buffer _ _ _ Hr)) as Hq. revert Hq. generalize q. clear.
  induction 1 as [|e q He Hq IH]; cbn; [done|]. by rewrite IH, waits_atomic by apply He.
Qed.

Lemma line_off a : 0 ≤ a < 2 ^ 64 → ∀ i, 0 ≤ a `mod` dataBlockBytes + i < dataBlockBytes →
  line (a + i) = line a ∧ (a + i) `mod` dataBlockBytes = a `mod` dataBlockBytes + i.
Proof.
  intros Ha i Hi.
  pose proof (Z.div_mod a dataBlockBytes ltac:(done)) as Hd.
  assert (E : a + i = dataBlockBytes * (a / dataBlockBytes) + (a `mod` dataBlockBytes + i)) by lia.
  assert (Eq : (a + i) / dataBlockBytes = a / dataBlockBytes).
  { symmetry. exact (Z.div_unique _ _ _ _ (or_introl Hi) E). }
  assert (Er : (a + i) `mod` dataBlockBytes = a `mod` dataBlockBytes + i).
  { symmetry. exact (Z.mod_unique _ _ _ _ (or_introl Hi) E). }
  split; [|done].
  assert (0 ≤ a / dataBlockBytes) by (apply Z.div_pos; unfold dataBlockBytes; lia).
  assert (a / dataBlockBytes < 2 ^ 58) by (apply Z.div_lt_upper_bound; [done|]; change (dataBlockBytes * 2 ^ 58) with (2 ^ 64); lia).
  rewrite !line_address_div; [|unfold DATA_BLOCK_BITS; lia|done|unfold DATA_BLOCK_BITS; lia|].
  - change (2 ^ DATA_BLOCK_BITS) with dataBlockBytes. by rewrite Eq.
  - unfold dataBlockBytes in *. lia.
Qed.

(** The bytes of a block lie on its line. *)
Lemma block_byte b i :
  sub_ok b → (i < length (m_data b))%nat →
  let a := m_address b + Z.of_nat i in
  0 ≤ a < 2 ^ 64 ∧ line a = sub_line b ∧ a `mod` dataBlockBytes = off b + Z.of_nat i.
Proof.
  intros Hb Hi a. pose proof (so_line b Hb) as Hl. pose proof (off_range b). unfold sub_size in Hl.
  pose proof (so_addr b Hb) as Ha.
  destruct (line_off (m_address b) Ha (Z.of_nat i)) as [E1 E2]; [fold (off b); lia|].
  split; [|by split]. split; [lia|].
  pose proof (Z.div_mod (m_address b) dataBlockBytes ltac:(done)) as Hd. fold (off b) in Hd.
  assert (m_address b / dataBlockBytes < 2 ^ 58) by (apply Z.div_lt_upper_bound; [done|]; change (dataBlockBytes * 2 ^ 58) with (2 ^ 64); lia).
  unfold a, dataBlockBytes in *. lia.
Qed.

Lemma byte_at_block b i : byte_at b (m_address b + Z.of_nat i) = m_data b !! i.
Proof.
  unfold byte_at. rewrite (proj2 (Z.leb_le _ _)) by lia.
  replace (m_address b + Z.of_nat i - m_address b) with (Z.of_nat i) by lia. by rewrite Nat2Z.id.
Qed.

(** Reading a block out of its line. *)
Lemma read_line_bytes q s m b :
  related q s m → sub_ok b →
  m_data (read_line (lines s (sub_line b)) b) = read_bytes (memory m) (m_address b) (length (m_data b)).
Proof.
  intros Hr Hb. pose proof (so_line b Hb) as Hl. pose proof (off_range b). unfold sub_size in Hl.
  destruct (re_lines _ _ _ Hr (sub_line b)) as [Hlen _]. cbn. unfold read_bytes. apply list_eq. intros i.
  rewrite list_lookup_fmap. destruct (decide (i < length (m_data b))%nat) as [Hi|Hi].
  - rewrite lookup_take_lt, lookup_drop, lookup_seq_lt by lia. cbn. destruct (block_byte b i Hb Hi) as (Ha & E1 & E2).
    rewrite (re_memory _ _ _ Hr) by done. unfold flat. rewrite E1, E2.
    rewrite (list_lookup_lookup_total_lt _ (Z.to_nat (off b) + i)) by lia.
    do 2 f_equal. lia.
  - rewrite lookup_take_ge, lookup_seq_ge by lia. done.
Qed.

(** Writing a block into its line. *)
Lemma write_line_bytes q s m b :
  related q s m → sub_ok b → ∀ a, 0 ≤ a < 2 ^ 64 →
  write_bytes (m_address b) (m_data b) (memory m) a =
    flat (set_line (sub_line b) (write_line b (lines s (sub_line b))) (lines s)) a.
Proof.
  intros Hr Hb a Ha. pose proof (off_range b). pose proof (so_line b Hb) as Hl. unfold sub_size in Hl.
  destruct (re_lines _ _ _ Hr (sub_line b)) as [Hlen _]. unfold write_bytes. rewrite (re_memory _ _ _ Hr a Ha).
  pose proof (Z.mod_pos_bound a dataBlockBytes ltac:(done)) as Hmod.
  pose proof (address_line_off a Ha) as Ea. pose proof (sub_address b Hb) as Eb.
  unfold flat at 3. unfold set_line. destruct (Z.eqb_spec (line a) (sub_line b)) as [E|E].
  - unfold flat. rewrite E. unfold write_line. set (k := a `mod` dataBlockBytes) in *.
    destruct (Z.leb_spec (m_address b) a).
    + destruct (m_data b !! Z.to_nat (a - m_address b)) as [x|] eqn:Ex; cbn.
      * pose proof (lookup_lt_Some _ _ _ Ex). symmetry. apply list_lookup_total_correct.
        rewrite list_lookup_inserts by lia.
        rewrite <- Ex. f_equal. lia.
      * apply lookup_ge_None in Ex. rewrite !list_lookup_total_alt, list_lookup_inserts_ge; [done|lia].
    + rewrite !list_lookup_total_alt, list_lookup_inserts_lt by lia. done.
  - replace (lines s (line a) !!! Z.to_nat (a `mod` dataBlockBytes)) with (flat (lines s) a) by done.
    destruct (Z.leb_spec (m_address b) a); [|done].
    destruct (m_data b !! Z.to_nat (a - m_address b)) as [x|] eqn:Ex; [|done]. exfalso. apply E.
    apply lookup_lt_Some in Ex. destruct (block_byte b _ Hb Ex) as (_ & E1 & _). rewrite <- E1. f_equal. lia.
Qed.

(** Reading through the queue. *)
Lemma view_newest q m a :
  queue m = waits <$> q →
  (∀ e, e ∈ q → is_atomic_store (waits e) = true → byte_at (m_subblock e) a = None) →
  view m a = default (memory m a) (newest (m_subblock <$> q) a).
Proof.
  unfold view. intros ->. generalize (memory m). induction q as [|e q IH]; intros mem Hq; [done|].
  rewrite !fmap_cons. cbn [foldl newest]. rewrite IH by (intros; apply Hq; set_solver).
  destruct (newest (m_subblock <$> q) a); [done|]. cbn [default].
  specialize (Hq e ltac:(set_solver)). unfold waits in *. destruct (bool_decide (m_type e = ST)).
  - unfold write_bytes, byte_at. by destruct (_ <=? a).
  - by rewrite Hq.
Qed.

Definition load_block (r : CacheMsg) : SubBlock :=
  mkSubBlock (getAddress r) (getLogicalAddress r) (replicate (Z.to_nat (getSize r)) 0).

Lemma load_block_ok r : load_ok r → sub_ok (load_block r).
Proof.
  intros Hl. assert (E : sub_size (load_block r) = getSize r).
  { unfold sub_size. cbn. rewrite length_replicate. pose proof (lo_size r Hl). lia. }
  split; rewrite ?E; try apply Hl. by apply Forall_replicate.
Qed.

(** The block [doRequest] asks the buffer about. *)
Lemma line_block_ok r : load_ok r →
  sub_ok (mkSubBlock (line (getAddress r)) 0 (replicate (Z.to_nat (getSize r)) 0)).
Proof.
  intros Hl. pose proof (lo_size r Hl). pose proof (lo_line r Hl). pose proof (lo_addr r Hl) as Ha.
  pose proof (address_line_off _ Ha) as E. pose proof (Z.mod_pos_bound (getAddress r) dataBlockBytes ltac:(done)).
  assert (Hd : line (getAddress r) = dataBlockBytes * (getAddress r / dataBlockBytes)).
  { pose proof (Z.div_mod (getAddress r) dataBlockBytes ltac:(done)). lia. }
  assert (Hoff : line (getAddress r) `mod` dataBlockBytes = 0).
  { by rewrite Hd, Z.mul_comm, Z.mod_mul. }
  assert (0 ≤ getAddress r / dataBlockBytes) by (apply Z.div_pos; unfold dataBlockBytes; lia).
  assert (0 ≤ line (getAddress r) < 2 ^ 64) by (unfold dataBlockBytes in *; lia).
  split; unfold off, sub_size; cbn [m_address m_data]; rewrite ?Hoff, ?length_replicate; try lia.
  by apply Forall_replicate.
Qed.

(** No byte of a load is one of a waiting atomic. *)
Lemma atomic_apart q s m r i e :
  related q s m → load_ok r → no_atomic_on (line (getAddress r)) m → (i < Z.to_nat (getSize r))%nat →
  e ∈ q → is_atomic_store (waits e) = true → byte_at (m_subblock e) (getAddress r + Z.of_nat i) = None.
Proof.
  intros Hr Hl Hna Hi He Ha. pose proof (load_block_ok r Hl) as Hb.
  assert (Hq : stored_ok e).
  { pose proof (sb_stored _ _ (re_buffer _ _ _ Hr)) as Hq. rewrite Forall_forall in Hq. by apply Hq. }
  assert (Hne : line (getAddress r) ≠ sub_line (m_subblock e)).
  { intros E. apply (Hna (waits e)); [|done|by rewrite waits_place].
    rewrite (re_queue _ _ _ Hr). by apply list_elem_of_fmap_2. }
  pose proof (off_range (load_block r)). pose proof (so_line _ Hb) as Hs. unfold sub_size in Hs. cbn in Hs.
  rewrite length_replicate in Hs.
  change (getAddress r) with (m_address (load_block r)) at 1. rewrite <- (sub_byte _ Hb).
  apply byte_at_other; [apply Hq|by apply sub_line_aligned|done|lia].
Qed.

Lemma forwarded_view q s m r :
  related q s m → load_ok r → no_atomic_on (line (getAddress r)) m →
  m_data (forwarded (m_subblock <$> q) (read_line (lines s (line (getAddress r))) (load_block r))) =
    read_bytes (view m) (getAddress r) (Z.to_nat (getSize r)).
Proof.
  intros Hr Hl Hna. pose proof (load_block_ok r Hl) as Hb. unfold forwarded. cbn [m_data with_data m_address].
  pose proof (read_line_bytes q s m _ Hr Hb) as E. change (sub_line (load_block r)) with (line (getAddress r)) in E.
  rewrite E. change (m_address (read_line _ _)) with (getAddress r).
  change (m_address (load_block r)) with (getAddress r). cbn [m_data load_block]. rewrite length_replicate.
  unfold read_bytes. apply list_eq. intros i. rewrite list_lookup_imap, !list_lookup_fmap.
  destruct (decide (i < Z.to_nat (getSize r))%nat) as [Hi|Hi].
  - rewrite lookup_seq_lt by done. cbn. f_equal. symmetry. apply view_newest; [apply Hr|].
    intros e He Ha. by apply (atomic_apart q s m).
  - by rewrite lookup_seq_ge by lia.
Qed.

Section simulation.
Context `{DataConfig}.
Hypothesis data_kept : DATA_BLOCK = true.

Lemma with_data_id b d : m_data b = d → with_data d b = b.
Proof. intros <-. by destruct b. Qed.

Lemma load_callback now r data q sb :
  load_ok r → msg_time r ≤ now → block_ok data → sb_ok q sb →
  tso_hitCallback now id r data sb =
    Ret ([HitCallback (forwarded (m_subblock <$> q) (read_line data (load_block r))) (getType r) (getThreadID r)],
         data, sb).
Proof.
  intros Hl Ht Hd Hsb. pose proof (load_block_ok r Hl) as Hb. unfold tso_hitCallback.
  rewrite (proj2 (Z.leb_le _ _) Ht). cbn [assertb mbind outcome_bind].
  rewrite bool_decide_eq_false_2 by apply Hl.
  assert (is_write (getType r) = false) as -> by (by destruct (lo_type r Hl) as [-> | ->]).
  unfold new_SubBlock_logical. rewrite (proj2 (Z.leb_le _ _)) by (pose proof (lo_size r Hl); lia).
  cbn [assertb mbind outcome_bind]. fold (load_block r).
  rewrite (mergeFrom_ok data_kept _ _ Hb (proj1 Hd)). cbn [mbind outcome_bind]. fold (read_line data (load_block r)).
  rewrite (updateSubBlock_ok data_kept q) by (try done; by apply read_line_ok). done.
Qed.

Lemma sim_load now r q s m :
  related q s m → allowed now (Load r) m →
  ∃ calls s', tso_do now (Load r) s = Ret (calls, s') ∧
    omap event_of calls = [load_event r m] ∧ related q s' m.
Proof.
  intros Hr (Hl & Ht & Hna). cbn [tso_do].
  rewrite (load_callback now r _ q) by (try done; apply Hr). cbn [mbind outcome_bind].
  do 2 eexists. split; [done|]. split.
  - cbn. unfold load_event. do 2 f_equal. by apply forwarded_view.
  - destruct Hr. split; cbn; try done.
    + intros l. unfold set_line. by destruct (l =? _).
    + intros a Ha. rewrite re_memory0 by done. unfold flat, set_line.
      by destruct (Z.eqb_spec (line a) (line (getAddress r))) as [->|].
Qed.

Lemma is_ready_accepts q s m : related q s m → sb_isReady (buffer s) = accepts m.
Proof. intros Hr. rewrite (is_ready_ok q _ (re_buffer _ _ _ Hr)). symmetry. by apply (accepts_ready q s). Qed.

Lemma omap_app {A B} (f : A → option B) l k : omap f (l ++ k) = omap f l ++ omap f k.
Proof. induction l as [|x l IH]; cbn; [done|]. destruct (f x); cbn; by rewrite <- IH. Qed.

Lemma sim_store now r hit q s m :
  related q s m → allowed now (Store r hit) m →
  ∃ calls s', tso_do now (Store r hit) s = Ret (calls, s') ∧
    omap event_of calls = fst (machine_store r hit m) ∧
    related (q ++ [stored_entry now hit r]) s' (snd (machine_store r hit m)).
Proof.
  intros Hr (Hac & Hreq & Hh). cbn [tso_do]. unfold tso_makeStore.
  rewrite (is_ready_accepts q s m Hr), Hac. cbn [assertb mbind outcome_bind].
  destruct (insertStore_ok data_kept now hit r q (buffer s)) as (sb' & -> & _ & Hsb');
    [apply Hr|by rewrite <- (accepts_ready q s m)|done..|].
  cbn [mbind outcome_bind]. do 2 eexists. split; [done|]. set (e := stored_entry now hit r) in *.
  assert (Eaddr : m_address (m_subblock e) = getAddress r).
  { unfold e, stored_entry. cbn. destruct (bool_decide _); [|done]. by destruct (Hh (zero_block r)). }
  assert (Ew : waits e = if bool_decide (getType r = ST) then Write (getAddress r) (m_data (hit (zero_block r)))
    else Atomic (getAddress r) (Z.to_nat (getSize r)) (getThreadID r)).
  { unfold waits. rewrite Eaddr. unfold e, stored_entry. cbn. destruct (bool_decide _); [done|].
    cbn. by rewrite length_replicate. }
  split.
  - rewrite !omap_app. unfold machine_store, check_call. cbn [fst].
    assert (omap event_of (if m_check_scheduled (buffer s) then [] else [ScheduleSelf g_DEADLOCK_THRESHOLD]) = []) as ->
      by (by destruct (m_check_scheduled _)).
    unfold driver_call. rewrite (re_queue _ _ _ Hr). cbn [app].
    assert (∀ b : bool, omap event_of (if b then [HitCallback (zero_block r) ST (getThreadID r)] else []) =
      (if b then [Bytes (getAddress r) (replicate (Z.to_nat (getSize r)) 0) ST (getThreadID r)] else [])) as ->
      by (by intros []).
    f_equal. clearbody e. destruct q as [|e0 q]; cbn; [|done]. by rewrite Eaddr.
  - split; cbn; [done| | |apply Hr|apply Hr].
    + by rewrite fmap_app, (re_queue _ _ _ Hr), <- Ew.
    + apply Forall_app. split; [apply Hr|]. apply Forall_singleton. intros Ht. unfold e, stored_entry in *. cbn in *.
      by rewrite bool_decide_eq_false_2.
Qed.

Lemma issue_next_ok now q :
  omap event_of (next_request now q) = issue_next (waits <$> q).
Proof. destruct q as [|e q]; cbn; [done|]. by rewrite waits_place. Qed.

Lemma sim_reply now r hit q s m :
  related q s m → allowed now (Reply r hit) m →
  ∃ calls s', tso_do now (Reply r hit) s = Ret (calls, s') ∧
    omap event_of calls = fst (machine_reply hit m) ∧ related (tail q) s' (snd (machine_reply hit m)).
Proof.
  intros Hr (Hh & Ht & Hp & Hw & Hl & Hne). pose proof (re_queue _ _ _ Hr) as Eq.
  destruct q as [|e q]; [by rewrite Eq in Hne|]. rewrite Eq, fmap_cons, waits_place in Hl. cbn [tail].
  pose proof (sb_stored _ _ (re_buffer _ _ _ Hr)) as [He _]%Forall_cons.
  pose proof (re_lines _ _ _ Hr (line (getAddress r))) as Hd. pose proof (st_block e He) as Hb.
  cbn [tso_do]. unfold tso_hitCallback. rewrite (proj2 (Z.leb_le _ _) Ht). cbn [assertb mbind outcome_bind].
  rewrite bool_decide_eq_false_2, Hw by done. rewrite Hl in *.
  destruct (callBack_ok data_kept now hit e q (buffer s) _ (re_buffer _ _ _ Hr) Hd Hh) as (sb' & -> & _ & Hsb').
  cbn [mbind outcome_bind]. do 2 eexists. split; [done|].
  set (data := lines s (sub_line (m_subblock e))) in *.
  destruct (written_ok hit data e Hh He Hd) as (Hwr & Ew1 & Ew2).
  pose proof (read_line_bytes _ _ _ (m_subblock e) Hr Hb) as Er. fold data in Er.
  assert (Eread : m_type e ≠ ST → read_line data (m_subblock e) = mkSubBlock (m_address (m_subblock e)) 0
    (read_bytes (memory m) (m_address (m_subblock e)) (length (m_data (m_subblock e))))).
  { intros Hat. pose proof (re_atomic _ _ _ Hr) as [Hpl _]%Forall_cons. rewrite <- Er, <- (Hpl Hat). done. }
  assert (Hrel : ∀ mem', (∀ a, 0 ≤ a < 2 ^ 64 →
      mem' a = write_bytes (m_address (m_subblock e)) (m_data (written hit data e)) (memory m) a) →
    related q (mkTso (set_line (sub_line (m_subblock e)) (write_line (written hit data e) data) (lines s)) sb')
      (mkMachine mem' (waits <$> q))).
  { intros mem' Hmem. split; cbn; [done|done| | |].
    - by pose proof (re_atomic _ _ _ Hr) as [_ ?]%Forall_cons.
    - intros l. unfold set_line. destruct (l =? _); [by apply write_line_ok|apply Hr].
    - intros a Ha. rewrite Hmem by done. rewrite <- Ew1.
      rewrite (write_line_bytes (e :: q) s m _ Hr Hwr a Ha). by rewrite !Ew1. }
  unfold machine_reply. rewrite Eq, fmap_cons, omap_app, issue_next_ok.
  assert (Ewt : waits e = if bool_decide (m_type e = ST)
    then Write (m_address (m_subblock e)) (m_data (m_subblock e))
    else Atomic (m_address (m_subblock e)) (length (m_data (m_subblock e))) (m_thread e)) by done.
  rewrite Ewt. clear Ewt.
  unfold atomic_call, written in *. case_bool_decide as Et; cbn [fst snd].
  - split; [done|]. by apply Hrel.
  - rewrite (Eread Et) in *. split; [|by apply Hrel].
    cbn. do 3 f_equal. pose proof (st_type e He) as Hty. unfold is_store in Hty.
    apply orb_true_iff in Hty as [E|E]; by apply bool_decide_eq_true in E.
Qed.

Lemma accepts_no_atomic q s m :
  related q s m → accepts m = true → ∀ e, e ∈ q → is_atomic_store (waits e) = false.
Proof.
  intros Hr [_ Hna%negb_true_iff]%andb_true_iff e He. apply not_true_iff_false. intros Ha.
  assert (existsb is_atomic_store (queue m) = true); [|congruence]. apply existsb_exists.
  exists (waits e). split; [|done]. apply list_elem_of_In. rewrite (re_queue _ _ _ Hr). by apply list_elem_of_fmap_2.
Qed.

Lemma has_write_newest q s m a :
  related q s m → accepts m = true →
  has_write m a = bool_decide (is_Some (newest (m_subblock <$> q) a)).
Proof.
  intros Hr Hac. pose proof (accepts_no_atomic q s m Hr Hac) as Hna. unfold has_write. rewrite (re_queue _ _ _ Hr).
  clear Hr Hac. induction q as [|e q IH]; [done|]. rewrite !fmap_cons. cbn [existsb newest].
  rewrite IH by (intros; apply Hna; set_solver). specialize (Hna e ltac:(set_solver)). unfold waits in *.
  destruct (bool_decide (m_type e = ST)); [|done]. clear IH Hna.
  assert (Hb : (m_address (m_subblock e) <=? a) && (a <? m_address (m_subblock e) + Z.of_nat (length (m_data (m_subblock e)))) =
    bool_decide (is_Some (byte_at (m_subblock e) a))).
  { unfold byte_at. destruct (Z.leb_spec (m_address (m_subblock e)) a); cbn [andb].
    - destruct (Z.ltb_spec a (m_address (m_subblock e) + Z.of_nat (length (m_data (m_subblock e))))); symmetry.
      + apply bool_decide_eq_true, lookup_lt_is_Some. lia.
      + apply bool_decide_eq_false. rewrite lookup_lt_is_Some. lia.
    - symmetry. apply bool_decide_eq_false. by intros []. }
  rewrite Hb. destruct (newest (m_subblock <$> q) a) as [x|]; [|by rewrite (bool_decide_eq_false_2 (is_Some (@None Z))), orb_false_r by (by intros [])].
  by rewrite !(bool_decide_eq_true_2 (is_Some (Some x))), orb_true_r by eauto.
Qed.

(** A load answered from the buffer reads the waiting stores over zeros. *)
Lemma zero_view q s m r :
  related q s m → load_ok r → accepts m = true →
  m_data (forwarded (m_subblock <$> q) (read_line new_DataBlock (load_block r))) =
    read_bytes (view (mkMachine (λ _, 0) (queue m))) (getAddress r) (Z.to_nat (getSize r)).
Proof.
  intros Hr Hl Hac. pose proof (load_block_ok r Hl) as Hb. pose proof (lo_size r Hl).
  pose proof (off_range (load_block r)). pose proof (so_line _ Hb) as Hlen.
  unfold sub_size in Hlen. cbn [m_data load_block] in Hlen. rewrite length_replicate in Hlen.
  assert (E : m_data (read_line new_DataBlock (load_block r)) = replicate (Z.to_nat (getSize r)) 0).
  { unfold read_line, new_DataBlock. rewrite has_data_true by done. cbn [m_data with_data load_block].
    unfold clear. rewrite !length_replicate, drop_replicate, take_replicate. f_equal. lia. }
  unfold forwarded. cbn [m_data with_data]. rewrite E. unfold read_bytes.
  change (m_address (read_line _ _)) with (getAddress r).
  apply list_eq. intros i. rewrite list_lookup_imap, list_lookup_fmap.
  destruct (decide (i < Z.to_nat (getSize r))%nat) as [Hi|Hi].
  - rewrite lookup_seq_lt, lookup_replicate_2 by done. cbn. f_equal. symmetry.
    apply (view_newest q (mkMachine (λ _, 0) (queue m))); [apply Hr|].
    intros e He Hat. by rewrite (accepts_no_atomic q s m Hr Hac e He) in Hat.
  - rewrite lookup_seq_ge, (proj2 (lookup_ge_None _ _)) by (rewrite ?length_replicate; lia). done.
Qed.

Lemma sim_try now r q s m :
  related q s m → allowed now (TryLoad r) m →
  ∃ calls s', tso_do now (TryLoad r) s = Ret (calls, s') ∧
    omap event_of calls = fst (machine_do forwarded_event (TryLoad r) m) ∧ related q s' m.
Proof.
  intros Hr (Hl & Ht & Hac). pose proof (re_buffer _ _ _ Hr) as Hsb.
  cbn [tso_do]. unfold try_store_buffer.
  assert (bool_decide (getType r = LD) || bool_decide (getType r = IFETCH) = true) as ->
    by (by destruct (lo_type r Hl) as [-> | ->]).
  unfold new_SubBlock, new_SubBlock_logical. rewrite (proj2 (Z.leb_le _ _)) by (pose proof (lo_size r Hl); lia).
  cbn [assertb mbind outcome_bind].
  set (b := mkSubBlock (line (getAddress r)) 0 (replicate (Z.to_nat (getSize r)) 0)).
  rewrite (trySubBlock_ok data_kept q) by (done || by apply line_block_ok || by rewrite <- (accepts_ready q s m)).
  cbn [mbind outcome_bind machine_do fst].
  assert (Ecov : covered (m_subblock <$> q) b =
    forallb (λ i, has_write m (line (getAddress r) + Z.of_nat i)) (seq 0 (Z.to_nat (getSize r)))).
  { unfold covered. subst b. cbn [m_data m_address]. rewrite length_replicate.
    induction (seq 0 (Z.to_nat (getSize r))) as [|i l IH]; [done|]. cbn [forallb]. rewrite IH.
    by rewrite (has_write_newest q s m). }
  rewrite Ecov. destruct (forallb _ _) eqn:Eall.
  - rewrite (load_callback now r _ q) by (try done; by apply new_DataBlock_ok). cbn [mbind outcome_bind].
    do 2 eexists. split; [done|]. split; [|by destruct Hr].
    cbn. unfold forwarded_event, load_event. do 2 f_equal. by apply (zero_view q s).
  - do 2 eexists. split; [done|]. split; [done|]. by destruct Hr.
Qed.

Lemma sim_remote now l d q s m :
  related q s m → allowed now (Remote l d) m →
  related q (mkTso (set_line l d (lines s)) (buffer s)) (mkMachine (write_bytes l d (memory m)) (queue m)).
Proof.
  intros Hr (Hd & Hl & El). destruct Hr as [H1 H2 H3 H4 H5]. split; cbn; try done.
  - intros k. unfold set_line. by destruct (k =? l).
  - intros a Ha. unfold write_bytes, flat, set_line. destruct Hd as [Hlen _].
    pose proof (address_line_off a Ha) as Ea. pose proof (Z.mod_pos_bound a dataBlockBytes ltac:(done)) as Hm.
    destruct (Z.eqb_spec (line a) l) as [E|E].
    + rewrite (proj2 (Z.leb_le _ _)) by lia.
      rewrite (list_lookup_lookup_total_lt d (Z.to_nat (a - l))) by lia. cbn. f_equal. lia.
    + rewrite H5 by done. destruct (Z.leb_spec l a); [|done]. destruct (d !! Z.to_nat (a - l)) eqn:Ed; [|done].
      exfalso. apply E. apply lookup_lt_Some in Ed. unfold dataBlockBytes in *.
      assert (Hoff : l `mod` 64 = 0).
      { pose proof (address_line_off l Hl) as El'. unfold dataBlockBytes in El'. lia. }
      destruct (line_off l Hl (a - l)) as [E1 _]; [unfold dataBlockBytes; lia|].
      replace (l + (a - l)) with a in E1 by lia. congruence.
Qed.

(** One action. *)
Lemma simulate now x q s m es m' :
  related q s m → allowed now x m → machine_do forwarded_event x m = (es, m') →
  ∃ calls s' q', tso_do now x s = Ret (calls, s') ∧ omap event_of calls = es ∧ related q' s' m'.
Proof.
  intros Hr Hx E. destruct x as [r hit|r hit|r|r|l d].
  - destruct (sim_store now r hit q s m Hr Hx) as (calls & s' & H1 & H2 & H3).
    cbn [machine_do] in E. rewrite E in H2, H3. eauto 10.
  - destruct (sim_reply now r hit q s m Hr Hx) as (calls & s' & H1 & H2 & H3).
    cbn [machine_do] in E. rewrite E in H2, H3. eauto 10.
  - destruct (sim_load now r q s m Hr Hx) as (calls & s' & H1 & H2 & H3). injection E as <- <-. eauto 10.
  - destruct (sim_try now r q s m Hr Hx) as (calls & s' & H1 & H2 & H3). rewrite E in H2. injection E as _ <-. eauto 10.
  - injection E as <- <-. exists [], (mkTso (set_line l d (lines s)) (buffer s)), q. split; [done|]. split; [done|].
    by apply (sim_remote now).
Qed.

Lemma simulate_run acts q s m es m' :
  related q s m → machine_run forwarded_event acts m es m' →
  ∃ calls s' q', tso_run acts s = Ret (calls, s') ∧ omap event_of calls = es ∧ related q' s' m'.
Proof.
  intros Hr Hrun. revert q s Hr. induction Hrun as [m|now x acts m es es' m' m'' Hx E Hrun IH]; intros q s Hr.
  - by exists [], s, q.
  - destruct (simulate now x q s m es m' Hr Hx E) as (calls & s1 & q1 & E1 & E2 & Hr1).
    destruct (IH q1 s1 Hr1) as (more & s2 & q2 & E3 & E4 & Hr2).
    exists (calls ++ more), s2, q2. cbn. rewrite E1. cbn. rewrite E3. cbn. split; [done|]. split; [|done].
    by rewrite omap_app, E2, E4.
Qed.

(** The start: an empty buffer over any memory. *)
Definition tso_init (ls : Z → DataBlock) : tso := mkTso ls new_StoreBuffer.
Definition machine_init (ls : Z → DataBlock) : machine := mkMachine (flat ls) [].

Lemma init_related ls : (∀ l, block_ok (ls l)) → related [] (tso_init ls) (machine_init ls).
Proof. intros Hl. split; cbn; try done; apply new_sb_ok. Qed.
End simulation.

(** ** Loads answered from the buffer *)

(** A byte some waiting write has does not depend on memory. *)
Lemma view_has_write m mem a :
  has_write m a = true → view m a = view (mkMachine mem (queue m)) a.
Proof.
  unfold has_write, view. cbn [memory queue]. generalize (memory m). revert mem.
  induction (queue m) as [|w q IH] using rev_ind; intros mem1 mem2; [done|].
  rewrite existsb_app, !foldl_app. cbn [existsb foldl]. rewrite orb_false_r. intros Hw.
  destruct w as [b l|b n th]; [|rewrite orb_false_r in Hw; by apply IH].
  unfold write_bytes. destruct (Z.leb_spec b a); cbn [andb] in Hw; [|rewrite orb_false_r in Hw; by apply IH].
  destruct (l !! Z.to_nat (a - b)) as [x|] eqn:Ex; [done|]. cbn. apply lookup_ge_None in Ex.
  apply IH. apply orb_true_iff in Hw as [?|?%Z.ltb_lt]; [done|lia].
Qed.

(** At the start of a line the program answers as total store order does. *)
Lemma forward_at_line_start r m :
  getAddress r = line (getAddress r) →
  forallb (λ i, has_write m (line (getAddress r) + Z.of_nat i)) (seq 0 (Z.to_nat (getSize r))) = true →
  forwarded_event r m = load_event r m.
Proof.
  intros Ea Hall. unfold forwarded_event, load_event. f_equal. unfold read_bytes.
  apply map_ext_in. intros i Hi. symmetry. apply view_has_write. rewrite forallb_forall in Hall.
  specialize (Hall i Hi). by rewrite <- Ea in Hall.
Qed.

Lemma do_at_line_start x m :
  at_line_start x = true → machine_do load_event x m = machine_do forwarded_event x m.
Proof.
  destruct x as [| | |r|]; try done. cbn. intros Ea%Z.eqb_eq. destruct (forallb _ _) eqn:Hall; [|done].
  by rewrite (forward_at_line_start r m Ea Hall).
Qed.

Lemma run_at_line_start acts m es m' :
  Forall (λ x, at_line_start x.2 = true) acts →
  machine_run load_event acts m es m' → machine_run forwarded_event acts m es m'.
Proof.
  intros Hacts Hrun. induction Hrun as [|now x acts m es es' m' m'' Hx E _ IH]; [constructor|].
  apply Forall_cons in Hacts as [Hs Hacts]. eapply run_step; [done| |by apply IH].
  by rewrite <- do_at_line_start.
Qed.

(** [C8] The store buffer implements total store order, with one exception that
    is stated exactly.  Over any run of stores, atomics, answers, loads, loads
    tried against the buffer and writes of other processors that the machine
    allows, the sequencer with its buffer fails no assertion, hands the driver
    exactly the bytes the machine does (each byte of a load from the newest
    waiting store to it, else from memory) and asks for the same lines in the
    same order, one at a time; at the end memory holds what the machine's memory
    does.  The machine is that of total store order ([load_event]) when the loads
    tried against the buffer are at the start of their line.  At other addresses
    [doRequest] asks the buffer about the wrong bytes, and the machine that the
    sequencer then implements ([forwarded_event]) answers such a load, when the
    first bytes of its line wait, with the waiting bytes over zeros. *)
Theorem store_buffer_refines_tso `{DataConfig} (ls : Z → DataBlock) forward acts es m :
  DATA_BLOCK = true → (∀ l, block_ok (ls l)) →
  forward = forwarded_event ∨ (forward = load_event ∧ Forall (λ x, at_line_start x.2 = true) acts) →
  machine_run forward acts (machine_init ls) es m →
  ∃ calls s, tso_run acts (tso_init ls) = Ret (calls, s) ∧ omap event_of calls = es ∧
    ∀ a, 0 ≤ a < 2 ^ 64 → flat (lines s) a = memory m a.
Proof.
  intros Hd Hl Hfw Hrun.
  assert (Hrun' : machine_run forwarded_event acts (machine_init ls) es m).
  { destruct Hfw as [->|[-> Hacts]]; [done|by apply run_at_line_start]. }
  destruct (simulate_run Hd _ _ _ _ _ _ (init_related ls Hl) Hrun') as (calls & s & q & E1 & E2 & Hr).
  exists calls, s. split; [done|]. split; [done|]. intros a Ha. by rewrite (re_memory _ _ _ Hr).
Qed.

(** ** Runs that can be computed *)

Section computed.
Variable forward : CacheMsg → machine → event.

Fixpoint machine_exec (acts : list (Z * action)) (m : machine) : list event * machine :=
  match acts with
  | [] => ([], m)
  | (_, x) :: acts =>
      let '(es, m) := machine_do forward x m in let '(es', m) := machine_exec acts m in (es ++ es', m)
  end.

Fixpoint all_allowed (acts : list (Z * action)) (m : machine) : Prop :=
  match acts with
  | [] => True
  | (now, x) :: acts => allowed now x m ∧ all_allowed acts (snd (machine_do forward x m))
  end.

Lemma exec_run acts m es m' :
  all_allowed acts m → machine_exec acts m = (es, m') → machine_run forward acts m es m'.
Proof.
  revert m es m'. induction acts as [|[now x] acts IH]; intros m es m' Ha E; [injection E as <- <-; constructor|].
  cbn in *. destruct (machine_do forward x m) as [es1 m1] eqn:E1. destruct (machine_exec acts m1) as [es2 m2] eqn:E2.
  injection E as <- <-. destruct Ha as [Ha Hs]. by eapply run_step; [|done|apply IH].
Qed.
End computed.

(** ** The buffer cannot be seen by its own processor *)

(** Stores and loads of one processor, in program order; answers anywhere. *)
Definition plain (x : action) : bool :=
  match x with
  | Store r _ => bool_decide (getType r = ST)
  | Reply _ _ | Load _ => true
  | TryLoad _ => at_line_start x
  | Remote _ _ => false
  end.

(** Memory when every store is done at once. *)
Definition program_store (x : action) (mem : Z → Z) : Z → Z :=
  match x with Store r hit => write_bytes (getAddress r) (m_data (hit (zero_block r))) mem | _ => mem end.

Definition program_memory (acts : list (Z * action)) (mem : Z → Z) : Z → Z :=
  foldl (λ mem x, program_store x.2 mem) mem acts.

(** What the loads read then: a load that goes to the memory system is always
    answered, one that is tried against the buffer is answered or not (and then
    comes again as a load). *)
Definition program_read (r : CacheMsg) (mem : Z → Z) : event :=
  Bytes (getAddress r) (read_bytes mem (getAddress r) (Z.to_nat (getSize r))) (getType r) (getThreadID r).

Definition reads_of (x : action) (mem : Z → Z) (es : list event) : Prop :=
  match x with
  | Load r => es = [program_read r mem]
  | TryLoad r => es = [program_read r mem] ∨ es = []
  | _ => es = []
  end.

Inductive program_reads : list (Z * action) → (Z → Z) → list event → Prop :=
  | reads_done mem : program_reads [] mem []
  | reads_step now x acts mem es es' :
      reads_of x mem es → program_reads acts (program_store x mem) es' →
      program_reads ((now, x) :: acts) mem (es ++ es').

Definition of_load (e : event) : bool :=
  match e with Bytes _ _ t _ => is_read t | _ => false end.

Lemma filter_app_bool {A} (p : A → bool) l k : List.filter p (l ++ k) = List.filter p l ++ List.filter p k.
Proof. apply List.filter_app. Qed.

Lemma issue_next_no_load q : List.filter of_load (issue_next q) = [].
Proof. by destruct q. Qed.

(** One action: the view changes as program order says, and loads read it. *)
Lemma plain_step now x m es m' :
  plain x = true → (∀ w, w ∈ queue m → is_atomic_store w = false) → allowed now x m →
  machine_do load_event x m = (es, m') →
  view m' = program_store x (view m) ∧ (∀ w, w ∈ queue m' → is_atomic_store w = false) ∧
  reads_of x (view m) (List.filter of_load es).
Proof.
  intros Hp Hna Hx E. destruct x as [r hit|r hit|r|r|l d]; try done.
  - cbn in Hp, E. unfold machine_store in E. rewrite Hp in E. injection E as <- <-. split_and!.
    + unfold view. cbn. by rewrite foldl_app.
    + cbn. intros w [Hw| ->%list_elem_of_singleton]%elem_of_app; [by apply Hna|done].
    + by destruct (queue m).
  - cbn in E. unfold machine_reply in E. destruct (queue m) as [|w q] eqn:Eq; [by injection E as <- <-; rewrite Eq|].
    destruct w as [a l|a n th]; [|by specialize (Hna _ ltac:(by left))]. injection E as <- <-. split_and!.
    + unfold view. cbn. by rewrite Eq.
    + intros w Hw. apply Hna. by right.
    + apply issue_next_no_load.
  - injection E as <- <-. split_and!; [done|done|]. cbn. destruct Hx as [Hl _]. unfold of_load. cbn.
    by destruct (lo_type r Hl) as [-> | ->].
  - cbn in E. destruct Hx as [Hl _]. destruct (forallb _ _); injection E as <- <-; (split_and!; [done|done|]).
    + left. unfold load_event, program_read, of_load. cbn. by destruct (lo_type r Hl) as [-> | ->].
    + by right.
Qed.

Lemma plain_run acts m es m' :
  machine_run load_event acts m es m' → Forall (λ x, plain x.2 = true) acts →
  (∀ w, w ∈ queue m → is_atomic_store w = false) →
  program_reads acts (view m) (List.filter of_load es) ∧ view m' = program_memory acts (view m).
Proof.
  induction 1 as [m|now x acts m es es' m' m'' Hx E Hrun IH]; intros Hp Hna; [split; [constructor|done]|].
  apply Forall_cons in Hp as [Hp Hps]. destruct (plain_step now x m es m' Hp Hna Hx E) as (Ev & Hna' & Ef).
  destruct (IH Hps Hna') as [E1 E2]. rewrite filter_app_bool. rewrite Ev in *.
  split; [by constructor|by rewrite E2].
Qed.

Lemma plain_at_line_start x : plain x = true → at_line_start x = true.
Proof. by destruct x. Qed.

(** [C30] The store buffer is transparent to its own processor: in any run of
    stores, loads and answers, whenever the answers come, the loads read what
    they would read if every store were done in memory at once, also those
    answered from the buffer alone, as long as the latter are at the start of
    their line (at other addresses [doRequest] asks about the wrong bytes); and
    when the buffer has run empty the lines hold the stores in program order. *)
Theorem store_buffer_transparent `{DataConfig} (ls : Z → DataBlock) acts es m :
  DATA_BLOCK = true → (∀ l, block_ok (ls l)) →
  machine_run load_event acts (machine_init ls) es m → Forall (λ x, plain x.2 = true) acts →
  ∃ calls s, tso_run acts (tso_init ls) = Ret (calls, s) ∧
    program_reads acts (flat ls) (List.filter of_load (omap event_of calls)) ∧
    (sb_isEmpty (buffer s) = true → sc_isEmpty (m_store_cache (buffer s)) = true ∧
      ∀ a, 0 ≤ a < 2 ^ 64 → flat (lines s) a = program_memory acts (flat ls) a).
Proof.
  intros Hd Hl Hrun Hp.
  assert (Hrun' : machine_run forwarded_event acts (machine_init ls) es m).
  { apply run_at_line_start; [|done]. eapply Forall_impl; [exact Hp|]. intros x. apply plain_at_line_start. }
  destruct (simulate_run Hd _ _ _ _ _ _ (init_related ls Hl) Hrun') as (calls & s & q & E1 & E2 & Hr).
  destruct (plain_run _ _ _ _ Hrun Hp) as [E3 E4]; [intros w Hw; by apply elem_of_nil in Hw|].
  exists calls, s. split; [done|]. split; [by rewrite E2|]. intros Hempty.
  pose proof (re_buffer _ _ _ Hr) as Hsb. rewrite (is_empty_ok _ _ (sb_ring _ _ Hsb)) in Hempty.
  apply bool_decide_eq_true in Hempty as ->. split; [by apply (sc_isEmpty_ok []); [apply Hsb|]|].
  intros a Ha. rewrite <- (re_memory _ _ _ Hr a Ha). change (view (machine_init ls)) with (flat ls) in E4.
  rewrite <- E4. unfold view. by rewrite (re_queue _ _ _ Hr).
Qed.

(** ** A concrete run *)

Definition tso_config : DataConfig := mkDataConfig true false.

(** A driver that adds one to every byte. *)
Definition add_one (b : SubBlock) : SubBlock := with_data ((λ x, u8 (x + 1)) <$> m_data b) b.

Lemma add_one_ok : hit_ok add_one.
Proof.
  intros b. cbn. rewrite length_fmap. split; [done|]. split; [done|]. intros Hb. apply Forall_fmap.
  eapply Forall_impl; [exact Hb|]. intros x _. by apply Z.mod_pos_bound.
Qed.

Definition ex_request (t : CacheRequestType) (a size : Z) : CacheMsg := mkCacheMsg a t UserMode size No 0 0 1.

Definition ex_lines (l : Z) : DataBlock := replicate (Z.to_nat dataBlockBytes) 7.

(** Two stores to a line, a load between them and the first answer, an atomic
    once both are done; the second load tried against the buffer is answered
    with the wrong bytes. *)
Definition ex_acts : list (Z * action) :=
  [(1, Store (ex_request ST 64 4) add_one); (2, Load (ex_request LD 66 4)); (3, Store (ex_request ST 66 1) id);
   (4, TryLoad (ex_request LD 64 4)); (4, TryLoad (ex_request LD 72 4)); (5, Reply (ex_request ST 64 4) id);
   (6, Remote 128 (replicate (Z.to_nat dataBlockBytes) 9)); (7, Load (ex_request LD 64 4));
   (8, Reply (ex_request ST 66 1) id); (9, Store (ex_request ATOMIC 65 2) add_one);
   (10, Reply (ex_request ATOMIC 65 2) add_one); (11, Load (ex_request LD 64 4))].

Lemma ex_lines_ok l : block_ok (ex_lines l).
Proof. split; [done|]. by apply Forall_replicate. Qed.

Lemma id_hit_ok : hit_ok id.
Proof. by intros b. Qed.

Lemma ex_load_ok a size :
  (0 ≤ a < 2 ^ 64 → 0 < size → a `mod` dataBlockBytes + size ≤ dataBlockBytes → load_ok (ex_request LD a size))%Z.
Proof. intros. by split; [left|..]. Qed.

Lemma ex_store_ok t a size :
  (is_store t = true → 0 ≤ a < 2 ^ 64 → 0 < size → a `mod` dataBlockBytes + size ≤ dataBlockBytes →
   store_request_ok (ex_request t a size))%Z.
Proof. intros. by split. Qed.

Lemma no_atomic_computed l m :
  forallb (λ w, negb (is_atomic_store w && (line (place w) =? l))) (queue m) = true → no_atomic_on l m.
Proof.
  intros H w Hw Ha E. rewrite forallb_forall in H. specialize (H w (proj1 (list_elem_of_In _ _) Hw)).
  by rewrite Ha, E, Z.eqb_refl in H.
Qed.

Ltac solve_allowed :=
  repeat match goal with
  | |- _ ∧ _ => split
  | |- hit_ok add_one => apply add_one_ok
  | |- hit_ok id => apply id_hit_ok
  | |- load_ok _ => apply ex_load_ok
  | |- store_request_ok _ => apply ex_store_ok
  | |- no_atomic_on _ _ => apply no_atomic_computed
  | |- block_ok _ => split; [|apply Forall_replicate]
  | |- _ => by vm_compute
  end.

Lemma ex_allowed : all_allowed forwarded_event ex_acts (machine_init ex_lines).
Proof. unfold ex_acts. cbn [all_allowed]. repeat (split; [unfold allowed; solve_allowed|]). done. Qed.

Lemma store_buffer_refines_tso_witness :
  ∃ calls s, tso_run (H := tso_config) ex_acts (tso_init ex_lines) = Ret (calls, s) ∧
    omap event_of calls =
      [Bytes 64 [0; 0; 0; 0] ST 0; Issue 64; Bytes 66 [1; 1; 7; 7] LD 0; Bytes 66 [0] ST 0; Prefetch 66;
       Bytes 64 [1; 1; 0; 1] LD 0; Bytes 72 [0; 0; 0; 0] LD 0; Issue 66; Bytes 64 [1; 1; 0; 1] LD 0; Issue 65; Bytes 65 [1; 0] ATOMIC 0;
       Bytes 64 [1; 2; 1; 1] LD 0] ∧
    ∀ a, 0 ≤ a < 2 ^ 64 → flat (lines s) a = memory (snd (machine_exec forwarded_event ex_acts (machine_init ex_lines))) a.
Proof.
  apply (store_buffer_refines_tso (H := tso_config) ex_lines forwarded_event);
    [reflexivity|apply ex_lines_ok|by left|].
  apply exec_run; [apply ex_allowed|vm_compute; reflexivity].
Defined.

Definition ex_plain : list (Z * action) :=
  [(1, Store (ex_request ST 64 4) add_one); (2, Load (ex_request LD 66 4)); (3, Store (ex_request ST 66 1) id);
   (4, TryLoad (ex_request LD 64 4)); (5, Reply (ex_request ST 64 4) id); (6, TryLoad (ex_request LD 64 4));
   (7, Load (ex_request LD 64 4)); (8, Reply (ex_request ST 66 1) id)].

Lemma ex_plain_allowed : all_allowed load_event ex_plain (machine_init ex_lines).
Proof. unfold ex_plain. cbn [all_allowed]. repeat (split; [unfold allowed; solve_allowed|]). done. Qed.

Lemma store_buffer_transparent_witness :
  List.filter of_load (fst (machine_exec load_event ex_plain (machine_init ex_lines))) =
    [Bytes 66 [1; 1; 7; 7] LD 0; Bytes 64 [1; 1; 0; 1] LD 0; Bytes 64 [1; 1; 0; 1] LD 0] ∧
  ∃ calls s, tso_run (H := tso_config) ex_plain (tso_init ex_lines) = Ret (calls, s) ∧
    program_reads ex_plain (flat ex_lines) (List.filter of_load (omap event_of calls)) ∧
    (sb_isEmpty (buffer s) = true → sc_isEmpty (m_store_cache (buffer s)) = true ∧
      ∀ a, 0 ≤ a < 2 ^ 64 → flat (lines s) a = program_memory ex_plain (flat ex_lines) a).
Proof.
  split; [vm_compute; reflexivity|].
  apply (store_buffer_transparent (H := tso_config) ex_lines ex_plain
    (fst (machine_exec load_event ex_plain (machine_init ex_lines)))
    (snd (machine_exec load_event ex_plain (machine_init ex_lines))));
    [reflexivity|apply ex_lines_ok| |].
  - apply exec_run; [apply ex_plain_allowed|apply surjective_pairing].
  - repeat (apply Forall_cons; split; [vm_compute; reflexivity|]). by apply Forall_nil.
Defined.

(** [doRequest] asks the buffer about the first bytes of the line instead of
    the bytes of the load: a load of bytes that no store waits for is answered
    with zeros because a store to the start of the line waits. *)
Example try_store_buffer_wrong_bytes :
  let sb := snd (default ([], new_StoreBuffer)
    match insertStore (H := tso_config) 1 add_one (ex_request ST 64 4) new_StoreBuffer with Ret x => Some x | _ => None end) in
  match try_store_buffer (H := tso_config) 5 id (ex_request LD 72 4) sb with
  | Ret (found, [HitCallback b _ _], _) => found = true ∧ m_data b = [0; 0; 0; 0]
  | _ => False
  end ∧
  newest (m_subblock <$> take 1 (m_queue sb)) 72 = None ∧ ex_lines 64 !!! 8%nat = 7.
Proof. vm_compute. auto. Qed.
