(* ===== verification/PersistentTable.v ===== *)
(** * The tables of persistent requests

    [PersistentTable.C] and [NodePersistentTable.C] of
    [gems-lib/ruby_clean/system]: which components starve for a line, which of
    them were there when this component was last served (marked), and which want
    to write.  The two classes are one text over [NetDest] and over [Set]; here
    they are one definition over the interface [NodeContainer], whose laws both
    containers have. *)

From stdpp Require Import gmap sets numbers.
From S2P Require Import Prelude Address HashMap Sequencer NodeSet NetDest.
Local Open Scope Z_scope.

(** ** Sets of components *)

(** What the tables use of a set of components named by [M]: [nc_smallest] is
    [smallestElement], a number, and [nc_named] the component the tables make of
    it. *)
Class NodeContainer (C M : Type) := {
  nc_new : outcome C;
  nc_add : M → C → outcome C;
  nc_remove : M → C → outcome C;
  nc_isElement : M → C → outcome bool;
  nc_isSuperset : C → C → outcome bool;
  nc_isEmpty : C → bool;
  nc_count : C → Z;
  nc_smallest : C → outcome Z;
  nc_named : Z → M
}.

(** Its promise: the operations are those of finite sets. *)
Class NodeContainerLaws (C M : Type) `{NodeContainer C M} `{Countable M} := {
  nc_ok : C → Prop;
  nc_valid : M → Prop;
  nc_members : C → gset M;
  nc_index : M → Z;
  nc_before : M → M → Prop;
  nc_new_law : ∃ s, nc_new = Ret s ∧ nc_ok s ∧ nc_members s = ∅;
  nc_add_law m s : nc_ok s → nc_valid m →
    ∃ s', nc_add m s = Ret s' ∧ nc_ok s' ∧ nc_members s' = {[m]} ∪ nc_members s;
  nc_remove_law m s : nc_ok s → nc_valid m →
    ∃ s', nc_remove m s = Ret s' ∧ nc_ok s' ∧ nc_members s' = nc_members s ∖ {[m]};
  nc_isElement_law m s : nc_ok s → nc_valid m → nc_isElement m s = Ret (bool_decide (m ∈ nc_members s));
  nc_isSuperset_law s s' : nc_ok s → nc_ok s' → nc_isSuperset s s' = Ret (bool_decide (nc_members s' ⊆ nc_members s));
  nc_isEmpty_law s : nc_ok s → nc_isEmpty s = bool_decide (nc_members s = ∅);
  nc_count_law s : nc_ok s → nc_count s = Z.of_nat (size (nc_members s));
  nc_smallest_law s : nc_ok s → nc_members s ≠ ∅ →
    ∃ m, nc_smallest s = Ret (nc_index m) ∧ m ∈ nc_members s ∧ ∀ m', m' ∈ nc_members s → m' = m ∨ nc_before m m'
}.

Inductive AccessType := AccessType_Read | AccessType_Write.

#[export] Instance AccessType_dec : EqDecision AccessType.
Proof. solve_decision. Defined.

(** ** The table *)

Record table_entry (C : Type) := mkEntry { m_starving : C; m_marked : C; m_request_to_write : C }.
Arguments mkEntry {C} _ _ _.
Arguments m_starving {C} _.
Arguments m_marked {C} _.
Arguments m_request_to_write {C} _.

Section table.
Context `{NodeContainer C M}.
Implicit Types (t : gmap Z (table_entry C)) (address : Z).

Definition add_if_write (type : AccessType) (m : M) (s : C) : outcome C :=
  if bool_decide (type = AccessType_Write) then nc_add m s else Ret s.

Definition persistentRequestLock address (locker : M) (type : AccessType) t : outcome (gmap Z (table_entry C)) :=
  assertb (address =? line address) ;;
  if negb (map_exist address t) then
    empty ← nc_new;
    starving ← nc_add locker empty;
    write ← add_if_write type locker empty;
    Ret (map_add address (mkEntry starving empty write) t)
  else
    entry ← map_lookup address t;
    present ← nc_isElement locker (m_starving entry);
    assertb (negb present) ;;
    starving ← nc_add locker (m_starving entry);
    write ← add_if_write type locker (m_request_to_write entry);
    subset ← nc_isSuperset starving (m_marked entry);
    assertb subset ;;
    Ret (<[address := mkEntry starving (m_marked entry) write]> t).

Definition persistentRequestUnlock address (unlocker : M) t : outcome (gmap Z (table_entry C)) :=
  assertb (address =? line address) ;;
  assertb (map_exist address t) ;;
  entry ← map_lookup address t;
  present ← nc_isElement unlocker (m_starving entry);
  assertb present ;;
  subset ← nc_isSuperset (m_starving entry) (m_marked entry);
  assertb subset ;;
  starving ← nc_remove unlocker (m_starving entry);
  marked ← nc_remove unlocker (m_marked entry);
  write ← nc_remove unlocker (m_request_to_write entry);
  subset ← nc_isSuperset starving marked;
  assertb subset ;;
  let t := <[address := mkEntry starving marked write]> t in
  if nc_isEmpty starving then
    assertb (nc_isEmpty marked) ;;
    map_erase address t
  else Ret t.

Definition markEntries address t : outcome (gmap Z (table_entry C)) :=
  assertb (address =? line address) ;;
  if map_exist address t then
    entry ← map_lookup address t;
    assertb (nc_isEmpty (m_marked entry)) ;;
    Ret (<[address := mkEntry (m_starving entry) (m_starving entry) (m_request_to_write entry)]> t)
  else Ret t.

(** [self] is the component that owns the table. *)
Definition okToIssueStarving (self : M) address t : outcome bool :=
  assertb (address =? line address) ;;
  if negb (map_exist address t) then Ret true
  else
    entry ← map_lookup address t;
    present ← nc_isElement self (m_starving entry);
    if (present : bool) then Ret false
    else entry ← map_lookup address t; Ret (nc_isEmpty (m_marked entry)).

Definition findSmallest address t : outcome M :=
  assertb (address =? line address) ;;
  assertb (map_exist address t) ;;
  entry ← map_lookup address t;
  i ← nc_smallest (m_starving entry);
  Ret (nc_named i).

Definition typeOfSmallest address t : outcome AccessType :=
  assertb (address =? line address) ;;
  assertb (map_exist address t) ;;
  entry ← map_lookup address t;
  i ← nc_smallest (m_starving entry);
  write ← nc_isElement (nc_named i) (m_request_to_write entry);
  Ret (if (write : bool) then AccessType_Write else AccessType_Read).

Definition isLocked address t : outcome bool :=
  assertb (address =? line address) ;; Ret (map_exist address t).

Definition countStarvingForAddress address t : outcome Z :=
  if map_exist address t then entry ← map_lookup address t; Ret (nc_count (m_starving entry)) else Ret 0.

Definition countReadStarvingForAddress address t : outcome Z :=
  if map_exist address t then
    entry ← map_lookup address t; Ret (nc_count (m_starving entry) - nc_count (m_request_to_write entry))
  else Ret 0.
End table.

(** ** The two classes *)

(** [RubyConfig::numberOfChips()], and the number of components of each type. *)
Class ChipCount := numberOfChips : Z.
Class MachineCounts := machine_counts : list Z.

(** The number of the machine type [MachineType_L1Cache] in the enumeration of
    the protocol. *)
Class L1Type := MachineType_L1Cache : nat.

(** [NodePersistentTable]: sets of nodes. *)
#[export] Instance node_container `{ChipCount} : NodeContainer NodeSet Z := {|
  nc_new := new_Set numberOfChips;
  nc_add := NodeSet.add;
  nc_remove := NodeSet.remove;
  nc_isElement := NodeSet.isElement;
  nc_isSuperset := NodeSet.isSuperset;
  nc_isEmpty := NodeSet.isEmpty;
  nc_count := NodeSet.count;
  nc_smallest := NodeSet.smallestElement;
  nc_named := id
|}.

(** [PersistentTable]: sets of components; the smallest element is taken for an
    L1 cache. *)
#[export] Instance machine_container `{MachineCounts} `{L1Type} : NodeContainer (list NodeSet) MachineID := {|
  nc_new := Ret (new_NetDest machine_counts);
  nc_add := NetDest.add machine_counts;
  nc_remove := NetDest.remove machine_counts;
  nc_isElement := NetDest.isElement machine_counts;
  nc_isSuperset := NetDest.isSuperset;
  nc_isEmpty := NetDest.isEmpty;
  nc_count := NetDest.count;
  nc_smallest := NetDest.smallestElement;
  nc_named j := (MachineType_L1Cache, j)
|}.

(** The numbering [NodePersistentTable] sends nodes through, sixteen of them. *)
Definition persistent_randomize : list Z := [0; 1; 2; 3; 4; 5; 6; 7; 8; 9; 10; 11; 12; 13; 14; 15].

Section node_table.
Context `{ChipCount}.
Implicit Types (t : gmap Z (table_entry NodeSet)).

Definition node_lock (address llocker : Z) (type : AccessType) t : outcome (gmap Z (table_entry NodeSet)) :=
  locker ← at_int persistent_randomize llocker; persistentRequestLock address locker type t.

Definition node_unlock (address uunlocker : Z) t : outcome (gmap Z (table_entry NodeSet)) :=
  unlocker ← at_int persistent_randomize uunlocker; persistentRequestUnlock address unlocker t.

Definition node_findSmallest (address : Z) t : outcome Z :=
  i ← findSmallest address t; at_int persistent_randomize i.
End node_table.

(** [PersistentTable::okToIssueStarving], with the cache's own version. *)
Definition machine_okToIssue `{MachineCounts} `{L1Type} (m_version address : Z) (t : gmap Z (table_entry (list NodeSet)))
    : outcome bool :=
  okToIssueStarving (MachineType_L1Cache, m_version) address t.

(** ** The containers have the laws *)

(** A configuration with fewer than [2 ^ 31] chips or components. *)
Class ChipsOk `{ChipCount} := chips_ok : 0 < numberOfChips < 2 ^ 31.
Class MachinesOk `{MachineCounts} := machines_ok : counts_ok machine_counts ∧ zsum id machine_counts < 2 ^ 31.

#[export] Instance node_laws `{ChipsOk} : NodeContainerLaws NodeSet Z.
Proof.
  refine {| nc_ok s := set_ok s ∧ m_nSize s = numberOfChips; nc_valid i := 0 ≤ i < numberOfChips; nc_members := members;
    nc_index := id; nc_before := Z.lt |}.
  - pose proof chips_ok. exists (setSize numberOfChips). cbn. unfold new_Set. rewrite (proj2 (Z.ltb_lt _ _)) by lia.
    destruct (setSize_spec numberOfChips) as [? ?]; [lia|]. done.
  - intros i s [Hs Hn] Hi. destruct (set_add_spec s i Hs) as (s' & E1 & E2 & E3 & E4); [lia|].
    exists s'. split_and!; [done|done|lia|done].
  - intros i s [Hs Hn] Hi. destruct (set_remove_spec s i Hs) as (s' & E1 & E2 & E3 & E4); [lia|].
    exists s'. split_and!; [done|done|lia|done].
  - intros i s [Hs Hn] Hi. apply set_isElement_spec; [done|lia].
  - intros s s' [Hs Hn] [Hs' Hn']. apply set_isSuperset_spec; (done || lia).
  - intros s [Hs _]. by apply set_isEmpty_spec.
  - intros s [Hs _]. by apply set_count_spec.
  - intros s [Hs _] Hne. destruct (smallestElement_spec s Hs) as [[? _]|(i & Ei & Hi & Hmin)]; [done|].
    exists i. split_and!; [done|done|]. intros j Hj. specialize (Hmin j Hj). destruct (decide (j = i)); [by left|right; lia].
Defined.

#[export] Instance machine_laws `{MachinesOk} `{L1Type} : NodeContainerLaws (list NodeSet) MachineID.
Proof.
  refine {| nc_ok := dest_ok machine_counts; nc_valid := valid machine_counts; nc_members := dests;
    nc_index := snd; nc_before := before |}.
  - eexists. split; [done|]. apply new_spec, machines_ok.
  - intros m s Hs Hm. by apply add_spec.
  - intros m s Hs Hm. by apply remove_spec.
  - intros m s Hs Hm. by apply isElement_spec.
  - intros s s' Hs Hs'. apply (isSuperset_spec machine_counts); (done || apply machines_ok).
  - intros s Hs. by apply (isEmpty_spec machine_counts).
  - intros s Hs. by apply (count_spec machine_counts); [apply machines_ok..|].
  - intros s Hs Hne. by apply (net_smallestElement_spec machine_counts); [apply machines_ok..| |].
Defined.
