(* ===== verification/PersistentSpec.v ===== *)
(** * What the tables of persistent requests promise

    The table as a map from lines to the starving, the marked and the writing
    components; the refinement, with the assertions exactly where the map has no
    answer; and the purpose of the marks: a component that has been served lets
    every component that was waiting then go first. *)

From stdpp Require Import gmap sets numbers.
From S2P Require Import Prelude Address HashMap Sequencer NodeSet NetDest PersistentTable.
Local Open Scope Z_scope.

(** ** The specification *)

Section specification.
Context `{Countable M}.

Record holders := mkHolders { starving : gset M; marked : gset M; writers : gset M }.

Inductive table_op :=
  | Lock (address : Z) (m : M) (type : AccessType)
  | Unlock (address : Z) (m : M)
  | Mark (address : Z).

Definition op_address (x : table_op) : Z := match x with Lock a _ _ | Unlock a _ | Mark a => a end.

Implicit Types (A : gmap Z holders).

Definition if_write (type : AccessType) (m : M) (X : gset M) : gset M :=
  if bool_decide (type = AccessType_Write) then {[m]} ∪ X else X.

(** [None]: the operation is refused. *)
Definition spec_do (x : table_op) A : option (gmap Z holders) :=
  match x with
  | Lock a m type =>
      match A !! a with
      | None => Some (<[a := mkHolders {[m]} ∅ (if_write type m ∅)]> A)
      | Some h =>
          if decide (m ∈ starving h) then None
          else Some (<[a := mkHolders ({[m]} ∪ starving h) (marked h) (if_write type m (writers h))]> A)
      end
  | Unlock a m =>
      match A !! a with
      | None => None
      | Some h =>
          if decide (m ∈ starving h) then
            let rest := starving h ∖ {[m]} in
            Some (if decide (rest = ∅) then delete a A
                  else <[a := mkHolders rest (marked h ∖ {[m]}) (writers h ∖ {[m]})]> A)
          else None
      end
  | Mark a =>
      match A !! a with
      | None => Some A
      | Some h =>
          if decide (marked h = ∅) then Some (<[a := mkHolders (starving h) (starving h) (writers h)]> A) else None
      end
  end.

Definition spec_okToIssue (self : M) (a : Z) A : bool :=
  match A !! a with
  | None => true
  | Some h => negb (bool_decide (self ∈ starving h)) && bool_decide (marked h = ∅)
  end.

(** Someone starves for every line of the table, and only they are marked or
    want to write. *)
Record holders_ok (h : holders) : Prop := {
  ho_starving : starving h ≠ ∅;
  ho_marked : marked h ⊆ starving h;
  ho_writers : writers h ⊆ starving h
}.

Definition spec_ok A : Prop := map_Forall (λ _, holders_ok) A.

Lemma if_write_subset type m (X Y : gset M) : X ⊆ Y → if_write type m X ⊆ {[m]} ∪ Y.
Proof. unfold if_write. case_bool_decide; set_solver. Qed.

Lemma spec_do_ok x A A' : spec_ok A → spec_do x A = Some A' → spec_ok A'.
Proof.
  intros HA. destruct x as [a m type|a m|a]; cbn; destruct (A !! a) as [h|] eqn:Eh; try done;
    repeat case_decide; intros [= <-]; try (by apply map_Forall_delete); try done;
    try (apply map_Forall_insert_2; [|done]); try destruct (HA a h Eh) as [P1 P2 P3].
  - pose proof (if_write_subset type m (writers h) (starving h) P3). split; cbn; [set_solver|set_solver|done].
  - pose proof (if_write_subset type m ∅ ∅ ltac:(done)). split; cbn; set_solver.
  - split; cbn; [done|set_solver|set_solver].
  - split; cbn; set_solver.
Qed.

(** ** Who waits after a sequence of operations *)

Fixpoint spec_run (xs : list table_op) A : option (gmap Z holders) :=
  match xs with
  | [] => Some A
  | x :: xs => match spec_do x A with Some A => spec_run xs A | None => None end
  end.

Definition starving_at (a : Z) A : gset M := match A !! a with Some h => starving h | None => ∅ end.
Definition marked_at (a : Z) A : gset M := match A !! a with Some h => marked h | None => ∅ end.

(** The components a sequence unlocks at a line. *)
Definition unlocked (a : Z) (xs : list table_op) : gset M :=
  list_to_set (omap (λ x, match x with Unlock b m => if decide (b = a) then Some m else None | _ => None end) xs).

Lemma unlocked_cons a x xs :
  unlocked a (x :: xs) =
    match x with Unlock b m => if decide (b = a) then {[m]} ∪ unlocked a xs else unlocked a xs | _ => unlocked a xs end.
Proof. unfold unlocked. destruct x as [b m type|b m|b]; cbn; try done. by destruct (decide (b = a)). Qed.

(** Between two marks of a line the marked components are those not unlocked. *)
Lemma marked_step a x A A' :
  spec_ok A → spec_do x A = Some A' → x ≠ Mark a →
  marked_at a A' = marked_at a A ∖ unlocked a [x].
Proof.
  intros HA E Hx. unfold marked_at. rewrite unlocked_cons. change (unlocked a []) with (∅ : gset M).
  destruct x as [b m type|b m|b]; cbn in E.
  - rewrite difference_empty_L. assert (∃ h', A' = <[b := h']> A ∧ marked h' = match A !! b with Some h => marked h | None => ∅ end)
      as (h' & -> & Eh').
    { destruct (A !! b) as [h|]; [case_decide; [done|]|]; injection E as <-; by eexists. }
    destruct (decide (a = b)) as [->|]; [by rewrite lookup_insert_eq|by rewrite lookup_insert_ne by done].
  - destruct (A !! b) as [h|] eqn:Eh; [|done]. case_decide as Hm; [|done]. injection E as <-.
    destruct (decide (b = a)) as [->|Hba].
    + rewrite Eh, union_empty_r_L. destruct (HA a h Eh) as [P1 P2 P3]. case_decide as Hr.
      * rewrite lookup_delete_eq. set_solver.
      * by rewrite lookup_insert_eq.
    + rewrite difference_empty_L. case_decide; [by rewrite lookup_delete_ne|by rewrite lookup_insert_ne].
  - rewrite difference_empty_L. assert (a ≠ b) by congruence.
    destruct (A !! b) as [h|]; [|by injection E as <-]. case_decide; [|done]. injection E as <-. by rewrite lookup_insert_ne.
Qed.

Lemma marked_run a xs : ∀ A A',
  spec_ok A → spec_run xs A = Some A' → Mark a ∉ xs → marked_at a A' = marked_at a A ∖ unlocked a xs.
Proof.
  induction xs as [|x xs IH]; intros A A' HA E Hm; cbn in E.
  - injection E as <-. change (unlocked a []) with (∅ : gset M). by rewrite difference_empty_L.
  - destruct (spec_do x A) as [A1|] eqn:E1; [|done]. apply not_elem_of_cons in Hm as [Hx Hm].
    rewrite (IH A1 A') by (done || by eapply spec_do_ok). rewrite (marked_step a x A A1) by (done || congruence).
    rewrite !unlocked_cons. change (unlocked a []) with (∅ : gset M). generalize (marked_at a A), (unlocked a xs). clear.
    intros X U. destruct x as [b m type|b m|b]; [|destruct (decide (b = a))|]; set_solver.
Qed.

(** After a mark. *)
Lemma mark_marks a A A' : spec_do (Mark a) A = Some A' → marked_at a A' = starving_at a A ∧ starving_at a A' = starving_at a A.
Proof.
  unfold marked_at, starving_at. cbn. destruct (A !! a) as [h|] eqn:Eh.
  - case_decide; [|done]. intros [= <-]. by rewrite lookup_insert_eq.
  - intros [= <-]. by rewrite Eh.
Qed.

Lemma okToIssue_sets self a A :
  spec_okToIssue self a A = true ↔ self ∉ starving_at a A ∧ marked_at a A = ∅.
Proof.
  unfold spec_okToIssue, starving_at, marked_at. destruct (A !! a) as [h|]; [|set_solver].
  rewrite andb_true_iff, negb_true_iff, bool_decide_eq_false, bool_decide_eq_true. done.
Qed.
End specification.
Arguments holders M {_ _} : rename.
Arguments table_op M : clear implicits.

(** ** The table implements it *)

Section refinement.
Context `{NodeContainerLaws C M}.
Implicit Types (t : gmap Z (table_entry C)).

Definition table_do (x : table_op M) t : outcome (gmap Z (table_entry C)) :=
  match x with
  | Lock a m type => persistentRequestLock a m type t
  | Unlock a m => persistentRequestUnlock a m t
  | Mark a => markEntries a t
  end.

Fixpoint table_run (xs : list (table_op M)) t : outcome (gmap Z (table_entry C)) :=
  match xs with [] => Ret t | x :: xs => t ← table_do x t; table_run xs t end.

(** The protocol's part: addresses of lines, components that exist. *)
Definition op_ok (x : table_op M) : Prop :=
  op_address x = line (op_address x) ∧ match x with Lock _ m _ | Unlock _ m => nc_valid m | Mark _ => True end.

Record entry_good (e : table_entry C) : Prop := {
  eg_starving : nc_ok (m_starving e);
  eg_marked : nc_ok (m_marked e);
  eg_write : nc_ok (m_request_to_write e)
}.

Definition abs_entry (e : table_entry C) : holders M :=
  mkHolders (nc_members (m_starving e)) (nc_members (m_marked e)) (nc_members (m_request_to_write e)).

Definition abs t : gmap Z (holders M) := abs_entry <$> t.

Record table_ok t : Prop := {
  to_entries : map_Forall (λ _, entry_good) t;
  to_spec : spec_ok (abs t)
}.

Lemma abs_lookup t a : abs t !! a = abs_entry <$> t !! a.
Proof. apply lookup_fmap. Qed.

Lemma abs_insert t a e : abs (<[a := e]> t) = <[a := abs_entry e]> (abs t).
Proof. apply fmap_insert. Qed.

Lemma empty_ok : table_ok ∅.
Proof. split; [apply map_Forall_empty|]. unfold abs. rewrite fmap_empty. apply map_Forall_empty. Qed.

(** What an operation must show. *)
Definition implements (r : outcome (gmap Z (table_entry C))) (A : option (gmap Z (holders M))) : Prop :=
  match A with
  | Some A => ∃ t, r = Ret t ∧ table_ok t ∧ abs t = A
  | None => r = Raise AssertFailed
  end.

Lemma implements_intro t e a A h x :
  spec_ok A → map_Forall (λ _, entry_good) t → entry_good e → abs_entry e = h → abs t = A →
  spec_do x A = Some (<[a := h]> A) → implements (Ret (<[a := e]> t)) (Some (<[a := h]> A)).
Proof.
  intros HA Ht He <- <- Hx. eexists. split; [done|]. rewrite abs_insert. split; [|done].
  split; [by apply map_Forall_insert_2|]. rewrite abs_insert. by eapply spec_do_ok.
Qed.

Lemma add_if_write_ok type m s :
  nc_ok s → nc_valid m →
  ∃ s', add_if_write type m s = Ret s' ∧ nc_ok s' ∧ nc_members s' = if_write type m (nc_members s).
Proof.
  intros Hs Hm. unfold add_if_write, if_write. case_bool_decide; [by apply nc_add_law|by exists s].
Qed.

Lemma lock_implements a m type t :
  table_ok t → op_ok (Lock a m type) → implements (persistentRequestLock a m type t) (spec_do (Lock a m type) (abs t)).
Proof.
  intros [Ht HA] [Ea Hm]. cbn in Ea, Hm. pose proof (abs_lookup t a) as El.
  pose proof (implements_intro t) as Hi. specialize (λ e a h, Hi e a (abs t) h (Lock a m type) HA Ht).
  unfold persistentRequestLock. rewrite (proj2 (Z.eqb_eq _ _) Ea). cbn [assertb mbind outcome_bind spec_do] in *.
  destruct (t !! a) as [e|] eqn:Ee; cbn [fmap option_fmap option_map] in El; rewrite El in *.
  - rewrite (map_exist_Some _ _ _ Ee), (map_lookup_Some _ _ _ Ee). cbn [negb mbind outcome_bind].
    destruct (Ht a e Ee) as [G1 G2 G3]. rewrite nc_isElement_law by done. cbn [mbind outcome_bind].
    cbn [abs_entry starving] in *. case_decide as Hin; [by rewrite bool_decide_eq_true_2|].
    rewrite bool_decide_eq_false_2 by done. cbn [negb assertb mbind outcome_bind].
    destruct (nc_add_law m _ G1 Hm) as (s' & -> & S1 & S2). cbn [mbind outcome_bind].
    destruct (add_if_write_ok type m _ G3 Hm) as (w' & -> & W1 & W2). cbn [mbind outcome_bind].
    rewrite nc_isSuperset_law by done. cbn [mbind outcome_bind]. rewrite bool_decide_eq_true_2.
    2: { rewrite S2. pose proof (ho_marked _ (HA a _ El)). cbn in *. set_solver. }
    cbn [assertb mbind outcome_bind]. apply (Hi _ a); [by split| |done|by rewrite El; cbn; rewrite decide_False].
    unfold abs_entry. cbn. by rewrite S2, W2.
  - rewrite (map_exist_None _ _ Ee). cbn [negb]. destruct nc_new_law as (s0 & -> & O1 & O2). cbn [mbind outcome_bind].
    destruct (nc_add_law m _ O1 Hm) as (s' & -> & S1 & S2). cbn [mbind outcome_bind].
    destruct (add_if_write_ok type m _ O1 Hm) as (w' & -> & W1 & W2). cbn [mbind outcome_bind].
    unfold map_add. apply (Hi _ a); [by split| |done|by rewrite El].
    unfold abs_entry. cbn. by rewrite S2, W2, O2, union_empty_r_L.
Qed.

Lemma mark_implements a t :
  table_ok t → op_ok (Mark a) → implements (markEntries a t) (spec_do (Mark a) (abs t)).
Proof.
  intros [Ht HA] [Ea _]. cbn in Ea. pose proof (abs_lookup t a) as El.
  pose proof (implements_intro t) as Hi. specialize (λ e a h, Hi e a (abs t) h (Mark a) HA Ht).
  unfold markEntries. rewrite (proj2 (Z.eqb_eq _ _) Ea). cbn [assertb mbind outcome_bind spec_do] in *.
  destruct (t !! a) as [e|] eqn:Ee; cbn [fmap option_fmap option_map] in El; rewrite El in *.
  - rewrite (map_exist_Some _ _ _ Ee), (map_lookup_Some _ _ _ Ee). cbn [mbind outcome_bind].
    destruct (Ht a e Ee) as [G1 G2 G3]. rewrite nc_isEmpty_law by done. cbn [abs_entry marked] in *.
    case_decide as Hm; [|by rewrite bool_decide_eq_false_2]. rewrite bool_decide_eq_true_2 by done.
    cbn [assertb mbind outcome_bind]. apply (Hi _ a); [by split|done|done|by rewrite El; cbn; rewrite decide_True].
  - rewrite (map_exist_None _ _ Ee). exists t. split; [done|]. split; [by split|done].
Qed.

Lemma unlock_implements a m t :
  table_ok t → op_ok (Unlock a m) → implements (persistentRequestUnlock a m t) (spec_do (Unlock a m) (abs t)).
Proof.
  intros [Ht HA] [Ea Hm]. cbn in Ea, Hm. pose proof (abs_lookup t a) as El.
  pose proof (implements_intro t) as Hi. specialize (λ e a h, Hi e a (abs t) h (Unlock a m) HA Ht).
  unfold persistentRequestUnlock. rewrite (proj2 (Z.eqb_eq _ _) Ea). cbn [assertb mbind outcome_bind spec_do] in *.
  destruct (t !! a) as [e|] eqn:Ee; cbn [fmap option_fmap option_map] in El; rewrite El in *;
    [|by rewrite (map_exist_None _ _ Ee)].
  rewrite (map_exist_Some _ _ _ Ee), (map_lookup_Some _ _ _ Ee). cbn [assertb mbind outcome_bind].
  destruct (Ht a e Ee) as [G1 G2 G3]. destruct (HA a _ El) as [P1 P2 P3].
  rewrite nc_isElement_law by done. cbn [mbind outcome_bind]. cbn [abs_entry starving marked writers] in *.
  destruct (decide (m ∈ nc_members (m_starving e))) as [Hin|Hin]; [|by rewrite bool_decide_eq_false_2].
  rewrite bool_decide_eq_true_2 by done. cbn [assertb mbind outcome_bind].
  rewrite nc_isSuperset_law, bool_decide_eq_true_2 by done. cbn [assertb mbind outcome_bind].
  destruct (nc_remove_law m _ G1 Hm) as (s' & -> & S1 & S2). cbn [mbind outcome_bind].
  destruct (nc_remove_law m _ G2 Hm) as (k' & -> & K1 & K2). cbn [mbind outcome_bind].
  destruct (nc_remove_law m _ G3 Hm) as (w' & -> & W1 & W2). cbn [mbind outcome_bind].
  rewrite nc_isSuperset_law, S2, K2 by done. cbn [mbind outcome_bind]. rewrite bool_decide_eq_true_2 by set_solver.
  cbn [assertb mbind outcome_bind]. rewrite !nc_isEmpty_law, S2, K2 by done.
  destruct (decide (nc_members (m_starving e) ∖ {[m]} = ∅)) as [E0|E0].
  - rewrite !bool_decide_eq_true_2 by set_solver. cbn [assertb mbind outcome_bind].
    rewrite (map_erase_Some _ _ _ (lookup_insert_eq _ _ _)), delete_insert_eq. exists (delete a t). split; [done|].
    assert (Ed : abs (delete a t) = delete a (abs t)) by apply fmap_delete.
    split; [|done]. split; [by apply map_Forall_delete|]. rewrite Ed. by apply map_Forall_delete.
  - rewrite bool_decide_eq_false_2 by done. apply (Hi _ a); [by split| |done|].
    + unfold abs_entry. cbn. by rewrite S2, K2, W2.
    + by rewrite El; cbn; rewrite decide_True, decide_False.
Qed.

Lemma table_implements x t : table_ok t → op_ok x → implements (table_do x t) (spec_do x (abs t)).
Proof.
  intros Ht Hx. destruct x; [by apply lock_implements|by apply unlock_implements|by apply mark_implements].
Qed.

Lemma table_run_implements xs t :
  table_ok t → Forall op_ok xs → implements (table_run xs t) (spec_run xs (abs t)).
Proof.
  revert t. induction xs as [|x xs IH]; intros t Ht Hxs; [by exists t|]. apply Forall_cons in Hxs as [Hx Hxs].
  cbn. pose proof (table_implements x t Ht Hx) as Hi. destruct (spec_do x (abs t)) as [A|].
  - destruct Hi as (t' & -> & Ht' & <-). cbn. by apply IH.
  - cbn in Hi. by rewrite Hi.
Qed.

(** The questions a controller asks. *)
Lemma okToIssue_spec self a t :
  table_ok t → a = line a → nc_valid self → okToIssueStarving self a t = Ret (spec_okToIssue self a (abs t)).
Proof.
  intros [Ht HA] Ea Hs. unfold okToIssueStarving, spec_okToIssue. rewrite <- Ea, Z.eqb_refl.
  cbn [assertb mbind outcome_bind]. rewrite abs_lookup. destruct (t !! a) as [e|] eqn:Ee.
  - rewrite (map_exist_Some _ _ _ Ee), (map_lookup_Some _ _ _ Ee). cbn [negb mbind outcome_bind].
    destruct (Ht a e Ee) as [G1 G2 G3]. rewrite nc_isElement_law, nc_isEmpty_law by done. cbn.
    by case_bool_decide.
  - by rewrite (map_exist_None _ _ Ee).
Qed.

Lemma isLocked_spec a t : a = line a → isLocked a t = Ret (bool_decide (is_Some (abs t !! a))).
Proof.
  intros Ea. unfold isLocked. rewrite <- Ea, Z.eqb_refl. cbn. f_equal. unfold map_exist. apply bool_decide_ext.
  by rewrite abs_lookup, fmap_is_Some.
Qed.

Lemma counts_spec a t :
  table_ok t →
  countStarvingForAddress a t = Ret (Z.of_nat (size (starving_at a (abs t)))) ∧
  countReadStarvingForAddress a t = Ret (match abs t !! a with
    | Some h => Z.of_nat (size (starving h ∖ writers h)) | None => 0 end).
Proof.
  intros [Ht HA]. unfold countStarvingForAddress, countReadStarvingForAddress, starving_at.
  pose proof (abs_lookup t a) as El. rewrite El. destruct (t !! a) as [e|] eqn:Ee.
  - rewrite (map_exist_Some _ _ _ Ee), (map_lookup_Some _ _ _ Ee). cbn [mbind outcome_bind fmap option_fmap option_map].
    destruct (Ht a e Ee) as [G1 G2 G3]. rewrite !nc_count_law by done. split; [done|]. f_equal. cbn.
    pose proof (ho_writers _ (HA a _ El)) as Hw. cbn in Hw. rewrite (size_difference _ _ Hw).
    pose proof (subseteq_size _ _ Hw). lia.
  - by rewrite (map_exist_None _ _ Ee).
Qed.
(** [findSmallest] and [typeOfSmallest] take the number of the first component
    that starves and make a component of it. *)
Definition smallest_answers (a : Z) (t : gmap Z (table_entry C)) (A : gmap Z (holders M)) : Prop :=
  match A !! a with
  | None => findSmallest a t = Raise AssertFailed ∧ typeOfSmallest a t = Raise AssertFailed
  | Some h =>
      ∃ m, m ∈ starving h ∧ (∀ m', m' ∈ starving h → m' = m ∨ nc_before m m') ∧
        findSmallest a t = Ret (nc_named (nc_index m)) ∧
        (nc_valid (nc_named (nc_index m)) →
         typeOfSmallest a t = Ret (if decide (nc_named (nc_index m) ∈ writers h) then AccessType_Write else AccessType_Read))
  end.

Lemma smallest_spec a t : table_ok t → a = line a → smallest_answers a t (abs t).
Proof.
  intros [Ht HA] Ea. unfold smallest_answers, findSmallest, typeOfSmallest. rewrite <- Ea, Z.eqb_refl. cbn [assertb mbind outcome_bind].
  pose proof (abs_lookup t a) as El. rewrite El. destruct (t !! a) as [e|] eqn:Ee; [|by rewrite (map_exist_None _ _ Ee)].
  rewrite (map_exist_Some _ _ _ Ee), (map_lookup_Some _ _ _ Ee). cbn [assertb mbind outcome_bind fmap option_fmap option_map].
  destruct (Ht a e Ee) as [G1 G2 G3]. pose proof (ho_starving _ (HA a _ El)) as Hne.
  destruct (nc_smallest_law _ G1 Hne) as (m & -> & Hm & Hmin). cbn [mbind outcome_bind]. exists m. split_and!; [done..|].
  intros Hv. rewrite nc_isElement_law by done. cbn [mbind outcome_bind]. f_equal. cbn. by do 2 case_match; repeat case_bool_decide.
Qed.
End refinement.

(** ** The theorems *)

(** [C10] The table of persistent requests implements the map from lines to the
    starving, marked and writing components, over either container: a sequence
    of locks, unlocks and marks fails an assertion exactly when the map refuses
    it (a second lock, an unlock without a lock, a mark while one is marked),
    and after it the questions whether a line is locked, whether a component may
    issue and how many starve are answered as the map does.  [findSmallest] and
    [typeOfSmallest] speak of the component that the number of the first starving
    one stands for: that component itself among nodes, but among components of all
    types the first-level cache of that number, whatever starves. *)
Theorem persistent_table_refines `{NodeContainerLaws C M} (xs : list (table_op M)) :
  Forall op_ok xs →
  match spec_run xs ∅ with
  | Some A =>
      ∃ t : gmap Z (table_entry C), table_run xs ∅ = Ret t ∧ spec_ok A ∧
        ∀ a, a = line a →
          isLocked a t = Ret (bool_decide (is_Some (A !! a))) ∧
          (∀ self, nc_valid self → okToIssueStarving self a t = Ret (spec_okToIssue self a A)) ∧
          countStarvingForAddress a t = Ret (Z.of_nat (size (starving_at a A))) ∧
          countReadStarvingForAddress a t =
            Ret (match A !! a with Some h => Z.of_nat (size (starving h ∖ writers h)) | None => 0 end) ∧
          smallest_answers a t A
  | None => table_run xs (∅ : gmap Z (table_entry C)) = Raise AssertFailed
  end.
Proof.
  intros Hxs. pose proof (table_run_implements xs ∅ empty_ok Hxs) as Hi.
  assert (E0 : abs (∅ : gmap Z (table_entry C)) = ∅) by apply fmap_empty. rewrite E0 in Hi.
  destruct (spec_run xs ∅) as [A|]; [|done]. destruct Hi as (t & E & Ht & <-). exists t.
  split; [done|]. split; [apply Ht|]. intros a Ea. split; [by apply isLocked_spec|].
  split; [intros self Hs; by apply okToIssue_spec|].
  destruct (counts_spec a t Ht). split_and!; [done..|by apply smallest_spec].
Qed.

(** [C31] No component overtakes those that waited when it was served: once it
    has marked the entries of a line, and until it marks again, it may issue a
    new persistent request for the line exactly when every component that
    starved at the mark has unlocked since, and it does not starve itself. *)
Theorem persistent_no_overtaking `{NodeContainerLaws C M} (t t1 t2 : gmap Z (table_entry C)) a self ys :
  table_ok t → a = line a → nc_valid self → Forall op_ok ys → Mark a ∉ ys →
  markEntries a t = Ret t1 → table_run ys t1 = Ret t2 →
  okToIssueStarving self a t2 = Ret true ↔
    starving_at a (abs t) ⊆ unlocked a ys ∧ self ∉ starving_at a (abs t2).
Proof.
  intros Ht Ea Hs Hys Hm E1 E2.
  pose proof (mark_implements a t Ht (conj Ea I)) as Hi. unfold implements in Hi. rewrite E1 in Hi.
  destruct (spec_do (Mark a) (abs t)) as [A1|] eqn:Es; [|done]. destruct Hi as (t1' & [= <-] & Ht1 & <-).
  destruct (mark_marks a _ _ Es) as [Em _].
  pose proof (table_run_implements ys t1 Ht1 Hys) as Hi. unfold implements in Hi. rewrite E2 in Hi.
  destruct (spec_run ys (abs t1)) as [A2|] eqn:Er; [|done]. destruct Hi as (t2' & [= <-] & Ht2 & <-).
  pose proof (marked_run a ys _ _ (to_spec _ Ht1) Er Hm) as Emr.
  rewrite okToIssue_spec by done. rewrite Em in Emr.
  assert (Hb : ∀ b : bool, Ret b = Ret true ↔ b = true) by (intros b; split; congruence).
  rewrite Hb, okToIssue_sets, Emr. clear. split.
  - intros [Hself Hsub]. split; [|done]. intros x Hx. destruct (decide (x ∈ unlocked a ys)); [done|]. set_solver.
  - intros [Hsub Hself]. split; [done|]. set_solver.
Qed.

(** ** The two classes *)

(** [NodePersistentTable] is the table over [Set] for at most sixteen nodes,
    whose numbers [persistent_randomize] leaves as they are; the node with
    number sixteen runs past the end of the array. *)
Lemma node_table_ok `{ChipCount} a i type (t : gmap Z (table_entry NodeSet)) :
  0 ≤ i < 16 →
  node_lock a i type t = persistentRequestLock a i type t ∧ node_unlock a i t = persistentRequestUnlock a i t.
Proof.
  intros Hi. assert (E : at_int persistent_randomize i = Ret i).
  { rewrite <- (Z2Nat.id i) by lia. assert (Hn : (Z.to_nat i < 16)%nat) by lia. revert Hn.
    generalize (Z.to_nat i). clear. intros n Hn. do 16 (destruct n as [|n]; [done|]). lia. }
  unfold node_lock, node_unlock. by rewrite E.
Qed.

Lemma node_table_16 `{ChipCount} a type (t : gmap Z (table_entry NodeSet)) :
  node_lock a 16 type t = Raise OutOfBounds ∧ node_unlock a 16 t = Raise OutOfBounds.
Proof. done. Qed.

(** [findSmallest] of the nodes names the starving node with the least number. *)
Lemma node_findSmallest_ok `{ChipsOk} a (t : gmap Z (table_entry NodeSet)) :
  table_ok t → a = line a → starving_at a (abs t) ≠ ∅ →
  ∃ i, findSmallest a t = Ret i ∧ i ∈ starving_at a (abs t) ∧ ∀ j, j ∈ starving_at a (abs t) → i ≤ j.
Proof.
  intros [Ht _] Ea Hne. unfold findSmallest. rewrite <- Ea, Z.eqb_refl. cbn [assertb mbind outcome_bind].
  unfold starving_at in *. rewrite abs_lookup in *. destruct (t !! a) as [e|] eqn:Ee; [|done].
  rewrite (map_exist_Some _ _ _ Ee), (map_lookup_Some _ _ _ Ee). cbn [assertb mbind outcome_bind fmap option_fmap option_map] in *.
  destruct (Ht a e Ee) as [[G1 _] _ _]. cbn in *.
  destruct (smallestElement_spec _ G1) as [[E _]|(i & -> & Hi & Hmin)]; [done|]. by exists i.
Qed.

(** ** A concrete run *)

#[export] Instance ex_chips : ChipCount := 4.
#[export] Instance ex_chips_ok : ChipsOk.
Proof. by unfold ChipsOk, numberOfChips, ex_chips. Defined.

Definition ex_ops : list (table_op Z) :=
  [Lock 64 1 AccessType_Write; Lock 64 2 AccessType_Read; Lock 128 1 AccessType_Read; Unlock 64 1; Mark 64].

Lemma ex_ops_ok : Forall (op_ok (C := NodeSet)) ex_ops.
Proof. repeat (apply Forall_cons; split; [split; [reflexivity|]; vm_compute; auto; split; congruence|]). by apply Forall_nil. Qed.

Lemma persistent_table_refines_witness :
  match spec_run ex_ops ∅ with
  | Some A => starving_at 64 A = {[2]} ∧ marked_at 64 A = {[2]} ∧ spec_okToIssue 1 64 A = false
  | None => False
  end ∧
  match spec_run ex_ops ∅ with
  | Some A =>
      ∃ t : gmap Z (table_entry NodeSet), table_run ex_ops ∅ = Ret t ∧ spec_ok A ∧
        ∀ a, a = line a →
          isLocked a t = Ret (bool_decide (is_Some (A !! a))) ∧
          (∀ self, nc_valid self → okToIssueStarving self a t = Ret (spec_okToIssue self a A)) ∧
          countStarvingForAddress a t = Ret (Z.of_nat (size (starving_at a A))) ∧
          countReadStarvingForAddress a t =
            Ret (match A !! a with Some h => Z.of_nat (size (starving h ∖ writers h)) | None => 0 end) ∧
          smallest_answers a t A
  | None => table_run ex_ops (∅ : gmap Z (table_entry NodeSet)) = Raise AssertFailed
  end.
Proof.
  split; [vm_compute; auto|]. apply (persistent_table_refines ex_ops). apply ex_ops_ok.
Defined.

Definition table_of (r : outcome (gmap Z (table_entry NodeSet))) : gmap Z (table_entry NodeSet) :=
  match r with Ret t => t | Raise _ => ∅ end.

(** Node 1 is served while node 2 waits. *)
Definition ex_table : gmap Z (table_entry NodeSet) := table_of (table_run (take 4 ex_ops) ∅).

Lemma ex_table_ok : table_ok ex_table.
Proof.
  pose proof (table_run_implements (take 4 ex_ops) ∅ (empty_ok (C := NodeSet)) (Forall_take _ _ _ ex_ops_ok)) as Hi.
  unfold implements in Hi. assert (E0 : abs (∅ : gmap Z (table_entry NodeSet)) = ∅) by apply fmap_empty. rewrite E0 in Hi.
  destruct (spec_run (take 4 ex_ops) ∅) as [A|] eqn:E; [|vm_compute in E; discriminate].
  destruct Hi as (t & Er & Ht & _). unfold ex_table. by rewrite Er.
Qed.

(** Node 1 must wait for node 2, and node 3, who came later, does not hold it up. *)
Lemma persistent_no_overtaking_witness :
  let t1 := table_of (markEntries 64 ex_table) in
  let ys := [Lock 64 3 AccessType_Read; Unlock 64 2] in
  okToIssueStarving 1 64 t1 = Ret false ∧
  (okToIssueStarving 1 64 (table_of (table_run ys t1)) = Ret true ↔
    starving_at 64 (abs ex_table) ⊆ unlocked 64 ys ∧ (1 : Z) ∉ starving_at 64 (abs (table_of (table_run ys t1)))).
Proof.
  intros t1 ys. split; [vm_compute; reflexivity|].
  apply (persistent_no_overtaking ex_table t1 (table_of (table_run ys t1)) 64 1 ys ex_table_ok).
  - reflexivity.
  - vm_compute. split; congruence.
  - repeat (apply Forall_cons; split; [split; [reflexivity|]; vm_compute; auto; split; congruence|]). by apply Forall_nil.
  - intros Hin. elem_cases Hin.
  - vm_compute. reflexivity.
  - vm_compute. reflexivity.
Defined.

(** [PersistentTable::findSmallest] calls whatever starves an L1 cache: with one
    component of another type starving it names a cache that does not. *)
Example findSmallest_wrong_type :
  let counts : MachineCounts := [2; 1] in
  let l1 : L1Type := 0%nat in
  match persistentRequestLock (H := machine_container) 64 (1%nat, 0) AccessType_Write ∅ with
  | Ret t => findSmallest 64 t = Ret (0%nat, 0) ∧ typeOfSmallest 64 t = Ret AccessType_Read ∧
      machine_okToIssue 0 64 t = Ret true
  | Raise _ => False
  end.
Proof. vm_compute. auto. Qed.
