(* ===== verification/PersistentArbiter.v ===== *)
(** * The arbiter of persistent requests

    [PersistentArbiter.C] of [gems-lib/ruby_clean/system]: a table with a slot
    per processor and a pointer that goes round the occupied slots.  That it is
    fair: whoever keeps waiting becomes the active locker before any other does
    so twice. *)

From stdpp Require Import numbers.
From S2P Require Import Prelude PersistentTable.
Local Open Scope Z_scope.

Record ArbiterEntry := mkArbiterEntry { valid : bool; address : Z; type : AccessType; localId : Z }.

#[export] Instance ArbiterEntry_inhabited : Inhabited ArbiterEntry :=
  populate (mkArbiterEntry false 0 AccessType_Read 0).

Record PersistentArbiter := mkArbiter {
  m_issued_address : Z;
  m_locker : Z;
  m_busy : bool;
  m_entries : list ArbiterEntry
}.

(** The constructor, for a number of processors. *)
Definition new_PersistentArbiter (numberOfProcessors : nat) : PersistentArbiter :=
  mkArbiter 0 (-1) false (replicate numberOfProcessors (mkArbiterEntry false 0 AccessType_Read 0)).

Implicit Types s : PersistentArbiter.

Definition set_entries (l : list ArbiterEntry) s : PersistentArbiter :=
  mkArbiter (m_issued_address s) (m_locker s) (m_busy s) l.

Definition lockersExist s : bool := existsb valid (m_entries s).

Definition addLocker (id addr : Z) (t : AccessType) s : outcome PersistentArbiter :=
  e ← at_int (m_entries s) id;
  assertb (negb (valid e)) ;;
  l ← set_int (m_entries s) id (mkArbiterEntry true addr t id);
  Ret (set_entries l s).

Definition removeLocker (id : Z) s : outcome PersistentArbiter :=
  e ← at_int (m_entries s) id;
  assertb (valid e) ;;
  l ← set_int (m_entries s) id (mkArbiterEntry false (address e) (type e) (localId e));
  let s := set_entries l s in
  Ret (if lockersExist s then s else mkArbiter (m_issued_address s) (m_locker s) false (m_entries s)).

Definition successorRequestPresent (addr id : Z) s : bool :=
  existsb (λ e, (address e =? addr) && valid e) (drop (Z.to_nat (id + 1)) (m_entries s)).

(** The loops of [advanceActiveLock]: the first occupied slot from [k] on. *)
Definition first_valid (k : nat) (l : list ArbiterEntry) : option nat :=
  (λ i, (k + i)%nat) <$> find_index valid (drop k l).

Definition activate (i : nat) s : PersistentArbiter :=
  mkArbiter (m_issued_address s) (Z.of_nat i) true (m_entries s).

Definition advanceActiveLock s : outcome PersistentArbiter :=
  assertb (lockersExist s) ;;
  let size := Z.of_nat (length (m_entries s)) in
  match (if m_locker s <? size - 1 then first_valid (Z.to_nat (m_locker s + 1)) (m_entries s) else None) with
  | Some i => Ret (activate i s)
  | None =>
      match first_valid 0 (m_entries s) with
      | Some i => Ret (activate i s)
      | None => Raise AssertFailed
      end
  end.

(** [assert(m_entries[m_locker].valid = true)] assigns: the slot of the active
    locker is occupied from then on. *)
Definition revive s : outcome (ArbiterEntry * PersistentArbiter) :=
  e ← at_int (m_entries s) (m_locker s);
  let e := mkArbiterEntry true (address e) (type e) (localId e) in
  l ← set_int (m_entries s) (m_locker s) e;
  Ret (e, set_entries l s).

Definition getActiveLockAddress s : outcome (Z * PersistentArbiter) :=
  '(e, s) ← revive s; Ret (address e, s).

Definition getActiveLocalId s : outcome (Z * PersistentArbiter) :=
  '(e, s) ← revive s; Ret (localId e, s).

Definition getArbiterId (chip numberOfProcsPerChip : Z) : Z := chip * numberOfProcsPerChip.
Definition isBusy s : bool := m_busy s.
Definition setIssuedAddress (addr : Z) s : PersistentArbiter := mkArbiter addr (m_locker s) (m_busy s) (m_entries s).
Definition isIssuedAddress (addr : Z) s : bool := m_issued_address s =? addr.
Definition getIssuedAddress s : Z := m_issued_address s.

(** ** Runs *)

Inductive arbiter_op :=
  | AddLocker (id addr : Z) (t : AccessType)
  | RemoveLocker (id : Z)
  | Advance.

Definition arbiter_do (x : arbiter_op) s : outcome PersistentArbiter :=
  match x with
  | AddLocker id addr t => addLocker id addr t s
  | RemoveLocker id => removeLocker id s
  | Advance => advanceActiveLock s
  end.

Fixpoint arbiter_run (xs : list arbiter_op) s : outcome PersistentArbiter :=
  match xs with [] => Ret s | x :: xs => s ← arbiter_do x s; arbiter_run xs s end.

Definition waits (s : PersistentArbiter) (i : nat) : bool := from_option valid false (m_entries s !! i).

Record arbiter_ok (n : nat) s : Prop := {
  ao_length : length (m_entries s) = n;
  ao_locker : -1 ≤ m_locker s < Z.of_nat n;
  ao_busy : m_busy s = true → lockersExist s = true
}.

(** Slots the pointer passes before it reaches [i]. *)
Definition distance (n : nat) (i : nat) s : Z := (Z.of_nat i - m_locker s - 1) `mod` Z.of_nat n.

Lemma exists_waits s : lockersExist s = true ↔ ∃ i, waits s i = true.
Proof.
  unfold lockersExist, waits. rewrite existsb_exists. split.
  - intros (e & (i & Hi)%list_elem_of_In%list_elem_of_lookup & He). exists i. by rewrite Hi.
  - intros (i & Hi). destruct (m_entries s !! i) as [e|] eqn:E; [|done]. exists e. split; [|done].
    apply list_elem_of_In. by eapply list_elem_of_lookup_2.
Qed.

Lemma first_valid_Some k l i :
  first_valid k l = Some i ↔
    (k ≤ i)%nat ∧ from_option valid false (l !! i) = true ∧
    ∀ j, (k ≤ j < i)%nat → from_option valid false (l !! j) = false.
Proof.
  unfold first_valid. rewrite fmap_Some. split.
  - intros (d & (e & He & Hv & Hd)%find_index_Some & ->). rewrite lookup_drop in He.
    split; [lia|]. split; [by rewrite He|]. intros j Hj. destruct (l !! j) as [e'|] eqn:Ej; [|done].
    apply (Hd (j - k)%nat); [|lia]. rewrite lookup_drop. by replace (k + (j - k))%nat with j by lia.
  - intros (Hk & Hv & Hmin). exists (i - k)%nat. split; [|lia]. apply find_index_Some.
    destruct (l !! i) as [e|] eqn:Ei; [|done]. exists e. rewrite lookup_drop.
    split; [by replace (k + (i - k))%nat with i by lia|]. split; [done|].
    intros j e' He' Hj. rewrite lookup_drop in He'. specialize (Hmin (k + j)%nat ltac:(lia)). by rewrite He' in Hmin.
Qed.

Lemma first_valid_None k l : first_valid k l = None ↔ ∀ j, (k ≤ j)%nat → from_option valid false (l !! j) = false.
Proof.
  unfold first_valid. rewrite fmap_None, find_index_None. split.
  - intros Hn j Hj. destruct (l !! j) as [e|] eqn:Ej; [|done]. apply Hn. apply list_elem_of_lookup. exists (j - k)%nat.
    rewrite lookup_drop. by replace (k + (j - k))%nat with j by lia.
  - intros Hn e (d & Hd)%list_elem_of_lookup. rewrite lookup_drop in Hd. specialize (Hn (k + d)%nat ltac:(lia)).
    by rewrite Hd in Hn.
Qed.

Lemma distance_value n i s :
  arbiter_ok n s → (i < n)%nat →
  distance n i s = if m_locker s <? Z.of_nat i then Z.of_nat i - m_locker s - 1 else Z.of_nat i - m_locker s - 1 + Z.of_nat n.
Proof.
  intros [_ Hl _] Hi. unfold distance. destruct (Z.ltb_spec (m_locker s) (Z.of_nat i)).
  - apply Z.mod_small. lia.
  - symmetry. apply (Z.mod_unique _ _ (-1)); lia.
Qed.

Lemma activate_ok n j s : arbiter_ok n s → (j < n)%nat → lockersExist s = true → arbiter_ok n (activate j s).
Proof. intros [H1 H2 H3] Hj He. split; cbn; [done|lia|done]. Qed.

Lemma waits_lt n i s : arbiter_ok n s → waits s i = true → (i < n)%nat.
Proof.
  intros Hs Hw. unfold waits in Hw. destruct (m_entries s !! i) eqn:E; [|done]. rewrite <- (ao_length n s Hs).
  by eapply lookup_lt_Some.
Qed.

(** The next locker waits, and lies before every other one that waits. *)
Lemma advance_spec n s :
  arbiter_ok n s →
  if lockersExist s then
    ∃ j, advanceActiveLock s = Ret (activate j s) ∧ (j < n)%nat ∧ waits s j = true ∧
      ∀ i, waits s i = true → i = j ∨ distance n i (activate j s) < distance n i s
  else advanceActiveLock s = Raise AssertFailed.
Proof.
  intros Hs. unfold advanceActiveLock. destruct (lockersExist s) eqn:He; [|done]. cbn [assertb mbind outcome_bind].
  rewrite (ao_length n s Hs). pose proof (ao_locker n s Hs) as HL.
  destruct (proj1 (exists_waits s) He) as [i0 Hi0]. pose proof (waits_lt n i0 s Hs Hi0) as Hi0n.
  assert (Hdone : ∀ j, (j < n)%nat → waits s j = true →
    (∀ i, waits s i = true → (i < j)%nat → Z.of_nat i ≤ m_locker s < Z.of_nat j) →
    (m_locker s < Z.of_nat j ∨ ∀ i, waits s i = true → Z.of_nat i ≤ m_locker s) →
    ∃ j', Ret (activate j s) = Ret (activate j' s) ∧ (j' < n)%nat ∧ waits s j' = true ∧
      ∀ i, waits s i = true → i = j' ∨ distance n i (activate j' s) < distance n i s).
  { intros j Hj Hw Hbelow Hcase. exists j. split_and!; [done..|]. intros i Hwi.
    pose proof (waits_lt n i s Hs Hwi). destruct (decide (i = j)) as [|Hne]; [by left|right].
    rewrite !(distance_value n) by (done || by apply activate_ok). cbn [m_locker activate].
    specialize (Hbelow i Hwi). destruct (Z.ltb_spec (m_locker s) (Z.of_nat i)), (Z.ltb_spec (Z.of_nat j) (Z.of_nat i));
      destruct Hcase as [Hc|Hc]; try specialize (Hc i Hwi); lia. }
  destruct (if m_locker s <? Z.of_nat n - 1 then first_valid (Z.to_nat (m_locker s + 1)) (m_entries s) else None)
    as [j|] eqn:Ej.
  - destruct (Z.ltb_spec (m_locker s) (Z.of_nat n - 1)); [|done]. apply first_valid_Some in Ej as (Hk & Hv & Hmin).
    apply Hdone; [by apply (waits_lt n j s)|done| |left; lia].
    intros i Hwi Hij. split; [|lia]. apply Z.nlt_ge. intros Hlt. specialize (Hmin i ltac:(lia)). unfold waits in Hwi. congruence.
  - assert (Hle : ∀ i, waits s i = true → Z.of_nat i ≤ m_locker s).
    { intros i Hwi. pose proof (waits_lt n i s Hs Hwi). apply Z.nlt_ge. intros Hlt.
      destruct (Z.ltb_spec (m_locker s) (Z.of_nat n - 1)); [|lia].
      pose proof (proj1 (first_valid_None _ _) Ej i ltac:(lia)) as E. unfold waits in Hwi. congruence. }
    destruct (first_valid 0 (m_entries s)) as [j|] eqn:E0.
    + apply first_valid_Some in E0 as (_ & Hv & Hmin). apply Hdone; [by apply (waits_lt n j s)|done| |by right].
      intros i Hwi Hij. specialize (Hmin i ltac:(lia)). unfold waits in Hwi. congruence.
    + pose proof (proj1 (first_valid_None _ _) E0 i0 ltac:(lia)) as E. unfold waits in Hi0. congruence.
Qed.

(** The other operations do not move the pointer. *)
Lemma addLocker_spec n id addr t s s' :
  arbiter_ok n s → addLocker id addr t s = Ret s' →
  arbiter_ok n s' ∧ m_locker s' = m_locker s ∧ ∀ i, waits s i = true → waits s' i = true.
Proof.
  intros Hs. unfold addLocker. destruct (at_int (m_entries s) id) as [e|] eqn:Ee; [|done]. cbn [mbind outcome_bind].
  destruct (valid e) eqn:Ev; [done|]. cbn [negb assertb mbind outcome_bind]. unfold set_int. rewrite Ee.
  cbn [mbind outcome_bind]. intros [= <-].
  assert (Hw : ∀ i, waits s i = true → waits (set_entries (<[Z.to_nat id:=mkArbiterEntry true addr t id]> (m_entries s)) s) i = true).
  { intros i Hi. unfold waits in *. cbn. destruct (decide (Z.to_nat id = i)) as [->|].
    - rewrite list_lookup_insert_eq; [done|]. destruct (m_entries s !! i) eqn:E; [|done]. by eapply lookup_lt_Some.
    - by rewrite list_lookup_insert_ne. }
  split; [|done]. split; [cbn; rewrite length_insert; apply Hs|apply Hs|].
  intros Hb. apply exists_waits. destruct (proj1 (exists_waits s) (ao_busy n s Hs Hb)) as [i Hi]. exists i. by apply Hw.
Qed.

Lemma removeLocker_spec n id s s' :
  arbiter_ok n s → removeLocker id s = Ret s' →
  arbiter_ok n s' ∧ m_locker s' = m_locker s ∧ ∀ i, i ≠ Z.to_nat id → waits s' i = waits s i.
Proof.
  intros Hs. unfold removeLocker. destruct (at_int (m_entries s) id) as [e|] eqn:Ee; [|done]. cbn [mbind outcome_bind].
  destruct (valid e) eqn:Ev; [|done]. cbn [assertb mbind outcome_bind]. unfold set_int. rewrite Ee.
  cbn [mbind outcome_bind]. intros [= <-].
  set (s1 := set_entries _ s).
  assert (Hw : ∀ i, i ≠ Z.to_nat id → waits s1 i = waits s i).
  { intros i Hi. unfold waits, s1. cbn. by rewrite list_lookup_insert_ne. }
  destruct (lockersExist s1) eqn:El; (split; [|done]).
  - split; cbn; [rewrite length_insert; apply Hs|apply Hs|done].
  - split; cbn; [rewrite length_insert; apply Hs|apply Hs|done].
Qed.

Lemma new_arbiter_ok n : arbiter_ok n (new_PersistentArbiter n).
Proof. split; cbn; [apply length_replicate|lia|done]. Qed.

(** ** Fairness *)

Definition advances (xs : list arbiter_op) : Z := zsum (λ x, match x with Advance => 1 | _ => 0 end) xs.

Lemma advances_cons x xs : advances (x :: xs) = advances [x] + advances xs.
Proof. unfold advances. rewrite !zsum_cons. change (zsum _ []) with 0. lia. Qed.

(** One operation, for a slot that stays occupied: the slot becomes the active
    one, or the pointer does not move away from it, and every advance brings it
    nearer. *)
Lemma step_nearer n x i s s' :
  arbiter_ok n s → waits s i = true → x ≠ RemoveLocker (Z.of_nat i) →
  (∀ id, x = RemoveLocker id → 0 ≤ id) → arbiter_do x s = Ret s' →
  arbiter_ok n s' ∧ waits s' i = true ∧
  (x = Advance ∧ m_locker s' = Z.of_nat i ∨ distance n i s' ≤ distance n i s - advances [x]).
Proof.
  intros Hs Hw Hx Hid E. destruct x as [id addr t|id|]; cbn in E.
  - destruct (addLocker_spec n id addr t s s' Hs E) as (H1 & H2 & H3). split_and!; [done|by apply H3|]. right.
    unfold distance. rewrite H2. change (advances _) with 0. lia.
  - destruct (removeLocker_spec n id s s' Hs E) as (H1 & H2 & H3). specialize (Hid id eq_refl).
    split_and!; [done| |].
    + rewrite H3; [done|]. intros ->. apply Hx. by rewrite Z2Nat.id.
    + right. unfold distance. rewrite H2. change (advances _) with 0. lia.
  - pose proof (advance_spec n s Hs) as Ha.
    assert (He : lockersExist s = true) by (apply exists_waits; by exists i). rewrite He in Ha.
    destruct Ha as (j & Ea & Hj & Hwj & Hnear). rewrite Ea in E. injection E as <-.
    split; [by apply activate_ok|]. split; [done|].
    destruct (Hnear i Hw) as [->|Hlt]; [by left|right]. change (advances _) with 1. lia.
Qed.

Lemma distance_range n i s : (0 < n)%nat → 0 ≤ distance n i s < Z.of_nat n.
Proof. intros Hn. apply Z.mod_pos_bound. lia. Qed.

Lemma becomes_active n i xs : ∀ s s',
  arbiter_ok n s → waits s i = true → RemoveLocker (Z.of_nat i) ∉ xs →
  (∀ id, RemoveLocker id ∈ xs → 0 ≤ id) →
  arbiter_run xs s = Ret s' → distance n i s < advances xs →
  ∃ pre post s1, xs = pre ++ Advance :: post ∧ advances pre ≤ distance n i s ∧
    arbiter_run (pre ++ [Advance]) s = Ret s1 ∧ m_locker s1 = Z.of_nat i ∧ waits s1 i = true.
Proof.
  induction xs as [|x xs IH]; intros s s' Hs Hw Hx Hid E Hd; cbn in E.
  - pose proof (waits_lt n i s Hs Hw). pose proof (distance_range n i s ltac:(lia)). change (advances []) with 0 in Hd. lia.
  - destruct (arbiter_do x s) as [s1|] eqn:E1; [|done]. apply not_elem_of_cons in Hx as [Hx Hxs].
    destruct (step_nearer n x i s s1 Hs Hw) as (Hs1 & Hw1 & Hcase);
      [congruence|intros id ->; apply Hid; by left|done|].
    rewrite advances_cons in Hd.
    destruct Hcase as [[-> Hl]|Hcase].
    + exists [], xs, s1. pose proof (waits_lt n i s Hs Hw).
      pose proof (distance_range n i s ltac:(lia)). change (advances []) with 0.
      split_and!; [done|lia| |done|done]. cbn [app arbiter_run]. by rewrite E1.
    + destruct (IH s1 s' Hs1 Hw1 Hxs) as (pre & post & s2 & -> & H1 & H2 & H3 & H4); [set_solver|done|lia|].
      exists (x :: pre), post, s2. cbn [app arbiter_run]. rewrite E1. cbn [mbind outcome_bind].
      split_and!; [done| |done|done|done].
      rewrite advances_cons. lia.
Qed.

(** [C32] The arbiter is fair: a processor that keeps its request in the table is
    made the active locker by one of the next [n] advances, [n] the number of
    processors, whatever other requests come and go; and an advance never fails
    while any request is there. *)
Theorem arbiter_fair n i s xs s' :
  arbiter_ok n s → waits s i = true → RemoveLocker (Z.of_nat i) ∉ xs → (∀ id, RemoveLocker id ∈ xs → 0 ≤ id) →
  arbiter_run xs s = Ret s' → Z.of_nat n ≤ advances xs →
  (∃ s1, advanceActiveLock s = Ret s1 ∧ isBusy s1 = true) ∧
  ∃ pre post s1, xs = pre ++ Advance :: post ∧ advances pre < Z.of_nat n ∧
    arbiter_run (pre ++ [Advance]) s = Ret s1 ∧ m_locker s1 = Z.of_nat i ∧ waits s1 i = true.
Proof.
  intros Hs Hw Hx Hid E Hn. pose proof (waits_lt n i s Hs Hw). pose proof (distance_range n i s ltac:(lia)). split.
  - pose proof (advance_spec n s Hs) as Ha.
    assert (He : lockersExist s = true) by (apply exists_waits; by exists i). rewrite He in Ha.
    destruct Ha as (j & Ea & _). by exists (activate j s).
  - destruct (becomes_active n i xs s s') as (pre & post & s1 & H1 & H2 & H3 & H4 & H5); [done..|lia|].
    exists pre, post, s1. split_and!; (done || lia).
Qed.

(** Processors 0 and 2 wait, 2 was just served, 1 comes in between. *)
Definition ex_arbiter : PersistentArbiter :=
  mkArbiter 0 2 true
    [mkArbiterEntry true 64 AccessType_Read 0; mkArbiterEntry false 0 AccessType_Read 0;
     mkArbiterEntry true 128 AccessType_Write 2].

Lemma ex_arbiter_ok : arbiter_ok 3 ex_arbiter.
Proof. split; cbn; [done|lia|done]. Qed.

Definition ex_arbiter_run : list arbiter_op := [Advance; AddLocker 1 192 AccessType_Read; Advance; RemoveLocker 1; Advance].

Lemma arbiter_fair_witness :
  (∃ s1, advanceActiveLock ex_arbiter = Ret s1 ∧ isBusy s1 = true) ∧
  ∃ pre post s1, ex_arbiter_run = pre ++ Advance :: post ∧ advances pre < 3 ∧
    arbiter_run (pre ++ [Advance]) ex_arbiter = Ret s1 ∧ m_locker s1 = Z.of_nat 2 ∧ waits s1 2 = true.
Proof.
  apply (arbiter_fair 3 2 ex_arbiter ex_arbiter_run (mkArbiter 0 2 true
    [mkArbiterEntry true 64 AccessType_Read 0; mkArbiterEntry false 192 AccessType_Read 1;
     mkArbiterEntry true 128 AccessType_Write 2])).
  - apply ex_arbiter_ok.
  - reflexivity.
  - intros Hin. apply list_elem_of_In in Hin. cbn in Hin. repeat destruct Hin as [Hin|Hin]; try discriminate Hin; done.
  - intros id Hin. apply list_elem_of_In in Hin. cbn in Hin.
    repeat destruct Hin as [Hin|Hin]; try discriminate Hin; try done. injection Hin as <-. lia.
  - vm_compute. reflexivity.
  - vm_compute. discriminate.
Defined.

(** The assertion of the getters assigns: asking for the address of an active
    locker that has left puts its slot back into the table. *)
Example getter_revives_slot :
  match (s ← advanceActiveLock ex_arbiter; removeLocker 0 s) with
  | Ret s => waits s 0 = false ∧ isBusy s = true ∧
      match getActiveLockAddress s with Ret (a, s) => a = 64 ∧ waits s 0 = true | Raise _ => False end
  | Raise _ => False
  end.
Proof. vm_compute. auto. Qed.
