(* ===== verification/Graph.v ===== *)
(** * What the core reads of the graph

    The blocks and the part of [newGraph] ([newGraph.hpp]) that [Core] uses:
    the chains, their dependencies and their levels. *)

From S2P Require Import Prelude OrdMap ChainDeps Levels.

(** [struct Block] *)
Record Block := mkBlock { blkID : nat; blk_chains : list nat }.

(** The chain side of [newGraph]: filled by the second half of
    [newGraph::initialize]. *)
Record chainInfo := mkChainInfo {
  Chains : list (list nat);
  vertex_to_Chunk : ordmap nat nat;
  dependencies : list chainDependency;
  chain_to_dependencies : ordmap nat (list nat);
  reverse_mapping : ordmap nat (list nat);
  un_dependencies : ordmap nat (list nat);
  un_reverse_mapping : ordmap nat (list nat);
  chain_graph : list chainGraph;
  chain_level : ordmap Z (list nat);
  block_chain : list Block;
  orig_map : ordmap nat Z
}.
