(* ===== verification/GraphRead.v ===== *)
(** * Reading the graph

    The first half of [newGraph::initialize] ([src/src/newGraph.cpp]): the
    graph read from the dot file is copied twice ([cleanReadGraphHelper],
    [cleanRemoveReadGraphHelper]), copied a third time with parsed labels,
    latencies and levels while the statistics of the graph are taken
    ([completeReadGraphHelper]), and its vertices are grouped into the initial
    chains ([createChains]).  The dot parser itself is boost's. *)

From S2P Require Import Prelude OrdMap Histogram Text Regex BoostGraph ChainDeps Walks Levels.
From Stdlib Require Import Ascii.

(** [struct vertex_prop] *)
Record vertex_prop := mkVertex {
  name : Z; label : string; ch : string; opcode : string; color : string; ir : string
}.

(** [struct vertex_prop_com] *)
Record vertex_prop_com := mkVertexCom {
  com_name : Z; com_id : Z; com_ch : Z; com_label : string; com_opcode : string;
  com_latency : Z; com_level : Z; com_color : string; com_ir : string
}.

(** What [completeReadGraphHelper] leaves in the members of [newGraph].  The
    two averages are kept as numerator and denominator: [avg_ilp] is a quotient
    of doubles, [geo_avg_ilp] the root of order [den] of a product. *)
Record graph_stats := mkGraphStats {
  num_ops : nat;
  gs_length : Z;
  max_ilp : Z;
  avg_ilp : Z * Z;
  geo_avg_ilp : Z * Z;
  ins_histo : ordmap string Z;
  firstlevelLD : Z;
  max_mlp : Z
}.

Section read.
Context `{BoostGraph G}.

(** ** Copying *)

(** The loop over the vertices of [g] and their out-edges that adds each edge
    to [h], its ends renamed by [find]. *)
Definition copy_edges_loop {vp wp} (g : G vp) (find : nat → outcome nat) (h : G wp)
    : outcome (G wp) :=
  foldM (λ h v,
      foldM (λ h target,
          s ← find v;
          t ← find target;
          Ret (add_edge s t h)) h (out_edges g v))
    h (vertices g).

Definition clean_vertex (p : vertex_prop) : vertex_prop :=
  mkVertex (name p) (label p) (ch p) (opcode p) "black" "".

(** The vertices: [map_v] maps the name of a vertex to its number. *)
Definition clean_vertices (dirty_graph : G vertex_prop)
    : outcome (G vertex_prop * ordmap Z nat) :=
  foldM (λ '(clean_graph, map_v) v,
      p ← deref (vprop dirty_graph v);
      let new_v := num_vertices clean_graph in
      Ret (add_vertex (clean_vertex p) clean_graph, memplace (name p) new_v map_v))
    (empty_graph, []) (vertices dirty_graph).

Definition cleanReadGraphHelper (dirty_graph : G vertex_prop) : outcome (G vertex_prop) :=
  '(clean_graph, map_v) ← clean_vertices dirty_graph;
  copy_edges_loop dirty_graph
    (λ v, p ← deref (vprop dirty_graph v); deref (mfind (name p) map_v)) clean_graph.

Definition orig_vertex (p : vertex_prop) : vertex_prop :=
  mkVertex (name p) (label p) (ch p) (opcode p) (color p) "".

Definition orig_vertices (clean_graph : G vertex_prop)
    : outcome (G vertex_prop * ordmap nat nat) :=
  foldM (λ '(orig_graph, v_map) i,
      p ← deref (vprop clean_graph i);
      let new_v := num_vertices orig_graph in
      Ret (add_vertex (orig_vertex p) orig_graph, memplace new_v i v_map))
    (empty_graph, []) (vertices clean_graph).

Definition cleanRemoveReadGraphHelper (clean_graph : G vertex_prop) : outcome (G vertex_prop) :=
  '(orig_graph, v_map) ← orig_vertices clean_graph;
  copy_edges_loop clean_graph (λ v, deref (mfind v v_map)) orig_graph.

(** ** The complete graph and the statistics *)

Section complete.
Variable instruction_llvm : ordmap string Z.

(** The vertex of the complete graph and its entry of [orig_map]. *)
Definition complete_vertex (p : vertex_prop) (m_level : Z) : outcome (vertex_prop_com * Z) :=
  let ty := label_type (label p) in
  let num := label_id (label p) in
  chn ← stoi (ch p);
  lat ← deref (mfind ty instruction_llvm);
  orig_id ← stoi num;
  Ret (mkVertexCom (name p) (name p) (u32 chn) (ty ++ "(" ++ num ++ ")") ty lat
         (u32 m_level) (color p) "", u32 orig_id).

Definition complete_vertices (orig_graph : G vertex_prop) (m_level : list Z)
    : outcome (G vertex_prop_com * ordmap nat Z * ordmap nat nat) :=
  foldM (λ '(comp_graph, orig_map, new_v) i,
      p ← deref (vprop orig_graph i);
      l ← m_level.[i]!;
      let n_v := num_vertices comp_graph in
      '(q, orig_id) ← complete_vertex p l;
      Ret (add_vertex q comp_graph, mset n_v orig_id orig_map, memplace i i new_v))
    (empty_graph, [], []) (vertices orig_graph).

Definition complete_graph (orig_graph : G vertex_prop) (m_level : list Z)
    : outcome (G vertex_prop_com * ordmap nat Z) :=
  '(comp_graph, orig_map, new_v) ← complete_vertices orig_graph m_level;
  comp_graph ← copy_edges_loop orig_graph (λ v, deref (mfind v new_v)) comp_graph;
  Ret (comp_graph, orig_map).
End complete.

(** [mul_glip *= m.second] over the histogram, on 32 bits *)
Definition product_values (h : ordmap Z Z) : Z := foldl (λ s e, u32 (s * e.2)) 1 h.

(** The loop over the vertices: instruction histogram, first-level loads and
    the loads and stores of each level. *)
Definition op_stats (comp_graph : G vertex_prop_com) (n : nat)
  : outcome (ordmap string Z * Z * ordmap Z Z) :=
  foldM (λ '(ins_histo, firstlevelLD, m_graph_mlp) i,
      m_node ← deref (vprop comp_graph i);
      let is_ld := bool_decide (com_opcode m_node = "Load"%string) in
      let is_st := bool_decide (com_opcode m_node = "Store"%string) in
      Ret (count_key ins_histo (com_opcode m_node),
           (if (com_level m_node =? 1) && is_ld then u32 (firstlevelLD + 1) else firstlevelLD),
           (if is_ld || is_st
            then count_key64 m_graph_mlp (com_level m_node)
            else m_graph_mlp)))
    ([], 0, []) (seq 0 n).

(** [max_ilp] is read before it is written: [junk_max] is what it held. *)
Definition compute_stats (junk_max : Z) (m_level : list Z) (comp_graph : G vertex_prop_com)
  : outcome graph_stats :=
  m0 ← deref (head m_level);
  let length := foldl Z.max m0 m_level in
  let graph_ilp := histogram (u32 <$> m_level) in
  let max_ilp := max_value junk_max graph_ilp in
  let sum_gilp := sum_values graph_ilp in
  let mul_glip := product_values graph_ilp in
  '(ins_histo, firstlevelLD, m_graph_mlp) ← op_stats comp_graph (List.length m_level);
  Ret (mkGraphStats (List.length m_level) length max_ilp
         (sum_gilp, Z.of_nat (msize graph_ilp))
         (mul_glip, Z.of_nat (msize graph_ilp) - 1)
         ins_histo firstlevelLD (max_value 0 m_graph_mlp)).

Definition completeReadGraphHelper (instruction_llvm : ordmap string Z) (junk_max : Z)
    (orig_graph : G vertex_prop) : outcome (G vertex_prop_com * ordmap nat Z * graph_stats) :=
  let n := num_vertices orig_graph in
  m_level ← findGrahpLevel (out_edges orig_graph) (in_edges orig_graph) n 0 (replicate n (-1)) 0;
  '(comp_graph, orig_map) ← complete_graph instruction_llvm orig_graph m_level;
  stats ← compute_stats junk_max m_level comp_graph;
  Ret (comp_graph, orig_map, stats).

(** ** The initial chains *)

(** [temp_map[std::stoi(ch)].push_back(v)], and the start node *)
Definition group_vertex (orig_graph : G vertex_prop) :=
  λ '(first_ch, first_node_id, temp_map) v,
    p ← deref (vprop orig_graph v);
    c ← stoi (ch p);
    Ret (if bool_decide (opcode p = "BB"%string) then u32 c else first_ch,
         if bool_decide (opcode p = "BB"%string) then name p else first_node_id,
         malter (λ o, default [] o ++ [v]) (u32 c) temp_map).

(** Chain 0 is the group of the start node, the others follow in the order of
    their numbers in the file; [temp_map[first_ch]] makes an empty group when
    there is none. *)
Definition createChains (orig_graph : G vertex_prop) : outcome (Z * Z * chains) :=
  '(first_ch, first_node_id, temp_map) ←
    foldM (group_vertex orig_graph) (0, 0, []) (vertices orig_graph);
  let temp_map := malter (default []) first_ch temp_map in
  let first := default [] (mfind first_ch temp_map) in
  let others := (filter (λ tm : Z * list nat, tm.1 ≠ first_ch) temp_map).*2 in
  let chain_map : ordmap nat (list nat) := imap pair (first :: others) in
  Ret (first_ch, first_node_id, chain_map.*2).
End read.

(** The edges the level search follows. *)
Notation level_edge g := (succ_edge (level_succ (out_edges g) (in_edges g))).

(** ** Copies *)

Section copies.
Local Open Scope nat_scope.
Context `{BoostLaws G}.

Lemma vprop_ret {vp} (g : G vp) v : v < num_vertices g → ∃ p, vprop g v = Some p.
Proof. intros Hv. by apply vprop_inside in Hv. Qed.

(** The edge loop, when every vertex is found. *)
Lemma copy_edges_loop_id {vp wp} (g : G vp) find (h : G wp) :
  (∀ v, v < num_vertices g → find v = Ret v) →
  copy_edges_loop g find h = Ret (add_edges (edge_list g) h).
Proof.
  intros Hfind. unfold copy_edges_loop, add_edges, edge_list.
  assert (Hvs : ∀ v, v ∈ vertices g → v < num_vertices g).
  { intros v. unfold vertices. rewrite elem_of_seq. lia. }
  revert h Hvs. induction (vertices g) as [|u us IH]; intros h Hvs; [done|].
  cbn [foldM mbind list_bind]. rewrite foldl_app.
  assert (foldM (λ h target, s ← find u; t ← find target; Ret (add_edge s t h)) h (out_edges g u)
    = Ret (foldl (λ g e, add_edge e.1 e.2 g) h ((λ v, (u, v)) <$> out_edges g u))) as ->.
  { rewrite (Hfind u) by (apply Hvs; left). cbn [mbind outcome_bind].
    assert (Ht : ∀ t, t ∈ out_edges g u → find t = Ret t).
    { intros t Ht. apply Hfind. by eapply out_edges_target. }
    clear -Ht. revert h. induction (out_edges g u) as [|t ts IHt]; intros h; [done|].
    cbn [foldM fmap list_fmap foldl]. rewrite Ht by left. cbn. apply IHt. set_solver. }
  cbn [mbind outcome_bind]. apply IH. set_solver.
Qed.

(** A vertex loop that appends the images of the vertices of [g]. *)
Definition copied {vp wp} (f : vp → wp) (g : G vp) (i : nat) (h : G wp) : Prop :=
  num_vertices h = i ∧ (∀ v, out_edges h v = []) ∧
  ∀ v, v < i → vprop h v = f <$> vprop g v.

Lemma copied_empty {vp wp} (f : vp → wp) (g : G vp) : copied f g 0 empty_graph.
Proof. split_and!; [by apply empty_vertices|apply empty_graph_out|lia]. Qed.

Lemma copied_add {vp wp} (f : vp → wp) (g : G vp) i h p :
  copied f g i h → vprop g i = Some p → copied f g (S i) (add_vertex (f p) h).
Proof.
  intros (Hn & Ho & Hp) Hi. split_and!.
  - by rewrite add_vertex_num, Hn.
  - intros v. by rewrite add_vertex_out.
  - intros v Hv. rewrite add_vertex_prop, Hn.
    destruct (decide (v = i)) as [->|]; [by rewrite Hi|]. apply Hp. lia.
Qed.

Lemma copied_edges {vp wp} (f : vp → wp) (g : G vp) h :
  copied f g (num_vertices g) h →
  same_edges (add_edges (edge_list g) h) g ∧
  ∀ v, vprop (add_edges (edge_list g) h) v = f <$> vprop g v.
Proof.
  intros (Hn & Ho & Hp). destruct (copy_edges g h) as [He Hv]; [done..|].
  split; [done|]. intros v. rewrite Hv. destruct (decide (v < num_vertices g)); [by apply Hp|].
  destruct (vprop h v) eqn:E1.
  { assert (v < num_vertices h) by (apply vprop_inside; eauto). lia. }
  destruct (vprop g v) eqn:E2; [|done].
  assert (v < num_vertices g) by (apply vprop_inside; eauto). done.
Qed.

Definition distinct_names (g : G vertex_prop) : Prop :=
  ∀ u v p q, vprop g u = Some p → vprop g v = Some q → name p = name q → u = v.

Lemma cleanReadGraphHelper_copy (dirty : G vertex_prop) : distinct_names dirty →
  ∃ clean, cleanReadGraphHelper dirty = Ret clean ∧ same_edges clean dirty ∧
    ∀ v, vprop clean v = clean_vertex <$> vprop dirty v.
Proof.
  intros Hnames.
  unfold cleanReadGraphHelper, clean_vertices, vertices.
  seq_loop (λ i '(h, m), copied clean_vertex dirty i h ∧
      (∀ v p, v < i → vprop dirty v = Some p → mfind (name p) m = Some v) ∧
      ∀ k v, mfind k m = Some v → v < i ∧ ∃ p, vprop dirty v = Some p ∧ name p = k).
  - split_and!; [apply copied_empty|lia|done].
  - intros i [h m] Hi (Hc & Hm & Hin). destruct (vprop_ret dirty i Hi) as [p Hp].
    rewrite Hp. cbn [deref mbind outcome_bind]. eexists. split; [done|].
    assert (Hfresh : mfind (name p) m = None).
    { destruct (mfind (name p) m) as [w|] eqn:E; [|done].
      destruct (Hin _ _ E) as (? & q & Hq & Hnm). assert (w = i) by by eapply Hnames. lia. }
    split_and!; [by apply copied_add| |].
    + intros v q Hv Hq. rewrite mfind_emplace. destruct Hc as (Hn & _).
      destruct (decide (v = i)) as [->|Hvi].
      * assert (q = p) as -> by congruence. by rewrite Hfresh, kcmp_refl, Hn.
      * pose proof (Hm v q ltac:(lia) Hq) as Hv'.
        destruct (kcmp (name q) (name p)) eqn:E; [|done..].
        apply kcmp_eq in E. by rewrite <- E, Hv'.
    + intros k v. rewrite mfind_emplace. destruct Hc as (Hn & _).
      destruct (kcmp k (name p)) eqn:Ek.
      * apply kcmp_eq in Ek as ->. rewrite Hfresh. cbn. intros [= <-].
        split; [lia|]. exists p. by rewrite Hn.
      * intros Hk. destruct (Hin _ _ Hk). split; [lia|done].
      * intros Hk. destruct (Hin _ _ Hk). split; [lia|done].
  - destruct b as [h m]. destruct Hinv as (Hc & Hm & _). rewrite copy_edges_loop_id.
    + eexists. split; [done|]. by apply copied_edges.
    + intros v Hv. destruct (vprop_ret dirty v Hv) as [p Hp].
      rewrite Hp. cbn. by rewrite (Hm v p).
Qed.

(** A map that sends every number below [i] to itself. *)
Definition id_map (i : nat) (m : ordmap nat nat) : Prop :=
  ∀ v, mfind v m = if decide (v < i) then Some v else None.

Lemma id_map_emplace i m : id_map i m → id_map (S i) (memplace i i m).
Proof.
  intros Hm v. rewrite mfind_emplace, !Hm, (decide_False (P := i < i)) by lia.
  destruct (kcmp v i) eqn:E.
  - apply kcmp_eq in E as ->. by rewrite decide_True by lia.
  - apply Nat.compare_lt_iff in E. by rewrite !decide_True by lia.
  - apply Nat.compare_gt_iff in E. by rewrite !decide_False by lia.
Qed.

Lemma id_map_find i m v : id_map i m → v < i → deref (mfind v m) = Ret v.
Proof. intros Hm Hv. by rewrite Hm, decide_True. Qed.

Lemma cleanRemoveReadGraphHelper_copy (clean : G vertex_prop) :
  ∃ orig, cleanRemoveReadGraphHelper clean = Ret orig ∧ same_edges orig clean ∧
    ∀ v, vprop orig v = orig_vertex <$> vprop clean v.
Proof.
  unfold cleanRemoveReadGraphHelper, orig_vertices, vertices.
  seq_loop (λ i '(h, m), copied orig_vertex clean i h ∧ id_map i m).
  - split; [apply copied_empty|]. by intros v.
  - intros i [h m] Hi (Hc & Hm). destruct (vprop_ret clean i Hi) as [p Hp].
    rewrite Hp. cbn [deref mbind outcome_bind]. eexists. split; [done|].
    split; [by apply copied_add|]. destruct Hc as (-> & _). by apply id_map_emplace.
  - destruct b as [h m]. destruct Hinv as (Hc & Hm). rewrite copy_edges_loop_id.
    + eexists. split; [done|]. by apply copied_edges.
    + intros v Hv. by apply (id_map_find (num_vertices clean)).
Qed.

(** ** The complete graph *)

(** A vertex the reader can parse: a chain number, a type that
    [def/Instruction.def] knows, a number in parentheses. *)
Definition readable (llvm : ordmap string Z) (p : vertex_prop) : Prop :=
  ∃ c lat i, stoi (ch p) = Ret c ∧ mfind (label_type (label p)) llvm = Some lat ∧
             stoi (label_id (label p)) = Ret i.

Lemma complete_vertex_ret llvm p l : readable llvm p → ∃ r, complete_vertex llvm p l = Ret r.
Proof. intros (c & lat & i & Hc & Hl & Hi). unfold complete_vertex. rewrite Hc, Hl, Hi. cbn. eauto. Qed.

(** *** What a vertex of the complete graph says *)

(** The type is what stands before the first parenthesis. *)
Definition reads_type (label ty : string) : Prop :=
  ∃ rest, to_text label = to_text ty ++ "("%char :: rest ∧ Forall (λ c, is_any c = true) (to_text ty) ∧ "("%char ∉ to_text ty.

(** A number in parentheses, with what stands before and after it. *)
Definition number_at (label a num b : text) : Prop :=
  label = a ++ "("%char :: num ++ ")"%char :: b ∧ num ≠ [] ∧ Forall (λ c, is_digit c = true) num.

(** The first number in parentheses. *)
Definition reads_number (label num : string) : Prop :=
  ∃ a b, number_at (to_text label) a (to_text num) b ∧ ∀ a' num' b', number_at (to_text label) a' num' b' → length a ≤ length a'.

(** Vertex [q] and the entry [i] of [orig_map] for a vertex [p] of level [l]. *)
Record completed (llvm : ordmap string Z) (p : vertex_prop) (l : Z) (q : vertex_prop_com) (i : Z) : Prop := {
  cv_type : reads_type (label p) (com_opcode q) ∨ com_opcode q = EmptyString ∧ ∀ ty, ¬ reads_type (label p) ty;
  cv_latency : mfind (com_opcode q) llvm = Some (com_latency q);
  cv_number : ∃ num n, reads_number (label p) num ∧ stoi num = Ret n ∧ i = u32 n ∧
    com_label q = (com_opcode q ++ "(" ++ num ++ ")")%string;
  cv_ch : ∃ c, stoi (ch p) = Ret c ∧ com_ch q = u32 c;
  cv_level : com_level q = u32 l;
  cv_copied : com_name q = name p ∧ com_id q = name p ∧ com_color q = color p
}.

Lemma label_type_reads s :
  reads_type s (label_type s) ∨ label_type s = EmptyString ∧ ∀ ty, ¬ reads_type s ty.
Proof.
  unfold label_type. destruct (before_paren s) as [t|] eqn:E; [left; exact (before_paren_Some s t E)|].
  right. split; [done|]. intros ty (rest & Es & Hany & _). apply (before_paren_None s E (length (to_text ty))).
  - rewrite Es, span_app by done. lia.
  - by rewrite Es, drop_app_length.
Qed.

Lemma digits_paren_at s b t u :
  to_text s = t ++ ")"%char :: b → Forall (λ c, is_digit c = true) t → digits_paren s = u → u = Some (String.string_of_list_ascii t).
Proof.
  intros Es Ht <-. apply digits_paren_spec. exists b. by rewrite String.list_ascii_of_string_of_list_ascii.
Qed.

Lemma paren_id_reads s t : paren_id s = Some t → reads_number s t.
Proof.
  revert t. induction s as [|c s IH]; intros t; [done|]. cbn [paren_id].
  assert (Hrest : (Ascii.eqb c "(" = false ∨ match digits_paren s with Some (String _ _) => False | _ => True end) →
    (if is_any c then paren_id s else None) = Some t → reads_number (String c s) t).
  { intros Hno E. destruct (is_any c); [|done]. destruct (IH t E) as (a & b & (Es & Hne & Hd) & Hmin).
    exists (c :: a), b. split; [split_and!; [cbn; by rewrite Es|done..]|].
    intros [|c' a'] num' b' (Es' & Hne' & Hd'); cbn in Es'.
    - exfalso. injection Es' as -> Es'. destruct Hno as [Hno|Hno]; [done|].
      rewrite (digits_paren_at s b' num' _ Es' Hd' eq_refl) in Hno. by destruct num'.
    - injection Es' as -> Es'. cbn. specialize (Hmin a' num' b' (conj Es' (conj Hne' Hd'))). lia. }
  destruct (Ascii.eqb_spec c "(") as [->|Hc]; [|by intros E; apply Hrest; [left|]].
  destruct (digits_paren s) as [[|d ds]|] eqn:Ed; [by intros E; apply Hrest; [right|]| |by intros E; apply Hrest; [right|]].
  intros [= <-]. apply digits_paren_spec in Ed as (u & Es & Hd). exists [], u. split; [|intros; cbn; lia].
  split_and!; [by cbn; rewrite Es|done|done].
Qed.

Lemma complete_vertex_completed llvm p l q i : complete_vertex llvm p l = Ret (q, i) → completed llvm p l q i.
Proof.
  unfold complete_vertex. intros (c & Hc & E)%bind_ret_inv. apply bind_ret_inv in E as (lat & Hlat & E).
  apply bind_ret_inv in E as (n & Hn & [= <- <-]). destruct (mfind (label_type (label p)) llvm) as [lat'|] eqn:El; [|done].
  injection Hlat as ->. split; cbn; [apply label_type_reads|done| |by exists c|done|done].
  exists (label_id (label p)), n. split; [|done]. apply paren_id_reads. unfold label_id in *.
  by destruct (paren_id (label p)).
Qed.

Lemma complete_graph_spec llvm (g : G vertex_prop) (L : list Z) :
  length L = num_vertices g → (∀ v p, vprop g v = Some p → readable llvm p) →
  ∃ comp om qs, complete_graph llvm g L = Ret (comp, om) ∧ same_edges comp g ∧
    length qs = num_vertices g ∧
    ∀ v, v < num_vertices g → ∃ p q i, vprop g v = Some p ∧
      complete_vertex llvm p (lv L v) = Ret (q, i) ∧ qs !! v = Some q ∧
      vprop comp v = Some q ∧ mfind v om = Some i.
Proof.
  intros HL Hread. unfold complete_graph, complete_vertices, vertices.
  seq_loop (λ i (b : G vertex_prop_com * ordmap nat Z * ordmap nat nat),
    let '(h, om, new_v) := b in num_vertices h = i ∧ (∀ v, out_edges h v = []) ∧
    id_map i new_v ∧ ∃ qs, length qs = i ∧
    ∀ v, v < i → ∃ p q i, vprop g v = Some p ∧
      complete_vertex llvm p (lv L v) = Ret (q, i) ∧ qs !! v = Some q ∧
      vprop h v = Some q ∧ mfind v om = Some i).
  - split_and!; [by apply empty_vertices|apply empty_graph_out|by intros v|].
    exists []. split; [done|lia].
  - intros i [[h om] new_v] Hi (Hn & Ho & Hid & qs & Hqs & Hall).
    destruct (vprop_ret g i Hi) as [p Hp].
    assert (Hl : L.[i]! = Ret (lv L i)).
    { apply at_idx_ret. unfold lv. destruct (lookup_lt_is_Some_2 L i) as [x Hx]; [lia|]. by rewrite Hx. }
    destruct (complete_vertex_ret llvm p (lv L i)) as [[q k] Hq]; [by eapply Hread|].
    rewrite Hp, Hl. cbn [deref mbind outcome_bind]. rewrite Hq. cbn [mbind outcome_bind].
    eexists. split; [done|]. split_and!.
    + by rewrite add_vertex_num, Hn.
    + intros v. by rewrite add_vertex_out.
    + by apply id_map_emplace.
    + exists (qs ++ [q]). split; [rewrite length_app; cbn; lia|]. intros v Hv.
      destruct (decide (v = i)) as [->|Hvi].
      * exists p, q, k. split_and!; [done..| | |].
        -- rewrite lookup_app_r, Hqs, Nat.sub_diag by lia. done.
        -- by rewrite add_vertex_prop, Hn, decide_True.
        -- by rewrite Hn, mfind_set_eq.
      * destruct (Hall v) as (p' & q' & k' & ? & ? & ? & ? & ?); [lia|].
        exists p', q', k'. split_and!; [done..| | |].
        -- by rewrite lookup_app_l by lia.
        -- by rewrite add_vertex_prop, Hn, decide_False.
        -- rewrite Hn. by rewrite mfind_set_ne.
  - destruct b as [[h om] new_v]. destruct Hinv as (Hn & Ho & Hid & qs & Hqs & Hall).
    rewrite copy_edges_loop_id by (intros v Hv; by eapply id_map_find). cbn [mbind outcome_bind].
    destruct (copy_edges g h) as [He Hv]; [done..|].
    exists (add_edges (edge_list g) h), om, qs. split_and!; [done..|].
    intros v Hlt. destruct (Hall v Hlt) as (p & q & k & ? & ? & ? & ? & ?).
    exists p, q, k. by rewrite Hv.
Qed.

(** ** The statistics *)

Local Open Scope Z_scope.
Definition is_load (q : vertex_prop_com) : bool := bool_decide (com_opcode q = "Load"%string).
Definition is_mem_op (q : vertex_prop_com) : bool :=
  is_load q || bool_decide (com_opcode q = "Store"%string).

Lemma op_stats_spec (comp : G vertex_prop_com) (qs : list vertex_prop_com) :
  (∀ v q, qs !! v = Some q → vprop comp v = Some q) → Z.of_nat (length qs) < 2 ^ 32 →
  op_stats comp (length qs) = Ret (
    histogram (com_opcode <$> qs),
    Z.of_nat (length (filter (λ q, com_level q = 1 ∧ is_load q = true) qs)),
    histogram (com_level <$> filter (λ q, is_mem_op q = true) qs)).
Proof.
  intros Hqs Hlen. unfold op_stats.
  seq_loop (λ i '(h, ld, mlp), h = histogram (com_opcode <$> take i qs) ∧
    ld = Z.of_nat (length (filter (λ q, com_level q = 1 ∧ is_load q = true) (take i qs))) ∧
    mlp = histogram (com_level <$> filter (λ q, is_mem_op q = true) (take i qs))).
  - done.
  - intros i [[h ld] mlp] Hi (-> & -> & ->).
    destruct (lookup_lt_is_Some_2 qs i Hi) as [q Hq]. rewrite (Hqs i q Hq).
    cbn [deref mbind outcome_bind]. eexists. split; [done|].
    rewrite (take_S_r _ _ _ Hq), fmap_app, !filter_app, !length_app. split_and!.
    + unfold histogram. by rewrite foldl_app.
    + assert (Hle : (length (filter (λ q, com_level q = 1%Z ∧ is_load q = true) (take i qs)) <= i)%nat).
      { etransitivity; [apply length_filter|]. rewrite length_take. lia. }
      rewrite filter_cons. fold (is_load q).
      destruct (Z.eqb_spec (com_level q) 1), (is_load q) eqn:El; cbn [andb];
        repeat case_decide; destruct_and?; try done; try tauto; cbn [length filter list_filter app];
        try (rewrite u32_id by lia); lia.
    + rewrite filter_cons. fold (is_load q). fold (is_mem_op q).
      destruct (is_mem_op q) eqn:Em; [|by rewrite decide_False, app_nil_r].
      rewrite decide_True by done. rewrite fmap_app. unfold histogram.
      rewrite foldl_app. cbn [foldl fmap list_fmap].
      apply count_key64_eq with (n := O).
      set (ks := com_level <$> _). assert (Hks : (length ks <= i)%nat).
      { unfold ks. rewrite length_fmap. etransitivity; [apply length_filter|]. rewrite length_take. lia. }
      apply histogram_room. lia.
  - destruct b as [[h ld] mlp]. destruct Hinv as (-> & -> & ->). by rewrite firstn_all.
Qed.

Lemma foldl_max_spec (l : list Z) m :
  m ≤ foldl Z.max m l ∧ (∀ x, x ∈ l → x ≤ foldl Z.max m l) ∧
  (foldl Z.max m l = m ∨ foldl Z.max m l ∈ l).
Proof.
  revert m. induction l as [|y l IH]; intros m; cbn [foldl].
  { split_and!; [done| |by left]. by intros x ?%not_elem_of_nil. }
  destruct (IH (Z.max m y)) as (H1 & H2 & H3). split_and!; [lia| |].
  - intros x [->|Hx]%elem_of_cons; [lia|by apply H2].
  - destruct H3 as [->|H3]; [|by right; right].
    destruct (Z.max_spec m y) as [[_ ->]|[_ ->]]; [right; by left|by left].
Qed.

(** The length of the graph is its largest level. *)
Definition max_level_of (L : list Z) (m : Z) : Prop :=
  m ∈ L ∧ ∀ l, l ∈ L → l ≤ m.

(** [m] is the larger of [lo] and the largest count of a key. *)
Definition max_count (lo : Z) (ks : list Z) (m : Z) : Prop :=
  lo ≤ m ∧ (∀ k, occurs k ks ≤ m) ∧ (m = lo ∨ ∃ k, k ∈ ks ∧ m = occurs k ks).

Lemma max_value_count lo ks : 0 ≤ lo → Z.of_nat (length ks) < 2 ^ 32 →
  max_count lo ks (max_value lo (histogram ks)).
Proof.
  intros Hlo Hlen. destruct (max_value_spec lo (histogram ks)) as (H1 & H2 & H3).
  split_and!; [done| |].
  - intros k. destruct (decide (k ∈ ks)) as [Hk|Hk%occurs_zero]; [|lia].
    apply (H2 k). by apply histogram_elem.
  - destruct H3 as [->|(k & Hk)]; [by left|right].
    apply histogram_elem in Hk as [? ?]; [|done]. eauto.
Qed.

(** What [compute_stats] leaves, given the levels and the operations. *)
Record stats_ok (junk_max : Z) (L : list Z) (qs : list vertex_prop_com) (st : graph_stats) : Prop := {
  so_ops : num_ops st = length L;
  so_length : max_level_of L (gs_length st);
  so_max_ilp : max_count junk_max (u32 <$> L) (max_ilp st);
  so_avg : avg_ilp st =
    (Z.of_nat (length L), Z.of_nat (length (remove_dups (u32 <$> L))));
  so_histo : ∀ op, default 0 (mfind op (ins_histo st)) = occurs op (com_opcode <$> qs);
  so_first : firstlevelLD st =
    Z.of_nat (length (filter (λ q, com_level q = 1 ∧ is_load q = true) qs));
  so_mlp : max_count 0 (com_level <$> filter (λ q, is_mem_op q = true) qs) (max_mlp st)
}.

Lemma histogram_size (ks : list Z) : Z.of_nat (length ks) < 2 ^ 32 →
  msize (histogram ks) = length (remove_dups ks).
Proof. intros Hlen. unfold msize. by rewrite (histogram_entries ks Hlen), length_fmap. Qed.

Lemma compute_stats_spec junk_max L (comp : G vertex_prop_com) qs :
  0 ≤ junk_max → L ≠ [] → length qs = length L → Z.of_nat (length L) < 2 ^ 32 →
  (∀ v q, qs !! v = Some q → vprop comp v = Some q) →
  ∃ st, compute_stats junk_max L comp = Ret st ∧ stats_ok junk_max L qs st.
Proof.
  intros Hj Hne Hqs Hlen Hcomp. destruct L as [|m0 L]; [done|].
  unfold compute_stats. cbn [head deref mbind outcome_bind].
  rewrite <- Hqs, op_stats_spec by (done || by rewrite Hqs).
  cbn [mbind outcome_bind]. eexists. split; [done|].
  assert (Hu : Z.of_nat (length (u32 <$> m0 :: L)) < 2 ^ 32) by by rewrite length_fmap.
  assert (Hf : (length (filter (λ q, is_mem_op q = true) qs) <= length qs)%nat) by apply length_filter.
  split; cbn [num_ops gs_length max_ilp avg_ilp ins_histo firstlevelLD max_mlp].
  - done.
  - destruct (foldl_max_spec (m0 :: L) m0) as (H1 & H2 & H3). split; [|done].
    destruct H3 as [->|?]; [by left|done].
  - by apply max_value_count.
  - rewrite histogram_size by done. f_equal.
    rewrite sum_values_total, histogram_total, length_fmap; try done.
    + intros k n Hin. apply histogram_elem in Hin as [_ ->]; [apply occurs_nonneg|done].
    + by rewrite histogram_total, length_fmap.
  - intros op. rewrite histogram_find by (rewrite length_fmap, Hqs; done).
    case_decide; [done|]. done.
  - done.
  - apply max_value_count; [done|]. rewrite length_fmap. lia.
Qed.

Local Open Scope nat_scope.

Lemma completeReadGraphHelper_ok llvm junk_max (g : G vertex_prop) :
  0 < num_vertices g → (Z.of_nat (num_vertices g) < 2 ^ 32)%Z → (0 ≤ junk_max)%Z →
  ¬ has_loop (level_edge g) 0 →
  (∀ v p, vprop g v = Some p → readable llvm p) →
  ∃ comp om st L qs,
    completeReadGraphHelper llvm junk_max g = Ret (comp, om, st) ∧
    same_edges comp g ∧
    length L = num_vertices g ∧
    (∀ x, x < num_vertices g →
      (lv L x = (-1)%Z ∧ ¬ reach (level_edge g) 0 x) ∨ longest (level_edge g) 0 x (lv L x)) ∧
    length qs = num_vertices g ∧
    (∀ v, v < num_vertices g → ∃ p q i, vprop g v = Some p ∧
      complete_vertex llvm p (lv L v) = Ret (q, i) ∧ qs !! v = Some q ∧
      vprop comp v = Some q ∧ mfind v om = Some i) ∧
    stats_ok junk_max L qs st.
Proof.
  intros Hn Hlt Hj Hloop Hread.
  destruct (findGrahpLevel_ok (out_edges g) (in_edges g) (num_vertices g))
    as (L & HL & Hlen & Hlong); [done| |done|].
  { intros x y _ Hy. by eapply out_edges_target. }
  destruct (complete_graph_spec llvm g L) as (comp & om & qs & Hc & He & Hqs & Hall); [done..|].
  destruct (compute_stats_spec junk_max L comp qs) as (st & Hst & Hok); try done.
  - intros ->. cbn in *. lia.
  - congruence.
  - by rewrite Hlen.
  - intros v q Hv. destruct (Hall v) as (? & q' & ? & ? & ? & ? & ? & ?).
    { rewrite <- Hqs. by eapply lookup_lt_Some. } congruence.
  - exists comp, om, st, L, qs. unfold completeReadGraphHelper. rewrite HL. cbn [mbind outcome_bind].
    rewrite Hc. cbn [mbind outcome_bind]. rewrite Hst. by split_and!.
Qed.

(** ** The initial chains *)

(** The number of the chain of a vertex in the file. *)
Definition chain_key (g : G vertex_prop) (v : nat) : option Z :=
  p ← vprop g v; match stoi (ch p) with Ret c => Some (u32 c) | Raise _ => None end.

Definition is_start (g : G vertex_prop) (v : nat) : Prop :=
  ∃ p, vprop g v = Some p ∧ opcode p = "BB"%string.

(** The vertices of one chain of the file, in order, among the first [n]. *)
Definition key_group (g : G vertex_prop) (n : nat) (k : Z) : list nat :=
  filter (λ v, chain_key g v = Some k) (seq 0 n).

Lemma key_group_S g n k : key_group g (S n) k =
  key_group g n k ++ if decide (chain_key g n = Some k) then [n] else [].
Proof. unfold key_group. rewrite seq_S, filter_app, filter_cons. done. Qed.

(** What the grouping loop has after [n] vertices. *)
Definition grouped (g : G vertex_prop) (n : nat) (first_ch first_node_id : Z)
    (m : ordmap Z (list nat)) : Prop :=
  key_sorted m ∧ concat m.*2 ≡ₚ seq 0 n ∧ [] ∉ m.*2 ∧
  (∀ k, default [] (mfind k m) = key_group g n k) ∧
  ((first_ch = 0%Z ∧ ∀ v, v < n → ¬ is_start g v) ∨
   ∃ v p, v < n ∧ vprop g v = Some p ∧ opcode p = "BB"%string ∧
     chain_key g v = Some first_ch ∧ name p = first_node_id).

Lemma group_vertices_spec (g : G vertex_prop) :
  (∀ v, v < num_vertices g → is_Some (chain_key g v)) →
  ∃ first_ch first_node_id m,
    foldM (group_vertex g) (0%Z, 0%Z, []) (vertices g) = Ret (first_ch, first_node_id, m) ∧
    grouped g (num_vertices g) first_ch first_node_id m.
Proof.
  intros Hkey. unfold vertices.
  destruct (foldM_seq (λ i b, grouped g i b.1.1 b.1.2 b.2) (group_vertex g) (num_vertices g)
    (0%Z, 0%Z, [])) as ([[fc fn] m] & Hloop & Hinv); [| |by eauto].
  - split_and!; [constructor|done|by apply not_elem_of_nil|done|]. left. split; [done|lia].
  - intros i [[fc fn] m] Hi (Hs & Hc & Hne & Hm & Hf).
    destruct (Hkey i Hi) as [k Hk]. pose proof Hk as Hk0.
    unfold chain_key in Hk0. destruct (vprop g i) as [p|] eqn:Hp; [|done]. cbn in Hk0.
    destruct (stoi (ch p)) as [c|] eqn:Hst; [|done]. injection Hk0 as Hk0.
    unfold group_vertex. rewrite Hp. cbn [deref mbind outcome_bind].
    rewrite Hst. cbn [mbind outcome_bind]. rewrite Hk0. eexists. split; [done|].
    cbn [fst snd]. split_and!.
    + by apply key_sorted_alter.
    + rewrite malter_concat, Hc, seq_S. done.
    + by apply malter_append_nonempty.
    + intros j. rewrite mfind_alter, key_group_S, Hk.
      destruct (kcmp j k) eqn:E.
      * apply kcmp_eq in E as ->. rewrite decide_True by done. cbn. by rewrite Hm.
      * rewrite decide_False, app_nil_r; [done|]. intros [= ->]. by rewrite kcmp_refl in E.
      * rewrite decide_False, app_nil_r; [done|]. intros [= ->]. by rewrite kcmp_refl in E.
    + case_bool_decide as Hbb.
      { right. exists i, p. by split_and!; [lia|..]. }
      destruct Hf as [[? Hno]|(v & q & ? & ? & ? & ? & ?)].
      * left. split; [done|]. intros v Hv (q & Hq & Hop).
        destruct (decide (v = i)) as [->|]; [congruence|]. apply (Hno v); [lia|]. by exists q.
      * right. exists v, q. by split_and!; [lia|..].
Qed.

Lemma imap_pair_snd {A} (l : list A) : (imap pair l).*2 = l.
Proof. rewrite fmap_imap. induction l as [|x l IH]; cbn; [done|]. by f_equal. Qed.

(** Taking the group of one key out of a map. *)
Lemma filter_key_perm (m : ordmap Z (list nat)) k l :
  key_sorted m → mfind k m = Some l →
  m ≡ₚ (k, l) :: filter (λ tm : Z * list nat, tm.1 ≠ k) m.
Proof.
  intros Hs%key_sorted_NoDup Hk. destruct (mreplace_split k l l m Hk) as (m1 & m2 & -> & _).
  unfold mkeys in Hs. rewrite fmap_app in Hs. cbn in Hs. apply NoDup_app in Hs as (_ & H1 & H2).
  apply NoDup_cons in H2 as [H2 _].
  assert (Hid : ∀ l', k ∉ l'.*1 → filter (λ tm : Z * list nat, tm.1 ≠ k) l' = l').
  { induction l' as [|[j x] l' IH]; intros Hl'; [done|]. cbn in Hl'.
    apply not_elem_of_cons in Hl' as [Hj Hl']. rewrite filter_cons_True by (cbn; congruence).
    by rewrite IH. }
  rewrite filter_app, filter_cons_False by (cbn; tauto). rewrite !Hid; [|done|].
  - by rewrite Permutation_middle.
  - intros Hin. apply (H1 k Hin). left.
Qed.

Lemma createChains_ok (g : G vertex_prop) :
  (∀ v, v < num_vertices g → is_Some (chain_key g v)) →
  ∃ first_ch first_node_id cs,
    createChains g = Ret (first_ch, first_node_id, cs) ∧
    concat cs ≡ₚ vertices g ∧
    cs !! 0 = Some (key_group g (num_vertices g) first_ch) ∧
    (∀ i c, cs !! S i = Some c → c ≠ [] ∧ ∃ k, c = key_group g (num_vertices g) k) ∧
    ((∃ v, v < num_vertices g ∧ is_start g v) →
     ∃ v p, vprop g v = Some p ∧ opcode p = "BB"%string ∧ name p = first_node_id ∧
       v ∈ key_group g (num_vertices g) first_ch).
Proof.
  intros Hkey.
  destruct (group_vertices_spec g Hkey) as (fc & fn & m & Hm & Hs & Hc & Hne & Hgrp & Hst).
  unfold createChains. rewrite Hm. cbn [mbind outcome_bind].
  set (m' := malter (default []) fc m).
  assert (Hm' : m' = malter (λ o, default [] o ++ []) fc m).
  { unfold m', malter. destruct (mfind fc m); cbn; by rewrite ?app_nil_r. }
  assert (Hs' : key_sorted m') by by apply key_sorted_alter.
  assert (Hf' : mfind fc m' = Some (key_group g (num_vertices g) fc)).
  { unfold m'. rewrite mfind_alter, kcmp_refl. by rewrite <- Hgrp. }
  assert (Hperm := filter_key_perm _ _ _ Hs' Hf').
  eexists fc, fn, _. rewrite imap_pair_snd. split; [done|]. split_and!.
  - rewrite Hf'. cbn [from_option concat].
    transitivity (concat m'.*2); [|rewrite Hm', malter_concat, app_nil_r; done].
    rewrite Hperm at 2. done.
  - by rewrite Hf'.
  - intros i c Hi.
    change ((filter (λ tm : Z * list nat, tm.1 ≠ fc) m').*2 !! i = Some c) in Hi.
    rewrite list_lookup_fmap in Hi.
    destruct (filter _ m' !! i) as [[k l]|] eqn:E; [|done]. injection Hi as <-.
    apply list_elem_of_lookup_2, list_elem_of_filter in E as [Hk Hin]. cbn in Hk |- *.
    apply mfind_Some in Hin; [|done]. unfold m' in Hin. rewrite mfind_alter in Hin.
    destruct (kcmp k fc) eqn:Ek; [by apply kcmp_eq in Ek|..].
    all: split; [intros ->; apply Hne; apply mfind_elem in Hin; by apply (list_elem_of_fmap_2 snd) in Hin|].
    all: exists k; by rewrite <- Hgrp, Hin.
  - intros (v & Hv & Hstart). destruct Hst as [[_ Hno]|(w & p & Hw & Hp & Hop & Hk & Hn)].
    { by destruct (Hno v). }
    exists w, p. split_and!; [done..|]. apply list_elem_of_filter. split; [done|].
    apply elem_of_seq. lia.
Qed.

(** ** Properties *)

(** The two copies of the graph read from the dot file are exact: when no
    two vertices have the same name, [cleanReadGraphHelper] and
    [cleanRemoveReadGraphHelper] never dereference an end iterator, and
    [orig_graph] has the vertices of the dot file in their order, with the same
    out-edges in the same order; only the colour is reset to black. *)
Theorem graph_read_copy (dirty : G vertex_prop) (Hnames : distinct_names dirty) :
  ∃ clean orig, cleanReadGraphHelper dirty = Ret clean ∧
    cleanRemoveReadGraphHelper clean = Ret orig ∧
    same_edges clean dirty ∧ same_edges orig dirty ∧
    ∀ v, vprop orig v = (orig_vertex ∘ clean_vertex) <$> vprop dirty v.
Proof.
  destruct (cleanReadGraphHelper_copy dirty Hnames) as (clean & Hc & He & Hv).
  destruct (cleanRemoveReadGraphHelper_copy clean) as (orig & Ho & He' & Hv').
  exists clean, orig. split_and!; [done..|by eapply same_edges_trans|].
  intros v. by rewrite Hv', Hv, <- option_fmap_compose.
Qed.

(** [C22] [completeReadGraphHelper] on a graph whose labels can be read, whose
    types are all known and whose level search meets no cycle: it returns, the
    complete graph has the same edges, each of its vertices carries as its type
    what stands before the first parenthesis of the label of the original one, the
    latency of that type, its level and chain number, [orig_map] holds the first
    number in parentheses of its label, and the statistics are right: the length is the largest
    level, [max_ilp] the larger of the uninitialised value it starts from and
    the largest number of operations on a level, [avg_ilp] operations over
    levels, the histogram and the first-level loads are the counts. *)
Theorem completeReadGraphHelper_correct llvm junk_max (g : G vertex_prop)
  (Hn : 0 < num_vertices g) (Hlt : (Z.of_nat (num_vertices g) < 2 ^ 32)%Z)
  (Hj : (0 ≤ junk_max)%Z) (Hloop : ¬ has_loop (level_edge g) 0)
  (Hread : ∀ v p, vprop g v = Some p → readable llvm p) :
  ∃ comp om st L qs,
    completeReadGraphHelper llvm junk_max g = Ret (comp, om, st) ∧
    same_edges comp g ∧
    length L = num_vertices g ∧
    (∀ x, x < num_vertices g →
      (lv L x = (-1)%Z ∧ ¬ reach (level_edge g) 0 x) ∨ longest (level_edge g) 0 x (lv L x)) ∧
    length qs = num_vertices g ∧
    (∀ v, v < num_vertices g → ∃ p q i, vprop g v = Some p ∧
      completed llvm p (lv L v) q i ∧ qs !! v = Some q ∧
      vprop comp v = Some q ∧ mfind v om = Some i) ∧
    stats_ok junk_max L qs st.
Proof.
  destruct (completeReadGraphHelper_ok llvm junk_max g Hn Hlt Hj Hloop Hread) as (comp & om & st & L & qs & H1 & H2 & H3 & H4 & H5 & H6 & H7).
  exists comp, om, st, L, qs. split_and!; [done..| |done]. intros v Hv. destruct (H6 v Hv) as (p & q & i & Hp & Hq & Hr).
  exists p, q, i. split_and!; [done|by apply complete_vertex_completed|apply Hr..].
Qed.

(** [createChains], when every chain number of the file can be read:
    every vertex is in exactly one chain, each chain is the list in order of
    the vertices that carry one number of the file, no chain but possibly
    chain 0 is empty, and chain 0 holds the start node of the graph when there
    is one. *)
Theorem createChains_correct (g : G vertex_prop)
  (Hkey : ∀ v, v < num_vertices g → is_Some (chain_key g v)) :
  ∃ first_ch first_node_id cs,
    createChains g = Ret (first_ch, first_node_id, cs) ∧
    concat cs ≡ₚ vertices g ∧
    cs !! 0 = Some (key_group g (num_vertices g) first_ch) ∧
    (∀ i c, cs !! S i = Some c → c ≠ [] ∧ ∃ k, c = key_group g (num_vertices g) k) ∧
    ((∃ v, v < num_vertices g ∧ is_start g v) →
     ∃ v p, vprop g v = Some p ∧ opcode p = "BB"%string ∧ name p = first_node_id ∧
       v ∈ key_group g (num_vertices g) first_ch).
Proof. by apply createChains_ok. Qed.
End copies.

(** ** An example graph: BB -> Load -> Add, BB -> Add *)

Definition ex_vertex (n : Z) (lab c : string) : vertex_prop :=
  mkVertex n lab c (label_type lab) "red" "".

Definition ex_llvm : ordmap string Z := [("Add", 2); ("BB", 2); ("Load", 2)]%string.

Definition ex_dirty : adjacency vertex_prop :=
  add_edges [(0, 1); (1, 2); (0, 2)]%nat
    (add_vertices [ex_vertex 0 "BB(10)" "7"; ex_vertex 1 "Load(11)" "3"; ex_vertex 2 "Add(12)" "3"]
       empty_graph).

Lemma ex_dirty_props v p : vprop ex_dirty v = Some p →
  (v = 0%nat ∧ p = ex_vertex 0 "BB(10)" "7") ∨ (v = 1%nat ∧ p = ex_vertex 1 "Load(11)" "3") ∨
  (v = 2%nat ∧ p = ex_vertex 2 "Add(12)" "3").
Proof. destruct v as [|[|[|v]]]; intros [= <-]; tauto. Qed.

Lemma graph_read_copy_witness :
  ∃ clean orig, cleanReadGraphHelper ex_dirty = Ret clean ∧
    cleanRemoveReadGraphHelper clean = Ret orig ∧
    same_edges clean ex_dirty ∧ same_edges orig ex_dirty ∧
    ∀ v, vprop orig v = (orig_vertex ∘ clean_vertex) <$> vprop ex_dirty v.
Proof.
  apply (graph_read_copy ex_dirty). intros u v p q Hp%ex_dirty_props Hq%ex_dirty_props.
  destruct Hp as [[-> ->]|[[-> ->]|[-> ->]]], Hq as [[-> ->]|[[-> ->]|[-> ->]]]; done.
Defined.

Lemma completeReadGraphHelper_correct_witness :
  ∃ comp om st L qs,
    completeReadGraphHelper ex_llvm 0 ex_dirty = Ret (comp, om, st) ∧
    same_edges comp ex_dirty ∧
    length L = num_vertices ex_dirty ∧
    (∀ x, (x < num_vertices ex_dirty)%nat →
      (lv L x = -1 ∧ ¬ reach (level_edge ex_dirty) 0 x) ∨ longest (level_edge ex_dirty) 0 x (lv L x)) ∧
    length qs = num_vertices ex_dirty ∧
    (∀ v, (v < num_vertices ex_dirty)%nat → ∃ p q i, vprop ex_dirty v = Some p ∧
      completed ex_llvm p (lv L v) q i ∧ qs !! v = Some q ∧
      vprop comp v = Some q ∧ mfind v om = Some i) ∧
    stats_ok 0 L qs st.
Proof.
  apply (completeReadGraphHelper_correct ex_llvm 0 ex_dirty).
  - vm_compute. lia.
  - done.
  - done.
  - apply rising_no_loop. intros [|[|[|x]]] y Hy; vm_compute in Hy; elem_cases Hy; lia.
  - intros v p Hp%ex_dirty_props.
    destruct Hp as [[-> ->]|[[-> ->]|[-> ->]]]; do 3 eexists; split_and!; reflexivity.
Defined.

Lemma createChains_correct_witness :
  ∃ first_ch first_node_id cs,
    createChains ex_dirty = Ret (first_ch, first_node_id, cs) ∧
    concat cs ≡ₚ vertices ex_dirty ∧
    cs !! 0%nat = Some (key_group ex_dirty (num_vertices ex_dirty) first_ch) ∧
    (∀ i c, cs !! S i = Some c → c ≠ [] ∧ ∃ k, c = key_group ex_dirty (num_vertices ex_dirty) k) ∧
    ((∃ v, (v < num_vertices ex_dirty)%nat ∧ is_start ex_dirty v) →
     ∃ v p, vprop ex_dirty v = Some p ∧ opcode p = "BB"%string ∧ name p = first_node_id ∧
       v ∈ key_group ex_dirty (num_vertices ex_dirty) first_ch).
Proof.
  apply (createChains_correct ex_dirty).
  intros [|[|[|v]]] Hv; [by eexists..|]. exfalso. vm_compute in Hv. lia.
Defined.

Example ex_createChains : createChains ex_dirty = Ret (7, 0, [[0]; [1; 2]]%nat).
Proof. reflexivity. Qed.
