(* ===== verification/GraphChains.v ===== *)
(** * Chains, levels, blocks and the ILP graph

    The second half of [newGraph::initialize] ([src/src/newGraph.cpp]):
    [buildChainGraph] describes each chain, [buildChainLevel] groups the chains
    by level, [createChainBlocks] by block, [buildILPGraph] builds a graph of
    the operations in chain order, [ilpStat] and [printChainStats] compute the
    numbers that are printed. *)

From S2P Require Import Prelude OrdMap Histogram BoostGraph ChainDeps Walks Levels Graph GraphRead.
From coqutil Require Import Datatypes.RecordSettersUsingExistingGetters.
From stdpp Require Import sorting.
Open Scope Z_scope.

(** [G[v]] with the bounds [vecS] leaves unchecked *)
Definition gprop `{BoostGraph G} {vp} (g : G vp) (v : nat) : outcome vp :=
  match vprop g v with Some p => Ret p | None => Raise OutOfBounds end.

(** [find_if] on the chain id, dereferenced *)
Definition get_chain (id : nat) (cg : list chainGraph) : outcome chainGraph :=
  j ← deref (find_chain id cg); cg.[j]!.

Section chains.
Context `{BoostGraph G}.

(** ** Describing the chains *)

Definition entry_size (k : nat) (m : ordmap nat (list nat)) : nat :=
  match mfind k m with Some l => length l | None => O end.

Definition mem_chain (orig_graph : G vertex_prop) (c : list nat) : outcome bool :=
  foldM (λ b t_ins,
      p ← gprop orig_graph t_ins;
      Ret (b || bool_decide (opcode p = "Load"%string) || bool_decide (opcode p = "Store"%string)))
    false c.

(** The live-in and live-out fields receive the numbers of distinct chains,
    the fan-in and fan-out fields the numbers of edges. *)
Definition chain_node (orig_graph : G vertex_prop)
    (reverse_mapping chain_to_dependencies un_reverse_mapping un_dependencies : ordmap nat (list nat))
    (i : nat) (c : list nat) : outcome chainGraph :=
  is_mem ← mem_chain orig_graph c;
  Ret (ChainGraph i 0 (length c) (entry_size i un_reverse_mapping) (entry_size i un_dependencies)
         (entry_size i reverse_mapping) (entry_size i chain_to_dependencies) 0 0 0 0 (-1) is_mem c).

Definition buildChainGraph (orig_graph : G vertex_prop)
    (reverse_mapping chain_to_dependencies un_reverse_mapping un_dependencies : ordmap nat (list nat))
    (Chains : chains) : outcome (list chainGraph) :=
  '(chain_graph, _) ← foldM (λ '(chain_graph, i) c,
      temp_node ← chain_node orig_graph reverse_mapping chain_to_dependencies
                    un_reverse_mapping un_dependencies i c;
      Ret (chain_graph ++ [temp_node], S i)) ([], O) Chains;
  findChainsLevel (length chain_graph) 0 0 un_dependencies chain_graph.
End chains.

(** [chain_level[ch.level].push_back(ch.chainId)]: the key is unsigned *)
Definition buildChainLevel (chain_graph : list chainGraph) : ordmap Z (list nat) :=
  foldl (λ chain_level c, malter (λ o, default [] o ++ [chainId c]) (u32 (level c)) chain_level)
    [] chain_graph.

(** ** Blocks *)

Section blocks.
Variable param_set : ordmap string Z.                    (* [graph_parameter.param_set] *)
Variables un_dependencies un_reverse_mapping : ordmap nat (list nat).

Record block_state := mkBlockState {
  bs_chains : list chainGraph;
  bs_i : nat;
  bs_pass : ordmap nat nat                               (* [m_block_pass] *)
}.

(** [find_if(...)->blockID = blk] *)
Definition set_block (id blk : nat) (cg : list chainGraph) : outcome (list chainGraph) :=
  j ← deref (find_chain id cg);
  c ← cg.[j]!;
  Ret (<[j := { c with blockID := blk }]> cg).

(** [m_it->blockID = ++i; m_block_pass[i] = 1;] *)
Definition fresh_block (id : nat) (s : block_state) : outcome block_state :=
  let i := S (bs_i s) in
  cg ← set_block id i (bs_chains s);
  Ret (mkBlockState cg i (mset i 1%nat (bs_pass s))).

(** A child of chain 0. *)
Definition root_child (s : block_state) (child : nat) : outcome block_state :=
  m ← get_chain child (bs_chains s);
  if level m =? 1 then fresh_block child s else Ret s.

Definition fresh_if_unset (child : nat) (s : block_state) : outcome block_state :=
  m ← get_chain child (bs_chains s);
  if (blockID m =? 0)%nat then fresh_block child s else Ret s.

(** A child of another chain [ch_id]; the counter of children is threaded. *)
Definition block_child (ch_id : nat) : block_state * nat → nat → outcome (block_state * nat) :=
  λ '(s, cnt_child) child,
    parents ← deref (mfind child un_reverse_mapping);
    let is_single_parent := (length parents =? 2)%nat && bool_decide (0%nat ∈ parents) in
    c ← get_chain ch_id (bs_chains s);
    if is_single_parent && (cnt_child =? 1)%nat then
      cg ← set_block child (blockID c) (bs_chains s);
      Ret (mkBlockState cg (bs_i s) (bs_pass s), S cnt_child)
    else if is_single_parent && (1 <? cnt_child)%nat then
      pass ← deref (mfind (blockID c) (bs_pass s));
      block_limit ← deref (mfind "BLOCK_LIMIT"%string param_set);
      if Z.of_nat (pass + 1) <=? block_limit then
        cg ← set_block child (blockID c) (bs_chains s);
        Ret (mkBlockState cg (bs_i s) (mset (blockID c) (S pass) (bs_pass s)), S cnt_child)
      else s ← fresh_if_unset child s; Ret (s, cnt_child)
    else s ← fresh_if_unset child s; Ret (s, cnt_child).

(** One chain of the loop over the levels. *)
Definition block_chain_step (s : block_state) (ch_id : nat) : outcome block_state :=
  if (ch_id =? 0)%nat then
    cg ← set_block ch_id (bs_i s) (bs_chains s);
    let s := mkBlockState cg (bs_i s) (mset (bs_i s) O (bs_pass s)) in
    children ← deref (mfind ch_id un_dependencies);
    foldM root_child s children
  else
    _ ← get_chain ch_id (bs_chains s);
    match mfind ch_id un_dependencies with
    | None => Ret s
    | Some children => '(s, _) ← foldM (block_child ch_id) (s, 1%nat) children; Ret s
    end.

Definition assign_blocks (chain_level : ordmap Z (list nat)) (chain_graph : list chainGraph)
    : outcome block_state :=
  foldM (λ s ch_l, foldM block_chain_step s ch_l.2)
    (mkBlockState chain_graph O []) chain_level.

(** The chains of each block, in the order the blocks are met. *)
Definition add_to_block (block_chain : list Block) (c : chainGraph) : list Block :=
  match find_index (λ m, blkID m =? blockID c)%nat block_chain with
  | None => block_chain ++ [mkBlock (blockID c) [chainId c]]
  | Some j => alter (λ b, mkBlock (blkID b) (blk_chains b ++ [chainId c])) j block_chain
  end.

Definition createChainBlocks (chain_level : ordmap Z (list nat)) (chain_graph : list chainGraph)
    : outcome (list chainGraph * list Block) :=
  s ← assign_blocks chain_level chain_graph;
  Ret (bs_chains s, foldl add_to_block [] (bs_chains s)).
End blocks.

(** ** The ILP graph *)

Section ilp.
Context `{BoostGraph G}.
Variable un_reverse_mapping : ordmap nat (list nat).

(** [std::sort(ch.nodes.begin(), ch.nodes.end())] *)
Definition sort_nodes (j : nat) (cg : list chainGraph) : outcome (list chainGraph) :=
  c ← cg.[j]!;
  Ret (<[j := { c with nodes := merge_sort le (nodes c) }]> cg).

(** The last vertex of each parent chain, whose nodes are sorted on the way. *)
Definition parent_ends (cg : list chainGraph) (parents : list nat)
    : outcome (list chainGraph * list nat) :=
  foldM (λ '(cg, parent_set) ch_p,
      j ← deref (find_chain ch_p cg);
      cg ← sort_nodes j cg;
      p ← cg.[j]!;
      b ← deref (last (nodes p));
      Ret (cg, parent_set ++ [b])) (cg, []) parents.

(** The edges of one chain whose nodes are [ns]. *)
Definition chain_edges (parent_set ns : list nat) : list chainDependency :=
  imap (λ i n, (match ns !! S i with Some n' => [ChainDep n n'] | None => [] end) ++
               if (i =? 0)%nat then (λ t_p, ChainDep t_p n) <$> parent_set else []) ns
  ≫= id.

Definition ilp_chain (k : nat) :
    list chainGraph * list chainDependency * list nat →
    outcome (list chainGraph * list chainDependency * list nat) :=
  λ '(cg, new_edges, new_vertices),
    c ← cg.[k]!;
    match mfind (chainId c) un_reverse_mapping with
    | None => Ret (cg, new_edges, new_vertices ++ nodes c)
    | Some parents =>
        '(cg, parent_set) ← parent_ends cg parents;
        cg ← sort_nodes k cg;
        c ← cg.[k]!;
        Ret (cg, new_edges ++ chain_edges parent_set (nodes c), new_vertices ++ nodes c)
    end.

(** What a vertex that nobody fills in holds. *)
Definition nop_vertex (n : nat) (ir : string) : vertex_prop :=
  mkVertex (Z.of_nat n) "NOP" "1" "NOP" "black" ir.

(** The loop over the new vertices fills in [orig_graph], not [ilp_graph]. *)
Definition ilp_vertices (blank : vertex_prop) (new_vertices : list nat) (orig_graph : G vertex_prop)
    : outcome (G vertex_prop * G vertex_prop * ordmap nat nat) :=
  foldM (λ '(ilp_graph, orig_graph, v_map) i,
      n ← new_vertices.[i]!;
      let new_v := num_vertices ilp_graph in
      p ← gprop orig_graph new_v;
      Ret (add_vertex blank ilp_graph, set_vprop new_v (nop_vertex n (ir p)) orig_graph,
           memplace new_v i v_map))
    (empty_graph, orig_graph, []) (seq 0 (length new_vertices)).

Definition ilp_edges (v_map : ordmap nat nat) (new_edges : list chainDependency)
    (ilp_graph : G vertex_prop) : outcome (G vertex_prop) :=
  foldM (λ ilp_graph edge,
      s ← deref (mfind (source edge) v_map);
      t ← deref (mfind (target edge) v_map);
      Ret (add_edge s t ilp_graph)) ilp_graph new_edges.

Definition buildILPGraph (blank : vertex_prop) (orig_graph : G vertex_prop)
    (chain_graph : list chainGraph)
    : outcome (list chainGraph * G vertex_prop * G vertex_prop) :=
  '(cg, new_edges, new_vertices) ←
    foldM (λ s k, ilp_chain k s) (chain_graph, [], []) (seq 0 (length chain_graph));
  '(ilp_graph, orig_graph, v_map) ← ilp_vertices blank new_vertices orig_graph;
  ilp_graph ← ilp_edges v_map new_edges ilp_graph;
  Ret (cg, orig_graph, ilp_graph).

(** [ilpStat]: how many levels hold one or two, three or four, other numbers
    of operations, and the average as numerator and denominator. *)
Definition ilpStat (orig_graph ilp_graph : G vertex_prop) : outcome (Z * Z * Z * (Z * Z)) :=
  m_level ← findGrahpLevel (out_edges ilp_graph) (in_edges ilp_graph) (num_vertices ilp_graph) 0
              (replicate (num_vertices orig_graph) (-1)) 0;
  let ilp_histo := histogram (u32 <$> m_level) in
  let '(set1, set2, set3) := foldl (λ '(set1, set2, set3) m,
      if (m.2 =? 1) || (m.2 =? 2) then (u32 (set1 + 1), set2, set3)
      else if (m.2 =? 3) || (m.2 =? 4) then (set1, u32 (set2 + 1), set3)
      else (set1, set2, u32 (set3 + 1))) (0, 0, 0) ilp_histo in
  Ret (set1, set2, set3, (sum_values ilp_histo, Z.of_nat (msize ilp_histo))).
End ilp.

(** ** The numbers [printChainStats] prints *)

Record chain_stats := mkChainStats {
  cs_num_ch : nat;
  cs_num_block : nat;
  cs_avg_length : Z * Z;
  cs_max_size : Z;
  cs_avg_ilp : Z * Z;
  cs_max_ilp : Z;
  cs_max_level : Z;
  cs_inter : Z;
  cs_intra : Z;
  cs_ilp : ordmap Z Z;
  cs_size_histo : ordmap Z Z;
  cs_liveIn_histo : ordmap Z Z;
  cs_liveOut_histo : ordmap Z Z;
  cs_op_list : ordmap Z (list nat)
}.

(** Sizes below five have a bucket each, the others share bucket five. *)
Definition bucket (n : nat) : Z := if Z.of_nat n <? 5 then Z.of_nat n else 5.

(** The map [ch_mlp]: the iterator of [ch_mlp.find] is compared with
    [ch_ilp.end()], the end of another map, which it never equals. *)
Definition chain_mlp (chain_graph : list chainGraph) : outcome (ordmap Z Z) :=
  foldM (λ ch_mlp c,
      if is_mem c then
        n ← deref (mfind (u32 (level c)) ch_mlp);
        Ret (mset (u32 (level c)) (u32 (n + 1)) ch_mlp)
      else Ret ch_mlp) [] chain_graph.

Definition chain_numbers (chain_graph : list chainGraph) : chain_stats :=
  let ch_ilp := histogram ((λ c, u32 (level c)) <$> chain_graph) in
  let n := Z.of_nat (length chain_graph) in
  mkChainStats (length chain_graph)
    (length (foldl (λ un_block c, sinsert (blockID c) un_block) [] chain_graph))
    (foldl (λ s c, u32 (s + Z.of_nat (Levels.size c))) 0 chain_graph, n)
    (foldl (λ m c, if m <? Z.of_nat (Levels.size c) then Z.of_nat (Levels.size c) else m) 0 chain_graph)
    (sum_values ch_ilp, Z.of_nat (msize ch_ilp))
    (max_value 0 ch_ilp)
    (foldl (λ m c, if m <? level c then level c else m) 0 chain_graph)
    (foldl (λ s c, u32 (s + u32 (Z.of_nat (Levels.size c) - 1))) 0 chain_graph)
    (foldl (λ s c, u32 (s + Z.of_nat (fan_in c))) 0 chain_graph)
    ch_ilp
    (histogram ((λ c, bucket (Levels.size c)) <$> chain_graph))
    (histogram ((λ c, bucket (live_in c)) <$> chain_graph))
    (histogram ((λ c, bucket (live_out c)) <$> chain_graph))
    (foldl (λ ch_op_list c, foldl (λ l op, malter (λ o, default [] o ++ [op]) (bucket (Levels.size c)) l)
       ch_op_list (nodes c)) [] chain_graph).

(** The opcode histogram of one bucket. *)
Definition bucket_ops `{BoostGraph G} (orig_graph : G vertex_prop) (ops : list nat)
    : outcome (ordmap string Z) :=
  foldM (λ temp_hist v, p ← gprop orig_graph v; Ret (count_key temp_hist (opcode p))) [] ops.

Definition printChainStats `{BoostGraph G} (orig_graph : G vertex_prop) (chain_graph : list chainGraph)
    : outcome (chain_stats * ordmap Z Z * list (ordmap string Z)) :=
  let st := chain_numbers chain_graph in
  ch_mlp ← chain_mlp chain_graph;
  hists ← foldM (λ hists i,
      match mfind (Z.of_nat i + 1) (cs_op_list st) with
      | None => Ret hists
      | Some ops => h ← bucket_ops orig_graph ops; Ret (hists ++ [h])
      end) [] (seq 0 5);
  Ret (st, ch_mlp, hists).

(** ** Counting dependencies *)

Local Open Scope nat_scope.

Lemma pairs_of_push k x (m : ordmap nat (list nat)) :
  pairs_of (malter (λ o, default [] o ++ [x]) k m) ≡ₚ pairs_of m ++ [(k, x)].
Proof.
  unfold malter, pairs_of. destruct (mfind k m) as [xs|] eqn:E; cbn [from_option id].
  - destruct (mreplace_split k xs (xs ++ [x]) m E) as (m1 & m2 & -> & ->).
    rewrite !bind_app, !bind_cons, fmap_app, <- !app_assoc.
    do 2 apply Permutation_app_head. apply Permutation_app_comm.
  - rewrite minsert_perm, bind_cons. apply (Permutation_app_comm [(k, x)]).
Qed.

Lemma pairs_of_push_all ps m : pairs_of (push_all ps m) ≡ₚ pairs_of m ++ ps.
Proof.
  revert m. induction ps as [|[k x] ps IH]; intros m; cbn; [by rewrite app_nil_r|].
  unfold push_all in IH. rewrite IH, pairs_of_push, <- app_assoc. done.
Qed.

Lemma entry_size_default k m : entry_size k m = length (default [] (mfind k m)).
Proof. unfold entry_size. by destruct (mfind k m). Qed.

Lemma filter_fmap_length {A B} (f : A → B) (P : B → Prop) `{∀ x, Decision (P x)} l :
  length (filter P (f <$> l)) = length (filter (λ x, P (f x)) l).
Proof.
  induction l as [|x l IH]; [done|]. cbn [fmap list_fmap]. rewrite !filter_cons.
  case_decide; cbn; by rewrite IH.
Qed.

(** The vectors count edges. *)
Lemma histo_size deps i :
  entry_size i (histoDependency deps) = length (filter (λ d, source d = i) deps).
Proof.
  rewrite entry_size_default, histoDependency_push, push_all_values. cbn.
  unfold dep_pairs. by rewrite length_fmap, filter_fmap_length.
Qed.

Lemma reverse_histo_size deps i :
  entry_size i (reverseMappingVec (histoDependency deps)) =
  length (filter (λ d, target d = i) deps).
Proof.
  rewrite entry_size_default, reverseMappingVec_push, push_all_values. cbn.
  rewrite length_fmap, filter_fmap_length. cbn.
  rewrite histoDependency_push, pairs_of_push_all. cbn. unfold dep_pairs.
  by rewrite filter_fmap_length.
Qed.

(** The sets count chains. *)
Lemma ssorted_size (s : list nat) (l : list nat) :
  StronglySorted klt s → (∀ x, x ∈ s ↔ x ∈ l) → length s = length (remove_dups l).
Proof.
  intros Hs Heq. apply Permutation_length, NoDup_Permutation.
  - by apply ssorted_NoDup.
  - apply NoDup_remove_dups.
  - intros x. by rewrite elem_of_remove_dups.
Qed.

Lemma wf_setmap_size m i (l : list nat) :
  wf_setmap m → (∀ x, related m i x ↔ x ∈ l) → entry_size i m = length (remove_dups l).
Proof.
  intros [_ Hm] Heq. unfold related in Heq. unfold entry_size.
  destruct (mfind i m) as [s|] eqn:E.
  - apply ssorted_size; [by eapply Hm|]. intros x. rewrite <- Heq. naive_solver.
  - destruct l as [|x l]; [done|]. destruct (proj2 (Heq x)) as (? & ? & _); [left|done].
Qed.

Lemma elem_of_targets (deps : list chainDependency) i x :
  x ∈ target <$> filter (λ d, source d = i) deps ↔ ChainDep i x ∈ deps.
Proof.
  rewrite list_elem_of_fmap. setoid_rewrite list_elem_of_filter. split.
  - by intros ([s t] & -> & <- & Hin).
  - intros Hin. by exists (ChainDep i x).
Qed.

Lemma elem_of_sources (deps : list chainDependency) i x :
  x ∈ source <$> filter (λ d, target d = i) deps ↔ ChainDep x i ∈ deps.
Proof.
  rewrite list_elem_of_fmap. setoid_rewrite list_elem_of_filter. split.
  - by intros ([s t] & -> & <- & Hin).
  - intros Hin. by exists (ChainDep x i).
Qed.

Lemma unique_size deps i :
  entry_size i (uniqueDependency (histoDependency deps)) =
  length (remove_dups (target <$> filter (λ d, source d = i) deps)).
Proof.
  apply wf_setmap_size; [apply uniqueDependency_wf|]. intros x.
  by rewrite related_unique, related_histo, elem_of_targets by apply histoDependency_sorted.
Qed.

Lemma reverse_unique_size deps i :
  entry_size i (reverseMapping (uniqueDependency (histoDependency deps))) =
  length (remove_dups (source <$> filter (λ d, target d = i) deps)).
Proof.
  apply wf_setmap_size; [apply reverseMapping_wf|]. intros x.
  rewrite related_reverse by apply uniqueDependency_wf.
  by rewrite related_unique, related_histo, elem_of_sources by apply histoDependency_sorted.
Qed.

(** ** The description of the chains *)

Section describe.
Context `{BoostLaws G}.

Definition mem_vertex (g : G vertex_prop) (v : nat) : Prop :=
  ∃ p, vprop g v = Some p ∧ (opcode p = "Load"%string ∨ opcode p = "Store"%string).

Lemma gprop_ret {vp} (g : G vp) v p : vprop g v = Some p → gprop g v = Ret p.
Proof. unfold gprop. by intros ->. Qed.

Lemma mem_chain_spec (g : G vertex_prop) c : (∀ v, v ∈ c → v < num_vertices g) →
  ∃ b, mem_chain g c = Ret b ∧ (b = true ↔ ∃ v, v ∈ c ∧ mem_vertex g v).
Proof.
  intros Hc. unfold mem_chain.
  assert (Hgen : ∀ b0, ∃ b, foldM (λ b t_ins, p ← gprop g t_ins;
      Ret (b || bool_decide (opcode p = "Load"%string) || bool_decide (opcode p = "Store"%string)))
      b0 c = Ret b ∧ (b = true ↔ b0 = true ∨ ∃ v, v ∈ c ∧ mem_vertex g v)).
  { induction c as [|v c IH]; intros b0.
    { exists b0. split; [done|]. split; [tauto|]. intros [?|(v & Hv & _)]; [done|].
      by apply not_elem_of_nil in Hv. }
    destruct (vprop_ret g v) as [p Hp]; [apply Hc; left|].
    cbn [foldM]. rewrite (gprop_ret _ _ _ Hp). cbn [mbind outcome_bind].
    destruct (IH ltac:(set_solver) (b0 || bool_decide (opcode p = "Load"%string)
      || bool_decide (opcode p = "Store"%string))) as (b & Hb & Heq).
    exists b. split; [exact Hb|]. rewrite Heq, !orb_true_iff, !bool_decide_eq_true. unfold mem_vertex.
    split.
    - intros [[[?|?]|?]|(w & ? & ?)]; [by left| | |].
      + right. exists v. split; [left|]. eauto.
      + right. exists v. split; [left|]. eauto.
      + right. exists w. split; [by right|done].
    - intros [?|(w & [->|Hw]%elem_of_cons & q & Hq & Hop)]; [tauto| |].
      + assert (q = p) as -> by congruence. tauto.
      + right. exists w. split; [done|]. by exists q. }
  destruct (Hgen false) as (b & Hb & Heq). exists b. split; [done|]. rewrite Heq.
  split; [intros [?|?]; done|tauto].
Qed.

(** What the entry of chain [i] says of its vertices [c] and of the edges. *)
Record described (g : G vertex_prop) (deps : list chainDependency) (i : nat) (c : list nat)
    (ch : chainGraph) : Prop := {
  ds_id : chainId ch = i;
  ds_nodes : nodes ch = c;
  ds_size : Levels.size ch = length c;
  ds_block : blockID ch = 0;
  ds_fan_out : fan_out ch = length (filter (λ d, source d = i) deps);
  ds_fan_in : fan_in ch = length (filter (λ d, target d = i) deps);
  ds_live_out : live_out ch = length (remove_dups (target <$> filter (λ d, source d = i) deps));
  ds_live_in : live_in ch = length (remove_dups (source <$> filter (λ d, target d = i) deps));
  ds_mem : is_mem ch = true ↔ ∃ v, v ∈ c ∧ mem_vertex g v
}.

Lemma described_level g deps i c ch l :
  described g deps i c ch → described g deps i c (set_level ch l).
Proof. intros []. by split. Qed.

Lemma chain_node_spec g deps i c : (∀ v, v ∈ c → v < num_vertices g) →
  ∃ ch, chain_node g (reverseMappingVec (histoDependency deps)) (histoDependency deps)
      (reverseMapping (uniqueDependency (histoDependency deps)))
      (uniqueDependency (histoDependency deps)) i c = Ret ch ∧
    described g deps i c ch ∧ level ch = (-1)%Z.
Proof.
  intros Hc. destruct (mem_chain_spec g c Hc) as (b & Hb & Heq).
  unfold chain_node. rewrite Hb. cbn [mbind outcome_bind]. eexists. split; [done|].
  split; [|done]. split; cbn; try done.
  - apply histo_size.
  - apply reverse_histo_size.
  - apply unique_size.
  - apply reverse_unique_size.
Qed.

Lemma foldM_imap {A B} (f : nat → A → outcome B) (Q : nat → A → B → Prop) (l : list A) :
  (∀ i x, l !! i = Some x → ∃ y, f i x = Ret y ∧ Q i x y) →
  ∃ ys, foldM (λ '(ys, i) x, y ← f i x; Ret (ys ++ [y], S i)) ([], 0) l = Ret (ys, length l) ∧
    length ys = length l ∧ ∀ i x, l !! i = Some x → ∃ y, ys !! i = Some y ∧ Q i x y.
Proof.
  intros Hf.
  assert (Hgen : ∀ l2 l1 ys, l = l1 ++ l2 → length ys = length l1 →
    (∀ i x, l1 !! i = Some x → ∃ y, ys !! i = Some y ∧ Q i x y) →
    ∃ ys', foldM (λ '(ys, i) x, y ← f i x; Ret (ys ++ [y], S i)) (ys, length l1) l2 = Ret (ys', length l) ∧
      length ys' = length l ∧ ∀ i x, l !! i = Some x → ∃ y, ys' !! i = Some y ∧ Q i x y).
  { induction l2 as [|x l2 IH]; intros l1 ys -> Hlen Hall.
    { rewrite app_nil_r in *. by exists ys. }
    destruct (Hf (length l1) x) as (y & Hy & HQ).
    { rewrite lookup_app_r, Nat.sub_diag; done. }
    cbn [foldM]. rewrite Hy. cbn [mbind outcome_bind].
    replace (S (length l1)) with (length (l1 ++ [x])) by (rewrite length_app; cbn; lia).
    apply IH; [by rewrite <- app_assoc|rewrite !length_app; cbn; lia|].
    intros i z [Hi|[Hi Hz]]%lookup_app_Some.
    - destruct (Hall i z Hi) as (w & Hw & ?). exists w. split; [|done]. by apply lookup_app_l_Some.
    - destruct (i - length l1) as [|k] eqn:Ek; [|done]. cbn in Hz. injection Hz as <-.
      assert (i = length l1) as -> by lia. exists y. split; [|done].
      rewrite lookup_app_r, Hlen, Nat.sub_diag; [done|lia]. }
  by apply (Hgen l [] []).
Qed.

Lemma buildChainGraph_ok (g : G vertex_prop) (deps : list chainDependency) (cs : chains) :
  let un := uniqueDependency (histoDependency deps) in
  cs ≠ [] → (∀ v, v ∈ concat cs → v < num_vertices g) →
  (∀ s t, ChainDep s t ∈ deps → t < length cs) → ¬ has_loop (related un) 0 →
  ∃ cg, buildChainGraph g (reverseMappingVec (histoDependency deps)) (histoDependency deps)
          (reverseMapping un) un cs = Ret cg ∧
    length cg = length cs ∧
    ∀ i c, cs !! i = Some c → ∃ ch, cg !! i = Some ch ∧ described g deps i c ch ∧
      ((level ch = (-1)%Z ∧ ¬ reach (related un) 0 i) ∨ longest (related un) 0 i (level ch)).
Proof.
  intros un Hne Hin Hdeps Hloop.
  destruct (foldM_imap (chain_node g (reverseMappingVec (histoDependency deps)) (histoDependency deps)
      (reverseMapping un) un) (λ i c ch, described g deps i c ch ∧ level ch = (-1)%Z) cs)
    as (cg & Hloop1 & Hlen & Hall).
  { intros i c Hi. apply chain_node_spec. intros v Hv. apply Hin.
    apply elem_of_concat_lookup. eauto. }
  assert (Hcg : ∀ i ch, cg !! i = Some ch → ∃ c, cs !! i = Some c ∧ described g deps i c ch ∧ level ch = (-1)%Z).
  { intros i ch Hi. destruct (lookup_lt_is_Some_2 cs i) as [c Hc].
    { rewrite <- Hlen. by eapply lookup_lt_Some. }
    destruct (Hall i c Hc) as (ch' & Hi' & ?). exists c. split; [done|]. congruence. }
  destruct (findChainsLevel_ok cg un) as (L & HL & HlenL & Hlev).
  - intros ->. by destruct cs.
  - intros i ch Hi. destruct (Hcg i ch Hi) as (c & _ & Hd & _). apply Hd.
  - intros i ch Hi. by destruct (Hcg i ch Hi) as (c & _ & _ & ?).
  - intros x y Hxy. unfold un in Hxy. rewrite related_unique in Hxy by apply histoDependency_sorted.
    apply related_histo, Hdeps in Hxy. by rewrite Hlen.
  - done.
  - exists (with_levels cg L). unfold buildChainGraph. rewrite Hloop1. cbn [mbind outcome_bind].
    split_and!; [done| |].
    { unfold with_levels. rewrite length_zip_with_l_eq by done. done. }
    intros i c Hc. destruct (Hall i c Hc) as (ch & Hi & Hd & _).
    assert (Hil : i < length cg) by by eapply lookup_lt_Some.
    destruct (lookup_lt_is_Some_2 L i) as [l Hl]; [lia|].
    exists (set_level ch l). split_and!.
    + unfold with_levels. by rewrite lookup_zip_with, Hi, Hl.
    + by apply described_level.
    + specialize (Hlev i Hil). unfold lv in Hlev. by rewrite Hl in Hlev.
Qed.
End describe.

(** ** Levels *)

Lemma buildChainLevel_ok (cg : list chainGraph) :
  key_sorted (buildChainLevel cg) ∧ [] ∉ (buildChainLevel cg).*2 ∧
  concat (buildChainLevel cg).*2 ≡ₚ chainId <$> cg ∧
  ∀ k, default [] (mfind k (buildChainLevel cg)) =
       chainId <$> filter (λ c, u32 (level c) = k) cg.
Proof.
  destruct (group_push_spec (λ c, u32 (level c)) chainId cg []) as (H1 & H2 & H3 & H4).
  { constructor. }
  { by apply not_elem_of_nil. }
  split_and!; [exact H1|exact H2|exact H3|intros k; exact (H4 k _)].
Qed.

(** ** Blocks *)

(** Only the block numbers differ. *)
Definition same_but_block (cg cg' : list chainGraph) : Prop :=
  length cg' = length cg ∧
  ∀ i c, cg !! i = Some c → ∃ b, cg' !! i = Some { c with blockID := b }.

Lemma same_but_block_refl cg : same_but_block cg cg.
Proof. split; [done|]. intros i c Hi. exists (blockID c). rewrite Hi. by destruct c. Qed.

Lemma same_but_block_numbered cg cg' : numbered cg → same_but_block cg cg' → numbered cg'.
Proof.
  intros Hn [Hlen Hs] i c' Hi. destruct (lookup_lt_is_Some_2 cg i) as [c Hc].
  { rewrite <- Hlen. by eapply lookup_lt_Some. }
  destruct (Hs i c Hc) as [b Hb]. rewrite Hb in Hi. injection Hi as <-. exact (Hn i c Hc).
Qed.

Lemma same_but_block_nodes cg cg' : same_but_block cg cg' → nodes <$> cg' = nodes <$> cg.
Proof.
  intros [Hlen Hs]. apply list_eq. intros i. rewrite !list_lookup_fmap.
  destruct (cg !! i) as [c|] eqn:E.
  - destruct (Hs i c E) as [b ->]. done.
  - apply lookup_ge_None in E. by rewrite (proj2 (lookup_ge_None cg' i)) by lia.
Qed.

Section block_inv.
Variables (cg : list chainGraph) (param_set : ordmap string Z) (block_limit : Z).
Hypothesis limit_set : mfind "BLOCK_LIMIT"%string param_set = Some block_limit.
Variables un_dependencies un_reverse_mapping : ordmap nat (list nat).
Hypothesis cg_numbered : numbered cg.
Hypothesis deps_inside : ∀ x y, related un_dependencies x y → y < length cg.
Hypothesis deps_reversed : ∀ x y, related un_dependencies x y → is_Some (mfind y un_reverse_mapping).

(** Every block in use has a bypass counter. *)
Definition blocks_ok (s : block_state) : Prop :=
  same_but_block cg (bs_chains s) ∧ is_Some (mfind 0 (bs_pass s)) ∧
  ∀ c, c ∈ bs_chains s → is_Some (mfind (blockID c) (bs_pass s)).

Lemma get_chain_ok cgs id : same_but_block cg cgs → id < length cg →
  ∃ c, get_chain id cgs = Ret c ∧ cgs !! id = Some c ∧ find_chain id cgs = Some id.
Proof.
  intros Hs Hid. pose proof (same_but_block_numbered _ _ cg_numbered Hs) as Hn.
  destruct (lookup_lt_is_Some_2 cgs id) as [c Hc]; [destruct Hs as [-> _]; done|].
  exists c. unfold get_chain. rewrite (find_chain_numbered _ _ _ Hn Hc).
  cbn [deref mbind outcome_bind]. unfold at_idx. by rewrite Hc.
Qed.

Lemma set_block_ok cgs id blk : same_but_block cg cgs → id < length cg →
  ∃ cgs', set_block id blk cgs = Ret cgs' ∧ same_but_block cg cgs' ∧
    ∀ c, c ∈ cgs' → c ∈ cgs ∨ blockID c = blk.
Proof.
  intros Hs Hid. destruct (get_chain_ok _ _ Hs Hid) as (c & _ & Hc & Hf).
  unfold set_block. rewrite Hf. cbn [deref mbind outcome_bind]. unfold at_idx. rewrite Hc.
  cbn [mbind outcome_bind]. eexists. split; [done|]. destruct Hs as [Hlen Hs]. split.
  - split; [by rewrite length_insert|]. intros i d Hd. destruct (Hs i d Hd) as [b Hb].
    destruct (decide (i = id)) as [->|Hne].
    + exists blk. rewrite list_lookup_insert_eq by (rewrite Hlen; done).
      rewrite Hc in Hb. injection Hb as ->. by destruct d.
    + exists b. by rewrite list_lookup_insert_ne.
  - intros d (j & Hj)%list_elem_of_lookup. apply list_lookup_insert_Some in Hj as [(-> & <- & _)|(_ & Hj)].
    + by right.
    + left. apply list_elem_of_lookup. eauto.
Qed.

Lemma pass_grow (k v : nat) (m : ordmap nat nat) j : is_Some (mfind j m) → is_Some (mfind j (mset k v m)).
Proof. intros Hj. rewrite mfind_set. destruct (kcmp j k); [by eexists|done..]. Qed.

Lemma fresh_block_ok id s : blocks_ok s → id < length cg → ∃ s', fresh_block id s = Ret s' ∧ blocks_ok s'.
Proof.
  intros (Hs & H0 & Hb) Hid.
  destruct (set_block_ok _ id (S (bs_i s)) Hs Hid) as (cgs & Hset & Hs' & Hin).
  unfold fresh_block. rewrite Hset. cbn [mbind outcome_bind]. eexists. split; [done|].
  split_and!; cbn [bs_chains bs_pass]; [done|by apply pass_grow|].
  intros c [Hc| ->]%Hin; [by apply pass_grow, Hb|]. rewrite mfind_set_eq. by eexists.
Qed.

Lemma fresh_if_unset_ok id s : blocks_ok s → id < length cg →
  ∃ s', fresh_if_unset id s = Ret s' ∧ blocks_ok s'.
Proof.
  intros Hs Hid. destruct (get_chain_ok _ id (proj1 Hs) Hid) as (c & Hc & _).
  unfold fresh_if_unset. rewrite Hc. cbn [mbind outcome_bind].
  destruct (blockID c =? 0); [by apply fresh_block_ok|by eauto].
Qed.

Lemma root_child_ok s child : blocks_ok s → child < length cg →
  ∃ s', root_child s child = Ret s' ∧ blocks_ok s'.
Proof.
  intros Hs Hid. destruct (get_chain_ok _ child (proj1 Hs) Hid) as (c & Hc & _).
  unfold root_child. rewrite Hc. cbn [mbind outcome_bind].
  destruct (level c =? 1)%Z; [by apply fresh_block_ok|by eauto].
Qed.

Lemma block_child_ok ch_id s cnt child : blocks_ok s → ch_id < length cg →
  related un_dependencies ch_id child →
  ∃ s', block_child param_set un_reverse_mapping ch_id (s, cnt) child = Ret s' ∧ blocks_ok s'.1.
Proof.
  intros Hs Hid Hrel. pose proof (deps_inside _ _ Hrel) as Hchild.
  destruct (deps_reversed _ _ Hrel) as [ps Hps].
  destruct (get_chain_ok _ ch_id (proj1 Hs) Hid) as (c & Hc & Hlook & _).
  unfold block_child. rewrite Hps. cbn [deref mbind outcome_bind]. rewrite Hc. cbn [mbind outcome_bind].
  destruct Hs as (Hsame & H0 & Hb). pose proof (Hb c (list_elem_of_lookup_2 _ _ _ Hlook)) as [pass Hpass].
  destruct (set_block_ok _ child (blockID c) Hsame Hchild) as (cgs & Hset & Hs' & Hin).
  destruct (fresh_if_unset_ok child s) as (s1 & Hf & Hok); [done..|].
  destruct (_ && (cnt =? 1)); [|destruct (_ && (1 <? cnt)); [rewrite Hpass, limit_set; cbn [deref mbind outcome_bind]; case_match|]].
  - rewrite Hset. cbn [mbind outcome_bind]. eexists. split; [done|]. split_and!; cbn; [done..|].
    intros d [Hd| ->]%Hin; [by apply Hb|by eexists].
  - rewrite Hset. cbn [mbind outcome_bind]. eexists. split; [done|]. split_and!; cbn -[mset mfind].
    + done.
    + by apply pass_grow.
    + intros d [Hd| ->]%Hin; [by apply pass_grow, Hb|]. rewrite mfind_set_eq. by eexists.
  - rewrite Hf. cbn [mbind outcome_bind]. by eauto.
  - rewrite Hf. cbn [mbind outcome_bind]. by eauto.
Qed.

Lemma related_elem_of x children y : mfind x un_dependencies = Some children → y ∈ children →
  related un_dependencies x y.
Proof. intros ? ?. by exists children. Qed.

Lemma other_chain_ok s ch_id : blocks_ok s → ch_id < length cg → ch_id ≠ 0 →
  ∃ s', block_chain_step param_set un_dependencies un_reverse_mapping s ch_id = Ret s' ∧ blocks_ok s'.
Proof.
  intros Hs Hid Hne. unfold block_chain_step. rewrite (proj2 (Nat.eqb_neq _ _) Hne).
  destruct (get_chain_ok _ ch_id (proj1 Hs) Hid) as (c & -> & _). cbn [mbind outcome_bind].
  destruct (mfind ch_id un_dependencies) as [children|] eqn:Hf; [|by eauto].
  destruct (foldM_total (λ s, blocks_ok s.1) (block_child param_set un_reverse_mapping ch_id) children)
    with (b := (s, 1)) as ([s' n] & Hl & Hok); [|done|].
  - intros [b n] child Hin Hb. apply block_child_ok; [done..|]. by eapply related_elem_of.
  - rewrite Hl. cbn [mbind outcome_bind]. by eauto.
Qed.

(** Chain 0, met first, makes the counter of block 0. *)
Lemma root_chain_ok : 0 < length cg → is_Some (mfind 0 un_dependencies) →
  (∀ c, c ∈ cg → blockID c = 0) →
  ∃ s', block_chain_step param_set un_dependencies un_reverse_mapping (mkBlockState cg 0 []) 0 = Ret s' ∧
    blocks_ok s'.
Proof.
  intros H0 [children Hch] Hinit. unfold block_chain_step. cbn [Nat.eqb bs_chains bs_i bs_pass].
  destruct (set_block_ok cg 0 0 (same_but_block_refl cg) H0) as (cgs & -> & Hs & Hin).
  cbn [mbind outcome_bind]. rewrite Hch. cbn [deref mbind outcome_bind].
  apply (foldM_total blocks_ok).
  - intros s child Hc Hs'. apply root_child_ok; [done|]. eapply deps_inside. by eapply related_elem_of.
  - split_and!; cbn; [done|by eexists|]. intros c [Hc| ->]%Hin; [|by eexists].
    rewrite (Hinit c Hc). by eexists.
Qed.

Lemma numbered_ids (g : list chainGraph) : numbered g → chainId <$> g = seq 0 (length g).
Proof.
  intros Hn. apply list_eq. intros i. rewrite list_lookup_fmap.
  destruct (g !! i) as [c|] eqn:E; cbn.
  - rewrite (Hn i c E). symmetry. apply lookup_seq. split; [lia|]. by eapply lookup_lt_Some.
  - symmetry. apply lookup_ge_None. rewrite length_seq. by apply lookup_ge_None.
Qed.

(** Chain 0 is alone on the first level. *)
Lemma first_level : 0 < length cg →
  (∀ c, c ∈ cg → u32 (level c) = 0%Z ↔ chainId c = 0) →
  ∃ rest, buildChainLevel cg = (0%Z, [0]) :: rest ∧
    ∀ id, id ∈ concat rest.*2 → id ≠ 0 ∧ id < length cg.
Proof.
  intros H0 Hlev. destruct (buildChainLevel_ok cg) as (Hsort & Hne & Hperm & Hkey).
  rewrite numbered_ids in Hperm by done.
  assert (Hzero : mfind 0%Z (buildChainLevel cg) = Some [0]).
  { specialize (Hkey 0%Z). set (l := chainId <$> _) in Hkey.
    assert (Hall : ∀ x, x ∈ l → x = 0).
    { intros x Hx. apply list_elem_of_fmap in Hx as (c & -> & Hc).
      apply list_elem_of_filter in Hc as [? Hc]. by apply (Hlev c Hc). }
    assert (Hnd : NoDup l).
    { apply (NoDup_submseteq_inv l (chainId <$> cg)).
      - apply fmap_submseteq, sublist_submseteq, sublist_filter.
      - rewrite numbered_ids by done. apply NoDup_seq. }
    assert (Hin : 0 ∈ l).
    { destruct (lookup_lt_is_Some_2 cg 0 H0) as [c Hc]. apply list_elem_of_fmap. exists c.
      split; [by rewrite (cg_numbered 0 c Hc)|]. apply list_elem_of_lookup_2 in Hc as Hc'.
      apply list_elem_of_filter. split; [|done]. apply (Hlev c Hc'). exact (cg_numbered 0 c Hc). }
    clearbody l. destruct l as [|a [|b l]]; [by apply not_elem_of_nil in Hin| |].
    - rewrite (Hall a) in Hkey by left. destruct (mfind 0%Z _); cbn in Hkey; congruence.
    - apply NoDup_cons in Hnd as [Hab _]. exfalso. apply Hab.
      rewrite (Hall a), (Hall b) by set_solver. left. }
  destruct (buildChainLevel cg) as [|[k ids] rest] eqn:E; [done|].
  assert (k = 0%Z) as ->.
  { change (match Z.compare 0 k with Eq => Some ids | _ => mfind 0%Z rest end = Some [0]) in Hzero.
    destruct (Z.compare_spec 0 k) as [?|Hk|Hk]; [done| |].
    - apply mfind_elem in Hzero. apply Sorted.StronglySorted_inv in Hsort as [_ Hall].
      rewrite Forall_forall in Hall. specialize (Hall 0%Z).
      assert (klt k 0%Z) as Hlt. { apply Hall. by apply (list_elem_of_fmap_2 fst) in Hzero. }
      unfold klt in Hlt. cbn in Hlt. rewrite Z.compare_lt_iff in Hlt. lia.
    - specialize (Hkey k). cbn in Hkey. rewrite Z.compare_refl in Hkey. cbn in Hkey.
      assert (Hids : ids ≠ []) by (intros ->; apply Hne; left).
      destruct (filter _ cg) as [|c l] eqn:Ef; [done|].
      assert (Hc : c ∈ filter (λ c, u32 (level c) = k) cg) by (rewrite Ef; left).
      apply list_elem_of_filter in Hc as [Hc _]. pose proof (u32_range (level c)). lia. }
  cbn in Hzero. injection Hzero as ->. exists rest. split; [done|].
  intros id Hid. cbn in Hperm. split.
  - intros ->. assert (Hnd : NoDup (0 :: concat rest.*2)) by (rewrite Hperm; apply NoDup_seq).
    apply NoDup_cons in Hnd as [? _]. done.
  - assert (Hin : id ∈ seq 0 (length cg)) by (rewrite <- Hperm; by right).
    apply elem_of_seq in Hin. lia.
Qed.

Lemma assign_blocks_ok : 0 < length cg → is_Some (mfind 0 un_dependencies) →
  (∀ c, c ∈ cg → blockID c = 0) → (∀ c, c ∈ cg → u32 (level c) = 0%Z ↔ chainId c = 0) →
  ∃ s, assign_blocks param_set un_dependencies un_reverse_mapping (buildChainLevel cg) cg = Ret s ∧
    blocks_ok s.
Proof.
  intros H0 Hroot Hinit Hlev. destruct (first_level H0 Hlev) as (rest & -> & Hrest).
  unfold assign_blocks. cbn [foldM snd].
  destruct (root_chain_ok H0 Hroot Hinit) as (s & -> & Hs). cbn [mbind outcome_bind].
  apply (foldM_total blocks_ok); [|done]. intros s1 [k ids] Hin Hs1. cbn [snd].
  apply (foldM_total blocks_ok); [|done]. intros s2 id Hid Hs2.
  destruct (Hrest id) as [? ?].
  { apply elem_of_concat. exists ids. split; [|done]. by apply (list_elem_of_fmap_2 snd) in Hin. }
  by apply other_chain_ok.
Qed.

(** Without a dependant of chain 0 the end iterator is dereferenced. *)
Lemma assign_blocks_no_root : 0 < length cg → mfind 0 un_dependencies = None →
  (∀ c, c ∈ cg → u32 (level c) = 0%Z ↔ chainId c = 0) →
  assign_blocks param_set un_dependencies un_reverse_mapping (buildChainLevel cg) cg = Raise BadDeref.
Proof.
  intros H0 Hroot Hlev. destruct (first_level H0 Hlev) as (rest & -> & _).
  unfold assign_blocks. cbn [foldM snd].
  destruct (set_block_ok cg 0 0 (same_but_block_refl cg) H0) as (cgs & Hset & _).
  assert (block_chain_step param_set un_dependencies un_reverse_mapping (mkBlockState cg 0 []) 0
    = Raise BadDeref) as ->; [|done].
  unfold block_chain_step. cbn [Nat.eqb bs_chains bs_i bs_pass]. rewrite Hset.
  cbn [mbind outcome_bind]. by rewrite Hroot.
Qed.
End block_inv.

(** The grouping by block: each number once, its chains in order. *)
Definition blocks_of (cg : list chainGraph) (bl : list Block) : Prop :=
  NoDup (blkID <$> bl) ∧
  (∀ b, b ∈ bl → blk_chains b = chainId <$> filter (λ c, blockID c = blkID b) cg ∧ blk_chains b ≠ []) ∧
  ∀ c, c ∈ cg → blockID c ∈ blkID <$> bl.

Lemma filter_ids_ext (b : nat) (cg cg' : list chainGraph) :
  (λ c, (chainId c, blockID c)) <$> cg = (λ c, (chainId c, blockID c)) <$> cg' →
  chainId <$> filter (λ c, blockID c = b) cg = chainId <$> filter (λ c, blockID c = b) cg'.
Proof.
  revert cg'. induction cg as [|c cg IH]; intros [|d cg'] Heq; try done.
  injection Heq as Hid Hb Heq. rewrite !filter_cons, Hb. pose proof (IH cg' Heq) as Hr.
  case_decide; [|done]. cbn. by rewrite Hid, Hr.
Qed.

(** The grouping looks at the numbers only. *)
Lemma blocks_of_ext cg cg' bl :
  (λ c, (chainId c, blockID c)) <$> cg = (λ c, (chainId c, blockID c)) <$> cg' →
  blocks_of cg bl → blocks_of cg' bl.
Proof.
  intros Heq (Hnd & Hbl & Hall). split_and!; [done| |].
  - intros b Hb. destruct (Hbl b Hb) as [Hc ?]. split; [|done].
    rewrite Hc. by apply filter_ids_ext.
  - intros c Hc. apply (list_elem_of_fmap_2 (λ c, (chainId c, blockID c))) in Hc.
    rewrite <- Heq in Hc. apply list_elem_of_fmap in Hc as (d & [= _ Hd] & Hin).
    rewrite Hd. by apply Hall.
Qed.

Lemma add_to_block_spec cg bl c : blocks_of cg bl → blocks_of (cg ++ [c]) (add_to_block bl c).
Proof.
  intros (Hnd & Hbl & Hall). unfold add_to_block.
  destruct (find_index _ bl) as [j|] eqn:E.
  - apply find_index_Some in E as (b & Hj & Hb & Hfirst). apply Nat.eqb_eq in Hb.
    assert (Hids : blkID <$> alter (λ b, mkBlock (blkID b) (blk_chains b ++ [chainId c])) j bl = blkID <$> bl).
    { apply list_eq. intros i. rewrite !list_lookup_fmap, list_lookup_alter.
      case_decide; [subst i; rewrite Hj|]; done. }
    split_and!; [by rewrite Hids| |].
    + intros b' (i & Hi)%list_elem_of_lookup. rewrite list_lookup_alter in Hi.
      case_decide as Hij.
      * subst i. rewrite Hj in Hi. injection Hi as <-. cbn. split; [|by destruct (blk_chains b)].
        rewrite filter_app, fmap_app, filter_cons_True by done. cbn.
        f_equal. apply Hbl. by eapply list_elem_of_lookup_2.
      * pose proof (list_elem_of_lookup_2 _ _ _ Hi) as Hin. destruct (Hbl b' Hin) as [Hb' ?].
        split; [|done]. rewrite filter_app, fmap_app, filter_cons_False, app_nil_r; [done|].
        intros Heq. apply Hij. eapply (NoDup_lookup (blkID <$> bl)); [done|..].
        -- by rewrite list_lookup_fmap, Hj.
        -- rewrite list_lookup_fmap, Hi. cbn. congruence.
    + intros d [Hd| ->%list_elem_of_singleton]%elem_of_app; rewrite Hids; [by apply Hall|].
      rewrite <- Hb. apply list_elem_of_fmap_2. by eapply list_elem_of_lookup_2.
  - assert (Hnot : blockID c ∉ blkID <$> bl).
    { intros (b & Hb & Hin)%list_elem_of_fmap. rewrite find_index_None in E.
      specialize (E b Hin). apply Nat.eqb_neq in E. congruence. }
    split_and!.
    + rewrite fmap_app. apply NoDup_app. split_and!; [done| |apply NoDup_singleton].
      intros x Hx ->%list_elem_of_singleton. done.
    + intros b [Hb| ->%list_elem_of_singleton]%elem_of_app.
      * destruct (Hbl b Hb) as [Hb' ?]. split; [|done].
        rewrite filter_app, fmap_app, filter_cons_False, app_nil_r; [done|].
        intros Heq. apply Hnot. rewrite Heq. by apply list_elem_of_fmap_2.
      * cbn. split; [|done]. rewrite filter_app, fmap_app, filter_cons_True by done. cbn.
        destruct (filter _ cg) as [|d l] eqn:Ef; [done|].
        assert (Hd : d ∈ filter (λ d, blockID d = blockID c) cg) by (rewrite Ef; left).
        apply list_elem_of_filter in Hd as [Hd Hin]. apply Hall in Hin. congruence.
    + intros d [Hd| ->%list_elem_of_singleton]%elem_of_app; rewrite fmap_app; apply elem_of_app.
      * left. by apply Hall.
      * right. left.
Qed.

Lemma blocks_of_all cg : blocks_of cg (foldl add_to_block [] cg).
Proof.
  induction cg as [|c cg IH] using rev_ind.
  - split_and!; [constructor|..]; by intros ? ?%not_elem_of_nil.
  - rewrite foldl_app. by apply add_to_block_spec.
Qed.

(** ** The ILP graph *)

Lemma merge_sort_unique (l1 l2 : list nat) : l1 ≡ₚ l2 → merge_sort le l1 = merge_sort le l2.
Proof.
  intros Hp. apply (StronglySorted_unique le).
  - apply (StronglySorted_merge_sort le).
  - apply (StronglySorted_merge_sort le).
  - by rewrite !(merge_sort_Permutation le).
Qed.

Section ilp_proofs.
Variables (cg : list chainGraph) (un_rev : ordmap nat (list nat)).
Hypothesis cg_numbered : numbered cg.
Hypothesis cg_nonempty : ∀ c, c ∈ cg → nodes c ≠ [].
Hypothesis parents_inside : ∀ x y, related un_rev x y → y < length cg.

(** The vertices of a chain in increasing order, and the largest of them. *)
Definition sorted_nodes (j : nat) : list nat := merge_sort le (default [] (nodes <$> cg !! j)).
Definition end_of (j : nat) : nat := default 0 (last (sorted_nodes j)).

(** Only the order of the nodes differs. *)
Definition same_but_nodes (cg' : list chainGraph) : Prop :=
  length cg' = length cg ∧
  ∀ i c, cg !! i = Some c → ∃ ns, cg' !! i = Some { c with nodes := ns } ∧ ns ≡ₚ nodes c.

Lemma same_but_nodes_refl : same_but_nodes cg.
Proof. split; [done|]. intros i c Hi. exists (nodes c). rewrite Hi. by destruct c. Qed.

Lemma same_but_nodes_find cg' j : same_but_nodes cg' → j < length cg → find_chain j cg' = Some j.
Proof.
  intros [Hlen Hs] Hj. destruct (lookup_lt_is_Some_2 cg j Hj) as [c Hc].
  destruct (Hs j c Hc) as (ns & Hns & _). eapply find_chain_numbered; [|exact Hns].
  intros i d Hd. destruct (lookup_lt_is_Some_2 cg i) as [e He].
  { rewrite <- Hlen. by eapply lookup_lt_Some. }
  destruct (Hs i e He) as (ns' & Hns' & _). rewrite Hns' in Hd. injection Hd as <-.
  exact (cg_numbered i e He).
Qed.

Lemma sort_nodes_ok cg' j : same_but_nodes cg' → j < length cg →
  ∃ cg2 c, sort_nodes j cg' = Ret cg2 ∧ same_but_nodes cg2 ∧ cg2 !! j = Some c ∧
    chainId c = j ∧ nodes c = sorted_nodes j.
Proof.
  intros [Hlen Hs] Hj. destruct (lookup_lt_is_Some_2 cg j Hj) as [c Hc].
  destruct (Hs j c Hc) as (ns & Hns & Hp).
  unfold sort_nodes, at_idx. rewrite Hns. cbn [mbind outcome_bind].
  eexists _, _. split; [done|]. split_and!.
  - split; [by rewrite length_insert|]. intros i d Hd. destruct (Hs i d Hd) as (ns' & Hns' & Hp').
    destruct (decide (i = j)) as [->|Hne].
    + assert (d = c) as -> by congruence. exists (merge_sort le ns).
      rewrite list_lookup_insert_eq by lia. split; [by destruct c|].
      by rewrite (merge_sort_Permutation le).
    + exists ns'. by rewrite list_lookup_insert_ne.
  - rewrite list_lookup_insert_eq by lia. done.
  - exact (cg_numbered j c Hc).
  - cbn. unfold sorted_nodes. rewrite Hc. cbn. by apply merge_sort_unique.
Qed.

Lemma sorted_nodes_last j : j < length cg → last (sorted_nodes j) = Some (end_of j).
Proof.
  intros Hj. unfold end_of. destruct (last (sorted_nodes j)) eqn:E; [done|].
  apply last_None in E. destruct (lookup_lt_is_Some_2 cg j Hj) as [c Hc].
  destruct (cg_nonempty c); [by eapply list_elem_of_lookup_2|].
  unfold sorted_nodes in E. rewrite Hc in E. cbn in E.
  apply Permutation_nil_r. by rewrite <- E, (merge_sort_Permutation le).
Qed.

Lemma parent_ends_ok cg' parents : same_but_nodes cg' → (∀ p, p ∈ parents → p < length cg) →
  ∃ cg2, parent_ends cg' parents = Ret (cg2, end_of <$> parents) ∧ same_but_nodes cg2.
Proof.
  intros Hs Hp. unfold parent_ends.
  assert (Hgen : ∀ acc, ∃ cg2, foldM (λ '(cg, parent_set) ch_p,
      j ← deref (find_chain ch_p cg); cg ← sort_nodes j cg; p ← cg.[j]!;
      b ← deref (last (nodes p)); Ret (cg, parent_set ++ [b])) (cg', acc) parents
      = Ret (cg2, acc ++ (end_of <$> parents)) ∧ same_but_nodes cg2); [|apply Hgen].
  revert cg' Hs. induction parents as [|p parents IH]; intros cg' Hs acc; cbn [foldM].
  { exists cg'. by rewrite app_nil_r. }
  assert (Hpl : p < length cg) by (apply Hp; left).
  rewrite same_but_nodes_find by done. cbn [deref mbind outcome_bind].
  destruct (sort_nodes_ok cg' p Hs Hpl) as (cg2 & c & -> & Hs2 & Hc & _ & Hns).
  cbn [mbind outcome_bind]. rewrite (proj2 (at_idx_ret cg2 p c) Hc). cbn [mbind outcome_bind].
  rewrite Hns, sorted_nodes_last by done. cbn [deref mbind outcome_bind].
  destruct (IH ltac:(set_solver) cg2 Hs2 (acc ++ [end_of p])) as (cg3 & H3 & Hs3).
  exists cg3. split; [|done]. cbn [fmap list_fmap]. by rewrite <- app_assoc in H3.
Qed.

(** The edges the loop adds for chain [j]. *)
Definition ilp_edges_of (j : nat) : list chainDependency :=
  match mfind j un_rev with
  | None => []
  | Some ps => chain_edges (end_of <$> ps) (sorted_nodes j)
  end.

Lemma ilp_chain_ok cg' es vs k : same_but_nodes cg' → k < length cg →
  ∃ cg2 ns, ilp_chain un_rev k (cg', es, vs) = Ret (cg2, es ++ ilp_edges_of k, vs ++ ns) ∧
    same_but_nodes cg2 ∧ ns ≡ₚ default [] (nodes <$> cg !! k).
Proof.
  intros Hs Hk. destruct (lookup_lt_is_Some_2 cg k Hk) as [c Hc].
  destruct (proj2 Hs k c Hc) as (ns & Hns & Hp). unfold ilp_chain, ilp_edges_of.
  rewrite (proj2 (at_idx_ret _ _ _) Hns). cbn [mbind outcome_bind].
  assert (chainId { c with nodes := ns } = k) as -> by exact (cg_numbered k c Hc).
  destruct (mfind k un_rev) as [ps|] eqn:Hps.
  - destruct (parent_ends_ok cg' ps Hs) as (cg2 & -> & Hs2).
    { intros p Hin. apply (parents_inside k). by exists ps. }
    cbn [mbind outcome_bind].
    destruct (sort_nodes_ok cg2 k Hs2 Hk) as (cg3 & d & -> & Hs3 & Hd & _ & Hdn).
    cbn [mbind outcome_bind]. rewrite (proj2 (at_idx_ret _ _ _) Hd). cbn [mbind outcome_bind].
    rewrite Hdn. eexists _, _. split; [done|]. split; [done|].
    unfold sorted_nodes. by rewrite (merge_sort_Permutation le).
  - exists cg', ns. rewrite app_nil_r. split; [done|]. split; [done|]. by rewrite Hc.
Qed.

Lemma ilp_chains_ok :
  ∃ cg2 vs, foldM (λ s k, ilp_chain un_rev k s) (cg, [], []) (seq 0 (length cg)) =
      Ret (cg2, seq 0 (length cg) ≫= ilp_edges_of, vs) ∧
    same_but_nodes cg2 ∧ vs ≡ₚ concat (nodes <$> cg).
Proof.
  destruct (foldM_seq (λ k s, same_but_nodes s.1.1 ∧ s.1.2 = seq 0 k ≫= ilp_edges_of ∧
      s.2 ≡ₚ concat (nodes <$> take k cg)) (λ s k, ilp_chain un_rev k s) (length cg) (cg, [], []))
    as ([[cg2 es] vs] & -> & Hs & Hes & Hvs).
  - split_and!; [apply same_but_nodes_refl|done|done].
  - intros k [[cg1 es] vs] Hk (Hs & Hes & Hvs). cbn [fst snd] in *.
    destruct (ilp_chain_ok cg1 es vs k Hs Hk) as (cg2 & ns & -> & Hs2 & Hns).
    eexists. split; [done|]. cbn [fst snd]. split_and!; [done| |].
    + rewrite Hes, seq_S, bind_app. cbn. by rewrite app_nil_r.
    + destruct (lookup_lt_is_Some_2 cg k Hk) as [c Hc]. rewrite Hc in Hns. cbn in Hns.
      rewrite (take_S_r _ _ _ Hc), fmap_app, concat_app. cbn. by rewrite Hvs, Hns, app_nil_r.
  - cbn [fst snd] in *. exists cg2, vs. rewrite Hes. split; [done|]. split; [done|].
    by rewrite Hvs, firstn_all.
Qed.

Lemma elem_of_chain_edges (ends ns : list nat) u v :
  ChainDep u v ∈ chain_edges ends ns ↔
  (∃ i, ns !! i = Some u ∧ ns !! S i = Some v) ∨ (head ns = Some v ∧ u ∈ ends).
Proof.
  unfold chain_edges. rewrite list_elem_of_bind. unfold id. setoid_rewrite elem_of_lookup_imap.
  split.
  - intros (es & Hin & i & n & -> & Hi). apply elem_of_app in Hin as [Hin|Hin].
    + destruct (ns !! S i) as [n'|] eqn:E; [|by apply not_elem_of_nil in Hin].
      apply list_elem_of_singleton in Hin as [= -> ->]. left. by exists i.
    + destruct (Nat.eqb_spec i 0) as [->|]; [|by apply not_elem_of_nil in Hin].
      apply list_elem_of_fmap in Hin as (t & [= -> ->] & Ht). right. split; [|done]. by destruct ns.
  - intros [(i & Hi & HS)|[Hh Hu]].
    + eexists. split; [|by exists i, u]. rewrite HS. apply elem_of_app. left. left.
    + destruct ns as [|n ns]; [done|]. cbn in Hh. injection Hh as ->.
      eexists. split; [|by exists 0, v]. apply elem_of_app. right. cbn.
      apply list_elem_of_fmap. by exists u.
Qed.
End ilp_proofs.

Section ilp_graph.
Context `{BoostLaws G}.

(** After the vertex loop: as many blank vertices in the ILP graph, and the
    vertices of the original graph overwritten. *)
Lemma ilp_vertices_ok blank vs (orig : G vertex_prop) : length vs ≤ num_vertices orig →
  ∃ ilp orig' m, ilp_vertices blank vs orig = Ret (ilp, orig', m) ∧
    num_vertices ilp = length vs ∧ (∀ v, out_edges ilp v = []) ∧
    (∀ v, v < length vs → vprop ilp v = Some blank) ∧ same_edges orig' orig ∧
    (∀ v, v < length vs → ∃ p, vprop orig' v = Some p ∧ opcode p = "NOP"%string) ∧
    id_map (length vs) m.
Proof.
  intros Hlen. unfold ilp_vertices.
  seq_loop (λ i (b : G vertex_prop * G vertex_prop * ordmap nat nat), let '(ilp, orig', m) := b in
    num_vertices ilp = i ∧ (∀ v, out_edges ilp v = []) ∧
    (∀ v, v < i → vprop ilp v = Some blank) ∧ same_edges orig' orig ∧
    (∀ v, v < i → ∃ p, vprop orig' v = Some p ∧ opcode p = "NOP"%string) ∧ id_map i m).
  - split_and!; [by apply empty_vertices|apply empty_graph_out|lia|done|lia|by intros v].
  - intros i [[ilp orig'] m] Hi (Hn & Ho & Hb & [Hen Heo] & Hnop & Hm).
    destruct (lookup_lt_is_Some_2 vs i Hi) as [n Hvs].
    rewrite (proj2 (at_idx_ret _ _ _) Hvs). cbn [mbind outcome_bind].
    destruct (vprop_ret orig' i) as [p Hp]; [lia|].
    rewrite Hn, (gprop_ret _ _ _ Hp). cbn [mbind outcome_bind]. eexists. split; [done|].
    split_and!.
    + by rewrite add_vertex_num, Hn.
    + intros v. by rewrite add_vertex_out.
    + intros v Hv. rewrite add_vertex_prop, Hn. case_decide; [done|]. apply Hb. lia.
    + split; [by rewrite set_vprop_num|]. intros v. by rewrite set_vprop_out.
    + intros v Hv. rewrite set_vprop_prop by lia. case_decide; [by eexists|]. apply Hnop. lia.
    + by apply id_map_emplace.
  - destruct b as [[ilp orig'] m]. exists ilp, orig', m. split; [done|]. exact Hinv.
Qed.

Lemma ilp_edges_ok m (es : list chainDependency) (ilp : G vertex_prop) :
  id_map (num_vertices ilp) m →
  (∀ u v, ChainDep u v ∈ es → u < num_vertices ilp ∧ v < num_vertices ilp) →
  ilp_edges m es ilp = Ret (add_edges ((λ d, (source d, target d)) <$> es) ilp).
Proof.
  intros Hm Hes. unfold ilp_edges, add_edges.
  assert (Hgen : ∀ g : G vertex_prop, foldM (λ g edge, s ← deref (mfind (source edge) m);
      t ← deref (mfind (target edge) m); Ret (add_edge s t g)) g es =
    Ret (foldl (λ g e, add_edge e.1 e.2 g) g ((λ d, (source d, target d)) <$> es))); [|done].
  induction es as [|[u v] es IH]; intros g; [done|]. cbn [foldM fmap list_fmap foldl source target].
  destruct (Hes u v) as [Hu Hv]; [left|].
  rewrite (id_map_find _ _ u Hm Hu), (id_map_find _ _ v Hm Hv). cbn [mbind outcome_bind].
  apply IH. intros x y Hin. apply Hes. by right.
Qed.

Lemma sorted_nodes_elem cg j v : v ∈ sorted_nodes cg j ↔ ∃ c, cg !! j = Some c ∧ v ∈ nodes c.
Proof.
  unfold sorted_nodes. rewrite (merge_sort_Permutation le).
  destruct (cg !! j) as [c|]; cbn; [naive_solver|].
  split; [by intros ?%not_elem_of_nil|]. by intros (? & ? & _).
Qed.

(** The edges of the ILP graph: each chain that has parents is a path of its
    vertices in increasing order, entered from the last vertex of each parent. *)
Definition ilp_edge (cg : list chainGraph) (un_rev : ordmap nat (list nat)) (u v : nat) : Prop :=
  ∃ j ps, j < length cg ∧ mfind j un_rev = Some ps ∧
    ((∃ i, sorted_nodes cg j !! i = Some u ∧ sorted_nodes cg j !! S i = Some v) ∨
     (head (sorted_nodes cg j) = Some v ∧ ∃ p, p ∈ ps ∧ last (sorted_nodes cg p) = Some u)).

Lemma buildILPGraph_ok un_rev blank (orig : G vertex_prop) (cg : list chainGraph) :
  numbered cg → (∀ c, c ∈ cg → nodes c ≠ []) →
  (∀ x y, related un_rev x y → y < length cg) →
  concat (nodes <$> cg) ≡ₚ vertices orig →
  ∃ cg' orig' ilp, buildILPGraph un_rev blank orig cg = Ret (cg', orig', ilp) ∧
    same_but_nodes cg cg' ∧ same_edges orig' orig ∧
    (∀ v, v < num_vertices orig → ∃ p, vprop orig' v = Some p ∧ opcode p = "NOP"%string) ∧
    num_vertices ilp = num_vertices orig ∧
    (∀ v, v < num_vertices ilp → vprop ilp v = Some blank) ∧
    ∀ u v, v ∈ out_edges ilp u ↔ ilp_edge cg un_rev u v.
Proof.
  intros Hnum Hne Hpar Hperm. unfold buildILPGraph.
  destruct (ilp_chains_ok cg un_rev Hnum Hne Hpar) as (cg' & vs & -> & Hs & Hvs).
  cbn [mbind outcome_bind].
  assert (Hlen : length vs = num_vertices orig).
  { rewrite Hvs, Hperm. apply length_seq. }
  destruct (ilp_vertices_ok blank vs orig) as (ilp & orig' & m & -> & Hn & Ho & Hb & He & Hnop & Hm); [lia|].
  cbn [mbind outcome_bind].
  assert (Hinside : ∀ j v, v ∈ sorted_nodes cg j → v < num_vertices ilp).
  { intros j v (c & Hc & Hv)%sorted_nodes_elem. rewrite Hn, Hlen.
    assert (Hin : v ∈ vertices orig).
    { rewrite <- Hperm. apply elem_of_concat. exists (nodes c). split; [|done].
      apply list_elem_of_fmap_2. by eapply list_elem_of_lookup_2. }
    apply elem_of_seq in Hin. lia. }
  assert (Hedges : ∀ u v, ChainDep u v ∈ seq 0 (length cg) ≫= ilp_edges_of cg un_rev ↔
    ilp_edge cg un_rev u v).
  { intros u v. rewrite list_elem_of_bind. unfold ilp_edges_of, ilp_edge. split.
    - intros (j & Hin & Hj%elem_of_seq). destruct (mfind j un_rev) as [ps|] eqn:Hps.
      2: { by apply not_elem_of_nil in Hin. }
      exists j, ps. split_and!; [lia|done|]. apply elem_of_chain_edges in Hin as [?|[? Hu]]; [by left|].
      right. split; [done|]. apply list_elem_of_fmap in Hu as (p & -> & Hp). exists p. split; [done|].
      apply sorted_nodes_last; [done..|]. apply (Hpar j). by exists ps.
    - intros (j & ps & Hj & Hps & Hcase). exists j. split; [|apply elem_of_seq; lia].
      rewrite Hps. apply elem_of_chain_edges. destruct Hcase as [?|[? (p & Hp & Hl)]]; [by left|].
      right. split; [done|]. apply list_elem_of_fmap. exists p. split; [|done].
      unfold end_of. by rewrite Hl. }
  assert (Hfit : ∀ u v, ChainDep u v ∈ seq 0 (length cg) ≫= ilp_edges_of cg un_rev →
    u < num_vertices ilp ∧ v < num_vertices ilp).
  { intros u v (j & ps & Hj & Hps & [(i & Hi & HS)|(Hh & p & _ & Hl)])%Hedges; split; eapply Hinside.
    - by eapply list_elem_of_lookup_2.
    - by eapply list_elem_of_lookup_2.
    - by eapply last_Some_elem_of.
    - by eapply head_Some_elem_of. }
  rewrite ilp_edges_ok by (try done; by rewrite Hn). cbn [mbind outcome_bind].
  destruct (add_edges_spec ((λ d, (source d, target d)) <$> (seq 0 (length cg) ≫= ilp_edges_of cg un_rev)) ilp)
    as (Hn' & Hp' & Ho').
  { intros u v ([x y] & [= -> ->] & Hin)%list_elem_of_fmap. by apply Hfit. }
  eexists cg', orig', _. split; [done|]. split_and!; [done|done|by rewrite <- Hlen|congruence| |].
  - intros v Hv. rewrite Hp'. apply Hb. lia.
  - intros u v. rewrite Ho', Ho, <- Hedges. cbn. rewrite list_elem_of_fmap. split.
    + intros ([x y] & -> & [Hx Hin]%list_elem_of_filter). cbn in Hx |- *. subst x.
      by apply list_elem_of_fmap in Hin as ([x y'] & [= -> ->] & Hin).
    + intros Hin. exists (u, v). split; [done|]. apply list_elem_of_filter. split; [done|].
      apply list_elem_of_fmap. by exists (ChainDep u v).
Qed.
End ilp_graph.

(** ** The ILP statistics *)

(** How many levels hold a number of operations that satisfies [P]. *)
Definition levels_with (P : Z → Prop) `{∀ z, Decision (P z)} (ks : list Z) : Z :=
  Z.of_nat (length (filter (λ k, P (occurs k ks)) (remove_dups ks))).

Local Open Scope Z_scope.
Lemma ilp_sets (h : ordmap Z Z) s1 s2 s3 :
  0 ≤ s1 → 0 ≤ s2 → 0 ≤ s3 → s1 + s2 + s3 + Z.of_nat (length h) < 2 ^ 32 →
  foldl (λ '(set1, set2, set3) m,
      if (m.2 =? 1) || (m.2 =? 2) then (u32 (set1 + 1), set2, set3)
      else if (m.2 =? 3) || (m.2 =? 4) then (set1, u32 (set2 + 1), set3)
      else (set1, set2, u32 (set3 + 1))) (s1, s2, s3) h =
  (s1 + Z.of_nat (length (filter (λ m : Z * Z, m.2 = 1 ∨ m.2 = 2) h)),
   s2 + Z.of_nat (length (filter (λ m : Z * Z, m.2 = 3 ∨ m.2 = 4) h)),
   s3 + Z.of_nat (length (filter (λ m : Z * Z, ¬ (m.2 = 1 ∨ m.2 = 2 ∨ m.2 = 3 ∨ m.2 = 4)) h))).
Proof.
  revert s1 s2 s3. induction h as [|[k n] h IH]; intros s1 s2 s3 H1 H2 H3 Hlt.
  { cbn. by rewrite !Z.add_0_r. }
  cbn [length] in Hlt. cbn [foldl snd]. rewrite !filter_cons. cbn [snd].
  destruct (Z.eqb_spec n 1), (Z.eqb_spec n 2), (Z.eqb_spec n 3), (Z.eqb_spec n 4);
    cbn [orb]; try lia; rewrite u32_id by lia.
 all: rewrite IH by lia; repeat case_decide; try tauto; cbn [length];
    repeat apply (f_equal2 pair); lia.
Qed.

Lemma levels_with_entries P `{∀ z, Decision (P z)} ks : Z.of_nat (length ks) < 2 ^ 32 →
  Z.of_nat (length (filter (λ m : Z * Z, P m.2) (histogram ks))) = levels_with P ks.
Proof.
  intros Hlen. unfold levels_with. rewrite (histogram_entries ks Hlen).
  by rewrite (filter_fmap_length _ (λ m : Z * Z, P m.2)).
Qed.

Lemma ilpStat_ok `{BoostLaws G} (orig ilp : G vertex_prop) :
  (0 < num_vertices ilp)%nat → num_vertices ilp = num_vertices orig →
  Z.of_nat (num_vertices orig) < 2 ^ 32 → ¬ has_loop (level_edge ilp) 0 →
  ∃ L, length L = num_vertices orig ∧
    (∀ x, (x < num_vertices orig)%nat →
      (lv L x = -1 ∧ ¬ reach (level_edge ilp) 0 x) ∨ longest (level_edge ilp) 0 x (lv L x)) ∧
    ilpStat orig ilp = Ret (
      levels_with (λ n, n = 1 ∨ n = 2) (u32 <$> L),
      levels_with (λ n, n = 3 ∨ n = 4) (u32 <$> L),
      levels_with (λ n, ¬ (n = 1 ∨ n = 2 ∨ n = 3 ∨ n = 4)) (u32 <$> L),
      (Z.of_nat (num_vertices orig), Z.of_nat (length (remove_dups (u32 <$> L))))).
Proof.
  intros Hn Heq Hlt Hloop.
  destruct (findGrahpLevel_ok (out_edges ilp) (in_edges ilp) (num_vertices ilp))
    as (L & HL & Hlen & Hlong); [done| |done|].
  { intros x y _ Hy. by eapply out_edges_target. }
  rewrite Heq in *. exists L. split_and!; [done..|].
  unfold ilpStat. rewrite Heq, HL. cbn [mbind outcome_bind].
  assert (Hu : Z.of_nat (length (u32 <$> L)) < 2 ^ 32) by by rewrite length_fmap, Hlen.
  assert (Hh : Z.of_nat (length (histogram (u32 <$> L))) ≤ Z.of_nat (length (u32 <$> L))).
  { rewrite (histogram_entries _ Hu), length_fmap.
    enough (length (remove_dups (u32 <$> L)) <= length (u32 <$> L))%nat by lia.
    apply submseteq_length, NoDup_submseteq; [apply NoDup_remove_dups|].
    intros x. by rewrite elem_of_remove_dups. }
  rewrite ilp_sets by lia. rewrite !Z.add_0_l.
  apply f_equal. repeat apply (f_equal2 pair).
  - exact (levels_with_entries (λ n, n = 1 ∨ n = 2) _ Hu).
  - exact (levels_with_entries (λ n, n = 3 ∨ n = 4) _ Hu).
  - exact (levels_with_entries (λ n, ¬ (n = 1 ∨ n = 2 ∨ n = 3 ∨ n = 4)) _ Hu).
  - rewrite sum_values_total, histogram_total, length_fmap, Hlen; try done.
    + intros k n Hin. apply histogram_elem in Hin as [_ ->]; [apply occurs_nonneg|done].
    + by rewrite histogram_total, length_fmap, Hlen.
  - by rewrite histogram_size.
Qed.
Local Open Scope nat_scope.

(** ** The printed numbers *)

Lemma chain_mlp_cases cg :
  chain_mlp cg = if existsb is_mem cg then Raise BadDeref else Ret [].
Proof.
  unfold chain_mlp. induction cg as [|c cg IH]; [done|]. cbn [foldM existsb].
  destruct (is_mem c); [done|]. cbn [mbind outcome_bind orb]. exact IH.
Qed.

Lemma zsum_sizes (f : chainGraph → Z) (cg : list chainGraph) :
  (∀ c, c ∈ cg → f c = Z.of_nat (length (nodes c))) →
  zsum f cg = Z.of_nat (length (concat (nodes <$> cg))).
Proof.
  induction cg as [|c cg IH]; intros Hf; [done|]. rewrite zsum_cons, IH, Hf by set_solver.
  cbn [fmap list_fmap concat]. rewrite length_app. lia.
Qed.

Lemma elem_of_block_set cg s b :
  b ∈ foldl (λ un_block c, sinsert (blockID c) un_block) s cg ↔ b ∈ s ∨ b ∈ blockID <$> cg.
Proof.
  revert s. induction cg as [|c cg IH]; intros s; cbn [foldl fmap list_fmap].
  { split; [tauto|]. intros [?|?%not_elem_of_nil]; done. }
  rewrite IH, elem_of_sinsert, elem_of_cons. tauto.
Qed.

Lemma block_set_sorted cg s : StronglySorted klt s →
  StronglySorted klt (foldl (λ un_block c, sinsert (blockID c) un_block) s cg).
Proof. revert s. induction cg; intros s ?; cbn; [done|]. by apply IHcg, sinsert_sorted. Qed.

(** The largest of zero and a measure of the chains. *)
Lemma foldl_above_spec (f : chainGraph → Z) cg m :
  let r := foldl (λ m c, if (m <? f c)%Z then f c else m) m cg in
  (m ≤ r)%Z ∧ (∀ c, c ∈ cg → (f c ≤ r)%Z) ∧ (r = m ∨ ∃ c, c ∈ cg ∧ r = f c).
Proof.
  revert m. induction cg as [|c cg IH]; intros m; cbn [foldl].
  { split_and!; [done| |by left]. by intros ? ?%not_elem_of_nil. }
  destruct (Z.ltb_spec m (f c)) as [Hm|Hm].
  - destruct (IH (f c)) as (H1 & H2 & H3). split_and!; [lia| |].
    + intros d [->|Hd]%elem_of_cons; [done|by apply H2].
    + right. destruct H3 as [->|(d & ? & ->)]; [exists c|exists d]; set_solver.
  - destruct (IH m) as (H1 & H2 & H3). split_and!; [done| |].
    + intros d [->|Hd]%elem_of_cons; [lia|by apply H2].
    + destruct H3 as [->|(d & ? & ->)]; [by left|right; exists d; set_solver].
Qed.

Lemma op_list_spec cg (m : ordmap Z (list nat)) :
  concat (foldl (λ ch_op_list c, foldl (λ l op, malter (λ o, default [] o ++ [op]) (bucket (Levels.size c)) l)
       ch_op_list (nodes c)) m cg).*2 ≡ₚ concat m.*2 ++ concat (nodes <$> cg).
Proof.
  revert m. induction cg as [|c cg IH]; intros m; cbn [foldl fmap list_fmap concat].
  { by rewrite app_nil_r. }
  rewrite IH, app_assoc. apply Permutation_app_tail. clear IH.
  revert m. induction (nodes c) as [|v vs IHv]; intros m; cbn [foldl]; [by rewrite app_nil_r|].
  rewrite IHv, malter_concat, <- app_assoc. done.
Qed.

Lemma foldM_returns {A B} (f : B → A → outcome B) l b :
  (∀ b x, x ∈ l → ∃ b', f b x = Ret b') → ∃ b', foldM f b l = Ret b'.
Proof.
  intros Hf. destruct (foldM_total (λ _, True) f l) with (b := b) as (b' & E & _); [|done|by eexists].
  intros b1 x Hx _. destruct (Hf b1 x Hx) as [b2 ?]. by exists b2.
Qed.

(** The opcodes of the buckets are read of the operations of the chains. *)
Lemma bucket_ops_returns `{BoostLaws G} (orig : G vertex_prop) ops :
  (∀ v, v ∈ ops → v < num_vertices orig) → ∃ h, bucket_ops orig ops = Ret h.
Proof.
  intros Hops. apply foldM_returns. intros h v Hv.
  destruct (vprop_ret orig v) as [p Hp]; [by apply Hops|].
  rewrite (gprop_ret _ _ _ Hp). by eexists.
Qed.

Lemma printChainStats_returns `{BoostLaws G} (orig : G vertex_prop) cg :
  existsb is_mem cg = false → (∀ v, v ∈ concat (nodes <$> cg) → v < num_vertices orig) →
  ∃ st, printChainStats orig cg = Ret st.
Proof.
  intros Hmem Hin. unfold printChainStats. rewrite chain_mlp_cases, Hmem. cbn [mbind outcome_bind].
  match goal with |- context [foldM ?f ?b ?l] => destruct (foldM_returns f l b) as [hists ->] end;
    [|by eexists].
  intros hists i _. destruct (mfind _ _) as [ops|] eqn:Hops; [|by eexists].
  destruct (bucket_ops_returns orig ops) as [h ->]; [|by eexists].
  intros v Hv. apply Hin. pose proof (op_list_spec cg []) as Hp. cbn [fmap list_fmap concat app] in Hp.
  rewrite <- Hp. apply elem_of_concat. exists ops. split; [|done]. apply mfind_elem in Hops.
  change ops with ((Z.of_nat i + 1)%Z, ops).2. by apply list_elem_of_fmap_2.
Qed.

(** The numbers, for chains that are described right and not empty. *)
Record numbers_ok (cg : list chainGraph) (st : chain_stats) : Prop := {
  no_length : cs_avg_length st =
    (Z.of_nat (length (concat (nodes <$> cg))), Z.of_nat (length cg));
  no_inter : cs_inter st = (Z.of_nat (length (concat (nodes <$> cg))) - Z.of_nat (length cg))%Z;
  no_intra : cs_intra st = zsum (λ c, Z.of_nat (fan_in c)) cg;
  no_block : cs_num_block st = length (remove_dups (blockID <$> cg));
  no_max_size : (∀ c, c ∈ cg → Z.of_nat (Levels.size c) ≤ cs_max_size st)%Z ∧
    (cs_max_size st = 0 ∨ ∃ c, c ∈ cg ∧ cs_max_size st = Z.of_nat (Levels.size c))%Z;
  no_max_level : (∀ c, c ∈ cg → level c ≤ cs_max_level st)%Z ∧
    (cs_max_level st = 0%Z ∨ ∃ c, c ∈ cg ∧ cs_max_level st = level c);
  no_ilp : cs_avg_ilp st = (Z.of_nat (length cg),
    Z.of_nat (length (remove_dups ((λ c, u32 (level c)) <$> cg))));
  no_max_ilp : max_count 0 ((λ c, u32 (level c)) <$> cg) (cs_max_ilp st);
  no_sizes : ∀ k, default 0%Z (mfind k (cs_size_histo st)) = occurs k ((λ c, bucket (Levels.size c)) <$> cg);
  no_live_in : ∀ k, default 0%Z (mfind k (cs_liveIn_histo st)) = occurs k ((λ c, bucket (live_in c)) <$> cg);
  no_live_out : ∀ k, default 0%Z (mfind k (cs_liveOut_histo st)) = occurs k ((λ c, bucket (live_out c)) <$> cg);
  no_ops : concat (cs_op_list st).*2 ≡ₚ concat (nodes <$> cg)
}.

Lemma histogram_default `{KeyOrder K} (ks : list K) k : (Z.of_nat (length ks) < 2 ^ 32)%Z →
  default 0%Z (mfind k (histogram ks)) = occurs k ks.
Proof. intros Hlen. rewrite histogram_find by done. by case_decide. Qed.

Lemma chain_numbers_ok cg :
  (∀ c, c ∈ cg → Levels.size c = length (nodes c) ∧ nodes c ≠ []) →
  (Z.of_nat (length (concat (nodes <$> cg))) < 2 ^ 32)%Z →
  (zsum (λ c, Z.of_nat (fan_in c)) cg < 2 ^ 32)%Z →
  numbers_ok cg (chain_numbers cg).
Proof.
  intros Hcg Htot Hfan.
  assert (Hsz : zsum (λ c, Z.of_nat (Levels.size c)) cg = Z.of_nat (length (concat (nodes <$> cg)))).
  { apply zsum_sizes. intros c Hc. by rewrite (proj1 (Hcg c Hc)). }
  assert (Hpos : ∀ c, c ∈ cg → (1 ≤ Z.of_nat (Levels.size c) ≤ Z.of_nat (length (concat (nodes <$> cg))))%Z).
  { intros c Hc. destruct (Hcg c Hc) as [Hs Hne]. rewrite Hs. split; [destruct (nodes c); [done|cbn; lia]|].
    apply list_elem_of_split in Hc as (l1 & l2 & ->).
    rewrite fmap_app, concat_app, length_app. cbn. rewrite length_app. lia. }
  assert (Hcnt : (zsum (λ c, Z.of_nat (Levels.size c) - 1) cg =
    zsum (λ c, Z.of_nat (Levels.size c)) cg - Z.of_nat (length cg))%Z).
  { clear. induction cg as [|c cg IH]; [done|]. rewrite !zsum_cons, IH. cbn [length]. lia. }
  assert (Hpos' : (0 ≤ zsum (λ c, Z.of_nat (Levels.size c) - 1) cg)%Z).
  { apply zsum_nonneg. intros c Hc. pose proof (Hpos c Hc). lia. }
  assert (Hn : (Z.of_nat (length cg) < 2 ^ 32)%Z) by lia.
  split; cbn [chain_numbers cs_avg_length cs_inter cs_intra cs_num_block cs_max_size cs_max_level
    cs_avg_ilp cs_max_ilp cs_size_histo cs_liveIn_histo cs_liveOut_histo cs_op_list].
  - rewrite (u32_sum (λ c, Z.of_nat (Levels.size c))), Hsz; [done|lia|done|lia].
  - transitivity (foldl (λ s c, u32 (s + (Z.of_nat (Levels.size c) - 1))%Z) 0%Z cg).
    + assert (Hgen : ∀ s, foldl (λ s c, u32 (s + u32 (Z.of_nat (Levels.size c) - 1))%Z) s cg =
        foldl (λ s c, u32 (s + (Z.of_nat (Levels.size c) - 1))%Z) s cg); [|apply Hgen].
      clear -Hpos Htot. set (t := length (concat _)) in *. clearbody t.
      induction cg as [|c cg IH]; intros s; [done|].
      cbn [foldl]. pose proof (Hpos c ltac:(left)).
      rewrite (u32_id (Z.of_nat (Levels.size c) - 1)) by lia. apply IH. set_solver.
    + rewrite (u32_sum (λ c, (Z.of_nat (Levels.size c) - 1)%Z)); [lia| |done|lia].
      intros c Hc. pose proof (Hpos c Hc). lia.
  - by rewrite (u32_sum (λ c, Z.of_nat (fan_in c))) by (done || lia).
  - apply ssorted_size; [apply block_set_sorted; constructor|]. intros b.
    rewrite elem_of_block_set. split; [|tauto]. intros [?%not_elem_of_nil|?]; done.
  - destruct (foldl_above_spec (λ c, Z.of_nat (Levels.size c)) cg 0%Z) as (_ & ? & ?). done.
  - destruct (foldl_above_spec level cg 0%Z) as (_ & ? & ?). done.
  - rewrite histogram_size by by rewrite length_fmap.
    rewrite sum_values_total, histogram_total; rewrite ?length_fmap; try done.
    + intros k n Hin. apply histogram_elem in Hin as [_ ->]; [apply occurs_nonneg|by rewrite length_fmap].
    + by rewrite histogram_total, length_fmap; rewrite ?length_fmap.
  - apply max_value_count; [done|by rewrite length_fmap].
  - intros k. apply histogram_default. by rewrite length_fmap.
  - intros k. apply histogram_default. by rewrite length_fmap.
  - intros k. apply histogram_default. by rewrite length_fmap.
  - apply op_list_spec.
Qed.

(** ** Properties *)

(** [buildChainGraph], on chains of vertices of the graph whose chain
    graph has no loop behind chain 0: it returns one entry per chain, numbered
    in order, whose fan-out and fan-in are the numbers of edges leaving and
    entering the chain, whose live-out and live-in are the numbers of distinct
    chains on the other side, which is a memory chain exactly when one of its
    vertices is a load or a store, and whose level is the longest path from
    chain 0 (-1 when there is none). *)
Theorem buildChainGraph_correct `{BoostLaws G} (g : G vertex_prop) (deps : list chainDependency)
  (cs : chains) (Hne : cs ≠ []) (Hin : ∀ v, v ∈ concat cs → v < num_vertices g)
  (Hdeps : ∀ s t, ChainDep s t ∈ deps → t < length cs)
  (Hloop : ¬ has_loop (related (uniqueDependency (histoDependency deps))) 0) :
  ∃ cg, buildChainGraph g (reverseMappingVec (histoDependency deps)) (histoDependency deps)
          (reverseMapping (uniqueDependency (histoDependency deps)))
          (uniqueDependency (histoDependency deps)) cs = Ret cg ∧
    length cg = length cs ∧
    ∀ i c, cs !! i = Some c → ∃ ch, cg !! i = Some ch ∧ described g deps i c ch ∧
      ((level ch = (-1)%Z ∧ ¬ reach (related (uniqueDependency (histoDependency deps))) 0 i) ∨
       longest (related (uniqueDependency (histoDependency deps))) 0 i (level ch)).
Proof. by apply buildChainGraph_ok. Qed.

(** [createChainBlocks], when chain 0 has a dependant and is alone on its
    level: no iterator is dereferenced past the end, the block numbers are all
    that changes in the chain graph, and the blocks that are listed are a
    partition of the chains: each number is listed once, with the chains that
    carry it in their order, and every chain's number is listed. *)
Theorem createChainBlocks_correct (param_set : ordmap string Z)
  (un_dependencies un_reverse_mapping : ordmap nat (list nat)) (cg : list chainGraph)
  (Hlimit : is_Some (mfind "BLOCK_LIMIT"%string param_set))
  (Hnum : numbered cg) (Hne : cg ≠ [])
  (Hinside : ∀ x y, related un_dependencies x y → y < length cg)
  (Hrev : ∀ x y, related un_dependencies x y → is_Some (mfind y un_reverse_mapping))
  (Hroot : is_Some (mfind 0 un_dependencies))
  (Hinit : ∀ c, c ∈ cg → blockID c = 0)
  (Hlev : ∀ c, c ∈ cg → u32 (level c) = 0%Z ↔ chainId c = 0) :
  ∃ cg' bl, createChainBlocks param_set un_dependencies un_reverse_mapping
              (buildChainLevel cg) cg = Ret (cg', bl) ∧
    same_but_block cg cg' ∧ blocks_of cg' bl.
Proof.
  destruct Hlimit as [limit Hlimit].
  destruct (assign_blocks_ok cg param_set limit Hlimit un_dependencies un_reverse_mapping) as (s & Hs & Hok & _);
    try done; [destruct cg; [done|cbn; lia]|].
  unfold createChainBlocks. rewrite Hs. cbn [mbind outcome_bind].
  eexists _, _. split; [done|]. split; [done|]. apply blocks_of_all.
Qed.

(** [buildILPGraph] on a chain graph that partitions the vertices: the ILP
    graph gets one vertex per operation and exactly the edges of the chain
    order, each chain with parents being a path of its vertices in increasing
    order entered from the largest vertex of each parent.  Its vertices stay
    blank: the names, labels and opcodes that the loop writes go to
    [orig_graph], every operation of which becomes a [NOP]. *)
Theorem buildILPGraph_correct `{BoostLaws G} (un_reverse_mapping : ordmap nat (list nat))
  (blank : vertex_prop) (orig : G vertex_prop) (cg : list chainGraph)
  (Hnum : numbered cg) (Hne : ∀ c, c ∈ cg → nodes c ≠ [])
  (Hpar : ∀ x y, related un_reverse_mapping x y → y < length cg)
  (Hperm : concat (nodes <$> cg) ≡ₚ vertices orig) :
  ∃ cg' orig' ilp, buildILPGraph un_reverse_mapping blank orig cg = Ret (cg', orig', ilp) ∧
    same_but_nodes cg cg' ∧ same_edges orig' orig ∧
    (∀ v, v < num_vertices orig → ∃ p, vprop orig' v = Some p ∧ opcode p = "NOP"%string) ∧
    num_vertices ilp = num_vertices orig ∧
    (∀ v, v < num_vertices ilp → vprop ilp v = Some blank) ∧
    ∀ u v, v ∈ out_edges ilp u ↔ ilp_edge cg un_reverse_mapping u v.
Proof. by apply buildILPGraph_ok. Qed.

(** The numbers [printChainStats] prints for chains whose sizes are right
    and not zero, as long as the graph has fewer than 2^32 operations and
    dependencies: the average length is operations over chains, the inter
    communication is operations minus chains, the intra communication the
    number of crossing edges, the blocks, levels and maxima are those of the
    chains, the histograms are counts and the lists of operations together
    hold every operation once. *)
Theorem chain_numbers_correct (cg : list chainGraph)
  (Hcg : ∀ c, c ∈ cg → Levels.size c = length (nodes c) ∧ nodes c ≠ [])
  (Htot : (Z.of_nat (length (concat (nodes <$> cg))) < 2 ^ 32)%Z)
  (Hfan : (zsum (λ c, Z.of_nat (fan_in c)) cg < 2 ^ 32)%Z) :
  numbers_ok cg (chain_numbers cg).
Proof. by apply chain_numbers_ok. Qed.

(** [printChainStats] on a program with a memory chain runs into undefined
    behaviour: the end iterator of [ch_mlp] is compared with the end of
    [ch_ilp] and then dereferenced. *)
Theorem printChainStats_faults `{BoostGraph G} (orig : G vertex_prop) (cg : list chainGraph)
  (Hmem : existsb is_mem cg = true) : printChainStats orig cg = Raise BadDeref.
Proof. unfold printChainStats. by rewrite chain_mlp_cases, Hmem. Qed.

(** ** Examples *)

Definition ex_deps : list chainDependency := [ChainDep 0 1; ChainDep 0 1].

Definition ex_chain (id lev : nat) (mem : bool) (ns : list nat) : chainGraph :=
  ChainGraph id 0 (length ns) 0 0 0 0 0 0 0 0 (Z.of_nat lev) mem ns.

Definition ex_cg : list chainGraph := [ex_chain 0 0 false [0]; ex_chain 1 1 true [2; 1]].

Lemma ex_un_related x y : related (uniqueDependency (histoDependency ex_deps)) x y → x = 0 ∧ y = 1.
Proof.
  rewrite related_unique by apply histoDependency_sorted. rewrite related_histo. intros Hin.
  elem_cases Hin; done.
Qed.

Lemma buildChainGraph_correct_witness :
  ∃ cg, buildChainGraph ex_dirty (reverseMappingVec (histoDependency ex_deps))
          (histoDependency ex_deps)
          (reverseMapping (uniqueDependency (histoDependency ex_deps)))
          (uniqueDependency (histoDependency ex_deps)) [[0]; [1; 2]] = Ret cg ∧
    length cg = length [[0]; [1; 2]] ∧
    ∀ i c, [[0]; [1; 2]] !! i = Some c → ∃ ch, cg !! i = Some ch ∧ described ex_dirty ex_deps i c ch ∧
      ((level ch = (-1)%Z ∧ ¬ reach (related (uniqueDependency (histoDependency ex_deps))) 0 i) ∨
       longest (related (uniqueDependency (histoDependency ex_deps))) 0 i (level ch)).
Proof.
  apply (buildChainGraph_correct ex_dirty ex_deps [[0]; [1; 2]]).
  - done.
  - intros v Hv. elem_cases Hv; vm_compute; lia.
  - intros s t Hin. elem_cases Hin; cbn; lia.
  - apply rising_no_loop. intros x y [-> ->]%ex_un_related. lia.
Defined.

Lemma ex_cg_numbered : numbered ex_cg.
Proof. intros [|[|i]] c [= <-]; done. Qed.

Lemma createChainBlocks_correct_witness :
  ∃ cg' bl, createChainBlocks [("BLOCK_LIMIT"%string, 3%Z)] [(0, [1])] [(1, [0])] (buildChainLevel ex_cg) ex_cg = Ret (cg', bl) ∧
    same_but_block ex_cg cg' ∧ blocks_of cg' bl.
Proof.
  apply (createChainBlocks_correct [("BLOCK_LIMIT"%string, 3%Z)] [(0, [1])] [(1, [0])] ex_cg).
  - by eexists.
  - apply ex_cg_numbered.
  - done.
  - intros x y Hxy%related_elem. elem_cases Hxy; simplify_eq; cbn; lia.
  - intros x y Hxy%related_elem. elem_cases Hxy; simplify_eq; by eexists.
  - by eexists.
  - intros c Hc. elem_cases Hc; subst; done.
  - intros c Hc. elem_cases Hc; subst; done.
Defined.

Lemma buildILPGraph_correct_witness :
  ∃ cg' orig' ilp, buildILPGraph [(1, [0])] (nop_vertex 0 "") ex_dirty ex_cg = Ret (cg', orig', ilp) ∧
    same_but_nodes ex_cg cg' ∧ same_edges orig' ex_dirty ∧
    (∀ v, v < num_vertices ex_dirty → ∃ p, vprop orig' v = Some p ∧ opcode p = "NOP"%string) ∧
    num_vertices ilp = num_vertices ex_dirty ∧
    (∀ v, v < num_vertices ilp → vprop ilp v = Some (nop_vertex 0 "")) ∧
    ∀ u v, v ∈ out_edges ilp u ↔ ilp_edge ex_cg [(1, [0])] u v.
Proof.
  apply (buildILPGraph_correct [(1, [0])] (nop_vertex 0 "") ex_dirty ex_cg).
  - apply ex_cg_numbered.
  - intros c Hc. elem_cases Hc; subst; done.
  - intros x y Hxy%related_elem. elem_cases Hxy; simplify_eq; cbn; lia.
  - vm_compute. constructor. apply Permutation_swap.
Defined.

Lemma chain_numbers_correct_witness : numbers_ok ex_cg (chain_numbers ex_cg).
Proof.
  apply (chain_numbers_correct ex_cg).
  - intros c Hc. elem_cases Hc; subst; done.
  - done.
  - done.
Defined.

Lemma printChainStats_faults_witness : printChainStats ex_dirty ex_cg = Raise BadDeref.
Proof. apply (printChainStats_faults ex_dirty ex_cg). reflexivity. Defined.
