(* ===== verification/LiveLimit.v ===== *)
(** * Limits on live values

    The passes of [src/src/newGraph.cpp] that cut chains until none has more
    than the allowed number of live-outs or live-ins.  [newGraph::initialize]
    has both calls commented out; the output is left out. *)

From stdpp Require Import list sorting.
From S2P Require Import Prelude OrdMap ChainDeps Breaks GraphChains.
Local Open Scope nat_scope.

Section passes.
(** [graph_parameter.param_set], and the edges of [orig_graph]. *)
Variable param_set : ordmap string Z.
Variables out_edges in_edges : nat → list nat.

(** Of the vertices, those outside a chain. *)
Definition outside (c : list nat) (l : list nat) : Z := Z.of_nat (length (filter (λ v, v ∉ c) l)).

(** ** [checkLiveOutLimit] *)

(** The loop over a chain from its end: the vertex at which it is cut. *)
Fixpoint out_cut (limit : Z) (c : list nat) (cnt_out : Z) (vs : list nat) : option nat :=
  match vs with
  | [] => None
  | ch :: vs =>
      if ch =? 0 then out_cut limit c cnt_out vs
      else
        let cnt_out := (cnt_out + outside c (out_edges ch))%Z in
        if (limit <=? cnt_out)%Z then Some ch else out_cut limit c cnt_out vs
  end.

Definition limit_out_chain (Chains : chains) '(ch, live) : outcome chains :=
  limit ← deref (mfind "MAX_LIVE_OUT"%string param_set);
  if (limit <? Z.of_nat (length (live : list nat)))%Z then
    rit ← Chains.[ch]!;
    match out_cut limit rit 0 (reverse rit) with
    | Some v => it ← deref (find_vertex v rit); Ret (cut Chains ch it rit)
    | None => Ret Chains
    end
  else Ret Chains.

Fixpoint checkLiveOutLimit (fuel : nat) (Chains : chains) : outcome chains :=
  match fuel with
  | O => Raise NoFuel
  | S fuel =>
      max_num_chain ← deref (mfind "MAX_NUM_CHAIN"%string param_set);
      assertb (Z.of_nat (length Chains) <? max_num_chain)%Z ;;
      dependencies ← dependenciesGenerate out_edges Chains (vertexToChainMap Chains);
      let chain_to_dependencies := histoDependency dependencies in
      has_liveOut ← checkLiveOutHelper param_set chain_to_dependencies;
      if (has_liveOut : bool) then
        Chains ← foldM limit_out_chain Chains chain_to_dependencies;
        checkLiveOutLimit fuel Chains
      else Ret Chains
  end.

(** ** [checkLiveInLimit] *)

(** The loop over a chain from its start: the vertex after which it is cut. *)
Fixpoint in_cut (limit : Z) (c : list nat) (cnt_in : Z) (vs : list nat) : outcome (option nat) :=
  match vs with
  | [] => Ret None
  | ch :: vs =>
      let cnt_in := (cnt_in + outside c (in_edges ch))%Z in
      assertb (cnt_in <=? limit)%Z ;;
      if (cnt_in =? limit)%Z then Ret (Some ch) else in_cut limit c cnt_in vs
  end.

Definition limit_in_chain (Chains : chains) '(ch, live) : outcome chains :=
  limit ← deref (mfind "MAX_LIVE_IN"%string param_set);
  if (limit <? Z.of_nat (length (live : list nat)))%Z then
    rit ← Chains.[ch]!;
    found ← in_cut limit rit 0 rit;
    match found with
    | Some v => it ← deref (find_vertex v rit); Ret (cut Chains ch (S it) rit)
    | None => Ret Chains
    end
  else Ret Chains.

Fixpoint checkLiveInLimit (fuel : nat) (Chains : chains) : outcome chains :=
  match fuel with
  | O => Raise NoFuel
  | S fuel =>
      max_num_chain ← deref (mfind "MAX_NUM_CHAIN"%string param_set);
      assertb (Z.of_nat (length Chains) <? max_num_chain)%Z ;;
      dependencies ← dependenciesGenerate out_edges Chains (vertexToChainMap Chains);
      let reverse_mapping := reverseMappingVec (histoDependency dependencies) in
      has_liveIn ← checkLiveInHelper param_set reverse_mapping;
      if (has_liveIn : bool) then
        Chains ← foldM limit_in_chain Chains reverse_mapping;
        checkLiveInLimit fuel Chains
      else Ret Chains
  end.
End passes.

(** ** Counting the edges that cross *)

Fixpoint total (f : nat → Z) (l : list nat) : Z :=
  match l with [] => 0 | v :: l => f v + total f l end%Z.

Lemma total_app f l k : total f (l ++ k) = (total f l + total f k)%Z.
Proof. induction l as [|x l IH]; cbn; [done|]. rewrite IH. lia. Qed.

Lemma total_perm f l k : l ≡ₚ k → total f l = total f k.
Proof. induction 1; cbn; lia. Qed.

Lemma total_ext f g l : (∀ x, x ∈ l → f x = g x) → total f l = total g l.
Proof.
  intros Hf. induction l as [|x l IH]; cbn; [done|]. rewrite Hf by set_solver. rewrite IH; [done|]. intros y Hy. apply Hf. set_solver.
Qed.

Lemma total_zero f l : (∀ x, x ∈ l → f x = 0%Z) → total f l = 0%Z.
Proof. intros Hf. rewrite (total_ext _ (λ _, 0%Z)) by done. clear. induction l; cbn; lia. Qed.

Lemma length_bind_total {A} (f : nat → list A) l : Z.of_nat (length (l ≫= f)) = total (λ x, Z.of_nat (length (f x))) l.
Proof. induction l as [|x l IH]; cbn; [done|]. rewrite length_app. lia. Qed.

Section counts.
Variables (out : nat → list nat) (cs : chains).
Hypotheses (Hnd : NoDup (concat cs)) (He : edges_inside out cs).

Lemma dep_of_length k c u t :
  cs !! k = Some c → u ∈ concat cs → t ∈ concat cs →
  length (filter (λ d, source d = k) (dep_of cs u t)) = (if decide (u ∈ c ∧ t ∉ c) then 1 else 0) ∧
  length (filter (λ d, target d = k) (dep_of cs u t)) = (if decide (t ∈ c ∧ u ∉ c) then 1 else 0).
Proof.
  intros Hk Hu Ht. unfold dep_of.
  destruct (chain_of cs u) as [s|] eqn:Es; [|by apply chain_of_None in Es].
  destruct (chain_of cs t) as [r|] eqn:Er; [|by apply chain_of_None in Er].
  assert (Eu : u ∈ c ↔ s = k) by (rewrite (elem_of_chain cs u k c Hnd Hk), Es; split; congruence).
  assert (Et : t ∈ c ↔ r = k) by (rewrite (elem_of_chain cs t k c Hnd Hk), Er; split; congruence).
  destruct (Nat.eqb_spec s r) as [->|Hsr].
  - cbn. rewrite !decide_False by tauto. done.
  - rewrite !filter_cons, !filter_nil. cbn [source target]. split; repeat case_decide; cbn; try tauto; intuition congruence.
Qed.


Lemma filter_bind_total (P : chainDependency → Prop) `{∀ d, Decision (P d)} (l : list nat) f :
  Z.of_nat (length (filter P (l ≫= f))) = total (λ u, Z.of_nat (length (filter P (f u)))) l.
Proof. induction l as [|u l IH]; cbn; [done|]. rewrite filter_app, length_app. lia. Qed.

(** The live-outs of a chain. *)
Lemma live_outs k c :
  cs !! k = Some c →
  Z.of_nat (length (filter (λ d, source d = k) (cross_edges out cs))) = total (λ u, outside c (out u)) c.
Proof.
  intros Hk. unfold cross_edges. rewrite filter_bind_total.
  rewrite (total_ext _ (λ u, if decide (u ∈ c) then outside c (out u) else 0)%Z).
  - rewrite (total_perm _ _ _ (concat_delete cs k c Hk)), total_app, (total_zero _ (concat (delete k cs))).
    + rewrite Z.add_0_r. apply total_ext. intros u Hu. by rewrite decide_True.
    + intros u Hu. rewrite decide_False; [done|]. intros Hc. rewrite (concat_delete cs k c Hk) in Hnd.
      apply NoDup_app in Hnd as (_ & Hd & _). by apply (Hd u).
  - intros u Hu. pose proof (He u) as Heu. revert Heu. unfold outside. generalize (out u). intros l Hl.
    induction l as [|t l IH]; [by case_decide|]. cbn [mbind list_bind]. rewrite filter_app, length_app.
    destruct (dep_of_length k c u t Hk Hu) as [-> _]; [apply (Hl t); [done|set_solver]|].
    rewrite Nat2Z.inj_add, IH by (intros v Hu' Hv; apply (Hl v); set_solver). rewrite filter_cons.
    repeat case_decide; try tauto; cbn [length]; lia.
Qed.

Lemma group_cons (P : nat * nat → Prop) `{∀ e, Decision (P e)} (e : nat * nat) (l : list (nat * nat)) c :
  NoDup c →
  total (λ v, Z.of_nat (length (filter P (filter (λ e, e.2 = v) (e :: l))))) c =
  (Z.of_nat (if decide (e.2 ∈ c ∧ P e) then 1 else 0) + total (λ v, Z.of_nat (length (filter P (filter (λ e, e.2 = v) l)))) c)%Z.
Proof.
  induction 1 as [|v c Hv Hc IH]; cbn [total]; [rewrite decide_False by set_solver; done|].
  rewrite IH, filter_cons. clear IH. destruct (decide (e.2 = v)) as [Ev|Ev].
  - rewrite filter_cons. rewrite (decide_False (P := e.2 ∈ c ∧ P e)) by (subst v; tauto).
    destruct (decide (P e)); [rewrite decide_True by set_solver|rewrite decide_False by tauto]; cbn [length]; lia.
  - destruct (decide (e.2 ∈ c ∧ P e)); [rewrite decide_True by set_solver|rewrite decide_False by set_solver]; lia.
Qed.

(** The edges between the vertices of the chains. *)
Definition edges_of : list (nat * nat) := concat cs ≫= λ u, pair u <$> out u.

Lemma live_ins k c (in_edges : nat → list nat) :
  cs !! k = Some c → (∀ v, v ∈ c → in_edges v ≡ₚ (filter (λ e, e.2 = v) edges_of).*1) →
  Z.of_nat (length (filter (λ d, target d = k) (cross_edges out cs))) = total (λ v, outside c (in_edges v)) c.
Proof.
  intros Hk Hin. assert (Hc : NoDup c) by (rewrite (concat_delete cs k c Hk) in Hnd; by apply NoDup_app in Hnd as [? _]).
  assert (E : cross_edges out cs = edges_of ≫= λ e, dep_of cs e.1 e.2).
  { unfold cross_edges, edges_of. generalize (concat cs). intros l. induction l as [|u l IH]; [done|]. cbn. rewrite bind_app, IH. f_equal.
    generalize (out u). intros ts. induction ts as [|t ts IHt]; [done|]. cbn. by rewrite IHt. }
  assert (Hb : ∀ e, e ∈ edges_of → e.1 ∈ concat cs ∧ e.2 ∈ concat cs).
  { intros e (u & (t & -> & Ht)%list_elem_of_fmap & Hu)%list_elem_of_bind. split; [done|]. by apply (He u). }
  rewrite (total_ext _ (λ v, Z.of_nat (length (filter (λ e : nat * nat, e.1 ∉ c) (filter (λ e, e.2 = v) edges_of))))).
  2: { intros v Hv. unfold outside. by rewrite (Hin v Hv), filter_fmap_length. }
  rewrite E. clear E Hin. revert Hb. generalize edges_of. intros l Hb. induction l as [|e l IH]; [symmetry; by apply total_zero|].
  destruct (Hb e) as [H1 H2]; [set_solver|]. cbn [mbind list_bind]. rewrite filter_app, length_app, Nat2Z.inj_add.
  rewrite IH by (intros; apply Hb; set_solver). destruct (dep_of_length k c e.1 e.2 Hk H1 H2) as [_ ->].
  by rewrite (group_cons (λ e, e.1 ∉ c)).
Qed.
End counts.

(** ** One round *)

Lemma cut_other cs k pos c j : j ≠ k → j < length cs → cut cs k pos c !! j = cs !! j.
Proof. intros Hj Hl. unfold cut. rewrite lookup_app_l by (by rewrite length_insert). by rewrite list_lookup_insert_ne. Qed.

(** A step leaves the chains as they are or cuts the one it is about; a step that
    must cut does. *)
Definition steps_well (step : chains → nat * list nat → outcome chains) (J : chains → Prop) (must : nat * list nat → Prop)
    (cs0 : chains) (m : ordmap nat (list nat)) : Prop :=
  ∀ e c cur, e ∈ m → cs0 !! e.1 = Some c → cur !! e.1 = Some c → J cur →
    step cur e = Raise AssertFailed ∨
    ∃ cur', step cur e = Ret cur' ∧ J cur' ∧ (cur' = cur ∧ ¬ must e ∨ ∃ pos, cur' = cut cur e.1 pos c).

Lemma round_ok step J must cs0 m :
  steps_well step J must cs0 m → NoDup (mkeys m) → (∀ e, e ∈ m → e.1 < length cs0) → J cs0 →
  foldM step cs0 m = Raise AssertFailed ∨
  ∃ cs', foldM step cs0 m = Ret cs' ∧ J cs' ∧ concat cs' ≡ₚ concat cs0 ∧ pieces_of cs' cs0 ∧ length cs0 ≤ length cs' ∧
    (Exists must m → length cs0 < length cs').
Proof.
  intros Hstep Hnd Hlt HJ.
  assert (H : ∀ l cur, l ⊆ m → NoDup (mkeys l) → J cur → length cs0 ≤ length cur → (∀ e, e ∈ l → cur !! e.1 = cs0 !! e.1) →
    foldM step cur l = Raise AssertFailed ∨
    ∃ cs', foldM step cur l = Ret cs' ∧ J cs' ∧ concat cs' ≡ₚ concat cur ∧ pieces_of cs' cur ∧ length cur ≤ length cs' ∧
      (Exists must l → length cur < length cs')).
  { induction l as [|e l IH]; intros cur Hsub Hk Hcur Hlen Hsame.
    - right. exists cur. split_and!; try done; [apply pieces_refl|]. by intros ?%Exists_nil.
    - apply NoDup_cons in Hk as [He Hk]. destruct (lookup_lt_is_Some_2 cs0 e.1) as [c Hc]; [apply Hlt, Hsub; set_solver|].
      assert (Hc' : cur !! e.1 = Some c) by (rewrite Hsame; [done|set_solver]).
      cbn [foldM]. destruct (Hstep e c cur) as [->|(cur' & -> & HJ' & Hcut)]; [apply Hsub; set_solver|done..|by left|]. cbn [mbind outcome_bind].
      assert (Hfacts : concat cur' ≡ₚ concat cur ∧ pieces_of cur' cur ∧ length cur ≤ length cur' ∧ (must e → length cur < length cur') ∧
        ∀ j, j ≠ e.1 → j < length cur → cur' !! j = cur !! j).
      { destruct Hcut as [[-> Hn]|[pos ->]]; [split_and!; try done; apply pieces_refl|].
        rewrite cut_length. split_and!; [by apply cut_concat|by apply cut_pieces|lia|lia|]. intros j. apply cut_other. }
      destruct Hfacts as (F1 & F2 & F3 & F4 & F5).
      destruct (IH cur') as [->|(cs' & -> & G1 & G2 & G3 & G4 & G5)]; [set_solver|done|done|lia| |by left|].
      + intros e' He'. assert (e'.1 ≠ e.1).
        { intros Ee. apply He. rewrite <- Ee. apply list_elem_of_fmap. by exists e'. }
        rewrite F5; [apply Hsame; set_solver|done|]. assert (e'.1 < length cs0) by (apply Hlt, Hsub; set_solver). lia.
      + right. exists cs'. split_and!; [done|done|by rewrite G2|by eapply pieces_trans|lia|].
        intros [Hm|Hm]%Exists_cons; [specialize (F4 Hm); lia|specialize (G5 Hm); lia]. }
  by apply H.
Qed.

(** ** The loops *)

Section limit_loop.
Variables (out : nat → list nat) (max : Z) (J : chains → Prop).
Variables (mapping : list chainDependency → ordmap nat (list nat)) (over : ordmap nat (list nat) → bool).
Variable step : chains → nat * list nat → outcome chains.

Fixpoint limit_loop (fuel : nat) (cs : chains) : outcome chains :=
  match fuel with
  | O => Raise NoFuel
  | S fuel =>
      assertb (Z.of_nat (length cs) <? max)%Z ;;
      deps ← dependenciesGenerate out cs (vertexToChainMap cs);
      if over (mapping deps) then cs ← foldM step cs (mapping deps); limit_loop fuel cs else Ret cs
  end.

Hypothesis J_ok : ∀ cs, J cs → NoDup (concat cs) ∧ edges_inside out cs.
Hypothesis round : ∀ cs, J cs → over (mapping (cross_edges out cs)) = true →
  foldM step cs (mapping (cross_edges out cs)) = Raise AssertFailed ∨
  ∃ cs', foldM step cs (mapping (cross_edges out cs)) = Ret cs' ∧ J cs' ∧ concat cs' ≡ₚ concat cs ∧ pieces_of cs' cs ∧
    length cs < length cs'.

(** Every round adds a chain, and the assertion bounds their number. *)
Lemma limit_loop_ok fuel : ∀ cs,
  J cs → 0 < fuel → (max < Z.of_nat (fuel + length cs))%Z →
  limit_loop fuel cs = Raise AssertFailed ∨
  ∃ cs', limit_loop fuel cs = Ret cs' ∧ J cs' ∧ concat cs' ≡ₚ concat cs ∧ pieces_of cs' cs ∧
    over (mapping (cross_edges out cs')) = false.
Proof using All.
  induction fuel as [|fuel IH]; intros cs HJ Hpos Hf; [lia|]. cbn [limit_loop]. destruct (J_ok cs HJ) as [Hnd He].
  destruct (Z.ltb_spec (Z.of_nat (length cs)) max) as [Hl|Hl]; [|by left]. cbn [assertb mbind outcome_bind].
  rewrite dependenciesGenerate_edges by done. cbn [mbind outcome_bind].
  destruct (over (mapping (cross_edges out cs))) eqn:Eo.
  - destruct (round cs HJ Eo) as [->|(cs1 & -> & HJ1 & Hc1 & Hp1 & Hl1)]; [by left|]. cbn [mbind outcome_bind].
    destruct (IH cs1 HJ1) as [->|(cs' & -> & HJ' & Hc' & Hp' & Ho)]; [lia|lia|by left|].
    right. exists cs'. split_and!; try done; [by rewrite Hc'|by eapply pieces_trans].
  - right. exists cs. split_and!; try done. apply pieces_refl.
Qed.
End limit_loop.

(** ** The choice of a cut *)

Section limits.
Variables (param_set : ordmap string Z) (out in_edges : nat → list nat) (limit max : Z).
Hypotheses (Hmax : mfind "MAX_NUM_CHAIN"%string param_set = Some max) (Hlimit : (0 ≤ limit)%Z).

Lemma out_cut_None c vs : ∀ cnt,
  out_cut out limit c cnt vs = None → 0 ∉ vs → (cnt + total (λ u, outside c (out u)) vs ≤ Z.max cnt limit)%Z.
Proof.
  induction vs as [|v vs IH]; intros cnt Hn H0; cbn [total out_cut] in *; [lia|].
  destruct (Nat.eqb_spec v 0) as [->|]; [set_solver|]. destruct (Z.leb_spec limit (cnt + outside c (out v))); [done|].
  apply IH in Hn; [lia|set_solver].
Qed.

Lemma out_cut_Some c vs v : ∀ cnt, out_cut out limit c cnt vs = Some v → v ∈ vs ∧ v ≠ 0.
Proof.
  induction vs as [|w vs IH]; intros cnt Hs; cbn [out_cut] in Hs; [done|].
  destruct (Nat.eqb_spec w 0) as [->|]; [apply IH in Hs; set_solver|].
  destruct (_ <=? _)%Z; [|apply IH in Hs; set_solver]. injection Hs as ->. set_solver.
Qed.

Lemma in_cut_spec c vs : ∀ cnt,
  in_cut in_edges limit c cnt vs = Raise AssertFailed ∨
  (in_cut in_edges limit c cnt vs = Ret None ∧ (cnt + total (λ v, outside c (in_edges v)) vs ≤ Z.max cnt limit)%Z) ∨
  ∃ v, in_cut in_edges limit c cnt vs = Ret (Some v) ∧ v ∈ vs.
Proof.
  induction vs as [|v vs IH]; intros cnt; cbn [total in_cut]; [right; left; split; [done|lia]|].
  destruct (Z.leb_spec (cnt + outside c (in_edges v)) limit) as [Hl|]; [|by left]. cbn [assertb mbind outcome_bind].
  destruct (Z.eqb_spec (cnt + outside c (in_edges v)) limit); [right; right; exists v; split; [done|set_solver]|].
  destruct (IH (cnt + outside c (in_edges v))%Z) as [E|[[E Ht]|(w & E & Hw)]]; rewrite E; [by left|right; left; split; [done|lia]|].
  right. right. exists w. split; [done|set_solver].
Qed.

(** The start node, 0, comes first in chain 0. *)
Definition zero_first (cs : chains) : Prop := ∀ i c p, cs !! i = Some c → c !! p = Some 0 → i = 0 ∧ p = 0.

Lemma cut_zero_first cs k pos c v :
  zero_first cs → cs !! k = Some c → c !! pos = Some v → v ≠ 0 → zero_first (cut cs k pos c).
Proof.
  intros Hz Hk Hp Hv i c' p Hi Hc'. unfold cut in Hi. apply lookup_app_Some in Hi as [Hi|[Hl Hi]].
  - apply list_lookup_insert_Some in Hi as [(-> & <- & _)|[_ Hi]]; [|by eapply Hz].
    apply lookup_take_Some in Hc' as [Hc' _]. by eapply Hz.
  - apply list_lookup_singleton_Some in Hi as [_ <-]. rewrite lookup_drop in Hc'.
    destruct (Hz k c (pos + p) Hk Hc') as [_ E]. replace pos with 0 in Hp by lia. destruct (Hz k c (pos + p) Hk Hc'). congruence.
Qed.

Lemma entry_size_elem (m : ordmap nat (list nat)) k l : key_sorted m → (k, l) ∈ m → entry_size k m = length l.
Proof. intros Hs Hin. apply mfind_Some in Hin; [|done]. unfold entry_size. by rewrite Hin. Qed.

Lemma push_all_nonempty ps : [] ∉ (push_all ps []).*2.
Proof.
  assert (H : ∀ m, [] ∉ m.*2 → [] ∉ (push_all ps m).*2); [|apply H; cbn; set_solver].
  induction ps as [|[k x] ps IH]; intros m Hm; [done|]. cbn. apply IH. by apply (malter_append_nonempty k x).
Qed.

(** The entries of a map that counts dependencies by [key]. *)
Lemma entry_counts (key : chainDependency → nat) m deps e :
  key_sorted m → [] ∉ m.*2 → (∀ i, entry_size i m = length (filter (λ d, key d = i) deps)) → e ∈ m →
  length e.2 = length (filter (λ d, key d = e.1) deps) ∧ ∃ d, d ∈ deps ∧ key d = e.1.
Proof.
  intros Hs Hne Hm He. destruct e as [k l]. pose proof (entry_size_elem m k l Hs He) as E. rewrite Hm in E. split; [done|].
  destruct (filter (λ d, key d = k) deps) as [|d ds] eqn:Ef.
  - exfalso. apply Hne. destruct l; [|done]. by apply (list_elem_of_fmap_2 snd) in He.
  - exists d. assert (Hd : d ∈ filter (λ d, key d = k) deps) by (rewrite Ef; set_solver). by apply list_elem_of_filter in Hd as [? ?].
Qed.

(** ** Live-outs *)

Section outs.
Hypothesis Hout : mfind "MAX_LIVE_OUT"%string param_set = Some limit.

Definition out_ok (cs : chains) : Prop := NoDup (concat cs) ∧ edges_inside out cs ∧ zero_first cs.

Definition over_out (e : nat * list nat) : bool := (limit <? Z.of_nat (length e.2))%Z && negb (e.1 =? 0).

Lemma checkLiveOutHelper_eq m : checkLiveOutHelper param_set m = Ret (existsb over_out m).
Proof.
  induction m as [|[k l] m IH]; [done|]. cbn [checkLiveOutHelper existsb]. rewrite Hout. cbn [deref mbind outcome_bind].
  unfold over_out at 1. cbn [fst snd]. by destruct (_ && _).
Qed.

Lemma histo_entry cs e :
  e ∈ histoDependency (cross_edges out cs) →
  length e.2 = length (filter (λ d, source d = e.1) (cross_edges out cs)) ∧ e.1 < length cs.
Proof.
  intros He. destruct (entry_counts source _ (cross_edges out cs) e (histoDependency_sorted (cross_edges out cs))) as (E & d & Hd & Ed);
    [rewrite histoDependency_push; apply push_all_nonempty|apply histo_size|done|].
  split; [done|]. rewrite <- Ed. by apply cross_edges_in_bounds in Hd as [? _].
Qed.

Lemma out_steps cs :
  out_ok cs → steps_well (limit_out_chain param_set out) out_ok (λ e, over_out e = true) cs (histoDependency (cross_edges out cs)).
Proof.
  intros (Hnd & He & Hz) [k l] c cur Hin Hc Hcur HJ. destruct (histo_entry cs (k, l) Hin) as [El _]. cbn [fst snd] in *. right.
  unfold limit_out_chain. rewrite Hout. cbn [deref mbind outcome_bind]. unfold over_out. cbn [fst snd].
  destruct (Z.ltb_spec limit (Z.of_nat (length l))) as [Hl|Hl].
  2: { exists cur. split; [done|]. split; [done|]. by left. }
  rewrite (at_idx_Some _ _ _ Hcur). cbn [mbind outcome_bind].
  destruct (out_cut out limit c 0 (reverse c)) as [v|] eqn:Ev.
  - apply out_cut_Some in Ev as [Hv Hv0]. rewrite elem_of_reverse in Hv.
    destruct (find_vertex v c) as [pos|] eqn:Ep; [|by apply find_vertex_None in Ep].
    apply find_vertex_Some in Ep as [Hp _]. cbn [deref mbind outcome_bind]. eexists. split; [done|]. split; [|right; by exists pos].
    destruct HJ as (J1 & J2 & J3). split_and!; [by rewrite cut_concat|eapply edges_inside_perm; [by apply cut_concat|done]|by eapply cut_zero_first].
  - exists cur. split; [done|]. split; [done|]. left. split; [done|]. cbn [andb]. intros Hk.
    assert (Hk0 : k ≠ 0) by (by destruct (Nat.eqb_spec k 0)).
    apply out_cut_None in Ev; [|intros Hv; apply Hk0; rewrite elem_of_reverse in Hv; apply list_elem_of_lookup in Hv as [p Hp]; by destruct (Hz k c p Hc Hp)].
    rewrite (total_perm _ (reverse c) c) in Ev by apply reverse_Permutation.
    rewrite El, (live_outs out cs Hnd He k c Hc) in Hl. lia.
Qed.

Lemma checkLiveOutLimit_loop fuel cs :
  checkLiveOutLimit param_set out fuel cs =
  limit_loop out max histoDependency (existsb over_out) (limit_out_chain param_set out) fuel cs.
Proof.
  revert cs. induction fuel as [|fuel IH]; intros cs; [done|]. cbn [checkLiveOutLimit limit_loop]. rewrite Hmax.
  cbn [deref mbind outcome_bind]. destruct (assertb _); [|done]. cbn [mbind outcome_bind].
  destruct (dependenciesGenerate _ _ _) as [deps|]; [|done]. cbn [mbind outcome_bind]. rewrite checkLiveOutHelper_eq. cbn [mbind outcome_bind].
  destruct (existsb _ _); [|done]. destruct (foldM _ _ _); [|done]. apply IH.
Qed.

Lemma live_out_limit cs :
  out_ok cs →
  let r := checkLiveOutLimit param_set out (S (Z.to_nat max)) cs in
  r = Raise AssertFailed ∨
  ∃ cs', r = Ret cs' ∧ NoDup (concat cs') ∧ concat cs' ≡ₚ concat cs ∧ pieces_of cs' cs ∧
    ∀ k c, k ≠ 0 → cs' !! k = Some c → (total (λ u, outside c (out u)) c ≤ limit)%Z.
Proof.
  intros HJ. cbn zeta. rewrite checkLiveOutLimit_loop.
  destruct (limit_loop_ok out max out_ok histoDependency (existsb over_out) (limit_out_chain param_set out)) with (fuel := S (Z.to_nat max)) (cs := cs)
    as [->|(cs' & -> & (J1 & J2 & J3) & Hc & Hp & Ho)]; [by intros ? (? & ? & _)| |done|lia|lia|by left|].
  - intros c Hc Ho. destruct (round_ok _ _ _ c _ (out_steps c Hc)) as [E|(cs' & E & H1 & H2 & H3 & _ & H5)].
    + apply key_sorted_NoDup, histoDependency_sorted.
    + intros e He. by apply histo_entry.
    + done.
    + by left.
    + right. exists cs'. split_and!; try done. apply H5. apply existsb_exists in Ho as (e & He & Hov).
      apply Exists_exists. exists e. by rewrite list_elem_of_In.
  - right. exists cs'. split_and!; try done. intros k c Hk Hkc. rewrite <- (live_outs out cs' J1 J2 k c Hkc), <- histo_size.
    unfold entry_size. destruct (mfind k _) as [l|] eqn:El; [|cbn; lia]. apply mfind_elem in El.
    assert (Hov : over_out (k, l) = false).
    { apply not_true_is_false. intros Ht. assert (Hx : existsb over_out (histoDependency (cross_edges out cs')) = true); [|congruence].
      apply existsb_exists. exists (k, l). by rewrite <- list_elem_of_In. }
    unfold over_out in Hov. cbn [fst snd] in Hov. destruct (Nat.eqb_spec k 0); [done|]. rewrite andb_true_r in Hov.
    apply Z.ltb_ge in Hov. cbn. lia.
Qed.
End outs.

(** ** Live-ins *)

Section ins.
Hypothesis Hin : mfind "MAX_LIVE_IN"%string param_set = Some limit.

Definition in_ok (cs : chains) : Prop :=
  NoDup (concat cs) ∧ edges_inside out cs ∧
  ∀ v, v ∈ concat cs → in_edges v ≡ₚ (filter (λ e, e.2 = v) (edges_of out cs)).*1.

Definition over_in (e : nat * list nat) : bool := (limit <? Z.of_nat (length e.2))%Z.

Lemma checkLiveInHelper_eq m : checkLiveInHelper param_set m = Ret (existsb over_in m).
Proof.
  induction m as [|[k l] m IH]; [done|]. cbn [checkLiveInHelper existsb]. rewrite Hin. cbn [deref mbind outcome_bind].
  unfold over_in at 1. cbn [snd]. by destruct (_ <? _)%Z.
Qed.

Definition live_in_map (deps : list chainDependency) : ordmap nat (list nat) := reverseMappingVec (histoDependency deps).

Lemma live_in_sorted deps : key_sorted (live_in_map deps).
Proof. unfold live_in_map. rewrite reverseMappingVec_push. apply push_all_sorted, key_sorted_nil. Qed.

Lemma in_entry cs e :
  e ∈ live_in_map (cross_edges out cs) →
  length e.2 = length (filter (λ d, target d = e.1) (cross_edges out cs)) ∧ e.1 < length cs.
Proof.
  intros He. destruct (entry_counts target _ (cross_edges out cs) e (live_in_sorted (cross_edges out cs))) as (E & d & Hd & Ed);
    [unfold live_in_map; rewrite reverseMappingVec_push; apply push_all_nonempty|apply reverse_histo_size|done|].
  split; [done|]. rewrite <- Ed. by apply cross_edges_in_bounds in Hd as [_ ?].
Qed.

Lemma in_ok_perm cs cs' : concat cs' ≡ₚ concat cs → in_ok cs → in_ok cs'.
Proof.
  intros Hp (H1 & H2 & H3). split_and!; [by rewrite Hp|by eapply edges_inside_perm|]. intros v Hv. rewrite Hp in Hv.
  unfold edges_of. rewrite Hp. by apply H3.
Qed.

Lemma in_steps cs :
  in_ok cs → steps_well (limit_in_chain param_set in_edges) in_ok (λ e, over_in e = true) cs (live_in_map (cross_edges out cs)).
Proof.
  intros (Hnd & He & Hie) [k l] c cur Hkl Hc Hcur HJ. destruct (in_entry cs (k, l) Hkl) as [El _]. cbn [fst snd] in *.
  unfold limit_in_chain. rewrite Hin. cbn [deref mbind outcome_bind]. unfold over_in. cbn [snd].
  destruct (Z.ltb_spec limit (Z.of_nat (length l))) as [Hl|Hl].
  2: { right. exists cur. split; [done|]. split; [done|]. by left. }
  rewrite (at_idx_Some _ _ _ Hcur). cbn [mbind outcome_bind].
  destruct (in_cut_spec c c 0) as [->|[[-> Ht]|(v & -> & Hv)]]; cbn [mbind outcome_bind]; [by left|exfalso|].
  - rewrite El, (live_ins out cs Hnd He k c in_edges Hc) in Hl; [lia|]. intros v Hv. apply Hie, elem_of_concat_lookup. eauto.
  - right. destruct (find_vertex v c) as [pos|] eqn:Ep; [|by apply find_vertex_None in Ep]. cbn [deref mbind outcome_bind].
    eexists. split; [done|]. split; [|right; by exists (S pos)]. eapply in_ok_perm; [|done]. by apply cut_concat.
Qed.

Lemma checkLiveInLimit_loop fuel cs :
  checkLiveInLimit param_set out in_edges fuel cs =
  limit_loop out max live_in_map (existsb over_in) (limit_in_chain param_set in_edges) fuel cs.
Proof.
  revert cs. induction fuel as [|fuel IH]; intros cs; [done|]. cbn [checkLiveInLimit limit_loop]. rewrite Hmax.
  cbn [deref mbind outcome_bind]. destruct (assertb _); [|done]. cbn [mbind outcome_bind].
  destruct (dependenciesGenerate _ _ _) as [deps|]; [|done]. cbn [mbind outcome_bind]. rewrite checkLiveInHelper_eq. cbn [mbind outcome_bind].
  unfold live_in_map. destruct (existsb _ _); [|done]. destruct (foldM _ _ _); [|done]. apply IH.
Qed.

Lemma live_in_limit cs :
  in_ok cs →
  let r := checkLiveInLimit param_set out in_edges (S (Z.to_nat max)) cs in
  r = Raise AssertFailed ∨
  ∃ cs', r = Ret cs' ∧ NoDup (concat cs') ∧ concat cs' ≡ₚ concat cs ∧ pieces_of cs' cs ∧
    ∀ k c, cs' !! k = Some c → (total (λ v, outside c (in_edges v)) c ≤ limit)%Z.
Proof.
  intros HJ. cbn zeta. rewrite checkLiveInLimit_loop.
  destruct (limit_loop_ok out max in_ok live_in_map (existsb over_in) (limit_in_chain param_set in_edges)) with (fuel := S (Z.to_nat max)) (cs := cs)
    as [->|(cs' & -> & (J1 & J2 & J3) & Hc & Hp & Ho)]; [by intros ? (? & ? & _)| |done|lia|lia|by left|].
  - intros c Hc Ho. destruct (round_ok _ _ _ c _ (in_steps c Hc)) as [E|(cs' & E & H1 & H2 & H3 & _ & H5)].
    + apply key_sorted_NoDup, live_in_sorted.
    + intros e He. by apply in_entry.
    + done.
    + by left.
    + right. exists cs'. split_and!; try done. apply H5. apply existsb_exists in Ho as (e & He & Hov).
      apply Exists_exists. exists e. by rewrite list_elem_of_In.
  - right. exists cs'. split_and!; try done. intros k c Hkc.
    rewrite <- (live_ins out cs' J1 J2 k c in_edges Hkc) by (intros v Hv; apply J3, elem_of_concat_lookup; eauto).
    rewrite <- reverse_histo_size. unfold entry_size. fold (live_in_map (cross_edges out cs')).
    destruct (mfind k _) as [l|] eqn:El; [|cbn; lia]. apply mfind_elem in El.
    assert (Hov : over_in (k, l) = false).
    { apply not_true_is_false. intros Ht. assert (Hx : existsb over_in (live_in_map (cross_edges out cs')) = true); [|congruence].
      apply existsb_exists. exists (k, l). by rewrite <- list_elem_of_In. }
    unfold over_in in Hov. cbn [snd] in Hov. apply Z.ltb_ge in Hov. cbn. lia.
Qed.
End ins.
End limits.

(** ** The theorem *)

(** The edges into a vertex are those out of the vertices of the chains. *)
Definition in_edges_of (out in_edges : nat → list nat) (cs : chains) : Prop :=
  ∀ v, v ∈ concat cs → in_edges v ≡ₚ (filter (λ e, e.2 = v) (edges_of out cs)).*1.

(** The passes that limit live values end, because every round adds a chain
    and an assertion bounds their number: either it fails, or the result has the
    same vertices in contiguous pieces of the old chains, and no chain but that
    of the start node has more live-outs, respectively no chain more live-ins,
    than the parameters allow. *)
Theorem live_limits (param_set : ordmap string Z) (out in_edges : nat → list nat) (max_out max_in max : Z) (cs : chains)
  (Hmax : mfind "MAX_NUM_CHAIN"%string param_set = Some max)
  (Hout : mfind "MAX_LIVE_OUT"%string param_set = Some max_out) (Hin : mfind "MAX_LIVE_IN"%string param_set = Some max_in)
  (H0 : (0 ≤ max_out)%Z) (H1 : (0 ≤ max_in)%Z)
  (Hnd : NoDup (concat cs)) (He : edges_inside out cs) (Hi : in_edges_of out in_edges cs) (Hz : zero_first cs) :
  let fuel := S (Z.to_nat max) in
  (checkLiveOutLimit param_set out fuel cs = Raise AssertFailed ∨
   ∃ cs', checkLiveOutLimit param_set out fuel cs = Ret cs' ∧ NoDup (concat cs') ∧ concat cs' ≡ₚ concat cs ∧ pieces_of cs' cs ∧
     ∀ k c, k ≠ 0 → cs' !! k = Some c → (total (λ u, outside c (out u)) c ≤ max_out)%Z) ∧
  (checkLiveInLimit param_set out in_edges fuel cs = Raise AssertFailed ∨
   ∃ cs', checkLiveInLimit param_set out in_edges fuel cs = Ret cs' ∧ NoDup (concat cs') ∧ concat cs' ≡ₚ concat cs ∧
     pieces_of cs' cs ∧ ∀ k c, cs' !! k = Some c → (total (λ v, outside c (in_edges v)) c ≤ max_in)%Z).
Proof. split; [by eapply live_out_limit|by eapply live_in_limit]. Qed.

(** Vertex 0 feeds a chain of four, whose vertices feed two more. *)
Definition ex_out (v : nat) : list nat := nth v [[1]; [2; 5]; [3; 6]; [4; 5]; [6]; []; []] [].
Definition ex_in (v : nat) : list nat := nth v [[]; [0]; [1]; [2]; [3]; [1; 3]; [2; 4]] [].
Definition ex_limits : ordmap string Z := [("MAX_LIVE_IN", 2); ("MAX_LIVE_OUT", 2); ("MAX_NUM_CHAIN", 20)]%Z%string.

Example ex_live_out :
  checkLiveOutLimit ex_limits ex_out 21 [[0]; [1; 2; 3; 4]; [5]; [6]] = Ret [[0]; [1]; [5]; [6]; [3; 4]; [2]].
Proof. reflexivity. Qed.

Lemma live_limits_ex :
  ∃ cs', checkLiveInLimit ex_limits ex_out ex_in 21 [[0]; [1; 2; 3; 4]; [5]; [6]] = Ret cs' ∧
    ∀ k c, cs' !! k = Some c → (total (λ v, outside c (ex_in v)) c ≤ 2)%Z.
Proof.
  destruct (live_limits ex_limits ex_out ex_in 2 2 20 [[0]; [1; 2; 3; 4]; [5]; [6]]) as [_ [E|(cs' & E & _ & _ & _ & Hl)]]; try done.
  - vm_compute. repeat constructor; set_solver.
  - intros u t Hu Ht. cbn in Hu |- *. repeat (apply elem_of_cons in Hu as [->|Hu]; [cbn in Ht; set_solver|]). set_solver.
  - intros v Hv. cbn in Hv. repeat (apply elem_of_cons in Hv as [->|Hv]; [vm_compute; done|]). set_solver.
  - intros i c q Hi Hq. destruct i as [|[|[|[|i]]]]; try done; injection Hi as <-; destruct q as [|[|[|[|q]]]]; done.
  - by exists cs'.
Qed.

(** A vertex with more live-outs than the limit is moved whole, and its chain
    stays empty, until there are too many chains. *)
Example no_progress :
  checkLiveOutLimit ex_limits (λ v, if v =? 1 then [2; 3; 4] else []) 21 [[0]; [1]; [2]; [3]; [4]] = Raise AssertFailed.
Proof. reflexivity. Qed.
