(* ===== verification/GraphInit.v ===== *)
(** * Building the chains of a program

    [newGraph::initialize] ([src/src/newGraph.cpp]): the passes of the other
    graph files in the order the code runs them.  The dot parser is boost's, so
    [initialize] starts from the graph it delivers, and [initialize_from] from
    the texts of the parameter and instruction files too.  The passes that write
    files are run for the numbers they compute, which is where the code can
    fail; the files themselves are left out. *)

From stdpp Require Import sorting.
From S2P Require Import Prelude OrdMap Histogram Text BoostGraph ChainDeps Walks LoopCheck Levels Breaks Graph GraphRead GraphChains Regex ParamFile InstFile.
From coqutil Require Import Datatypes.RecordSettersUsingExistingGetters.
Local Open Scope nat_scope.

Section initialize.
Context `{BoostGraph G}.
Variable param_set : ordmap string Z.            (* [graph_parameter.param_set] *)
Variable instruction_llvm : ordmap string Z.     (* [llvm_ins.instruction_llvm] *)
Variable junk_max : Z.                           (* [max_ilp] before it is set *)
Variable blank : vertex_prop.                    (* a vertex that is not filled in *)

(** A parameter that must be defined, as a condition. *)
Definition flag (key : string) : outcome bool :=
  match mfind key param_set with
  | None => Raise AssertFailed
  | Some v => Ret (negb (v =? 0)%Z)
  end.

(** Steps 5 to 12: the initial chains are cut and merged. *)
Definition decompose (orig_graph clean_graph : G vertex_prop) (first_node_id : Z) (Chains : chains)
    : outcome chains :=
  Chains ← breakingStartNode (Z.to_nat first_node_id) Chains;
  b ← flag "BREAK_LIVE_OUT";
  Chains ← (if b : bool then breakEveryLiveOut (out_edges orig_graph) (S (total_len Chains)) Chains
            else Ret Chains);
  b ← flag "BREAK_LIVE_IN";
  Chains ← (if b : bool
            then breakEveryLiveIn (out_edges orig_graph) (S (total_len Chains)) Chains
            else Ret Chains);
  b ← flag "MERGE";
  if b : bool then mergeLoop (out_edges clean_graph) (S (length Chains)) Chains else Ret Chains.

Record newGraph := mkNewGraph {
  orig_graph : G vertex_prop;
  comp_graph : G vertex_prop_com;
  ilp_graph : G vertex_prop;
  stats : graph_stats;
  info : chainInfo
}.

(** The final dependencies, levels, blocks and the ILP graph. *)
Definition finish_graph (orig_graph : G vertex_prop) (comp_graph : G vertex_prop_com)
    (orig_map : ordmap nat Z) (st : graph_stats) (Chains : chains) : outcome newGraph :=
  let vertex_to_Chunk := vertexToChainMap Chains in
  dependencies ← dependenciesGenerate (out_edges orig_graph) Chains vertex_to_Chunk;
  let chain_to_dependencies := histoDependency dependencies in
  let un_dependencies := uniqueDependency chain_to_dependencies in
  let un_reverse_mapping := reverseMapping un_dependencies in
  let reverse_mapping := reverseMappingVec chain_to_dependencies in
  has_loop ← checkLoop un_dependencies;
  assertb (negb has_loop) ;;
  chain_graph ← buildChainGraph orig_graph reverse_mapping chain_to_dependencies
                  un_reverse_mapping un_dependencies Chains;
  let chain_level := buildChainLevel chain_graph in
  '(chain_graph, block_chain) ← createChainBlocks param_set un_dependencies un_reverse_mapping
                                  chain_level chain_graph;
  '(chain_graph, orig_graph, ilp_graph) ← buildILPGraph un_reverse_mapping blank orig_graph chain_graph;
  Ret (mkNewGraph orig_graph comp_graph ilp_graph st
         (mkChainInfo Chains vertex_to_Chunk dependencies chain_to_dependencies reverse_mapping
            un_dependencies un_reverse_mapping chain_graph chain_level block_chain orig_map)).

(** Everything up to [buildILPGraph]. *)
Definition build_graph (dirty_graph : G vertex_prop) : outcome newGraph :=
  clean_graph ← cleanReadGraphHelper dirty_graph;
  orig_graph ← cleanRemoveReadGraphHelper clean_graph;
  '(comp_graph, orig_map, st) ← completeReadGraphHelper instruction_llvm junk_max orig_graph;
  '(_, first_node_id, Chains) ← createChains orig_graph;
  Chains ← decompose orig_graph clean_graph first_node_id Chains;
  finish_graph orig_graph comp_graph orig_map st Chains.

(** The whole of it: [ilpStat] and [printChainStats] compute what is printed
    and can fail on the way. *)
Definition initialize (dirty_graph : G vertex_prop) : outcome newGraph :=
  g ← build_graph dirty_graph;
  _ ← ilpStat (orig_graph g) (ilp_graph g);
  _ ← printChainStats (orig_graph g) (chain_graph (info g));
  Ret g.
End initialize.

(** [initialize] from the texts of its parameter and instruction files. *)
Definition initialize_from `{BoostGraph G} (graph_param llvm_instruction : text) (junk_max : Z)
    (blank : vertex_prop) (dirty_graph : G vertex_prop) : outcome newGraph :=
  param_set ← readParam graph_param [];
  instruction_llvm ← readInst llvm_instruction [];
  initialize param_set instruction_llvm junk_max blank dirty_graph.

(** ** The decomposition *)

Section proofs.
Context `{BoostLaws G}.
Variables param_set instruction_llvm : ordmap string Z.

(** The parameters the passes look up. *)
Definition params_set : Prop :=
  Forall (λ key, is_Some (mfind key param_set))
    ["BREAK_LIVE_OUT"; "BREAK_LIVE_IN"; "MERGE"; "BLOCK_LIMIT"]%string.

Lemma flag_ret key : is_Some (mfind key param_set) → ∃ b, flag param_set key = Ret b.
Proof. intros [v Hv]. unfold flag. rewrite Hv. cbn. eauto. Qed.

(** Cutting after the start node, which begins chain 0. *)
Lemma breakingStartNode_head v rest cs : partition ((v :: rest) :: cs) →
  ∃ cs', breakingStartNode v ((v :: rest) :: cs) = Ret cs' ∧ partition cs' ∧
    concat cs' ≡ₚ concat ((v :: rest) :: cs) ∧ first_vertex cs' = Some v.
Proof.
  intros Hp. unfold breakingStartNode. change (((v :: rest) :: cs).[0]!) with (Ret (v :: rest)).
  cbn [mbind outcome_bind]. rewrite (find_vertex_NoDup v (v :: rest) 0); [| |done].
  2: { destruct Hp as [Hnd _]. cbn [concat] in Hnd. by apply NoDup_app in Hnd as [? _]. }
  destruct (Nat.ltb_spec 1 (length (v :: rest))) as [Hl|_]; [|by eauto].
  eexists. split; [done|]. split; [apply cut_partition; [done..|cbn in *; lia]|].
  split; [by apply cut_concat|]. rewrite cut_first by (done || cbn in *; lia). done.
Qed.

Lemma edges_inside_ext (out out' : nat → list nat) cs :
  (∀ v, out v = out' v) → edges_inside out cs → edges_inside out' cs.
Proof. intros Heq He u v Hu. rewrite <- Heq. by apply He. Qed.

Lemma edges_inside_all {vp} (g : G vp) cs : concat cs ≡ₚ vertices g → edges_inside (out_edges g) cs.
Proof.
  intros Hp u v _ Hv. rewrite Hp. apply elem_of_seq. pose proof (out_edges_target _ _ _ _ Hv). lia.
Qed.

(** Only the pass of the live-ins can fail, by reading past the end of a
    chain; the start node stays the first operation of chain 0. *)
Lemma decompose_ok (orig clean : G vertex_prop) rest cs :
  params_set → same_edges orig clean → partition ((0 :: rest) :: cs) →
  concat ((0 :: rest) :: cs) ≡ₚ vertices orig → (∀ u, 0 ∉ out_edges clean u) →
  let r := decompose param_set orig clean 0 ((0 :: rest) :: cs) in
  (flag param_set "BREAK_LIVE_IN" = Ret true ∧ r = Raise BadDeref) ∨
  ∃ cs', r = Ret cs' ∧ partition cs' ∧ concat cs' ≡ₚ vertices orig ∧ first_vertex cs' = Some 0.
Proof.
  intros Hpar He Hp Hc Hno. unfold decompose.
  unfold params_set in Hpar. rewrite !Forall_cons in Hpar. destruct Hpar as (H1 & H2 & H3 & _ & _).
  destruct (breakingStartNode_head 0 rest cs Hp) as (cs1 & Hb1 & Hp1 & Hc1 & Hf1).
  change (Z.to_nat 0) with 0. rewrite Hb1. cbn [mbind outcome_bind]. rewrite Hc in Hc1.
  destruct (flag_ret _ H1) as [b1 ->]. cbn [mbind outcome_bind].
  assert (∃ cs2, (if b1 then breakEveryLiveOut (out_edges orig) (S (total_len cs1)) cs1 else Ret cs1)
    = Ret cs2 ∧ partition cs2 ∧ concat cs2 ≡ₚ vertices orig ∧ first_vertex cs2 = Some 0)
    as (cs2 & -> & Hp2 & Hc2 & Hf2).
  { destruct b1; [|by eauto].
    destruct (breakEveryLiveOut_ok (out_edges orig) cs1 Hp1) as (cs2 & ? & ? & Hcc & _ & _ & Hf).
    - by apply edges_inside_all.
    - exists cs2. split_and!; [done..| |congruence]. by rewrite Hcc. }
  cbn [mbind outcome_bind]. destruct (flag_ret _ H2) as [b2 Hb2]. rewrite Hb2. cbn [mbind outcome_bind].
  assert ((b2 = true ∧ breakEveryLiveIn (out_edges orig) (S (total_len cs2)) cs2 = Raise BadDeref) ∨
    ∃ cs3, (if b2 then breakEveryLiveIn (out_edges orig) (S (total_len cs2)) cs2 else Ret cs2)
    = Ret cs3 ∧ partition cs3 ∧ concat cs3 ≡ₚ vertices orig ∧ first_vertex cs3 = Some 0)
    as [[-> ->]|(cs3 & -> & Hp3 & Hc3 & Hf3)].
  { destruct b2; [|right; by exists cs2].
    destruct (breakEveryLiveIn_ok (out_edges orig) cs2 Hp2) as [?|(cs3 & ? & ? & Hcc & _ & _ & Hf)];
      [by apply edges_inside_all|by left|right].
    exists cs3. split_and!; [done..| |congruence]. by rewrite Hcc. }
  { left. by split. }
  right. cbn [mbind outcome_bind]. destruct (flag_ret _ H3) as [b3 ->]. cbn [mbind outcome_bind].
  destruct b3; [|by eauto].
  destruct (mergeLoop_ok (out_edges clean) cs3 Hp3) as (cs4 & ? & ? & Hcc & _ & _ & _ & Hf).
  - apply edges_inside_all. rewrite Hc3. unfold vertices. by rewrite (proj1 He).
  - exists cs4. split_and!; [done..| |by apply Hf]. by rewrite Hcc.
Qed.

(** ** The final maps *)

(** The chain graph of a decomposition. *)
Notation fan_out_map g cs := (chain_graph_of (out_edges g) cs).

(** The levels of chains on a loop-free chain graph are small numbers, and
    zero for chain 0 only. *)
Lemma level_zero (m : ordmap nat (list nat)) n i l :
  (∀ x y, related m x y → y < n) → (Z.of_nat n < 2 ^ 32)%Z → 0 < n → ¬ has_loop (related m) 0 →
  ((l = (-1)%Z ∧ ¬ reach (related m) 0 i) ∨ longest (related m) 0 i l) →
  u32 l = 0%Z ↔ i = 0.
Proof.
  intros Hr Hn Hpos Hloop Hl.
  assert (Hself : reach (related m) 0 0) by (exists []; done).
  destruct Hl as [[-> Hno]|[(p & Hw & Hlast & ->) Hmax]].
  { split; [by intros [=]|]. intros ->. done. }
  assert (Hp : length p < n).
  { apply (acyclic_bound (chain_succ m) n 0); [|done| |].
    - intros x y _ Hy. apply (Hr x). by apply chain_succ_related.
    - by rewrite (has_loop_iff _ _ (chain_succ_related m)).
    - by apply (walk_iff _ _ (chain_succ_related m)). }
  rewrite u32_id by lia. split.
  - intros Hz. destruct p; [cbn in Hlast; congruence|cbn in Hz; lia].
  - intros ->. destruct (Nat.eq_dec (length p) 0) as [?|Hne]; [lia|].
    exfalso. apply Hloop. exists 0, p. split_and!; [done|done|by intros ->|].
    destruct p; [done|]. by rewrite last_cons_cons in Hlast.
Qed.

(** An entry of the final chain graph: described as [buildChainGraph] left it,
    up to the order of its nodes and its block number. *)
Definition final_entry (g : G vertex_prop) (deps : list chainDependency) (i : nat) (c : list nat)
    (ch : chainGraph) : Prop :=
  nodes ch ≡ₚ c ∧ described g deps i c ({ ({ ch with nodes := c }) with blockID := 0 }).

(** The operations of chain [j] in the order the ILP graph takes them, and its
    edges: a chain with parents is a path of its operations in increasing order,
    entered from the last operation of each parent. *)
Definition in_order (cs : chains) (j : nat) : list nat := merge_sort le (default [] (cs !! j)).

Definition chain_link (cs : chains) (un_reverse_mapping : ordmap nat (list nat)) (u v : nat) : Prop :=
  ∃ j ps, j < length cs ∧ mfind j un_reverse_mapping = Some ps ∧
    ((∃ i, in_order cs j !! i = Some u ∧ in_order cs j !! S i = Some v) ∨
     (head (in_order cs j) = Some v ∧ ∃ p, p ∈ ps ∧ last (in_order cs p) = Some u)).

Record finished (g : G vertex_prop) (cs : chains) (ng : newGraph) : Prop := {
  fi_chains : Chains (info ng) = cs;
  fi_deps : dependencies (info ng) = cross_edges (out_edges g) cs;
  fi_fan_out : un_dependencies (info ng) = fan_out_map g cs;
  fi_fan_in : un_reverse_mapping (info ng) = reverseMapping (fan_out_map g cs);
  fi_length : length (chain_graph (info ng)) = length cs;
  fi_entry : ∀ i c, cs !! i = Some c → ∃ ch, chain_graph (info ng) !! i = Some ch ∧
    final_entry g (cross_edges (out_edges g) cs) i c ch ∧
    ((level ch = (-1)%Z ∧ ¬ reach (related (fan_out_map g cs)) 0 i) ∨
     longest (related (fan_out_map g cs)) 0 i (level ch));
  fi_levels : ∀ k, default [] (mfind k (chain_level (info ng))) =
    chainId <$> filter (λ c, u32 (level c) = k) (chain_graph (info ng));
  fi_blocks : blocks_of (chain_graph (info ng)) (block_chain (info ng));
  fi_orig : same_edges (orig_graph ng) g;
  fi_nop : ∀ v, v < num_vertices g → ∃ p, vprop (orig_graph ng) v = Some p ∧ opcode p = "NOP"%string;
  fi_ilp : num_vertices (ilp_graph ng) = num_vertices g;
  fi_ilp_edges : ∀ u v,
    v ∈ out_edges (ilp_graph ng) u ↔ chain_link cs (reverseMapping (fan_out_map g cs)) u v
}.

Lemma finished_chain_graph (g : G vertex_prop) deps cs cg cg1 cg2 bl un :
  length cg = length cs →
  (∀ i c, cs !! i = Some c → ∃ ch, cg !! i = Some ch ∧ described g deps i c ch ∧
      ((level ch = (-1)%Z ∧ ¬ reach (related un) 0 i) ∨ longest (related un) 0 i (level ch))) →
  same_but_block cg cg1 → same_but_nodes cg1 cg2 → blocks_of cg1 bl →
  length cg2 = length cs ∧
  (∀ i c, cs !! i = Some c → ∃ ch, cg2 !! i = Some ch ∧ final_entry g deps i c ch ∧
      ((level ch = (-1)%Z ∧ ¬ reach (related un) 0 i) ∨ longest (related un) 0 i (level ch))) ∧
  (∀ k, chainId <$> filter (λ c, u32 (level c) = k) cg = chainId <$> filter (λ c, u32 (level c) = k) cg2) ∧
  blocks_of cg2 bl.
Proof.
  intros Hlen Hcg [Hl1 Hs1] [Hl2 Hs2] Hbl.
  assert (Hstep : ∀ i ch, cg !! i = Some ch → ∃ b ns, cg2 !! i = Some ({ ({ ch with blockID := b }) with nodes := ns })
      ∧ cg1 !! i = Some ({ ch with blockID := b }) ∧ ns ≡ₚ nodes ch).
  { intros i ch Hi. destruct (Hs1 i ch Hi) as [b Hb]. destruct (Hs2 i _ Hb) as (ns & Hns & Hp).
    by exists b, ns. }
  split_and!; [congruence| | |].
  - intros i c Hi. destruct (Hcg i c Hi) as (ch & Hch & Hd & Hlev).
    destruct (Hstep i ch Hch) as (b & ns & H2 & _ & Hp). eexists. split; [exact H2|]. split; [|exact Hlev].
    split; [change (ns ≡ₚ c); by rewrite Hp, (ds_nodes _ _ _ _ _ Hd)|]. destruct Hd. split; done.
  - intros k. assert (Heq : (λ c, (chainId c, level c)) <$> cg = (λ c, (chainId c, level c)) <$> cg2).
    { apply list_eq. intros i. rewrite !list_lookup_fmap. destruct (cg !! i) as [ch|] eqn:E.
      - destruct (Hstep i ch E) as (b & ns & -> & _). done.
      - apply lookup_ge_None in E. rewrite (proj2 (lookup_ge_None cg2 i)); [done|lia]. }
    clear -Heq. revert cg2 Heq. induction cg as [|c cg IH]; intros [|d cg2] Heq; try done.
    injection Heq as Hid Hlv Heq. rewrite !filter_cons, Hlv. pose proof (IH cg2 Heq) as Hr.
    case_decide; [|done]. cbn. by rewrite Hid, Hr.
  - apply (blocks_of_ext cg1); [|done]. apply list_eq. intros i. rewrite !list_lookup_fmap.
    destruct (cg1 !! i) as [ch|] eqn:E.
    + destruct (Hs2 i ch E) as (ns & -> & _). done.
    + apply lookup_ge_None in E. rewrite (proj2 (lookup_ge_None cg2 i)); [done|lia].
Qed.

Lemma ilp_edge_link cg cs un_rev u v : nodes <$> cg = cs →
  ilp_edge cg un_rev u v ↔ chain_link cs un_rev u v.
Proof.
  intros <-. unfold ilp_edge, chain_link, sorted_nodes, in_order. rewrite length_fmap.
  by setoid_rewrite list_lookup_fmap.
Qed.

Lemma elem_of_in_order cs j v : v ∈ in_order cs j ↔ ∃ c, cs !! j = Some c ∧ v ∈ c.
Proof.
  unfold in_order. rewrite (merge_sort_Permutation le).
  destruct (cs !! j) as [c|]; cbn; [naive_solver|].
  split; [by intros ?%not_elem_of_nil|]. by intros (? & ? & _).
Qed.

Lemma sorted_next (l : list nat) i u v :
  StronglySorted le l → l !! i = Some u → l !! S i = Some v → u ≤ v.
Proof.
  intros Hs. revert i. induction Hs as [|x l Hs IH Hall]; intros [|i] Hi HS; try done.
  - injection Hi as <-. rewrite Forall_forall in Hall. apply Hall. by eapply list_elem_of_lookup_2.
  - by eapply IH.
Qed.

(** An ILP edge follows a dependency of the chains or climbs inside a chain. *)
Lemma chain_link_step cs un u v : partition cs → key_sorted un →
  chain_link cs (reverseMapping un) u v →
  let f v := default 0 (chain_of cs v) in
  related un (f u) (f v) ∨ (f u = f v ∧ u < v).
Proof.
  intros [Hnd _] Hsorted (j & ps & Hj & Hps & Hcase) f.
  assert (Hf : ∀ i w, w ∈ in_order cs i → f w = i).
  { intros i w (c & Hc & Hw)%elem_of_in_order. unfold f. by rewrite (chain_of_lookup cs w i c). }
  destruct Hcase as [(i & Hi & HS)|(Hh & p & Hp & Hl)].
  - right. rewrite (Hf j u), (Hf j v) by by eapply list_elem_of_lookup_2. split; [done|].
    assert (Hlt : u ≤ v).
    { eapply sorted_next; [|exact Hi|exact HS]. apply (StronglySorted_merge_sort le). }
    assert (Hno : NoDup (in_order cs j)).
    { unfold in_order. rewrite (merge_sort_Permutation le).
      destruct (cs !! j) as [c|] eqn:Hc; [|constructor]. by eapply NoDup_concat_lookup. }
    assert (u ≠ v); [|lia]. intros ->. pose proof (NoDup_lookup _ _ _ _ Hno Hi HS). lia.
  - left. rewrite (Hf j v) by by apply head_Some_elem_of. rewrite (Hf p u) by by apply last_Some_elem_of.
    apply (related_reverse un j p Hsorted). by exists ps.
Qed.

Lemma finish_graph_ok blank (g : G vertex_prop) comp om st (cs : chains) :
  params_set → partition cs → concat cs ≡ₚ vertices g → cs ≠ [] →
  (Z.of_nat (num_vertices g) < 2 ^ 32)%Z →
  let r := finish_graph param_set blank g comp om st cs in
  (has_loop (related (fan_out_map g cs)) 0 ∧ r = Raise AssertFailed) ∨
  (¬ has_loop (related (fan_out_map g cs)) 0 ∧ mfind 0 (fan_out_map g cs) = None ∧ r = Raise BadDeref) ∨
  (¬ has_loop (related (fan_out_map g cs)) 0 ∧ ∃ ng, r = Ret ng ∧ finished g cs ng ∧
     comp_graph ng = comp ∧ stats ng = st ∧ orig_map (info ng) = om).
Proof.
  intros Hpar Hpart Hperm Hne Hlt. set (un := fan_out_map g cs).
  assert (Hn : length cs ≤ num_vertices g).
  { rewrite (partition_length cs Hpart), Hperm. unfold vertices. by rewrite length_seq. }
  unfold finish_graph. rewrite dependenciesGenerate_edges by (apply Hpart || by apply edges_inside_all).
  cbn [mbind outcome_bind].
  change (uniqueDependency (histoDependency (cross_edges (out_edges g) cs))) with un.
  destruct (checkLoop_ok un) as (b & Hb & Hbl & _). rewrite Hb.
  cbn [mbind outcome_bind].
  destruct b; [left; split; [by apply Hbl|done]|right]. cbn [negb assertb mbind outcome_bind].
  assert (Hloop : ¬ has_loop (related un) 0) by (intros Hl%Hbl; done).
  destruct (buildChainGraph_ok g (cross_edges (out_edges g) cs) cs) as (cg & Hcg & Hlen & Hall).
  - done.
  - intros v Hv. rewrite Hperm in Hv. apply elem_of_seq in Hv. lia.
  - intros s t Hin. by apply (cross_edges_in_bounds (out_edges g) cs) in Hin as [_ ?].
  - exact Hloop.
  - change (uniqueDependency (histoDependency (cross_edges (out_edges g) cs))) with un in Hcg, Hall.
    rewrite Hcg. cbn [mbind outcome_bind].
    assert (Hdesc : ∀ i ch, cg !! i = Some ch → ∃ c, cs !! i = Some c ∧
      described g (cross_edges (out_edges g) cs) i c ch ∧ (u32 (level ch) = 0%Z ↔ i = 0)).
    { intros i ch Hi. destruct (lookup_lt_is_Some_2 cs i) as [c Hc].
      { rewrite <- Hlen. by eapply lookup_lt_Some. }
      destruct (Hall i c Hc) as (ch' & Hi' & Hd & Hlev). assert (ch' = ch) as -> by congruence.
      exists c. split_and!; [done|done|]. eapply (level_zero un (length cs)); try done; [|lia|by destruct cs; [|cbn; lia]].
      intros x y Hxy. unfold un in Hxy. rewrite chain_graph_related in Hxy.
      by apply (cross_edges_in_bounds (out_edges g) cs) in Hxy as [_ ?]. }
    assert (Hnum : numbered cg).
    { intros i ch Hi. destruct (Hdesc i ch Hi) as (c & _ & Hd & _). apply Hd. }
    assert (Hlev : ∀ c, c ∈ cg → u32 (level c) = 0%Z ↔ chainId c = 0).
    { intros ch (i & Hi)%list_elem_of_lookup. destruct (Hdesc i ch Hi) as (c & _ & _ & Hz).
      by rewrite (Hnum i ch Hi). }
    assert (H0 : 0 < length cg) by (rewrite Hlen; destruct cs; [done|cbn; lia]).
    assert (Hin : ∀ x y, related un x y → x < length cg ∧ y < length cg).
    { intros x y Hxy. unfold un in Hxy. rewrite chain_graph_related in Hxy. rewrite Hlen.
      by apply (cross_edges_in_bounds (out_edges g) cs) in Hxy as [? ?]. }
    assert (Hsorted : key_sorted un) by apply uniqueDependency_wf.
    assert (Hin' : ∀ x y, related un x y → y < length cg) by (intros x y Hxy; by apply (Hin x y)).
    assert (Hrev : ∀ x y, related un x y → is_Some (mfind y (reverseMapping un))).
    { intros x y Hxy. destruct (proj2 (related_reverse un y x Hsorted) Hxy) as (xs & ? & _). by exists xs. }
    assert (Hns : nodes <$> cg = cs).
    { apply list_eq. intros i. rewrite list_lookup_fmap. destruct (cg !! i) as [ch|] eqn:E.
      - destruct (Hdesc i ch E) as (c & -> & Hd & _). cbn. f_equal. apply Hd.
      - apply lookup_ge_None in E. symmetry. apply lookup_ge_None. lia. }
    unfold params_set in Hpar. rewrite !Forall_cons in Hpar. destruct Hpar as (_ & _ & _ & [limit Hlimit] & _).
    destruct (mfind 0 un) as [children|] eqn:Hroot; [right|left].
    + split; [done|].
      destruct (assign_blocks_ok cg param_set limit Hlimit un (reverseMapping un)) as (s & Hs & Hok & _); try done.
      * intros ch (i & Hi)%list_elem_of_lookup. destruct (Hdesc i ch Hi) as (c & _ & Hd & _). apply Hd.
      * unfold createChainBlocks. rewrite Hs. cbn [mbind outcome_bind].
        destruct (buildILPGraph_ok (reverseMapping un) blank g (bs_chains s))
          as (cg2 & orig' & ilp & Hilp & Hs2 & He & Hnop & Hni & _ & Hie).
        { by eapply same_but_block_numbered. }
        { intros c Hc Hnil. apply (proj2 Hpart). rewrite <- Hns, <- (same_but_block_nodes _ _ Hok), <- Hnil.
          by apply list_elem_of_fmap_2. }
        { intros x y Hxy. rewrite (proj1 Hok). apply (related_reverse un) in Hxy; [|done].
          by apply (Hin y x). }
        { by rewrite (same_but_block_nodes _ _ Hok), Hns. }
        rewrite Hilp. cbn [mbind outcome_bind].
        assert (Hlevels := buildChainLevel_ok cg).
        destruct (finished_chain_graph g (cross_edges (out_edges g) cs) cs cg (bs_chains s) cg2
          (foldl add_to_block [] (bs_chains s)) un Hlen Hall Hok Hs2 (blocks_of_all _))
          as (Hlen2 & Hent & Hlv & Hbo).
        eexists. split; [done|]. split; [|done]. split; cbn; try done.
        -- intros k. rewrite (proj2 (proj2 (proj2 Hlevels))). apply Hlv.
        -- intros u v. rewrite Hie. apply ilp_edge_link.
           by rewrite (same_but_block_nodes _ _ Hok), Hns.
    + split_and!; [done|done|]. unfold createChainBlocks.
      by rewrite (assign_blocks_no_root cg param_set limit).
Qed.

(** ** The whole construction *)

Lemma level_edge_out {vp} (g : G vp) x y : level_edge g x y → y ∈ out_edges g x.
Proof.
  unfold succ_edge, level_succ. destruct (x =? 0); [by intros [_ ?]%list_elem_of_filter|done].
Qed.

(** The statistics of a finished graph: the levels of the ILP graph are found,
    because a loop of it would be a loop of the chain graph, and
    [printChainStats] fails exactly on a memory chain. *)
Lemma stats_ok (g : G vertex_prop) (cs : chains) ng :
  partition cs → concat cs ≡ₚ vertices g → first_vertex cs = Some 0 →
  0 < num_vertices g → (Z.of_nat (num_vertices g) < 2 ^ 32)%Z →
  ¬ has_loop (related (fan_out_map g cs)) 0 → finished g cs ng →
  (_ ← ilpStat (orig_graph ng) (ilp_graph ng);
   _ ← printChainStats (orig_graph ng) (chain_graph (info ng));
   Ret ng) = if existsb is_mem (chain_graph (info ng)) then Raise BadDeref else Ret ng.
Proof.
  intros Hpart Hperm Hfirst Hn Hlt Hloop Hfin.
  destruct (fi_orig _ _ _ Hfin) as [Hnum _].
  destruct (ilpStat_ok (orig_graph ng) (ilp_graph ng)) as (L & _ & _ & ->).
  - by rewrite (fi_ilp _ _ _ Hfin).
  - by rewrite (fi_ilp _ _ _ Hfin).
  - by rewrite Hnum.
  - intros Hl. apply Hloop.
    assert (H0 : chain_of cs 0 = Some 0).
    { unfold first_vertex in Hfirst. destruct (cs !! 0) as [c|] eqn:Hc; [|done].
      eapply chain_of_lookup; [apply Hpart|exact Hc|]. by apply head_Some_elem_of. }
    replace 0 with (default 0 (chain_of cs 0)) by by rewrite H0.
    refine (project_loop _ _ (λ v, default 0 (chain_of cs v)) _ 0 Hl).
    intros u v Huv%level_edge_out%(fi_ilp_edges _ _ _ Hfin).
    apply (chain_link_step cs (fan_out_map g cs)); [done| |done]. apply uniqueDependency_wf.
  - cbn [mbind outcome_bind]. destruct (existsb is_mem (chain_graph (info ng))) eqn:Hmem.
    { unfold printChainStats. by rewrite chain_mlp_cases, Hmem. }
    destruct (printChainStats_returns (orig_graph ng) (chain_graph (info ng)) Hmem) as [st ->]; [|done].
    intros v Hv. rewrite Hnum. apply elem_of_concat_lookup in Hv as (i & ns & Hi & Hv).
    rewrite list_lookup_fmap in Hi. apply fmap_Some in Hi as (ch & Hch & ->).
    destruct (lookup_lt_is_Some_2 cs i) as [c Hc].
    { rewrite <- (fi_length _ _ _ Hfin). by eapply lookup_lt_Some. }
    destruct (fi_entry _ _ _ Hfin i c Hc) as (ch' & Hch' & [Hp _] & _).
    assert (ch' = ch) as -> by congruence. rewrite Hp in Hv.
    assert (Hin : v ∈ vertices g) by (rewrite <- Hperm; apply elem_of_concat_lookup; eauto).
    apply elem_of_seq in Hin. lia.
Qed.

(** What the dot file must look like: vertex 0 is the start node and is named
    0, the labels can be read, and the search for the levels of the operations
    meets no cycle; no edge leads back to the start node. *)
Record program_graph (g : G vertex_prop) : Prop := {
  pg_names : distinct_names g;
  pg_size : 0 < num_vertices g ∧ (Z.of_nat (num_vertices g) < 2 ^ 32)%Z;
  pg_start : ∀ v p, vprop g v = Some p → opcode p = "BB"%string ↔ v = 0;
  pg_name0 : ∀ p, vprop g 0 = Some p → name p = 0%Z;
  pg_read : ∀ v p, vprop g v = Some p → readable instruction_llvm p;
  pg_loop : ¬ has_loop (level_edge g) 0;
  pg_root : ∀ u, 0 ∉ out_edges g u
}.

Lemma level_edge_same (g h : G vertex_prop) x y :
  same_edges g h → level_edge g x y ↔ level_edge h x y.
Proof.
  intros Hs. unfold succ_edge, level_succ. rewrite (proj2 Hs).
  destruct (x =? 0); [|done]. rewrite !list_elem_of_filter.
  by rewrite (Permutation_length (same_edges_in g h y Hs)).
Qed.

Lemma key_group_head (g : G vertex_prop) n k : 0 ∈ key_group g n k → ∃ rest, key_group g n k = 0 :: rest.
Proof.
  unfold key_group. intros [Hk Hin]%list_elem_of_filter. destruct n as [|n].
  { by apply not_elem_of_nil in Hin. }
  cbn [seq]. rewrite filter_cons_True by done. by eexists.
Qed.

Lemma initial_chains (orig : G vertex_prop) :
  (∀ v p, vprop orig v = Some p → opcode p = "BB"%string ↔ v = 0) → 0 < num_vertices orig →
  (∀ p, vprop orig 0 = Some p → name p = 0%Z) →
  (∀ v p, vprop orig v = Some p → readable instruction_llvm p) →
  ∃ first_ch rest cs, createChains orig = Ret (first_ch, 0%Z, (0 :: rest) :: cs) ∧
    partition ((0 :: rest) :: cs) ∧ concat ((0 :: rest) :: cs) ≡ₚ vertices orig.
Proof.
  intros Hbb Hn Hname Hread.
  destruct (createChains_ok orig) as (fc & fn & cs & Hc & Hperm & H0 & Hrest & Hstart).
  { intros v Hv. destruct (vprop_ret orig v Hv) as [p Hp]. destruct (Hread v p Hp) as (c & _ & _ & Hst & _).
    unfold chain_key. rewrite Hp. cbn. rewrite Hst. by eexists. }
  destruct (vprop_ret orig 0 Hn) as [p0 Hp0].
  destruct Hstart as (v & p & Hp & Hop & Hfn & Hin).
  { exists 0. split; [done|]. exists p0. split; [done|]. by apply (Hbb 0 p0). }
  apply (Hbb v p Hp) in Hop as ->. rewrite (Hname p Hp) in Hfn. subst fn.
  destruct (key_group_head _ _ _ Hin) as [rest Hr]. rewrite Hr in H0.
  destruct cs as [|c cs]; [done|]. injection H0 as ->.
  exists fc, rest, cs. split_and!; [done| |done].
  split; [rewrite Hperm; apply NoDup_seq|]. intros [Habs|Hin']%elem_of_cons; [done|].
  apply list_elem_of_lookup in Hin' as (i & Hi). by destruct (Hrest i [] Hi).
Qed.

Lemma graph_initialize_ok junk_max blank (dirty : G vertex_prop) :
  program_graph dirty → params_set → (0 ≤ junk_max)%Z →
  ∃ clean orig comp om st first_ch cs0,
    cleanReadGraphHelper dirty = Ret clean ∧ cleanRemoveReadGraphHelper clean = Ret orig ∧
    same_edges orig dirty ∧
    completeReadGraphHelper instruction_llvm junk_max orig = Ret (comp, om, st) ∧
    createChains orig = Ret (first_ch, 0%Z, cs0) ∧
    let r := initialize param_set instruction_llvm junk_max blank dirty in
    (flag param_set "BREAK_LIVE_IN" = Ret true ∧
     decompose param_set orig clean 0 cs0 = Raise BadDeref ∧ r = Raise BadDeref) ∨
    ∃ cs, decompose param_set orig clean 0 cs0 = Ret cs ∧
      partition cs ∧ concat cs ≡ₚ vertices dirty ∧
      ((has_loop (related (fan_out_map orig cs)) 0 ∧ r = Raise AssertFailed) ∨
       (¬ has_loop (related (fan_out_map orig cs)) 0 ∧ mfind 0 (fan_out_map orig cs) = None ∧
        r = Raise BadDeref) ∨
       (¬ has_loop (related (fan_out_map orig cs)) 0 ∧ ∃ ng,
          finished orig cs ng ∧ comp_graph ng = comp ∧ stats ng = st ∧ orig_map (info ng) = om ∧
          r = if existsb is_mem (chain_graph (info ng)) then Raise BadDeref else Ret ng)).
Proof.
  intros [Hnames [Hn Hlt] Hstart Hname0 Hread Hloop Hroot] Hpar Hj.
  destruct (cleanReadGraphHelper_copy dirty Hnames) as (clean & Hclean & He & Hv).
  destruct (cleanRemoveReadGraphHelper_copy clean) as (orig & Horig & He' & Hv').
  assert (Hsame : same_edges orig dirty) by by eapply same_edges_trans.
  assert (Hprop : ∀ v p, vprop orig v = Some p → ∃ q, vprop dirty v = Some q ∧
    name p = name q ∧ opcode p = opcode q ∧ label p = label q ∧ ch p = ch q).
  { intros v p Hp. rewrite Hv', Hv in Hp. destruct (vprop dirty v) as [q|]; [|done].
    injection Hp as <-. by exists q. }
  destruct Hsame as [Hnum Hout] eqn:Es. clear Es.
  assert (Hread' : ∀ v p, vprop orig v = Some p → readable instruction_llvm p).
  { intros v p Hp. destruct (Hprop v p Hp) as (q & Hq & _ & _ & Hl & Hc).
    unfold readable. rewrite Hl, Hc. by apply (Hread v). }
  destruct (completeReadGraphHelper_ok instruction_llvm junk_max orig)
    as (comp & om & st & L & qs & Hcomp & _); [lia|by rewrite Hnum|done| |done|].
  { rewrite (has_loop_iff _ (level_edge dirty)); [done|]. intros x y. by apply level_edge_same. }
  destruct (initial_chains orig) as (fc & rest & cs0 & Hcreate & Hp0 & Hperm0); [|lia| |done|].
  { intros v p Hp. destruct (Hprop v p Hp) as (q & Hq & _ & -> & _). by apply Hstart. }
  { intros p Hp. destruct (Hprop 0 p Hp) as (q & Hq & -> & _). by apply Hname0. }
  exists clean, orig, comp, om, st, fc, ((0 :: rest) :: cs0).
  split_and!; [done..|]. unfold initialize, build_graph.
  rewrite Hclean. cbn [mbind outcome_bind]. rewrite Horig. cbn [mbind outcome_bind].
  rewrite Hcomp. cbn [mbind outcome_bind]. rewrite Hcreate. cbn [mbind outcome_bind].
  destruct (decompose_ok orig clean rest cs0) as [[Hb Hdec]|(cs & Hdec & Hpart & Hperm & Hfirst)];
    [done|exact He'|done|done| | |].
  { intros u Hu. apply (Hroot u). by rewrite <- (proj2 He). }
  { left. by rewrite Hdec. }
  right. exists cs. rewrite Hdec. cbn [mbind outcome_bind].
  split_and!; [done..|by unfold vertices in *; rewrite <- Hnum|].
  destruct (finish_graph_ok blank orig comp om st cs) as [[? Hr]|[(? & ? & Hr)|(? & ng & Hr & Hfin & Hrest)]];
    [done..| |by rewrite Hnum|by left; rewrite Hr|by right; left; rewrite Hr|].
  { by intros ->. }
  right; right. split; [done|]. exists ng. rewrite Hr. cbn [mbind outcome_bind].
  destruct Hrest as (? & ? & ?). split_and!; [done..|].
  apply (stats_ok orig cs); try done; by rewrite Hnum.
Qed.

(** ** Property *)

End proofs.

(** ** An example *)

Definition ex_params : ordmap string Z :=
  [("BLOCK_LIMIT", 3%Z); ("BREAK_LIVE_IN", 0%Z); ("BREAK_LIVE_OUT", 1%Z); ("MERGE", 1%Z)]%string.

Definition ex_blank : vertex_prop := mkVertex 0 "" "" "" "" "".

(** The load and the add that depends on it stay in one chain; a chain with a
    load is a memory chain, which [printChainStats] does not survive. *)
Example ex_build_graph :
  match build_graph ex_params ex_llvm 0 ex_blank ex_dirty with
  | Ret g => Chains (info g) = [[0]; [1; 2]] ∧ un_dependencies (info g) = [(0, [1])] ∧
             level <$> chain_graph (info g) = [0; 1]%Z ∧ max_ilp (stats g) = 1%Z ∧
             is_mem <$> chain_graph (info g) = [false; true]
  | Raise _ => False
  end ∧ initialize ex_params ex_llvm 0 ex_blank ex_dirty = Raise BadDeref.
Proof. vm_compute. by split_and!. Qed.

(** With the pass of the live-ins, an operation of two dependants in two chains
    is enough for a read past the end. *)
Example ex_live_in :
  initialize (mset "BREAK_LIVE_IN"%string 1%Z ex_params) ex_llvm 0 ex_blank ex_dirty = Raise BadDeref.
Proof. vm_compute. done. Qed.

(** Without a memory operation the construction returns. *)
Definition ex_adds : adjacency vertex_prop :=
  add_edges [(0, 1); (1, 2); (0, 2)]
    (add_vertices [ex_vertex 0 "BB(10)" "7"; ex_vertex 1 "Add(11)" "3"; ex_vertex 2 "Add(12)" "3"]
       empty_graph).

Example ex_initialize :
  match initialize ex_params ex_llvm 0 ex_blank ex_adds with
  | Ret g => Chains (info g) = [[0]; [1; 2]] ∧ out_edges (ilp_graph g) <$> [0; 1; 2] = [[1]; [2]; []]
  | Raise _ => False
  end.
Proof. vm_compute. done. Qed.

Lemma ex_program_graph : program_graph ex_llvm ex_dirty.
Proof.
  split.
  - intros u v p q Hp%ex_dirty_props Hq%ex_dirty_props.
    destruct Hp as [[-> ->]|[[-> ->]|[-> ->]]], Hq as [[-> ->]|[[-> ->]|[-> ->]]]; done.
  - split; [vm_compute; lia|done].
  - intros v p Hp%ex_dirty_props. destruct Hp as [[-> ->]|[[-> ->]|[-> ->]]]; split; done.
  - intros p Hp%ex_dirty_props. destruct Hp as [[_ ->]|[[[=] _]|[[=] _]]]. done.
  - intros v p Hp%ex_dirty_props.
    destruct Hp as [[-> ->]|[[-> ->]|[-> ->]]]; do 3 eexists; split_and!; reflexivity.
  - apply rising_no_loop. intros [|[|[|x]]] y Hy; vm_compute in Hy; elem_cases Hy; lia.
  - intros [|[|[|u]]] Hu; vm_compute in Hu; elem_cases Hu; lia.
Qed.


(** The files that come with the program define what the passes look up. *)
Example shipped_params : ∃ m, readParam (to_text Graph_def) [] = Ret m ∧ params_set m.
Proof. eexists. split; [rewrite Graph_def_params; reflexivity|]. repeat constructor; by eexists. Qed.

Example ex_initialize_from :
  match initialize_from (to_text Graph_def) (to_text Instruction_def) 0 ex_blank ex_adds with
  | Ret g => Chains (info g) = [[0]; [1; 2]]
  | Raise _ => False
  end.
Proof. vm_compute. done. Qed.
