(* ===== verification/Memory.v ===== *)
(** * The memory front end

    [Memory.hpp], [Memory.cpp]: the queue of load/store requests between the
    lanes and the Ruby memory system.  Ruby is seen through the six calls of
    [O3sim_ruby.h] that the program makes: the interface [RubyPort], with the
    laws [RubyLaws] that a request sent is answered at most once, later or at
    once, with the address it was sent with.  The processor and thread numbers
    of the calls are always 0 and are left out. *)

From S2P Require Import Prelude.
From stdpp Require Import gmap.
Open Scope Z_scope.

(** ** The interface to Ruby *)

Class RubyPort (R : Type) := {
  advance_time : R → R;
  isReady : R → Z → Z → bool → bool;
  send_request : R → Z → Z → bool → R;
  RubyQueueEmpty : R → bool;
  RubyQueueTop : R → Z;
  RubyQueuePop : R → R
}.

(** What the front end relies on, for the states in [ruby_ok].  [answers] is
    the content of the return queue, [inflight] the requests sent and not yet in
    it; a request is sent only when [isReady] has answered yes. *)
Class RubyLaws (R : Type) `{RubyPort R} := {
  ruby_ok : R → Prop;
  answers : R → list Z;
  inflight : R → list Z;
  ruby_empty r : RubyQueueEmpty r = bool_decide (answers r = []);
  ruby_top r a l : answers r = a :: l → RubyQueueTop r = a;
  ruby_pop r a l : ruby_ok r → answers r = a :: l →
    ruby_ok (RubyQueuePop r) ∧
    answers (RubyQueuePop r) = l ∧ inflight (RubyQueuePop r) = inflight r;
  ruby_advance r : ruby_ok r →
    ruby_ok (advance_time r) ∧
    ∃ ds, answers (advance_time r) = answers r ++ ds ∧
    ds ++ inflight (advance_time r) ≡ₚ inflight r;
  ruby_send r a n w w' : ruby_ok r → (0 ≤ n < 2 ^ 31)%Z → isReady r a n w' = true →
    ruby_ok (send_request r a n w) ∧
    ∃ ds, answers (send_request r a n w) = answers r ++ ds ∧
    ds ++ inflight (send_request r a n w) ≡ₚ a :: inflight r
}.

(** Everything sent and not yet popped from the return queue. *)
Definition outstanding {R} `{RubyLaws R} (r : R) : list Z := answers r ++ inflight r.

(** A memory system that answers: [due] bounds the cycles after which
    everything sent so far has been answered. *)
Class RubyLive (R : Type) `{RubyLaws R} := {
  live_bound : nat;
  due : R → nat;
  due_bound r : ruby_ok r → (due r ≤ live_bound * length (inflight r))%nat;
  due_advance r : ruby_ok r → (due (advance_time r) ≤ pred (due r))%nat;
  due_pop r a l : ruby_ok r → answers r = a :: l → (due (RubyQueuePop r) ≤ due r)%nat;
  due_idle r : ruby_ok r → due r = 0%nat → inflight r = [];
  idle_ready r a n w : ruby_ok r → inflight r = [] → a ∉ answers r → isReady r a n w = true
}.

Section outstanding.
Context `{RubyLaws R}.
Implicit Type r : R.

Lemma outstanding_advance r : ruby_ok r → outstanding (advance_time r) ≡ₚ outstanding r.
Proof.
  intros Hr. unfold outstanding. destruct (ruby_advance r Hr) as (_ & ds & -> & Hp).
  by rewrite <- app_assoc, Hp.
Qed.

Lemma outstanding_send r a n w w' :
  ruby_ok r → (0 ≤ n < 2 ^ 31)%Z → isReady r a n w' = true → outstanding (send_request r a n w) ≡ₚ a :: outstanding r.
Proof.
  intros Hr Hn Hrdy. unfold outstanding. destruct (ruby_send r a n w w' Hr Hn Hrdy) as (_ & ds & -> & Hp).
  rewrite <- app_assoc, Hp. by rewrite Permutation_middle.
Qed.

Lemma outstanding_pop r a l :
  ruby_ok r → answers r = a :: l → outstanding r = a :: outstanding (RubyQueuePop r).
Proof.
  intros Hr Ha. unfold outstanding. destruct (ruby_pop r a l Hr Ha) as (_ & -> & ->). by rewrite Ha.
Qed.
End outstanding.

(** ** Data *)

Record MemValue := mkMemValue { isWrite : bool; addr : Z }.

Record MemValue_t := mkMemValue_t {
  t_isWrite : bool;
  nodeid : Z;
  vaddr : Z;
  is_issue : bool
}.

(** [operator==]: the issue flag is not compared. *)
Definition memvalue_eq (a b : MemValue_t) : bool :=
  Bool.eqb (t_isWrite a) (t_isWrite b) && (nodeid a =? nodeid b) && (vaddr a =? vaddr b).

Definition MEM_MSHR_SIZE : Z := 10.

Record Memory := mkMemory {
  memaddr_map : gmap (Z * Z) MemValue;
  ldst_addr_buffer : list MemValue_t;
  mem_req_stack : Z;
  m_mem_mshr_stack : Z
}.

(** The buffer and the counters are reset; the address map is kept. *)
Definition initialize (m : Memory) : Memory :=
  mkMemory (memaddr_map m) [] MEM_MSHR_SIZE MEM_MSHR_SIZE.

Definition new_Memory : Memory := initialize (mkMemory ∅ [] 0 MEM_MSHR_SIZE).

(** [addr & ~63]: the mask is an [int], converted to 64 bits. *)
Definition base_addr (a : Z) : Z := Z.land a (u64 (Z.lnot 63)).

Definition line_size : Z := 64.

(** ** Operations *)

Definition fill_global_memaddr_map (iter node : Z) (v : MemValue) (m : Memory) : Memory :=
  mkMemory (<[(iter, node) := v]> (memaddr_map m)) (ldst_addr_buffer m)
    (mem_req_stack m) (m_mem_mshr_stack m).

Definition send_req (iter node : Z) (m : Memory) : outcome Memory :=
  match memaddr_map m !! (iter, node) with
  | Some v =>
      Ret (mkMemory (memaddr_map m)
             (ldst_addr_buffer m ++ [mkMemValue_t (isWrite v) node (addr v) false])
             (mem_req_stack m) (m_mem_mshr_stack m))
  | None => Raise AssertFailed
  end.

(** First entry of the buffer that lies in the line; the end of the line is a
    64-bit sum. *)
Fixpoint search_req (a size : Z) (l : list MemValue_t) : option MemValue_t :=
  match l with
  | [] => None
  | v :: l' =>
      if (a <=? vaddr v) && (vaddr v <? u64 (a + size)) then Some v else search_req a size l'
  end.

(** [list::remove]: all entries equal to the value. *)
Definition remove_req (q : MemValue_t) (l : list MemValue_t) : list MemValue_t :=
  filter (λ v, memvalue_eq q v = false) l.

Section ops.
Context `{RubyPort R}.

(** The loop of [access]: the first entry that is ready and not issued is
    marked. *)
Fixpoint access_loop (r : R) (l : list MemValue_t) : option (list MemValue_t * MemValue_t) :=
  match l with
  | [] => None
  | v :: l' =>
      if isReady r (base_addr (vaddr v)) line_size false && negb (is_issue v)
      then Some (mkMemValue_t (t_isWrite v) (nodeid v) (vaddr v) true :: l', v)
      else match access_loop r l' with
           | Some (l'', w) => Some (v :: l'', w)
           | None => None
           end
  end.

(** At most one request is sent per call. *)
Definition access (m : Memory) (r : R) : bool * Memory * R :=
  if negb (bool_decide (ldst_addr_buffer m = [])) && negb (mem_req_stack m =? 0) then
    match access_loop r (ldst_addr_buffer m) with
    | Some (l, v) =>
        (true, mkMemory (memaddr_map m) l (mem_req_stack m - 1) (m_mem_mshr_stack m),
         send_request r (base_addr (vaddr v)) line_size (t_isWrite v))
    | None => (false, m, r)
    end
  else (false, m, r).

Fixpoint process_loop (fuel : nat) (resp : list Z) (m : Memory) (r : R)
    : outcome (list Z * Memory * R) :=
  match fuel with
  | O => Raise NoFuel
  | S fuel =>
      if RubyQueueEmpty r then Ret (resp, m, r)
      else
        let a := RubyQueueTop r in
        match search_req a line_size (ldst_addr_buffer m) with
        | None => Raise AssertFailed
        | Some q =>
            process_loop fuel (resp ++ [nodeid q])
              (mkMemory (memaddr_map m) (remove_req q (ldst_addr_buffer m))
                 (mem_req_stack m + 1) (m_mem_mshr_stack m))
              (RubyQueuePop r)
        end
  end.

Definition process_mshr (fuel : nat) (m : Memory) (r : R) : outcome (list Z * Memory * R) :=
  process_loop fuel [] m r.

(** Fuel for the loop: at most ten requests are outstanding. *)
Definition mshr_fuel : nat := 11.

Definition recv_resp (fuel : nat) (m : Memory) (r : R) : outcome (list Z * Memory * R) :=
  let '(_, m, r) := access m r in process_mshr fuel m r.
End ops.

(** ** Lines *)

Lemma base_addr_div a : 0 ≤ a < 2 ^ 64 → base_addr a = 64 * (a / 64).
Proof.
  intros Ha. unfold base_addr, u64. rewrite <- Z.land_ones by lia.
  rewrite Z.land_assoc, (Z.land_comm a), <- Z.land_assoc.
  rewrite (Z.land_ones a) by lia. rewrite (Z.mod_small a) by lia.
  rewrite Z.land_comm, <- Z.ldiff_land. change 63 with (Z.ones 6).
  rewrite Z.ldiff_ones_r by lia. rewrite Z.shiftl_mul_pow2, Z.shiftr_div_pow2 by lia.
  change (2 ^ 6) with 64. lia.
Qed.

(** The line address of a 64-bit address: a multiple of the line size,
    the greatest one not above the address, and itself its line address. *)
Theorem base_addr_line a :
  0 ≤ a < 2 ^ 64 →
  base_addr a `mod` line_size = 0 ∧ base_addr a ≤ a < base_addr a + line_size ∧
  0 ≤ base_addr a < 2 ^ 64 ∧ base_addr (base_addr a) = base_addr a ∧
  ∀ b, b `mod` line_size = 0 → b ≤ a < b + line_size → b = base_addr a.
Proof.
  intros Ha. unfold line_size. pose proof (base_addr_div a Ha) as Hb.
  pose proof (Z.div_mod a 64 ltac:(lia)) as Hd.
  pose proof (Z.mod_pos_bound a 64 ltac:(lia)) as Hm.
  assert (0 ≤ base_addr a < 2 ^ 64) by lia.
  rewrite (base_addr_div (base_addr a)) by done. rewrite Hb.
  split_and!; try lia.
  - rewrite Z.mul_comm. by apply Z.mod_mul.
  - rewrite (Z.mul_comm 64 (a / 64)), Z.div_mul by lia. lia.
  - intros b Hbm Hb'. apply Z.mod_divide in Hbm as [k ->]; [|lia].
    assert (a / 64 = k); [|lia]. symmetry. apply (Z.div_unique a 64 k (a - k * 64)); lia.
Qed.

Lemma base_addr_line_witness :
  0 ≤ 4711 < 2 ^ 64 ∧
  (base_addr 4711 `mod` line_size = 0 ∧ base_addr 4711 ≤ 4711 < base_addr 4711 + line_size ∧
   0 ≤ base_addr 4711 < 2 ^ 64 ∧ base_addr (base_addr 4711) = base_addr 4711 ∧
   ∀ b, b `mod` line_size = 0 → b ≤ 4711 < b + line_size → b = base_addr 4711).
Proof. split; [lia|]. apply (base_addr_line 4711). lia. Defined.

(** Addresses of all lines but the topmost one, whose end wraps to 0. *)
Definition addr_ok (a : Z) : Prop := 0 ≤ a < 2 ^ 64 - line_size.

(** The test of [search_req] is equality of lines. *)
Lemma in_line v w :
  addr_ok v → addr_ok w →
  (base_addr w <=? v) && (v <? u64 (base_addr w + line_size)) = bool_decide (base_addr v = base_addr w).
Proof.
  unfold addr_ok, line_size. intros Hv Hw.
  rewrite (base_addr_div w), (base_addr_div v) by lia.
  pose proof (Z.div_mod v 64 ltac:(lia)). pose proof (Z.mod_pos_bound v 64 ltac:(lia)).
  pose proof (Z.div_mod w 64 ltac:(lia)). pose proof (Z.mod_pos_bound w 64 ltac:(lia)).
  unfold u64. rewrite Z.mod_small by lia.
  case_bool_decide as E.
  - apply andb_true_iff. lia.
  - apply andb_false_iff. lia.
Qed.

(** ** The request buffer's invariant *)

Definition req_line (v : MemValue_t) : Z := base_addr (vaddr v).

(** Lines of the requests that have been issued. *)
Definition issued_lines (l : list MemValue_t) : list Z :=
  req_line <$> filter (λ v, is_issue v = true) l.

Arguments issued_lines : simpl never.

(** Among the requests of one line, the issued ones come first. *)
Fixpoint issued_first (l : list MemValue_t) : Prop :=
  match l with
  | [] => True
  | v :: l' =>
      (is_issue v = false → ∀ w, w ∈ l' → req_line w = req_line v → is_issue w = false)
      ∧ issued_first l'
  end.

Record buffer_ok (l : list MemValue_t) : Prop := {
  bo_addr : ∀ v, v ∈ l → addr_ok (vaddr v);
  bo_nodup : NoDup (nodeid <$> l);
  bo_first : issued_first l
}.

Definition map_ok (m : Memory) : Prop :=
  ∀ k v, memaddr_map m !! k = Some v → addr_ok (addr v).

Lemma issued_first_app l v :
  issued_first l → is_issue v = false → issued_first (l ++ [v]).
Proof.
  induction l as [|w l IH]; cbn; intros Hl Hv; [split; [set_solver|done]|].
  destruct Hl as [H1 H2]. split; [|by apply IH].
  intros Hw x [Hx|Hx]%elem_of_app Hline; [by apply H1|].
  apply list_elem_of_singleton in Hx as ->. done.
Qed.

(** Only the flag of the entry found changes; it is the first of its line
    that is not issued. *)
Lemma access_loop_spec `{RubyPort R} (r : R) l l' v :
  access_loop r l = Some (l', v) →
  ∃ l1 l2, l = l1 ++ v :: l2 ∧
    l' = l1 ++ mkMemValue_t (t_isWrite v) (nodeid v) (vaddr v) true :: l2 ∧
    is_issue v = false ∧ isReady r (req_line v) line_size false = true ∧
    ∀ w, w ∈ l1 → req_line w = req_line v → is_issue w = true.
Proof.
  revert l'. induction l as [|w l IH]; intros l'; cbn; [done|].
  destruct (isReady r (base_addr (vaddr w)) line_size false) eqn:Er, (is_issue w) eqn:Ei; cbn.
  2: { intros [= <- <-]. exists [], l. split_and!; [done..|]. intros ? []%elem_of_nil. }
  all: destruct (access_loop r l) as [[l0 w0]|] eqn:E; [|done]; intros [= <- <-];
    destruct (IH l0 eq_refl) as (l1 & l2 & -> & -> & H1 & H2 & H3);
    exists (w :: l1), l2; split_and!; try done;
    intros x [->|Hx]%elem_of_cons Hline; eauto.
  unfold req_line in *. congruence.
Qed.

Lemma issued_first_mark l1 v l2 :
  issued_first (l1 ++ v :: l2) →
  (∀ w, w ∈ l1 → req_line w = req_line v → is_issue w = true) →
  issued_first (l1 ++ mkMemValue_t (t_isWrite v) (nodeid v) (vaddr v) true :: l2).
Proof.
  induction l1 as [|w l1 IH]; cbn; intros [H1 H2] H3.
  - by split.
  - split; [|apply IH; [done|intros x Hx; apply H3; by right]].
    intros Hw x Hx Hline. apply elem_of_app in Hx as [Hx|[->|Hx]%elem_of_cons].
    + apply H1; [done|apply elem_of_app; by left|done].
    + cbn. exfalso. assert (is_issue w = true); [|congruence].
      apply H3; [left|]. rewrite <- Hline. done.
    + apply H1; [done|apply elem_of_app; right; by right|done].
Qed.

Lemma issued_lines_app l1 l2 : issued_lines (l1 ++ l2) = issued_lines l1 ++ issued_lines l2.
Proof. unfold issued_lines. by rewrite filter_app, fmap_app. Qed.

Lemma access_loop_ok `{RubyPort R} (r : R) l l' v :
  buffer_ok l → access_loop r l = Some (l', v) →
  buffer_ok l' ∧ issued_lines l' ≡ₚ req_line v :: issued_lines l ∧
  (nodeid <$> l') = (nodeid <$> l) ∧ isReady r (req_line v) line_size false = true.
Proof.
  intros [Ha Hn Hf] Hl. destruct (access_loop_spec r l l' v Hl) as (l1 & l2 & -> & -> & Hi & Hrdy & H3).
  assert (nodeid <$> l1 ++ mkMemValue_t (t_isWrite v) (nodeid v) (vaddr v) true :: l2
          = nodeid <$> l1 ++ v :: l2) as Hfm by (by rewrite !fmap_app).
  split_and!; [split| |done|done].
  - intros w. rewrite elem_of_app, elem_of_cons.
    intros [Hw|[->|Hw]]; cbn; apply Ha; rewrite elem_of_app, elem_of_cons; auto.
  - by rewrite Hfm.
  - by apply issued_first_mark.
  - rewrite !issued_lines_app. unfold issued_lines at 2 4.
    rewrite filter_cons_True by done. rewrite filter_cons_False by (by rewrite Hi). cbn.
    by rewrite Permutation_middle.
Qed.

(** The answer of a line finds the oldest request of the line, and that one
    has been issued. *)
Lemma search_req_issued l a :
  buffer_ok l → a ∈ issued_lines l →
  ∃ l1 q l2, l = l1 ++ q :: l2 ∧ search_req a line_size l = Some q ∧
    is_issue q = true ∧ req_line q = a ∧ ∀ w, w ∈ l1 → req_line w ≠ a.
Proof.
  intros [Ha _ Hf] Hin. unfold issued_lines in Hin.
  apply list_elem_of_fmap in Hin as (w & -> & [Hi Hw]%list_elem_of_filter).
  assert (addr_ok (vaddr w)) as Hok by auto. unfold req_line at 2 3 5.
  assert (∀ l, (∀ v, v ∈ l → addr_ok (vaddr v)) → issued_first l → w ∈ l →
    ∃ l1 q l2, l = l1 ++ q :: l2 ∧ search_req (base_addr (vaddr w)) line_size l = Some q ∧
      is_issue q = true ∧ req_line q = base_addr (vaddr w) ∧
      ∀ x, x ∈ l1 → req_line x ≠ base_addr (vaddr w)) as Hgen; [|by apply Hgen].
  clear l Ha Hf Hw. induction l as [|v l IH]; intros Ha Hf Hw; [by apply not_elem_of_nil in Hw|].
  destruct Hf as [Hf1 Hf2]. cbn. rewrite in_line by (try apply Ha; auto; left).
  case_bool_decide as E.
  - exists [], v, l. split_and!; [done|done| |done|intros ? []%elem_of_nil].
    destruct (is_issue v) eqn:Ev; [done|].
    apply elem_of_cons in Hw as [->|Hw]; [congruence|].
    rewrite <- Hi. symmetry. apply Hf1; [done|done|]. unfold req_line. congruence.
  - apply elem_of_cons in Hw as [->|Hw]; [done|].
    destruct (IH (λ x Hx, Ha x (list_elem_of_further _ _ _ Hx)) Hf2 Hw)
      as (l1 & q & l2 & -> & H1 & H2 & H3 & H4).
    exists (v :: l1), q, l2. split_and!; [done..|].
    intros x [->|Hx]%elem_of_cons; [done|by apply H4].
Qed.

Lemma remove_req_split l1 q l2 :
  NoDup (nodeid <$> l1 ++ q :: l2) → remove_req q (l1 ++ q :: l2) = l1 ++ l2.
Proof.
  intros Hn. rewrite fmap_app, fmap_cons in Hn.
  apply NoDup_app in Hn as (_ & Hdisj & [Hq _]%NoDup_cons).
  assert (∀ l, nodeid q ∉ nodeid <$> l → remove_req q l = l) as Hkeep.
  { induction l as [|x l IH]; intros Hl; [done|]. cbn in Hl.
    apply not_elem_of_cons in Hl as [Hx Hl]. unfold remove_req in *.
    rewrite filter_cons_True; [by rewrite IH|].
    unfold memvalue_eq. apply andb_false_iff; left. apply andb_false_iff; right. by apply Z.eqb_neq. }
  unfold remove_req in *. rewrite filter_app. f_equal.
  - apply Hkeep. intros Hin. apply (Hdisj _ Hin). left.
  - rewrite filter_cons_False; [by apply Hkeep|].
    unfold memvalue_eq. by rewrite eqb_reflx, !Z.eqb_refl.
Qed.

Lemma issued_first_remove l1 q l2 : issued_first (l1 ++ q :: l2) → issued_first (l1 ++ l2).
Proof.
  induction l1 as [|w l1 IH]; cbn; intros [H1 H2]; [done|]. split; [|by apply IH].
  intros Hw x Hx. apply H1; [done|]. set_solver.
Qed.

(** One answer taken from the return queue. *)
Lemma remove_req_ok l a :
  buffer_ok l → a ∈ issued_lines l →
  ∃ q, search_req a line_size l = Some q ∧ buffer_ok (remove_req q l) ∧
    issued_lines l ≡ₚ a :: issued_lines (remove_req q l) ∧
    (nodeid <$> l) ≡ₚ nodeid q :: (nodeid <$> remove_req q l) ∧
    remove_req q l ⊆ l.
Proof.
  intros Hb Hin. destruct (search_req_issued l a Hb Hin) as (l1 & q & l2 & -> & Hs & Hi & Hl & _).
  destruct Hb as [Ha Hn Hf]. exists q. rewrite remove_req_split by done.
  split_and!; [done|split| | |set_solver].
  - intros v Hv. apply Ha. set_solver.
  - rewrite fmap_app, fmap_cons, <- Permutation_middle in Hn.
    apply NoDup_cons in Hn as [_ Hn]. by rewrite fmap_app.
  - by eapply issued_first_remove.
  - rewrite !issued_lines_app. unfold issued_lines at 2. rewrite filter_cons_True by done.
    cbn. rewrite Hl. by rewrite Permutation_middle.
  - rewrite !fmap_app, fmap_cons. by rewrite Permutation_middle.
Qed.

(** ** The front end and Ruby together *)

Section mem_inv.
Context `{RubyLaws R}.
Implicit Types (r : R) (m : Memory).

(** The issued requests are exactly Ruby's outstanding ones, and the credit
    counter is what is left of the ten. *)
Record mem_ok (m : Memory) (r : R) : Prop := {
  mo_ruby : ruby_ok r;
  mo_buffer : buffer_ok (ldst_addr_buffer m);
  mo_map : map_ok m;
  mo_lines : issued_lines (ldst_addr_buffer m) ≡ₚ outstanding r;
  mo_credit : mem_req_stack m + Z.of_nat (length (outstanding r)) = MEM_MSHR_SIZE;
  mo_bound : 0 ≤ mem_req_stack m
}.

Definition buffered (m : Memory) : list Z := nodeid <$> ldst_addr_buffer m.

Lemma initialize_ok m r : map_ok m → ruby_ok r → outstanding r = [] → mem_ok (initialize m) r.
Proof.
  intros Hm Hr Ho. split; cbn; rewrite ?Ho; try done.
  split; cbn; [intros v []%elem_of_nil|constructor|done].
Qed.

Lemma advance_ok m r : mem_ok m r → mem_ok m (advance_time r).
Proof.
  intros [Hr Hb Hm Hl Hc Hz]. split; rewrite ?outstanding_advance by done; try done.
  by apply ruby_advance.
Qed.

(** A request for a node that is in the address map and not yet buffered. *)
Lemma send_req_ok iter node m r :
  mem_ok m r → is_Some (memaddr_map m !! (iter, node)) → node ∉ buffered m →
  ∃ m', send_req iter node m = Ret m' ∧ mem_ok m' r ∧ buffered m' = buffered m ++ [node]
    ∧ memaddr_map m' = memaddr_map m.
Proof.
  intros [Hr [Ha Hn Hf] Hm Hl Hc Hz] [v Hv] Hnode. unfold send_req. rewrite Hv.
  eexists. split_and!; [done| | |done].
  - split; cbn; [done|split| | |done|done].
    + intros w [Hw|Hw]%elem_of_app; [auto|]. apply list_elem_of_singleton in Hw as ->.
      cbn. by eapply Hm.
    + rewrite fmap_app. apply NoDup_app. split_and!; [done| |apply NoDup_singleton].
      intros x Hx Hx'. apply list_elem_of_singleton in Hx' as ->. done.
    + by apply issued_first_app.
    + done.
    + rewrite issued_lines_app. unfold issued_lines at 2. rewrite filter_cons_False by done.
      by rewrite app_nil_r.
  - unfold buffered; cbn. by rewrite fmap_app.
Qed.

Lemma access_ok m r b m' r' :
  mem_ok m r → access m r = (b, m', r') →
  mem_ok m' r' ∧ buffered m' = buffered m ∧ memaddr_map m' = memaddr_map m.
Proof.
  intros Hok. pose proof Hok as [Hr Hb Hm Hl Hc Hz]. unfold access.
  destruct (negb _ && negb (mem_req_stack m =? 0)) eqn:E; [|by intros [= <- <- <-]].
  destruct (access_loop r _) as [[l v]|] eqn:El; [|by intros [= <- <- <-]].
  intros [= <- <- <-]. apply andb_true_iff in E as [_ E%negb_true_iff%Z.eqb_neq].
  destruct (access_loop_ok r _ _ _ Hb El) as (Hb' & Hl' & Hn' & Hv).
  assert (Hn : (0 ≤ line_size < 2 ^ 31)%Z) by (unfold line_size; lia).
  pose proof (outstanding_send r (req_line v) line_size (t_isWrite v) false Hr Hn Hv) as Hs.
  split_and!; [split|done|done]; cbn; fold (req_line v); try done.
  - by apply (ruby_send r _ _ _ false).
  - by rewrite Hl', Hl, Hs.
  - rewrite (Permutation_length Hs). cbn. lia.
  - lia.
Qed.

Lemma process_loop_ok fuel m r resp :
  mem_ok m r → (length (answers r) < fuel)%nat →
  ∃ new m' r', process_loop fuel resp m r = Ret (resp ++ new, m', r') ∧
    mem_ok m' r' ∧ answers r' = [] ∧ inflight r' = inflight r ∧
    length new = length (answers r) ∧ buffered m ≡ₚ new ++ buffered m' ∧
    memaddr_map m' = memaddr_map m.
Proof.
  revert m r resp. induction fuel as [|fuel IH]; intros m r resp Hok Hlt; [lia|].
  cbn [process_loop]. rewrite ruby_empty. case_bool_decide as E.
  { exists [], m, r. rewrite E, app_nil_r. split_and!; done. }
  destruct (answers r) as [|a rest] eqn:Ea; [done|].
  rewrite (ruby_top r a rest Ea). pose proof Hok as [Hr Hb Hm Hl Hc Hz].
  pose proof (outstanding_pop r a rest Hr Ea) as Hout. rewrite Hout in Hl, Hc.
  destruct (remove_req_ok (ldst_addr_buffer m) a Hb) as (q & -> & Hb' & Hl' & Hn' & Hsub).
  { rewrite Hl. left. }
  destruct (ruby_pop r a rest Hr Ea) as (Hr' & Hans & Hinf). cbn in Hlt, Hc.
  destruct (IH (mkMemory (memaddr_map m) (remove_req q (ldst_addr_buffer m))
                 (mem_req_stack m + 1) (m_mem_mshr_stack m)) (RubyQueuePop r)
               (resp ++ [nodeid q])) as (new & m' & r' & -> & Hok' & H1 & H2 & H3 & H4 & H5).
  { split; cbn; [done|done|done| |lia|lia].
    apply (Permutation_cons_inv (a := a)). by rewrite <- Hl', Hl. }
  { rewrite Hans. lia. }
  exists (nodeid q :: new), m', r'. rewrite <- app_assoc. split_and!; try done.
  - congruence.
  - cbn. by rewrite H3, Hans.
  - unfold buffered in *. cbn in *. by rewrite Hn', H4.
Qed.
(** The credits bound the answers waiting: the loop of [process_mshr] runs at
    most [MEM_MSHR_SIZE] times. *)
Lemma outstanding_bound m r : mem_ok m r → (length (outstanding r) ≤ 10)%nat.
Proof. intros [_ _ _ _ Hc Hz]. unfold MEM_MSHR_SIZE in Hc. lia. Qed.

Lemma recv_resp_ok m r :
  mem_ok m r →
  ∃ resp m' r', recv_resp mshr_fuel m r = Ret (resp, m', r') ∧ mem_ok m' r' ∧
    answers r' = [] ∧ buffered m ≡ₚ resp ++ buffered m' ∧ memaddr_map m' = memaddr_map m.
Proof.
  intros Hok. unfold recv_resp. destruct (access m r) as [[b m1] r1] eqn:Ea.
  destruct (access_ok m r b m1 r1 Hok Ea) as (Hok1 & Hb1 & Hm1).
  destruct (process_loop_ok mshr_fuel m1 r1 [] Hok1) as (new & m' & r' & H1 & H2 & H3 & _ & _ & H4 & H5).
  { pose proof (outstanding_bound m1 r1 Hok1). unfold outstanding in *.
    rewrite length_app in *. unfold mshr_fuel. lia. }
  exists new, m', r'. unfold process_mshr. rewrite H1. split_and!; [done..| |congruence].
  by rewrite <- Hb1.
Qed.

(** [C17] The cycle's call into the memory front end returns: the assertion
    that an answer matches a buffered request never fires.  It answers
    buffered nodes, each once, keeps the others in the buffer, empties the
    return queue, and never has more than ten requests outstanding. *)
Theorem recv_resp_correct m r :
  mem_ok m r →
  ∃ resp m' r', recv_resp mshr_fuel m r = Ret (resp, m', r') ∧ mem_ok m' r' ∧
    RubyQueueEmpty r' = true ∧ buffered m ≡ₚ resp ++ buffered m' ∧ NoDup resp ∧
    (length (outstanding r') ≤ 10)%nat ∧ 0 ≤ mem_req_stack m' ≤ 10.
Proof.
  intros Hok. destruct (recv_resp_ok m r Hok) as (resp & m' & r' & -> & Hok' & Ha & Hp & _).
  exists resp, m', r'. pose proof (outstanding_bound m' r' Hok').
  split_and!; [done|done| |done| |done|..].
  - rewrite ruby_empty. by apply bool_decide_eq_true.
  - pose proof (bo_nodup _ (mo_buffer _ _ Hok)) as Hn. fold (buffered m) in Hn.
    rewrite Hp in Hn. by apply NoDup_app in Hn as [? _].
  - apply Hok'.
  - destruct Hok' as [_ _ _ _ Hc _]. unfold MEM_MSHR_SIZE in Hc. lia.
Qed.

(** *** Calls that answer nothing *)

Definition unissued (m : Memory) : nat := length (filter (λ v, is_issue v = false) (ldst_addr_buffer m)).

Lemma unissued_le m : (unissued m ≤ length (buffered m))%nat.
Proof. unfold unissued, buffered. rewrite length_fmap. apply length_filter. Qed.

Lemma access_unissued m r m' r' : access m r = (true, m', r') → unissued m = S (unissued m').
Proof.
  unfold access. destruct (negb _ && negb _); [|done].
  destruct (access_loop r _) as [[l v]|] eqn:El; [|done]. intros [= <- <-].
  destruct (access_loop_spec r _ _ _ El) as (l1 & l2 & E & -> & Hv & _).
  unfold unissued; cbn. rewrite E, !filter_app, !length_app.
  rewrite filter_cons_True, filter_cons_False by done. cbn. lia.
Qed.

Lemma access_refused m r m' r' : access m r = (false, m', r') → m' = m ∧ r' = r.
Proof.
  unfold access. destruct (negb _ && negb _); [|by intros [= <- <-]].
  by destruct (access_loop r _) as [[]|]; [|intros [= <- <-]].
Qed.

Lemma process_none m r :
  answers r = [] → process_mshr mshr_fuel m r = Ret ([], m, r).
Proof. intros Ha. unfold process_mshr, mshr_fuel. cbn. by rewrite ruby_empty, bool_decide_eq_true_2. Qed.
End mem_inv.

Section live.
Context `{RubyLive R}.

(** With nothing in flight the first request of the buffer can be sent. *)
Lemma access_idle m r :
  mem_ok m r → answers r = [] → inflight r = [] → buffered m ≠ [] →
  ∃ m' r', access m r = (true, m', r').
Proof.
  intros [Hr Hb Hm Hl Hc Hz] Ha Hi Hne.
  assert (Ho : outstanding r = []) by (unfold outstanding; by rewrite Ha, Hi).
  rewrite Ho in *. cbn in Hc. apply Permutation_nil_r in Hl. unfold access.
  destruct (ldst_addr_buffer m) as [|v l] eqn:E; [by unfold buffered in Hne; rewrite E in Hne|].
  rewrite bool_decide_eq_false_2 by done.
  assert (Hs : (mem_req_stack m =? 0) = false) by (unfold MEM_MSHR_SIZE in Hc; lia).
  rewrite Hs. cbn [negb andb access_loop].
  assert (Hv : is_issue v = false).
  { destruct (is_issue v) eqn:Ev; [|done]. unfold issued_lines in Hl.
    by rewrite filter_cons_True in Hl. }
  rewrite idle_ready, Hv; [|done|done|rewrite Ha; apply not_elem_of_nil]. cbn. by do 2 eexists.
Qed.

(** A call that answers nothing sends a request or waits for one. *)
Lemma recv_resp_stall m r m' r' :
  mem_ok m r → buffered m ≠ [] → recv_resp mshr_fuel m r = Ret ([], m', r') →
  unissued m = S (unissued m') ∨ (m' = m ∧ r' = r ∧ due r ≠ 0%nat).
Proof.
  intros Hok Hne. unfold recv_resp. destruct (access m r) as [[b m1] r1] eqn:Ea. intros Hp.
  destruct (access_ok m r b m1 r1 Hok Ea) as (Hok1 & _).
  destruct (process_loop_ok mshr_fuel m1 r1 [] Hok1) as (new & m2 & r2 & E1 & _ & _ & _ & Hlen & _).
  { pose proof (outstanding_bound m1 r1 Hok1) as Ho. unfold outstanding in Ho.
    rewrite length_app in Ho. unfold mshr_fuel. lia. }
  unfold process_mshr in Hp. rewrite E1 in Hp. injection Hp as -> <- <-.
  assert (Ha : answers r1 = []) by (by destruct (answers r1)).
  pose proof (process_none m1 r1 Ha) as Hn. unfold process_mshr in Hn. rewrite E1 in Hn.
  injection Hn as -> ->.
  destruct b; [left; by eapply access_unissued|right].
  destruct (access_refused _ _ _ _ Ea) as [-> ->]. split_and!; [done..|]. intros Hd.
  pose proof (mo_ruby _ _ Hok) as Hr. pose proof (due_idle r Hr Hd) as Hi.
  destruct (access_idle m r Hok Ha Hi Hne) as (? & ? & E). congruence.
Qed.
End live.

(** Which request is sent: with credits left, the first request of the
    buffer whose line is ready and which has not been sent; with none of them,
    or without credit, nothing happens. *)
Theorem access_first_ready `{RubyPort R} (m : Memory) (r : R) :
  let ready v := isReady r (req_line v) line_size false && negb (is_issue v) in
  (mem_req_stack m ≠ 0 → ∀ l1 v l2, ldst_addr_buffer m = l1 ++ v :: l2 → ready v = true →
     (∀ w, w ∈ l1 → ready w = false) →
     access m r = (true,
       mkMemory (memaddr_map m)
         (l1 ++ mkMemValue_t (t_isWrite v) (nodeid v) (vaddr v) true :: l2)
         (mem_req_stack m - 1) (m_mem_mshr_stack m),
       send_request r (req_line v) line_size (t_isWrite v))) ∧
  (mem_req_stack m = 0 ∨ (∀ v, v ∈ ldst_addr_buffer m → ready v = false) →
     access m r = (false, m, r)).
Proof.
  intros ready. split.
  - intros Hc l1 v l2 Hb Hv Hw. unfold access. rewrite Hb.
    rewrite bool_decide_eq_false_2 by (by destruct l1).
    assert ((mem_req_stack m =? 0) = false) as -> by lia. cbn [negb andb].
    assert (access_loop r (l1 ++ v :: l2) =
      Some (l1 ++ mkMemValue_t (t_isWrite v) (nodeid v) (vaddr v) true :: l2, v)) as ->; [|done].
    clear Hb. induction l1 as [|w l1 IH]; cbn [access_loop app].
    + unfold ready, req_line in Hv. by rewrite Hv.
    + pose proof (Hw w ltac:(left)) as Hw0. unfold ready, req_line in Hw0. rewrite Hw0, IH; [done|].
      intros x Hx. apply Hw. by right.
  - intros Hno. unfold access. destruct (negb _ && negb _) eqn:E; [|done].
    apply andb_true_iff in E as [_ E%negb_true_iff%Z.eqb_neq].
    destruct Hno as [?|Hno]; [done|].
    assert (access_loop r (ldst_addr_buffer m) = None) as ->; [|done].
    induction (ldst_addr_buffer m) as [|v l IH]; [done|]. cbn.
    pose proof (Hno v ltac:(left)) as Hv. unfold ready, req_line in Hv. rewrite Hv, IH; [done|].
    intros x Hx. apply Hno. by right.
Qed.

(** A request in the topmost line is never matched: the end of its line wraps
    around to 0. *)
Lemma top_line_unmatched v :
  2 ^ 64 - 64 ≤ vaddr v < 2 ^ 64 → search_req (base_addr (vaddr v)) line_size [v] = None.
Proof.
  intros Hv. cbn. rewrite base_addr_div by lia.
  assert (vaddr v / 64 = 2 ^ 58 - 1) as ->.
  { symmetry. apply (Z.div_unique _ _ _ (vaddr v - 64 * (2 ^ 58 - 1))); lia. }
  unfold line_size. change (u64 (64 * (2 ^ 58 - 1) + 64)) with 0.
  assert ((vaddr v <? 0) = false) as -> by lia. by rewrite andb_false_r.
Qed.

(** ** A concrete memory system

    Answers one request per cycle, in order, and refuses a second request to
    a line that is outstanding. *)

Record fifo := mkFifo { ready_q : list Z; wait_q : list Z }.

#[export] Instance fifo_port : RubyPort fifo := {|
  advance_time f := match wait_q f with
                    | [] => f
                    | a :: w => mkFifo (ready_q f ++ [a]) w
                    end;
  isReady f a _ _ := bool_decide (a ∉ ready_q f ++ wait_q f);
  send_request f a _ _ := mkFifo (ready_q f) (wait_q f ++ [a]);
  RubyQueueEmpty f := bool_decide (ready_q f = []);
  RubyQueueTop f := default 0 (head (ready_q f));
  RubyQueuePop f := mkFifo (tail (ready_q f)) (wait_q f)
|}.

#[export] Program Instance fifo_laws : RubyLaws fifo := {|
  ruby_ok _ := True;
  answers := ready_q;
  inflight := wait_q
|}.
Next Obligation. done. Qed.
Next Obligation. intros f a l Hf. cbn in *. by rewrite Hf. Qed.
Next Obligation. intros f a l _ Hf. cbn in *. by rewrite Hf. Qed.
Next Obligation.
  intros [q [|a w]] _; cbn; (split; [done|]); [exists []; by rewrite app_nil_r|by exists [a]].
Qed.
Next Obligation.
  intros f a n w w' _ _. split; [done|]. exists []. cbn. rewrite app_nil_r. split; [done|].
  by rewrite Permutation_app_comm.
Qed.

#[export] Program Instance fifo_live : RubyLive fifo := {|
  live_bound := 1;
  due f := length (wait_q f)
|}.
Next Obligation. intros f _. cbn. lia. Qed.
Next Obligation. intros [q [|a w]] _; cbn; lia. Qed.
Next Obligation. done. Qed.
Next Obligation. intros f _ Hf. cbn in *. by destruct (wait_q f). Qed.
Next Obligation.
  intros f a n w _ Hw Ha. cbn in *. rewrite Hw, app_nil_r. by apply bool_decide_eq_true.
Qed.

(** Two requests to one line, the first issued and answered, and one to
    another line. *)
Definition example_memory : Memory :=
  mkMemory {[ (0, 1) := mkMemValue false 130; (0, 2) := mkMemValue true 140;
              (0, 3) := mkMemValue false 4096 ]}
    [mkMemValue_t false 1 130 true; mkMemValue_t true 2 140 false; mkMemValue_t false 3 4096 false]
    9 10.

Lemma example_memory_ok : mem_ok example_memory (mkFifo [128] []).
Proof.
  split; [done|split| |vm_compute; reflexivity|vm_compute; reflexivity|vm_compute; congruence].
  - intros v Hv. elem_cases Hv; subst; vm_compute; split; congruence.
  - solve_NoDup.
  - cbn. split; [intros [=]|split].
    + intros _ w Hw Hl. by elem_cases Hw; subst.
    + by split; [intros _ w []%elem_of_nil|].
  - intros k v Hk. unfold example_memory in Hk. cbn [memaddr_map] in Hk.
    rewrite !lookup_insert_Some, lookup_singleton_Some in Hk.
    destruct Hk as [[_ <-]|[_ [[_ <-]|[_ [_ <-]]]]]; vm_compute; split; congruence.
Qed.

Lemma recv_resp_correct_witness :
  mem_ok example_memory (mkFifo [128] []) ∧
  recv_resp mshr_fuel example_memory (mkFifo [128] []) =
    Ret ([1], mkMemory (memaddr_map example_memory)
                [mkMemValue_t true 2 140 false; mkMemValue_t false 3 4096 true] 9 10,
         mkFifo [] [4096]) ∧
  ∃ resp m' r', recv_resp mshr_fuel example_memory (mkFifo [128] []) = Ret (resp, m', r')
    ∧ mem_ok m' r' ∧ RubyQueueEmpty r' = true ∧
    buffered example_memory ≡ₚ resp ++ buffered m' ∧ NoDup resp ∧
    (length (outstanding r') ≤ 10)%nat ∧ 0 ≤ mem_req_stack m' ≤ 10.
Proof.
  split; [apply example_memory_ok|]. split; [vm_compute; reflexivity|].
  exact (recv_resp_correct example_memory (mkFifo [128] []) example_memory_ok).
Defined.

#[export] Hint Resolve initialize_ok advance_ok : csim.
