(* ===== verification/RubySystem.v ===== *)
(** * The memory system behind the front end

    [O3sim_ruby.C] and [O3simInterface.C]: the driver with its callback queue,
    the [Sequencer] and the [EventQueue] together implement the interface
    [RubyPort] that [Memory] is verified against.  ChainSaw creates one
    processor with one thread.  The controllers of the protocol are generated
    by SLICC when the simulator is built; [CacheHierarchy] is their interface
    and [HierarchyLaws] what the system relies on. *)

From stdpp Require Import gmap.
From S2P Require Import Prelude Address PrioHeap EventQueue HashMap Sequencer Memory.
Local Open Scope Z_scope.

(** [pending]: the requests (write?, line, time) accepted and not called back.
    Each is called back once, with its kind, before the deadlock threshold. *)
Class HierarchyLaws (P : Type) `{CacheHierarchy P} := {
  hier_ok : Z → P → Prop;
  pending : P → list (bool * Z * Z);
  hier_try t p a ty : hier_ok t p →
    hier_ok t (tryCacheAccess p a ty).2 ∧ pending (tryCacheAccess p a ty).2 ≡ₚ pending p;
  hier_touch t p ty a : hier_ok t p → hier_ok t (touch p ty a) ∧ pending (touch p ty a) ≡ₚ pending p;
  hier_enqueue t p msg : hier_ok t p → msg_time msg = t → getAddress msg ∉ (λ e, e.1.2) <$> pending p →
    let p' := mandatory_enqueue p msg SEQUENCER_TO_CONTROLLER_LATENCY t in
    hier_ok t p' ∧ pending p' ≡ₚ (is_write (getType msg), getAddress msg, t) :: pending p;
  hier_fresh t p e : hier_ok t p → e ∈ pending p → e.2 ≤ t ∧ t + 1 - e.2 < g_DEADLOCK_THRESHOLD;
  hier_serve t p : hier_ok t p → ∃ served,
    (hier_cycle p (t + 1)).2 = fst <$> served ∧ hier_ok (t + 1) (hier_cycle p (t + 1)).1 ∧
    pending p ≡ₚ served ++ pending (hier_cycle p (t + 1)).1
}.

(** What the wakeups act on; [w_fault] remembers where one of them stopped. *)
Record ruby_state (P : Type) := mkRuby {
  w_seq : Sequencer;
  m_callback_queue : list Z;
  w_hier : P;
  w_fault : option fault
}.
Arguments mkRuby {P}.
Arguments w_seq {P}.
Arguments m_callback_queue {P}.
Arguments w_hier {P}.
Arguments w_fault {P}.

(** The consumers of the event queue. *)
Definition SEQUENCER : nat := 0.
Definition CONTROLLERS : nat := 1.

Section system.
Context `{CacheHierarchy P}.
Implicit Types (w : ruby_state P) (r : world (ruby_state P)).

(** [hitCallback] of the driver: the address joins the callback queue. *)
Definition driver_hitCallback (answer : option Z) (q : list Z) : list Z :=
  q ++ option_list answer.

(** One callback of a controller, for a line of the given kind. *)
Definition apply_callback (now : Z) w (cb : bool * Z) : outcome (ruby_state P) :=
  let '(write, address) := cb in
  '(answer, request, s) ← callback write now address (w_seq w);
  Ret (mkRuby s (driver_hitCallback answer (m_callback_queue w))
         (touch (w_hier w) (getType request) (line (getAddress request))) (w_fault w)).

Definition set_fault (e : fault) w : ruby_state P :=
  mkRuby (w_seq w) (m_callback_queue w) (w_hier w) (Some e).

(** The [wakeup] methods: of the sequencer, and of the controllers, which
    work in every cycle. *)
Definition ruby_wakeup w (c : nat) (now : Z) : ruby_state P * list (nat * Z) :=
  if decide (c = SEQUENCER) then
    match Sequencer.wakeup now (w_seq w) with
    | Ret (s, calls) =>
        (mkRuby s (m_callback_queue w) (w_hier w) (w_fault w), (λ d, (SEQUENCER, d + now)) <$> calls)
    | Raise e => (set_fault e w, [])
    end
  else if decide (c = CONTROLLERS) then
    let '(p, cbs) := hier_cycle (w_hier w) now in
    match foldM (apply_callback now) (mkRuby (w_seq w) (m_callback_queue w) p (w_fault w)) cbs with
    | Ret w' => (w', [(CONTROLLERS, now + 1)])
    | Raise e => (set_fault e w, [(CONTROLLERS, now + 1)])
    end
  else (w, []).

(** ** The driver *)

(** The [CacheMsg] of [O3simInterface::makeRequest] and [isReady]. *)
Definition driver_msg (now addr req_size tid : Z) (is_write isPriv : bool) : CacheMsg :=
  mkCacheMsg addr (if is_write then ST else LD) (if isPriv then SupervisorMode else UserMode)
    (i32 req_size) No addr tid now.

Definition driver_isReady (addr req_size tid : Z) (is_write : bool) r : bool :=
  Sequencer.isReady (driver_msg (getTime r) addr req_size tid is_write false) (w_seq (rest r)).

Definition driver_makeRequest (addr req_size tid : Z) (is_write isPriv : bool) r
    : outcome (world (ruby_state P)) :=
  let now := getTime r in
  let w := rest r in
  '(answer, calls, s, p) ←
    makeRequest now (driver_msg now addr req_size tid is_write isPriv) (w_seq w) (w_hier w);
  foldM (λ r d, scheduleEvent (Some SEQUENCER) d r)
    (mkWorld (queue r) (consumers r)
       (mkRuby s (driver_hitCallback answer (m_callback_queue w)) p (w_fault w)))
    calls.

Definition driver_advanceTime r : outcome (world (ruby_state P)) :=
  '(r, _) ← advanceTime ruby_wakeup r; Ret r.

(** The callback queue of core 0, the only one. *)
Definition driver_RubyQueueEmpty (core_id : nat) r : outcome bool :=
  assertb (core_id <? 1)%nat ;; Ret (bool_decide (m_callback_queue (rest r) = [])).

Definition driver_RubyQueueTop (core_id : nat) r : outcome Z :=
  assertb (core_id <? 1)%nat ;; deref (head (m_callback_queue (rest r))).

Definition driver_RubyQueuePop (core_id : nat) r : outcome (world (ruby_state P)) :=
  assertb (core_id <? 1)%nat ;;
  match m_callback_queue (rest r) with
  | [] => Raise BadDeref
  | _ :: q => Ret (mkWorld (queue r) (consumers r)
                (mkRuby (w_seq (rest r)) q (w_hier (rest r)) (w_fault (rest r))))
  end.

(** ** [O3sim_ruby] as a port

    The port has no faults: one is recorded in the state. *)
Definition or_fault (r : world (ruby_state P)) (m : outcome (world (ruby_state P)))
    : world (ruby_state P) :=
  match m with
  | Ret r' => r'
  | Raise e => mkWorld (queue r) (consumers r) (set_fault e (rest r))
  end.

#[export] Instance ruby_port : RubyPort (world (ruby_state P)) := {|
  advance_time r := or_fault r (driver_advanceTime r);
  isReady r a n wr := driver_isReady a n 0 wr r;
  send_request r a n wr := or_fault r (driver_makeRequest a n 0 wr false r);
  RubyQueueEmpty r := match driver_RubyQueueEmpty 0 r with Ret b => b | Raise _ => true end;
  RubyQueueTop r := match driver_RubyQueueTop 0 r with Ret a => a | Raise _ => 0 end;
  RubyQueuePop r := or_fault r (driver_RubyQueuePop 0 r)
|}.
End system.

#[global] Arguments driver_advanceTime : simpl never.
#[global] Arguments driver_makeRequest : simpl never.

(** ** The invariant *)

Section laws.
Context `{HierarchyLaws P}.
Implicit Types (w : ruby_state P) (r : world (ruby_state P)).

Definition key_of (x : CacheMsg) : bool * Z * Z := (is_write (getType x), lineof x, msg_time x).

(** The sequencer and the hierarchy agree on what is outstanding, [t] being the
    last cycle the controllers worked in. *)
Record state_ok (t : Z) w : Prop := {
  st_seq : seq_ok (w_seq w);
  st_hier : hier_ok t (w_hier w);
  st_keys : key_of <$> requests (w_seq w) ≡ₚ pending (w_hier w);
  st_thread : length (m_readRequestTable (w_seq w)) = 1%nat;
  st_demand : ∀ x, x ∈ requests (w_seq w) → getPrefetch x = No;
  st_fault : w_fault w = None
}.

(** The addresses the driver waits for. *)
Definition waiting w : list Z := omap answer_of (requests (w_seq w)).

Definition system_ok r : Prop :=
  events_ok r ∧ state_ok (getTime r) (rest r) ∧ mkNode (getTime r + 1) (Some CONTROLLERS) ∈ nodes r.

(** [w'] is [w] after some answers: they come from the requests waited for. *)
Definition answered w w' : Prop :=
  (∃ ds, m_callback_queue w' = m_callback_queue w ++ ds ∧ ds ++ waiting w' ≡ₚ waiting w) ∧
  requests (w_seq w') ⊆ requests (w_seq w).

Lemma answered_refl w : answered w w.
Proof. split; [|done]. exists []. by rewrite app_nil_r. Qed.

Lemma answered_trans w1 w2 w3 : answered w1 w2 → answered w2 w3 → answered w1 w3.
Proof.
  intros [(d1 & Q1 & P1) S1] [(d2 & Q2 & P2) S2]. split; [|by etrans]. exists (d1 ++ d2). rewrite Q2, Q1, app_assoc.
  split; [done|]. by rewrite <- app_assoc, P2.
Qed.

Lemma key_request s key :
  key ∈ key_of <$> requests s → ∃ x, x ∈ requests s ∧ key_of x = key.
Proof. intros (x & -> & Hx)%list_elem_of_fmap. by exists x. Qed.

(** ** The callbacks of a cycle *)

Lemma callbacks_ok now t : ∀ served left w,
  seq_ok (w_seq w) → hier_ok t (w_hier w) → length (m_readRequestTable (w_seq w)) = 1%nat →
  w_fault w = None → key_of <$> requests (w_seq w) ≡ₚ served ++ left → left ≡ₚ pending (w_hier w) →
  (∀ e, e ∈ served → e.2 ≤ now) → (∀ x, x ∈ requests (w_seq w) → getPrefetch x = No) →
  ∃ w', foldM (apply_callback now) w (fst <$> served) = Ret w' ∧ state_ok t w' ∧ answered w w'.
Proof.
  induction served as [|[[wr l] t0] served IH]; intros left w Hs Hh Hth Hf Hkeys Hleft Hage Hd.
  { exists w. split; [done|]. split; [|apply answered_refl]. split; try done. by rewrite Hkeys. }
  destruct (key_request (w_seq w) (wr, l, t0)) as (x & Hx & [= <- <- <-]); [rewrite Hkeys; left|].
  destruct (callback_ok now (w_seq w) x Hs Hx) as (s & E & Hs' & Hp & _ & Hth').
  { apply (Hage (key_of x)). left. }
  cbn [fmap list_fmap foldM fst apply_callback]. rewrite E. cbn [mbind outcome_bind].
  set (p := touch _ _ _). destruct (hier_touch t (w_hier w) (getType x) (line (getAddress x)) Hh) as [Hh' Hpend].
  fold p in Hh', Hpend.
  destruct (IH left (mkRuby s (driver_hitCallback (answer_of x) (m_callback_queue w)) p (w_fault w)))
    as (w' & -> & Hw' & Ha); cbn; try done.
  - by rewrite Hth'.
  - rewrite Hp in Hkeys. cbn in Hkeys. by apply Permutation_cons_inv in Hkeys.
  - by rewrite Hpend.
  - intros e He. apply Hage. by right.
  - intros y Hy. apply Hd. rewrite Hp. by right.
  - exists w'. split; [done|]. split; [done|]. eapply answered_trans; [|exact Ha].
    split; [|cbn; intros y Hy; rewrite Hp; by right]. exists (option_list (answer_of x)). split; [done|]. unfold waiting. cbn.
    rewrite (omap_Permutation answer_of (requests (w_seq w)) (x :: requests s)) by done. cbn.
    by destruct (answer_of x).
Qed.

(** The controllers take the hierarchy one cycle further. *)
Lemma controllers_ok t w :
  state_ok t w →
  state_ok (t + 1) (ruby_wakeup w CONTROLLERS (t + 1)).1 ∧
  answered w (ruby_wakeup w CONTROLLERS (t + 1)).1.
Proof.
  intros [Hs Hh Hk Hth Hd Hf]. unfold ruby_wakeup. rewrite decide_False, decide_True by done.
  destruct (hier_serve t (w_hier w) Hh) as (served & Ecb & Hh' & Hp).
  destruct (hier_cycle (w_hier w) (t + 1)) as [p cbs]. cbn in Ecb, Hh', Hp. subst cbs.
  destruct (callbacks_ok (t + 1) (t + 1) served (pending p)
    (mkRuby (w_seq w) (m_callback_queue w) p (w_fault w))) as (w' & -> & Hw' & Ha); cbn; try done.
  - by rewrite Hk, Hp.
  - intros e He. assert (Hin : e ∈ pending (w_hier w)) by (rewrite Hp; apply elem_of_app; by left).
    destruct (hier_fresh t (w_hier w) e Hh Hin). lia.
Qed.

(** The deadlock check finds nothing, before or after the controllers. *)
Lemma sequencer_wakeup_ok t now w :
  state_ok t w → t ≤ now ≤ t + 1 →
  state_ok t (ruby_wakeup w SEQUENCER now).1 ∧ answered w (ruby_wakeup w SEQUENCER now).1.
Proof.
  intros [Hs Hh Hk Hth Hd Hf] Hnow. unfold ruby_wakeup. rewrite decide_True by done.
  destruct (wakeup_ok now (w_seq w) Hs) as (s & calls & -> & Hs' & Hreq & Hth' & _).
  { intros x Hx. assert (Hin : key_of x ∈ pending (w_hier w)) by (rewrite <- Hk; by apply list_elem_of_fmap_2).
    destruct (hier_fresh t (w_hier w) _ Hh Hin). cbn in *. lia. }
  cbn [fst]. split; [split; cbn; try done; [by rewrite Hreq|by rewrite Hth'|by rewrite Hreq]|].
  split; [|cbn; by rewrite Hreq]. exists []. rewrite app_nil_r. split; [done|]. unfold waiting. cbn. by rewrite Hreq.
Qed.

Lemma ruby_wakeup_later : schedules_later ruby_wakeup.
Proof.
  intros w c t. unfold ruby_wakeup. case_decide.
  - destruct (Sequencer.wakeup t (w_seq w)) as [[s calls]|] eqn:E; cbn; [|constructor].
    apply Forall_fmap. eapply Forall_impl; [by eapply wakeup_calls|]. intros d Hd. unfold compose. cbn in *. lia.
  - case_decide; [|constructor]. destruct (hier_cycle _ _) as [p cbs].
    destruct (foldM _ _ cbs); cbn; repeat constructor; lia.
Qed.

(** A cycle's wakeups: the controllers once, the sequencer at most once. *)
Lemma other_wakeups_ok t now : ∀ l w,
  t ≤ now ≤ t + 1 → (∀ c τ, (c, τ) ∈ l → τ = now ∧ c ≠ CONTROLLERS) → state_ok t w →
  state_ok t (run_wakeups ruby_wakeup w l) ∧ answered w (run_wakeups ruby_wakeup w l).
Proof.
  induction l as [|[c τ] l IH]; intros w Hnow Hl Hw; [split; [done|apply answered_refl]|].
  destruct (Hl c τ) as [-> Hc]; [left|]. cbn [run_wakeups foldl].
  assert (H1 : state_ok t (ruby_wakeup w c now).1 ∧ answered w (ruby_wakeup w c now).1).
  { destruct (decide (c = SEQUENCER)) as [->|Hne]; [by apply sequencer_wakeup_ok|].
    unfold ruby_wakeup. rewrite !decide_False by done. split; [done|apply answered_refl]. }
  destruct H1 as [Hw1 Ha1]. destruct (IH (ruby_wakeup w c now).1) as [Hw2 Ha2]; [done| |done|].
  - intros c' τ' Hin. apply Hl. by right.
  - split; [done|]. by eapply answered_trans.
Qed.

Lemma cycle_wakeups_ok t l w :
  NoDup l → (CONTROLLERS, t + 1) ∈ l → (∀ c τ, (c, τ) ∈ l → τ = t + 1) → state_ok t w →
  state_ok (t + 1) (run_wakeups ruby_wakeup w l) ∧ answered w (run_wakeups ruby_wakeup w l).
Proof.
  intros Hnd Hin Hall Hw. apply list_elem_of_split in Hin as (l1 & l2 & ->).
  apply NoDup_app in Hnd as (_ & Hdis & [Hn2 _]%NoDup_cons).
  assert (H1 : ∀ c τ, (c, τ) ∈ l1 → τ = t + 1 ∧ c ≠ CONTROLLERS).
  { intros c τ Hc. assert (τ = t + 1) as -> by (apply (Hall c); apply elem_of_app; by left).
    split; [done|]. intros ->. apply (Hdis _ Hc). left. }
  assert (H2 : ∀ c τ, (c, τ) ∈ l2 → τ = t + 1 ∧ c ≠ CONTROLLERS).
  { intros c τ Hc. assert (τ = t + 1) as -> by (apply (Hall c); apply elem_of_app; right; by right).
    split; [done|]. by intros ->. }
  unfold run_wakeups. rewrite foldl_app. cbn [foldl].
  fold (run_wakeups ruby_wakeup w l1). set (w1 := run_wakeups ruby_wakeup w l1).
  destruct (other_wakeups_ok t (t + 1) l1 w ltac:(lia) H1 Hw) as [Hw1 Ha1].
  destruct (controllers_ok t w1 Hw1) as [Hw2 Ha2].
  destruct (other_wakeups_ok (t + 1) (t + 1) l2 _ ltac:(lia) H2 Hw2) as [Hw3 Ha3].
  split; [exact Hw3|]. eapply answered_trans; [exact Ha1|]. by eapply answered_trans.
Qed.

(** ** The laws *)

Lemma system_advance r :
  system_ok r →
  ∃ r', driver_advanceTime r = Ret r' ∧ system_ok r' ∧ getTime r' = getTime r + 1 ∧
    answered (rest r) (rest r').
Proof.
  intros (Hev & Hst & Hin). unfold driver_advanceTime.
  destruct (events_advance_ok ruby_wakeup r ruby_wakeup_later Hev)
    as (r' & woken & -> & Hev' & Ht' & Hnd & Hwk & _ & Hrest & Hcall).
  cbn [mbind outcome_bind]. exists r'. split; [done|].
  assert (Hc : (CONTROLLERS, getTime r + 1) ∈ woken) by (by apply Hwk).
  destruct (cycle_wakeups_ok (getTime r) woken (rest r)) as [Hst' Ha];
    [done|done|intros c τ; by rewrite Hwk; intros [-> _]|done|].
  rewrite <- Hrest in Hst', Ha. split; [|done]. split; [done|]. rewrite Ht'. split; [done|].
  apply (Hcall CONTROLLERS); [|done]. intros w. unfold ruby_wakeup.
  rewrite decide_False, decide_True by done. destruct (hier_cycle _ _) as [p cbs].
  destruct (foldM _ _ cbs); left.
Qed.

Lemma driver_msg_ok now addr req_size wr isPriv s :
  length (m_readRequestTable s) = 1%nat → 0 ≤ req_size < 2 ^ 31 → request_ok (driver_msg now addr req_size 0 wr isPriv) s.
Proof. intros Hl Hn. split; [cbn; lia|]. cbn. rewrite i32_id by lia. destruct wr; cbn; split; auto; lia. Qed.

Lemma schedule_calls_ok calls : ∀ r,
  events_ok r → Forall (λ d, 0 < d) calls →
  ∃ r', foldM (λ r d, scheduleEvent (Some SEQUENCER) d r) r calls = Ret r' ∧ events_ok r' ∧
    kept r r' ∧ rest r' = rest r.
Proof.
  induction calls as [|d calls IH]; intros r Hev Hc; [exists r; split; [done|]; split; [done|]; split; [apply kept_refl|done]|].
  apply Forall_cons in Hc as [Hd Hc].
  destruct (schedule_ok [] r SEQUENCER (d + getTime r) Hev) as (r1 & E & Hev1 & Hk1 & _); [lia|].
  destruct (IH r1 Hev1 Hc) as (r2 & E2 & Hev2 & Hk2 & Hr2).
  cbn [foldM].
  change (scheduleEvent (Some SEQUENCER) d r) with (scheduleEventAbsolute (Some SEQUENCER) (d + getTime r) r).
  rewrite E. cbn [mbind outcome_bind]. exists r2.
  split; [done|]. split; [done|]. split; [by eapply kept_trans|]. rewrite Hr2. by eapply schedule_rest.
Qed.

Lemma system_send r addr req_size wr isPriv wr' :
  system_ok r → 0 ≤ req_size < 2 ^ 31 → driver_isReady addr req_size 0 wr' r = true →
  ∃ r', driver_makeRequest addr req_size 0 wr isPriv r = Ret r' ∧ system_ok r' ∧
    getTime r' = getTime r ∧ m_callback_queue (rest r') = m_callback_queue (rest r) ∧
    waiting (rest r') ≡ₚ addr :: waiting (rest r).
Proof.
  intros (Hev & [Hs Hh Hk Hth Hd Hf] & Hin) Hn Hrdy. unfold driver_makeRequest, makeRequest, doRequest.
  set (msg := driver_msg (getTime r) addr req_size 0 wr isPriv).
  assert (Hrdy' : Sequencer.isReady msg (w_seq (rest r)) = true) by exact Hrdy.
  destruct (hier_try (getTime r) (w_hier (rest r)) (line (getAddress msg)) (getType msg) Hh) as [Hh1 Hp1].
  destruct (tryCacheAccess _ _ _) as [hit p1]. cbn [snd] in Hh1, Hp1.
  assert (Efast : hit && (bool_decide (getType msg = IFETCH) || negb REMOVE_SINGLE_CYCLE_DCACHE_FAST_PATH) = false).
  { rewrite bool_decide_eq_false_2 by (by destruct wr). by destruct hit. }
  rewrite Efast. unfold issueRequest.
  destruct (insertRequest_ok (w_seq (rest r)) msg Hs) as (s & -> & Hs' & Hreq & _ & Hth');
    [by apply driver_msg_ok|done|].
  destruct (isReady_lines _ msg Hs Hrdy') as [_ Hline].
  cbn [mbind outcome_bind assertb Z.ltb]. set (calls := if m_deadlock_check_scheduled _ then _ else _).
  set (m2 := with_address (line (getAddress msg)) msg).
  destruct (hier_enqueue (getTime r) p1 m2 Hh1) as [Hh2 Hp2]; [done| |].
  { rewrite Hp1, <- Hk. rewrite <- list_fmap_compose. exact Hline. }
  change (SEQUENCER_TO_CONTROLLER_LATENCY) with 4 in *. change (assertb (0 <? 4)) with (Ret tt).
  cbn [mbind outcome_bind].
  set (r0 := mkWorld _ _ _).
  destruct (schedule_calls_ok calls r0) as (r' & -> & Hev' & Hkept & Hrest).
  { by destruct Hev; split. }
  { unfold calls. destruct (m_deadlock_check_scheduled _); repeat constructor. }
  exists r'. split; [done|].
  assert (Hwait : waiting (rest r') ≡ₚ addr :: waiting (rest r)).
  { rewrite Hrest. unfold waiting. cbn. rewrite (omap_Permutation answer_of _ (msg :: requests (w_seq (rest r)))) by done.
    done. }
  assert (Ht : getTime r' = getTime r) by (by rewrite (kept_time _ _ Hkept)).
  split; [|split; [done|split; [rewrite Hrest; apply app_nil_r|done]]].
  split; [done|]. rewrite Ht. split; [|by apply (kept_nodes _ _ Hkept)].
  rewrite Hrest. split; cbn; try done; [|by rewrite Hth'|].
  2: { intros x. rewrite Hreq. intros [->|Hx]%elem_of_cons; [done|by apply Hd]. }
  rewrite Hreq, Hp2, Hp1, <- Hk. done.
Qed.
End laws.

Lemma system_pop `{HierarchyLaws P} (r : world (ruby_state P)) a q :
  system_ok r → m_callback_queue (rest r) = a :: q →
  ∃ r', driver_RubyQueuePop 0 r = Ret r' ∧ system_ok r' ∧
    m_callback_queue (rest r') = q ∧ waiting (rest r') = waiting (rest r).
Proof.
  intros (Hev & Hst & Hin) E. unfold driver_RubyQueuePop. cbn [Nat.ltb Nat.leb assertb mbind outcome_bind].
  rewrite E. eexists. split; [done|]. split; [|done]. split; [by destruct Hev; split|].
  split; [by destruct Hst; split|done].
Qed.

(** The system discharges the interface of the front end. *)
#[export] Program Instance ruby_laws `{HierarchyLaws P} : RubyLaws (world (ruby_state P)) := {|
  ruby_ok := system_ok;
  answers r := m_callback_queue (rest r);
  inflight r := waiting (rest r)
|}.
Next Obligation. done. Qed.
Next Obligation. intros P ?? r a l E. cbn in *. unfold driver_RubyQueueTop. cbn. by rewrite E. Qed.
Next Obligation.
  intros P ?? r a l Hok E. cbn in E. cbn -[driver_RubyQueuePop].
  by destruct (system_pop r a l Hok E) as (r' & -> & Hok' & Hq & Hw).
Qed.
Next Obligation.
  intros P ?? r Hok. cbn. destruct (system_advance r Hok) as (r' & -> & Hok' & _ & Ha).
  split; [done|apply Ha].
Qed.
Next Obligation.
  intros P ?? r a n w w' Hok Hn Hrdy. cbn -[Z.pow] in *.
  destruct (system_send r a n w false w' Hok Hn Hrdy) as (r' & -> & Hok' & _ & Hq & Hw). cbn.
  split; [done|]. exists []. by rewrite app_nil_r.
Qed.

(** ** The system answers

    A request is called back before the deadlock threshold, counted from its
    time. *)
Section answers.
Context `{HierarchyLaws P}.
Implicit Types (r : world (ruby_state P)).

Definition left_cycles (now : Z) (x : CacheMsg) : nat :=
  Z.to_nat (msg_time x + g_DEADLOCK_THRESHOLD - 1 - now).

Definition cycles_due r : nat := max_list (left_cycles (getTime r) <$> requests (w_seq (rest r))).

Lemma cycles_due_le r n :
  (∀ x, x ∈ requests (w_seq (rest r)) → (left_cycles (getTime r) x ≤ n)%nat) → (cycles_due r ≤ n)%nat.
Proof.
  unfold cycles_due. intros Hx. induction (requests _) as [|x l IH]; [apply Nat.le_0_l|].
  cbn [fmap list_fmap max_list foldr]. apply Nat.max_lub; [apply Hx; left|]. apply IH.
  intros y Hy. apply Hx. by right.
Qed.

Lemma left_cycles_due r x :
  x ∈ requests (w_seq (rest r)) → (left_cycles (getTime r) x ≤ cycles_due r)%nat.
Proof. intros Hx. apply max_list_elem_of_le, list_elem_of_fmap. by exists x. Qed.

Lemma left_cycles_range r x :
  system_ok r → x ∈ requests (w_seq (rest r)) →
  (0 < left_cycles (getTime r) x < Z.to_nat g_DEADLOCK_THRESHOLD)%nat.
Proof.
  intros (_ & [_ Hh Hk _ _ _] & _) Hx.
  assert (Hin : key_of x ∈ pending (w_hier (rest r))) by (rewrite <- Hk; by apply list_elem_of_fmap_2).
  destruct (hier_fresh _ _ _ Hh Hin) as [H1' H2']. cbn in H1', H2'.
  unfold left_cycles, g_DEADLOCK_THRESHOLD in *. lia.
Qed.

Lemma waiting_requests r : system_ok r → waiting (rest r) = getAddress <$> requests (w_seq (rest r)).
Proof.
  intros (_ & [_ _ _ _ Hd _] & _). unfold waiting. induction (requests _) as [|x l IH]; [done|].
  cbn. unfold answer_of at 1. rewrite bool_decide_eq_false_2 by (by rewrite Hd by left).
  f_equal. apply IH. intros y Hy. apply Hd. by right.
Qed.
End answers.

(** [isReady] in terms of what is outstanding. *)
Lemma driver_isReady_spec `{HierarchyLaws P} addr req_size wr (r : world (ruby_state P)) :
  system_ok r →
  driver_isReady addr req_size 0 wr r = true ↔
  (length (requests (w_seq (rest r))) < 16)%nat ∧ line addr ∉ lineof <$> requests (w_seq (rest r)).
Proof.
  intros (_ & [Hs _ _ _ _ _] & _). pose proof (seq_count _ Hs) as Hc. split.
  - intros Hrdy. destruct (isReady_lines _ _ Hs Hrdy) as [Hlt Hline].
    unfold g_SEQUENCER_OUTSTANDING_REQUESTS in Hlt. split; [lia|exact Hline].
  - intros [Hlt Hline]. unfold driver_isReady, Sequencer.isReady.
    rewrite (proj2 (Z.leb_gt _ _)) by (unfold g_SEQUENCER_OUTSTANDING_REQUESTS; lia).
    cbn [negb andb getAddress driver_msg]. apply negb_true_iff, orb_false_iff.
    assert (Hno : ∀ w, existsb (map_exist (line addr)) (tables w (w_seq (rest r))) = false); [|split; [apply (Hno true)|apply (Hno false)]].
    intros w. apply not_true_iff_false. rewrite existsb_exists. intros (m & Hm & He).
    apply list_elem_of_In, list_elem_of_lookup in Hm as [t Ht].
    apply bool_decide_eq_true in He as [x Hx]. destruct (so_entry _ w Hs t m _ x Ht Hx) as (E & _).
    apply Hline. apply list_elem_of_fmap. exists x. split; [done|].
    apply elem_requests. by exists w, t, m, (line addr).
Qed.

#[export] Program Instance ruby_live `{HierarchyLaws P} : RubyLive (world (ruby_state P)) := {|
  live_bound := Z.to_nat g_DEADLOCK_THRESHOLD;
  due := cycles_due
|}.
Next Obligation.
  intros P ?? r Hok. cbn in Hok. cbn [inflight ruby_laws]. rewrite waiting_requests, length_fmap by done.
  apply cycles_due_le. intros x Hx. destruct (left_cycles_range r x Hok Hx) as [_ Hlt].
  destruct (requests (w_seq (rest r))) as [|y l]; [by apply not_elem_of_nil in Hx|]. cbn [length].
  etrans; [by apply Nat.lt_le_incl|]. rewrite <- (Nat.mul_1_r (Z.to_nat _)) at 1.
  apply Nat.mul_le_mono_l, (le_n_S 0), Nat.le_0_l.
Qed.
Next Obligation.
  intros P ?? r Hok. cbn. destruct (system_advance r Hok) as (r' & -> & Hok' & Ht & _ & Hsub).
  cbn. apply cycles_due_le. intros x Hx. pose proof (left_cycles_due r x (Hsub x Hx)).
  unfold left_cycles in *. rewrite Ht. lia.
Qed.
Next Obligation.
  intros P ?? r a l Hok E. cbn in E. cbn -[driver_RubyQueuePop]. destruct (system_pop r a l Hok E) as (r' & Hr' & _).
  rewrite Hr'. cbn [or_fault]. unfold driver_RubyQueuePop in Hr'. cbn in Hr'. rewrite E in Hr'. injection Hr' as <-. done.
Qed.
Next Obligation.
  intros P ?? r Hok Hz. cbn. rewrite waiting_requests by done.
  destruct (requests (w_seq (rest r))) as [|x l] eqn:E; [done|].
  assert (Hx : x ∈ requests (w_seq (rest r))) by (rewrite E; left).
  pose proof (left_cycles_range r x Hok Hx). pose proof (left_cycles_due r x Hx). cbn in Hz. lia.
Qed.
Next Obligation.
  intros P ?? r a n w Hok Hi _. cbn. cbn in Hi. rewrite waiting_requests in Hi by done.
  apply fmap_nil_inv in Hi. apply driver_isReady_spec; [done|]. rewrite Hi.
  split; [cbn; lia|apply not_elem_of_nil].
Qed.

(** [C7] The memory system implements the port.  While the system is in order:
    a cycle never faults (no assertion, no deadlock report) and moves answers
    of outstanding requests to the callback queue, losing and inventing none;
    [isReady] says yes exactly when fewer than 16 requests are outstanding and
    none is for the line; then a request whose size is an [int] is accepted and
    becomes outstanding;
    the queue operations read and remove the oldest answer. *)
Theorem driver_implements_port `{HierarchyLaws P} (r : world (ruby_state P)) :
  system_ok r →
  (∃ r', driver_advanceTime r = Ret r' ∧ system_ok r' ∧ getTime r' = getTime r + 1 ∧
    answered (rest r) (rest r')) ∧
  (∀ addr req_size wr, driver_isReady addr req_size 0 wr r = true ↔
    (length (requests (w_seq (rest r))) < 16)%nat ∧ line addr ∉ lineof <$> requests (w_seq (rest r))) ∧
  (∀ addr req_size wr isPriv wr', 0 ≤ req_size < 2 ^ 31 → driver_isReady addr req_size 0 wr' r = true →
    ∃ r', driver_makeRequest addr req_size 0 wr isPriv r = Ret r' ∧ system_ok r' ∧
      m_callback_queue (rest r') = m_callback_queue (rest r) ∧
      waiting (rest r') ≡ₚ addr :: waiting (rest r)) ∧
  (∀ a q, m_callback_queue (rest r) = a :: q →
    driver_RubyQueueEmpty 0 r = Ret false ∧ driver_RubyQueueTop 0 r = Ret a ∧
    ∃ r', driver_RubyQueuePop 0 r = Ret r' ∧ system_ok r' ∧
      m_callback_queue (rest r') = q ∧ waiting (rest r') = waiting (rest r)).
Proof.
  intros Hok. split; [by apply system_advance|]. split; [intros; by apply driver_isReady_spec|]. split.
  - intros addr n wr pr wr' Hn Hrdy. destruct (system_send r addr n wr pr wr' Hok Hn Hrdy) as (r' & ? & ? & _ & ? & ?).
    by exists r'.
  - intros a q Hq. unfold driver_RubyQueueEmpty, driver_RubyQueueTop.
    cbn [Nat.ltb Nat.leb assertb mbind outcome_bind]. rewrite Hq. split; [done|]. split; [done|].
    by apply (system_pop r a q).
Qed.

(** ** A hierarchy of fixed latency

    Every request is called back [L] cycles after it was made; the caches
    always miss. *)
Definition L : Z := 20.
Record memory_chip := mkChip { chip_pending : list (bool * Z * Z) }.

#[export] Instance chip_hierarchy : CacheHierarchy memory_chip := {|
  tryCacheAccess p _ _ := (false, p);
  touch p _ _ := p;
  mandatory_enqueue p msg _ now := mkChip ((is_write (getType msg), getAddress msg, now) :: chip_pending p);
  hier_cycle p now :=
    (mkChip (filter (λ e, now - e.2 < L) (chip_pending p)),
     fst <$> filter (λ e, ¬ now - e.2 < L) (chip_pending p))
|}.

Lemma filter_split {A} (Q : A → Prop) `{∀ x, Decision (Q x)} (l : list A) :
  l ≡ₚ filter (λ x, ¬ Q x) l ++ filter Q l.
Proof.
  induction l as [|x l IH]; [done|]. rewrite !filter_cons.
  destruct (decide (Q x)) as [Hx|Hx];
    [rewrite decide_False by (by intros ?)|rewrite decide_True by done]; cbn; [|by rewrite <- IH].
  rewrite <- Permutation_middle. by rewrite <- IH.
Qed.

#[export] Program Instance chip_laws : HierarchyLaws memory_chip := {|
  hier_ok t p := ∀ e, e ∈ chip_pending p → e.2 ≤ t ∧ t - e.2 < L;
  pending := chip_pending
|}.
Next Obligation. done. Qed.
Next Obligation. done. Qed.
Next Obligation.
  intros t p msg Hp Hm Hl. split; [|done]. cbn. intros e [->|He]%elem_of_cons; [cbn; unfold L; lia|auto].
Qed.
Next Obligation. intros t p e Hp He. destruct (Hp e He). unfold L, g_DEADLOCK_THRESHOLD in *. lia. Qed.
Next Obligation.
  intros t p Hp. eexists. split; [reflexivity|]. split; [|cbn; apply filter_split].
  intros e [He Hin]%list_elem_of_filter. destruct (Hp e Hin). lia.
Qed.

(** The system after its construction. *)
Definition ruby_init : world (ruby_state memory_chip) :=
  match scheduleEventAbsolute (Some CONTROLLERS) 2
          (mkWorld event_queue_init (λ _, new_consumer)
             (mkRuby (new_Sequencer 1) [] (mkChip []) None)) with
  | Ret r => r
  | Raise _ => mkWorld event_queue_init (λ _, new_consumer) (mkRuby (new_Sequencer 1) [] (mkChip []) None)
  end.

Lemma new_Sequencer_ok n : seq_ok (new_Sequencer n).
Proof.
  assert (E : requests_of (replicate n ∅) = []).
  { unfold requests_of. induction n as [|n IH]; [done|]. cbn. rewrite map_to_list_empty. exact IH. }
  assert (He : ∀ w, entry_ok w (replicate n ∅)).
  { intros w t m k r [-> _]%lookup_replicate Hk. by rewrite lookup_empty in Hk. }
  assert (Hreq : requests (new_Sequencer n) = []) by (unfold requests; cbn; by rewrite E).
  split; cbn; rewrite ?length_replicate; try done.
  - by rewrite total_requests, Hreq.
  - rewrite Hreq. constructor.
Qed.

Lemma ruby_init_ok : system_ok ruby_init.
Proof.
  destruct (schedule_ok [] _ CONTROLLERS 2 (event_queue_init_ok (mkRuby (new_Sequencer 1) [] (mkChip []) None)))
    as (s & E & Hev & Hk & Hin & _); [done|].
  assert (Hs : ruby_init = s) by (unfold ruby_init; by rewrite E).
  rewrite Hs. split; [done|]. rewrite (kept_time _ _ Hk). split; [|done].
  rewrite (schedule_rest _ _ _ _ E). split; [apply new_Sequencer_ok|by intros e ?%not_elem_of_nil|done|done| |done].
  by intros x ?%not_elem_of_nil.
Qed.

Definition ex_system : world (ruby_state memory_chip) :=
  send_request (send_request ruby_init 192 64 false) 256 64 true.

Lemma driver_implements_port_witness :
  system_ok ruby_init ∧
  isReady ex_system 192 64 true = false ∧
  m_callback_queue (rest (Nat.iter 19 advance_time ex_system)) = [] ∧
  m_callback_queue (rest (Nat.iter 20 advance_time ex_system)) = [256; 192] ∧
  w_fault (rest (Nat.iter 20 advance_time ex_system)) = None ∧
  ∃ r', driver_advanceTime ruby_init = Ret r' ∧ system_ok r' ∧ getTime r' = getTime ruby_init + 1 ∧
    answered (rest ruby_init) (rest r').
Proof.
  split; [exact ruby_init_ok|]. split; [vm_compute; reflexivity|]. split; [vm_compute; reflexivity|].
  split; [vm_compute; reflexivity|]. split; [vm_compute; reflexivity|].
  exact (proj1 (driver_implements_port ruby_init ruby_init_ok)).
Defined.
