(* ===== verification/Core.v ===== *)
(** * The core

    [Core.hpp], [Core.cpp]: the chains waiting to run, the dependency table,
    the lanes and their pre-scheduling buffers, and the cycle that ties lanes,
    memory and scheduler together.  The shared queues of the lanes ([globals])
    and the memory system (a [RubyPort]) are threaded next to the core.  The
    text written to [output/lane.out] and to the standard output is left
    out. *)

From S2P Require Import Prelude OrdMap ChainDeps Levels Graph Chain Lane Memory.
From stdpp Require Import gmap.
From coqutil Require Import Datatypes.RecordSettersUsingExistingGetters.
Global Arguments const {E} newValue _ /.
Open Scope Z_scope.

Definition MAX_NUM_CHAIN : nat := 700.
Definition LANE_DEFAULT_SIZE : Z := 300.

Record Core := mkCore {
  instruction_llvm : ordmap string Z;
  num_iter : Z;
  num_lanes : nat;
  m_graph : chainInfo;
  core_parameter : ordmap string Z;
  input_chain : list Chain;
  depen_table : gmap (nat * nat) Z;
  lane_pre_schedule_size : list Z;
  lane_pre_schedule : list (list nat);
  stack_sche_chain : list nat;
  m_memory : Memory;
  m_lanes : list Lane;
  chaintoLane : ordmap nat nat;
  num_chains : nat;
  cycle_cnt : Z;
  mem_req_map : ordmap nat Z;
  external_com : Z;
  internal_com : Z;
  core_free : Z;
  core_idle : Z;
  un_dependencies : ordmap nat (list nat)
}.

(** The constructor, given the tables read from [def/]. *)
Definition new_Core (n : nat) (params llvm lane_params : ordmap string Z) (g : chainInfo)
    : outcome Core :=
  mode ← (if decide (n = O) then Ret 0 else deref (mfind "MEMORY_MODE"%string params));
  Ret (mkCore llvm 0 n g params [] ∅ (replicate MAX_NUM_CHAIN 0) (replicate n []) []
    new_Memory ((λ i, new_Lane i mode LANE_DEFAULT_SIZE lane_params) <$> seq 0 n)
    [] MAX_NUM_CHAIN 0 [] 0 0 0 0 []).

(** ** The dependency table: a 700 x 700 array, zero where nothing was written *)

Definition depen_get (t : gmap (nat * nat) Z) (i j : nat) : outcome Z :=
  if bool_decide (i < MAX_NUM_CHAIN)%nat && bool_decide (j < MAX_NUM_CHAIN)%nat
  then Ret (default 0 (t !! (i, j))) else Raise OutOfBounds.

Definition depen_set (i j : nat) (v : Z) (t : gmap (nat * nat) Z)
    : outcome (gmap (nat * nat) Z) :=
  if bool_decide (i < MAX_NUM_CHAIN)%nat && bool_decide (j < MAX_NUM_CHAIN)%nat
  then Ret (<[(i, j) := v]> t) else Raise OutOfBounds.

Definition upd_idx {A} (i : nat) (x : A) (l : list A) : outcome (list A) :=
  if bool_decide (i < length l)%nat then Ret (<[i := x]> l) else Raise OutOfBounds.

(** Index of the first minimum of the first [limit] entries. *)
Definition findMinimum (arr : list Z) (limit : nat) : outcome nat :=
  a0 ← arr.[0%nat]!;
  '(_, index) ← foldM (λ '(min, index) i,
      a ← arr.[i]!;
      Ret (if a <? min then (a, i) else (min, index))) (a0, 0%nat) (seq 1 (limit - 1));
  Ret index.

(** ** Building the chains *)

Section build.
Variable opcode : nat → string.          (* [G[ins].opcode] *)
Variable llvm : ordmap string Z.

(** One instruction of chain [i]; [node_map[ins]] is 0 for an unknown node. *)
Definition buildNode (i : nat) (node_map : ordmap nat Z) (ins : nat) : outcome Node :=
  lat ← deref (mfind (opcode ins) llvm);
  Ret (mkNode i (u32 (default 0 (mfind ins node_map))) (u32 (Z.of_nat ins))
         (u32 (Z.of_nat ins)) (opcode ins) lat).

Definition buildChain (un_deps rev_deps : ordmap nat (list nat)) (node_map : ordmap nat Z)
    (i : nat) (c : list nat) : outcome Chain :=
  ch ← foldM (λ ch ins,
      n ← buildNode i node_map ins;
      let ch := push_ins n ({ ch with chain_id := i }) in
      Ret (if bool_decide (opcode ins = "Load"%string) || bool_decide (opcode ins = "Store"%string)
           then { ch with ch_mem := true } else ch)) (new_Chain (Z.of_nat i)) c;
  let ch := match mfind i rev_deps with
            | Some s => { ch with Chain.live_in := s;
                              num_dependencies := u32 (Z.of_nat (length s)) }
            | None => ch
            end in
  Ret match mfind i un_deps with
      | Some s => { ch with Chain.live_out := s }
      | None => ch
      end.

(** The loop numbers the chains from 0 and appends them. *)
Fixpoint buildChains_from (un_deps rev_deps : ordmap nat (list nat)) (node_map : ordmap nat Z)
    (i : nat) (decom : list (list nat)) : outcome (list Chain) :=
  match decom with
  | [] => Ret []
  | c :: decom =>
      ch ← buildChain un_deps rev_deps node_map i c;
      chs ← buildChains_from un_deps rev_deps node_map (S i) decom;
      Ret (ch :: chs)
  end.
End build.

Definition buildChains (opcode : nat → string) (decom : list (list nat))
    (un_deps rev_deps : ordmap nat (list nat)) (node_map : ordmap nat Z) (c : Core)
    : outcome Core :=
  chs ← buildChains_from opcode (instruction_llvm c) un_deps rev_deps node_map 0 decom;
  let chs := input_chain c ++ chs in
  Ret ({ c with input_chain := chs; un_dependencies := un_deps; num_chains := length chs }).

Definition is_finish (c : Core) : bool :=
  bool_decide (input_chain c = []) && forallb Lane.is_free (m_lanes c).

Definition initialize_depen_table (c : Core) : outcome Core :=
  t ← foldM (λ t '(k, s), foldM (λ t ch_id, depen_set ch_id k 1 t) t s)
        (depen_table c) (un_dependencies c);
  Ret ({ c with depen_table := t }).

(** ** Pre-scheduling *)

(** [std::find_if] on the chain id. *)
Definition find_input (id : nat) (chs : list Chain) : option Chain :=
  snd <$> list_find (λ ch, chain_id ch = id) chs.

(** Index of the first lane buffer holding the chain. *)
Definition lane_of (id : nat) (buffs : list (list nat)) : option nat :=
  find_index (λ b, bool_decide (id ∈ b)) buffs.

(** Put chain [ch] at the end of the buffer of lane [i]. *)
Definition schedule_on (i ch : nat) (len : nat) (pre : list (list nat)) (sizes : list Z)
    : outcome (list (list nat) * list Z) :=
  b ← pre.[i]!;
  pre ← upd_idx i (b ++ [ch]) pre;
  s ← sizes.[i]!;
  sizes ← upd_idx i (u32 (s + Z.of_nat len)) sizes;
  Ret (pre, sizes).

(** Chains grouped by level, the levels being converted to unsigned. *)
Definition chain_map_level (g : list chainGraph) : ordmap Z (list nat) :=
  foldl (λ m ch, malter (λ o, default [] o ++ [chainId ch]) (u32 (level ch)) m) [] g.

(** Edges that stay on a lane and edges that cross; a chain that is on no
    lane counts as on a lane of its own. *)
Definition count_com (nlanes : nat) (pre : list (list nat)) (deps : list chainDependency)
    : Z * Z :=
  foldl (λ '(int, ext) dep,
      let l_source := default (nlanes + 1)%nat (lane_of (source dep) pre) in
      let l_target := default (nlanes + 2)%nat (lane_of (target dep) pre) in
      if (l_source =? l_target)%nat then (u32 (int + 1), ext) else (int, u32 (ext + 1)))
    (0, 0) deps.

(** The list-scheduling loop of [preschedule]. *)
Definition preschedule_loop (nl : nat) (input : list Chain) (stack : list nat)
    (st : list (list nat) * list Z) : outcome (list (list nat) * list Z) :=
  foldM (λ '(pre, sizes) sch_ch,
      match find_input sch_ch input with
      | None => Raise AssertFailed
      | Some ch =>
          lane_index ← findMinimum sizes nl;
          schedule_on lane_index sch_ch (length (instruction_list ch)) pre sizes
      end) st stack.

Definition preschedule (c : Core) : outcome Core :=
  _ ← assertb (negb (bool_decide (chain_graph (m_graph c) = [])));
  let stack := match stack_sche_chain c with
               | [] => concat (chain_map_level (chain_graph (m_graph c))).*2
               | s => s
               end in
  '(pre, sizes) ← preschedule_loop (num_lanes c) (input_chain c) stack
                    (lane_pre_schedule c, lane_pre_schedule_size c);
  let '(int, ext) := count_com (length (m_lanes c)) pre (dependencies (m_graph c)) in
  Ret ({ c with stack_sche_chain := stack; lane_pre_schedule := pre;
            lane_pre_schedule_size := sizes; internal_com := int; external_com := ext }).

(** Counting in [block_preschedule]: [l_source] and [l_target] are not
    initialised, so the lanes before the one that holds a chain compare the
    indeterminate values [junk]; every lane is counted. *)
Definition count_com_block (junk : nat * nat) (pre : list (list nat))
    (deps : list chainDependency) : Z * Z :=
  foldl (λ st dep,
      let '(int, ext, _, _) :=
        foldl (λ '(int, ext, (l_source, l_target), i) lane,
            let l_source := if bool_decide (source dep ∈ lane) then i else l_source in
            let l_target := if bool_decide (target dep ∈ lane) then i else l_target in
            if (l_source =? l_target)%nat
            then (u32 (int + 1), ext, (l_source, l_target), S i)
            else (int, u32 (ext + 1), (l_source, l_target), S i)) (st, junk, 0%nat) pre in
      (int, ext))
    (0, 0) deps.

Definition block_preschedule (junk : nat * nat) (c : Core) : outcome Core :=
  _ ← assertb (negb (bool_decide (chain_graph (m_graph c) = [])));
  '(c, _) ← foldM (λ '(c, i) bl,
      match length (m_lanes c) with
      | O => Raise DivByZero
      | S _ =>
          let index := Nat.modulo i (length (m_lanes c)) in
          '(pre, sizes) ← foldM (λ '(pre, sizes) ch,
              match find_input ch (input_chain c) with
              | None => Raise AssertFailed
              | Some chain => schedule_on index ch (length (instruction_list chain)) pre sizes
              end) (lane_pre_schedule c, lane_pre_schedule_size c) (blk_chains bl);
          let '(int, ext) := count_com_block junk pre (dependencies (m_graph c)) in
          Ret ({ c with lane_pre_schedule := pre; lane_pre_schedule_size := sizes;
                    internal_com := int; external_com := ext }, S i)
      end) (c, 0%nat) (block_chain (m_graph c));
  Ret c.

Definition initialize (junk : nat * nat) (c : Core) : outcome Core :=
  c ← initialize_depen_table c;
  mode ← deref (mfind "SCHEDULER"%string (core_parameter c));
  if mode =? 0 then preschedule c else block_preschedule junk c.

(** ** The cycle *)

Definition run_lanes (lanes : list Lane) (g : globals) : outcome (list Lane * globals) :=
  foldM (λ '(ls, g) l, '(l, g) ← run l g; Ret (ls ++ [l], g)) ([], g) lanes.

Section cycle.
Context `{RubyPort R}.

Definition run_one_cycle_core (c : Core) (g : globals) (r : R) : outcome (Core * globals * R) :=
  '(ls, g) ← run_lanes (m_lanes c) g;
  Ret ({ c with m_lanes := ls }, g, advance_time r).

(** The code takes a reference to the front of the queue, pops it and reads the
    popped entry through the reference (Core.cpp:340; the same in [updateChains],
    Core.cpp:491), which C++ does not define; the definitions read the value the
    entry had. *)
Definition send_memory_req (c : Core) (g : globals) : outcome (Core * globals) :=
  c ← foldM (λ c '(l_id, n_id),
        m ← send_req (num_iter c) n_id (m_memory c);
        Ret ({ c with mem_req_map := mset l_id n_id (mem_req_map c); m_memory := m }))
      c (mem_req_queue g);
  Ret (c, mkGlobals (finished_chains g) []).

(** The first entry of the map with that node; the entries are never
    removed. *)
Definition find_req (n : Z) (m : ordmap nat Z) : option nat :=
  fst ∘ snd <$> list_find (λ e, e.2 = n) m.

Definition update_mem_exe (c : Core) (r : R) : outcome (Core * R) :=
  '(nodes, m, r) ← recv_resp mshr_fuel (m_memory c) r;
  lanes ← foldM (λ ls n,
      i ← deref (find_req n (mem_req_map c));
      l ← ls.[i]!;
      upd_idx i (setExeCounter 0 l) ls) (m_lanes c) nodes;
  Ret ({ c with m_memory := m; m_lanes := lanes }, r).

(** The entry of [finished_chains] is an [int32_t], used as a map key and as
    an array index; it is read, as above, before it is popped. *)
Definition updateChains (c : Core) (g : globals) : outcome (Core * globals) :=
  c ← foldM (λ c temp_c,
        let key := Z.to_nat (u32 temp_c) in
        let ch_num := default [] (mfind key (un_dependencies c)) in
        t ← foldM (λ t ch_free,
              if temp_c <? 0 then Raise OutOfBounds else depen_set ch_free key 0 t)
              (depen_table c) ch_num;
        Ret ({ c with un_dependencies := malter (default []) key (un_dependencies c);
                  depen_table := t }))
      c (finished_chains g);
  Ret (c, mkGlobals [] (mem_req_queue g)).

(** Sum of a row of the dependency table over the existing chains. *)
Definition row_status (c : Core) (ch : nat) : outcome Z :=
  foldM (λ s j, d ← depen_get (depen_table c) ch j; Ret (u32 (s + d))) 0 (seq 0 (num_chains c)).

(** First chain of a buffer whose row is zero. *)
Fixpoint first_free (c : Core) (buff : list nat) : outcome (option nat) :=
  match buff with
  | [] => Ret None
  | ch :: buff =>
      s ← row_status c ch;
      if s =? 0 then Ret (Some ch) else first_free c buff
  end.

(** [std::find] and [erase]: the first occurrence. *)
Fixpoint erase_first {A} (p : A → bool) (l : list A) : list A :=
  match l with
  | [] => []
  | x :: l => if p x then l else x :: erase_first p l
  end.

(** Load chain [ch] on lane [i]. *)
Definition load_chain (i ch : nat) (buff : list nat) (c : Core) : outcome Core :=
  _ ← assertb (bool_decide (ch ∈ buff));
  pre ← upd_idx i (erase_first (Nat.eqb ch) buff) (lane_pre_schedule c);
  chain ← deref (find_input ch (input_chain c));
  s ← (lane_pre_schedule_size c).[i]!;
  sizes ← upd_idx i (u32 (s - Z.of_nat (length (instruction_list chain))))
            (lane_pre_schedule_size c);
  l ← (m_lanes c).[i]!;
  '(l, _) ← LoadInstructionQueue (return_instruction chain) ch l;
  lanes ← upd_idx i l (m_lanes c);
  Ret ({ c with lane_pre_schedule := pre; lane_pre_schedule_size := sizes; m_lanes := lanes;
            chaintoLane := mset (chain_id chain) i (chaintoLane c);
            input_chain := erase_first (λ x, chain_id x =? ch)%nat (input_chain c) }).

(** One lane of the scheduler: a lane that gets a chain counts as idle in that
    cycle too. *)
Definition ooo_lane (c : Core) (i : nat) : outcome Core :=
  l ← (m_lanes c).[i]!;
  if negb (Lane.is_free l) then Ret c
  else
    sche_buff ← (lane_pre_schedule c).[i]!;
    match sche_buff with
    | [] => Ret ({ c with core_free := u32 (core_free c + 1) })
    | _ =>
        free ← first_free c sche_buff;
        lanes ← upd_idx i (with_stall (u32 (m_stall l + 1)) l) (m_lanes c);
        let c := { c with core_idle := u32 (core_idle c + 1); m_lanes := lanes } in
        match free with
        | None => Ret c
        | Some ch => load_chain i ch sche_buff c
        end
    end.

Definition ooo_scheduler (c : Core) : outcome Core :=
  foldM ooo_lane c (seq 0 (length (m_lanes c))).

Definition coreSetIter (n : Z) (c : Core) : Core := { c with num_iter := u32 n }.

Definition memoryInitialize (c : Core) : Core :=
  { c with m_memory := Memory.initialize (m_memory c) }.

(** The five steps of a cycle. *)
Definition cycle (c : Core) (g : globals) (r : R) : outcome (Core * globals * R) :=
  '(c, g, r) ← run_one_cycle_core c g r;
  '(c, g) ← send_memory_req c g;
  '(c, r) ← update_mem_exe c r;
  '(c, g) ← updateChains c g;
  c ← ooo_scheduler c;
  Ret (c, g, r).

Definition run_a_cycle (c : Core) (g : globals) (r : R) : outcome (bool * (Core * globals * R)) :=
  '(c, g, r) ← cycle c g r;
  Ret (is_finish c, (c, g, r)).

(** [run_all] after the table and the pre-schedule are set up. *)
Fixpoint run_loop (fuel : nat) (c : Core) (g : globals) (r : R) : outcome (Core * globals * R) :=
  if is_finish c then Ret (c, g, r)
  else match fuel with
       | O => Raise NoFuel
       | S fuel =>
           '(c, g, r) ← cycle ({ c with cycle_cnt := u32 (cycle_cnt c + 1) }) g r;
           run_loop fuel c g r
       end.

Definition run_all (fuel : nat) (junk : nat * nat) (c : Core) (g : globals) (r : R)
    : outcome (Core * globals * R) :=
  c ← initialize junk c;
  run_loop fuel ({ c with cycle_cnt := 0 }) g r.
End cycle.

(** The totals printed at the end: memory stalls and core stalls. *)
Definition finishCore (c : Core) : Z * Z :=
  foldl (λ '(m, s) l, (u32 (m + m_memory_stall l), u32 (s + m_stall l))) (0, 0) (m_lanes c).
