(* ===== verification/CoreSched.v ===== *)
(** * The two schedulers of the core

    Properties of [Core.v]'s static list scheduler ([preschedule]) and of its
    dynamic one ([ooo_scheduler]): the pre-schedule is a partition of the
    chains ordered by level and balanced; the dynamic scheduler never faults,
    keeps buffers and waiting chains in step, loads only chains with a zero
    dependency row, and makes progress on an acyclic chain graph. *)

From S2P Require Import Prelude OrdMap ChainDeps Levels Graph Chain Lane Memory Core.
From stdpp Require Import gmap.
From coqutil Require Import Datatypes.RecordSettersUsingExistingGetters.
Open Scope Z_scope.

(** ** Array accesses *)

Lemma upd_idx_ret {A} i (x : A) l : (i < length l)%nat → upd_idx i x l = Ret (<[i := x]> l).
Proof. intros Hi. unfold upd_idx. by rewrite bool_decide_eq_true_2. Qed.

Lemma find_input_Some ch chs c :
  find_input ch chs = Some c → c ∈ chs ∧ chain_id c = ch.
Proof.
  unfold find_input. intros ([j x] & E & [= <-])%fmap_Some.
  apply list_find_Some in E as (H1 & H2 & _). split; [|done]. by eapply list_elem_of_lookup_2.
Qed.

Lemma find_input_is_Some ch chs : ch ∈ map chain_id chs → is_Some (find_input ch chs).
Proof.
  intros (c & -> & Hc)%list_elem_of_fmap. unfold find_input. rewrite fmap_is_Some.
  eapply list_find_elem_of; [exact Hc|done].
Qed.

(** ** [findMinimum] *)

Lemma findMinimum_loop arr n s m idx :
  (idx < s)%nat → (s + n ≤ length arr)%nat → arr !! idx = Some m →
  (∀ j b, (j < s)%nat → arr !! j = Some b → m ≤ b) →
  ∃ m' idx', foldM (λ '(min, index) i,
      a ← arr.[i]!;
      Ret (if a <? min then (a, i) else (min, index))) (m, idx) (seq s n) = Ret (m', idx') ∧
    (idx' < s + n)%nat ∧ arr !! idx' = Some m' ∧
    ∀ j b, (j < s + n)%nat → arr !! j = Some b → m' ≤ b.
Proof.
  revert s m idx. induction n as [|n IH]; intros s m idx Hidx Hlen Hm Hmin.
  { exists m, idx. rewrite Nat.add_0_r. by cbn. }
  cbn [seq foldM].
  destruct (at_idx_lt arr s ltac:(lia)) as [a Ha]. rewrite Ha. apply at_idx_ret in Ha.
  cbn [mbind outcome_bind]. replace (s + S n)%nat with (S s + n)%nat by lia.
  destruct (a <? m) eqn:E; apply IH; try done; try lia.
  - intros j b Hj Hb. destruct (decide (j = s)) as [->|]; [simplify_eq; lia|].
    specialize (Hmin j b ltac:(lia) Hb). lia.
  - intros j b Hj Hb. destruct (decide (j = s)) as [->|]; [simplify_eq; lia|].
    apply (Hmin j b); [lia|done].
Qed.

Lemma findMinimum_spec arr limit :
  (0 < limit ≤ length arr)%nat →
  ∃ i m, findMinimum arr limit = Ret i ∧ (i < limit)%nat ∧ arr !! i = Some m ∧
    ∀ j b, (j < limit)%nat → arr !! j = Some b → m ≤ b.
Proof.
  intros Hl. unfold findMinimum. destruct (at_idx_lt arr 0 ltac:(lia)) as [a Ha]. rewrite Ha.
  apply at_idx_ret in Ha. cbn [mbind outcome_bind].
  destruct (findMinimum_loop arr (limit - 1) 1 a 0) as (m & i & -> & Hi & Hm & Hmin);
    [lia|lia|done| |].
  { intros j b Hj Hb. assert (j = 0%nat) as -> by lia. simplify_eq. lia. }
  cbn. exists i, m. split_and!; [done|lia|done|]. intros j b Hj. apply Hmin. lia.
Qed.

(** ** Levels *)

(** The grouping keeps every chain, keys in increasing order. *)
Lemma chain_map_level_inv g m :
  key_sorted m →
  let m' := foldl (λ m ch, malter (λ o, default [] o ++ [chainId ch]) (u32 (level ch)) m) m g in
  key_sorted m' ∧ concat m'.*2 ≡ₚ concat m.*2 ++ map chainId g ∧
  ∀ k ids id, (k, ids) ∈ m' → id ∈ ids →
    (∃ ids0, (k, ids0) ∈ m ∧ id ∈ ids0) ∨ ∃ ch, ch ∈ g ∧ chainId ch = id ∧ u32 (level ch) = k.
Proof.
  revert m. induction g as [|ch g IH]; intros m Hs; cbn.
  { rewrite app_nil_r. split_and!; [done|done|eauto]. }
  set (m1 := malter _ _ m). assert (key_sorted m1) as Hs1 by by apply key_sorted_alter.
  destruct (IH m1 Hs1) as (H1 & H2 & H3). split_and!; [done| |].
  - rewrite H2. unfold m1. rewrite malter_concat by done.
    rewrite <- app_assoc. cbn. done.
  - intros k ids id Hin Hid. destruct (H3 k ids id Hin Hid) as [(ids0 & Hin0 & Hid0)|(c & ? & ? & ?)].
    + apply mfind_Some in Hin0; [|done]. unfold m1 in Hin0. rewrite mfind_alter in Hin0.
      destruct (kcmp k (u32 (level ch))) eqn:E; [|left; exists ids0; split; [by apply mfind_elem|done]..].
      apply kcmp_eq in E as ->. injection Hin0 as <-.
      apply elem_of_app in Hid0 as [Hid0|Hid0].
      * left. destruct (mfind (u32 (level ch)) m) as [ids1|] eqn:Ef; [|by apply not_elem_of_nil in Hid0].
        exists ids1. split; [by apply mfind_elem|done].
      * right. apply list_elem_of_singleton in Hid0 as ->. exists ch. split_and!; [left|done|done].
    + right. exists c. split_and!; [by right|done|done].
Qed.

(** The scheduling stack of [preschedule]. *)
Definition sched_stack (g : list chainGraph) : list nat := concat (chain_map_level g).*2.

Definition level_before (g : list chainGraph) (a b : nat) : Prop :=
  ∃ ca cb, ca ∈ g ∧ cb ∈ g ∧ chainId ca = a ∧ chainId cb = b ∧ u32 (level ca) ≤ u32 (level cb).

(** It lists every chain, lower levels first. *)
Lemma sched_stack_spec g :
  sched_stack g ≡ₚ map chainId g ∧ Sorted.StronglySorted (level_before g) (sched_stack g).
Proof.
  destruct (chain_map_level_inv g []) as (Hs & Hp & Hin); [constructor|].
  fold (chain_map_level g) in *. split; [done|].
  assert (∀ k ids id, (k, ids) ∈ chain_map_level g → id ∈ ids →
    ∃ ch, ch ∈ g ∧ chainId ch = id ∧ u32 (level ch) = k) as Hlev.
  { intros k ids id H1 H2. destruct (Hin k ids id H1 H2) as [(? & []%not_elem_of_nil & _)|?]; done. }
  apply concat_key_sorted; [done| |].
  - intros k ids a b Hk Ha Hb. destruct (Hlev k ids a Hk Ha) as (ca & ? & ? & Ea).
    destruct (Hlev k ids b Hk Hb) as (cb & ? & ? & Eb). exists ca, cb. split_and!; [done..|lia].
  - intros k1 k2 i1 i2 a b Hlt H1 H2 Ha Hb.
    destruct (Hlev k1 i1 a H1 Ha) as (ca & ? & ? & Ea).
    destruct (Hlev k2 i2 b H2 Hb) as (cb & ? & ? & Eb). exists ca, cb. split_and!; [done..|].
    unfold klt in Hlt. cbn in Hlt. rewrite Z.compare_lt_iff in Hlt. lia.
Qed.

(** ** The list scheduler *)

(** Instructions of a chain, and of the chains of a buffer. *)
Definition len_of (input : list Chain) (ch : nat) : Z :=
  match find_input ch input with
  | Some c => Z.of_nat (length (instruction_list c))
  | None => 0
  end.

Definition load (input : list Chain) (b : list nat) : Z := zsum (len_of input) b.

Lemma len_of_nonneg input ch : 0 ≤ len_of input ch.
Proof. unfold len_of. destruct (find_input ch input); lia. Qed.

Lemma load_nonneg input b : 0 ≤ load input b.
Proof. apply zsum_nonneg. intros. apply len_of_nonneg. Qed.

Lemma load_app input a b : load input (a ++ b) = load input a + load input b.
Proof. apply zsum_app. Qed.

Lemma load_perm input a b : a ≡ₚ b → load input a = load input b.
Proof. unfold load. induction 1; cbn in *; unfold zsum in *; lia. Qed.

Lemma load_lookup input pre i b : pre !! i = Some b → load input b ≤ load input (concat pre).
Proof.
  intros Hi. rewrite (load_perm _ _ _ (concat_delete pre i b Hi)), load_app.
  pose proof (load_nonneg input (concat (delete i pre))). lia.
Qed.

(** The sizes are the loads, and no two loads differ by more than one chain. *)
Record balanced (input : list Chain) (M : Z) (pre : list (list nat)) (sizes : list Z) : Prop := {
  ba_len : (0 < length pre ≤ length sizes)%nat;
  ba_size : ∀ i b, pre !! i = Some b → sizes !! i = Some (load input b);
  ba_near : ∀ i j bi bj, pre !! i = Some bi → pre !! j = Some bj →
    load input bi ≤ load input bj + M
}.

Lemma schedule_on_min input M pre sizes ch c :
  balanced input M pre sizes → find_input ch input = Some c → len_of input ch ≤ M →
  load input (concat pre ++ [ch]) < 2 ^ 32 →
  ∃ i pre' sizes', findMinimum sizes (length pre) = Ret i ∧
    schedule_on i ch (length (instruction_list c)) pre sizes = Ret (pre', sizes') ∧
    balanced input M pre' sizes' ∧ concat pre' ≡ₚ concat pre ++ [ch] ∧
    length pre' = length pre ∧ length sizes' = length sizes.
Proof.
  intros [Hlen Hsize Hnear] Hc HM Htot.
  destruct (findMinimum_spec sizes (length pre) Hlen) as (i & m & Hmin & Hi & Hm & Hle).
  destruct (lookup_lt_is_Some_2 pre i Hi) as [b Hb].
  pose proof (Hsize i b Hb) as Hsb. rewrite Hm in Hsb. injection Hsb as ->.
  assert (len_of input ch = Z.of_nat (length (instruction_list c))) as Hlc.
  { unfold len_of. by rewrite Hc. }
  assert (load input (b ++ [ch]) = load input b + len_of input ch) as Hnew.
  { rewrite load_app. unfold load at 2. cbn. lia. }
  pose proof (load_lookup input pre i b Hb) as Hbc. rewrite load_app in Htot.
  assert (load input [ch] = len_of input ch) as Hch by (unfold load; cbn; lia).
  pose proof (load_nonneg input b). pose proof (len_of_nonneg input ch).
  exists i, (<[i := b ++ [ch]]> pre), (<[i := load input (b ++ [ch])]> sizes).
  unfold schedule_on. rewrite (at_idx_Some _ _ _ Hb). cbn [mbind outcome_bind].
  rewrite upd_idx_ret by done. cbn [mbind outcome_bind].
  rewrite (at_idx_Some _ _ _ Hm). cbn [mbind outcome_bind].
  rewrite upd_idx_ret by lia. cbn [mbind outcome_bind].
  rewrite <- Hlc, <- Hnew, u32_id by lia.
  split_and!; [done|done|split| |apply length_insert|apply length_insert].
  - rewrite !length_insert. lia.
  - intros j bj Hj. destruct (decide (i = j)) as [<-|Hne].
    + rewrite list_lookup_insert_eq in Hj by done. injection Hj as <-.
      by rewrite list_lookup_insert_eq by lia.
    + rewrite list_lookup_insert_ne in Hj by done. rewrite list_lookup_insert_ne by done. by apply Hsize.
  - intros j k bj bk Hj Hk.
    destruct (decide (i = j)) as [<-|Hij], (decide (i = k)) as [<-|Hik];
      repeat match goal with
      | H : <[?i:=_]> _ !! ?i = _ |- _ => rewrite list_lookup_insert_eq in H by done; injection H as <-
      | H : <[?i:=_]> _ !! ?j = _ |- _ => rewrite list_lookup_insert_ne in H by done
      end.
    + lia.
    + assert (load input b ≤ load input bk); [|lia].
      apply (Hle k); [by eapply lookup_lt_Some|by apply Hsize].
    + specialize (Hnear j i bj b Hj Hb). lia.
    + by eapply Hnear.
  - pose proof (concat_insert pre i b (b ++ [ch]) Hb) as Hci.
    apply (Permutation_app_inv_r b). rewrite Hci.
    rewrite <- app_assoc. apply Permutation_app_head, Permutation_app_comm.
Qed.

Lemma preschedule_loop_spec input M stack : ∀ pre sizes,
  balanced input M pre sizes →
  (∀ ch, ch ∈ stack → is_Some (find_input ch input) ∧ len_of input ch ≤ M) →
  load input (concat pre ++ stack) < 2 ^ 32 →
  ∃ pre' sizes', preschedule_loop (length pre) input stack (pre, sizes) = Ret (pre', sizes') ∧
    balanced input M pre' sizes' ∧ concat pre' ≡ₚ concat pre ++ stack ∧
    length pre' = length pre ∧ length sizes' = length sizes.
Proof.
  unfold preschedule_loop. induction stack as [|ch stack IH]; intros pre sizes Hb Hst Htot; cbn [foldM].
  { exists pre, sizes. rewrite app_nil_r. by split_and!. }
  destruct (Hst ch ltac:(left)) as [[c Hc] HM]. rewrite Hc.
  assert (load input (concat pre ++ [ch]) < 2 ^ 32) as Htot1.
  { change (ch :: stack) with ([ch] ++ stack) in Htot. rewrite app_assoc, load_app in Htot.
    pose proof (load_nonneg input stack). lia. }
  destruct (schedule_on_min input M pre sizes ch c Hb Hc HM Htot1)
    as (i & pre1 & sizes1 & -> & Hs & Hb1 & Hp1 & Hl1 & Hl2).
  cbn [mbind outcome_bind]. rewrite Hs. cbn [mbind outcome_bind].
  destruct (IH pre1 sizes1 Hb1) as (pre' & sizes' & H1 & H2 & H3 & H4 & H5).
  { intros x Hx. apply Hst. by right. }
  { rewrite (load_perm _ _ (concat pre ++ ch :: stack)); [done|].
    by rewrite Hp1, <- app_assoc. }
  rewrite Hl1 in H1. exists pre', sizes'. split_and!; [exact H1|done| |congruence|congruence].
  by rewrite H3, Hp1, <- app_assoc.
Qed.

(** Chains are added at the end of the buffers, in the order of the stack. *)
Lemma preschedule_loop_order n input stack : ∀ pre sizes pre' sizes',
  preschedule_loop n input stack (pre, sizes) = Ret (pre', sizes') →
  ∀ i b', pre' !! i = Some b' → ∃ b l, pre !! i = Some b ∧ b' = b ++ l ∧ l `sublist_of` stack.
Proof.
  unfold preschedule_loop. induction stack as [|ch stack IH]; intros pre sizes pre' sizes' E i b' Hi; cbn [foldM] in E.
  { injection E as -> ->. exists b', []. by rewrite app_nil_r. }
  destruct (find_input ch input) as [c|]; [|done].
  destruct (findMinimum sizes n) as [k|]; [|done]. cbn [mbind outcome_bind] in E.
  destruct (schedule_on k ch _ pre sizes) as [[pre1 sizes1]|] eqn:Es; [|done]. cbn [mbind outcome_bind] in E.
  destruct (IH pre1 sizes1 pre' sizes' E i b' Hi) as (b1 & l & Hb1 & -> & Hl).
  unfold schedule_on in Es. apply bind_ret_inv in Es as (buff & Hbuff%at_idx_ret & Es).
  rewrite upd_idx_ret in Es by (by eapply lookup_lt_Some). cbn [mbind outcome_bind] in Es.
  apply bind_ret_inv in Es as (v & _ & Es). apply bind_ret_inv in Es as (sz & _ & [= <- _]).
  destruct (decide (k = i)) as [->|Hne].
  - rewrite list_lookup_insert_eq in Hb1 by (by eapply lookup_lt_Some). injection Hb1 as <-.
    exists buff, (ch :: l). rewrite <- app_assoc. split_and!; [done|done|by apply sublist_skip].
  - rewrite list_lookup_insert_ne in Hb1 by done. exists b1, l. split_and!; [done|done|by apply sublist_cons].
Qed.

Lemma strongly_sorted_sublist {A} (R : A → A → Prop) l k :
  l `sublist_of` k → Sorted.StronglySorted R k → Sorted.StronglySorted R l.
Proof.
  induction 1 as [|x l k Hl IH|x l k Hl IH]; intros Hs; [done|..]; apply Sorted.StronglySorted_inv in Hs as [Hs Hx]; [|by apply IH].
  constructor; [by apply IH|]. rewrite List.Forall_forall in Hx |- *. intros y Hy. apply Hx.
  apply list_elem_of_In. apply list_elem_of_In in Hy. by eapply elem_of_sublist.
Qed.

(** Both ends of a dependency are in the buffer of one lane. *)
Definition same_lane (pre : list (list nat)) (d : chainDependency) : Prop :=
  ∃ i, lane_of (source d) pre = Some i ∧ lane_of (target d) pre = Some i.

#[export] Instance same_lane_dec pre d : Decision (same_lane pre d).
Proof.
  unfold same_lane. destruct (lane_of (source d) pre) as [i|], (lane_of (target d) pre) as [j|].
  - destruct (decide (i = j)) as [->|]; [left; eauto|right; naive_solver].
  - right; naive_solver.
  - right; naive_solver.
  - right; naive_solver.
Defined.

Lemma lane_of_lt ch pre i : lane_of ch pre = Some i → (i < length pre)%nat.
Proof. apply find_index_lt. Qed.

Lemma count_com_spec pre deps :
  Z.of_nat (length deps) < 2 ^ 32 →
  count_com (length pre) pre deps =
    (Z.of_nat (length (filter (same_lane pre) deps)),
     Z.of_nat (length deps) - Z.of_nat (length (filter (same_lane pre) deps))).
Proof.
  intros Hlt. unfold count_com.
  match goal with |- foldl ?h _ _ = _ => set (f := h) end.
  assert (∀ deps int ext, 0 ≤ int → 0 ≤ ext → int + ext + Z.of_nat (length deps) < 2 ^ 32 →
    foldl f (int, ext) deps = (int + Z.of_nat (length (filter (same_lane pre) deps)),
      ext + (Z.of_nat (length deps) - Z.of_nat (length (filter (same_lane pre) deps))))) as Hgen;
    [|rewrite Hgen by lia; f_equal; lia].
  clear Hlt deps. induction deps as [|d deps IH]; intros int ext Hi He Hlt; cbn [foldl].
  { cbn. f_equal; lia. }
  cbn [length] in Hlt. rewrite filter_cons. unfold f at 2.
  case_decide as Hs; cbn [length].
  - destruct Hs as (i & H1 & H2). rewrite H1, H2. cbn [default]. rewrite Nat.eqb_refl, u32_id by lia.
    rewrite IH by lia. f_equal; lia.
  - assert ((default (length pre + 1)%nat (lane_of (source d) pre) =?
             default (length pre + 2)%nat (lane_of (target d) pre))%nat = false) as ->.
    { apply Nat.eqb_neq. intros E. apply Hs. unfold same_lane.
      destruct (lane_of (source d) pre) as [i|] eqn:E1, (lane_of (target d) pre) as [j|] eqn:E2;
        cbn in E; subst; eauto;
        repeat match goal with H : lane_of _ _ = Some _ |- _ => apply lane_of_lt in H end; lia. }
    rewrite u32_id by lia. rewrite IH by lia. f_equal; lia.
Qed.

(** Before the first pre-schedule, or after all chains have been loaded. *)
Record presched_ready (c : Core) : Prop := {
  pr_graph : chain_graph (m_graph c) ≠ [];
  pr_chains : map chainId (chain_graph (m_graph c)) ≡ₚ map chain_id (input_chain c);
  pr_stack : stack_sche_chain c = [] ∨ stack_sche_chain c = sched_stack (chain_graph (m_graph c));
  pr_lanes : (0 < num_lanes c ≤ MAX_NUM_CHAIN)%nat;
  pr_len : length (lane_pre_schedule c) = num_lanes c ∧ length (m_lanes c) = num_lanes c;
  pr_sizes : length (lane_pre_schedule_size c) = MAX_NUM_CHAIN;
  pr_empty : ∀ i b, lane_pre_schedule c !! i = Some b →
    b = [] ∧ lane_pre_schedule_size c !! i = Some 0;
  pr_total : load (input_chain c) (map chain_id (input_chain c)) < 2 ^ 32;
  pr_deps : Z.of_nat (length (dependencies (m_graph c))) < 2 ^ 32
}.

Lemma ready_balanced c M :
  presched_ready c → 0 ≤ M →
  balanced (input_chain c) M (lane_pre_schedule c) (lane_pre_schedule_size c).
Proof.
  intros [_ _ _ Hl [Hn _] Hs He _ _] HM. split.
  - unfold MAX_NUM_CHAIN in *. lia.
  - intros i b Hi. destruct (He i b Hi) as [-> ?]. done.
  - intros i j bi bj Hi Hj. destruct (He i bi Hi) as [-> _], (He j bj Hj) as [-> _]. lia.
Qed.

Lemma ready_concat c : presched_ready c → concat (lane_pre_schedule c) = [].
Proof.
  intros [_ _ _ _ _ _ He _ _]. revert He.
  generalize (lane_pre_schedule_size c) as sizes. intros sizes He.
  assert (∀ b, b ∈ lane_pre_schedule c → b = []) as Hb.
  { intros b [i Hi]%list_elem_of_lookup. by destruct (He i b Hi). }
  clear He. induction (lane_pre_schedule c) as [|b l IH]; [done|]. cbn.
  rewrite (Hb b) by left. apply IH. intros x Hx. apply Hb. by right.
Qed.

Lemma preschedule_ok c M :
  presched_ready c → 0 ≤ M → (∀ ch, ch ∈ map chain_id (input_chain c) → len_of (input_chain c) ch ≤ M) →
  ∃ pre sizes,
    let deps := dependencies (m_graph c) in
    preschedule c = Ret ({ c with stack_sche_chain := sched_stack (chain_graph (m_graph c));
      lane_pre_schedule := pre; lane_pre_schedule_size := sizes;
      internal_com := Z.of_nat (length (filter (same_lane pre) deps));
      external_com := Z.of_nat (length deps) - Z.of_nat (length (filter (same_lane pre) deps)) }) ∧
    balanced (input_chain c) M pre sizes ∧
    concat pre ≡ₚ map chain_id (input_chain c) ∧
    length pre = length (m_lanes c) ∧ length sizes = MAX_NUM_CHAIN ∧
    ∀ i b, pre !! i = Some b → b `sublist_of` sched_stack (chain_graph (m_graph c)).
Proof.
  intros Hr HM Hmax. pose proof Hr as [Hg Hc Hst Hl [Hn1 Hn2] Hs He Ht Hd]. unfold preschedule.
  rewrite bool_decide_eq_false_2 by done. cbn [negb assertb mbind outcome_bind].
  destruct (sched_stack_spec (chain_graph (m_graph c))) as [Hp _].
  assert (match stack_sche_chain c with [] => sched_stack (chain_graph (m_graph c)) | s => s end
          = sched_stack (chain_graph (m_graph c))) as Hstack.
  { destruct Hst as [->| ->]; [done|]. by destruct (sched_stack _). }
  unfold sched_stack in Hstack at 1. rewrite Hstack.
  destruct (preschedule_loop_spec (input_chain c) M (sched_stack (chain_graph (m_graph c)))
              _ _ (ready_balanced c M Hr HM)) as (pre & sizes & H1 & H2 & H3 & H4 & H5).
  { intros ch. rewrite Hp, Hc. intros Hch. split; [by apply find_input_is_Some|by apply Hmax]. }
  { rewrite (ready_concat c Hr). cbn [app]. by rewrite (load_perm _ _ _ Hp), (load_perm _ _ _ Hc). }
  rewrite Hn1 in H1. rewrite H1. cbn [mbind outcome_bind].
  assert (length (m_lanes c) = length pre) as -> by congruence.
  rewrite count_com_spec by done. exists pre, sizes. cbn zeta. split_and!; [done|done| |done|congruence|].
  - rewrite H3, (ready_concat c Hr), Hp. done.
  - intros i b Hi. destruct (preschedule_loop_order _ _ _ _ _ _ _ H1 i b Hi) as (b0 & l0 & Hb0 & -> & Hl0).
    by destruct (He i b0 Hb0) as [-> _].
Qed.

(** [C14] The level scheduler: it returns, places every chain in exactly one
    lane buffer, fills every buffer in the order of the levels of its chains,
    keeps for each lane the number of
    instructions placed on it, counts the dependencies inside and across
    lanes, and is balanced as list scheduling is: no lane has more
    instructions than another one plus the longest chain. *)
Theorem preschedule_correct c M :
  presched_ready c → (∀ ch, ch ∈ map chain_id (input_chain c) → len_of (input_chain c) ch ≤ M) →
  0 ≤ M →
  ∃ c', preschedule c = Ret c' ∧
    concat (lane_pre_schedule c') ≡ₚ map chain_id (input_chain c) ∧
    Sorted.StronglySorted (level_before (chain_graph (m_graph c))) (stack_sche_chain c') ∧
    (∀ i b, lane_pre_schedule c' !! i = Some b → b `sublist_of` stack_sche_chain c' ∧
       Sorted.StronglySorted (level_before (chain_graph (m_graph c))) b) ∧
    (∀ i b, lane_pre_schedule c' !! i = Some b →
       lane_pre_schedule_size c' !! i = Some (load (input_chain c) b)) ∧
    (∀ i j bi bj, lane_pre_schedule c' !! i = Some bi → lane_pre_schedule c' !! j = Some bj →
       load (input_chain c) bi ≤ load (input_chain c) bj + M) ∧
    internal_com c' = Z.of_nat (length (filter (same_lane (lane_pre_schedule c'))
                                          (dependencies (m_graph c)))) ∧
    internal_com c' + external_com c' = Z.of_nat (length (dependencies (m_graph c))).
Proof.
  intros Hr Hmax HM. destruct (preschedule_ok c M Hr HM Hmax) as (pre & sizes & -> & [_ H2 H3] & H4 & _ & _ & H5).
  eexists; split; [done|]. cbn.
  split_and!; [done|apply sched_stack_spec| |done|done|done|apply Zplus_minus].
  intros i b Hi. split; [by eapply H5|]. by eapply strongly_sorted_sublist; [eapply H5|apply sched_stack_spec].
Qed.

(** ** The out-of-order scheduler *)

(** No chain that is still running or waiting feeds chain [ch]. *)
Definition row_zero (c : Core) (ch : nat) : Prop :=
  ∀ j, (j < num_chains c)%nat → default 0 (depen_table c !! (ch, j)) = 0.

(** Buffers, waiting chains and table fit together. *)
Record sched_ok (c : Core) : Prop := {
  so_ids : NoDup (map chain_id (input_chain c));
  so_part : concat (lane_pre_schedule c) ≡ₚ map chain_id (input_chain c);
  so_len : length (lane_pre_schedule c) = length (m_lanes c);
  so_lanes : (length (m_lanes c) ≤ MAX_NUM_CHAIN)%nat;
  so_sizes : length (lane_pre_schedule_size c) = MAX_NUM_CHAIN;
  so_range : ∀ ch, ch ∈ map chain_id (input_chain c) → (ch < MAX_NUM_CHAIN)%nat;
  so_num : (num_chains c ≤ MAX_NUM_CHAIN)%nat;
  so_bits : ∀ k v, depen_table c !! k = Some v → v = 0 ∨ v = 1;
  so_lane_ok : Forall lane_ok (m_lanes c)
}.

Lemma table_bit c k : sched_ok c → 0 ≤ default 0 (depen_table c !! k) ≤ 1.
Proof.
  intros Hok. destruct (depen_table c !! k) as [v|] eqn:E; cbn; [|lia].
  destruct (so_bits c Hok k v E); lia.
Qed.

Lemma depen_get_ret t i j :
  (i < MAX_NUM_CHAIN)%nat → (j < MAX_NUM_CHAIN)%nat →
  depen_get t i j = Ret (default 0 (t !! (i, j))).
Proof. intros Hi Hj. unfold depen_get. by rewrite !bool_decide_eq_true_2. Qed.

Lemma depen_set_ret t i j v :
  (i < MAX_NUM_CHAIN)%nat → (j < MAX_NUM_CHAIN)%nat → depen_set i j v t = Ret (<[(i, j) := v]> t).
Proof. intros Hi Hj. unfold depen_set. by rewrite !bool_decide_eq_true_2. Qed.

Lemma row_loop c ch n s0 j0 :
  sched_ok c → (ch < MAX_NUM_CHAIN)%nat → (j0 + n ≤ num_chains c)%nat →
  0 ≤ s0 ≤ Z.of_nat j0 →
  ∃ s, foldM (λ s j, d ← depen_get (depen_table c) ch j; Ret (u32 (s + d))) s0 (seq j0 n) = Ret s ∧
    0 ≤ s ≤ Z.of_nat (j0 + n) ∧
    (s = 0 ↔ s0 = 0 ∧ ∀ j, (j0 ≤ j < j0 + n)%nat → default 0 (depen_table c !! (ch, j)) = 0).
Proof.
  intros Hok Hch. pose proof (so_num c Hok) as Hnum.
  revert s0 j0. induction n as [|n IH]; intros s0 j0 Hn Hs0; cbn [seq foldM].
  { exists s0. split_and!; [done|lia|lia|]. split; [intros ->; split; [done|lia]|by intros [-> _]]. }
  rewrite depen_get_ret by lia. cbn [mbind outcome_bind].
  pose proof (table_bit c (ch, j0) Hok) as Hd.
  rewrite u32_id by (unfold MAX_NUM_CHAIN in *; lia).
  destruct (IH (s0 + default 0 (depen_table c !! (ch, j0))) (S j0)) as (s & -> & Hs & Hz);
    [lia|lia|].
  exists s. split_and!; [done|lia|lia|]. rewrite Hz. split.
  - intros [H1 H2]. split; [lia|]. intros j Hj. destruct (decide (j = j0)) as [->|]; [lia|].
    apply H2. lia.
  - intros [H1 H2]. split; [rewrite (H2 j0) by lia; lia|]. intros j Hj. apply H2. lia.
Qed.

Lemma row_status_spec c ch :
  sched_ok c → (ch < MAX_NUM_CHAIN)%nat →
  ∃ s, row_status c ch = Ret s ∧ (s = 0 ↔ row_zero c ch).
Proof.
  intros Hok Hch. unfold row_status.
  destruct (row_loop c ch (num_chains c) 0 0 Hok Hch) as (s & -> & _ & Hz); [lia|lia|].
  exists s. split; [done|]. rewrite Hz. unfold row_zero. split; [|naive_solver lia].
  intros [_ H] j Hj. apply H. lia.
Qed.

Lemma first_free_spec c buff :
  sched_ok c → (∀ ch, ch ∈ buff → (ch < MAX_NUM_CHAIN)%nat) →
  ∃ o, first_free c buff = Ret o ∧
    match o with
    | Some ch => ch ∈ buff ∧ row_zero c ch
    | None => ∀ ch, ch ∈ buff → ¬ row_zero c ch
    end.
Proof.
  intros Hok. induction buff as [|ch buff IH]; intros Hr; cbn [first_free].
  { exists None. split; [done|]. by intros ? ?%not_elem_of_nil. }
  destruct (row_status_spec c ch Hok) as (s & -> & Hs); [apply Hr; left|].
  cbn [mbind outcome_bind]. destruct (s =? 0) eqn:E.
  - exists (Some ch). split; [done|]. split; [left|]. apply Hs. lia.
  - destruct IH as (o & -> & Ho); [intros x Hx; apply Hr; by right|].
    exists o. split; [done|]. destruct o as [x|]; [split; [right; apply Ho|apply Ho]|].
    intros x [->|Hx]%elem_of_cons; [|by apply Ho]. rewrite <- Hs. lia.
Qed.

Lemma erase_first_perm {A} (p : A → bool) l x :
  x ∈ l → p x = true → (∀ y, y ∈ l → p y = true → y = x) → l ≡ₚ x :: erase_first p l.
Proof.
  induction l as [|y l IH]; intros Hx Hp Hu; [by apply not_elem_of_nil in Hx|]. cbn.
  destruct (p y) eqn:E.
  - by rewrite (Hu y ltac:(left) E).
  - apply elem_of_cons in Hx as [->|Hx]; [congruence|].
    rewrite perm_swap. apply Permutation_skip, IH; [done|done|]. intros z Hz. apply Hu. by right.
Qed.

(** A lane before and after a chain's instructions [ns] are appended; the
    stall counter may change. *)
Definition lane_ext (ns : list Node) (l l' : Lane) : Prop :=
  same_config l l' ∧ exe_cnt l' = exe_cnt l ∧ exe_stack l' = exe_stack l ∧
  fetch_cnt l' = fetch_cnt l ∧ fetch_stack l' = fetch_stack l ∧
  instruction_queue l' = instruction_queue l ++ ns.

(** Everything but buffers, lanes, waiting chains and counters. *)
Definition same_frame (c c' : Core) : Prop :=
  depen_table c' = depen_table c ∧ un_dependencies c' = un_dependencies c ∧
  num_chains c' = num_chains c ∧ m_memory c' = m_memory c ∧
  mem_req_map c' = mem_req_map c ∧ num_iter c' = num_iter c.

(** What the scheduler does with lane [i]. *)
Inductive ooo_step (i : nat) (c c' : Core) : Prop :=
  | ooo_skip l l' (Hl : m_lanes c !! i = Some l) (Hl' : m_lanes c' = <[i := l']> (m_lanes c))
      (Hext : lane_ext [] l l') (Hpre : lane_pre_schedule c' = lane_pre_schedule c)
      (Hin : input_chain c' = input_chain c)
      (Hno : is_free l = true → ∀ b ch, lane_pre_schedule c !! i = Some b → ch ∈ b → ¬ row_zero c ch)
  | ooo_load l l' chain (Hl : m_lanes c !! i = Some l)
      (Hl' : m_lanes c' = <[i := l']> (m_lanes c)) (Hfree : is_free l = true)
      (Hzero : row_zero c (chain_id chain))
      (Hext : lane_ext (instruction_list chain) l l')
      (Hin : input_chain c ≡ₚ chain :: input_chain c').

Lemma with_stall_ext l n : lane_ext [] l (with_stall n l).
Proof. unfold lane_ext, same_config. cbn. by rewrite app_nil_r. Qed.

Lemma lane_ext_ok ns l l' : lane_ok l → lane_ext ns l l' → lane_ok l'.
Proof.
  intros [Hp Hf He] ((_ & _ & _ & Hlp) & Hc & Hx & Hfc & _). split; by rewrite ?Hlp, ?Hc, ?Hx, ?Hfc.
Qed.

Lemma concat_erase {A} (pre : list (list A)) i b p x :
  pre !! i = Some b → x ∈ b → p x = true → (∀ y, y ∈ b → p y = true → y = x) →
  concat pre ≡ₚ x :: concat (<[i := erase_first p b]> pre).
Proof.
  intros Hi Hx Hp Hu. pose proof (erase_first_perm p b x Hx Hp Hu) as Hb.
  pose proof (concat_insert pre i b (erase_first p b) Hi) as Hc.
  apply (Permutation_app_inv_r (erase_first p b)). rewrite <- Hc.
  rewrite Hb at 2. cbn. by rewrite <- Permutation_middle.
Qed.

Lemma load_chain_ok c i ch b l :
  sched_ok c → m_lanes c !! i = Some l → Lane.is_free l = true →
  lane_pre_schedule c !! i = Some b → ch ∈ b → row_zero c ch →
  ∃ c', load_chain i ch b c = Ret c' ∧ sched_ok c' ∧ ooo_step i c c' ∧ same_frame c c' ∧
    length (m_lanes c') = length (m_lanes c).
Proof.
  intros Hok Hl Hfree Hb Hch Hz. pose proof Hok as [Hids Hpart Hlen Hlanes Hsizes Hrange Hnum Hbits Hlok].
  pose proof (lookup_lt_Some _ _ _ Hl) as Hi.
  assert (ch ∈ map chain_id (input_chain c)) as Hin.
  { rewrite <- Hpart. apply elem_of_concat_lookup. eauto. }
  destruct (find_input_is_Some ch (input_chain c) Hin) as [chain Hchain].
  destruct (find_input_Some _ _ _ Hchain) as [Hcin Hcid].
  unfold load_chain. rewrite bool_decide_eq_true_2 by done. cbn [assertb mbind outcome_bind].
  rewrite upd_idx_ret by lia. cbn [mbind outcome_bind]. rewrite Hchain. cbn [deref mbind outcome_bind].
  destruct (at_idx_lt (lane_pre_schedule_size c) i ltac:(lia)) as [s ->]. cbn [mbind outcome_bind].
  rewrite upd_idx_ret by lia. cbn [mbind outcome_bind].
  rewrite (at_idx_Some _ _ _ Hl). cbn [mbind outcome_bind].
  rewrite Forall_forall in Hlok. pose proof (Hlok l (list_elem_of_lookup_2 _ _ _ Hl)) as Hll.
  destruct (LoadInstructionQueue_spec (return_instruction chain) ch l Hll)
    as (l' & free & -> & Hl'ok & _ & Hcfg & _ & H1 & H2 & H3 & H4 & H5).
  cbn [mbind outcome_bind]. rewrite upd_idx_ret by done. cbn [mbind outcome_bind].
  assert (NoDup (concat (lane_pre_schedule c))) as Hnd by (by rewrite Hpart).
  assert (input_chain c ≡ₚ chain :: erase_first (λ x, chain_id x =? ch)%nat (input_chain c)) as Hpin.
  { apply erase_first_perm; [done|by apply Nat.eqb_eq|]. intros y Hy Hyc%Nat.eqb_eq.
    eapply NoDup_map_inj; [exact Hids|done|done|congruence]. }
  assert (map chain_id (input_chain c)
    ≡ₚ ch :: map chain_id (erase_first (λ x, chain_id x =? ch)%nat (input_chain c))) as Hpid.
  { rewrite Hpin at 1. cbn. by rewrite Hcid. }
  assert (concat (lane_pre_schedule c)
    ≡ₚ ch :: concat (<[i := erase_first (Nat.eqb ch) b]> (lane_pre_schedule c))) as Hppre.
  { apply concat_erase; [done|done|by apply Nat.eqb_eq|]. intros y _ Hy. by apply Nat.eqb_eq in Hy. }
  eexists. split_and!; [done|split; cbn| |by split_and!|cbn; apply length_insert].
  - rewrite Hpid in Hids. by apply NoDup_cons in Hids as [_ Hids].
  - apply (Permutation_cons_inv (a := ch)). by rewrite <- Hppre, <- Hpid.
  - by rewrite !length_insert.
  - by rewrite length_insert.
  - by rewrite length_insert.
  - intros x Hx. apply Hrange. rewrite Hpid. by right.
  - done.
  - done.
  - apply Forall_insert; [by apply Forall_forall|done].
  - eapply (ooo_load i c _ l l' chain); try done. by rewrite Hcid.
Qed.

Lemma ooo_lane_ok c i l :
  sched_ok c → m_lanes c !! i = Some l →
  ∃ c', ooo_lane c i = Ret c' ∧ sched_ok c' ∧ ooo_step i c c' ∧ same_frame c c' ∧
    length (m_lanes c') = length (m_lanes c).
Proof.
  intros Hok Hl. unfold ooo_lane. rewrite (at_idx_Some _ _ _ Hl). cbn [mbind outcome_bind].
  pose proof Hok as [Hids Hpart Hlen Hlanes Hsizes Hrange Hnum Hbits Hlok].
  pose proof (lookup_lt_Some _ _ _ Hl) as Hi.
  assert (lane_ext [] l l) as Hrefl by (unfold lane_ext, same_config; by rewrite app_nil_r).
  destruct (Lane.is_free l) eqn:Hfree; cbn [negb].
  2: { exists c. split_and!; try done.
       apply (ooo_skip i c c l l); try done; [by rewrite list_insert_id|congruence]. }
  destruct (lookup_lt_is_Some_2 (lane_pre_schedule c) i ltac:(lia)) as [b Hb].
  rewrite (at_idx_Some _ _ _ Hb). cbn [mbind outcome_bind].
  destruct b as [|ch0 b0].
  { eexists. split_and!; [done|by destruct Hok; split| |by split_and!|done].
    apply (ooo_skip i c _ l l); try done; cbn; [by rewrite list_insert_id|].
    intros _ b ch Hb'. simplify_eq. by intros ?%not_elem_of_nil. }
  set (b := ch0 :: b0) in *.
  destruct (first_free_spec c b Hok) as (o & -> & Ho).
  { intros ch Hch. apply Hrange. rewrite <- Hpart. apply elem_of_concat_lookup. eauto. }
  cbn [mbind outcome_bind]. rewrite upd_idx_ret by done. cbn [mbind outcome_bind].
  set (ls := with_stall (u32 (m_stall l + 1)) l).
  set (c1 := { c with core_idle := u32 (core_idle c + 1); m_lanes := <[i:=ls]> (m_lanes c) }).
  assert (sched_ok c1) as Hok1.
  { destruct Hok; split; cbn; rewrite ?length_insert; try done.
    apply Forall_insert; try done. rewrite Forall_forall in Hlok.
    eapply lane_ext_ok; [apply Hlok; by eapply list_elem_of_lookup_2|apply with_stall_ext]. }
  destruct o as [ch|].
  - destruct Ho as [Hch Hz].
    destruct (load_chain_ok c1 i ch b ls Hok1) as (c' & -> & Hok' & Hstep & Hframe & Hlen'); try done.
    { cbn. by rewrite list_lookup_insert_eq. }
    exists c'. split_and!; [done|done| |done|by rewrite Hlen'; apply length_insert].
    destruct Hstep as [l1 l' Hl1 Hl' Hext Hpre Hin Hno|l1 l' chain Hl1 Hl' Hfr Hzero Hext Hin].
    + exfalso. cbn in Hl1. rewrite list_lookup_insert_eq in Hl1 by done. injection Hl1 as <-.
      by apply (Hno Hfree b ch).
    + cbn in Hl1, Hl', Hin. rewrite list_lookup_insert_eq in Hl1 by done. injection Hl1 as <-.
      rewrite list_insert_insert_eq in Hl'.
      by apply (ooo_load i c c' l l' chain).
  - exists c1. split_and!; [done|done| |by split_and!|cbn; apply length_insert].
    apply (ooo_skip i c c1 l ls); try done.
    intros _ b' ch Hb'. simplify_eq. apply Ho.
Qed.

(** What a pass over the lanes does: some chains with a zero row are loaded,
    their instructions appended to the queues; when none is, every free lane's
    buffer holds blocked chains only. *)
Record ooo_rel (n i0 : nat) (c c' : Core) (ld : list Chain) : Prop := {
  or_frame : same_frame c c';
  or_lanes : Forall2 (λ l l', ∃ ns, lane_ext ns l l') (m_lanes c) (m_lanes c');
  or_input : input_chain c ≡ₚ ld ++ input_chain c';
  or_zero : ∀ ch, ch ∈ ld → row_zero c (chain_id ch);
  or_queue : concat (instruction_queue <$> m_lanes c')
    ≡ₚ concat (instruction_queue <$> m_lanes c) ++ concat (instruction_list <$> ld);
  or_stuck : ld = [] → ∀ i l b ch, (i0 ≤ i < i0 + n)%nat → m_lanes c !! i = Some l →
    Lane.is_free l = true → lane_pre_schedule c !! i = Some b → ch ∈ b → ¬ row_zero c ch
}.

Lemma lane_ext_refl l : lane_ext [] l l.
Proof. unfold lane_ext, same_config. by rewrite app_nil_r. Qed.

Lemma lane_ext_trans ns1 ns2 l1 l2 l3 :
  lane_ext ns1 l1 l2 → lane_ext ns2 l2 l3 → lane_ext (ns1 ++ ns2) l1 l3.
Proof.
  unfold lane_ext, same_config. intros H1 H2. destruct_and!. rewrite app_assoc.
  split_and!; congruence.
Qed.

Lemma lanes_insert_ext ls i l l' ns :
  ls !! i = Some l → lane_ext ns l l' →
  Forall2 (λ l l', ∃ ns, lane_ext ns l l') ls (<[i := l']> ls) ∧
  concat (instruction_queue <$> <[i := l']> ls) ≡ₚ concat (instruction_queue <$> ls) ++ ns.
Proof.
  intros Hl He. split.
  - rewrite <- (list_insert_id ls i l Hl) at 1. apply Forall2_insert; [|by exists ns].
    apply Forall_Forall2_diag, Forall_forall. intros x _. exists []. apply lane_ext_refl.
  - rewrite list_fmap_insert.
    pose proof (concat_insert (instruction_queue <$> ls) i (instruction_queue l)
                  (instruction_queue l')) as Hc.
    apply (Permutation_app_inv_r (instruction_queue l)). rewrite Hc by (by rewrite list_lookup_fmap, Hl).
    destruct He as (_ & _ & _ & _ & _ & ->). rewrite <- app_assoc.
    apply Permutation_app_head, Permutation_app_comm.
Qed.

Lemma ooo_step_rel i c c' :
  ooo_step i c c' → same_frame c c' → ∃ ld, ooo_rel 1 i c c' ld ∧
    (ld = [] → lane_pre_schedule c' = lane_pre_schedule c ∧
       ∀ j, j ≠ i → m_lanes c' !! j = m_lanes c !! j).
Proof.
  intros [l l' Hl Hl' Hext Hpre Hin Hno|l l' chain Hl Hl' Hfree Hzero Hext Hin] Hf.
  - destruct (lanes_insert_ext _ _ _ _ _ Hl Hext) as [H1 H2]. exists []. split; [split|].
    + done.
    + by rewrite Hl'.
    + by rewrite Hin.
    + by intros ? ?%not_elem_of_nil.
    + rewrite Hl', H2. cbn. done.
    + intros _ j lj b ch Hj Hlj. assert (j = i) as -> by lia. simplify_eq. intros Hfr Hb Hch.
      by eapply Hno.
    + intros _. split; [done|]. intros j Hj. rewrite Hl'. by rewrite list_lookup_insert_ne.
  - destruct (lanes_insert_ext _ _ _ _ _ Hl Hext) as [H1 H2]. exists [chain]. split; [split|].
    + done.
    + by rewrite Hl'.
    + done.
    + intros ch ->%list_elem_of_singleton. done.
    + rewrite Hl', H2. cbn. by rewrite app_nil_r.
    + done.
    + done.
Qed.

Lemma Forall2_lanes_trans ls1 ls2 ls3 :
  Forall2 (λ l l', ∃ ns, lane_ext ns l l') ls1 ls2 →
  Forall2 (λ l l', ∃ ns, lane_ext ns l l') ls2 ls3 →
  Forall2 (λ l l', ∃ ns, lane_ext ns l l') ls1 ls3.
Proof.
  intros H1. revert ls3. induction H1 as [|l1 l2 ls1 ls2 [ns1 He1] H1 IH]; intros ls3 H2;
    inversion H2 as [|? l3 ? ls3' [ns2 He2]]; subst; constructor; [|by apply IH].
  exists (ns1 ++ ns2). by eapply lane_ext_trans.
Qed.

Lemma row_zero_frame c c' ch : same_frame c c' → row_zero c' ch ↔ row_zero c ch.
Proof. intros (H1 & _ & H2 & _). unfold row_zero. by rewrite H1, H2. Qed.

Lemma same_frame_trans c1 c2 c3 : same_frame c1 c2 → same_frame c2 c3 → same_frame c1 c3.
Proof. unfold same_frame. intros; destruct_and!. split_and!; congruence. Qed.

Lemma ooo_loop_ok n i0 c :
  sched_ok c → (i0 + n ≤ length (m_lanes c))%nat →
  ∃ c' ld, foldM ooo_lane c (seq i0 n) = Ret c' ∧ sched_ok c' ∧ ooo_rel n i0 c c' ld.
Proof.
  revert i0 c. induction n as [|n IH]; intros i0 c Hok Hn; cbn [seq foldM].
  { exists c, []. split_and!; [done|done|split]; try done.
    - apply Forall_Forall2_diag, Forall_forall. intros x _. exists []. apply lane_ext_refl.
    - by intros ? ?%not_elem_of_nil.
    - cbn. by rewrite app_nil_r.
    - intros _ i l b ch Hi. lia. }
  destruct (lookup_lt_is_Some_2 (m_lanes c) i0 ltac:(lia)) as [l Hl].
  destruct (ooo_lane_ok c i0 l Hok Hl) as (c1 & -> & Hok1 & Hstep & Hf1 & Hlen1).
  cbn [mbind outcome_bind].
  destruct (ooo_step_rel i0 c c1 Hstep Hf1) as (ld1 & [_ R2 R3 R4 R5 R6] & Hsame).
  destruct (IH (S i0) c1 Hok1) as (c' & ld2 & -> & Hok' & [Q1 Q2 Q3 Q4 Q5 Q6]); [lia|].
  exists c', (ld1 ++ ld2). split_and!; [done|done|split].
  - by eapply same_frame_trans.
  - by eapply Forall2_lanes_trans.
  - by rewrite R3, Q3, app_assoc.
  - intros ch [Hch|Hch]%elem_of_app; [by apply R4|]. by apply (row_zero_frame c c1), Q4.
  - rewrite Q5, R5, fmap_app, concat_app. by rewrite app_assoc.
  - intros [-> ->]%app_eq_nil i li b ch Hi Hli Hfree Hb Hch.
    destruct (decide (i = i0)) as [->|Hne]; [eapply R6; try done; lia|].
    destruct (Hsame eq_refl) as [Hpre Hls].
    rewrite <- (row_zero_frame c c1) by done.
    eapply (Q6 eq_refl i li b); [lia|by rewrite Hls|done|by rewrite Hpre|done].
Qed.

Lemma ooo_scheduler_ok c :
  sched_ok c →
  ∃ c' ld, ooo_scheduler c = Ret c' ∧ sched_ok c' ∧ ooo_rel (length (m_lanes c)) 0 c c' ld.
Proof. intros Hok. by apply ooo_loop_ok. Qed.

(** [C15] The out-of-order scheduler: it returns, keeps the buffers and the
    waiting chains in step, loads only chains whose dependency row is zero,
    moves exactly their instructions into lane queues, and leaves the table,
    the memory and everything in flight as it was. *)
Theorem ooo_scheduler_correct c :
  sched_ok c →
  ∃ c' loaded, ooo_scheduler c = Ret c' ∧ sched_ok c' ∧ same_frame c c' ∧
    input_chain c ≡ₚ loaded ++ input_chain c' ∧
    (∀ ch, ch ∈ loaded → row_zero c (chain_id ch)) ∧
    Forall2 (λ l l', ∃ ns, lane_ext ns l l') (m_lanes c) (m_lanes c') ∧
    concat (instruction_queue <$> m_lanes c')
      ≡ₚ concat (instruction_queue <$> m_lanes c) ++ concat (instruction_list <$> loaded).
Proof.
  intros Hok. destruct (ooo_scheduler_ok c Hok) as (c' & ld & H1 & H2 & [R1 R2 R3 R4 R5 _]).
  exists c', ld. by split_and!.
Qed.

(** ** Progress *)

(** Instructions loaded and not retired, or in a chain not yet loaded. *)
Definition all_nodes (c : Core) : list Node :=
  concat (pending <$> m_lanes c) ++ concat (instruction_list <$> input_chain c).

(** A nonzero entry says that its source chain has work left and feeds the
    row's chain. *)
Definition table_ok (c : Core) : Prop :=
  ∀ d s, default 0 (depen_table c !! (d, s)) ≠ 0 →
    s ∈ map c_id (all_nodes c) ∧ d ∈ default [] (mfind s (un_dependencies c)).

Definition chains_ok (c : Core) : Prop :=
  ∀ ch, ch ∈ input_chain c → instruction_list ch ≠ [] ∧
    ∀ n, n ∈ instruction_list ch → c_id n = chain_id ch.

(** The chain graph has no loop: a numbering increases along its edges. *)
Definition ranked (deps : ordmap nat (list nat)) : Prop :=
  ∃ rank : nat → nat, ∀ s d, d ∈ default [] (mfind s deps) → (rank s < rank d)%nat.

Lemma exists_min {A} (f : A → nat) l :
  l ≠ [] → ∃ x, x ∈ l ∧ ∀ y, y ∈ l → (f x ≤ f y)%nat.
Proof.
  induction l as [|a l IH]; [done|]. intros _.
  destruct (decide (l = [])) as [->|Hl].
  - exists a. split; [left|]. intros y ->%list_elem_of_singleton. lia.
  - destruct (IH Hl) as (x & Hx & Hmin). destruct (decide (f a ≤ f x)%nat).
    + exists a. split; [left|]. intros y [->|Hy]%elem_of_cons; [lia|]. specialize (Hmin y Hy). lia.
    + exists x. split; [by right|]. intros y [->|Hy]%elem_of_cons; [lia|by apply Hmin].
Qed.

(** With all lanes empty, a waiting chain of least rank is not blocked. *)
Lemma least_unblocked c :
  sched_ok c → table_ok c → chains_ok c → ranked (un_dependencies c) →
  (∀ l, l ∈ m_lanes c → pending l = []) → input_chain c ≠ [] →
  ∃ ch, ch ∈ map chain_id (input_chain c) ∧ row_zero c ch.
Proof.
  intros Hok Ht Hch [rank Hrank] Hp Hin.
  destruct (exists_min (rank ∘ chain_id) (input_chain c) Hin) as (ch & Hmem & Hmin).
  exists (chain_id ch). split; [by apply list_elem_of_fmap_2|]. intros j _.
  destruct (decide (default 0 (depen_table c !! (chain_id ch, j)) = 0)) as [|Hne]; [done|].
  exfalso. destruct (Ht _ _ Hne) as [Hj Hd]. apply Hrank in Hd.
  apply list_elem_of_fmap in Hj as (n & -> & Hn). apply elem_of_app in Hn as [Hn|Hn].
  - apply elem_of_concat in Hn as (p & Hpl & Hn). apply list_elem_of_fmap in Hpl as (l & -> & Hl).
    rewrite (Hp l Hl) in Hn. by apply not_elem_of_nil in Hn.
  - apply elem_of_concat in Hn as (p & Hpl & Hn). apply list_elem_of_fmap in Hpl as (ch2 & -> & Hch2).
    destruct (Hch ch2 Hch2) as [_ Hid]. rewrite (Hid n Hn) in Hd.
    specialize (Hmin ch2 Hch2). cbn in Hmin. lia.
Qed.

Lemma ooo_progress_aux c c' ld :
  sched_ok c → table_ok c → chains_ok c → ranked (un_dependencies c) →
  (∀ l, l ∈ m_lanes c → pending l = [] ∧ Lane.is_free l = true) → input_chain c ≠ [] →
  ooo_rel (length (m_lanes c)) 0 c c' ld → ld ≠ [].
Proof.
  intros Hok Ht Hch Hr Hl Hin [_ _ _ _ _ Hstuck] Hld.
  destruct (least_unblocked c Hok Ht Hch Hr (λ l H, proj1 (Hl l H)) Hin) as (ch & Hmem & Hz).
  rewrite <- (so_part c Hok) in Hmem. apply elem_of_concat_lookup in Hmem as (i & b & Hb & Hchb).
  pose proof (lookup_lt_Some _ _ _ Hb) as Hi. rewrite (so_len c Hok) in Hi.
  destruct (lookup_lt_is_Some_2 (m_lanes c) i Hi) as [l Hli].
  apply (Hstuck Hld i l b ch); [lia|done| |done|done|done].
  apply Hl. by eapply list_elem_of_lookup_2.
Qed.

(** Deadlock freedom of the scheduler: on a chain graph without loop,
    when every lane is empty and chains are waiting, a pass of the scheduler
    loads at least one of them. *)
Theorem ooo_progress c :
  sched_ok c → table_ok c → chains_ok c → ranked (un_dependencies c) →
  (∀ l, l ∈ m_lanes c → pending l = [] ∧ Lane.is_free l = true) → input_chain c ≠ [] →
  ∃ c', ooo_scheduler c = Ret c' ∧ (length (input_chain c') < length (input_chain c))%nat.
Proof.
  intros Hok Ht Hch Hr Hl Hin. destruct (ooo_scheduler_ok c Hok) as (c' & ld & Hc' & _ & Hrel).
  exists c'. split; [done|].
  pose proof (ooo_progress_aux c c' ld Hok Ht Hch Hr Hl Hin Hrel) as Hld.
  rewrite (or_input _ _ _ _ _ Hrel), length_app. destruct ld; [done|cbn; lia].
Qed.
