(* ===== verification/CoreCycle.v ===== *)
(** * The cycle of the core

    The invariant that ties lanes, request buffer, wake-up map, dependency
    table and schedulers together, its preservation by [run_a_cycle], and the
    termination of [run_all] under a fixed-latency memory. *)

From S2P Require Import Prelude OrdMap ChainDeps Levels Graph Chain Lane Memory Core CoreSched.
From stdpp Require Import gmap.
From coqutil Require Import Datatypes.RecordSettersUsingExistingGetters.
Open Scope Z_scope.

(** ** One lane *)

(** The node whose answer a lane waits for. *)
Definition waiting (l : Lane) : list Z :=
  if exe_cnt l =? -1 then old_id <$> exe_stack l else [].

(** Loaded, not yet started. *)
Definition todo (l : Lane) : list Node := fetch_stack l ++ instruction_queue l.

(** The invariant has two versions: with Ruby as the memory ([ruby] true),
    where memory operations must be known to the memory front end, and with a
    fixed latency, where no lane is in memory mode 3. *)
Section cycle_inv.
Variable ruby : bool.

(** Node numbers of the operations of a list that need an answer. *)
Definition mem_ids (ns : list Node) : list Z :=
  old_id <$> filter (λ n, ruby && is_mem_op n = true) ns.
Arguments mem_ids : simpl never.

(** Latencies fit a positive [int32_t], in the instruction and in the table. *)
Definition node_timed (n : Node) : Prop := 0 ≤ latency n < 2 ^ 31.
Definition table_timed (p : ordmap string Z) : Prop := ∀ k v, mfind k p = Some v → 0 ≤ v < 2 ^ 31.

Record lane_live (l : Lane) : Prop := {
  ll_ok : lane_ok l;
  ll_table : table_timed (lane_param l);
  ll_nodes : ∀ n, n ∈ pending l → node_timed n;
  ll_cnt : -1 ≤ exe_cnt l;
  ll_mode : m_memory_mode l = 3 → ruby = true
}.

Lemma mem_ids_app a b : mem_ids (a ++ b) = mem_ids a ++ mem_ids b.
Proof. unfold mem_ids. by rewrite filter_app, fmap_app. Qed.

Lemma mem_ids_perm a b : a ≡ₚ b → mem_ids a ≡ₚ mem_ids b.
Proof. intros Hp. unfold mem_ids. by rewrite Hp. Qed.

#[local] Instance mem_ids_proper : Proper ((≡ₚ) ==> (≡ₚ)) mem_ids.
Proof. intros a b. apply mem_ids_perm. Qed.


Lemma start_exe_cnt l n cnt reqs :
  table_timed (lane_param l) → node_timed n → 0 ≤ exe_cnt l →
  start_exe l n = Ret (cnt, reqs) →
  reqs = [] ∧ 0 ≤ cnt ∨ cnt = -1 ∧ m_memory_mode l = 3 ∧ is_mem_op n = true ∧ reqs = [(laneID l, old_id n)].
Proof.
  intros Ht Hn He. unfold start_exe.
  assert (∀ k v, param l k = Ret v → 0 ≤ i32 v) as Hp.
  { intros k v Hk%param_ret. specialize (Ht k v Hk). rewrite i32_id; lia. }
  assert (0 ≤ i32 (latency n)) as Hlat by (unfold node_timed in Hn; rewrite i32_id; lia).
  destruct (is_mem_op n) eqn:Em; [|intros [= <- <-]; by left].
  assert (∀ k, (v ← param l k; Ret (i32 v, [])) = Ret (cnt, reqs) →
    reqs = [] ∧ 0 ≤ cnt ∨ cnt = -1 ∧ m_memory_mode l = 3 ∧ true = true ∧ reqs = [(laneID l, old_id n)]) as Hk.
  { intros k (v & Hv & [= <- <-])%bind_ret_inv. left. split; [done|by eapply Hp]. }
  destruct (m_memory_mode l =? 0); [apply Hk|]. destruct (m_memory_mode l =? 1); [apply Hk|].
  destruct (m_memory_mode l =? 2); [apply Hk|]. destruct (m_memory_mode l =? 3) eqn:E3; intros [= <- <-].
  - right. split_and!; [done|lia|done|done].
  - by left.
Qed.

(** The instructions whose execution ends with this cycle: those in the execute
    stage whose counter has run down. *)
Definition retiring (l : Lane) : list Node := if (0 <=? exe_cnt l) && (exe_cnt l <=? 1) then exe_stack l else [].

(** What a cycle does to a lane: [ds] retire, [reqs] are sent. *)
Record lane_run (l l' : Lane) (ds : list Node) (reqs : list (nat * Z)) : Prop := {
  lr_retiring : ds = retiring l;
  lr_run : ∃ g g', run l g = Ret (l', g');
  lr_live : lane_live l';
  lr_config : same_config l l';
  lr_pending : pending l = ds ++ pending l';
  lr_todo : ∃ xs, todo l = xs ++ todo l' ∧ reqs.*2 ⊆+ mem_ids xs;
  lr_wait : waiting l' = waiting l ++ reqs.*2;
  lr_reqs : reqs = [] ∨ ∃ n, reqs = [(laneID l, n)] ∧ waiting l' = [n]
}.

Lemma updateCounter_live l :
  lane_live l → lane_live (updateCounter l) ∧ waiting (updateCounter l) = waiting l ∧
    todo (updateCounter l) = todo l ∧ same_config l (updateCounter l).
Proof.
  intros [Hok Ht Hn Hc Hmd]. pose proof (updateCounter_ok l Hok) as Hok'.
  pose proof (updateCounter_pending l) as Hp.
  unfold waiting, todo, same_config. split_and!.
  - split; [done| |by rewrite Hp| |unfold updateCounter; repeat case_goal; done].
    + unfold updateCounter. repeat case_goal; done.
    + unfold updateCounter. destruct (0 <? exe_cnt l) eqn:E; [cbn; lia|].
      destruct (exe_cnt l =? -1); cbn; lia.
  - unfold updateCounter. destruct (0 <? exe_cnt l) eqn:E.
    + cbn. assert ((exe_cnt l - 1 =? -1) = false) as -> by lia.
      by assert ((exe_cnt l =? -1) = false) as -> by lia.
    + by destruct (exe_cnt l =? -1) eqn:E2; cbn; rewrite E2.
  - unfold updateCounter. repeat case_goal; done.
  - unfold updateCounter. repeat case_goal; done.
  - unfold updateCounter. repeat case_goal; done.
  - unfold updateCounter. repeat case_goal; done.
  - unfold updateCounter. repeat case_goal; done.
Qed.

Lemma execute_wait l g l' g' :
  lane_live l → execute l g = Ret (l', g') →
  ∃ reqs, -1 ≤ exe_cnt l' ∧ mem_req_queue g' = mem_req_queue g ++ reqs ∧
    (∃ xs, todo l = xs ++ todo l' ∧ reqs.*2 ⊆+ mem_ids xs) ∧
    waiting l' = waiting l ++ reqs.*2 ∧
    (reqs = [] ∨ ∃ n, reqs = [(laneID l, n)] ∧ waiting l' = [n]).
Proof.
  intros [[Hp Hf Hx] Ht Hn Hc Hmd]. unfold execute, waiting, todo.
  assert (∀ g, mem_req_queue g = mem_req_queue g ++ []) as Hg by (intros; by rewrite app_nil_r).
  assert (∀ xs : list Node, xs = [] ++ xs ∧ ([] : list (nat * Z)).*2 ⊆+ mem_ids []) as H0 by done.
  destruct Hx as [[Hx He]|[n Hx]]; unfold pending in Hn; rewrite Hx in *; cbn in Hn |- *.
  - rewrite He; cbn. destruct (fetch_stack l) as [|n f] eqn:Ef.
    { intros [= <- <-]. exists []. rewrite Hx, Ef. split_and!; eauto. by rewrite He. }
    destruct (fetch_cnt l =? 0).
    2: { intros [= <- <-]. exists []. rewrite Hx, Ef. split_and!; eauto. by rewrite He. }
    intros ([cnt reqs] & Hst & [= <- <-])%bind_ret_inv. exists reqs. cbn.
    assert (node_timed n) as Hnt by (apply Hn; left).
    destruct (start_exe_cnt l n cnt reqs Ht Hnt ltac:(lia) Hst) as [[-> Hcnt]|(-> & H3 & Hm & ->)].
    + assert ((cnt =? -1) = false) as -> by lia. split_and!; [lia|done| |done|by left].
      exists [n]. split; [done|apply submseteq_nil_l].
    + split_and!; [lia|done| |by rewrite ?Hx|right; exists (old_id n); by rewrite ?Hx].
      exists [n]. split; [done|]. unfold mem_ids. rewrite filter_cons_True; [done|]. by rewrite (Hmd H3), Hm.
  - destruct (exe_cnt l =? 0) eqn:E0; cbn.
    { intros [= <- <-]. exists []. cbn. split_and!; eauto; try lia. by assert ((exe_cnt l =? -1) = false) as -> by lia. }
    destruct (0 <? exe_cnt l) eqn:E1; cbn.
    { intros [= <- <-]. exists []. cbn. split_and!; eauto. by rewrite ?Hx, ?app_nil_r. }
    assert ((exe_cnt l <? 0) = true) as -> by lia. intros [= <- <-]. exists [].
    rewrite ?Hx. split_and!; eauto. by rewrite ?app_nil_r.
Qed.

Lemma fetch_todo l l' : fetch l = Ret l' → todo l' = todo l ∧ exe_cnt l' = exe_cnt l
  ∧ exe_stack l' = exe_stack l.
Proof.
  unfold fetch, todo. destruct (0 <? fetch_cnt l); [by intros [= <-]|].
  destruct (instruction_queue l) as [|n q] eqn:Eq; [intros [= <-]; by rewrite Eq|].
  intros (v & _ & [= <-])%bind_ret_inv. cbn. by rewrite <- app_assoc.
Qed.

Lemma run_retires l g l' g' :
  lane_ok l → run l g = Ret (l', g') → finished_chains g' = finished_chains g ++ map retired (retiring l).
Proof.
  intros [Hp _ He] Hrun. unfold run in Hrun. apply bind_ret_inv in Hrun as ([l1 g1] & H1 & H2). cbn in H2.
  apply bind_ret_inv in H2 as (l2 & _ & [= _ ->]). unfold retiring.
  assert (Eu : exe_stack (updateCounter l) = exe_stack l ∧ params_loaded (lane_param (updateCounter l)) ∧
    exe_cnt (updateCounter l) = if 0 <? exe_cnt l then exe_cnt l - 1 else exe_cnt l).
  { unfold updateCounter. destruct (0 <? exe_cnt l), (exe_cnt l =? -1); by split_and!. }
  destruct Eu as (Es & Hp' & Ec). unfold execute in H1. rewrite Es in H1.
  destruct He as [[E0 Hc]|[n E0]]; rewrite E0 in H1 |- *.
  - assert (Hnil : ∀ b : bool, (if b then [] else []) = ([] : list Node)) by by intros [].
    rewrite Hnil. cbn [map]. rewrite app_nil_r. rewrite Hc in Ec. cbn in Ec. rewrite Ec in H1. cbn in H1.
    destruct (fetch_stack (updateCounter l)); [by injection H1 as _ <-|]. destruct (fetch_cnt _ =? 0); [|by injection H1 as _ <-].
    by apply bind_ret_inv in H1 as ([cnt reqs] & _ & [= _ <-]).
  - rewrite Ec in H1. cbn [bool_decide negb] in H1. rewrite bool_decide_eq_false_2 in H1 by done. cbn [negb] in H1. rewrite andb_true_r in H1.
    destruct (Z.ltb_spec 0 (exe_cnt l)) as [Hl|Hl].
    + rewrite (proj2 (Z.leb_le 0 _)) by lia. cbn [andb]. destruct (Z.leb_spec (exe_cnt l) 1) as [H|H].
      * rewrite (proj2 (Z.eqb_eq _ _)) in H1 by lia. by injection H1 as _ <-.
      * rewrite (proj2 (Z.eqb_neq _ _)), (proj2 (Z.ltb_lt 0 _)) in H1 by lia. injection H1 as _ <-. cbn. by rewrite app_nil_r.
    + destruct (Z.leb_spec 0 (exe_cnt l)) as [H|H]; cbn [andb].
      * rewrite (proj2 (Z.leb_le _ 1)) by lia. rewrite (proj2 (Z.eqb_eq _ _)) in H1 by lia. by injection H1 as _ <-.
      * rewrite (proj2 (Z.eqb_neq _ _)), (proj2 (Z.ltb_ge 0 _)), (proj2 (Z.ltb_lt _ 0)) in H1 by lia. injection H1 as _ <-. cbn. by rewrite app_nil_r.
Qed.

Lemma lane_run_ok l g :
  lane_live l →
  ∃ l' ds reqs, run l g = Ret (l', mkGlobals (finished_chains g ++ map retired ds)
                                             (mem_req_queue g ++ reqs)) ∧
    lane_run l l' ds reqs.
Proof.
  intros Hl. pose proof Hl as [Hok Ht Hn Hc Hmd].
  destruct (run_in_order_aux l g Hok) as (l' & [fin' req'] & Hrun & Hok' & ds & reqs0 & Hp & _ & Hfin & Hreq & _).
  cbn in Hfin, Hreq. pose proof (run_config _ _ _ _ Hrun) as Hcfg.
  destruct (updateCounter_live l Hl) as (Hl0 & Hw0 & Ht0 & Hi0 & _).
  pose proof Hrun as Hr. unfold run in Hr. apply bind_ret_inv in Hr as ([l1 g1] & H1 & H2).
  cbn in H2. apply bind_ret_inv in H2 as (l2 & H2 & [= -> ->]).
  destruct (execute_wait _ _ _ _ Hl0 H1) as (reqs & Hc1 & Hq & Htd & Hw & Hr).
  destruct (fetch_todo _ _ H2) as (Ht2 & He2 & Hx2).
  cbn in Hq. rewrite Hreq in Hq. apply app_inv_head in Hq as ->.
  assert (waiting l' = waiting l1) as Hwl by (unfold waiting; by rewrite He2, Hx2).
  assert (Hds : ds = retiring l).
  { pose proof (run_retires _ _ _ _ Hok Hrun) as E. cbn in E. rewrite Hfin in E. apply app_inv_head, (f_equal length) in E.
    rewrite !length_map in E. unfold pending at 1 in Hp. unfold retiring in *.
    destruct ((0 <=? exe_cnt l) && (exe_cnt l <=? 1)); [by apply app_inj_1 in Hp as [-> _]|by destruct ds]. }
  exists l', ds, reqs. rewrite Hrun, Hfin, Hreq. split; [done|].
  split; [done|by eauto| |done|done| | |].
  - split; [done| |intros n Hn'; apply Hn; rewrite Hp, elem_of_app; by right|by rewrite He2|].
    + destruct Hcfg as (_ & _ & _ & ->). done.
    + destruct Hcfg as (_ & -> & _ & _). done.
  - rewrite Ht2, <- Ht0. done.
  - by rewrite Hwl, Hw, Hw0.
  - rewrite Hwl. by rewrite Hi0 in Hr.
Qed.

(** ** All lanes *)

Inductive lanes_run : list Lane → list Lane → list Node → list (nat * Z) → Prop :=
  | lanes_run_nil : lanes_run [] [] [] []
  | lanes_run_cons l l' ls ls' ds ds' reqs reqs' :
      lane_run l l' ds reqs → lanes_run ls ls' ds' reqs' →
      lanes_run (l :: ls) (l' :: ls') (ds ++ ds') (reqs ++ reqs').

Lemma run_lanes_acc ls : ∀ acc g, Forall lane_live ls →
  ∃ ls' ds reqs,
    foldM (λ '(ls, g) l, '(l, g) ← run l g; Ret (ls ++ [l], g)) (acc, g) ls =
      Ret (acc ++ ls', mkGlobals (finished_chains g ++ map retired ds) (mem_req_queue g ++ reqs)) ∧
    lanes_run ls ls' ds reqs.
Proof.
  induction ls as [|l ls IH]; intros acc g Hl; cbn [foldM].
  { exists [], [], []. cbn. rewrite !app_nil_r. split; [by destruct g|constructor]. }
  apply Forall_cons in Hl as [Hl Hls].
  destruct (lane_run_ok l g Hl) as (l' & ds & reqs & -> & Hr). cbn [mbind outcome_bind].
  destruct (IH (acc ++ [l']) (mkGlobals (finished_chains g ++ map retired ds)
    (mem_req_queue g ++ reqs)) Hls) as (ls' & ds' & reqs' & -> & Hrs).
  exists (l' :: ls'), (ds ++ ds'), (reqs ++ reqs'). cbn. rewrite map_app, <- !app_assoc.
  split; [done|by constructor].
Qed.

Lemma lanes_run_retiring ls ls' ds reqs : lanes_run ls ls' ds reqs → ds = concat (retiring <$> ls).
Proof. induction 1 as [|? ? ? ? ? ? ? ? [] _ IH]; [done|]. cbn. congruence. Qed.

Lemma lanes_run_length ls ls' ds reqs : lanes_run ls ls' ds reqs → length ls' = length ls.
Proof. induction 1; cbn; congruence. Qed.

Lemma lanes_run_live ls ls' ds reqs : lanes_run ls ls' ds reqs → Forall lane_live ls'.
Proof. induction 1 as [|? ? ? ? ? ? ? ? []]; constructor; done. Qed.

Lemma lanes_run_pending ls ls' ds reqs :
  lanes_run ls ls' ds reqs → concat (pending <$> ls) ≡ₚ ds ++ concat (pending <$> ls').
Proof.
  induction 1 as [|l l' ls ls' ds ds' reqs reqs' [] _ IH]; cbn; [done|].
  rewrite lr_pending0, IH, <- !app_assoc. apply Permutation_app_head.
  apply Permutation_app_swap_app.
Qed.

Lemma lanes_run_waiting ls ls' ds reqs :
  lanes_run ls ls' ds reqs →
  concat (waiting <$> ls') ≡ₚ concat (waiting <$> ls) ++ reqs.*2.
Proof.
  induction 1 as [|l l' ls ls' ds ds' reqs reqs' [] _ IH]; cbn; [done|].
  rewrite lr_wait0, IH, fmap_app, <- !app_assoc. apply Permutation_app_head.
  apply Permutation_app_swap_app.
Qed.

Lemma lanes_run_todo ls ls' ds reqs :
  lanes_run ls ls' ds reqs →
  ∃ xs, concat (todo <$> ls) ≡ₚ xs ++ concat (todo <$> ls') ∧ reqs.*2 ⊆+ mem_ids xs.
Proof.
  induction 1 as [|l l' ls ls' ds ds' reqs reqs' [] _ IH]; cbn; [by exists []|].
  destruct lr_todo0 as (xs & -> & Hx), IH as (xs' & Hp & Hx'). exists (xs ++ xs').
  split.
  - rewrite Hp, <- !app_assoc. apply Permutation_app_head.
    apply Permutation_app_swap_app.
  - rewrite fmap_app, mem_ids_app. by apply submseteq_app.
Qed.

(** The lanes are numbered from [k]. *)
Definition numbered (k : nat) (ls : list Lane) : Prop :=
  ∀ i l, ls !! i = Some l → laneID l = (k + i)%nat.

Lemma lanes_run_numbered ls ls' ds reqs k :
  lanes_run ls ls' ds reqs → numbered k ls → numbered k ls'.
Proof.
  intros Hr. revert k. induction Hr as [|l l' ls ls' ds ds' reqs reqs' [] _ IH]; intros k Hk [|i] x Hx;
    cbn in Hx; try done.
  - simplify_eq. destruct lr_config0 as (-> & _). by apply (Hk 0%nat).
  - replace (k + S i)%nat with (S k + i)%nat by lia. eapply IH; [|done].
    intros j y Hy. rewrite (Hk (S j) y Hy). lia.
Qed.

(** Who waits after the cycle, and the requests by lane. *)
Lemma lanes_run_lookup ls ls' ds reqs k :
  lanes_run ls ls' ds reqs → numbered k ls →
  NoDup reqs.*1 ∧
  (∀ i n, (i, n) ∈ reqs → ∃ j l', i = (k + j)%nat ∧ ls' !! j = Some l' ∧ waiting l' = [n]) ∧
  (∀ j l' n, ls' !! j = Some l' → n ∈ waiting l' →
     (∃ l, ls !! j = Some l ∧ n ∈ waiting l ∧ (k + j)%nat ∉ reqs.*1) ∨ ((k + j)%nat, n) ∈ reqs) ∧
  (∀ j l n, ls !! j = Some l → n ∈ waiting l → ∃ l', ls' !! j = Some l' ∧ n ∈ waiting l').
Proof.
  intros Hr. revert k.
  induction Hr as [|l l' ls ls' ds ds' reqs reqs' H Hrs IH]; intros k Hk.
  { split_and!; [constructor|by intros ? ? ?%not_elem_of_nil|done|done]. }
  assert (numbered (S k) ls) as Hk'.
  { intros j y Hy. rewrite (Hk (S j) y Hy). lia. }
  destruct (IH (S k) Hk') as (I1 & I2 & I3 & I4).
  assert (laneID l = k) as Hid by (rewrite (Hk 0%nat l eq_refl); lia).
  assert (∀ i, i ∈ reqs'.*1 → (k < i)%nat) as Hgt.
  { intros i ([? n] & -> & Hn)%list_elem_of_fmap. destruct (I2 _ _ Hn) as (j & _ & -> & _). cbn. lia. }
  assert (∀ i, i ∈ reqs.*1 → i = k) as Heq.
  { intros i Hi. destruct (lr_reqs _ _ _ _ H) as [->|(n & -> & _)]; [by apply not_elem_of_nil in Hi|].
    apply list_elem_of_singleton in Hi. cbn in Hi. congruence. }
  split_and!.
  - rewrite fmap_app. apply NoDup_app. split_and!; [|intros i Hi Hi'|done].
    + destruct (lr_reqs _ _ _ _ H) as [->|(n & -> & _)]; cbn; [constructor|apply NoDup_singleton].
    + apply Heq in Hi as ->. apply Hgt in Hi'. lia.
  - intros i n [Hin|Hin]%elem_of_app.
    + destruct (lr_reqs _ _ _ _ H) as [->|(n' & -> & Hw)]; [by apply not_elem_of_nil in Hin|].
      apply list_elem_of_singleton in Hin as [= -> ->]. exists 0%nat, l'. by rewrite Hid, Nat.add_0_r.
    + destruct (I2 i n Hin) as (j & x & -> & Hj & Hw). exists (S j), x. split; [lia|done].
  - intros [|j] x n Hx Hn; cbn in Hx.
    + injection Hx as <-. rewrite Nat.add_0_r, (lr_wait _ _ _ _ H) in *.
      destruct (lr_reqs _ _ _ _ H) as [->|(n' & -> & Hw)].
      * left. exists l. cbn in Hn. rewrite app_nil_r in Hn. split_and!; [done|done|].
        cbn. intros Hgt'%Hgt. lia.
      * rewrite (lr_wait _ _ _ _ H) in Hw. rewrite Hw in Hn.
        apply list_elem_of_singleton in Hn as ->. right. rewrite Hid. apply elem_of_app; left. left.
    + destruct (I3 j x n Hx Hn) as [(y & Hy & Hny & Hno)|Hin].
      * left. exists y. split_and!; [done|done|]. rewrite fmap_app, not_elem_of_app.
        replace (k + S j)%nat with (S k + j)%nat by lia. split; [|done]. intros Hi%Heq. lia.
      * right. replace (k + S j)%nat with (S k + j)%nat by lia. apply elem_of_app; by right.
  - intros [|j] x n Hx Hn; cbn in Hx.
    + injection Hx as <-. exists l'. split; [done|]. rewrite (lr_wait _ _ _ _ H). apply elem_of_app; by left.
    + destruct (I4 j x n Hx Hn) as (y & Hy & Hny). by exists y.
Qed.

(** ** Lanes, request buffer and wake-up map *)

(** [buf] are the buffered nodes, [rest] all instructions not yet started. *)
Record link_ok (buf : list Z) (ls : list Lane) (m : ordmap nat Z) (rest : list Node) : Prop := {
  lk_buf : buf ≡ₚ concat (waiting <$> ls);
  lk_map : ∀ i l n, ls !! i = Some l → n ∈ waiting l → mfind i m = Some n;
  lk_stale : ∀ i n, mfind i m = Some n →
    (∃ l, ls !! i = Some l ∧ n ∈ waiting l) ∨ (n ∉ concat (waiting <$> ls) ∧ n ∉ mem_ids rest);
  lk_nodup : NoDup (concat (waiting <$> ls) ++ mem_ids rest);
  lk_sorted : key_sorted m
}.

Definition set_reqs (reqs : list (nat * Z)) (m : ordmap nat Z) : ordmap nat Z :=
  foldl (λ m '(l_id, n_id), mset l_id n_id m) m reqs.

Lemma set_reqs_sorted reqs m : key_sorted m → key_sorted (set_reqs reqs m).
Proof.
  revert m. induction reqs as [|[i n] reqs IH]; intros m Hm; cbn; [done|].
  by apply IH, key_sorted_alter.
Qed.

Lemma set_reqs_find reqs m i :
  NoDup reqs.*1 →
  (∀ n, (i, n) ∈ reqs → mfind i (set_reqs reqs m) = Some n) ∧
  (i ∉ reqs.*1 → mfind i (set_reqs reqs m) = mfind i m).
Proof.
  revert m. induction reqs as [|[j k] reqs IH]; intros m Hnd.
  { split; [by intros ? ?%not_elem_of_nil|done]. }
  change (set_reqs ((j, k) :: reqs) m) with (set_reqs reqs (mset j k m)).
  rewrite fmap_cons in *. cbn [fst] in *.
  apply NoDup_cons in Hnd as [Hj Hnd]. destruct (IH (mset j k m) Hnd) as [H1 H2]. split.
  - intros n [[= -> ->]|Hin]%elem_of_cons; [|by apply H1].
    rewrite H2 by done. apply mfind_set_eq.
  - intros [Hne Hi]%not_elem_of_cons. rewrite H2 by done. by apply mfind_set_ne.
Qed.

Lemma elem_waiting ls i l n : ls !! i = Some l → n ∈ waiting l → n ∈ concat (waiting <$> ls).
Proof.
  intros Hi Hn. apply elem_of_concat_lookup. exists i, (waiting l).
  by rewrite list_lookup_fmap, Hi.
Qed.

(** After a cycle of the lanes, recording and buffering the requests restores
    the link. *)
Lemma link_send buf ls m rest ls' ds reqs xs rest' :
  link_ok buf ls m rest → numbered 0 ls → lanes_run ls ls' ds reqs →
  rest ≡ₚ xs ++ rest' → reqs.*2 ⊆+ mem_ids xs →
  link_ok (buf ++ reqs.*2) ls' (set_reqs reqs m) rest' ∧ NoDup (buf ++ reqs.*2) ∧
  ∀ n, n ∈ reqs.*2 → n ∈ mem_ids rest.
Proof.
  intros [Hbuf Hmap Hstale Hnd Hs] Hnum Hrun Hrest Hsub.
  pose proof (lanes_run_waiting _ _ _ _ Hrun) as Hw.
  destruct (lanes_run_lookup _ _ _ _ 0 Hrun Hnum) as (Hk & Hreq & Hback & Hfwd). cbn in *.
  assert (mem_ids rest ≡ₚ mem_ids xs ++ mem_ids rest') as Hmr by (by rewrite Hrest, mem_ids_app).
  assert (∀ n, n ∈ reqs.*2 → n ∈ mem_ids rest) as Hin.
  { intros n Hn. rewrite Hmr. apply elem_of_app; left. by eapply elem_of_submseteq. }
  assert ((concat (waiting <$> ls) ++ reqs.*2) ++ mem_ids rest'
          ⊆+ concat (waiting <$> ls) ++ mem_ids rest) as Hsub'.
  { rewrite Hmr, <- app_assoc. apply submseteq_app; [done|]. by apply submseteq_app. }
  assert (NoDup ((concat (waiting <$> ls) ++ reqs.*2) ++ mem_ids rest')) as Hnd'.
  { by eapply NoDup_submseteq_inv. }
  split_and!; [split| |done].
  - by rewrite Hw, Hbuf.
  - intros i l n Hl Hn. destruct (set_reqs_find reqs m i Hk) as [H1 H2].
    destruct (Hback i l n Hl Hn) as [(l0 & Hl0 & Hn0 & Hno)|Hir]; [|by apply H1].
    rewrite H2 by done. by eapply Hmap.
  - intros i n Hi. destruct (set_reqs_find reqs m i Hk) as [H1 H2].
    destruct (decide (i ∈ reqs.*1)) as [([? n'] & -> & Hir)%list_elem_of_fmap|Hno].
    + cbn in *. rewrite (H1 n' Hir) in Hi. injection Hi as ->.
      destruct (Hreq _ _ Hir) as (j & l' & -> & Hj & Hwl). left. exists l'. rewrite Hwl.
      split; [done|left].
    + rewrite H2 in Hi by done. destruct (Hstale i n Hi) as [(l & Hl & Hn)|[Hn1 Hn2]].
      * left. by eapply Hfwd.
      * right. rewrite Hw, not_elem_of_app. split_and!; [done|intros ?%Hin; done|].
        intros Hr'. apply Hn2. rewrite Hmr. apply elem_of_app; by right.
  - by rewrite Hw.
  - by apply set_reqs_sorted.
  - rewrite Hbuf. by apply NoDup_app in Hnd' as [? _].
Qed.

Lemma waiting_single l n : lane_live l → n ∈ waiting l →
  waiting l = [n] ∧ exe_cnt l = -1 ∧ ∃ x, exe_stack l = [x].
Proof.
  intros [[_ _ Hx] _ _ _ _]. unfold waiting. destruct (exe_cnt l =? -1) eqn:E;
    [|by intros ?%not_elem_of_nil].
  destruct Hx as [[-> _]|[x ->]]; cbn; [by intros ?%not_elem_of_nil|].
  intros ->%list_elem_of_singleton. split_and!; [done|lia|eauto].
Qed.

Lemma setExe_live l n :
  lane_live l → n ∈ waiting l →
  lane_live (setExeCounter 0 l) ∧ waiting (setExeCounter 0 l) = [] ∧
  pending (setExeCounter 0 l) = pending l ∧ todo (setExeCounter 0 l) = todo l.
Proof.
  intros Hl Hn. destruct (waiting_single l n Hl Hn) as (_ & _ & x & Hx).
  destruct Hl as [[Hp Hf _] Ht Hns Hc Hm].
  split_and!; try done. split; try done.
  split; [done|done|]. right. by exists x.
Qed.

Lemma find_req_link buf ls m rest n :
  link_ok buf ls m rest → n ∈ buf →
  ∃ i l, find_req n m = Some i ∧ ls !! i = Some l ∧ n ∈ waiting l.
Proof.
  intros [Hbuf Hmap Hstale _ Hs] Hn. rewrite Hbuf in Hn.
  pose proof Hn as Hn'. apply elem_of_concat_lookup in Hn' as (i0 & w & Hw & Hnw).
  rewrite list_lookup_fmap in Hw. destruct (ls !! i0) as [l0|] eqn:Hl0; [|done].
  injection Hw as <-. specialize (Hmap i0 l0 n Hl0 Hnw). apply mfind_elem in Hmap.
  unfold find_req.
  destruct (list_find_elem_of (λ e : nat * Z, e.2 = n) m (i0, n) Hmap eq_refl) as [[j [i k]] Hfind].
  rewrite Hfind. cbn. apply list_find_Some in Hfind as (Hj & Hk & _). cbn in Hk. subst k.
  exists i. apply list_elem_of_lookup_2, mfind_Some in Hj; [|done].
  destruct (Hstale i n Hj) as [(l & Hl & Hnl)|[Hno _]]; [|done]. by exists l.
Qed.

(** What waking does to a lane: only a waiting one changes. *)
Definition wake_rel (l l' : Lane) : Prop :=
  same_config l l' ∧ pending l' = pending l ∧ todo l' = todo l ∧
  (l' = l ∨ (∃ n, n ∈ waiting l) ∧ l' = setExeCounter 0 l).

Lemma wake_rel_refl l : wake_rel l l.
Proof. unfold wake_rel, same_config. split_and!; try done. by left. Qed.

Lemma wake_rel_trans l1 l2 l3 : wake_rel l1 l2 → wake_rel l2 l3 → wake_rel l1 l3.
Proof.
  intros (A1 & A2 & A3 & A4) (B1 & B2 & B3 & B4). unfold wake_rel, same_config in *.
  destruct_and!. split_and!; try congruence.
  destruct A4 as [->|[Hw ->]], B4 as [->|[Hw' ->]]; [by left|right; by split..].
Qed.

(** One answer wakes the lane that waits for it. *)
Lemma link_wake n buf ls m rest :
  link_ok (n :: buf) ls m rest → Forall lane_live ls →
  ∃ i l, find_req n m = Some i ∧ ls !! i = Some l ∧ n ∈ waiting l ∧
    link_ok buf (<[i := setExeCounter 0 l]> ls) m rest.
Proof.
  intros Hlink Hlive. destruct (find_req_link _ _ _ _ n Hlink ltac:(left)) as (i & l & Hf & Hl & Hn).
  exists i, l. split_and!; [done..|].
  rewrite Forall_forall in Hlive. pose proof (Hlive l (list_elem_of_lookup_2 _ _ _ Hl)) as Hll.
  destruct (waiting_single l n Hll Hn) as (Hw & _ & _).
  destruct (setExe_live l n Hll Hn) as (_ & Hw' & _).
  destruct Hlink as [Hbuf Hmap Hstale Hnd Hs].
  set (l' := setExeCounter 0 l) in *.
  assert (concat (waiting <$> ls) ≡ₚ n :: concat (waiting <$> <[i := l']> ls)) as Hc.
  { rewrite list_fmap_insert, Hw'.
    pose proof (concat_insert (waiting <$> ls) i [n] []) as Hci.
    rewrite app_nil_r in Hci. rewrite <- Hci by (rewrite list_lookup_fmap, Hl; cbn; by rewrite Hw).
    by rewrite Permutation_app_comm. }
  rewrite Hc in Hnd. cbn in Hnd. apply NoDup_cons in Hnd as [Hnn Hnd].
  split; [|intros j x k Hj Hk|intros j k Hj| |done].
  - apply (Permutation_cons_inv (a := n)). by rewrite Hbuf, Hc.
  - destruct (decide (i = j)) as [<-|Hne].
    + rewrite list_lookup_insert_eq in Hj by (by eapply lookup_lt_Some). injection Hj as <-.
      rewrite Hw' in Hk. by apply not_elem_of_nil in Hk.
    + rewrite list_lookup_insert_ne in Hj by done. by eapply Hmap.
  - destruct (decide (k = n)) as [->|Hkn].
    { right. by apply not_elem_of_app in Hnn. }
    destruct (Hstale j k Hj) as [(x & Hx & Hkx)|[Hno Hno']].
    + left. exists x. split; [|done]. rewrite list_lookup_insert_ne; [done|].
      intros <-. simplify_eq. rewrite Hw in Hkx. by apply list_elem_of_singleton in Hkx.
    + right. split; [|done]. rewrite Hc in Hno. by apply not_elem_of_cons in Hno as [_ ?].
  - done.
Qed.

Lemma wake_loop m rest nodes : ∀ buf ls,
  link_ok (nodes ++ buf) ls m rest → Forall lane_live ls →
  ∃ ls', foldM (λ ls n,
      i ← deref (find_req n m);
      l ← ls.[i]!;
      upd_idx i (setExeCounter 0 l) ls) ls nodes = Ret ls' ∧
    link_ok buf ls' m rest ∧ Forall lane_live ls' ∧
    Forall2 wake_rel ls ls'.
Proof.
  induction nodes as [|n nodes IH]; intros buf ls Hlink Hlive; cbn [foldM].
  { exists ls. split_and!; [done|done|done|].
    apply Forall_Forall2_diag, Forall_forall. intros l _. apply wake_rel_refl. }
  cbn [app] in Hlink.
  destruct (link_wake n (nodes ++ buf) ls m rest Hlink Hlive) as (i & l & Hf & Hl & Hn & Hlink').
  rewrite Hf. cbn [deref mbind outcome_bind]. rewrite (at_idx_Some _ _ _ Hl). cbn [mbind outcome_bind].
  pose proof (lookup_lt_Some _ _ _ Hl) as Hi. rewrite upd_idx_ret by done. cbn [mbind outcome_bind].
  assert (lane_live l) as Hll.
  { rewrite Forall_forall in Hlive. apply Hlive. by eapply list_elem_of_lookup_2. }
  destruct (setExe_live l n Hll Hn) as (Hl1 & _ & Hp1 & Ht1).
  destruct (IH buf _ Hlink') as (ls' & -> & H1 & H2 & H3); [by apply Forall_insert|].
  exists ls'. split_and!; [done..|].
  assert (Forall2 wake_rel ls (<[i := setExeCounter 0 l]> ls)) as H0.
  { rewrite <- (list_insert_id ls i l Hl) at 1. apply Forall2_insert.
    - apply Forall_Forall2_diag, Forall_forall. intros x _. apply wake_rel_refl.
    - unfold wake_rel, same_config. split_and!; try done. right. split; [by exists n|done]. }
  clear -H0 H3. revert ls' H3. induction H0 as [|a b la lb A H0 IH]; intros ls' H3;
    inversion H3 as [|? c ? lc B]; subst; constructor; [|by apply IH].
  by eapply wake_rel_trans.
Qed.

(** ** Releasing dependants *)

Definition deps_of (s : nat) (u : ordmap nat (list nat)) : list nat := default [] (mfind s u).

Lemma deps_of_alter s k u : deps_of s (malter (default []) k u) = deps_of s u.
Proof.
  unfold deps_of. rewrite mfind_alter. destruct (kcmp s k) eqn:E; [|done..].
  apply kcmp_eq in E as ->. by destruct (mfind k u).
Qed.

(** [t'] is [t] with the entries of the columns [ids] cleared for the
    dependants of these chains. *)
Definition cleared (ids : list nat) (u : ordmap nat (list nat)) (t t' : gmap (nat * nat) Z) : Prop :=
  ∀ d s, default 0 (t' !! (d, s)) =
    if decide (s ∈ ids ∧ d ∈ deps_of s u) then 0 else default 0 (t !! (d, s)).

Lemma clear_column s ds t :
  (s < MAX_NUM_CHAIN)%nat → (∀ d, d ∈ ds → (d < MAX_NUM_CHAIN)%nat) →
  ∃ t', foldM (λ t ch_free, if Z.of_nat s <? 0 then Raise OutOfBounds else depen_set ch_free s 0 t) t ds
      = Ret t' ∧
    (∀ k v, t' !! k = Some v → v = 0 ∨ t !! k = Some v) ∧
    ∀ d x, default 0 (t' !! (d, x)) = if decide (x = s ∧ d ∈ ds) then 0 else default 0 (t !! (d, x)).
Proof.
  intros Hs. revert t. induction ds as [|d0 ds IH]; intros t Hds; cbn [foldM].
  { exists t. split_and!; [done|by right|]. intros d x. rewrite decide_False; [done|].
    by intros [_ ?%not_elem_of_nil]. }
  assert ((Z.of_nat s <? 0) = false) as Hneg by lia. rewrite Hneg in IH |- *.
  rewrite depen_set_ret by (first [exact Hs|apply Hds; left]). cbn [mbind outcome_bind].
  destruct (IH (<[(d0, s) := 0]> t)) as (t' & Ht' & Hb & Hl); [intros d Hd; apply Hds; by right|].
  exists t'. split_and!; [done| |].
  - intros k v Hk. destruct (Hb k v Hk) as [->|Hk']; [by left|].
    destruct (decide (k = (d0, s))) as [->|Hne].
    + rewrite lookup_insert_eq in Hk'. injection Hk' as <-. by left.
    + rewrite lookup_insert_ne in Hk' by done. by right.
  - intros d x. rewrite Hl. destruct (decide ((d, x) = (d0, s))) as [[= -> ->]|Hne].
    + rewrite lookup_insert_eq, (decide_True (P := s = s ∧ d0 ∈ d0 :: ds)) by (split; [done|left]).
      by destruct (decide _).
    + rewrite lookup_insert_ne by done.
      destruct (decide (x = s ∧ d ∈ ds)) as [[-> Hd]|Hno].
      * rewrite decide_True; [done|]. split; [done|by right].
      * rewrite decide_False; [done|]. intros [-> [->|Hd]%elem_of_cons]; [done|by apply Hno].
Qed.

Lemma retired_key n : (c_id n < MAX_NUM_CHAIN)%nat →
  Z.to_nat (u32 (retired n)) = c_id n ∧ retired n = Z.of_nat (c_id n).
Proof.
  unfold retired, MAX_NUM_CHAIN. intros Hn. rewrite i32_id by lia. rewrite u32_id by lia. lia.
Qed.

Lemma updateChains_ok c ds reqs :
  (∀ n, n ∈ ds → (c_id n < MAX_NUM_CHAIN)%nat) →
  (∀ s d, d ∈ deps_of s (un_dependencies c) → (d < MAX_NUM_CHAIN)%nat) →
  ∃ u t, updateChains c (mkGlobals (map retired ds) reqs) =
      Ret ({ c with un_dependencies := u; depen_table := t }, mkGlobals [] reqs) ∧
    (∀ s, deps_of s u = deps_of s (un_dependencies c)) ∧
    (∀ k v, t !! k = Some v → v = 0 ∨ depen_table c !! k = Some v) ∧
    cleared (map c_id ds) (un_dependencies c) (depen_table c) t.
Proof.
  intros Hds Hr. unfold updateChains. cbn [finished_chains mem_req_queue].
  match goal with |- context [foldM ?h c] => set (f := h) end.
  assert (∀ ds c, (∀ n, n ∈ ds → (c_id n < MAX_NUM_CHAIN)%nat) →
    (∀ s d, d ∈ deps_of s (un_dependencies c) → (d < MAX_NUM_CHAIN)%nat) →
    ∃ u t, foldM f c (map retired ds) = Ret { c with un_dependencies := u; depen_table := t } ∧
      (∀ s, deps_of s u = deps_of s (un_dependencies c)) ∧
      (∀ k v, t !! k = Some v → v = 0 ∨ depen_table c !! k = Some v) ∧
      cleared (map c_id ds) (un_dependencies c) (depen_table c) t) as Hgen.
  2: { destruct (Hgen ds c Hds Hr) as (u & t & -> & H). cbn [mbind outcome_bind].
       exists u, t. by split. }
  clear. induction ds as [|n ds IH]; intros c Hds Hr; cbn [map foldM].
  { exists (un_dependencies c), (depen_table c). split_and!; [by destruct c|done|by right|].
    intros d s. rewrite decide_False; [done|]. by intros [?%not_elem_of_nil _]. }
  destruct (retired_key n) as [Hk Hz]; [apply Hds; left|].
  unfold f at 2. cbv zeta. rewrite Hk, Hz. fold (deps_of (c_id n) (un_dependencies c)).
  destruct (clear_column (c_id n) (deps_of (c_id n) (un_dependencies c)) (depen_table c))
    as (t1 & -> & Hb1 & Hl1); [apply Hds; left|apply Hr|].
  cbn [mbind outcome_bind].
  set (c1 := { c with un_dependencies := malter (default []) (c_id n) (un_dependencies c); depen_table := t1 }).
  assert (∀ s, deps_of s (un_dependencies c1) = deps_of s (un_dependencies c)) as Hd1
    by (intros s; apply deps_of_alter).
  destruct (IH c1) as (u & t & -> & Hu & Hb & Hl).
  { intros x Hx. apply Hds. by right. }
  { intros s d. rewrite Hd1. apply Hr. }
  exists u, t. split_and!; [done|intros s; by rewrite Hu|..].
  - intros k v Hkv. destruct (Hb k v Hkv) as [->|Hkv']; [by left|by apply Hb1].
  - intros d s. rewrite Hl, Hd1. change (depen_table c1) with t1. rewrite Hl1.
    destruct (decide (s ∈ map c_id ds ∧ d ∈ deps_of s (un_dependencies c))) as [[H1 H2]|Hno].
    + rewrite decide_True; [done|]. split; [by right|done].
    + destruct (decide (s = c_id n ∧ d ∈ deps_of (c_id n) (un_dependencies c))) as [[-> H2]|Hno'].
      * rewrite decide_True; [done|]. split; [left|done].
      * rewrite decide_False; [done|]. intros [[->|H1]%elem_of_cons H2]; auto.
Qed.

(** ** The invariant of the core *)

(** Instructions not yet started: in a lane or in a chain not yet loaded. *)
Definition todos (c : Core) : list Node :=
  concat (todo <$> m_lanes c) ++ concat (instruction_list <$> input_chain c).

Section with_ruby.
Context `{RubyLaws R}.

Record core_ok (c : Core) (r : R) : Prop := {
  co_sched : sched_ok c;
  co_live : Forall lane_live (m_lanes c);
  co_num : numbered 0 (m_lanes c);
  co_mem : mem_ok (m_memory c) r;
  co_link : link_ok (buffered (m_memory c)) (m_lanes c) (mem_req_map c) (todos c);
  co_mapped : ∀ n, n ∈ mem_ids (todos c) → is_Some (memaddr_map (m_memory c) !! (num_iter c, n));
  co_nodes : ∀ n, n ∈ all_nodes c → node_timed n ∧ (c_id n < MAX_NUM_CHAIN)%nat;
  co_table : table_ok c;
  co_chains : chains_ok c;
  co_range : ∀ s d, d ∈ deps_of s (un_dependencies c) → (d < MAX_NUM_CHAIN)%nat
}.

Lemma concat_fmap_app {A B} (f g : A → list B) ls :
  concat ((λ l, f l ++ g l) <$> ls) ≡ₚ concat (f <$> ls) ++ concat (g <$> ls).
Proof.
  induction ls as [|l ls IH]; cbn; [done|]. rewrite IH, <- !app_assoc.
  apply Permutation_app_head, Permutation_app_swap_app.
Qed.

(** *** Sending the requests *)

Lemma send_loop r reqs : ∀ c,
  mem_ok (m_memory c) r →
  (∀ n, n ∈ reqs.*2 → is_Some (memaddr_map (m_memory c) !! (num_iter c, n))) →
  NoDup (buffered (m_memory c) ++ reqs.*2) →
  ∃ m, foldM (λ c '(l_id, n_id),
      m ← send_req (num_iter c) n_id (m_memory c);
      Ret ({ c with mem_req_map := mset l_id n_id (mem_req_map c); m_memory := m })) c reqs =
      Ret ({ c with mem_req_map := set_reqs reqs (mem_req_map c); m_memory := m }) ∧
    mem_ok m r ∧ buffered m = buffered (m_memory c) ++ reqs.*2 ∧
    memaddr_map m = memaddr_map (m_memory c).
Proof.
  induction reqs as [|[i n] reqs IH]; intros c Hm Hmap Hnd; cbn [foldM].
  { exists (m_memory c). rewrite app_nil_r. split_and!; [by destruct c|done..]. }
  rewrite fmap_cons in *. cbn [snd] in *.
  destruct (send_req_ok (num_iter c) n (m_memory c) r Hm) as (m & -> & Hm' & Hb & Ha).
  { apply Hmap. left. }
  { apply NoDup_app in Hnd as (_ & Hdis & _). intros Hin. apply (Hdis n Hin). left. }
  cbn [mbind outcome_bind].
  destruct (IH ({ c with mem_req_map := mset i n (mem_req_map c); m_memory := m }))
    as (m' & -> & Hm'' & Hb' & Ha').
  - done.
  - cbn. intros k Hk. rewrite Ha. apply Hmap. by right.
  - cbn. rewrite Hb, <- app_assoc. done.
  - exists m'. split_and!; [done|done| |cbn in Ha'; congruence].
    cbn in Hb'. by rewrite Hb', Hb, <- app_assoc.
Qed.

(** *** Before the scheduler runs *)

(** The memory's part of a cycle: [reqs] are buffered, then answers wake the
    lanes [ls1]. *)
Definition memory_step (c : Core) (r : R) (reqs : list (nat * Z)) (ls1 : list Lane) (c1 : Core) (r1 : R) : Prop :=
  ∃ m1 nodes, (reqs = [] → m1 = m_memory c) ∧ mem_ok m1 (advance_time r) ∧
    recv_resp mshr_fuel m1 (advance_time r) = Ret (nodes, m_memory c1, r1) ∧
    concat (waiting <$> ls1) ≡ₚ nodes ++ buffered (m_memory c1).

(** Lanes, memory and table after the first four steps of a cycle. *)
Lemma cycle_front c r :
  core_ok c r →
  ∃ c1 r1 ds reqs ls1,
    lanes_run (m_lanes c) ls1 ds reqs ∧
    Forall2 wake_rel ls1 (m_lanes c1) ∧
    input_chain c1 = input_chain c ∧ memory_step c r reqs ls1 c1 r1 ∧
    (∀ s, deps_of s (un_dependencies c1) = deps_of s (un_dependencies c)) ∧
    core_ok c1 r1 ∧
    cycle c new_globals r = (c' ← ooo_scheduler c1; Ret (c', new_globals, r1)).
Proof.
  intros [Hs Hlive Hnum Hmem Hlink Hmap Hnodes Htab Hch Hrange].
  destruct (run_lanes_acc (m_lanes c) [] new_globals Hlive) as (ls1 & ds & reqs & Hrl & Hrun).
  destruct (lanes_run_todo _ _ _ _ Hrun) as (xs & Hxs & Hsub).
  set (rest := concat (todo <$> ls1) ++ concat (instruction_list <$> input_chain c)).
  assert (todos c ≡ₚ xs ++ rest) as Hrest by (unfold todos, rest; by rewrite Hxs, app_assoc).
  destruct (link_send _ _ _ _ ls1 ds reqs xs rest Hlink Hnum Hrun Hrest Hsub) as (Hlink1 & Hnd & Hin).
  set (c0 := { c with m_lanes := ls1 }).
  assert (mem_ok (m_memory c0) (advance_time r)) as Hmem0 by (by apply advance_ok).
  destruct (send_loop (advance_time r) reqs c0 Hmem0) as (m1 & Hsend & Hm1 & Hb1 & Ha1).
  { intros n Hn. by apply Hmap, Hin. }
  { done. }
  destruct (recv_resp_ok m1 (advance_time r) Hm1) as (nodes & m2 & r2 & Hrecv & Hm2 & _ & Hb2 & Ha2).
  assert (link_ok (nodes ++ buffered m2) ls1 (set_reqs reqs (mem_req_map c)) rest) as Hlink2.
  { destruct Hlink1 as [Lb Lm Lst Lnd Lso]. split; try done.
    rewrite <- Hb2, Hb1. exact Lb. }
  destruct (wake_loop _ _ _ _ _ Hlink2 (lanes_run_live _ _ _ _ Hrun)) as (ls2 & Hwake & Hlink3 & Hlive2 & Hsame).
  set (c2 := { c with m_lanes := ls2; mem_req_map := set_reqs reqs (mem_req_map c); m_memory := m2 }).
  pose proof (lanes_run_pending _ _ _ _ Hrun) as Hpend.
  assert (concat (pending <$> ls2) = concat (pending <$> ls1) ∧ concat (todo <$> ls2) = concat (todo <$> ls1)
          ∧ length ls2 = length ls1) as (Hp2 & Ht2 & Hl2).
  { clear -Hsame. induction Hsame as [|a b la lb (_ & A2 & A3 & _) _ (I1 & I2 & I3)]; cbn; [done|].
    rewrite A2, A3, I1, I2. split_and!; congruence. }
  assert (all_nodes c ≡ₚ ds ++ all_nodes c2) as Hall.
  { unfold all_nodes; cbn. by rewrite Hpend, Hp2, app_assoc. }
  assert (∀ n, n ∈ ds → (c_id n < MAX_NUM_CHAIN)%nat) as Hds.
  { intros n Hn. apply Hnodes. rewrite Hall, elem_of_app. by left. }
  destruct (updateChains_ok c2 ds [] Hds Hrange) as (u & t & Hup & Hu & Hbits & Hclear).
  exists ({ c2 with un_dependencies := u; depen_table := t }), r2, ds, reqs, ls1.
  split_and!; [done|done|done| |done| |].
  - exists m1, nodes. split_and!; [|done|exact Hrecv|symmetry; apply Hlink2].
    intros ->. cbn in Hsend. injection Hsend as E. by rewrite <- E.
  - split; cbn; try done.
    + destruct Hs. split; cbn; try done.
      * by rewrite Hl2, (lanes_run_length _ _ _ _ Hrun).
      * by rewrite Hl2, (lanes_run_length _ _ _ _ Hrun).
      * intros k v Hk. destruct (Hbits k v Hk) as [->|Hk']; [by left|by eapply so_bits].
      * eapply Forall_impl; [exact Hlive2|]. by intros l [].
    + intros i l Hl. pose proof (lanes_run_numbered _ _ _ _ 0 Hrun Hnum) as Hn1.
      destruct (Forall2_lookup_r _ _ _ _ _ Hsame Hl) as (l1 & Hl1 & (Hid & _) & _).
      rewrite Hid. by apply Hn1.
    + unfold todos; cbn. rewrite Ht2. exact Hlink3.
    + intros n Hn. rewrite Ha2, Ha1. apply Hmap. unfold todos in Hn; cbn in Hn. rewrite Ht2 in Hn.
      rewrite Hrest, mem_ids_app, elem_of_app. by right.
    + intros n Hn. apply Hnodes. rewrite Hall, elem_of_app. by right.
    + intros d s Hne. cbn in Hne. rewrite Hclear in Hne.
      destruct (decide (s ∈ map c_id ds ∧ d ∈ deps_of s (un_dependencies c2))) as [|Hno]; [done|].
      cbn in Hne. destruct (Htab d s Hne) as [Hsn Hd]. split.
      2: { change (d ∈ deps_of s u). rewrite Hu. exact Hd. }
      change (s ∈ map c_id (all_nodes c2)).
      rewrite Hall, map_app, elem_of_app in Hsn. destruct Hsn as [Hsn|Hsn]; [|done].
      exfalso. by apply Hno.
    + intros s d Hd. change (d ∈ deps_of s u) in Hd. rewrite Hu in Hd. by eapply Hrange.
  - unfold cycle, run_one_cycle_core, run_lanes. rewrite Hrl.
    cbn [mbind outcome_bind app finished_chains mem_req_queue new_globals].
    fold c0. set (cS := { c0 with mem_req_map := set_reqs reqs (mem_req_map c0); m_memory := m1 }).
    assert (send_memory_req c0 (mkGlobals (map retired ds) reqs) = Ret (cS, mkGlobals (map retired ds) []))
      as -> by (unfold send_memory_req; cbn [mem_req_queue]; by rewrite Hsend).
    cbn [mbind outcome_bind].
    assert (update_mem_exe cS (advance_time r) = Ret (c2, r2)) as ->.
    { unfold update_mem_exe. change (m_memory cS) with m1. rewrite Hrecv. cbn [mbind outcome_bind].
      change (mem_req_map cS) with (set_reqs reqs (mem_req_map c)). change (m_lanes cS) with ls1.
      rewrite Hwake. reflexivity. }
    cbn [mbind outcome_bind]. rewrite Hup. done.
Qed.

(** *** The scheduler keeps the invariant *)

Lemma ext_fields ls ls' :
  Forall2 (λ l l', ∃ ns, lane_ext ns l l') ls ls' →
  exe_stack <$> ls' = exe_stack <$> ls ∧ fetch_stack <$> ls' = fetch_stack <$> ls ∧
  waiting <$> ls' = waiting <$> ls ∧ length ls' = length ls.
Proof.
  induction 1 as [|l l' ls ls' (ns & (_ & He & Hx & _ & Hf & _)) _ (I1 & I2 & I3 & I4)]; cbn; [done|].
  unfold waiting at 1 3. rewrite He, Hx, Hf, I1, I2, I3, I4. done.
Qed.

Lemma ooo_todos n i0 c c' ld :
  ooo_rel n i0 c c' ld → todos c' ≡ₚ todos c ∧ all_nodes c' ≡ₚ all_nodes c.
Proof.
  intros [_ Hls Hin _ Hq _]. destruct (ext_fields _ _ Hls) as (Hx & Hf & _ & _).
  assert (concat (todo <$> m_lanes c') ≡ₚ concat (todo <$> m_lanes c) ++ concat (instruction_list <$> ld)) as Ht.
  { unfold todo. rewrite !concat_fmap_app, Hf, Hq. by rewrite app_assoc. }
  assert (concat (pending <$> m_lanes c')
    ≡ₚ concat (pending <$> m_lanes c) ++ concat (instruction_list <$> ld)) as Hp.
  { change pending with (λ l, exe_stack l ++ todo l).
    rewrite !concat_fmap_app, Hx, Ht. by rewrite app_assoc. }
  unfold todos, all_nodes. rewrite Ht, Hp, Hin, fmap_app, concat_app, <- !app_assoc. done.
Qed.

Lemma sched_core_ok n i0 c c' r ld :
  core_ok c r → sched_ok c' → ooo_rel n i0 c c' ld → core_ok c' r.
Proof.
  intros [Hs Hlive Hnum Hmem Hlink Hmap Hnodes Htab Hch Hrange] Hs' Hrel.
  destruct (ooo_todos _ _ _ _ _ Hrel) as [Htd Hall].
  destruct Hrel as [(F1 & F2 & F3 & F4 & F5 & F6) Hls Hin _ _ _].
  destruct (ext_fields _ _ Hls) as (_ & _ & Hw & _).
  split.
  - done.
  - apply Forall_forall. intros l' Hl'. pose proof Hl' as [i Hi]%list_elem_of_lookup.
    destruct (Forall2_lookup_r _ _ _ _ _ Hls Hi) as (l & Hl & ns & Hext).
    rewrite Forall_forall in Hlive. destruct (Hlive l (list_elem_of_lookup_2 _ _ _ Hl)) as [L1 L2 L3 L4 L5].
    pose proof (lane_ext_ok ns l l' L1 Hext) as Hok'.
    destruct Hext as ((_ & Hm & _ & Hp) & He & _). split; [done|by rewrite Hp| |by rewrite He|by rewrite Hm].
    intros k Hk. apply Hnodes. rewrite <- Hall. apply elem_of_app; left.
    apply elem_of_concat. exists (pending l'). split; [by apply list_elem_of_fmap_2|done].
  - intros i l' Hl'. destruct (Forall2_lookup_r _ _ _ _ _ Hls Hl') as (l & Hl & ns & (Hid & _) & _).
    rewrite Hid. by apply Hnum.
  - by rewrite F4.
  - rewrite F4, F5. destruct Hlink as [L1 L2 L3 L4 L5].
    assert (∀ i n, (∃ l, m_lanes c' !! i = Some l ∧ n ∈ waiting l) ↔
                   (∃ l, m_lanes c !! i = Some l ∧ n ∈ waiting l)) as Hiff.
    { intros i k. assert ((waiting <$> m_lanes c') !! i = (waiting <$> m_lanes c) !! i) as E by (by rewrite Hw).
      rewrite !list_lookup_fmap in E. split; intros (l & Hl & Hk); rewrite Hl in E;
        [destruct (m_lanes c !! i) as [x|]|destruct (m_lanes c' !! i) as [x|]]; cbn in E; try done;
        exists x; split; [done|congruence|done|congruence]. }
    split.
    + by rewrite Hw.
    + intros i l k Hl Hk. destruct (proj1 (Hiff i k)) as (x & Hx & Hkx); [by exists l|]. by eapply L2.
    + intros i k Hik. rewrite Hw, Htd, Hiff. by apply L3.
    + by rewrite Hw, Htd.
    + done.
  - intros k. rewrite Htd, F4, F6. apply Hmap.
  - intros k. rewrite Hall. apply Hnodes.
  - intros d s. rewrite F1, F2, Hall. apply Htab.
  - intros ch Hch'. apply Hch. rewrite Hin. apply elem_of_app; by right.
  - intros s d. rewrite F2. apply Hrange.
Qed.

Lemma cycle_ok c r :
  core_ok c r →
  ∃ c1 c' r' ds reqs ls1 ld,
    lanes_run (m_lanes c) ls1 ds reqs ∧
    Forall2 wake_rel ls1 (m_lanes c1) ∧
    input_chain c1 = input_chain c ∧
    (∀ s, deps_of s (un_dependencies c') = deps_of s (un_dependencies c)) ∧
    core_ok c1 r' ∧ memory_step c r reqs ls1 c1 r' ∧
    ooo_rel (length (m_lanes c1)) 0 c1 c' ld ∧ core_ok c' r' ∧
    all_nodes c ≡ₚ ds ++ all_nodes c' ∧
    cycle c new_globals r = Ret (c', new_globals, r').
Proof.
  intros Hok. destruct (cycle_front c r Hok) as (c1 & r1 & ds & reqs & ls1 & H1 & H2 & H3 & Hms & H4 & Hok1 & Hc).
  destruct (ooo_scheduler_ok c1 (co_sched _ _ Hok1)) as (c' & ld & Hooo & Hs' & Hrel).
  exists c1, c', r1, ds, reqs, ls1, ld. split_and!; try done.
  - intros s. destruct (or_frame _ _ _ _ _ Hrel) as (_ & -> & _). apply H4.
  - by eapply sched_core_ok.
  - destruct (ooo_todos _ _ _ _ _ Hrel) as [_ ->]. unfold all_nodes. rewrite H3, app_assoc.
    rewrite (lanes_run_pending _ _ _ _ H1).
    assert (concat (pending <$> m_lanes c1) = concat (pending <$> ls1)) as ->; [|done].
    clear -H2. induction H2 as [|a b la lb (_ & A2 & _) _ IH]; cbn; [done|]. by rewrite A2, IH.
  - rewrite Hc, Hooo. done.
Qed.

(** [C4] A cycle of the core never faults: no assertion fires, no iterator is
    dereferenced at its end, no table or vector is indexed out of bounds; the
    invariant is kept, and the instructions of the program are neither lost
    nor duplicated: those before the cycle are those after it and, once each,
    those in the execute stage of a lane whose counter runs down in this cycle. *)
Theorem run_a_cycle_safe c r :
  core_ok c r →
  ∃ c' r', run_a_cycle c new_globals r = Ret (is_finish c', (c', new_globals, r')) ∧
    core_ok c' r' ∧ all_nodes c ≡ₚ concat (retiring <$> m_lanes c) ++ all_nodes c'.
Proof.
  intros Hok. destruct (cycle_ok c r Hok) as (c1 & c' & r' & ds & ? & ? & ? & Hrun & _ & _ & _ & _ & _ & _ & Hok' & Hall & Hc).
  exists c', r'. unfold run_a_cycle. rewrite Hc. by rewrite <- (lanes_run_retiring _ _ _ _ Hrun).
Qed.

(** ** Termination under a fixed-latency memory *)

(** All lanes have the same table and a memory mode below 3; [t] is the
    execution time of an instruction. *)
Record fixed_latency (t : Node → Z) (c : Core) : Prop := {
  fl_mode : ∀ l, l ∈ m_lanes c → 0 ≤ m_memory_mode l ≤ 2;
  fl_time : ∀ l n, l ∈ m_lanes c → exe_time l n = t n;
  fl_cnt : ∀ l, l ∈ m_lanes c → 0 ≤ exe_cnt l;
  fl_nodes : ∀ n, n ∈ all_nodes c → 0 ≤ t n
}.

(** Weight of a chain that is not loaded. *)
Definition chain_weight (t : Node → Z) (ch : Chain) : Z :=
  1 + zsum (λ n, t n + 7) (instruction_list ch).

Definition potential (t : Node → Z) (c : Core) : Z :=
  zsum (drain_sum t) (m_lanes c) + zsum (chain_weight t) (input_chain c).

Lemma elem_all_nodes c l n : l ∈ m_lanes c → n ∈ pending l → n ∈ all_nodes c.
Proof.
  intros Hl Hn. apply elem_of_app; left. apply elem_of_concat. exists (pending l).
  split; [by apply list_elem_of_fmap_2|done].
Qed.

Lemma fixed_drains t c r l :
  core_ok c r → fixed_latency t c → l ∈ m_lanes c → drains l ∧ drain_bound l = drain_sum t l.
Proof.
  intros Hok [F1 F2 F3 F4] Hl. split.
  - split; [|by apply F1|by apply F3|].
    + pose proof (co_live _ _ Hok) as Hlive. rewrite Forall_forall in Hlive. by apply Hlive.
    + intros n Hn. rewrite (F2 l n Hl). by eapply F4, elem_all_nodes.
  - unfold drain_bound, drain_sum. f_equal; [f_equal|]; apply zsum_ext; intros n _; by rewrite F2.
Qed.

(** One cycle of a lane. *)
Lemma lane_run_drain t l l' ds reqs :
  lane_run l l' ds reqs → drains l → (∀ n, exe_time l n = t n) →
  drains l' ∧ (∀ n, exe_time l' n = t n) ∧ drain_sum t l' ≤ drain_sum t l ∧
  (drain_sum t l' = drain_sum t l → pending l' = [] ∧ Lane.is_free l' = true ∧ drain_sum t l = 0).
Proof.
  intros [_ (g & g' & Hrun) _ Hcfg _ _ _ _] Hd Ht.
  assert (∀ n, exe_time l' n = t n) as Ht'.
  { intros n. rewrite (exe_time_config l l' n Hcfg (dr_mode l Hd)). apply Ht. }
  assert (∀ x, (∀ n, exe_time x n = t n) → drain_bound x = drain_sum t x) as Hb.
  { intros x Hx. unfold drain_bound, drain_sum. f_equal; [f_equal|]; apply zsum_ext; intros n _; by rewrite Hx. }
  rewrite <- (Hb l Ht), <- (Hb l' Ht').
  destruct (drain_bound_spec l Hd) as [Hb0 _].
  destruct (Z.eq_dec (drain_bound l) 0) as [Hz|Hz].
  - destruct (run_idle l g Hd Hz) as (l1 & H1 & Hd1 & Hz1). rewrite Hrun in H1. injection H1 as <- <-.
    destruct (drain_bound_spec l' Hd1) as [_ Hs]. split_and!; [done|done|lia|]. intros _.
    by destruct (Hs Hz1).
  - destruct (run_decreases l g Hd ltac:(lia)) as (l1 & g1 & H1 & Hd1 & Hlt).
    rewrite Hrun in H1. injection H1 as <- <-. split_and!; [done|done|lia|lia].
Qed.

Lemma lanes_run_drain t ls ls' ds reqs :
  lanes_run ls ls' ds reqs → (∀ l, l ∈ ls → drains l ∧ ∀ n, exe_time l n = t n) →
  (∀ l', l' ∈ ls' → drains l' ∧ ∀ n, exe_time l' n = t n) ∧
  zsum (drain_sum t) ls' ≤ zsum (drain_sum t) ls ∧
  (zsum (drain_sum t) ls' = zsum (drain_sum t) ls →
     (∀ l', l' ∈ ls' → pending l' = [] ∧ Lane.is_free l' = true) ∧
     ∀ l, l ∈ ls → drain_sum t l = 0).
Proof.
  induction 1 as [|l l' ls ls' ds ds' reqs reqs' Hr Hrs IH]; intros Hall.
  { split_and!; [by intros ? ?%not_elem_of_nil|done|].
    intros _. split; by intros ? ?%not_elem_of_nil. }
  destruct (Hall l ltac:(left)) as [Hd Ht].
  destruct (lane_run_drain t _ _ _ _ Hr Hd Ht) as (D1 & D2 & D3 & D4).
  destruct IH as (I1 & I2 & I3); [intros x Hx; apply Hall; by right|].
  rewrite !zsum_cons. split_and!; [intros x [->|Hx]%elem_of_cons; [done|by apply I1]|lia|].
  intros Heq. destruct D4 as (E1 & E2 & E3); [lia|]. destruct I3 as [J1 J2]; [lia|].
  split; intros x [->|Hx]%elem_of_cons; auto.
Qed.

Lemma ext_drain t ls ls' :
  Forall2 (λ l l', ∃ ns, lane_ext ns l l') ls ls' →
  zsum (drain_sum t) ls' - zsum (λ n, t n + 7) (concat (instruction_queue <$> ls')) =
  zsum (drain_sum t) ls - zsum (λ n, t n + 7) (concat (instruction_queue <$> ls)).
Proof.
  induction 1 as [|l l' ls ls' (ns & _ & He & Hx & Hfc & Hf & Hq) _ IH]; [done|].
  rewrite !fmap_cons. cbn [concat]. rewrite !zsum_app, !zsum_cons. unfold drain_sum at 1 3.
  rewrite He, Hx, Hfc, Hf, Hq, zsum_app. lia.
Qed.

(** The potential decreases with every cycle that starts with work left. *)
Lemma cycle_decreases t c r :
  core_ok c r → fixed_latency t c → ranked (un_dependencies c) →
  (input_chain c ≠ [] ∨ is_finish c = false) →
  ∃ c' r', cycle c new_globals r = Ret (c', new_globals, r') ∧ core_ok c' r' ∧
    fixed_latency t c' ∧ ranked (un_dependencies c') ∧ potential t c' < potential t c.
Proof.
  intros Hok Hfix [rank Hrank] Hwork.
  destruct (cycle_ok c r Hok) as (c1 & c' & r' & ds & reqs & ls1 & ld & Hrun & Hwake & Hin1 & Hdeps
    & Hok1 & _ & Hrel & Hok' & Hall & Hc).
  assert (∀ l, l ∈ m_lanes c → drains l ∧ ∀ n, exe_time l n = t n) as Hd.
  { intros l Hl. split; [by destruct (fixed_drains t c r l Hok Hfix Hl)|]. intros n. by apply (fl_time t c Hfix). }
  destruct (lanes_run_drain t _ _ _ _ Hrun Hd) as (D1 & D2 & D3).
  assert (m_lanes c1 = ls1) as Hls.
  { clear -D1 Hwake. induction Hwake as [|l l' ls ls' (_ & _ & _ & Hw) _ IH]; [done|]. f_equal.
    - destruct Hw as [->|((n & Hn) & _)]; [done|]. exfalso. revert Hn. unfold waiting.
      destruct (D1 l ltac:(left)) as [[_ _ He _] _].
      assert ((exe_cnt l =? -1) = false) as -> by lia. by intros ?%not_elem_of_nil.
    - apply IH. intros x Hx. apply D1. by right. }
  pose proof (or_lanes _ _ _ _ _ Hrel) as Hext.
  assert (∀ l', l' ∈ m_lanes c' → ∃ l ns, l ∈ ls1 ∧ lane_ext ns l l') as Hback.
  { intros l' [i Hi]%list_elem_of_lookup. destruct (Forall2_lookup_r _ _ _ _ _ Hext Hi) as (l & Hl & ns & He).
    exists l, ns. split; [|done]. rewrite Hls in Hl. by eapply list_elem_of_lookup_2. }
  exists c', r'. split_and!; [done|done| | |].
  - split.
    + intros l' Hl'. destruct (Hback l' Hl') as (l & ns & Hl & (_ & -> & _) & _). by apply D1.
    + intros l' n Hl'. destruct (Hback l' Hl') as (l & ns & Hl & Hcfg & _).
      destruct (D1 l Hl) as [Hdl Htl]. by rewrite (exe_time_config l l' n Hcfg (dr_mode l Hdl)).
    + intros l' Hl'. destruct (Hback l' Hl') as (l & ns & Hl & _ & -> & _). by apply D1.
    + intros n Hn. apply (fl_nodes t c Hfix). rewrite Hall, elem_of_app. by right.
  - exists rank. intros s d Hsd. apply Hrank. unfold deps_of in Hdeps. by rewrite <- Hdeps.
  - pose proof (ext_drain t _ _ Hext) as Hed. rewrite Hls in Hed.
    pose proof (zsum_perm (λ n, t n + 7) _ _ (or_queue _ _ _ _ _ Hrel)) as Hq.
    rewrite Hls, zsum_app in Hq.
    pose proof (zsum_perm (chain_weight t) _ _ (or_input _ _ _ _ _ Hrel)) as Hi.
    rewrite Hin1, zsum_app in Hi.
    assert (zsum (chain_weight t) ld
      = Z.of_nat (length ld) + zsum (λ n, t n + 7) (concat (instruction_list <$> ld))) as Hw.
    { clear. rewrite zsum_concat. induction ld as [|x ld IH]; [done|]. rewrite !zsum_cons, IH. unfold chain_weight.
      cbn [length]. lia. }
    unfold potential. rewrite Hi.
    destruct (Z.eq_dec (zsum (drain_sum t) ls1) (zsum (drain_sum t) (m_lanes c))) as [E|]; [|lia].
    assert (ld ≠ []) as Hne; [|destruct ld; [done|cbn [length] in Hw; lia]].
    destruct (decide (input_chain c = [])) as [Hnil|Hin].
    + exfalso. destruct Hwork as [|Hfin]; [done|]. destruct (D3 E) as [_ Hz].
      unfold is_finish in Hfin. rewrite bool_decide_eq_true_2 in Hfin by done. cbn [andb] in Hfin.
      apply not_true_iff_false in Hfin. apply Hfin, forallb_forall. intros l Hl%list_elem_of_In.
      destruct (fixed_drains t c r l Hok Hfix Hl) as [Hdl Hbl].
      destruct (drain_bound_spec l Hdl) as [_ Hspec]. rewrite Hbl in Hspec.
      by apply Hspec, Hz.
    + eapply (ooo_progress_aux c1 c' ld); try done; try apply Hok1.
      * exists rank. intros s d Hsd. apply Hrank.
        destruct (or_frame _ _ _ _ _ Hrel) as (_ & Hu & _). unfold deps_of in Hdeps.
        rewrite <- Hdeps, Hu. done.
      * rewrite Hls. by apply (D3 E).
      * by rewrite Hin1.
Qed.

Lemma potential_nonneg t c r : core_ok c r → fixed_latency t c → 0 ≤ potential t c.
Proof.
  intros Hok Hfix. unfold potential. apply Z.add_nonneg_nonneg.
  - apply zsum_nonneg. intros l Hl. destruct (fixed_drains t c r l Hok Hfix Hl) as [Hd <-].
    by apply drain_bound_spec.
  - apply zsum_nonneg. intros ch Hch. unfold chain_weight. apply Z.add_nonneg_nonneg; [lia|].
    apply zsum_nonneg. intros n Hn. apply Z.add_nonneg_nonneg; [|lia].
    apply (fl_nodes t c Hfix), elem_of_app. right. apply elem_of_concat.
    exists (instruction_list ch). split; [by apply list_elem_of_fmap_2|done].
Qed.

Lemma count_ok t c r n :
  core_ok c r → fixed_latency t c →
  core_ok ({ c with cycle_cnt := n }) r ∧ fixed_latency t ({ c with cycle_cnt := n }).
Proof.
  intros [[] ? ? ? ? ? ? ? ? ?] []. split; split; try done.
Qed.

Lemma run_loop_ok t n : ∀ c r,
  core_ok c r → fixed_latency t c → ranked (un_dependencies c) → potential t c ≤ Z.of_nat n →
  ∃ c' r', run_loop n c new_globals r = Ret (c', new_globals, r') ∧ is_finish c' = true
    ∧ core_ok c' r'.
Proof.
  induction n as [|n IH]; intros c r Hok Hfix Hr Hn; cbn [run_loop];
    (destruct (is_finish c) eqn:Hfin; [by exists c, r|]);
    destruct (count_ok t c r (u32 (cycle_cnt c + 1)) Hok Hfix) as [Hok0 Hfix0].
  - exfalso. destruct (cycle_decreases t c r Hok Hfix Hr (or_intror Hfin))
      as (c' & r' & _ & Hok' & Hfix' & _ & Hlt).
    pose proof (potential_nonneg t c' r' Hok' Hfix'). lia.
  - destruct (cycle_decreases t _ r Hok0 Hfix0 Hr (or_intror Hfin))
      as (c' & r' & -> & Hok' & Hfix' & Hr' & Hlt).
    cbn [mbind outcome_bind]. apply IH; try done.
    change (potential t { c with cycle_cnt := u32 (cycle_cnt c + 1) }) with (potential t c) in Hlt. lia.
Qed.

End with_ruby.

End cycle_inv.
