(* ===== verification/CoreStart.v ===== *)
(** * From the decomposed graph to a running core

    [Core::buildChains] and [Core::initialize]: the chains built from a
    decomposition, the dependency table, and the proof that a freshly
    initialised core satisfies the invariant of [CoreCycle.v]. *)

From S2P Require Import Prelude OrdMap ChainDeps Levels Graph Chain Lane Memory Core CoreSched CoreCycle.
From stdpp Require Import gmap.
From coqutil Require Import Datatypes.RecordSettersUsingExistingGetters.
Open Scope Z_scope.

(** ** [buildChains] *)

Section build.
Variable opcode : nat → string.
Variable llvm : ordmap string Z.
Variables un_deps rev_deps : ordmap nat (list nat).
Variable node_map : ordmap nat Z.

(** The instruction of vertex [ins] in chain [i]. *)
Definition node_of (i ins : nat) : Node :=
  mkNode i (u32 (default 0 (mfind ins node_map))) (u32 (Z.of_nat ins)) (u32 (Z.of_nat ins))
    (opcode ins) (default 0 (mfind (opcode ins) llvm)).

Definition is_mem_vertex (ins : nat) : bool :=
  bool_decide (opcode ins = "Load"%string) || bool_decide (opcode ins = "Store"%string).

(** The chain built from number [i] and vertices [vs]. *)
Definition chain_spec (i : nat) (vs : list nat) : Chain :=
  mkChain (match vs with [] => 0 | _ => i end)
    (match mfind i rev_deps with Some s => u32 (Z.of_nat (length s)) | None => 0 end)
    (default [] (mfind i rev_deps)) (default [] (mfind i un_deps))
    (node_of i <$> vs) (existsb is_mem_vertex vs).

Definition known (ins : nat) : Prop := is_Some (mfind (opcode ins) llvm).

Lemma buildNode_ok i ins : known ins → buildNode opcode llvm i node_map ins = Ret (node_of i ins).
Proof. intros [v Hv]. unfold buildNode, node_of. by rewrite Hv. Qed.

Lemma buildChain_ok i vs :
  (∀ ins, ins ∈ vs → known ins) →
  buildChain opcode llvm un_deps rev_deps node_map i vs = Ret (chain_spec i vs).
Proof.
  intros Hk. unfold buildChain.
  match goal with |- context [foldM ?h _ vs] => set (f := h) end.
  assert (∀ vs c, (∀ ins, ins ∈ vs → known ins) →
    foldM f c vs = Ret (mkChain (match vs with [] => chain_id c | _ => i end) (num_dependencies c)
      (Chain.live_in c) (Chain.live_out c) (instruction_list c ++ (node_of i <$> vs))
      (ch_mem c || existsb is_mem_vertex vs))) as Hgen.
  { clear. induction vs as [|ins vs IH]; intros c Hk; cbn [foldM].
    - cbn. rewrite app_nil_r, orb_false_r. by destruct c.
    - unfold f at 2. rewrite buildNode_ok by (apply Hk; left). cbn [mbind outcome_bind].
      fold (is_mem_vertex ins).
      rewrite IH by (intros x Hx; apply Hk; by right).
      cbn. destruct (is_mem_vertex ins); cbn; rewrite <- app_assoc, ?orb_true_r, ?orb_false_r;
        by destruct vs. }
  rewrite Hgen by done. cbn [mbind outcome_bind]. unfold chain_spec. cbn.
  by destruct (mfind i rev_deps), (mfind i un_deps), vs.
Qed.

Lemma buildChains_from_ok decom : ∀ i,
  (∀ vs ins, vs ∈ decom → ins ∈ vs → known ins) →
  buildChains_from opcode llvm un_deps rev_deps node_map i decom =
    Ret (imap (λ k vs, chain_spec (i + k) vs) decom).
Proof.
  induction decom as [|vs decom IH]; intros i Hk; cbn [buildChains_from]; [done|].
  rewrite buildChain_ok by (intros ins; apply Hk; left). cbn [mbind outcome_bind].
  rewrite IH by (intros vs' ins Hvs; apply Hk; by right). cbn. rewrite Nat.add_0_r.
  do 2 f_equal. apply imap_ext. intros k x _. unfold compose. by rewrite Nat.add_succ_r.
Qed.
End build.

(** Building the chains: when every opcode of the decomposition has a
    latency, [buildChains] returns and appends, for the chain at position [i]
    of the decomposition, a chain with number [i], its vertices in order with
    original id, opcode and latency, its live-in and live-out sets and their
    number, and the memory flag. *)
Theorem buildChains_correct opcode decom un_deps rev_deps node_map c :
  (∀ vs ins, vs ∈ decom → ins ∈ vs → is_Some (mfind (opcode ins) (instruction_llvm c))) →
  ∃ c', buildChains opcode decom un_deps rev_deps node_map c = Ret c' ∧
    input_chain c' = input_chain c ++
      imap (chain_spec opcode (instruction_llvm c) un_deps rev_deps node_map) decom ∧
    un_dependencies c' = un_deps ∧ num_chains c' = (length (input_chain c) + length decom)%nat.
Proof.
  intros Hk. unfold buildChains. rewrite buildChains_from_ok by done. cbn [mbind outcome_bind].
  eexists. split_and!; [done|done|done|]. cbn. by rewrite length_app, length_imap.
Qed.

(** ** The dependency table *)

Definition pairs_in (u : ordmap nat (list nat)) (d s : nat) : Prop := ∃ ds, (s, ds) ∈ u ∧ d ∈ ds.

#[export] Instance pairs_in_dec u d s : Decision (pairs_in u d s).
Proof.
  refine (cast_if (decide (Exists (λ e, e.1 = s ∧ d ∈ e.2) u))).
  - rewrite Exists_exists in *. destruct e as ([? ds] & Hin & Hd). cbn in *.
    destruct Hd as [-> Hd]. by exists ds.
  - rewrite Exists_exists in *. intros (ds & Hin & Hd). apply n. by exists (s, ds).
Defined.

Lemma depen_row_ok k ds t :
  (k < MAX_NUM_CHAIN)%nat → (∀ d, d ∈ ds → (d < MAX_NUM_CHAIN)%nat) →
  ∃ t', foldM (λ t ch_id, depen_set ch_id k 1 t) t ds = Ret t' ∧
    (∀ e v, t' !! e = Some v → v = 1 ∨ t !! e = Some v) ∧
    ∀ d s, default 0 (t' !! (d, s)) = if decide (s = k ∧ d ∈ ds) then 1 else default 0 (t !! (d, s)).
Proof.
  intros Hk. revert t. induction ds as [|d0 ds IH]; intros t Hds; cbn [foldM].
  { exists t. split_and!; [done|by right|]. intros d s. rewrite decide_False; [done|].
    by intros [_ ?%not_elem_of_nil]. }
  rewrite depen_set_ret by (first [exact Hk|apply Hds; left]). cbn [mbind outcome_bind].
  destruct (IH (<[(d0, k) := 1]> t)) as (t' & Ht' & Hb & Hl); [intros d Hd; apply Hds; by right|].
  exists t'. split_and!; [done| |].
  - intros e v He. destruct (Hb e v He) as [->|He']; [by left|].
    destruct (decide (e = (d0, k))) as [->|Hne].
    + rewrite lookup_insert_eq in He'. injection He' as <-. by left.
    + rewrite lookup_insert_ne in He' by done. by right.
  - intros d s. rewrite Hl. destruct (decide ((d, s) = (d0, k))) as [[= -> ->]|Hne].
    + rewrite lookup_insert_eq, (decide_True (P := k = k ∧ d0 ∈ d0 :: ds)) by (split; [done|left]).
      by destruct (decide _).
    + rewrite lookup_insert_ne by done.
      destruct (decide (s = k ∧ d ∈ ds)) as [[-> Hd]|Hno].
      * rewrite decide_True; [done|]. split; [done|by right].
      * rewrite decide_False; [done|]. intros [-> [->|Hd]%elem_of_cons]; [done|by apply Hno].
Qed.

Lemma depen_table_ok u : ∀ t,
  (∀ d s, pairs_in u d s → (d < MAX_NUM_CHAIN)%nat) →
  (∀ s, s ∈ mkeys u → (s < MAX_NUM_CHAIN)%nat) →
  ∃ t', foldM (λ t '(k, s), foldM (λ t ch_id, depen_set ch_id k 1 t) t s) t u = Ret t' ∧
    (∀ e v, t' !! e = Some v → v = 1 ∨ t !! e = Some v) ∧
    ∀ d s, default 0 (t' !! (d, s)) = if decide (pairs_in u d s) then 1 else default 0 (t !! (d, s)).
Proof.
  induction u as [|[k ds] u IH]; intros t Hd Hk; cbn [foldM].
  { exists t. split_and!; [done|by right|]. intros d s. rewrite decide_False; [done|].
    by intros (? & ?%not_elem_of_nil & _). }
  destruct (depen_row_ok k ds t) as (t1 & -> & Hb1 & Hl1).
  { apply Hk. left. }
  { intros d Hdd. apply (Hd d k). exists ds. split; [left|done]. }
  cbn [mbind outcome_bind].
  destruct (IH t1) as (t' & -> & Hb & Hl).
  { intros d s (x & Hx & Hdx). apply (Hd d s). exists x. split; [by right|done]. }
  { intros s Hs. apply Hk. by right. }
  exists t'. split_and!; [done| |].
  - intros e v He. destruct (Hb e v He) as [->|He']; [by left|by apply Hb1].
  - intros d s. rewrite Hl, Hl1.
    destruct (decide (pairs_in u d s)) as [(x & Hx & Hdx)|Hno].
    + rewrite decide_True; [done|]. exists x. split; [by right|done].
    + destruct (decide (s = k ∧ d ∈ ds)) as [[-> Hds]|Hno'].
      * rewrite decide_True; [done|]. exists ds. split; [left|done].
      * rewrite decide_False; [done|]. intros (x & [[= -> ->]|Hx]%elem_of_cons & Hdx); [by apply Hno'|].
        apply Hno. by exists x.
Qed.

(** The dependency table: for chain numbers below 700, exactly the
    entries [(d, s)] with [d] a dependant of [s] are set to 1, the others are
    left as they were; the table is indexed by dependant first. *)
Theorem initialize_depen_table_correct c :
  (∀ d s, pairs_in (un_dependencies c) d s → (d < MAX_NUM_CHAIN)%nat ∧ (s < MAX_NUM_CHAIN)%nat) →
  (∀ s, s ∈ mkeys (un_dependencies c) → (s < MAX_NUM_CHAIN)%nat) →
  ∃ t, initialize_depen_table c = Ret ({ c with depen_table := t }) ∧
    ∀ d s, default 0 (t !! (d, s)) =
      if decide (pairs_in (un_dependencies c) d s) then 1 else default 0 (depen_table c !! (d, s)).
Proof.
  intros Hd Hk. unfold initialize_depen_table.
  destruct (depen_table_ok (un_dependencies c) (depen_table c)) as (t & -> & _ & Hl);
    [intros d s Hp; by destruct (Hd d s Hp)|done|].
  exists t. split; [done|exact Hl].
Qed.

(** ** The start of a run *)

Section start.
Context `{RubyLaws R}.
Variable ruby : bool.

(** The state [initialize] is called in: no chain is loaded, no lane works, no
    request is outstanding. *)
Record start_ok (c : Core) (r : R) : Prop := {
  st_pre : presched_ready c;
  st_level : mfind "SCHEDULER"%string (core_parameter c) = Some 0;
  st_ids : NoDup (map chain_id (input_chain c));
  st_range : ∀ ch, ch ∈ map chain_id (input_chain c) → (ch < MAX_NUM_CHAIN)%nat;
  st_num : (num_chains c ≤ MAX_NUM_CHAIN)%nat;
  st_sorted : key_sorted (un_dependencies c);
  st_deps : ∀ s d, d ∈ deps_of s (un_dependencies c) →
    s ∈ map chain_id (input_chain c) ∧ (d < MAX_NUM_CHAIN)%nat;
  st_keys : ∀ s, s ∈ mkeys (un_dependencies c) → (s < MAX_NUM_CHAIN)%nat;
  st_table : ∀ k, default 0 (depen_table c !! k) = 0;
  st_chains : chains_ok c;
  st_live : Forall (lane_live ruby) (m_lanes c);
  st_idle : ∀ l, l ∈ m_lanes c → pending l = [];
  st_numbered : numbered 0 (m_lanes c);
  st_mem : mem_ok (m_memory c) r;
  st_buffer : buffered (m_memory c) = [];
  st_map : mem_req_map c = [];
  st_nodes : ∀ n, n ∈ concat (instruction_list <$> input_chain c) → node_timed n;
  st_mapped : ∀ n, n ∈ mem_ids ruby (concat (instruction_list <$> input_chain c)) →
    is_Some (memaddr_map (m_memory c) !! (num_iter c, n));
  st_once : NoDup (mem_ids ruby (concat (instruction_list <$> input_chain c)))
}.

Lemma idle_concat ls : (∀ l, l ∈ ls → pending l = []) →
  concat (pending <$> ls) = [] ∧ concat (todo <$> ls) = [] ∧ concat (waiting <$> ls) = [].
Proof.
  induction ls as [|l ls IH]; intros Hl; [done|]. rewrite !fmap_cons. cbn [concat].
  destruct (IH (λ x Hx, Hl x (list_elem_of_further _ _ _ Hx))) as (-> & -> & ->).
  specialize (Hl l ltac:(left)). rewrite Hl. unfold pending in Hl.
  apply app_eq_nil in Hl as [Hx Ht]. unfold todo, waiting. rewrite Hx, Ht.
  by destruct (exe_cnt l =? -1).
Qed.

Lemma mem_ids_elem ns n : n ∈ mem_ids ruby ns → ∃ x, x ∈ ns ∧ old_id x = n.
Proof.
  intros (x & -> & [_ Hx]%list_elem_of_filter)%list_elem_of_fmap. by exists x.
Qed.

Lemma core_initialize_ok junk c r :
  start_ok c r →
  ∃ c', initialize junk c = Ret c' ∧ core_ok ruby c' r ∧ all_nodes c' = all_nodes c ∧
    un_dependencies c' = un_dependencies c ∧ m_lanes c' = m_lanes c ∧
    input_chain c' = input_chain c ∧ m_memory c' = m_memory c.
Proof.
  intros [Sp Sl Si Sr Snum Ss Sd Sk St Sc Slv Sidle Sn Sm Sb Smap Snodes Smapped Sonce].
  destruct (idle_concat _ Sidle) as (I1 & I2 & I3). unfold initialize, initialize_depen_table.
  destruct (depen_table_ok (un_dependencies c) (depen_table c)) as (t & -> & Hb & Hl).
  { intros d s (ds & Hin & Hd). apply (Sd s d). unfold deps_of.
    apply mfind_Some in Hin; [|done]. by rewrite Hin. }
  { done. }
  cbn [mbind outcome_bind]. set (c1 := { c with depen_table := t }).
  change (core_parameter c1) with (core_parameter c). rewrite Sl. cbn [deref mbind outcome_bind Z.eqb].
  assert (presched_ready c1) as Hpre by (by destruct Sp).
  pose proof (load_nonneg (input_chain c) (map chain_id (input_chain c))) as Hnn.
  destruct (preschedule_ok c1 (load (input_chain c) (map chain_id (input_chain c))) Hpre Hnn)
    as (pre & sizes & -> & _ & Hpart & Hlen & Hsz & _).
  { intros ch Hch. unfold load. apply (zsum_elem (len_of (input_chain c))); [|done].
    intros. apply len_of_nonneg. }
  eexists. split_and!; [done| |done|done|done|done|done].
  pose proof Sp as [_ _ _ Hnl [_ Hnl'] _ _ _ _]. cbn in Hpart, Hlen.
  split; unfold todos, all_nodes; cbn; rewrite ?I1, ?I2; cbn [app]; try done.
  - split; cbn; try done; [lia| |].
    + intros k v Hk. destruct (Hb k v Hk) as [->|Hk']; [by right|]. left.
      specialize (St k). rewrite Hk' in St. done.
    + eapply Forall_impl; [exact Slv|]. by intros l [].
  - rewrite Sb, Smap. split.
    + by rewrite I3.
    + intros i l n Hl' Hn. assert (n ∈ concat (waiting <$> m_lanes c)) as Hin by (by eapply elem_waiting).
      rewrite I3 in Hin. by apply not_elem_of_nil in Hin.
    + done.
    + by rewrite I3.
    + constructor.
  - intros n Hn. split; [by apply Snodes|]. apply elem_of_concat in Hn as (ns & Hns & Hn).
    apply list_elem_of_fmap in Hns as (ch & -> & Hch). destruct (Sc ch Hch) as [_ Hid].
    rewrite (Hid n Hn). apply Sr. by apply list_elem_of_fmap_2.
  - intros d s. cbn. unfold all_nodes; cbn. rewrite I1. cbn [app]. rewrite Hl.
    destruct (decide (pairs_in (un_dependencies c) d s)) as [(ds & Hin & Hd)|Hno]; [|by rewrite St].
    intros _. apply mfind_Some in Hin; [|done].
    assert (d ∈ deps_of s (un_dependencies c)) as Hdd by (unfold deps_of; by rewrite Hin).
    split; [|exact Hdd]. destruct (Sd s d Hdd) as [Hs _].
    apply list_elem_of_fmap in Hs as (ch & -> & Hch). destruct (Sc ch Hch) as [Hne Hid].
    destruct (instruction_list ch) as [|n ns] eqn:Eq; [done|].
    rewrite <- (Hid n ltac:(left)). apply list_elem_of_fmap_2. apply elem_of_concat.
    exists (instruction_list ch). split; [by apply list_elem_of_fmap_2|rewrite Eq; left].
  - intros s d Hd. by apply (Sd s d).
Qed.

(** Initialisation establishes the invariant of the cycle: from a
    decomposition whose chains are numbered below 700, are not empty and have
    in-range dependencies, [initialize] (level scheduling) returns a core for
    which [run_a_cycle_safe] and [run_loop_terminates] apply. *)
Theorem initialize_establishes junk c r :
  start_ok c r →
  ∃ c', initialize junk c = Ret c' ∧ core_ok ruby c' r ∧ all_nodes c' = all_nodes c ∧
    un_dependencies c' = un_dependencies c ∧ m_lanes c' = m_lanes c.
Proof.
  intros Hst. destruct (core_initialize_ok junk c r Hst) as (c' & ? & ? & ? & ? & ? & _). by exists c'.
Qed.

(** Termination of a whole run with a fixed-latency memory: on a chain
    graph without loop [run_all] stops, with all chains loaded and all lanes
    reported free, within [potential] cycles. *)
Theorem run_all_terminates t junk c r :
  start_ok c r → fixed_latency t c → ranked (un_dependencies c) →
  ∃ c' r', run_all (Z.to_nat (potential t c)) junk c new_globals r = Ret (c', new_globals, r') ∧
    is_finish c' = true.
Proof.
  intros Hst [F1 F2 F3 F4] Hr.
  destruct (core_initialize_ok junk c r Hst) as (c1 & H1 & Hok & Hall & Hu & Hls & Hin & _).
  assert (fixed_latency t c1) as Hfix1.
  { split; rewrite ?Hls; try done. by rewrite Hall. }
  destruct (count_ok ruby t c1 r 0 Hok Hfix1) as [Hok' Hfix].
  assert (potential t ({ c1 with cycle_cnt := 0 }) = potential t c) as Hpot.
  { unfold potential. cbn. by rewrite Hls, Hin. }
  pose proof (potential_nonneg ruby t _ r Hok' Hfix) as Hnn.
  destruct (run_loop_ok ruby t (Z.to_nat (potential t c)) _ r Hok' Hfix) as (c' & r' & H2 & H3 & _).
  { cbn. by rewrite Hu. }
  { lia. }
  exists c', r'. unfold run_all. rewrite H1. cbn [mbind outcome_bind]. by split.
Qed.
End start.

(** ** A concrete core

    Three chains on two lanes: chain 0 (Add, FAdd) feeds chains 1 (Load) and 2
    (FAdd, Store), and chain 1 feeds chain 2. *)

Definition ex_llvm : ordmap string Z := [("Add", 2); ("FAdd", 5); ("Load", 2); ("Store", 2)]%string.

Definition ex_params (mode : Z) : ordmap string Z := [("MEMORY_MODE", mode); ("SCHEDULER", 0)]%string.

Definition ex_opcode (n : nat) : string :=
  match n with 0 => "Add" | 1 => "FAdd" | 2 => "Load" | 3 => "FAdd" | _ => "Store" end%nat.

Definition ex_cg (i : nat) (lev : Z) (ns : list nat) : chainGraph :=
  ChainGraph i 0 (length ns) 0 0 0 0 0 0 0 0 lev false ns.

Definition ex_decom : list (list nat) := [[0; 1]; [2]; [3; 4]]%nat.
Definition ex_un : ordmap nat (list nat) := [(0, [1; 2]); (1, [2])]%nat.
Definition ex_rev : ordmap nat (list nat) := [(1, [0]); (2, [0; 1])]%nat.
Definition ex_map : ordmap nat Z := [(0%nat, 10); (1%nat, 11); (2%nat, 12); (3%nat, 13); (4%nat, 14)].

Definition ex_graph : chainInfo :=
  mkChainInfo ex_decom [] [ChainDep 0 1; ChainDep 0 2; ChainDep 1 2] [] [] ex_un ex_rev
    [ex_cg 0 0 [0; 1]%nat; ex_cg 1 1 [2]%nat; ex_cg 2 2 [3; 4]%nat] [] [] ex_map.

Definition ex_memory : Memory :=
  fill_global_memaddr_map 0 14 (mkMemValue true 200)
    (fill_global_memaddr_map 0 12 (mkMemValue false 100) new_Memory).

Definition ex_lane (mode : Z) (i : nat) : Lane := new_Lane i mode LANE_DEFAULT_SIZE lane_def.

Definition ex_chain (i : nat) (vs : list nat) : Chain :=
  chain_spec ex_opcode ex_llvm ex_un ex_rev ex_map i vs.

(** The core after [new_Core], [buildChains] and the loading of the memory
    map. *)
Definition ex_core (mode : Z) : Core :=
  mkCore ex_llvm 0 2 ex_graph (ex_params mode)
    [ex_chain 0 [0; 1]%nat; ex_chain 1 [2]%nat; ex_chain 2 [3; 4]%nat] ∅
    (replicate MAX_NUM_CHAIN 0) [[]; []] [] ex_memory [ex_lane mode 0; ex_lane mode 1] [] 3 0 [] 0 0 0 0 ex_un.

Lemma ex_core_built mode :
  (c ← new_Core 2 (ex_params mode) ex_llvm lane_def ex_graph;
   c ← buildChains ex_opcode ex_decom ex_un ex_rev ex_map c;
   Ret ({ c with m_memory := ex_memory })) = Ret (ex_core mode).
Proof. reflexivity. Qed.

Lemma ex_known vs ins :
  vs ∈ ex_decom → ins ∈ vs → is_Some (mfind (ex_opcode ins) ex_llvm).
Proof. intros Hvs Hin. elem_cases Hvs; subst; elem_cases Hin; subst; eexists; reflexivity. Defined.

Lemma ex_lane_def_timed : table_timed lane_def.
Proof.
  intros k v Hk%mfind_elem. elem_cases Hk; lia.
Qed.

Lemma ex_lane_live ruby mode i : (mode = 3 → ruby = true) → lane_live ruby (ex_lane mode i).
Proof.
  intros Hm. split.
  - apply new_Lane_ok, lane_def_loaded.
  - apply ex_lane_def_timed.
  - by intros ? ?%not_elem_of_nil.
  - cbn. lia.
  - exact Hm.
Qed.

Lemma ex_ready mode : presched_ready (ex_core mode).
Proof.
  split.
  - done.
  - reflexivity.
  - by left.
  - unfold MAX_NUM_CHAIN. cbn. lia.
  - done.
  - apply length_replicate.
  - intros [|[|i]] b Hi; cbn in Hi; [| |done]; injection Hi as <-; split; reflexivity.
  - vm_compute. reflexivity.
  - vm_compute. reflexivity.
Qed.

Lemma ex_memory_ok `{RubyLaws R} (r : R) : ruby_ok r → outstanding r = [] → mem_ok ex_memory r.
Proof.
  intros Hr Ho. split; cbn; rewrite ?Ho; try done.
  - split; [by intros ? ?%not_elem_of_nil|constructor|done].
  - intros k v Hk. cbn in Hk. rewrite !lookup_insert_Some, lookup_empty in Hk.
    destruct Hk as [[_ <-]|[_ [[_ <-]|[_ [=]]]]]; unfold addr_ok, line_size; cbn; lia.
Qed.

Lemma ex_ranked : ranked ex_un.
Proof.
  exists id. intros s d Hd. unfold ex_un in Hd. cbn in Hd.
  destruct s as [|[|s]]; cbn in Hd; elem_cases Hd; cbn; try lia.
Qed.

Lemma ex_mem_ids ruby mode :
  mem_ids ruby (concat (instruction_list <$> input_chain (ex_core mode))) =
  if ruby then [12; 14] else [].
Proof. destruct ruby; vm_compute; reflexivity. Qed.

Lemma ex_start_on `{RubyLaws R} ruby mode (r : R) :
  (mode = 3 → ruby = true) → ruby_ok r → outstanding r = [] → start_ok ruby (ex_core mode) r.
Proof.
  intros Hm Hrok Ho. split.
  - apply ex_ready.
  - reflexivity.
  - cbn. solve_NoDup.
  - intros ch Hch. unfold MAX_NUM_CHAIN. elem_cases Hch; lia.
  - unfold MAX_NUM_CHAIN. cbn. lia.
  - repeat constructor.
  - intros s d Hd. destruct s as [|[|s]]; cbn in Hd; elem_cases Hd; subst;
      (split; [cbn; set_solver|unfold MAX_NUM_CHAIN; lia]).
  - intros s Hs. unfold MAX_NUM_CHAIN. elem_cases Hs; lia.
  - done.
  - intros ch Hch. elem_cases Hch; subst; (split; [done|]); intros n Hn; elem_cases Hn; by subst.
  - apply Forall_forall. intros l Hl. elem_cases Hl; subst; by apply ex_lane_live.
  - intros l Hl. elem_cases Hl; by subst.
  - intros [|[|i]] l Hl; cbn in Hl; [| |done]; by injection Hl as <-.
  - by apply ex_memory_ok.
  - done.
  - done.
  - intros n Hn. unfold node_timed. elem_cases Hn; subst; (split; [vm_compute; discriminate|vm_compute; reflexivity]).
  - intros n Hn. rewrite ex_mem_ids in Hn. destruct ruby; [|by apply not_elem_of_nil in Hn].
    elem_cases Hn; subst; eexists; reflexivity.
  - rewrite ex_mem_ids. destruct ruby; [|constructor]. solve_NoDup.
Qed.

Lemma ex_start ruby mode :
  (mode = 3 → ruby = true) → start_ok ruby (ex_core mode) (mkFifo [] []).
Proof. intros Hm. by apply ex_start_on. Qed.

Lemma buildChains_correct_witness :
  (∀ vs ins, vs ∈ ex_decom → ins ∈ vs → is_Some (mfind (ex_opcode ins) (instruction_llvm (ex_core 3)))) ∧
  ∃ c', buildChains ex_opcode ex_decom ex_un ex_rev ex_map (ex_core 3) = Ret c' ∧
    input_chain c' = input_chain (ex_core 3) ++
      imap (chain_spec ex_opcode (instruction_llvm (ex_core 3)) ex_un ex_rev ex_map) ex_decom ∧
    un_dependencies c' = ex_un ∧
    num_chains c' = (length (input_chain (ex_core 3)) + length ex_decom)%nat.
Proof.
  split; [exact ex_known|].
  exact (buildChains_correct ex_opcode ex_decom ex_un ex_rev ex_map (ex_core 3) ex_known).
Defined.

Lemma initialize_establishes_witness :
  start_ok true (ex_core 3) (mkFifo [] []) ∧
  ∃ c', initialize (0, 0)%nat (ex_core 3) = Ret c' ∧ core_ok true c' (mkFifo [] []) ∧
    all_nodes c' = all_nodes (ex_core 3) ∧
    un_dependencies c' = un_dependencies (ex_core 3) ∧ m_lanes c' = m_lanes (ex_core 3).
Proof.
  split; [by apply ex_start|].
  exact (initialize_establishes true (0, 0)%nat (ex_core 3) (mkFifo [] []) (ex_start true 3 (λ _, eq_refl))).
Defined.

(** The core after initialisation, computed. *)
Definition ex_core1 (mode : Z) : Core :=
  match initialize (0, 0)%nat (ex_core mode) with Ret c => c | Raise _ => ex_core mode end.

Lemma ex_core1_ok ruby mode :
  (mode = 3 → ruby = true) → core_ok ruby (ex_core1 mode) (mkFifo [] []).
Proof.
  intros Hm. unfold ex_core1.
  destruct (core_initialize_ok ruby (0, 0)%nat _ _ (ex_start ruby mode Hm)) as (c & -> & Hc & _). done.
Qed.

Definition ex_time (n : Node) : Z := exe_time (ex_lane 1 0) n.

Lemma ex_fixed : fixed_latency ex_time (ex_core 1).
Proof.
  split.
  - intros l Hl. elem_cases Hl; subst; cbn; lia.
  - intros l n Hl. elem_cases Hl; subst; done.
  - intros l Hl. elem_cases Hl; subst; cbn; lia.
  - intros n Hn. unfold ex_time. elem_cases Hn; subst; vm_compute; discriminate.
Qed.

Lemma run_all_terminates_witness :
  start_ok false (ex_core 1) (mkFifo [] []) ∧ fixed_latency ex_time (ex_core 1) ∧ ranked ex_un ∧
  potential ex_time (ex_core 1) = 100 ∧
  ∃ c' r', run_all (Z.to_nat (potential ex_time (ex_core 1))) (0, 0)%nat (ex_core 1) new_globals
      (mkFifo [] []) = Ret (c', new_globals, r') ∧ is_finish c' = true.
Proof.
  split; [by apply ex_start|]. split; [apply ex_fixed|]. split; [apply ex_ranked|].
  split; [vm_compute; reflexivity|].
  exact (run_all_terminates false ex_time (0, 0)%nat (ex_core 1) (mkFifo [] [])
           (ex_start false 1 ltac:(discriminate)) ex_fixed ex_ranked).
Defined.

Lemma run_a_cycle_safe_witness :
  core_ok true (ex_core1 3) (mkFifo [] []) ∧
  ∃ c' r', run_a_cycle (ex_core1 3) new_globals (mkFifo [] []) =
      Ret (is_finish c', (c', new_globals, r')) ∧
    core_ok true c' r' ∧ all_nodes (ex_core1 3) ≡ₚ concat (retiring <$> m_lanes (ex_core1 3)) ++ all_nodes c'.
Proof.
  split; [by apply ex_core1_ok|].
  exact (run_a_cycle_safe true (ex_core1 3) (mkFifo [] []) (ex_core1_ok true 3 (λ _, eq_refl))).
Defined.

Lemma preschedule_correct_witness :
  let c := ex_core 3 in
  presched_ready c ∧ (∀ ch, ch ∈ map chain_id (input_chain c) → len_of (input_chain c) ch ≤ 2) ∧
  ∃ c', preschedule c = Ret c' ∧
    concat (lane_pre_schedule c') ≡ₚ map chain_id (input_chain c) ∧
    Sorted.StronglySorted (level_before (chain_graph (m_graph c))) (stack_sche_chain c') ∧
    (∀ i b, lane_pre_schedule c' !! i = Some b → b `sublist_of` stack_sche_chain c' ∧
       Sorted.StronglySorted (level_before (chain_graph (m_graph c))) b) ∧
    (∀ i b, lane_pre_schedule c' !! i = Some b →
       lane_pre_schedule_size c' !! i = Some (load (input_chain c) b)) ∧
    (∀ i j bi bj, lane_pre_schedule c' !! i = Some bi → lane_pre_schedule c' !! j = Some bj →
       load (input_chain c) bi ≤ load (input_chain c) bj + 2) ∧
    internal_com c' = Z.of_nat (length (filter (same_lane (lane_pre_schedule c'))
                                          (dependencies (m_graph c)))) ∧
    internal_com c' + external_com c' = Z.of_nat (length (dependencies (m_graph c))).
Proof.
  cbv zeta.
  assert (∀ ch, ch ∈ map chain_id (input_chain (ex_core 3)) → len_of (input_chain (ex_core 3)) ch ≤ 2) as Hlen.
  { intros ch Hch. elem_cases Hch; subst; vm_compute; discriminate. }
  split; [apply ex_ready|]. split; [exact Hlen|].
  exact (preschedule_correct (ex_core 3) 2 (ex_ready 3) Hlen ltac:(lia)).
Defined.

Lemma ooo_scheduler_correct_witness :
  let c := ex_core1 3 in
  sched_ok c ∧
  ∃ c' loaded, ooo_scheduler c = Ret c' ∧ sched_ok c' ∧ same_frame c c' ∧
    input_chain c ≡ₚ loaded ++ input_chain c' ∧
    (∀ ch, ch ∈ loaded → row_zero c (chain_id ch)) ∧
    Forall2 (λ l l', ∃ ns, lane_ext ns l l') (m_lanes c) (m_lanes c') ∧
    concat (instruction_queue <$> m_lanes c')
      ≡ₚ concat (instruction_queue <$> m_lanes c) ++ concat (instruction_list <$> loaded).
Proof.
  cbv zeta. assert (sched_ok (ex_core1 3)) as H by (by apply (co_sched true _ (mkFifo [] [])), ex_core1_ok).
  split; [exact H|]. exact (ooo_scheduler_correct (ex_core1 3) H).
Defined.

Lemma ooo_progress_witness :
  let c := ex_core1 3 in
  sched_ok c ∧ table_ok c ∧ chains_ok c ∧ ranked (un_dependencies c) ∧
  (∀ l, l ∈ m_lanes c → pending l = [] ∧ Lane.is_free l = true) ∧ input_chain c ≠ [] ∧
  ∃ c', ooo_scheduler c = Ret c' ∧ (length (input_chain c') < length (input_chain c))%nat.
Proof.
  cbv zeta. pose proof (ex_core1_ok true 3 (λ _, eq_refl)) as H.
  assert (∀ l, l ∈ m_lanes (ex_core1 3) → pending l = [] ∧ Lane.is_free l = true) as Hl.
  { intros l Hl. assert (m_lanes (ex_core1 3) = [ex_lane 3 0; ex_lane 3 1]) as E by (vm_compute; reflexivity).
    rewrite E in Hl. elem_cases Hl; by subst. }
  assert (ranked (un_dependencies (ex_core1 3))) as Hr.
  { assert (un_dependencies (ex_core1 3) = ex_un) as -> by (vm_compute; reflexivity). apply ex_ranked. }
  assert (input_chain (ex_core1 3) ≠ []) as Hne by (vm_compute; discriminate).
  destruct H as [H1 _ _ _ _ _ _ H2 H3 _].
  repeat (split; [assumption|]).
  exact (ooo_progress (ex_core1 3) H1 H2 H3 Hr Hl Hne).
Defined.

Lemma initialize_depen_table_correct_witness :
  let c := ex_core 3 in
  (∀ d s, pairs_in (un_dependencies c) d s → (d < MAX_NUM_CHAIN)%nat ∧ (s < MAX_NUM_CHAIN)%nat) ∧
  (∀ s, s ∈ mkeys (un_dependencies c) → (s < MAX_NUM_CHAIN)%nat) ∧
  ∃ t, initialize_depen_table c = Ret ({ c with depen_table := t }) ∧
    ∀ d s, default 0 (t !! (d, s)) =
      if decide (pairs_in (un_dependencies c) d s) then 1 else default 0 (depen_table c !! (d, s)).
Proof.
  cbv zeta.
  assert (∀ d s, pairs_in ex_un d s → (d < MAX_NUM_CHAIN)%nat ∧ (s < MAX_NUM_CHAIN)%nat) as H1.
  { unfold MAX_NUM_CHAIN. intros d s (ds & Hin & Hd). elem_cases Hin; elem_cases Hd; subst; lia. }
  assert (∀ s, s ∈ mkeys ex_un → (s < MAX_NUM_CHAIN)%nat) as H2.
  { unfold MAX_NUM_CHAIN. intros s Hs. elem_cases Hs; lia. }
  split; [exact H1|]. split; [exact H2|].
  exact (initialize_depen_table_correct (ex_core 3) H1 H2).
Defined.

(** ** Two behaviours of the cycle worth knowing *)

Fixpoint ex_cycles (n : nat) (s : Core * globals * fifo) : outcome (Core * globals * fifo) :=
  match n with
  | O => Ret s
  | S n => let '(c, g, r) := s in s ← cycle c g r; ex_cycles n s
  end.

(** A finished instruction releases the dependants of its chain, not a
    finished chain: after 9 cycles chain 1 is loaded on the second lane while
    the second instruction of its source, chain 0, has not finished. *)
Lemma dependants_released_early :
  ∃ c g r, ex_cycles 9 (ex_core1 3, new_globals, mkFifo [] []) = Ret (c, g, r) ∧
    mfind 1%nat (chaintoLane c) = Some 1%nat ∧
    existsb (λ n, (c_id n =? 0)%nat) (concat (pending <$> m_lanes c)) = true.
Proof. do 3 eexists. split; [vm_compute; reflexivity|]. split; vm_compute; reflexivity. Qed.

(** The run stops with the last instruction, a store, fetched and not
    executed: [is_finish] trusts [is_free]. *)
Lemma run_drops_last_instruction :
  ∃ c g r, run_all 100 (0, 0)%nat (ex_core 3) new_globals (mkFifo [] []) = Ret (c, g, r) ∧
    is_finish c = true ∧ old_id <$> concat (pending <$> m_lanes c) = [14].
Proof. do 3 eexists. split; [vm_compute; reflexivity|]. split; vm_compute; reflexivity. Qed.
