(* ===== verification/CoreLive.v ===== *)
(** * Termination with the Ruby memory

    In memory mode 3 a lane that executes a load or store waits until the
    memory system has answered.  Over a memory system that answers
    ([RubyLive]) every run ends: work left, requests not yet sent and the time
    to the next answer decrease lexicographically with every cycle. *)

From S2P Require Import Prelude OrdMap ChainDeps Levels Graph Chain Lane Memory Core CoreSched CoreCycle CoreStart.
From stdpp Require Import gmap.
From coqutil Require Import Datatypes.RecordSettersUsingExistingGetters.
Open Scope Z_scope.

(** ** One lane *)

(** Cycles of an instruction in the execute stage, the wait for the memory
    left out. *)
Definition own_time (n : Node) : Z := if is_mem_op n then 1 else latency n.

Definition phase (l : Lane) : Z := if exe_cnt l =? -1 then 1 else exe_cnt l.

(** The work of a lane, waiting left out. *)
Definition work (l : Lane) : Z :=
  fetch_cnt l + (if bool_decide (exe_stack l = []) then 0 else phase l + 1)
  + zsum (λ n, own_time n + 2) (fetch_stack l) + zsum (λ n, own_time n + 7) (instruction_queue l).

Notation lane_live := (lane_live true).
Notation core_ok := (core_ok true).

Lemma own_time_nonneg n : node_timed n → 0 ≤ own_time n.
Proof. unfold node_timed, own_time. destruct (is_mem_op n); lia. Qed.

Lemma own_sum_nonneg c ns : 0 ≤ c → (∀ n, n ∈ ns → node_timed n) → 0 ≤ zsum (λ n, own_time n + c) ns.
Proof. intros Hc Hn. apply zsum_nonneg. intros n Hin. pose proof (own_time_nonneg n (Hn n Hin)). lia. Qed.

Lemma work_nonneg l : lane_live l → 0 ≤ work l.
Proof.
  intros [[_ Hf Hx] _ Hn Hc _]. unfold work, phase, pending in *.
  assert (0 ≤ zsum (λ n, own_time n + 2) (fetch_stack l)) by (apply own_sum_nonneg; [lia|set_solver]).
  assert (0 ≤ zsum (λ n, own_time n + 7) (instruction_queue l)) by (apply own_sum_nonneg; [lia|set_solver]).
  case_bool_decide; [lia|]. destruct (exe_cnt l =? -1) eqn:E; lia.
Qed.

Lemma updateCounter_work l :
  lane_live l →
  work (updateCounter l) ≤ work l ∧
  (work (updateCounter l) = work l → fetch_cnt l = 0 ∧ exe_cnt l ≤ 0 ∧
     fetch_cnt (updateCounter l) = 0 ∧ exe_cnt (updateCounter l) = exe_cnt l).
Proof.
  intros [[_ Hf Hx] _ _ Hc _]. unfold updateCounter, work, phase.
  destruct (0 <? exe_cnt l) eqn:E1; [|destruct (exe_cnt l =? -1) eqn:E2];
  destruct (0 <? fetch_cnt l) eqn:E3; cbn -[zsum]; rewrite ?E2;
  repeat match goal with |- context [?a =? ?b] => destruct (Z.eqb_spec a b) end;
  case_bool_decide as Hs; destruct Hx as [[Hx ?]|[x Hx]]; try congruence; lia.
Qed.

Lemma start_exe_phase l n cnt reqs :
  m_memory_mode l = 3 → node_timed n → start_exe l n = Ret (cnt, reqs) →
  (if cnt =? -1 then 1 else cnt) = own_time n.
Proof.
  intros Hm Hn. unfold start_exe, own_time, node_timed in *. rewrite Hm. cbn.
  destruct (is_mem_op n); intros [= <- <-]; [done|]. rewrite i32_id by lia.
  by destruct (latency n =? -1) eqn:E; [lia|].
Qed.

Lemma execute_work l g l' g' :
  lane_live l → m_memory_mode l = 3 → execute l g = Ret (l', g') →
  work l' ≤ work l ∧
  (work l' = work l → fetch_cnt l = 0 → exe_cnt l ≤ 0 →
     l' = l ∧ (exe_cnt l = -1 ∨ exe_stack l = [] ∧ fetch_stack l = [])).
Proof.
  intros [[_ Hf Hx] _ Hn Hc _] Hm. unfold execute.
  destruct Hx as [[Hx H0]|[n Hx]]; unfold pending in Hn; rewrite Hx in *; cbn -[zsum].
  - rewrite H0; cbn -[zsum].
    destruct (fetch_stack l) as [|n f] eqn:Ef; [intros [= <- <-]; split; [lia|by auto]|].
    destruct (fetch_cnt l =? 0) eqn:E; [|intros [= <- <-]; split; [lia|intros; lia]].
    intros ([cnt reqs] & Hst & [= <- <-])%bind_ret_inv.
    pose proof (start_exe_phase l n cnt reqs Hm (Hn n ltac:(left)) Hst) as Hp.
    unfold work, phase; cbn -[zsum]. rewrite Hx, Ef; cbn -[zsum].
    rewrite Hp, zsum_cons. lia.
  - destruct (exe_cnt l =? 0) eqn:E; cbn -[zsum].
    { intros [= <- <-]. unfold work, phase; cbn -[zsum]. rewrite Hx; cbn -[zsum].
      assert ((exe_cnt l =? -1) = false) as -> by lia. lia. }
    destruct (0 <? exe_cnt l) eqn:E1; cbn -[zsum].
    { intros [= <- <-]. unfold work, phase; cbn -[zsum]. rewrite Hx; cbn -[zsum]. lia. }
    assert ((exe_cnt l <? 0) = true) as -> by lia.
    intros [= <- <-]. split; [lia|]. intros. split; [done|]. left. lia.
Qed.

Lemma fetch_work l l' :
  lane_ok l → fetch l = Ret l' →
  work l' ≤ work l ∧ (work l' = work l → fetch_cnt l = 0 → l' = l ∧ instruction_queue l = []).
Proof.
  intros [_ Hf _]. unfold fetch. destruct (0 <? fetch_cnt l) eqn:E; [intros [= <-]; lia|].
  destruct (instruction_queue l) as [|n q] eqn:Eq; [intros [= <-]; split; [lia|by auto]|].
  intros (v & _ & [= <-])%bind_ret_inv. unfold work, phase; cbn -[zsum]. rewrite Eq.
  rewrite zsum_app, !zsum_cons. change (zsum _ []) with 0. lia.
Qed.

(** A lane that is neither waiting nor empty works. *)
Lemma lane_run_work l l' ds reqs :
  lane_live l → m_memory_mode l = 3 → lane_run true l l' ds reqs →
  work l' ≤ work l ∧
  (work l' = work l → reqs = [] ∧ pending l' = pending l ∧
     (waiting l ≠ [] ∨ pending l = [] ∧ Lane.is_free l = true ∧ Lane.is_free l' = true)).
Proof.
  intros Hl Hm Hlr. pose proof Hlr as [_ (g & g' & Hrun) Hl' _ Hp (xs & Htd & Hsub) Hw Hreq].
  destruct (updateCounter_live true l Hl) as (Hl0 & Hw0 & Ht0 & (_ & Hm0 & _)).
  destruct (updateCounter_work l Hl) as [U1 U2].
  unfold run in Hrun. apply bind_ret_inv in Hrun as ([l1 g1] & H1 & H2). cbn in H2.
  apply bind_ret_inv in H2 as (l2 & H2 & [= -> ->]).
  destruct (execute_work _ _ _ _ Hl0 (eq_trans Hm0 Hm) H1) as [X1 X2].
  destruct (execute_ret (updateCounter l) g (ll_ok _ _ Hl0)) as (l1' & ? & E & Hok1 & _).
  rewrite H1 in E. injection E as <- <-.
  destruct (fetch_work l1 l' Hok1 H2) as [F1 F2]. split; [lia|]. intros Heq.
  destruct U2 as (A1 & A2 & A3 & A4); [lia|]. destruct X2 as [-> Hx]; [lia|done|lia|].
  destruct F2 as [-> Hq]; [lia|done|].
  assert (reqs.*2 = []) as Hr.
  { rewrite Hw0 in Hw. apply (f_equal length) in Hw. rewrite length_app in Hw.
    apply length_zero_iff_nil. lia. }
  split; [by apply fmap_nil_inv in Hr|]. split; [apply updateCounter_pending|].
  assert (exe_stack (updateCounter l) = exe_stack l ∧ fetch_stack (updateCounter l) = fetch_stack l ∧
          instruction_queue (updateCounter l) = instruction_queue l) as (B1 & B2 & B3).
  { unfold updateCounter. repeat case_goal; done. }
  rewrite A4, B1, B2 in Hx. rewrite B3 in Hq.
  destruct Hx as [Hx|[Hx Hf]].
  - left. unfold waiting. rewrite Hx. destruct (ok_exe l (ll_ok _ _ Hl)) as [[_ ?]|[n ->]]; [lia|done].
  - right. destruct (ok_exe l (ll_ok _ _ Hl)) as [[_ He]|[n Hn]]; [|congruence].
    unfold pending, Lane.is_free. rewrite A3, A4, B1, B3, Hx, Hf, Hq, A1, He. done.
Qed.

(** ** All lanes *)

Definition ruby_mode (ls : list Lane) : Prop := ∀ l, l ∈ ls → m_memory_mode l = 3.

Lemma ruby_mode_config (rel : Lane → Lane → Prop) ls ls' :
  (∀ l l', rel l l' → same_config l l') → Forall2 rel ls ls' → ruby_mode ls → ruby_mode ls'.
Proof.
  intros Hrel Hls Hm l' [i Hi]%list_elem_of_lookup.
  destruct (Forall2_lookup_r _ _ _ _ _ Hls Hi) as (l & Hl & Hll).
  destruct (Hrel l l' Hll) as (_ & -> & _). by eapply Hm, list_elem_of_lookup_2.
Qed.

Lemma lanes_run_config ls ls' ds reqs : lanes_run true ls ls' ds reqs → Forall2 same_config ls ls'.
Proof. induction 1 as [|? ? ? ? ? ? ? ? []]; by constructor. Qed.

Lemma lanes_run_work ls ls' ds reqs :
  lanes_run true ls ls' ds reqs → Forall lane_live ls → ruby_mode ls →
  zsum work ls' ≤ zsum work ls ∧
  (zsum work ls' = zsum work ls → reqs = [] ∧
     (concat (waiting <$> ls) = [] →
        (∀ l, l ∈ ls → Lane.is_free l = true) ∧
        ∀ l, l ∈ ls' → pending l = [] ∧ Lane.is_free l = true)).
Proof.
  induction 1 as [|l l' ls ls' ds ds' reqs reqs' Hr Hrs IH]; intros Hlive Hm.
  { split; [done|]. intros _. split; [done|]. intros _. split; by intros ? ?%not_elem_of_nil. }
  apply Forall_cons in Hlive as [Hl Hlive].
  destruct (lane_run_work _ _ _ _ Hl (Hm l ltac:(left)) Hr) as [W1 W2].
  destruct (IH Hlive (λ x Hx, Hm x (list_elem_of_further _ _ _ Hx))) as [I1 I2].
  rewrite !zsum_cons. split; [lia|]. intros Heq.
  destruct W2 as (-> & Hp & Hw); [lia|]. destruct I2 as (-> & Hrest); [lia|]. split; [done|].
  rewrite fmap_cons. cbn [concat]. intros [Hwl Hwr]%app_eq_nil.
  destruct Hw as [?|(Hpl & Hf & Hf')]; [done|]. destruct (Hrest Hwr) as [R1 R2].
  split; intros x [->|Hx]%elem_of_cons; auto. split; [congruence|done].
Qed.

Lemma wake_work ls ls' :
  Forall2 wake_rel ls ls' → Forall lane_live ls →
  zsum work ls' ≤ zsum work ls ∧ (zsum work ls' = zsum work ls → ls' = ls).
Proof.
  induction 1 as [|l l' ls ls' (_ & _ & _ & Hl') _ IH]; intros Hlive; [done|].
  apply Forall_cons in Hlive as [Hl Hlive]. destruct (IH Hlive) as [I1 I2]. rewrite !zsum_cons.
  destruct Hl' as [->|((n & Hn) & ->)]; [split; [lia|intros Heq; by rewrite I2 by lia]|].
  destruct (waiting_single true l n Hl Hn) as (_ & Hc & x & Hx).
  assert (work (setExeCounter 0 l) = work l - 1) as ->.
  { unfold work, phase; cbn -[zsum i32]. change (i32 0) with 0. rewrite Hx, Hc. cbn -[zsum]. lia. }
  split; lia.
Qed.

Lemma wake_none ls ls' : Forall2 wake_rel ls ls' → concat (waiting <$> ls) = [] → ls' = ls.
Proof.
  induction 1 as [|l l' ls ls' (_ & _ & _ & Hl') _ IH]; [done|]. rewrite fmap_cons. cbn [concat].
  intros [Hw Hr]%app_eq_nil. rewrite (IH Hr). destruct Hl' as [->|((n & Hn) & _)]; [done|].
  rewrite Hw in Hn. by apply not_elem_of_nil in Hn.
Qed.

Lemma ext_config l l' : (∃ ns, lane_ext ns l l') → same_config l l'.
Proof. by intros (ns & Hc & _). Qed.

(** Loading moves instructions from chains to queues. *)
Lemma ext_work ls ls' :
  Forall2 (λ l l', ∃ ns, lane_ext ns l l') ls ls' →
  zsum work ls' - zsum (λ n, own_time n + 7) (concat (instruction_queue <$> ls')) =
  zsum work ls - zsum (λ n, own_time n + 7) (concat (instruction_queue <$> ls)).
Proof.
  induction 1 as [|l l' ls ls' (ns & _ & He & Hx & Hfc & Hf & Hq) _ IH]; [done|].
  rewrite !fmap_cons. cbn [concat]. rewrite !zsum_app, !zsum_cons. unfold work at 1 3. unfold phase.
  rewrite He, Hx, Hfc, Hf, Hq, zsum_app. lia.
Qed.

(** At most one answer is awaited per lane. *)
Lemma waiting_length ls : Forall lane_live ls → (length (concat (waiting <$> ls)) ≤ length ls)%nat.
Proof.
  induction 1 as [|l ls Hl _ IH]; [done|]. rewrite fmap_cons. cbn [concat length]. rewrite length_app.
  assert (length (waiting l) ≤ 1)%nat; [|lia]. destruct (waiting l) as [|n w] eqn:E; [cbn; lia|].
  destruct (waiting_single true l n Hl) as (Hw & _); [rewrite E; left|]. rewrite <- E, Hw. done.
Qed.

(** ** The core *)

Definition remaining (c : Core) : Z :=
  zsum work (m_lanes c) + zsum (chain_weight own_time) (input_chain c).

Lemma loaded_work n i0 c c' ld :
  ooo_rel n i0 c c' ld → remaining c' = remaining c - Z.of_nat (length ld).
Proof.
  intros Hrel. pose proof (ext_work _ _ (or_lanes _ _ _ _ _ Hrel)) as Hw.
  pose proof (zsum_perm (λ n, own_time n + 7) _ _ (or_queue _ _ _ _ _ Hrel)) as Hq.
  pose proof (zsum_perm (chain_weight own_time) _ _ (or_input _ _ _ _ _ Hrel)) as Hi.
  rewrite zsum_app in Hq. rewrite zsum_app in Hi. unfold remaining. rewrite Hi.
  assert (zsum (chain_weight own_time) ld
    = Z.of_nat (length ld) + zsum (λ n, own_time n + 7) (concat (instruction_list <$> ld))); [|lia].
  clear. rewrite zsum_concat. induction ld as [|x ld IH]; [done|]. rewrite !zsum_cons, IH.
  unfold chain_weight. cbn [length]. lia.
Qed.

Section live.
Context `{RubyLive R}.

Lemma count_core_ok c r n : core_ok c r → core_ok ({ c with cycle_cnt := n }) r.
Proof. intros [[] ? ? ? ? ? ? ? ? ?]. by split. Qed.

(** Requests not yet sent, then cycles to the next answer. *)
Definition measure (c : Core) (r : R) : Z :=
  (remaining c * (Z.of_nat (length (m_lanes c)) + 1) + Z.of_nat (unissued (m_memory c)))
    * (10 * Z.of_nat live_bound + 1) + Z.of_nat (due r).

Lemma buffer_bounds c r :
  core_ok c r → (unissued (m_memory c) ≤ length (m_lanes c))%nat ∧ (due r ≤ 10 * live_bound)%nat.
Proof.
  intros Hok. split.
  - etrans; [apply unissued_le|]. rewrite (Permutation_length (lk_buf _ _ _ _ _ (co_link _ _ _ Hok))).
    apply waiting_length, (co_live _ _ _ Hok).
  - pose proof (co_mem _ _ _ Hok) as Hm. pose proof (outstanding_bound _ _ Hm) as Ho.
    unfold outstanding in Ho. rewrite length_app in Ho.
    pose proof (due_bound r (mo_ruby _ _ Hm)). nia.
Qed.

Lemma remaining_nonneg c r : core_ok c r → 0 ≤ remaining c.
Proof.
  intros Hok. unfold remaining. apply Z.add_nonneg_nonneg; apply zsum_nonneg.
  - intros l Hl. apply work_nonneg. pose proof (co_live _ _ _ Hok) as Hlive.
    rewrite Forall_forall in Hlive. by apply Hlive.
  - intros ch Hch. unfold chain_weight. apply Z.add_nonneg_nonneg; [lia|]. apply own_sum_nonneg; [lia|].
    intros n Hn. apply (co_nodes _ _ _ Hok), elem_of_app. right. apply elem_of_concat.
    exists (instruction_list ch). split; [by apply list_elem_of_fmap_2|done].
Qed.

(** The three ways a cycle makes progress. *)
Definition progress (c : Core) (r : R) (c' : Core) (r' : R) : Prop :=
  remaining c' < remaining c ∨
  remaining c' ≤ remaining c ∧
    (unissued (m_memory c) = S (unissued (m_memory c')) ∨
     m_memory c' = m_memory c ∧ (due r' < due r)%nat).

Lemma progress_measure c r c' r' :
  core_ok c r → core_ok c' r' → length (m_lanes c') = length (m_lanes c) →
  progress c r c' r' → measure c' r' < measure c r.
Proof.
  intros Hok Hok' Hlen Hp. destruct (buffer_bounds c r Hok) as [U D].
  destruct (buffer_bounds c' r' Hok') as [U' D'].
  pose proof (remaining_nonneg c r Hok). pose proof (remaining_nonneg c' r' Hok').
  unfold measure. rewrite Hlen in *.
  set (K := Z.of_nat (length (m_lanes c))) in *.
  set (x := remaining c) in *. set (x' := remaining c') in *.
  assert (0 ≤ K) by lia.
  assert (x' * (K + 1) + Z.of_nat (unissued (m_memory c')) < x * (K + 1) + Z.of_nat (unissued (m_memory c)) ∨
          x' * (K + 1) + Z.of_nat (unissued (m_memory c')) ≤ x * (K + 1) + Z.of_nat (unissued (m_memory c)) ∧
          (due r' < due r)%nat) as [Hlt|[Hle Hd]]; [|nia|nia].
  destruct Hp as [Hlt|[Hle [Hu|[-> Hd]]]]; [left; nia|left; nia|right; split; [nia|done]].
Qed.

(** When no lane can work, the memory's part of the cycle makes progress. *)
Lemma memory_progress c r ls1 c1 r1 :
  core_ok c r → memory_step c r [] ls1 c1 r1 → Forall2 wake_rel ls1 (m_lanes c1) →
  Forall lane_live ls1 → concat (waiting <$> ls1) ≠ [] → buffered (m_memory c) ≠ [] →
  core_ok c1 r1 →
  zsum work (m_lanes c1) < zsum work ls1 ∨
  unissued (m_memory c) = S (unissued (m_memory c1)) ∨ m_memory c1 = m_memory c ∧ (due r1 < due r)%nat.
Proof.
  intros Hok (m1 & nodes & Hm1 & Hmem & Hrecv & Hw) Hwake Hlive Hne Hbuf Hok1.
  rewrite (Hm1 eq_refl) in *. destruct nodes as [|n nodes].
  - right. destruct (recv_resp_stall _ _ _ _ Hmem Hbuf Hrecv) as [Hu|(-> & -> & Hd)]; [by left|right].
    split; [done|]. pose proof (due_advance r (mo_ruby _ _ (co_mem _ _ _ Hok))). lia.
  - left. destruct (wake_work _ _ Hwake Hlive) as [Hle Heq].
    destruct (Z.eq_dec (zsum work (m_lanes c1)) (zsum work ls1)) as [E|]; [|lia].
    exfalso. pose proof (lk_buf _ _ _ _ _ (co_link _ _ _ Hok1)) as Hb. rewrite (Heq E), Hw in Hb.
    apply Permutation_length in Hb. rewrite length_app in Hb. cbn in Hb. lia.
Qed.

Lemma cycle_progress c r :
  core_ok c r → ruby_mode (m_lanes c) → ranked (un_dependencies c) → is_finish c = false →
  ∃ c' r', cycle c new_globals r = Ret (c', new_globals, r') ∧ core_ok c' r' ∧
    ruby_mode (m_lanes c') ∧ ranked (un_dependencies c') ∧ measure c' r' < measure c r.
Proof.
  intros Hok Hm [rank Hrank] Hfin.
  destruct (cycle_ok true c r Hok) as (c1 & c' & r' & ds & reqs & ls1 & ld & Hrun & Hwake & Hin1 & Hdeps
    & Hok1 & Hms & Hrel & Hok' & Hall & Hc).
  pose proof (co_live _ _ _ Hok) as Hlive.
  pose proof (lanes_run_live _ _ _ _ _ Hrun) as Hlive1.
  destruct (lanes_run_work _ _ _ _ Hrun Hlive Hm) as [W1 W2].
  destruct (wake_work _ _ Hwake Hlive1) as [K1 _].
  pose proof (loaded_work _ _ _ _ _ Hrel) as Hld.
  pose proof (or_lanes _ _ _ _ _ Hrel) as Hext.
  assert (Hfr : m_memory c' = m_memory c1) by apply (or_frame _ _ _ _ _ Hrel).
  exists c', r'. split; [done|]. split; [done|]. split; [|split].
  - eapply (ruby_mode_config _ _ _ (λ l l' H, ext_config l l' H)); [exact Hext|].
    eapply (ruby_mode_config _ _ _ (λ l l' H, proj1 H)); [exact Hwake|].
    eapply (ruby_mode_config _ _ _ (λ l l' H, H)); [by eapply lanes_run_config|done].
  - exists rank. intros s d Hsd. apply Hrank. unfold deps_of in Hdeps. by rewrite <- Hdeps.
  - apply progress_measure; [done|done| |].
    { rewrite <- (Forall2_length _ _ _ Hext), <- (Forall2_length _ _ _ Hwake).
      by eapply lanes_run_length. }
    assert (Hrem : remaining c1 = zsum work (m_lanes c1) + zsum (chain_weight own_time) (input_chain c))
      by (unfold remaining; by rewrite Hin1).
    unfold progress. rewrite Hfr, Hld, Hrem. unfold remaining.
    destruct (Z.eq_dec (zsum work ls1) (zsum work (m_lanes c))) as [E|]; [|left; lia].
    destruct (W2 E) as [-> Hidle]. destruct ld as [|x ld]; [|left; cbn [length]; lia].
    assert (Hb : buffered (m_memory c) ≡ₚ concat (waiting <$> m_lanes c)) by apply (co_link _ _ _ Hok).
    destruct (decide (concat (waiting <$> m_lanes c) = [])) as [Hnil|Hne].
    + exfalso. destruct (Hidle Hnil) as [Hf Hf1].
      assert (concat (waiting <$> ls1) = []) as Hw1.
      { apply Permutation_nil_r. rewrite (lanes_run_waiting _ _ _ _ _ Hrun), Hnil. done. }
      assert (m_lanes c1 = ls1) as Hls by (by apply wake_none).
      unfold is_finish in Hfin. destruct (decide (input_chain c = [])) as [Hin|Hin].
      * rewrite bool_decide_eq_true_2 in Hfin by done. cbn [andb] in Hfin.
        apply not_true_iff_false in Hfin. apply Hfin, forallb_forall. intros l Hl%list_elem_of_In. by apply Hf.
      * eapply (ooo_progress_aux c1 c' []); try done; try apply Hok1.
        -- exists rank. intros s d Hsd. apply Hrank.
           destruct (or_frame _ _ _ _ _ Hrel) as (_ & Hu & _). unfold deps_of in Hdeps.
           rewrite <- Hdeps, Hu. done.
        -- by rewrite Hls.
        -- by rewrite Hin1.
    + destruct (memory_progress c r ls1 c1 r' Hok Hms Hwake Hlive1) as [Hlt|Hp].
      * rewrite <- Permutation_nil_r, (lanes_run_waiting _ _ _ _ _ Hrun), app_nil_r.
        by rewrite Permutation_nil_r.
      * intros Hbn. rewrite Hbn in Hb. by apply Permutation_nil_l in Hb.
      * done.
      * left. cbn [length]. lia.
      * right. cbn [length]. split; [lia|done].
Qed.

Lemma run_loop_live n : ∀ c r,
  core_ok c r → ruby_mode (m_lanes c) → ranked (un_dependencies c) → measure c r ≤ Z.of_nat n →
  ∃ c' r', run_loop n c new_globals r = Ret (c', new_globals, r') ∧ is_finish c' = true
    ∧ core_ok c' r'.
Proof.
  induction n as [|n IH]; intros c r Hok Hm Hr Hn; cbn [run_loop];
    (destruct (is_finish c) eqn:Hfin; [by exists c, r|]).
  - exfalso. destruct (cycle_progress c r Hok Hm Hr Hfin) as (c' & r' & _ & Hok' & _ & _ & Hlt).
    pose proof (remaining_nonneg c' r' Hok'). unfold measure in *. nia.
  - destruct (cycle_progress ({ c with cycle_cnt := u32 (cycle_cnt c + 1) }) r)
      as (c' & r' & -> & Hok' & Hm' & Hr' & Hlt); [by apply count_core_ok|done..|].
    cbn [mbind outcome_bind]. apply IH; try done.
    change (measure { c with cycle_cnt := u32 (cycle_cnt c + 1) } r) with (measure c r) in Hlt. lia.
Qed.

(** Nothing is buffered or outstanding when a run starts. *)
Lemma start_measure c r :
  start_ok true c r →
  measure c r = remaining c * (Z.of_nat (length (m_lanes c)) + 1) * (10 * Z.of_nat live_bound + 1).
Proof.
  intros Hst. pose proof (st_mem _ _ _ Hst) as Hm. pose proof (st_buffer _ _ _ Hst) as Hb.
  assert (ldst_addr_buffer (m_memory c) = []) as E by (by apply fmap_nil_inv in Hb).
  pose proof (mo_lines _ _ Hm) as Hl. rewrite E in Hl. apply Permutation_nil_l, eq_sym in Hl.
  unfold outstanding in Hl. apply app_eq_nil in Hl as [_ Hi].
  pose proof (due_bound r (mo_ruby _ _ Hm)) as Hd. rewrite Hi in Hd. cbn in Hd.
  unfold measure, unissued. rewrite E. cbn. replace (due r) with 0%nat by lia. lia.
Qed.

(** [C5] Termination of a whole run with the Ruby memory (memory mode 3): on a
    chain graph without loop, over any memory system that answers within a
    bound, [run_all] stops without a fault, with all chains loaded and all
    lanes reported free.  The bound: work times (lanes + 1) times (10 times
    the latency bound + 1) cycles. *)
Theorem run_all_terminates_ruby junk c r :
  start_ok true c r → ruby_mode (m_lanes c) → ranked (un_dependencies c) →
  ∃ c' r', run_all (Z.to_nat (remaining c * (Z.of_nat (length (m_lanes c)) + 1) *
                                (10 * Z.of_nat live_bound + 1))) junk c new_globals r
      = Ret (c', new_globals, r') ∧
    is_finish c' = true ∧ core_ok c' r'.
Proof.
  intros Hst Hm Hr. rewrite <- (start_measure c r Hst).
  destruct (core_initialize_ok true junk c r Hst) as (c1 & H1' & Hok & _ & Hu & Hls & Hin & Hmem).
  assert (measure ({ c1 with cycle_cnt := 0 }) r = measure c r) as Hme.
  { unfold measure, remaining. cbn. by rewrite Hls, Hin, Hmem. }
  destruct (run_loop_live (Z.to_nat (measure c r)) ({ c1 with cycle_cnt := 0 }) r) as (c' & r' & H2' & H3' & H4').
  - by apply count_core_ok.
  - cbn. by rewrite Hls.
  - cbn. by rewrite Hu.
  - lia.
  - exists c', r'. unfold run_all. rewrite H1'. cbn [mbind outcome_bind]. by split_and!.
Qed.
End live.

Lemma ex_ruby_mode : ruby_mode (m_lanes (ex_core 3)).
Proof. intros l Hl. elem_cases Hl; by subst. Qed.

Lemma run_all_terminates_ruby_witness :
  start_ok true (ex_core 3) (mkFifo [] []) ∧ ruby_mode (m_lanes (ex_core 3)) ∧ ranked ex_un ∧
  remaining (ex_core 3) = 52 ∧
  ∃ c' r', run_all (Z.to_nat (remaining (ex_core 3) * (Z.of_nat (length (m_lanes (ex_core 3))) + 1) *
                                (10 * Z.of_nat live_bound + 1)))
      (0, 0)%nat (ex_core 3) new_globals (mkFifo [] []) = Ret (c', new_globals, r') ∧
    is_finish c' = true ∧ core_ok c' r'.
Proof.
  split; [by apply ex_start|]. split; [apply ex_ruby_mode|]. split; [apply ex_ranked|].
  split; [vm_compute; reflexivity|].
  exact (run_all_terminates_ruby (0, 0)%nat (ex_core 3) (mkFifo [] [])
           (ex_start true 3 (λ _, eq_refl)) ex_ruby_mode ex_ranked).
Defined.
