(* ===== verification/ChainSaw.v ===== *)
(** * The simulator

    [ChainSaw.cpp]: [main] replays the memory trace of the host program against
    Ruby and runs the accelerator core at every chunk marker; and the reader of
    the accelerator's own memory map, [Core::read_memcsv].  Lines are split by
    [boost::tokenizer], the parameter [tokens].  The files, the options and the
    text printed are left out. *)

From S2P Require Import Prelude OrdMap ChainDeps Levels Graph Chain Lane Text PrioHeap EventQueue Sequencer Memory RubySystem Core CoreSched CoreCycle CoreStart CoreLive.
From stdpp Require Import gmap.
From Stdlib Require Import Ascii.
From coqutil Require Import Datatypes.RecordSettersUsingExistingGetters.
Open Scope Z_scope.

(** ** The memory map of the accelerator *)

Section readers.
Variable tokens : string → list string.

(** One line: iteration, opcode, node, address. *)
Definition read_line (m : Memory) (line : string) : outcome Memory :=
  match tokens line with
  | [t_iter; opcode; t_node; t_addr] =>
      iter ← stoi t_iter;
      nodeid ← stoi t_node;
      a ← stoll t_addr;
      Ret (fill_global_memaddr_map (u64 iter) (u64 nodeid)
             (mkMemValue (bool_decide (opcode = "Store"%string)) (u64 a)) m)
  | _ => Raise AssertFailed
  end.

Definition read_memcsv (lines : list string) (c : Core) : outcome Core :=
  m ← foldM read_line (m_memory c) lines; Ret ({ c with m_memory := m }).

(** [Core::memoryInitialize]: the file, then a fresh buffer. *)
Definition load_memory (lines : list string) (c : Core) : outcome Core :=
  c ← read_memcsv lines c; Ret (memoryInitialize c).

(** What a well-formed line says. *)
Definition line_entry (line : string) : option ((Z * Z) * MemValue) :=
  match tokens line with
  | [t_iter; opcode; t_node; t_addr] =>
      match stoi t_iter, stoi t_node, stoll t_addr with
      | Ret iter, Ret node, Ret a =>
          Some ((u64 iter, u64 node), mkMemValue (bool_decide (opcode = "Store"%string)) (u64 a))
      | _, _, _ => None
      end
  | _ => None
  end.

Lemma read_line_entry m line k v :
  line_entry line = Some (k, v) →
  read_line m line = Ret (mkMemory (<[k := v]> (memaddr_map m)) (ldst_addr_buffer m)
                            (mem_req_stack m) (m_mem_mshr_stack m)).
Proof.
  unfold line_entry, read_line. destruct (tokens line) as [|t1 [|t2 [|t3 [|t4 [|]]]]]; try done.
  destruct (stoi t1), (stoi t3), (stoll t4); try done. by intros [= <- <-].
Qed.

Lemma read_lines_entries lines : ∀ m,
  Forall (λ l, is_Some (line_entry l)) lines →
  ∃ m', foldM read_line m lines = Ret m' ∧
    ldst_addr_buffer m' = ldst_addr_buffer m ∧
    memaddr_map m' = foldl (λ t '(k, v), <[k := v]> t) (memaddr_map m) (omap line_entry lines).
Proof.
  induction lines as [|l lines IH]; intros m Hl; [by exists m|].
  apply Forall_cons in Hl as [[[k v] Hkv] Hl]. cbn [foldM].
  rewrite (read_line_entry m l k v Hkv). cbn [mbind outcome_bind].
  destruct (IH (mkMemory (<[k := v]> (memaddr_map m)) (ldst_addr_buffer m) (mem_req_stack m) (m_mem_mshr_stack m)) Hl)
    as (m' & -> & Hb & Hm).
  exists m'. split; [done|]. split; [done|]. rewrite Hm. cbn. by rewrite Hkv.
Qed.

Lemma insert_all_lookup {K V} `{Countable K} (l : list (K * V)) : ∀ (t : gmap K V) k,
  foldl (λ t '(k, v), <[k := v]> t) t l !! k =
  match list_find (λ e, e.1 = k) (reverse l) with Some (_, (_, v)) => Some v | None => t !! k end.
Proof.
  induction l as [|[k0 v0] l IH]; intros t k; [done|]. cbn [foldl]. rewrite IH, reverse_cons.
  destruct (list_find (λ e : K * V, e.1 = k) (reverse l)) as [[i [k1 v1]]|] eqn:E.
  { by rewrite (list_find_app_l _ _ _ _ _ E). }
  rewrite (list_find_app_r _ _ _ E). cbn. case_decide as Hk; cbn in Hk.
  - subst. by rewrite lookup_insert_eq.
  - by rewrite lookup_insert_ne.
Qed.

(** Every number that does not fit or is none raises an exception. *)
Lemma parse_int_raise w t e : parse_int w t = Raise e → e = Uncaught.
Proof.
  unfold parse_int. intros E. repeat (case_match; try discriminate); congruence.
Qed.

(** How reading a line without an entry ends. *)
Definition line_fault (line : string) : fault := if (length (tokens line) =? 4)%nat then Uncaught else AssertFailed.

Lemma read_line_fault m line : line_entry line = None → read_line m line = Raise (line_fault line).
Proof.
  unfold line_entry, read_line, line_fault. destruct (tokens line) as [|t1 [|t2 [|t3 [|t4 [|]]]]]; try done. cbn [length Nat.eqb].
  destruct (stoi t1) as [?|e] eqn:E1; [|by apply parse_int_raise in E1 as ->].
  destruct (stoi t3) as [?|e] eqn:E3; [|by apply parse_int_raise in E3 as ->].
  destruct (stoll t4) as [?|e] eqn:E4; [done|by apply parse_int_raise in E4 as ->].
Qed.

Lemma read_lines_fault lines : ∀ m i l,
  list_find (λ l, line_entry l = None) lines = Some (i, l) → foldM read_line m lines = Raise (line_fault l).
Proof.
  induction lines as [|l0 lines IH]; intros m i l Hf; [done|]. cbn in Hf |- *. destruct (line_entry l0) as [[k v]|] eqn:E.
  - rewrite decide_False in Hf by done. destruct (list_find _ lines) as [[j l']|] eqn:Ef; [|done]. injection Hf as _ ->.
    rewrite (read_line_entry m l0 k v E). cbn [mbind outcome_bind]. by eapply IH.
  - rewrite decide_True in Hf by done. injection Hf as _ ->. by rewrite (read_line_fault m l E).
Qed.

(** [C26] Loading the memory map fails exactly when a line of the file has no
    entry: on the first such line, with an assertion when it has not four fields
    and with an exception when one of its numbers is none or does not fit.
    Otherwise [load_memory] returns a memory with an empty request buffer in
    which the last line of an iteration and node gives its address and direction,
    and the entries not in the file are the old ones; when the addresses are
    below the topmost cache line and the memory system is idle it satisfies the
    invariant of the front end. *)
Theorem load_memory_correct lines c :
  match list_find (λ l, line_entry l = None) lines with
  | Some (_, l) => load_memory lines c = Raise (line_fault l)
  | None =>
      ∃ c', load_memory lines c = Ret c' ∧
        (∀ k, memaddr_map (m_memory c') !! k =
          match list_find (λ e, e.1 = k) (reverse (omap line_entry lines)) with
          | Some (_, (_, v)) => Some v
          | None => memaddr_map (m_memory c) !! k
          end) ∧
        buffered (m_memory c') = [] ∧
        (∀ R `(RubyLaws R) (r : R), map_ok (m_memory c) →
           (∀ l k v, l ∈ lines → line_entry l = Some (k, v) → addr_ok (addr v)) →
           ruby_ok r → outstanding r = [] → mem_ok (m_memory c') r)
  end.
Proof.
  destruct (list_find _ lines) as [[i l]|] eqn:Hf.
  { unfold load_memory, read_memcsv. by rewrite (read_lines_fault lines _ i l Hf). }
  assert (Hl : Forall (λ l, is_Some (line_entry l)) lines).
  { apply list_find_None in Hf. eapply Forall_impl; [exact Hf|]. intros l Hn. by apply not_eq_None_Some. }
  clear Hf. destruct (read_lines_entries lines (m_memory c) Hl) as (m & Hm & _ & Hmap).
  unfold load_memory, read_memcsv. rewrite Hm. cbn [mbind outcome_bind].
  eexists. split; [done|]. cbn. split; [|split; [done|]].
  - intros k. rewrite Hmap. apply insert_all_lookup.
  - intros R P L r Hold Hnew Hr Ho. apply initialize_ok; [|done|done].
    intros k v Hk. rewrite Hmap, insert_all_lookup in Hk.
    destruct (list_find _ _) as [[i [k1 v1]]|] eqn:E; [|by eapply Hold].
    injection Hk as <-. apply list_find_Some in E as (Hi & _ & _).
    apply list_elem_of_lookup_2, elem_of_reverse, list_elem_of_omap in Hi as (l & Hin & He).
    by eapply Hnew.
Qed.
End readers.

(** ** The main loop *)

Definition REQ_SIZE : Z := 64.
Definition CHUNK_LIMIT : Z := 99.

(** What [buildChains] takes from the graph of the program. *)
Record Program := mkProgram {
  p_opcode : nat → string;
  p_Chains : list (list nat);
  p_un_dependencies : ordmap nat (list nat);
  p_un_reverse_mapping : ordmap nat (list nat);
  p_orig_map : ordmap nat Z
}.

(** The variables of [main]. *)
Record Sim (R : Type) := mkSim {
  testCore : Core;
  lane_globals : globals;
  m_ruby : R;
  memory_vector : list Z;
  flag_empty : bool;
  global_cnt : Z;
  acc_cycle : Z;
  ruby_cycle : Z;
  num_chunk_call : Z
}.
Arguments mkSim {R}.
Arguments testCore {R}.
Arguments lane_globals {R}.
Arguments m_ruby {R}.
Arguments memory_vector {R}.
Arguments flag_empty {R}.
Arguments global_cnt {R}.
Arguments acc_cycle {R}.
Arguments ruby_cycle {R}.
Arguments num_chunk_call {R}.

Section main.
Context `{RubyPort R}.
Implicit Types (s : Sim R) (r : R).

(** The loop over the callback queue: an answer removes its first occurrence
    from [memory_vector]. *)
Fixpoint take_answers (fuel : nat) (vec : list Z) r : outcome (list Z * R) :=
  match fuel with
  | O => Raise NoFuel
  | S fuel =>
      if RubyQueueEmpty r then Ret (vec, r)
      else if bool_decide (RubyQueueTop r ∈ vec)
      then take_answers fuel (erase_first (Z.eqb (RubyQueueTop r)) vec) (RubyQueuePop r)
      else Raise AssertFailed
  end.

Definition set_memory (vec : list Z) r s : Sim R :=
  mkSim (testCore s) (lane_globals s) r vec (flag_empty s) (global_cnt s) (acc_cycle s)
    (ruby_cycle s) (num_chunk_call s).

Definition set_flag (b : bool) s : Sim R :=
  mkSim (testCore s) (lane_globals s) (m_ruby s) (memory_vector s) b (global_cnt s) (acc_cycle s)
    (ruby_cycle s) (num_chunk_call s).

(** A cycle of the memory system. *)
Definition tick s : Sim R :=
  mkSim (testCore s) (lane_globals s) (advance_time (m_ruby s)) (memory_vector s) (flag_empty s)
    (u32 (global_cnt s + 1)) (acc_cycle s) (u32 (ruby_cycle s + 1)) (num_chunk_call s).

Definition answers_step (fuel : nat) s : outcome (Sim R) :=
  '(vec, r) ← take_answers fuel (memory_vector s) (m_ruby s); Ret (set_memory vec r s).

(** Before a chunk: wait for everything outstanding. *)
Fixpoint drain (afuel fuel : nat) s : outcome (Sim R) :=
  match memory_vector s with
  | [] => Ret s
  | _ => match fuel with
         | O => Raise NoFuel
         | S fuel => s ← answers_step afuel (tick s); drain afuel fuel s
         end
  end.

Fixpoint await_ready (fuel : nat) (a : Z) s : outcome (Sim R) :=
  if isReady (m_ruby s) a REQ_SIZE false then Ret s
  else match fuel with
       | O => Raise NoFuel
       | S fuel => await_ready fuel a (tick s)
       end.

(** Steps 3 and 4: a line not outstanding is sent once Ruby is ready. *)
Definition send_line (fuel : nat) (req_addr : Z) (isWrite : bool) s : outcome (Sim R) :=
  if bool_decide (req_addr ∈ memory_vector s) then Ret s
  else
    s ← await_ready fuel req_addr s;
    if isReady (m_ruby s) req_addr REQ_SIZE false then
      Ret (set_memory (memory_vector s ++ [req_addr])
             (send_request (m_ruby s) req_addr REQ_SIZE isWrite) s)
    else Ret s.

(** A request of the host: 4 fields (address last) or 3 (address first). *)
Definition request_fields (m : list string) : outcome (Z * string) :=
  match m with
  | [_; opcode; _; t_addr] => a ← stoll t_addr; Ret (u64 a, opcode)
  | [t_addr; opcode; _] => a ← stoll t_addr; Ret (u64 a, opcode)
  | _ => Raise AssertFailed
  end.

Definition request_line (fuel : nat) (m : list string) s : outcome (Sim R) :=
  '(r_addr, opcode) ← request_fields m;
  s ← send_line fuel (base_addr r_addr) (bool_decide (opcode = "Store"%string)) (tick (set_flag false s));
  answers_step fuel s.

(** [while(!testCore.run_a_cycle())]: the cycle that finishes is not counted. *)
Fixpoint run_core (fuel : nat) s : outcome (Sim R) :=
  match fuel with
  | O => Raise NoFuel
  | S fuel =>
      '(finished, (c, g, r)) ← run_a_cycle (testCore s) (lane_globals s) (m_ruby s);
      if (finished : bool) then
        Ret (mkSim c g r (memory_vector s) (flag_empty s) (global_cnt s) (acc_cycle s) (ruby_cycle s)
               (num_chunk_call s))
      else
        run_core fuel (mkSim c g r (memory_vector s) (flag_empty s) (u32 (global_cnt s + 1))
                         (u32 (acc_cycle s + 1)) (ruby_cycle s) (num_chunk_call s))
  end.

(** The core as a chunk finds it, up to [initialize]. *)
Definition prepare_core (p : Program) (t_iter : string) (c : Core) : outcome Core :=
  c ← buildChains (p_opcode p) (p_Chains p) (p_un_dependencies p) (p_un_reverse_mapping p)
        (p_orig_map p) c;
  n ← stol t_iter;
  Ret (coreSetIter n c).

(** A chunk marker; the flag says whether the limit is exceeded. *)
Definition chunk_line (fuel : nat) (junk : nat * nat) (p : Program) (t_iter : string) s
    : outcome (bool * Sim R) :=
  s ← (if flag_empty s then Ret s else s ← drain fuel fuel s; Ret (set_flag true s));
  c ← prepare_core p t_iter (testCore s);
  c ← Core.initialize junk c;
  s ← run_core fuel (mkSim c (lane_globals s) (m_ruby s) (memory_vector s) (flag_empty s) (global_cnt s)
                       (acc_cycle s) (ruby_cycle s) (num_chunk_call s));
  Ret (CHUNK_LIMIT <? num_chunk_call s,
       mkSim (testCore s) (lane_globals s) (m_ruby s) (memory_vector s) (flag_empty s) (global_cnt s)
         (acc_cycle s) (ruby_cycle s) (u32 (num_chunk_call s + 1))).

Fixpoint main_loop (tokens : string → list string) (fuel : nat) (junk : nat * nat) (p : Program)
    (lines : list string) s : outcome (Sim R) :=
  match lines with
  | [] => Ret s
  | line :: lines =>
      let m := tokens line in
      match m with
      | [t_iter; _] =>
          '(stop, s) ← chunk_line fuel junk p t_iter s;
          if (stop : bool) then Ret s else main_loop tokens fuel junk p lines s
      | [_; _; _] | [_; _; _; _] =>
          s ← request_line fuel m s; main_loop tokens fuel junk p lines s
      | _ => Raise AssertFailed
      end
  end.

Definition start_sim (c : Core) r : Sim R := mkSim c new_globals r [] true 0 0 0 0.
End main.

(** ** The host's requests *)

Section host.
Context `{RubyLive R}.
Implicit Types (s : Sim R) (r : R).

(** [memory_vector] holds the distinct lines Ruby has not answered. *)
Record sim_ok s : Prop := {
  sk_ruby : ruby_ok (m_ruby s);
  sk_vec : memory_vector s ≡ₚ outstanding (m_ruby s);
  sk_nodup : NoDup (memory_vector s);
  sk_flag : flag_empty s = true → memory_vector s = [];
  sk_glob : lane_globals s = new_globals
}.

(** Cycles and requests leave the accelerator and its counters alone. *)
Definition same_acc s s' : Prop :=
  testCore s' = testCore s ∧ num_chunk_call s' = num_chunk_call s ∧ flag_empty s' = flag_empty s.

Lemma due_vec s : sim_ok s → (due (m_ruby s) ≤ live_bound * length (memory_vector s))%nat.
Proof.
  intros [Hr Hv _ _ _]. etrans; [by apply due_bound|]. apply Nat.mul_le_mono_l.
  rewrite (Permutation_length Hv). unfold outstanding. rewrite length_app. lia.
Qed.

Lemma take_answers_ok fuel : ∀ vec r,
  ruby_ok r → vec ≡ₚ outstanding r → NoDup vec → (length (answers r) < fuel)%nat →
  ∃ vec' r', take_answers fuel vec r = Ret (vec', r') ∧ ruby_ok r' ∧ vec' ≡ₚ outstanding r' ∧
    NoDup vec' ∧ answers r' = [] ∧ inflight r' = inflight r ∧ (due r' ≤ due r)%nat ∧
    vec ≡ₚ answers r ++ vec'.
Proof.
  induction fuel as [|fuel IH]; intros vec r Hr Hv Hnd Hlt; [lia|]. cbn [take_answers].
  rewrite ruby_empty. case_bool_decide as E.
  { exists vec, r. rewrite E. by split_and!. }
  destruct (answers r) as [|a l] eqn:Ea; [done|]. rewrite (ruby_top r a l Ea).
  pose proof (outstanding_pop r a l Hr Ea) as Ho. destruct (ruby_pop r a l Hr Ea) as (Hr' & Ha' & Hi').
  rewrite Ho in Hv. rewrite bool_decide_eq_true_2 by (rewrite Hv; left).
  pose proof (erase_first_perm (Z.eqb a) vec a ltac:(rewrite Hv; left) (Z.eqb_refl a)) as He.
  specialize (He ltac:(intros y _ Hy; lia)). rewrite He in Hv. apply Permutation_cons_inv in Hv.
  pose proof Hnd as Hnd'. rewrite He in Hnd'. apply NoDup_cons in Hnd' as [_ Hnd'].
  destruct (IH _ _ Hr' Hv Hnd') as (vec' & r' & -> & K1 & K2 & K3 & K4 & K5 & K6 & K7).
  { rewrite Ha'. cbn in Hlt. lia. }
  exists vec', r'. rewrite Ha' in K7. split_and!; try done; [congruence| |by rewrite He, K7].
  pose proof (due_pop r a l Hr Ea). lia.
Qed.

Lemma answers_step_ok fuel s :
  sim_ok s → (length (memory_vector s) < fuel)%nat →
  ∃ s', answers_step fuel s = Ret s' ∧ sim_ok s' ∧ same_acc s s' ∧ answers (m_ruby s') = [] ∧
    inflight (m_ruby s') = inflight (m_ruby s) ∧ (due (m_ruby s') ≤ due (m_ruby s))%nat ∧
    memory_vector s ≡ₚ answers (m_ruby s) ++ memory_vector s'.
Proof.
  intros [Hr Hv Hnd Hf Hg] Hlt. unfold answers_step.
  destruct (take_answers_ok fuel (memory_vector s) (m_ruby s)) as (vec & r & -> & K1 & K2 & K3 & K4 & K5 & K6 & K7); try done.
  { apply Permutation_length in Hv. unfold outstanding in Hv. rewrite length_app in Hv. lia. }
  cbn [mbind outcome_bind]. eexists. split; [done|]. split_and!; try done. split; cbn; try done.
  intros Hfe. rewrite (Hf Hfe) in K7. apply Permutation_nil_l, eq_sym, app_eq_nil in K7. tauto.
Qed.

Lemma tick_ok s :
  sim_ok s → sim_ok (tick s) ∧ same_acc s (tick s) ∧ (due (m_ruby (tick s)) ≤ pred (due (m_ruby s)))%nat.
Proof.
  intros [Hr Hv Hnd Hf Hg]. split_and!; try done; [|by apply due_advance].
  split; cbn; try done; [by apply ruby_advance|]. by rewrite outstanding_advance.
Qed.

Lemma drain_ok afuel n : ∀ s,
  sim_ok s → (due (m_ruby s) < n)%nat → (length (memory_vector s) < afuel)%nat →
  ∃ s', drain afuel n s = Ret s' ∧ sim_ok s' ∧ same_acc s s' ∧ memory_vector s' = [].
Proof.
  induction n as [|n IH]; intros s Hs Hd Hl; [lia|]. cbn [drain].
  destruct (memory_vector s) as [|a v] eqn:Ev; [by exists s|].
  destruct (tick_ok s Hs) as (Ht & Hacc & Hdt). rewrite <- Ev in Hl.
  destruct (answers_step_ok afuel (tick s) Ht Hl) as (s1 & -> & Hs1 & Hacc1 & Ha1 & Hi1 & Hd1 & Hp1).
  cbn [mbind outcome_bind].
  assert (same_acc s s1) as Hacc' by (unfold same_acc in *; naive_solver congruence).
  assert (length (memory_vector s1) ≤ length (memory_vector s))%nat as Hl1.
  { apply Permutation_length in Hp1. rewrite length_app in Hp1. cbn in Hp1. lia. }
  destruct (decide (memory_vector s1 = [])) as [Hnil|Hne].
  { exists s1. split_and!; try done. destruct n; cbn [drain]; by rewrite Hnil. }
  destruct (Nat.eq_dec (due (m_ruby s1)) O) as [Hz|Hz].
  { exfalso. apply Hne. pose proof (sk_vec _ Hs1) as Hv. unfold outstanding in Hv.
    rewrite Ha1, (due_idle _ (sk_ruby _ Hs1) Hz) in Hv. by apply Permutation_nil_r in Hv. }
  destruct (IH s1 Hs1) as (s' & -> & Hs' & Hacc2 & Hnil); [lia|lia|].
  exists s'. split_and!; try done; unfold same_acc in *; naive_solver congruence.
Qed.

Lemma await_ok a n : ∀ s,
  sim_ok s → a ∉ memory_vector s → (due (m_ruby s) ≤ n)%nat →
  ∃ s', await_ready n a s = Ret s' ∧ sim_ok s' ∧ same_acc s s' ∧
    memory_vector s' = memory_vector s ∧ isReady (m_ruby s') a REQ_SIZE false = true.
Proof.
  induction n as [|n IH]; intros s Hs Ha Hd; cbn [await_ready];
    (destruct (isReady (m_ruby s) a REQ_SIZE false) eqn:Er; [by exists s|]).
  - exfalso. rewrite idle_ready in Er; [done|apply Hs|apply due_idle; [apply Hs|lia]|].
    intros Hin. apply Ha. rewrite (sk_vec _ Hs). apply elem_of_app. by left.
  - destruct (tick_ok s Hs) as (Ht & Hacc & Hdt).
    destruct (IH (tick s) Ht Ha) as (s' & -> & Hs' & Hacc' & Hv & Hr); [lia|].
    exists s'. split_and!; try done; unfold same_acc in *; naive_solver congruence.
Qed.

(** A line with the fields of a request. *)
Definition is_request (m : list string) : Prop :=
  (length m = 3 ∨ length m = 4)%nat ∧ ∃ a op, request_fields m = Ret (a, op).

Lemma send_line_ok fuel a w s :
  sim_ok s → flag_empty s = false → (live_bound * length (memory_vector s) ≤ fuel)%nat →
  ∃ s', send_line fuel a w s = Ret s' ∧ sim_ok s' ∧ same_acc s s' ∧
    memory_vector s' = (if decide (a ∈ memory_vector s) then memory_vector s else memory_vector s ++ [a]).
Proof.
  intros Hs Hf Hfu. unfold send_line. case_bool_decide as Ha.
  { exists s. by rewrite decide_True. }
  destruct (await_ok a fuel s Hs Ha) as (s1 & -> & Hs1 & Hacc & Hv & Hr).
  { etrans; [by apply due_vec|done]. }
  cbn [mbind outcome_bind]. rewrite Hr, decide_False by done. eexists. split; [done|].
  destruct Hs1 as [Sr Sv Snd Sf Sg]. split; [|cbn; by rewrite Hv].
  split; cbn; [by apply (ruby_send _ _ _ _ false)| | |intros E|done].
  - rewrite (outstanding_send _ _ _ _ false Sr), Sv by (done || lia). by rewrite Permutation_app_comm.
  - rewrite Hv. apply NoDup_app. rewrite Hv in Snd. split_and!; [done| |apply NoDup_singleton].
    intros x Hx ->%list_elem_of_singleton. done.
  - destruct Hacc as (_ & _ & E'). congruence.
Qed.

Lemma request_line_ok fuel m s :
  sim_ok s → is_request m → ((live_bound + 1) * (length (memory_vector s) + 2) ≤ fuel)%nat →
  ∃ s', request_line fuel m s = Ret s' ∧ sim_ok s' ∧ testCore s' = testCore s ∧
    num_chunk_call s' = num_chunk_call s ∧ flag_empty s' = false ∧ answers (m_ruby s') = [] ∧
    (length (memory_vector s') ≤ S (length (memory_vector s)))%nat.
Proof.
  intros Hs [_ (a & op & Hm)] Hfu. unfold request_line. rewrite Hm. cbn [mbind outcome_bind].
  assert (sim_ok (set_flag false s)) as Hs0 by (by destruct Hs; split).
  destruct (tick_ok _ Hs0) as (Ht & _ & _).
  set (s1 := tick (set_flag false s)) in *.
  assert (testCore s1 = testCore s ∧ num_chunk_call s1 = num_chunk_call s ∧ flag_empty s1 = false)
    as (T1 & T2 & T3) by done.
  change (memory_vector s) with (memory_vector s1) in *.
  destruct (send_line_ok fuel (base_addr a) (bool_decide (op = "Store"%string)) s1 Ht)
    as (s2 & -> & Hs2 & (A1 & A2 & A3) & Hv); [done|lia|].
  cbn [mbind outcome_bind].
  assert (length (memory_vector s2) ≤ S (length (memory_vector s1)))%nat as Hl.
  { rewrite Hv. case_decide; [lia|]. rewrite length_app. cbn. lia. }
  destruct (answers_step_ok fuel s2 Hs2) as (s3 & -> & Hs3 & (B1 & B2 & B3) & Ha & _ & _ & Hp); [lia|].
  exists s3. apply Permutation_length in Hp. rewrite length_app in Hp.
  split_and!; try done; [congruence..|lia].
Qed.

(** The outermost fuel that is enough for [n] more lines. *)
Definition host_fuel (s : Sim R) (n : nat) : nat := ((live_bound + 1) * (length (memory_vector s) + n + 2))%nat.

Lemma requests_ok tokens fuel junk p rest lines : ∀ s,
  sim_ok s → Forall (λ l, is_request (tokens l)) lines → (host_fuel s (length lines) ≤ fuel)%nat →
  ∃ s', main_loop tokens fuel junk p (lines ++ rest) s = main_loop tokens fuel junk p rest s' ∧
    sim_ok s' ∧ testCore s' = testCore s ∧ num_chunk_call s' = num_chunk_call s ∧
    (length (memory_vector s') ≤ length (memory_vector s) + length lines)%nat.
Proof.
  induction lines as [|l lines IH]; intros s Hs Hl Hfu.
  { exists s. split_and!; try done. lia. }
  apply Forall_cons in Hl as [Hl Hls]. unfold host_fuel in Hfu. cbn [length] in *.
  destruct (request_line_ok fuel (tokens l) s Hs Hl) as (s1 & E & Hs1 & C1 & N1 & _ & _ & Hv1); [nia|].
  destruct (IH s1 Hs1 Hls) as (s' & E' & Hs' & C' & N' & Hv'); [unfold host_fuel; nia|].
  exists s'. split_and!; [|done|congruence|congruence|lia].
  cbn [app main_loop]. destruct Hl as [[Hlen|Hlen] _];
    destruct (tokens l) as [|t1 [|t2 [|t3 [|t4 [|]]]]]; try done; rewrite E; cbn [mbind outcome_bind]; done.
Qed.

(** ** The accelerator's turn *)

(** When the core has finished it has no request outstanding. *)
Lemma finish_idle c r : core_ok c r → is_finish c = true → outstanding r = [].
Proof.
  intros Hok Hfin. unfold is_finish in Hfin. apply andb_true_iff in Hfin as [_ Hfree].
  pose proof (lk_buf _ _ _ _ _ (co_link _ _ _ Hok)) as Hb.
  assert (concat (waiting <$> m_lanes c) = []) as Hw.
  { apply concat_nil_Forall, Forall_fmap, Forall_forall. intros l Hl. cbn.
    rewrite forallb_forall in Hfree. specialize (Hfree l (proj1 (list_elem_of_In _ _) Hl)).
    unfold Lane.is_free in Hfree. unfold waiting. rewrite !andb_true_iff in Hfree.
    destruct Hfree as [[[_ He] _] _]. apply Z.eqb_eq in He. by rewrite He. }
  rewrite Hw in Hb. apply Permutation_nil_r in Hb. unfold buffered in Hb. apply fmap_nil_inv in Hb.
  pose proof (mo_lines _ _ (co_mem _ _ _ Hok)) as Hl. rewrite Hb in Hl.
  by apply Permutation_nil_l, eq_sym in Hl.
Qed.

Lemma run_core_ok n : ∀ s,
  core_ok (testCore s) (m_ruby s) → lane_globals s = new_globals → ruby_mode (m_lanes (testCore s)) →
  ranked (un_dependencies (testCore s)) → is_finish (testCore s) = false →
  measure (testCore s) (m_ruby s) ≤ Z.of_nat n →
  ∃ s', run_core n s = Ret s' ∧ core_ok (testCore s') (m_ruby s') ∧ is_finish (testCore s') = true ∧
    lane_globals s' = new_globals ∧ memory_vector s' = memory_vector s ∧
    flag_empty s' = flag_empty s ∧ num_chunk_call s' = num_chunk_call s.
Proof.
  induction n as [|n IH]; intros s Hok Hg Hm Hr Hfin Hn;
    destruct (cycle_progress _ _ Hok Hm Hr Hfin) as (c' & r' & Hc & Hok' & Hm' & Hr' & Hlt).
  - pose proof (remaining_nonneg c' r' Hok'). unfold measure in *. nia.
  - cbn [run_core]. unfold run_a_cycle. rewrite Hg, Hc. cbn [mbind outcome_bind].
    destruct (is_finish c') eqn:Hfin'; [eexists; split; [done|]; by split_and!|].
    match goal with |- context [run_core n ?x] => destruct (IH x) as (s' & -> & K) end; try done.
    { cbn. lia. }
    exists s'. split; [done|exact K].
Qed.

(** The accelerator can run: prepared, it is in the state of [initialize]
    over any idle memory system, on a chain graph without loop. *)
Record chunk_ready (p : Program) (t_iter : string) (c c1 : Core) : Prop := {
  ch_prepared : prepare_core p t_iter c = Ret c1;
  ch_start : ∀ r, ruby_ok r → outstanding r = [] → start_ok true c1 r;
  ch_mode : ruby_mode (m_lanes c1);
  ch_ranked : ranked (un_dependencies c1)
}.

(** The cycles a run of the prepared core takes at most. *)
Definition chunk_fuel (c1 : Core) : nat :=
  Z.to_nat (remaining c1 * (Z.of_nat (length (m_lanes c1)) + 1) * (10 * Z.of_nat live_bound + 1)).

Lemma chunk_line_ok fuel junk p t_iter s c1 :
  sim_ok s → chunk_ready p t_iter (testCore s) c1 →
  (host_fuel s 0 ≤ fuel)%nat → (chunk_fuel c1 ≤ fuel)%nat →
  ∃ s', chunk_line fuel junk p t_iter s = Ret (CHUNK_LIMIT <? num_chunk_call s, s') ∧ sim_ok s' ∧
    memory_vector s' = [] ∧ is_finish (testCore s') = true ∧ core_ok (testCore s') (m_ruby s') ∧
    num_chunk_call s' = u32 (num_chunk_call s + 1).
Proof.
  intros Hs [Hp Hst Hm Hr] Hf1 Hf2. unfold chunk_line, host_fuel in *.
  assert (∃ s1, (if flag_empty s then Ret s else s ← drain fuel fuel s; Ret (set_flag true s)) = Ret s1 ∧
    sim_ok s1 ∧ memory_vector s1 = [] ∧ testCore s1 = testCore s ∧ num_chunk_call s1 = num_chunk_call s)
    as (s1 & -> & Hs1 & Hv1 & Hc1 & Hn1).
  { destruct (flag_empty s) eqn:Ef; [exists s; split_and!; try done; by apply Hs|].
    pose proof (due_vec s Hs).
    destruct (drain_ok fuel fuel s Hs) as (s1 & -> & Hs1 & (A1 & A2 & A3) & Hv); [nia|nia|].
    cbn [mbind outcome_bind]. eexists. split; [done|]. split_and!; try done. by destruct Hs1; split. }
  cbn [mbind outcome_bind]. rewrite Hc1, Hp. cbn [mbind outcome_bind].
  assert (outstanding (m_ruby s1) = []) as Ho.
  { pose proof (sk_vec _ Hs1) as Hv. rewrite Hv1 in Hv. by apply Permutation_nil_l in Hv. }
  pose proof (Hst _ (sk_ruby _ Hs1) Ho) as Hst1.
  destruct (core_initialize_ok true junk c1 _ Hst1) as (c2 & -> & Hok & _ & Hu & Hls & Hin & Hmem).
  cbn [mbind outcome_bind].
  assert (is_finish c2 = false) as Hfin.
  { unfold is_finish. rewrite Hin. destruct (st_pre _ _ _ Hst1) as [Hg Hc _ _ _ _ _ _ _].
    rewrite bool_decide_eq_false_2; [done|]. intros E. rewrite E in Hc. cbn in Hc.
    apply Permutation_nil_r, map_eq_nil in Hc. done. }
  assert (measure c2 (m_ruby s1) ≤ Z.of_nat fuel) as Hme.
  { assert (measure c2 (m_ruby s1) = measure c1 (m_ruby s1)) as ->.
    { unfold measure, remaining. by rewrite Hls, Hin, Hmem. }
    rewrite (start_measure _ _ Hst1). unfold chunk_fuel in Hf2. lia. }
  match goal with |- context [run_core fuel ?x] => destruct (run_core_ok fuel x) as (s2 & -> & K1 & K2 & K3 & K4 & K5 & K6) end;
    cbn; try done; [apply Hs1|by rewrite Hls|by rewrite Hu|].
  cbn in K4, K5, K6. rewrite K6, Hn1. eexists. split; [done|].
  split_and!; cbn; try done; [|congruence].
  split; cbn; try done.
  - apply (co_mem _ _ _ K1).
  - rewrite K4, Hv1, (finish_idle _ _ K1 K2). done.
  - rewrite K4, Hv1. constructor.
  - intros _. by rewrite K4.
Qed.
End host.

(** [C1] The simulator end to end: a trace of host requests with one chunk
    marker, over an idle memory system that answers within a bound.  [main]
    reads the whole trace without a fault - the answer of every response is a
    line it waits for, every inner loop ends within the fuel given - at the end
    the lines it waits for are the distinct lines not yet answered, and the
    accelerator has run to its end once. *)
Theorem main_correct `{RubyLive R} tokens fuel junk p before chunk t_iter u after c c1 (r : R) :
  ruby_ok r → outstanding r = [] →
  Forall (λ l, is_request (tokens l)) before → Forall (λ l, is_request (tokens l)) after →
  tokens chunk = [t_iter; u] → chunk_ready p t_iter c c1 →
  ((live_bound + 1) * (length before + length after + 2) + chunk_fuel c1 ≤ fuel)%nat →
  ∃ s', main_loop tokens fuel junk p (before ++ chunk :: after) (start_sim c r) = Ret s' ∧
    sim_ok s' ∧ is_finish (testCore s') = true ∧ num_chunk_call s' = 1.
Proof.
  intros Hr Ho Hb Ha Htok Hch Hfu.
  assert (sim_ok (start_sim c r)) as Hs0 by (split; cbn; rewrite ?Ho; done || constructor).
  destruct (requests_ok tokens fuel junk p (chunk :: after) before _ Hs0 Hb) as (s1 & -> & Hs1 & C1 & N1 & V1).
  { unfold host_fuel. cbn. nia. }
  cbn in C1, N1, V1. cbn [main_loop]. rewrite Htok. rewrite <- C1 in Hch.
  destruct (chunk_line_ok fuel junk p t_iter s1 c1 Hs1 Hch) as (s2 & -> & Hs2 & V2 & F2 & _ & N2);
    [unfold host_fuel; nia|lia|].
  cbn [mbind outcome_bind]. rewrite N1. change (CHUNK_LIMIT <? 0) with false. cbv iota.
  destruct (requests_ok tokens fuel junk p [] after s2 Hs2 Ha) as (s3 & E & Hs3 & C3 & N3 & _).
  { unfold host_fuel. rewrite V2. cbn. nia. }
  rewrite app_nil_r in E. exists s3. rewrite E. split_and!; [done|done|congruence|].
  rewrite N3, N2, N1. done.
Qed.

(** ** A concrete run *)

(** Fields between commas, empty ones dropped. *)
Fixpoint split_comma (cur : string) (l : string) : list string :=
  match l with
  | EmptyString => if bool_decide (cur = EmptyString) then [] else [cur]
  | String ","%char l => (if bool_decide (cur = EmptyString) then [] else [cur]) ++ split_comma EmptyString l
  | String a l => split_comma (cur ++ String a EmptyString) l
  end.

Definition ex_tokens : string → list string := split_comma EmptyString.

Definition ex_map_lines : list string := ["0,Load,12,100"; "0,Store,14,200"; "1,Load,12,4096"]%string.

(** A file that can be read, and one that cannot. *)
Example load_memory_cases :
  (c ← load_memory ex_tokens ex_map_lines (ex_core 3); Ret (memaddr_map (m_memory c) !! (0, 14))) = Ret (Some (mkMemValue true 200)) ∧
  load_memory ex_tokens ["0,Load,12,100"; "0,Load,x,100"; "1"]%string (ex_core 3) = Raise Uncaught.
Proof. split; vm_compute; reflexivity. Qed.

Definition ex_program : Program := mkProgram ex_opcode ex_decom ex_un ex_rev ex_map.

Definition ex_core0 : Core :=
  match new_Core 2 (ex_params 3) ex_llvm lane_def ex_graph with
  | Ret c => { c with m_memory := ex_memory }
  | Raise _ => ex_core 3
  end.

Lemma ex_chunk_ready `{RubyLive R} : chunk_ready (R := R) ex_program "0" ex_core0 (ex_core 3).
Proof.
  split; [reflexivity| |apply ex_ruby_mode|apply ex_ranked].
  intros r Hr Ho. by apply ex_start_on.
Qed.

Definition ex_before : list string := ["200,Load,0"; "1,Store,2,4096"; "210,Load,0"]%string.
Definition ex_after : list string := ["64,Store,0"]%string.

Lemma ex_requests : Forall (λ l, is_request (ex_tokens l)) (ex_before ++ ex_after).
Proof.
  repeat constructor; try (vm_compute; lia); do 2 eexists; vm_compute; reflexivity.
Qed.

(** The run over the Ruby system of [RubySystem] with a memory of fixed
    latency. *)
Lemma main_correct_witness :
  ruby_ok ruby_init ∧ outstanding ruby_init = [] ∧
  ∃ s', main_loop ex_tokens
      ((live_bound (R := world (ruby_state memory_chip)) + 1) * (3 + 1 + 2) +
       chunk_fuel (R := world (ruby_state memory_chip)) (ex_core 3))%nat (0, 0)%nat ex_program
      (ex_before ++ "0,CHUNK"%string :: ex_after) (start_sim ex_core0 ruby_init) = Ret s' ∧
    sim_ok s' ∧ is_finish (testCore s') = true ∧ num_chunk_call s' = 1.
Proof.
  split; [exact ruby_init_ok|]. split; [reflexivity|].
  pose proof ex_requests as Hreq. apply Forall_app in Hreq as [Hb Ha].
  apply (@main_correct _ ruby_port ruby_laws ruby_live ex_tokens _ (0, 0)%nat ex_program ex_before "0,CHUNK"%string "0"%string "CHUNK"%string
           ex_after ex_core0 (ex_core 3) ruby_init ruby_init_ok eq_refl Hb Ha eq_refl ex_chunk_ready).
  apply le_n.
Defined.

(** The same run, evaluated: one line is left unanswered. *)
Lemma ex_run :
  ∃ s', main_loop ex_tokens 600 (0, 0)%nat ex_program (ex_before ++ "0,CHUNK"%string :: ex_after)
          (start_sim ex_core0 ruby_init) = Ret s' ∧
    memory_vector s' = [64] ∧ global_cnt s' = 66 ∧ ruby_cycle s' = 23 ∧ acc_cycle s' = 43 ∧
    w_fault (rest (m_ruby s')) = None.
Proof.
  eexists. split; [vm_compute; reflexivity|].
  split; [vm_compute; reflexivity|]. split; [vm_compute; reflexivity|]. split; [vm_compute; reflexivity|].
  split; vm_compute; reflexivity.
Qed.
